(* ===== verification/_CoqProject ===== *)
-Q . S2P
Prelude.v
Bytes.v
Crc32c.v
Layout.v
Pmem.v
Device.v
DiskFormat.v
Bitmap.v
KernelFunc.v
Frame.v
Kfs.v
MetaCache.v
Txn.v
LibSpace.v
Index.v
IndexWords.v
IndexTree.v
IndexInsert.v
IndexMap.v
IndexOps.v
IndexChange.v
IndexPages.v
Journal.v
Migration.v
JournalService.v
JournalCrash.v
Recovery.v
RangeArbiter.v
Namespace.v
DataPath.v
DataWrite.v
Extents.v
Directory.v
Tree.v
Rename.v
NamespaceOps.v
FileOps.v
Rpc.v
Ipc.v
IpcRing.v
IpcQueue.v
IpcSession.v
Server.v
ServerTypes.v
Client.v
ClientCalls.v
ClientData.v
CoreFs.v
Remote.v
ServerHandle.v
ServerLane.v
ClientLane.v
