(* ===== verification/Prelude.v ===== *)
(** * OrchFS: a verification development

    OrchFS is a file system over byte-addressable persistent memory (PMEM) and an
    NVMe SSD.  A server process formats and mounts the devices, keeps all metadata,
    and serves clients; the clients' requests run as coroutines on the workers of a
    runtime.  This library models the parts below in Rocq, by translation of the
    sources under src/, and proves what makes them correct.

    ** The parts, and the files that model them

    - CRC32C (include/orchfs/crc32c.h): Crc32c.v.  The bit-serial and the SSE4.2 routine
      agree, and the checksum detects every burst of 32 bits.
    - Layout (config/, KernelFS/addr_util.h): Layout.v.  Blocks of the six areas never
      overlap; block ids and device addresses convert without overflow.
    - On-media structures (include/orchfs/disk_format.h, KernelFS/type.h): DiskFormat.v,
      as byte images with round trips, over the byte strings of Bytes.v.
    - Devices (KernelFS/device.c): Pmem.v (the copy routine at the level of stores and
      cache lines, refined to one copy), Device.v (the address space over both devices,
      split requests and their completion).
    - Block allocator (KernelFS/balloc.c): Bitmap.v.  Requests to it (kernel_func.c,
      req_kernel.c): KernelFunc.v.  Reservation in a transaction (LibFS/libspace.c):
      LibSpace.v.
    - Metadata cache (LibFS/meta_cache.c): MetaCache.v, over the state and effects of
      Kfs.v.
    - Transactions and write-ahead log (LibFS/lib_log.c): Txn.v, Frame.v, Journal.v;
      JournalCrash.v and Recovery.v add power failures: writes between fences reach the
      media in any part, and recovery makes each commit atomic.  JournalService.v (the class
      of that name in Async/kfs_coroutine_core.cpp) commits for all workers.
    - File index (LibFS/index.c): Index.v is the translation; IndexWords.v, IndexTree.v,
      IndexInsert.v, IndexMap.v, IndexOps.v and IndexChange.v refine it to a map from
      blocks to slots.
    - Migration (LibFS/migrate.c, KernelFS/async_server_bridge.cpp, the driver in
      Async/kfs_coroutine_core.cpp): Migration.v, with every way a migration can fail.
    - Range permits (Async/range_arbiter.cpp): RangeArbiter.v, a transition system in
      which clients of all workers interleave with the owner.
    - Namespace coordination (Async/namespace_coordinator.cpp): Namespace.v, with the
      order of locks.
    - Coroutine core (Async/kfs_coroutine_core.cpp): DataPath.v (reading), DataWrite.v
      (writing), Extents.v (the extent cache), Directory.v (lookup, creation, removal,
      renaming, opening and closing), FileOps.v (status, seeking, listing, truncation, the
      permits of data calls); Tree.v, Rename.v and NamespaceOps.v prove the
      invariant of the directory tree over every sequence of operations.
    - IPC transport (Async/ipc_transport.cpp, include/orchfs/async/ipc_protocol.hpp): Ipc.v
      (the layout of a shared mapping, its initialisation and checks), IpcRing.v (the rings
      as operations on the bytes of the mapping), IpcQueue.v (both sides of a ring
      interleaved store by store), IpcSession.v (handshake, submission and completion).
    - RPC messages (include/orchfs/async/rpc_protocol.hpp): Rpc.v, as byte images.
    - Server (Async/server.cpp): Server.v has every request handler, over the interface
      [AsyncFilesystem] of the file system it serves; ServerTypes.v shows what all handlers
      keep; ServerHandle.v runs the requests on one handle in any interleaving, and
      ServerLane.v the lanes of a session with their pollers, coroutines and queues.
    - Client (Async/client.cpp): Client.v has the calls of Client, File and Directory;
      ClientCalls.v and ClientData.v say what they do over a server, the latter over the
      interface [FileView] of a file; ClientLane.v runs the lanes of a client's session.
    - CoreFs.v makes the coroutine core an instance of [AsyncFilesystem] and its files
      instances of [FileView]; Remote.v puts client, wire, server and core together.
    - Prelude.v: machine integers, loops, lemmas the other files share.

    ** How the sources are translated

    Integers are [Z] with the wrap-around of their C type written out ([u64], [s64], ...).
    Structures on the media are byte lists; structures in memory are records.  C code
    with global state is written in the state monad [M] of Kfs.v, where [None] is a call
    of abort() or exit(); coroutine code passes its state explicitly and returns a sum
    [Z + A] whose left side is an error number.  What the environment decides (failed
    device accesses, exhausted memory, the content of uninitialised memory) is a parameter
    of the definitions, so the theorems hold for every outcome.  Hardware
    instructions have the semantics of the architecture manual.

    ** What the theorems show

    - Durability: a commit is atomic across power failure at every point (Recovery.v),
      and recovery reads back what commit wrote (Frame.v, DiskFormat.v); the transactions
      of all workers are committed once each, in order (JournalService.v).
    - Space: an allocation returns free blocks or fails without a change; a reservation
      never leaks; counters are exact (Bitmap.v, LibSpace.v).
    - Files: the index maps every block to what was appended; a read returns the bytes
      that were written, for every mixture of block kinds; the extent cache agrees with
      the index (IndexOps.v, DataPath.v, DataWrite.v, Extents.v).
    - Names: every sequence of operations keeps one tree, caches agree with directories,
      a rename is all or nothing, the ancestor test terminates (NamespaceOps.v).
      A listing in calls of any sizes gives each name once (FileOps.v).
    - Moves and sizes: a migrated block keeps its bytes whatever fails on the way
      (Migration.v); truncation ends with the asked size, old bytes and zeros (FileOps.v).
    - Concurrency: permits exclude each other, no wake-up is lost, waiting does not
      overtake, namespace operations do not deadlock (RangeArbiter.v, Namespace.v); the
      data calls that share a block hold permits that exclude a race (FileOps.v).
    - Transport: a ring in shared memory is a queue under every interleaving of its two
      sides (IpcQueue.v); a mapping is accepted only if its regions are inside it and
      disjoint (Ipc.v); a request and its response arrive unchanged (IpcSession.v).
    - Remote calls: what a client encodes is what the server parses (Rpc.v); paths, data
      and listings through a session are those of the core, for buffers and slots of any
      size; whatever a client sends, the session stays well typed, and a failed request
      leaves no trace in it (Remote.v).
    - Sessions: requests on a handle never meet a close in the file system, share its
      offset without loss and come to an end (ServerHandle.v); a lane of the server never
      runs out of slots and answers each request once (ServerLane.v); a suspended call of
      a client is resumed once, with its own reply (ClientLane.v).
    - Defects: [ssd_write_unaligned_corrupts] (Device.v), [removed_directory_loses_files]
      (NamespaceOps.v), [shared_capacity_is_reread] (IpcQueue.v), [call_after_close]
      (ServerHandle.v), [drained_strands_call] and [direct_call_takes_foreign_reply]
      (ClientLane.v) are runs of the code that end where it does not mean to.

    ** Bounds and fuel

    The index has at most [MAX_LAYER] layers, so [SEARCH_FUEL] = 8 nested calls suffice for
    any content of the nodes ([search_terminates]) and [INSERT_FUEL] = 16 for insertion.
    [APPEND_FUEL] = 2^43 exceeds the blocks a file can have, [RECOVER_FUEL] = 2^20 the
    frames the log can hold; the loops consume them in binary.  A virtual block has
    eight pages, hence nine rounds of page parts.  The ancestor test visits each inode
    at most once ([below_fuel]).  A rename tries eight times, as in the source.  The extent cache
    probes its 8192 entries.  A listing takes one window more than there are entries
    ([read_windows]), growing a file one round per chunk and one more ([extend]), a transfer
    through a session one round per byte and one more ([chunk_fuel]).  Positions of a ring
    stay below 2^64 and request ids do not wrap.  The abandoned reservation of a torn-down
    session is outside the transition system of a ring.

    ** Not modelled

    Scheduling of coroutines on the workers and the io_uring loops of the runtime: the
    transition systems above it take any interleaving instead.  The control
    pollers that start and retire sessions, start-up and shut-down of the processes, the POSIX interposition layer, the
    kernel-side index and the helper containers of util/, SPDK, and the filebench benchmark
    are not modelled: most of it is system calls, or calls of libraries outside the sources.
    Sockets, event counters and memory objects appear as outcomes of system calls.  The
    handlers of Server.v run one request at a time; what requests share is in ServerHandle.v
    and ServerLane.v.
    Data of directories is a list of entries: the data path below it is verified for
    regular files.  The interleaving of allocator operations is modelled at the
    granularity of whole operations. *)

From stdpp Require Import base tactics numbers list.
From Stdlib Require Import ZArith Lia.

#[export] Set Default Goal Selector "!".
Open Scope Z_scope.

(** ** Machine-width integers

    C integers are kept as [Z]; the wrap-around of the unsigned types and the
    two's-complement reading of the signed ones are written out. *)

Definition u8 (z : Z) : Z := z mod 2 ^ 8.
Definition u32 (z : Z) : Z := z mod 2 ^ 32.
Definition u64 (z : Z) : Z := z mod 2 ^ 64.
Definition s32 (z : Z) : Z := (z + 2 ^ 31) mod 2 ^ 32 - 2 ^ 31.
Definition s64 (z : Z) : Z := (z + 2 ^ 63) mod 2 ^ 64 - 2 ^ 63.

Definition UINT32_MAX : Z := 2 ^ 32 - 1.
Definition UINT64_MAX : Z := 2 ^ 64 - 1.
Definition INT64_MAX : Z := 2 ^ 63 - 1.
Definition INT_MAX : Z := 2 ^ 31 - 1.

Lemma u8_small z : 0 <= z < 256 -> u8 z = z.
Proof. intros. apply Z.mod_small. lia. Qed.
Lemma u8_range z : 0 <= u8 z < 256.
Proof. apply Z.mod_pos_bound. lia. Qed.
Lemma u32_small z : 0 <= z < 2 ^ 32 -> u32 z = z.
Proof. apply Z.mod_small. Qed.
Lemma u32_range z : 0 <= u32 z < 2 ^ 32.
Proof. apply Z.mod_pos_bound. lia. Qed.
Lemma u64_small z : 0 <= z < 2 ^ 64 -> u64 z = z.
Proof. apply Z.mod_small. Qed.
Lemma u64_range z : 0 <= u64 z < 2 ^ 64.
Proof. apply Z.mod_pos_bound. lia. Qed.
Lemma s64_small z : - 2 ^ 63 <= z < 2 ^ 63 -> s64 z = z.
Proof. intros. unfold s64. rewrite Z.mod_small; lia. Qed.
Lemma s64_range z : - 2 ^ 63 <= s64 z < 2 ^ 63.
Proof. unfold s64. pose proof (Z.mod_pos_bound (z + 2 ^ 63) (2 ^ 64)). lia. Qed.
Lemma s32_small z : - 2 ^ 31 <= z < 2 ^ 31 -> s32 z = z.
Proof. intros. unfold s32. rewrite Z.mod_small; lia. Qed.
Lemma s64_u64 z : s64 (u64 z) = s64 z.
Proof.
  unfold s64, u64. f_equal. rewrite Z.add_mod_idemp_l by lia. done.
Qed.

(** ** Counted loops with early exit

    [for]/[while] loops of the sources run a body a bounded number of times
    and may leave early ([break], [return], [goto]).  [loopZ n body s] runs
    [body] at most [n] times; the iteration count is consumed in binary, so a
    bound such as [2 ^ 25] costs nothing when the loop leaves early. *)

Inductive ctl (S R : Type) : Type :=
| Next (s : S)
| Stop (r : R).
Arguments Next {S R} s.
Arguments Stop {S R} r.

Section loops.
Context {S R : Type}.
Implicit Types (body : S -> ctl S R) (s : S).

Definition ctl_bind (c : ctl S R) (k : S -> ctl S R) : ctl S R :=
  match c with Next s => k s | Stop r => Stop r end.

Fixpoint loop_pos (body : S -> ctl S R) (p : positive) (s : S) : ctl S R :=
  match p with
  | xH => body s
  | xO q => ctl_bind (loop_pos body q s) (loop_pos body q)
  | xI q =>
      ctl_bind (body s) (fun s' => ctl_bind (loop_pos body q s') (loop_pos body q))
  end.

Definition loopZ (n : Z) (body : S -> ctl S R) (s : S) : ctl S R :=
  match n with Zpos p => loop_pos body p s | _ => Next s end.

Fixpoint loop_nat (n : nat) (body : S -> ctl S R) (s : S) : ctl S R :=
  match n with
  | O => Next s
  | Datatypes.S n' => ctl_bind (body s) (loop_nat n' body)
  end.

Lemma loop_nat_add body n m s :
  loop_nat (n + m) body s = ctl_bind (loop_nat n body s) (loop_nat m body).
Proof.
  revert s. induction n as [|n IH]; intros s; simpl; [done|].
  destruct (body s); simpl; auto.
Qed.

Lemma loop_pos_nat body p s : loop_pos body p s = loop_nat (Pos.to_nat p) body s.
Proof.
  revert s. induction p as [p IH|p IH|]; intros s; cbn [loop_pos].
  - rewrite Pos2Nat.inj_xI. cbn [loop_nat].
    destruct (body s) as [s'|r]; cbn [ctl_bind]; [|done].
    replace (2 * Pos.to_nat p)%nat with (Pos.to_nat p + Pos.to_nat p)%nat by lia.
    rewrite loop_nat_add, IH. destruct (loop_nat _ _ _); cbn [ctl_bind]; auto.
  - rewrite Pos2Nat.inj_xO.
    replace (2 * Pos.to_nat p)%nat with (Pos.to_nat p + Pos.to_nat p)%nat by lia.
    rewrite loop_nat_add, IH. destruct (loop_nat _ _ _); cbn [ctl_bind]; auto.
  - simpl. by destruct (body s).
Qed.

Lemma loopZ_nat n body s : loopZ n body s = loop_nat (Z.to_nat n) body s.
Proof. destruct n as [|p|p]; [done| apply loop_pos_nat |done]. Qed.

Lemma loopZ_step n body s : 0 < n -> loopZ n body s = ctl_bind (body s) (loopZ (n - 1) body).
Proof.
  intros Hn. rewrite loopZ_nat. replace (Z.to_nat n) with (Datatypes.S (Z.to_nat (n - 1))) by lia.
  cbn [loop_nat]. destruct (body s); cbn; [|done]. by rewrite loopZ_nat.
Qed.

(** Invariant rule: [I k s] holds before the [k]-th iteration. *)
Lemma loopZ_inv (I : Z -> S -> Prop) (Q : R -> Prop) n body s :
  0 <= n -> I 0 s ->
  (forall k t, 0 <= k < n -> I k t ->
    match body t with Next t' => I (k + 1) t' | Stop r => Q r end) ->
  match loopZ n body s with Next t => I n t | Stop r => Q r end.
Proof.
  intros Hn H0 Hstep. rewrite loopZ_nat.
  cut (forall m k t, Z.of_nat m + k = n -> 0 <= k -> I k t ->
    match loop_nat m body t with Next t' => I n t' | Stop r => Q r end).
  { intros H. apply (H (Z.to_nat n) 0); [lia|lia|done]. }
  induction m as [|m IH]; intros k t Hk Hk0 Ht; simpl.
  - by replace n with k by lia.
  - specialize (Hstep k t ltac:(lia) Ht). destruct (body t) as [t'|r]; simpl; [|done].
    apply (IH (k + 1)); [lia|lia|done].
Qed.
End loops.

(** [for(i = 0; i < n; ++i)] with the index passed to the body. *)
Definition forZ {S R} (n : Z) (body : Z -> S -> ctl S R) (s : S) : ctl S R :=
  match loopZ n (fun '(i, t) =>
      match body i t with Next t' => Next (i + 1, t') | Stop r => Stop r end) (0, s) with
  | Next (_, t) => Next t
  | Stop r => Stop r
  end.

Lemma forZ_inv {S R} (I : Z -> S -> Prop) (Q : R -> Prop) n (body : Z -> S -> ctl S R) s :
  0 <= n -> I 0 s ->
  (forall k t, 0 <= k < n -> I k t ->
    match body k t with Next t' => I (k + 1) t' | Stop r => Q r end) ->
  match forZ n body s with Next t => I n t | Stop r => Q r end.
Proof.
  intros Hn H0 Hs. unfold forZ.
  pose proof (loopZ_inv (fun k '(i, t) => i = k /\ I k t) Q n
    (fun '(i, t) => match body i t with Next t' => Next (i + 1, t') | Stop r => Stop r end)
    (0, s) Hn (conj eq_refl H0)) as HL.
  match type of HL with ?A -> _ => assert A as HA end.
  { intros k [i t] Hk [-> Hi]. specialize (Hs k t Hk Hi). by destruct (body k t). }
  specialize (HL HA). destruct (loopZ _ _ _) as [[i t]|r]; [by destruct HL|done].
Qed.

(** A [for] loop whose body ignores the index. *)
Lemma forZ_nat {S R} n (body : S -> ctl S R) s :
  forZ n (fun _ => body) s = loop_nat (Z.to_nat n) body s.
Proof.
  unfold forZ. rewrite loopZ_nat. generalize 0 as i. revert s.
  induction (Z.to_nat n) as [|k IH]; intros s i; [done|]. cbn [loop_nat].
  destruct (body s) as [s'|r]; cbn [ctl_bind]; [apply IH|done].
Qed.

(** [while(cond s) s = body s], run for at most [fuel] iterations. *)
Definition whileZ {S} (fuel : Z) (cond : S -> bool) (body : S -> S) (s : S) : S :=
  match loopZ fuel (fun t => if cond t then Next (body t) else Stop t) s with
  | Next t | Stop t => t
  end.

(** With a measure below the fuel the loop ends because its condition fails. *)
Lemma whileZ_inv {S} (I : S -> Prop) (mu : S -> Z) fuel (cond : S -> bool) (body : S -> S) s :
  I s -> mu s < fuel -> (forall t, I t -> 0 <= mu t) ->
  (forall t, I t -> cond t = true -> I (body t) /\ mu (body t) < mu t) ->
  I (whileZ fuel cond body s) /\ cond (whileZ fuel cond body s) = false.
Proof.
  intros Hs Hmu Hpos Hstep. unfold whileZ.
  assert (0 <= fuel) by (specialize (Hpos s Hs); lia).
  pose proof (loopZ_inv (fun k t => I t /\ mu t <= mu s - k) (fun t => I t /\ cond t = false)
    fuel (fun t => if cond t then Next (body t) else Stop t) s) as HL.
  match type of HL with ?A -> ?B -> ?C -> _ =>
    assert C as HC; [|specialize (HL ltac:(lia) ltac:(split; [done|lia]) HC)] end.
  { intros k t Hk [Ht Hm]. destruct (cond t) eqn:Hc; [|done].
    destruct (Hstep t Ht Hc). split; [done|lia]. }
  destruct (loopZ _ _ _) as [t|t]; [|done].
  destruct HL as [Ht Hm]. specialize (Hpos t Ht). lia.
Qed.

(** ** Arrays as functions *)

Definition upd {A} (f : Z -> A) (k : Z) (v : A) : Z -> A := fun x => if x =? k then v else f x.

Lemma upd_same {A} (f : Z -> A) k v : upd f k v k = v.
Proof. unfold upd. by rewrite Z.eqb_refl. Qed.
Lemma upd_other {A} (f : Z -> A) k v x : x <> k -> upd f k v x = f x.
Proof. intros. unfold upd. by destruct (Z.eqb_spec x k). Qed.

(** ** Tactics *)

(** Decide a closed proposition by evaluating its [Decision] instance. *)
Ltac decide_now := refine (bool_decide_unpack _ _); vm_compute; exact I.
