(* ===== verification/Bytes.v ===== *)
(** * Byte strings

    Buffers of the C code as lists of bytes (integers in [0, 256)), little-endian
    integers (the sources run on x86-64), sub-ranges of a buffer, and the
    typeclass of fixed-size on-media structures. *)

From stdpp Require Import base tactics numbers list.
From Stdlib Require Import ZArith Lia.
From S2P Require Import Prelude.
Open Scope Z_scope.

Definition byte_ok (b : Z) : Prop := 0 <= b < 256.
Definition bytes_ok (l : list Z) : Prop := Forall byte_ok l.

#[export] Instance byte_ok_dec b : Decision (byte_ok b).
Proof. unfold byte_ok. apply _. Defined.
#[export] Instance bytes_ok_dec l : Decision (bytes_ok l).
Proof. unfold bytes_ok. apply _. Defined.

(** Length of a buffer as an integer. *)
Definition len (l : list Z) : Z := Z.of_nat (length l).

Definition zeros (n : Z) : list Z := replicate (Z.to_nat n) 0.

(** [memcpy(dst, src + off, n)]: the [n] bytes at [off]. *)
Definition slice (off n : Z) (l : list Z) : list Z :=
  take (Z.to_nat n) (drop (Z.to_nat off) l).

(** ** Little-endian integers *)

Fixpoint le_bytes (n : nat) (z : Z) : list Z :=
  match n with
  | O => []
  | S n' => z mod 256 :: le_bytes n' (z / 256)
  end.

Fixpoint le_val (l : list Z) : Z :=
  match l with
  | [] => 0
  | b :: t => b + 256 * le_val t
  end.

Create HintDb orch.
Create Rewrite HintDb orch.

Lemma length_le_bytes n z : length (le_bytes n z) = n.
Proof. revert z. induction n; simpl; auto. Qed.

Lemma le_bytes_ok n z : bytes_ok (le_bytes n z).
Proof.
  revert z. induction n as [|n IH]; intros z; simpl; constructor.
  - unfold byte_ok. apply Z.mod_pos_bound. lia.
  - apply IH.
Qed.

Lemma le_val_bytes n z : le_val (le_bytes n z) = z mod 256 ^ Z.of_nat n.
Proof.
  revert z. induction n as [|n IH]; intros z.
  { simpl. by rewrite Z.mod_1_r. }
  cbn [le_bytes le_val]. rewrite IH, Nat2Z.inj_succ, Z.pow_succ_r by lia.
  rewrite (Z.rem_mul_r z 256 (256 ^ Z.of_nat n)); [done | lia |].
  apply Z.pow_pos_nonneg; lia.
Qed.

Lemma le_val_bytes_small n z :
  0 <= z < 256 ^ Z.of_nat n -> le_val (le_bytes n z) = z.
Proof. intros. rewrite le_val_bytes. by apply Z.mod_small. Qed.

Lemma le_val_range l : bytes_ok l -> 0 <= le_val l < 256 ^ len l.
Proof.
  unfold len. induction 1 as [|b l Hb _ IH]; cbn [length le_val]; [simpl; lia|].
  rewrite Nat2Z.inj_succ, Z.pow_succ_r by lia. unfold byte_ok in Hb. lia.
Qed.

Lemma le_bytes_val l : bytes_ok l -> le_bytes (length l) (le_val l) = l.
Proof.
  induction 1 as [|b l Hb _ IH]; simpl; [done|].
  unfold byte_ok in Hb. f_equal.
  - rewrite Z.mul_comm, Z.mod_add by lia. apply Z.mod_small. lia.
  - rewrite Z.mul_comm, Z.div_add, Z.div_small by lia. done.
Qed.

Lemma le_val_inj l1 l2 :
  bytes_ok l1 -> bytes_ok l2 -> length l1 = length l2 -> le_val l1 = le_val l2 -> l1 = l2.
Proof.
  intros H1 H2 Hl Hv. rewrite <-(le_bytes_val l1), <-(le_bytes_val l2) by done. congruence.
Qed.

(** ** Sub-ranges *)

Lemma len_nonneg l : 0 <= len l.
Proof. unfold len. lia. Qed.
Lemma len_cons x l : len (x :: l) = 1 + len l.
Proof. unfold len. cbn [length]. lia. Qed.
Lemma len_app l1 l2 : len (l1 ++ l2) = len l1 + len l2.
Proof. unfold len. rewrite length_app. lia. Qed.
Lemma len_le_bytes n z : len (le_bytes n z) = Z.of_nat n.
Proof. unfold len. by rewrite length_le_bytes. Qed.
Lemma len_zeros n : 0 <= n -> len (zeros n) = n.
Proof. intros. unfold len, zeros. rewrite length_replicate. lia. Qed.

Lemma len_slice off n l : 0 <= off -> 0 <= n -> off + n <= len l -> len (slice off n l) = n.
Proof. unfold len, slice. intros. rewrite length_take, length_drop. lia. Qed.

Lemma slice_all n l : n = len l -> slice 0 n l = l.
Proof. intros ->. unfold slice, len. rewrite drop_0. apply take_ge. lia. Qed.

Lemma slice_app_l off n l1 l2 :
  0 <= off -> 0 <= n -> off + n <= len l1 -> slice off n (l1 ++ l2) = slice off n l1.
Proof.
  unfold slice, len. intros. rewrite drop_app_le by lia.
  rewrite take_app_le; [done|]. rewrite length_drop. lia.
Qed.

Lemma slice_app_r off n l1 l2 :
  len l1 <= off -> slice off n (l1 ++ l2) = slice (off - len l1) n l2.
Proof.
  unfold slice, len. intros. rewrite drop_app_ge by lia. do 2 f_equal. lia.
Qed.

Lemma slice_slice o1 n1 o2 n2 l :
  0 <= o1 -> 0 <= n1 -> 0 <= o2 -> 0 <= n2 -> o2 + n2 <= n1 ->
  slice o2 n2 (slice o1 n1 l) = slice (o1 + o2) n2 l.
Proof.
  unfold slice. intros.
  rewrite skipn_firstn_comm, take_take, drop_drop. f_equal; [lia|].
  f_equal. lia.
Qed.

Lemma slice_ok off n l : bytes_ok l -> bytes_ok (slice off n l).
Proof. intros. unfold slice. by apply Forall_take, Forall_drop. Qed.

Lemma slice_split n l : 0 <= n -> l = slice 0 n l ++ drop (Z.to_nat n) l.
Proof. intros. unfold slice. by rewrite drop_0, take_drop. Qed.

Lemma slice_lookup off n l (i : nat) :
  0 <= off -> (i < Z.to_nat n)%nat -> slice off n l !! i = l !! (Z.to_nat off + i)%nat.
Proof. intros. unfold slice. rewrite lookup_take_lt, lookup_drop by lia. done. Qed.

Lemma zeros_ok n : bytes_ok (zeros n).
Proof. unfold zeros. apply Forall_replicate. by unfold byte_ok; lia. Qed.

Lemma bytes_ok_app l1 l2 : bytes_ok (l1 ++ l2) <-> bytes_ok l1 /\ bytes_ok l2.
Proof. apply Forall_app. Qed.

#[export] Hint Resolve len_nonneg le_bytes_ok slice_ok zeros_ok : orch.
#[export] Hint Rewrite len_app len_le_bytes : orch.

(** Fields of a structure at a fixed offset of its buffer. *)
Definition rd_u32 (off : Z) (l : list Z) : Z := le_val (slice off 4 l).
Definition rd_u64 (off : Z) (l : list Z) : Z := le_val (slice off 8 l).
Definition rd_s32 (off : Z) (l : list Z) : Z := s32 (rd_u32 off l).
Definition rd_s64 (off : Z) (l : list Z) : Z := s64 (rd_u64 off l).

Lemma rd_u64_range off l : bytes_ok l -> 0 <= rd_u64 off l < 2 ^ 64.
Proof.
  intros. unfold rd_u64. pose proof (le_val_range (slice off 8 l) (slice_ok _ _ _ H)) as Hr.
  assert (len (slice off 8 l) <= 8).
  { unfold len, slice. rewrite length_take. lia. }
  pose proof (Z.pow_le_mono_r 256 (len (slice off 8 l)) 8). lia.
Qed.

Lemma rd_u32_range off l : bytes_ok l -> 0 <= rd_u32 off l < 2 ^ 32.
Proof.
  intros. unfold rd_u32. pose proof (le_val_range (slice off 4 l) (slice_ok _ _ _ H)) as Hr.
  assert (len (slice off 4 l) <= 4).
  { unfold len, slice. rewrite length_take. lia. }
  pose proof (Z.pow_le_mono_r 256 (len (slice off 4 l)) 4). lia.
Qed.

Lemma slice_cat o n m l : 0 <= o -> 0 <= n -> 0 <= m ->
  slice o n l ++ slice (o + n) m l = slice o (n + m) l.
Proof.
  intros. unfold slice. rewrite !Z2Nat.inj_add by lia.
  replace (drop (Z.to_nat o + Z.to_nat n) l) with (drop (Z.to_nat n) (drop (Z.to_nat o) l))
    by (rewrite drop_drop; f_equal; lia).
  generalize (drop (Z.to_nat o) l). clear l. intros l.
  generalize (Z.to_nat n) (Z.to_nat m). clear. intros n m.
  revert l. induction n as [|n IH]; intros [|x l]; simpl; [done|done|by rewrite !take_nil|].
  by rewrite IH.
Qed.

Lemma rd_u64_enc off l v : slice off 8 l = le_bytes 8 v -> 0 <= v < 2 ^ 64 -> rd_u64 off l = v.
Proof. intros H Hv. unfold rd_u64. rewrite H. by apply le_val_bytes_small. Qed.
Lemma rd_u32_enc off l v : slice off 4 l = le_bytes 4 v -> 0 <= v < 2 ^ 32 -> rd_u32 off l = v.
Proof. intros H Hv. unfold rd_u32. rewrite H. by apply le_val_bytes_small. Qed.
Lemma rd_s64_enc off l v : slice off 8 l = le_bytes 8 v -> - 2 ^ 63 <= v < 2 ^ 63 -> rd_s64 off l = v.
Proof.
  intros H Hv. unfold rd_s64, rd_u64. rewrite H, le_val_bytes.
  change (256 ^ Z.of_nat 8) with (2 ^ 64). fold (u64 v). rewrite s64_u64. by apply s64_small.
Qed.
Lemma rd_s32_enc off l v : slice off 4 l = le_bytes 4 v -> - 2 ^ 31 <= v < 2 ^ 31 -> rd_s32 off l = v.
Proof.
  intros H Hv. unfold rd_s32, rd_u32. rewrite H, le_val_bytes.
  change (256 ^ Z.of_nat 4) with (2 ^ 32). unfold s32. rewrite Z.add_mod_idemp_l by lia.
  rewrite Z.mod_small; lia.
Qed.

Lemma le_bytes_slice n off l : bytes_ok l -> 0 <= off -> off + Z.of_nat n <= len l ->
  le_bytes n (le_val (slice off (Z.of_nat n) l)) = slice off (Z.of_nat n) l.
Proof.
  intros Hl Ho Hn. rewrite <-(le_bytes_val (slice off (Z.of_nat n) l)) at 2 by auto with orch.
  f_equal. pose proof (len_slice off (Z.of_nat n) l Ho ltac:(lia) Hn) as H. unfold len in H. lia.
Qed.

Lemma le_bytes_congr n x y :
  x mod 256 ^ Z.of_nat n = y mod 256 ^ Z.of_nat n -> le_bytes n x = le_bytes n y.
Proof.
  rewrite <-!le_val_bytes. apply le_val_inj; auto with orch. by rewrite !length_le_bytes.
Qed.

Section fields.
Context (l : list Z) (Hl : bytes_ok l).

Lemma enc_rd_u64 off : 0 <= off -> off + 8 <= len l -> le_bytes 8 (rd_u64 off l) = slice off 8 l.
Proof. intros. by apply (le_bytes_slice 8). Qed.
Lemma enc_rd_u32 off : 0 <= off -> off + 4 <= len l -> le_bytes 4 (rd_u32 off l) = slice off 4 l.
Proof. intros. by apply (le_bytes_slice 4). Qed.
Lemma enc_rd_s64 off : 0 <= off -> off + 8 <= len l -> le_bytes 8 (rd_s64 off l) = slice off 8 l.
Proof.
  intros. rewrite <-enc_rd_u64 by done. apply le_bytes_congr. unfold rd_s64, s64.
  change (256 ^ Z.of_nat 8) with (2 ^ 64).
  rewrite Zminus_mod_idemp_l. f_equal. lia.
Qed.
Lemma enc_rd_s32 off : 0 <= off -> off + 4 <= len l -> le_bytes 4 (rd_s32 off l) = slice off 4 l.
Proof.
  intros. rewrite <-enc_rd_u32 by done. apply le_bytes_congr. unfold rd_s32, s32.
  change (256 ^ Z.of_nat 4) with (2 ^ 32).
  rewrite Zminus_mod_idemp_l. f_equal. lia.
Qed.
End fields.

Lemma s32_range z : - 2 ^ 31 <= s32 z < 2 ^ 31.
Proof. unfold s32. pose proof (Z.mod_pos_bound (z + 2 ^ 31) (2 ^ 32)). lia. Qed.

(** ** Fixed-size on-media structures

    A C structure stored on the media: its size, its byte image and the reader
    of its fields; image and reader are inverse to each other. *)

Class DiskStruct (T : Type) := {
  ds_size : Z;
  ds_enc : T -> list Z;
  ds_dec : list Z -> T;
  ds_wf : T -> Prop;
  ds_len : forall x, ds_wf x -> len (ds_enc x) = ds_size;
  ds_bytes : forall x, ds_wf x -> bytes_ok (ds_enc x);
  ds_dec_wf : forall l, bytes_ok l -> ds_size <= len l -> ds_wf (ds_dec l);
  ds_dec_enc : forall x, ds_wf x -> ds_dec (ds_enc x) = x;
  ds_enc_dec : forall l, bytes_ok l -> ds_size <= len l -> ds_enc (ds_dec l) = slice 0 ds_size l;
}.
