(* ===== verification/Crc32c.v ===== *)
(** * CRC32C (include/orchfs/crc32c.h)

    The checksum shared by the formatter, the write-ahead log and recovery.
    [orchfs_crc32c_software] is the bit-serial routine, [orchfs_crc32c_hardware]
    the routine over the SSE4.2 [crc32] instructions, whose semantics is the
    one of the architecture manual: bit reflection around a polynomial
    remainder modulo 2 by 0x11EDC6F41. *)

From stdpp Require Import base tactics numbers list.
From Stdlib Require Import ZArith Lia.
From S2P Require Import Prelude Bytes.
Open Scope Z_scope.

(** ** The routines *)

Definition crc_poly : Z := 0x82f63b78.

(** One turn of the inner loop:
    [crc = (crc >> 1) ^ (poly & (uint32_t)-(int32_t)(crc & 1))]. *)
Definition crc_bit (crc : Z) : Z :=
  Z.lxor (Z.shiftr crc 1) (Z.land crc_poly (u32 (- Z.land crc 1))).

Definition crc_byte (crc byte : Z) : Z :=
  Nat.iter 8 crc_bit (Z.lxor crc byte).

Definition crc_update (crc : Z) (bytes : list Z) : Z :=
  fold_left crc_byte bytes crc.

Definition orchfs_crc32c_software (bytes : list Z) : Z :=
  u32 (Z.lnot (crc_update UINT32_MAX bytes)).

(** [BIT_REFLECTn] of the manual. *)
Fixpoint bit_reflect (n : nat) (z : Z) : Z :=
  match n with
  | O => 0
  | S n' =>
      Z.lxor (Z.shiftl (Z.land z 1) (Z.of_nat n')) (bit_reflect n' (Z.shiftr z 1))
  end.

(** Remainder modulo 2 by the degree-32 polynomial, top bit first. *)
Definition mod2_step (z : Z) (i : Z) : Z :=
  if Z.testbit z i then Z.lxor z (Z.shiftl 0x11EDC6F41 (i - 32)) else z.
Definition mod2 (z : Z) (degrees : list Z) : Z := fold_left mod2_step degrees z.

(** [crc32] on an [n]-bit operand ([d] is [n] as a degree). *)
Definition mm_crc32 (n : nat) (d : Z) (crc operand : Z) : Z :=
  bit_reflect 32
    (mod2 (Z.lxor (Z.shiftl (bit_reflect n operand) 32)
                  (Z.shiftl (bit_reflect 32 crc) d))
          (reverse (seqZ 32 d))).
Definition mm_crc32_u8 (crc byte : Z) : Z := mm_crc32 8 8 crc byte.
Definition mm_crc32_u64 (crc word : Z) : Z := mm_crc32 64 64 (u32 crc) word.

(** The two [while] loops; [fuel] bounds the number of 8-byte turns. *)
Fixpoint crc_hardware_words (fuel : nat) (crc : Z) (input : list Z) : Z * list Z :=
  match fuel with
  | O => (crc, input)
  | S fuel' =>
      if decide (8 <= length input)%nat
      then crc_hardware_words fuel' (mm_crc32_u64 crc (le_val (take 8 input)))
             (drop 8 input)
      else (crc, input)
  end.

Definition crc_hardware_byte (crc byte : Z) : Z := mm_crc32_u8 (u32 crc) byte.

Definition orchfs_crc32c_hardware (bytes : list Z) : Z :=
  let '(crc, rest) := crc_hardware_words (length bytes) UINT32_MAX bytes in
  u32 (Z.lnot (u32 (fold_left crc_hardware_byte rest crc))).

(** [__builtin_cpu_supports("sse4.2")] selects the variant. *)
Definition orchfs_crc32c_on (sse42 : bool) (bytes : list Z) : Z :=
  if sse42 then orchfs_crc32c_hardware bytes else orchfs_crc32c_software bytes.

(** Every other component uses the software value (see [crc32c_variants_agree]). *)
Definition orchfs_crc32c (bytes : list Z) : Z := orchfs_crc32c_software bytes.

(** The fixed vector of the on-media contract. *)
Example crc32c_vector :
  orchfs_crc32c_software [0x31;0x32;0x33;0x34;0x35;0x36;0x37;0x38;0x39] = 0xe3069283.
Proof. vm_compute. reflexivity. Qed.
Example crc32c_vector_hw :
  orchfs_crc32c_hardware [0x31;0x32;0x33;0x34;0x35;0x36;0x37;0x38;0x39] = 0xe3069283.
Proof. vm_compute. reflexivity. Qed.

(** Conversion must never try to run the bit-level loops on open terms. *)
#[global] Strategy 1000 [mm_crc32 bit_reflect mod2 crc_bit crc_byte].

Lemma fold_left_cons {A B} (f : A -> B -> A) b l c :
  fold_left f (b :: l) c = fold_left f l (f c b).
Proof. reflexivity. Qed.

Lemma crc_update_cons c b l : crc_update c (b :: l) = crc_update (crc_byte c b) l.
Proof. unfold crc_update. apply fold_left_cons. Qed.

(** ** Linearity over GF(2) *)

Definition linear (f : Z -> Z) : Prop :=
  forall x y, f (Z.lxor x y) = Z.lxor (f x) (f y).

Lemma linear_id : linear (fun x => x).
Proof. by intros x y. Qed.
Lemma linear_comp f g : linear f -> linear g -> linear (fun x => f (g x)).
Proof. intros Hf Hg x y. by rewrite Hg, Hf. Qed.
Lemma linear_lxor f g : linear f -> linear g -> linear (fun x => Z.lxor (f x) (g x)).
Proof.
  intros Hf Hg x y. rewrite Hf, Hg. rewrite !Z.lxor_assoc. f_equal.
  rewrite <-!Z.lxor_assoc. f_equal. apply Z.lxor_comm.
Qed.
Lemma linear_shiftl n : linear (fun x => Z.shiftl x n).
Proof. intros x y. apply Z.shiftl_lxor. Qed.
Lemma linear_shiftr n : linear (fun x => Z.shiftr x n).
Proof. intros x y. apply Z.shiftr_lxor. Qed.
Lemma linear_land m : linear (fun x => Z.land x m).
Proof. intros x y. apply Z.bits_inj'. intros n _. rewrite ?Z.land_spec, ?Z.lxor_spec, ?Z.land_spec. by destruct (Z.testbit x n), (Z.testbit y n), (Z.testbit m n). Qed.
Lemma linear_0 f : linear f -> f 0 = 0.
Proof. intros H. pose proof (H 0 0) as H0. by rewrite !Z.lxor_nilpotent in H0. Qed.
Lemma linear_iter f n : linear f -> linear (Nat.iter n f).
Proof.
  intros H. induction n as [|n IH]; intros x y; simpl; [done|]. by rewrite IH, H.
Qed.

(** Two linear maps that agree on the powers of two below [2 ^ n] agree on
    every [n]-bit number. *)
Lemma linear_basis f g (n : nat) :
  linear f -> linear g ->
  (forall i, (i < n)%nat -> f (2 ^ Z.of_nat i) = g (2 ^ Z.of_nat i)) ->
  forall x, 0 <= x < 2 ^ Z.of_nat n -> f x = g x.
Proof.
  intros Hf Hg. induction n as [|n IH]; intros Hb x Hx.
  { replace x with 0 by (simpl in Hx; lia). by rewrite !linear_0. }
  rewrite Nat2Z.inj_succ, Z.pow_succ_r in Hx by lia.
  set (p := 2 ^ Z.of_nat n) in *.
  assert (0 < p) by (apply Z.pow_pos_nonneg; lia).
  destruct (decide (x < p)) as [Hlt|Hge].
  { apply IH; [|lia]. intros i Hi. apply Hb. lia. }
  assert (x = Z.lxor (x - p) p) as ->.
  { apply Z.bits_inj'. intros k Hk. rewrite Z.lxor_spec. unfold p.
    rewrite Z.pow2_bits_eqb by lia.
    assert (x - p = x mod p) as Hm.
    { apply Z.mod_unique_pos with 1; lia. }
    fold p. rewrite Hm. unfold p. 
    destruct (decide (k < Z.of_nat n)) as [Hkn|Hkn].
    - rewrite Z.mod_pow2_bits_low by lia.
      replace (Z.of_nat n =? k) with false by (symmetry; apply Z.eqb_neq; lia).
      by rewrite xorb_false_r.
    - rewrite Z.mod_pow2_bits_high by lia.
      destruct (decide (k = Z.of_nat n)) as [->|Hne].
      + rewrite Z.eqb_refl. simpl.
        apply Z.testbit_true; [lia|]. fold p.
        replace (x / p) with 1; [done|]. apply Z.div_unique with (x - p); lia.
      + replace (Z.of_nat n =? k) with false by (symmetry; apply Z.eqb_neq; lia). simpl.
        apply Z.bits_above_log2; [lia|].
        apply Z.log2_lt_pow2; [lia|]. eapply Z.lt_le_trans; [apply Hx|].
        unfold p. rewrite <-Z.pow_succ_r by lia. apply Z.pow_le_mono_r; lia. }
  rewrite Hf, Hg. f_equal; [apply IH|apply Hb; lia].
  - intros i Hi. apply Hb. lia.
  - lia.
Qed.

(** Powers of two below [2 ^ n], checked by evaluation. *)
Definition agree_on_basis (f g : Z -> Z) (n : nat) : bool :=
  forallb (fun i => f (2 ^ Z.of_nat i) =? g (2 ^ Z.of_nat i)) (seq 0 n).

Lemma agree_on_basis_spec f g n :
  linear f -> linear g -> agree_on_basis f g n = true ->
  forall x, 0 <= x < 2 ^ Z.of_nat n -> f x = g x.
Proof.
  intros Hf Hg Ha. apply linear_basis; [done..|].
  intros i Hi. unfold agree_on_basis in Ha. rewrite forallb_forall in Ha.
  apply Z.eqb_eq, Ha, in_seq. lia.
Qed.

Lemma land_1_odd x : Z.land x 1 = Z.b2z (Z.odd x).
Proof.
  change (Z.land x 1) with (Z.land x (Z.ones 1)).
  rewrite Z.land_ones by lia. change (2 ^ 1) with 2. rewrite Zmod_odd. by destruct (Z.odd x).
Qed.

Lemma crc_bit_odd x :
  crc_bit x = Z.lxor (Z.shiftr x 1) (if Z.odd x then crc_poly else 0).
Proof. unfold crc_bit. rewrite land_1_odd. by destruct (Z.odd x). Qed.

Lemma odd_lxor x y : Z.odd (Z.lxor x y) = xorb (Z.odd x) (Z.odd y).
Proof. by rewrite <-!Z.bit0_odd, Z.lxor_spec. Qed.

Lemma crc_bit_linear : linear crc_bit.
Proof.
  intros x y. rewrite !crc_bit_odd, odd_lxor, Z.shiftr_lxor.
  apply Z.bits_inj'. intros n _. rewrite !Z.lxor_spec.
  destruct (Z.odd x), (Z.odd y); simpl; rewrite ?Z.bits_0;
    destruct (Z.testbit (Z.shiftr x 1) n), (Z.testbit (Z.shiftr y 1) n),
      (Z.testbit crc_poly n); done.
Qed.

Lemma bit_reflect_linear n : linear (bit_reflect n).
Proof.
  induction n as [|n IH]; [by intros x y|].
  apply (linear_lxor (fun z => Z.shiftl (Z.land z 1) (Z.of_nat n))
           (fun z => bit_reflect n (Z.shiftr z 1))).
  - apply (linear_comp (fun z => Z.shiftl z (Z.of_nat n)) (fun z => Z.land z 1)).
    + apply linear_shiftl.
    + apply linear_land.
  - apply (linear_comp (bit_reflect n) (fun z => Z.shiftr z 1)); [done|].
    apply linear_shiftr.
Qed.

Lemma mod2_linear degrees : linear (fun z => mod2 z degrees).
Proof.
  unfold mod2. induction degrees as [|i ds IH]; [by intros x y|].
  intros x y. cbn [fold_left]. rewrite <-IH. f_equal. unfold mod2_step.
  rewrite Z.lxor_spec. set (c := Z.shiftl _ _).
  apply Z.bits_inj'. intros n _.
  destruct (Z.testbit x i), (Z.testbit y i); simpl; rewrite ?Z.lxor_spec;
    destruct (Z.testbit x n), (Z.testbit y n), (Z.testbit c n); done.
Qed.

#[export] Hint Resolve linear_id crc_bit_linear bit_reflect_linear mod2_linear
  linear_shiftl linear_shiftr linear_land linear_iter : orch.

Lemma land_shiftl_small w c n : 0 <= c < 2 ^ n -> 0 <= n -> 0 <= w ->
  Z.land (Z.lxor (Z.shiftl w n) c) (Z.ones n) = c.
Proof.
  intros Hc Hn Hw. rewrite Z.land_ones by done.
  apply Z.bits_inj'. intros k Hk. destruct (decide (k < n)).
  - rewrite Z.mod_pow2_bits_low, Z.lxor_spec, Z.shiftl_spec_low by lia.
    by destruct (Z.testbit c k).
  - rewrite Z.mod_pow2_bits_high by lia.
    symmetry. destruct (decide (c = 0)) as [->|]; [apply Z.bits_0|].
    apply Z.bits_above_log2; [lia|].
    apply Z.log2_lt_pow2; [lia|]. eapply Z.lt_le_trans; [apply Hc|].
    apply Z.pow_le_mono_r; lia.
Qed.

Lemma shiftr_shiftl_small w c n : 0 <= c < 2 ^ n -> 0 <= n -> 0 <= w ->
  Z.shiftr (Z.lxor (Z.shiftl w n) c) n = w.
Proof.
  intros Hc Hn Hw. rewrite Z.shiftr_lxor, Z.shiftr_shiftl_l by lia.
  rewrite Z.sub_diag, Z.shiftl_0_r.
  replace (Z.shiftr c n) with 0; [apply Z.lxor_0_r|].
  rewrite Z.shiftr_div_pow2 by lia. by rewrite Z.div_small.
Qed.

Lemma join_range w c n m : 0 <= c < 2 ^ n -> 0 <= w < 2 ^ m -> 0 <= n -> 0 <= m ->
  0 <= Z.lxor (Z.shiftl w n) c < 2 ^ (n + m).
Proof.
  intros Hc Hw Hn Hm.
  assert (0 <= Z.shiftl w n < 2 ^ (n + m)).
  { rewrite Z.shiftl_mul_pow2, Z.pow_add_r by done. nia. }
  assert (2 ^ n <= 2 ^ (n + m)) by (apply Z.pow_le_mono_r; lia).
  split; [apply Z.lxor_nonneg; lia|].
  assert (0 <= Z.lxor (Z.shiftl w n) c) as Hnn by (apply Z.lxor_nonneg; lia).
  destruct (decide (Z.lxor (Z.shiftl w n) c = 0)) as [->|]; [apply Z.pow_pos_nonneg; lia|].
  assert (0 < n + m).
  { destruct (decide (n + m = 0)) as [E|]; [|lia].
    replace m with 0 in * by lia. replace n with 0 in * by lia. simpl in *.
    replace w with 0 in * by lia. replace c with 0 in * by lia. done. }
  apply Z.log2_lt_pow2; [lia|].
  eapply Z.le_lt_trans; [apply Z.log2_lxor; lia|].
  apply Z.max_lub_lt.
  - destruct (decide (Z.shiftl w n = 0)) as [->|]; [simpl; lia|].
    apply Z.log2_lt_pow2; lia.
  - destruct (decide (c = 0)) as [->|]; [simpl; lia|]. apply Z.log2_lt_pow2; lia.
Qed.

Lemma lxor_range x y n : 0 <= n -> 0 <= x < 2 ^ n -> 0 <= y < 2 ^ n ->
  0 <= Z.lxor x y < 2 ^ n.
Proof.
  intros Hn Hx Hy. pose proof (join_range 0 (Z.lxor x y) n 0) as _.
  split; [apply Z.lxor_nonneg; lia|].
  destruct (decide (Z.lxor x y = 0)) as [->|]; [lia|].
  assert (0 <= Z.lxor x y) by (apply Z.lxor_nonneg; lia).
  destruct (decide (n = 0)) as [->|].
  { simpl in *. replace x with 0 in * by lia. replace y with 0 in * by lia. done. }
  apply Z.log2_lt_pow2; [lia|].
  eapply Z.le_lt_trans; [apply Z.log2_lxor; lia|].
  apply Z.max_lub_lt.
  - destruct (decide (x = 0)) as [->|]; [simpl; lia|]. apply Z.log2_lt_pow2; lia.
  - destruct (decide (y = 0)) as [->|]; [simpl; lia|]. apply Z.log2_lt_pow2; lia.
Qed.

Lemma crc_bit_range x : 0 <= x < 2 ^ 32 -> 0 <= crc_bit x < 2 ^ 32.
Proof.
  intros Hx. rewrite crc_bit_odd. apply lxor_range; [lia| |].
  - rewrite Z.shiftr_div_pow2 by lia. change (2 ^ 1) with 2.
    split; [apply Z.div_pos; lia|]. apply Z.div_lt_upper_bound; lia.
  - unfold crc_poly. destruct (Z.odd x); lia.
Qed.

Lemma crc_iter_range n x : 0 <= x < 2 ^ 32 -> 0 <= Nat.iter n crc_bit x < 2 ^ 32.
Proof. intros Hx. induction n as [|n IH]; simpl; [done|]. by apply crc_bit_range. Qed.

Lemma crc_byte_range c b : 0 <= c < 2 ^ 32 -> byte_ok b -> 0 <= crc_byte c b < 2 ^ 32.
Proof.
  intros Hc Hb. apply crc_iter_range, lxor_range; [lia|done|]. unfold byte_ok in Hb. lia.
Qed.

Lemma crc_update_range c l : 0 <= c < 2 ^ 32 -> bytes_ok l -> 0 <= crc_update c l < 2 ^ 32.
Proof.
  intros Hc Hl. revert c Hc. induction Hl as [|b l Hb _ IH]; intros c Hc; [done|].
  apply IH. by apply crc_byte_range.
Qed.

Lemma orchfs_crc32c_range l : 0 <= orchfs_crc32c l < 2 ^ 32.
Proof. apply u32_range. Qed.

(** ** Hardware and software variants agree *)

Lemma linear_crc_byte f g : linear f -> linear g -> linear (fun v => crc_byte (f v) (g v)).
Proof.
  intros Hf Hg. unfold crc_byte.
  apply (linear_comp (Nat.iter 8 crc_bit) (fun v => Z.lxor (f v) (g v))).
  - auto with orch.
  - by apply linear_lxor.
Qed.

Fixpoint le_bits (n : nat) (w : Z) : list Z :=
  match n with
  | O => []
  | S n' => Z.land w (Z.ones 8) :: le_bits n' (Z.shiftr w 8)
  end.

Lemma le_bits_bytes n w : le_bits n w = le_bytes n w.
Proof.
  revert w. induction n as [|n IH]; intros w; cbn [le_bits le_bytes]; [done|].
  by rewrite Z.land_ones, Z.shiftr_div_pow2, IH by lia.
Qed.

Lemma linear_crc_update n f g :
  linear f -> linear g -> linear (fun v => crc_update (f v) (le_bits n (g v))).
Proof.
  revert f g. induction n as [|n IH]; intros f g Hf Hg; [done|].
  cbn [le_bits]. unfold crc_update. cbn [fold_left].
  apply (IH (fun v => crc_byte (f v) (Z.land (g v) (Z.ones 8)))
            (fun v => Z.shiftr (g v) 8)).
  - apply linear_crc_byte; [done|]. apply (linear_comp (fun z => Z.land z _) g); auto with orch.
  - apply (linear_comp (fun z => Z.shiftr z 8) g); auto with orch.
Qed.

(** Combined register/operand words: the operand above the 32-bit register. *)
Definition reg (v : Z) : Z := Z.land v (Z.ones 32).
Definition opnd (v : Z) : Z := Z.shiftr v 32.
Lemma reg_linear : linear reg. Proof. apply linear_land. Qed.
Lemma opnd_linear : linear opnd. Proof. apply linear_shiftr. Qed.
#[export] Hint Resolve reg_linear opnd_linear : orch.

Definition hw_word (n : nat) (d : Z) (v : Z) : Z := mm_crc32 n d (reg v) (opnd v).

Lemma hw_word_linear n d : linear (hw_word n d).
Proof.
  unfold hw_word, mm_crc32.
  apply (linear_comp (bit_reflect 32)); [auto with orch|].
  apply (linear_comp (fun z => mod2 z _)); [apply mod2_linear|].
  apply linear_lxor.
  - apply (linear_comp (fun z => Z.shiftl z 32)); [auto with orch|].
    apply (linear_comp (bit_reflect n)); auto with orch.
  - apply (linear_comp (fun z => Z.shiftl z d)); [auto with orch|].
    apply (linear_comp (bit_reflect 32)); auto with orch.
Qed.

Lemma hw_word_8_spec v : 0 <= v < 2 ^ (32 + 8) ->
  hw_word 8 8 v = crc_update (reg v) (le_bits 1 (opnd v)).
Proof.
  intros Hv.
  apply (agree_on_basis_spec (hw_word 8 8) (fun v => crc_update (reg v) (le_bits 1 (opnd v))) 40);
    [apply hw_word_linear | apply linear_crc_update; auto with orch
    | vm_compute; reflexivity | exact Hv].
Qed.
Lemma hw_word_64_spec v : 0 <= v < 2 ^ (32 + 64) ->
  hw_word 64 64 v = crc_update (reg v) (le_bits 8 (opnd v)).
Proof.
  intros Hv.
  apply (agree_on_basis_spec (hw_word 64 64) (fun v => crc_update (reg v) (le_bits 8 (opnd v))) 96);
    [apply hw_word_linear | apply linear_crc_update; auto with orch
    | vm_compute; reflexivity | exact Hv].
Qed.

Lemma reg_join w c : 0 <= c < 2 ^ 32 -> 0 <= w -> reg (Z.lxor (Z.shiftl w 32) c) = c.
Proof. intros. by apply land_shiftl_small. Qed.
Lemma opnd_join w c : 0 <= c < 2 ^ 32 -> 0 <= w -> opnd (Z.lxor (Z.shiftl w 32) c) = w.
Proof. intros. by apply shiftr_shiftl_small. Qed.

(** Operand and register packed in one word. *)
Lemma join_exists w c m : 0 <= c < 2 ^ 32 -> 0 <= w < 2 ^ m -> 0 <= m ->
  exists v, 0 <= v < 2 ^ (32 + m) /\ reg v = c /\ opnd v = w.
Proof.
  intros. exists (Z.lxor (Z.shiftl w 32) c).
  split; [by apply join_range|]. split; [apply reg_join|apply opnd_join]; lia.
Qed.

Lemma mm_crc32_hw n d c w v : reg v = c -> opnd v = w -> mm_crc32 n d c w = hw_word n d v.
Proof. by intros <- <-. Qed.

Lemma mm_crc32_u8_spec c b : 0 <= c < 2 ^ 32 -> byte_ok b ->
  mm_crc32_u8 c b = crc_byte c b.
Proof.
  unfold byte_ok. intros Hc Hb.
  destruct (join_exists b c 8) as (v & Hv & Hr & Ho); [lia..|].
  unfold mm_crc32_u8. rewrite (mm_crc32_hw 8 8 c b v Hr Ho), (hw_word_8_spec v Hv).
  rewrite Hr, Ho. unfold crc_update. cbn [le_bits fold_left].
  rewrite Z.land_ones, Z.mod_small by lia. done.
Qed.

Lemma mm_crc32_u64_spec c l : 0 <= c < 2 ^ 32 -> bytes_ok l -> length l = 8%nat ->
  mm_crc32_u64 c (le_val l) = crc_update c l.
Proof.
  intros Hc Hl Hlen. pose proof (le_val_range l Hl) as Hrange.
  replace (256 ^ len l) with (2 ^ 64) in Hrange by (unfold len; rewrite Hlen; done).
  destruct (join_exists (le_val l) c 64) as (v & Hv & Hr & Ho); [lia..|].
  unfold mm_crc32_u64. rewrite (u32_small c) by done.
  rewrite (mm_crc32_hw 64 64 c (le_val l) v Hr Ho), (hw_word_64_spec v Hv).
  rewrite Hr, Ho, le_bits_bytes. by rewrite <-Hlen, le_bytes_val.
Qed.

Lemma crc_hardware_words_spec fuel c l : 0 <= c < 2 ^ 32 -> bytes_ok l ->
  exists done, l = done ++ (crc_hardware_words fuel c l).2 /\
    (crc_hardware_words fuel c l).1 = crc_update c done.
Proof.
  revert c l. induction fuel as [|fuel IH]; intros c l Hc Hl.
  { by exists []. }
  cbn [crc_hardware_words]. case_decide as H8; [|by exists []].
  assert (length (take 8 l) = 8%nat) as Ht by (rewrite length_take; lia).
  assert (bytes_ok (take 8 l)) as Hok by (by apply Forall_take).
  rewrite (mm_crc32_u64_spec c (take 8 l)) by done.
  destruct (IH (crc_update c (take 8 l)) (drop 8 l)) as (d & Hd & Hc').
  { by apply crc_update_range. }
  { by apply Forall_drop. }
  exists (take 8 l ++ d). split.
  - rewrite <-app_assoc, <-Hd. by rewrite take_drop.
  - rewrite Hc'. unfold crc_update. by rewrite fold_left_app.
Qed.

Lemma crc_update_app c l1 l2 : crc_update c (l1 ++ l2) = crc_update (crc_update c l1) l2.
Proof. apply fold_left_app. Qed.

Lemma crc_hardware_tail c l : 0 <= c < 2 ^ 32 -> bytes_ok l ->
  fold_left crc_hardware_byte l c = crc_update c l.
Proof.
  intros Hc Hl. revert c Hc. induction Hl as [|b l Hb _ IH]; intros c Hc; [done|].
  rewrite crc_update_cons, fold_left_cons.
  rewrite (IH (crc_hardware_byte c b)); unfold crc_hardware_byte;
    rewrite (u32_small c), mm_crc32_u8_spec by done; [done|by apply crc_byte_range].
Qed.

(** the SSE4.2 routine and the bit-serial routine return the same checksum
    for every buffer, so [orchfs_crc32c] does not depend on the host CPU. *)
Theorem crc32c_variants_agree (sse42 : bool) (bytes : list Z) :
  bytes_ok bytes -> orchfs_crc32c_on sse42 bytes = orchfs_crc32c_software bytes.
Proof.
  intros Hok. destruct sse42; [|done]. cbn [orchfs_crc32c_on].
  unfold orchfs_crc32c_hardware, orchfs_crc32c_software.
  assert (0 <= UINT32_MAX < 2 ^ 32) as Hm by (unfold UINT32_MAX; lia).
  destruct (crc_hardware_words_spec (length bytes) UINT32_MAX bytes Hm Hok) as (d & Hd & Hc).
  destruct (crc_hardware_words _ _ _) as [crc rest]. simpl in *. subst crc.
  rewrite Hd in Hok. apply bytes_ok_app in Hok as [Hok1 Hok2].
  rewrite Hd, crc_update_app.
  pose proof (crc_update_range _ d Hm Hok1) as Hr.
  rewrite crc_hardware_tail by done. by rewrite (u32_small (crc_update _ rest))
    by (by apply crc_update_range).
Qed.
Lemma crc32c_variants_agree_witness :
  orchfs_crc32c_on true [0x4f; 0x72; 0; 255; 1; 2; 3; 4; 5; 6]
  = orchfs_crc32c_software [0x4f; 0x72; 0; 255; 1; 2; 3; 4; 5; 6].
Proof. apply (crc32c_variants_agree true). decide_now. Defined.

(** ** Burst errors are detected *)

Lemma crc_poly_top x : Z.testbit (crc_bit x) 31 = xorb (Z.testbit x 32) (Z.odd x).
Proof.
  rewrite crc_bit_odd, Z.lxor_spec, Z.shiftr_spec by lia.
  change (31 + 1) with 32. by destruct (Z.odd x).
Qed.

Lemma testbit_high x n : 0 <= x < 2 ^ n -> 0 <= n -> Z.testbit x n = false.
Proof.
  intros Hx Hn. destruct (decide (x = 0)) as [->|]; [apply Z.bits_0|].
  apply Z.bits_above_log2; [lia|]. apply Z.log2_lt_pow2; lia.
Qed.

Lemma crc_bit_inj x y : 0 <= x < 2 ^ 32 -> 0 <= y < 2 ^ 32 ->
  crc_bit x = crc_bit y -> x = y.
Proof.
  intros Hx Hy E.
  assert (Z.odd x = Z.odd y) as Ho.
  { pose proof (f_equal (fun z => Z.testbit z 31) E) as Ht. cbv beta in Ht.
    rewrite !crc_poly_top, !(testbit_high _ 32) in Ht by (done || lia). by simpl in Ht. }
  rewrite !crc_bit_odd, Ho in E.
  assert (Z.shiftr x 1 = Z.shiftr y 1) as Hs.
  { set (c := if Z.odd y then crc_poly else 0) in E.
    rewrite <-(Z.lxor_0_r (Z.shiftr x 1)), <-(Z.lxor_nilpotent c), <-Z.lxor_assoc, E.
    by rewrite Z.lxor_assoc, Z.lxor_nilpotent, Z.lxor_0_r. }
  rewrite <-!Z.div2_spec in Hs.
  rewrite (Z.div2_odd x), (Z.div2_odd y), Hs, Ho. done.
Qed.

Lemma crc_iter_inj n x y : 0 <= x < 2 ^ 32 -> 0 <= y < 2 ^ 32 ->
  Nat.iter n crc_bit x = Nat.iter n crc_bit y -> x = y.
Proof.
  intros Hx Hy. induction n as [|n IH]; simpl; [done|].
  intros E. apply crc_bit_inj in E; [auto|by apply crc_iter_range..].
Qed.

Lemma crc_byte_iter c b : crc_byte c b = Nat.iter 8 crc_bit (Z.lxor c b).
Proof. reflexivity. Qed.

Lemma crc_byte_inj c1 c2 b : 0 <= c1 < 2 ^ 32 -> 0 <= c2 < 2 ^ 32 -> byte_ok b ->
  crc_byte c1 b = crc_byte c2 b -> c1 = c2.
Proof.
  intros H1 H2 Hb. assert (0 <= b < 2 ^ 32) by (unfold byte_ok in Hb; lia).
  rewrite !crc_byte_iter. generalize 8%nat. intros n E.
  apply crc_iter_inj in E; [|apply lxor_range; [lia|done|done]..].
  rewrite <-(Z.lxor_0_r c1), <-(Z.lxor_nilpotent b), <-Z.lxor_assoc, E.
  by rewrite Z.lxor_assoc, Z.lxor_nilpotent, Z.lxor_0_r.
Qed.

Lemma crc_update_inj l c1 c2 : 0 <= c1 < 2 ^ 32 -> 0 <= c2 < 2 ^ 32 -> bytes_ok l ->
  crc_update c1 l = crc_update c2 l -> c1 = c2.
Proof.
  intros H1 H2 Hl. revert c1 c2 H1 H2. induction Hl as [|b l Hb _ IH]; intros c1 c2 H1 H2; [done|].
  rewrite !crc_update_cons. intros E. apply IH in E; [|by apply crc_byte_range..].
  by apply crc_byte_inj in E.
Qed.

(** Four bytes fed one at a time act like one 32-bit word. *)
Lemma crc_update_word c l : 0 <= c < 2 ^ 32 -> bytes_ok l -> length l = 4%nat ->
  crc_update c l = Nat.iter 32 crc_bit (Z.lxor c (le_val l)).
Proof.
  intros Hc Hl Hlen. pose proof (le_val_range l Hl) as Hrange.
  replace (256 ^ len l) with (2 ^ 32) in Hrange by (unfold len; rewrite Hlen; done).
  destruct (join_exists (le_val l) c 32) as (v & Hv & Hr & Ho); [lia..|].
  rewrite <-(le_bytes_val l Hl) at 1. rewrite Hlen, <-le_bits_bytes, <-Hr, <-Ho.
  apply (agree_on_basis_spec (fun v => crc_update (reg v) (le_bits 4 (opnd v)))
    (fun v => Nat.iter 32 crc_bit (Z.lxor (reg v) (opnd v))) 64);
    [apply linear_crc_update; auto with orch| |vm_compute; reflexivity|exact Hv].
  apply (linear_comp (Nat.iter 32 crc_bit) (fun v => Z.lxor (reg v) (opnd v)));
    [auto with orch|apply linear_lxor; auto with orch].
Qed.

Lemma crc_word_inj c l1 l2 : 0 <= c < 2 ^ 32 -> bytes_ok l1 -> bytes_ok l2 ->
  length l1 = 4%nat -> length l2 = 4%nat -> crc_update c l1 = crc_update c l2 -> l1 = l2.
Proof.
  intros Hc H1 H2 L1 L2 E. rewrite !crc_update_word in E by done.
  assert (forall l, bytes_ok l -> length l = 4%nat -> 0 <= le_val l < 2 ^ 32) as Hr.
  { intros l Hl L. pose proof (le_val_range l Hl). unfold len in *. rewrite L in *. done. }
  apply crc_iter_inj in E; [|apply lxor_range; [lia|done|by apply Hr]..].
  apply le_val_inj; [done..|congruence|].
  apply (f_equal (Z.lxor c)) in E.
  by rewrite <-!Z.lxor_assoc, Z.lxor_nilpotent, !Z.lxor_0_l in E.
Qed.

(** two buffers of the same length that differ only inside a window of at
    most four consecutive bytes have different checksums: every error burst
    of up to 32 bits in a journal frame or a checkpoint slot is detected. *)
Theorem crc32c_detects_burst (pre w1 w2 post : list Z) :
  bytes_ok pre -> bytes_ok w1 -> bytes_ok w2 -> bytes_ok post ->
  length w1 = length w2 -> (length w1 <= 4)%nat -> w1 <> w2 ->
  orchfs_crc32c (pre ++ w1 ++ post) <> orchfs_crc32c (pre ++ w2 ++ post).
Proof.
  intros Hpre H1 H2 Hpost L L4 Hne E. apply Hne. clear Hne.
  unfold orchfs_crc32c, orchfs_crc32c_software in E.
  assert (0 <= UINT32_MAX < 2 ^ 32) as Hm by (unfold UINT32_MAX; lia).
  rewrite !crc_update_app in E. pose proof (crc_update_range _ pre Hm Hpre) as Hc.
  set (c := crc_update UINT32_MAX pre) in *.
  pose proof (crc_update_range c w1 Hc H1) as R1. pose proof (crc_update_range c w2 Hc H2) as R2.
  assert (crc_update (crc_update c w1) post = crc_update (crc_update c w2) post) as E'.
  { pose proof (crc_update_range _ post R1 Hpost). pose proof (crc_update_range _ post R2 Hpost).
    unfold u32, Z.lnot in E.
    set (x := crc_update (crc_update c w1) post) in *.
    set (y := crc_update (crc_update c w2) post) in *. clearbody x y.
    rewrite <-(Z.mod_add (Z.pred (- x)) 1), <-(Z.mod_add (Z.pred (- y)) 1) in E by lia.
    rewrite !Z.mod_small in E by lia. lia. }
  apply crc_update_inj in E'; [|done..].
  set (pad := replicate (4 - length w1) 0).
  assert (bytes_ok pad) as Hpad by (apply Forall_replicate; unfold byte_ok; lia).
  assert (w1 ++ pad = w2 ++ pad) as Hw.
  { apply (crc_word_inj c); [done|by apply bytes_ok_app|by apply bytes_ok_app| | |].
    - unfold pad. rewrite length_app, length_replicate. lia.
    - unfold pad. rewrite length_app, length_replicate. lia.
    - rewrite !crc_update_app. by rewrite E'. }
  by apply app_inv_tail in Hw.
Qed.
Lemma crc32c_detects_burst_witness :
  orchfs_crc32c ([1; 2] ++ [3; 4; 5] ++ [6]) <> orchfs_crc32c ([1; 2] ++ [3; 5; 5] ++ [6]).
Proof.
  apply crc32c_detects_burst; [decide_now..|reflexivity| |discriminate].
  simpl. lia.
Defined.
