(* ===== verification/Layout.v ===== *)
(** * On-media layout (config/config_template.h, KernelFS/addr_util.h,
      KernelFS/balloc.h, LibFS/libspace.h, config/log_config.h)

    Offsets, unit sizes and capacities of the six block areas, the bitmap and
    journal regions, the block-id/device-address conversions, and the error
    numbers the sources return. *)

From stdpp Require Import base tactics numbers list.
From Stdlib Require Import ZArith Lia.
From S2P Require Import Prelude Bytes.
Open Scope Z_scope.

(** ** Error numbers *)
Definition ENOENT : Z := 2.
Definition EIO : Z := 5.
Definition ENOMEM : Z := 12.
Definition EEXIST : Z := 17.
Definition EINVAL : Z := 22.
Definition EFBIG : Z := 27.
Definition ENOSPC : Z := 28.
Definition E2BIG : Z := 7.
Definition EOVERFLOW : Z := 75.
Definition EOPNOTSUPP : Z := 95.
Definition ENODATA : Z := 61.
Definition EALREADY : Z := 114.
Definition ESTALE : Z := 116.
Definition EMSGSIZE : Z := 90.
Definition EACCES : Z := 13.
Definition EPROTO : Z := 71.
Definition EPROTONOSUPPORT : Z := 93.
Definition ETIMEDOUT : Z := 110.
Definition EINPROGRESS : Z := 115.
Definition EBADF : Z := 9.
Definition EAGAIN : Z := 11.
Definition EBUSY : Z := 16.
Definition ENOTDIR : Z := 20.
Definition EISDIR : Z := 21.
Definition ENAMETOOLONG : Z := 36.
Definition ENOTEMPTY : Z := 39.

(** ** Unit sizes *)
Definition ORCH_SUPER_BLK_SIZE : Z := 512.
Definition ORCH_INODE_SIZE : Z := 512.
Definition ORCH_IDX_SIZE : Z := 1024.
Definition ORCH_VIRND_SIZE : Z := 256.
Definition ORCH_BUFMETA_SIZE : Z := 128.
Definition ORCH_PAGE_BW : Z := 12.
Definition ORCH_BLOCK_BW : Z := 15.
Definition ORCH_PAGE_SIZE : Z := Z.shiftl 1 ORCH_PAGE_BW.
Definition ORCH_BLOCK_SIZE : Z := Z.shiftl 1 ORCH_BLOCK_BW.
Definition MEM_PAGE_SIZE : Z := 4096.

(** ** Address name space *)
Definition OFFSET_SUPER_BLK : Z := 0.
Definition OFFSET_INODE_BMP : Z := Z.shiftl 4 10.
Definition OFFSET_IDX_BMP : Z := Z.shiftl 1 20.
Definition OFFSET_VIRND_BMP : Z := Z.shiftl 5 20.
Definition OFFSET_BUFMETA_BMP : Z := Z.shiftl 8 20.
Definition OFFSET_PAGE_BMP : Z := Z.shiftl 12 20.
Definition OFFSET_BLOCK_BMP : Z := Z.shiftl 40 20.
Definition OFFSET_LOG : Z := Z.shiftl 100 20.
Definition OFFSET_INODE : Z := Z.shiftl 1 30.
Definition OFFSET_INDEX : Z := Z.shiftl 2 30.
Definition OFFSET_VIRND : Z := Z.shiftl 5 30.
Definition OFFSET_BUFMETA : Z := Z.shiftl 7 30.
Definition OFFSET_PAGE : Z := Z.shiftl 10 30.
Definition OFFSET_BLOCK : Z := Z.shiftl 118 30.
Definition OFFSET_END : Z := Z.shiftl 1 40.
Definition PMEM_LEN : Z := Z.shiftl 118 30.

Definition MAX_INODE_NUM : Z := (OFFSET_INDEX - OFFSET_INODE) / ORCH_INODE_SIZE.
Definition MAX_INDEX_NUM : Z := (OFFSET_VIRND - OFFSET_INDEX) / ORCH_IDX_SIZE.
Definition MAX_VIRND_NUM : Z := (OFFSET_BUFMETA - OFFSET_VIRND) / ORCH_VIRND_SIZE.
Definition MAX_BUFMETA_NUM : Z := (OFFSET_PAGE - OFFSET_BUFMETA) / ORCH_BUFMETA_SIZE.
Definition MAX_PAGE_NUM : Z := (OFFSET_BLOCK - OFFSET_PAGE) / ORCH_PAGE_SIZE.
Definition MAX_BLOCK_NUM : Z := (OFFSET_END - OFFSET_BLOCK) / ORCH_BLOCK_SIZE.

(** ** Area identifiers: bitmap ids of balloc.h, equal to the extent ids of
    libspace.h; operation codes of log_config.h *)
Definition START_BMP_ID : Z := 1.
Definition INODE_BMP : Z := 1.
Definition IDX_NODE_BMP : Z := 2.
Definition VIR_NODE_BMP : Z := 3.
Definition BUFMETA_BMP : Z := 4.
Definition PAGE_BMP : Z := 5.
Definition BLOCK_BMP : Z := 6.
Definition END_BMP_ID : Z := 6.

Definition MIN_EXT_ID : Z := 1.
Definition INODE_EXT : Z := 1.
Definition IDXND_EXT : Z := 2.
Definition VIRND_EXT : Z := 3.
Definition BUFMETA_EXT : Z := 4.
Definition PAGE_EXT : Z := 5.
Definition BLOCK_EXT : Z := 6.
Definition MAX_EXT_ID : Z := 6.

Definition MIN_BLKTYPE_OP : Z := 0.
Definition INODE_OP : Z := 0.
Definition IDXND_OP : Z := 1.
Definition VIRND_OP : Z := 2.
Definition BUFMETA_OP : Z := 3.
Definition MAX_BLKTYPE_OP : Z := 5.

Definition RET_BLK_ID : Z := 0.
Definition RET_BLK_ADDR : Z := 1.
Definition PAR_BLK_ID : Z := 0.
Definition PAR_BLK_ADDR : Z := 1.

(** ** Conversions of addr_util.h (64-bit unsigned arithmetic) *)
Definition INODE_DEVADDR_TO_BLKID (a : Z) : Z := u64 (a - OFFSET_INODE) / ORCH_INODE_SIZE.
Definition INODE_BLKID_TO_DEVADDR (b : Z) : Z := u64 (b * ORCH_INODE_SIZE + OFFSET_INODE).
Definition IDX_DEVADDR_TO_BLKID (a : Z) : Z := u64 (a - OFFSET_INDEX) / ORCH_IDX_SIZE.
Definition IDX_BLKID_TO_DEVADDR (b : Z) : Z := u64 (b * ORCH_IDX_SIZE + OFFSET_INDEX).
Definition VIRND_DEVADDR_TO_BLKID (a : Z) : Z := u64 (a - OFFSET_VIRND) / ORCH_VIRND_SIZE.
Definition VIRND_BLKID_TO_DEVADDR (b : Z) : Z := u64 (b * ORCH_VIRND_SIZE + OFFSET_VIRND).
Definition BUFMETA_DEVADDR_TO_BLKID (a : Z) : Z := u64 (a - OFFSET_BUFMETA) / ORCH_BUFMETA_SIZE.
Definition BUFMETA_BLKID_TO_DEVADDR (b : Z) : Z := u64 (b * ORCH_BUFMETA_SIZE + OFFSET_BUFMETA).
Definition PAGE_DEVADDR_TO_BLKID (a : Z) : Z := u64 (a - OFFSET_PAGE) / ORCH_PAGE_SIZE.
Definition PAGE_BLKID_TO_DEVADDR (b : Z) : Z := u64 (b * ORCH_PAGE_SIZE + OFFSET_PAGE).
Definition BLOCK_DEVADDR_TO_BLKID (a : Z) : Z := u64 (a - OFFSET_BLOCK) / ORCH_BLOCK_SIZE.
Definition BLOCK_BLKID_TO_DEVADDR (b : Z) : Z := u64 (b * ORCH_BLOCK_SIZE + OFFSET_BLOCK).

(** The bounds-checked conversions of meta_cache.c. *)
Definition bufmetaid_to_devaddr (buffer_id : Z) : Z :=
  if (buffer_id <? 0) || (MAX_BUFMETA_NUM <=? buffer_id) then -1
  else buffer_id * ORCH_BUFMETA_SIZE + OFFSET_BUFMETA.
Definition nvmpage_to_devaddr (page_id : Z) : Z :=
  if (page_id <? 0) || (MAX_PAGE_NUM <=? page_id) then -1
  else page_id * ORCH_PAGE_SIZE + OFFSET_PAGE.
Definition ssdblk_to_devaddr (block_id : Z) : Z :=
  if (block_id <? 0) || (MAX_BLOCK_NUM <=? block_id) then -1
  else block_id * ORCH_BLOCK_SIZE + OFFSET_BLOCK.

(** [valid_extent_block] of lib_log.c. *)
Definition extent_capacity (type : Z) : Z :=
  if type =? INODE_EXT then MAX_INODE_NUM
  else if type =? IDXND_EXT then MAX_INDEX_NUM
  else if type =? VIRND_EXT then MAX_VIRND_NUM
  else if type =? BUFMETA_EXT then MAX_BUFMETA_NUM
  else if type =? PAGE_EXT then MAX_PAGE_NUM
  else if type =? BLOCK_EXT then MAX_BLOCK_NUM
  else 0.
Definition valid_extent_block (type block : Z) : bool :=
  if block <? 0 then false else block <? extent_capacity type.

(** ** Areas *)

(** Device address of a block of area [type], and back. *)
Definition blkid_to_devaddr (type b : Z) : Z :=
  if type =? INODE_BMP then INODE_BLKID_TO_DEVADDR b
  else if type =? IDX_NODE_BMP then IDX_BLKID_TO_DEVADDR b
  else if type =? VIR_NODE_BMP then VIRND_BLKID_TO_DEVADDR b
  else if type =? BUFMETA_BMP then BUFMETA_BLKID_TO_DEVADDR b
  else if type =? PAGE_BMP then PAGE_BLKID_TO_DEVADDR b
  else BLOCK_BLKID_TO_DEVADDR b.
Definition devaddr_to_blkid (type a : Z) : Z :=
  if type =? INODE_BMP then INODE_DEVADDR_TO_BLKID a
  else if type =? IDX_NODE_BMP then IDX_DEVADDR_TO_BLKID a
  else if type =? VIR_NODE_BMP then VIRND_DEVADDR_TO_BLKID a
  else if type =? BUFMETA_BMP then BUFMETA_DEVADDR_TO_BLKID a
  else if type =? PAGE_BMP then PAGE_DEVADDR_TO_BLKID a
  else BLOCK_DEVADDR_TO_BLKID a.
Definition area_unit (type : Z) : Z :=
  if type =? INODE_BMP then ORCH_INODE_SIZE
  else if type =? IDX_NODE_BMP then ORCH_IDX_SIZE
  else if type =? VIR_NODE_BMP then ORCH_VIRND_SIZE
  else if type =? BUFMETA_BMP then ORCH_BUFMETA_SIZE
  else if type =? PAGE_BMP then ORCH_PAGE_SIZE
  else ORCH_BLOCK_SIZE.
Definition area_start (type : Z) : Z := blkid_to_devaddr type 0.

(** Case analysis on a valid area id, with the layout constants evaluated. *)
Ltac area_cases t :=
  let H := fresh in
  assert (t = 1 \/ t = 2 \/ t = 3 \/ t = 4 \/ t = 5 \/ t = 6) as H by lia;
  destruct H as [-> | [-> | [-> | [-> | [-> | ->]]]]].

Lemma area_bounds t : START_BMP_ID <= t <= END_BMP_ID ->
  0 < area_unit t /\ 0 < extent_capacity t /\ 0 <= area_start t /\
  area_start t + extent_capacity t * area_unit t <= 2 ^ 40.
Proof.
  unfold START_BMP_ID, END_BMP_ID. intros Ht.
  area_cases t; vm_compute; repeat split; congruence.
Qed.

Lemma area_formulas t : START_BMP_ID <= t <= END_BMP_ID ->
  (forall b, blkid_to_devaddr t b = u64 (b * area_unit t + area_start t)) /\
  (forall a, devaddr_to_blkid t a = u64 (a - area_start t) / area_unit t).
Proof.
  unfold START_BMP_ID, END_BMP_ID. intros Ht.
  area_cases t; (split; intros x;
    [unfold blkid_to_devaddr, area_unit|unfold devaddr_to_blkid, area_unit]; cbn [Z.eqb Pos.eqb];
    match goal with |- context [area_start ?t] =>
      let v := eval vm_compute in (area_start t) in
      change (area_start t) with v
    end; reflexivity).
Qed.

Lemma area_addr t b : START_BMP_ID <= t <= END_BMP_ID -> 0 <= b < extent_capacity t ->
  blkid_to_devaddr t b = area_start t + b * area_unit t /\
  devaddr_to_blkid t (blkid_to_devaddr t b) = b.
Proof.
  intros Ht Hb. destruct (area_formulas t Ht) as [Hto Hof], (area_bounds t Ht) as (Hu & _ & Hs & He).
  rewrite Hof, Hto. assert (0 <= b * area_unit t + area_start t < 2 ^ 64) by nia.
  rewrite (u64_small (_ + _)) by done. split; [lia|].
  rewrite Z.add_simpl_r. rewrite u64_small by nia. by apply Z.div_mul; lia.
Qed.

(** Areas follow each other: each ends no later than the next begins. *)
Lemma areas_ordered t1 t2 :
  START_BMP_ID <= t1 <= END_BMP_ID -> START_BMP_ID <= t2 <= END_BMP_ID -> t1 < t2 ->
  area_start t1 + extent_capacity t1 * area_unit t1 <= area_start t2.
Proof.
  unfold START_BMP_ID, END_BMP_ID. intros H1 H2 Hlt.
  area_cases t1; area_cases t2; try lia; vm_compute; congruence.
Qed.

