(* ===== verification/Pmem.v ===== *)
(** * Persistent memory (KernelFS/device.c, KernelFS/device.h)

    [pmem] is the byte content of the PMEM device, addressed by device offset,
    with the copies [nvm_read] and [nvm_write].  Module [Cpu] is the machine
    below them: the store buffer view of memory, the cache lines that hold
    stores not yet written back, and the copy routine [avx_cpy] built from byte
    stores, 64-byte non-temporal stores and [clwb].  [nvm_write_refines] relates
    the two. *)

From stdpp Require Import base tactics numbers list.
From Stdlib Require Import ZArith Lia FunctionalExtensionality.
From S2P Require Import Prelude Bytes Layout.
Open Scope Z_scope.

Definition pmem := Z -> Z.
Definition pmem_ok (m : pmem) : Prop := forall a, byte_ok (m a).

(** Byte [i] of a buffer. *)
Definition byte_at (l : list Z) (i : Z) : Z := nth (Z.to_nat i) l 0.

Fixpoint read_bytes (m : pmem) (n : nat) (offset : Z) : list Z :=
  match n with O => [] | S n' => m offset :: read_bytes m n' (offset + 1) end.
Definition nvm_read (m : pmem) (length offset : Z) : list Z := read_bytes m (Z.to_nat length) offset.

Definition in_range (a offset length : Z) : bool := (offset <=? a) && (a <? offset + length).

Definition nvm_write (m : pmem) (src : list Z) (offset : Z) : pmem :=
  fun a => if in_range a offset (len src) then byte_at src (a - offset) else m a.

(** ** Reads and writes *)

Lemma in_range_spec a o n : in_range a o n = true <-> o <= a < o + n.
Proof. unfold in_range. rewrite andb_true_iff, Z.leb_le, Z.ltb_lt. done. Qed.

Lemma in_range_false a o n : in_range a o n = false <-> ~ (o <= a < o + n).
Proof. rewrite <-in_range_spec. by destruct (in_range a o n). Qed.

Lemma in_rangeP a o n : reflect (o <= a < o + n) (in_range a o n).
Proof. apply iff_reflect. by rewrite in_range_spec. Qed.

Lemma nvm_write_in m src o a :
  o <= a < o + len src -> nvm_write m src o a = byte_at src (a - o).
Proof. intros H. unfold nvm_write. by rewrite (proj2 (in_range_spec a o (len src)) H). Qed.

Lemma nvm_write_out m src o a :
  ~ (o <= a < o + len src) -> nvm_write m src o a = m a.
Proof. intros H. unfold nvm_write. by rewrite (proj2 (in_range_false a o (len src)) H). Qed.

Lemma nvm_read_map m n o :
  nvm_read m n o = map (fun i => m (o + Z.of_nat i)) (seq 0 (Z.to_nat n)).
Proof.
  unfold nvm_read. generalize (Z.to_nat n) as k. intros k. revert o.
  induction k as [|k IH]; intros o; [done|]. cbn [read_bytes seq map]. rewrite IH, <-seq_shift, map_map.
  f_equal; [f_equal; lia|]. apply map_ext. intros i. f_equal. lia.
Qed.

Lemma len_nvm_read m n o : 0 <= n -> len (nvm_read m n o) = n.
Proof. intros. rewrite nvm_read_map. unfold len. rewrite length_map, length_seq. lia. Qed.

Lemma byte_at_nvm_read m n o i : 0 <= i < n -> byte_at (nvm_read m n o) i = m (o + i).
Proof.
  intros H. unfold byte_at. rewrite nvm_read_map.
  rewrite (nth_indep _ 0 (m (o + Z.of_nat 0))) by (rewrite length_map, length_seq; lia).
  rewrite (map_nth (fun i => m (o + Z.of_nat i))). rewrite seq_nth by lia. f_equal. lia.
Qed.

Lemma byte_at_ext l1 l2 :
  len l1 = len l2 -> (forall i, 0 <= i < len l1 -> byte_at l1 i = byte_at l2 i) -> l1 = l2.
Proof.
  unfold len, byte_at. intros Hl H. apply (nth_ext _ _ 0 0); [lia|].
  intros n Hn. specialize (H (Z.of_nat n) ltac:(lia)). by rewrite Nat2Z.id in H.
Qed.

Lemma nvm_read_ext m1 m2 n o :
  (forall a, o <= a < o + n -> m1 a = m2 a) -> nvm_read m1 n o = nvm_read m2 n o.
Proof.
  intros H. rewrite !nvm_read_map. apply map_ext_in. intros i Hi. apply in_seq in Hi. apply H. lia.
Qed.

Lemma nvm_read_ok m n o : pmem_ok m -> bytes_ok (nvm_read m n o).
Proof. intros H. rewrite nvm_read_map. unfold bytes_ok. apply Forall_map, Forall_forall. intros. apply H. Qed.

Lemma byte_at_ok l i : bytes_ok l -> byte_ok (byte_at l i).
Proof.
  intros H. unfold byte_at. destruct (nth_in_or_default (Z.to_nat i) l 0) as [Hin | ->].
  - by eapply Forall_forall; [exact H|apply list_elem_of_In].
  - unfold byte_ok. lia.
Qed.

Lemma nvm_write_ok m l o : pmem_ok m -> bytes_ok l -> pmem_ok (nvm_write m l o).
Proof. intros Hm Hl a. unfold nvm_write. destruct (in_range _ _ _); [by apply byte_at_ok|apply Hm]. Qed.

Lemma byte_at_slice off n l i :
  0 <= off -> 0 <= i < n -> byte_at (slice off n l) i = byte_at l (off + i).
Proof.
  intros Ho Hi. unfold byte_at. rewrite !nth_lookup, slice_lookup by lia.
  do 2 f_equal. lia.
Qed.

Lemma byte_at_app_l l1 l2 i : 0 <= i < len l1 -> byte_at (l1 ++ l2) i = byte_at l1 i.
Proof. unfold byte_at, len. intros. apply app_nth1. lia. Qed.
Lemma byte_at_app_r l1 l2 i : len l1 <= i -> byte_at (l1 ++ l2) i = byte_at l2 (i - len l1).
Proof. unfold byte_at, len. intros. rewrite app_nth2 by lia. f_equal. lia. Qed.

(** Reading inside a written range gives the written bytes. *)
Lemma nvm_read_write_in m src o n p :
  0 <= n -> o <= p -> p + n <= o + len src ->
  nvm_read (nvm_write m src o) n p = slice (p - o) n src.
Proof.
  intros Hn Ho Hp. apply byte_at_ext.
  - rewrite len_nvm_read, len_slice by lia. done.
  - rewrite len_nvm_read by done. intros i Hi.
    rewrite byte_at_nvm_read, byte_at_slice, nvm_write_in by lia. f_equal. lia.
Qed.

Lemma nvm_read_write_same m src o : nvm_read (nvm_write m src o) (len src) o = src.
Proof.
  rewrite nvm_read_write_in; [|apply len_nonneg|lia|lia].
  rewrite Z.sub_diag. by apply slice_all.
Qed.

Lemma nvm_read_write_out m src o n p :
  p + n <= o \/ o + len src <= p -> nvm_read (nvm_write m src o) n p = nvm_read m n p.
Proof. intros H. apply nvm_read_ext. intros a Ha. apply nvm_write_out. lia. Qed.

Lemma nvm_read_slice m n o off k :
  0 <= off -> 0 <= k -> off + k <= n -> slice off k (nvm_read m n o) = nvm_read m k (o + off).
Proof.
  intros. apply byte_at_ext.
  - rewrite len_slice, len_nvm_read; rewrite ?len_nvm_read; lia.
  - rewrite len_slice; rewrite ?len_nvm_read; [|lia..]. intros i Hi.
    rewrite byte_at_slice, !byte_at_nvm_read by lia. f_equal. lia.
Qed.

Lemma nvm_read_app m n1 n2 o :
  0 <= n1 -> 0 <= n2 -> nvm_read m (n1 + n2) o = nvm_read m n1 o ++ nvm_read m n2 (o + n1).
Proof.
  intros. apply byte_at_ext.
  - rewrite len_app, !len_nvm_read by lia. done.
  - rewrite len_nvm_read by lia. intros i Hi. rewrite byte_at_nvm_read by lia.
    destruct (Z.lt_ge_cases i n1).
    + rewrite byte_at_app_l by (rewrite len_nvm_read; lia). by rewrite byte_at_nvm_read by lia.
    + rewrite byte_at_app_r by (rewrite len_nvm_read; lia).
      rewrite len_nvm_read, byte_at_nvm_read by lia. f_equal. lia.
Qed.

(** Rewriting a range with what it already holds changes nothing. *)
Lemma nvm_write_read m n o : 0 <= n -> nvm_write m (nvm_read m n o) o = m.
Proof.
  intros Hn. apply functional_extensionality. intros a. unfold nvm_write.
  rewrite len_nvm_read by done. destruct (in_rangeP a o n) as [H|H]; [|done].
  rewrite byte_at_nvm_read by lia. f_equal. lia.
Qed.

Lemma nvm_write_nil m o : nvm_write m [] o = m.
Proof.
  apply functional_extensionality. intros a. apply nvm_write_out. unfold len. simpl. lia.
Qed.

Lemma nvm_write_app m l1 l2 o :
  nvm_write m (l1 ++ l2) o = nvm_write (nvm_write m l1 o) l2 (o + len l1).
Proof.
  apply functional_extensionality. intros a. unfold nvm_write. rewrite len_app.
  pose proof (len_nonneg l1). pose proof (len_nonneg l2).
  destruct (in_rangeP a o (len l1 + len l2)), (in_rangeP a (o + len l1) (len l2)),
    (in_rangeP a o (len l1)); try lia; try done.
  - rewrite byte_at_app_r by lia. f_equal. lia.
  - rewrite byte_at_app_l by lia. done.
Qed.

Lemma nvm_write_comm m l1 o1 l2 o2 :
  o1 + len l1 <= o2 \/ o2 + len l2 <= o1 ->
  nvm_write (nvm_write m l1 o1) l2 o2 = nvm_write (nvm_write m l2 o2) l1 o1.
Proof.
  intros H. apply functional_extensionality. intros a. unfold nvm_write.
  destruct (in_rangeP a o1 (len l1)), (in_rangeP a o2 (len l2)); try lia; done.
Qed.

Lemma nvm_write_twice m l1 l2 o : len l1 = len l2 ->
  nvm_write (nvm_write m l1 o) l2 o = nvm_write m l2 o.
Proof.
  intros H. apply functional_extensionality. intros a. unfold nvm_write. rewrite H.
  by destruct (in_range _ _ _).
Qed.

#[export] Hint Resolve nvm_read_ok nvm_write_ok byte_at_ok : orch.
#[export] Hint Rewrite nvm_read_write_same : orch.

(** ** The machine below: cache lines and [avx_cpy] *)

Module Cpu.

(** What loads observe, and the lines holding stores that no write-back has
    been issued for. *)
Record cpu := mk_cpu { view : Z -> Z; dirty : Z -> bool }.

Definition line (a : Z) : Z := a / 64.
Definition FLUSH_ALIGN : Z := 64.
Definition ALIGN_MASK : Z := FLUSH_ALIGN - 1.

(** A one-byte store. *)
Definition store8 (c : cpu) (a v : Z) : cpu :=
  mk_cpu (fun x => if x =? a then v else view c x)
         (fun l => (l =? line a) || dirty c l).
(** [_mm_clwb]. *)
Definition cache_wb_one (c : cpu) (a : Z) : cpu :=
  mk_cpu (view c) (fun l => negb (l =? line a) && dirty c l).
(** [_mm512_stream_si512] of the 64 bytes [f 0 .. f 63] to an aligned line. *)
Definition stream64 (c : cpu) (a : Z) (f : Z -> Z) : cpu :=
  mk_cpu (fun x => if in_range x a 64 then f (x - a) else view c x)
         (fun l => negb (l =? line a) && dirty c l).

(** Loop state: machine, [dest], [src] (position in the source), count. *)
Abbreviation copy_state := (cpu * Z * Z * Z)%type.

Definition byte_step (src : list Z) (st : copy_state) : copy_state :=
  let '(c, dest, s, n) := st in (store8 c dest (byte_at src s), dest + 1, s + 1, n - 1).
Definition stream_step (src : list Z) (st : copy_state) : copy_state :=
  let '(c, dest, s, n) := st in
  (stream64 c dest (fun i => byte_at src (s + i)), dest + 64, s + 64, n - 64).
Definition copy_left (st : copy_state) : bool := let '(_, _, _, n) := st in 0 <? n.
Definition stream_left (st : copy_state) : bool := let '(_, _, _, n) := st in 64 <=? n.

(** Byte-wise copy up to the next line boundary; the flag says that nothing is
    left to copy. *)
Definition avx_prefix (c : cpu) (dest : Z) (src : list Z) (size : Z) : cpu * Z * Z * Z * bool :=
  let cnt := Z.land dest ALIGN_MASK in
  if 0 <? cnt then
    let cnt := FLUSH_ALIGN - cnt in
    let '(cnt, size) := if size <? cnt then (size, 0) else (cnt, size - cnt) in
    let '(c, dest, s, _) := whileZ (cnt + 1) copy_left (byte_step src) (c, dest, 0, cnt) in
    (cache_wb_one c (dest - 1), dest, s, size, size =? 0)
  else (c, dest, 0, size, false).

(** The last partial line. *)
Definition avx_tail (c : cpu) (dest : Z) (src : list Z) (s size : Z) : cpu :=
  let size := Z.land size ALIGN_MASK in
  if negb (size =? 0) then
    let '(c, dest, _, _) := whileZ (size + 1) copy_left (byte_step src) (c, dest, s, size) in
    cache_wb_one c (dest - 1)
  else c.

(** [avx_cpy(dest, src, size)]; [None] is the failed alignment assertion. *)
Definition avx_cpy (c : cpu) (dest : Z) (src : list Z) (size : Z) : option cpu :=
  let '(c, dest, s, size, finished) := avx_prefix c dest src size in
  if finished then Some c
  else if negb (dest mod 64 =? 0) then None
  else
    let '(c, dest, s, size) := whileZ (size + 1) stream_left (stream_step src) (c, dest, s, size) in
    Some (avx_tail c dest src s size).

(** [nvm_write(src, len, offset)] with the device mapped at [base]. *)
Definition nvm_write_cpu (base : Z) (c : cpu) (src : list Z) (offset : Z) : option cpu :=
  avx_cpy c (offset + base) src (len src).

Definition flushed (c : cpu) (a : Z) : Prop := dirty c (line a) = false.

(** Content [m] the media may hold when power fails after an [sfence]. *)
Definition survives (c : cpu) (m : Z -> Z) : Prop := forall a, flushed c a -> m a = view c a.

(** [c'] is [c] after copying [src\[s0 .. s0+n)] to [\[d, d+n)]. *)
Definition copied (src : list Z) (c : cpu) (d s0 n : Z) (c' : cpu) : Prop :=
  forall a, view c' a = if in_range a d n then byte_at src (s0 + (a - d)) else view c a.

Lemma byte_loop_spec src c d s n c' d' s' n' :
  0 <= n -> d + n <= 64 * (line d + 1) ->
  whileZ (n + 1) copy_left (byte_step src) (c, d, s, n) = (c', d', s', n') ->
  d' = d + n /\ s' = s + n /\ copied src c d s n c' /\
  (forall l, l <> line d -> dirty c' l = dirty c l).
Proof.
  intros Hn Hd Hw.
  destruct (whileZ_inv (fun '(c1, d1, s1, n1) =>
     0 <= n1 /\ d1 = d + (n - n1) /\ s1 = s + (n - n1) /\ n1 <= n /\
     copied src c d s (n - n1) c1 /\ (forall l, l <> line d -> dirty c1 l = dirty c l))
     (fun '(_, _, _, n1) => n1) (n + 1) copy_left (byte_step src) (c, d, s, n)) as [HI Hc].
  - rewrite Z.sub_diag. split_and!; [lia|lia|lia|lia| |done].
    intros a. destruct (in_rangeP a d 0); [lia|done].
  - lia.
  - intros [[[c1 d1] s1] n1]. lia.
  - intros [[[c1 d1] s1] n1] (H0 & Hd1 & Hs1 & Hle & Hcp & Hdy) Hl. simpl in Hl. apply Z.ltb_lt in Hl.
    unfold line in *.
    split; [|simpl; lia]. simpl. split_and!; [lia|lia|lia|lia| |].
    + intros a. simpl. destruct (Z.eqb_spec a d1) as [->|Hne].
      * destruct (in_rangeP d1 d (n - (n1 - 1))); [f_equal; lia|lia].
      * rewrite Hcp. destruct (in_rangeP a d (n - n1)), (in_rangeP a d (n - (n1 - 1))); try lia; done.
    + intros l Hl'. rewrite Hdy by done.
      replace (l =? line d1) with false; [done|]. symmetry. apply Z.eqb_neq.
      assert (line d1 = d / 64); [|congruence]. unfold line. symmetry.
      apply Z.div_unique with (d1 - 64 * (d / 64)); [|lia].
      pose proof (Z.mul_div_le d 64). lia.
  - rewrite Hw in HI, Hc. simpl in Hc. apply Z.ltb_ge in Hc.
    destruct HI as (? & ? & ? & ? & ? & ?). assert (n' = 0) as -> by lia.
    rewrite Z.sub_0_r in *. done.
Qed.

Lemma stream_loop_spec src c d s n c' d' s' n' :
  0 <= n -> d mod 64 = 0 ->
  whileZ (n + 1) stream_left (stream_step src) (c, d, s, n) = (c', d', s', n') ->
  0 <= n' < 64 /\ n' = n mod 64 /\ d' = d + (n - n') /\ d' mod 64 = 0 /\ s' = s + (n - n') /\
  copied src c d s (n - n') c' /\
  (forall l, dirty c' l = dirty c l && negb (in_range (64 * l) d (n - n'))).
Proof.
  intros Hn Hd Hw.
  destruct (whileZ_inv (fun '(c1, d1, s1, n1) =>
     0 <= n1 /\ n1 mod 64 = n mod 64 /\ d1 = d + (n - n1) /\ d1 mod 64 = 0 /\ s1 = s + (n - n1) /\
     n1 <= n /\ copied src c d s (n - n1) c1 /\
     (forall l, dirty c1 l = dirty c l && negb (in_range (64 * l) d (n - n1))))
     (fun '(_, _, _, n1) => n1) (n + 1) stream_left (stream_step src) (c, d, s, n)) as [HI Hc].
  - rewrite Z.sub_diag. split_and!; [lia|done|lia|done|lia|lia| |].
    + intros a. destruct (in_rangeP a d 0); [lia|done].
    + intros l. destruct (in_rangeP (64 * l) d 0); [lia|]. by rewrite andb_true_r.
  - lia.
  - intros [[[c1 d1] s1] n1]. lia.
  - intros [[[c1 d1] s1] n1] (H0 & Hm & Hd1 & Hal & Hs1 & Hle & Hcp & Hdy) Hl.
    simpl in Hl. apply Z.leb_le in Hl.
    assert (d1 = 64 * (d1 / 64)) as Hdiv by (pose proof (Z.div_mod d1 64); lia).
    split; [|simpl; lia]. simpl. split_and!; [lia| |lia| |lia|lia| |].
    + rewrite <-Hm, <-(Z.mod_add (n1 - 64) 1 64) by lia. f_equal. lia.
    + rewrite Hdiv at 1. replace (64 * (d1 / 64) + 64) with ((d1 / 64 + 1) * 64) by lia.
      by apply Z.mod_mul.
    + intros a. simpl. rewrite Hcp.
      destruct (in_rangeP a d1 64), (in_rangeP a d (n - n1)), (in_rangeP a d (n - (n1 - 64)));
        try lia; try done; f_equal; lia.
    + intros l. rewrite Hdy. unfold line.
      destruct (Z.eqb_spec l (d1 / 64)), (in_rangeP (64 * l) d (n - n1)),
        (in_rangeP (64 * l) d (n - (n1 - 64))); try lia; by destruct (dirty c l).
  - rewrite Hw in HI, Hc. simpl in Hc. apply Z.leb_gt in Hc.
    destruct HI as (? & Hm & ? & ? & ? & ? & ? & ?).
    rewrite (Z.mod_small n') in Hm by lia. split_and!; try done; lia.
Qed.

(** A byte loop confined to one line followed by the write-back of that line. *)
Lemma byte_loop_wb src c d s n c' d' s' n' :
  0 <= n -> d + n <= 64 * (line d + 1) -> (0 < n \/ d mod 64 <> 0) ->
  whileZ (n + 1) copy_left (byte_step src) (c, d, s, n) = (c', d', s', n') ->
  d' = d + n /\ s' = s + n /\ copied src c d s n (cache_wb_one c' (d' - 1)) /\
  (forall l, dirty (cache_wb_one c' (d' - 1)) l = dirty c l && negb (l =? line d)).
Proof.
  intros Hn Hd Hne Hw. destruct (byte_loop_spec _ _ _ _ _ _ _ _ _ Hn Hd Hw) as (-> & -> & Hcp & Hdy).
  split_and!; [done..|]. intros l. simpl.
  assert (line (d + n - 1) = line d) as ->.
  { unfold line in *. symmetry. apply Z.div_unique with (d + n - 1 - 64 * (d / 64)); [|lia].
    pose proof (Z.div_mod d 64). pose proof (Z.mod_pos_bound d 64). lia. }
  destruct (Z.eqb_spec l (line d)); simpl; [by rewrite andb_false_r|].
  by rewrite Hdy, andb_true_r.
Qed.

Lemma copied_trans src c1 c2 c3 d s n m :
  0 <= n -> 0 <= m ->
  copied src c1 d s n c2 -> copied src c2 (d + n) (s + n) m c3 -> copied src c1 d s (n + m) c3.
Proof.
  intros Hn Hm H1 H2 a. rewrite H2, H1.
  destruct (in_rangeP a (d + n) m), (in_rangeP a d n), (in_rangeP a d (n + m)); try lia; try done.
  f_equal. lia.
Qed.

Lemma land_align x : Z.land x ALIGN_MASK = x mod 64.
Proof. change ALIGN_MASK with (Z.ones 6). by rewrite Z.land_ones. Qed.

(** Lines that a copy to [\[d, d+n)] leaves clean. *)
Definition cleans (c : cpu) (d n : Z) (c' : cpu) : Prop :=
  (forall a, d <= a < d + n -> flushed c' a) /\ (forall a, flushed c a -> flushed c' a).

Lemma cleans_trans c1 c2 c3 d n m :
  cleans c1 d n c2 -> cleans c2 (d + n) m c3 -> cleans c1 d (n + m) c3.
Proof.
  intros [H1 H2] [H3 H4]. split; [|by auto]. intros a Ha.
  destruct (Z.lt_ge_cases a (d + n)); [apply H4, H1|apply H3]; lia.
Qed.

Lemma line_window d a : d <= a -> a < 64 * (line d + 1) -> line a = line d.
Proof.
  unfold line. intros. symmetry. apply Z.div_unique with (a - 64 * (d / 64)); [|lia].
  pose proof (Z.mul_div_le d 64). lia.
Qed.

Lemma cleans_one_line c d n c' : d + n <= 64 * (line d + 1) ->
  (forall l, dirty c' l = dirty c l && negb (l =? line d)) -> cleans c d n c'.
Proof.
  intros Hd Hdy. split; unfold flushed; intros a Ha; rewrite Hdy.
  - rewrite (line_window d a) by lia. by rewrite Z.eqb_refl, andb_false_r.
  - by rewrite Ha.
Qed.

Lemma avx_prefix_spec c dest src size : 0 <= size ->
  exists c1 pre, 0 <= pre <= size /\
    avx_prefix c dest src size =
      (c1, dest + pre, pre, size - pre, (0 <? dest mod 64) && (size - pre =? 0)) /\
    ((dest + pre) mod 64 = 0 \/ (size - pre = 0 /\ 0 < dest mod 64)) /\
    copied src c dest 0 pre c1 /\ cleans c dest pre c1.
Proof.
  intros Hsz. unfold avx_prefix. rewrite land_align. unfold FLUSH_ALIGN.
  pose proof (Z.mod_pos_bound dest 64 ltac:(lia)). pose proof (Z.div_mod dest 64 ltac:(lia)).
  destruct (Z.ltb_spec 0 (dest mod 64)) as [Hp|Hp].
  - set (n := Z.min size (64 - dest mod 64)).
    replace (if size <? 64 - dest mod 64 then (size, 0) else (64 - dest mod 64, size - (64 - dest mod 64)))
      with (n, size - n) by (unfold n; destruct (Z.ltb_spec size (64 - dest mod 64)); f_equal; lia).
    destruct (whileZ (n + 1) copy_left (byte_step src) (c, dest, 0, n)) as [[[c' d'] s'] n'] eqn:Hw.
    destruct (byte_loop_wb src c dest 0 n c' d' s' n') as (-> & -> & Hcp & Hdy);
      [lia|unfold line; lia|lia|done|].
    exists (cache_wb_one c' (dest + n - 1)), n. rewrite Z.add_0_l. split_and!; [lia|lia|done| |done|].
    + destruct (Z.lt_ge_cases size (64 - dest mod 64)); [right; lia|left].
      replace (dest + n) with ((dest / 64 + 1) * 64) by lia. by apply Z.mod_mul.
    + apply cleans_one_line; [unfold line; lia|done].
  - exists c, 0. rewrite Z.add_0_r, Z.sub_0_r. split_and!; [lia|lia|done|left; lia| |].
    + intros a. destruct (in_rangeP a dest 0); [lia|done].
    + split; [lia|done].
Qed.

Lemma avx_tail_spec c dest src s n : 0 <= n < 64 -> dest mod 64 = 0 ->
  copied src c dest s n (avx_tail c dest src s n) /\ cleans c dest n (avx_tail c dest src s n).
Proof.
  intros Hn Hd. unfold avx_tail. rewrite land_align, Z.mod_small by lia.
  destruct (Z.eqb_spec n 0) as [->|Hne]; simpl.
  - split; [|split; [lia|done]]. intros a. destruct (in_rangeP a dest 0); [lia|done].
  - destruct (whileZ _ _ _ _) as [[[c' d'] s'] n'] eqn:Hw.
    pose proof (Z.div_mod dest 64 ltac:(lia)).
    destruct (byte_loop_wb src c dest s n c' d' s' n') as (-> & -> & Hcp & Hdy);
      [lia|unfold line; lia|lia|done|].
    split; [done|]. apply cleans_one_line; [unfold line; lia|done].
Qed.

Lemma avx_cpy_spec c dest src size : 0 <= size ->
  exists c', avx_cpy c dest src size = Some c' /\ copied src c dest 0 size c' /\ cleans c dest size c'.
Proof.
  intros Hsz. unfold avx_cpy.
  destruct (avx_prefix_spec c dest src size Hsz) as (c1 & pre & Hpre & -> & Hal & Hcp1 & Hcl1).
  destruct ((0 <? dest mod 64) && (size - pre =? 0)) eqn:Hfin.
  - apply andb_true_iff in Hfin as [_ Hfin]. apply Z.eqb_eq in Hfin.
    exists c1. by replace size with pre by lia.
  - assert ((dest + pre) mod 64 = 0) as Hm.
    { destruct Hal as [|[H1 H2]]; [done|]. rewrite H1 in Hfin. apply Z.ltb_lt in H2.
      by rewrite H2 in Hfin. }
    rewrite Hm. simpl.
    destruct (whileZ _ _ _ _) as [[[c2 d2] s2] n2] eqn:Hw.
    apply stream_loop_spec in Hw
      as (Hn2 & Hn2' & -> & Hal2 & -> & Hcp2 & Hdy2); [|lia|done].
    assert (0 <= size - pre - n2) by (pose proof (Z.mod_le (size - pre) 64); lia).
    set (body := size - pre - n2) in *.
    destruct (avx_tail_spec c2 (dest + pre + body) src (pre + body) n2 Hn2 Hal2) as [Hcp3 Hcl3].
    eexists. split; [done|]. replace size with (pre + (body + n2)) by (unfold body; lia).
    split.
    + eapply copied_trans; [lia|lia|done|]. eapply copied_trans; [lia|lia|done|done].
    + eapply cleans_trans; [done|]. eapply cleans_trans; [|done].
      split; unfold flushed; intros a Ha; rewrite Hdy2; [|by rewrite Ha].
      replace (in_range (64 * line a) (dest + pre) body) with true; [by rewrite andb_false_r|].
      symmetry. apply in_range_spec. unfold line.
      pose proof (Z.div_mod a 64 ltac:(lia)). pose proof (Z.mod_pos_bound a 64 ltac:(lia)).
      pose proof (Z.div_mod (dest + pre) 64 ltac:(lia)). lia.
Qed.

(** C33: [nvm_write] through [avx_cpy] never trips its alignment assertion, gives
    the mapped device exactly the content of the specification [nvm_write] for
    every mapping base, alignment and length, dirties no line, and once fenced
    the written range is what the media holds after a power failure. *)
Theorem nvm_write_refines (base : Z) (c : cpu) (src : list Z) (offset : Z) :
  exists c', nvm_write_cpu base c src offset = Some c' /\
    (forall o, view c' (o + base) = nvm_write (fun o => view c (o + base)) src offset o) /\
    (forall a, flushed c a -> flushed c' a) /\
    (forall m, survives c' m -> nvm_read (fun o => m (o + base)) (len src) offset = src).
Proof.
  pose proof (len_nonneg src) as Hl.
  destruct (avx_cpy_spec c (offset + base) src (len src) Hl) as (c' & E & Hcp & Hcl).
  exists c'. split; [done|].
  assert (forall o, view c' (o + base) = nvm_write (fun o => view c (o + base)) src offset o) as Hv.
  { intros o. rewrite Hcp. unfold nvm_write.
    destruct (in_rangeP (o + base) (offset + base) (len src)), (in_rangeP o offset (len src));
      try lia. f_equal. lia. }
  split_and!; [done|by apply Hcl|].
  intros m Hm. rewrite <-(nvm_read_write_same (fun o => view c (o + base)) src offset) at 2.
  apply nvm_read_ext. intros a Ha. rewrite <-Hv. apply Hm, (proj1 Hcl). lia.
Qed.
End Cpu.
