(* ===== verification/Device.v ===== *)
(** * The device address space (KernelFS/device.c)

    PMEM and SSD form one address space: bytes below [PMEM_LEN] are in PMEM, the
    others on the SSD.  This file models the synchronous accesses of the formatter
    and the submissions of the server, which may cross the boundary. *)

From stdpp Require Import base tactics numbers list.
From Stdlib Require Import ZArith Lia FunctionalExtensionality.
From S2P Require Import Prelude Bytes Layout Pmem.
Open Scope Z_scope.

Record devs := mk_devs { d_nvm : pmem; d_ssd : pmem }.

(** The address space as a whole. *)
Definition flat (d : devs) : pmem := fun a => if a <? PMEM_LEN then d_nvm d a else d_ssd d (a - PMEM_LEN).

(** ** Synchronous access *)

Section ssd.
(** Capacity of the SSD, and what [valloc] leaves in a fresh buffer. *)
Context (ssd_size : Z) (junk : pmem).

(** [pread] and [pwrite] transfer the whole range, or not the whole of it. *)
Definition io_ok (len_ offset : Z) : bool :=
  (0 <=? offset) && ((len_ =? 0) || (0 <=? len_) && (offset + len_ <=? ssd_size)).

(** [None] is [exit] or a failed assertion. *)
Definition ssd_read (ssd : pmem) (len_ offset : Z) : option (list Z) :=
  if io_ok len_ offset then Some (nvm_read ssd len_ offset) else None.

Definition SIZE_4KiB : Z := 4096.
Definition BW_4KiB : Z := 12.
Definition MAX_WBLKS : Z := 1024 * 256.

(** The loop over pieces of [MAX_WBLKS] blocks: SSD, blocks left, buffer offset. *)
Definition write_piece (alignbuf : pmem) (woffset : Z) (st : pmem * Z * Z) : ctl (pmem * Z * Z) (option pmem) :=
  let '(ssd, block_sum, alignbuf_off) := st in
  if 0 <? block_sum then
    let real_wblks := if MAX_WBLKS <? block_sum then MAX_WBLKS else block_sum in
    if io_ok (real_wblks * SIZE_4KiB) (woffset + alignbuf_off)
    then Next (nvm_write ssd (nvm_read alignbuf (real_wblks * SIZE_4KiB) alignbuf_off) (woffset + alignbuf_off),
               block_sum - real_wblks, alignbuf_off + real_wblks * SIZE_4KiB)
    else Stop None
  else Stop (Some ssd).
Definition write_pieces (alignbuf : pmem) (woffset : Z) (ssd : pmem) (block_sum : Z) : option pmem :=
  match loopZ (block_sum + 1) (write_piece alignbuf woffset) (ssd, block_sum, 0) with
  | Stop r => r
  | Next _ => None
  end.

Definition ssd_write (ssd : pmem) (src : list Z) (offset : Z) : option pmem :=
  let len_ := len src in
  let end_byte := u64 (offset + len_ - 1) in
  let start_offset_4k := u64 (Z.shiftr offset BW_4KiB) in
  let end_offset_4k := Z.shiftr end_byte BW_4KiB in
  let block_sum := u64 (end_offset_4k - start_offset_4k + 1) in
  let start_blk_pos := Z.land offset (SIZE_4KiB - 1) in
  let end_blk_pos := Z.land end_byte (SIZE_4KiB - 1) in
  alignbuf ← (if negb (start_blk_pos =? 0) || ((block_sum =? 1) && (len_ <? SIZE_4KiB))
              then if io_ok SIZE_4KiB offset
                   then Some (nvm_write junk (nvm_read ssd SIZE_4KiB offset) 0) else None
              else Some junk);
  alignbuf ← (if (1 <? block_sum) && negb (end_blk_pos + 1 =? SIZE_4KiB)
              then let last := (block_sum - 1) * SIZE_4KiB in
                   if io_ok SIZE_4KiB (offset + last)
                   then Some (nvm_write alignbuf (nvm_read ssd SIZE_4KiB (offset + last)) last) else None
              else Some alignbuf);
  let alignbuf := nvm_write alignbuf src start_blk_pos in
  let woffset := Z.shiftl start_offset_4k BW_4KiB in
  if MAX_WBLKS <? block_sum then write_pieces alignbuf woffset ssd block_sum
  else if io_ok (block_sum * SIZE_4KiB) woffset
       then Some (nvm_write ssd (nvm_read alignbuf (block_sum * SIZE_4KiB) 0) woffset) else None.

Definition read_data_from_devs (d : devs) (len_ offset : Z) : option (list Z) :=
  if offset + len_ <=? PMEM_LEN then Some (nvm_read (d_nvm d) len_ offset)
  else if (offset <? PMEM_LEN) && (PMEM_LEN <? offset + len_) then
    let nvm_read_len := PMEM_LEN - offset in
    l ← ssd_read (d_ssd d) (offset + len_ - PMEM_LEN) 0;
    Some (nvm_read (d_nvm d) nvm_read_len offset ++ l)
  else ssd_read (d_ssd d) len_ (offset - PMEM_LEN).

Definition write_data_to_devs (d : devs) (src : list Z) (offset : Z) : option devs :=
  if offset + len src <=? PMEM_LEN then Some (mk_devs (nvm_write (d_nvm d) src offset) (d_ssd d))
  else if (offset <? PMEM_LEN) && (PMEM_LEN <? offset + len src) then
    let nvm_write_len := PMEM_LEN - offset in
    let nvm := nvm_write (d_nvm d) (slice 0 nvm_write_len src) offset in
    ssd ← ssd_write (d_ssd d) (slice nvm_write_len (len src - nvm_write_len) src) 0;
    Some (mk_devs nvm ssd)
  else
    ssd ← ssd_write (d_ssd d) src (offset - PMEM_LEN);
    Some (mk_devs (d_nvm d) ssd).
End ssd.

(** ** Submissions of the server *)

Section submit.
(** The SPDK service: an error, or the completion it delivers and its effect. *)
Context (svc_read : pmem -> Z -> Z -> Z + Z * Z * list Z) (svc_write : pmem -> list Z -> Z -> Z + Z * Z * pmem).

(** [submit_split_completion] of a write ([complete_split_device] adds the prefix):
    return value, completions delivered, SSD. *)
Definition submit_split_write (malloc_ok : bool) (prefix_bytes : Z) (ssd : pmem) (buffer : list Z) (ssd_offset : Z)
    : Z * list (Z * Z) * pmem :=
  if malloc_ok then
    match svc_write ssd buffer ssd_offset with
    | inl error => (error, [], ssd)
    | inr (error, bytes, ssd') => (0, [(error, if error =? 0 then prefix_bytes + bytes else 0)], ssd')
    end
  else (ENOMEM, [], ssd).
Definition submit_split_read (malloc_ok : bool) (prefix_bytes : Z) (ssd : pmem) (length_ ssd_offset : Z)
    : Z * list (Z * Z) * list Z :=
  if malloc_ok then
    match svc_read ssd length_ ssd_offset with
    | inl error => (error, [], [])
    | inr (error, bytes, data) => (0, [(error, if error =? 0 then prefix_bytes + bytes else 0)], data)
    end
  else (ENOMEM, [], []).


(** [src] is [None] for a null pointer. *)
Definition submit_write_data_to_devs (malloc_ok : bool) (d : devs) (src : option (list Z)) (len_ offset : Z)
    (completion : bool) : Z * list (Z * Z) * devs :=
  if (match src with None => negb (len_ =? 0) | Some _ => false end) || (len_ <? 0) || (offset <? 0) ||
     (INT64_MAX - offset <? len_) || negb completion then (EINVAL, [], d)
  else if len_ =? 0 then (0, [(0, 0)], d)
  else
    let src := slice 0 len_ (default [] src) in
    if offset + len_ <=? PMEM_LEN then (0, [(0, len_)], mk_devs (nvm_write (d_nvm d) src offset) (d_ssd d))
    else if offset <? PMEM_LEN then
      let nvm_len := PMEM_LEN - offset in
      let nvm := nvm_write (d_nvm d) (slice 0 nvm_len src) offset in
      let '(r, c, ssd) := submit_split_write malloc_ok nvm_len (d_ssd d) (slice nvm_len (len_ - nvm_len) src) 0 in
      (r, c, mk_devs nvm ssd)
    else
      let '(r, c, ssd) := submit_split_write malloc_ok 0 (d_ssd d) src (offset - PMEM_LEN) in
      (r, c, mk_devs (d_nvm d) ssd).

(** [dst] says whether the buffer is there; the bytes are those stored to it. *)
Definition submit_read_data_from_devs (malloc_ok : bool) (d : devs) (dst : bool) (len_ offset : Z)
    (completion : bool) : Z * list (Z * Z) * list Z :=
  if (negb dst && negb (len_ =? 0)) || (len_ <? 0) || (offset <? 0) ||
     (INT64_MAX - offset <? len_) || negb completion then (EINVAL, [], [])
  else if len_ =? 0 then (0, [(0, 0)], [])
  else if offset + len_ <=? PMEM_LEN then (0, [(0, len_)], nvm_read (d_nvm d) len_ offset)
  else if offset <? PMEM_LEN then
    let nvm_len := PMEM_LEN - offset in
    let '(r, c, l) := submit_split_read malloc_ok nvm_len (d_ssd d) (len_ - nvm_len) 0 in
    (r, c, nvm_read (d_nvm d) nvm_len offset ++ l)
  else submit_split_read malloc_ok 0 (d_ssd d) len_ (offset - PMEM_LEN).
End submit.

(** ** Writes in the address space *)

Lemma flat_nvm d src off : off + len src <= PMEM_LEN ->
  flat (mk_devs (nvm_write (d_nvm d) src off) (d_ssd d)) = nvm_write (flat d) src off.
Proof.
  intros H. apply functional_extensionality. intros a. unfold flat at 1. cbn.
  destruct (decide (off <= a < off + len src)) as [Ha|Ha].
  - replace (a <? PMEM_LEN) with true by lia. by rewrite !nvm_write_in.
  - rewrite !nvm_write_out by done. done.
Qed.
Lemma flat_ssd d src off : PMEM_LEN <= off ->
  flat (mk_devs (d_nvm d) (nvm_write (d_ssd d) src (off - PMEM_LEN))) = nvm_write (flat d) src off.
Proof.
  intros H. apply functional_extensionality. intros a. unfold flat at 1. cbn.
  destruct (decide (off <= a < off + len src)) as [Ha|Ha].
  - replace (a <? PMEM_LEN) with false by lia. rewrite !nvm_write_in by lia. f_equal. lia.
  - rewrite !nvm_write_out by lia. done.
Qed.
Lemma flat_split d src off : off < PMEM_LEN -> PMEM_LEN < off + len src ->
  let n := PMEM_LEN - off in
  flat (mk_devs (nvm_write (d_nvm d) (slice 0 n src) off) (nvm_write (d_ssd d) (slice n (len src - n) src) 0)) =
  nvm_write (flat d) src off.
Proof.
  intros H1 H2 n. assert (len (slice 0 n src) = n) as Hl by (apply len_slice; lia).
  assert (src = slice 0 n src ++ slice n (len src - n) src) as Hs.
  { rewrite slice_cat by lia. symmetry. apply slice_all. lia. }
  rewrite Hs at 4. rewrite nvm_write_app, Hl.
  rewrite <-(flat_nvm d) by lia. rewrite <-flat_ssd by lia. cbn. by replace (off + n - PMEM_LEN) with 0 by lia.
Qed.

(** ** Read-modify-write of the SSD *)

Lemma land_4095 x : Z.land x (SIZE_4KiB - 1) = x mod 4096.
Proof. apply (Z.land_ones x 12). lia. Qed.
Lemma shiftr_4k x : Z.shiftr x BW_4KiB = x / 4096.
Proof. apply Z.shiftr_div_pow2. unfold BW_4KiB. lia. Qed.
Lemma shiftl_4k x : Z.shiftl x BW_4KiB = x * 4096.
Proof. apply Z.shiftl_mul_pow2. unfold BW_4KiB. lia. Qed.

(** State of the piece loop with [rest] of the [n] blocks to write. *)
Definition pieces_inv (buf : pmem) (woffset n : Z) (ssd : pmem) (k : Z) (st : pmem * Z * Z) : Prop :=
  let '(ssd', rest, off) := st in
  0 <= rest <= n - k /\ off = (n - rest) * 4096 /\ ssd' = nvm_write ssd (nvm_read buf off 0) woffset.

Lemma write_piece_inv size buf woffset ssd n k st : 0 <= woffset -> woffset + n * 4096 <= size -> 0 <= k ->
  pieces_inv buf woffset n ssd k st ->
  match write_piece size buf woffset st with
  | Next st' => pieces_inv buf woffset n ssd (k + 1) st'
  | Stop r => r = Some (nvm_write ssd (nvm_read buf (n * 4096) 0) woffset)
  end.
Proof.
  intros Hw Hs Hk. destruct st as [[ssd' rest] off]. intros (Hl & -> & ->). unfold write_piece, SIZE_4KiB, MAX_WBLKS.
  destruct (Z.ltb_spec 0 rest); [|by replace rest with 0 by lia; rewrite Z.sub_0_r].
  set (w := if 1024 * 256 <? rest then 1024 * 256 else rest).
  assert (1 <= w <= rest) as Hwb by (unfold w; destruct (Z.ltb_spec (1024 * 256) rest); lia).
  unfold io_ok. replace ((0 <=? woffset + (n - rest) * 4096) && _) with true by lia.
  split_and!; [lia|lia|lia|]. replace ((n - rest) * 4096 + w * 4096) with ((n - (rest - w)) * 4096) by lia.
  replace ((n - (rest - w)) * 4096) with ((n - rest) * 4096 + w * 4096) by lia.
  rewrite nvm_read_app by lia. rewrite nvm_write_app, len_nvm_read by lia. done.
Qed.

Lemma write_pieces_exact size buf woffset ssd n : 0 <= woffset -> 0 <= n -> woffset + n * 4096 <= size ->
  write_pieces size buf woffset ssd n = Some (nvm_write ssd (nvm_read buf (n * 4096) 0) woffset).
Proof.
  intros Hw Hn Hs. unfold write_pieces.
  pose proof (loopZ_inv (pieces_inv buf woffset n ssd)
    (fun r => r = Some (nvm_write ssd (nvm_read buf (n * 4096) 0) woffset)) (n + 1) (write_piece size buf woffset) (ssd, n, 0)
    ltac:(lia)) as H.
  specialize (H ltac:(cbn -[nvm_read]; split_and!; [lia..|by rewrite nvm_write_nil])).
  specialize (H (fun k t Hk => write_piece_inv size buf woffset ssd n k t Hw Hs ltac:(lia))).
  destruct (loopZ _ _ _) as [[[ssd' rest] off]|r]; [|done]. destruct H as [H _]. lia.
Qed.

(** Writing back whole blocks whose padding is what the device holds. *)
Lemma padded_write ssd buf src N offset : len src <= N ->
  (forall i, len src <= i < N -> buf i = ssd (offset + i)) ->
  nvm_write ssd (nvm_read (nvm_write buf src 0) N 0) offset = nvm_write ssd src offset.
Proof.
  intros HN Hb. apply functional_extensionality. intros a. pose proof (len_nonneg src).
  destruct (decide (offset <= a < offset + N)) as [Ha|Ha].
  - rewrite nvm_write_in by (rewrite len_nvm_read; lia). rewrite byte_at_nvm_read by lia. cbn [Z.add].
    destruct (decide (a < offset + len src)).
    + rewrite !nvm_write_in by lia. f_equal. lia.
    + rewrite !nvm_write_out by lia. rewrite Hb by lia. f_equal. lia.
  - rewrite !nvm_write_out by (rewrite ?len_nvm_read; lia). done.
Qed.

Lemma ssd_write_aligned size junk ssd src offset : 0 <= offset -> offset mod 4096 = 0 -> 0 < len src ->
  offset + (len src + 4095) / 4096 * 4096 <= size -> size < 2 ^ 63 ->
  ssd_write size junk ssd src offset = Some (nvm_write ssd src offset).
Proof.
  intros Ho Hal Hl Hsz Hmax. unfold ssd_write. rewrite !land_4095, !shiftr_4k, shiftl_4k, Hal.
  pose proof (Z.div_mod (len src + 4095) 4096 ltac:(lia)). pose proof (Z.mod_pos_bound (len src + 4095) 4096 ltac:(lia)).
  pose proof (Z.div_mod offset 4096 ltac:(lia)). set (n := (len src + 4095) / 4096) in *.
  rewrite (u64_small (offset + len src - 1)) by lia.
  assert ((offset + len src - 1) / 4096 = offset / 4096 + n - 1) as Hend.
  { symmetry. apply Z.div_unique with (len src - 1 - (n - 1) * 4096); lia. }
  assert ((offset + len src - 1) mod 4096 = len src - 1 - (n - 1) * 4096) as Hep.
  { symmetry. apply Z.mod_unique with (offset / 4096 + n - 1); lia. }
  rewrite Hend, Hep. rewrite (u64_small (offset / 4096)) by lia.
  replace (offset / 4096 + n - 1 - offset / 4096 + 1) with n by lia. rewrite (u64_small n) by lia.
  unfold SIZE_4KiB, io_ok. replace (offset / 4096 * 4096) with offset by lia. cbn [Z.eqb negb orb].
  set (read_first := (n =? 1) && (len src <? 4096)).
  set (read_last := (1 <? n) && negb (len src - 1 - (n - 1) * 4096 + 1 =? 4096)).
  set (buf1 := if read_first then nvm_write junk (nvm_read ssd 4096 offset) 0 else junk).
  set (buf2 := if read_last then nvm_write buf1 (nvm_read ssd 4096 (offset + (n - 1) * 4096)) ((n - 1) * 4096) else buf1).
  replace (if read_first then _ else _) with (Some buf1) by (unfold buf1; destruct read_first;
    [by replace ((0 <=? offset) && _) with true by lia|done]).
  cbn [mbind option_bind].
  replace (if read_last then _ else _) with (Some buf2) by (unfold buf2; destruct read_last eqn:E;
    [by replace ((0 <=? offset + (n - 1) * 4096) && _) with true by lia|done]).
  cbn [mbind option_bind].
  assert (forall i, len src <= i < n * 4096 -> buf2 i = ssd (offset + i)) as Hpad.
  { intros i Hi. unfold buf2. destruct read_last eqn:E; [unfold read_last in E|].
    - rewrite nvm_write_in by (rewrite len_nvm_read; lia). rewrite byte_at_nvm_read by lia. f_equal. lia.
    - unfold read_last in E. unfold buf1. replace read_first with true by (unfold read_first; lia).
      rewrite nvm_write_in by (rewrite len_nvm_read; lia). rewrite byte_at_nvm_read by lia. f_equal. lia. }
  replace ((0 <=? offset) && _) with true by lia.
  rewrite write_pieces_exact, padded_write by (done || lia). by destruct (MAX_WBLKS <? n).
Qed.

(** ** Properties *)

(** a write through the two-device address space is a write of the flat address
    space, also when it crosses from PMEM to the SSD, for ranges whose SSD part
    starts on a 4 KiB boundary and, padded to whole blocks, lies on the SSD. *)
Theorem write_data_to_devs_flat (size : Z) (junk : pmem) (d : devs) (src : list Z) (offset : Z) :
  0 <= offset -> size < 2 ^ 63 -> 0 < len src ->
  (PMEM_LEN <= offset -> (offset - PMEM_LEN) mod 4096 = 0) ->
  Z.max 0 (offset - PMEM_LEN) + (len src + 4095) / 4096 * 4096 <= size ->
  exists d', write_data_to_devs size junk d src offset = Some d' /\ flat d' = nvm_write (flat d) src offset.
Proof.
  intros Ho Hs Hl Ha Hb. unfold write_data_to_devs.
  destruct (Z.leb_spec (offset + len src) PMEM_LEN); [eexists; split; [done|]; by apply flat_nvm|].
  replace (PMEM_LEN <? offset + len src) with true by lia. rewrite andb_true_r.
  destruct (Z.ltb_spec offset PMEM_LEN) as [Hlt|Hge].
  - set (n := PMEM_LEN - offset). set (rest := slice n (len src - n) src).
    assert (len rest = len src - n) as Hr by (apply len_slice; lia).
    pose proof (Z.div_le_mono (len rest + 4095) (len src + 4095) 4096 ltac:(lia) ltac:(lia)).
    rewrite ssd_write_aligned by (try done; lia). eexists. split; [done|]. by apply flat_split.
  - rewrite ssd_write_aligned by (try (apply Ha); lia). eexists. split; [done|]. by apply flat_ssd.
Qed.

Lemma write_data_to_devs_flat_witness :
  let d := mk_devs (fun _ => 1) (fun _ => 2) in
  exists d', write_data_to_devs 8192 (fun _ => 9) d [7; 8] (PMEM_LEN - 1) = Some d' /\
    flat d' = nvm_write (flat d) [7; 8] (PMEM_LEN - 1).
Proof.
  intros d. apply (write_data_to_devs_flat 8192 (fun _ => 9) d [7; 8] (PMEM_LEN - 1));
    [vm_compute; congruence|vm_compute; reflexivity|vm_compute; reflexivity| |vm_compute; congruence].
  intros H. exfalso. vm_compute in H. by apply H.
Defined.


(** What the SPDK service promises for a write it completes without error. *)
Definition svc_write_ok (svc_write : pmem -> list Z -> Z -> Z + Z * Z * pmem) : Prop :=
  forall ssd buf off,
    match svc_write ssd buf off with
    | inl error => error <> 0
    | inr (error, bytes, ssd') => error = 0 -> bytes = len buf /\ ssd' = nvm_write ssd buf off
    end.

(** a submitted write reports exactly one completion when it returns 0 and none
    when it returns an error; a completion without error reports the whole length
    and the address space holds the data. *)
Theorem submit_write_completes_once (svc_write : pmem -> list Z -> Z -> Z + Z * Z * pmem) (malloc_ok : bool)
    (d : devs) (src : list Z) (offset : Z) (completion : bool) :
  svc_write_ok svc_write ->
  let '(r, c, d') := submit_write_data_to_devs svc_write malloc_ok d (Some src) (len src) offset completion in
  if r =? 0 then exists error bytes, c = [(error, bytes)] /\
      (error = 0 -> bytes = len src /\ flat d' = nvm_write (flat d) src offset)
  else c = [].
Proof.
  intros Hsvc. unfold submit_write_data_to_devs. destruct (_ || negb completion) eqn:E; [done|].
  destruct (Z.eqb_spec (len src) 0) as [H0|H0].
  { exists 0, 0. split; [done|]. intros _. split; [done|].
    destruct src; [by rewrite nvm_write_nil|unfold len in H0; cbn in H0; lia]. }
  cbn [default]. rewrite slice_all by done. pose proof (len_nonneg src).
  destruct (Z.leb_spec (offset + len src) PMEM_LEN).
  { exists 0, (len src). split; [done|]. intros _. split; [done|]. by apply flat_nvm. }
  unfold submit_split_write. destruct (Z.ltb_spec offset PMEM_LEN) as [Hlt|Hge]; (destruct malloc_ok; [|done]).
  - set (n := PMEM_LEN - offset). set (rest := slice n (len src - n) src).
    specialize (Hsvc (d_ssd d) rest 0). destruct (svc_write _ _ _) as [error|[[error bytes] ssd']].
    { by replace (error =? 0) with false by lia. }
    cbn [Z.eqb]. eexists _, _. split; [done|]. intros ->. destruct (Hsvc eq_refl) as [-> ->].
    split; [|by apply flat_split]. cbn [Z.eqb]. unfold rest. rewrite len_slice by lia. lia.
  - specialize (Hsvc (d_ssd d) src (offset - PMEM_LEN)). destruct (svc_write _ _ _) as [error|[[error bytes] ssd']].
    { by replace (error =? 0) with false by lia. }
    cbn [Z.eqb]. eexists _, _. split; [done|]. intros ->. destruct (Hsvc eq_refl) as [-> ->].
    split; [done|by apply flat_ssd].
Qed.

Lemma submit_write_completes_once_witness :
  let svc := fun ssd buf off => inr (0, len buf, nvm_write ssd buf off) : Z + Z * Z * pmem in
  let '(r, c, d') := submit_write_data_to_devs svc true (mk_devs (fun _ => 1) (fun _ => 2)) (Some [7; 8]) 2
    (PMEM_LEN - 1) true in
  r = 0 /\ c = [(0, 2)] /\ flat d' PMEM_LEN = 8.
Proof.
  intros svc. assert (svc_write_ok svc) as Hsvc by (intros ssd buf off; by split).
  pose proof (submit_write_completes_once svc true (mk_devs (fun _ => 1) (fun _ => 2)) [7; 8] (PMEM_LEN - 1) true Hsvc) as H.
  change (len [7; 8]) with 2 in H.
  assert (fst (submit_write_data_to_devs svc true (mk_devs (fun _ => 1) (fun _ => 2)) (Some [7; 8]) 2
    (PMEM_LEN - 1) true) = (0, [(0, 2)])) as E by (vm_compute; reflexivity).
  destruct (submit_write_data_to_devs _ _ _ _ _ _ _) as [[r c] d']. cbn [fst] in E. injection E as -> ->.
  split; [done|]. split; [done|]. destruct H as (error & bytes & Hc & Hd). injection Hc as <- <-.
  destruct (Hd eq_refl) as [_ ->]. vm_compute. reflexivity.
Defined.
