(* ===== verification/DiskFormat.v ===== *)
(** * On-media structures (include/orchfs/disk_format.h, KernelFS/type.h)

    Checkpoint slots, journal frame headers, record headers and commit records,
    the inode and the superblock, each with its byte image at the offsets the
    static assertions of the headers fix, as instances of [DiskStruct]. *)

From stdpp Require Import base tactics numbers list.
From Stdlib Require Import ZArith Lia.
From S2P Require Import Prelude Bytes Layout.
Open Scope Z_scope.

Definition ORCHFS_DISK_FORMAT_VERSION : Z := 2.
Definition ORCHFS_DISK_FEATURE_WAL : Z := 1.
Definition ORCHFS_JOURNAL_MAGIC : Z := 0x4f52434857414c32.
Definition ORCHFS_JOURNAL_COMMIT_MAGIC : Z := 0x434f4d4d49543221.
Definition ORCHFS_JOURNAL_VERSION : Z := 1.
Definition ORCHFS_JOURNAL_BYTES : Z := Z.shiftl 64 20.
Definition ORCHFS_INODE_FLAG_ORPHAN : Z := 1.
Definition ORCH_MAGIC_NUM : Z := 0x37356217.

Definition ORCHFS_JOURNAL_WRITE : Z := 1.
Definition ORCHFS_JOURNAL_ALLOCATE : Z := 2.
Definition ORCHFS_JOURNAL_FREE : Z := 3.

Definition is_u64 (z : Z) : Prop := 0 <= z < 2 ^ 64.
Definition is_u32 (z : Z) : Prop := 0 <= z < 2 ^ 32.
Definition is_s64 (z : Z) : Prop := - 2 ^ 63 <= z < 2 ^ 63.
Definition is_s32 (z : Z) : Prop := - 2 ^ 31 <= z < 2 ^ 31.
Definition is_bytes (n : Z) (l : list Z) : Prop := len l = n /\ bytes_ok l.

(** ** Structures *)

Record orchfs_disk_checkpoint := mk_checkpoint {
  cp_generation : Z;
  cp_durable_txid : Z;
  cp_journal_tail : Z;
  cp_checksum : Z;
  cp_reserved : Z;
}.

Record orchfs_journal_frame_header := mk_frame_header {
  fh_magic : Z;
  fh_version : Z;
  fh_header_bytes : Z;
  fh_txid : Z;
  fh_frame_bytes : Z;
  fh_record_count : Z;
  fh_payload_checksum : Z;
  fh_header_checksum : Z;
  fh_reserved : list Z;
}.

Record orchfs_journal_record_header := mk_record_header {
  rh_kind : Z;
  rh_type : Z;
  rh_target : Z;
  rh_offset : Z;
  rh_length : Z;
  rh_record_bytes : Z;
  rh_data_checksum : Z;
}.

Record orchfs_journal_commit := mk_commit {
  jc_magic : Z;
  jc_txid : Z;
  jc_frame_bytes : Z;
  jc_frame_checksum : Z;
  jc_reserved32 : Z;
  jc_reserved : list Z;
}.

Record orchfs_disk_timestamp := mk_timestamp { tv_sec : Z; tv_nsec : Z }.

Record orchfs_inode_disk := mk_inode {
  i_number : Z;
  i_size : Z;
  i_idxroot : Z;
  i_nlink : Z;
  i_uid : Z;
  i_gid : Z;
  i_mode : Z;
  i_type : Z;
  i_atim : orchfs_disk_timestamp;
  i_mtim : orchfs_disk_timestamp;
  i_ctim : orchfs_disk_timestamp;
  i_reserved : list Z;
}.

Record orch_super_blk := mk_super_blk {
  sb_root_inode : Z;
  sb_magic_num : list Z;
  sb_bmp_dev_addr_list : list Z;
  sb_bmp_alloc_cur_list : list Z;
  sb_bmp_used_num_list : list Z;
  sb_bmp_alloc_range_list : list Z;
  sb_format_version : Z;
  sb_feature_flags : Z;
  sb_checkpoint0 : orchfs_disk_checkpoint;
  sb_checkpoint1 : orchfs_disk_checkpoint;
  sb_reserved : list Z;
}.

(** ** Byte images *)

Definition checkpoint_enc (c : orchfs_disk_checkpoint) : list Z :=
  le_bytes 8 (cp_generation c) ++ le_bytes 8 (cp_durable_txid c) ++
  le_bytes 8 (cp_journal_tail c) ++ le_bytes 4 (cp_checksum c) ++ le_bytes 4 (cp_reserved c).
Definition checkpoint_dec (l : list Z) : orchfs_disk_checkpoint :=
  mk_checkpoint (rd_u64 0 l) (rd_u64 8 l) (rd_u64 16 l) (rd_u32 24 l) (rd_u32 28 l).

Definition frame_header_enc (h : orchfs_journal_frame_header) : list Z :=
  le_bytes 8 (fh_magic h) ++ le_bytes 4 (fh_version h) ++ le_bytes 4 (fh_header_bytes h) ++
  le_bytes 8 (fh_txid h) ++ le_bytes 8 (fh_frame_bytes h) ++ le_bytes 4 (fh_record_count h) ++
  le_bytes 4 (fh_payload_checksum h) ++ le_bytes 4 (fh_header_checksum h) ++ fh_reserved h.
Definition frame_header_dec (l : list Z) : orchfs_journal_frame_header :=
  mk_frame_header (rd_u64 0 l) (rd_u32 8 l) (rd_u32 12 l) (rd_u64 16 l) (rd_u64 24 l)
    (rd_u32 32 l) (rd_u32 36 l) (rd_u32 40 l) (slice 44 20 l).

Definition record_header_enc (r : orchfs_journal_record_header) : list Z :=
  le_bytes 4 (rh_kind r) ++ le_bytes 4 (rh_type r) ++ le_bytes 8 (rh_target r) ++
  le_bytes 4 (rh_offset r) ++ le_bytes 4 (rh_length r) ++ le_bytes 4 (rh_record_bytes r) ++
  le_bytes 4 (rh_data_checksum r).
Definition record_header_dec (l : list Z) : orchfs_journal_record_header :=
  mk_record_header (rd_u32 0 l) (rd_u32 4 l) (rd_s64 8 l) (rd_s32 16 l) (rd_u32 20 l)
    (rd_u32 24 l) (rd_u32 28 l).

Definition commit_enc (c : orchfs_journal_commit) : list Z :=
  le_bytes 8 (jc_magic c) ++ le_bytes 8 (jc_txid c) ++ le_bytes 8 (jc_frame_bytes c) ++
  le_bytes 4 (jc_frame_checksum c) ++ le_bytes 4 (jc_reserved32 c) ++ jc_reserved c.
Definition commit_dec (l : list Z) : orchfs_journal_commit :=
  mk_commit (rd_u64 0 l) (rd_u64 8 l) (rd_u64 16 l) (rd_u32 24 l) (rd_u32 28 l) (slice 32 32 l).

Definition timestamp_enc (t : orchfs_disk_timestamp) : list Z :=
  le_bytes 8 (tv_sec t) ++ le_bytes 8 (tv_nsec t).
Definition timestamp_dec (off : Z) (l : list Z) : orchfs_disk_timestamp :=
  mk_timestamp (rd_s64 off l) (rd_s64 (off + 8) l).

Definition inode_enc (i : orchfs_inode_disk) : list Z :=
  le_bytes 8 (i_number i) ++ le_bytes 8 (i_size i) ++ le_bytes 8 (i_idxroot i) ++
  le_bytes 8 (i_nlink i) ++ le_bytes 4 (i_uid i) ++ le_bytes 4 (i_gid i) ++
  le_bytes 4 (i_mode i) ++ le_bytes 4 (i_type i) ++ timestamp_enc (i_atim i) ++
  timestamp_enc (i_mtim i) ++ timestamp_enc (i_ctim i) ++ i_reserved i.
Definition inode_dec (l : list Z) : orchfs_inode_disk :=
  mk_inode (rd_s64 0 l) (rd_s64 8 l) (rd_s64 16 l) (rd_s64 24 l) (rd_s32 32 l) (rd_s32 36 l)
    (rd_s32 40 l) (rd_s32 44 l) (timestamp_dec 48 l) (timestamp_dec 64 l) (timestamp_dec 80 l)
    (slice 96 416 l).

(** An [int64_t] array of [n] elements at offset [off]. *)
Fixpoint s64s_enc (vs : list Z) : list Z :=
  match vs with [] => [] | v :: vs' => le_bytes 8 v ++ s64s_enc vs' end.
Fixpoint s64s_dec (n : nat) (off : Z) (l : list Z) : list Z :=
  match n with O => [] | S n' => rd_s64 off l :: s64s_dec n' (off + 8) l end.

Definition super_blk_enc (s : orch_super_blk) : list Z :=
  le_bytes 8 (sb_root_inode s) ++ s64s_enc (sb_magic_num s) ++
  s64s_enc (sb_bmp_dev_addr_list s) ++ s64s_enc (sb_bmp_alloc_cur_list s) ++
  s64s_enc (sb_bmp_used_num_list s) ++ s64s_enc (sb_bmp_alloc_range_list s) ++
  le_bytes 8 (sb_format_version s) ++ le_bytes 8 (sb_feature_flags s) ++
  checkpoint_enc (sb_checkpoint0 s) ++ checkpoint_enc (sb_checkpoint1 s) ++ sb_reserved s.
Definition super_blk_dec (l : list Z) : orch_super_blk :=
  mk_super_blk (rd_u64 0 l) (s64s_dec 3 8 l) (s64s_dec 8 32 l) (s64s_dec 8 96 l)
    (s64s_dec 8 160 l) (s64s_dec 8 224 l) (rd_u64 288 l) (rd_u64 296 l)
    (checkpoint_dec (slice 304 32 l)) (checkpoint_dec (slice 336 32 l)) (slice 368 144 l).

(** ** Well-formed field values *)

Definition checkpoint_wf (c : orchfs_disk_checkpoint) : Prop :=
  is_u64 (cp_generation c) /\ is_u64 (cp_durable_txid c) /\ is_u64 (cp_journal_tail c) /\
  is_u32 (cp_checksum c) /\ is_u32 (cp_reserved c).
Definition frame_header_wf (h : orchfs_journal_frame_header) : Prop :=
  is_u64 (fh_magic h) /\ is_u32 (fh_version h) /\ is_u32 (fh_header_bytes h) /\
  is_u64 (fh_txid h) /\ is_u64 (fh_frame_bytes h) /\ is_u32 (fh_record_count h) /\
  is_u32 (fh_payload_checksum h) /\ is_u32 (fh_header_checksum h) /\ is_bytes 20 (fh_reserved h).
Definition record_header_wf (r : orchfs_journal_record_header) : Prop :=
  is_u32 (rh_kind r) /\ is_u32 (rh_type r) /\ is_s64 (rh_target r) /\ is_s32 (rh_offset r) /\
  is_u32 (rh_length r) /\ is_u32 (rh_record_bytes r) /\ is_u32 (rh_data_checksum r).
Definition commit_wf (c : orchfs_journal_commit) : Prop :=
  is_u64 (jc_magic c) /\ is_u64 (jc_txid c) /\ is_u64 (jc_frame_bytes c) /\
  is_u32 (jc_frame_checksum c) /\ is_u32 (jc_reserved32 c) /\ is_bytes 32 (jc_reserved c).
Definition timestamp_wf (t : orchfs_disk_timestamp) : Prop := is_s64 (tv_sec t) /\ is_s64 (tv_nsec t).
Definition inode_wf (i : orchfs_inode_disk) : Prop :=
  is_s64 (i_number i) /\ is_s64 (i_size i) /\ is_s64 (i_idxroot i) /\ is_s64 (i_nlink i) /\
  is_s32 (i_uid i) /\ is_s32 (i_gid i) /\ is_s32 (i_mode i) /\ is_s32 (i_type i) /\
  timestamp_wf (i_atim i) /\ timestamp_wf (i_mtim i) /\ timestamp_wf (i_ctim i) /\
  is_bytes 416 (i_reserved i).
Definition s64s_wf (n : nat) (vs : list Z) : Prop := length vs = n /\ Forall is_s64 vs.
Definition super_blk_wf (s : orch_super_blk) : Prop :=
  is_u64 (sb_root_inode s) /\ s64s_wf 3 (sb_magic_num s) /\ s64s_wf 8 (sb_bmp_dev_addr_list s) /\
  s64s_wf 8 (sb_bmp_alloc_cur_list s) /\ s64s_wf 8 (sb_bmp_used_num_list s) /\
  s64s_wf 8 (sb_bmp_alloc_range_list s) /\ is_u64 (sb_format_version s) /\
  is_u64 (sb_feature_flags s) /\ checkpoint_wf (sb_checkpoint0 s) /\
  checkpoint_wf (sb_checkpoint1 s) /\ is_bytes 144 (sb_reserved s).

(** ** Image and reader are inverse *)

Lemma rd_s64_range off l : is_s64 (rd_s64 off l).
Proof. apply s64_range. Qed.
Lemma rd_s32_range off l : is_s32 (rd_s32 off l).
Proof. apply s32_range. Qed.
Lemma slice_is_bytes off n l :
  bytes_ok l -> 0 <= off -> 0 <= n -> off + n <= len l -> is_bytes n (slice off n l).
Proof. intros. split; [by apply len_slice|auto with orch]. Qed.

(** The reader of a field at a literal offset of a concatenated image. *)
Ltac field_of_image :=
  first [ apply rd_u64_enc; [reflexivity|assumption]
        | apply rd_u32_enc; [reflexivity|assumption]
        | apply rd_s64_enc; [reflexivity|assumption]
        | apply rd_s32_enc; [reflexivity|assumption] ].
(** The fields of a record read from a buffer, glued back together. *)
Ltac glue_fields :=
  rewrite ?enc_rd_u64, ?enc_rd_u32, ?enc_rd_s64, ?enc_rd_s32 by (assumption || lia);
  repeat match goal with
  | |- context [slice ?o ?n ?l ++ slice ?o' ?m ?l] =>
      change (slice o n l ++ slice o' m l) with (slice o n l ++ slice (o + n) m l);
      rewrite (slice_cat o n m l) by lia
  end; rewrite ?app_assoc;
  repeat match goal with
  | |- context [slice ?o ?n ?l ++ slice ?o' ?m ?l] =>
      change (slice o n l ++ slice o' m l) with (slice o n l ++ slice (o + n) m l);
      rewrite (slice_cat o n m l) by lia
  end; try reflexivity.
Ltac fields_wf wf := unfold wf; repeat match goal with |- _ /\ _ => split end;
  first [ apply rd_u64_range; assumption | apply rd_u32_range; assumption | apply rd_s64_range
        | apply rd_s32_range | apply slice_is_bytes; [assumption|lia..] ].
Ltac image_ok := repeat (apply bytes_ok_app; split); auto with orch.

#[export] Instance checkpoint_struct : DiskStruct orchfs_disk_checkpoint.
Proof.
  refine {| ds_size := 32; ds_enc := checkpoint_enc; ds_dec := checkpoint_dec;
            ds_wf := checkpoint_wf |}.
  - intros x _. unfold checkpoint_enc. by autorewrite with orch.
  - intros x _. unfold checkpoint_enc. image_ok.
  - intros l Hl Hn. fields_wf checkpoint_wf.
  - intros [] (? & ? & ? & ? & ?). unfold checkpoint_dec. f_equal; field_of_image.
  - intros l Hl Hn. unfold checkpoint_enc, checkpoint_dec. cbn [cp_generation cp_durable_txid
      cp_journal_tail cp_checksum cp_reserved]. glue_fields.
Defined.

Lemma take_is_bytes n r : is_bytes n r -> take (Z.to_nat n) r = r.
Proof. intros [H _]. apply take_ge. unfold len in H. lia. Qed.
(** A reserved array at the end of an image. *)
Ltac tail_of_image :=
  match goal with H : is_bytes ?n ?r |- _ = ?r =>
    transitivity (take (Z.to_nat n) r); [reflexivity|by apply take_is_bytes] end.
Ltac image_len := autorewrite with orch;
  repeat match goal with H : is_bytes _ _ |- _ => destruct H as [-> ?] end; reflexivity.
Ltac image_bytes := image_ok;
  repeat match goal with H : is_bytes _ _ |- _ => destruct H end; auto with orch.

#[export] Instance frame_header_struct : DiskStruct orchfs_journal_frame_header.
Proof.
  refine {| ds_size := 64; ds_enc := frame_header_enc; ds_dec := frame_header_dec;
            ds_wf := frame_header_wf |}.
  - intros x (? & ? & ? & ? & ? & ? & ? & ? & ?). unfold frame_header_enc. image_len.
  - intros x (? & ? & ? & ? & ? & ? & ? & ? & ?). unfold frame_header_enc. image_bytes.
  - intros l Hl Hn. fields_wf frame_header_wf.
  - intros [] (? & ? & ? & ? & ? & ? & ? & ? & ?). cbn in *. unfold frame_header_dec.
    f_equal; first [field_of_image|tail_of_image].
  - intros l Hl Hn. unfold frame_header_enc, frame_header_dec.
    cbn [fh_magic fh_version fh_header_bytes fh_txid fh_frame_bytes fh_record_count
      fh_payload_checksum fh_header_checksum fh_reserved]. glue_fields.
Defined.

#[export] Instance record_header_struct : DiskStruct orchfs_journal_record_header.
Proof.
  refine {| ds_size := 32; ds_enc := record_header_enc; ds_dec := record_header_dec;
            ds_wf := record_header_wf |}.
  - intros x _. unfold record_header_enc. by autorewrite with orch.
  - intros x _. unfold record_header_enc. image_ok.
  - intros l Hl Hn. fields_wf record_header_wf.
  - intros [] (? & ? & ? & ? & ? & ? & ?). unfold record_header_dec. f_equal; field_of_image.
  - intros l Hl Hn. unfold record_header_enc, record_header_dec.
    cbn [rh_kind rh_type rh_target rh_offset rh_length rh_record_bytes rh_data_checksum]. glue_fields.
Defined.

#[export] Instance commit_struct : DiskStruct orchfs_journal_commit.
Proof.
  refine {| ds_size := 64; ds_enc := commit_enc; ds_dec := commit_dec; ds_wf := commit_wf |}.
  - intros x (? & ? & ? & ? & ? & ?). unfold commit_enc. image_len.
  - intros x (? & ? & ? & ? & ? & ?). unfold commit_enc. image_bytes.
  - intros l Hl Hn. fields_wf commit_wf.
  - intros [] (? & ? & ? & ? & ? & ?). cbn in *. unfold commit_dec.
    f_equal; first [field_of_image|tail_of_image].
  - intros l Hl Hn. unfold commit_enc, commit_dec.
    cbn [jc_magic jc_txid jc_frame_bytes jc_frame_checksum jc_reserved32 jc_reserved]. glue_fields.
Defined.

#[export] Instance inode_struct : DiskStruct orchfs_inode_disk.
Proof.
  refine {| ds_size := 512; ds_enc := inode_enc; ds_dec := inode_dec; ds_wf := inode_wf |}.
  - intros x (? & ? & ? & ? & ? & ? & ? & ? & ? & ? & ? & ?). unfold inode_enc, timestamp_enc. image_len.
  - intros x (? & ? & ? & ? & ? & ? & ? & ? & ? & ? & ? & ?). unfold inode_enc, timestamp_enc. image_bytes.
  - intros l Hl Hn. unfold inode_wf, timestamp_wf. fields_wf inode_wf.
  - intros [? ? ? ? ? ? ? ? [] [] [] ?] (? & ? & ? & ? & ? & ? & ? & ? & [? ?] & [? ?] & [? ?] & ?).
    cbn in *. unfold inode_dec, timestamp_dec.
    repeat f_equal; first [field_of_image|tail_of_image].
  - intros l Hl Hn. unfold inode_enc, inode_dec, timestamp_enc, timestamp_dec.
    cbn [i_number i_size i_idxroot i_nlink i_uid i_gid i_mode i_type i_atim i_mtim i_ctim
      i_reserved tv_sec tv_nsec Z.add Pos.add Pos.succ]. rewrite <-?app_assoc. glue_fields.
Defined.

Lemma len_s64s_enc vs : len (s64s_enc vs) = 8 * Z.of_nat (length vs).
Proof.
  induction vs as [|v vs IH]; [done|]. cbn [s64s_enc length].
  rewrite len_app, len_le_bytes, IH. lia.
Qed.
Lemma s64s_enc_ok vs : bytes_ok (s64s_enc vs).
Proof. induction vs; cbn [s64s_enc]; [constructor|]. image_ok. Qed.
Lemma s64s_dec_wf n off l : s64s_wf n (s64s_dec n off l).
Proof.
  revert off. induction n as [|n IH]; intros off; [by split|].
  destruct (IH (off + 8)) as [H1 H2]. split; cbn; [by rewrite H1|].
  constructor; [apply rd_s64_range|done].
Qed.
Lemma s64s_dec_enc n off l vs : 0 <= off -> s64s_wf n vs ->
  slice off (8 * Z.of_nat n) l = s64s_enc vs -> s64s_dec n off l = vs.
Proof.
  revert off vs. induction n as [|n IH]; intros off vs Ho [Hn Hv] Hs.
  { by destruct vs. }
  destruct vs as [|v vs]; [done|]. apply Forall_cons in Hv as [Hv Hvs]. cbn [s64s_dec].
  replace (8 * Z.of_nat (S n)) with (8 + 8 * Z.of_nat n) in Hs by lia.
  rewrite <-slice_cat in Hs by lia. cbn [s64s_enc] in Hs.
  assert (len (slice off 8 l) = 8) as Hlen.
  { apply (f_equal len) in Hs. rewrite !len_app, len_le_bytes, len_s64s_enc in Hs.
    injection Hn as Hn. rewrite Hn in Hs. unfold len, slice in *. rewrite !length_take in *. lia. }
  apply app_inj_1 in Hs as [H1 H2]; [|rewrite length_le_bytes; unfold len in Hlen; lia].
  f_equal; [by apply rd_s64_enc|]. apply IH; [lia| |done]. injection Hn as Hn. by split.
Qed.
Lemma s64s_enc_dec n off l : bytes_ok l -> 0 <= off -> off + 8 * Z.of_nat n <= len l ->
  s64s_enc (s64s_dec n off l) = slice off (8 * Z.of_nat n) l.
Proof.
  intros Hl. revert off. induction n as [|n IH]; intros off Ho Hn.
  { cbn. unfold slice. by rewrite take_0. }
  cbn [s64s_dec s64s_enc]. rewrite IH, enc_rd_s64, slice_cat by (done || lia).
  f_equal. lia.
Qed.
#[export] Hint Resolve s64s_enc_ok s64s_dec_wf : orch.

Lemma checkpoint_enc_len c : len (checkpoint_enc c) = 32.
Proof. unfold checkpoint_enc. by autorewrite with orch. Qed.
Lemma checkpoint_enc_ok c : bytes_ok (checkpoint_enc c).
Proof. unfold checkpoint_enc. image_ok. Qed.
#[export] Hint Rewrite len_s64s_enc checkpoint_enc_len : orch.
#[export] Hint Resolve checkpoint_enc_ok : orch.

(** Locate a slice of a concatenation whose parts have known lengths. *)
Ltac known_len := autorewrite with orch;
  repeat match goal with H : length _ = _ |- _ => rewrite H end; cbn; lia.
Ltac slice_part :=
  repeat first [rewrite slice_app_r by known_len];
  match goal with
  | |- slice _ _ (?a ++ _) = ?a => rewrite slice_app_l by known_len
  | |- slice _ _ ?a = ?a => idtac
  end;
  match goal with |- slice ?o _ _ = _ =>
    replace o with 0 by known_len; apply slice_all; known_len end.

Ltac super_blk_cbn := cbn [sb_root_inode sb_magic_num
  sb_bmp_dev_addr_list sb_bmp_alloc_cur_list sb_bmp_used_num_list sb_bmp_alloc_range_list
  sb_format_version sb_feature_flags sb_checkpoint0 sb_checkpoint1 sb_reserved].

Lemma super_blk_len s : super_blk_wf s -> len (super_blk_enc s) = 512.
Proof.
  intros (? & [H1 _] & [H2 _] & [H3 _] & [H4 _] & [H5 _] & ? & ? & ? & ? & [H6 _]).
  unfold super_blk_enc. autorewrite with orch. by rewrite H1, H2, H3, H4, H5, H6.
Qed.
Lemma super_blk_roundtrip s : super_blk_wf s -> super_blk_dec (super_blk_enc s) = s.
Proof.
  destruct s. unfold super_blk_wf. super_blk_cbn. intros (? & [H1 H1'] & [H2 H2'] & [H3 H3'] & [H4 H4'] & [H5 H5'] &
    ? & ? & Hc0 & Hc1 & [H6 H6']).
  unfold super_blk_dec, super_blk_enc. super_blk_cbn.
  f_equal.
  - apply rd_u64_enc; [reflexivity|done].
  - apply s64s_dec_enc; [lia|done|]. slice_part.
  - apply s64s_dec_enc; [lia|done|]. slice_part.
  - apply s64s_dec_enc; [lia|done|]. slice_part.
  - apply s64s_dec_enc; [lia|done|]. slice_part.
  - apply s64s_dec_enc; [lia|done|]. slice_part.
  - apply rd_u64_enc; [|done]. slice_part.
  - apply rd_u64_enc; [|done]. slice_part.
  - rewrite <-(@ds_dec_enc _ checkpoint_struct sb_checkpoint2 Hc0) at 2. cbn [ds_dec checkpoint_struct ds_enc]. f_equal. slice_part.
  - rewrite <-(@ds_dec_enc _ checkpoint_struct sb_checkpoint3 Hc1) at 2. cbn [ds_dec checkpoint_struct ds_enc]. f_equal. slice_part.
  - slice_part.
Qed.

Lemma checkpoint_slice o l :
  bytes_ok l -> 0 <= o -> o + 32 <= len l -> checkpoint_enc (checkpoint_dec (slice o 32 l)) = slice o 32 l.
Proof.
  intros. pose proof (len_slice o 32 l).
  etransitivity; [apply (@ds_enc_dec _ checkpoint_struct); [auto with orch|cbn; lia]|].
  apply slice_all. cbn. lia.
Qed.

#[export] Instance super_blk_struct : DiskStruct orch_super_blk.
Proof.
  refine {| ds_size := 512; ds_enc := super_blk_enc; ds_dec := super_blk_dec;
            ds_wf := super_blk_wf |}.
  - apply super_blk_len.
  - intros s (? & ? & ? & ? & ? & ? & ? & ? & ? & ? & ?). unfold super_blk_enc. image_bytes.
  - intros l Hl Hn. unfold super_blk_wf, super_blk_dec. super_blk_cbn.
    pose proof (len_slice 304 32 l). pose proof (len_slice 336 32 l).
    repeat match goal with |- _ /\ _ => split end; auto with orch;
    first [ apply rd_u64_range; assumption | apply slice_is_bytes; [assumption|lia..]
          | apply (@ds_dec_wf _ checkpoint_struct); [auto with orch|cbn [ds_size checkpoint_struct]; lia]].
  - apply super_blk_roundtrip.
  - intros l Hl Hn. unfold super_blk_enc, super_blk_dec. super_blk_cbn.
    rewrite !checkpoint_slice, !s64s_enc_dec by (done || lia). cbn [Z.of_nat Pos.of_succ_nat Z.mul Pos.mul Pos.succ Pos.add].
    rewrite !enc_rd_u64 by (done || lia). change (0 + 8) with 8.
    glue_fields.
Defined.

(** The laws of the instances under the names of the structures. *)
Lemma checkpoint_roundtrip x : checkpoint_wf x -> checkpoint_dec (checkpoint_enc x) = x.
Proof. exact (@ds_dec_enc _ checkpoint_struct x). Qed.
Lemma checkpoint_image_ok x : checkpoint_wf x -> bytes_ok (checkpoint_enc x).
Proof. exact (@ds_bytes _ checkpoint_struct x). Qed.
Lemma checkpoint_image_len x : checkpoint_wf x -> len (checkpoint_enc x) = 32.
Proof. exact (@ds_len _ checkpoint_struct x). Qed.
Lemma checkpoint_reencode l : bytes_ok l -> 32 <= len l -> checkpoint_enc (checkpoint_dec l) = slice 0 32 l.
Proof. exact (@ds_enc_dec _ checkpoint_struct l). Qed.
Lemma checkpoint_dec_ok l : bytes_ok l -> 32 <= len l -> checkpoint_wf (checkpoint_dec l).
Proof. exact (@ds_dec_wf _ checkpoint_struct l). Qed.
Lemma frame_header_roundtrip x : frame_header_wf x -> frame_header_dec (frame_header_enc x) = x.
Proof. exact (@ds_dec_enc _ frame_header_struct x). Qed.
Lemma frame_header_image_ok x : frame_header_wf x -> bytes_ok (frame_header_enc x).
Proof. exact (@ds_bytes _ frame_header_struct x). Qed.
Lemma frame_header_image_len x : frame_header_wf x -> len (frame_header_enc x) = 64.
Proof. exact (@ds_len _ frame_header_struct x). Qed.
Lemma frame_header_reencode l : bytes_ok l -> 64 <= len l -> frame_header_enc (frame_header_dec l) = slice 0 64 l.
Proof. exact (@ds_enc_dec _ frame_header_struct l). Qed.
Lemma frame_header_dec_ok l : bytes_ok l -> 64 <= len l -> frame_header_wf (frame_header_dec l).
Proof. exact (@ds_dec_wf _ frame_header_struct l). Qed.
Lemma record_header_roundtrip x : record_header_wf x -> record_header_dec (record_header_enc x) = x.
Proof. exact (@ds_dec_enc _ record_header_struct x). Qed.
Lemma record_header_image_ok x : record_header_wf x -> bytes_ok (record_header_enc x).
Proof. exact (@ds_bytes _ record_header_struct x). Qed.
Lemma record_header_image_len x : record_header_wf x -> len (record_header_enc x) = 32.
Proof. exact (@ds_len _ record_header_struct x). Qed.
Lemma record_header_reencode l : bytes_ok l -> 32 <= len l -> record_header_enc (record_header_dec l) = slice 0 32 l.
Proof. exact (@ds_enc_dec _ record_header_struct l). Qed.
Lemma record_header_dec_ok l : bytes_ok l -> 32 <= len l -> record_header_wf (record_header_dec l).
Proof. exact (@ds_dec_wf _ record_header_struct l). Qed.
Lemma commit_roundtrip x : commit_wf x -> commit_dec (commit_enc x) = x.
Proof. exact (@ds_dec_enc _ commit_struct x). Qed.
Lemma commit_image_ok x : commit_wf x -> bytes_ok (commit_enc x).
Proof. exact (@ds_bytes _ commit_struct x). Qed.
Lemma commit_image_len x : commit_wf x -> len (commit_enc x) = 64.
Proof. exact (@ds_len _ commit_struct x). Qed.
Lemma commit_reencode l : bytes_ok l -> 64 <= len l -> commit_enc (commit_dec l) = slice 0 64 l.
Proof. exact (@ds_enc_dec _ commit_struct l). Qed.
Lemma commit_dec_ok l : bytes_ok l -> 64 <= len l -> commit_wf (commit_dec l).
Proof. exact (@ds_dec_wf _ commit_struct l). Qed.
Lemma inode_roundtrip x : inode_wf x -> inode_dec (inode_enc x) = x.
Proof. exact (@ds_dec_enc _ inode_struct x). Qed.
Lemma inode_image_ok x : inode_wf x -> bytes_ok (inode_enc x).
Proof. exact (@ds_bytes _ inode_struct x). Qed.
Lemma inode_image_len x : inode_wf x -> len (inode_enc x) = 512.
Proof. exact (@ds_len _ inode_struct x). Qed.
Lemma inode_reencode l : bytes_ok l -> 512 <= len l -> inode_enc (inode_dec l) = slice 0 512 l.
Proof. exact (@ds_enc_dec _ inode_struct l). Qed.
Lemma inode_dec_ok l : bytes_ok l -> 512 <= len l -> inode_wf (inode_dec l).
Proof. exact (@ds_dec_wf _ inode_struct l). Qed.

(** A structure of [size] bytes whose image and reader are mutually inverse. *)
Definition codec_ok {T} (size : Z) (enc : T -> list Z) (dec : list Z -> T) (wf : T -> Prop) : Prop :=
  (forall x, wf x -> len (enc x) = size /\ bytes_ok (enc x) /\ dec (enc x) = x) /\
  (forall l, bytes_ok l -> size <= len l -> wf (dec l) /\ enc (dec l) = slice 0 size l).

Lemma codec_of_struct T (D : DiskStruct T) : codec_ok ds_size ds_enc ds_dec ds_wf.
Proof.
  split.
  - intros x Hx. split_and!; [by apply ds_len|by apply ds_bytes|by apply ds_dec_enc].
  - intros l Hl Hn. split; [by apply ds_dec_wf|by apply ds_enc_dec].
Qed.

(** every on-media structure has the size its static assertion states, reading
    back a written structure gives the same field values, and re-writing what was
    read reproduces the bytes on the media, reserved areas included. *)
Theorem disk_structures_roundtrip :
  codec_ok 32 checkpoint_enc checkpoint_dec checkpoint_wf /\
  codec_ok 64 frame_header_enc frame_header_dec frame_header_wf /\
  codec_ok 32 record_header_enc record_header_dec record_header_wf /\
  codec_ok 64 commit_enc commit_dec commit_wf /\
  codec_ok 512 inode_enc inode_dec inode_wf /\
  codec_ok ORCH_SUPER_BLK_SIZE super_blk_enc super_blk_dec super_blk_wf.
Proof.
  exact (conj (codec_of_struct _ checkpoint_struct) (conj (codec_of_struct _ frame_header_struct)
    (conj (codec_of_struct _ record_header_struct) (conj (codec_of_struct _ commit_struct)
    (conj (codec_of_struct _ inode_struct) (codec_of_struct _ super_blk_struct)))))).
Qed.
