(* ===== verification/Bitmap.v ===== *)
(** * Block allocator (KernelFS/balloc.c, KernelFS/balloc.h)

    The six in-memory bitmaps, sharded allocation with atomic bit claims and
    fallback across shards, deallocation, persistence of single bits and of
    whole bitmaps, and the per-area entry points. *)

From stdpp Require Import base tactics numbers list.
From Stdlib Require Import ZArith Lia FunctionalExtensionality.
From S2P Require Import Prelude Bytes Layout Pmem DiskFormat.
Open Scope Z_scope.

(** [struct memory_bitmap_info_t]; [bmp_bytes] is the buffer behind
    [bmp_start_pt], [bmp_live] says that the pointer is not NULL. *)
Record mem_bmp := mk_bmp {
  bmp_live : bool;
  bmp_bytes : Z -> Z;
  dev_start_addr : Z;
  bmp_alloc_cur : Z;
  bmp_used_num : Z;
  bmp_alloc_range : Z;
  bmp_capacity : Z;
  blk_area_start : Z;
  blk_size : Z;
  shard_cursor : Z -> Z;
  shard_count : Z;
}.

(** [mem_bmp_arr]. *)
Definition mem_bmps := Z -> mem_bmp.

Definition set_bytes (f : Z -> Z) (b : mem_bmp) : mem_bmp :=
  mk_bmp (bmp_live b) f (dev_start_addr b) (bmp_alloc_cur b) (bmp_used_num b) (bmp_alloc_range b)
    (bmp_capacity b) (blk_area_start b) (blk_size b) (shard_cursor b) (shard_count b).
Definition set_used (n : Z) (b : mem_bmp) : mem_bmp :=
  mk_bmp (bmp_live b) (bmp_bytes b) (dev_start_addr b) (bmp_alloc_cur b) n (bmp_alloc_range b)
    (bmp_capacity b) (blk_area_start b) (blk_size b) (shard_cursor b) (shard_count b).
Definition set_cursor (f : Z -> Z) (b : mem_bmp) : mem_bmp :=
  mk_bmp (bmp_live b) (bmp_bytes b) (dev_start_addr b) (bmp_alloc_cur b) (bmp_used_num b)
    (bmp_alloc_range b) (bmp_capacity b) (blk_area_start b) (blk_size b) f (shard_count b).
Definition set_dead (b : mem_bmp) : mem_bmp :=
  mk_bmp false (bmp_bytes b) (dev_start_addr b) (bmp_alloc_cur b) (bmp_used_num b)
    (bmp_alloc_range b) (bmp_capacity b) (blk_area_start b) (blk_size b) (shard_cursor b)
    (shard_count b).

(** ** Bits *)

Definition bit_mask (bit : Z) : Z := u8 (Z.shiftl 1 (7 - bit mod 8)).
Definition mask_set (byte mask : Z) : bool := negb (Z.land byte mask =? 0).
Definition bit_set (bytes : Z -> Z) (bit : Z) : bool := mask_set (bytes (bit / 8)) (bit_mask bit).

(** [__atomic_fetch_or] and [__atomic_fetch_and] with [~mask] on one byte. *)
Definition fetch_or (bytes : Z -> Z) (o mask : Z) : Z * (Z -> Z) :=
  (bytes o, upd bytes o (Z.lor (bytes o) mask)).
Definition fetch_andn (bytes : Z -> Z) (o mask : Z) : Z * (Z -> Z) :=
  (bytes o, upd bytes o (Z.land (bytes o) (u8 (Z.lnot mask)))).

(** ** Allocation *)

Definition claim_bit (bmp : mem_bmp) (bit : Z) : bool * mem_bmp :=
  let mask := bit_mask bit in
  let '(previous, bytes) := fetch_or (bmp_bytes bmp) (bit / 8) mask in
  let bmp := set_bytes bytes bmp in
  if mask_set previous mask then (false, bmp)
  else (true, set_used (u64 (bmp_used_num bmp + 1)) bmp).

Definition try_claim (bit : Z) (bmp : mem_bmp) : ctl mem_bmp (Z * mem_bmp) :=
  match claim_bit bmp bit with
  | (true, bmp') => Stop (bit, bmp')
  | (false, bmp') => Next bmp'
  end.

(** [allocate_one]: the claimed bit, or [None] for ENOSPC. *)
Definition allocate_one (bmp : mem_bmp) (worker : Z) : option Z * mem_bmp :=
  let total := u64 (bmp_capacity bmp * 8) in
  let count := shard_count bmp in
  let worker := worker mod count in
  let begin := u64 (total * worker) / count in
  let end_ := u64 (total * (worker + 1)) / count in
  let span := u64 (end_ - begin) in
  let start := shard_cursor bmp worker in
  let bmp := set_cursor (upd (shard_cursor bmp) worker (u64 (start + 1))) bmp in
  match forZ span (fun i b => try_claim (u64 (begin + u64 (start + i) mod span)) b) bmp with
  | Stop (bit, bmp') => (Some bit, bmp')
  | Next bmp1 =>
      match forZ total (fun i b =>
              let bit := u64 (end_ + i) mod total in
              if (begin <=? bit) && (bit <? end_) then Next b else try_claim bit b) bmp1 with
      | Stop (bit, bmp') => (Some bit, bmp')
      | Next bmp' => (None, bmp')
      end
  end.

(** [do_dealloc] of one bitmap: 0, 4 (out of range) or 6 (not allocated). *)
Definition dealloc_bit (bmp : mem_bmp) (blk_id : Z) : Z * mem_bmp :=
  if (blk_id <? 0) || (u64 (bmp_capacity bmp * 8) <=? blk_id) then (4, bmp)
  else
    let mask := u8 (Z.shiftl 1 (7 - blk_id mod 8)) in
    let '(previous, bytes) := fetch_andn (bmp_bytes bmp) (blk_id / 8) mask in
    let bmp := set_bytes bytes bmp in
    if mask_set previous mask then (0, set_used (u64 (bmp_used_num bmp - 1)) bmp) else (6, bmp).

Definition do_dealloc (arr : mem_bmps) (bmp_type blk_id : Z) : Z * mem_bmps :=
  let '(r, b) := dealloc_bit (arr bmp_type) blk_id in (r, upd arr bmp_type b).

(** The allocation loop of [do_alloc]; the accumulator holds the ids already
    written to [addr_list], most recent first. *)
Definition alloc_body (worker : Z) (st : mem_bmp * list Z) : ctl (mem_bmp * list Z) (mem_bmp * list Z) :=
  let '(bmp, acc) := st in
  match allocate_one bmp worker with
  | (Some bit, bmp') => Next (bmp', bit :: acc)
  | (None, bmp') => Stop (bmp', acc)
  end.
(** [while(allocated != 0) do_dealloc(bmp_type, addr_list\[--allocated\])]. *)
Definition undo_alloc (bmp : mem_bmp) (acc : list Z) : mem_bmp :=
  fold_left (fun b blk => snd (dealloc_bit b (s64 blk))) acc bmp.

(** Return code and the ids written to [addr_list]. *)
Definition do_alloc (arr : mem_bmps) (worker bmp_type alloc_blk_num : Z) : Z * list Z * mem_bmps :=
  if (bmp_type <? START_BMP_ID) || (END_BMP_ID <? bmp_type) then (EINVAL, [], arr)
  else
    match loopZ (u64 alloc_blk_num) (alloc_body worker) (arr bmp_type, []) with
    | Next (bmp, acc) => (0, rev acc, upd arr bmp_type bmp)
    | Stop (bmp, acc) => (ENOSPC, rev acc, upd arr bmp_type (undo_alloc bmp acc))
    end.

(** ** Entry points per area

    [alloc_single_*], [alloc_*s] and [dealloc_*] are the same code for each area
    up to its bitmap id and the address conversions of addr_util.h.  [None] is
    [exit(0)]. *)

Definition alloc_single (bmp_type : Z) (to_devaddr : Z -> Z)
    (arr : mem_bmps) (worker return_type : Z) : option (Z * mem_bmps) :=
  match do_alloc arr worker bmp_type 1 with
  | (0, ids, arr') =>
      if return_type =? RET_BLK_ID then Some (nth 0 ids 0, arr')
      else if return_type =? RET_BLK_ADDR then Some (to_devaddr (nth 0 ids 0), arr')
      else None
  | _ => None
  end.

Definition alloc_many (bmp_type : Z) (to_devaddr : Z -> Z)
    (arr : mem_bmps) (worker alloc_blk_num return_type : Z) : Z * list Z * mem_bmps :=
  let '(error_info, ids, arr') := do_alloc arr worker bmp_type alloc_blk_num in
  let ids := if (error_info =? 0) && (return_type =? RET_BLK_ADDR) then map to_devaddr ids else ids in
  (if error_info =? 0 then 0 else ENOSPC, ids, arr').

Definition dealloc_any (bmp_type : Z) (to_blkid : Z -> Z)
    (arr : mem_bmps) (dealloc_blk_info par_type : Z) : Z * mem_bmps :=
  let blk_id :=
    if par_type =? PAR_BLK_ID then s64 dealloc_blk_info
    else if par_type =? PAR_BLK_ADDR then s64 (to_blkid dealloc_blk_info)
    else 0 in
  do_dealloc arr bmp_type blk_id.

Definition alloc_single_inode := alloc_single INODE_BMP INODE_BLKID_TO_DEVADDR.
Definition alloc_inodes := alloc_many INODE_BMP INODE_BLKID_TO_DEVADDR.
Definition dealloc_inode := dealloc_any INODE_BMP INODE_DEVADDR_TO_BLKID.
Definition alloc_single_idx_node := alloc_single IDX_NODE_BMP IDX_BLKID_TO_DEVADDR.
Definition alloc_idx_nodes := alloc_many IDX_NODE_BMP IDX_BLKID_TO_DEVADDR.
Definition dealloc_idx_node := dealloc_any IDX_NODE_BMP IDX_DEVADDR_TO_BLKID.
Definition alloc_single_viridx_node := alloc_single VIR_NODE_BMP VIRND_BLKID_TO_DEVADDR.
Definition alloc_viridx_nodes := alloc_many VIR_NODE_BMP VIRND_BLKID_TO_DEVADDR.
Definition dealloc_viridx_node := dealloc_any VIR_NODE_BMP VIRND_DEVADDR_TO_BLKID.
Definition alloc_single_bufmeta_node := alloc_single BUFMETA_BMP BUFMETA_BLKID_TO_DEVADDR.
Definition alloc_bufmeta_nodes := alloc_many BUFMETA_BMP BUFMETA_BLKID_TO_DEVADDR.
Definition dealloc_bufmeta_node := dealloc_any BUFMETA_BMP BUFMETA_DEVADDR_TO_BLKID.
Definition alloc_single_nvm_page := alloc_single PAGE_BMP PAGE_BLKID_TO_DEVADDR.
Definition alloc_nvm_pages := alloc_many PAGE_BMP PAGE_BLKID_TO_DEVADDR.
Definition dealloc_nvm_page := dealloc_any PAGE_BMP PAGE_DEVADDR_TO_BLKID.
Definition alloc_single_ssd_block := alloc_single BLOCK_BMP BLOCK_BLKID_TO_DEVADDR.
Definition alloc_ssd_blocks := alloc_many BLOCK_BMP BLOCK_BLKID_TO_DEVADDR.
Definition dealloc_ssd_block := dealloc_any BLOCK_BMP BLOCK_DEVADDR_TO_BLKID.

(** ** Persistence *)

(** The first [n] bytes of a buffer. *)
Definition buf_bytes (f : Z -> Z) (o n : Z) : list Z := nvm_read f n o.

Definition sync_type_mem_bmp (m : pmem) (arr : mem_bmps) (bmp_type : Z) : pmem :=
  let b := arr bmp_type in
  nvm_write m (buf_bytes (bmp_bytes b) 0 (bmp_capacity b)) (dev_start_addr b).

Definition list_set (l : list Z) (i v : Z) : list Z := <[Z.to_nat i := v]> l.

(** The per-area superblock fields [sync_all_mem_bmp] rewrites. *)
Definition sb_set_bmp (sb : orch_super_blk) (i : Z) (b : mem_bmp) : orch_super_blk :=
  mk_super_blk (sb_root_inode sb) (sb_magic_num sb)
    (list_set (sb_bmp_dev_addr_list sb) i (s64 (dev_start_addr b)))
    (list_set (sb_bmp_alloc_cur_list sb) i 0)
    (list_set (sb_bmp_used_num_list sb) i (s64 (bmp_used_num b)))
    (list_set (sb_bmp_alloc_range_list sb) i (s64 (bmp_alloc_range b)))
    (sb_format_version sb) (sb_feature_flags sb) (sb_checkpoint0 sb) (sb_checkpoint1 sb)
    (sb_reserved sb).

Definition bmp_ids : list Z := [INODE_BMP; IDX_NODE_BMP; VIR_NODE_BMP; BUFMETA_BMP; PAGE_BMP; BLOCK_BMP].

Definition sync_all_mem_bmp (m : pmem) (arr : mem_bmps) : pmem :=
  let sb := super_blk_dec (nvm_read m ORCH_SUPER_BLK_SIZE OFFSET_SUPER_BLK) in
  let '(m, sb) := fold_left (fun '(m, sb) i =>
      (sync_type_mem_bmp m arr i, sb_set_bmp sb i (arr i))) bmp_ids (m, sb) in
  nvm_write m (super_blk_enc sb) OFFSET_SUPER_BLK.

(** [sync_mem_bmp]: return code and media. *)
Definition sync_mem_bmp (m : pmem) (arr : mem_bmps) (bmp_type bit_off bit_len : Z) : Z * pmem :=
  let b := arr bmp_type in
  if u64 (bmp_capacity b * 8) <? u64 (bit_off + bit_len) then (2, m)
  else
    let byte_start := u64 (Z.quot bit_off 8) in
    let byte_end := u64 (Z.quot (bit_off + bit_len - 1) 8) in
    let cpy_bytes := u64 (byte_end - byte_start + 1) in
    (0, nvm_write m (buf_bytes (bmp_bytes b) byte_start cpy_bytes) (dev_start_addr b + byte_start)).

(** [bitmap_change_location]: byte offset and mask of a block, or an error. *)
Definition bitmap_change_location (arr : mem_bmps) (bmp_type block : Z) : Z + Z * Z :=
  if (bmp_type <? START_BMP_ID) || (END_BMP_ID <? bmp_type) then inl EINVAL
  else if (block <? 0) || (u64 (bmp_capacity (arr bmp_type) * 8) <=? block) then inl EINVAL
  else inr (block / 8, bit_mask block).

Definition orchfs_bitmap_persist_change (m : pmem) (arr : mem_bmps) (bmp_type block allocated : Z)
    : Z * pmem :=
  match bitmap_change_location arr bmp_type block with
  | inl error => (error, m)
  | inr (byte_offset, mask) =>
      if negb (allocated =? 0) && negb (allocated =? 1) then (EINVAL, m)
      else
        let at_ := dev_start_addr (arr bmp_type) + byte_offset in
        let durable := byte_at (nvm_read m 1 at_) 0 in
        let durable := if negb (allocated =? 0) then u8 (Z.lor durable mask)
                       else u8 (Z.land durable (u8 (Z.lnot mask))) in
        (0, nvm_write m [durable] at_)
  end.

Definition orchfs_bitmap_replay_change (m : pmem) (arr : mem_bmps) (bmp_type block allocated : Z)
    : Z * pmem * mem_bmps :=
  match bitmap_change_location arr bmp_type block with
  | inl error => (error, m, arr)
  | inr (byte_offset, mask) =>
      if negb (allocated =? 0) && negb (allocated =? 1) then (EINVAL, m, arr)
      else
        let b := arr bmp_type in
        let '(_, bytes) := if negb (allocated =? 0) then fetch_or (bmp_bytes b) byte_offset mask
                           else fetch_andn (bmp_bytes b) byte_offset mask in
        let arr := upd arr bmp_type (set_bytes bytes b) in
        let '(r, m) := orchfs_bitmap_persist_change m arr bmp_type block allocated in
        (r, m, arr)
  end.

(** [__builtin_popcount] of a 32-bit word. *)
Definition popcount (z : Z) : Z :=
  fold_right (fun i n => Z.b2z (Z.testbit z (Z.of_nat i)) + n) 0 (seq 0 32).

Definition recompute_one (b : mem_bmp) : mem_bmp :=
  match forZ (R := Empty_set) (bmp_capacity b) (fun offset used =>
          Next (u64 (used + popcount (bmp_bytes b offset)))) 0 with
  | Next used => set_used used b
  | Stop e => match e with end
  end.
Definition orchfs_bitmap_recompute_counts (arr : mem_bmps) : mem_bmps :=
  fold_left (fun a type => upd a type (recompute_one (a type))) bmp_ids arr.

Definition orchfs_bitmap_next_allocated (arr : mem_bmps) (bmp_type after : Z) : Z :=
  if (bmp_type <? START_BMP_ID) || (END_BMP_ID <? bmp_type) || (after <? -1) then -1
  else
    let b := arr bmp_type in
    let total := u64 (bmp_capacity b * 8) in
    let first := u64 (after + 1) in
    match forZ (total - first) (fun i (_ : unit) =>
            if bit_set (bmp_bytes b) (first + i) then Stop (first + i) else Next tt) tt with
    | Stop bit => bit
    | Next _ => -1
    end.

(** ** Start and stop *)

Definition bmp_geometry (i : Z) : Z * Z * Z :=
  if i =? INODE_BMP then (MAX_INODE_NUM / 8, OFFSET_INODE, ORCH_INODE_SIZE)
  else if i =? PAGE_BMP then (MAX_PAGE_NUM / 8, OFFSET_PAGE, ORCH_PAGE_SIZE)
  else if i =? BLOCK_BMP then (MAX_BLOCK_NUM / 8, OFFSET_BLOCK, ORCH_BLOCK_SIZE)
  else if i =? BUFMETA_BMP then (MAX_BUFMETA_NUM / 8, OFFSET_BUFMETA, ORCH_BUFMETA_SIZE)
  else if i =? IDX_NODE_BMP then (MAX_INDEX_NUM / 8, OFFSET_INDEX, ORCH_IDX_SIZE)
  else (MAX_VIRND_NUM / 8, OFFSET_VIRND, ORCH_VIRND_SIZE).

(** One iteration of [init_mem_bmp]; [workers] is the Runtime's worker count. *)
Definition init_one (m : pmem) (sb : orch_super_blk) (workers i : Z) : mem_bmp :=
  let '(capacity, start, size) := bmp_geometry i in
  let dev := u64 (nth (Z.to_nat i) (sb_bmp_dev_addr_list sb) 0) in
  let range := u64 (nth (Z.to_nat i) (sb_bmp_alloc_range_list sb) 0) in
  let data := fun o => if in_range o 0 capacity then m (dev + o) else 0 in
  let data := if range <? capacity
              then fun o => if in_range o range (capacity - range) then 0 else data o
              else data in
  mk_bmp true data dev (u64 (nth (Z.to_nat i) (sb_bmp_alloc_cur_list sb) 0))
    (u64 (nth (Z.to_nat i) (sb_bmp_used_num_list sb) 0)) capacity capacity start size
    (fun _ => 0) (if workers =? 0 then 1 else workers).

(** [init_mem_bmp]; [None] is [exit] when the cursor array cannot be allocated. *)
Definition init_mem_bmp (calloc_ok : bool) (m : pmem) (workers : Z) (arr : mem_bmps) : option mem_bmps :=
  let sb := super_blk_dec (nvm_read m 512 0) in
  if calloc_ok then Some (fold_left (fun a i => upd a i (init_one m sb workers i)) bmp_ids arr)
  else None.

(** [delete_mem_bmp]; [None] is [exit(0)] on a bitmap that is not there. *)
Definition delete_mem_bmp (arr : mem_bmps) : option mem_bmps :=
  fold_left (fun r i => match r with
    | Some a => if bmp_live (a i) then Some (upd a i (set_dead (a i))) else None
    | None => None end) bmp_ids (Some arr).

(** ** Bit-level lemmas *)

Lemma bit_mask_pow bit : bit_mask bit = 2 ^ (7 - bit mod 8).
Proof.
  pose proof (Z.mod_pos_bound bit 8 ltac:(lia)). unfold bit_mask.
  rewrite Z.shiftl_1_l. apply u8_small.
  pose proof (Z.pow_lt_mono_r 2 (7 - bit mod 8) 8). pose proof (Z.pow_pos_nonneg 2 (7 - bit mod 8)). lia.
Qed.

Lemma land_pow2 x k : 0 <= k -> Z.land x (2 ^ k) = if Z.testbit x k then 2 ^ k else 0.
Proof.
  intros Hk. apply Z.bits_inj'. intros j Hj. rewrite Z.land_spec, Z.pow2_bits_eqb by done.
  destruct (Z.eqb_spec k j) as [->|Hne].
  - destruct (Z.testbit x j); [by rewrite Z.pow2_bits_true|by rewrite Z.bits_0].
  - rewrite andb_false_r. destruct (Z.testbit x k); [by rewrite Z.pow2_bits_false|by rewrite Z.bits_0].
Qed.

Lemma mask_set_testbit x bit : mask_set x (bit_mask bit) = Z.testbit x (7 - bit mod 8).
Proof.
  pose proof (Z.mod_pos_bound bit 8 ltac:(lia)).
  unfold mask_set. rewrite bit_mask_pow, land_pow2 by lia.
  destruct (Z.testbit _ _); [|done]. apply negb_true_iff, Z.eqb_neq.
  pose proof (Z.pow_pos_nonneg 2 (7 - bit mod 8)). lia.
Qed.

Lemma same_bit a b : a / 8 = b / 8 -> 7 - a mod 8 = 7 - b mod 8 -> a = b.
Proof. intros. rewrite (Z.div_mod a 8), (Z.div_mod b 8) by lia. lia. Qed.

Lemma testbit_clear x bit j : 0 <= j < 8 ->
  Z.testbit (Z.land x (u8 (Z.lnot (bit_mask bit)))) j = Z.testbit x j && negb (j =? 7 - bit mod 8).
Proof.
  pose proof (Z.mod_pos_bound bit 8 ltac:(lia)). intros Hj.
  rewrite bit_mask_pow, Z.land_spec. f_equal. unfold u8.
  rewrite <-Z.land_ones, Z.land_spec, Z.lnot_spec, Z.pow2_bits_eqb by lia.
  rewrite Z.ones_spec_low, andb_true_r by lia. f_equal. apply Z.eqb_sym.
Qed.

(** Setting and clearing a bit. *)
Lemma bit_set_or bytes b b' :
  bit_set (snd (fetch_or bytes (b / 8) (bit_mask b))) b' = (b' =? b) || bit_set bytes b'.
Proof.
  unfold bit_set, fetch_or. cbn [snd]. rewrite !mask_set_testbit.
  pose proof (Z.mod_pos_bound b 8 ltac:(lia)). pose proof (Z.mod_pos_bound b' 8 ltac:(lia)).
  destruct (Z.eqb_spec b' b) as [->|Hne].
  - rewrite upd_same, Z.lor_spec, bit_mask_pow, Z.pow2_bits_true by lia. by rewrite orb_true_r.
  - unfold upd. destruct (Z.eqb_spec (b' / 8) (b / 8)) as [He|]; [|done].
    rewrite Z.lor_spec, bit_mask_pow, Z.pow2_bits_false, orb_false_r, He; [done|].
    intros Hm. apply Hne. apply same_bit; lia.
Qed.

Lemma bit_set_andn bytes b b' :
  bit_set (snd (fetch_andn bytes (b / 8) (bit_mask b))) b' = negb (b' =? b) && bit_set bytes b'.
Proof.
  unfold bit_set, fetch_andn. cbn [snd]. rewrite !mask_set_testbit.
  pose proof (Z.mod_pos_bound b 8 ltac:(lia)). pose proof (Z.mod_pos_bound b' 8 ltac:(lia)).
  destruct (Z.eqb_spec b' b) as [->|Hne].
  - rewrite upd_same, testbit_clear, Z.eqb_refl by lia. by rewrite andb_false_r.
  - unfold upd. destruct (Z.eqb_spec (b' / 8) (b / 8)) as [He|]; [|done].
    rewrite testbit_clear, He by lia.
    destruct (Z.eqb_spec (7 - b' mod 8) (7 - b mod 8)); [|by rewrite andb_true_r].
    exfalso. apply Hne. apply same_bit; lia.
Qed.

Lemma log2_byte x : byte_ok x -> Z.log2 x < 8.
Proof.
  unfold byte_ok. intros. destruct (Z.eq_dec x 0) as [->|]; [simpl; lia|apply Z.log2_lt_pow2; lia].
Qed.

Lemma fetch_or_ok bytes o mask :
  (forall i, byte_ok (bytes i)) -> byte_ok mask -> forall i, byte_ok (snd (fetch_or bytes o mask) i).
Proof.
  intros H Hm i. unfold fetch_or, upd. cbn. destruct (i =? o); [|done].
  specialize (H o). unfold byte_ok in *. pose proof (Z.lor_nonneg (bytes o) mask).
  split; [lia|]. change 256 with (2 ^ 8). destruct (Z.eq_dec (Z.lor (bytes o) mask) 0) as [->|]; [lia|].
  apply Z.log2_lt_pow2; [lia|]. rewrite Z.log2_lor by lia.
  apply Z.max_lub_lt; apply log2_byte; unfold byte_ok; lia.
Qed.

Lemma fetch_andn_ok bytes o mask :
  (forall i, byte_ok (bytes i)) -> forall i, byte_ok (snd (fetch_andn bytes o mask) i).
Proof.
  intros H i. unfold fetch_andn, upd. cbn. destruct (i =? o); [|done].
  specialize (H o). unfold byte_ok in *. split; [apply Z.land_nonneg; lia|].
  pose proof (Z.land_nonneg (bytes o) (u8 (Z.lnot mask))).
  pose proof (u8_range (Z.lnot mask)). pose proof (Z.log2_land (bytes o) (u8 (Z.lnot mask))).
  pose proof (log2_byte (bytes o) H). change 256 with (2 ^ 8).
  destruct (Z.eq_dec (Z.land (bytes o) (u8 (Z.lnot mask))) 0) as [->|]; [lia|].
  apply Z.log2_lt_pow2; lia.
Qed.

Lemma bit_mask_ok b : byte_ok (bit_mask b).
Proof. apply u8_range. Qed.

(** Two byte arrays with the same bits are equal. *)
Lemma bits_determine f g :
  (forall i, byte_ok (f i)) -> (forall i, byte_ok (g i)) ->
  (forall b, bit_set f b = bit_set g b) -> f = g.
Proof.
  intros Hf Hg H. apply functional_extensionality. intros o. apply Z.bits_inj'. intros j Hj.
  destruct (Z.lt_ge_cases j 8).
  - specialize (H (8 * o + (7 - j))). unfold bit_set in H. rewrite !mask_set_testbit in H.
    replace ((8 * o + (7 - j)) / 8) with o in H by (apply Z.div_unique with (7 - j); lia).
    replace ((8 * o + (7 - j)) mod 8) with (7 - j) in H by (apply Z.mod_unique with o; lia).
    by replace (7 - (7 - j)) with j in H by lia.
  - specialize (Hf o). specialize (Hg o). unfold byte_ok in *.
    rewrite <-(Z.mod_small (f o) (2 ^ 8)), <-(Z.mod_small (g o) (2 ^ 8)) by lia.
    by rewrite !Z.mod_pow2_bits_high by lia.
Qed.

(** ** Counting *)

Fixpoint count_bits (f : Z -> bool) (n : nat) : Z :=
  match n with O => 0 | S n' => count_bits f n' + Z.b2z (f (Z.of_nat n')) end.

Lemma count_bits_ext f g n :
  (forall x, 0 <= x < Z.of_nat n -> f x = g x) -> count_bits f n = count_bits g n.
Proof.
  induction n as [|n IH]; intros H; cbn [count_bits]; [done|].
  rewrite IH, (H (Z.of_nat n)) by (intros; try apply H; lia). done.
Qed.

Lemma count_bits_add f b n : 0 <= b < Z.of_nat n -> f b = false ->
  count_bits (fun x => (x =? b) || f x) n = count_bits f n + 1.
Proof.
  induction n as [|n IH]; intros Hb Hf; [lia|]. cbn [count_bits].
  destruct (Z.eqb_spec (Z.of_nat n) b) as [He|Hne].
  - rewrite He, Hf. cbn. rewrite (count_bits_ext (fun x => (x =? b) || f x) f); [lia|].
    intros x Hx. by replace (x =? b) with false by lia.
  - rewrite IH by (done || lia). cbn. lia.
Qed.

Lemma count_bits_remove f b n : 0 <= b < Z.of_nat n -> f b = true ->
  count_bits (fun x => negb (x =? b) && f x) n = count_bits f n - 1.
Proof.
  intros Hb Hf. rewrite <-(count_bits_ext (fun x => (x =? b) || (negb (x =? b) && f x)) f n).
  - rewrite count_bits_add; [lia|done|]. by rewrite Z.eqb_refl.
  - intros x _. destruct (Z.eqb_spec x b) as [->|]; [by rewrite Hf|done].
Qed.

Lemma count_bits_range f n : 0 <= count_bits f n <= Z.of_nat n.
Proof.
  induction n as [|n IH]; cbn [count_bits]; [lia|].
  pose proof (Z.b2z_bit0 (f (Z.of_nat n))). destruct (f _); cbn; lia.
Qed.

Lemma count_bits_full f n :
  count_bits f n = Z.of_nat n <-> forall x, 0 <= x < Z.of_nat n -> f x = true.
Proof.
  induction n as [|n IH]; cbn [count_bits]; [split; [lia|done]|].
  pose proof (count_bits_range f n). split.
  - intros H1 x Hx. assert (f (Z.of_nat n) = true) as Hn by (destruct (f (Z.of_nat n)); cbn in *; lia || done).
    rewrite Hn in H1. cbn in H1. destruct (Z.eq_dec x (Z.of_nat n)) as [->|]; [done|].
    apply IH; lia.
  - intros H1. rewrite (H1 (Z.of_nat n)) by lia. rewrite (proj2 IH); [cbn; lia|].
    intros; apply H1; lia.
Qed.

(** ** Invariant *)

Definition bits (b : mem_bmp) : Z -> bool := bit_set (bmp_bytes b).
Definition bmp_total (b : mem_bmp) : Z := bmp_capacity b * 8.
Definition bmp_allocated (b : mem_bmp) : Z := count_bits (bits b) (Z.to_nat (bmp_total b)).

(** Geometry and buffer of a bitmap after [init_mem_bmp]. *)
Record bmp_shape (b : mem_bmp) : Prop := {
  wf_bytes : forall i, byte_ok (bmp_bytes b i);
  wf_capacity : 0 < bmp_capacity b <= 2 ^ 37;
  wf_shards : 1 <= shard_count b <= 2 ^ 20;
  wf_cursor : forall w, 0 <= shard_cursor b w < 2 ^ 64;
}.
(** ... and the counter agrees with the bitmap. *)
Definition bmp_wf (b : mem_bmp) : Prop := bmp_shape b /\ bmp_used_num b = bmp_allocated b.

(** [b'] differs from [b] in its buffer, counter and cursors only. *)
Definition same_config (b b' : mem_bmp) : Prop :=
  b' = set_bytes (bmp_bytes b') (set_used (bmp_used_num b') (set_cursor (shard_cursor b') b)).

Lemma same_config_refl b : same_config b b.
Proof. by destruct b. Qed.
Lemma same_config_trans a b c : same_config a b -> same_config b c -> same_config a c.
Proof. unfold same_config. intros -> ->. by destruct a, c. Qed.
Lemma same_config_total b b' : same_config b b' -> bmp_total b' = bmp_total b.
Proof. unfold same_config. by intros ->. Qed.
Lemma same_config_count b b' : same_config b b' -> shard_count b' = shard_count b.
Proof. unfold same_config. by intros ->. Qed.
#[export] Hint Resolve same_config_refl : orch.

Lemma total_small b : bmp_shape b -> 0 < bmp_total b <= 2 ^ 40 /\ u64 (bmp_capacity b * 8) = bmp_total b.
Proof.
  intros H. pose proof (wf_capacity b H). unfold bmp_total. split; [lia|]. apply u64_small. lia.
Qed.

(** ** Claims *)

Lemma claim_bit_spec b x r b' : claim_bit b x = (r, b') -> bmp_shape b ->
  r = negb (bits b x) /\ bmp_shape b' /\ same_config b b' /\ shard_cursor b' = shard_cursor b /\
  (forall y, bits b' y = (y =? x) || bits b y) /\
  bmp_used_num b' = if r then u64 (bmp_used_num b + 1) else bmp_used_num b.
Proof.
  intros H Hs. unfold claim_bit, fetch_or in H.
  pose proof (bit_set_or (bmp_bytes b) x) as Hor. unfold fetch_or in Hor. cbn [snd] in Hor.
  assert (bmp_shape (set_bytes (upd (bmp_bytes b) (x / 8) (Z.lor (bmp_bytes b (x / 8)) (bit_mask x))) b)) as Hsh.
  { destruct Hs. split; [|done..]. cbn. by apply (fetch_or_ok (bmp_bytes b) (x / 8)), bit_mask_ok. }
  unfold bits at 1, bit_set at 1.
  destruct (mask_set _ _); injection H as <- <-; split_and!; try done.
  destruct Hsh. by split.
Qed.

Lemma claim_taken b x b' : claim_bit b x = (false, b') -> bmp_shape b -> b' = b.
Proof.
  intros H Hs. destruct (claim_bit_spec _ _ _ _ H Hs) as (Hr & Hs' & Hc & Hcu & Hb & Hu).
  assert (bmp_bytes b' = bmp_bytes b) as Hbytes.
  { apply bits_determine; [apply Hs'|apply Hs|]. intros y. fold (bits b' y) (bits b y). rewrite Hb.
    destruct (Z.eqb_spec y x) as [->|]; [by destruct (bits b x)|done]. }
  unfold same_config in Hc. rewrite Hc, Hbytes, Hu, Hcu. by destruct b.
Qed.

(** Scanning positions [pos 0 .. pos (n-1)], some skipped, for a free bit. *)
Lemma scan_spec n (pos : Z -> Z) (skip : Z -> bool) b : 0 <= n -> bmp_shape b ->
  match forZ n (fun i b => if skip i then Next b else try_claim (pos i) b) b with
  | Next b' => b' = b /\ forall i, 0 <= i < n -> skip i = false -> bits b (pos i) = true
  | Stop (x, b') => exists i, 0 <= i < n /\ skip i = false /\ x = pos i /\ claim_bit b x = (true, b')
  end.
Proof.
  intros Hn Hs.
  pose proof (forZ_inv
    (fun k b' => b' = b /\ forall i, 0 <= i < k -> skip i = false -> bits b (pos i) = true)
    (fun '(x, b') => exists i, 0 <= i < n /\ skip i = false /\ x = pos i /\ claim_bit b x = (true, b'))
    n (fun i b => if skip i then Next b else try_claim (pos i) b) b Hn) as HL.
  match type of HL with ?A -> ?B -> _ =>
    assert A as HA; [split; [done|lia]|]; assert B as HB; [|specialize (HL HA HB)] end.
  { intros k b1 Hk [-> Hall]. destruct (skip k) eqn:Hsk.
    - split; [done|]. intros i Hi Hi'. destruct (Z.eq_dec i k) as [->|]; [congruence|].
      apply Hall; [lia|done].
    - unfold try_claim. destruct (claim_bit b (pos k)) as [[] b2] eqn:Hc.
      + exists k. done.
      + pose proof (claim_taken _ _ _ Hc Hs) as ->. split; [done|]. intros i Hi Hi'.
        destruct (Z.eq_dec i k) as [->|]; [|apply Hall; [lia|done]].
        destruct (claim_bit_spec _ _ _ _ Hc Hs) as (Hr & _). by destruct (bits b (pos k)). }
  destruct (forZ _ _ _) as [b'|[x b']]; exact HL.
Qed.

(** The shard of a worker. *)
Definition shard_begin (b : mem_bmp) (worker : Z) : Z :=
  bmp_total b * (worker mod shard_count b) / shard_count b.
Definition shard_end (b : mem_bmp) (worker : Z) : Z :=
  bmp_total b * (worker mod shard_count b + 1) / shard_count b.

Lemma shard_bounds b worker : bmp_shape b -> 0 <= shard_begin b worker <= shard_end b worker /\
  shard_end b worker <= bmp_total b.
Proof.
  intros Hs. destruct (total_small b Hs) as [Ht _]. pose proof (wf_shards b Hs).
  pose proof (Z.mod_pos_bound worker (shard_count b) ltac:(lia)) as Hw.
  unfold shard_begin, shard_end. split.
  - split; [apply Z.div_pos; nia|apply Z.div_le_mono; nia].
  - rewrite <-(Z.div_mul (bmp_total b) (shard_count b)) at 2 by lia. apply Z.div_le_mono; nia.
Qed.

(** [allocate_one] with the 64-bit wrap-arounds of its bounds discharged. *)
Lemma allocate_one_unfold b worker : bmp_shape b ->
  allocate_one b worker =
  let total := bmp_total b in
  let begin := shard_begin b worker in
  let end_ := shard_end b worker in
  let w := worker mod shard_count b in
  let start := shard_cursor b w in
  let b := set_cursor (upd (shard_cursor b) w (u64 (start + 1))) b in
  match forZ (end_ - begin) (fun i b => if (fun _ => false) i then Next b
          else try_claim (u64 (begin + u64 (start + i) mod (end_ - begin))) b) b with
  | Stop (bit, b') => (Some bit, b')
  | Next b1 =>
      match forZ (total) (fun i b =>
              if (fun i => (begin <=? u64 (end_ + i) mod total) &&
                           (u64 (end_ + i) mod total <? end_)) i then Next b
              else try_claim (u64 (end_ + i) mod total) b) b1 with
      | Stop (bit, b') => (Some bit, b')
      | Next b' => (None, b')
      end
  end.
Proof.
  intros Hs. destruct (total_small b Hs) as [Ht Hu]. pose proof (wf_shards b Hs).
  pose proof (Z.mod_pos_bound worker (shard_count b) ltac:(lia)).
  pose proof (shard_bounds b worker Hs). unfold allocate_one. rewrite Hu.
  rewrite (u64_small (bmp_total b * (worker mod shard_count b))) by nia.
  rewrite (u64_small (bmp_total b * (worker mod shard_count b + 1))) by nia.
  fold (shard_begin b worker) (shard_end b worker).
  rewrite (u64_small (shard_end b worker - shard_begin b worker)) by lia. done.
Qed.

Lemma shape_set_cursor b w v : bmp_shape b -> 0 <= v < 2 ^ 64 ->
  bmp_shape (set_cursor (upd (shard_cursor b) w v) b).
Proof.
  intros [] Hv. split; [done..|]. intros x. cbn. unfold upd. by destruct (x =? w).
Qed.


(** The cursor of the worker's shard does not wrap during one scan of it. *)
Definition no_wrap (b : mem_bmp) (worker : Z) : Prop :=
  shard_cursor b (worker mod shard_count b) + (shard_end b worker - shard_begin b worker) <= 2 ^ 64.

(** What one allocation promises. *)
Definition alloc_one_post (b : mem_bmp) (worker : Z) (r : option Z) (b' : mem_bmp) : Prop :=
  bmp_shape b' /\ same_config b b' /\
  shard_cursor b' = upd (shard_cursor b) (worker mod shard_count b)
    (u64 (shard_cursor b (worker mod shard_count b) + 1)) /\
  match r with
  | Some bit =>
      0 <= bit < bmp_total b /\ bits b bit = false /\
      (forall y, bits b' y = (y =? bit) || bits b y) /\
      bmp_used_num b' = u64 (bmp_used_num b + 1) /\
      (shard_begin b worker <= bit < shard_end b worker \/
       (no_wrap b worker -> forall y, shard_begin b worker <= y < shard_end b worker -> bits b y = true))
  | None =>
      (forall y, bits b' y = bits b y) /\ bmp_used_num b' = bmp_used_num b /\
      (no_wrap b worker -> forall y, 0 <= y < bmp_total b -> bits b y = true)
  end.

(** Every position of the own shard is visited by the first scan. *)
Lemma own_scan_covers begin span start y : 0 < span -> 0 <= start -> start + span <= 2 ^ 64 ->
  0 <= begin -> begin + span <= 2 ^ 40 -> begin <= y < begin + span ->
  exists i, 0 <= i < span /\ u64 (begin + u64 (start + i) mod span) = y.
Proof.
  intros. exists ((y - begin - start) mod span). pose proof (Z.mod_pos_bound (y - begin - start) span).
  split; [lia|]. rewrite (u64_small (start + _)) by lia.
  rewrite Z.add_mod_idemp_r by lia. replace (start + (y - begin - start)) with (y - begin) by lia.
  rewrite Z.mod_small by lia. rewrite u64_small; lia.
Qed.

(** Every position outside it is visited by the second. *)
Lemma fallback_covers total end_ y : 0 < total <= 2 ^ 40 -> 0 <= end_ <= total -> 0 <= y < total ->
  exists i, 0 <= i < total /\ u64 (end_ + i) mod total = y.
Proof.
  intros. exists ((y - end_) mod total). pose proof (Z.mod_pos_bound (y - end_) total).
  split; [lia|]. rewrite u64_small by lia. rewrite Z.add_mod_idemp_r by lia.
  replace (end_ + (y - end_)) with y by lia. by apply Z.mod_small.
Qed.

Lemma allocate_one_post b worker r b' : bmp_shape b ->
  allocate_one b worker = (r, b') -> alloc_one_post b worker r b'.
Proof.
  intros Hs. rewrite allocate_one_unfold by done. cbv zeta.
  destruct (total_small b Hs) as [Ht _]. destruct (shard_bounds b worker Hs) as [Hb He].
  set (begin := shard_begin b worker) in *. set (end_ := shard_end b worker) in *.
  set (w := worker mod shard_count b). set (start := shard_cursor b w).
  set (b0 := set_cursor _ b).
  assert (bmp_shape b0) as Hs0 by (apply shape_set_cursor; [done|apply u64_range]).
  assert (same_config b b0) as Hc0 by by destruct b.
  assert (forall bit b1, claim_bit b0 bit = (true, b1) -> bmp_shape b1 /\ same_config b b1 /\
    shard_cursor b1 = upd (shard_cursor b) w (u64 (start + 1)) /\ bits b bit = false /\ (forall y, bits b1 y = (y =? bit) || bits b y) /\
    bmp_used_num b1 = u64 (bmp_used_num b + 1)) as Hclaim.
  { intros bit b1 Hcl. destruct (claim_bit_spec _ _ _ _ Hcl Hs0) as (Hr & ? & Hc & ? & Hy & Hu).
    split_and!; [done|exact (same_config_trans _ _ _ Hc0 Hc)|done| |done|done].
    by destruct (bits b bit) eqn:E; [unfold b0, bits in *; cbn in *; rewrite E in Hr|]. }
  pose proof (scan_spec (end_ - begin)
    (fun i => u64 (begin + u64 (start + i) mod (end_ - begin))) (fun _ => false) b0 ltac:(lia) Hs0) as H1.
  assert (forall i, 0 <= i < end_ - begin ->
    begin <= u64 (begin + u64 (start + i) mod (end_ - begin)) < end_) as Hown.
  { intros i Hi. pose proof (Z.mod_pos_bound (u64 (start + i)) (end_ - begin)).
    rewrite u64_small; lia. }
  destruct (forZ _ _ _) as [b1|[x b1]].
  2:{ intros [= <- <-]. destruct H1 as (i & Hi & _ & -> & Hcl). specialize (Hown i Hi).
      destruct (Hclaim _ _ Hcl) as (? & ? & ? & ? & ? & ?). split_and!; try done; [lia..|]. by left. }
  destruct H1 as [-> Hfull].
  assert (no_wrap b worker -> forall y, begin <= y < end_ -> bits b y = true) as Hown_full.
  { unfold no_wrap. fold begin end_ w start. intros Hnw y Hy. pose proof (wf_cursor b Hs w).
    destruct (own_scan_covers begin (end_ - begin) start y) as (i & Hi & <-); [unfold start in *; lia..|].
    by apply Hfull. }
  pose proof (scan_spec (bmp_total b) (fun i => u64 (end_ + i) mod bmp_total b)
    (fun i => (begin <=? u64 (end_ + i) mod bmp_total b) && (u64 (end_ + i) mod bmp_total b <? end_))
    b0 ltac:(lia) Hs0) as H2.
  destruct (forZ _ _ _) as [b1|[x b1]]; intros [= <- <-].
  - destruct H2 as [-> Hrest]. split_and!; [done..|]. intros Hnw y Hy.
    destruct (Z.lt_ge_cases y begin) as [Hlt|Hge]; [|destruct (Z.lt_ge_cases y end_); [by apply Hown_full|]].
    all: destruct (fallback_covers (bmp_total b) end_ y ltac:(lia) ltac:(lia) Hy) as (i & Hi & Hiy).
    all: specialize (Hrest i Hi); cbv beta in Hrest; rewrite Hiy in Hrest; apply Hrest; lia.
  - destruct H2 as (i & Hi & Hsk & -> & Hcl). destruct (Hclaim _ _ Hcl) as (? & ? & ? & ? & ? & ?).
    pose proof (Z.mod_pos_bound (u64 (end_ + i)) (bmp_total b) ltac:(lia)).
    split_and!; try done; [lia..|]. right. done.
Qed.

(** ** The invariant through allocation and deallocation *)

Lemma allocated_add b b' bit : bmp_total b' = bmp_total b -> 0 <= bit < bmp_total b ->
  bits b bit = false -> (forall y, bits b' y = (y =? bit) || bits b y) ->
  bmp_allocated b' = bmp_allocated b + 1.
Proof.
  intros Ht Hb Hf H. unfold bmp_allocated. rewrite Ht.
  rewrite (count_bits_ext (bits b') (fun y => (y =? bit) || bits b y)) by auto.
  by apply count_bits_add; [lia|].
Qed.

Lemma allocated_remove b b' bit : bmp_total b' = bmp_total b -> 0 <= bit < bmp_total b ->
  bits b bit = true -> (forall y, bits b' y = negb (y =? bit) && bits b y) ->
  bmp_allocated b' = bmp_allocated b - 1.
Proof.
  intros Ht Hb Hf H. unfold bmp_allocated. rewrite Ht.
  rewrite (count_bits_ext (bits b') (fun y => negb (y =? bit) && bits b y)) by auto.
  by apply count_bits_remove; [lia|].
Qed.

Lemma allocated_same b b' : bmp_total b' = bmp_total b -> (forall y, bits b' y = bits b y) ->
  bmp_allocated b' = bmp_allocated b.
Proof. intros Ht H. unfold bmp_allocated. rewrite Ht. by apply count_bits_ext. Qed.

Lemma allocated_range b : bmp_shape b -> 0 <= bmp_allocated b <= bmp_total b.
Proof.
  intros Hs. destruct (total_small b Hs). unfold bmp_allocated.
  pose proof (count_bits_range (bits b) (Z.to_nat (bmp_total b))). lia.
Qed.

Lemma allocated_full b : bmp_shape b ->
  bmp_allocated b = bmp_total b <-> forall y, 0 <= y < bmp_total b -> bits b y = true.
Proof.
  intros Hs. destruct (total_small b Hs). unfold bmp_allocated.
  pose proof (count_bits_full (bits b) (Z.to_nat (bmp_total b))) as H1.
  rewrite Z2Nat.id in H1 by lia. done.
Qed.

Lemma alloc_one_wf b worker r b' : bmp_wf b -> alloc_one_post b worker r b' ->
  bmp_wf b' /\ bmp_used_num b' = bmp_used_num b + (match r with Some _ => 1 | None => 0 end).
Proof.
  intros [Hs Hu] (Hs' & Hc & _ & Hr). pose proof (same_config_total _ _ Hc) as Ht.
  destruct (total_small b Hs) as [Htot _].
  destruct r as [bit|].
  - destruct Hr as (Hb & Hf & Hy & Hu' & _).
    pose proof (allocated_add b b' bit Ht Hb Hf Hy) as Ha.
    pose proof (allocated_range b' Hs'). rewrite Ht in *.
    rewrite u64_small in Hu' by lia. split; [split; [done|]|]; lia.
  - destruct Hr as (Hy & Hu' & _). pose proof (allocated_same b b' Ht Hy).
    split; [split; [done|]|]; lia.
Qed.

Lemma dealloc_bit_cases b x r b' : bmp_wf b -> dealloc_bit b x = (r, b') ->
  bmp_wf b' /\ same_config b b' /\ shard_cursor b' = shard_cursor b /\
  ((r = 4 /\ ~ 0 <= x < bmp_total b /\ b' = b) \/
   (r = 6 /\ 0 <= x < bmp_total b /\ bits b x = false /\ b' = b) \/
   (r = 0 /\ 0 <= x < bmp_total b /\ bits b x = true /\
    (forall y, bits b' y = negb (y =? x) && bits b y) /\ bmp_used_num b' = bmp_used_num b - 1)).
Proof.
  intros [Hs Hu] H. unfold dealloc_bit in H. destruct (total_small b Hs) as [Ht Hu64]. rewrite Hu64 in H.
  destruct ((x <? 0) || (bmp_total b <=? x)) eqn:Hr.
  { injection H as <- <-. split_and!; [done|apply same_config_refl|done|]. left. split_and!; [done|lia|done]. }
  change (u8 (Z.shiftl 1 (7 - x mod 8))) with (bit_mask x) in H. unfold fetch_andn in H.
  pose proof (bit_set_andn (bmp_bytes b) x) as Hand. unfold fetch_andn in Hand. cbn [snd] in Hand.
  set (b1 := set_bytes _ b) in H.
  assert (bmp_shape b1) as Hs1.
  { destruct Hs. split; [|done..]. cbn. by apply (fetch_andn_ok (bmp_bytes b) (x / 8) (bit_mask x)). }
  assert (same_config b b1) as Hc1 by by destruct b.
  change (mask_set _ _) with (bits b x) in H.
  destruct (bits b x) eqn:Hx; injection H as <- <-.
  - assert (bmp_allocated b1 = bmp_allocated b - 1) as Ha by (apply (allocated_remove b b1 x); done || lia).
    pose proof (allocated_range b1 Hs1). assert (bmp_total b1 = bmp_total b) by done.
    assert (bmp_used_num b1 = bmp_used_num b) by done.
    assert (u64 (bmp_used_num b1 - 1) = bmp_used_num b - 1) as Hu1 by (rewrite u64_small; lia).
    split_and!; [split|by destruct b|done|].
    + destruct Hs1. by split.
    + change (u64 (bmp_used_num b1 - 1) = bmp_allocated b1). lia.
    + right. right. split_and!; [done|lia|lia|done|done|done].
  - assert (b1 = b) as ->.
    { assert (bmp_bytes b1 = bmp_bytes b) as Hb.
      { apply bits_determine; [apply Hs1|apply Hs|]. intros y. fold (bits b y). unfold b1. cbn [bmp_bytes set_bytes].
        rewrite Hand. fold (bits b y). destruct (Z.eqb_spec y x) as [->|]; [by rewrite Hx|done]. }
      unfold b1 in *. cbn in Hb. rewrite Hb. by destruct b. }
    split_and!; [done|apply same_config_refl|done|]. right. left. split_and!; [done|lia|lia|done|done].
Qed.

(** Membership test used to describe bitmaps with a set of ids added. *)
Definition mem (y : Z) (l : list Z) : bool := existsb (Z.eqb y) l.
Lemma mem_In y l : mem y l = true <-> In y l.
Proof.
  unfold mem. rewrite existsb_exists. split.
  - intros (x & Hx & E). apply Z.eqb_eq in E. by subst.
  - intros H. exists y. split; [done|apply Z.eqb_refl].
Qed.
Lemma mem_cons y x l : mem y (x :: l) = (y =? x) || mem y l.
Proof. done. Qed.
Lemma mem_rev y l : mem y (rev l) = mem y l.
Proof.
  destruct (mem y l) eqn:E; [|destruct (mem y (rev l)) eqn:E'; [|done]].
  - apply mem_In, in_rev. rewrite rev_involutive. by apply mem_In.
  - apply mem_In, in_rev, mem_In in E'. congruence.
Qed.

(** [b'] is [b] with the ids of [acc] (all free in [b]) allocated. *)
Record grabbed (b : mem_bmp) (acc : list Z) (b' : mem_bmp) : Prop := {
  gr_wf : bmp_wf b';
  gr_config : same_config b b';
  gr_nodup : List.NoDup acc;
  gr_free : forall x, In x acc -> 0 <= x < bmp_total b /\ bits b x = false;
  gr_bits : forall y, bits b' y = mem y acc || bits b y;
  gr_used : bmp_used_num b' = bmp_used_num b + len acc;
}.

Lemma grabbed_nil b : bmp_wf b -> grabbed b [] b.
Proof.
  intros H. split; [done|apply same_config_refl|constructor|done|done|]. unfold len. cbn. lia.
Qed.

Lemma grabbed_cons b acc b1 worker bit b2 : grabbed b acc b1 ->
  alloc_one_post b1 worker (Some bit) b2 -> grabbed b (bit :: acc) b2.
Proof.
  intros [] Hp. destruct (alloc_one_wf _ _ _ _ gr_wf0 Hp) as [Hwf Hu].
  destruct Hp as (_ & Hc & _ & Hb & Hf & Hy & _).
  rewrite (same_config_total _ _ gr_config0) in Hb. rewrite gr_bits0 in Hf.
  apply orb_false_iff in Hf as [Hm Hf].
  split; [done|by eapply same_config_trans| | | |].
  - constructor; [|done]. intros H%mem_In. congruence.
  - intros x [<-|Hx]; [done|by apply gr_free0].
  - intros y. by rewrite Hy, gr_bits0, mem_cons, orb_assoc.
  - rewrite Hu, gr_used0. unfold len. cbn [length]. lia.
Qed.

Lemma undo_alloc_spec acc b b1 : grabbed b acc b1 ->
  bmp_wf (undo_alloc b1 acc) /\ same_config b (undo_alloc b1 acc) /\
  (forall y, bits (undo_alloc b1 acc) y = bits b y).
Proof.
  revert b1. induction acc as [|x acc IH]; intros b1 [].
  { split_and!; [done|done|]. intros y. by rewrite gr_bits0. }
  unfold undo_alloc. cbn [fold_left]. apply NoDup_cons_iff in gr_nodup0 as [Hnin Hnd].
  destruct (gr_free0 x ltac:(by left)) as [Hx Hfx].
  assert (s64 x = x) as ->.
  { apply s64_small. destruct gr_wf0 as [Hs _]. destruct (total_small b1 Hs).
    rewrite (same_config_total _ _ gr_config0) in *. lia. }
  destruct (dealloc_bit b1 x) as [r b2] eqn:Hd. cbn [snd].
  destruct (dealloc_bit_cases _ _ _ _ gr_wf0 Hd) as (Hwf2 & Hc2 & _ & Hcase).
  rewrite (same_config_total _ _ gr_config0) in Hcase.
  assert (bits b1 x = true) as Hbx by (by rewrite gr_bits0, mem_cons, Z.eqb_refl).
  destruct Hcase as [(_ & ? & _)|[(_ & _ & ? & _)|(_ & _ & _ & Hy & Hu)]]; [done|congruence|].
  apply IH. split; [done|by eapply same_config_trans|done| | |].
  - intros z Hz. apply gr_free0. by right.
  - intros y. rewrite Hy, gr_bits0, mem_cons. destruct (Z.eqb_spec y x) as [->|]; [|done].
    rewrite Hfx, (orb_false_r (mem x acc)). symmetry. apply not_true_iff_false. by intros H%mem_In.
  - rewrite Hu, gr_used0. unfold len. cbn [length]. lia.
Qed.

(** The loop of [do_alloc]: it ends with all ids claimed, or with the bitmap full. *)
Lemma alloc_loop_spec b worker n : bmp_wf b -> 0 <= n ->
  shard_cursor b (worker mod shard_count b) + n + (shard_end b worker - shard_begin b worker) < 2 ^ 64 ->
  match loopZ n (alloc_body worker) (b, []) with
  | Next (b', acc) => grabbed b acc b' /\ len acc = n
  | Stop (b', acc) => grabbed b acc b' /\ len acc < n /\ bmp_allocated b + len acc = bmp_total b
  end.
Proof.
  intros Hwf Hn Hcur. set (w := worker mod shard_count b).
  pose proof (loopZ_inv (fun k '(b', acc) => grabbed b acc b' /\ len acc = k /\
      shard_cursor b' w = shard_cursor b w + k)
    (fun '(b', acc) => grabbed b acc b' /\ len acc < n /\ bmp_allocated b + len acc = bmp_total b)
    n (alloc_body worker) (b, []) Hn) as HL.
  match type of HL with ?A -> ?B -> _ => assert A as HA; [|assert B as HB; [|specialize (HL HA HB)]] end.
  - split_and!; [by apply grabbed_nil|done|lia].
  - intros k [b1 acc] Hk (Hg & Hl & Hcu). unfold alloc_body.
    destruct (allocate_one b1 worker) as [r b2] eqn:Ha.
    pose proof (proj1 (gr_wf _ _ _ Hg)) as Hs1. pose proof (gr_config _ _ _ Hg) as Hcf.
    pose proof (allocate_one_post _ _ _ _ Hs1 Ha) as Hp.
    pose proof Hp as (Hs2 & Hc2 & Hcur2 & Hr).
    assert (shard_begin b1 worker = shard_begin b worker /\ shard_end b1 worker = shard_end b worker) as [Eb Ee].
    { unfold shard_begin, shard_end.
      by rewrite (same_config_total _ _ Hcf), (same_config_count _ _ Hcf). }
    pose proof (shard_bounds b worker (proj1 Hwf)). pose proof (wf_cursor b (proj1 Hwf) w).
    rewrite (same_config_count _ _ Hcf) in Hcur2. fold w in Hcur, Hcur2.
    destruct r as [bit|].
    + split_and!; [by eapply grabbed_cons|unfold len in *; cbn [length]; lia|].
      rewrite Hcur2, upd_same, Hcu.
      rewrite u64_small; lia.
    + destruct Hr as (Hy & Hu & Hfull).
      assert (no_wrap b1 worker) as Hnw.
      { unfold no_wrap. rewrite (same_config_count _ _ Hcf), Eb, Ee. fold w. lia. }
      pose proof (proj2 (allocated_full b1 Hs1) (Hfull Hnw)) as Hf.
      destruct (gr_wf _ _ _ Hg) as [_ Hw]. destruct Hwf as [_ Hwu]. pose proof (gr_used _ _ _ Hg).
      rewrite (same_config_total _ _ Hcf) in Hf.
      split_and!; [|lia|lia]. destruct Hg. split; [|by eapply same_config_trans|done|done| |lia].
      * by apply (alloc_one_wf b1 worker None).
      * intros y. by rewrite Hy.
  - destruct (loopZ _ _ _) as [[b' acc]|[b' acc]]; [|done]. split; apply HL.
Qed.

(** ** Single bits on the media *)

Definition change_ok (arr : mem_bmps) (bmp_type block allocated : Z) : bool :=
  (START_BMP_ID <=? bmp_type) && (bmp_type <=? END_BMP_ID) && (0 <=? block) &&
  (block <? u64 (bmp_capacity (arr bmp_type) * 8)) && ((allocated =? 0) || (allocated =? 1)).

(** The byte of the bitmap on the media after the change. *)
Definition changed_byte (m : pmem) (arr : mem_bmps) (bmp_type block allocated : Z) : Z -> Z :=
  let media := fun o => m (dev_start_addr (arr bmp_type) + o) in
  snd (if allocated =? 1 then fetch_or media (block / 8) (bit_mask block)
       else fetch_andn media (block / 8) (bit_mask block)).

Lemma persist_change_spec m arr bmp_type block allocated : pmem_ok m ->
  orchfs_bitmap_persist_change m arr bmp_type block allocated =
  if change_ok arr bmp_type block allocated
  then (0, fun a => changed_byte m arr bmp_type block allocated (a - dev_start_addr (arr bmp_type)))
  else (EINVAL, m).
Proof.
  intros Hm. unfold orchfs_bitmap_persist_change, bitmap_change_location, change_ok.
  destruct (Z.ltb_spec bmp_type START_BMP_ID), (Z.leb_spec START_BMP_ID bmp_type); try lia; [done|].
  destruct (Z.ltb_spec END_BMP_ID bmp_type), (Z.leb_spec bmp_type END_BMP_ID); try lia; [done|].
  destruct (Z.ltb_spec block 0), (Z.leb_spec 0 block); try lia; [done|].
  cbn [orb andb].
  destruct (Z.leb_spec (u64 (bmp_capacity (arr bmp_type) * 8)) block),
    (Z.ltb_spec block (u64 (bmp_capacity (arr bmp_type) * 8))); try lia; [done|].
  cbn [andb]. set (d := dev_start_addr (arr bmp_type)).
  assert (byte_at (nvm_read m 1 (d + block / 8)) 0 = m (d + block / 8)) as Hrd.
  { rewrite byte_at_nvm_read by lia. f_equal. lia. }
  assert (forall v, byte_ok v -> nvm_write m [v] (d + block / 8) = fun a => upd (fun o => m (d + o)) (block / 8) v (a - d)) as Hwr.
  { intros v Hv. apply functional_extensionality. intros a. unfold nvm_write, upd.
    destruct (in_rangeP a (d + block / 8) (len [v])) as [Hr|Hr]; unfold len in Hr; cbn in Hr.
    - replace (a - d =? block / 8) with true by lia. replace (a - (d + block / 8)) with 0 by lia. done.
    - replace (a - d =? block / 8) with false by lia. f_equal. lia. }
  pose proof (fetch_or_ok (fun o => m (d + o)) (block / 8) (bit_mask block) ltac:(intros; apply Hm)
    (bit_mask_ok block) (block / 8)) as Ho.
  pose proof (fetch_andn_ok (fun o => m (d + o)) (block / 8) (bit_mask block) ltac:(intros; apply Hm)
    (block / 8)) as Ha.
  unfold fetch_or, fetch_andn in *. cbn [snd] in *. rewrite upd_same in Ho, Ha.
  unfold changed_byte. fold d.
  destruct (Z.eqb_spec allocated 0), (Z.eqb_spec allocated 1); try lia; cbn [negb orb andb]; [| |done].
  - rewrite Hrd, u8_small by done. by rewrite Hwr.
  - rewrite Hrd, u8_small by done. by rewrite Hwr.
Qed.

(** persisting an allocation change succeeds exactly for a valid area, block
    and flag; it then sets or clears that block's bit in the bitmap on the media and
    leaves every other bit of that bitmap and every byte outside it as they were,
    so bits that are only claimed in memory never reach the media with it. *)
Theorem bitmap_persist_change_exact (m : pmem) (arr : mem_bmps) (bmp_type block allocated r : Z) (m' : pmem) :
  pmem_ok m ->
  orchfs_bitmap_persist_change m arr bmp_type block allocated = (r, m') ->
  let dev := dev_start_addr (arr bmp_type) in
  (r = 0 /\ change_ok arr bmp_type block allocated = true /\ pmem_ok m' /\
   (forall y, bit_set (fun o => m' (dev + o)) y =
     if y =? block then allocated =? 1 else bit_set (fun o => m (dev + o)) y) /\
   (forall a, a <> dev + block / 8 -> m' a = m a)) \/
  (r = EINVAL /\ change_ok arr bmp_type block allocated = false /\ m' = m).
Proof.
  intros Hm H dev. rewrite persist_change_spec in H by done.
  destruct (change_ok _ _ _ _) eqn:Hok; injection H as <- <-; [left|by right].
  assert (forall y, bit_set (changed_byte m arr bmp_type block allocated) y =
    if y =? block then allocated =? 1 else bit_set (fun o => m (dev + o)) y) as Hbits.
  { intros y. unfold changed_byte. fold dev. destruct (allocated =? 1).
    - rewrite bit_set_or. by destruct (y =? block).
    - rewrite bit_set_andn. by destruct (y =? block). }
  split_and!; [done|done| | |].
  - intros a. unfold changed_byte. destruct (allocated =? 1).
    + apply fetch_or_ok; [intros; apply Hm|apply bit_mask_ok].
    + apply fetch_andn_ok. intros; apply Hm.
  - intros y. rewrite <-Hbits. unfold bit_set. fold dev. by replace (dev + y / 8 - dev) with (y / 8) by lia.
  - intros a Ha. unfold changed_byte. fold dev. destruct (allocated =? 1); cbn.
    all: rewrite upd_other by lia; f_equal; lia.
Qed.

(** A small bitmap for concrete runs: two bytes, two shards, bits 0, 1 and 8 set. *)
Definition demo_bmp : mem_bmp :=
  mk_bmp true (fun o => if o =? 0 then 192 else if o =? 1 then 128 else 0)
    (Z.shiftl 4 10) 0 3 2 2 OFFSET_INODE ORCH_INODE_SIZE (fun _ => 0) 2.
Definition demo_arr : mem_bmps := fun _ => demo_bmp.

Lemma demo_bmp_wf : bmp_wf demo_bmp.
Proof.
  split; [split|reflexivity]; [|cbn; lia..].
  intros i. cbn. unfold byte_ok. destruct (i =? 0); [lia|]. destruct (i =? 1); lia.
Qed.

Lemma bitmap_persist_change_exact_witness :
  let m' := snd (orchfs_bitmap_persist_change (fun _ => 0) demo_arr INODE_BMP 9 1) in
  bit_set (fun o => m' (4096 + o)) 9 = true /\ bit_set (fun o => m' (4096 + o)) 8 = false.
Proof.
  assert (pmem_ok (fun _ => 0)) as Hm by (intros a; unfold byte_ok; lia).
  destruct (bitmap_persist_change_exact (fun _ => 0) demo_arr INODE_BMP 9 1 0
    (snd (orchfs_bitmap_persist_change (fun _ => 0) demo_arr INODE_BMP 9 1)) Hm eq_refl)
    as [(_ & _ & _ & Hb & _)|(H & _)]; [|discriminate H].
  cbv zeta in Hb |- *. split; [exact (Hb 9)|exact (Hb 8)].
Defined.

(** ** Allocation contracts *)

(** one allocation, on any bitmap whose counter is exact and whose shard cursor
    does not wrap during the scan: a returned block was free, is now allocated, no
    other block changes, it comes from the worker's own shard whenever that shard has
    a free block, and the counter stays exact; ENOSPC is returned only when every
    block of the area is allocated, and then nothing changes. *)
Theorem allocate_one_correct (b : mem_bmp) (worker : Z) (r : option Z) (b' : mem_bmp) :
  bmp_wf b -> no_wrap b worker -> allocate_one b worker = (r, b') ->
  bmp_wf b' /\
  match r with
  | Some bit => 0 <= bit < bmp_total b /\ bits b bit = false /\
      (forall y, bits b' y = (y =? bit) || bits b y) /\
      (forall y, shard_begin b worker <= y < shard_end b worker -> bits b y = false ->
        shard_begin b worker <= bit < shard_end b worker)
  | None => (forall y, 0 <= y < bmp_total b -> bits b y = true) /\ (forall y, bits b' y = bits b y)
  end.
Proof.
  intros Hwf Hnw H. pose proof (allocate_one_post _ _ _ _ (proj1 Hwf) H) as Hp.
  split; [by apply (alloc_one_wf b worker r)|].
  destruct Hp as (_ & _ & _ & Hr). destruct r as [bit|].
  - destruct Hr as (? & ? & ? & _ & Hown). split_and!; [lia|lia|done|done|].
    intros y Hy Hf. destruct Hown as [|Hfull]; [done|]. rewrite (Hfull Hnw y Hy) in Hf. done.
  - destruct Hr as (Hs & _ & Hfull). split; [by apply Hfull|done].
Qed.
Lemma allocate_one_correct_witness : bits demo_bmp 9 = false.
Proof.
  destruct (allocate_one_correct demo_bmp 1 (Some 9) (snd (allocate_one demo_bmp 1)) demo_bmp_wf)
    as (_ & _ & H & _); [vm_compute; congruence|reflexivity|exact H].
Defined.

(** The loop of [do_alloc] has cursor room for [n] allocations by the worker. *)
Definition cursor_room (b : mem_bmp) (worker n : Z) : Prop :=
  shard_cursor b (worker mod shard_count b) + n + (shard_end b worker - shard_begin b worker) < 2 ^ 64.

Lemma do_alloc_spec (arr : mem_bmps) (worker t n e : Z) (ids : list Z) (arr' : mem_bmps) :
  START_BMP_ID <= t <= END_BMP_ID -> bmp_wf (arr t) -> 0 <= n < 2 ^ 64 ->
  cursor_room (arr t) worker n ->
  do_alloc arr worker t n = (e, ids, arr') ->
  bmp_wf (arr' t) /\ same_config (arr t) (arr' t) /\ (forall u, u <> t -> arr' u = arr u) /\
  if n <=? bmp_total (arr t) - bmp_allocated (arr t)
  then e = 0 /\ len ids = n /\ List.NoDup ids /\
    (forall x, In x ids -> 0 <= x < bmp_total (arr t) /\ bits (arr t) x = false) /\
    (forall y, bits (arr' t) y = mem y ids || bits (arr t) y)
  else e = ENOSPC /\ (forall y, bits (arr' t) y = bits (arr t) y).
Proof.
  intros Ht Hwf Hn Hroom H. unfold do_alloc in H.
  replace ((t <? START_BMP_ID) || (END_BMP_ID <? t)) with false in H by lia.
  rewrite u64_small in H by lia.
  pose proof (alloc_loop_spec (arr t) worker n Hwf ltac:(lia) Hroom) as HL.
  destruct (loopZ _ _ _) as [[b' acc]|[b' acc]]; injection H as <- <- <-; rewrite upd_same.
  - destruct HL as [Hg Hl]. destruct Hg.
    pose proof (allocated_range b' (proj1 gr_wf0)). rewrite (same_config_total _ _ gr_config0) in *.
    pose proof (proj2 gr_wf0). pose proof (proj2 Hwf).
    split_and!; [done|done|by intros; apply upd_other|]. replace (n <=? _) with true by lia.
    split_and!; [done|unfold len in *; by rewrite length_rev|by apply NoDup_rev| |].
    + intros x Hx. apply gr_free0. by apply in_rev.
    + intros y. by rewrite mem_rev.
  - destruct HL as (Hg & Hl & Hf). destruct (undo_alloc_spec _ _ _ Hg) as (? & ? & ?).
    split_and!; [done|done|by intros; apply upd_other|]. replace (n <=? _) with false by lia. done.
Qed.

(** a batch allocation is all or nothing: with enough free blocks it returns that
    many distinct blocks that were free and allocates exactly those; otherwise it
    returns ENOSPC and every block claimed on the way is free again; the counter is
    exact in both cases and no other area is touched. *)
Theorem do_alloc_all_or_nothing (arr : mem_bmps) (worker t n e : Z) (ids : list Z) (arr' : mem_bmps) :
  START_BMP_ID <= t <= END_BMP_ID -> bmp_wf (arr t) -> 0 <= n < 2 ^ 64 ->
  cursor_room (arr t) worker n ->
  do_alloc arr worker t n = (e, ids, arr') ->
  bmp_wf (arr' t) /\ same_config (arr t) (arr' t) /\ (forall u, u <> t -> arr' u = arr u) /\
  if n <=? bmp_total (arr t) - bmp_allocated (arr t)
  then e = 0 /\ len ids = n /\ List.NoDup ids /\
    (forall x, In x ids -> 0 <= x < bmp_total (arr t) /\ bits (arr t) x = false) /\
    (forall y, bits (arr' t) y = mem y ids || bits (arr t) y)
  else e = ENOSPC /\ (forall y, bits (arr' t) y = bits (arr t) y).
Proof. intros Ht Hwf Hn Hroom H. exact (do_alloc_spec arr worker t n e ids arr' Ht Hwf Hn Hroom H). Qed.
Lemma do_alloc_all_or_nothing_witness :
  fst (fst (do_alloc demo_arr 0 INODE_BMP 13)) = 0 /\ fst (fst (do_alloc demo_arr 0 INODE_BMP 14)) = ENOSPC.
Proof.
  assert (START_BMP_ID <= INODE_BMP <= END_BMP_ID) as Ht by (vm_compute; split; congruence).
  assert (forall n, 0 <= n <= 14 -> cursor_room (demo_arr INODE_BMP) 0 n) as Hc.
  { intros n Hn. unfold cursor_room. change (0 + n + 8 < 2 ^ 64). lia. }
  split.
  - destruct (do_alloc demo_arr 0 INODE_BMP 13) as [[e ids] arr'] eqn:E.
    destruct (do_alloc_all_or_nothing demo_arr 0 INODE_BMP 13 e ids arr' Ht demo_bmp_wf ltac:(lia)
      (Hc 13 ltac:(lia)) E) as (_ & _ & _ & H).
    replace (13 <=? _) with true in H by (vm_compute; reflexivity). exact (proj1 H).
  - destruct (do_alloc demo_arr 0 INODE_BMP 14) as [[e ids] arr'] eqn:E.
    destruct (do_alloc_all_or_nothing demo_arr 0 INODE_BMP 14 e ids arr' Ht demo_bmp_wf ltac:(lia)
      (Hc 14 ltac:(lia)) E) as (_ & _ & _ & H).
    replace (14 <=? _) with false in H by (vm_compute; reflexivity). exact (proj1 H).
Defined.

Lemma do_dealloc_spec (arr : mem_bmps) (t x : Z) :
  bmp_wf (arr t) ->
  let '(r, arr') := do_dealloc arr t x in
  bmp_wf (arr' t) /\ same_config (arr t) (arr' t) /\ (forall u, u <> t -> arr' u = arr u) /\
  r = (if in_range x 0 (bmp_total (arr t)) then if bits (arr t) x then 0 else 6 else 4) /\
  (forall y, bits (arr' t) y =
    (if (r =? 0) && (y =? x) then false else bits (arr t) y)) /\
  bmp_used_num (arr' t) = bmp_used_num (arr t) - (if r =? 0 then 1 else 0).
Proof.
  intros Hwf. unfold do_dealloc. destruct (dealloc_bit (arr t) x) as [r b'] eqn:Hd.
  destruct (dealloc_bit_cases _ _ _ _ Hwf Hd) as (Hwf' & Hcf & _ & Hc). rewrite upd_same.
  split_and!; [done|done|by intros; apply upd_other|..].
  all: destruct Hc as [(-> & Hr & ->)|[(-> & Hr & Hb & ->)|(-> & Hr & Hb & Hy & Hu)]].
  all: try (destruct (in_rangeP x 0 (bmp_total (arr t))); [|lia || done]); try lia; try rewrite Hb; try done.
  all: try (cbn; lia).
  intros y. rewrite Hy. cbn. by destruct (y =? x).
Qed.

(** deallocation reports 4 outside the area, 6 for a block that is already free
    (the bitmap is untouched in both cases), and otherwise frees exactly that block;
    the counter stays exact and no other area is touched. *)
Theorem do_dealloc_correct (arr : mem_bmps) (t x : Z) :
  bmp_wf (arr t) ->
  let '(r, arr') := do_dealloc arr t x in
  bmp_wf (arr' t) /\ same_config (arr t) (arr' t) /\ (forall u, u <> t -> arr' u = arr u) /\
  r = (if in_range x 0 (bmp_total (arr t)) then if bits (arr t) x then 0 else 6 else 4) /\
  (forall y, bits (arr' t) y =
    (if (r =? 0) && (y =? x) then false else bits (arr t) y)) /\
  bmp_used_num (arr' t) = bmp_used_num (arr t) - (if r =? 0 then 1 else 0).
Proof. exact (do_dealloc_spec arr t x). Qed.
Lemma do_dealloc_correct_witness :
  fst (do_dealloc demo_arr INODE_BMP 8) = 0 /\ fst (do_dealloc demo_arr INODE_BMP 9) = 6.
Proof.
  split.
  - exact (proj1 (proj2 (proj2 (proj2 (do_dealloc_correct demo_arr INODE_BMP 8 demo_bmp_wf))))).
  - exact (proj1 (proj2 (proj2 (proj2 (do_dealloc_correct demo_arr INODE_BMP 9 demo_bmp_wf))))).
Defined.

(** ** Scans of a bitmap *)

(** [orchfs_bitmap_next_allocated] returns the least allocated block above
    [after], and -1 only when there is none: iterating from -1 enumerates exactly
    the allocated blocks. *)
Theorem bitmap_next_allocated_least (arr : mem_bmps) (t after : Z) :
  START_BMP_ID <= t <= END_BMP_ID -> bmp_shape (arr t) -> -1 <= after < 2 ^ 62 ->
  let r := orchfs_bitmap_next_allocated arr t after in
  (after < r < bmp_total (arr t) /\ bits (arr t) r = true /\
   forall y, after < y < r -> bits (arr t) y = false) \/
  (r = -1 /\ forall y, after < y < bmp_total (arr t) -> bits (arr t) y = false).
Proof.
  intros Ht Hs Ha r. unfold r, orchfs_bitmap_next_allocated. clear r.
  replace ((t <? START_BMP_ID) || (END_BMP_ID <? t) || (after <? -1)) with false by lia.
  destruct (total_small _ Hs) as [Htot ->]. rewrite (u64_small (after + 1)) by lia.
  set (f := fun i (_ : unit) => _).
  destruct (Z.le_gt_cases (bmp_total (arr t)) (after + 1)) as [Hle|Hgt].
  { right. replace (forZ _ f tt) with (Next (R := Z) tt); [split; [done|lia]|].
    unfold forZ, loopZ. destruct (bmp_total (arr t) - (after + 1)) eqn:E; [done|lia|done]. }
  pose proof (forZ_inv (fun k _ => forall y, after < y < after + 1 + k -> bits (arr t) y = false)
    (fun r => after < r < bmp_total (arr t) /\ bits (arr t) r = true /\
       forall y, after < y < r -> bits (arr t) y = false)
    (bmp_total (arr t) - (after + 1)) f tt ltac:(lia)) as HL.
  match type of HL with ?A -> ?B -> _ => assert A as HA by lia; assert B as HB; [|specialize (HL HA HB)] end.
  - intros k [] Hk Hall. unfold f. destruct (bit_set _ _) eqn:E.
    + split_and!; [lia|lia|done|]. intros; apply Hall; lia.
    + intros y Hy. destruct (Z.eq_dec y (after + 1 + k)) as [->|]; [done|]. apply Hall. lia.
  - destruct (forZ _ f tt); [right|left; done]. split; [done|]. intros. apply HL. lia.
Qed.
Lemma bitmap_next_allocated_least_witness :
  orchfs_bitmap_next_allocated demo_arr INODE_BMP 1 = 8.
Proof.
  destruct (bitmap_next_allocated_least demo_arr INODE_BMP 1) as [(H1 & H2 & H3)|(_ & H)].
  - vm_compute; split; congruence.
  - exact (proj1 demo_bmp_wf).
  - lia.
  - reflexivity.
  - exfalso. specialize (H 8 ltac:(vm_compute; split; congruence)). discriminate H.
Defined.

(** Population count of a byte, bit by bit in bitmap order. *)
Lemma popcount_byte x : byte_ok x ->
  popcount x = count_bits (fun k => mask_set x (bit_mask k)) 8.
Proof.
  intros Hx. assert (forallb (fun n => popcount (Z.of_nat n) =?
    count_bits (fun k => mask_set (Z.of_nat n) (bit_mask k)) 8) (seq 0 256) = true) as H
    by (vm_compute; reflexivity).
  rewrite forallb_forall in H. unfold byte_ok in Hx.
  specialize (H (Z.to_nat x)). rewrite Z2Nat.id in H by lia. apply Z.eqb_eq, H, in_seq. lia.
Qed.

Lemma count_bits_bytes f n :
  count_bits (bit_set f) (8 * S n) =
  count_bits (bit_set f) (8 * n) + count_bits (fun k => mask_set (f (Z.of_nat n)) (bit_mask k)) 8.
Proof.
  replace (8 * S n)%nat with (8 + 8 * n)%nat by lia. rewrite Nat.add_comm.
  cut (forall k, (k <= 8)%nat -> count_bits (bit_set f) (8 * n + k) = count_bits (bit_set f) (8 * n) +
    count_bits (fun k => mask_set (f (Z.of_nat n)) (bit_mask k)) k); [intros H; by apply H|].
  induction k as [|k IH]; intros Hk; [rewrite Nat.add_0_r; cbn [count_bits]; lia|].
  rewrite Nat.add_succ_r. cbn [count_bits]. rewrite IH by lia.
  rewrite <-Z.add_assoc. do 3 f_equal. unfold bit_set.
  replace (Z.of_nat (8 * n + k) / 8) with (Z.of_nat n) by (apply Z.div_unique with (Z.of_nat k); lia).
  unfold bit_mask. replace (Z.of_nat (8 * n + k) mod 8) with (Z.of_nat k mod 8); [done|].
  rewrite !Z.mod_small by lia. apply Z.mod_unique with (Z.of_nat n); lia.
Qed.

Lemma recompute_one_spec b : bmp_shape b ->
  recompute_one b = set_used (bmp_allocated b) b.
Proof.
  intros Hs. pose proof (wf_capacity b Hs) as Hcap. unfold recompute_one.
  pose proof (forZ_inv (R := Empty_set)
    (fun k used => used = count_bits (bits b) (8 * Z.to_nat k)) (fun _ => False) (bmp_capacity b)
    (fun offset used => Next (u64 (used + popcount (bmp_bytes b offset)))) 0 ltac:(lia) eq_refl) as HL.
  match type of HL with ?B -> _ => assert B as HB; [|specialize (HL HB)] end.
  - intros k used Hk ->. cbv beta.
    replace (Z.to_nat (k + 1)) with (S (Z.to_nat k)) by lia.
    unfold bits. rewrite count_bits_bytes, Z2Nat.id by lia.
    rewrite popcount_byte by (apply wf_bytes; done). apply u64_small.
    pose proof (count_bits_range (bit_set (bmp_bytes b)) (8 * Z.to_nat k)).
    pose proof (count_bits_range (fun k0 => mask_set (bmp_bytes b k) (bit_mask k0)) 8). lia.
  - destruct (forZ _ _ _) as [used|[]]. rewrite HL. unfold bmp_allocated, bmp_total.
    replace (Z.to_nat (bmp_capacity b * 8)) with (8 * Z.to_nat (bmp_capacity b))%nat by lia. done.
Qed.

Lemma fold_upd_bmps (f : mem_bmp -> mem_bmp) l arr t : List.NoDup l ->
  fold_left (fun a i => upd a i (f (a i))) l arr t = if mem t l then f (arr t) else arr t.
Proof.
  revert arr. induction l as [|x l IH]; intros arr Hnd; [done|].
  apply NoDup_cons_iff in Hnd as [Hx Hnd]. cbn [fold_left]. rewrite IH, mem_cons by done.
  unfold upd. destruct (Z.eqb_spec t x) as [->|]; [|done]. cbn [orb].
  destruct (mem x l) eqn:E; [|done]. apply mem_In in E. done.
Qed.
Lemma bmp_ids_nodup : List.NoDup bmp_ids.
Proof. unfold bmp_ids, INODE_BMP, IDX_NODE_BMP, VIR_NODE_BMP, BUFMETA_BMP, PAGE_BMP, BLOCK_BMP.
  repeat constructor; cbn; lia. Qed.

(** recomputing the counters after recovery establishes the allocator's
    invariant for every area (whatever counter the superblock held), without
    changing a bit of any bitmap. *)
Theorem bitmap_recompute_counts_correct (arr : mem_bmps) (t : Z) :
  START_BMP_ID <= t <= END_BMP_ID -> bmp_shape (arr t) ->
  bmp_wf (orchfs_bitmap_recompute_counts arr t) /\
  same_config (arr t) (orchfs_bitmap_recompute_counts arr t) /\
  forall y, bits (orchfs_bitmap_recompute_counts arr t) y = bits (arr t) y.
Proof.
  intros Ht Hs. unfold orchfs_bitmap_recompute_counts. rewrite fold_upd_bmps by apply bmp_ids_nodup.
  replace (mem t bmp_ids) with true.
  - rewrite recompute_one_spec by done. split_and!; [split; [|done]|by destruct (arr t)|done].
    destruct Hs. by split.
  - unfold START_BMP_ID, END_BMP_ID in Ht. by area_cases t.
Qed.
Lemma bitmap_recompute_counts_correct_witness :
  bmp_wf (orchfs_bitmap_recompute_counts (fun _ => set_used 77 demo_bmp) PAGE_BMP).
Proof.
  refine (proj1 (bitmap_recompute_counts_correct (fun _ => set_used 77 demo_bmp) PAGE_BMP _ _)).
  - vm_compute; split; congruence.
  - destruct (proj1 demo_bmp_wf). by split.
Defined.
