(* ===== verification/KernelFunc.v ===== *)
(** * Direct allocation requests (KernelFS/kernel_func.c, LibFS/req_kernel.c,
      config/protocol.h)

    The in-process seam between LibFS and the block allocator: function codes,
    argument checks, the response layout and the per-area request functions. *)

From stdpp Require Import base tactics numbers list.
From Stdlib Require Import ZArith Lia.
From S2P Require Import Prelude Bytes Layout Pmem DiskFormat Bitmap.
Open Scope Z_scope.

Definition ALLOC_INODE_FUNC : Z := 0.
Definition ALLOC_INXND_FUNC : Z := 1.
Definition ALLOC_VIRND_FUNC : Z := 2.
Definition ALLOC_BUFMETA_FUNC : Z := 3.
Definition ALLOC_PAGE_FUNC : Z := 4.
Definition ALLOC_BLOCK_FUNC : Z := 5.
Definition DEALLOC_INODE_FUNC : Z := 16.
Definition DEALLOC_INXND_FUNC : Z := 17.
Definition DEALLOC_VIRND_FUNC : Z := 18.
Definition DEALLOC_BUFMETA_FUNC : Z := 19.
Definition DEALLOC_PAGE_FUNC : Z := 20.
Definition DEALLOC_BLOCK_FUNC : Z := 21.

(** [orchfs_kfs_alloc_direct] with a response buffer: the error and, on success,
    the buffer ([func_type], count, block ids). *)
Definition orchfs_kfs_alloc_direct (arr : mem_bmps) (worker func_type alloc_blk_num return_type : Z)
    : Z * list Z * mem_bmps :=
  if alloc_blk_num <? 0 then (EINVAL, [], arr)
  else if negb (return_type =? RET_BLK_ID) && negb (return_type =? RET_BLK_ADDR) then (EINVAL, [], arr)
  else
    let r :=
      if func_type =? ALLOC_INODE_FUNC then Some (alloc_inodes arr worker alloc_blk_num return_type)
      else if func_type =? ALLOC_INXND_FUNC then Some (alloc_idx_nodes arr worker alloc_blk_num return_type)
      else if func_type =? ALLOC_VIRND_FUNC then Some (alloc_viridx_nodes arr worker alloc_blk_num return_type)
      else if func_type =? ALLOC_BUFMETA_FUNC then Some (alloc_bufmeta_nodes arr worker alloc_blk_num return_type)
      else if func_type =? ALLOC_PAGE_FUNC then Some (alloc_nvm_pages arr worker alloc_blk_num return_type)
      else if func_type =? ALLOC_BLOCK_FUNC then Some (alloc_ssd_blocks arr worker alloc_blk_num return_type)
      else None in
    match r with
    | None => (EINVAL, [], arr)
    | Some (error, ids, arr') =>
        if negb (error =? 0) then (error, [], arr')
        else (0, func_type :: alloc_blk_num :: ids, arr')
    end.

(** One iteration of the loop of [orchfs_kfs_dealloc_direct]. *)
Definition dealloc_direct_one (func_type parameter_type : Z) (arr : mem_bmps) (id : Z) : Z * mem_bmps :=
  if func_type =? DEALLOC_INODE_FUNC then dealloc_inode arr (u64 id) parameter_type
  else if func_type =? DEALLOC_INXND_FUNC then dealloc_idx_node arr (u64 id) parameter_type
  else if func_type =? DEALLOC_VIRND_FUNC then dealloc_viridx_node arr (u64 id) parameter_type
  else if func_type =? DEALLOC_BUFMETA_FUNC then dealloc_bufmeta_node arr (u64 id) parameter_type
  else if func_type =? DEALLOC_PAGE_FUNC then dealloc_nvm_page arr (u64 id) parameter_type
  else if func_type =? DEALLOC_BLOCK_FUNC then dealloc_ssd_block arr (u64 id) parameter_type
  else (EINVAL, arr).

Fixpoint dealloc_direct_loop (func_type parameter_type : Z) (arr : mem_bmps) (ids : list Z) : Z * mem_bmps :=
  match ids with
  | [] => (0, arr)
  | id :: ids' =>
      let '(error, arr') := dealloc_direct_one func_type parameter_type arr id in
      if negb (error =? 0) then (error, arr')
      else dealloc_direct_loop func_type parameter_type arr' ids'
  end.

Definition orchfs_kfs_dealloc_direct (arr : mem_bmps) (func_type parameter_type : Z) (ids : list Z)
    : Z * mem_bmps :=
  if negb (parameter_type =? PAR_BLK_ID) && negb (parameter_type =? PAR_BLK_ADDR) then (EINVAL, arr)
  else dealloc_direct_loop func_type parameter_type arr ids.

(** ** req_kernel.c *)

Definition request_alloc (arr : mem_bmps) (worker function count return_type : Z) : Z * list Z * mem_bmps :=
  if (function <? 0) || (DEALLOC_BLOCK_FUNC <? function) then (EINVAL, [], arr)
  else orchfs_kfs_alloc_direct arr worker function count return_type.
Definition request_dealloc (arr : mem_bmps) (function : Z) (blocks : list Z) (parameter_type : Z)
    : Z * mem_bmps :=
  if (function <? 0) || (DEALLOC_BLOCK_FUNC <? function) then (EINVAL, arr)
  else orchfs_kfs_dealloc_direct arr function parameter_type blocks.

Definition request_inode_id_arr (arr : mem_bmps) (worker count type : Z) :=
  request_alloc arr worker ALLOC_INODE_FUNC count type.
Definition request_idxnd_id_arr (arr : mem_bmps) (worker count type : Z) :=
  request_alloc arr worker ALLOC_INXND_FUNC count type.
Definition request_virnd_id_arr (arr : mem_bmps) (worker count type : Z) :=
  request_alloc arr worker ALLOC_VIRND_FUNC count type.
Definition request_bufmeta_id_arr (arr : mem_bmps) (worker count type : Z) :=
  request_alloc arr worker ALLOC_BUFMETA_FUNC count type.
Definition request_page_id_arr (arr : mem_bmps) (worker count type : Z) :=
  request_alloc arr worker ALLOC_PAGE_FUNC count type.
Definition request_block_id_arr (arr : mem_bmps) (worker count type : Z) :=
  request_alloc arr worker ALLOC_BLOCK_FUNC count type.

Definition send_dealloc_inode_req (arr : mem_bmps) (blocks : list Z) (type : Z) :=
  request_dealloc arr DEALLOC_INODE_FUNC blocks type.
Definition send_dealloc_idxnd_req (arr : mem_bmps) (blocks : list Z) (type : Z) :=
  request_dealloc arr DEALLOC_INXND_FUNC blocks type.
Definition send_dealloc_virnd_req (arr : mem_bmps) (blocks : list Z) (type : Z) :=
  request_dealloc arr DEALLOC_VIRND_FUNC blocks type.
Definition send_dealloc_bufmeta_req (arr : mem_bmps) (blocks : list Z) (type : Z) :=
  request_dealloc arr DEALLOC_BUFMETA_FUNC blocks type.
Definition send_dealloc_page_req (arr : mem_bmps) (blocks : list Z) (type : Z) :=
  request_dealloc arr DEALLOC_PAGE_FUNC blocks type.
Definition send_dealloc_block_req (arr : mem_bmps) (blocks : list Z) (type : Z) :=
  request_dealloc arr DEALLOC_BLOCK_FUNC blocks type.

(** ** Requests reach the bitmap of their extent *)

(** Function codes of an extent id (libspace.c dispatches on the extent id). *)
Definition alloc_func (type : Z) : Z := type - 1.
Definition dealloc_func (type : Z) : Z := type + 15.

Lemma request_alloc_ids arr worker type count e ids arr' :
  START_BMP_ID <= type <= END_BMP_ID -> 0 <= count ->
  do_alloc arr worker type count = (e, ids, arr') ->
  request_alloc arr worker (alloc_func type) count RET_BLK_ID =
    if e =? 0 then (0, alloc_func type :: count :: ids, arr') else (ENOSPC, [], arr').
Proof.
  unfold START_BMP_ID, END_BMP_ID. intros Ht Hc H.
  unfold request_alloc, orchfs_kfs_alloc_direct. replace (count <? 0) with false by lia.
  area_cases type; cbn -[do_alloc u64].
  all: unfold alloc_inodes, alloc_idx_nodes, alloc_viridx_nodes, alloc_bufmeta_nodes, alloc_nvm_pages,
    alloc_ssd_blocks, alloc_many, INODE_BMP, IDX_NODE_BMP, VIR_NODE_BMP, BUFMETA_BMP, PAGE_BMP, BLOCK_BMP.
  all: rewrite H; by destruct (e =? 0).
Qed.

Lemma dealloc_direct_one_id arr type block : START_BMP_ID <= type <= END_BMP_ID -> is_s64 block ->
  dealloc_direct_one (dealloc_func type) PAR_BLK_ID arr block = do_dealloc arr type block.
Proof.
  unfold START_BMP_ID, END_BMP_ID. intros Ht Hb.
  assert (s64 (u64 block) = block) as Hid by (rewrite s64_u64; by apply s64_small).
  transitivity (do_dealloc arr type (s64 (u64 block))); [|by rewrite Hid].
  area_cases type; reflexivity.
Qed.

Lemma request_dealloc_ids arr type blocks : START_BMP_ID <= type <= END_BMP_ID ->
  request_dealloc arr (dealloc_func type) blocks PAR_BLK_ID =
  dealloc_direct_loop (dealloc_func type) PAR_BLK_ID arr blocks.
Proof. unfold START_BMP_ID, END_BMP_ID. intros Ht. by area_cases type. Qed.

Lemma request_dealloc_id arr type block :
  START_BMP_ID <= type <= END_BMP_ID -> is_s64 block ->
  request_dealloc arr (dealloc_func type) [block] PAR_BLK_ID = do_dealloc arr type block.
Proof.
  intros Ht Hb. rewrite request_dealloc_ids by done. cbn [dealloc_direct_loop].
  rewrite dealloc_direct_one_id by done. destruct (do_dealloc arr type block) as [r arr'].
  by destruct (Z.eqb_spec r 0) as [->|].
Qed.
