(* ===== verification/Frame.v ===== *)
(** * Journal frames (LibFS/lib_log.c)

    The byte image of a transaction in the write-ahead log, its validation and
    its application to the home locations: [build_frame] after the targets of its
    records are resolved, [validate_frame] and [apply_frame]. *)

From stdpp Require Import base tactics numbers list.
From Stdlib Require Import ZArith Lia FunctionalExtensionality.
From S2P Require Import Prelude Bytes Crc32c Layout Pmem DiskFormat Bitmap.
Open Scope Z_scope.

#[global] Opaque orchfs_crc32c.

Definition align_cacheline (length : Z) : Z := Z.land (u64 (length + 63)) (u64 (Z.lnot 63)).

Definition RECORD_HEADER_BYTES : Z := 32.
Definition FRAME_HEADER_BYTES : Z := 64.
Definition COMMIT_BYTES : Z := 64.

(** A journal record with its home location resolved: data for a PMEM range, or
    the allocation state of one block ([kind] is ALLOCATE or FREE). *)
Inductive jrec :=
| JWrite (type target : Z) (data : list Z)
| JBit (kind type block : Z).

Definition jrec_data (r : jrec) : list Z := match r with JWrite _ _ d => d | JBit _ _ _ => [] end.
(** Size of the record in the frame. *)
Definition jrec_bytes (r : jrec) : Z := align_cacheline (RECORD_HEADER_BYTES + len (jrec_data r)).

Definition jrec_header (r : jrec) : orchfs_journal_record_header :=
  match r with
  | JWrite type target data =>
      mk_record_header ORCHFS_JOURNAL_WRITE (u32 type) target 0 (u32 (len data)) (u32 (jrec_bytes r))
        (orchfs_crc32c data)
  | JBit kind type block => mk_record_header kind (u32 type) block 0 0 (u32 (jrec_bytes r)) 0
  end.

(** Header, data and the zero padding of the [calloc]ed frame. *)
Definition jrec_image (r : jrec) : list Z :=
  record_header_enc (jrec_header r) ++ jrec_data r ++
  zeros (jrec_bytes r - RECORD_HEADER_BYTES - len (jrec_data r)).

Fixpoint payload_image (recs : list jrec) : list Z :=
  match recs with [] => [] | r :: recs' => jrec_image r ++ payload_image recs' end.

Definition frame_header_of (txid : Z) (count : Z) (payload : list Z) (checksum : Z)
    : orchfs_journal_frame_header :=
  mk_frame_header ORCHFS_JOURNAL_MAGIC ORCHFS_JOURNAL_VERSION FRAME_HEADER_BYTES txid
    (FRAME_HEADER_BYTES + COMMIT_BYTES + len payload) count (orchfs_crc32c payload) checksum (zeros 20).

(** Header, with its checksum, and payload. *)
Definition body_of (txid count : Z) (payload : list Z) : list Z :=
  let header_checksum := orchfs_crc32c (frame_header_enc (frame_header_of txid count payload 0)) in
  frame_header_enc (frame_header_of txid count payload header_checksum) ++ payload.
Definition frame_body (txid : Z) (recs : list jrec) : list Z :=
  body_of txid (Z.of_nat (length recs)) (payload_image recs).

Definition frame_commit (txid : Z) (body : list Z) : orchfs_journal_commit :=
  mk_commit ORCHFS_JOURNAL_COMMIT_MAGIC txid (len body + COMMIT_BYTES) (orchfs_crc32c body) 0 (zeros 32).

(** The frame [build_frame] returns. *)
Definition frame_of (txid count : Z) (payload : list Z) : list Z :=
  body_of txid count payload ++ commit_enc (frame_commit txid (body_of txid count payload)).
Definition frame_image (txid : Z) (recs : list jrec) : list Z :=
  frame_body txid recs ++ commit_enc (frame_commit txid (frame_body txid recs)).

(** ** Validation *)

Definition fh_clear_checksum (h : orchfs_journal_frame_header) : orchfs_journal_frame_header :=
  mk_frame_header (fh_magic h) (fh_version h) (fh_header_bytes h) (fh_txid h) (fh_frame_bytes h)
    (fh_record_count h) (fh_payload_checksum h) 0 (fh_reserved h).

(** One record of [validate_frame] at [cursor]: its size, or [None] for EINVAL. *)
Definition validate_record (frame : list Z) (cursor payload_end : Z) : option Z :=
  if payload_end - cursor <? RECORD_HEADER_BYTES then None
  else
    let r := record_header_dec (slice cursor RECORD_HEADER_BYTES frame) in
    let expected := align_cacheline (RECORD_HEADER_BYTES + rh_length r) in
    if negb (rh_record_bytes r =? expected) || (payload_end - cursor <? expected) then None
    else if rh_kind r =? ORCHFS_JOURNAL_WRITE then
      if (rh_target r <? 0) || negb (rh_offset r =? 0) || (PMEM_LEN <? rh_target r) ||
         (u64 (PMEM_LEN - rh_target r) <? rh_length r) ||
         negb (rh_data_checksum r =? orchfs_crc32c (slice (cursor + RECORD_HEADER_BYTES) (rh_length r) frame))
      then None else Some expected
    else if (rh_kind r =? ORCHFS_JOURNAL_ALLOCATE) || (rh_kind r =? ORCHFS_JOURNAL_FREE) then
      if negb (rh_length r =? 0) || negb (valid_extent_block (s32 (rh_type r)) (rh_target r))
      then None else Some expected
    else None.

Definition validate_records (frame : list Z) (count payload_end : Z) : Z :=
  match forZ count (fun _ cursor =>
          match validate_record frame cursor payload_end with
          | Some expected => Next (cursor + expected)
          | None => Stop EINVAL
          end) FRAME_HEADER_BYTES with
  | Next cursor => if cursor =? payload_end then 0 else EINVAL
  | Stop error => error
  end.

Definition validate_frame (frame : list Z) (frame_bytes : Z) : Z :=
  if (frame_bytes <? FRAME_HEADER_BYTES + COMMIT_BYTES) || negb (Z.land frame_bytes 63 =? 0) then EINVAL
  else
    let header := frame_header_dec (slice 0 FRAME_HEADER_BYTES frame) in
    if negb (fh_magic header =? ORCHFS_JOURNAL_MAGIC) ||
       negb (fh_version header =? ORCHFS_JOURNAL_VERSION) ||
       negb (fh_header_bytes header =? FRAME_HEADER_BYTES) ||
       negb (fh_frame_bytes header =? frame_bytes) then EINVAL
    else if negb (fh_header_checksum header =?
                  orchfs_crc32c (frame_header_enc (fh_clear_checksum header))) then EINVAL
    else
      let commit := commit_dec (slice (frame_bytes - COMMIT_BYTES) COMMIT_BYTES frame) in
      if negb (jc_magic commit =? ORCHFS_JOURNAL_COMMIT_MAGIC) ||
         negb (jc_txid commit =? fh_txid header) || negb (jc_frame_bytes commit =? frame_bytes) ||
         negb (jc_frame_checksum commit =? orchfs_crc32c (slice 0 (frame_bytes - COMMIT_BYTES) frame))
      then EINVAL
      else
        let payload_bytes := frame_bytes - FRAME_HEADER_BYTES - COMMIT_BYTES in
        if negb (fh_payload_checksum header =?
                 orchfs_crc32c (slice FRAME_HEADER_BYTES payload_bytes frame)) then EINVAL
        else validate_records frame (fh_record_count header) (FRAME_HEADER_BYTES + payload_bytes).

(** ** Application *)

(** One record of [apply_frame]: media, bitmaps and the size of the record. *)
Definition apply_record (recovering : bool) (frame : list Z) (cursor : Z) (m : pmem) (arr : mem_bmps)
    : Z * pmem * mem_bmps * Z :=
  let r := record_header_dec (slice cursor RECORD_HEADER_BYTES frame) in
  let allocated := if rh_kind r =? ORCHFS_JOURNAL_ALLOCATE then 1 else 0 in
  let '(error, m, arr) :=
    if rh_kind r =? ORCHFS_JOURNAL_WRITE then
      (0, nvm_write m (slice (cursor + RECORD_HEADER_BYTES) (rh_length r) frame) (rh_target r), arr)
    else if recovering then orchfs_bitmap_replay_change m arr (s32 (rh_type r)) (rh_target r) allocated
    else let '(e, m') := orchfs_bitmap_persist_change m arr (s32 (rh_type r)) (rh_target r) allocated in
         (e, m', arr) in
  (error, m, arr, rh_record_bytes r).

Definition apply_frame (recovering : bool) (frame : list Z) (m : pmem) (arr : mem_bmps)
    : Z * pmem * mem_bmps :=
  let header := frame_header_dec (slice 0 FRAME_HEADER_BYTES frame) in
  match forZ (fh_record_count header) (fun _ '(m, arr, cursor) =>
          let '(error, m, arr, bytes) := apply_record recovering frame cursor m arr in
          if negb (error =? 0) then Stop (error, m, arr) else Next (m, arr, cursor + bytes))
        (m, arr, FRAME_HEADER_BYTES) with
  | Next (m, arr, _) => (0, m, arr)
  | Stop r => r
  end.

(** ** Images of records *)

Lemma align_cacheline_spec n : 0 <= n < 2 ^ 63 -> align_cacheline n = 64 * ((n + 63) / 64).
Proof.
  intros Hn. unfold align_cacheline. rewrite u64_small by lia.
  replace (u64 (Z.lnot 63)) with (Z.ldiff (Z.ones 64) (Z.ones 6)) by reflexivity.
  assert (Z.land (n + 63) (Z.ldiff (Z.ones 64) (Z.ones 6)) = Z.ldiff (n + 63) (Z.ones 6)) as ->.
  { apply Z.bits_inj'. intros j Hj. rewrite Z.land_spec, !Z.ldiff_spec.
    destruct (Z.lt_ge_cases j 64); [by rewrite (Z.ones_spec_low 64) by lia|].
    replace (Z.testbit (n + 63) j) with false; [done|]. symmetry.
    rewrite <-(Z.mod_small (n + 63) (2 ^ 64)) by lia. apply Z.mod_pow2_bits_high. lia. }
  rewrite Z.ldiff_ones_r, Z.shiftl_mul_pow2, Z.shiftr_div_pow2 by lia. change (2 ^ 6) with 64. lia.
Qed.

Lemma align_cacheline_bounds n : 0 <= n < 2 ^ 63 ->
  n <= align_cacheline n < n + 64 /\ align_cacheline n mod 64 = 0.
Proof.
  intros Hn. rewrite align_cacheline_spec by done. split.
  - pose proof (Z.div_mod (n + 63) 64). pose proof (Z.mod_pos_bound (n + 63) 64). lia.
  - rewrite Z.mul_comm. by apply Z.mod_mul.
Qed.

(** Records [build_frame] produces: those whose checks it passes. *)
Definition jrec_ok (r : jrec) : Prop :=
  match r with
  | JWrite type target data =>
      is_s32 type /\ 0 <= target /\ target + len data <= PMEM_LEN /\ len data < 2 ^ 31 /\ bytes_ok data
  | JBit kind type block =>
      (kind = ORCHFS_JOURNAL_ALLOCATE \/ kind = ORCHFS_JOURNAL_FREE) /\
      MIN_EXT_ID <= type <= MAX_EXT_ID /\ valid_extent_block type block = true
  end.

Lemma extent_capacity_small type : extent_capacity type < 2 ^ 30.
Proof.
  unfold extent_capacity.
  repeat match goal with |- context [if ?b then _ else _] => destruct b; [vm_compute; reflexivity|] end.
  done.
Qed.

Lemma jrec_data_bounds r : jrec_ok r -> 0 <= len (jrec_data r) < 2 ^ 31 /\ bytes_ok (jrec_data r).
Proof.
  pose proof (len_nonneg (jrec_data r)).
  destruct r; cbn in *; intros Hr; [destruct Hr as (_ & _ & _ & ? & ?); split; [lia|done]|].
  split; [unfold len; cbn; lia|constructor].
Qed.

Lemma jrec_bytes_bounds r : jrec_ok r ->
  32 + len (jrec_data r) <= jrec_bytes r < 96 + len (jrec_data r) /\ jrec_bytes r mod 64 = 0.
Proof.
  intros Hr. pose proof (jrec_data_bounds r Hr) as [? _].
  unfold jrec_bytes, RECORD_HEADER_BYTES.
  pose proof (align_cacheline_bounds (32 + len (jrec_data r)) ltac:(lia)). lia.
Qed.

Lemma jrec_bytes_pos r : jrec_ok r -> 64 <= jrec_bytes r.
Proof.
  intros Hr. pose proof (jrec_bytes_bounds r Hr) as [H1 H2]. pose proof (len_nonneg (jrec_data r)).
  pose proof (Z.div_mod (jrec_bytes r) 64). lia.
Qed.

Lemma jrec_header_wf r : jrec_ok r -> record_header_wf (jrec_header r).
Proof.
  intros Hr. unfold record_header_wf.
  destruct r as [type target data|kind type block]; cbn [jrec_header rh_kind rh_type rh_target rh_offset
    rh_length rh_record_bytes rh_data_checksum].
  - destruct Hr as (? & ? & ? & ? & ?). pose proof (len_nonneg data).
    assert (PMEM_LEN = 126701535232) by reflexivity.
    split_and!; try apply u32_range; unfold is_u32, is_s64, is_s32, ORCHFS_JOURNAL_WRITE; try lia.
    apply orchfs_crc32c_range.
  - destruct Hr as (Hk & ? & Hv). pose proof (extent_capacity_small type).
    unfold valid_extent_block in Hv. destruct (Z.ltb_spec block 0); [done|]. apply Z.ltb_lt in Hv.
    split_and!; try apply u32_range; unfold is_u32, is_s64, is_s32; try lia.
    all: destruct Hk as [-> | ->]; unfold ORCHFS_JOURNAL_ALLOCATE, ORCHFS_JOURNAL_FREE; lia.
Qed.

Lemma record_header_enc_len h : len (record_header_enc h) = 32.
Proof. unfold record_header_enc. by autorewrite with orch. Qed.

Lemma jrec_image_len r : jrec_ok r -> len (jrec_image r) = jrec_bytes r.
Proof.
  intros Hr. pose proof (jrec_bytes_bounds r Hr) as [? _]. unfold jrec_image, RECORD_HEADER_BYTES.
  rewrite !len_app, record_header_enc_len, len_zeros by lia. lia.
Qed.

Lemma jrec_image_ok r : jrec_ok r -> bytes_ok (jrec_image r).
Proof.
  intros Hr. unfold jrec_image. apply bytes_ok_app; split; [|apply bytes_ok_app; split].
  - by apply record_header_image_ok, jrec_header_wf.
  - by apply jrec_data_bounds.
  - auto with orch.
Qed.

Lemma slice_prefix_len l1 l2 n : n = len l1 -> slice 0 n (l1 ++ l2) = l1.
Proof.
  intros ->. pose proof (len_nonneg l1). rewrite slice_app_l by lia. by apply slice_all.
Qed.

(** The header and the data of a record found at [cursor] of a buffer. *)
Lemma jrec_at_header frame cursor r : jrec_ok r -> 0 <= cursor ->
  slice cursor (jrec_bytes r) frame = jrec_image r ->
  record_header_dec (slice cursor RECORD_HEADER_BYTES frame) = jrec_header r /\
  slice (cursor + RECORD_HEADER_BYTES) (len (jrec_data r)) frame = jrec_data r.
Proof.
  intros Hr Hc Hs. pose proof (jrec_bytes_bounds r Hr) as [Hb _]. pose proof (len_nonneg (jrec_data r)).
  unfold RECORD_HEADER_BYTES.
  assert (slice cursor 32 frame = record_header_enc (jrec_header r)) as ->.
  { rewrite <-(Z.add_0_r cursor), <-(slice_slice cursor (jrec_bytes r) 0 32) by lia. rewrite Hs.
    apply slice_prefix_len. by rewrite record_header_enc_len. }
  split; [by apply record_header_roundtrip, jrec_header_wf|].
  rewrite <-(slice_slice cursor (jrec_bytes r) 32) by lia. rewrite Hs. unfold jrec_image.
  rewrite slice_app_r by (rewrite record_header_enc_len; lia). rewrite record_header_enc_len.
  by apply slice_prefix_len.
Qed.

(** ** Records applied one after the other *)

Definition apply_jrec (recovering : bool) (r : jrec) (m : pmem) (arr : mem_bmps) : Z * pmem * mem_bmps :=
  match r with
  | JWrite _ target data => (0, nvm_write m data target, arr)
  | JBit kind type block =>
      let allocated := if kind =? ORCHFS_JOURNAL_ALLOCATE then 1 else 0 in
      if recovering then orchfs_bitmap_replay_change m arr type block allocated
      else let '(e, m') := orchfs_bitmap_persist_change m arr type block allocated in (e, m', arr)
  end.

Fixpoint apply_jrecs (recovering : bool) (recs : list jrec) (m : pmem) (arr : mem_bmps)
    : Z * pmem * mem_bmps :=
  match recs with
  | [] => (0, m, arr)
  | r :: recs' =>
      let '(e, m', arr') := apply_jrec recovering r m arr in
      if negb (e =? 0) then (e, m', arr') else apply_jrecs recovering recs' m' arr'
  end.

Lemma s32_u32 z : is_s32 z -> s32 (u32 z) = z.
Proof.
  unfold is_s32, s32, u32. intros. rewrite Z.add_mod_idemp_l by lia. rewrite Z.mod_small; lia.
Qed.
Lemma ext_is_s32 t : MIN_EXT_ID <= t <= MAX_EXT_ID -> is_s32 t.
Proof. unfold MIN_EXT_ID, MAX_EXT_ID, is_s32. lia. Qed.

Lemma jrec_record_bytes r : jrec_ok r -> rh_record_bytes (jrec_header r) = jrec_bytes r.
Proof.
  intros Hr. pose proof (jrec_bytes_bounds r Hr) as [? _]. pose proof (jrec_data_bounds r Hr) as [? _].
  destruct r; cbn [jrec_header rh_record_bytes]; apply u32_small; lia.
Qed.
Lemma jrec_length r : jrec_ok r -> rh_length (jrec_header r) = len (jrec_data r).
Proof.
  intros Hr. pose proof (jrec_data_bounds r Hr) as [? _].
  destruct r; cbn [jrec_header rh_length jrec_data] in *; [|done]. apply u32_small; lia.
Qed.

Section record_at.
Context (frame : list Z) (cursor : Z) (r : jrec).
Context (Hr : jrec_ok r) (Hc : 0 <= cursor) (Hs : slice cursor (jrec_bytes r) frame = jrec_image r).

Lemma validate_record_image payload_end :
  cursor + jrec_bytes r <= payload_end -> validate_record frame cursor payload_end = Some (jrec_bytes r).
Proof.
  intros He. destruct (jrec_at_header frame cursor r Hr Hc Hs) as [Hh Hd].
  pose proof (jrec_bytes_bounds r Hr) as [? _]. pose proof (jrec_data_bounds r Hr) as [Hl _].
  unfold validate_record. unfold RECORD_HEADER_BYTES at 1.
  replace (payload_end - cursor <? 32) with false by lia.
  rewrite Hh, jrec_record_bytes, jrec_length by done. fold (jrec_bytes r).
  rewrite Z.eqb_refl. replace (payload_end - cursor <? jrec_bytes r) with false by lia. cbn [negb orb].
  rewrite Hd. destruct r as [type target data|kind type block].
  - destruct Hr as (_ & H1 & H2 & _). assert (PMEM_LEN = 126701535232) by reflexivity.
    cbn [jrec_header jrec_data rh_kind rh_target rh_offset rh_data_checksum] in *.
    rewrite Z.eqb_refl. rewrite u64_small by lia.
    replace (target <? 0) with false by lia. replace (PMEM_LEN <? target) with false by lia.
    replace (PMEM_LEN - target <? len data) with false by lia. rewrite !Z.eqb_refl. reflexivity.
  - destruct Hr as (Hk & Ht & Hv). cbn [jrec_header jrec_data rh_kind rh_type rh_target] in *.
    rewrite s32_u32 by by apply ext_is_s32. rewrite Hv.
    destruct Hk as [-> | ->]; reflexivity.
Qed.

Lemma apply_record_image recovering m arr :
  apply_record recovering frame cursor m arr = (apply_jrec recovering r m arr, jrec_bytes r).
Proof.
  destruct (jrec_at_header frame cursor r Hr Hc Hs) as [Hh Hd].
  unfold apply_record. rewrite Hh, jrec_record_bytes, jrec_length, Hd by done.
  destruct r as [type target data|kind type block].
  - cbn [jrec_header rh_kind rh_target apply_jrec]. by rewrite Z.eqb_refl.
  - destruct Hr as (Hk & Ht & Hv). cbn [jrec_header rh_kind rh_type rh_target apply_jrec].
    rewrite s32_u32 by by apply ext_is_s32.
    destruct Hk as [-> | ->]; destruct recovering; cbn [Z.eqb Pos.eqb ORCHFS_JOURNAL_ALLOCATE
      ORCHFS_JOURNAL_FREE ORCHFS_JOURNAL_WRITE].
    all: first [by destruct (orchfs_bitmap_replay_change _ _ _ _ _) as [[e ?] ?]
               |by destruct (orchfs_bitmap_persist_change _ _ _ _ _)].
Qed.
End record_at.

(** ** Payloads *)

Lemma payload_image_len recs : Forall jrec_ok recs ->
  len (payload_image recs) mod 64 = 0 /\ 64 * Z.of_nat (length recs) <= len (payload_image recs).
Proof.
  induction 1 as [|r recs Hr _ [IH1 IH2]]; [done|]. cbn [payload_image length].
  rewrite len_app, jrec_image_len by done. pose proof (jrec_bytes_pos r Hr).
  destruct (jrec_bytes_bounds r Hr) as [_ Hm]. split; [|lia].
  rewrite Z.add_mod, Hm, IH1 by lia. done.
Qed.

Lemma payload_image_ok recs : Forall jrec_ok recs -> bytes_ok (payload_image recs).
Proof.
  induction 1; cbn [payload_image]; [constructor|].
  apply bytes_ok_app; split; [by apply jrec_image_ok|done].
Qed.

(** Splitting the first record off a payload found at [cursor]. *)
Lemma payload_at_cons frame cursor r recs : jrec_ok r -> Forall jrec_ok recs -> 0 <= cursor ->
  slice cursor (len (payload_image (r :: recs))) frame = payload_image (r :: recs) ->
  slice cursor (jrec_bytes r) frame = jrec_image r /\
  slice (cursor + jrec_bytes r) (len (payload_image recs)) frame = payload_image recs.
Proof.
  intros Hr Hrs Hc Hs. cbn [payload_image] in Hs. pose proof (jrec_bytes_pos r Hr).
  pose proof (len_nonneg (payload_image recs)).
  rewrite len_app, (jrec_image_len r Hr) in Hs. split.
  - rewrite <-(Z.add_0_r cursor), <-(slice_slice cursor (jrec_bytes r + len (payload_image recs)) 0) by lia.
    rewrite Hs. apply slice_prefix_len. by rewrite jrec_image_len.
  - rewrite <-(slice_slice cursor (jrec_bytes r + len (payload_image recs)) (jrec_bytes r)) by lia.
    rewrite Hs. rewrite slice_app_r by (rewrite jrec_image_len; lia || done).
    rewrite jrec_image_len by done. rewrite Z.sub_diag. by apply slice_all.
Qed.

Lemma validate_loop frame payload_end n recs cursor : Forall jrec_ok recs -> 0 <= cursor ->
  slice cursor (len (payload_image recs)) frame = payload_image recs ->
  cursor + len (payload_image recs) = payload_end ->
  match loop_nat n (fun cursor =>
          match validate_record frame cursor payload_end with
          | Some expected => Next (cursor + expected)
          | None => Stop EINVAL
          end) cursor with
  | Next c => if c =? payload_end then 0 else EINVAL
  | Stop error => error
  end = if Nat.eqb n (length recs) then 0 else EINVAL.
Proof.
  intros Hok. revert n cursor. induction Hok as [|r recs Hr Hrs IH]; intros n cursor Hc Hs He.
  - unfold len in He. cbn in He. destruct n as [|n]; cbn [loop_nat length Nat.eqb].
    + by replace (cursor =? payload_end) with true by lia.
    + unfold validate_record, RECORD_HEADER_BYTES. by replace (payload_end - cursor <? 32) with true by lia.
  - destruct (payload_at_cons _ _ _ _ Hr Hrs Hc Hs) as [Hs1 Hs2]. pose proof (jrec_bytes_pos r Hr).
    cbn [payload_image] in He. rewrite len_app, (jrec_image_len r Hr) in He.
    pose proof (len_nonneg (payload_image recs)).
    destruct n as [|n]; cbn [loop_nat length Nat.eqb].
    + by replace (cursor =? payload_end) with false by lia.
    + rewrite (validate_record_image frame cursor r Hr Hc Hs1) by lia. cbn [ctl_bind].
      apply IH; [lia|done|lia].
Qed.

Lemma apply_loop recovering frame recs cursor m arr : Forall jrec_ok recs -> 0 <= cursor ->
  slice cursor (len (payload_image recs)) frame = payload_image recs ->
  match loop_nat (length recs) (fun '(m, arr, cursor) =>
          let '(error, m, arr, bytes) := apply_record recovering frame cursor m arr in
          if negb (error =? 0) then Stop (error, m, arr) else Next (m, arr, cursor + bytes)) (m, arr, cursor) with
  | Next (m, arr, _) => (0, m, arr)
  | Stop r => r
  end = apply_jrecs recovering recs m arr.
Proof.
  intros Hok. revert cursor m arr. induction Hok as [|r recs Hr Hrs IH]; intros cursor m arr Hc Hs; [done|].
  destruct (payload_at_cons _ _ _ _ Hr Hrs Hc Hs) as [Hs1 Hs2]. pose proof (jrec_bytes_pos r Hr).
  cbn [loop_nat length apply_jrecs]. rewrite (apply_record_image frame cursor r Hr Hc Hs1).
  destruct (apply_jrec recovering r m arr) as [[e m'] arr'].
  destruct (negb (e =? 0)); cbn [ctl_bind]; [done|]. apply IH; [lia|done].
Qed.

(** ** Whole frames *)

(** Records that [build_frame] accepts: each valid, and together within the log. *)
Definition frame_fits (recs : list jrec) : Prop :=
  Forall jrec_ok recs /\ FRAME_HEADER_BYTES + COMMIT_BYTES + len (payload_image recs) <= ORCHFS_JOURNAL_BYTES.

Definition frame_size (recs : list jrec) : Z := FRAME_HEADER_BYTES + COMMIT_BYTES + len (payload_image recs).

Lemma frame_size_bounds recs : frame_fits recs ->
  128 <= frame_size recs <= 67108864 /\ frame_size recs mod 64 = 0 /\ Z.land (frame_size recs) 63 = 0.
Proof.
  intros [Hok Hfit]. unfold frame_size, FRAME_HEADER_BYTES, COMMIT_BYTES in *.
  change ORCHFS_JOURNAL_BYTES with 67108864 in Hfit. pose proof (len_nonneg (payload_image recs)).
  destruct (payload_image_len recs Hok) as [Hm _].
  assert ((64 + 64 + len (payload_image recs)) mod 64 = 0) as H0.
  { rewrite Z.add_mod, Hm by lia. done. }
  split_and!; [lia|lia|done|]. by rewrite (Z.land_ones _ 6).
Qed.

Lemma validate_records_payload frame count recs : Forall jrec_ok recs ->
  slice FRAME_HEADER_BYTES (len (payload_image recs)) frame = payload_image recs ->
  validate_records frame count (FRAME_HEADER_BYTES + len (payload_image recs)) =
    if Nat.eqb (Z.to_nat count) (length recs) then 0 else EINVAL.
Proof.
  intros Hok Hs. unfold validate_records. rewrite forZ_nat.
  by apply validate_loop; [done|unfold FRAME_HEADER_BYTES; lia|done|].
Qed.

Lemma count_small recs : frame_fits recs -> 0 <= Z.of_nat (length recs) < 2 ^ 32.
Proof.
  intros Hf. pose proof (frame_size_bounds recs Hf) as [Hb _].
  destruct (payload_image_len recs (proj1 Hf)) as [_ Hl].
  unfold frame_size, FRAME_HEADER_BYTES, COMMIT_BYTES in *. lia.
Qed.

Lemma frame_header_of_wf txid recs checksum : is_u64 txid -> frame_fits recs -> is_u32 checksum ->
  frame_header_wf (frame_header_of txid (Z.of_nat (length recs)) (payload_image recs) checksum).
Proof.
  intros Ht Hf Hc. pose proof (count_small recs Hf). pose proof (frame_size_bounds recs Hf) as [? _].
  unfold frame_header_wf, frame_header_of, is_u64, is_u32, frame_size, FRAME_HEADER_BYTES, COMMIT_BYTES in *.
  cbn [fh_magic fh_version fh_header_bytes fh_txid fh_frame_bytes fh_record_count fh_payload_checksum
    fh_header_checksum fh_reserved].
  pose proof (orchfs_crc32c_range (payload_image recs)).
  unfold ORCHFS_JOURNAL_MAGIC, ORCHFS_JOURNAL_VERSION.
  split_and!; try lia. split; [by rewrite len_zeros|auto with orch].
Qed.

Lemma frame_body_header_wf txid recs : is_u64 txid -> frame_fits recs ->
  frame_header_wf (frame_header_of txid (Z.of_nat (length recs)) (payload_image recs)
    (orchfs_crc32c (frame_header_enc (frame_header_of txid (Z.of_nat (length recs)) (payload_image recs) 0)))).
Proof. intros. apply frame_header_of_wf; [done|done|apply orchfs_crc32c_range]. Qed.

Lemma frame_body_len txid recs : is_u64 txid -> frame_fits recs ->
  len (frame_body txid recs) = frame_size recs - COMMIT_BYTES.
Proof.
  intros Ht Hf. unfold frame_body, body_of. rewrite len_app, frame_header_image_len by by apply frame_body_header_wf.
  unfold frame_size, FRAME_HEADER_BYTES, COMMIT_BYTES. lia.
Qed.

Lemma frame_body_ok txid recs : is_u64 txid -> frame_fits recs -> bytes_ok (frame_body txid recs).
Proof.
  intros Ht Hf. unfold frame_body, body_of. apply bytes_ok_app. split.
  - by apply frame_header_image_ok, frame_body_header_wf.
  - apply payload_image_ok, Hf.
Qed.

Lemma frame_commit_wf txid recs : is_u64 txid -> frame_fits recs ->
  commit_wf (frame_commit txid (frame_body txid recs)).
Proof.
  intros Ht Hf. pose proof (frame_size_bounds recs Hf) as [? _]. unfold commit_wf, frame_commit.
  cbn [jc_magic jc_txid jc_frame_bytes jc_frame_checksum jc_reserved32 jc_reserved].
  rewrite (frame_body_len txid recs Ht Hf). pose proof (orchfs_crc32c_range (frame_body txid recs)).
  unfold is_u64, is_u32, COMMIT_BYTES, ORCHFS_JOURNAL_COMMIT_MAGIC in *.
  split_and!; try lia. split; [by rewrite len_zeros|auto with orch].
Qed.

Lemma frame_commit_len txid recs : is_u64 txid -> frame_fits recs ->
  len (commit_enc (frame_commit txid (frame_body txid recs))) = COMMIT_BYTES.
Proof. intros. rewrite commit_image_len; [done|by apply frame_commit_wf]. Qed.

Lemma frame_image_len txid recs : is_u64 txid -> frame_fits recs -> len (frame_image txid recs) = frame_size recs.
Proof.
  intros Ht Hf. unfold frame_image. rewrite len_app, frame_body_len, frame_commit_len by done. lia.
Qed.

Lemma frame_image_ok txid recs : is_u64 txid -> frame_fits recs -> bytes_ok (frame_image txid recs).
Proof.
  intros Ht Hf. unfold frame_image. apply bytes_ok_app. split; [by apply frame_body_ok|].
  by apply commit_image_ok, frame_commit_wf.
Qed.

(** The payload of a frame whose body is in place. *)
Lemma payload_of_body txid recs : is_u64 txid -> frame_fits recs ->
  slice FRAME_HEADER_BYTES (len (payload_image recs)) (frame_body txid recs) = payload_image recs.
Proof.
  intros Ht Hf. unfold frame_body, body_of.
  pose proof (frame_header_image_len _ (frame_body_header_wf txid recs Ht Hf)) as Hl.
  rewrite slice_app_r by (rewrite Hl; unfold FRAME_HEADER_BYTES; lia). rewrite Hl.
  by apply slice_all.
Qed.

Lemma header_of_body txid recs : is_u64 txid -> frame_fits recs ->
  frame_header_dec (slice 0 FRAME_HEADER_BYTES (frame_body txid recs)) =
  frame_header_of txid (Z.of_nat (length recs)) (payload_image recs)
    (orchfs_crc32c (frame_header_enc (frame_header_of txid (Z.of_nat (length recs)) (payload_image recs) 0))).
Proof.
  intros Ht Hf. unfold frame_body, body_of.
  pose proof (frame_body_header_wf txid recs Ht Hf) as Hwf.
  rewrite slice_prefix_len by by rewrite frame_header_image_len. by apply frame_header_roundtrip.
Qed.

(** Validation of a frame whose body is complete, in terms of its commit record. *)
Definition commit_matches (txid : Z) (recs : list jrec) (c : orchfs_journal_commit) : bool :=
  (jc_magic c =? ORCHFS_JOURNAL_COMMIT_MAGIC) && (jc_txid c =? txid) &&
  (jc_frame_bytes c =? frame_size recs) && (jc_frame_checksum c =? orchfs_crc32c (frame_body txid recs)).

Lemma validate_body txid recs tail : is_u64 txid -> frame_fits recs -> len tail = COMMIT_BYTES ->
  validate_frame (frame_body txid recs ++ tail) (frame_size recs) =
  if commit_matches txid recs (commit_dec tail) then 0 else EINVAL.
Proof.
  intros Ht Hf Hl. pose proof (frame_size_bounds recs Hf) as (Hb & _ & Hm).
  pose proof (frame_body_len txid recs Ht Hf) as Hbl. pose proof (len_nonneg (payload_image recs)).
  unfold validate_frame. rewrite Hm. unfold FRAME_HEADER_BYTES at 1, COMMIT_BYTES at 1.
  replace (frame_size recs <? 64 + 64) with false by lia. cbn [Z.eqb negb orb].
  assert (frame_size recs - FRAME_HEADER_BYTES - COMMIT_BYTES = len (payload_image recs)) as Hp
    by (unfold frame_size; lia).
  pose proof (payload_of_body txid recs Ht Hf) as Hpay. pose proof (header_of_body txid recs Ht Hf) as Hhdr.
  unfold FRAME_HEADER_BYTES, COMMIT_BYTES in *.
  rewrite (slice_app_l 0 64) by lia. rewrite Hhdr.
  cbn [frame_header_of fh_magic fh_version fh_header_bytes fh_txid fh_frame_bytes fh_record_count
    fh_payload_checksum fh_header_checksum fh_reserved fh_clear_checksum].
  fold (frame_size recs). rewrite !Z.eqb_refl. cbn [negb orb].
  rewrite (slice_app_r (frame_size recs - 64)) by lia. rewrite Hbl, Z.sub_diag, (slice_all 64 tail) by lia.
  rewrite slice_prefix_len by lia. rewrite Hp.
  rewrite (slice_app_l 64) by lia. rewrite Hpay.
  unfold commit_matches. rewrite Z.eqb_refl. cbn [negb].
  change 64 with FRAME_HEADER_BYTES.
  rewrite validate_records_payload; [|apply Hf|].
  - rewrite Nat2Z.id, Nat.eqb_refl. by destruct (_ =? _), (_ =? _), (_ =? _), (_ =? _).
  - rewrite slice_app_l by (unfold FRAME_HEADER_BYTES; lia). by apply payload_of_body.
Qed.

Lemma frame_image_validates txid recs : is_u64 txid -> frame_fits recs ->
  validate_frame (frame_image txid recs) (len (frame_image txid recs)) = 0.
Proof.
  intros Ht Hf. rewrite frame_image_len by done. unfold frame_image.
  rewrite validate_body by (try apply frame_commit_len; done).
  rewrite commit_roundtrip by by apply frame_commit_wf. unfold commit_matches, frame_commit.
  cbn [jc_magic jc_txid jc_frame_bytes jc_frame_checksum]. rewrite frame_body_len by done.
  rewrite Z.sub_add, !Z.eqb_refl. done.
Qed.

(** A frame that validates and carries the payload of [recs] applies as [recs],
    whatever its header says. *)
Lemma apply_frame_payload recovering frame recs m arr : frame_fits recs ->
  slice FRAME_HEADER_BYTES (len (payload_image recs)) frame = payload_image recs ->
  validate_frame frame (frame_size recs) = 0 ->
  apply_frame recovering frame m arr = apply_jrecs recovering recs m arr.
Proof.
  intros Hf Hs Hv. unfold validate_frame in Hv.
  assert (frame_size recs - FRAME_HEADER_BYTES - COMMIT_BYTES = len (payload_image recs)) as Hp
    by (unfold frame_size; lia).
  rewrite Hp in Hv.
  repeat match type of Hv with (if ?b then EINVAL else _) = 0 => destruct b; [done|] end.
  rewrite (validate_records_payload _ _ _ (proj1 Hf) Hs) in Hv.
  destruct (Nat.eqb_spec (Z.to_nat (fh_record_count (frame_header_dec (slice 0 FRAME_HEADER_BYTES frame))))
    (length recs)) as [He|]; [|done].
  unfold apply_frame. rewrite forZ_nat, He.
  apply apply_loop; [apply Hf|unfold FRAME_HEADER_BYTES; lia|done].
Qed.

Lemma apply_frame_image recovering txid recs m arr : is_u64 txid -> frame_fits recs ->
  apply_frame recovering (frame_image txid recs) m arr = apply_jrecs recovering recs m arr.
Proof.
  intros Ht Hf. pose proof (frame_body_len txid recs Ht Hf). pose proof (frame_size_bounds recs Hf).
  pose proof (len_nonneg (payload_image recs)). apply apply_frame_payload; [done| |].
  - unfold frame_image. rewrite slice_app_l; [by apply payload_of_body|..];
      unfold frame_size, FRAME_HEADER_BYTES, COMMIT_BYTES in *; lia.
  - rewrite <-(frame_image_len txid recs Ht Hf). by apply frame_image_validates.
Qed.

(** ** The effect of records on the media

    What a frame does to the media depends on the geometry of the bitmaps only,
    not on their in-memory bits, and can be repeated. *)

(** Location and size of each bitmap agree with the areas it describes. *)
Definition geom_ok (arr : mem_bmps) : Prop :=
  forall t, START_BMP_ID <= t <= END_BMP_ID -> bmp_capacity (arr t) * 8 = extent_capacity t.
Definition geom_eq (arr arr' : mem_bmps) : Prop :=
  forall t, dev_start_addr (arr' t) = dev_start_addr (arr t) /\ bmp_capacity (arr' t) = bmp_capacity (arr t).

#[export] Instance geom_eq_refl : Reflexive geom_eq.
Proof. by intros arr t. Qed.
#[export] Instance geom_eq_trans : Transitive geom_eq.
Proof. intros a b c H1 H2 t. specialize (H1 t). specialize (H2 t). split; [etransitivity|etransitivity]; try apply H2; apply H1. Qed.
Lemma geom_eq_ok arr arr' : geom_eq arr arr' -> geom_ok arr -> geom_ok arr'.
Proof. intros H1 H2 t Ht. destruct (H1 t) as [_ ->]. by apply H2. Qed.

Definition jbit_flag (kind : Z) : Z := if kind =? ORCHFS_JOURNAL_ALLOCATE then 1 else 0.

Definition media_rec (arr : mem_bmps) (r : jrec) (m : pmem) : pmem :=
  match r with
  | JWrite _ target data => nvm_write m data target
  | JBit kind type block => snd (orchfs_bitmap_persist_change m arr type block (jbit_flag kind))
  end.
Definition media_recs (arr : mem_bmps) (recs : list jrec) (m : pmem) : pmem :=
  fold_left (fun m r => media_rec arr r m) recs m.

(** The bits of the media a record determines. *)
Definition touches (arr : mem_bmps) (r : jrec) (a j : Z) : Prop :=
  match r with
  | JWrite _ target data => target <= a < target + len data
  | JBit _ type block => a = dev_start_addr (arr type) + block / 8 /\ j = 7 - block mod 8
  end.
#[export] Instance touches_dec arr r a j : Decision (touches arr r a j).
Proof. destruct r; cbn; apply _. Defined.
Definition touched (arr : mem_bmps) (recs : list jrec) (a j : Z) : Prop :=
  Exists (fun r => touches arr r a j) recs.

(** Media that agree on every bit outside [P]. *)
Definition agree_off (P : Z -> Z -> Prop) (m m' : pmem) : Prop :=
  forall a j, 0 <= j < 8 -> ~ P a j -> Z.testbit (m a) j = Z.testbit (m' a) j.

Lemma byte_bits_eq x y : byte_ok x -> byte_ok y ->
  (forall j, 0 <= j < 8 -> Z.testbit x j = Z.testbit y j) -> x = y.
Proof.
  unfold byte_ok. intros Hx Hy H. apply Z.bits_inj'. intros j Hj.
  destruct (Z.lt_ge_cases j 8); [by apply H|].
  rewrite <-(Z.mod_small x (2 ^ 8)), <-(Z.mod_small y (2 ^ 8)) by lia.
  by rewrite !Z.mod_pow2_bits_high by lia.
Qed.

Lemma agree_off_none m m' : pmem_ok m -> pmem_ok m' -> agree_off (fun _ _ => False) m m' -> m = m'.
Proof.
  intros Hm Hm' H. apply functional_extensionality. intros a. apply byte_bits_eq; [apply Hm|apply Hm'|].
  intros j Hj. apply H; [done|tauto].
Qed.

Lemma jbit_change_ok arr kind type block : geom_ok arr -> jrec_ok (JBit kind type block) ->
  change_ok arr type block (jbit_flag kind) = true.
Proof.
  intros Hg (Hk & Ht & Hv). specialize (Hg type Ht). unfold change_ok.
  pose proof (extent_capacity_small type). unfold valid_extent_block in Hv.
  destruct (Z.ltb_spec block 0); [done|]. apply Z.ltb_lt in Hv.
  rewrite Hg, u64_small by lia. unfold START_BMP_ID, END_BMP_ID, MIN_EXT_ID, MAX_EXT_ID in *.
  destruct Hk as [-> | ->]; cbn; lia.
Qed.

(** The bit a [JBit] record sets or clears, seen on the media. *)
Lemma media_jbit arr kind type block m : geom_ok arr -> jrec_ok (JBit kind type block) -> pmem_ok m ->
  let m' := media_rec arr (JBit kind type block) m in
  pmem_ok m' /\ forall a j, 0 <= j < 8 -> Z.testbit (m' a) j =
    if bool_decide (touches arr (JBit kind type block) a j) then jbit_flag kind =? 1
    else Z.testbit (m a) j.
Proof.
  intros Hg Hr Hm m'. unfold m', media_rec. rewrite persist_change_spec by done.
  rewrite jbit_change_ok by done. cbn [snd]. unfold changed_byte.
  set (d := dev_start_addr (arr type)).
  assert (forall o, byte_ok (m (d + o))) as Hmo by (intros; apply Hm). split.
  { intros a. destruct (jbit_flag kind =? 1).
    - by apply (fetch_or_ok (fun o => m (d + o))); [|apply bit_mask_ok].
    - by apply (fetch_andn_ok (fun o => m (d + o))). }
  intros a j Hj. cbn [touches]. fold d. pose proof (Z.mod_pos_bound block 8 ltac:(lia)).
  unfold fetch_or, fetch_andn. destruct (jbit_flag kind =? 1); cbn [snd]; unfold upd;
    destruct (Z.eqb_spec (a - d) (block / 8)) as [He|He].
  - rewrite Z.lor_spec, bit_mask_pow, Z.pow2_bits_eqb by lia.
    replace (m (d + block / 8)) with (m a) by (f_equal; lia).
    case_bool_decide; [replace (_ =? j) with true by lia; apply orb_true_r|].
    replace (_ =? j) with false by lia. apply orb_false_r.
  - rewrite bool_decide_false by lia. do 2 f_equal. lia.
  - rewrite testbit_clear by done. replace (m (d + block / 8)) with (m a) by (f_equal; lia).
    case_bool_decide; [replace (j =? _) with true by lia; apply andb_false_r|].
    replace (j =? _) with false by lia. apply andb_true_r.
  - rewrite bool_decide_false by lia. do 2 f_equal. lia.
Qed.

Lemma media_rec_ok arr r m : geom_ok arr -> jrec_ok r -> pmem_ok m -> pmem_ok (media_rec arr r m).
Proof.
  intros Hg Hr Hm. destruct r as [type target data|kind type block].
  - cbn. apply nvm_write_ok; [done|apply Hr].
  - by apply media_jbit.
Qed.

(** Applying one record to media that differ in some bits. *)
Lemma media_rec_agree arr r P m m' : geom_ok arr -> jrec_ok r -> pmem_ok m -> pmem_ok m' ->
  agree_off P m m' ->
  agree_off (fun a j => P a j /\ ~ touches arr r a j) (media_rec arr r m) (media_rec arr r m').
Proof.
  intros Hg Hr Hm Hm' H a j Hj HP. destruct r as [type target data|kind type block].
  - cbn in *. unfold nvm_write. destruct (in_rangeP a target (len data)); [done|].
    apply H; [done|]. intros HPa. apply HP. done.
  - destruct (media_jbit arr kind type block m Hg Hr Hm) as [_ H1].
    destruct (media_jbit arr kind type block m' Hg Hr Hm') as [_ H2].
    rewrite H1, H2 by done. case_bool_decide; [done|]. apply H; [done|]. tauto.
Qed.

(** A record leaves the bits it does not determine. *)
Lemma media_rec_frame arr r m : geom_ok arr -> jrec_ok r -> pmem_ok m ->
  agree_off (touches arr r) m (media_rec arr r m).
Proof.
  intros Hg Hr Hm a j Hj Hn. destruct r as [type target data|kind type block].
  - cbn in *. by rewrite nvm_write_out.
  - destruct (media_jbit arr kind type block m Hg Hr Hm) as [_ ->]; [|done].
    by rewrite bool_decide_false.
Qed.

Lemma media_recs_ok arr recs m : geom_ok arr -> Forall jrec_ok recs -> pmem_ok m ->
  pmem_ok (media_recs arr recs m).
Proof.
  intros Hg Hok. revert m. induction Hok; intros m Hm; cbn; [done|]. by apply IHHok, media_rec_ok.
Qed.

Lemma media_recs_agree arr recs P m m' : geom_ok arr -> Forall jrec_ok recs -> pmem_ok m -> pmem_ok m' ->
  agree_off P m m' ->
  agree_off (fun a j => P a j /\ ~ touched arr recs a j) (media_recs arr recs m) (media_recs arr recs m').
Proof.
  intros Hg Hok. revert P m m'. induction Hok as [|r recs Hr Hrs IH]; intros P m m' Hm Hm' H.
  - cbn. intros a j Hj Hn. apply H; [done|]. intros HP. apply Hn. split; [done|]. by inversion 1.
  - cbn. specialize (IH _ (media_rec arr r m) (media_rec arr r m')
      ltac:(by apply media_rec_ok) ltac:(by apply media_rec_ok)
      (media_rec_agree arr r P m m' Hg Hr Hm Hm' H)).
    intros a j Hj Hn. apply IH; [done|]. intros [[HP Hnr] Hnt]. apply Hn. split; [done|].
    unfold touched. rewrite Exists_cons. tauto.
Qed.

(** Replaying the records on any media that agrees off the touched bits gives
    the same media: an interrupted application can be repeated. *)
Lemma media_recs_converge arr recs m m' : geom_ok arr -> Forall jrec_ok recs -> pmem_ok m -> pmem_ok m' ->
  agree_off (touched arr recs) m m' -> media_recs arr recs m = media_recs arr recs m'.
Proof.
  intros Hg Hok Hm Hm' H. apply agree_off_none; try by apply media_recs_ok.
  intros a j Hj _. apply (media_recs_agree arr recs _ m m' Hg Hok Hm Hm' H); [done|]. tauto.
Qed.

Lemma media_recs_frame arr recs m : geom_ok arr -> Forall jrec_ok recs -> pmem_ok m ->
  agree_off (touched arr recs) m (media_recs arr recs m).
Proof.
  intros Hg Hok. revert m. induction Hok as [|r recs Hr Hrs IH]; intros m Hm a j Hj Hn; cbn; [done|].
  unfold touched in Hn. rewrite Exists_cons in Hn.
  rewrite (media_rec_frame arr r m Hg Hr Hm) by tauto. apply IH; [by apply media_rec_ok|done|tauto].
Qed.

Lemma geom_eq_media arr arr' r m : geom_eq arr arr' -> media_rec arr' r m = media_rec arr r m.
Proof.
  intros H. destruct r as [|kind type block]; [done|]. cbn.
  unfold orchfs_bitmap_persist_change, bitmap_change_location. by destruct (H type) as [-> ->].
Qed.

Lemma geom_eq_upd arr t f : geom_eq arr (upd arr t (set_bytes f (arr t))).
Proof. intros u. unfold upd. by destruct (Z.eqb_spec u t) as [->|]. Qed.

Lemma apply_jrec_media recovering r m arr : geom_ok arr -> jrec_ok r -> pmem_ok m ->
  exists arr', apply_jrec recovering r m arr = (0, media_rec arr r m, arr') /\ geom_eq arr arr' /\
    (recovering = false -> arr' = arr).
Proof.
  intros Hg Hr Hm. destruct r as [type target data|kind type block]; [by exists arr|].
  pose proof (jbit_change_ok arr kind type block Hg Hr) as Hok. cbn [apply_jrec media_rec].
  fold (jbit_flag kind). destruct recovering.
  - unfold orchfs_bitmap_replay_change.
    assert (bitmap_change_location arr type block = inr (block / 8, bit_mask block)) as ->.
    { unfold change_ok in Hok. unfold bitmap_change_location.
      replace ((type <? START_BMP_ID) || (END_BMP_ID <? type)) with false by lia.
      by replace ((block <? 0) || (_ <=? block)) with false by lia. }
    replace (negb (jbit_flag kind =? 0) && negb (jbit_flag kind =? 1)) with false
      by (unfold jbit_flag; by destruct (kind =? _)).
    destruct (if negb (jbit_flag kind =? 0) then _ else _) as [p f].
    pose proof (geom_eq_upd arr type f) as Hge. set (arr1 := upd arr type _) in *.
    exists arr1. split; [|done].
    pose proof (geom_eq_media arr arr1 (JBit kind type block) m Hge) as He. cbn in He.
    pose proof (jbit_change_ok arr1 kind type block (geom_eq_ok _ _ Hge Hg) Hr) as Hok1.
    rewrite (persist_change_spec m arr1) in * by done. rewrite Hok1 in *. cbn [snd] in He. by rewrite He.
  - exists arr. split; [|done]. by rewrite persist_change_spec, Hok by done.
Qed.

Lemma apply_jrecs_media recovering recs m arr : geom_ok arr -> Forall jrec_ok recs -> pmem_ok m ->
  exists arr', apply_jrecs recovering recs m arr = (0, media_recs arr recs m, arr') /\ geom_eq arr arr' /\
    (recovering = false -> arr' = arr).
Proof.
  intros Hg Hok. revert m arr Hg. induction Hok as [|r recs Hr Hrs IH]; intros m arr Hg Hm.
  { by exists arr. }
  cbn. destruct (apply_jrec_media recovering r m arr Hg Hr Hm) as (arr1 & -> & Hge & Hn). cbn.
  destruct (IH (media_rec arr r m) arr1) as (arr2 & -> & Hge2 & Hn2);
    [by eapply geom_eq_ok|by apply media_rec_ok|].
  exists arr2. split_and!; [|by etransitivity|intros; by rewrite Hn2, Hn].
  do 2 f_equal. unfold media_recs. generalize (media_rec arr r m). clear -Hge.
  induction recs as [|r' recs IH]; intros m; [done|]. cbn. by rewrite (geom_eq_media arr arr1 r').
Qed.
