(* ===== verification/Kfs.v ===== *)
(** * Global state and effects

    The mutable globals the modelled C code works on, as one record, and the small
    state-and-failure monad the stateful components are written in.  [None] is a
    call of [abort()] or [exit()]. *)

From stdpp Require Import base tactics numbers list gmap.
From Stdlib Require Import ZArith Lia.
From S2P Require Import Prelude Bytes Layout Pmem DiskFormat Bitmap Frame.
Open Scope Z_scope.

(** ** Metadata cache (LibFS/meta_cache.h) *)

(** [struct cache_data_t]; a segment is the buffer behind its atomic pointer. *)
Record cache_data_t := mk_cache {
  seg_blknum : Z;
  unit_size : Z;
  seg_num : Z;
  meta_memsp_pt : Z -> option (Z -> Z);
}.

(** ** Transactions and journal state (LibFS/lib_log.c) *)

Inductive transaction_record_kind := RECORD_CREATE | RECORD_DELETE | RECORD_CHANGE | RECORD_PMEM.

#[export] Instance record_kind_eq_dec : EqDecision transaction_record_kind.
Proof. solve_decision. Defined.

Record transaction_record := mk_record {
  tr_kind : transaction_record_kind;
  tr_block : Z;
  tr_type : Z;
  tr_offset : Z;
  tr_length : Z;
  tr_data : list Z;
}.

Record allocation_record := mk_allocation { al_type : Z; al_block : Z }.

#[export] Instance transaction_record_eq_dec : EqDecision transaction_record.
Proof. solve_decision. Defined.
#[export] Instance allocation_record_eq_dec : EqDecision allocation_record.
Proof. solve_decision. Defined.

(** The linked lists in their traversal order: records are appended, allocations
    and deallocations are pushed at the front. *)
Record orchfs_log_transaction := mk_txn {
  tx_records : list transaction_record;
  tx_allocations : list allocation_record;
  tx_deallocations : list allocation_record;
  tx_error : Z;
}.

Record journal_state := mk_journal {
  next_txid : Z;
  checkpoint_generation : Z;
  initialized : bool;
}.

(** ** The globals *)

(** [k_txns] is the heap of live transactions by handle, [k_cur] the thread's
    [current_transaction], [k_worker] the Runtime worker of the thread and
    [k_clock] the number of heap allocations attempted so far. *)
Record kfs := mk_kfs {
  k_pmem : pmem;
  k_bmps : mem_bmps;
  k_cache : Z -> cache_data_t;
  k_journal : journal_state;
  k_cur : option Z;
  k_txns : gmap Z orchfs_log_transaction;
  k_next : Z;
  k_errno : Z;
  k_worker : Z;
  k_clock : Z;
}.

Definition set_k_pmem (v : pmem) (s : kfs) : kfs :=
  mk_kfs v (k_bmps s) (k_cache s) (k_journal s) (k_cur s) (k_txns s) (k_next s) (k_errno s) (k_worker s) (k_clock s).
Definition set_k_bmps (v : mem_bmps) (s : kfs) : kfs :=
  mk_kfs (k_pmem s) v (k_cache s) (k_journal s) (k_cur s) (k_txns s) (k_next s) (k_errno s) (k_worker s) (k_clock s).
Definition set_k_cache (v : Z -> cache_data_t) (s : kfs) : kfs :=
  mk_kfs (k_pmem s) (k_bmps s) v (k_journal s) (k_cur s) (k_txns s) (k_next s) (k_errno s) (k_worker s) (k_clock s).
Definition set_k_journal (v : journal_state) (s : kfs) : kfs :=
  mk_kfs (k_pmem s) (k_bmps s) (k_cache s) v (k_cur s) (k_txns s) (k_next s) (k_errno s) (k_worker s) (k_clock s).
Definition set_k_cur (v : option Z) (s : kfs) : kfs :=
  mk_kfs (k_pmem s) (k_bmps s) (k_cache s) (k_journal s) v (k_txns s) (k_next s) (k_errno s) (k_worker s) (k_clock s).
Definition set_k_txns (v : gmap Z orchfs_log_transaction) (s : kfs) : kfs :=
  mk_kfs (k_pmem s) (k_bmps s) (k_cache s) (k_journal s) (k_cur s) v (k_next s) (k_errno s) (k_worker s) (k_clock s).
Definition set_k_next (v : Z) (s : kfs) : kfs :=
  mk_kfs (k_pmem s) (k_bmps s) (k_cache s) (k_journal s) (k_cur s) (k_txns s) v (k_errno s) (k_worker s) (k_clock s).
Definition set_k_errno (v : Z) (s : kfs) : kfs :=
  mk_kfs (k_pmem s) (k_bmps s) (k_cache s) (k_journal s) (k_cur s) (k_txns s) (k_next s) v (k_worker s) (k_clock s).
Definition set_k_clock (v : Z) (s : kfs) : kfs :=
  mk_kfs (k_pmem s) (k_bmps s) (k_cache s) (k_journal s) (k_cur s) (k_txns s) (k_next s) (k_errno s) (k_worker s) v.

(** ** The monad *)

Definition M (A : Type) : Type := kfs -> option (A * kfs).
#[export] Instance M_ret : MRet M := fun A x s => Some (x, s).
#[export] Instance M_bind : MBind M := fun A B f c s =>
  match c s with Some (x, s') => f x s' | None => None end.
Definition get : M kfs := fun s => Some (s, s).
Definition gets {A} (f : kfs -> A) : M A := fun s => Some (f s, s).
Definition modify (f : kfs -> kfs) : M unit := fun s => Some (tt, f s).
Definition abort {A} : M A := fun _ => None.
Definition set_errno (e : Z) : M unit := modify (set_k_errno e).

(** Which heap allocations succeed, by the order they are attempted in. *)
Class MallocOracle := malloc_ok : Z -> bool.

Definition malloc `{MallocOracle} : M bool := fun s =>
  Some (malloc_ok (k_clock s), set_k_clock (k_clock s + 1) s).

(** The device primitives on the global media. *)
Definition dev_read (length offset : Z) : M (list Z) := gets (fun s => nvm_read (k_pmem s) length offset).
Definition dev_write (src : list Z) (offset : Z) : M unit :=
  modify (fun s => set_k_pmem (nvm_write (k_pmem s) src offset) s).

Lemma bind_some {A B} (c : M A) (f : A -> M B) s r :
  (c ≫= f) s = Some r -> exists x s', c s = Some (x, s') /\ f x s' = Some r.
Proof.
  unfold mbind, M_bind. destruct (c s) as [[x s']|]; [|done]. intros H. by exists x, s'.
Qed.
Lemma bind_run {A B} (c : M A) (f : A -> M B) s x s' : c s = Some (x, s') -> (c ≫= f) s = f x s'.
Proof. unfold mbind, M_bind. by intros ->. Qed.

(** Step through a run of a monadic program in a hypothesis. *)
Ltac run_inv H :=
  repeat (let x := fresh "x" in let s := fresh "s" in let H1 := fresh "Hrun" in
    apply bind_some in H as (x & s & H1 & H)).

(** Fold a monadic action over a list. *)
Fixpoint mforeach {A} (f : A -> M unit) (l : list A) : M unit :=
  match l with [] => mret tt | x :: l' => f x ;; mforeach f l' end.

(** A [while] loop whose body is effectful; running out of [fuel] is no behaviour. *)
Definition loopM {S A} (fuel : Z) (body : S -> M (ctl S A)) (st : S) : M A := fun s =>
  match loopZ fuel (fun '(st, s) =>
      match body st s with
      | Some (Next st', s') => Next (st', s')
      | Some (Stop r, s') => Stop (Some (r, s'))
      | None => Stop None
      end) (st, s) with
  | Stop r => r
  | Next _ => None
  end.
