(* ===== verification/MetaCache.v ===== *)
(** * Metadata cache (LibFS/meta_cache.c)

    Inodes, index nodes and virtual nodes are cached in DRAM in segments that are
    read from the media on first use.  A metadata pointer is a cache, a segment of
    it and a byte offset in that segment's buffer. *)

From stdpp Require Import base tactics numbers list gmap.
From Stdlib Require Import ZArith Lia FunctionalExtensionality.
From S2P Require Import Prelude Bytes Layout Pmem DiskFormat Bitmap Frame Kfs.
Open Scope Z_scope.

Definition INODE_CACHE : Z := 0.
Definition IDXND_CACHE : Z := 1.
Definition VIRND_CACHE : Z := 2.
Definition INODE_CACHE_EXTBLKS : Z := 128.
Definition IDXND_CACHE_EXTBLKS : Z := 256.
Definition VIRND_CACHE_EXTBLKS : Z := 128.

Record meta_ptr := mk_ptr { mp_cache : Z; mp_segment : Z; mp_offset : Z }.

Section meta_cache.
Context `{Mo : MallocOracle}.

Definition cache_base (cache_id : Z) : Z :=
  if cache_id =? INODE_CACHE then OFFSET_INODE
  else if cache_id =? IDXND_CACHE then OFFSET_INDEX
  else OFFSET_VIRND.

Definition set_segment (cache_id segment : Z) (buf : option (Z -> Z)) (s : kfs) : kfs :=
  let c := k_cache s cache_id in
  set_k_cache (upd (k_cache s) cache_id
    (mk_cache (seg_blknum c) (unit_size c) (seg_num c) (upd (meta_memsp_pt c) segment buf))) s.

(** [load_segment]: whether the segment's buffer is there afterwards. *)
Definition load_segment (cache_id segment : Z) : M bool :=
  cache ← gets (fun s => k_cache s cache_id);
  if (segment <? 0) || (seg_num cache <=? segment) then (set_errno EINVAL;; mret false)
  else match meta_memsp_pt cache segment with
  | Some _ => mret true
  | None =>
      let length := unit_size cache * seg_blknum cache in
      ok ← malloc;
      if (ok : bool) then
        loaded ← dev_read length (cache_base cache_id + segment * length);
        modify (set_segment cache_id segment (Some (byte_at loaded)));;
        mret true
      else (set_errno ENOMEM;; mret false)
  end.

Definition initialize_cache (cache_id unit_size segment_blocks block_count : Z) : M Z :=
  ok ← malloc;
  let n := block_count / segment_blocks in
  modify (fun s => set_k_cache (upd (k_cache s) cache_id
    (mk_cache segment_blocks unit_size (if (ok : bool) then n else 0) (fun _ => None))) s);;
  mret (if (ok : bool) then 0 else ENOMEM).

(** Write a loaded segment back and free it. *)
Definition close_segment (cache_id segment : Z) (s : kfs) : kfs :=
  let c := k_cache s cache_id in
  let length := unit_size c * seg_blknum c in
  match meta_memsp_pt c segment with
  | None => s
  | Some memory =>
      set_segment cache_id segment None
        (set_k_pmem (nvm_write (k_pmem s) (buf_bytes memory 0 length)
                       (cache_base cache_id + segment * length)) s)
  end.

Definition close_cache (s : kfs) (cache_id : Z) : kfs :=
  let c := k_cache s cache_id in
  let s := match forZ (R := Empty_set) (seg_num c) (fun segment s => Next (close_segment cache_id segment s)) s
           with Next s => s | Stop e => match e with end end in
  set_k_cache (upd (k_cache s) cache_id (mk_cache (seg_blknum c) (unit_size c) 0 (fun _ => None))) s.

Definition close_metadata_cache : M unit :=
  modify (fun s => fold_left close_cache [INODE_CACHE; IDXND_CACHE; VIRND_CACHE] s).

Definition init_metadata_cache : M Z :=
  error ← initialize_cache INODE_CACHE ORCH_INODE_SIZE INODE_CACHE_EXTBLKS MAX_INODE_NUM;
  error ← (if error =? 0 then initialize_cache IDXND_CACHE ORCH_IDX_SIZE IDXND_CACHE_EXTBLKS MAX_INDEX_NUM
           else mret error);
  error ← (if error =? 0 then initialize_cache VIRND_CACHE ORCH_VIRND_SIZE VIRND_CACHE_EXTBLKS MAX_VIRND_NUM
           else mret error);
  (if negb (error =? 0) then close_metadata_cache else mret tt);;
  mret error.

(** ** Access through pointers *)

Definition ptr_buffer (s : kfs) (p : meta_ptr) : Z -> Z :=
  match meta_memsp_pt (k_cache s (mp_cache p)) (mp_segment p) with
  | Some buf => buf
  | None => fun _ => 0
  end.
(** [memcpy] from and to metadata memory. *)
Definition mem_read (p : meta_ptr) (off n : Z) : M (list Z) :=
  gets (fun s => buf_bytes (ptr_buffer s p) (mp_offset p + off) n).
Definition mem_write (p : meta_ptr) (off : Z) (src : list Z) : M unit :=
  modify (fun s => set_segment (mp_cache p) (mp_segment p)
    (Some (nvm_write (ptr_buffer s p) src (mp_offset p + off))) s).

Definition sync_unit (cache_id block : Z) : M unit :=
  cache ← gets (fun s => k_cache s cache_id);
  let segment := Z.quot block (seg_blknum cache) in
  let position := Z.rem block (seg_blknum cache) in
  ok ← load_segment cache_id segment;
  if (ok : bool) then
    data ← mem_read (mk_ptr cache_id segment (position * unit_size cache)) 0 (unit_size cache);
    dev_write data (cache_base cache_id + block * unit_size cache)
  else mret tt.

Definition sync_inode (inode_id : Z) : M unit := sync_unit INODE_CACHE inode_id.
Definition sync_index_blk (index_id : Z) : M unit := sync_unit IDXND_CACHE index_id.
Definition sync_virnd_blk (virtual_node_id : Z) : M unit := sync_unit VIRND_CACHE virtual_node_id.

Definition create_file_metadata_cache (inode_id : Z) : M unit :=
  _ ← load_segment INODE_CACHE (Z.quot inode_id INODE_CACHE_EXTBLKS); mret tt.

(** The common shape of [inodeid_to_memaddr], [indexid_to_memaddr] and
    [virnodeid_to_memaddr]. *)
Definition id_to_memaddr (cache_id max extblks unit id : Z) : M (option meta_ptr) :=
  if (id <? 0) || (max <=? id) then (set_errno EINVAL;; mret None)
  else
    ok ← load_segment cache_id (id / extblks);
    mret (if (ok : bool) then Some (mk_ptr cache_id (id / extblks) (id mod extblks * unit)) else None).

Definition inodeid_to_memaddr := id_to_memaddr INODE_CACHE MAX_INODE_NUM INODE_CACHE_EXTBLKS ORCH_INODE_SIZE.
Definition indexid_to_memaddr := id_to_memaddr IDXND_CACHE MAX_INDEX_NUM IDXND_CACHE_EXTBLKS ORCH_IDX_SIZE.
Definition virnodeid_to_memaddr := id_to_memaddr VIRND_CACHE MAX_VIRND_NUM VIRND_CACHE_EXTBLKS ORCH_VIRND_SIZE.

(** ** What a client sees *)

Definition seg_bytes (c : cache_data_t) : Z := unit_size c * seg_blknum c.

(** The byte at offset [o] of an area: DRAM if its segment is loaded, media else. *)
Definition cache_view (s : kfs) (cache_id o : Z) : Z :=
  let c := k_cache s cache_id in
  match meta_memsp_pt c (o / seg_bytes c) with
  | Some buf => buf (o mod seg_bytes c)
  | None => k_pmem s (cache_base cache_id + o)
  end.

(** [s'] differs from [s] in the cache, [errno] and the allocation clock only. *)
Definition cache_step (s s' : kfs) : Prop :=
  s' = set_k_cache (k_cache s') (set_k_errno (k_errno s') (set_k_clock (k_clock s') s)).

(** Same geometry, at least the same segments loaded, same view. *)
Record cache_grows (s s' : kfs) : Prop := {
  cg_step : cache_step s s';
  cg_geom : forall id, seg_blknum (k_cache s' id) = seg_blknum (k_cache s id) /\
    unit_size (k_cache s' id) = unit_size (k_cache s id) /\ seg_num (k_cache s' id) = seg_num (k_cache s id);
  cg_loaded : forall id seg, is_Some (meta_memsp_pt (k_cache s id) seg) ->
    meta_memsp_pt (k_cache s' id) seg = meta_memsp_pt (k_cache s id) seg;
  cg_view : forall id o, cache_view s' id o = cache_view s id o;
}.

Lemma cache_grows_refl s : cache_grows s s.
Proof. split; try done. by destruct s. Qed.
Lemma cache_grows_trans s1 s2 s3 : cache_grows s1 s2 -> cache_grows s2 s3 -> cache_grows s1 s3.
Proof.
  intros [A1 A2 A3 A4] [B1 B2 B3 B4]. split.
  - unfold cache_step in *. rewrite B1, A1. by destruct s1, s3.
  - intros id. specialize (A2 id). specialize (B2 id). intuition congruence.
  - intros id seg Hl. rewrite B3; [by apply A3|]. by rewrite A3.
  - intros. by rewrite B4, A4.
Qed.

Lemma cache_grows_pmem s s' : cache_grows s s' -> k_pmem s' = k_pmem s /\ k_bmps s' = k_bmps s /\
  k_journal s' = k_journal s /\ k_cur s' = k_cur s /\ k_txns s' = k_txns s /\ k_next s' = k_next s /\
  k_worker s' = k_worker s.
Proof. intros [H _ _ _]. unfold cache_step in H. rewrite H. by destruct s. Qed.

Lemma cache_grows_errno s e : cache_grows s (set_k_errno e s).
Proof. split; try done. Qed.
Lemma cache_grows_clock s c : cache_grows s (set_k_clock c s).
Proof. split; try done. Qed.

Definition cache_id_ok (id : Z) : Prop := INODE_CACHE <= id <= VIRND_CACHE.
Definition cache_pos (s : kfs) : Prop := forall id, cache_id_ok id -> 0 < seg_bytes (k_cache s id).

Lemma cache_grows_pos s s' : cache_grows s s' -> cache_pos s -> cache_pos s'.
Proof.
  intros Hg Hp id Hid. unfold seg_bytes. destruct (cg_geom _ _ Hg id) as (-> & -> & _). by apply Hp.
Qed.

(** Bringing a segment in changes no byte a client can see. *)
Lemma set_segment_grows s id seg : 0 < seg_bytes (k_cache s id) ->
  meta_memsp_pt (k_cache s id) seg = None ->
  cache_grows s (set_segment id seg (Some (byte_at (nvm_read (k_pmem s) (seg_bytes (k_cache s id))
    (cache_base id + seg * seg_bytes (k_cache s id))))) s).
Proof.
  intros HL Hn. split.
  - by destruct s.
  - intros id'. cbn. unfold upd. by destruct (Z.eqb_spec id' id) as [->|].
  - intros id' seg' Hl. cbn. unfold upd. destruct (Z.eqb_spec id' id) as [->|]; [|done].
    cbn. destruct (Z.eqb_spec seg' seg) as [->|]; [|done]. rewrite Hn in Hl. by destruct Hl.
  - intros id' o. unfold cache_view. cbn. unfold upd.
    destruct (Z.eqb_spec id' id) as [->|]; [|done]. unfold seg_bytes in *. cbn.
    set (L := unit_size (k_cache s id) * seg_blknum (k_cache s id)) in *.
    destruct (Z.eqb_spec (o / L) seg) as [<-|]; [|done]. rewrite Hn.
    pose proof (Z.mod_pos_bound o L HL). rewrite byte_at_nvm_read by lia. f_equal.
    pose proof (Z.div_mod o L). lia.
Qed.

Lemma load_segment_spec cache_id segment s : cache_id_ok cache_id -> cache_pos s ->
  exists ok s', load_segment cache_id segment s = Some (ok, s') /\ cache_grows s s' /\
    (ok = true -> 0 <= segment < seg_num (k_cache s cache_id) /\
      is_Some (meta_memsp_pt (k_cache s' cache_id) segment)) /\
    (0 <= segment < seg_num (k_cache s cache_id) ->
      is_Some (meta_memsp_pt (k_cache s cache_id) segment) -> ok = true /\ s' = s).
Proof.
  intros Hid Hp. unfold load_segment, gets, mbind, M_bind.
  destruct ((segment <? 0) || _) eqn:Hr.
  { eexists _, _. split; [done|]. split_and!; [apply cache_grows_errno|done|]. intros; lia. }
  destruct (meta_memsp_pt (k_cache s cache_id) segment) as [buf|] eqn:Hb.
  { eexists _, _. split; [done|]. split_and!; [apply cache_grows_refl| |done].
    intros _. split; [lia|by rewrite Hb]. }
  unfold malloc. destruct (malloc_ok (k_clock s)).
  - eexists _, _. split; [done|]. cbn [k_pmem set_k_clock].
    pose proof (set_segment_grows (set_k_clock (k_clock s + 1) s) cache_id segment (Hp cache_id Hid) Hb) as Hg.
    split_and!; [by eapply cache_grows_trans; [apply cache_grows_clock|exact Hg]| |].
    + intros _. split; [lia|]. unfold set_segment. cbn. rewrite upd_same. cbn. rewrite upd_same. by eexists.
    + intros _ [? ?]. done.
  - eexists _, _. split; [done|]. split_and!; [|done|].
    + eapply cache_grows_trans; [apply cache_grows_clock|apply cache_grows_errno].
    + intros _ [? ?]. done.
Qed.

(** The geometry [init_metadata_cache] sets up. *)
Definition cache_geometry (id : Z) : Z * Z * Z :=
  if id =? INODE_CACHE then (INODE_CACHE_EXTBLKS, ORCH_INODE_SIZE, MAX_INODE_NUM)
  else if id =? IDXND_CACHE then (IDXND_CACHE_EXTBLKS, ORCH_IDX_SIZE, MAX_INDEX_NUM)
  else (VIRND_CACHE_EXTBLKS, ORCH_VIRND_SIZE, MAX_VIRND_NUM).
Definition cache_std1 (s : kfs) (id : Z) : Prop :=
  let '(extblks, unit, max) := cache_geometry id in
  seg_blknum (k_cache s id) = extblks /\ unit_size (k_cache s id) = unit /\
  seg_num (k_cache s id) = max / extblks.
Definition cache_std (s : kfs) : Prop := forall id, cache_id_ok id -> cache_std1 s id.

Lemma cache_geometry_ok id : cache_id_ok id -> let '(extblks, unit, max) := cache_geometry id in
  0 < extblks /\ 0 < unit /\ max mod extblks = 0 /\ 0 < max.
Proof.
  unfold cache_id_ok, INODE_CACHE, VIRND_CACHE. intros H.
  assert (id = 0 \/ id = 1 \/ id = 2) as [-> | [-> | ->]] by lia; vm_compute; repeat split; congruence.
Qed.

Lemma cache_std1_pos s id : cache_id_ok id -> cache_std1 s id -> 0 < seg_bytes (k_cache s id).
Proof.
  unfold cache_std1. intros Hid Hs. pose proof (cache_geometry_ok id Hid) as Hg.
  destruct (cache_geometry id) as [[e u] m]. destruct Hs as (H1 & H2 & _). unfold seg_bytes.
  rewrite H1, H2. nia.
Qed.

Lemma cache_std_pos s : cache_std s -> cache_pos s.
Proof. intros Hs id Hid. by apply cache_std1_pos, Hs. Qed.

Lemma cache_grows_std s s' : cache_grows s s' -> cache_std s -> cache_std s'.
Proof.
  intros Hg Hs id Hid. specialize (Hs id Hid). unfold cache_std1 in *. destruct (cache_geometry id) as [[e u] m].
  destruct (cg_geom _ _ Hg id) as (-> & -> & ->). done.
Qed.

(** A pointer to unit [id] of a cache: its segment is loaded. *)
Definition points_to (s : kfs) (cache_id id : Z) (p : meta_ptr) : Prop :=
  let '(extblks, unit, max) := cache_geometry cache_id in
  0 <= id < max /\ p = mk_ptr cache_id (id / extblks) (id mod extblks * unit) /\
  is_Some (meta_memsp_pt (k_cache s cache_id) (id / extblks)).

(** Splitting an area offset inside a unit into segment and position. *)
Lemma unit_split e u id o : 0 < e -> 0 < u -> 0 <= id -> 0 <= o < u ->
  (id * u + o) / (u * e) = id / e /\ (id * u + o) mod (u * e) = id mod e * u + o.
Proof.
  intros He Hu Hid Ho. pose proof (Z.div_mod id e ltac:(lia)). pose proof (Z.mod_pos_bound id e He).
  assert (id * u + o = (u * e) * (id / e) + (id mod e * u + o)) as Heq by nia.
  assert (0 <= id mod e * u + o < u * e) as Hr by nia.
  split; [symmetry; by apply Z.div_unique with (id mod e * u + o); [lia|]|].
  symmetry. by apply Z.mod_unique with (id / e); [lia|].
Qed.

Lemma points_to_view s cache_id id p o : cache_id_ok cache_id -> cache_std s -> points_to s cache_id id p ->
  let '(_, unit, _) := cache_geometry cache_id in
  0 <= o < unit -> ptr_buffer s p (mp_offset p + o) = cache_view s cache_id (id * unit + o).
Proof.
  intros Hc Hs Hp. specialize (Hs cache_id Hc). unfold cache_std1 in Hs. pose proof (cache_geometry_ok cache_id Hc) as Hg.
  unfold points_to in Hp. destruct (cache_geometry cache_id) as [[e u] m].
  destruct Hs as (H1 & H2 & _). destruct Hp as (Hid & -> & [buf Hb]). intros Ho.
  unfold cache_view, seg_bytes, ptr_buffer. cbn. rewrite H1, H2.
  destruct (unit_split e u id o) as [-> ->]; [lia..|]. by rewrite Hb.
Qed.

Lemma id_to_memaddr_spec cache_id id s : cache_id_ok cache_id -> cache_std s ->
  let '(extblks, unit, max) := cache_geometry cache_id in
  exists r s', id_to_memaddr cache_id max extblks unit id s = Some (r, s') /\ cache_grows s s' /\
    match r with
    | Some p => points_to s' cache_id id p
    | None => ~ (0 <= id < max) \/ meta_memsp_pt (k_cache s cache_id) (id / extblks) = None
    end.
Proof.
  intros Hc Hs. pose proof (Hs cache_id Hc) as Hg. unfold cache_std1 in Hg. pose proof (cache_geometry_ok cache_id Hc) as Hgo.
  unfold points_to. destruct (cache_geometry cache_id) as [[e u] m].
  unfold id_to_memaddr. destruct ((id <? 0) || (m <=? id)) eqn:Hr.
  { eexists _, _. split; [done|]. split; [apply cache_grows_errno|]. left. lia. }
  destruct (load_segment_spec cache_id (id / e) s Hc (cache_std_pos s Hs)) as (ok & s' & Hrun & Hgr & H1 & H2).
  unfold mbind, M_bind. rewrite Hrun. eexists _, _. split; [done|]. split; [done|].
  destruct ok.
  - split_and!; [lia|lia|done|]. by apply H1.
  - right. destruct (meta_memsp_pt (k_cache s cache_id) (id / e)) eqn:E; [|done]. exfalso. destruct H2 as [? _]; [|done|done].
    destruct Hg as (_ & _ & ->). destruct Hgo as (? & ? & Hm & ?). split; [apply Z.div_pos; lia|].
    apply Z.div_lt_upper_bound; [lia|]. pose proof (Z.div_mod m e). lia.
Qed.

(** Size of the area behind a cache. *)
Definition area_bytes (id : Z) : Z := let '(_, unit, max) := cache_geometry id in max * unit.

Lemma areas_apart id1 id2 : cache_id_ok id1 -> cache_id_ok id2 -> id1 < id2 ->
  cache_base id1 + area_bytes id1 <= cache_base id2.
Proof.
  unfold cache_id_ok, INODE_CACHE, VIRND_CACHE. intros H1 H2 Hlt.
  assert (id1 = 0 \/ id1 = 1) as [-> | ->] by lia; assert (id2 = 1 \/ id2 = 2) as [-> | ->] by lia;
    first [exfalso; lia|vm_compute; congruence].
Qed.

Lemma std_seg_area s id : cache_id_ok id -> cache_std1 s id ->
  seg_num (k_cache s id) * seg_bytes (k_cache s id) = area_bytes id.
Proof.
  unfold cache_std1. intros Hid Hs. pose proof (cache_geometry_ok id Hid) as Hg.
  unfold area_bytes, seg_bytes. destruct (cache_geometry id) as [[e u] m].
  destruct Hs as (-> & -> & ->). destruct Hg as (? & ? & Hm & ?). pose proof (Z.div_mod m e). nia.
Qed.

(** Two offsets of areas map to the same media byte only if they are equal. *)
Lemma area_addr_inj id1 o1 id2 o2 : cache_id_ok id1 -> cache_id_ok id2 ->
  0 <= o1 < area_bytes id1 -> 0 <= o2 < area_bytes id2 ->
  cache_base id1 + o1 = cache_base id2 + o2 -> id1 = id2 /\ o1 = o2.
Proof.
  intros H1 H2 Ho1 Ho2 He. destruct (Z.lt_trichotomy id1 id2) as [Hlt|[->|Hlt]].
  - pose proof (areas_apart id1 id2 H1 H2 Hlt). lia.
  - lia.
  - pose proof (areas_apart id2 id1 H2 H1 Hlt). lia.
Qed.

(** Storing through a pointer changes those bytes of that unit and no others. *)
Lemma mem_write_view s cache_id id p off src : cache_id_ok cache_id -> cache_std s ->
  points_to s cache_id id p ->
  let '(_, unit, _) := cache_geometry cache_id in
  0 <= off -> off + len src <= unit ->
  exists s', mem_write p off src s = Some (tt, s') /\ k_pmem s' = k_pmem s /\ cache_std s' /\
    (forall c o, cache_view s' c o =
      if (c =? cache_id) && in_range o (id * unit + off) (len src)
      then byte_at src (o - (id * unit + off)) else cache_view s c o).
Proof.
  intros Hc Hs Hp. pose proof (Hs cache_id Hc) as Hsc. unfold cache_std1 in Hsc. pose proof (cache_geometry_ok cache_id Hc) as Hg.
  unfold points_to in Hp. destruct (cache_geometry cache_id) as [[e u] m] eqn:Hgeo.
  destruct Hsc as (H1 & H2 & _). destruct Hp as (Hid & -> & [buf Hb]). intros Ho Hl.
  eexists. split; [reflexivity|]. split_and!; [done| |].
  { intros c Hcc. specialize (Hs c Hcc). unfold cache_std1 in *. cbn. unfold upd. by destruct (Z.eqb_spec c cache_id) as [->|]. }
  intros c o. unfold cache_view, set_segment, ptr_buffer. cbn. unfold upd.
  destruct (Z.eqb_spec c cache_id) as [->|]; cbn [andb]; [|done].
  unfold seg_bytes. cbn. rewrite H1, H2, Hb. pose proof (len_nonneg src).
  destruct (Z.eqb_spec (o / (u * e)) (id / e)) as [He|Hne].
  - unfold nvm_write. pose proof (Z.div_mod o (u * e) ltac:(nia)). pose proof (Z.div_mod id e ltac:(lia)).
    assert (o mod (u * e) - (id mod e * u + off) = o - (id * u + off)) as Hd by nia.
    rewrite He, Hb. destruct (in_rangeP (o mod (u * e)) (id mod e * u + off) (len src)),
      (in_rangeP o (id * u + off) (len src)); try lia. by rewrite Hd.
  - destruct (in_rangeP o (id * u + off) (len src)) as [Hr|]; [|done]. exfalso. apply Hne.
    replace o with (id * u + (o - id * u)) by lia. apply unit_split; lia.
Qed.

(** ** Write-back *)

Lemma close_segment_view s id seg : cache_id_ok id -> cache_std1 s id -> 0 <= seg < seg_num (k_cache s id) ->
  let s' := close_segment id seg s in
  (forall c, cache_std1 s c -> cache_std1 s' c) /\ meta_memsp_pt (k_cache s' id) seg = None /\
  (forall i g, meta_memsp_pt (k_cache s i) g = None -> meta_memsp_pt (k_cache s' i) g = None) /\
  (forall i o, cache_id_ok i -> 0 <= o < area_bytes i -> cache_view s' i o = cache_view s i o) /\
  (forall a, ~ (cache_base id <= a < cache_base id + area_bytes id) -> k_pmem s' a = k_pmem s a).
Proof.
  intros Hid Hs Hseg. unfold close_segment. destruct (meta_memsp_pt (k_cache s id) seg) as [buf|] eqn:Hb; [|done].
  fold (seg_bytes (k_cache s id)). set (L := seg_bytes (k_cache s id)).
  assert (0 < L) as HL by by apply cache_std1_pos.
  pose proof (std_seg_area s id Hid Hs) as Harea. fold L in Harea.
  assert (len (buf_bytes buf 0 L) = L) as Hlen by (apply len_nvm_read; lia).
  split_and!.
  - intros c Hc. unfold cache_std1 in *. cbn. unfold upd. by destruct (Z.eqb_spec c id) as [->|].
  - cbn. rewrite upd_same. cbn. by rewrite upd_same.
  - intros i g Hg. cbn. unfold upd. destruct (Z.eqb_spec i id) as [->|]; [|done]. cbn.
    by destruct (Z.eqb_spec g seg).
  - intros i o Hi Ho. unfold cache_view. cbn. unfold upd.
    assert (forall x, 0 <= x < area_bytes i -> (i <> id \/ x / L <> seg) ->
      nvm_write (k_pmem s) (buf_bytes buf 0 L) (cache_base id + seg * L) (cache_base i + x)
        = k_pmem s (cache_base i + x)) as Hout.
    { intros x Hx Hne. apply nvm_write_out. rewrite Hlen. intros Hr.
      destruct (area_addr_inj id (cache_base i + x - cache_base id) i x) as [-> ?]; [done|done|nia|done|lia|].
      destruct Hne as [?|Hne]; [done|]. apply Hne. symmetry. apply Z.div_unique with (x - seg * L); lia. }
    destruct (Z.eqb_spec i id) as [->|Hne].
    + match goal with |- context [seg_bytes (mk_cache ?a ?b ?c ?d)] =>
        change (seg_bytes (mk_cache a b c d)) with L end. cbn [meta_memsp_pt]. fold L.
      destruct (Z.eqb_spec (o / L) seg) as [He|Hne].
      * rewrite He, Hb. pose proof (Z.div_mod o L ltac:(lia)). pose proof (Z.mod_pos_bound o L HL).
        rewrite nvm_write_in by (rewrite Hlen; nia). unfold buf_bytes.
        rewrite byte_at_nvm_read by nia. f_equal. nia.
      * destruct (meta_memsp_pt (k_cache s id) (o / L)); [done|]. apply Hout; [done|by right].
    + destruct (meta_memsp_pt (k_cache s i) _); [done|]. apply Hout; [done|by left].
  - intros a Ha. cbn. apply nvm_write_out. rewrite Hlen. nia.
Qed.

(** What closing caches keeps: every byte a client sees. *)
Record closing (s s' : kfs) (id : Z) : Prop := {
  cl_std : forall c, c <> id -> cache_std1 s c -> cache_std1 s' c;
  cl_view : forall i o, cache_id_ok i -> 0 <= o < area_bytes i -> cache_view s' i o = cache_view s i o;
  cl_none : forall i g, meta_memsp_pt (k_cache s i) g = None -> meta_memsp_pt (k_cache s' i) g = None;
  cl_out : forall a, ~ (cache_base id <= a < cache_base id + area_bytes id) -> k_pmem s' a = k_pmem s a;
}.

Lemma close_cache_spec s id : cache_id_ok id -> cache_std1 s id ->
  closing s (close_cache s id) id /\ (forall g, meta_memsp_pt (k_cache (close_cache s id) id) g = None).
Proof.
  intros Hid Hs. unfold close_cache. set (n := seg_num (k_cache s id)).
  assert (0 <= n) as Hn.
  { pose proof (cache_geometry_ok id Hid) as Hg. unfold cache_std1 in Hs.
    destruct (cache_geometry id) as [[e u] m]. destruct Hs as (_ & _ & Hn). unfold n. rewrite Hn.
    apply Z.div_pos; lia. }
  pose proof (forZ_inv (R := Empty_set)
    (fun k t => closing s t id /\ cache_std1 t id /\ forall g, 0 <= g < k -> meta_memsp_pt (k_cache t id) g = None)
    (fun _ => False) n (fun segment s => Next (close_segment id segment s)) s Hn) as HL.
  match type of HL with ?A -> ?B -> _ => assert A as HA; [|assert B as HB; [|specialize (HL HA HB)]] end.
  - split_and!; [by split|done|lia].
  - intros k t Hk ([C1 C2 C3 C4] & Ht & Hg).
    assert (seg_num (k_cache t id) = n) as Hnt.
    { unfold n, cache_std1 in *. destruct (cache_geometry id) as [[e u] m].
      destruct Hs as (_ & _ & ->), Ht as (_ & _ & ->). done. }
    destruct (close_segment_view t id k Hid Ht ltac:(lia)) as (D1 & D2 & D3 & D4 & D5).
    split_and!.
    + split; [auto|intros; rewrite D4 by done; auto|auto|intros; rewrite D5 by done; auto].
    + by apply D1.
    + intros g Hg'. destruct (Z.eq_dec g k) as [->|]; [done|]. apply D3, Hg. lia.
  - destruct (forZ _ _ _) as [t|[]]. destruct HL as ([C1 C2 C3 C4] & Ht & Hg).
    assert (forall o, 0 <= o < area_bytes id -> meta_memsp_pt (k_cache t id) (o / seg_bytes (k_cache t id)) = None) as Hnone.
    { intros o Ho. apply Hg. pose proof (cache_std1_pos t id Hid Ht) as HL.
      pose proof (std_seg_area t id Hid Ht) as Ha.
      assert (seg_num (k_cache t id) = n) as Hnt.
      { unfold n, cache_std1 in *. destruct (cache_geometry id) as [[e u] m].
        destruct Hs as (_ & _ & ->), Ht as (_ & _ & ->). done. }
      split; [apply Z.div_pos; lia|apply Z.div_lt_upper_bound; nia]. }
    split; [split|].
    + intros c Hc Hstd. specialize (C1 c Hc Hstd). unfold cache_std1 in *. cbn. by rewrite upd_other.
    + intros i o Hi Ho. rewrite <-C2 by done. unfold cache_view. cbn. unfold upd.
      destruct (Z.eqb_spec i id) as [->|]; [|done]. cbn. by rewrite Hnone.
    + intros i g Hi. cbn. unfold upd. destruct (Z.eqb_spec i id) as [->|]; [done|]. by apply C3.
    + done.
    + intros g. cbn. by rewrite upd_same.
Qed.

Lemma view_unloaded s id o : (forall g, meta_memsp_pt (k_cache s id) g = None) ->
  cache_view s id o = k_pmem s (cache_base id + o).
Proof. intros H. unfold cache_view. by rewrite H. Qed.

(** the metadata cache is transparent and loses nothing at shutdown: closing it
    leaves on the media, for every inode, index node and virtual node, exactly the
    bytes that loads through the cache returned before, whatever subset of segments
    was loaded, and touches no byte outside the three areas. *)
Theorem close_metadata_cache_writes_back (s : kfs) : cache_std s ->
  exists s', close_metadata_cache s = Some (tt, s') /\
    (forall id o, cache_id_ok id -> 0 <= o < area_bytes id ->
      k_pmem s' (cache_base id + o) = cache_view s id o) /\
    (forall a, (forall id, cache_id_ok id -> ~ (cache_base id <= a < cache_base id + area_bytes id)) ->
      k_pmem s' a = k_pmem s a).
Proof.
  intros Hs. eexists. split; [reflexivity|]. cbn [fold_left].
  assert (cache_id_ok 0 /\ cache_id_ok 1 /\ cache_id_ok 2) as (H0 & H1 & H2)
    by (unfold cache_id_ok, INODE_CACHE, VIRND_CACHE; lia).
  unfold INODE_CACHE, IDXND_CACHE, VIRND_CACHE.
  destruct (close_cache_spec s 0 H0 (Hs 0 H0)) as [[A1 A2 A3 A4] A5]. set (s1 := close_cache s 0) in *.
  destruct (close_cache_spec s1 1 H1 (A1 1 ltac:(lia) (Hs 1 H1))) as [[B1 B2 B3 B4] B5].
  set (s2 := close_cache s1 1) in *.
  destruct (close_cache_spec s2 2 H2 (B1 2 ltac:(lia) (A1 2 ltac:(lia) (Hs 2 H2)))) as [[C1 C2 C3 C4] C5].
  set (s3 := close_cache s2 2) in *. split.
  - intros id o Hid Ho. rewrite <-A2, <-B2, <-C2 by done. symmetry. apply view_unloaded.
    unfold cache_id_ok, INODE_CACHE, VIRND_CACHE in Hid.
    assert (id = 0 \/ id = 1 \/ id = 2) as [-> | [-> | ->]] by lia; intros g; auto.
  - intros a Ha. by rewrite C4, B4, A4 by auto.
Qed.

(** a metadata pointer is exact: resolving an id succeeds only inside the area
    and changes no byte any client sees; a store through the pointer changes the
    addressed bytes of that unit and nothing else in any cache or on the media. *)
Theorem metadata_pointer_exact (cache_id id off : Z) (src : list Z) (s : kfs) :
  cache_id_ok cache_id -> cache_std s ->
  let '(extblks, unit, max) := cache_geometry cache_id in
  0 <= off -> off + len src <= unit ->
  match id_to_memaddr cache_id max extblks unit id s with
  | None => False
  | Some (None, s1) => cache_grows s s1
  | Some (Some p, s1) =>
      0 <= id < max /\ cache_grows s s1 /\
      exists s2, mem_write p off src s1 = Some (tt, s2) /\ k_pmem s2 = k_pmem s /\ cache_std s2 /\
        (forall c o, cache_view s2 c o =
          if (c =? cache_id) && in_range o (id * unit + off) (len src)
          then byte_at src (o - (id * unit + off)) else cache_view s c o)
  end.
Proof.
  intros Hc Hs. pose proof (id_to_memaddr_spec cache_id id s Hc Hs) as Hspec.
  destruct (cache_geometry cache_id) as [[e u] max] eqn:Hgeo. intros Ho Hl.
  destruct Hspec as (r & s1 & -> & Hgr & Hr). destruct r as [p|]; [|done].
  pose proof (mem_write_view s1 cache_id id p off src Hc (cache_grows_std _ _ Hgr Hs) Hr) as Hw.
  unfold points_to in Hr. rewrite Hgeo in Hw, Hr. destruct Hr as [Hid _].
  destruct (Hw Ho Hl) as (s2 & Hrun & Hpm & Hstd & Hview).
  split; [done|]. split; [done|]. exists s2. split_and!; [done| |done|].
  - rewrite Hpm. by apply cache_grows_pmem.
  - intros c o. by rewrite Hview, (cg_view _ _ Hgr).
Qed.

End meta_cache.

(** A state with empty media and fresh caches, for concrete runs. *)
Definition boot_cache (id : Z) : cache_data_t :=
  let '(extblks, unit, max) := cache_geometry id in mk_cache extblks unit (max / extblks) (fun _ => None).
Definition boot_kfs (m : pmem) (arr : mem_bmps) : kfs :=
  mk_kfs m arr boot_cache (mk_journal 1 1 true) None ∅ 0 0 0 0.
#[export] Instance always_malloc : MallocOracle := fun _ => true.

Lemma boot_kfs_std m arr : cache_std (boot_kfs m arr).
Proof.
  intros id _. unfold cache_std1, boot_kfs. cbn. unfold boot_cache.
  by destruct (cache_geometry id) as [[e u] max].
Qed.

Lemma close_metadata_cache_writes_back_witness :
  let s := set_segment VIRND_CACHE 0 (Some (fun _ => 7)) (boot_kfs (fun _ => 0) demo_arr) in
  exists s', close_metadata_cache s = Some (tt, s') /\ k_pmem s' (OFFSET_VIRND + 255) = 7 /\
    k_pmem s' (OFFSET_VIRND + 32768) = 0.
Proof.
  intros s. assert (cache_std s) as Hs.
  { intros id Hid. pose proof (boot_kfs_std (fun _ => 0) demo_arr id Hid) as H.
    unfold cache_std1, s in *. cbn in *. unfold upd. destruct (Z.eqb_spec id VIRND_CACHE); [subst; exact H|exact H]. }
  destruct (close_metadata_cache_writes_back s Hs) as (s' & Hrun & Hv & _).
  exists s'. assert (cache_id_ok VIRND_CACHE) as Hid by (vm_compute; split; congruence).
  split; [exact Hrun|]. split.
  - exact (Hv VIRND_CACHE 255 Hid ltac:(vm_compute; split; congruence)).
  - exact (Hv VIRND_CACHE 32768 Hid ltac:(vm_compute; split; congruence)).
Defined.

Lemma metadata_pointer_exact_witness :
  match inodeid_to_memaddr 130 (boot_kfs (fun _ => 0) demo_arr) with
  | Some (Some p, s1) => exists s2, mem_write p 8 [5; 6] s1 = Some (tt, s2) /\
      cache_view s2 INODE_CACHE (130 * 512 + 9) = 6
  | _ => False
  end.
Proof.
  pose proof (metadata_pointer_exact INODE_CACHE 130 8 [5; 6] (boot_kfs (fun _ => 0) demo_arr)
    ltac:(vm_compute; split; congruence) (boot_kfs_std _ _) ltac:(lia) ltac:(vm_compute; congruence)) as H.
  change (id_to_memaddr INODE_CACHE MAX_INODE_NUM INODE_CACHE_EXTBLKS ORCH_INODE_SIZE 130)
    with (inodeid_to_memaddr 130) in H.
  assert (match inodeid_to_memaddr 130 (boot_kfs (fun _ => 0) demo_arr) with
    Some (None, _) => false | _ => true end = true) as E by (vm_compute; reflexivity).
  destruct (inodeid_to_memaddr 130 (boot_kfs (fun _ => 0) demo_arr)) as [[[p|] s1]|].
  - destruct H as (_ & _ & s2 & Hrun & _ & _ & Hv). exists s2. split; [exact Hrun|].
    exact (Hv INODE_CACHE (130 * 512 + 9)).
  - discriminate E.
  - exact H.
Defined.
