(* ===== verification/Txn.v ===== *)
(** * Transactions and block reservations (LibFS/lib_log.c, LibFS/libspace.c)

    Building a transaction: creation and binding to the thread, recording of
    allocations, deferred releases and changed metadata; and the reservation and
    release of blocks, which go through the transaction bound to the thread. *)

From stdpp Require Import base tactics numbers list gmap.
From Stdlib Require Import ZArith Lia.
From S2P Require Import Prelude Bytes Layout Pmem DiskFormat Bitmap KernelFunc Frame Kfs MetaCache.
Open Scope Z_scope.

Section txn.
Context `{Mo : MallocOracle}.

(** ** Transactions *)

(** A transaction through its pointer; a dangling pointer has no behaviour. *)
Definition get_txn (h : Z) : M orchfs_log_transaction := fun s =>
  match k_txns s !! h with Some t => Some (t, s) | None => None end.
Definition put_txn (h : Z) (t : orchfs_log_transaction) : M unit :=
  modify (fun s => set_k_txns (<[h := t]> (k_txns s)) s).
Definition free_txn (h : Z) : M unit := modify (fun s => set_k_txns (delete h (k_txns s)) s).

Definition txn_set_error (e : Z) (t : orchfs_log_transaction) : orchfs_log_transaction :=
  mk_txn (tx_records t) (tx_allocations t) (tx_deallocations t) e.
Definition txn_push_allocation (a : allocation_record) (t : orchfs_log_transaction) : orchfs_log_transaction :=
  mk_txn (tx_records t) (a :: tx_allocations t) (tx_deallocations t) (tx_error t).
Definition txn_push_deallocation (a : allocation_record) (t : orchfs_log_transaction) : orchfs_log_transaction :=
  mk_txn (tx_records t) (tx_allocations t) (a :: tx_deallocations t) (tx_error t).
Definition txn_append (r : transaction_record) (t : orchfs_log_transaction) : orchfs_log_transaction :=
  mk_txn (tx_records t ++ [r]) (tx_allocations t) (tx_deallocations t) (tx_error t).
Definition empty_txn : orchfs_log_transaction := mk_txn [] [] [] 0.

(** Error and, on success, the new transaction. *)
Definition orchfs_log_transaction_create : M (Z * Z) :=
  j ← gets k_journal;
  if negb (initialized j) then mret (EIO, 0)
  else
    ok ← malloc;
    if (ok : bool) then
      h ← gets k_next;
      modify (fun s => set_k_next (k_next s + 1) s);;
      put_txn h empty_txn;;
      mret (0, h)
    else mret (ENOMEM, 0).

Definition orchfs_log_transaction_bind (transaction : Z) : M unit :=
  cur ← gets k_cur;
  match cur with
  | Some _ => abort
  | None => modify (set_k_cur (Some transaction))
  end.
Definition orchfs_log_transaction_unbind (transaction : Z) : M unit :=
  cur ← gets k_cur;
  if bool_decide (cur = Some transaction) then modify (set_k_cur None) else abort.

Definition orchfs_log_transaction_record_allocation (transaction type block : Z) : M Z :=
  if (type <? MIN_EXT_ID) || (MAX_EXT_ID <? type) || (block <? 0) then mret EINVAL
  else
    ok ← malloc;
    t ← get_txn transaction;
    if (ok : bool) then
      put_txn transaction (txn_push_allocation (mk_allocation type block) t);; mret 0
    else put_txn transaction (txn_set_error ENOMEM t);; mret ENOMEM.

Definition orchfs_log_record_current_allocation (type block : Z) : M Z :=
  cur ← gets k_cur;
  match cur with
  | None => mret 0
  | Some h => orchfs_log_transaction_record_allocation h type block
  end.

Definition orchfs_log_defer_current_release (type block : Z) : M Z :=
  cur ← gets k_cur;
  match cur with
  | None => mret 0
  | Some h =>
      t ← get_txn h;
      if (type <? MIN_EXT_ID) || (MAX_EXT_ID <? type) || (block <? 0) then
        put_txn h (txn_set_error EINVAL t);; mret (- EINVAL)
      else
        ok ← malloc;
        if (ok : bool) then
          put_txn h (txn_push_deallocation (mk_allocation type block) t);; mret 1
        else put_txn h (txn_set_error ENOMEM t);; mret (- ENOMEM)
  end.

(** [add_record]; [data] is the buffer behind the pointer, [None] for NULL. *)
Definition add_record (kind : transaction_record_kind) (block type : Z) (data : option (list Z))
    (offset length : Z) : M unit :=
  cur ← gets k_cur;
  match cur with
  | None => abort
  | Some h =>
      t ← get_txn h;
      if negb (tx_error t =? 0) then mret tt
      else if (type <? MIN_BLKTYPE_OP) || (MAX_BLKTYPE_OP <? type) || (block <? 0) || (offset <? 0) ||
              (length <? 0) || (negb (length =? 0) && bool_decide (data = None)) then
        put_txn h (txn_set_error EINVAL t)
      else
        ok ← malloc;
        if negb ok then put_txn h (txn_set_error ENOMEM t)
        else if length =? 0 then put_txn h (txn_append (mk_record kind block type offset length []) t)
        else
          ok ← malloc;
          if negb ok then put_txn h (txn_set_error ENOMEM t)
          else put_txn h (txn_append (mk_record kind block type offset length
                                        (slice offset length (default [] data))) t)
  end.

Definition write_create_log (block type : Z) : M unit := add_record RECORD_CREATE block type None 0 0.
Definition write_delete_log (block type : Z) : M unit := add_record RECORD_DELETE block type None 0 0.
Definition write_change_log (block type : Z) (data : option (list Z)) (offset length : Z) : M unit :=
  add_record RECORD_CHANGE block type data offset length.

Definition orchfs_log_transaction_add_pmem (transaction offset : Z) (data : option (list Z)) (length : Z) : M Z :=
  cur ← gets k_cur;
  if bool_decide (cur <> None) || (offset <? 0) || (length <? 0) ||
     (negb (length =? 0) && bool_decide (data = None)) then mret EINVAL
  else
    modify (set_k_cur (Some transaction));;
    add_record RECORD_PMEM offset BUFMETA_OP data 0 length;;
    modify (set_k_cur cur);;
    t ← get_txn transaction;
    mret (tx_error t).

Definition orchfs_log_transaction_is_empty (t : orchfs_log_transaction) : bool :=
  (tx_error t =? 0) && bool_decide (tx_records t = []) && bool_decide (tx_allocations t = []) &&
  bool_decide (tx_deallocations t = []).
End txn.
