(* ===== verification/LibSpace.v ===== *)
(** * Block reservations (LibFS/libspace.c)

    Blocks are taken from and returned to the bitmaps one request at a time; a
    reservation is recorded in the transaction bound to the thread, a release is
    deferred to its commit. *)

From stdpp Require Import base tactics numbers list gmap.
From Stdlib Require Import ZArith Lia.
From S2P Require Import Prelude Bytes Layout Pmem DiskFormat Bitmap KernelFunc Frame Kfs MetaCache Txn.
Open Scope Z_scope.

Section libspace.
Context `{Mo : MallocOracle}.

(** Calls of req_kernel.c on the global bitmaps. *)
Definition call_alloc (f : mem_bmps -> Z -> Z -> Z -> Z * list Z * mem_bmps) (count type : Z) : M (Z * list Z) :=
  fun s => let '(error, response, arr) := f (k_bmps s) (k_worker s) count type in
           Some ((error, response), set_k_bmps arr s).
Definition call_dealloc (f : mem_bmps -> list Z -> Z -> Z * mem_bmps) (blocks : list Z) (type : Z) : M Z :=
  fun s => let '(error, arr) := f (k_bmps s) blocks type in Some (error, set_k_bmps arr s).

(** Error and, on success, the block. *)
Definition request_one (type : Z) : M (Z * Z) :=
  let call f := r ← call_alloc f 1 RET_BLK_ID; mret (Some r) in
  r ← (if type =? INODE_EXT then call request_inode_id_arr
       else if type =? IDXND_EXT then call request_idxnd_id_arr
       else if type =? VIRND_EXT then call request_virnd_id_arr
       else if type =? BUFMETA_EXT then call request_bufmeta_id_arr
       else if type =? PAGE_EXT then call request_page_id_arr
       else if type =? BLOCK_EXT then call request_block_id_arr
       else mret None);
  match r with
  | None => mret (EINVAL, 0)
  | Some (error, response) =>
      if negb (error =? 0) then mret (error, 0)
      else if negb (nth 1 response 0 =? 1) || (s64 (nth 2 response 0) <? 0) then mret (EIO, 0)
      else mret (0, s64 (nth 2 response 0))
  end.

Definition release_one (type block : Z) : M Z :=
  if type =? INODE_EXT then call_dealloc send_dealloc_inode_req [block] PAR_BLK_ID
  else if type =? IDXND_EXT then call_dealloc send_dealloc_idxnd_req [block] PAR_BLK_ID
  else if type =? VIRND_EXT then call_dealloc send_dealloc_virnd_req [block] PAR_BLK_ID
  else if type =? BUFMETA_EXT then call_dealloc send_dealloc_bufmeta_req [block] PAR_BLK_ID
  else if type =? PAGE_EXT then call_dealloc send_dealloc_page_req [block] PAR_BLK_ID
  else if type =? BLOCK_EXT then call_dealloc send_dealloc_block_req [block] PAR_BLK_ID
  else mret EINVAL.

(** The reserved block, or -1 with [errno] set. *)
Definition reserve (type : Z) : M Z :=
  '(error, block) ← request_one type;
  if negb (error =? 0) then (set_errno error;; mret (-1))
  else
    error ← orchfs_log_record_current_allocation type block;
    if negb (error =? 0) then
      _ ← release_one type block;
      set_errno error;; mret (-1)
    else mret block.

Definition release (type block : Z) : M unit :=
  if block <? 0 then set_errno EINVAL
  else
    deferred ← orchfs_log_defer_current_release type block;
    if 0 <? deferred then mret tt
    else if deferred <? 0 then set_errno (- deferred)
    else
      error ← release_one type block;
      if negb (error =? 0) then set_errno error else mret tt.

Definition require_inode_id : M Z := reserve INODE_EXT.
Definition require_index_node_id : M Z := reserve IDXND_EXT.
Definition require_virindex_node_id : M Z := reserve VIRND_EXT.
Definition require_buffer_metadata_id : M Z := reserve BUFMETA_EXT.
Definition require_nvm_page_id : M Z := reserve PAGE_EXT.
Definition require_ssd_block_id : M Z := reserve BLOCK_EXT.

Definition release_inode (block : Z) : M unit := release INODE_EXT block.
Definition release_index_node (block : Z) : M unit := release IDXND_EXT block.
Definition release_virindex_node (block : Z) : M unit := release VIRND_EXT block.
Definition release_buffer_metadata (block : Z) : M unit := release BUFMETA_EXT block.
Definition release_nvm_page (block : Z) : M unit := release PAGE_EXT block.
Definition release_ssd_block (block : Z) : M unit := release BLOCK_EXT block.

Definition request_many (type count : Z) : M (Z * list Z) :=
  if type =? BUFMETA_EXT then call_alloc request_bufmeta_id_arr count RET_BLK_ID
  else if type =? PAGE_EXT then call_alloc request_page_id_arr count RET_BLK_ID
  else if type =? BLOCK_EXT then call_alloc request_block_id_arr count RET_BLK_ID
  else mret (EINVAL, []).

Definition release_many (type : Z) (blocks : list Z) : M Z :=
  if type =? BUFMETA_EXT then call_dealloc send_dealloc_bufmeta_req blocks PAR_BLK_ID
  else if type =? PAGE_EXT then call_dealloc send_dealloc_page_req blocks PAR_BLK_ID
  else if type =? BLOCK_EXT then call_dealloc send_dealloc_block_req blocks PAR_BLK_ID
  else mret EINVAL.

(** The recording loop of [reserve_many]: error, recorded ids (latest first) and
    the ids not recorded. *)
Fixpoint record_many (type : Z) (ids acc : list Z) : M (Z * list Z * list Z) :=
  match ids with
  | [] => mret (0, acc, [])
  | id :: ids' =>
      if id <? 0 then mret (EIO, acc, ids)
      else
        error ← orchfs_log_record_current_allocation type id;
        if negb (error =? 0) then mret (error, acc, ids) else record_many type ids' (id :: acc)
  end.

(** Error and the ids stored to [blocks]. *)
Definition reserve_many (type count : Z) : M (Z * list Z) :=
  if count <? 0 then mret (EINVAL, [])
  else if count =? 0 then mret (0, [])
  else if (INT_MAX <? count) || (UINT64_MAX / 8 - 2 <? count) then mret (EOVERFLOW, [])
  else
    ok ← malloc;
    if negb ok then mret (ENOMEM, [])
    else
      '(error, response) ← request_many type count;
      if negb (error =? 0) then mret (error, [])
      else if negb (nth 1 response 0 =? count) then
        (if (0 <? nth 1 response 0) && (nth 1 response 0 <=? count) then
           _ ← release_many type (map s64 (take (Z.to_nat (nth 1 response 0)) (drop 2 response))); mret tt
         else mret tt);;
        mret (EIO, [])
      else
        '(error, recorded, rest) ← record_many type (map s64 (take (Z.to_nat count) (drop 2 response))) [];
        (if negb (error =? 0) then _ ← release_many type rest; mret tt else mret tt);;
        mret (error, rev recorded).

Definition require_buffer_metadata_ids (count : Z) : M (Z * list Z) := reserve_many BUFMETA_EXT count.
Definition require_nvm_page_ids (count : Z) : M (Z * list Z) := reserve_many PAGE_EXT count.
Definition require_ssd_block_ids (count : Z) : M (Z * list Z) := reserve_many BLOCK_EXT count.

(** ** Requests in terms of the allocator *)

Lemma request_one_run type s : START_BMP_ID <= type <= END_BMP_ID ->
  request_one type s =
  let '(error, response, arr) := request_alloc (k_bmps s) (k_worker s) (alloc_func type) 1 RET_BLK_ID in
  Some (if negb (error =? 0) then (error, 0)
        else if negb (nth 1 response 0 =? 1) || (s64 (nth 2 response 0) <? 0) then (EIO, 0)
        else (0, s64 (nth 2 response 0)), set_k_bmps arr s).
Proof.
  unfold START_BMP_ID, END_BMP_ID. intros Ht. area_cases type.
  all: match goal with |- _ = (let '(_, _) := ?c in _) => destruct c as [[error response] arr] eqn:E end.
  all: unfold request_one, call_alloc, mbind, M_bind, mret, M_ret; cbn -[request_alloc s64].
  all: unfold request_inode_id_arr, request_idxnd_id_arr, request_virnd_id_arr, request_bufmeta_id_arr,
    request_page_id_arr, request_block_id_arr.
  all: change (alloc_func _) with ALLOC_INODE_FUNC in E || change (alloc_func _) with ALLOC_INXND_FUNC in E ||
    change (alloc_func _) with ALLOC_VIRND_FUNC in E || change (alloc_func _) with ALLOC_BUFMETA_FUNC in E ||
    change (alloc_func _) with ALLOC_PAGE_FUNC in E || change (alloc_func _) with ALLOC_BLOCK_FUNC in E.
  all: rewrite E; destruct (negb (error =? 0)); [done|]; by destruct (_ || _).
Qed.

Lemma release_one_run type block s : START_BMP_ID <= type <= END_BMP_ID -> is_s64 block ->
  release_one type block s =
  let '(error, arr) := do_dealloc (k_bmps s) type block in Some (error, set_k_bmps arr s).
Proof.
  intros Ht Hb. rewrite <-request_dealloc_id by done.
  unfold START_BMP_ID, END_BMP_ID in Ht. by area_cases type.
Qed.

(** The allocation list of the transaction bound to the thread. *)
Definition current_allocations (s : kfs) : list allocation_record :=
  match k_cur s with
  | Some h => match k_txns s !! h with Some t => tx_allocations t | None => [] end
  | None => []
  end.
(** The thread's transaction, if any, is live. *)
Definition txn_live (s : kfs) : Prop :=
  match k_cur s with Some h => is_Some (k_txns s !! h) | None => True end.

Lemma record_current_allocation_run type block s :
  MIN_EXT_ID <= type <= MAX_EXT_ID -> 0 <= block -> txn_live s ->
  exists e s', orchfs_log_record_current_allocation type block s = Some (e, s') /\
    k_bmps s' = k_bmps s /\ k_pmem s' = k_pmem s /\ k_worker s' = k_worker s /\ k_cur s' = k_cur s /\
    txn_live s' /\ k_cache s' = k_cache s /\
    ((e = 0 /\ current_allocations s' =
        match k_cur s with Some _ => mk_allocation type block :: current_allocations s | None => [] end) \/
     (e = ENOMEM /\ k_cur s <> None /\ current_allocations s' = current_allocations s)).
Proof.
  intros Ht Hb Hl. unfold orchfs_log_record_current_allocation, gets, mbind, M_bind.
  unfold txn_live, current_allocations in *. destruct (k_cur s) as [h|] eqn:Hc.
  - destruct Hl as [t Hh]. unfold orchfs_log_transaction_record_allocation.
    replace ((type <? MIN_EXT_ID) || (MAX_EXT_ID <? type) || (block <? 0)) with false by lia.
    unfold mbind, M_bind, malloc, get_txn. cbn [k_txns set_k_clock]. rewrite Hh.
    destruct (malloc_ok (k_clock s)).
    + eexists _, _. split; [done|]. cbn. rewrite Hc, !lookup_insert_eq. split_and!; try done. by left.
    + eexists _, _. split; [done|]. cbn. rewrite Hc, !lookup_insert_eq. split_and!; try done.
      right. by split_and!.
  - eexists _, _. split; [done|]. rewrite Hc. split_and!; try done. by left.
Qed.

(** One block asked of the allocator. *)
Lemma do_alloc_one arr worker type e ids arr' : START_BMP_ID <= type <= END_BMP_ID -> bmp_wf (arr type) ->
  do_alloc arr worker type 1 = (e, ids, arr') ->
  bmp_wf (arr' type) /\ same_config (arr type) (arr' type) /\ (forall u, u <> type -> arr' u = arr u) /\
  ((exists b, e = 0 /\ ids = [b] /\ 0 <= b < bmp_total (arr type) /\ bits (arr type) b = false /\
      forall y, bits (arr' type) y = (y =? b) || bits (arr type) y) \/
   (e = ENOSPC /\ forall y, bits (arr' type) y = bits (arr type) y)).
Proof.
  intros Ht Hwf. unfold do_alloc. replace ((type <? START_BMP_ID) || (END_BMP_ID <? type)) with false by lia.
  change (u64 1) with 1. rewrite loopZ_step by lia. unfold alloc_body at 1.
  destruct (allocate_one (arr type) worker) as [r b'] eqn:E.
  pose proof (allocate_one_post _ _ _ _ (proj1 Hwf) E) as Hp. destruct (alloc_one_wf _ _ _ _ Hwf Hp) as [Hwf' _].
  destruct Hp as (_ & Hc & _ & Hr). destruct r as [bit|]; cbn; intros [= <- <- <-]; rewrite upd_same.
  - split_and!; [done|done|by intros; apply upd_other|]. left. exists bit. by destruct Hr as (? & ? & ? & _).
  - split_and!; [done|done|by intros; apply upd_other|]. right. by destruct Hr as (? & _).
Qed.

(** What a reservation does to the bitmap of its area. *)
Lemma request_one_spec type s : START_BMP_ID <= type <= END_BMP_ID -> bmp_wf (k_bmps s type) ->
  exists e b arr, request_one type s = Some ((e, b), set_k_bmps arr s) /\
    bmp_wf (arr type) /\ same_config (k_bmps s type) (arr type) /\
    (forall u, u <> type -> arr u = k_bmps s u) /\
    ((e = 0 /\ 0 <= b < bmp_total (k_bmps s type) /\ bits (k_bmps s type) b = false /\
      forall y, bits (arr type) y = (y =? b) || bits (k_bmps s type) y) \/
     (e = ENOSPC /\ forall y, bits (arr type) y = bits (k_bmps s type) y)).
Proof.
  intros Ht Hwf. rewrite request_one_run by done.
  destruct (do_alloc (k_bmps s) (k_worker s) type 1) as [[e ids] arr] eqn:E.
  rewrite (request_alloc_ids (k_bmps s) (k_worker s) type 1 e ids arr Ht ltac:(lia) E).
  destruct (do_alloc_one _ _ _ _ _ _ Ht Hwf E) as (Hwf' & Hcf & Hoth & Hcase).
  destruct (total_small _ (proj1 Hwf)) as [? _].
  destruct Hcase as [(b & -> & -> & Hb & Hf & Hbits)|(-> & Hbits)].
  - cbn -[s64]. rewrite s64_small by lia. replace (b <? 0) with false by lia.
    exists 0, b, arr. split; [done|]. split_and!; [done..|]. left. split_and!; done || lia.
  - exists ENOSPC, 0, arr. split; [done|]. split_and!; [done..|]. by right.
Qed.

Lemma release_one_spec type block s : START_BMP_ID <= type <= END_BMP_ID -> bmp_wf (k_bmps s type) ->
  0 <= block < bmp_total (k_bmps s type) -> bits (k_bmps s type) block = true ->
  exists arr, release_one type block s = Some (0, set_k_bmps arr s) /\ bmp_wf (arr type) /\
    (forall u, u <> type -> arr u = k_bmps s u) /\ bmp_total (arr type) = bmp_total (k_bmps s type) /\
    forall y, bits (arr type) y = negb (y =? block) && bits (k_bmps s type) y.
Proof.
  intros Ht Hwf Hb Hset. destruct (total_small _ (proj1 Hwf)) as [? _].
  rewrite release_one_run by (done || unfold is_s64; lia).
  pose proof (do_dealloc_spec (k_bmps s) type block Hwf) as Hd.
  destruct (do_dealloc (k_bmps s) type block) as [r arr]. destruct Hd as (Hwf' & Hcf & Hoth & Hr & Hbits & _).
  destruct (in_rangeP block 0 (bmp_total (k_bmps s type))); [|lia]. rewrite Hset in Hr. subst r.
  exists arr. split_and!; [done..|by apply same_config_total|]. intros y. rewrite Hbits. cbn. by destruct (y =? block).
Qed.

Lemma reserve_spec type s : MIN_EXT_ID <= type <= MAX_EXT_ID -> bmp_wf (k_bmps s type) -> txn_live s ->
  exists b s', reserve type s = Some (b, s') /\
    bmp_wf (k_bmps s' type) /\ (forall u, u <> type -> k_bmps s' u = k_bmps s u) /\ k_pmem s' = k_pmem s /\
    bmp_total (k_bmps s' type) = bmp_total (k_bmps s type) /\
    k_cache s' = k_cache s /\ k_cur s' = k_cur s /\ txn_live s' /\
    ((0 <= b < bmp_total (k_bmps s type) /\ bits (k_bmps s type) b = false /\
      (forall y, bits (k_bmps s' type) y = (y =? b) || bits (k_bmps s type) y) /\
      current_allocations s' =
        match k_cur s with Some _ => mk_allocation type b :: current_allocations s | None => [] end) \/
     (b = -1 /\ (k_errno s' = ENOSPC \/ k_errno s' = ENOMEM) /\
      (forall y, bits (k_bmps s' type) y = bits (k_bmps s type) y) /\
      current_allocations s' = current_allocations s)).
Proof.
  intros Ht Hwf Hl. unfold reserve.
  destruct (request_one_spec type s Ht Hwf) as (e & b & arr & Hrun & Hwf1 & Hcf & Hoth & Hcase).
  pose proof (same_config_total _ _ Hcf) as Htot.
  rewrite (bind_run _ _ _ _ _ Hrun). destruct Hcase as [(-> & Hb & Hf & Hbits)|(-> & Hbits)].
  2:{ eexists _, _. split; [done|]. cbn. split_and!; [done..|]. right. split_and!; try done. by left. }
  cbn [Z.eqb negb].
  destruct (record_current_allocation_run type b (set_k_bmps arr s) Ht ltac:(lia) Hl)
    as (e & s2 & Hrun2 & Hbm & Hpm & Hw & Hcu & Hl2 & Hca & Hc2).
  rewrite (bind_run _ _ _ _ _ Hrun2). cbn in Hbm, Hpm, Hw, Hcu, Hca.
  destruct Hc2 as [(-> & Hall)|(-> & _ & Hall)]; cbn [Z.eqb negb ENOMEM].
  - eexists _, _. split; [done|]. rewrite Hbm, Hpm. split_and!; [done..|]. left.
    split_and!; [lia|lia|done|done|]. by rewrite Hall.
  - destruct (release_one_spec type b s2) as (arr3 & Hrun3 & Hwf3 & Hoth3 & Htot3 & Hbits3);
      [done|by rewrite Hbm|rewrite Hbm, Htot; lia|rewrite Hbm, Hbits; by rewrite Z.eqb_refl|].
    rewrite (bind_run _ _ _ _ _ Hrun3). eexists _, _. split; [done|]. cbn.
    split_and!; [done| |done|by rewrite Htot3, Hbm|done|done|done|].
    + intros u Hu. by rewrite Hoth3, Hbm, Hoth.
    + right. split_and!; [done|by right| |done]. intros y. rewrite Hbits3, Hbm, Hbits.
      destruct (Z.eqb_spec y b) as [->|]; [by rewrite Hf|done].
Qed.

(** a reservation either returns a block that was free, is now allocated and is
    in the transaction's allocation list, or returns -1 with [errno] ENOSPC or ENOMEM
    and leaves the bitmap as it was: a failed journal record never leaks a block.  The
    media is not touched, and no other block or area changes. *)
Theorem reserve_never_leaks (type : Z) (s : kfs) :
  MIN_EXT_ID <= type <= MAX_EXT_ID -> bmp_wf (k_bmps s type) -> txn_live s ->
  exists b s', reserve type s = Some (b, s') /\
    bmp_wf (k_bmps s' type) /\ (forall u, u <> type -> k_bmps s' u = k_bmps s u) /\ k_pmem s' = k_pmem s /\
    ((0 <= b < bmp_total (k_bmps s type) /\ bits (k_bmps s type) b = false /\
      (forall y, bits (k_bmps s' type) y = (y =? b) || bits (k_bmps s type) y) /\
      current_allocations s' =
        match k_cur s with Some _ => mk_allocation type b :: current_allocations s | None => [] end) \/
     (b = -1 /\ (k_errno s' = ENOSPC \/ k_errno s' = ENOMEM) /\
      (forall y, bits (k_bmps s' type) y = bits (k_bmps s type) y) /\
      current_allocations s' = current_allocations s)).
Proof.
  intros Ht Hwf Hl. destruct (reserve_spec type s Ht Hwf Hl) as (b & s' & ? & ? & ? & ? & _ & _ & _ & _ & ?).
  exists b, s'. by split_and!.
Qed.

End libspace.

Lemma reserve_never_leaks_witness :
  exists b s', reserve PAGE_EXT (boot_kfs (fun _ => 0) demo_arr) = Some (b, s') /\ bmp_wf (k_bmps s' PAGE_EXT).
Proof.
  destruct (reserve_never_leaks PAGE_EXT (boot_kfs (fun _ => 0) demo_arr)) as (b & s' & H1 & H2 & _).
  - vm_compute; split; congruence.
  - exact demo_bmp_wf.
  - exact I.
  - exists b, s'. split; [exact H1|exact H2].
Defined.
