(* ===== verification/Index.v ===== *)
(** * The file index (LibFS/index.c, LibFS/index.h)

    A file maps its blocks through a radix tree of index nodes with path compression:
    a node skips [zipped_layer] layers of six key bits that are all zero.  Leaves hold
    SSD blocks or virtual nodes with up to eight NVM pages.  The nodes live in the
    metadata cache, and every change is recorded in the thread's transaction. *)

From stdpp Require Import base tactics numbers list gmap.
From Stdlib Require Import ZArith Lia.
From S2P Require Import Prelude Bytes Layout Pmem DiskFormat Bitmap KernelFunc Frame Kfs MetaCache Txn LibSpace.
Open Scope Z_scope.

Definition IDX_ROOT : Z := 0.
Definition NOT_LEAF_NODE : Z := 1.
Definition LEAF_NODE : Z := 2.
Definition VIR_LEAF_NODE : Z := 3.
Definition STRATA_NODE : Z := 4.
Definition SSD_BLOCK : Z := 5.
Definition EMPTY_BLK_TYPE : Z := -1.
Definition EMPTY_BLKID : Z := -1.
Definition LAYER_BITWIDTH : Z := 6.
Definition MAX_ZIPPED_LAYER : Z := 6.
Definition KEY_LEN : Z := 42.
Definition NODE_SON_CAPACITY : Z := 64.
Definition VLN_SLOT_SUM : Z := 8.

(** Field offsets of [idx_nd_t], [idx_root_t] and [vir_nd_t]. *)
Definition ND_TYPE : Z := 0.
Definition ND_ZIPPED : Z := 8.
Definition ND_FLAG : Z := 16.
Definition ND_RESERVED : Z := 32.
Definition ND_SONS : Z := 48.
Definition ROOT_INODE : Z := 8.
Definition ROOT_ENTRY : Z := 16.
Definition ROOT_MAX : Z := 24.
Definition VN_SSD : Z := 8.
Definition VN_MAX_POS : Z := 16.
Definition VN_PAGES : Z := 24.
Definition VN_BUFMETA : Z := 88.

(** [struct offset_info_t]. *)
Record off_info_t := mk_off_info {
  oi_ndtype : Z;
  oi_ssd_dev_addr : Z;
  oi_nvm_page_id : list Z;
  oi_buf_meta_id : list Z;
  oi_offset_ans : Z;
}.

(** ** Field access *)

(** The 64-bit field at byte [off] behind a metadata pointer. *)
Definition ld (p : meta_ptr) (off : Z) : M Z := l ← mem_read p off 8; mret (s64 (le_val l)).
Definition st (p : meta_ptr) (off v : Z) : M unit := mem_write p off (le_bytes 8 v).
Definition field_ptr (p : meta_ptr) (off : Z) : meta_ptr := mk_ptr (mp_cache p) (mp_segment p) (mp_offset p + off).
Definition son_off (i : Z) : Z := ND_SONS + i * 8.

(** Bits of a key. *)
Definition key_bits (key width move_bits : Z) : Z :=
  Z.shiftr (Z.land (Z.shiftl (Z.shiftl 1 width - 1) move_bits) key) move_bits.

(** Run a loop body over [l]; [Some r] leaves the function with [r]. *)
Fixpoint mloop {A} (l : list Z) (body : Z -> M (option A)) : M (option A) :=
  match l with
  | [] => mret None
  | i :: l' => r ← body i; match r with Some _ => mret r | None => mloop l' body end
  end.
Definition zseq (from count : Z) : list Z := map (fun i => from + Z.of_nat i) (seq 0 (Z.to_nat count)).

Section index.
Context `{Mo : MallocOracle}.

(** [write_change_log] of a field of a cached unit. *)
Definition log_change (block type : Z) (p : meta_ptr) (usize offset length : Z) : M unit :=
  data ← mem_read p 0 usize; write_change_log block type (Some data) offset length.
Definition log_idx (block : Z) (p : meta_ptr) (offset length : Z) : M unit :=
  log_change block IDXND_OP p ORCH_IDX_SIZE offset length.
Definition log_vir (block : Z) (p : meta_ptr) (offset length : Z) : M unit :=
  log_change block VIRND_OP p ORCH_VIRND_SIZE offset length.

(** The loops run over [NODE_SON_CAPACITY / 64 = 1] flag word and over the array of
    sons, stored here at once. *)
Definition node_init (p : meta_ptr) (init_zipped_layer ntype : Z) : M unit :=
  st p ND_TYPE ntype;; st p ND_ZIPPED init_zipped_layer;;
  st p ND_FLAG 0;; st p ND_RESERVED 0;;
  mem_write p ND_SONS (mjoin (repeat (le_bytes 8 EMPTY_BLKID) 64)).

Definition vir_node_init (p : meta_ptr) (ntype : Z) : M unit :=
  st p ND_TYPE ntype;; st p VN_SSD EMPTY_BLKID;; st p VN_MAX_POS 0;;
  mem_write p VN_PAGES (mjoin (repeat (le_bytes 8 EMPTY_BLKID) 8));;
  mem_write p VN_BUFMETA (mjoin (repeat (le_bytes 8 EMPTY_BLKID) 8)).

Definition fail_ptr (e : Z) : M (option meta_ptr) := set_errno e;; mret None.
Definition fail_id (e : Z) : M Z := set_errno e;; mret (-1).

Definition check_root_id (root_id inode_id : Z) : M (option meta_ptr) :=
  if (root_id <? 0) || (inode_id <? 0) then fail_ptr EINVAL
  else
    r ← indexid_to_memaddr root_id;
    match r with
    | None => fail_ptr EIO
    | Some root_pt =>
        ndtype ← ld root_pt ND_TYPE;
        idx_inode_id ← ld root_pt ROOT_INODE;
        if negb (ndtype =? IDX_ROOT) || negb (idx_inode_id =? inode_id) then fail_ptr EIO
        else
          entry ← ld root_pt ROOT_ENTRY;
          if entry =? EMPTY_BLKID then
            entry ← require_index_node_id;
            st root_pt ROOT_ENTRY entry;;
            if negb (entry =? -1) then
              log_idx root_id root_pt ROOT_ENTRY 8;;
              write_create_log entry IDXND_OP;;
              r ← indexid_to_memaddr entry;
              match r with
              | None => fail_ptr EIO
              | Some idx_node_pt =>
                  node_init idx_node_pt MAX_ZIPPED_LAYER LEAF_NODE;;
                  log_idx entry idx_node_pt 0 ORCH_IDX_SIZE;;
                  mret (Some root_pt)
              end
            else fail_ptr ENOSPC
          else mret (Some root_pt)
    end.

(** The common guard of [search_leaf_node] and [insert_node_into_index]. *)
Definition bad_node (ndtype zipped_layer searched_len : Z) : bool :=
  (zipped_layer <? 0) || (MAX_ZIPPED_LAYER <? zipped_layer) ||
  (KEY_LEN - searched_len <? zipped_layer * LAYER_BITWIDTH) ||
  (negb (ndtype =? LEAF_NODE) && negb (ndtype =? NOT_LEAF_NODE)) ||
  ((ndtype =? NOT_LEAF_NODE) && (KEY_LEN - searched_len <? zipped_layer * LAYER_BITWIDTH + LAYER_BITWIDTH)).

(** [fuel] bounds the recursion depth; see [search_leaf_node_total]. *)
Fixpoint search_leaf_node (fuel : nat) (now_idxnd_id inode_id searched_len blk_offset : Z) : M Z :=
  match fuel with
  | O => abort
  | S fuel' =>
      if now_idxnd_id =? EMPTY_BLKID then mret (-1)
      else if (now_idxnd_id <? 0) || (inode_id <? 0) || (searched_len <? 0) || (KEY_LEN <? searched_len) ||
              (blk_offset <? 0) || (Z.shiftl 1 KEY_LEN <=? blk_offset) then fail_id EINVAL
      else
        r ← indexid_to_memaddr now_idxnd_id;
        match r with
        | None => fail_id EIO
        | Some now_idxnd =>
            ndtype ← ld now_idxnd ND_TYPE;
            zipped_layer ← ld now_idxnd ND_ZIPPED;
            if bad_node ndtype zipped_layer searched_len then fail_id EIO
            else
              let zipped_len := zipped_layer * LAYER_BITWIDTH in
              let move_bits := KEY_LEN - searched_len - zipped_len in
              if negb (key_bits blk_offset zipped_len move_bits =? 0) then mret (-1)
              else if ndtype =? LEAF_NODE then mret now_idxnd_id
              else
                let move_bits := KEY_LEN - searched_len - zipped_len - LAYER_BITWIDTH in
                let next_layer_key := key_bits blk_offset LAYER_BITWIDTH move_bits in
                next_layer_idxid ← ld now_idxnd (son_off next_layer_key);
                search_leaf_node fuel' next_layer_idxid inode_id (searched_len + zipped_len + LAYER_BITWIDTH) blk_offset
        end
  end.

(** Layer [i] (from 1) of the compressed key part, and the layers that stay
    compressed: those before the first one that is not zero. *)
Definition level_zipped_part (zipped_part zipped_layer_num i : Z) : Z :=
  key_bits zipped_part LAYER_BITWIDTH ((zipped_layer_num - i) * LAYER_BITWIDTH).
Definition allow_zipped_layer (zipped_part zipped_layer_num : Z) : Z :=
  match find (fun i => negb (level_zipped_part zipped_part zipped_layer_num i =? 0)) (zseq 1 zipped_layer_num) with
  | Some i => i - 1
  | None => 0
  end.

(** A new node: reserved, recorded as created, loaded and initialised. *)
Definition create_node (zipped_layer ntype : Z) : M (Z + Z * meta_ptr) :=
  new_idx_id ← require_index_node_id;
  if negb (new_idx_id =? -1) then
    write_create_log new_idx_id IDXND_OP;;
    r ← indexid_to_memaddr new_idx_id;
    match r with
    | None => mret (inl EIO)
    | Some new_idx_pt => node_init new_idx_pt zipped_layer ntype;; mret (inr (new_idx_id, new_idx_pt))
    end
  else mret (inl ENOSPC).

(** The empty son [son_arridx] of a node, created; 0 or an error. *)
Definition add_son (now_idxnd_id : Z) (now_idxnd : meta_ptr) (son_arridx newnd_type : Z) : M Z :=
  r ← create_node 0 newnd_type;
  match r with
  | inl error => mret error
  | inr (new_idx_id, new_idx_pt) =>
      log_idx new_idx_id new_idx_pt 0 ORCH_IDX_SIZE;;
      st now_idxnd (son_off son_arridx) new_idx_id;;
      log_idx now_idxnd_id now_idxnd (son_off son_arridx) 8;;
      mret 0
  end.

(** A node put above [now_idxnd] that keeps [allow] of its compressed layers, with
    [now_idxnd] as its son 0; [father_pt] is where the node was referenced. *)
Definition split_node (now_idxnd_id : Z) (now_idxnd : meta_ptr) (zipped_layer allow : Z) (father_pt : meta_ptr)
    : M (Z + Z * meta_ptr) :=
  r ← create_node allow NOT_LEAF_NODE;
  match r with
  | inl error => mret (inl error)
  | inr (new_idx_id, new_idx_pt) =>
      st new_idx_pt (son_off 0) now_idxnd_id;;
      log_idx new_idx_id new_idx_pt 0 ORCH_IDX_SIZE;;
      st now_idxnd ND_ZIPPED (zipped_layer - allow - 1);;
      log_idx now_idxnd_id now_idxnd ND_ZIPPED 8;;
      st father_pt 0 new_idx_id;;
      mret (inr (new_idx_id, new_idx_pt))
  end.

Fixpoint insert_node_into_index (fuel : nat) (now_idxnd_id inode_id : Z) (father_pt : meta_ptr)
    (searched_len blk_offset : Z) : M Z :=
  match fuel with
  | O => abort
  | S fuel' =>
      if (now_idxnd_id <? 0) || (inode_id <? 0) || (searched_len <? 0) || (KEY_LEN <? searched_len) ||
         (Z.shiftl 1 KEY_LEN <=? blk_offset) then fail_id EINVAL
      else
        r ← indexid_to_memaddr now_idxnd_id;
        match r with
        | None => fail_id EIO
        | Some now_idxnd =>
            ndtype ← ld now_idxnd ND_TYPE;
            zipped_layer ← ld now_idxnd ND_ZIPPED;
            if bad_node ndtype zipped_layer searched_len then fail_id EIO
            else
              let zipped_len := zipped_layer * LAYER_BITWIDTH in
              let zipped_part := key_bits blk_offset zipped_len (KEY_LEN - searched_len - zipped_len) in
              if (ndtype =? LEAF_NODE) && (zipped_part =? 0) then mret 0
              else if (ndtype =? NOT_LEAF_NODE) && (zipped_part =? 0) then
                let move_bits := KEY_LEN - searched_len - zipped_len - LAYER_BITWIDTH in
                let son_arridx := key_bits blk_offset LAYER_BITWIDTH move_bits in
                let newnd_type := if searched_len + zipped_len + LAYER_BITWIDTH =? KEY_LEN - LAYER_BITWIDTH
                                  then LEAF_NODE else NOT_LEAF_NODE in
                son ← ld now_idxnd (son_off son_arridx);
                error ← (if son =? EMPTY_BLKID then add_son now_idxnd_id now_idxnd son_arridx newnd_type else mret 0);
                if negb (error =? 0) then fail_id error
                else
                  next_layer_idxid ← ld now_idxnd (son_off son_arridx);
                  modify_flag ← insert_node_into_index fuel' next_layer_idxid inode_id
                    (field_ptr now_idxnd (son_off son_arridx)) (searched_len + zipped_len + LAYER_BITWIDTH) blk_offset;
                  if modify_flag <? 0 then mret (-1)
                  else
                    (if modify_flag =? 1 then log_idx now_idxnd_id now_idxnd (son_off son_arridx) 8 else mret tt);;
                    mret 0
              else
                let allow := allow_zipped_layer zipped_part zipped_layer in
                r ← split_node now_idxnd_id now_idxnd zipped_layer allow father_pt;
                match r with
                | inl error => fail_id error
                | inr (new_idx_id, new_idx_pt) =>
                    modify_flag ← insert_node_into_index fuel' new_idx_id inode_id
                      (field_ptr new_idx_pt (son_off 0)) searched_len blk_offset;
                    if modify_flag <? 0 then mret (-1)
                    else
                      (if modify_flag =? 1 then log_idx new_idx_id new_idx_pt ND_SONS 8 else mret tt);;
                      mret 1
                end
        end
  end.

(** Recursion depths: a search descends at least six key bits per call, an insertion
    makes at most one further call per level (a split). *)
Definition SEARCH_FUEL : nat := 8.
Definition INSERT_FUEL : nat := 16.
Definition search (id inode_id blk_offset : Z) : M Z := search_leaf_node SEARCH_FUEL id inode_id 0 blk_offset.

(** The flag word of a leaf says which sons are virtual nodes. *)
Definition get_idxson_type (flag pos : Z) : Z :=
  if negb (Z.land flag (Z.shiftl 1 pos) =? 0) then VIR_LEAF_NODE else SSD_BLOCK.
Definition son_type_of (p : meta_ptr) (pos : Z) : M Z :=
  flag ← ld p (ND_FLAG + pos / 64 * 8); mret (get_idxson_type (u64 flag) (pos mod 64)).
Definition change_idxson_type (p : meta_ptr) (pos type : Z) : M unit :=
  let foff := ND_FLAG + pos / 64 * 8 in
  flag ← ld p foff;
  st p foff (if type =? VIR_LEAF_NODE then Z.lor (u64 flag) (Z.shiftl 1 (pos mod 64))
             else Z.land (u64 flag) (u64 (Z.lnot (Z.shiftl 1 (pos mod 64))))).

(** [errno != 0 ? errno : EIO]. *)
Definition errno_or_eio : M Z := e ← gets k_errno; mret (if negb (e =? 0) then e else EIO).

Definition get_and_add_leafnode_id (root_id : Z) (root : option meta_ptr) (inode_id offset : Z) : M Z :=
  match root with
  | None => e ← gets k_errno; (if e =? 0 then set_errno EINVAL else mret tt);; mret (-1)
  | Some root_pt =>
      set_errno 0;;
      entry ← ld root_pt ROOT_ENTRY;
      leaf_node_id ← search entry inode_id offset;
      if leaf_node_id =? -1 then
        e ← gets k_errno;
        if negb (e =? 0) then mret (-1)
        else
          modified ← insert_node_into_index INSERT_FUEL entry inode_id (field_ptr root_pt ROOT_ENTRY) 0 offset;
          if modified <? 0 then mret (-1)
          else
            (if modified =? 1 then log_idx root_id root_pt ROOT_ENTRY 8 else mret tt);;
            set_errno 0;;
            entry ← ld root_pt ROOT_ENTRY;
            leaf_node_id ← search entry inode_id offset;
            e ← gets k_errno;
            (if (leaf_node_id <? 0) && (e =? 0) then set_errno EIO else mret tt);;
            mret leaf_node_id
      else mret leaf_node_id
  end.

Definition get_and_add_leafnode_pt (root_id : Z) (root : option meta_ptr) (inode_id offset : Z) : M (option meta_ptr) :=
  leaf_node_id ← get_and_add_leafnode_id root_id root inode_id offset;
  if leaf_node_id <? 0 then mret None
  else
    r ← indexid_to_memaddr leaf_node_id;
    match r with None => fail_ptr EIO | Some leaf_pt => mret (Some leaf_pt) end.

Definition get_leafnode_id (root_pt : meta_ptr) (inode_id offset : Z) : M Z :=
  entry ← ld root_pt ROOT_ENTRY; search entry inode_id offset.
Definition get_leafnode_pt (root : option meta_ptr) (inode_id offset : Z) : M (option meta_ptr) :=
  match root with
  | None => fail_ptr EINVAL
  | Some root_pt =>
      leaf_node_id ← get_leafnode_id root_pt inode_id offset;
      if leaf_node_id =? -1 then mret None
      else
        r ← indexid_to_memaddr leaf_node_id;
        match r with None => fail_ptr EIO | Some leaf_pt => mret (Some leaf_pt) end
  end.

Definition insert_strata_node (inode_id : Z) (leaf_pt : meta_ptr) (leaf_pos : Z) : M Z :=
  if (leaf_pos <? 0) || (NODE_SON_CAPACITY <=? leaf_pos) then mret EINVAL
  else
    son_type ← son_type_of leaf_pt leaf_pos;
    if son_type =? SSD_BLOCK then
      virnd_id ← require_virindex_node_id;
      if negb (virnd_id =? -1) then
        write_create_log virnd_id VIRND_OP;;
        r ← virnodeid_to_memaddr virnd_id;
        match r with
        | None => mret EIO
        | Some virnd_mem_pt =>
            vir_node_init virnd_mem_pt STRATA_NODE;;
            son ← ld leaf_pt (son_off leaf_pos);
            st virnd_mem_pt VN_SSD son;;
            log_vir virnd_id virnd_mem_pt 0 ORCH_VIRND_SIZE;;
            st leaf_pt (son_off leaf_pos) virnd_id;;
            change_idxson_type leaf_pt leaf_pos VIR_LEAF_NODE;;
            mret 0
        end
      else mret ENOSPC
    else mret EINVAL.

Definition create_index (inode_id : Z) : M Z :=
  root_blk_id ← require_index_node_id;
  if negb (root_blk_id =? -1) then
    write_create_log root_blk_id IDXND_OP;;
    r ← indexid_to_memaddr root_blk_id;
    match r with
    | None => fail_id EIO
    | Some root_pt =>
        mem_write root_pt 0 (zeros 32);;
        st root_pt ND_TYPE IDX_ROOT;; st root_pt ROOT_INODE inode_id;;
        st root_pt ROOT_ENTRY EMPTY_BLKID;; st root_pt ROOT_MAX (-1);;
        log_idx root_blk_id root_pt 0 32;;
        mret root_blk_id
    end
  else fail_id ENOSPC.

(** ** Appending *)

Definition leaf_pos_of (blk_offset : Z) : Z := Z.land blk_offset (Z.shiftl 1 LAYER_BITWIDTH - 1).

(** The inner loop of [append_ssd_blocks] from leaf position [i]: blocks stored, or
    [None] at an occupied position. *)
Fixpoint append_sons (fuel : nat) (leaf_pt : meta_ptr) (i : Z) (blocks : list Z) : M (option Z) :=
  match fuel, blocks with
  | S fuel', b :: blocks' =>
      son ← ld leaf_pt (son_off i);
      if negb (son =? EMPTY_BLKID) then mret None
      else
        st leaf_pt (son_off i) b;;
        r ← append_sons fuel' leaf_pt (i + 1) blocks';
        mret (match r with Some n => Some (n + 1) | None => None end)
  | _, _ => mret (Some 0)
  end.

(** The [while] loop: [blocks] are those not yet appended. *)
Fixpoint append_ssd_loop (fuel : nat) (root_id : Z) (root_pt : meta_ptr) (inode_id app_blk_off : Z)
    (blocks : list Z) : M Z :=
  match blocks with
  | [] => mret 0
  | _ :: _ =>
      match fuel with
      | O => abort
      | S fuel' =>
          leaf_node_id ← get_and_add_leafnode_id root_id (Some root_pt) inode_id app_blk_off;
          if leaf_node_id <? 0 then errno_or_eio
          else
            r ← indexid_to_memaddr leaf_node_id;
            match r with
            | None => mret EIO
            | Some leaf_pt =>
                let leaf_offset := leaf_pos_of app_blk_off in
                r ← append_sons (Z.to_nat (NODE_SON_CAPACITY - leaf_offset)) leaf_pt leaf_offset blocks;
                match r with
                | None => mret EIO
                | Some this_app_blk =>
                    log_idx leaf_node_id leaf_pt (son_off leaf_offset) (this_app_blk * 8);;
                    append_ssd_loop fuel' root_id root_pt inode_id (app_blk_off + this_app_blk)
                      (drop (Z.to_nat this_app_blk) blocks)
                end
            end
      end
  end.

(** [need_app_blk_num] is an [int32_t]. *)
Definition append_ssd_blocks (root_id inode_id app_blk_num : Z) (ssd_blk_id_arr : list Z) : M Z :=
  root ← check_root_id root_id inode_id;
  match root with
  | None => errno_or_eio
  | Some root_pt =>
      max_blk_offset ← ld root_pt ROOT_MAX;
      let app_blk_off := max_blk_offset + 1 in
      if (app_blk_num <=? 0) || (app_blk_off <? 0) || (Z.shiftl 1 KEY_LEN - app_blk_off <? app_blk_num) then mret EFBIG
      else
        let need := take (Z.to_nat (s32 app_blk_num)) ssd_blk_id_arr in
        error ← append_ssd_loop (length need) root_id root_pt inode_id app_blk_off need;
        if negb (error =? 0) then mret error
        else
          max_blk_offset ← ld root_pt ROOT_MAX;
          st root_pt ROOT_MAX (max_blk_offset + app_blk_num);;
          log_idx root_id root_pt ROOT_MAX 8;;
          mret 0
  end.
Definition append_single_ssd_block (root_id inode_id ssd_blk_id : Z) : M Z :=
  append_ssd_blocks root_id inode_id 1 [ssd_blk_id].

(** The loop over free slots of a virtual node from [max_pos]: the pages left. *)
Fixpoint fill_pages (fuel : nat) (virnd : meta_ptr) (i : Z) (pages : list Z) : M (list Z) :=
  match fuel, pages with
  | S fuel', page :: pages' =>
      st virnd (VN_PAGES + i * 8) page;;
      max_pos ← ld virnd VN_MAX_POS;
      st virnd VN_MAX_POS (max_pos + 1);;
      fill_pages fuel' virnd (i + 1) pages'
  | _, _ => mret pages
  end.
(** ... with the log record, and whether the next block is needed. *)
Definition fill_virnd (virnd_id : Z) (virnd : meta_ptr) (pages : list Z) : M (list Z * bool) :=
  max_pos ← ld virnd VN_MAX_POS;
  rest ← fill_pages (Z.to_nat (VLN_SLOT_SUM - max_pos)) virnd max_pos pages;
  log_vir virnd_id virnd 0 ORCH_VIRND_SIZE;;
  max_pos ← ld virnd VN_MAX_POS;
  mret (rest, (max_pos =? VLN_SLOT_SUM) && negb (bool_decide (rest = []))).

(** The virtual node of a leaf position, created if the position is empty. *)
Definition leaf_virnd (leaf_node_id : Z) (leaf_pt : meta_ptr) (leaf_pos : Z) : M (Z + Z * meta_ptr) :=
  son ← ld leaf_pt (son_off leaf_pos);
  if negb (son =? EMPTY_BLKID) then
    son_type ← son_type_of leaf_pt leaf_pos;
    if son_type =? SSD_BLOCK then mret (inl EIO)
    else
      r ← virnodeid_to_memaddr son;
      match r with
      | None => mret (inl EIO)
      | Some virnd =>
          max_pos ← ld virnd VN_MAX_POS;
          ndtype ← ld virnd ND_TYPE;
          if (max_pos <? 0) || (VLN_SLOT_SUM <? max_pos) then mret (inl EIO)
          else if ndtype =? STRATA_NODE then mret (inl EIO)
          else if negb (ndtype =? VIR_LEAF_NODE) then mret (inl EIO)
          else mret (inr (son, virnd))
      end
  else
    virnd_id ← require_virindex_node_id;
    if negb (virnd_id =? -1) then
      write_create_log virnd_id VIRND_OP;;
      r ← virnodeid_to_memaddr virnd_id;
      match r with
      | None => mret (inl EIO)
      | Some virnd =>
          vir_node_init virnd VIR_LEAF_NODE;;
          st leaf_pt (son_off leaf_pos) virnd_id;;
          change_idxson_type leaf_pt leaf_pos VIR_LEAF_NODE;;
          log_idx leaf_node_id leaf_pt ND_FLAG 16;;
          log_idx leaf_node_id leaf_pt (son_off leaf_pos) 8;;
          mret (inr (virnd_id, virnd))
      end
    else set_errno ENOSPC;; mret (inl ENOSPC).

(** One iteration of the [while] loop of [append_nvm_pages] over the block offset
    and the pages left; it ends with an error and the last block offset. *)
Definition append_nvm_step (root_id : Z) (root_pt : meta_ptr) (inode_id : Z) (st : Z * list Z)
    : M (ctl (Z * list Z) (Z * Z)) :=
  let '(app_blk_offset, pages) := st in
  match pages with
  | [] => mret (Stop (0, app_blk_offset))
  | _ :: _ =>
      leaf_node_id ← get_and_add_leafnode_id root_id (Some root_pt) inode_id app_blk_offset;
      if leaf_node_id <? 0 then e ← errno_or_eio; mret (Stop (e, app_blk_offset))
      else
        r ← indexid_to_memaddr leaf_node_id;
        match r with
        | None => mret (Stop (EIO, app_blk_offset))
        | Some leaf_pt =>
            r ← leaf_virnd leaf_node_id leaf_pt (leaf_pos_of app_blk_offset);
            match r with
            | inl error => mret (Stop (error, app_blk_offset))
            | inr (virnd_id, virnd) =>
                '(rest, next) ← fill_virnd virnd_id virnd pages;
                mret (Next (if (next : bool) then app_blk_offset + 1 else app_blk_offset, rest))
            end
        end
  end.
(** Every iteration stores a page or moves on to the next of 2^42 blocks. *)
Definition APPEND_FUEL : Z := 2 ^ 43.

Definition append_nvm_pages (root_id inode_id app_blk_num : Z) (nvm_page_id_arr : list Z) : M Z :=
  root ← check_root_id root_id inode_id;
  match root with
  | None => errno_or_eio
  | Some root_pt =>
      if app_blk_num <=? 0 then mret EINVAL
      else
        max_blk_offset ← ld root_pt ROOT_MAX;
        start ← (if max_blk_offset =? -1 then mret (inr 0)
          else
            leaf ← get_and_add_leafnode_pt root_id root inode_id max_blk_offset;
            match leaf with
            | None => e ← errno_or_eio; mret (inl e)
            | Some leaf_pt =>
                let leaf_pos := leaf_pos_of max_blk_offset in
                son ← ld leaf_pt (son_off leaf_pos);
                if negb (son =? EMPTY_BLKID) then
                  son_type ← son_type_of leaf_pt leaf_pos;
                  mret (inr (if son_type =? SSD_BLOCK then max_blk_offset + 1 else max_blk_offset))
                else mret (inr max_blk_offset)
            end);
        match start with
        | inl error => mret error
        | inr app_blk_offset =>
            let pages := take (Z.to_nat app_blk_num) nvm_page_id_arr in
            '(error, last) ← loopM APPEND_FUEL (append_nvm_step root_id root_pt inode_id) (app_blk_offset, pages);
            if negb (error =? 0) then mret error
            else
              st root_pt ROOT_MAX last;;
              log_idx root_id root_pt ROOT_MAX 8;;
              mret 0
        end
  end.
Definition append_single_nvm_page (root_id inode_id nvm_page_id : Z) : M Z :=
  append_nvm_pages root_id inode_id 1 [nvm_page_id].

(** ** Queries *)

Definition no_pages : list Z := repeat EMPTY_BLKID 8.
(** The eight ids of a virtual node as device addresses. *)
Definition slot_addrs (virnd : meta_ptr) (off : Z) (to_devaddr : Z -> Z) : M (list Z) :=
  fun s => Some (map (fun i =>
    let id := s64 (le_val (buf_bytes (ptr_buffer s virnd) (mp_offset virnd + (off + i * 8)) 8)) in
    if id =? EMPTY_BLK_TYPE then -1 else to_devaddr id) (zseq 0 VLN_SLOT_SUM), s).

Definition query_offset_info (root_id inode_id blk_offset : Z) : M off_info_t :=
  let none := mk_off_info EMPTY_BLK_TYPE EMPTY_BLKID no_pages no_pages blk_offset in
  r ← indexid_to_memaddr root_id;
  match r with
  | None => mret none
  | Some root_pt =>
      entry ← ld root_pt ROOT_ENTRY;
      if entry =? EMPTY_BLKID then mret none
      else
        leaf ← get_leafnode_pt (Some root_pt) inode_id blk_offset;
        match leaf with
        | None => mret none
        | Some leaf_pt =>
            let leaf_pos := leaf_pos_of blk_offset in
            son_type ← son_type_of leaf_pt leaf_pos;
            son ← ld leaf_pt (son_off leaf_pos);
            if (son_type =? SSD_BLOCK) && negb (son =? EMPTY_BLKID) then
              mret (mk_off_info SSD_BLOCK (if son =? EMPTY_BLK_TYPE then -1 else ssdblk_to_devaddr son)
                      no_pages no_pages blk_offset)
            else if (son_type =? VIR_LEAF_NODE) && negb (son =? EMPTY_BLKID) then
              r ← virnodeid_to_memaddr son;
              match r with
              | None => mret none
              | Some virnd =>
                  pages ← slot_addrs virnd VN_PAGES nvmpage_to_devaddr;
                  ndtype ← ld virnd ND_TYPE;
                  if ndtype =? VIR_LEAF_NODE then
                    mret (mk_off_info VIR_LEAF_NODE EMPTY_BLKID pages no_pages blk_offset)
                  else if ndtype =? STRATA_NODE then
                    ssd ← ld virnd VN_SSD;
                    metas ← slot_addrs virnd VN_BUFMETA bufmetaid_to_devaddr;
                    mret (mk_off_info STRATA_NODE (if ssd =? EMPTY_BLK_TYPE then -1 else ssdblk_to_devaddr ssd)
                            pages metas blk_offset)
                  else mret (mk_off_info EMPTY_BLK_TYPE EMPTY_BLKID pages no_pages blk_offset)
              end
            else mret none
        end
  end.

(** ** Changes of single blocks *)

(** The guard all of them share, and the leaf of the block: its id and pointer. *)
Definition with_root (root_id inode_id blk_offset : Z) (f : meta_ptr -> M Z) : M Z :=
  if (blk_offset <? 0) || (Z.shiftl 1 KEY_LEN <=? blk_offset) then mret EINVAL
  else
    root ← check_root_id root_id inode_id;
    match root with None => errno_or_eio | Some root_pt => f root_pt end.
Definition with_leaf (root_pt : meta_ptr) (inode_id blk_offset : Z) (f : Z -> meta_ptr -> M Z) : M Z :=
  leaf_node_id ← get_leafnode_id root_pt inode_id blk_offset;
  if leaf_node_id =? -1 then mret ENOENT
  else
    r ← indexid_to_memaddr leaf_node_id;
    match r with None => mret EIO | Some leaf_pt => f leaf_node_id leaf_pt end.

Definition change_ssd_blk_info (root_id inode_id blk_offset changed_blkid : Z) : M Z :=
  with_root root_id inode_id blk_offset (fun root_pt =>
    with_leaf root_pt inode_id blk_offset (fun leaf_node_id leaf_pt =>
      let leaf_pos := leaf_pos_of blk_offset in
      st leaf_pt (son_off leaf_pos) changed_blkid;;
      log_idx leaf_node_id leaf_pt (son_off leaf_pos) 8;;
      mret 0)).

Definition change_nvm_page_info (root_id inode_id blk_offset pos changed_pageid : Z) : M Z :=
  with_root root_id inode_id blk_offset (fun root_pt =>
    leaf ← get_leafnode_pt (Some root_pt) inode_id blk_offset;
    match leaf with
    | None => mret ENOENT
    | Some leaf_pt =>
        let leaf_pos := leaf_pos_of blk_offset in
        son_type ← son_type_of leaf_pt leaf_pos;
        if negb (son_type =? VIR_LEAF_NODE) then mret EINVAL
        else
          vir_node_id ← ld leaf_pt (son_off leaf_pos);
          r ← virnodeid_to_memaddr vir_node_id;
          match r with
          | None => mret EIO
          | Some virnd =>
              max_pos ← ld virnd VN_MAX_POS;
              if (max_pos <=? pos) || (pos <? 0) then mret EINVAL
              else
                st virnd (VN_PAGES + pos * 8) changed_pageid;;
                log_vir vir_node_id virnd (VN_PAGES + pos * 8) 8;;
                mret 0
          end
    end).

(** Release the non-empty ids among the slots from [off]. *)
Definition release_slots (virnd : meta_ptr) (off : Z) (release_id : Z -> M unit) : M unit :=
  mforeach (fun i => id ← ld virnd (off + i * 8);
    if negb (id =? EMPTY_BLKID) then release_id id else mret tt) (zseq 0 VLN_SLOT_SUM).

Definition change_virnd_to_ssdblk (root_id inode_id blk_offset changed_blkid : Z) : M Z :=
  with_root root_id inode_id blk_offset (fun root_pt =>
    with_leaf root_pt inode_id blk_offset (fun leaf_node_id leaf_pt =>
      let leaf_pos := leaf_pos_of blk_offset in
      son_type ← son_type_of leaf_pt leaf_pos;
      if negb (son_type =? VIR_LEAF_NODE) then mret EINVAL
      else
        vir_node_id ← ld leaf_pt (son_off leaf_pos);
        r ← virnodeid_to_memaddr vir_node_id;
        match r with
        | None => mret EIO
        | Some virnd =>
            ndtype ← ld virnd ND_TYPE;
            if negb (ndtype =? VIR_LEAF_NODE) then mret EINVAL
            else
              st leaf_pt (son_off leaf_pos) changed_blkid;;
              change_idxson_type leaf_pt leaf_pos SSD_BLOCK;;
              log_idx leaf_node_id leaf_pt ND_FLAG 16;;
              log_idx leaf_node_id leaf_pt (son_off leaf_pos) 8;;
              release_slots virnd VN_PAGES release_nvm_page;;
              release_virindex_node vir_node_id;;
              mret 0
        end)).

Definition insert_strata_page_and_metabuf (root_id inode_id blk_offset pos nvm_page_id buf_id : Z) : M Z :=
  with_root root_id inode_id blk_offset (fun root_pt =>
    with_leaf root_pt inode_id blk_offset (fun leaf_node_id leaf_pt =>
      let leaf_pos := leaf_pos_of blk_offset in
      son ← ld leaf_pt (son_off leaf_pos);
      if son =? EMPTY_BLKID then mret ENOENT
      else
        son_type ← son_type_of leaf_pt leaf_pos;
        error ← (if son_type =? SSD_BLOCK then
                   insert_error ← insert_strata_node inode_id leaf_pt leaf_pos;
                   if negb (insert_error =? 0) then mret insert_error
                   else
                     log_idx leaf_node_id leaf_pt ND_FLAG 16;;
                     log_idx leaf_node_id leaf_pt (son_off leaf_pos) 8;;
                     mret 0
                 else mret 0);
        if negb (error =? 0) then mret error
        else
          vir_node_id ← ld leaf_pt (son_off leaf_pos);
          r ← virnodeid_to_memaddr vir_node_id;
          match r with
          | None => mret EIO
          | Some virnd =>
              ndtype ← ld virnd ND_TYPE;
              if ndtype =? VIR_LEAF_NODE then mret ENOENT
              else if ndtype =? STRATA_NODE then
                if (pos <? 0) || (VLN_SLOT_SUM <=? pos) then mret EINVAL
                else
                  page ← ld virnd (VN_PAGES + pos * 8);
                  meta ← ld virnd (VN_BUFMETA + pos * 8);
                  if negb (page =? EMPTY_BLKID) || negb (meta =? EMPTY_BLKID) then mret EEXIST
                  else
                    st virnd (VN_PAGES + pos * 8) nvm_page_id;;
                    st virnd (VN_BUFMETA + pos * 8) buf_id;;
                    log_vir vir_node_id virnd (VN_PAGES + pos * 8) 8;;
                    log_vir vir_node_id virnd (VN_BUFMETA + pos * 8) 8;;
                    mret 0
              else mret ENOENT
          end)).

(** ** Deletion *)

(** The son [i] of a leaf: [Some error] leaves the function. *)
Definition delete_leaf_son (leaf_pt : meta_ptr) (i : Z) : M (option Z) :=
  son ← ld leaf_pt (son_off i);
  if son =? EMPTY_BLKID then mret None
  else
    son_type ← son_type_of leaf_pt i;
    if son_type =? SSD_BLOCK then release_ssd_block son;; mret None
    else
      r ← virnodeid_to_memaddr son;
      match r with
      | None => mret (Some EIO)
      | Some virnd =>
          release_slots virnd VN_PAGES release_nvm_page;;
          ndtype ← ld virnd ND_TYPE;
          (if ndtype =? STRATA_NODE then
             release_slots virnd VN_BUFMETA release_buffer_metadata;;
             ssd ← ld virnd VN_SSD;
             release_ssd_block ssd
           else mret tt);;
          release_virindex_node son;;
          mret None
      end.

Fixpoint delete_all_index_operation (fuel : nat) (now_idx : option meta_ptr) (inode_id : Z) : M Z :=
  match fuel with
  | O => abort
  | S fuel' =>
      match now_idx with
      | None => mret EIO
      | Some now_idx_pt =>
          ndtype ← ld now_idx_pt ND_TYPE;
          if ndtype =? LEAF_NODE then
            r ← mloop (zseq 0 NODE_SON_CAPACITY) (delete_leaf_son now_idx_pt);
            mret (default 0 r)
          else if ndtype =? NOT_LEAF_NODE then
            r ← mloop (zseq 0 NODE_SON_CAPACITY) (fun i =>
              son_idx_id ← ld now_idx_pt (son_off i);
              if son_idx_id =? EMPTY_BLKID then mret None
              else
                next_idx_pt ← indexid_to_memaddr son_idx_id;
                error ← delete_all_index_operation fuel' next_idx_pt inode_id;
                if negb (error =? 0) then mret (Some error)
                else release_index_node son_idx_id;; mret None);
            mret (default 0 r)
          else mret EIO
      end
  end.

(** [delete_part_index_operation]; the result of the nested deletions is ignored,
    errors are left in [errno]. *)
Fixpoint delete_part_index_operation (fuel : nat) (idx : option meta_ptr) (inode_id searched_len offset : Z) : M unit :=
  match fuel with
  | O => abort
  | S fuel' =>
      match idx with
      | None => set_errno EINVAL
      | Some idx_pt =>
          zipped_layer ← ld idx_pt ND_ZIPPED;
          if (searched_len <? 0) || (KEY_LEN <? searched_len) || (offset <? 0) || (Z.shiftl 1 KEY_LEN <=? offset) ||
             (zipped_layer <? 0) || (MAX_ZIPPED_LAYER <? zipped_layer) then set_errno EINVAL
          else
            let zipped_len := zipped_layer * LAYER_BITWIDTH in
            if KEY_LEN - searched_len <? zipped_len then set_errno EINVAL
            else
              let move_bits := KEY_LEN - searched_len - zipped_len in
              if negb (key_bits offset zipped_len move_bits =? 0) then set_errno EINVAL
              else
                ndtype ← ld idx_pt ND_TYPE;
                let next_layer_key := key_bits offset LAYER_BITWIDTH move_bits in
                r ← mloop (zseq next_layer_key (NODE_SON_CAPACITY - next_layer_key)) (fun i =>
                  next_layer_idxid ← ld idx_pt (son_off i);
                  if next_layer_idxid =? EMPTY_BLKID then mret None
                  else
                    r ← indexid_to_memaddr next_layer_idxid;
                    match r with
                    | None => mret (Some EIO)
                    | Some next_idxnd =>
                        (if negb (ndtype =? LEAF_NODE) && (i =? next_layer_key)
                         then delete_part_index_operation fuel' (Some next_idxnd) inode_id
                                (searched_len + zipped_len + LAYER_BITWIDTH) offset
                         else _ ← delete_all_index_operation fuel' (Some next_idxnd) inode_id; mret tt);;
                        release_index_node next_layer_idxid;;
                        mret None
                    end);
                match r with Some e => set_errno e | None => mret tt end
      end
  end.

Definition delete_part_index (fuel : nat) (root_id inode_id blk_offset : Z) : M unit :=
  root ← check_root_id root_id inode_id;
  entry ← match root with Some root_pt => ld root_pt ROOT_ENTRY | None => mret (-1) end;
  if entry <? 0 then e ← gets k_errno; (if e =? 0 then set_errno EIO else mret tt)
  else
    start_idx ← indexid_to_memaddr entry;
    match start_idx with
    | None => set_errno EIO
    | Some start_idx_pt =>
        set_errno 0;;
        delete_part_index_operation fuel (Some start_idx_pt) inode_id 0 blk_offset;;
        e ← gets k_errno;
        if negb (e =? 0) then mret tt else release_index_node entry
    end.

Definition delete_all_index (fuel : nat) (root_id inode_id : Z) : M Z :=
  if root_id <? 0 then mret EINVAL
  else
    root ← indexid_to_memaddr root_id;
    match root with
    | None => mret EIO
    | Some root_pt =>
        ndtype ← ld root_pt ND_TYPE;
        if negb (ndtype =? IDX_ROOT) then mret EIO
        else
          entry ← ld root_pt ROOT_ENTRY;
          error ← (if 0 <=? entry then
                     start_idx ← indexid_to_memaddr entry;
                     error ← delete_all_index_operation fuel start_idx inode_id;
                     if negb (error =? 0) then mret error
                     else release_index_node entry;; mret 0
                   else mret 0);
          if negb (error =? 0) then mret error
          else release_index_node root_id;; mret 0
    end.

Fixpoint sync_all_index (fuel : nat) (now_idx : option meta_ptr) (inode_id : Z) : M unit :=
  match fuel with
  | O => abort
  | S fuel' =>
      match now_idx with
      | None => abort
      | Some now_idx_pt =>
          ndtype ← ld now_idx_pt ND_TYPE;
          if ndtype =? LEAF_NODE then
            mforeach (fun i =>
              son ← ld now_idx_pt (son_off i);
              if son =? EMPTY_BLKID then mret tt
              else
                son_type ← son_type_of now_idx_pt i;
                if son_type =? VIR_LEAF_NODE then sync_virnd_blk son else mret tt) (zseq 0 NODE_SON_CAPACITY)
          else if ndtype =? NOT_LEAF_NODE then
            mforeach (fun i =>
              son_idx_id ← ld now_idx_pt (son_off i);
              if son_idx_id =? EMPTY_BLKID then mret tt
              else
                next_idx_pt ← indexid_to_memaddr son_idx_id;
                sync_all_index fuel' next_idx_pt inode_id;;
                sync_index_blk son_idx_id) (zseq 0 NODE_SON_CAPACITY)
          else mret tt
      end
  end.
End index.
