(* ===== verification/IndexWords.v ===== *)
(** * Index nodes as words

    The effect of the steps the index operations are made of (loading a node,
    reading and storing a field, recording a change, reserving a node) on the words
    of the index nodes and on which nodes are allocated. *)

From stdpp Require Import base tactics numbers list gmap.
From Stdlib Require Import ZArith Lia.
From S2P Require Import Prelude Bytes Layout Pmem DiskFormat Bitmap KernelFunc Frame Kfs MetaCache Txn LibSpace Index.
Open Scope Z_scope.

(** The 64-bit field at byte [off] of index node [id]. *)
Definition idx_word (s : kfs) (id off : Z) : Z :=
  s64 (le_val (nvm_read (cache_view s IDXND_CACHE) 8 (id * ORCH_IDX_SIZE + off))).
Definition idx_alloc (s : kfs) (id : Z) : bool := bits (k_bmps s IDXND_EXT) id.

(** What the index operations rely on: an initialised cache, a transaction bound to
    the thread, and the bitmap of the index area. *)
Record world (s : kfs) : Prop := {
  w_cache : cache_std s;
  w_txn : exists h, k_cur s = Some h /\ is_Some (k_txns s !! h);
  w_bmp : bmp_wf (k_bmps s IDXND_EXT);
  w_total : bmp_total (k_bmps s IDXND_EXT) = MAX_INDEX_NUM;
}.

(** A step that keeps the world and the loaded nodes, *)
Record istep (s s' : kfs) : Prop := {
  is_world : world s';
  is_points : forall id p, points_to s IDXND_CACHE id p -> points_to s' IDXND_CACHE id p;
}.
(** ... one that also keeps the contents of the caches and the allocations. *)
Record iquiet (s s' : kfs) : Prop := {
  iq_step : istep s s';
  iq_view : forall c o, cache_view s' c o = cache_view s c o;
  iq_alloc : forall id, idx_alloc s' id = idx_alloc s id;
}.
Lemma iq_words s s' : iquiet s s' -> forall id off, idx_word s' id off = idx_word s id off.
Proof.
  intros Q id off. unfold idx_word.
  by rewrite (nvm_read_ext (cache_view s' IDXND_CACHE) (cache_view s IDXND_CACHE)) by (intros; apply (iq_view _ _ Q)).
Qed.

Lemma istep_trans s1 s2 s3 : istep s1 s2 -> istep s2 s3 -> istep s1 s3.
Proof. intros [A1 A2] [B1 B2]. split; auto. Qed.
Lemma iquiet_refl s : world s -> iquiet s s.
Proof. intros H. split; [by split|done|done]. Qed.
Lemma iquiet_trans s1 s2 s3 : iquiet s1 s2 -> iquiet s2 s3 -> iquiet s1 s3.
Proof.
  intros [A1 A2 A3] [B1 B2 B3]. split; [by eapply istep_trans|..]; intros; by rewrite ?B2, ?B3.
Qed.

(** ** Effects that leave the cache contents alone *)

Lemma quiet_of s s' : world s -> world s' -> k_cache s' = k_cache s -> k_pmem s' = k_pmem s ->
  (forall id, idx_alloc s' id = idx_alloc s id) -> iquiet s s'.
Proof.
  intros H H' Hc Hp Ha. split; [split; [done|]|..].
  - intros id p. unfold points_to. by rewrite Hc.
  - intros c o. unfold cache_view. by rewrite Hc, Hp.
  - done.
Qed.

Lemma world_ext s s' : world s -> k_cache s' = k_cache s -> k_bmps s' = k_bmps s -> k_cur s' = k_cur s ->
  (forall h, is_Some (k_txns s !! h) -> is_Some (k_txns s' !! h)) -> world s'.
Proof.
  intros [H1 (h & H2 & H2') H3 H4] Hc Hb Hcur Ht. split.
  - intros id Hid. specialize (H1 id Hid). unfold cache_std1 in *. by rewrite Hc.
  - exists h. rewrite Hcur. split; [done|by apply Ht].
  - by rewrite Hb.
  - by rewrite Hb.
Qed.

Section steps.
Context `{Mo : MallocOracle}.

Lemma put_txn_live h t (s : kfs) h' : is_Some (k_txns s !! h') -> is_Some (<[h := t]> (k_txns s) !! h').
Proof. intros H. rewrite lookup_insert_is_Some'. by right. Qed.

(** Recording a change in the transaction. *)
Lemma add_record_quiet kind block type data offset length s : world s ->
  exists s', add_record kind block type data offset length s = Some (tt, s') /\ iquiet s s' /\ k_errno s' = k_errno s.
Proof.
  intros Hw. pose proof (w_txn _ Hw) as (h & Hc & t & Ht). unfold add_record, gets, mbind, M_bind. rewrite Hc.
  unfold get_txn. rewrite Ht.
  assert (forall c t', let s' := set_k_txns (<[h:=t']> (k_txns s)) (set_k_clock c s) in iquiet s s') as Hq.
  { intros c t' s'. apply quiet_of; try done. eapply world_ext; try done. intros. by apply put_txn_live. }
  assert (s = set_k_clock (k_clock s) s) as Hcl by by destruct s.
  destruct (negb (tx_error t =? 0)); [by eexists; split; [done|]; split; [apply iquiet_refl|]|].
  destruct (_ || _). { eexists. split; [done|]. split; [rewrite Hcl at 2; apply Hq|done]. }
  unfold malloc, put_txn, modify. cbn [k_txns set_k_clock k_clock].
  destruct (malloc_ok (k_clock s)); cbn [negb]; [|eexists; split; [done|]; split; [apply Hq|done]].
  destruct (length =? 0); [eexists; split; [done|]; split; [apply Hq|done]|].
  cbn [k_txns set_k_clock k_clock].
  destruct (malloc_ok (k_clock s + 1)); cbn [negb]; (eexists; split; [done|]; split; [apply Hq|done]).
Qed.

(** Reserving an index node. *)
Lemma require_index_spec s : world s ->
  exists b s', require_index_node_id s = Some (b, s') /\ istep s s' /\
    (forall id off, idx_word s' id off = idx_word s id off) /\
    ((b = -1 /\ forall id, idx_alloc s' id = idx_alloc s id) \/
     (0 <= b < MAX_INDEX_NUM /\ idx_alloc s b = false /\
      forall id, idx_alloc s' id = (id =? b) || idx_alloc s id)).
Proof.
  intros Hw. pose proof Hw as [H1 (h & Hc & Ht) H3 H4].
  destruct (reserve_spec IDXND_EXT s) as (b & s' & Hrun & Hwf & _ & Hpm & Htot & Hca & Hcu & Hl & Hcase).
  { vm_compute. by split. } { done. } { unfold txn_live. by rewrite Hc. }
  assert (world s') as Hw'.
  { split; [|..]; [|exists h; unfold txn_live in Hl; rewrite Hcu, Hc in Hl; by rewrite Hcu|done|by rewrite Htot].
    intros id Hid. specialize (H1 id Hid). unfold cache_std1 in *. by rewrite Hca. }
  assert (forall o, cache_view s' IDXND_CACHE o = cache_view s IDXND_CACHE o) as Hv.
  { intros o. unfold cache_view. by rewrite Hca, Hpm. }
  exists b, s'. split; [done|]. split; [split; [done|]|split].
  - intros id p. unfold points_to. by rewrite Hca.
  - intros id off. unfold idx_word. by rewrite (nvm_read_ext (cache_view s' IDXND_CACHE) (cache_view s IDXND_CACHE)).
  - rewrite H4 in Hcase. destruct Hcase as [(Hb & Hf & Hy & _)|(-> & _ & Hy & _)]; [by right|by left].
Qed.

Lemma idxnd_ok : cache_id_ok IDXND_CACHE.
Proof. vm_compute. by split. Qed.

Lemma idxnd_geometry : cache_geometry IDXND_CACHE = (IDXND_CACHE_EXTBLKS, ORCH_IDX_SIZE, MAX_INDEX_NUM).
Proof. done. Qed.

(** A load that succeeds leaves [errno] alone, one that fails sets it. *)
Lemma id_to_memaddr_errno cache_id max extblks usize id s r s' :
  id_to_memaddr cache_id max extblks usize id s = Some (r, s') ->
  match r with Some _ => k_errno s' = k_errno s | None => k_errno s' <> 0 end.
Proof.
  unfold id_to_memaddr. destruct (_ || _); [by intros [= <- <-]|].
  unfold load_segment, gets, mbind, M_bind, set_errno, modify, mret, M_ret.
  destruct (_ || _); [by intros [= <- <-]|]. destruct (meta_memsp_pt _ _); [by intros [= <- <-]|]. unfold malloc.
  destruct (malloc_ok _); [|by intros [= <- <-]]. unfold dev_read, gets. by intros [= <- <-].
Qed.

(** Bringing a unit into a cache. *)
Lemma load_unit_spec cache_id id s : cache_id_ok cache_id -> world s ->
  let '(extblks, unit, max) := cache_geometry cache_id in
  exists r s', id_to_memaddr cache_id max extblks unit id s = Some (r, s') /\ iquiet s s' /\
    match r with Some p => points_to s' cache_id id p /\ k_errno s' = k_errno s | None => k_errno s' <> 0 end.
Proof.
  intros Hcid Hw. pose proof Hw as [H1 (h & Hc & Ht) H3 H4].
  pose proof (id_to_memaddr_spec cache_id id s Hcid H1) as Hsp. destruct (cache_geometry cache_id) as [[e u] max].
  destruct Hsp as (r & s' & Hrun & Hg & Hr).
  destruct (cache_grows_pmem _ _ Hg) as (Hp & Hb & _ & Hcu & Htx & _ & _).
  exists r, s'. split; [done|]. split.
  - split; [split|apply (cg_view _ _ Hg)|].
    + split; [by eapply cache_grows_std|exists h; by rewrite Hcu, Htx|by rewrite Hb|by rewrite Hb].
    + intros i p Hpt. unfold points_to in *. rewrite idxnd_geometry in *.
      destruct Hpt as (? & ? & Hl). split; [done|]. split; [done|]. by rewrite (cg_loaded _ _ Hg).
    + intros i. unfold idx_alloc. by rewrite Hb.
  - apply id_to_memaddr_errno in Hrun. by destruct r as [p|].
Qed.
Lemma load_index_spec id s : world s ->
  exists r s', indexid_to_memaddr id s = Some (r, s') /\ iquiet s s' /\
    match r with Some p => points_to s' IDXND_CACHE id p /\ k_errno s' = k_errno s | None => k_errno s' <> 0 end.
Proof. intros Hw. exact (load_unit_spec IDXND_CACHE id s idxnd_ok Hw). Qed.

Lemma nvm_read_shift m1 m2 n o1 o2 : (forall i, 0 <= i < n -> m1 (o1 + i) = m2 (o2 + i)) ->
  nvm_read m1 n o1 = nvm_read m2 n o2.
Proof.
  intros H. destruct (Z.lt_ge_cases n 0); [by unfold nvm_read; replace (Z.to_nat n) with 0%nat by lia|].
  apply byte_at_ext; rewrite !len_nvm_read by done; [done|]. intros i Hi. rewrite !byte_at_nvm_read by done. by apply H.
Qed.

(** Reading a field. *)
Lemma ld_unit s cache_id id p off : cache_id_ok cache_id -> cache_std s -> points_to s cache_id id p ->
  let '(_, unit, _) := cache_geometry cache_id in 0 <= off -> off + 8 <= unit ->
  ld p off s = Some (s64 (le_val (nvm_read (cache_view s cache_id) 8 (id * unit + off))), s).
Proof.
  intros Hc Hs Hp. pose proof (fun o => points_to_view s cache_id id p o Hc Hs Hp) as H.
  destruct (cache_geometry cache_id) as [[e u] max]. intros Ho Hl.
  unfold ld, mem_read, gets, mbind, M_bind, mret, M_ret, buf_bytes.
  do 4 f_equal. apply nvm_read_shift. intros i Hi. rewrite <-!Z.add_assoc. apply H. lia.
Qed.
Lemma ld_idx s id p off : world s -> points_to s IDXND_CACHE id p -> 0 <= off -> off + 8 <= ORCH_IDX_SIZE ->
  ld p off s = Some (idx_word s id off, s).
Proof. intros Hw Hp Ho Hl. exact (ld_unit s IDXND_CACHE id p off idxnd_ok (w_cache _ Hw) Hp Ho Hl). Qed.

Lemma points_to_id s id p : points_to s IDXND_CACHE id p -> 0 <= id < MAX_INDEX_NUM.
Proof. unfold points_to. rewrite idxnd_geometry. by intros [H _]. Qed.

(** Storing bytes in a node. *)
Lemma mem_write_idx s id p off src : world s -> points_to s IDXND_CACHE id p -> 0 <= off ->
  off + len src <= ORCH_IDX_SIZE ->
  exists s', mem_write p off src s = Some (tt, s') /\ istep s s' /\ (forall i, idx_alloc s' i = idx_alloc s i) /\
    k_errno s' = k_errno s /\
    forall o, cache_view s' IDXND_CACHE o =
      if in_range o (id * ORCH_IDX_SIZE + off) (len src) then byte_at src (o - (id * ORCH_IDX_SIZE + off))
      else cache_view s IDXND_CACHE o.
Proof.
  intros Hw Hp Ho Hl. pose proof Hw as [H1 (h & Hc & Ht) H3 H4].
  pose proof (mem_write_view s IDXND_CACHE id p off src idxnd_ok H1 Hp) as Hmw. rewrite idxnd_geometry in Hmw.
  destruct (Hmw Ho Hl) as (s' & Hrun & Hpm & Hstd & Hv).
  exists s'. split; [done|]. unfold mem_write, modify in Hrun. injection Hrun as Hs'.
  split; [split|split_and!].
  - rewrite <-Hs' in *. split; [done|by exists h|done|done].
  - intros i q Hq. unfold points_to in *. rewrite idxnd_geometry in *.
    destruct Hq as (? & ? & Hq). split; [done|]. split; [done|]. rewrite <-Hs'. cbn. unfold upd.
    destruct (Z.eqb_spec IDXND_CACHE (mp_cache p)) as [E|]; [|done]. cbn. rewrite <-E.
    by destruct (Z.eqb_spec (i / IDXND_CACHE_EXTBLKS) (mp_segment p)); [eexists|].
  - intros i. by rewrite <-Hs'.
  - by rewrite <-Hs'.
  - intros o. rewrite Hv. by rewrite Z.eqb_refl.
Qed.

(** Where two fields are apart. *)
Definition apart (id off n id' off' : Z) : Prop := id' <> id \/ off' + 8 <= off \/ off + n <= off'.

Lemma st_idx s id p off v : world s -> points_to s IDXND_CACHE id p -> 0 <= off -> off + 8 <= ORCH_IDX_SIZE ->
  is_s64 v ->
  exists s', st p off v s = Some (tt, s') /\ istep s s' /\ (forall i, idx_alloc s' i = idx_alloc s i) /\
    k_errno s' = k_errno s /\ idx_word s' id off = v /\
    forall id' off', 0 <= off' -> off' + 8 <= ORCH_IDX_SIZE -> apart id off 8 id' off' ->
      idx_word s' id' off' = idx_word s id' off'.
Proof.
  intros Hw Hp Ho Hl Hv. assert (len (le_bytes 8 v) = 8) as Hlen by done.
  destruct (mem_write_idx s id p off (le_bytes 8 v) Hw Hp Ho ltac:(lia)) as (s' & Hrun & Hst & Ha & He & Hview).
  exists s'. split_and!; try done. 
  - unfold idx_word. replace (nvm_read (cache_view s' IDXND_CACHE) 8 (id * ORCH_IDX_SIZE + off)) with (le_bytes 8 v).
    + rewrite le_val_bytes. change (256 ^ Z.of_nat 8) with (2 ^ 64). change (v mod 2 ^ 64) with (u64 v).
      rewrite s64_u64. by apply s64_small.
    + symmetry. apply byte_at_ext; rewrite len_nvm_read by lia; [done|]. intros i Hi. rewrite byte_at_nvm_read by done.
      rewrite Hview, Hlen. destruct (in_rangeP (id * ORCH_IDX_SIZE + off + i) (id * ORCH_IDX_SIZE + off) 8); [|lia].
      f_equal. lia.
  - intros id' off' Ho' Hl' Hap. unfold idx_word. do 2 f_equal. apply nvm_read_ext. intros a Haa.
    rewrite Hview, Hlen. unfold ORCH_IDX_SIZE in *. destruct (in_rangeP a (id * 1024 + off) 8); [|done].
    exfalso. destruct Hap as [Hne|Hap]; [|lia]. assert (id' = id) by lia. done.
Qed.

Lemma log_idx_spec s block p off n : world s ->
  exists s', log_idx block p off n s = Some (tt, s') /\ iquiet s s' /\ k_errno s' = k_errno s.
Proof.
  intros Hw. unfold log_idx, log_change, mem_read, gets, mbind, M_bind. by apply add_record_quiet.
Qed.
Lemma create_log_spec s block type : world s ->
  exists s', write_create_log block type s = Some (tt, s') /\ iquiet s s' /\ k_errno s' = k_errno s.
Proof. apply add_record_quiet. Qed.

Lemma empty_sons : mjoin (repeat (le_bytes 8 EMPTY_BLKID) 64) = repeat 255 512.
Proof. vm_compute. reflexivity. Qed.

(** Storing the array of empty sons. *)
Lemma clear_sons_idx s id p : world s -> points_to s IDXND_CACHE id p ->
  exists s', mem_write p ND_SONS (mjoin (repeat (le_bytes 8 EMPTY_BLKID) 64)) s = Some (tt, s') /\ istep s s' /\
    (forall i, idx_alloc s' i = idx_alloc s i) /\ k_errno s' = k_errno s /\
    (forall i, 0 <= i < 64 -> idx_word s' id (son_off i) = EMPTY_BLKID) /\
    forall id' off', 0 <= off' -> off' + 8 <= ORCH_IDX_SIZE -> apart id ND_SONS 512 id' off' ->
      idx_word s' id' off' = idx_word s id' off'.
Proof.
  intros Hw Hp. rewrite empty_sons. assert (len (repeat 255 512) = 512) as Hlen by done.
  destruct (mem_write_idx s id p ND_SONS (repeat 255 512) Hw Hp) as (s' & Hrun & Hst & Ha & He & Hview);
    [done|by rewrite Hlen|]. rewrite Hlen in Hview.
  exists s'. split_and!; try done.
  - intros i Hi. unfold idx_word, son_off, ND_SONS in *.
    replace (nvm_read _ 8 _) with (repeat 255 8); [done|]. symmetry.
    apply byte_at_ext; rewrite len_nvm_read by lia; [done|]. intros k Hk. rewrite byte_at_nvm_read by done.
    rewrite Hview. unfold ORCH_IDX_SIZE in *.
    destruct (in_rangeP (id * 1024 + (48 + i * 8) + k) (id * 1024 + 48) 512); [|lia].
    unfold byte_at. rewrite !nth_repeat_lt by lia. done.
  - intros id' off' Ho' Hl' Hap. unfold idx_word. do 2 f_equal. apply nvm_read_ext. intros a Haa.
    rewrite Hview. unfold ORCH_IDX_SIZE, ND_SONS in *. destruct (in_rangeP a (id * 1024 + 48) 512); [|done].
    exfalso. destruct Hap as [Hne|Hap]; [|lia]. assert (id' = id) by lia. done.
Qed.

(** A fresh node. *)
Definition node_words (s : kfs) (id zipped_layer ntype : Z) : Prop :=
  idx_word s id ND_TYPE = ntype /\ idx_word s id ND_ZIPPED = zipped_layer /\ idx_word s id ND_FLAG = 0 /\
  forall i, 0 <= i < 64 -> idx_word s id (son_off i) = EMPTY_BLKID.

Lemma node_init_spec s id p zipped_layer ntype : world s -> points_to s IDXND_CACHE id p ->
  is_s64 zipped_layer -> is_s64 ntype ->
  exists s', node_init p zipped_layer ntype s = Some (tt, s') /\ istep s s' /\
    (forall i, idx_alloc s' i = idx_alloc s i) /\ k_errno s' = k_errno s /\ node_words s' id zipped_layer ntype /\
    forall id' off', id' <> id -> 0 <= off' -> off' + 8 <= ORCH_IDX_SIZE -> idx_word s' id' off' = idx_word s id' off'.
Proof.
  intros Hw Hp Hz Hn. unfold node_init. unfold ORCH_IDX_SIZE in *.
  destruct (st_idx s id p ND_TYPE ntype Hw Hp) as (s1 & R1 & S1 & A1 & E1 & W1 & F1); [done..|].
  destruct (st_idx s1 id p ND_ZIPPED zipped_layer (is_world _ _ S1)) as (s2 & R2 & S2 & A2 & E2 & W2 & F2);
    [by apply (is_points _ _ S1)|done..|].
  pose proof (istep_trans _ _ _ S1 S2) as T2.
  destruct (st_idx s2 id p ND_FLAG 0 (is_world _ _ T2)) as (s3 & R3 & S3 & A3 & E3 & W3 & F3);
    [by apply (is_points _ _ T2)|done..|].
  pose proof (istep_trans _ _ _ T2 S3) as T3.
  destruct (st_idx s3 id p ND_RESERVED 0 (is_world _ _ T3)) as (s4 & R4 & S4 & A4 & E4 & W4 & F4);
    [by apply (is_points _ _ T3)|done..|].
  pose proof (istep_trans _ _ _ T3 S4) as T4.
  destruct (clear_sons_idx s4 id p (is_world _ _ T4)) as (s5 & R5 & S5 & A5 & E5 & W5 & F5);
    [by apply (is_points _ _ T4)|].
  exists s5. split.
  { rewrite (bind_run _ _ _ _ _ R1), (bind_run _ _ _ _ _ R2), (bind_run _ _ _ _ _ R3), (bind_run _ _ _ _ _ R4). done. }
  split; [by eapply istep_trans|]. split; [intros; by rewrite A5, A4, A3, A2, A1|].
  split; [by rewrite E5, E4, E3, E2, E1|]. unfold node_words, apart, ND_TYPE, ND_ZIPPED, ND_FLAG, ND_RESERVED, ND_SONS, ORCH_IDX_SIZE in *.
  split; [split_and!|].
  - rewrite F5, F4, F3, F2 by lia. done.
  - rewrite F5, F4, F3 by lia. done.
  - rewrite F5, F4 by lia. done.
  - done.
  - intros id' off' Hne Ho Hl. rewrite F5, F4, F3, F2, F1 by (try left; done || lia). done.
Qed.
End steps.
