(* ===== verification/IndexTree.v ===== *)
(** * Index trees

    The radix tree with path compression as a mathematical tree, the blocks it maps,
    and how splitting a compressed node keeps them: the pure part of the proof that
    insertion and search of LibFS/index.c agree. *)

From stdpp Require Import base tactics numbers list.
From Stdlib Require Import ZArith Lia.
From S2P Require Import Prelude Bytes Layout Index.
Open Scope Z_scope.

(** ** Key bits *)

Definition bits_at (x lo n : Z) : Z := (x / 2 ^ lo) mod 2 ^ n.

Lemma key_bits_at key width move_bits : 0 <= width -> 0 <= move_bits ->
  key_bits key width move_bits = bits_at key move_bits width.
Proof.
  intros Hw Hm. unfold key_bits, bits_at. rewrite Z.shiftr_land.
  rewrite Z.shiftr_shiftl_l, Z.sub_diag, Z.shiftl_0_r by lia.
  replace (Z.shiftl 1 width - 1) with (Z.ones width) by (rewrite Z.ones_equiv, Z.shiftl_1_l; lia).
  rewrite Z.land_comm, Z.land_ones, Z.shiftr_div_pow2 by lia. done.
Qed.

Lemma bits_at_range x lo n : 0 <= n -> 0 <= bits_at x lo n < 2 ^ n.
Proof. intros. apply Z.mod_pos_bound. by apply Z.pow_pos_nonneg. Qed.

Lemma bits_split x lo n m : 0 <= lo -> 0 <= n -> 0 <= m ->
  bits_at x lo (n + m) = bits_at x (lo + m) n * 2 ^ m + bits_at x lo m.
Proof.
  intros. unfold bits_at. rewrite (Z.add_comm n m), Z.pow_add_r by lia.
  pose proof (Z.pow_pos_nonneg 2 m). pose proof (Z.pow_pos_nonneg 2 n).
  rewrite Z.rem_mul_r by lia. rewrite (Z.pow_add_r 2 lo m) by lia. rewrite Z.div_div by (try lia; apply Z.pow_pos_nonneg; lia).
  lia.
Qed.

Lemma bits_at_0 x lo : bits_at x lo 0 = 0.
Proof. unfold bits_at. apply Z.mod_1_r. Qed.

(** A node at depth [d] with [zl] compressed layers looks at the compressed part
    [zpart], then at the son index [kpart]; below it come the bits of [low]. *)
Definition zpart (d zl off : Z) : Z := bits_at off (42 - d - 6 * zl) (6 * zl).
Definition kpart (d zl off : Z) : Z := bits_at off (36 - d - 6 * zl) 6.
Definition low (d off : Z) : Z := bits_at off 0 (42 - d).
(** The leaf a key belongs to, among those below depth [d]. *)
Definition blk (d off : Z) : Z := low d off / 64.

Lemma kpart_range d zl off : 0 <= kpart d zl off < 64.
Proof. apply (bits_at_range off _ 6). lia. Qed.

Lemma low_split d zl off : 0 <= d -> 0 <= zl -> d + 6 * zl <= 36 ->
  low d off = zpart d zl off * 2 ^ (42 - d - 6 * zl) + kpart d zl off * 2 ^ (36 - d - 6 * zl) +
    low (d + 6 * zl + 6) off.
Proof.
  intros. unfold low, zpart, kpart.
  replace (42 - d) with (6 * zl + (6 + (36 - d - 6 * zl))) at 1 by lia.
  rewrite bits_split by lia. replace (0 + (6 + (36 - d - 6 * zl))) with (42 - d - 6 * zl) by lia.
  replace (6 + (36 - d - 6 * zl)) with (42 - d - 6 * zl) at 1 by lia.
  rewrite bits_split by lia. rewrite Z.add_0_l. replace (42 - (d + 6 * zl + 6)) with (36 - d - 6 * zl) by lia. lia.
Qed.

(** On the path through son [kpart], leaves are told apart below it. *)
Lemma blk_below d zl off : 0 <= d -> 0 <= zl -> d + 6 * zl + 6 <= 36 -> zpart d zl off = 0 ->
  blk d off = kpart d zl off * 2 ^ (30 - d - 6 * zl) + blk (d + 6 * zl + 6) off.
Proof.
  intros Hd Hz Hle H0. unfold blk. rewrite (low_split d zl off) by lia. rewrite H0.
  replace (36 - d - 6 * zl) with (6 + (30 - d - 6 * zl)) by lia. rewrite Z.pow_add_r by lia.
  change (2 ^ 6) with 64.
  replace (0 * 2 ^ (42 - d - 6 * zl) + kpart d zl off * (64 * 2 ^ (30 - d - 6 * zl)) + low (d + 6 * zl + 6) off)
    with (low (d + 6 * zl + 6) off + kpart d zl off * 2 ^ (30 - d - 6 * zl) * 64) by lia.
  rewrite Z.div_add by lia. lia.
Qed.

(** The compressed part, layer by layer. *)
Lemma zpart_split d zl a off : 0 <= d -> 0 <= a < zl -> d + 6 * zl <= 42 ->
  zpart d zl off = zpart d a off * 2 ^ (6 * (zl - a)) + kpart d a off * 2 ^ (6 * (zl - a - 1)) +
    zpart (d + 6 * a + 6) (zl - a - 1) off.
Proof.
  intros. unfold zpart, kpart. replace (6 * zl) with (6 * a + (6 + 6 * (zl - a - 1))) at 2 by lia.
  rewrite bits_split by lia. replace (42 - d - 6 * zl + (6 + 6 * (zl - a - 1))) with (42 - d - 6 * a) by lia.
  replace (6 + 6 * (zl - a - 1)) with (6 * (zl - a)) at 1 by lia. rewrite bits_split by lia.
  replace (42 - d - 6 * zl + 6 * (zl - a - 1)) with (36 - d - 6 * a) by lia.
  replace (42 - (d + 6 * a + 6) - 6 * (zl - a - 1)) with (42 - d - 6 * zl) by lia. lia.
Qed.

Lemma zpart_nonneg d zl off : 0 <= zl -> 0 <= zpart d zl off.
Proof. intros. apply bits_at_range. lia. Qed.

Lemma zpart_zero_split d zl a off : 0 <= d -> 0 <= a < zl -> d + 6 * zl <= 42 ->
  zpart d zl off = 0 <-> zpart d a off = 0 /\ kpart d a off = 0 /\ zpart (d + 6 * a + 6) (zl - a - 1) off = 0.
Proof.
  intros. rewrite (zpart_split d zl a off) by done. pose proof (zpart_nonneg d a off ltac:(lia)).
  pose proof (kpart_range d a off). pose proof (zpart_nonneg (d + 6 * a + 6) (zl - a - 1) off ltac:(lia)).
  pose proof (Z.pow_pos_nonneg 2 (6 * (zl - a)) ltac:(lia) ltac:(lia)).
  pose proof (Z.pow_pos_nonneg 2 (6 * (zl - a - 1)) ltac:(lia) ltac:(lia)). nia.
Qed.

Lemma zpart_succ d i off : 0 <= d -> 0 <= i -> d + 6 * (i + 1) <= 42 ->
  zpart d (i + 1) off = zpart d i off * 64 + kpart d i off.
Proof.
  intros. rewrite (zpart_split d (i + 1) i off) by lia. replace (i + 1 - i) with 1 by lia.
  replace (6 * (1 - 1)) with 0 by lia. change (2 ^ (6 * 1)) with 64. change (2 ^ 0) with 1.
  unfold zpart at 2. replace (6 * (1 - 1)) with 0 by lia. rewrite bits_at_0. lia.
Qed.

(** [level_zipped_part] takes the layers of the compressed part. *)
Lemma level_zipped_kpart d zl i off : 0 <= d -> 1 <= i <= zl -> d + 6 * zl <= 42 ->
  level_zipped_part (zpart d zl off) zl i = kpart d (i - 1) off.
Proof.
  intros. unfold level_zipped_part, LAYER_BITWIDTH. rewrite key_bits_at by lia.
  unfold zpart, kpart, bits_at.
  replace (36 - d - 6 * (i - 1)) with ((42 - d - 6 * zl) + (zl - i) * 6) by lia. rewrite Z.pow_add_r by lia.
  rewrite <-Z.div_div by (try apply Z.pow_nonzero; try apply Z.pow_pos_nonneg; lia).
  set (y := off / 2 ^ (42 - d - 6 * zl)). replace (6 * zl) with ((zl - i) * 6 + 6 * i) by lia.
  rewrite Z.pow_add_r by lia. pose proof (Z.pow_pos_nonneg 2 ((zl - i) * 6) ltac:(lia) ltac:(lia)).
  pose proof (Z.pow_pos_nonneg 2 (6 * i) ltac:(lia) ltac:(lia)).
  rewrite Z.rem_mul_r by lia. rewrite Z.add_comm, Z.mul_comm, Z.div_add_l by lia.
  rewrite (Z.div_small (y mod _)) by (apply Z.mod_pos_bound; lia). rewrite Z.add_0_r.
  replace (6 * i) with (6 + 6 * (i - 1)) by lia. rewrite Z.pow_add_r by lia.
  rewrite <-(Z.mod_add (y / 2 ^ ((zl - i) * 6) mod (2 ^ 6 * 2 ^ (6 * (i - 1)))) 0 (2 ^ 6)) by lia.
  rewrite Z.mul_0_l, Z.add_0_r. rewrite Z.rem_mul_r by (try lia; apply Z.pow_pos_nonneg; lia).
  rewrite (Z.mul_comm (2 ^ 6) (_ mod _)), Z.mod_add by lia. by rewrite Z.mod_mod by lia.
Qed.

(** [find] over an interval returns the first hit. *)
Lemma find_zseq (f : Z -> bool) from n : 0 <= n ->
  match find f (zseq from n) with
  | Some i => from <= i < from + n /\ f i = true /\ forall j, from <= j < i -> f j = false
  | None => forall j, from <= j < from + n -> f j = false
  end.
Proof.
  intros Hn. destruct (Z_of_nat_complete n Hn) as [k ->]. unfold zseq. rewrite Nat2Z.id.
  clear Hn. revert from. induction k as [|k IH]; intros from; [intros j Hj; lia|].
  cbn [seq map find]. rewrite Z.add_0_r. destruct (f from) eqn:E.
  { split_and!; [lia|lia|done|]. intros j Hj. lia. }
  rewrite <-seq_shift, map_map. specialize (IH (from + 1)).
  rewrite (map_ext (fun x => from + Z.of_nat (S x)) (fun x => from + 1 + Z.of_nat x)) by (intros; lia).
  destruct (find _ _) as [i|].
  - destruct IH as (Hi & Hf & Hb). split_and!; [lia|lia|done|]. intros j Hj.
    destruct (Z.eq_dec j from) as [->|]; [done|]. apply Hb. lia.
  - intros j Hj. destruct (Z.eq_dec j from) as [->|]; [done|]. apply IH. lia.
Qed.

(** The layers that stay compressed are zero, the one after them is not. *)
Lemma allow_zipped_layer_spec d zl off : 0 <= d -> 0 <= zl -> d + 6 * zl <= 42 -> zpart d zl off <> 0 ->
  let a := allow_zipped_layer (zpart d zl off) zl in
  0 <= a < zl /\ zpart d a off = 0 /\ kpart d a off <> 0.
Proof.
  intros Hd Hz Hle Hne. unfold allow_zipped_layer.
  pose proof (find_zseq (fun i => negb (level_zipped_part (zpart d zl off) zl i =? 0)) 1 zl Hz) as H.
  assert (forall k, 0 <= k <= zl -> (forall j, 1 <= j <= k -> kpart d (j - 1) off = 0) -> zpart d k off = 0) as Hzero.
  { intros k Hk. pattern k. apply natlike_ind; [| |lia].
    - intros _. apply bits_at_0.
    - intros x Hx IH Hj. change (Z.succ x) with (x + 1) in *.
      destruct (Z.le_gt_cases (d + 6 * (x + 1)) 42) as [Hb|Hb].
      + rewrite zpart_succ by lia. rewrite IH by (intros; apply Hj; lia).
        specialize (Hj (x + 1) ltac:(lia)). replace (x + 1 - 1) with x in Hj by lia. lia.
      + unfold zpart. replace (42 - d - 6 * (x + 1)) with (- (d + 6 * (x + 1) - 42)) by lia.
        unfold bits_at. rewrite Z.pow_neg_r by lia. by rewrite Z.div_0_r. }
  destruct (find _ _) as [i|].
  - destruct H as (Hi & Hf & Hb). rewrite level_zipped_kpart in Hf by lia. split; [lia|]. split; [|lia].
    apply Hzero; [lia|]. intros j Hj. specialize (Hb j ltac:(lia)). rewrite level_zipped_kpart in Hb by lia. lia.
  - exfalso. apply Hne, Hzero; [lia|]. intros j Hj. specialize (H j ltac:(lia)).
    rewrite level_zipped_kpart in H by lia. lia.
Qed.

(** ** Trees *)

Inductive itree :=
| IEmpty
| ILeaf (id zl : Z)
| INode (id zl : Z) (sons : Z -> itree).

Definition tid (t : itree) : Z := match t with IEmpty => EMPTY_BLKID | ILeaf id _ | INode id _ _ => id end.

(** The nodes of a tree, and its leaves. *)
Fixpoint in_tree (x : Z) (t : itree) : Prop :=
  match t with
  | IEmpty => False
  | ILeaf id _ => x = id
  | INode id _ sons => x = id \/ exists i, 0 <= i < 64 /\ in_tree x (sons i)
  end.
Fixpoint leaf_in (x : Z) (t : itree) : Prop :=
  match t with
  | IEmpty => False
  | ILeaf id _ => x = id
  | INode _ _ sons => exists i, 0 <= i < 64 /\ leaf_in x (sons i)
  end.

Lemma leaf_in_tree x t : leaf_in x t -> in_tree x t.
Proof. induction t as [| |id zl sons IH]; cbn; [done|done|]. intros (i & Hi & H). right. exists i. auto. Qed.

(** The leaf that holds key [off], in the subtree at depth [d]. *)
Fixpoint look (t : itree) (d off : Z) : option Z :=
  match t with
  | IEmpty => None
  | ILeaf id zl => if zpart d zl off =? 0 then Some id else None
  | INode id zl sons => if zpart d zl off =? 0 then look (sons (kpart d zl off)) (d + 6 * zl + 6) off else None
  end.

Lemma look_leaf_in t d off x : look t d off = Some x -> leaf_in x t.
Proof.
  revert d. induction t as [|id zl|id zl sons IH]; cbn; intros d; [done|by destruct (_ =? _); [intros [= ->]|]|].
  destruct (_ =? _); [|done]. intros H. exists (kpart d zl off). split; [apply kpart_range|]. by eapply IH.
Qed.

(** Words of the nodes as the tree says; every node once; compressed layers that
    add up: a leaf ends the 36 key bits above the last layer. *)
Fixpoint repr (W : Z -> Z -> Z) (t : itree) (d : Z) : Prop :=
  match t with
  | IEmpty => True
  | ILeaf id zl =>
      0 <= id < MAX_INDEX_NUM /\ W id ND_TYPE = LEAF_NODE /\ W id ND_ZIPPED = zl /\ 0 <= zl /\ d + 6 * zl = 36
  | INode id zl sons =>
      0 <= id < MAX_INDEX_NUM /\ W id ND_TYPE = NOT_LEAF_NODE /\ W id ND_ZIPPED = zl /\ 0 <= zl /\
      d + 6 * zl + 6 <= 36 /\
      (forall i, 0 <= i < 64 -> W id (son_off i) = tid (sons i) /\ repr W (sons i) (d + 6 * zl + 6) /\
        ~ in_tree id (sons i)) /\
      (forall i j x, 0 <= i < 64 -> 0 <= j < 64 -> in_tree x (sons i) -> in_tree x (sons j) -> i = j)
  end.

(** The fields a tree is made of. *)
Definition node_field (off : Z) : Prop := off = ND_TYPE \/ off = ND_ZIPPED \/ exists i, 0 <= i < 64 /\ off = son_off i.

Lemma repr_ext W W' t d : (forall x off, in_tree x t -> node_field off -> W' x off = W x off) ->
  repr W t d -> repr W' t d.
Proof.
  assert (node_field ND_TYPE /\ node_field ND_ZIPPED) as [F1 F2] by (unfold node_field; tauto).
  revert d. induction t as [|id zl|id zl sons IH]; intros d H; cbn; [done| |].
  - intros (? & ? & ? & ?). rewrite !H by done. done.
  - intros (H1 & H2 & H3 & H4 & H5 & Hs & Hd). rewrite !H by (done || by left). split_and!; try lia; try done.
    intros i Hi. destruct (Hs i Hi) as (Ha & Hb & Hc). split_and!; [|apply IH; [|done]|done].
    + rewrite H; [done|by left|]. right. right. by exists i.
    + intros x off Hx Hf. apply H; [|done]. right. by exists i.
Qed.

Lemma repr_ids W t d x : repr W t d -> in_tree x t -> 0 <= x < MAX_INDEX_NUM.
Proof.
  revert d. induction t as [|id zl|id zl sons IH]; cbn; intros d; [done|by intros (? & _) ->|].
  intros (H1 & _ & _ & _ & _ & Hs & _) [->|(i & Hi & Hx)]; [done|]. eapply IH; [apply Hs|]; done.
Qed.

(** ** Updates *)

Definition tzl (t : itree) : Z := match t with IEmpty => 0 | ILeaf _ zl | INode _ zl _ => zl end.
Definition rezip (t : itree) (zl : Z) : itree :=
  match t with IEmpty => IEmpty | ILeaf id _ => ILeaf id zl | INode id _ sons => INode id zl sons end.
Definition set_son (sons : Z -> itree) (k : Z) (t : itree) : Z -> itree := fun i => if i =? k then t else sons i.

Lemma rezip_in t zl x : in_tree x (rezip t zl) <-> in_tree x t.
Proof. by destruct t. Qed.
Lemma rezip_leaf t zl x : leaf_in x (rezip t zl) <-> leaf_in x t.
Proof. by destruct t. Qed.

(** A node that takes over the first [a] compressed layers maps the same keys. *)
Definition split_tree (n a : Z) (t : itree) : itree :=
  INode n a (set_son (fun _ => IEmpty) 0 (rezip t (tzl t - a - 1))).

Lemma look_split n a t d off : 0 <= d -> 0 <= a < tzl t -> d + 6 * tzl t <= 42 ->
  look (split_tree n a t) d off = look t d off.
Proof.
  intros Hd Ha Hle. cbn. unfold set_son.
  destruct t as [|id zl|id zl sons]; cbn in *; [lia|..].
  all: pose proof (zpart_zero_split d zl a off Hd Ha Hle) as Hz.
  all: destruct (Z.eqb_spec (zpart d a off) 0), (Z.eqb_spec (kpart d a off) 0); cbn;
    destruct (Z.eqb_spec (zpart d zl off) 0); try tauto; try (exfalso; tauto).
  all: destruct (Z.eqb_spec (zpart (d + 6 * a + 6) (zl - a - 1) off) 0); try tauto; try (exfalso; tauto).
  replace (kpart (d + 6 * a + 6) (zl - a - 1) off) with (kpart d zl off) by (unfold kpart; f_equal; lia). f_equal. lia.
Qed.

Lemma look_set_son id zl sons k t d off :
  look (INode id zl (set_son sons k t)) d off =
  if (zpart d zl off =? 0) && (kpart d zl off =? k) then look t (d + 6 * zl + 6) off
  else look (INode id zl sons) d off.
Proof. cbn. unfold set_son. by destruct (_ =? 0); [destruct (_ =? k)|]. Qed.

(** A subtree for one son: the last layer is a leaf's. *)
Definition new_son (b d : Z) : itree := if d =? 36 then ILeaf b 0 else INode b 0 (fun _ => IEmpty).

Lemma new_son_in b d x : in_tree x (new_son b d) <-> x = b.
Proof.
  unfold new_son. destruct (d =? 36); cbn; [done|]. split; [|by left]. by intros [?|(? & ? & ?)].
Qed.
Lemma new_son_tid b d : tid (new_son b d) = b.
Proof. unfold new_son. by destruct (d =? 36). Qed.

(** An empty subtree maps nothing, a new leaf only its own keys. *)
Lemma look_new_son b d off off' : blk d off' <> blk d off -> look (new_son b d) d off' = None.
Proof.
  intros Hb. unfold new_son. destruct (Z.eqb_spec d 36) as [->|He]; [|cbn; by destruct (_ =? 0)].
  exfalso. apply Hb. unfold blk, low. pose proof (bits_at_range off 0 (42 - 36) ltac:(lia)).
  pose proof (bits_at_range off' 0 (42 - 36) ltac:(lia)).
  change (2 ^ (42 - 36)) with 64 in *. by rewrite !Z.div_small.
Qed.

(** A node with fewer compressed layers, further down. *)
Lemma repr_rezip W W' t d d' zl' : t <> IEmpty -> repr W t d -> 0 <= zl' -> d' + 6 * zl' = d + 6 * tzl t ->
  W' (tid t) ND_ZIPPED = zl' ->
  (forall x o, in_tree x t -> node_field o -> ~ (x = tid t /\ o = ND_ZIPPED) -> W' x o = W x o) ->
  repr W' (rezip t zl') d'.
Proof.
  intros Hne Hr Hz Hd HW H. assert (node_field ND_TYPE) as F1 by by left.
  destruct t as [|id zl|id zl sons]; [done|..]; cbn in *.
  - destruct Hr as (? & ? & ? & ? & ?). rewrite H by (done || intros [_ [=]]). split_and!; lia || done.
  - destruct Hr as (H1 & H2 & H3 & H4 & H5 & Hs & Hdj).
    rewrite H by (done || (by left) || intros [_ [=]]). split_and!; try lia; try done.
    intros i Hi. destruct (Hs i Hi) as (Ha & Hb & Hc). split_and!; [| |done].
    + rewrite H; [done|by left| |].
      * right. right. by exists i.
      * intros [_ Ho]. unfold son_off, ND_ZIPPED, ND_SONS in Ho. lia.
    + replace (d' + 6 * zl' + 6) with (d + 6 * zl + 6) by lia. eapply repr_ext; [|done].
      intros x o Hx Hf. apply H; [right; by exists i|done|]. intros [-> _]. done.
Qed.

(** ** Which keys share a leaf *)

(** Both parts of the key a node looks at are parts of the leaf number. *)
Lemma zpart_blk d zl off : 0 <= d -> 0 <= zl -> d + 6 * zl <= 36 ->
  zpart d zl off = blk d off / 2 ^ (36 - d - 6 * zl).
Proof.
  intros Hd Hz Hle. unfold blk. change 64 with (2 ^ 6).
  rewrite Z.div_div by (try apply Z.pow_nonzero; try apply Z.pow_pos_nonneg; lia). rewrite <-Z.pow_add_r by lia.
  rewrite (low_split d zl off) by lia. replace (6 + (36 - d - 6 * zl)) with (42 - d - 6 * zl) by lia.
  rewrite <-Z.add_assoc, Z.div_add_l by (apply Z.pow_nonzero; lia). rewrite Z.div_small; [lia|].
  pose proof (kpart_range d zl off). pose proof (bits_at_range off 0 (42 - (d + 6 * zl + 6)) ltac:(lia)) as Hl.
  fold (low (d + 6 * zl + 6) off) in Hl. replace (42 - (d + 6 * zl + 6)) with (36 - d - 6 * zl) in Hl by lia.
  replace (42 - d - 6 * zl) with (6 + (36 - d - 6 * zl)) by lia. rewrite Z.pow_add_r by lia. change (2 ^ 6) with 64. nia.
Qed.

Lemma blk_parts d zl off : 0 <= d -> 0 <= zl -> d + 6 * zl + 6 <= 36 -> zpart d zl off = 0 ->
  kpart d zl off = blk d off / 2 ^ (30 - d - 6 * zl) /\ blk (d + 6 * zl + 6) off = blk d off mod 2 ^ (30 - d - 6 * zl).
Proof.
  intros Hd Hz Hle H0. pose proof (blk_below d zl off Hd Hz Hle H0) as E.
  assert (0 <= blk (d + 6 * zl + 6) off < 2 ^ (30 - d - 6 * zl)) as Hr.
  { unfold blk. pose proof (bits_at_range off 0 (42 - (d + 6 * zl + 6)) ltac:(lia)) as Hl.
    fold (low (d + 6 * zl + 6) off) in Hl. replace (42 - (d + 6 * zl + 6)) with (6 + (30 - d - 6 * zl)) in Hl by lia.
    rewrite Z.pow_add_r in Hl by lia. change (2 ^ 6) with 64 in Hl.
    split; [apply Z.div_pos; lia|apply Z.div_lt_upper_bound; lia]. }
  split; [apply Z.div_unique with (blk (d + 6 * zl + 6) off)|apply Z.mod_unique with (kpart d zl off)]; lia.
Qed.

(** Keys of one leaf are mapped alike, *)
Lemma look_blk W t d off off' : repr W t d -> 0 <= d -> blk d off = blk d off' -> look t d off = look t d off'.
Proof.
  revert d. induction t as [|id zl|id zl sons IH]; intros d Hr Hd Hb; [done|..]; cbn in *.
  - destruct Hr as (_ & _ & _ & Hz & Hle). by rewrite !zpart_blk, Hb by lia.
  - destruct Hr as (_ & _ & _ & Hz & Hle & Hs & _). pose proof (zpart_blk d zl off Hd Hz ltac:(lia)) as E1.
    pose proof (zpart_blk d zl off' Hd Hz ltac:(lia)) as E2. assert (zpart d zl off = zpart d zl off') as E by congruence.
    rewrite <-E. destruct (Z.eqb_spec (zpart d zl off) 0) as [H0|]; [|done].
    destruct (blk_parts d zl off Hd Hz Hle H0) as [K1 B1]. destruct (blk_parts d zl off' Hd Hz Hle ltac:(lia)) as [K2 B2].
    assert (kpart d zl off = kpart d zl off') as Ek by congruence. rewrite <-Ek.
    apply IH; [apply Hs, kpart_range|lia|congruence].
Qed.

(** ... and different leaves have different ids. *)
Lemma look_inj W t d off off' x : repr W t d -> 0 <= d -> look t d off = Some x -> look t d off' = Some x ->
  blk d off = blk d off'.
Proof.
  revert d. induction t as [|id zl|id zl sons IH]; intros d Hr Hd; [done|..]; cbn in *.
  - destruct Hr as (_ & _ & _ & Hz & Hle). rewrite !zpart_blk by lia. replace (36 - d - 6 * zl) with 0 by lia.
    rewrite !Z.div_1_r. destruct (Z.eqb_spec (blk d off) 0), (Z.eqb_spec (blk d off') 0); done || lia.
  - destruct Hr as (_ & _ & _ & Hz & Hle & Hs & Hdj).
    destruct (Z.eqb_spec (zpart d zl off) 0) as [H0|], (Z.eqb_spec (zpart d zl off') 0) as [H0'|]; try done.
    intros H1 H2. assert (kpart d zl off = kpart d zl off') as Ek.
    { apply (Hdj _ _ x); [apply kpart_range..| |]; by eapply leaf_in_tree, look_leaf_in. }
    rewrite (blk_below d zl off), (blk_below d zl off') by done. rewrite Ek. f_equal.
    rewrite <-Ek in H2. eapply IH; [apply Hs, kpart_range|lia|done|done].
Qed.

Lemma blk_0 off : 0 <= off < 2 ^ 42 -> blk 0 off = off / 64.
Proof. intros H. unfold blk, low, bits_at. change (2 ^ 0) with 1. rewrite Z.div_1_r. by rewrite Z.mod_small. Qed.

(** The sons of a leaf are data, not structure. *)
Lemma repr_ext_leaf W W' t d : (forall x off, in_tree x t -> node_field off ->
    (leaf_in x t -> off = ND_TYPE \/ off = ND_ZIPPED) -> W' x off = W x off) ->
  repr W t d -> repr W' t d.
Proof.
  assert (node_field ND_TYPE /\ node_field ND_ZIPPED) as [F1 F2] by (unfold node_field; tauto).
  revert d. induction t as [|id zl|id zl sons IH]; intros d H; cbn; [done| |].
  - intros (? & ? & ? & ?). rewrite !H by (done || auto). done.
  - intros (H1 & H2 & H3 & H4 & H5 & Hs & Hd). rewrite !H by (done || (by left) || auto). split_and!; try lia; try done.
    intros i Hi. destruct (Hs i Hi) as (Ha & Hb & Hc). split_and!; [|apply IH; [|done]|done].
    + rewrite H; [done|by left| |].
      * right. right. by exists i.
      * intros (j & Hj & Hl). exfalso. destruct (Hs j Hj) as (_ & _ & Hn). by apply Hn, leaf_in_tree.
    + intros x off Hx Hf Hl. apply H; [right; by exists i|done|].
      intros (j & Hj & Hlx). apply Hl. replace i with j; [done|]. apply (Hd j i x); [done..|by apply leaf_in_tree|done].
Qed.
