(* ===== verification/IndexInsert.v ===== *)
(** * Search and insertion in the file index (LibFS/index.c)

    [search_leaf_node] finds the leaf the tree maps a block to; [insert_node_into_index]
    adds the path to a leaf and keeps every block that was mapped. *)

From stdpp Require Import base tactics numbers list gmap.
From Stdlib Require Import ZArith Lia.
From S2P Require Import Prelude Bytes Layout Pmem DiskFormat Bitmap KernelFunc Frame Kfs MetaCache Txn LibSpace Index IndexWords IndexTree.
Open Scope Z_scope.

(** All nodes of the tree are allocated. *)
Definition owned (s : kfs) (t : itree) : Prop := forall x, in_tree x t -> idx_alloc s x = true.

Definition field_ok (off : Z) : Prop := 0 <= off /\ off + 8 <= ORCH_IDX_SIZE /\ off mod 8 = 0.
Lemma node_field_ok off : node_field off -> field_ok off.
Proof.
  unfold node_field, field_ok, son_off, ND_TYPE, ND_ZIPPED, ND_SONS, ORCH_IDX_SIZE.
  intros [->|[->|(i & Hi & ->)]]; [done..|]. split_and!; [lia..|].
  replace (48 + i * 8) with (0 + (6 + i) * 8) by lia. by rewrite Z.mod_add by lia.
Qed.
Lemma flag_field : field_ok ND_FLAG.
Proof. by unfold field_ok, ND_FLAG, ORCH_IDX_SIZE. Qed.
Lemma son_field_ok i : 0 <= i < 64 -> field_ok (son_off i).
Proof. intros. apply node_field_ok. right. right. by exists i. Qed.

(** From tree [t] in state [s] to [t'] in [s'], for an insertion of key [off] at
    depth [d]; [exc] are the words outside the tree that may change. *)
Record grew (exc : Z -> Z -> Prop) (s s' : kfs) (t t' : itree) (d off : Z) : Prop := {
  g_step : istep s s';
  g_repr : repr (idx_word s') t' d;
  g_mono : forall x, idx_alloc s x = true -> idx_alloc s' x = true;
  g_ids : forall x, in_tree x t' -> in_tree x t \/ (idx_alloc s x = false /\ idx_alloc s' x = true);
  g_leaf : forall x, leaf_in x t -> leaf_in x t';
  g_words : forall x o, leaf_in x t -> ND_FLAG <= o -> field_ok o -> idx_word s' x o = idx_word s x o;
  g_new : forall x, leaf_in x t' -> leaf_in x t \/
    (idx_alloc s x = false /\ idx_word s' x ND_FLAG = 0 /\
     forall i, 0 <= i < 64 -> idx_word s' x (son_off i) = EMPTY_BLKID);
  g_frame : forall x o, ~ in_tree x t -> idx_alloc s x = true -> field_ok o -> ~ exc x o ->
    idx_word s' x o = idx_word s x o;
  g_look : forall off', blk d off' <> blk d off -> look t' d off' = look t d off';
  g_kept : forall off' x, look t d off' = Some x -> look t' d off' = Some x;
  g_fresh : forall off' x, look t d off' = None -> look t' d off' = Some x -> idx_alloc s x = false;
}.

Definition none : Z -> Z -> Prop := fun _ _ => False.
Definition only (id off : Z) : Z -> Z -> Prop := fun x o => x = id /\ o = off.

Lemma grew_owned exc s s' t t' d off : grew exc s s' t t' d off -> owned s t -> owned s' t'.
Proof. intros H Ho x Hx. destruct (g_ids _ _ _ _ _ _ _ H x Hx) as [Hi|[_ Ha]]; [|done]. apply (g_mono _ _ _ _ _ _ _ H). auto. Qed.

Lemma grew_quiet exc s s' t d off : iquiet s s' -> repr (idx_word s) t d -> grew exc s s' t t d off.
Proof.
  intros Q Hr. pose proof (iq_words _ _ Q) as Hw. destruct Q as [Hs _ Ha]. split; try done; auto.
  - eapply repr_ext; [|done]. intros. apply Hw.
  - intros. by rewrite Ha.
  - congruence.
Qed.

Lemma grew_trans exc s1 s2 s3 t1 t2 t3 d off :
  grew exc s1 s2 t1 t2 d off -> grew exc s2 s3 t2 t3 d off -> grew exc s1 s3 t1 t3 d off.
Proof.
  intros [A1 A2 A3 A4 A5 A6 A7 A8 A9 A10 A11] [B1 B2 B3 B4 B5 B6 B7 B8 B9 B10 B11].
  assert (forall x, idx_alloc s2 x = false -> idx_alloc s1 x = false) as Hanti.
  { intros x Hx. destruct (idx_alloc s1 x) eqn:E; [|done]. by rewrite A3 in Hx. }
  split; auto.
  - by eapply istep_trans.
  - intros x Hx. destruct (B4 x Hx) as [H|[H H']]; [|auto]. destruct (A4 x H) as [?|[? ?]]; auto.
  - intros x o Hx Ho Hf. rewrite B6, A6; auto.
  - intros x Hx. destruct (B7 x Hx) as [H|(H & Hfl & Hso)]; [|auto]. destruct (A7 x H) as [?|(Hn & Hfl & Hso)]; [auto|].
    right. split_and!; [done|by rewrite B6 by (done || apply flag_field)|].
    intros i Hi. rewrite B6; [by apply Hso|done|unfold ND_FLAG, son_off, ND_SONS; lia|by apply son_field_ok].
  - intros x o Hx Ha Hf He. rewrite B8, A8; auto. intros H. destruct (A4 x H) as [?|[? ?]]; [done|congruence].
  - intros off' Hb. by rewrite B9, A9.
  - intros off' x H1 H3. destruct (look t2 d off') as [y|] eqn:E2; [|eauto].
    pose proof (B10 _ _ E2) as H. rewrite H3 in H. injection H as ->. eauto.
Qed.

Lemma grew_weaken (exc exc' : Z -> Z -> Prop) s s' t t' d off : (forall x o, exc x o -> exc' x o) ->
  grew exc s s' t t' d off -> grew exc' s s' t t' d off.
Proof. intros H []. split; auto. Qed.

(** The growth of a son is the growth of its parent. *)
Lemma grew_son exc s s' id zl sons k tk' d off :
  repr (idx_word s) (INode id zl sons) d -> owned s (INode id zl sons) ->
  0 <= d -> zpart d zl off = 0 -> kpart d zl off = k ->
  grew (only id (son_off k)) s s' (sons k) tk' (d + 6 * zl + 6) off -> idx_word s' id (son_off k) = tid tk' ->
  grew exc s s' (INode id zl sons) (INode id zl (set_son sons k tk')) d off.
Proof.
  intros (R1 & R2 & R3 & R4 & R5 & Rs & Rd) Ho Hd Hz Hk [B1 B2 B3 B4 B5 B6 B7 B8 B9 B10 B11] Hw.
  pose proof (kpart_range d zl off) as Hkr. rewrite Hk in Hkr.
  assert (idx_alloc s id = true) as Hid by (apply Ho; by left).
  assert (forall i x, 0 <= i < 64 -> in_tree x (sons i) -> idx_alloc s x = true) as Hsa.
  { intros i x Hi Hx. apply Ho. right. by exists i. }
  assert (~ in_tree id (sons k)) as Hnk by (destruct (Rs k Hkr) as (_ & _ & ?); done).
  assert (forall o, node_field o -> o <> son_off k -> idx_word s' id o = idx_word s id o) as Hown.
  { intros o Hf Hne. apply B8; [done|done|by apply node_field_ok|]. unfold only. tauto. }
  assert (forall i, i <> k -> 0 <= i < 64 -> forall x o, in_tree x (sons i) -> field_ok o -> idx_word s' x o = idx_word s x o) as Hoth.
  { intros i Hne Hi x o Hx Hf. apply B8; [|by eapply Hsa|done|].
    - intros Hxk. apply Hne. by apply (Rd i k x).
    - intros [-> _]. by destruct (Rs i Hi) as (_ & _ & ?). }
  assert (node_field ND_TYPE /\ node_field ND_ZIPPED /\ forall i, 0 <= i < 64 -> node_field (son_off i)) as (F1 & F2 & F3).
  { unfold node_field. split_and!; [tauto|tauto|]. intros i Hi. right. right. by exists i. }
  split; try done.
  - cbn. rewrite Hown, Hown by (done || (unfold son_off, ND_TYPE, ND_ZIPPED, ND_SONS; lia)).
    split_and!; [lia|lia|done|done|done|done| |].
    + intros i Hi. unfold set_son. destruct (Z.eqb_spec i k) as [->|Hne].
      * split_and!; [done|done|]. intros H. destruct (B4 _ H) as [?|[? _]]; [done|congruence].
      * destruct (Rs i Hi) as (Ha & Hb & Hc). split_and!; [| |done].
        -- rewrite Hown; [done|by apply F3|]. unfold son_off. lia.
        -- eapply repr_ext; [|done]. intros x o Hx Hf. eapply Hoth; try done. by apply node_field_ok.
    + intros i j x Hi Hj. unfold set_son. destruct (Z.eqb_spec i k) as [->|Hni], (Z.eqb_spec j k) as [->|Hnj]; [done|..].
      * intros Hx Hxj. destruct (B4 _ Hx) as [Hxk|[Hf _]]; [by apply (Rd k j x)|]. rewrite (Hsa j) in Hf by done. done.
      * intros Hxi Hx. destruct (B4 _ Hx) as [Hxk|[Hf _]]; [by apply (Rd i k x)|]. rewrite (Hsa i) in Hf by done. done.
      * by apply Rd.
  - intros x [->|(i & Hi & Hx)]; [left; by left|]. unfold set_son in Hx. destruct (Z.eqb_spec i k) as [->|Hne].
    + destruct (B4 x Hx) as [?|?]; [|by right]. left. right. by exists k.
    + left. right. by exists i.
  - intros x (i & Hi & Hx). exists i. split; [done|]. unfold set_son. destruct (Z.eqb_spec i k) as [->|]; [by apply B5|done].
  - intros x o (i & Hi & Hx) Hfl Hf. destruct (Z.eq_dec i k) as [->|Hne]; [by apply B6|].
    eapply Hoth; try done. by apply leaf_in_tree.
  - intros x (i & Hi & Hx). unfold set_son in Hx. destruct (Z.eqb_spec i k) as [->|Hne]; [|left; by exists i].
    destruct (B7 x Hx) as [?|?]; [|by right]. left. by exists k.
  - intros x o Hx Ha Hf _. apply B8; [|done|done|].
    + intros H. apply Hx. right. by exists k.
    + intros [-> _]. apply Hx. by left.
  - intros off' Hb. rewrite look_set_son. destruct (Z.eqb_spec (zpart d zl off') 0) as [Hz'|]; [|done].
    destruct (Z.eqb_spec (kpart d zl off') k) as [Hk'|]; [|done]. cbn [andb look]. rewrite Hz', Hk'. cbn [Z.eqb].
    apply B9. intros He. apply Hb. rewrite (blk_below d zl off), (blk_below d zl off') by lia. by rewrite Hk, Hk', He.
  - intros off' x Hl. rewrite look_set_son. cbn [look] in Hl. destruct (Z.eqb_spec (zpart d zl off') 0) as [Hz'|]; [|done].
    destruct (Z.eqb_spec (kpart d zl off') k) as [Hk'|]; cbn [andb].
    + rewrite Hk' in Hl. by apply B10.
    + cbn [look]. by rewrite Hz'.
  - intros off' x H1 H2. rewrite look_set_son in H2. cbn [look] in H1, H2.
    destruct (Z.eqb_spec (zpart d zl off') 0) as [Hz'|]; [|done].
    destruct (Z.eqb_spec (kpart d zl off') k) as [Hk'|]; cbn [andb] in H2; [|congruence].
    rewrite Hk' in H1. by apply (B11 off').
Qed.

Section ops.
Context `{Mo : MallocOracle}.

(** ** Search *)

Lemma good_node ndtype zl d : 0 <= d -> 0 <= zl -> d + 6 * zl <= 36 -> ndtype = LEAF_NODE \/
  (ndtype = NOT_LEAF_NODE /\ d + 6 * zl + 6 <= 42) -> bad_node ndtype zl d = false.
Proof.
  unfold bad_node, MAX_ZIPPED_LAYER, KEY_LEN, LAYER_BITWIDTH, LEAF_NODE, NOT_LEAF_NODE. intros ? ? ? [->|[-> ?]]; lia.
Qed.

Lemma zpart_key d zl off : 0 <= d -> 0 <= zl -> d + 6 * zl <= 42 ->
  key_bits off (zl * LAYER_BITWIDTH) (KEY_LEN - d - zl * LAYER_BITWIDTH) = zpart d zl off.
Proof.
  intros. unfold LAYER_BITWIDTH, KEY_LEN. rewrite key_bits_at by lia. unfold zpart. f_equal; lia.
Qed.
Lemma kpart_key d zl off : 0 <= d -> 0 <= zl -> d + 6 * zl + 6 <= 42 ->
  key_bits off LAYER_BITWIDTH (KEY_LEN - d - zl * LAYER_BITWIDTH - LAYER_BITWIDTH) = kpart d zl off.
Proof.
  intros. unfold LAYER_BITWIDTH, KEY_LEN. rewrite key_bits_at by lia. unfold kpart. f_equal; lia.
Qed.

Lemma son_field k : 0 <= k < 64 -> 0 <= son_off k /\ son_off k + 8 <= ORCH_IDX_SIZE.
Proof. intros Hk. by destruct (son_field_ok k Hk) as (? & ? & _). Qed.

(** The node a tree starts with, loaded and checked. *)
Lemma repr_head s t d : repr (idx_word s) t d -> 0 <= d -> t <> IEmpty ->
  0 <= tid t < MAX_INDEX_NUM /\ 0 <= tzl t /\ d + 6 * tzl t <= 36 /\ idx_word s (tid t) ND_ZIPPED = tzl t /\
  match t with INode _ _ _ => idx_word s (tid t) ND_TYPE = NOT_LEAF_NODE /\ d + 6 * tzl t + 6 <= 36
             | _ => idx_word s (tid t) ND_TYPE = LEAF_NODE end.
Proof.
  intros H Hd Ht. destruct t as [|id zl|id zl sons]; [done|..]; cbn in *.
  - destruct H as (? & ? & ? & ? & ?). split_and!; lia || done.
  - destruct H as (? & ? & ? & ? & ? & _). split_and!; lia || done.
Qed.

Lemma empty_or t : t = IEmpty \/ t <> IEmpty.
Proof. destruct t; [by left|by right..]. Qed.

Lemma quiet_errno s e : world s -> iquiet s (set_k_errno e s).
Proof. intros Hw. apply quiet_of; try done. by eapply world_ext. Qed.

(** What follows the load in both operations. *)
Lemma head_good s t d : repr (idx_word s) t d -> 0 <= d -> t <> IEmpty ->
  bad_node (idx_word s (tid t) ND_TYPE) (tzl t) d = false.
Proof.
  intros H Hd Ht. destruct (repr_head s t d H Hd Ht) as (_ & Hz & Hle & _ & Hty).
  apply good_node; [done..|]. destruct t; [done|by left|]. right. destruct Hty as [-> ?]. split; [done|lia].
Qed.

Lemma search_spec inode off fuel : 0 <= inode -> 0 <= off < 2 ^ 42 -> forall t d s,
  world s -> repr (idx_word s) t d -> 0 <= d <= 36 -> 1 + (36 - d) / 6 <= Z.of_nat fuel ->
  exists r s', search_leaf_node fuel (tid t) inode d off s = Some (r, s') /\ iquiet s s' /\
    ((r = default (-1) (look t d off) /\ k_errno s' = k_errno s) \/ (r = -1 /\ k_errno s' = EIO)).
Proof.
  intros Hino Hoff. induction fuel as [|fuel IH]; intros t d s Hw Hr Hd Hfuel.
  { pose proof (Z.div_pos (36 - d) 6). lia. }
  cbn [search_leaf_node]. destruct (empty_or t) as [->|Hne].
  { exists (-1), s. split; [done|]. split; [by apply iquiet_refl|]. by left. }
  destruct (repr_head s t d Hr ltac:(lia) Hne) as (Hid & Hz & Hle & Hzw & Hty).
  unfold EMPTY_BLKID. replace (tid t =? -1) with false by lia. change (Z.shiftl 1 KEY_LEN) with (2 ^ 42).
  unfold KEY_LEN at 1. replace ((tid t <? 0) || _ || _ || _ || _ || _) with false by lia.
  destruct (load_index_spec (tid t) s Hw) as (x & s1 & Hrun & Hq & Hx). rewrite (bind_run _ _ _ _ _ Hrun).
  destruct x as [p|]; [|eexists _, _; split; [done|]; split; [|by right];
    eapply iquiet_trans; [done|apply quiet_errno, Hq]].
  destruct Hx as [Hp Herr]. pose proof (is_world _ _ (iq_step _ _ Hq)) as Hw1.
  assert (repr (idx_word s1) t d) as Hr1 by (eapply repr_ext; [|done]; intros; apply (iq_words _ _ Hq)).
  rewrite (bind_run _ _ _ _ _ (ld_idx s1 (tid t) p ND_TYPE Hw1 Hp ltac:(done) ltac:(done))).
  rewrite (bind_run _ _ _ _ _ (ld_idx s1 (tid t) p ND_ZIPPED Hw1 Hp ltac:(done) ltac:(done))).
  pose proof (head_good s1 t d Hr1 ltac:(lia) Hne) as Hgood.
  destruct (repr_head s1 t d Hr1 ltac:(lia) Hne) as (_ & _ & _ & Hzw1 & Hty1). rewrite Hzw1, Hgood.
  rewrite zpart_key by lia.
  destruct t as [|id zl|id zl sons]; [done|..]; cbn [tid tzl look] in *.
  - rewrite Hty1. destruct (zpart d zl off =? 0); cbn [negb Z.eqb];
      (eexists _, _; split; [done|]; split; [done|]; by left).
  - destruct Hty1 as [Hty1 Hle1]. rewrite Hty1.
    destruct (zpart d zl off =? 0); cbn [negb]; [|eexists _, _; split; [done|]; split; [done|]; by left].
    change (NOT_LEAF_NODE =? LEAF_NODE) with false. cbv iota. rewrite kpart_key by lia.
    pose proof (kpart_range d zl off) as Hk. destruct (son_field _ Hk) as [Hf1 Hf2].
    rewrite (bind_run _ _ _ _ _ (ld_idx s1 id p (son_off (kpart d zl off)) Hw1 Hp Hf1 Hf2)).
    destruct Hr1 as (_ & _ & _ & _ & _ & Hs & _). destruct (Hs _ Hk) as (Hson & Hrs & _). rewrite Hson.
    replace (d + zl * LAYER_BITWIDTH + LAYER_BITWIDTH) with (d + 6 * zl + 6) by (unfold LAYER_BITWIDTH; lia).
    destruct (IH (sons (kpart d zl off)) (d + 6 * zl + 6) s1 Hw1 Hrs ltac:(lia)) as (r & s2 & Hrun2 & Hq2 & Hres).
    { replace (36 - d) with (36 - (d + 6) + 1 * 6) in Hfuel by lia. rewrite Z.div_add in Hfuel by lia.
      pose proof (Z.div_le_mono (36 - (d + 6 * zl + 6)) (36 - (d + 6)) 6). lia. }
    exists r, s2. split; [done|]. split; [by eapply iquiet_trans|]. by rewrite <-Herr.
Qed.

(** ** New nodes *)

Lemma s64_id id : 0 <= id < MAX_INDEX_NUM -> is_s64 id.
Proof. change MAX_INDEX_NUM with 3145728. unfold is_s64. lia. Qed.

Lemma create_node_spec zl ty s : world s -> is_s64 zl -> is_s64 ty ->
  exists r s', create_node zl ty s = Some (r, s') /\ istep s s' /\
    (forall x, idx_alloc s x = true -> idx_alloc s' x = true) /\
    match r with
    | inl e => (e = EIO \/ e = ENOSPC) /\ forall x o, idx_word s' x o = idx_word s x o
    | inr (b, p) => points_to s' IDXND_CACHE b p /\ idx_alloc s b = false /\ idx_alloc s' b = true /\
        node_words s' b zl ty /\ forall x o, x <> b -> field_ok o -> idx_word s' x o = idx_word s x o
    end.
Proof.
  intros Hw Hz Hty. unfold create_node.
  destruct (require_index_spec s Hw) as (b & s1 & R1 & S1 & W1 & Hb). rewrite (bind_run _ _ _ _ _ R1).
  destruct Hb as [(-> & A1)|(Hb & Hf & A1)].
  { eexists _, _. split; [done|]. split; [done|]. split; [intros x Hx; by rewrite A1|]. split; [by right|done]. }
  replace (b =? -1) with false by lia. cbn [negb].
  destruct (create_log_spec s1 b IDXND_OP (is_world _ _ S1)) as (s2 & R2 & Q2 & _). rewrite (bind_run _ _ _ _ _ R2).
  destruct (load_index_spec b s2 (is_world _ _ (iq_step _ _ Q2))) as (x & s3 & R3 & Q3 & Hx).
  rewrite (bind_run _ _ _ _ _ R3). pose proof (iquiet_trans _ _ _ Q2 Q3) as Q.
  pose proof (istep_trans _ _ _ S1 (iq_step _ _ Q)) as T3.
  assert (forall y, idx_alloc s3 y = (y =? b) || idx_alloc s y) as A3 by (intros; by rewrite (iq_alloc _ _ Q), A1).
  assert (forall y o, idx_word s3 y o = idx_word s y o) as W3 by (intros; by rewrite (iq_words _ _ Q), W1).
  destruct x as [p|].
  - destruct Hx as [Hp _].
    destruct (node_init_spec s3 b p zl ty (is_world _ _ T3) Hp Hz Hty) as (s4 & R4 & S4 & A4 & _ & N4 & F4).
    rewrite (bind_run _ _ _ _ _ R4). eexists _, _. split; [done|]. split; [by eapply istep_trans|].
    split; [intros y Hy; rewrite A4, A3, Hy; apply orb_true_r|].
    split_and!; [by apply (is_points _ _ S4)|done|by rewrite A4, A3, Z.eqb_refl|done|].
    intros y o Hy (Ho1 & Ho2 & _). by rewrite F4.
  - eexists _, _. split; [done|]. split; [done|]. split; [intros y Hy; rewrite A3, Hy; apply orb_true_r|].
    split; [by left|done].
Qed.

(** Nothing of the tree changed. *)
Lemma grew_same exc s s' t d off : istep s s' -> (forall x, idx_alloc s x = true -> idx_alloc s' x = true) ->
  (forall x o, idx_word s' x o = idx_word s x o) -> repr (idx_word s) t d -> grew exc s s' t t d off.
Proof. intros Hs Hm Hw Hr. split; auto; [|congruence]. eapply repr_ext; [|done]. intros. apply Hw. Qed.

(** Distinct fields do not overlap. *)
Lemma fields_apart id off id' off' : field_ok off -> field_ok off' -> ~ (id' = id /\ off' = off) ->
  apart id off 8 id' off'.
Proof.
  unfold field_ok, apart. intros (_ & _ & H1) (_ & _ & H2) Hne. destruct (Z.eq_dec id' id); [|by left]. right.
  pose proof (Z.div_mod off 8 ltac:(lia)). pose proof (Z.div_mod off' 8 ltac:(lia)). assert (off' <> off) by tauto. lia.
Qed.

(** [st_idx] for well-placed fields. *)
Lemma st_field s id p off v : world s -> points_to s IDXND_CACHE id p -> field_ok off -> is_s64 v ->
  exists s', st p off v s = Some (tt, s') /\ istep s s' /\ (forall i, idx_alloc s' i = idx_alloc s i) /\
    idx_word s' id off = v /\
    forall id' off', field_ok off' -> ~ (id' = id /\ off' = off) -> idx_word s' id' off' = idx_word s id' off'.
Proof.
  intros Hw Hp Hf Hv. pose proof Hf as (? & ? & _).
  destruct (st_idx s id p off v Hw Hp) as (s' & R & S & A & _ & W & F); [done..|].
  exists s'. split_and!; try done. intros id' off' Hf' Hne. pose proof Hf' as (? & ? & _).
  apply F; [done..|]. by apply fields_apart.
Qed.

Lemma new_son_repr W b d ty : ty = (if d =? 36 then LEAF_NODE else NOT_LEAF_NODE) ->
  0 <= b < MAX_INDEX_NUM -> 0 <= d <= 36 -> d mod 6 = 0 -> W b ND_TYPE = ty -> W b ND_ZIPPED = 0 ->
  (forall i, 0 <= i < 64 -> W b (son_off i) = EMPTY_BLKID) -> repr W (new_son b d) d.
Proof.
  intros -> Hb Hd Hm Ht Hz Hs. unfold new_son. revert Ht.
  destruct (Z.eqb_spec d 36) as [->|Hne]; intros Ht; cbn; [split_and!; lia|].
  pose proof (Z.div_mod d 6 ltac:(lia)). split_and!; try lia; try done.
  intros i Hi. split; [by apply Hs|]. tauto.
Qed.

(** The missing son of a node. *)
Lemma add_son_spec s id p zl sons k d off : world s -> points_to s IDXND_CACHE id p ->
  repr (idx_word s) (INode id zl sons) d -> owned s (INode id zl sons) -> 0 <= d -> d mod 6 = 0 ->
  zpart d zl off = 0 -> kpart d zl off = k -> sons k = IEmpty ->
  let d' := d + 6 * zl + 6 in
  exists e s', add_son id p k (if d' =? 36 then LEAF_NODE else NOT_LEAF_NODE) s = Some (e, s') /\
    ((e <> 0 /\ grew none s s' (INode id zl sons) (INode id zl sons) d off) \/
     (e = 0 /\ exists b, grew none s s' (INode id zl sons) (INode id zl (set_son sons k (new_son b d'))) d off)).
Proof.
  intros Hw Hp Hr Ho Hd Hm Hz Hk Hemp d'. pose proof Hr as (Hid & _ & _ & Hzl & Hle & _ & _).
  pose proof (kpart_range d zl off) as Hkr. rewrite Hk in Hkr. unfold add_son. set (ty := if d' =? 36 then _ else _).
  destruct (create_node_spec 0 ty s Hw) as (r & s1 & R1 & S1 & M1 & Hc);
    [done|by unfold ty; destruct (d' =? 36)|]. rewrite (bind_run _ _ _ _ _ R1).
  destruct r as [e|[b q]].
  { destruct Hc as [He Hc]. exists e, s1. split; [done|]. left. split; [by destruct He as [-> | ->]|]. by apply grew_same. }
  destruct Hc as (Hq & Hf & Hta & (N1 & N2 & N3 & N4) & F1).
  destruct (log_idx_spec s1 b q 0 ORCH_IDX_SIZE (is_world _ _ S1)) as (s2 & R2 & Q2 & _).
  rewrite (bind_run _ _ _ _ _ R2). pose proof (istep_trans _ _ _ S1 (iq_step _ _ Q2)) as T2.
  destruct (st_field s2 id p (son_off k) b (is_world _ _ T2)) as (s3 & R3 & S3 & A3 & W3 & F3);
    [by apply (is_points _ _ T2)|by apply son_field_ok|by apply s64_id, (points_to_id s1 b q)|].
  rewrite (bind_run _ _ _ _ _ R3). pose proof (istep_trans _ _ _ T2 S3) as T3.
  destruct (log_idx_spec s3 id p (son_off k) 8 (is_world _ _ T3)) as (s4 & R4 & Q4 & _).
  rewrite (bind_run _ _ _ _ _ R4). eexists _, s4. split; [done|]. right. split; [done|]. exists b.
  assert (idx_alloc s id = true) as Hida by (apply Ho; by left). assert (id <> b) as Hne by congruence.
  assert (forall x o, field_ok o -> ~ (x = id /\ o = son_off k) -> idx_word s4 x o = idx_word s1 x o) as F4.
  { intros x o Hfo Hno. by rewrite (iq_words _ _ Q4), F3, (iq_words _ _ Q2). }
  assert (forall x, idx_alloc s4 x = idx_alloc s1 x) as A4.
  { intros x. by rewrite (iq_alloc _ _ Q4), A3, (iq_alloc _ _ Q2). }
  apply grew_son; try done; [|by rewrite (iq_words _ _ Q4), W3, new_son_tid].
  rewrite Hemp. assert (forall o, field_ok o -> idx_word s4 b o = idx_word s1 b o) as Fb.
  { intros o Hfo. apply F4; [done|]. intros [-> _]. done. }
  split; try done.
  - eapply istep_trans; [exact T3|apply Q4].
  - fold d'. apply (new_son_repr _ b d' ty); [done|by apply (points_to_id s1 b q)|unfold d'; lia| | | |].
    + unfold d'. replace (d + 6 * zl + 6) with (d + (zl + 1) * 6) by lia. by rewrite Z.mod_add by lia.
    + by rewrite Fb by by apply node_field_ok; left.
    + by rewrite Fb by by apply node_field_ok; right; left.
    + intros i Hi. rewrite Fb by by apply son_field_ok. by apply N4.
  - intros x Hx. rewrite A4. by apply M1.
  - intros x Hx. apply new_son_in in Hx as ->. right. by rewrite A4.
  - intros x Hx. apply leaf_in_tree, new_son_in in Hx as ->. right. split_and!; [done|by rewrite Fb by apply flag_field|].
    intros i Hi. rewrite Fb by by apply son_field_ok. by apply N4.
  - intros x o _ Hx Hfo Hno. rewrite F4, F1; [done|congruence|done|done|done].
  - intros off' Hb. fold d'. by apply (look_new_son b d' off).
  - intros off' x _ Hl. by apply look_leaf_in, leaf_in_tree, new_son_in in Hl as ->.
Qed.

(** The son on the path, created when it is missing. *)
Lemma ensure_son_spec s id p zl sons k d off : world s -> points_to s IDXND_CACHE id p ->
  repr (idx_word s) (INode id zl sons) d -> owned s (INode id zl sons) -> 0 <= d -> d mod 6 = 0 ->
  zpart d zl off = 0 -> kpart d zl off = k ->
  exists e s2 sons2,
    (if idx_word s id (son_off k) =? EMPTY_BLKID
     then add_son id p k (if d + 6 * zl + 6 =? 36 then LEAF_NODE else NOT_LEAF_NODE) else mret 0) s = Some (e, s2) /\
    grew none s s2 (INode id zl sons) (INode id zl sons2) d off /\ (e = 0 -> sons2 k <> IEmpty).
Proof.
  intros Hw Hp Hr Ho Hd Hm Hz Hk. pose proof (kpart_range d zl off) as Hkr. rewrite Hk in Hkr.
  pose proof Hr as (_ & _ & _ & _ & _ & Rs & _). destruct (Rs k Hkr) as (Hsk & Hrk & _). rewrite Hsk.
  destruct (empty_or (sons k)) as [Hemp|Hfull].
  - rewrite Hemp. cbn [tid]. rewrite Z.eqb_refl.
    destruct (add_son_spec s id p zl sons k d off) as (e & s2 & R2 & Hc); [done..|].
    destruct Hc as [[He G]|[-> [b G]]]; [by exists e, s2, sons|]. exists 0, s2, (set_son sons k (new_son b (d + 6 * zl + 6))).
    split; [done|]. split; [done|]. intros _. unfold set_son, new_son. rewrite Z.eqb_refl. by destruct (_ =? 36).
  - pose proof Hr as (_ & _ & _ & Hzl & _). destruct (repr_head s (sons k) (d + 6 * zl + 6) Hrk ltac:(lia) Hfull) as (Hidk & _).
    replace (tid (sons k) =? EMPTY_BLKID) with false by (unfold EMPTY_BLKID; lia).
    exists 0, s, sons. split; [done|]. split; [by apply grew_quiet; [apply iquiet_refl|]|done].
Qed.

Lemma st_field_ptr p off v s : st (field_ptr p off) 0 v s = st p off v s.
Proof. unfold st, mem_write, modify, field_ptr, ptr_buffer. cbn [mp_cache mp_segment mp_offset]. by rewrite Z.add_0_r. Qed.

(** The tree and the states before and after a split. *)
Lemma grew_split s s' t n a d off fid foff : repr (idx_word s) t d -> owned s t -> t <> IEmpty -> 0 <= d ->
  0 <= a < tzl t -> 0 <= n < MAX_INDEX_NUM -> idx_alloc s n = false ->
  istep s s' -> (forall x, idx_alloc s x = true -> idx_alloc s' x = true) -> idx_alloc s' n = true ->
  idx_word s' n ND_TYPE = NOT_LEAF_NODE -> idx_word s' n ND_ZIPPED = a ->
  (forall i, 0 <= i < 64 -> idx_word s' n (son_off i) = if i =? 0 then tid t else EMPTY_BLKID) ->
  idx_word s' (tid t) ND_ZIPPED = tzl t - a - 1 -> ~ in_tree fid t ->
  (forall x o, field_ok o -> x <> n -> ~ (x = tid t /\ o = ND_ZIPPED) -> ~ (x = fid /\ o = foff) ->
    idx_word s' x o = idx_word s x o) ->
  grew (only fid foff) s s' t (split_tree n a t) d off.
Proof.
  intros Hr Ho Hne Hd Ha Hn Hf Hst Hm Hna Wt Wz Ws Wid Hfid F.
  destruct (repr_head s t d Hr Hd Hne) as (_ & _ & Hle & _).
  assert (forall x, in_tree x t -> x <> n) as Hfresh by (intros x Hx ->; rewrite Ho in Hf; done).
  assert (forall x, in_tree x t -> x <> fid) as Hnf by (intros x Hx ->; done).
  split; try done.
  - cbn. split_and!; [lia|lia|done|done|lia|lia| |].
    + intros i Hi. rewrite Ws by done. unfold set_son. destruct (Z.eqb_spec i 0) as [->|]; [|cbn; tauto].
      split_and!; [by destruct t| |rewrite rezip_in; intros H; by apply (Hfresh n H)].
      apply (repr_rezip (idx_word s) _ t d); [done..|lia|lia|done|]. intros x o Hx Hfo Hno.
      apply F; [by apply node_field_ok|by apply Hfresh|done|]. intros [-> _]. done.
    + intros i j x Hi Hj. unfold set_son. destruct (Z.eqb_spec i 0), (Z.eqb_spec j 0); cbn; try tauto. by subst.
  - intros x [->|(i & Hi & Hx)]; [by right|]. left. unfold set_son in Hx. destruct (i =? 0); [|done].
    by apply rezip_in in Hx.
  - intros x Hx. exists 0. split; [lia|]. unfold set_son. rewrite Z.eqb_refl. by apply rezip_leaf.
  - intros x o Hx Hof Hfo. pose proof (leaf_in_tree _ _ Hx) as Hit.
    apply F; [done|by apply Hfresh| |].
    + intros [_ ->]. unfold ND_FLAG, ND_ZIPPED in Hof. lia.
    + intros [-> _]. done.
  - intros x (i & Hi & Hx). left. unfold set_son in Hx. destruct (i =? 0); [|done]. by apply rezip_leaf in Hx.
  - intros x o Hx Hal Hfo Hex. apply F; [done|congruence| |done].
    intros [-> _]. apply Hx. destruct t; [done|by cbn|by left].
  - intros off' _. apply look_split; lia.
  - intros off' x Hl. rewrite look_split by lia. done.
  - intros off' x Hl. rewrite look_split by lia. congruence.
Qed.

Lemma split_node_spec s t p d off fid foff pf : world s -> points_to s IDXND_CACHE (tid t) p ->
  repr (idx_word s) t d -> owned s t -> t <> IEmpty -> 0 <= d -> 
  points_to s IDXND_CACHE fid pf -> idx_alloc s fid = true -> ~ in_tree fid t -> field_ok foff ->
  forall a, 0 <= a < tzl t ->
  exists r s', split_node (tid t) p (tzl t) a (field_ptr pf foff) s = Some (r, s') /\
    match r with
    | inl e => e <> 0 /\ grew none s s' t t d off /\ idx_word s' fid foff = idx_word s fid foff
    | inr (n, q) => grew (only fid foff) s s' t (split_tree n a t) d off /\ idx_word s' fid foff = n /\ fid <> n
    end.
Proof.
  intros Hw Hp Hr Ho Hne Hd Hpf Hfa Hft Hff a Ha. destruct (repr_head s t d Hr Hd Hne) as (Hid & Hz & Hle & _ & _).
  unfold split_node. destruct (create_node_spec a NOT_LEAF_NODE s Hw) as (r & s1 & R1 & S1 & M1 & Hc);
    [unfold is_s64; lia|done|]. rewrite (bind_run _ _ _ _ _ R1).
  destruct r as [e|[n q]].
  { destruct Hc as [He Hc]. eexists _, s1. split; [done|].
    split; [by destruct He as [-> | ->]|]. split; [by apply grew_same|done]. }
  destruct Hc as (Hq & Hf & Hta & (N1 & N2 & N3 & N4) & F1). pose proof (points_to_id _ _ _ Hq) as Hn.
  destruct (st_field s1 n q (son_off 0) (tid t) (is_world _ _ S1)) as (s2 & R2 & S2 & A2 & W2 & F2);
    [done|by apply son_field_ok|by apply s64_id|]. rewrite (bind_run _ _ _ _ _ R2).
  pose proof (istep_trans _ _ _ S1 S2) as T2.
  destruct (log_idx_spec s2 n q 0 ORCH_IDX_SIZE (is_world _ _ T2)) as (s3 & R3 & Q3 & _). rewrite (bind_run _ _ _ _ _ R3).
  pose proof (istep_trans _ _ _ T2 (iq_step _ _ Q3)) as T3.
  assert (field_ok ND_ZIPPED) as Hfz by (apply node_field_ok; right; by left).
  assert (field_ok ND_TYPE) as Hfty by (apply node_field_ok; by left).
  destruct (st_field s3 (tid t) p ND_ZIPPED (tzl t - a - 1) (is_world _ _ T3)) as (s4 & R4 & S4 & A4 & W4 & F4);
    [by apply (is_points _ _ T3)|done|unfold is_s64; lia|]. rewrite (bind_run _ _ _ _ _ R4).
  pose proof (istep_trans _ _ _ T3 S4) as T4.
  destruct (log_idx_spec s4 (tid t) p ND_ZIPPED 8 (is_world _ _ T4)) as (s5 & R5 & Q5 & _). rewrite (bind_run _ _ _ _ _ R5).
  pose proof (istep_trans _ _ _ T4 (iq_step _ _ Q5)) as T5.
  destruct (st_field s5 fid pf foff n (is_world _ _ T5)) as (s6 & R6 & S6 & A6 & W6 & F6);
    [by apply (is_points _ _ T5)|done|by apply s64_id|].
  rewrite <-(st_field_ptr pf foff) in R6. rewrite (bind_run _ _ _ _ _ R6).
  eexists _, s6. split; [done|]. assert (in_tree (tid t) t) as Hin by (destruct t; [done|done|by left]).
  assert (fid <> n) as Hfn by congruence. assert (tid t <> n) as Htn by (intros E; rewrite <-E, Ho in Hf; done).
  assert (tid t <> fid) as Htf by (intros E; by rewrite E in Hin).
  assert (forall x o, field_ok o -> ~ (x = n /\ o = son_off 0) -> ~ (x = tid t /\ o = ND_ZIPPED) ->
    ~ (x = fid /\ o = foff) -> idx_word s6 x o = idx_word s1 x o) as F.
  { intros x o Hfo G1 G2 G3. by rewrite F6, (iq_words _ _ Q5), F4, (iq_words _ _ Q3), F2. }
  assert (forall x, idx_alloc s6 x = idx_alloc s1 x) as A6'.
  { intros x. by rewrite A6, (iq_alloc _ _ Q5), A4, (iq_alloc _ _ Q3), A2. }
  split; [|by split].
  apply grew_split; try done; try tauto.
  - by eapply istep_trans.
  - intros x Hx. rewrite A6'. by apply M1.
  - by rewrite A6'.
  - rewrite F by (first [done|intros [??]; first [congruence|discriminate]]). done.
  - rewrite F by (first [done|intros [??]; first [congruence|discriminate]]). done.
  - intros i Hi. destruct (Z.eqb_spec i 0) as [->|Hi0].
    + rewrite F6, (iq_words _ _ Q5), F4, (iq_words _ _ Q3) by (first [by apply son_field_ok|intros [??]; first [congruence|discriminate]]). done.
    + rewrite F by (first [by apply son_field_ok|intros [E1 E2]; unfold son_off in *; first [congruence|lia]]). by apply N4.
  - rewrite F6, (iq_words _ _ Q5) by (first [done|intros [??]; congruence]). done.
  - intros x o Hfo G1 G2 G3. rewrite F by tauto. by apply F1.
Qed.

(** ** Insertion *)

(** Loading the node a tree starts with. *)
Lemma head_load s t d : world s -> repr (idx_word s) t d -> 0 <= d -> t <> IEmpty ->
  exists r s1, indexid_to_memaddr (tid t) s = Some (r, s1) /\ iquiet s s1 /\ repr (idx_word s1) t d /\
    match r with
    | None => True
    | Some p => points_to s1 IDXND_CACHE (tid t) p /\ ld p ND_TYPE s1 = Some (idx_word s1 (tid t) ND_TYPE, s1) /\
        ld p ND_ZIPPED s1 = Some (tzl t, s1) /\ bad_node (idx_word s1 (tid t) ND_TYPE) (tzl t) d = false
    end.
Proof.
  intros Hw Hr Hd Hne. destruct (load_index_spec (tid t) s Hw) as (r & s1 & Hrun & Hq & Hx).
  pose proof (is_world _ _ (iq_step _ _ Hq)) as Hw1. exists r, s1. split; [done|]. split; [done|].
  assert (repr (idx_word s1) t d) as Hr1 by (eapply repr_ext; [|done]; intros; apply (iq_words _ _ Hq)).
  split; [done|]. destruct r as [p|]; [|done]. destruct Hx as [Hp _].
  destruct (repr_head s1 t d Hr1 Hd Hne) as (_ & _ & _ & Hzw & _).
  split; [done|]. split; [by apply ld_idx|]. split; [rewrite <-Hzw; by apply ld_idx|by apply head_good].
Qed.

Lemma in_tree_tid t : t <> IEmpty -> in_tree (tid t) t.
Proof. destruct t; cbn; auto. Qed.

Section insert.
Context (inode off : Z) (Hino : 0 <= inode) (Hoff : 0 <= off < 2 ^ 42).

(** What an insertion below the word [foff] of node [fid] does; [n] layers are left. *)
Definition insert_ok (fuel : nat) : Prop := forall t d s fid foff pf n,
  world s -> repr (idx_word s) t d -> owned s t -> t <> IEmpty -> 0 <= d -> 36 - d = 6 * n -> 0 <= n ->
  1 + 2 * n <= Z.of_nat fuel ->
  points_to s IDXND_CACHE fid pf -> idx_alloc s fid = true -> ~ in_tree fid t -> field_ok foff ->
  idx_word s fid foff = tid t ->
  exists r s' t', insert_node_into_index fuel (tid t) inode (field_ptr pf foff) d off s = Some (r, s') /\
    grew (only fid foff) s s' t t' d off /\ idx_word s' fid foff = tid t' /\ t' <> IEmpty /\
    (0 <= r -> is_Some (look t' d off)) /\ (r < 0 -> k_errno s' <> 0).

(** The parameter check passes on a tree. *)
Lemma insert_guard s t d : repr (idx_word s) t d -> t <> IEmpty -> 0 <= d <= 36 ->
  (tid t <? 0) || (inode <? 0) || (d <? 0) || (KEY_LEN <? d) || (Z.shiftl 1 KEY_LEN <=? off) = false.
Proof.
  intros Hr Hne Hd. destruct (repr_head s t d Hr ltac:(lia) Hne) as (Hid & _).
  change (Z.shiftl 1 KEY_LEN) with (2 ^ 42). unfold KEY_LEN. lia.
Qed.

(** A node whose compressed part matches: the insertion goes on in a son, that is
    created when it is missing. *)
Lemma insert_node_spec fuel id zl sons d s father n : insert_ok fuel ->
  world s -> repr (idx_word s) (INode id zl sons) d -> owned s (INode id zl sons) -> 0 <= d ->
  36 - d = 6 * n -> 0 <= n -> 2 * n <= Z.of_nat (S fuel) -> zpart d zl off = 0 ->
  exists r s' sons', insert_node_into_index (S fuel) id inode father d off s = Some (r, s') /\
    grew none s s' (INode id zl sons) (INode id zl sons') d off /\
    (0 <= r -> is_Some (look (INode id zl sons') d off)) /\ (r < 0 -> k_errno s' <> 0).
Proof.
  intros IH Hw Hr Ho Hd Hn Hn0 Hfuel Hz. set (t := INode id zl sons) in *. assert (t <> IEmpty) as Hne by done.
  cbn [insert_node_into_index]. pose proof (insert_guard s t d Hr Hne ltac:(lia)) as Hg. cbn [tid t] in Hg. rewrite Hg.
  destruct (head_load s t d Hw Hr Hd Hne) as (x & s1 & Hrun & Hq & Hr1 & Hx). cbn [tid t] in Hrun.
  rewrite (bind_run _ _ _ _ _ Hrun). pose proof (is_world _ _ (iq_step _ _ Hq)) as Hw1.
  pose proof (grew_quiet none s s1 t d off Hq Hr) as G1. pose proof (grew_owned _ _ _ _ _ _ _ G1 Ho) as Ho1.
  destruct x as [p|]; [|eexists _, _, sons; split; [done|]; split; [|done];
    eapply grew_trans; [exact G1|by apply grew_quiet; [apply quiet_errno|]]].
  destruct Hx as (Hp & L1 & L2 & Hgood). rewrite (bind_run _ _ _ _ _ L1), (bind_run _ _ _ _ _ L2), Hgood.
  destruct (repr_head s1 t d Hr1 Hd Hne) as (Hid & Hzl & Hle & _ & Hty & Hle2). cbn [t tzl tid] in *.
  rewrite zpart_key, Hz, Hty by lia. cbn [Z.eqb andb NOT_LEAF_NODE LEAF_NODE Pos.eqb].
  rewrite kpart_key by lia. set (k := kpart d zl off). pose proof (kpart_range d zl off) as Hk. fold k in Hk.
  replace (d + zl * LAYER_BITWIDTH + LAYER_BITWIDTH) with (d + 6 * zl + 6) by (unfold LAYER_BITWIDTH; lia).
  change (KEY_LEN - LAYER_BITWIDTH) with 36. destruct (son_field k Hk) as [Hf1 Hf2].
  rewrite (bind_run _ _ _ _ _ (ld_idx s1 id p (son_off k) Hw1 Hp Hf1 Hf2)).
  assert (d mod 6 = 0) as Hmod by (replace d with (0 + (6 - n) * 6) by lia; by rewrite Z.mod_add by lia).
  destruct (ensure_son_spec s1 id p zl sons k d off) as (e & s2 & sons2 & R2 & G2 & He); [done..|].
  rewrite (bind_run _ _ _ _ _ R2). pose proof (grew_trans _ _ _ _ _ _ _ _ _ G1 G2) as G12.
  pose proof (grew_owned _ _ _ _ _ _ _ G12 Ho) as Ho2. pose proof (g_repr _ _ _ _ _ _ _ G2) as Hr2.
  pose proof (g_step _ _ _ _ _ _ _ G2) as S2. pose proof (is_world _ _ S2) as Hw2.
  destruct (Z.eqb_spec e 0) as [->|Hene]; cbn [negb];
    [|eexists _, _, sons2; split; [done|]; split; [|split; [lia|done]];
      eapply grew_trans; [exact G12|by apply grew_quiet; [apply quiet_errno|]]].
  specialize (He eq_refl). pose proof (is_points _ _ S2 _ _ Hp) as Hp2.
  rewrite (bind_run _ _ _ _ _ (ld_idx s2 id p (son_off k) Hw2 Hp2 Hf1 Hf2)).
  pose proof Hr2 as (_ & _ & _ & _ & _ & Rs & _). destruct (Rs k Hk) as (Hsk & Hrk & Hnk). rewrite Hsk.
  destruct (IH (sons2 k) (d + 6 * zl + 6) s2 id (son_off k) p (n - zl - 1)) as (r & s3 & t3 & R3 & G3 & W3 & N3 & L3 & E3);
    [done|done| |done|lia..|done|by apply Ho2; left|done|by apply son_field_ok|done|].
  { intros y Hy. apply Ho2. right. by exists k. }
  rewrite (bind_run _ _ _ _ _ R3).
  pose proof (grew_son none s2 s3 id zl sons2 k t3 d off Hr2 Ho2 Hd Hz eq_refl G3 W3) as G23.
  pose proof (grew_trans _ _ _ _ _ _ _ _ _ G12 G23) as G13.
  assert (is_Some (look t3 (d + 6 * zl + 6) off) -> is_Some (look (INode id zl (set_son sons2 k t3)) d off)) as HL.
  { intros H. rewrite look_set_son, Hz. unfold k. by rewrite !Z.eqb_refl. }
  destruct (Z.ltb_spec r 0) as [Hneg|Hpos].
  { eexists _, _, _. split; [done|]. split; [exact G13|]. split; [lia|auto]. }
  pose proof (is_world _ _ (g_step _ _ _ _ _ _ _ G13)) as Hw3.
  destruct (r =? 1).
  - destruct (log_idx_spec s3 id p (son_off k) 8 Hw3) as (s4 & R4 & Q4 & _). rewrite (bind_run _ _ _ _ _ R4).
    eexists _, _, _. split; [done|]. split; [|split; [auto|lia]]. eapply grew_trans; [exact G13|].
    apply grew_quiet; [done|apply G13].
  - eexists _, _, _. split; [done|]. split; [exact G13|]. split; [auto|lia].
Qed.

(** A leaf whose compressed part matches is the one. *)
Lemma insert_leaf_spec fuel id zl d s father : world s -> repr (idx_word s) (ILeaf id zl) d -> 0 <= d <= 36 ->
  zpart d zl off = 0 ->
  exists r s', insert_node_into_index (S fuel) id inode father d off s = Some (r, s') /\ iquiet s s' /\
    (r < 0 -> k_errno s' <> 0).
Proof.
  intros Hw Hr Hd Hz. set (t := ILeaf id zl) in *. assert (t <> IEmpty) as Hne by done.
  cbn [insert_node_into_index]. pose proof (insert_guard s t d Hr Hne ltac:(lia)) as Hg. cbn [tid t] in Hg. rewrite Hg.
  destruct (head_load s t d Hw Hr ltac:(lia) Hne) as (x & s1 & Hrun & Hq & Hr1 & Hx). cbn [tid t] in Hrun.
  rewrite (bind_run _ _ _ _ _ Hrun). pose proof (is_world _ _ (iq_step _ _ Hq)) as Hw1.
  destruct x as [p|]; [|eexists _, _; split; [done|]; split; [|done]; eapply iquiet_trans; [exact Hq|by apply quiet_errno]].
  destruct Hx as (Hp & L1 & L2 & Hgood). rewrite (bind_run _ _ _ _ _ L1), (bind_run _ _ _ _ _ L2), Hgood.
  destruct (repr_head s1 t d Hr1 ltac:(lia) Hne) as (_ & Hzl & Hle & _ & Hty). cbn [tid tzl t] in *.
  rewrite zpart_key, Hz, Hty by lia. by eexists _, _.
Qed.

(** A node whose compressed part does not match is split; the new node above it has
    a matching one. *)
Lemma insert_split_spec fuel t d s fid foff pf n : insert_ok fuel ->
  world s -> repr (idx_word s) t d -> owned s t -> t <> IEmpty -> 0 <= d -> 36 - d = 6 * n -> 0 <= n ->
  1 + 2 * n <= Z.of_nat (S (S fuel)) ->
  points_to s IDXND_CACHE fid pf -> idx_alloc s fid = true -> ~ in_tree fid t -> field_ok foff ->
  idx_word s fid foff = tid t -> zpart d (tzl t) off <> 0 ->
  exists r s' t', insert_node_into_index (S (S fuel)) (tid t) inode (field_ptr pf foff) d off s = Some (r, s') /\
    grew (only fid foff) s s' t t' d off /\ idx_word s' fid foff = tid t' /\ t' <> IEmpty /\
    (0 <= r -> is_Some (look t' d off)) /\ (r < 0 -> k_errno s' <> 0).
Proof.
  intros IH Hw Hr Ho Hne Hd Hn Hn0 Hfuel Hpf Hfa Hft Hff Hfw Hz.
  destruct (repr_head s t d Hr Hd Hne) as (_ & Hzl & Hle & _).
  destruct (allow_zipped_layer_spec d (tzl t) off) as (Ha & Hza & _); [lia..|]. set (a := allow_zipped_layer _ _) in *.
  remember (S fuel) as fuel1 eqn:Hf1. cbn [insert_node_into_index]. rewrite (insert_guard s t d Hr Hne) by lia.
  destruct (head_load s t d Hw Hr Hd Hne) as (x & s1 & Hrun & Hq & Hr1 & Hx).
  rewrite (bind_run _ _ _ _ _ Hrun). pose proof (grew_quiet (only fid foff) s s1 t d off Hq Hr) as G1.
  pose proof (is_world _ _ (iq_step _ _ Hq)) as Hw1. pose proof (grew_owned _ _ _ _ _ _ _ G1 Ho) as Ho1.
  destruct x as [p|]; [|eexists _, _, t; split; [done|]; split; [|split; [|done]];
    [eapply grew_trans; [exact G1|by apply grew_quiet; [apply quiet_errno|]]|
     by rewrite (iq_words _ _ (quiet_errno s1 EIO Hw1)), (iq_words _ _ Hq)]].
  destruct Hx as (Hp & L1 & L2 & Hgood). rewrite (bind_run _ _ _ _ _ L1), (bind_run _ _ _ _ _ L2), Hgood.
  rewrite zpart_key by lia. replace (zpart d (tzl t) off =? 0) with false by lia. rewrite !andb_false_r. fold a.
  destruct (split_node_spec s1 t p d off fid foff pf Hw1 Hp Hr1 Ho1 Hne Hd) with (a := a) as (r & s2 & R2 & Hc);
    [by apply (is_points _ _ (iq_step _ _ Hq))|by rewrite (iq_alloc _ _ Hq)|done|done|done|].
  rewrite (bind_run _ _ _ _ _ R2). destruct r as [e|[nid q]].
  { destruct Hc as (He & G2 & Hwd). pose proof (is_world _ _ (g_step _ _ _ _ _ _ _ G2)) as Hw2.
    pose proof (quiet_errno s2 e Hw2) as Q3. eexists _, _, t. split; [done|]. split; [|split; [|done]].
    - eapply grew_trans; [exact G1|]. eapply grew_trans; [by eapply grew_weaken; [|exact G2]|]. apply grew_quiet; [done|apply G2].
    - by rewrite (iq_words _ _ Q3), Hwd, (iq_words _ _ Hq). }
  destruct Hc as (G2 & Hwd & Hfn). pose proof (grew_trans _ _ _ _ _ _ _ _ _ G1 G2) as G12.
  pose proof (grew_owned _ _ _ _ _ _ _ G12 Ho) as Ho2. pose proof (is_world _ _ (g_step _ _ _ _ _ _ _ G2)) as Hw2.
  assert (~ in_tree fid (split_tree nid a t)) as Hft2.
  { intros H. destruct (g_ids _ _ _ _ _ _ _ G12 _ H) as [?|[? _]]; [done|congruence]. }
  subst fuel1. destruct (insert_node_spec fuel nid a _ d s2 (field_ptr q (son_off 0)) n IH Hw2
    (g_repr _ _ _ _ _ _ _ G2) Ho2 Hd Hn Hn0 ltac:(lia) Hza) as (r & s3 & sons3 & R3 & G3 & L3 & E3).
  rewrite (bind_run _ _ _ _ _ R3).
  assert (grew (only fid foff) s s3 t (INode nid a sons3) d off) as G13.
  { eapply grew_trans; [exact G12|]. by eapply grew_weaken; [|exact G3]. }
  assert (idx_word s3 fid foff = nid) as W3.
  { rewrite (g_frame _ _ _ _ _ _ _ G3); [done|done|by apply (g_mono _ _ _ _ _ _ _ G12)|done|by intros []]. }
  destruct (Z.ltb_spec r 0) as [Hneg|Hpos].
  { eexists _, _, _. split; [done|]. split; [exact G13|]. split_and!; [done|done|lia|auto]. }
  pose proof (is_world _ _ (g_step _ _ _ _ _ _ _ G13)) as Hw3.
  destruct (r =? 1); [|eexists _, _, _; split; [done|]; split; [exact G13|]; split_and!; [done|done|auto|lia]].
  destruct (log_idx_spec s3 nid q ND_SONS 8 Hw3) as (s4 & R4 & Q4 & _). rewrite (bind_run _ _ _ _ _ R4).
  eexists _, _, _. split; [done|]. split; [eapply grew_trans; [exact G13|by apply grew_quiet; [|apply G13]]|].
  split_and!; [by rewrite (iq_words _ _ Q4)|done|auto|lia].
Qed.

Lemma insert_spec fuel : insert_ok fuel.
Proof.
  induction fuel as [fuel IH] using lt_wf_ind.
  intros t d s fid foff pf n Hw Hr Ho Hne Hd Hn Hn0 Hfuel Hpf Hfa Hft Hff Hfw.
  destruct fuel as [|fuel]; [lia|]. destruct (repr_head s t d Hr Hd Hne) as (Hid & Hzl & Hle & _ & Hcase).
  destruct (Z.eq_dec (zpart d (tzl t) off) 0) as [Hz|Hz].
  - destruct t as [|id zl|id zl sons]; [done|..]; cbn [tid tzl] in *.
    + destruct (insert_leaf_spec fuel id zl d s (field_ptr pf foff)) as (r & s' & R & Q & E); [done..|lia|done|].
      exists r, s', (ILeaf id zl). split; [done|]. split; [by apply grew_quiet|]. split; [by rewrite (iq_words _ _ Q)|].
      split; [done|]. split; [|done]. intros _. cbn [look]. by rewrite Hz.
    + destruct (insert_node_spec fuel id zl sons d s (field_ptr pf foff) n) as (r & s' & sons' & R & G & HL & HE);
        [apply IH; lia|done|done|done|done|lia|lia|lia|done|].
      exists r, s', (INode id zl sons'). split; [exact R|]. split; [by eapply grew_weaken; [|exact G]|].
      split; [|done]. rewrite (g_frame _ _ _ _ _ _ _ G); [done..|]. by intros [].
  - destruct fuel as [|fuel].
    { exfalso. apply Hz. assert (tzl t = 0) as -> by lia. unfold zpart. apply bits_at_0. }
    apply (insert_split_spec fuel t d s fid foff pf n); try done. apply IH. lia.
Qed.
End insert.
End ops.
