(* ===== verification/IndexMap.v ===== *)
(** * The file index as a map from blocks to slots (LibFS/index.c)

    The operations of the index seen from a file: which slot every block of the file
    has.  Adding leaves changes no slot, appending changes the slots past the end,
    a query returns the slot. *)

From stdpp Require Import base tactics numbers list gmap.
From Stdlib Require Import ZArith Lia.
From S2P Require Import Prelude Bytes Layout Pmem DiskFormat Bitmap KernelFunc Frame Kfs MetaCache Txn LibSpace Index IndexWords IndexTree IndexInsert.
Open Scope Z_scope.

(** The index of a file: a root node whose entry is the tree. *)
Record file_index (s : kfs) (root : Z) (t : itree) : Prop := {
  fi_world : world s;
  fi_alloc : idx_alloc s root = true;
  fi_apart : ~ in_tree root t;
  fi_entry : idx_word s root ROOT_ENTRY = tid t;
  fi_repr : repr (idx_word s) t 0;
  fi_owned : owned s t;
}.

(** What a file has at block [off]: whether it is a virtual node, and its id
    ([EMPTY_BLKID] for a hole). *)
Definition file_slot (s : kfs) (t : itree) (off : Z) : bool * Z :=
  match look t 0 off with
  | Some leaf => (Z.testbit (idx_word s leaf ND_FLAG) (off mod 64), idx_word s leaf (son_off (off mod 64)))
  | None => (false, EMPTY_BLKID)
  end.

Lemma root_field : field_ok ROOT_ENTRY.
Proof. by unfold field_ok, ROOT_ENTRY, ORCH_IDX_SIZE. Qed.
Lemma max_field : field_ok ROOT_MAX.
Proof. by unfold field_ok, ROOT_MAX, ORCH_IDX_SIZE. Qed.

Lemma mod64 off : 0 <= off mod 64 < 64.
Proof. apply Z.mod_pos_bound. lia. Qed.

(** Growth of the tree is invisible in the slots. *)
Lemma grew_slots exc s s' t t' off : grew exc s s' t t' 0 off -> owned s t -> forall o, file_slot s' t' o = file_slot s t o.
Proof.
  intros G Ho o. unfold file_slot. pose proof (mod64 o) as Hm.
  destruct (look t 0 o) as [x|] eqn:E.
  - rewrite (g_kept _ _ _ _ _ _ _ G _ _ E). pose proof (look_leaf_in _ _ _ _ E) as Hl.
    rewrite !(g_words _ _ _ _ _ _ _ G x) by (done || apply flag_field || (by apply son_field_ok) || (unfold ND_FLAG, son_off, ND_SONS; lia)).
    done.
  - destruct (look t' 0 o) as [x|] eqn:E'; [|done]. pose proof (g_fresh _ _ _ _ _ _ _ G _ _ E E') as Hf.
    destruct (g_new _ _ _ _ _ _ _ G x) as [Hl|(_ & Hfl & Hs)]; [by eapply look_leaf_in| |].
    + exfalso. rewrite Ho in Hf; [done|]. by apply leaf_in_tree.
    + by rewrite Hfl, Hs, Z.testbit_0_l.
Qed.

Section ops.
Context `{Mo : MallocOracle}.

Lemma file_index_quiet s s' root t : file_index s root t -> iquiet s s' -> file_index s' root t.
Proof.
  intros [H1 H2 H3 H4 H5 H6] Q. pose proof (iq_words _ _ Q) as Hw. destruct Q as [Hs _ Ha]. split; [apply Hs|by rewrite Ha|done|by rewrite Hw| |].
  - eapply repr_ext; [|done]. intros. apply Hw.
  - intros x Hx. rewrite Ha. auto.
Qed.
Lemma file_slot_quiet s s' t o : iquiet s s' -> file_slot s' t o = file_slot s t o.
Proof. intros Q. unfold file_slot. destruct (look t 0 o); [|done]. by rewrite !(iq_words _ _ Q). Qed.

Lemma file_index_grew s s' root t t' off : file_index s root t -> grew (only root ROOT_ENTRY) s s' t t' 0 off ->
  idx_word s' root ROOT_ENTRY = tid t' -> file_index s' root t'.
Proof.
  intros [H1 H2 H3 H4 H5 H6] G He. split; [apply G|by apply (g_mono _ _ _ _ _ _ _ G)| |done|apply G|by eapply grew_owned].
  intros Hx. destruct (g_ids _ _ _ _ _ _ _ G _ Hx) as [?|[? _]]; [done|congruence].
Qed.

(** Searching from the root of a file. *)
Lemma search_file s root t inode off : file_index s root t -> 0 <= inode -> 0 <= off < 2 ^ 42 ->
  exists r s', search (tid t) inode off s = Some (r, s') /\ iquiet s s' /\
    ((r = default (-1) (look t 0 off) /\ k_errno s' = k_errno s) \/ (r = -1 /\ k_errno s' = EIO)).
Proof. intros [H1 _ _ _ H5 _] Hi Ho. by apply search_spec; [..|vm_compute]. Qed.

Lemma look_id s root t off x : file_index s root t -> look t 0 off = Some x -> 0 <= x < MAX_INDEX_NUM.
Proof. intros H E. eapply repr_ids; [apply H|]. by eapply leaf_in_tree, look_leaf_in. Qed.

(** The second search, after an insertion. *)
Lemma search_again s root p t inode off m x : file_index s root t -> points_to s IDXND_CACHE root p ->
  0 <= inode -> 0 <= off < 2 ^ 42 -> look t 0 off = Some x ->
  exists r s', ((if m =? 1 then log_idx root p ROOT_ENTRY 8 else mret tt);;
     set_errno 0;;
     entry ← ld p ROOT_ENTRY;
     leaf_node_id ← search entry inode off;
     e ← gets k_errno;
     (if (leaf_node_id <? 0) && (e =? 0) then set_errno EIO else mret tt);;
     mret leaf_node_id) s = Some (r, s') /\ iquiet s s' /\ (r = x \/ (r = -1 /\ k_errno s' <> 0)).
Proof.
  intros Hf Hp Hi Hoff Ex. pose proof root_field as (F1 & F2 & _). pose proof (look_id _ _ _ _ _ Hf Ex) as Hx.
  assert (exists s1, (if m =? 1 then log_idx root p ROOT_ENTRY 8 else mret tt) s = Some (tt, s1) /\ iquiet s s1) as (s1 & R1 & Q1).
  { destruct (m =? 1); [|eexists; split; [done|]; apply iquiet_refl, Hf].
    destruct (log_idx_spec s root p ROOT_ENTRY 8 (fi_world _ _ _ Hf)) as (s1 & ? & ? & _). by exists s1. }
  rewrite (bind_run _ _ _ _ _ R1). pose proof (file_index_quiet _ _ _ _ Hf Q1) as Hf1.
  pose proof (quiet_errno s1 0 (fi_world _ _ _ Hf1)) as Q2. set (s2 := set_k_errno 0 s1) in *.
  rewrite (bind_run (set_errno 0) _ s1 tt s2) by done. pose proof (iquiet_trans _ _ _ Q1 Q2) as Q12.
  pose proof (file_index_quiet _ _ _ _ Hf Q12) as Hf2. pose proof (is_points _ _ (iq_step _ _ Q12) _ _ Hp) as Hp2.
  rewrite (bind_run _ _ _ _ _ (ld_idx s2 root p ROOT_ENTRY (fi_world _ _ _ Hf2) Hp2 F1 F2)), (fi_entry _ _ _ Hf2).
  destruct (search_file s2 root t inode off Hf2 Hi Hoff) as (r & s3 & R3 & Q3 & Hr3). rewrite (bind_run _ _ _ _ _ R3).
  rewrite (bind_run (gets k_errno) _ s3 (k_errno s3) s3) by done.
  pose proof (iquiet_trans _ _ _ Q12 Q3) as Q13. rewrite Ex in Hr3.
  change (default (-1) (Some x)) with x in Hr3. destruct Hr3 as [[-> He]|[-> He]].
  - replace (x <? 0) with false by lia. cbn [andb]. eexists _, _. split; [done|]. split; [done|by left].
  - rewrite He. cbn [Z.eqb EIO andb]. eexists _, _. split; [done|]. split; [done|]. right. by rewrite He.
Qed.

(** The leaf of a block, created when it is missing. *)
Lemma get_and_add_spec s root p t inode off : file_index s root t -> t <> IEmpty ->
  points_to s IDXND_CACHE root p -> 0 <= inode -> 0 <= off < 2 ^ 42 ->
  exists r s' t', get_and_add_leafnode_id root (Some p) inode off s = Some (r, s') /\
    grew (only root ROOT_ENTRY) s s' t t' 0 off /\ file_index s' root t' /\ t' <> IEmpty /\
    ((0 <= r /\ look t' 0 off = Some r) \/ (r = -1 /\ k_errno s' <> 0)).
Proof.
  intros Hf Hne Hp Hi Hoff. unfold get_and_add_leafnode_id. pose proof root_field as (F1 & F2 & _).
  pose proof (quiet_errno s 0 (fi_world _ _ _ Hf)) as Q0. set (s0 := set_k_errno 0 s) in *.
  pose proof (file_index_quiet _ _ _ _ Hf Q0) as Hf0. pose proof (is_points _ _ (iq_step _ _ Q0) _ _ Hp) as Hp0.
  rewrite (bind_run (set_errno 0) _ s tt s0) by done.
  rewrite (bind_run _ _ _ _ _ (ld_idx s0 root p ROOT_ENTRY (fi_world _ _ _ Hf0) Hp0 F1 F2)), (fi_entry _ _ _ Hf0).
  destruct (search_file s0 root t inode off Hf0 Hi Hoff) as (r & s1 & R1 & Q1 & Hr). rewrite (bind_run _ _ _ _ _ R1).
  pose proof (iquiet_trans _ _ _ Q0 Q1) as Q. pose proof (file_index_quiet _ _ _ _ Hf Q) as Hf1.
  pose proof (grew_quiet (only root ROOT_ENTRY) s s1 t 0 off Q (fi_repr _ _ _ Hf)) as G1.
  destruct (look t 0 off) as [x|] eqn:E.
  { pose proof (look_id _ _ _ _ _ Hf E) as Hx. change (default (-1) (Some x)) with x in Hr. destruct Hr as [[-> _]|[-> Hee]].
    - replace (x =? -1) with false by lia. eexists _, _, t. split; [done|]. split; [done|]. split; [done|].
      split; [done|]. left. split; [lia|done].
    - eexists _, _, t. rewrite Z.eqb_refl. rewrite (bind_run (gets k_errno) _ s1 (k_errno s1) s1) by done. rewrite Hee. cbn.
      split; [done|]. split; [done|]. split; [done|]. split; [done|]. right. by rewrite Hee. }
  assert (r = -1) as -> by by destruct Hr as [[-> _]|[-> _]]. rewrite Z.eqb_refl.
  rewrite (bind_run (gets k_errno) _ s1 (k_errno s1) s1) by done.
  destruct (Z.eqb_spec (k_errno s1) 0) as [He0|He0]; cbn [negb]; [|by eexists _, _, t; repeat (split; [done|]); right].
  destruct (insert_spec inode off Hi Hoff INSERT_FUEL t 0 s1 root ROOT_ENTRY p 6) as (m & s2 & t2 & R2 & G2 & W2 & N2 & L2 & E2);
    [apply Hf1|apply Hf1|apply Hf1|done|lia|lia|lia|by vm_compute|by apply (is_points _ _ (iq_step _ _ Q))|apply Hf1|apply Hf1|apply root_field|apply Hf1|].
  rewrite (bind_run _ _ _ _ _ R2). pose proof (grew_trans _ _ _ _ _ _ _ _ _ G1 G2) as G12.
  pose proof (file_index_grew _ _ _ _ _ _ Hf G12 W2) as Hf2.
  destruct (Z.ltb_spec m 0) as [Hneg|Hpos].
  { eexists _, _, t2. split; [done|]. split; [done|]. split; [done|]. split; [done|]. right. auto. }
  destruct (L2 Hpos) as [x Ex]. pose proof (look_id _ _ _ _ _ Hf2 Ex) as Hx.
  destruct (search_again s2 root p t2 inode off m x Hf2) as (r & s5 & R5 & Q5 & Hr5);
    [by apply (is_points _ _ (g_step _ _ _ _ _ _ _ G12))|done..|].
  rewrite R5. pose proof (file_index_quiet _ _ _ _ Hf2 Q5) as Hf5.
  pose proof (grew_trans _ _ _ _ _ _ _ _ _ G12 (grew_quiet _ _ _ _ _ off Q5 (fi_repr _ _ _ Hf2))) as G15.
  eexists _, _, t2. split; [done|]. split; [done|]. split; [done|]. split; [done|].
  destruct Hr5 as [->|?]; [left; split; [lia|done]|by right].
Qed.

(** ** The root node *)

(** The index of the file [inode], whose last block is [m]. *)
Record file_ok (s : kfs) (root inode : Z) (t : itree) (m : Z) : Prop := {
  fo_index : file_index s root t;
  fo_type : idx_word s root ND_TYPE = IDX_ROOT;
  fo_inode : idx_word s root ROOT_INODE = inode;
  fo_max : idx_word s root ROOT_MAX = m;
}.

Lemma file_ok_words s s' root inode t t' m : file_ok s root inode t m -> file_index s' root t' ->
  (forall o, field_ok o -> o <> ROOT_ENTRY -> idx_word s' root o = idx_word s root o) -> file_ok s' root inode t' m.
Proof. intros [H1 H2 H3 H4] Hf Hw. split; [done|..]; rewrite Hw; by unfold field_ok, ORCH_IDX_SIZE. Qed.

Lemma file_ok_quiet s s' root inode t m : file_ok s root inode t m -> iquiet s s' -> file_ok s' root inode t m.
Proof. intros H Q. eapply file_ok_words; [done|eapply file_index_quiet, Q; apply H|]. intros. apply (iq_words _ _ Q). Qed.

Lemma file_ok_grew s s' root inode t t' m off : file_ok s root inode t m ->
  grew (only root ROOT_ENTRY) s s' t t' 0 off -> file_index s' root t' -> file_ok s' root inode t' m.
Proof.
  intros H G Hf. eapply file_ok_words; [done|done|]. intros o Ho Hne. pose proof (fo_index _ _ _ _ _ H) as Hi.
  apply (g_frame _ _ _ _ _ _ _ G); [apply Hi|apply Hi|done|]. unfold only. tauto.
Qed.

(** An entry that is made is one leaf for all blocks below 64, empty. *)
Lemma first_leaf s s3 s4 root inode m b : file_ok s root inode IEmpty m -> istep s s3 ->
  0 <= b < MAX_INDEX_NUM -> idx_alloc s b = false ->
  (forall x, idx_alloc s3 x = (x =? b) || idx_alloc s x) -> (forall x, idx_alloc s4 x = idx_alloc s3 x) ->
  idx_word s3 root ROOT_ENTRY = b ->
  (forall x o, field_ok o -> ~ (x = root /\ o = ROOT_ENTRY) -> idx_word s3 x o = idx_word s x o) ->
  istep s3 s4 -> node_words s4 b MAX_ZIPPED_LAYER LEAF_NODE ->
  (forall x o, x <> b -> field_ok o -> idx_word s4 x o = idx_word s3 x o) ->
  file_ok s4 root inode (ILeaf b 6) m /\ forall o, file_slot s4 (ILeaf b 6) o = file_slot s IEmpty o.
Proof.
  intros H S3 Hb Hfr A3 A4 We F3 S4 (N1 & N2 & N3 & N4) F4. pose proof (fo_index _ _ _ _ _ H) as Hi.
  assert (root <> b) as Hne by (pose proof (fi_alloc _ _ _ Hi); congruence). split.
  - eapply file_ok_words; [done| |].
    + split; [apply S4| |done| | |].
      * rewrite A4, A3, (fi_alloc _ _ _ Hi). apply orb_true_r.
      * rewrite F4 by (done || apply root_field). done.
      * cbn. split_and!; lia || done.
      * intros x ->. rewrite A4, A3, Z.eqb_refl. done.
    + intros o Ho Hno. rewrite F4, F3 by (done || tauto). done.
  - intros o. unfold file_slot. cbn [look]. destruct (_ =? 0); [|done].
    rewrite N3, N4 by apply mod64. by rewrite Z.testbit_0_l.
Qed.

Lemma check_root_spec s root inode t m : file_ok s root inode t m -> 0 <= inode -> 0 <= root < MAX_INDEX_NUM ->
  exists r s', check_root_id root inode s = Some (r, s') /\
    match r with
    | Some p => exists t', file_ok s' root inode t' m /\ t' <> IEmpty /\ points_to s' IDXND_CACHE root p /\
        forall o, file_slot s' t' o = file_slot s t o
    | None => k_errno s' <> 0
    end.
Proof.
  intros H Hino Hroot. unfold check_root_id. replace ((root <? 0) || (inode <? 0)) with false by lia.
  destruct (load_index_spec root s (fi_world _ _ _ (fo_index _ _ _ _ _ H))) as (x & s1 & R1 & Q1 & Hx).
  rewrite (bind_run _ _ _ _ _ R1). destruct x as [p|]; [|by eexists _, _]. destruct Hx as [Hp _].
  pose proof (file_ok_quiet _ _ _ _ _ _ H Q1) as H1. pose proof (fo_index _ _ _ _ _ H1) as Hi1.
  pose proof (fi_world _ _ _ Hi1) as Hw1.
  rewrite (bind_run _ _ _ _ _ (ld_idx s1 root p ND_TYPE Hw1 Hp ltac:(done) ltac:(done))), (fo_type _ _ _ _ _ H1).
  rewrite (bind_run _ _ _ _ _ (ld_idx s1 root p ROOT_INODE Hw1 Hp ltac:(done) ltac:(done))), (fo_inode _ _ _ _ _ H1).
  rewrite !Z.eqb_refl. cbn [negb orb].
  rewrite (bind_run _ _ _ _ _ (ld_idx s1 root p ROOT_ENTRY Hw1 Hp ltac:(done) ltac:(done))), (fi_entry _ _ _ Hi1).
  destruct (empty_or t) as [->|Hne]; [|
    destruct (repr_head s1 t 0 (fi_repr _ _ _ Hi1) ltac:(lia) Hne) as (Hid & _);
    replace (tid t =? EMPTY_BLKID) with false by (unfold EMPTY_BLKID; lia);
    eexists _, _; split; [done|]; exists t; split; [done|]; split; [done|]; split; [done|]; intros; by apply file_slot_quiet].
  cbn [tid]. rewrite Z.eqb_refl.
  destruct (require_index_spec s1 Hw1) as (b & s2 & R2 & S2 & W2 & Hb). rewrite (bind_run _ _ _ _ _ R2).
  pose proof (is_points _ _ S2 _ _ Hp) as Hp2.
  destruct (st_field s2 root p ROOT_ENTRY b (is_world _ _ S2) Hp2 root_field) as (s3 & R3 & S3 & A3 & W3 & F3).
  { destruct Hb as [[-> _]|[Hb _]]; [done|by apply s64_id]. }
  rewrite (bind_run _ _ _ _ _ R3). destruct Hb as [[-> _]|(Hb & Hfr & A2)]; [by eexists _, _|].
  replace (b =? -1) with false by lia. cbn [negb].
  destruct (log_idx_spec s3 root p ROOT_ENTRY 8 (is_world _ _ S3)) as (s4 & R4 & Q4 & _). rewrite (bind_run _ _ _ _ _ R4).
  destruct (create_log_spec s4 b IDXND_OP (is_world _ _ (iq_step _ _ Q4))) as (s5 & R5 & Q5 & _). rewrite (bind_run _ _ _ _ _ R5).
  destruct (load_index_spec b s5 (is_world _ _ (iq_step _ _ Q5))) as (x & s6 & R6 & Q6 & Hx). rewrite (bind_run _ _ _ _ _ R6).
  destruct x as [q|]; [|by eexists _, _]. destruct Hx as [Hq _].
  pose proof (iquiet_trans _ _ _ Q4 (iquiet_trans _ _ _ Q5 Q6)) as Q46.
  destruct (node_init_spec s6 b q MAX_ZIPPED_LAYER LEAF_NODE (is_world _ _ (iq_step _ _ Q6)) Hq ltac:(done) ltac:(done))
    as (s7 & R7 & S7 & A7 & _ & N7 & F7). rewrite (bind_run _ _ _ _ _ R7).
  destruct (log_idx_spec s7 b q 0 ORCH_IDX_SIZE (is_world _ _ S7)) as (s8 & R8 & Q8 & _). rewrite (bind_run _ _ _ _ _ R8).
  pose proof (istep_trans _ _ _ S2 (istep_trans _ _ _ S3 (iq_step _ _ Q46))) as S16.
  destruct (first_leaf s1 s6 s7 root inode m b H1) as [H7 Hslot]; [done|done|done| |done| | |done|done| |].
  { intros y. by rewrite (iq_alloc _ _ Q46), A3, A2. }
  { by rewrite (iq_words _ _ Q46). }
  { intros y o Ho Hn. by rewrite (iq_words _ _ Q46), F3, W2. }
  { intros y o Hy (? & ? & _). by apply F7. }
  eexists _, _. split; [done|]. exists (ILeaf b 6). split; [by eapply file_ok_quiet|]. split; [done|]. split.
  - apply (is_points _ _ (iq_step _ _ Q8)), (is_points _ _ S7), (is_points _ _ S16), Hp.
  - intros o. by rewrite (file_slot_quiet _ _ _ _ Q8), Hslot, (file_slot_quiet _ _ _ _ Q1).
Qed.

(** ** Storing blocks in a leaf *)

(** Two blocks of one leaf are different positions of it. *)
Lemma same_leaf s root t off off' x : file_index s root t -> 0 <= off < 2 ^ 42 -> 0 <= off' < 2 ^ 42 ->
  look t 0 off = Some x -> look t 0 off' = Some x -> off mod 64 = off' mod 64 -> off' = off.
Proof.
  intros H H1 H2 E1 E2 Hm. pose proof (look_inj _ _ _ _ _ _ (fi_repr _ _ _ H) ltac:(lia) E1 E2) as Hb.
  rewrite !blk_0 in Hb by done. pose proof (Z.div_mod off 64 ltac:(lia)). pose proof (Z.div_mod off' 64 ltac:(lia)). lia.
Qed.

Lemma store_leaf s root t off leaf p v : file_index s root t -> look t 0 off = Some leaf ->
  points_to s IDXND_CACHE leaf p -> 0 <= off < 2 ^ 42 -> is_s64 v ->
  exists s', st p (son_off (off mod 64)) v s = Some (tt, s') /\ istep s s' /\ file_index s' root t /\
    (forall o, field_ok o -> idx_word s' root o = idx_word s root o) /\
    forall o, 0 <= o < 2 ^ 42 -> file_slot s' t o = if o =? off then ((file_slot s t off).1, v) else file_slot s t o.
Proof.
  intros H E Hp Hoff Hv. pose proof (mod64 off) as Hm. pose proof (son_field_ok _ Hm) as Hf.
  destruct (st_field s leaf p (son_off (off mod 64)) v (fi_world _ _ _ H) Hp Hf Hv) as (s' & R & S & A & W & F).
  pose proof (look_leaf_in _ _ _ _ E) as Hl. pose proof (leaf_in_tree _ _ Hl) as Hit.
  assert (leaf <> root) as Hne by (intros ->; by apply (fi_apart _ _ _ H)).
  exists s'. split; [done|]. split; [done|]. split; [|split].
  - destruct H as [H1 H2 H3 H4 H5 H6]. split; [apply S|by rewrite A|done| | |].
    + rewrite F by (apply root_field || (intros [? _]; congruence)). done.
    + eapply repr_ext_leaf; [|done]. intros x o Hx Hno Hlx. apply F; [by apply node_field_ok|].
      intros [-> ->]. destruct (Hlx Hl) as [Hc|Hc]; unfold son_off, ND_TYPE, ND_ZIPPED, ND_SONS in Hc; lia.
    + intros x Hx. rewrite A. auto.
  - intros o Ho. apply F; [done|]. intros [? _]. congruence.
  - intros o Ho. unfold file_slot at 1 3. destruct (Z.eqb_spec o off) as [->|Hno].
    + unfold file_slot. rewrite E, W. cbn [fst]. f_equal. rewrite F; [done|apply flag_field|].
      intros [_ Hc]. unfold son_off, ND_FLAG, ND_SONS in Hc. lia.
    + destruct (look t 0 o) as [x|] eqn:Eo; [|done]. pose proof (mod64 o) as Hmo.
      assert (forall w, field_ok w -> (w = son_off (o mod 64) \/ w = ND_FLAG) -> idx_word s' x w = idx_word s x w) as Hw.
      { intros w Hfw Hcase. apply F; [done|]. intros [-> ->]. destruct Hcase as [Hc|Hc]; unfold son_off, ND_FLAG, ND_SONS in Hc; [|lia].
        apply Hno. apply (same_leaf s root t off o leaf); try done. lia. }
      rewrite !Hw by (apply flag_field || (by apply son_field_ok) || auto). done.
Qed.

(** [blocks] as SSD blocks from block [off] on. *)
Definition append_slots (f : Z -> bool * Z) (off : Z) (blocks : list Z) (o : Z) : bool * Z :=
  if (off <=? o) && (o <? off + len blocks) then (false, byte_at blocks (o - off)) else f o.

Lemma append_slots_nil f off o : append_slots f off [] o = f o.
Proof. unfold append_slots. change (len []) with 0. by replace ((off <=? o) && (o <? off + 0)) with false by lia. Qed.
Lemma append_slots_cons f f' off b blocks o : f off = (false, EMPTY_BLKID) ->
  f' o = (if o =? off then ((f off).1, b) else f o) ->
  append_slots f' (off + 1) blocks o = append_slots f off (b :: blocks) o.
Proof.
  intros H0 Hf. unfold append_slots. rewrite len_cons, Hf. pose proof (len_nonneg blocks) as Hl.
  destruct (Z.eqb_spec o off) as [->|Hne].
  - replace ((off + 1 <=? off) && (off <? off + 1 + len blocks)) with false by lia.
    replace ((off <=? off) && (off <? off + (1 + len blocks))) with true by lia. rewrite H0, Z.sub_diag. done.
  - replace ((off <=? o) && (o <? off + (1 + len blocks))) with ((off + 1 <=? o) && (o <? off + 1 + len blocks)) by lia.
    destruct (_ && _) eqn:E; [|done]. f_equal. unfold byte_at. replace (Z.to_nat (o - off)) with (S (Z.to_nat (o - (off + 1)))) by lia. done.
Qed.

Definition block_id (b : Z) : Prop := is_s64 b /\ b <> EMPTY_BLKID.

(** The inner loop fills positions of one leaf. *)
Lemma append_sons_spec fuel : forall s root t off leaf p blocks, file_index s root t -> look t 0 off = Some leaf ->
  points_to s IDXND_CACHE leaf p -> 0 <= off -> off + len blocks <= 2 ^ 42 -> off mod 64 + Z.of_nat fuel <= 64 ->
  Forall block_id blocks ->
  (forall j, 0 <= j < len blocks -> file_slot s t (off + j) = (false, EMPTY_BLKID)) ->
  exists s', append_sons fuel p (off mod 64) blocks s = Some (Some (len (take fuel blocks)), s') /\
    istep s s' /\ file_index s' root t /\ (forall o, field_ok o -> idx_word s' root o = idx_word s root o) /\
    forall o, 0 <= o < 2 ^ 42 -> file_slot s' t o = append_slots (file_slot s t) off (take fuel blocks) o.
Proof.
  induction fuel as [|fuel IH]; intros s root t off leaf p blocks H E Hp Hoff Hmax Hpos Hb Hemp.
  { eexists. split; [done|]. split; [split; [apply H|done]|]. split; [done|]. split; [done|].
    intros o _. cbn [take]. by rewrite append_slots_nil. }
  destruct blocks as [|b blocks].
  { eexists. split; [done|]. split; [split; [apply H|done]|]. split; [done|]. split; [done|].
    intros o _. cbn [take]. by rewrite append_slots_nil. }
  rewrite len_cons in Hmax. pose proof (len_nonneg blocks) as Hnn.
  cbn [append_sons take]. pose proof (mod64 off) as Hm. destruct (son_field _ Hm) as [F1 F2].
  pose proof (Hemp 0) as H0. rewrite Z.add_0_r, len_cons in H0. specialize (H0 ltac:(lia)).
  rewrite (bind_run _ _ _ _ _ (ld_idx s leaf p _ (fi_world _ _ _ H) Hp F1 F2)).
  assert (idx_word s leaf (son_off (off mod 64)) = EMPTY_BLKID) as -> by (unfold file_slot in H0; rewrite E in H0; by injection H0).
  cbn [Z.eqb EMPTY_BLKID negb Pos.eqb]. inversion_clear Hb as [|? ? [Hb64 Hb1] Hbs].
  destruct (store_leaf s root t off leaf p b H E Hp ltac:(lia) Hb64) as (s1 & R1 & S1 & H1 & W1 & F).
  rewrite (bind_run _ _ _ _ _ R1).
  destruct (Z.eq_dec (off mod 64) 63) as [Hlast|Hlast].
  { assert (fuel = 0%nat) as -> by lia. cbn. eexists. split; [done|]. split; [done|]. split; [done|]. split; [done|].
    intros o Ho. rewrite <-(append_slots_cons (file_slot s t) (file_slot s1 t)) by auto. by rewrite append_slots_nil. }
  assert ((off + 1) mod 64 = off mod 64 + 1) as Hm1.
  { pose proof (Z.div_mod off 64 ltac:(lia)). symmetry. apply Z.mod_unique with (off / 64); lia. }
  rewrite <-Hm1. assert (look t 0 (off + 1) = Some leaf) as E1.
  { rewrite <-E. apply (look_blk (idx_word s)); [apply H|lia|].
    pose proof (Z.div_mod off 64 ltac:(lia)). rewrite !blk_0 by lia. symmetry. apply Z.div_unique with (off mod 64 + 1); lia. }
  destruct (IH s1 root t (off + 1) leaf p blocks) as (s2 & R2 & S2 & H2 & W2 & F2'); try done.
  { by apply (is_points _ _ S1). } { lia. } { lia. } { lia. }
  { intros j Hj. rewrite F by lia. replace (off + 1 + j =? off) with false by lia.
    replace (off + 1 + j) with (off + (1 + j)) by lia. apply Hemp. rewrite len_cons. lia. }
  rewrite (bind_run _ _ _ _ _ R2). eexists. split; [rewrite len_cons, Z.add_comm; reflexivity|]. split; [by eapply istep_trans|].
  split; [done|]. split; [intros o Ho; by rewrite W2, W1|].
  intros o Ho. rewrite F2' by done. apply append_slots_cons; [done|auto].
Qed.

(** ** Appending SSD blocks *)

Lemma leaf_pos_mod off : 0 <= off -> leaf_pos_of off = off mod 64.
Proof.
  intros H. unfold leaf_pos_of, LAYER_BITWIDTH. change (Z.shiftl 1 6 - 1) with (Z.ones 6). by rewrite Z.land_ones.
Qed.

Lemma append_slots_app f off l1 l2 o :
  append_slots (append_slots f off l1) (off + len l1) l2 o = append_slots f off (l1 ++ l2) o.
Proof.
  unfold append_slots. rewrite len_app. pose proof (len_nonneg l1). pose proof (len_nonneg l2).
  destruct ((off <=? o) && (o <? off + (len l1 + len l2))) eqn:E1; destruct ((off + len l1 <=? o) && _) eqn:E2;
    destruct ((off <=? o) && (o <? off + len l1)) eqn:E3; try lia; try done; unfold byte_at, len in *.
  - rewrite app_nth2 by lia. do 2 f_equal. lia.
  - rewrite app_nth1 by lia. done.
Qed.

Lemma append_slots_split f off k l o :
  append_slots f off l o = append_slots (append_slots f off (take k l)) (off + len (take k l)) (drop k l) o.
Proof. by rewrite append_slots_app, take_drop. Qed.
Lemma drop_len_take k (l : list Z) : drop (Z.to_nat (len (take k l))) l = drop k l.
Proof.
  unfold len. rewrite Nat2Z.id, length_take. destruct (Nat.min_spec k (length l)) as [[? ->]|[? ->]]; [done|].
  by rewrite !drop_ge by lia.
Qed.

Lemma append_ssd_loop_spec fuel inode m : 0 <= inode -> forall s root p t off blocks, Z.of_nat fuel >= len blocks ->
  file_ok s root inode t m -> t <> IEmpty -> points_to s IDXND_CACHE root p -> 0 <= off -> off + len blocks <= 2 ^ 42 ->
  Forall block_id blocks ->
  (forall j, 0 <= j < len blocks -> file_slot s t (off + j) = (false, EMPTY_BLKID)) ->
  exists e s', append_ssd_loop fuel root p inode off blocks s = Some (e, s') /\
    (e = 0 -> exists t', file_ok s' root inode t' m /\ points_to s' IDXND_CACHE root p /\
       forall o, 0 <= o < 2 ^ 42 -> file_slot s' t' o = append_slots (file_slot s t) off blocks o).
Proof.
  intros Hino. induction fuel as [|fuel IH]; intros s root p t off blocks Hfuel H Hne Hp Hoff Hmax Hb Hemp;
    (destruct blocks as [|b blocks]; [eexists _, _; split; [done|]; intros _; exists t; split; [done|]; split; [done|];
      intros o _; by rewrite append_slots_nil|]).
  { rewrite len_cons in Hfuel. pose proof (len_nonneg blocks). lia. }
  set (bs := b :: blocks) in *. assert (1 <= len bs) as Hlb by (unfold bs; rewrite len_cons; pose proof (len_nonneg blocks); lia).
  cbn [append_ssd_loop bs]. fold bs.
  destruct (get_and_add_spec s root p t inode off (fo_index _ _ _ _ _ H) Hne Hp Hino ltac:(lia))
    as (r & s1 & t1 & R1 & G1 & H1 & N1 & Hr). rewrite (bind_run _ _ _ _ _ R1).
  destruct Hr as [[Hr0 El]|[-> He]]; [|eexists _, _; split; [done|]; cbn; destruct (Z.eqb_spec (k_errno s1) 0); cbn; lia].
  replace (r <? 0) with false by lia. pose proof (file_ok_grew _ _ _ _ _ _ _ _ H G1 H1) as Ho1.
  pose proof (grew_slots _ _ _ _ _ _ G1 (fi_owned _ _ _ (fo_index _ _ _ _ _ H))) as Hs1.
  destruct (load_index_spec r s1 (fi_world _ _ _ H1)) as (x & s2 & R2 & Q2 & Hx). rewrite (bind_run _ _ _ _ _ R2).
  destruct x as [q|]; [|by eexists _, _]. destruct Hx as [Hq _]. pose proof (file_ok_quiet _ _ _ _ _ _ Ho1 Q2) as Ho2.
  rewrite leaf_pos_mod by done. pose proof (mod64 off) as Hm. unfold NODE_SON_CAPACITY.
  destruct (append_sons_spec (Z.to_nat (64 - off mod 64)) s2 root t1 off r q bs (fo_index _ _ _ _ _ Ho2) El Hq Hoff Hmax
    ltac:(lia) Hb) as (s3 & R3 & S3 & H3 & W3 & F3).
  { intros j Hj. rewrite (file_slot_quiet _ _ _ _ Q2), Hs1. by apply Hemp. }
  rewrite (bind_run _ _ _ _ _ R3). set (k := Z.to_nat (64 - off mod 64)) in *.
  destruct (log_idx_spec s3 r q (son_off (off mod 64)) (len (take k bs) * 8) (fi_world _ _ _ H3)) as (s4 & R4 & Q4 & _).
  rewrite (bind_run _ _ _ _ _ R4). pose proof (file_ok_words _ _ _ _ _ _ _ Ho2 H3 ltac:(auto)) as Ho3.
  pose proof (file_ok_quiet _ _ _ _ _ _ Ho3 Q4) as Ho4.
  rewrite drop_len_take. assert (len (take k bs) + len (drop k bs) = len bs) as Hlen by (rewrite <-len_app, take_drop; done).
  assert (1 <= len (take k bs)) as Hk1 by (unfold len in *; rewrite length_take; lia).
  assert (forall o, 0 <= o < 2 ^ 42 -> file_slot s4 t1 o = append_slots (file_slot s t) off (take k bs) o) as F4.
  { intros o Ho. rewrite (file_slot_quiet _ _ _ _ Q4), F3 by done. unfold append_slots.
    destruct (_ && _); [done|]. by rewrite (file_slot_quiet _ _ _ _ Q2), Hs1. }
  pose proof (len_nonneg (drop k bs)) as Hdn.
  destruct (IH s4 root p t1 (off + len (take k bs)) (drop k bs)) as (e & s5 & R5 & P5); try done; try lia.
  { apply (is_points _ _ (iq_step _ _ Q4)), (is_points _ _ S3), (is_points _ _ (iq_step _ _ Q2)), (is_points _ _ (g_step _ _ _ _ _ _ _ G1)), Hp. }
  { by apply Forall_drop. }
  { intros j Hj. rewrite F4 by lia. unfold append_slots.
    replace (off + len (take k bs) + j <? off + len (take k bs)) with false by lia. rewrite andb_false_r.
    rewrite <-Z.add_assoc. apply Hemp. lia. }
  exists e, s5. split; [done|]. intros He. destruct (P5 He) as (t' & Ho5 & Hp5 & F5). exists t'. split; [done|]. split; [done|].
  intros o Ho. rewrite F5 by done. rewrite (append_slots_split _ off k bs). unfold append_slots at 1 2.
  destruct (_ && _); [done|]. by apply F4.
Qed.
End ops.
