(* ===== verification/IndexOps.v ===== *)
(** * What the file index promises (LibFS/index.c)

    A file is a map from block numbers to slots ([IndexMap.file_slot]).  Searching
    and adding leaves change no slot, appending SSD blocks fills the slots after the
    last block, and a query reports the slot. *)

From stdpp Require Import base tactics numbers list gmap.
From Stdlib Require Import ZArith Lia.
From S2P Require Import Prelude Bytes Layout Pmem DiskFormat Bitmap KernelFunc Frame Kfs MetaCache Txn LibSpace Index IndexWords IndexTree IndexInsert IndexMap.
Open Scope Z_scope.

(** The 64-bit field at byte [off] of virtual node [id]. *)
Definition vir_word (s : kfs) (id off : Z) : Z :=
  s64 (le_val (nvm_read (cache_view s VIRND_CACHE) 8 (id * ORCH_VIRND_SIZE + off))).

(** What a query reports for a slot. *)
Definition no_info (off : Z) : off_info_t := mk_off_info EMPTY_BLK_TYPE EMPTY_BLKID no_pages no_pages off.
Definition addr_of (to_devaddr : Z -> Z) (id : Z) : Z := if id =? EMPTY_BLK_TYPE then -1 else to_devaddr id.
Definition vir_slots (s : kfs) (v off : Z) (to_devaddr : Z -> Z) : list Z :=
  map (fun i => addr_of to_devaddr (vir_word s v (off + i * 8))) (zseq 0 VLN_SLOT_SUM).
Definition slot_info (s : kfs) (slot : bool * Z) (off : Z) : off_info_t :=
  let '(virt, son) := slot in
  if son =? EMPTY_BLKID then no_info off
  else if virt then
    let pages := vir_slots s son VN_PAGES nvmpage_to_devaddr in
    if vir_word s son ND_TYPE =? VIR_LEAF_NODE then mk_off_info VIR_LEAF_NODE EMPTY_BLKID pages no_pages off
    else if vir_word s son ND_TYPE =? STRATA_NODE then
      mk_off_info STRATA_NODE (addr_of ssdblk_to_devaddr (vir_word s son VN_SSD)) pages
        (vir_slots s son VN_BUFMETA bufmetaid_to_devaddr) off
    else mk_off_info EMPTY_BLK_TYPE EMPTY_BLKID pages no_pages off
  else mk_off_info SSD_BLOCK (ssdblk_to_devaddr son) no_pages no_pages off.

Section ops.
Context `{Mo : MallocOracle}.

Lemma virnd_ok : cache_id_ok VIRND_CACHE.
Proof. vm_compute. by split. Qed.

Lemma ld_vir s id p off : world s -> points_to s VIRND_CACHE id p -> 0 <= off -> off + 8 <= ORCH_VIRND_SIZE ->
  ld p off s = Some (vir_word s id off, s).
Proof. intros Hw Hp. exact (ld_unit s VIRND_CACHE id p off virnd_ok (w_cache _ Hw) Hp). Qed.

Lemma vir_word_quiet s s' id off : iquiet s s' -> vir_word s' id off = vir_word s id off.
Proof.
  intros Q. unfold vir_word.
  by rewrite (nvm_read_ext (cache_view s' VIRND_CACHE) (cache_view s VIRND_CACHE)) by (intros; apply (iq_view _ _ Q)).
Qed.

Lemma slot_info_quiet s s' slot off : iquiet s s' -> slot_info s' slot off = slot_info s slot off.
Proof.
  intros Q. unfold slot_info, vir_slots. destruct slot as [virt son]. rewrite !(vir_word_quiet _ _ _ _ Q).
  by erewrite !(map_ext (fun i => addr_of _ (vir_word s' _ _)) (fun i => addr_of _ (vir_word s _ _)))
    by (intros; by rewrite (vir_word_quiet _ _ _ _ Q)).
Qed.

Lemma slot_addrs_spec s id p off f : world s -> points_to s VIRND_CACHE id p -> 0 <= off -> off + 64 <= ORCH_VIRND_SIZE ->
  slot_addrs p off f s = Some (vir_slots s id off f, s).
Proof.
  intros Hw Hp Ho Hl. unfold slot_addrs, vir_slots, addr_of. do 2 f_equal. apply map_ext_in. intros i Hi.
  assert (0 <= i < 8) as Hr.
  { unfold zseq, VLN_SLOT_SUM in Hi. apply in_map_iff in Hi as (j & <- & Hj). apply in_seq in Hj. lia. }
  pose proof (ld_vir s id p (off + i * 8) Hw Hp ltac:(lia) ltac:(lia)) as H.
  apply (f_equal (fun r => match r with Some (v, _) => v | None => 0 end)) in H.
  unfold ld, mem_read, gets, mbind, M_bind, mret, M_ret in H. by rewrite H.
Qed.

Lemma vir_info_spec s son v off : world s -> points_to s VIRND_CACHE son v -> son <> EMPTY_BLKID ->
  (pages ← slot_addrs v VN_PAGES nvmpage_to_devaddr;
   ndtype ← ld v ND_TYPE;
   if ndtype =? VIR_LEAF_NODE then mret (mk_off_info VIR_LEAF_NODE EMPTY_BLKID pages no_pages off)
   else if ndtype =? STRATA_NODE then
     ssd ← ld v VN_SSD;
     metas ← slot_addrs v VN_BUFMETA bufmetaid_to_devaddr;
     mret (mk_off_info STRATA_NODE (if ssd =? EMPTY_BLK_TYPE then -1 else ssdblk_to_devaddr ssd) pages metas off)
   else mret (mk_off_info EMPTY_BLK_TYPE EMPTY_BLKID pages no_pages off)) s =
  Some (slot_info s (true, son) off, s).
Proof.
  intros Hw Hp Hne. rewrite (bind_run _ _ _ _ _ (slot_addrs_spec s son v VN_PAGES _ Hw Hp ltac:(done) ltac:(done))).
  rewrite (bind_run _ _ _ _ _ (ld_vir s son v ND_TYPE Hw Hp ltac:(done) ltac:(done))).
  unfold slot_info. replace (son =? EMPTY_BLKID) with false by lia.
  destruct (_ =? VIR_LEAF_NODE); [done|]. destruct (_ =? STRATA_NODE); [|done].
  rewrite (bind_run _ _ _ _ _ (ld_vir s son v VN_SSD Hw Hp ltac:(done) ltac:(done))).
  by rewrite (bind_run _ _ _ _ _ (slot_addrs_spec s son v VN_BUFMETA _ Hw Hp ltac:(done) ltac:(done))).
Qed.

Lemma son_type_spec s id p pos : world s -> points_to s IDXND_CACHE id p -> 0 <= pos < 64 ->
  son_type_of p pos s = Some (if Z.testbit (idx_word s id ND_FLAG) pos then VIR_LEAF_NODE else SSD_BLOCK, s).
Proof.
  intros Hw Hp Hr. unfold son_type_of. rewrite Z.div_small, Z.mod_small by done. rewrite Z.mul_0_l, Z.add_0_r.
  rewrite (bind_run _ _ _ _ _ (ld_idx s id p ND_FLAG Hw Hp ltac:(done) ltac:(done))). unfold mret, M_ret. do 2 f_equal.
  unfold get_idxson_type. set (w := idx_word s id ND_FLAG).
  assert (Z.testbit (Z.land (u64 w) (Z.shiftl 1 pos)) pos = Z.testbit w pos) as Hb.
  { rewrite Z.land_spec, Z.shiftl_spec, Z.sub_diag by lia. rewrite andb_true_r. unfold u64. by rewrite Z.mod_pow2_bits_low by lia. }
  destruct (Z.testbit w pos) eqn:E.
  - destruct (Z.eqb_spec (Z.land (u64 w) (Z.shiftl 1 pos)) 0) as [H0|]; [|done]. by rewrite H0, Z.testbit_0_l in Hb.
  - replace (Z.land (u64 w) (Z.shiftl 1 pos)) with 0; [done|]. symmetry. apply Z.bits_inj'. intros j Hj.
    rewrite Z.testbit_0_l. destruct (Z.eq_dec j pos) as [->|]; [done|]. rewrite Z.land_spec, Z.shiftl_spec by lia.
    destruct (Z.lt_ge_cases j pos); [by rewrite (Z.testbit_neg_r 1) by lia; apply andb_false_r|].
    rewrite (Z.bits_above_log2 1) by (cbn; lia). apply andb_false_r.
Qed.

Lemma get_leafnode_pt_spec s root p t inode off : file_index s root t -> points_to s IDXND_CACHE root p ->
  0 <= inode -> 0 <= off < 2 ^ 42 ->
  exists r s', get_leafnode_pt (Some p) inode off s = Some (r, s') /\ iquiet s s' /\
    match r with
    | Some q => exists leaf, look t 0 off = Some leaf /\ points_to s' IDXND_CACHE leaf q
    | None => look t 0 off = None \/ k_errno s' <> 0
    end.
Proof.
  intros H Hp Hi Ho. unfold get_leafnode_pt. pose proof root_field as (F1 & F2 & _).
  destruct (search_file s root t inode off H Hi Ho) as (r & s1 & R1 & Q1 & Hr).
  rewrite (bind_run (get_leafnode_id p inode off) _ s r s1).
  2:{ unfold get_leafnode_id.
      by rewrite (bind_run _ _ _ _ _ (ld_idx s root p ROOT_ENTRY (fi_world _ _ _ H) Hp F1 F2)), (fi_entry _ _ _ H). }
  destruct Hr as [[-> He]|[-> He]].
  - destruct (look t 0 off) as [leaf|] eqn:E; cbn [default from_option].
    + pose proof (look_id _ _ _ _ _ H E) as Hl. change (id leaf) with leaf. replace (leaf =? -1) with false by lia.
      destruct (load_index_spec leaf s1 (is_world _ _ (iq_step _ _ Q1))) as (x & s2 & R2 & Q2 & Hx).
      rewrite (bind_run _ _ _ _ _ R2). pose proof (iquiet_trans _ _ _ Q1 Q2) as Q. destruct x as [q|].
      * eexists _, _. split; [done|]. split; [done|]. exists leaf. split; [done|apply Hx].
      * eexists _, _. split; [done|]. split; [eapply iquiet_trans; [exact Q|apply quiet_errno, Q2]|by right].
    + eexists _, _. split; [done|]. split; [done|by left].
  - eexists _, _. split; [done|]. split; [done|]. right. by rewrite He.
Qed.

Lemma query_spec s root t inode off : file_index s root t -> 0 <= inode -> 0 <= off < 2 ^ 42 ->
  exists info s', query_offset_info root inode off s = Some (info, s') /\ iquiet s s' /\
    (info = slot_info s (file_slot s t off) off \/ (info = no_info off /\ k_errno s' <> 0)).
Proof.
  intros H Hi Ho. unfold query_offset_info. fold (no_info off). pose proof root_field as (F1 & F2 & _).
  destruct (load_index_spec root s (fi_world _ _ _ H)) as (x & s1 & R1 & Q1 & Hx). rewrite (bind_run _ _ _ _ _ R1).
  destruct x as [p|]; [|eexists _, _; split; [done|]; split; [done|by right]]. destruct Hx as [Hp _].
  pose proof (file_index_quiet _ _ _ _ H Q1) as H1.
  rewrite (bind_run _ _ _ _ _ (ld_idx s1 root p ROOT_ENTRY (fi_world _ _ _ H1) Hp F1 F2)), (fi_entry _ _ _ H1).
  destruct (Z.eqb_spec (tid t) EMPTY_BLKID) as [Ht|Ht].
  { destruct (empty_or t) as [->|Hne]; [eexists _, _; split; [done|]; split; [done|by left]|].
    destruct (repr_head s1 t 0 (fi_repr _ _ _ H1) ltac:(lia) Hne) as (Hid & _). unfold EMPTY_BLKID in Ht. lia. }
  destruct (get_leafnode_pt_spec s1 root p t inode off H1 Hp Hi Ho) as (r & s2 & R2 & Q2 & Hr).
  rewrite (bind_run _ _ _ _ _ R2). pose proof (iquiet_trans _ _ _ Q1 Q2) as Q. destruct r as [q|].
  2:{ eexists _, _. split; [done|]. split; [done|]. destruct Hr as [E|E]; [left|by right]. unfold file_slot. by rewrite E. }
  destruct Hr as (leaf & E & Hq). pose proof (is_world _ _ (iq_step _ _ Q2)) as Hw2. rewrite leaf_pos_mod by lia.
  pose proof (mod64 off) as Hm. destruct (son_field _ Hm) as [G1 G2].
  rewrite (bind_run _ _ _ _ _ (son_type_spec s2 leaf q _ Hw2 Hq Hm)), (bind_run _ _ _ _ _ (ld_idx s2 leaf q _ Hw2 Hq G1 G2)).
  rewrite !(iq_words _ _ Q). unfold file_slot. rewrite E. cbn [slot_info].
  set (son := idx_word s leaf (son_off (off mod 64))). destruct (Z.testbit _ _); cbn [Z.eqb VIR_LEAF_NODE SSD_BLOCK Pos.eqb andb].
  - destruct (Z.eqb_spec son EMPTY_BLKID); cbn [negb]; [eexists _, _; split; [done|]; split; [done|by left]|].
    destruct (load_unit_spec VIRND_CACHE son s2 virnd_ok Hw2) as (x & s3 & R3 & Q3 & Hx).
    rewrite (bind_run (virnodeid_to_memaddr son) _ _ _ _ R3). pose proof (iquiet_trans _ _ _ Q Q3) as QQ.
    destruct x as [v|]; [|eexists _, _; split; [done|]; split; [done|by right]]. destruct Hx as [Hv _].
    eexists _, _. split; [by apply vir_info_spec; [apply (iq_step _ _ Q3)|..]|]. split; [done|]. left.
    rewrite (slot_info_quiet _ _ _ _ QQ). cbn [slot_info]. by replace (son =? EMPTY_BLKID) with false by lia.
  - destruct (Z.eqb_spec son EMPTY_BLKID) as [|Hson]; cbn [negb]; [eexists _, _; split; [done|]; split; [done|by left]|].
    unfold EMPTY_BLK_TYPE. unfold EMPTY_BLKID in Hson. replace (son =? -1) with false by lia.
    eexists _, _. split; [done|]. split; [done|by left].
Qed.

(** Storing the last block number in the root. *)
Lemma store_root_max s root inode t m p v : file_ok s root inode t m -> points_to s IDXND_CACHE root p -> is_s64 v ->
  exists s', st p ROOT_MAX v s = Some (tt, s') /\ file_ok s' root inode t v /\
    forall o, file_slot s' t o = file_slot s t o.
Proof.
  intros H Hp Hv. pose proof (fo_index _ _ _ _ _ H) as I.
  destruct (st_field s root p ROOT_MAX v (fi_world _ _ _ I) Hp max_field Hv) as (s' & R & S & A & W & F).
  assert (forall x o, in_tree x t -> field_ok o -> idx_word s' x o = idx_word s x o) as Fx.
  { intros x o Hx Ho. apply F; [done|]. intros [-> _]. by apply (fi_apart _ _ _ I). }
  exists s'. split; [done|]. split.
  - destruct I as [J1 J2 J3 J4 J5 J6]. destruct H as [_ K1 K2 K3]. split; [split| | |done].
    + apply S.
    + by rewrite A.
    + done.
    + rewrite F; [done|apply root_field|by intros [_ ?]].
    + eapply repr_ext; [|done]. intros. apply Fx; [done|by apply node_field_ok].
    + intros x Hx. rewrite A. auto.
    + rewrite F; [done|by unfold field_ok, ORCH_IDX_SIZE|by intros [_ ?]].
    + rewrite F; [done|by unfold field_ok, ORCH_IDX_SIZE|by intros [_ ?]].
  - intros o. unfold file_slot. destruct (look t 0 o) as [x|] eqn:E; [|done].
    pose proof (leaf_in_tree _ _ (look_leaf_in _ _ _ _ E)) as Hx.
    rewrite !Fx by (done || apply flag_field || apply son_field_ok, mod64). done.
Qed.

(** A search returns on any contents of the nodes. *)
Lemma search_total fuel : forall id inode d off s, world s -> 0 <= d <= 42 ->
  1 + (42 - d) / 6 <= Z.of_nat fuel ->
  exists r s', search_leaf_node fuel id inode d off s = Some (r, s') /\ iquiet s s'.
Proof.
  induction fuel as [|fuel IH]; intros id inode d off s Hw Hd Hf; [pose proof (Z.div_pos (42 - d) 6); lia|].
  cbn [search_leaf_node]. destruct (id =? EMPTY_BLKID); [eexists _, _; split; [done|by apply iquiet_refl]|].
  destruct (_ || _); [eexists _, _; split; [done|by apply quiet_errno]|].
  destruct (load_index_spec id s Hw) as (x & s1 & R1 & Q1 & Hx). rewrite (bind_run _ _ _ _ _ R1).
  pose proof (is_world _ _ (iq_step _ _ Q1)) as Hw1. pose proof (fun e => iquiet_trans _ _ _ Q1 (quiet_errno s1 e Hw1)) as Qe.
  destruct x as [p|]; [|by eexists _, _]. destruct Hx as [Hp _].
  rewrite (bind_run _ _ _ _ _ (ld_idx s1 id p ND_TYPE Hw1 Hp ltac:(done) ltac:(done))).
  rewrite (bind_run _ _ _ _ _ (ld_idx s1 id p ND_ZIPPED Hw1 Hp ltac:(done) ltac:(done))).
  set (ty := idx_word s1 id ND_TYPE). set (zl := idx_word s1 id ND_ZIPPED).
  destruct (bad_node ty zl d) eqn:Eb; [by eexists _, _|]. destruct (negb _); [by eexists _, _|].
  destruct (Z.eqb_spec ty LEAF_NODE) as [|Hty]; [by eexists _, _|].
  assert (0 <= zl /\ d + 6 * zl + 6 <= 42) as [Hz Hle].
  { unfold bad_node, LAYER_BITWIDTH, KEY_LEN, LEAF_NODE in *. destruct (Z.eqb_spec ty NOT_LEAF_NODE); lia. }
  rewrite kpart_key by lia. destruct (son_field _ (kpart_range d zl off)) as [F1 F2].
  rewrite (bind_run _ _ _ _ _ (ld_idx s1 id p _ Hw1 Hp F1 F2)).
  destruct (IH (idx_word s1 id (son_off (kpart d zl off))) inode (d + zl * LAYER_BITWIDTH + LAYER_BITWIDTH) off s1 Hw1)
    as (r & s2 & R2 & Q2); unfold LAYER_BITWIDTH in *; [lia| |eexists _, _; split; [done|by eapply iquiet_trans]].
  replace (42 - d) with (42 - (d + 6) + 1 * 6) in Hf by lia. rewrite Z.div_add in Hf by lia.
  pose proof (Z.div_le_mono (42 - (d + zl * 6 + 6)) (42 - (d + 6)) 6). lia.
Qed.

(** Appending, on every branch. *)
Lemma append_ssd_spec s root inode t m blocks : file_ok s root inode t m -> 0 <= inode -> 0 <= root < MAX_INDEX_NUM ->
  -1 <= m -> 0 < len blocks < 2 ^ 31 -> m + 1 + len blocks <= 2 ^ 42 -> Forall block_id blocks ->
  (forall o, m < o <= m + len blocks -> file_slot s t o = (false, EMPTY_BLKID)) ->
  exists e s', append_ssd_blocks root inode (len blocks) blocks s = Some (e, s') /\
    (e = 0 -> exists t', file_ok s' root inode t' (m + len blocks) /\
       forall o, 0 <= o < 2 ^ 42 -> file_slot s' t' o = append_slots (file_slot s t) (m + 1) blocks o).
Proof.
  intros H Hi Hr Hm Hl Hmax Hb Hemp. unfold append_ssd_blocks.
  destruct (check_root_spec s root inode t m H Hi Hr) as (x & s1 & R1 & Hx). rewrite (bind_run _ _ _ _ _ R1).
  destruct x as [p|]; [|eexists _, _; split; [done|]; cbn; destruct (Z.eqb_spec (k_errno s1) 0); cbn; done].
  destruct Hx as (t1 & H1 & N1 & Hp & F1). pose proof (fo_index _ _ _ _ _ H1) as I1. pose proof max_field as (M1 & M2 & _).
  rewrite (bind_run _ _ _ _ _ (ld_idx s1 root p ROOT_MAX (fi_world _ _ _ I1) Hp M1 M2)), (fo_max _ _ _ _ _ H1).
  change (Z.shiftl 1 KEY_LEN) with (2 ^ 42).
  replace ((len blocks <=? 0) || (m + 1 <? 0) || (2 ^ 42 - (m + 1) <? len blocks)) with false by lia.
  assert (take (Z.to_nat (s32 (len blocks))) blocks = blocks) as ->.
  { apply take_ge. unfold s32. rewrite Z.mod_small by lia. unfold len. lia. }
  destruct (append_ssd_loop_spec (length blocks) inode m Hi s1 root p t1 (m + 1) blocks) as (e & s2 & R2 & P2);
    [unfold len; lia|done|done|done|lia|lia|done| |].
  { intros j Hj. rewrite F1. apply Hemp. lia. }
  rewrite (bind_run _ _ _ _ _ R2). destruct (Z.eqb_spec e 0) as [->|He]; cbn [negb]; [|by eexists _, _].
  destruct (P2 eq_refl) as (t2 & H2 & Hp2 & F2). pose proof (fo_index _ _ _ _ _ H2) as I2.
  rewrite (bind_run _ _ _ _ _ (ld_idx s2 root p ROOT_MAX (fi_world _ _ _ I2) Hp2 M1 M2)), (fo_max _ _ _ _ _ H2).
  destruct (store_root_max s2 root inode t2 m p (m + len blocks) H2 Hp2) as (s3 & R3 & H3 & F3); [unfold is_s64; lia|].
  rewrite (bind_run _ _ _ _ _ R3).
  destruct (log_idx_spec s3 root p ROOT_MAX 8 (fi_world _ _ _ (fo_index _ _ _ _ _ H3))) as (s4 & R4 & Q4 & _).
  rewrite (bind_run _ _ _ _ _ R4).
  eexists _, _. split; [done|]. intros _. exists t2. split; [by eapply file_ok_quiet|]. intros o Ho.
  rewrite (file_slot_quiet _ _ _ _ Q4), F3, F2 by done. unfold append_slots. destruct (_ && _); [done|]. by rewrite F1.
Qed.

(** ** Properties *)

(** the recursion of [search_leaf_node] is bounded whatever the index nodes
    contain: on any index, even a corrupted or cyclic one, a search returns after at
    most eight nested calls, and changes neither the cached metadata nor the
    allocation bitmaps. *)
Theorem search_terminates (s : kfs) (id inode off : Z) : world s ->
  exists r s', search_leaf_node SEARCH_FUEL id inode 0 off s = Some (r, s') /\
    (forall c o, cache_view s' c o = cache_view s c o) /\ (forall b, idx_alloc s' b = idx_alloc s b).
Proof.
  intros Hw. destruct (search_total SEARCH_FUEL id inode 0 off s Hw) as (r & s' & R & Q); [lia|by vm_compute|].
  exists r, s'. split; [done|]. split; [apply (iq_view _ _ Q)|apply (iq_alloc _ _ Q)].
Qed.

(** [get_and_add_leafnode_id] returns the leaf of a block, growing the tree when
    it has none.  Whatever it returns, the index stays well formed, no slot of the
    file changes (so blocks that were mapped keep their data, and a new leaf maps
    nothing), every leaf that was found for a block is still found for it, and index
    nodes of other files are not touched; when it succeeds, searching for the block
    finds the returned leaf, and when it fails, [errno] says why. *)
Theorem get_and_add_leafnode_correct (s : kfs) (root : Z) (p : meta_ptr) (t : itree) (inode off : Z) :
  file_index s root t -> t <> IEmpty -> points_to s IDXND_CACHE root p -> 0 <= inode -> 0 <= off < 2 ^ 42 ->
  exists r s' t', get_and_add_leafnode_id root (Some p) inode off s = Some (r, s') /\ file_index s' root t' /\
    (forall o, file_slot s' t' o = file_slot s t o) /\
    (forall o x, look t 0 o = Some x -> look t' 0 o = Some x) /\
    (forall x o, idx_alloc s x = true -> ~ in_tree x t -> x <> root -> field_ok o -> idx_word s' x o = idx_word s x o) /\
    ((0 <= r /\ look t' 0 off = Some r) \/ (r = -1 /\ k_errno s' <> 0)).
Proof.
  intros H Hne Hp Hi Ho. destruct (get_and_add_spec s root p t inode off H Hne Hp Hi Ho) as (r & s' & t' & R & G & H' & _ & Hr).
  exists r, s', t'. split; [done|]. split; [done|]. split; [by eapply grew_slots, H|].
  split; [apply (g_kept _ _ _ _ _ _ _ G)|]. split; [|done].
  intros x o Ha Hx Hxr Hf. apply (g_frame _ _ _ _ _ _ _ G); try done. by intros [? _].
Qed.

(** C16: [query_offset_info] reports the slot of the block: the SSD address of an SSD
    block, the page addresses of a virtual node, page and buffer addresses of a
    strata node, an empty answer for a hole; it changes nothing.  The only other
    answer is the empty one with [errno] set, when a node could not be loaded. *)
Theorem query_offset_info_correct (s : kfs) (root : Z) (t : itree) (inode off : Z) :
  file_index s root t -> 0 <= inode -> 0 <= off < 2 ^ 42 ->
  exists info s', query_offset_info root inode off s = Some (info, s') /\
    (forall c o, cache_view s' c o = cache_view s c o) /\
    (info = slot_info s (file_slot s t off) off \/ (info = no_info off /\ k_errno s' <> 0)).
Proof.
  intros H Hi Ho. destruct (query_spec s root t inode off H Hi Ho) as (info & s' & R & Q & Hr).
  exists info, s'. split; [done|]. split; [apply (iq_view _ _ Q)|done].
Qed.

End ops.

(** ** Concrete runs *)

(** The bitmap of the index area with block 0 in use, a device whose index node 0 is
    the root of the empty file 0, and a bound transaction. *)
Definition demo_index_bmp : mem_bmp :=
  mk_bmp true (fun o => if o =? 0 then 128 else 0) OFFSET_IDX_BMP 0 1 (MAX_INDEX_NUM / 8) (MAX_INDEX_NUM / 8)
    OFFSET_INDEX ORCH_IDX_SIZE (fun _ => 0) 1.
Definition demo_file : kfs :=
  set_k_cur (Some 1) (set_k_txns {[1 := empty_txn]}
    (boot_kfs (nvm_write (fun _ => 0) (repeat 255 16) (OFFSET_INDEX + ROOT_ENTRY)) (fun _ => demo_index_bmp))).

Lemma count_bits_false n : count_bits (fun _ => false) n = 0.
Proof. induction n as [|n IH]; cbn [count_bits]; [done|]. by rewrite IH. Qed.

Lemma demo_index_bmp_bits b : 0 <= b -> bits demo_index_bmp b = (b =? 0).
Proof.
  intros Hb. unfold bits, bit_set. rewrite mask_set_testbit. cbn [bmp_bytes demo_index_bmp].
  pose proof (Z.mod_pos_bound b 8 ltac:(lia)) as Hm. pose proof (Z.div_mod b 8 ltac:(lia)) as Hd.
  destruct (Z.eqb_spec (b / 8) 0) as [E|E]; [|rewrite Z.testbit_0_l; lia].
  change 128 with (2 ^ 7). rewrite Z.pow2_bits_eqb by lia. lia.
Qed.

Lemma demo_index_bmp_wf : bmp_wf demo_index_bmp.
Proof.
  split; [split|].
  - intros i. cbn. unfold byte_ok. destruct (i =? 0); lia.
  - by vm_compute.
  - by vm_compute.
  - intros w. cbn. lia.
  - unfold bmp_allocated. change (bmp_total demo_index_bmp) with 3145728. symmetry.
    rewrite (count_bits_ext _ (fun x => (x =? 0) || false)).
    + rewrite count_bits_add by (done || (rewrite Z2Nat.id; lia)). by rewrite count_bits_false.
    + intros x Hx. rewrite orb_false_r. apply demo_index_bmp_bits. lia.
Qed.

Lemma demo_file_ok : file_ok demo_file 0 0 IEmpty (-1).
Proof.
  split; [split|by vm_compute..].
  - split; [apply boot_kfs_std|by exists 1|apply demo_index_bmp_wf|by vm_compute].
  - by apply demo_index_bmp_bits.
  - by intros [].
  - by vm_compute.
  - done.
  - by intros x [].
Qed.

Lemma search_terminates_witness : exists s', search_leaf_node SEARCH_FUEL 0 0 0 0 demo_file = Some (-1, s').
Proof.
  destruct (search_terminates demo_file 0 0 0) as (r & s' & R & _).
  - exact (fi_world _ _ _ (fo_index _ _ _ _ _ demo_file_ok)).
  - exists s'. rewrite R. assert (option_map fst (search_leaf_node SEARCH_FUEL 0 0 0 0 demo_file) = Some (-1)) as E
      by (vm_compute; reflexivity). rewrite R in E. cbn in E. congruence.
Defined.

Lemma get_and_add_leafnode_correct_witness :
  exists p s1 r s2 t2, check_root_id 0 0 demo_file = Some (Some p, s1) /\
    get_and_add_leafnode_id 0 (Some p) 0 64 s1 = Some (r, s2) /\ look t2 0 64 = Some r /\ file_index s2 0 t2.
Proof.
  destruct (check_root_spec demo_file 0 0 IEmpty (-1) demo_file_ok) as (x & s1 & R1 & H1); [lia|by vm_compute|].
  assert (match check_root_id 0 0 demo_file with
    Some (Some p, s1) => match get_and_add_leafnode_id 0 (Some p) 0 64 s1 with Some (r, _) => 0 <=? r | None => false end
    | _ => false end = true) as E by (vm_compute; reflexivity).
  rewrite R1 in E. destruct x as [p|]; [|discriminate E]. destruct H1 as (t1 & H1 & N1 & Hp & _).
  destruct (get_and_add_leafnode_correct s1 0 p t1 0 64 (fo_index _ _ _ _ _ H1) N1 Hp) as (r & s2 & t2 & R2 & H2 & _ & _ & _ & Hr);
    [lia|lia|].
  exists p, s1, r, s2, t2. rewrite R2 in E. split; [exact R1|]. split; [exact R2|].
  destruct Hr as [[_ Hl]|[Hr _]]; [split; [exact Hl|exact H2]|exfalso; subst r; discriminate E].
Defined.

Lemma query_offset_info_correct_witness : exists s', query_offset_info 0 0 7 demo_file = Some (no_info 7, s').
Proof.
  destruct (query_offset_info_correct demo_file 0 IEmpty 0 7 (fo_index _ _ _ _ _ demo_file_ok)) as (info & s' & R & _ & H);
    [lia|lia|].
  exists s'. rewrite R. destruct H as [->|[-> _]]; reflexivity.
Defined.

