(* ===== verification/IndexChange.v ===== *)
(** * Changing a block of the file index (LibFS/index.c)

    Programs that only load metadata are the same inside and outside a transaction.
    Turning a virtual node into an SSD block changes one slot of the file, and frees
    the node and its pages with the transaction. *)

From stdpp Require Import base tactics numbers list gmap.
From Stdlib Require Import ZArith Lia.
From S2P Require Import Prelude Bytes Layout Pmem DiskFormat Bitmap KernelFunc Frame Kfs MetaCache Txn LibSpace Index IndexWords IndexTree IndexInsert IndexMap IndexOps.
Open Scope Z_scope.

(** ** Programs that load *)

(** The state with another bound transaction and other live transactions. *)
Definition rebind (cur : option Z) (txns : gmap Z orchfs_log_transaction) (s : kfs) : kfs := set_k_cur cur (set_k_txns txns s).
(** What loading does not touch. *)
Record same_rest (s s' : kfs) : Prop := {
  sr_pmem : k_pmem s' = k_pmem s;
  sr_bmps : k_bmps s' = k_bmps s;
  sr_journal : k_journal s' = k_journal s;
  sr_cur : k_cur s' = k_cur s;
  sr_txns : k_txns s' = k_txns s;
  sr_next : k_next s' = k_next s;
  sr_worker : k_worker s' = k_worker s;
}.
Definition loads {A} (c : M A) : Prop := forall s,
  (forall x s', c s = Some (x, s') -> same_rest s s') /\
  forall cur txns, c (rebind cur txns s) = match c s with Some (x, s') => Some (x, rebind cur txns s') | None => None end.

Lemma same_rest_refl s : same_rest s s.
Proof. by split. Qed.
Lemma same_rest_trans s1 s2 s3 : same_rest s1 s2 -> same_rest s2 s3 -> same_rest s1 s3.
Proof. intros [A1 A2 A3 A4 A5 A6 A7] [B1 B2 B3 B4 B5 B6 B7]. split; congruence. Qed.
Lemma rebind_self s : rebind (k_cur s) (k_txns s) s = s.
Proof. by destruct s. Qed.
Lemma rebind_rebind cur txns cur' txns' s : rebind cur txns (rebind cur' txns' s) = rebind cur txns s.
Proof. done. Qed.
Lemma loads_ret {A} (x : A) : loads (mret x).
Proof. intros s. split; [|done]. intros y s' [= _ <-]. apply same_rest_refl. Qed.
Lemma loads_bind {A B} (c : M A) (f : A -> M B) : loads c -> (forall x, loads (f x)) -> loads (c ≫= f).
Proof.
  intros Hc Hf s. unfold mbind, M_bind. destruct (Hc s) as [C1 C2]. split.
  - intros y s' E. destruct (c s) as [[x s1]|] eqn:E1; [|done]. eapply same_rest_trans; [by eapply C1|by eapply (Hf x s1)].
  - intros cur txns. rewrite C2. destruct (c s) as [[x s1]|]; [|done]. apply (Hf x s1).
Qed.
Lemma loads_gets {A} (f : kfs -> A) : (forall cur txns s, f (rebind cur txns s) = f s) -> loads (gets f).
Proof. intros Hf s. split; [|intros cur txns; unfold gets; by rewrite Hf]. intros y s' [= _ <-]. apply same_rest_refl. Qed.
Lemma loads_errno e : loads (set_errno e).
Proof. intros s. split; [|done]. intros y s' [= _ <-]. by split. Qed.
Lemma loads_if {A} (b : bool) (c c' : M A) : loads c -> loads c' -> loads (if b then c else c').
Proof. by destruct b. Qed.
Lemma loads_option {A B} (o : option A) (f : A -> M B) (c : M B) : (forall x, loads (f x)) -> loads c -> loads (match o with Some x => f x | None => c end).
Proof. by destruct o. Qed.
Lemma loads_ext {A} (c c' : M A) : (forall s, c s = c' s) -> loads c' -> loads c.
Proof. intros He H s. destruct (H s) as [H1 H2]. split; [intros x s'; rewrite He; apply H1|]. intros. rewrite !He. apply H2. Qed.
Lemma loads_ld p off : loads (ld p off).
Proof. apply loads_bind; [by apply loads_gets|]. intros l. apply loads_ret. Qed.
Lemma loads_abort {A} : loads (abort (A := A)).
Proof. by split. Qed.
Create HintDb loads.
#[export] Hint Resolve loads_ret loads_bind loads_errno loads_if loads_option loads_ld loads_abort : loads.

Section programs.
Context `{Mo : MallocOracle}.
Lemma loads_malloc : loads malloc.
Proof. intros s. split; [|done]. intros y s' [= _ <-]. by split. Qed.
Lemma loads_segment cache_id segment : loads (load_segment cache_id segment).
Proof.
  unfold load_segment. apply loads_bind; [by apply loads_gets|]. intros c. apply loads_if; [auto with loads|]. apply loads_option; [auto with loads|].
  apply loads_bind; [apply loads_malloc|]. intros ok. apply loads_if; [|auto with loads].
  apply loads_bind; [by apply loads_gets|]. intros data. apply loads_bind; [|auto with loads].
  intros s. split; [|done]. intros y s' [= _ <-]. by split.
Qed.
Lemma loads_id_to_memaddr cache_id max extblks unit id : loads (id_to_memaddr cache_id max extblks unit id).
Proof. unfold id_to_memaddr. apply loads_if; [auto with loads|]. apply loads_bind; [apply loads_segment|auto with loads]. Qed.
Lemma loads_slot_addrs p off f : loads (slot_addrs p off f).
Proof. intros s. split; [|done]. intros y s' [= _ <-]. apply same_rest_refl. Qed.
Ltac solve_loads H := repeat match goal with
  | |- forall _, _ => intro
  | |- loads (_ ≫= _) => apply loads_bind
  | |- loads (if _ then _ else _) => apply loads_if
  | |- loads (match ?o with Some _ => _ | None => _ end) => destruct o
  | |- loads _ => first [apply loads_ld|apply loads_ret|apply loads_errno|apply loads_id_to_memaddr|apply loads_slot_addrs|apply H]
  end.
Lemma loads_search fuel : forall id inode d off, loads (search_leaf_node fuel id inode d off).
Proof.
  induction fuel as [|fuel IH]; intros id inode d off; cbn [search_leaf_node]; [apply loads_abort|]. unfold fail_id.
  solve_loads IH.
Qed.
Lemma loads_query root inode off : loads (query_offset_info root inode off).
Proof.
  unfold query_offset_info, get_leafnode_pt, get_leafnode_id, search, son_type_of, fail_ptr.
  solve_loads loads_search.
Qed.

(** ** Changing a slot *)

(** A store to an index node leaves the virtual nodes and everything but the caches alone. *)
Lemma st_idx_rest s id p off v s' : world s -> points_to s IDXND_CACHE id p -> 0 <= off -> off + 8 <= ORCH_IDX_SIZE ->
  st p off v s = Some (tt, s') -> same_rest s s' /\ (forall c o, c <> IDXND_CACHE -> cache_view s' c o = cache_view s c o) /\
    forall v', is_Some (meta_memsp_pt (k_cache s VIRND_CACHE) v') -> is_Some (meta_memsp_pt (k_cache s' VIRND_CACHE) v').
Proof.
  intros Hw Hp Ho Hl R. pose proof (mem_write_view s IDXND_CACHE id p off (le_bytes 8 v) idxnd_ok (w_cache _ Hw) Hp) as H. rewrite idxnd_geometry in H.
  destruct (H Ho ltac:(done)) as (s1 & R1 & _ & _ & V). unfold st in R. rewrite R in R1. injection R1 as <-. split; [|split].
  - injection R as <-. by split.
  - intros c o Hc. rewrite V. by replace (c =? IDXND_CACHE) with false by lia.
  - assert (mp_cache p = IDXND_CACHE) as Ec. { unfold points_to in Hp. rewrite idxnd_geometry in Hp. by destruct Hp as (_ & -> & _). }
    injection R as <-. cbn. unfold upd. by rewrite Ec.
Qed.
Lemma st_mod p off v s : st p off v s = st p off (s64 v) s.
Proof.
  unfold st. f_equal. apply le_bytes_congr. change (256 ^ Z.of_nat 8) with (2 ^ 64). unfold s64.
  rewrite Zminus_mod_idemp_l. f_equal. lia.
Qed.

Lemma check_root_quiet s root inode t m : file_ok s root inode t m -> t <> IEmpty -> 0 <= inode -> 0 <= root ->
  exists r s', check_root_id root inode s = Some (r, s') /\ iquiet s s' /\ same_rest s s' /\
    match r with Some p => points_to s' IDXND_CACHE root p | None => k_errno s' <> 0 end.
Proof.
  intros H Hne Hino Hroot. unfold check_root_id. replace ((root <? 0) || (inode <? 0)) with false by lia.
  destruct (load_index_spec root s (fi_world _ _ _ (fo_index _ _ _ _ _ H))) as (x & s1 & R1 & Q1 & Hx).
  pose proof (proj1 (loads_id_to_memaddr _ _ _ _ root s) _ _ R1) as S1. rewrite (bind_run _ _ _ _ _ R1). destruct x as [p|].
  2:{ eexists _, _. split; [done|]. split; [eapply iquiet_trans; [done|apply quiet_errno, Q1]|]. split; [|done].
      eapply same_rest_trans; [done|by split]. }
  destruct Hx as [Hp _]. pose proof (file_ok_quiet _ _ _ _ _ _ H Q1) as H1. pose proof (fo_index _ _ _ _ _ H1) as I1. pose proof (fi_world _ _ _ I1) as W1.
  rewrite (bind_run _ _ _ _ _ (ld_idx s1 root p ND_TYPE W1 Hp ltac:(done) ltac:(done))), (fo_type _ _ _ _ _ H1).
  rewrite (bind_run _ _ _ _ _ (ld_idx s1 root p ROOT_INODE W1 Hp ltac:(done) ltac:(done))), (fo_inode _ _ _ _ _ H1).
  rewrite !Z.eqb_refl. cbn [negb orb].
  rewrite (bind_run _ _ _ _ _ (ld_idx s1 root p ROOT_ENTRY W1 Hp ltac:(done) ltac:(done))), (fi_entry _ _ _ I1).
  destruct (repr_head s1 t 0 (fi_repr _ _ _ I1) ltac:(lia) Hne) as (Hid & _). replace (tid t =? EMPTY_BLKID) with false by (unfold EMPTY_BLKID; lia).
  by eexists _, _.
Qed.

(** Storing the flags of a leaf, of which one may differ. *)
Lemma store_flag s root t off leaf p v : file_index s root t -> look t 0 off = Some leaf -> points_to s IDXND_CACHE leaf p -> 0 <= off < 2 ^ 42 -> is_s64 v ->
  (forall i, 0 <= i < 64 -> i <> off mod 64 -> Z.testbit v i = Z.testbit (idx_word s leaf ND_FLAG) i) ->
  exists s', st p ND_FLAG v s = Some (tt, s') /\ istep s s' /\ file_index s' root t /\
    (forall o, field_ok o -> idx_word s' root o = idx_word s root o) /\
    forall o, 0 <= o < 2 ^ 42 -> file_slot s' t o = if o =? off then (Z.testbit v (off mod 64), (file_slot s t off).2) else file_slot s t o.
Proof.
  intros H E Hp Hoff Hv Hbits. destruct (st_field s leaf p ND_FLAG v (fi_world _ _ _ H) Hp flag_field Hv) as (s' & R & S & A & W & F).
  pose proof (look_leaf_in _ _ _ _ E) as Hl. pose proof (leaf_in_tree _ _ Hl) as Hit.
  assert (leaf <> root) as Hne by (intros ->; by apply (fi_apart _ _ _ H)).
  assert (forall x i, 0 <= i < 64 -> idx_word s' x (son_off i) = idx_word s x (son_off i)) as Fs.
  { intros x i Hi. apply F; [by apply son_field_ok|]. intros [_ Hc]. unfold son_off, ND_FLAG, ND_SONS in Hc. lia. }
  exists s'. split; [done|]. split; [done|]. split; [|split].
  - pose proof H as [H1 H2 H3 H4 H5 H6]. split; [apply S|by rewrite A|done| | |].
    + rewrite F by (apply root_field || (intros [? _]; congruence)). done.
    + eapply repr_ext; [|done]. intros x o Hx Hno. apply F; [by apply node_field_ok|].
      intros [_ ->]. destruct Hno as [Hc|[Hc|(i & Hi & Hc)]]; unfold ND_FLAG, ND_TYPE, ND_ZIPPED, son_off, ND_SONS in Hc; lia.
    + intros x Hx. rewrite A. auto.
  - intros o Ho. apply F; [done|]. intros [? _]. congruence.
  - intros o Ho. unfold file_slot at 1 3. pose proof (mod64 o) as Hm. destruct (Z.eqb_spec o off) as [->|Hno].
    + unfold file_slot. rewrite E, W, Fs by done. done.
    + destruct (look t 0 o) as [x|] eqn:Eo; [|done]. rewrite Fs by done. f_equal. destruct (Z.eq_dec x leaf) as [->|Hx].
      * rewrite W. apply Hbits; [done|]. intros Hc. apply Hno. by apply (same_leaf s root t off o leaf).
      * rewrite F; [done|apply flag_field|]. by intros [? _].
Qed.

Lemma testbit_s64 x i : 0 <= i < 64 -> Z.testbit (s64 x) i = Z.testbit x i.
Proof.
  intros Hi. assert (s64 x mod 2 ^ 64 = x mod 2 ^ 64) as E.
  { unfold s64. rewrite Zminus_mod_idemp_l. f_equal. lia. }
  rewrite <-(Z.mod_pow2_bits_low (s64 x) 64 i), <-(Z.mod_pow2_bits_low x 64 i) by lia. by rewrite E.
Qed.
Lemma clear_flag s root t off leaf p : file_index s root t -> look t 0 off = Some leaf -> points_to s IDXND_CACHE leaf p -> 0 <= off < 2 ^ 42 ->
  exists s', change_idxson_type p (off mod 64) SSD_BLOCK s = Some (tt, s') /\ istep s s' /\ file_index s' root t /\ same_rest s s' /\
    (forall c o, c <> IDXND_CACHE -> cache_view s' c o = cache_view s c o) /\
    (forall o, field_ok o -> idx_word s' root o = idx_word s root o) /\
    forall o, 0 <= o < 2 ^ 42 -> file_slot s' t o = if o =? off then (false, (file_slot s t off).2) else file_slot s t o.
Proof.
  intros H E Hp Hoff. unfold change_idxson_type. pose proof (mod64 off) as Hm. rewrite Z.div_small, Z.mod_small by done. rewrite Z.mul_0_l, Z.add_0_r.
  pose proof flag_field as (F1 & F2 & _). rewrite (bind_run _ _ _ _ _ (ld_idx s leaf p ND_FLAG (fi_world _ _ _ H) Hp F1 F2)).
  change (SSD_BLOCK =? VIR_LEAF_NODE) with false. cbv iota. set (w := idx_word s leaf ND_FLAG). set (v := Z.land _ _). rewrite st_mod.
  assert (forall i, 0 <= i < 64 -> Z.testbit (s64 v) i = Z.testbit w i && negb (i =? off mod 64)) as Hb.
  { intros i Hi. rewrite testbit_s64 by done. unfold v. rewrite Z.land_spec. unfold u64. rewrite !Z.mod_pow2_bits_low by lia. f_equal.
    rewrite Z.lnot_spec by lia. f_equal. rewrite Z.shiftl_1_l, Z.pow2_bits_eqb by lia. apply Z.eqb_sym. }
  destruct (store_flag s root t off leaf p (s64 v) H E Hp Hoff) as (s' & R & S & I & W & F).
  { unfold is_s64. apply s64_range. }
  { intros i Hi Hne. rewrite Hb by done. replace (i =? off mod 64) with false by lia. by rewrite andb_true_r. }
  destruct (st_idx_rest s leaf p ND_FLAG (s64 v) s' (fi_world _ _ _ H) Hp F1 F2 R) as (R1 & R2 & _).
  exists s'. split; [done|]. split_and!; try done. intros o Ho. rewrite F by done. rewrite Hb, Z.eqb_refl, andb_false_r by done. done.
Qed.

(** ** Deferred releases *)

Definition cur_txn (s : kfs) : option orchfs_log_transaction := match k_cur s with Some h => k_txns s !! h | None => None end.
(** Unless the transaction has failed, the blocks [l] are freed with it, and no others are added or freed. *)
Definition defers (l : list allocation_record) (s s' : kfs) : Prop := forall t, cur_txn s = Some t ->
  exists t', cur_txn s' = Some t' /\ (tx_error t' = 0 -> tx_error t = 0 /\ tx_deallocations t' = l ++ tx_deallocations t /\ tx_allocations t' = tx_allocations t).
Lemma defers_trans l1 l2 s1 s2 s3 : defers l1 s1 s2 -> defers l2 s2 s3 -> defers (l2 ++ l1) s1 s3.
Proof.
  intros H1 H2 t Ht. destruct (H1 t Ht) as (t1 & T1 & E1). destruct (H2 t1 T1) as (t2 & T2 & E2). exists t2. split; [done|]. intros E.
  destruct (E2 E) as (E3 & -> & ->). destruct (E1 E3) as (E4 & -> & ->). by rewrite <-app_assoc.
Qed.
Lemma defers_rest s s' : same_rest s s' -> defers [] s s'.
Proof. intros [_ _ _ H1 H2 _ _] t Ht. exists t. unfold cur_txn in *. by rewrite H1, H2. Qed.
(** A step inside a transaction that leaves cached metadata, media and bitmaps alone. *)
Definition deferred (l : list allocation_record) (s s' : kfs) : Prop :=
  iquiet s s' /\ defers l s s' /\ k_pmem s' = k_pmem s /\ k_bmps s' = k_bmps s /\ k_cur s' = k_cur s /\ k_cache s' = k_cache s.
Lemma deferred_trans l1 l2 s1 s2 s3 : deferred l1 s1 s2 -> deferred l2 s2 s3 -> deferred (l2 ++ l1) s1 s3.
Proof. intros (A1 & A2 & A3 & A4 & A5 & A6) (B1 & B2 & B3 & B4 & B5 & B6). split_and!; [by eapply iquiet_trans|by eapply defers_trans|congruence..]. Qed.
Lemma deferred_txn s h t t' c e l : world s -> k_cur s = Some h -> k_txns s !! h = Some t -> (tx_error t' = 0 -> tx_error t = 0 /\ tx_deallocations t' = l ++ tx_deallocations t /\ tx_allocations t' = tx_allocations t) ->
  deferred l s (set_k_errno e (set_k_txns (<[h := t']> (k_txns s)) (set_k_clock c s))).
Proof.
  intros Hw Hc Ht Hd. split; [|split].
  - apply quiet_of; try done. eapply world_ext; try done. intros. by apply put_txn_live.
  - intros t0 Ht0. unfold cur_txn in *. rewrite Hc, Ht in Ht0. injection Ht0 as <-. cbn. rewrite Hc, lookup_insert_eq. by exists t'.
  - done.
Qed.

Lemma state_eta s h t : k_txns s !! h = Some t -> s = set_k_errno (k_errno s) (set_k_txns (<[h := t]> (k_txns s)) (set_k_clock (k_clock s) s)).
Proof. intros Ht. destruct s. cbn in *. by rewrite insert_id. Qed.
Lemma add_record_deferred s kind block type data off n : world s -> exists s', add_record kind block type data off n s = Some (tt, s') /\ deferred [] s s'.
Proof.
  intros Hw. pose proof (w_txn _ Hw) as (h & Hc & t & Ht). unfold add_record, gets, mbind, M_bind. rewrite Hc.
  unfold get_txn. rewrite Ht. destruct (Z.eqb_spec (tx_error t) 0) as [E|E]; cbn [negb].
  2:{ eexists. split; [done|]. rewrite (state_eta s h t Ht) at 2. by apply (deferred_txn s h t). }
  destruct (_ || _). { eexists. split; [done|]. by apply (deferred_txn s h t _ (k_clock s) (k_errno s)). }
  unfold malloc, put_txn, modify. cbn [k_txns set_k_clock k_clock].
  destruct (malloc_ok (k_clock s)); cbn [negb]; [|eexists; split; [done|]; by apply (deferred_txn s h t _ _ (k_errno s))].
  destruct (n =? 0); [eexists; split; [done|]; by apply (deferred_txn s h t _ _ (k_errno s))|]. cbn [k_txns set_k_clock k_clock].
  destruct (malloc_ok (k_clock s + 1)); cbn [negb]; (eexists; split; [done|]; by apply (deferred_txn s h t _ _ (k_errno s))).
Qed.
Lemma log_deferred s block p off n : world s -> exists s', log_idx block p off n s = Some (tt, s') /\ deferred [] s s'.
Proof. intros Hw. unfold log_idx, log_change, mem_read, gets, mbind, M_bind. by apply add_record_deferred. Qed.
Lemma release_deferred s type block : world s -> MIN_EXT_ID <= type <= MAX_EXT_ID -> 0 <= block ->
  exists s', release type block s = Some (tt, s') /\ deferred [mk_allocation type block] s s'.
Proof.
  intros Hw Hty Hb. pose proof (w_txn _ Hw) as (h & Hc & t & Ht). unfold release.
  replace (block <? 0) with false by lia. unfold orchfs_log_defer_current_release, gets, mbind, M_bind. rewrite Hc. unfold get_txn. rewrite Ht.
  replace ((type <? MIN_EXT_ID) || (MAX_EXT_ID <? type) || (block <? 0)) with false by lia.
  unfold malloc, put_txn, modify. cbn [k_txns set_k_clock k_clock]. destruct (malloc_ok (k_clock s)); cbn.
  - eexists. split; [done|]. by apply (deferred_txn s h t _ _ (k_errno s)).
  - eexists. split; [done|]. by apply (deferred_txn s h t).
Qed.
(** The ids among the eight slots of a virtual node that are in use, latest first. *)
Definition used_slots (type : Z) (s : kfs) (v off : Z) (l : list Z) : list allocation_record :=
  rev (flat_map (fun i => let id := vir_word s v (off + i * 8) in if id =? EMPTY_BLKID then [] else [mk_allocation type id]) l).
Lemma used_slots_quiet type s s' v off l : iquiet s s' -> used_slots type s' v off l = used_slots type s v off l.
Proof. intros Q. unfold used_slots. f_equal. apply flat_map_ext. intros i. by rewrite (vir_word_quiet _ _ _ _ Q). Qed.
Lemma deferred_points l s s' c v p : deferred l s s' -> points_to s c v p -> points_to s' c v p.
Proof. intros (_ & _ & _ & _ & _ & Hc). unfold points_to. by rewrite Hc. Qed.
Lemma deferred_refl s : world s -> deferred [] s s.
Proof. intros Hw. split; [by apply iquiet_refl|]. split; [|done]. apply defers_rest, same_rest_refl. Qed.
Lemma release_slots_deferred type s v p off l : MIN_EXT_ID <= type <= MAX_EXT_ID -> world s -> points_to s VIRND_CACHE v p ->
  (forall i, i ∈ l -> 0 <= off + i * 8 /\ off + i * 8 + 8 <= ORCH_VIRND_SIZE) ->
  (forall i, i ∈ l -> vir_word s v (off + i * 8) <> EMPTY_BLKID -> 0 <= vir_word s v (off + i * 8)) ->
  exists s', mforeach (fun i => id ← ld p (off + i * 8); if negb (id =? EMPTY_BLKID) then release type id else mret tt) l s = Some (tt, s') /\
    deferred (used_slots type s v off l) s s'.
Proof.
  intros Hty. revert s. induction l as [|i l IH]; intros s Hw Hp Hin Hid; cbn [mforeach].
  { exists s. split; [done|]. by apply deferred_refl. }
  pose proof (Hin i ltac:(set_solver)) as [H1 H2]. pose proof (ld_vir s v p (off + i * 8) Hw Hp H1 H2) as R0.
  assert (exists s1, (id ← ld p (off + i * 8); if negb (id =? EMPTY_BLKID) then release type id else mret tt) s = Some (tt, s1) /\
    deferred (used_slots type s v off [i]) s s1) as (s1 & R1 & D1).
  { rewrite (bind_run _ _ _ _ _ R0). unfold used_slots. cbn [flat_map]. destruct (Z.eqb_spec (vir_word s v (off + i * 8)) EMPTY_BLKID) as [E|E]; cbn [negb].
    - exists s. split; [done|]. by apply deferred_refl.
    - apply release_deferred; [done|done|]. apply Hid; [set_solver|done]. }
  rewrite (bind_run _ _ _ _ _ R1). pose proof D1 as (Q1 & _).
  destruct (IH s1) as (s2 & R2 & D2); [apply Q1|by eapply deferred_points|intros j Hj; apply Hin; set_solver| |].
  { intros j Hj. rewrite (vir_word_quiet _ _ _ _ Q1). apply Hid. set_solver. }
  exists s2. split; [done|]. rewrite (used_slots_quiet _ _ _ _ _ _ Q1) in D2. pose proof (deferred_trans _ _ _ _ _ D1 D2) as D.
  replace (used_slots type s v off (i :: l)) with (used_slots type s v off l ++ used_slots type s v off [i]); [done|].
  unfold used_slots. cbn [flat_map]. rewrite app_nil_r. by rewrite <-rev_app_distr.
Qed.

(** ** From a virtual node to an SSD block *)

(** The pages of virtual node [v] are ids or empty. *)
Definition pages_ok (s : kfs) (v : Z) : Prop := forall i, 0 <= i < VLN_SLOT_SUM -> vir_word s v (VN_PAGES + i * 8) <> EMPTY_BLKID -> 0 <= vir_word s v (VN_PAGES + i * 8).
(** What is freed with it. *)
Definition node_blocks (s : kfs) (v : Z) : list allocation_record :=
  mk_allocation VIRND_EXT v :: used_slots PAGE_EXT s v VN_PAGES (zseq 0 VLN_SLOT_SUM).
Record changed (s s' : kfs) (root inode : Z) (t : itree) (m off blk v : Z) : Prop := {
  ch_file : file_ok s' root inode t m;
  ch_slots : forall o, 0 <= o < 2 ^ 42 -> file_slot s' t o = if o =? off then (false, blk) else file_slot s t o;
  ch_view : forall c o, c <> IDXND_CACHE -> cache_view s' c o = cache_view s c o;
  ch_frees : defers (node_blocks s v) s s';
  ch_pmem : k_pmem s' = k_pmem s;
  ch_bmps : k_bmps s' = k_bmps s;
  ch_cur : k_cur s' = k_cur s;
}.
(** The change itself, in the leaf. *)
Lemma change_slot s root inode t m off blk leaf p v q : file_ok s root inode t m -> look t 0 off = Some leaf -> points_to s IDXND_CACHE leaf p -> 0 <= off < 2 ^ 42 ->
  is_s64 blk -> points_to s VIRND_CACHE v q -> 0 <= v -> pages_ok s v ->
  exists s', (st p (son_off (off mod 64)) blk;; change_idxson_type p (off mod 64) SSD_BLOCK;;
    log_idx leaf p ND_FLAG 16;; log_idx leaf p (son_off (off mod 64)) 8;;
    release_slots q VN_PAGES release_nvm_page;; release_virindex_node v;; mret 0) s = Some (0, s') /\ changed s s' root inode t m off blk v.
Proof.
  intros H E Hp Hoff Hb Hq Hv Hpg. pose proof (fo_index _ _ _ _ _ H) as I. pose proof (mod64 off) as Hm. destruct (son_field _ Hm) as [G1 G2].
  destruct (store_leaf s root t off leaf p blk I E Hp Hoff Hb) as (s1 & R1 & S1 & I1 & W1 & F1).
  destruct (st_idx_rest s leaf p _ blk s1 (fi_world _ _ _ I) Hp G1 G2 R1) as (E1 & V1 & L1).
  rewrite (bind_run _ _ _ _ _ R1). pose proof (is_points _ _ S1 _ _ Hp) as Hp1.
  destruct (clear_flag s1 root t off leaf p I1 E Hp1 Hoff) as (s2 & R2 & S2 & I2 & E2 & V2 & W2 & F2). rewrite (bind_run _ _ _ _ _ R2).
  assert (points_to s2 VIRND_CACHE v q) as Hq2.
  { unfold change_idxson_type in R2. rewrite Z.div_small, Z.mod_small, Z.mul_0_l, Z.add_0_r in R2 by done. pose proof flag_field as (K1 & K2 & _).
    rewrite (bind_run _ _ _ _ _ (ld_idx s1 leaf p ND_FLAG (fi_world _ _ _ I1) Hp1 K1 K2)) in R2.
    destruct (st_idx_rest s1 leaf p ND_FLAG _ s2 (fi_world _ _ _ I1) Hp1 K1 K2 R2) as (_ & _ & L2).
    unfold points_to in *. change (cache_geometry VIRND_CACHE) with (VIRND_CACHE_EXTBLKS, ORCH_VIRND_SIZE, MAX_VIRND_NUM) in *.
    destruct Hq as (A & B & C). split; [done|]. split; [done|]. by apply L2, L1. }
  destruct (log_deferred s2 leaf p ND_FLAG 16 (fi_world _ _ _ I2)) as (s3 & R3 & D3). rewrite (bind_run _ _ _ _ _ R3). pose proof D3 as (Q3 & _).
  destruct (log_deferred s3 leaf p (son_off (off mod 64)) 8 (is_world _ _ (iq_step _ _ Q3))) as (s4 & R4 & D4). rewrite (bind_run _ _ _ _ _ R4).
  pose proof (deferred_trans _ _ _ _ _ D3 D4) as D34. pose proof D34 as (Q34 & _).
  assert (forall o, vir_word s4 v o = vir_word s v o) as Hvw.
  { intros o. rewrite (vir_word_quiet _ _ _ _ Q34). unfold vir_word. do 2 f_equal. apply nvm_read_ext. intros a _. by rewrite V2, V1. }
  destruct (release_slots_deferred PAGE_EXT s4 v q VN_PAGES (zseq 0 VLN_SLOT_SUM)) as (s5 & R5 & D5).
  { by vm_compute. } { apply Q34. } { by eapply deferred_points. }
  { intros i (j & -> & Hj)%list_elem_of_fmap. apply elem_of_seq in Hj. unfold VN_PAGES, ORCH_VIRND_SIZE, VLN_SLOT_SUM in *. lia. }
  { intros i (j & -> & Hj)%list_elem_of_fmap. apply elem_of_seq in Hj. rewrite Hvw. apply Hpg. unfold VLN_SLOT_SUM in *. lia. }
  rewrite (bind_run (release_slots q VN_PAGES release_nvm_page) _ _ _ _ R5). pose proof (deferred_trans _ _ _ _ _ D34 D5) as D45. pose proof D45 as (Q45 & _).
  destruct (release_deferred s5 VIRND_EXT v (is_world _ _ (iq_step _ _ Q45))) as (s6 & R6 & D6); [by vm_compute|done|].
  rewrite (bind_run (release_virindex_node v) _ _ _ _ R6). destruct (deferred_trans _ _ _ _ _ D45 D6) as (Q & D & P & B & C & _).
  eexists. split; [reflexivity|]. split.
  - eapply file_ok_quiet; [|exact Q]. eapply file_ok_words; [exact H|done|]. intros o Ho _. by rewrite W2, W1.
  - intros o Ho. rewrite (file_slot_quiet _ _ _ _ Q), F2, !F1 by done. destruct (o =? off); [by rewrite Z.eqb_refl|done].
  - intros c o Hc. rewrite (iq_view _ _ Q), V2, V1 by done. done.
  - pose proof (defers_trans _ _ _ _ _ (defers_rest _ _ (same_rest_trans _ _ _ E1 E2)) D) as DD. unfold node_blocks.
    assert (used_slots PAGE_EXT s4 v VN_PAGES (zseq 0 VLN_SLOT_SUM) = used_slots PAGE_EXT s v VN_PAGES (zseq 0 VLN_SLOT_SUM)) as Eu.
    { unfold used_slots. f_equal. apply flat_map_ext. intros i. by rewrite Hvw. }
    rewrite Eu, !app_nil_r in DD. exact DD.
  - by rewrite P, (sr_pmem _ _ E2), (sr_pmem _ _ E1).
  - by rewrite B, (sr_bmps _ _ E2), (sr_bmps _ _ E1).
  - by rewrite C, (sr_cur _ _ E2), (sr_cur _ _ E1).
Qed.

Lemma slot_look s t off v : file_slot s t off = (true, v) -> exists leaf, look t 0 off = Some leaf /\
  Z.testbit (idx_word s leaf ND_FLAG) (off mod 64) = true /\ idx_word s leaf (son_off (off mod 64)) = v.
Proof. unfold file_slot. destruct (look t 0 off) as [leaf|]; [|done]. intros [= ? ?]. by exists leaf. Qed.
Lemma change_virnd_spec s root inode t m off blk v : file_ok s root inode t m -> 0 <= inode -> 0 <= root -> 0 <= off < 2 ^ 42 -> is_s64 blk ->
  file_slot s t off = (true, v) -> vir_word s v ND_TYPE = VIR_LEAF_NODE -> pages_ok s v ->
  exists e s', change_virnd_to_ssdblk root inode off blk s = Some (e, s') /\
    ((e = 0 /\ changed s s' root inode t m off blk v) \/ (e <> 0 /\ iquiet s s' /\ same_rest s s')).
Proof.
  intros H Hi Hr Hoff Hb Hs Hty Hpg. destruct (slot_look s t off v Hs) as (leaf & E & Hbit & Hson). unfold change_virnd_to_ssdblk, with_root.
  change (Z.shiftl 1 KEY_LEN) with (2 ^ 42). replace ((off <? 0) || (2 ^ 42 <=? off)) with false by lia. assert (t <> IEmpty) as Hne by by intros ->.
  destruct (check_root_quiet s root inode t m H Hne Hi Hr) as (x & s1 & R1 & Q1 & E1 & Hx). rewrite (bind_run _ _ _ _ _ R1). destruct x as [p|].
  2:{ eexists _, _. split; [done|]. right. split; [|done]. by replace (k_errno s1 =? 0) with false by lia. }
  pose proof (file_ok_quiet _ _ _ _ _ _ H Q1) as H1. pose proof (fo_index _ _ _ _ _ H1) as I1. pose proof root_field as (F1 & F2 & _). unfold with_leaf.
  destruct (search_file s1 root t inode off I1 Hi Hoff) as (r & s2 & R2 & Q2 & Hr2).
  assert (get_leafnode_id p inode off s1 = Some (r, s2)) as Rg.
  { unfold get_leafnode_id. by rewrite (bind_run _ _ _ _ _ (ld_idx s1 root p ROOT_ENTRY (fi_world _ _ _ I1) Hx F1 F2)), (fi_entry _ _ _ I1). }
  rewrite (bind_run _ _ _ _ _ Rg). pose proof (proj1 (loads_search _ _ _ _ _ s1) _ _ R2) as E2. rewrite E in Hr2. cbn [default from_option] in Hr2.
  pose proof (iquiet_trans _ _ _ Q1 Q2) as Q12. pose proof (same_rest_trans _ _ _ E1 E2) as E12. pose proof (look_id _ _ _ _ _ I1 E) as Hlid.
  destruct Hr2 as [[-> _]|[-> _]]; [|eexists _, _; split; [done|]; by right]. change (id leaf) with leaf. replace (leaf =? -1) with false by lia.
  destruct (load_index_spec leaf s2 (is_world _ _ (iq_step _ _ Q2))) as (x & s3 & R3 & Q3 & Hy). rewrite (bind_run _ _ _ _ _ R3).
  pose proof (proj1 (loads_id_to_memaddr _ _ _ _ leaf s2) _ _ R3) as E3. pose proof (iquiet_trans _ _ _ Q12 Q3) as Q13. pose proof (same_rest_trans _ _ _ E12 E3) as E13.
  destruct x as [lp|]; [|eexists _, _; split; [done|]; by right]. destruct Hy as [Hlp _]. pose proof (is_world _ _ (iq_step _ _ Q3)) as W3. pose proof (mod64 off) as Hm.
  rewrite leaf_pos_mod by lia. rewrite (bind_run _ _ _ _ _ (son_type_spec s3 leaf lp _ W3 Hlp Hm)), (iq_words _ _ Q13), Hbit. cbn [negb Z.eqb VIR_LEAF_NODE Pos.eqb].
  destruct (son_field _ Hm) as [G1 G2]. rewrite (bind_run _ _ _ _ _ (ld_idx s3 leaf lp _ W3 Hlp G1 G2)), (iq_words _ _ Q13), Hson.
  destruct (load_unit_spec VIRND_CACHE v s3 virnd_ok W3) as (x & s4 & R4 & Q4 & Hz). rewrite (bind_run (virnodeid_to_memaddr v) _ _ _ _ R4).
  pose proof (proj1 (loads_id_to_memaddr _ _ _ _ v s3) _ _ R4) as E4. pose proof (iquiet_trans _ _ _ Q13 Q4) as Q. pose proof (same_rest_trans _ _ _ E13 E4) as ES.
  destruct x as [q|]; [|eexists _, _; split; [done|]; by right]. destruct Hz as [Hq _]. pose proof (is_world _ _ (iq_step _ _ Q4)) as W4.
  rewrite (bind_run _ _ _ _ _ (ld_vir s4 v q ND_TYPE W4 Hq ltac:(done) ltac:(done))), (vir_word_quiet _ _ _ _ Q), Hty. cbn [negb Z.eqb VIR_LEAF_NODE Pos.eqb].
  destruct (change_slot s4 root inode t m off blk leaf lp v q (file_ok_quiet _ _ _ _ _ _ H Q) E) as (s5 & R5 & C5);
    [by apply (is_points _ _ (iq_step _ _ Q4))|done|done|done| | |].
  { unfold points_to in Hq. by destruct Hq as ([? _] & _). }
  { intros i Hi8. rewrite !(vir_word_quiet _ _ _ _ Q). by apply Hpg. }
  rewrite R5. eexists _, _. split; [done|]. left. split; [done|]. destruct C5 as [C1 C2 C3 C4 C6 C7 C8]. split; [done| | | | | |].
  - intros o Ho. rewrite C2 by done. destruct (o =? off); [done|]. by rewrite (file_slot_quiet _ _ _ _ Q).
  - intros c o Hc. rewrite C3 by done. apply (iq_view _ _ Q).
  - pose proof (defers_trans _ _ _ _ _ (defers_rest _ _ ES) C4) as D. rewrite app_nil_r in D. unfold node_blocks in *.
    by rewrite (used_slots_quiet _ _ _ _ _ _ Q) in D.
  - by rewrite C6, (sr_pmem _ _ ES).
  - by rewrite C7, (sr_bmps _ _ ES).
  - by rewrite C8, (sr_cur _ _ ES).
Qed.
End programs.
