(* ===== verification/IndexPages.v ===== *)
(** * Appending NVM pages to a file (LibFS/index.c)

    The pages of a file sit in virtual nodes, eight to a block.  [append_nvm_pages]
    fills the node of the last block and goes on with new ones: the pages follow the
    last page of the file, and nothing else of the file changes. *)

From stdpp Require Import base tactics numbers list gmap.
From Stdlib Require Import ZArith Lia.
From S2P Require Import Prelude Bytes Layout Pmem DiskFormat Bitmap KernelFunc Frame Kfs MetaCache Txn LibSpace Index IndexWords IndexTree IndexInsert IndexMap IndexOps IndexChange.
Open Scope Z_scope.

(** ** The virtual nodes of a file *)

Definition vir_alloc (s : kfs) (v : Z) : bool := bits (k_bmps s VIRND_EXT) v.
(** The virtual node of block [o], how many pages it holds, and its page [i]. *)
Definition node_of (s : kfs) (t : itree) (o : Z) : option Z :=
  let '(virt, son) := file_slot s t o in if virt && negb (son =? EMPTY_BLKID) then Some son else None.
Definition count_at (s : kfs) (t : itree) (o : Z) : Z :=
  match node_of s t o with Some v => vir_word s v VN_MAX_POS | None => 0 end.
Definition page_at (s : kfs) (t : itree) (o i : Z) : Z :=
  match node_of s t o with Some v => vir_word s v (VN_PAGES + i * 8) | None => EMPTY_BLKID end.
Definition vfield (off : Z) : Prop := 0 <= off /\ off + 8 <= ORCH_VIRND_SIZE /\ off mod 8 = 0.

(** The virtual nodes of a file are allocated, one for each block. *)
Record paged (s : kfs) (t : itree) : Prop := {
  pg_bmp : bmp_wf (k_bmps s VIRND_EXT);
  pg_alloc : forall o v, 0 <= o < 2 ^ 42 -> node_of s t o = Some v -> vir_alloc s v = true;
  pg_inj : forall o o' v, 0 <= o < 2 ^ 42 -> 0 <= o' < 2 ^ 42 -> node_of s t o = Some v -> node_of s t o' = Some v -> o = o';
}.
(** Block [o] is the same before and after. *)
Definition same_block (s : kfs) (t : itree) (s' : kfs) (t' : itree) (o : Z) : Prop :=
  file_slot s' t' o = file_slot s t o /\ forall v w, node_of s t o = Some v -> vfield w -> vir_word s' v w = vir_word s v w.

Lemma page_field i : 0 <= i < 8 -> vfield (VN_PAGES + i * 8).
Proof.
  intros Hi. unfold vfield, VN_PAGES, ORCH_VIRND_SIZE. split; [lia|]. split; [lia|].
  replace (24 + i * 8) with ((3 + i) * 8) by lia. apply Z.mod_mul. lia.
Qed.
Lemma pos_field : vfield VN_MAX_POS.
Proof. by vm_compute. Qed.
Lemma type_field : vfield ND_TYPE.
Proof. by vm_compute. Qed.

Lemma same_node s t s' t' o : same_block s t s' t' o -> node_of s' t' o = node_of s t o.
Proof. intros [H _]. unfold node_of. by rewrite H. Qed.
Lemma same_page s t s' t' o i : same_block s t s' t' o -> 0 <= i < 8 -> page_at s' t' o i = page_at s t o i.
Proof.
  intros H Hi. unfold page_at. rewrite (same_node _ _ _ _ _ H). destruct (node_of s t o) as [v|] eqn:E; [|done].
  apply H; [done|by apply page_field].
Qed.
Lemma same_count s t s' t' o : same_block s t s' t' o -> count_at s' t' o = count_at s t o.
Proof.
  intros H. unfold count_at. rewrite (same_node _ _ _ _ _ H). destruct (node_of s t o) as [v|] eqn:E; [|done].
  apply H; [done|apply pos_field].
Qed.
Lemma same_block_trans s t s1 t1 s2 t2 o : same_block s t s1 t1 o -> same_block s1 t1 s2 t2 o -> same_block s t s2 t2 o.
Proof.
  intros H1 H2. pose proof (same_node _ _ _ _ _ H1) as N. destruct H1 as [A1 A2], H2 as [B1 B2]. split; [by rewrite B1|].
  intros v w Hv Hw. rewrite B2, A2 by (done || by rewrite N). done.
Qed.

(** ** Programs on index nodes leave virtual nodes alone *)

Record vkeeps (s s' : kfs) : Prop := {
  vk_view : forall o, cache_view s' VIRND_CACHE o = cache_view s VIRND_CACHE o;
  vk_points : forall v p, points_to s VIRND_CACHE v p -> points_to s' VIRND_CACHE v p;
  vk_bmp : k_bmps s' VIRND_EXT = k_bmps s VIRND_EXT;
}.
Lemma vkeeps_trans s1 s2 s3 : vkeeps s1 s2 -> vkeeps s2 s3 -> vkeeps s1 s3.
Proof. intros [A1 A2 A3] [B1 B2 B3]. split; [intros; by rewrite B1|auto|congruence]. Qed.
Lemma vkeeps_cache s s' : k_cache s' VIRND_CACHE = k_cache s VIRND_CACHE -> k_pmem s' = k_pmem s ->
  k_bmps s' VIRND_EXT = k_bmps s VIRND_EXT -> vkeeps s s'.
Proof. intros Hc Hp Hb. split; [intros o; unfold cache_view; by rewrite Hc, Hp|intros v p; unfold points_to; by rewrite Hc|done]. Qed.
Lemma vkeeps_word s s' v w : vkeeps s s' -> vir_word s' v w = vir_word s v w.
Proof.
  intros K. unfold vir_word. do 2 f_equal. apply nvm_read_ext. intros. apply (vk_view _ _ K).
Qed.
Lemma vkeeps_block s s' t t' o : vkeeps s s' -> file_slot s' t' o = file_slot s t o -> same_block s t s' t' o.
Proof. intros K H. split; [done|]. intros. by apply vkeeps_word. Qed.
Lemma vkeeps_paged s s' t t' : vkeeps s s' -> (forall o, 0 <= o < 2 ^ 42 -> file_slot s' t' o = file_slot s t o) -> paged s t -> paged s' t'.
Proof.
  intros K H [P1 P2 P3].
  assert (forall o, 0 <= o < 2 ^ 42 -> node_of s' t' o = node_of s t o) as N by (intros o Ho; unfold node_of; by rewrite H).
  split; [by rewrite (vk_bmp _ _ K)|intros o v Ho; unfold vir_alloc; rewrite N, (vk_bmp _ _ K) by done; by apply P2|].
  intros o o' v Ho Ho'. rewrite !N by done. by apply P3.
Qed.

(** A program that works on index nodes; [P] says of its result that the pointers in
    it are to index nodes. *)
Definition idx_prog {A} (P : A -> Prop) (c : M A) : Prop :=
  forall s x s', world s -> c s = Some (x, s') -> P x /\ world s' /\ vkeeps s s'.
Definition any {A} (_ : A) : Prop := True.
Definition idx_ptr (p : meta_ptr) : Prop := mp_cache p = IDXND_CACHE.
Definition opt_ptr (r : option meta_ptr) : Prop := match r with Some p => idx_ptr p | None => True end.
Definition sum_ptr (r : Z + Z * meta_ptr) : Prop := match r with inr (_, p) => idx_ptr p | inl _ => True end.

Lemma prog_ret {A} (P : A -> Prop) x : P x -> idx_prog P (mret x).
Proof. intros HP s y s' Hw [= <- <-]. split; [done|]. split; [done|by apply vkeeps_cache]. Qed.
Lemma prog_bind {A B} (P : A -> Prop) (Q : B -> Prop) (c : M A) (f : A -> M B) :
  idx_prog P c -> (forall x, P x -> idx_prog Q (f x)) -> idx_prog Q (c ≫= f).
Proof.
  intros Hc Hf s y s' Hw H. apply bind_some in H as (x & s1 & R1 & R2). destruct (Hc _ _ _ Hw R1) as (Px & W1 & K1).
  destruct (Hf x Px _ _ _ W1 R2) as (Qy & W2 & K2). split; [done|]. split; [done|by eapply vkeeps_trans].
Qed.
Lemma prog_gets {A} (f : kfs -> A) : idx_prog any (gets f).
Proof. intros s y s' Hw [= <- <-]. split; [done|]. split; [done|by apply vkeeps_cache]. Qed.
Lemma prog_errno e : idx_prog any (set_errno e).
Proof. intros s y s' Hw [= <- <-]. split; [done|]. split; [by eapply world_ext|by apply vkeeps_cache]. Qed.
Lemma prog_abort {A} (P : A -> Prop) : idx_prog P abort.
Proof. done. Qed.
Lemma prog_ld p off : idx_prog any (ld p off).
Proof. eapply prog_bind; [apply prog_gets|]. intros l _. by apply prog_ret. Qed.
Lemma prog_write p off src : idx_ptr p -> idx_prog any (mem_write p off src).
Proof.
  intros Hp s y s' [H1 H2 H3 H4] [= <- <-]. split; [done|]. unfold idx_ptr in Hp. split.
  - split; [|done..]. intros c Hc. specialize (H1 c Hc). unfold cache_std1 in *. cbn. unfold upd. by destruct (Z.eqb_spec c (mp_cache p)) as [->|].
  - apply vkeeps_cache; [|done..]. cbn. unfold upd. by rewrite Hp.
Qed.
Lemma prog_st p off v : idx_ptr p -> idx_prog any (st p off v).
Proof. apply prog_write. Qed.
