(* ===== verification/Journal.v ===== *)
(** * Write-ahead log (LibFS/lib_log.c)

    Checkpoint slots, construction of a transaction's frame, commit, abort and
    recovery. *)

From stdpp Require Import base tactics numbers list gmap.
From Stdlib Require Import ZArith Lia.
From S2P Require Import Prelude Bytes Crc32c Layout Pmem DiskFormat Bitmap KernelFunc Frame Kfs MetaCache Txn LibSpace.
Open Scope Z_scope.

(** ** Checkpoints *)

Definition cp_clear_checksum (c : orchfs_disk_checkpoint) : orchfs_disk_checkpoint :=
  mk_checkpoint (cp_generation c) (cp_durable_txid c) (cp_journal_tail c) 0 (cp_reserved c).
Definition checkpoint_checksum (c : orchfs_disk_checkpoint) : Z :=
  orchfs_crc32c (checkpoint_enc (cp_clear_checksum c)).
Definition valid_checkpoint (c : orchfs_disk_checkpoint) : bool :=
  negb (cp_generation c =? 0) && (cp_journal_tail c <=? ORCHFS_JOURNAL_BYTES) &&
  (cp_checksum c =? checkpoint_checksum c).

Definition read_superblock (m : pmem) : orch_super_blk :=
  super_blk_dec (nvm_read m ORCH_SUPER_BLK_SIZE OFFSET_SUPER_BLK).

Definition orchfs_log_validate_format (m : pmem) : Z :=
  let sb := read_superblock m in
  if negb (nth 0 (sb_magic_num sb) 0 =? ORCH_MAGIC_NUM) || negb (nth 1 (sb_magic_num sb) 0 =? ORCH_MAGIC_NUM) ||
     negb (nth 2 (sb_magic_num sb) 0 =? ORCH_MAGIC_NUM) then EINVAL
  else if negb (sb_format_version sb =? ORCHFS_DISK_FORMAT_VERSION) ||
          (Z.land (sb_feature_flags sb) ORCHFS_DISK_FEATURE_WAL =? 0) then EOPNOTSUPP
  else 0.

(** [None] is EIO. *)
Definition latest_checkpoint (sb : orch_super_blk) : option orchfs_disk_checkpoint :=
  let first := valid_checkpoint (sb_checkpoint0 sb) in
  let second := valid_checkpoint (sb_checkpoint1 sb) in
  if negb first && negb second then None
  else if negb second ||
          (first && (cp_generation (sb_checkpoint1 sb) <=? cp_generation (sb_checkpoint0 sb)))
       then Some (sb_checkpoint0 sb) else Some (sb_checkpoint1 sb).

(** [offsetof(orch_super_blk_t, checkpoints)]. *)
Definition CHECKPOINTS_OFFSET : Z := 304.

Definition new_checkpoint (generation durable_txid : Z) : orchfs_disk_checkpoint :=
  let c := mk_checkpoint generation durable_txid 0 0 0 in
  mk_checkpoint generation durable_txid 0 (checkpoint_checksum c) 0.
Definition checkpoint_offset (generation : Z) : Z :=
  OFFSET_SUPER_BLK + CHECKPOINTS_OFFSET + Z.land (u64 (generation - 1)) 1 * 32.

Definition journal_set_generation (g : Z) (j : journal_state) : journal_state :=
  mk_journal (next_txid j) g (initialized j).

Definition write_checkpoint (durable_txid : Z) : M Z :=
  j ← gets k_journal;
  if checkpoint_generation j =? UINT64_MAX then mret EOVERFLOW
  else
    let generation := checkpoint_generation j + 1 in
    dev_write (checkpoint_enc (new_checkpoint generation durable_txid)) (checkpoint_offset generation);;
    modify (fun s => set_k_journal (journal_set_generation generation (k_journal s)) s);;
    mret 0.

Definition clear_journal : M unit := dev_write (zeros 64) OFFSET_LOG.

Section journal.
Context `{Mo : MallocOracle}.

(** ** Building a frame *)

(** Error, or the memory and the device offset of a metadata range. *)
Definition metadata_location (type block offset length : Z) : M (Z + meta_ptr * Z) :=
  if (block <? 0) || (offset <? 0) || (length <? 0) then mret (inl EINVAL)
  else
    let locate base unit (get_mem : Z -> M (option meta_ptr)) :=
      block_memory ← get_mem block;
      match block_memory with
      | None => mret (inl EINVAL)
      | Some p =>
          if (unit <? offset) || (unit - offset <? length) then mret (inl EINVAL)
          else mret (inr (mk_ptr (mp_cache p) (mp_segment p) (mp_offset p + offset), base + block * unit + offset))
      end in
    if type =? INODE_OP then locate OFFSET_INODE ORCH_INODE_SIZE inodeid_to_memaddr
    else if type =? IDXND_OP then locate OFFSET_INDEX ORCH_IDX_SIZE indexid_to_memaddr
    else if type =? VIRND_OP then locate OFFSET_VIRND ORCH_VIRND_SIZE virnodeid_to_memaddr
    else mret (inl EINVAL).

Definition record_target (r : transaction_record) : M (Z + Z) :=
  if bool_decide (tr_kind r = RECORD_PMEM) then
    if (tr_block r <? 0) || (tr_length r <? 0) || (PMEM_LEN <? tr_block r) ||
       (PMEM_LEN - tr_block r <? tr_length r) then mret (inl EINVAL)
    else mret (inr (tr_block r))
  else
    loc ← metadata_location (tr_type r) (tr_block r) (tr_offset r) (tr_length r);
    match loc with
    | inl e => mret (inl e)
    | inr (_, target) => mret (inr target)
    end.

(** Sizes so far, or an error. *)
Definition add_frame_size (sizes : Z * Z) (data_bytes : Z) : Z + Z * Z :=
  let '(payload_bytes, record_count) := sizes in
  if UINT64_MAX - RECORD_HEADER_BYTES <? data_bytes then inl EOVERFLOW
  else
    let bytes := align_cacheline (RECORD_HEADER_BYTES + data_bytes) in
    if (ORCHFS_JOURNAL_BYTES <? bytes) || (ORCHFS_JOURNAL_BYTES - bytes <? payload_bytes) ||
       (record_count =? UINT32_MAX) then inl E2BIG
    else inr (payload_bytes + bytes, record_count + 1).

Definition is_data_record (r : transaction_record) : bool :=
  bool_decide (tr_kind r = RECORD_CHANGE) || bool_decide (tr_kind r = RECORD_PMEM).

(** First pass over the records: sizes. *)
Fixpoint size_records (recs : list transaction_record) (sizes : Z * Z) : M (Z + Z * Z) :=
  match recs with
  | [] => mret (inr sizes)
  | r :: recs' =>
      if negb (is_data_record r) then size_records recs' sizes
      else
        target ← record_target r;
        match target with
        | inl e => mret (inl e)
        | inr _ =>
            match add_frame_size sizes (u64 (tr_length r)) with
            | inl e => mret (inl e)
            | inr sizes' => size_records recs' sizes'
            end
        end
  end.

Fixpoint size_allocations (l : list allocation_record) (sizes : Z * Z) : Z + Z * Z :=
  match l with
  | [] => inr sizes
  | a :: l' =>
      if negb (valid_extent_block (al_type a) (al_block a)) then inl EINVAL
      else match add_frame_size sizes 0 with
           | inl e => inl e
           | inr sizes' => size_allocations l' sizes'
           end
  end.

(** Second pass: the records with their targets. *)
Fixpoint resolve_records (recs : list transaction_record) : M (Z + list jrec) :=
  match recs with
  | [] => mret (inr [])
  | r :: recs' =>
      if negb (is_data_record r) then resolve_records recs'
      else
        target ← record_target r;
        match target with
        | inl e => mret (inl e)
        | inr target =>
            rest ← resolve_records recs';
            match rest with
            | inl e => mret (inl e)
            | inr rest => mret (inr (JWrite (tr_type r) target (slice 0 (tr_length r) (tr_data r)) :: rest))
            end
        end
  end.

Definition allocation_recs (kind : Z) (l : list allocation_record) : list jrec :=
  map (fun a => JBit kind (al_type a) (al_block a)) l.

(** [build_frame]: error or frame. *)
Definition build_frame (t : orchfs_log_transaction) (txid : Z) : M (Z + list Z) :=
  sizes ← size_records (tx_records t) (0, 0);
  match sizes with
  | inl e => mret (inl e)
  | inr sizes =>
      match size_allocations (tx_allocations t ++ tx_deallocations t) sizes with
      | inl e => mret (inl e)
      | inr (payload_bytes, record_count) =>
          if ORCHFS_JOURNAL_BYTES - (FRAME_HEADER_BYTES + COMMIT_BYTES) <? payload_bytes then mret (inl E2BIG)
          else
            ok ← malloc;
            if negb ok then mret (inl ENOMEM)
            else
              recs ← resolve_records (tx_records t);
              match recs with
              | inl e => mret (inl e)
              | inr recs =>
                  let image := payload_image (recs ++ allocation_recs ORCHFS_JOURNAL_ALLOCATE (tx_allocations t)
                                 ++ allocation_recs ORCHFS_JOURNAL_FREE (tx_deallocations t)) in
                  let payload := image ++ zeros (payload_bytes - len image) in
                  mret (inr (frame_of txid record_count payload))
              end
      end
  end.

(** ** Commit and abort *)

Definition journal_advance (j : journal_state) : journal_state :=
  mk_journal (u64 (next_txid j + 1)) (checkpoint_generation j) (initialized j).

Definition call_apply_frame (recovering : bool) (frame : list Z) : M Z := fun s =>
  let '(e, m, arr) := apply_frame recovering frame (k_pmem s) (k_bmps s) in
  Some (e, set_k_bmps arr (set_k_pmem m s)).

Definition commit_one (t : orchfs_log_transaction) : M Z :=
  j ← gets k_journal;
  if negb (initialized j) then mret EIO
  else if orchfs_log_transaction_is_empty t then mret 0
  else if (next_txid j =? 0) || (next_txid j =? UINT64_MAX) || (checkpoint_generation j =? UINT64_MAX) then
    mret EOVERFLOW
  else
    built ← build_frame t (next_txid j);
    match built with
    | inl e => mret e
    | inr frame =>
        let frame_bytes := len frame in
        dev_write (slice 0 (frame_bytes - COMMIT_BYTES) frame) OFFSET_LOG;;
        dev_write (slice (frame_bytes - COMMIT_BYTES) COMMIT_BYTES frame) (OFFSET_LOG + frame_bytes - COMMIT_BYTES);;
        error ← call_apply_frame false frame;
        error ← (if error =? 0 then write_checkpoint (next_txid j) else mret error);
        (if error =? 0 then clear_journal;; modify (fun s => set_k_journal (journal_advance (k_journal s)) s)
         else mret tt);;
        mret error
    end.

(** [free_allocations] and [free_deallocations] with their lists applied. *)
Definition release_by_type (a : allocation_record) : M unit :=
  let type := al_type a in
  if type =? INODE_EXT then release_inode (al_block a)
  else if type =? IDXND_EXT then release_index_node (al_block a)
  else if type =? VIRND_EXT then release_virindex_node (al_block a)
  else if type =? BUFMETA_EXT then release_buffer_metadata (al_block a)
  else if type =? PAGE_EXT then release_nvm_page (al_block a)
  else if type =? BLOCK_EXT then release_ssd_block (al_block a)
  else mret tt.
Definition free_allocations (t : orchfs_log_transaction) (release : bool) : M unit :=
  if release then mforeach release_by_type (tx_allocations t) else mret tt.
Definition free_deallocations (t : orchfs_log_transaction) (apply : bool) : M unit :=
  if apply then mforeach release_by_type (tx_deallocations t) else mret tt.

(** Reload from the media what a CHANGE record modified in memory. *)
Definition reload_record (r : transaction_record) : M unit :=
  if negb (bool_decide (tr_kind r = RECORD_CHANGE)) then mret tt
  else
    loc ← metadata_location (tr_type r) (tr_block r) (tr_offset r) (tr_length r);
    match loc with
    | inl _ => mret tt
    | inr (memory, offset) =>
        data ← dev_read (tr_length r) offset;
        mem_write memory 0 data
    end.

Definition orchfs_log_transaction_abort (transaction : Z) : M unit :=
  modify (fun s => if bool_decide (k_cur s = Some transaction) then set_k_cur None s else s);;
  t ← get_txn transaction;
  mforeach reload_record (tx_records t);;
  free_allocations t true;;
  free_deallocations t false;;
  free_txn transaction.

(** One transaction of [orchfs_log_transaction_commit_group]. *)
Definition commit_member (transaction : Z) : M Z :=
  t ← get_txn transaction;
  error ← (if negb (tx_error t =? 0) then mret (tx_error t) else commit_one t);
  if negb (error =? 0) then (orchfs_log_transaction_abort transaction;; mret error)
  else
    t ← get_txn transaction;
    free_allocations t false;;
    free_deallocations t true;;
    free_txn transaction;;
    mret 0.

Fixpoint commit_members (transactions : list Z) : M (list Z) :=
  match transactions with
  | [] => mret []
  | h :: hs => e ← commit_member h; es ← commit_members hs; mret (e :: es)
  end.

(** Return code and the [errors] array. *)
Definition orchfs_log_transaction_commit_group (transactions : list Z) : M (Z * list Z) :=
  cur ← gets k_cur;
  if existsb (fun h => bool_decide (cur = Some h)) transactions then mret (EINVAL, [])
  else es ← commit_members transactions; mret (0, es).

Definition orchfs_log_transaction_commit (transaction : Z) : M Z :=
  '(error, errors) ← orchfs_log_transaction_commit_group [transaction];
  mret (if negb (error =? 0) then error else nth 0 errors 0).

(** ** Recovery *)

(** One iteration of the scan; [Stop (inl _)] returns an error, [Stop (inr _)] is a
    [break]. *)
Definition recover_step (st : kfs * Z * Z) : ctl (kfs * Z * Z) (Z * kfs + kfs * Z) :=
  let '(s, cursor, durable_txid) := st in
  if ORCHFS_JOURNAL_BYTES <? cursor + FRAME_HEADER_BYTES then Stop (inr (s, durable_txid))
  else
    let header := frame_header_dec (nvm_read (k_pmem s) FRAME_HEADER_BYTES (OFFSET_LOG + cursor)) in
    let frame_bytes := fh_frame_bytes header in
    if negb (fh_magic header =? ORCHFS_JOURNAL_MAGIC) || (frame_bytes <? FRAME_HEADER_BYTES + COMMIT_BYTES) ||
       negb (Z.land frame_bytes 63 =? 0) || (ORCHFS_JOURNAL_BYTES - cursor <? frame_bytes)
    then Stop (inr (s, durable_txid))
    else match malloc s with
    | None => Stop (inl (ENOMEM, s))
    | Some (false, s) => Stop (inl (ENOMEM, s))
    | Some (true, s) =>
        let frame := nvm_read (k_pmem s) frame_bytes (OFFSET_LOG + cursor) in
        if negb (validate_frame frame frame_bytes =? 0) then Stop (inr (s, durable_txid))
        else
          let '(error, m, arr) := apply_frame true frame (k_pmem s) (k_bmps s) in
          let s := set_k_bmps arr (set_k_pmem m s) in
          if negb (error =? 0) then Stop (inl (error, s))
          else Next (s, cursor + frame_bytes, if durable_txid <? fh_txid header then fh_txid header else durable_txid)
    end.

(** Frames are at least 128 bytes, so 2^20 iterations exceed any journal. *)
Definition RECOVER_FUEL : Z := 2 ^ 20.

Definition orchfs_log_recover : M Z :=
  m ← gets k_pmem;
  let error := orchfs_log_validate_format m in
  if negb (error =? 0) then mret error
  else match latest_checkpoint (read_superblock m) with
  | None => mret EIO
  | Some checkpoint =>
      modify (fun s => set_k_journal (journal_set_generation (cp_generation checkpoint) (k_journal s)) s);;
      s ← get;
      match loopZ RECOVER_FUEL recover_step (s, 0, cp_durable_txid checkpoint) with
      | Next _ => abort
      | Stop (inl (error, s)) => (fun _ => Some (error, s))
      | Stop (inr (s, durable_txid)) => fun _ =>
          (modify (fun s => set_k_bmps (orchfs_bitmap_recompute_counts (k_bmps s)) s);;
           error ← write_checkpoint durable_txid;
           if negb (error =? 0) then mret error
           else
             clear_journal;;
             if durable_txid =? UINT64_MAX then mret EOVERFLOW
             else
               modify (fun s => set_k_journal
                 (mk_journal (durable_txid + 1) (checkpoint_generation (k_journal s)) true) s);;
               mret 0) s
      end
  end.

Definition init_mem_log : M Z :=
  j ← gets k_journal;
  if initialized j then mret 0 else orchfs_log_recover.
Definition free_mem_log : M unit :=
  modify (fun s => set_k_journal (mk_journal (next_txid (k_journal s)) (checkpoint_generation (k_journal s)) false) s).
Definition orchfs_log_sync : M Z :=
  j ← gets k_journal; mret (if initialized j then 0 else EIO).

(** ** Locations of records *)

(** A resolved metadata range: the operation codes are the cache ids. *)
Definition located (s : kfs) (type block offset length : Z) (p : meta_ptr) (target : Z) : Prop :=
  cache_id_ok type /\ 0 <= offset /\ 0 <= length /\
  let '(_, unit, _) := cache_geometry type in
  offset + length <= unit /\ target = cache_base type + block * unit + offset /\
  exists q, points_to s type block q /\ p = mk_ptr (mp_cache q) (mp_segment q) (mp_offset q + offset).

Lemma metadata_location_spec type block offset length s : cache_std s ->
  exists r s', metadata_location type block offset length s = Some (r, s') /\ cache_grows s s' /\
    match r with inl e => e = EINVAL | inr (p, target) => located s' type block offset length p target end.
Proof.
  intros Hs. unfold metadata_location.
  destruct ((block <? 0) || (offset <? 0) || (length <? 0)) eqn:Hneg.
  { eexists _, _. split; [done|]. split; [apply cache_grows_refl|done]. }
  assert (forall ty base unit max ext, cache_id_ok ty -> cache_geometry ty = (ext, unit, max) ->
    base = cache_base ty -> exists r s',
    (block_memory ← id_to_memaddr ty max ext unit block;
      match block_memory with
      | None => mret (inl EINVAL)
      | Some p =>
          if (unit <? offset) || (unit - offset <? length) then mret (inl EINVAL)
          else mret (inr (mk_ptr (mp_cache p) (mp_segment p) (mp_offset p + offset), base + block * unit + offset))
      end) s = Some (r, s') /\ cache_grows s s' /\
    match r with inl e => e = EINVAL | inr (p, target) => located s' ty block offset length p target end) as Hgen.
  { intros ty base unit max ext Hty Hgeo ->.
    pose proof (id_to_memaddr_spec ty block s Hty Hs) as Hid. rewrite Hgeo in Hid.
    destruct Hid as (r & s' & Hrun & Hg & Hr). rewrite (bind_run _ _ _ _ _ Hrun).
    destruct r as [q|]; [|eexists _, _; split; [done|]; by split].
    destruct ((unit <? offset) || (unit - offset <? length)) eqn:Hu; eexists _, _; (split; [done|]); [by split|].
    split; [done|]. unfold located. rewrite Hgeo. split_and!; [done|lia|lia|lia|done|]. by exists q. }
  assert (cache_id_ok 0 /\ cache_id_ok 1 /\ cache_id_ok 2) as (H0 & H1 & H2)
    by (unfold cache_id_ok, INODE_CACHE, VIRND_CACHE; lia).
  destruct (Z.eqb_spec type INODE_OP) as [->|]; [by apply (Hgen INODE_OP)|].
  destruct (Z.eqb_spec type IDXND_OP) as [->|]; [by apply (Hgen IDXND_OP)|].
  destruct (Z.eqb_spec type VIRND_OP) as [->|]; [by apply (Hgen VIRND_OP)|].
  eexists _, _. split; [done|]. split; [apply cache_grows_refl|done].
Qed.

(** Bounds of the metadata areas on the media. *)
Lemma metadata_area_bounds type block : cache_id_ok type ->
  let '(_, unit, max) := cache_geometry type in
  0 <= block < max -> OFFSET_INODE <= cache_base type + block * unit /\
    cache_base type + block * unit + unit <= PMEM_LEN.
Proof.
  unfold cache_id_ok, INODE_CACHE, VIRND_CACHE. intros H.
  change OFFSET_INODE with 1073741824. change PMEM_LEN with 126701535232.
  assert (type = 0 \/ type = 1 \/ type = 2) as [-> | [-> | ->]] by lia.
  - change (cache_geometry 0) with (128, 512, 2097152). change (cache_base 0) with 1073741824. cbv beta iota. lia.
  - change (cache_geometry 1) with (256, 1024, 3145728). change (cache_base 1) with 2147483648. cbv beta iota. lia.
  - change (cache_geometry 2) with (128, 256, 8388608). change (cache_base 2) with 5368709120. cbv beta iota. lia.
Qed.

(** What [add_record] puts into a transaction. *)
Definition record_wf (r : transaction_record) : Prop :=
  is_s32 (tr_type r) /\ 0 <= tr_block r < 2 ^ 63 /\ 0 <= tr_offset r /\ 0 <= tr_length r < 2 ^ 31 /\
  len (tr_data r) = tr_length r /\ bytes_ok (tr_data r).

(** Where a record goes on the media. *)
Definition record_addr (r : transaction_record) : Z :=
  if bool_decide (tr_kind r = RECORD_PMEM) then tr_block r
  else let '(_, unit, _) := cache_geometry (tr_type r) in cache_base (tr_type r) + tr_block r * unit + tr_offset r.
Definition record_write (r : transaction_record) : jrec := JWrite (tr_type r) (record_addr r) (tr_data r).

Lemma record_target_spec r s : cache_std s -> record_wf r ->
  exists x s', record_target r s = Some (x, s') /\ cache_grows s s' /\
    match x with inl e => e = EINVAL | inr target => target = record_addr r /\ jrec_ok (record_write r) end.
Proof.
  intros Hs (H1 & H2 & H3 & H4 & H5 & H6). unfold record_target, record_write, record_addr.
  case_bool_decide.
  - destruct ((tr_block r <? 0) || _ || _ || _) eqn:Hb; eexists _, _; (split; [done|]);
      (split; [apply cache_grows_refl|]); [done|]. cbn. split_and!; [done|done|lia|lia|lia|done].
  - destruct (metadata_location_spec (tr_type r) (tr_block r) (tr_offset r) (tr_length r) s Hs)
      as (x & s' & Hrun & Hg & Hx). rewrite (bind_run _ _ _ _ _ Hrun).
    destruct x as [e|[p target]]; eexists _, _; (split; [done|]); (split; [done|]); [done|].
    destruct Hx as (Hc & Ho & Hl & Hx). pose proof (metadata_area_bounds _ (tr_block r) Hc) as Hb.
    destruct (cache_geometry (tr_type r)) as [[e u] max] eqn:Hgeo.
    destruct Hx as (Hu & -> & q & Hq & _). unfold points_to in Hq. rewrite Hgeo in Hq.
    specialize (Hb (proj1 Hq)). assert (0 <= OFFSET_INODE) by (vm_compute; congruence).
    cbn. split_and!; [done|done|lia|lia|lia|done].
Qed.

(** ** Sizes *)

Fixpoint sum_bytes (lens : list Z) : Z :=
  match lens with [] => 0 | l :: ls => align_cacheline (RECORD_HEADER_BYTES + l) + sum_bytes ls end.

Lemma sum_bytes_app l1 l2 : sum_bytes (l1 ++ l2) = sum_bytes l1 + sum_bytes l2.
Proof. induction l1; cbn; lia. Qed.

Lemma payload_sum recs : Forall jrec_ok recs ->
  len (payload_image recs) = sum_bytes (map (fun r => len (jrec_data r)) recs).
Proof.
  induction 1 as [|r recs Hr _ IH]; [done|]. cbn [payload_image map sum_bytes].
  rewrite len_app, jrec_image_len, IH by done. done.
Qed.

Lemma add_frame_size_spec p c n p' c' : add_frame_size (p, c) n = inr (p', c') -> 0 <= n ->
  p' = p + align_cacheline (RECORD_HEADER_BYTES + n) /\ c' = c + 1.
Proof.
  unfold add_frame_size. intros H Hn. destruct (_ <? n); [done|]. destruct (_ || _); [done|].
  by injection H as <- <-.
Qed.

Lemma add_frame_size_error sizes n e : add_frame_size sizes n = inl e -> e <> 0.
Proof.
  unfold add_frame_size. destruct sizes as [p c]. intros H. destruct (_ <? n); [by injection H as <-|].
  destruct (_ || _); [by injection H as <-|done].
Qed.

Lemma size_records_spec recs p c s : cache_std s -> Forall record_wf recs ->
  exists x s', size_records recs (p, c) s = Some (x, s') /\ cache_grows s s' /\
    match x with
    | inl e => e <> 0
    | inr (p', c') => p' = p + sum_bytes (map tr_length (List.filter is_data_record recs)) /\
        c' = c + Z.of_nat (length (List.filter is_data_record recs))
    end.
Proof.
  revert p c s. induction recs as [|r recs IH]; intros p c s Hs Hwf.
  { eexists _, _. split; [done|]. split; [apply cache_grows_refl|]. cbn. lia. }
  apply Forall_cons in Hwf as [Hr Hwf]. cbn [size_records List.filter].
  destruct (is_data_record r); cbn [negb]; [|by apply IH].
  destruct (record_target_spec r s Hs Hr) as (x & s1 & Hrun & Hg & Hx). rewrite (bind_run _ _ _ _ _ Hrun).
  destruct x as [e|target]; [subst e; by eexists _, _|].
  destruct Hr as (_ & _ & _ & Hl & _). rewrite u64_small by lia.
  destruct (add_frame_size (p, c) (tr_length r)) as [e|[p1 c1]] eqn:Ha;
    [apply add_frame_size_error in Ha; by eexists _, _|].
  apply add_frame_size_spec in Ha as [-> ->]; [|lia].
  destruct (IH (p + align_cacheline (RECORD_HEADER_BYTES + tr_length r)) (c + 1) s1 (cache_grows_std _ _ Hg Hs) Hwf)
    as (x & s2 & Hrun2 & Hg2 & Hx2).
  eexists _, _. split; [done|]. split; [by eapply cache_grows_trans|].
  destruct x as [|[p' c']]; [done|]. cbn [map sum_bytes length]. lia.
Qed.

Lemma size_allocations_error l sizes e : size_allocations l sizes = inl e -> e <> 0.
Proof.
  revert sizes. induction l as [|a l IH]; intros sizes H; cbn [size_allocations] in H; [done|].
  destruct (negb _); [by injection H as <-|].
  destruct (add_frame_size sizes 0) eqn:Ha; [injection H as <-; by eapply add_frame_size_error|by eapply IH].
Qed.

Lemma size_allocations_spec l p c p' c' : size_allocations l (p, c) = inr (p', c') ->
  p' = p + sum_bytes (map (fun _ => 0) l) /\ c' = c + Z.of_nat (length l) /\
  Forall (fun a => valid_extent_block (al_type a) (al_block a) = true) l.
Proof.
  revert p c. induction l as [|a l IH]; intros p c H; cbn [size_allocations] in H.
  { injection H as <- <-. cbn. split_and!; [lia|lia|done]. }
  destruct (valid_extent_block _ _) eqn:Hv; [|done]. cbn [negb] in H.
  destruct (add_frame_size (p, c) 0) as [e|[p1 c1]] eqn:Ha; [done|].
  apply add_frame_size_spec in Ha as [-> ->]; [|lia].
  apply IH in H as (-> & -> & Hf). cbn [map sum_bytes length]. split_and!; [lia|lia|by constructor].
Qed.

Definition record_writes (recs : list transaction_record) : list jrec :=
  map record_write (List.filter is_data_record recs).

Lemma resolve_records_spec recs s : cache_std s -> Forall record_wf recs ->
  exists x s', resolve_records recs s = Some (x, s') /\ cache_grows s s' /\
    match x with
    | inl e => e <> 0
    | inr js => Forall jrec_ok js /\ js = record_writes recs
    end.
Proof.
  revert s. induction recs as [|r recs IH]; intros s Hs Hwf.
  { eexists _, _. split; [done|]. split; [apply cache_grows_refl|]. by cbn. }
  apply Forall_cons in Hwf as [Hr Hwf]. unfold record_writes. cbn [resolve_records List.filter].
  destruct (is_data_record r); cbn [negb]; [|by apply IH].
  destruct (record_target_spec r s Hs Hr) as (x & s1 & Hrun & Hg & Hx). rewrite (bind_run _ _ _ _ _ Hrun).
  destruct x as [e|target]; [subst e; by eexists _, _|].
  destruct (IH s1 (cache_grows_std _ _ Hg Hs) Hwf) as (y & s2 & Hrun2 & Hg2 & Hy).
  rewrite (bind_run _ _ _ _ _ Hrun2).
  pose proof (cache_grows_trans _ _ _ Hg Hg2).
  destruct y as [e|js]; [by eexists _, _|]. eexists _, _. split; [done|]. split; [done|].
  destruct Hr as (_ & _ & _ & _ & Hl & _). rewrite slice_all by done. destruct Hx as [-> Hx].
  destruct Hy as [Hok ->]. split; [by constructor|done].
Qed.

(** Well-formed transactions. *)
Definition allocation_wf (a : allocation_record) : Prop := MIN_EXT_ID <= al_type a <= MAX_EXT_ID.
Definition txn_wf (t : orchfs_log_transaction) : Prop :=
  Forall record_wf (tx_records t) /\ Forall allocation_wf (tx_allocations t) /\
  Forall allocation_wf (tx_deallocations t).

Definition bit_recs (t : orchfs_log_transaction) : list jrec :=
  allocation_recs ORCHFS_JOURNAL_ALLOCATE (tx_allocations t) ++
  allocation_recs ORCHFS_JOURNAL_FREE (tx_deallocations t).

(** What a transaction writes to the media. *)
Definition txn_recs (t : orchfs_log_transaction) : list jrec := record_writes (tx_records t) ++ bit_recs t.

Lemma record_writes_lens recs : Forall record_wf recs ->
  map (fun r => len (jrec_data r)) (record_writes recs) = map tr_length (List.filter is_data_record recs).
Proof.
  unfold record_writes. rewrite map_map. induction 1 as [|r recs (_ & _ & _ & _ & Hl & _) _ IH]; [done|]. cbn [List.filter].
  destruct (is_data_record r); [|done]. cbn [map]. rewrite IH. unfold record_write. cbn [jrec_data]. by rewrite Hl.
Qed.

Lemma allocation_recs_ok kind l :
  kind = ORCHFS_JOURNAL_ALLOCATE \/ kind = ORCHFS_JOURNAL_FREE -> Forall allocation_wf l ->
  Forall (fun a => valid_extent_block (al_type a) (al_block a) = true) l ->
  Forall jrec_ok (allocation_recs kind l).
Proof.
  intros Hk Hwf Hv. unfold allocation_recs. apply Forall_map, Forall_forall. intros a Ha.
  rewrite Forall_forall in Hwf, Hv. cbn. split_and!; [done|by apply Hwf|by apply Hwf|by apply Hv].
Qed.

(** A frame that [build_frame] returns is the image of its resolved records, which
    fit the journal. *)
Lemma build_frame_spec t txid s : cache_std s -> txn_wf t ->
  exists x s', build_frame t txid s = Some (x, s') /\ cache_grows s s' /\
    match x with
    | inl e => e <> 0
    | inr frame => frame = frame_image txid (txn_recs t) /\ frame_fits (txn_recs t)
    end.
Proof.
  intros Hs (Hw1 & Hw2 & Hw3). unfold build_frame.
  destruct (size_records_spec (tx_records t) 0 0 s Hs Hw1) as (x & s1 & Hrun1 & Hg1 & Hx1).
  rewrite (bind_run _ _ _ _ _ Hrun1). destruct x as [e|[p1 c1]]; [by eexists _, _|].
  destruct (size_allocations _ (p1, c1)) as [e|[p2 c2]] eqn:Ha.
  { apply size_allocations_error in Ha. by eexists _, _. }
  apply size_allocations_spec in Ha as (Hp2 & Hc2 & Hv). apply Forall_app in Hv as [Hv1 Hv2].
  destruct (Z.ltb_spec (ORCHFS_JOURNAL_BYTES - (FRAME_HEADER_BYTES + COMMIT_BYTES)) p2) as [|Hfit];
    [by eexists _, _|].
  rewrite (bind_run _ _ _ _ _ (eq_refl : malloc s1 = Some (malloc_ok (k_clock s1), _))).
  pose proof (cache_grows_trans _ _ _ Hg1 (cache_grows_clock s1 (k_clock s1 + 1))) as Hg1'.
  destruct (malloc_ok (k_clock s1)); cbn [negb]; [|by eexists _, _].
  destruct (resolve_records_spec (tx_records t) (set_k_clock (k_clock s1 + 1) s1)
    (cache_grows_std _ _ Hg1' Hs) Hw1) as (y & s2 & Hrun2 & Hg2 & Hy).
  pose proof (cache_grows_trans _ _ _ Hg1' Hg2). rewrite (bind_run _ _ _ _ _ Hrun2).
  destruct y as [e|js]; [by eexists _, _|]. destruct Hy as [Hok ->]. pose proof (record_writes_lens _ Hw1) as Hlens.
  eexists _, _. split; [done|]. split; [done|]. fold (bit_recs t). unfold txn_recs.
  set (js := record_writes (tx_records t)) in *.
  assert (Forall jrec_ok (js ++ bit_recs t)) as Hall.
  { unfold bit_recs. rewrite !Forall_app. split_and!; [done|..].
    - apply allocation_recs_ok; [by left|done|done].
    - apply allocation_recs_ok; [by right|done|done]. }
  assert (len (payload_image (js ++ bit_recs t)) = p2) as Hp.
  { rewrite payload_sum, map_app, sum_bytes_app, Hlens by done. destruct Hx1 as [-> _]. subst p2.
    unfold bit_recs, allocation_recs. rewrite !map_app, !map_map. cbn [jrec_data].
    change (len []) with 0. lia. }
  assert (Z.of_nat (length (js ++ bit_recs t)) = c2) as Hc.
  { destruct Hx1 as [_ Hc1]. unfold bit_recs, allocation_recs. rewrite !length_app, !length_map.
    apply (f_equal length) in Hlens. rewrite !length_map in Hlens. rewrite Hlens, Hc2, Hc1, length_app. lia. }
  split; [|split; [done|lia]]. rewrite Hp, Z.sub_diag. change (zeros 0) with (@nil Z).
  by rewrite app_nil_r, <-Hc.
Qed.
End journal.
