(* ===== verification/Migration.v ===== *)
(** * Migration of file blocks to the SSD (LibFS/migrate.c)

    Candidates are queued by writers and taken by worker 0 (KernelFS/async_server_bridge.cpp);
    a block whose eight pages are all in persistent memory is copied to a new SSD block
    and its slot in the file index changed (KfsCoroutineCore::migrate). *)

From stdpp Require Import base tactics numbers list gmap.
From Stdlib Require Import ZArith Lia.
From S2P Require Import Prelude Bytes Layout Pmem DiskFormat Bitmap KernelFunc Frame Kfs MetaCache Txn LibSpace Index IndexWords IndexTree IndexInsert IndexMap IndexOps IndexChange Journal.
Open Scope Z_scope.

Definition ECANCELED : Z := 125.
Definition MIGRATE_PERCENTAGE : Z := 10.
Definition CAN_USE_PERCENTAGE : Z := 10.
Definition DEFAULT_MIGRATE_NUM : Z := 1024.

(** ** The queue of candidates *)

Record LRU_node_info_t := mk_node_info { ino_id : Z; lru_offset : Z; nvm_page_addr : list Z }.
Record candidates := mk_candidates { migration_inbox : list LRU_node_info_t; migration_local : list LRU_node_info_t }.
Definition kMigrationPageCount : Z := ORCH_BLOCK_SIZE / ORCH_PAGE_SIZE.

(** The inbox is a stack of the producers; the consumer turns it round. *)
Fixpoint drain_stack (stack local : list LRU_node_info_t) : list LRU_node_info_t :=
  match stack with [] => local | node :: next => drain_stack next (node :: local) end.
Definition drain_migration_inbox (q : candidates) : candidates := mk_candidates [] (drain_stack (migration_inbox q) (migration_local q)).
Definition take_migration_candidate (q : candidates) : option LRU_node_info_t * candidates :=
  let q := match migration_local q with [] => drain_migration_inbox q | _ => q end in
  match migration_local q with
  | [] => (None, q)
  | node :: rest => (Some node, mk_candidates (migration_inbox q) rest)
  end.
Definition migration_candidates_pending (q : candidates) : bool :=
  match migration_local q with [] => match migration_inbox q with [] => false | _ => true end | _ => true end.
(** [memory]: whether the node can be allocated. *)
Definition enqueue_candidate (memory : bool) (node : LRU_node_info_t) (q : candidates) : Z * candidates :=
  if negb (len (nvm_page_addr node) =? kMigrationPageCount) then (EINVAL, q)
  else if negb memory then (ENOMEM, q)
  else (0, mk_candidates (node :: migration_inbox q) (migration_local q)).

(** The queue as a client sees it, the next candidate first. *)
Definition queued (q : candidates) : list LRU_node_info_t := migration_local q ++ rev (migration_inbox q).
Lemma drain_stack_rev stack : forall local, drain_stack stack local = rev stack ++ local.
Proof. induction stack as [|x stack IH]; intros local; cbn; [done|]. rewrite IH, <-app_assoc. done. Qed.
Lemma queued_drain q : migration_local q = [] -> queued (drain_migration_inbox q) = queued q.
Proof. intros E. unfold queued. cbn. rewrite E, drain_stack_rev. by rewrite !app_nil_r. Qed.
(** The two lists are one first-in first-out queue. *)
Lemma take_candidate_queue q : (take_migration_candidate q).1 = head (queued q) /\ queued (take_migration_candidate q).2 = tail (queued q).
Proof.
  unfold take_migration_candidate. destruct (migration_local q) as [|x rest] eqn:E.
  - pose proof (queued_drain q E) as Hq. destruct (migration_local (drain_migration_inbox q)) as [|y rest] eqn:E'; rewrite <-Hq; unfold queued; cbn [fst snd migration_local migration_inbox]; rewrite E'; done.
  - rewrite E. unfold queued. by rewrite E.
Qed.
Lemma enqueue_candidate_queue memory node q : let r := enqueue_candidate memory node q in
  (r.1 = 0 -> queued r.2 = queued q ++ [node]) /\ (r.1 <> 0 -> r.2 = q).
Proof.
  unfold enqueue_candidate. destruct (negb _); [by split|]. destruct memory; cbn; [|by split]. split; [|done]. intros _. unfold queued. cbn. by rewrite app_assoc.
Qed.
Lemma candidates_pending_queue q : migration_candidates_pending q = negb (bool_decide (queued q = [])).
Proof.
  unfold migration_candidates_pending, queued. destruct (migration_local q); cbn; [|done]. destruct (migration_inbox q) as [|x l]; [done|]. cbn.
  rewrite bool_decide_false; [done|]. intros E%app_eq_nil. by destruct E.
Qed.

(** ** State and plans *)

Record migrate_info_t := mk_migrate_info { nvm_page_used : Z; mig_threshold : Z; all_mig_blk : Z; max_page_use : Z }.
Definition initial_info : migrate_info_t := mk_migrate_info 0 (MAX_PAGE_NUM / 100 * CAN_USE_PERCENTAGE / 100 * MIGRATE_PERCENTAGE) 0 0.
(** Metadata and persistent memory, the SSD by device offset, the candidates and the statistics. *)
Record mig := mk_mig { mi_kfs : kfs; mi_ssd : Z -> Z; mi_queue : candidates; mi_info : migrate_info_t }.
Definition MG (A : Type) : Type := mig -> option (A * mig).
#[export] Instance MG_ret : MRet MG := fun A x s => Some (x, s).
#[export] Instance MG_bind : MBind MG := fun A B f c s => match c s with Some (x, s') => f x s' | None => None end.
Definition lift {A} (c : M A) : MG A := fun s =>
  match c (mi_kfs s) with Some (x, k) => Some (x, mk_mig k (mi_ssd s) (mi_queue s) (mi_info s)) | None => None end.
Definition set_queue (q : candidates) : MG unit := fun s => Some (tt, mk_mig (mi_kfs s) (mi_ssd s) q (mi_info s)).
Definition set_info (f : migrate_info_t -> migrate_info_t) : MG unit := fun s => Some (tt, mk_mig (mi_kfs s) (mi_ssd s) (mi_queue s) (f (mi_info s))).
Definition get_mig {A} (f : mig -> A) : MG A := fun s => Some (f s, s).

Record orchfs_migration_plan := mk_plan {
  pl_node : LRU_node_info_t;
  pl_root_id : Z;
  new_ssd_block_id : Z;
  pl_device_offset : Z;
  block_data : list Z;
  pl_prepared : bool;
  requeue_on_error : bool;
}.
Definition new_plan (node : LRU_node_info_t) : orchfs_migration_plan := mk_plan node 0 (-1) 0 [] false true.
(** In-memory inode fields. *)
Definition INODE_NUMBER : Z := 0.
Definition INODE_IDXROOT : Z := 16.

Section migrate.
Context `{Mo : MallocOracle}.

Definition requeue (node : LRU_node_info_t) : MG unit :=
  ok ← lift malloc;
  q ← get_mig mi_queue;
  set_queue (enqueue_candidate ok node q).2.

(** [migration_initialized] holds. *)
Definition orchfs_prepare_migration : MG (Z * orchfs_migration_plan) :=
  ok ← lift malloc;
  if negb ok then mret (ENOMEM, new_plan (mk_node_info 0 0 []))
  else
    q ← get_mig mi_queue;
    match take_migration_candidate q with
    | (None, q) => set_queue q;; mret (EAGAIN, new_plan (mk_node_info 0 0 []))
    | (Some node, q) => set_queue q;; mret (0, new_plan node)
    end.

Definition orchfs_migration_file_offset (plan : orchfs_migration_plan) : Z :=
  if 0 <=? lru_offset (pl_node plan) then u64 (Z.shiftl (lru_offset (pl_node plan)) ORCH_BLOCK_BW) else 0.

Definition orchfs_prepare_migration_io (plan : orchfs_migration_plan) : M (Z * orchfs_migration_plan) :=
  if pl_prepared plan then mret (EINVAL, plan)
  else
    let node := pl_node plan in
    r ← inodeid_to_memaddr (ino_id node);
    match r with
    | None => mret (ESTALE, plan)
    | Some inode =>
        number ← ld inode INODE_NUMBER;
        if negb (number =? ino_id node) then mret (ESTALE, plan)
        else
          root_id ← ld inode INODE_IDXROOT;
          current ← query_offset_info root_id (ino_id node) (lru_offset node);
          if negb (oi_ndtype current =? VIR_LEAF_NODE) || negb (bool_decide (oi_nvm_page_id current = nvm_page_addr node)) then
            mret (ESTALE, mk_plan node root_id (-1) 0 [] false false)
          else
            ok ← malloc;
            if negb ok then mret (ENOMEM, mk_plan node root_id (-1) 0 [] false (requeue_on_error plan))
            else
              pages ← gets (fun s => mjoin (map (nvm_read (k_pmem s) ORCH_PAGE_SIZE) (nvm_page_addr node)));
              new_block ← require_ssd_block_id;
              if new_block <? 0 then mret (ENOSPC, mk_plan node root_id new_block 0 [] false (requeue_on_error plan))
              else mret (0, mk_plan node root_id new_block (u64 (ssdblk_to_devaddr new_block)) pages true (requeue_on_error plan))
    end.

Definition orchfs_finish_migration (plan : orchfs_migration_plan) (error : Z) : MG Z :=
  error ← (if (error =? 0) && pl_prepared plan then
             error ← lift (change_virnd_to_ssdblk (pl_root_id plan) (ino_id (pl_node plan)) (lru_offset (pl_node plan)) (new_ssd_block_id plan));
             (if error =? 0 then
                set_info (fun i => mk_migrate_info (s64 (nvm_page_used i - VLN_SLOT_SUM)) (mig_threshold i) (s64 (all_mig_blk i + 1)) (max_page_use i))
              else mret tt);;
             mret error
           else mret error);
  if negb (error =? 0) then
    (if 0 <=? new_ssd_block_id plan then lift (release_ssd_block (new_ssd_block_id plan)) else mret tt);;
    (if requeue_on_error plan then requeue (pl_node plan) else mret tt);;
    mret error
  else mret error.

Definition add_migrate_node (disabled : bool) (info : off_info_t) (inode new_pages : Z) : MG bool :=
  if disabled then mret false
  else
    ok ← lift malloc;
    q ← get_mig mi_queue;
    let '(error, q) := enqueue_candidate ok (mk_node_info inode (oi_offset_ans info) (oi_nvm_page_id info)) q in
    set_queue q;;
    if negb (error =? 0) then lift (set_errno error);; mret false
    else
      i ← get_mig mi_info;
      let used := s64 (nvm_page_used i + new_pages) in
      set_info (fun i => mk_migrate_info used (mig_threshold i) (all_mig_blk i) (Z.max (max_page_use i) used));;
      mret (mig_threshold i <? used).

(** What the environment of one round answers: scheduling, the range permit, the device
    (a failed write leaves [me_torn] in the block), and memory for the transaction object. *)
Record migrate_env := mk_migrate_env {
  me_owner : Z; me_inode_owner : Z; me_range : Z; me_acquire : Z; me_release : Z;
  me_write : Z; me_torn : list Z; me_object : bool;
}.
Definition device_write (e : migrate_env) (offset : Z) (data : list Z) : MG Z := fun s =>
  Some (me_write e, mk_mig (mi_kfs s) (nvm_write (mi_ssd s) (if me_write e =? 0 then data else take (length data) (me_torn e)) offset) (mi_queue s) (mi_info s)).
(** [LogTransaction::create]. *)
Definition create_transaction (e : migrate_env) : M (Z * Z) :=
  '(error, h) ← orchfs_log_transaction_create;
  if negb (error =? 0) then mret (error, 0)
  else if me_object e then mret (0, h) else orchfs_log_transaction_abort h;; mret (ENOMEM, 0).
(** [LogTransaction::invoke]. *)
Definition invoke {A} (h : Z) (f : MG A) : MG A :=
  lift (orchfs_log_transaction_bind h);; r ← f; lift (orchfs_log_transaction_unbind h);; mret r.

(** One block, under the range permit, up to the commit: the error, or the transaction to commit. *)
Definition migrate_block (e : migrate_env) (plan : orchfs_migration_plan) : MG (Z + Z) :=
  '(error, plan) ← lift (orchfs_prepare_migration_io plan);
  error ← (if error =? 0 then device_write e (pl_device_offset plan) (block_data plan) else mret error);
  if error =? 0 then
    '(error, h) ← lift (create_transaction e);
    if negb (error =? 0) then orchfs_finish_migration plan error;; mret (inl error)
    else
      error ← lift (orchfs_log_transaction_record_allocation h BLOCK_EXT (new_ssd_block_id plan));
      if error =? 0 then
        error ← invoke h (orchfs_finish_migration plan 0);
        if error =? 0 then mret (inr h) else lift (orchfs_log_transaction_abort h);; mret (inl error)
      else orchfs_finish_migration plan error;; lift (orchfs_log_transaction_abort h);; mret (inl error)
  else orchfs_finish_migration plan error;; mret (inl error).

(** One round of [migrate]; [Some] leaves the loop with an error or whether there is more. *)
Definition migrate_round (e : migrate_env) : MG (option (Z + bool)) :=
  if negb (me_owner e =? 0) then mret (Some (inl (me_owner e)))
  else
    '(error, plan) ← orchfs_prepare_migration;
    if error =? EAGAIN then mret (Some (inr false))
    else if negb (error =? 0) then mret (Some (inl error))
    else if negb (me_inode_owner e =? 0) then orchfs_finish_migration plan ECANCELED;; mret (Some (inl (me_inode_owner e)))
    else if negb (me_range e =? 0) then orchfs_finish_migration plan ECANCELED;; mret (Some (inl (me_range e)))
    else if negb (me_acquire e =? 0) then orchfs_finish_migration plan ECANCELED;; mret (Some (inl (me_acquire e)))
    else
      r ← migrate_block e plan;
      error ← (match r with inl error => mret error | inr h => lift (orchfs_log_transaction_commit h) end);
      if negb (me_release e =? 0) then mret (Some (inl (me_release e)))
      else if negb (error =? 0) && negb (error =? ESTALE) then mret (Some (inl error))
      else mret None.
Fixpoint migrate (n : nat) (env_of : nat -> migrate_env) (last_owner : Z) : MG (Z + bool) :=
  match n with
  | O => if negb (last_owner =? 0) then mret (inl last_owner) else q ← get_mig mi_queue; mret (inr (migration_candidates_pending q))
  | S n => r ← migrate_round (env_of n); match r with Some r => mret r | None => migrate n env_of last_owner end
  end.
End migrate.

(** ** What a migration keeps *)

(** A state as it is inside a transaction. *)
Definition bound (k : kfs) : kfs := rebind (Some 0) {[0 := empty_txn]} k.
(** The metadata a client sees and persistent memory as before; the SSD blocks in use are those of [f]. *)
Record kept (f : Z -> bool) (k k' : kfs) : Prop := {
  kp_view : forall c o, cache_view k' c o = cache_view k c o;
  kp_std : cache_std k -> cache_std k';
  kp_pmem : k_pmem k' = k_pmem k;
  kp_others : forall u, u <> BLOCK_EXT -> k_bmps k' u = k_bmps k u;
  kp_wf : bmp_wf (k_bmps k' BLOCK_EXT);
  kp_total : bmp_total (k_bmps k' BLOCK_EXT) = bmp_total (k_bmps k BLOCK_EXT);
  kp_bits : forall y, bits (k_bmps k' BLOCK_EXT) y = f y;
  kp_cur : k_cur k' = k_cur k;
}.
Definition in_use (k : kfs) (b : Z) : bool := bits (k_bmps k BLOCK_EXT) b.
Lemma kept_trans f g k1 k2 k3 : kept f k1 k2 -> kept g k2 k3 -> kept g k1 k3.
Proof.
  intros [A1 A2 A3 A4 A5 A6 A7 A8] [B1 B2 B3 B4 B5 B6 B7 B8].
  split; [intros; by rewrite B1, A1|auto|congruence|intros; by rewrite B4, A4|done|congruence|done|congruence].
Qed.
Lemma kept_ext f g k k' : kept f k k' -> (forall y, f y = g y) -> kept g k k'.
Proof. intros [A1 A2 A3 A4 A5 A6 A7 A8] H. split; try done. intros. by rewrite A7. Qed.
Lemma kept_rest k k' : bmp_wf (k_bmps k BLOCK_EXT) -> same_rest k k' -> (forall c o, cache_view k' c o = cache_view k c o) -> (cache_std k -> cache_std k') ->
  kept (in_use k) k k'.
Proof. intros Hw [R1 R2 R3 R4 R5 R6 R7] Hv Hs. split; try done; by rewrite R2. Qed.
Lemma kept_same k k' : bmp_wf (k_bmps k BLOCK_EXT) -> k_cache k' = k_cache k -> k_pmem k' = k_pmem k -> k_bmps k' = k_bmps k -> k_cur k' = k_cur k -> kept (in_use k) k k'.
Proof.
  intros Hw Hc Hp Hb Hcu. split; try done; try (by rewrite Hb).
  - intros c o. unfold cache_view. by rewrite Hc, Hp.
  - intros H id Hid. specialize (H id Hid). unfold cache_std1 in *. by rewrite Hc.
Qed.
(** Files are the same in states that look the same. *)
Lemma kept_world f k k' h txns : kept f k k' -> world (bound k) -> is_Some (txns !! h) -> world (rebind (Some h) txns k').
Proof.
  intros K [W1 _ W3 W4] Ht. split; [by apply (kp_std _ _ _ K)|by exists h|cbn; by rewrite (kp_others _ _ _ K)|cbn; by rewrite (kp_others _ _ _ K)].
Qed.
Lemma kept_idx f k k' cur txns : kept f k k' -> (forall x o, idx_word (rebind cur txns k') x o = idx_word (bound k) x o) /\
  (forall x, idx_alloc (rebind cur txns k') x = idx_alloc (bound k) x) /\ (forall x o, vir_word (rebind cur txns k') x o = vir_word (bound k) x o).
Proof.
  intros K. split_and!.
  - intros x o. unfold idx_word. do 2 f_equal. apply nvm_read_ext. intros a _. apply (kp_view _ _ _ K).
  - intros x. unfold idx_alloc. cbn. by rewrite (kp_others _ _ _ K).
  - intros x o. unfold vir_word. do 2 f_equal. apply nvm_read_ext. intros a _. apply (kp_view _ _ _ K).
Qed.
Lemma kept_file f k k' h txns root inode t m : kept f k k' -> is_Some (txns !! h) -> file_ok (bound k) root inode t m ->
  file_ok (rebind (Some h) txns k') root inode t m /\ forall o, file_slot (rebind (Some h) txns k') t o = file_slot (bound k) t o.
Proof.
  intros K Ht [[H1 H2 H3 H4 H5 H6] H7 H8 H9]. destruct (kept_idx f k k' (Some h) txns K) as (W & A & _). split.
  - split; [split|..]; rewrite ?W; try done.
    + by eapply kept_world.
    + by rewrite A.
    + eapply repr_ext; [|done]. intros. apply W.
    + intros x Hx. rewrite A. by apply H6.
  - intros o. unfold file_slot. destruct (look t 0 o); [|done]. by rewrite !W.
Qed.

(** The 64-bit field at byte [off] of inode [id]. *)
Definition ino_word (s : kfs) (id off : Z) : Z := s64 (le_val (nvm_read (cache_view s INODE_CACHE) 8 (id * ORCH_INODE_SIZE + off))).
(** The file of a candidate: its index, and the bitmap of SSD blocks. *)
Record migration_ready (k : kfs) (node : LRU_node_info_t) (root : Z) (t : itree) (m : Z) : Prop := {
  mr_file : file_ok (bound k) root (ino_id node) t m;
  mr_cur : k_cur k = None;
  mr_inode : 0 <= ino_id node;
  mr_root : 0 <= root;
  mr_offset : 0 <= lru_offset node < 2 ^ 42;
  mr_idxroot : ino_word k (ino_id node) INODE_IDXROOT = root;
  mr_pages : forall v, file_slot (bound k) t (lru_offset node) = (true, v) -> pages_ok (bound k) v;
  mr_wf : bmp_wf (k_bmps k BLOCK_EXT);
  mr_total : bmp_total (k_bmps k BLOCK_EXT) = MAX_BLOCK_NUM;
}.
(** The bytes of a block whose pages are at the addresses [pages]. *)
Definition page_byte (m : pmem) (pages : list Z) (i : Z) : Z := m (byte_at pages (i / ORCH_PAGE_SIZE) + i mod ORCH_PAGE_SIZE).
Definition page_data (m : pmem) (pages : list Z) : list Z := mjoin (map (nvm_read m ORCH_PAGE_SIZE) pages).
Lemma page_data_cons m a pages : page_data m (a :: pages) = nvm_read m ORCH_PAGE_SIZE a ++ page_data m pages.
Proof. done. Qed.
Lemma page_data_len m pages : len (page_data m pages) = len pages * ORCH_PAGE_SIZE.
Proof. induction pages as [|a pages IH]; [done|]. rewrite page_data_cons, len_app, len_cons, IH, len_nvm_read by done. lia. Qed.
Lemma page_data_byte m pages : forall i, 0 <= i < len pages * ORCH_PAGE_SIZE -> byte_at (page_data m pages) i = page_byte m pages i.
Proof.
  assert (ORCH_PAGE_SIZE = 4096) as Ep by done. unfold page_byte. rewrite Ep. induction pages as [|a pages IH]; intros i Hi; [unfold len in Hi; cbn in Hi; lia|].
  rewrite len_cons in Hi. rewrite page_data_cons, Ep. pose proof (len_nvm_read m 4096 a ltac:(lia)) as Hl.
  destruct (Z.lt_ge_cases i 4096) as [L|L].
  - rewrite byte_at_app_l by lia. rewrite byte_at_nvm_read, Z.div_small, Z.mod_small by lia. done.
  - rewrite byte_at_app_r, Hl, IH by lia. replace i with (i - 4096 + 1 * 4096) at 3 4 by lia. rewrite Z.div_add, Z.mod_add by lia.
    f_equal. f_equal. unfold byte_at. pose proof (Z.div_pos (i - 4096) 4096).
    replace (Z.to_nat ((i - 4096) / 4096 + 1)) with (S (Z.to_nat ((i - 4096) / 4096))) by lia. done.
Qed.

Section correct.
Context `{Mo : MallocOracle}.

(** Loading metadata keeps it. *)
Lemma load_kept k id : cache_std k -> bmp_wf (k_bmps k BLOCK_EXT) ->
  exists r k', inodeid_to_memaddr id k = Some (r, k') /\ kept (in_use k) k k' /\ match r with Some p => points_to k' INODE_CACHE id p | None => True end.
Proof.
  intros Hs Hw. destruct (id_to_memaddr_spec INODE_CACHE id k) as (r & k' & R & G & Hr); [by vm_compute|done|]. exists r, k'. split; [done|].
  split; [|by destruct r]. apply kept_rest; [done|by apply (proj1 (loads_id_to_memaddr _ _ _ _ id k) _ _ R)|apply (cg_view _ _ G)|].
  intros _. by eapply cache_grows_std.
Qed.
Lemma ld_ino s id p off : cache_std s -> points_to s INODE_CACHE id p -> 0 <= off -> off + 8 <= ORCH_INODE_SIZE -> ld p off s = Some (ino_word s id off, s).
Proof. intros Hs Hp. exact (ld_unit s INODE_CACHE id p off ltac:(by vm_compute) Hs Hp). Qed.
Lemma query_kept k root inode t m off : file_ok (bound k) root inode t m -> bmp_wf (k_bmps k BLOCK_EXT) -> 0 <= inode -> 0 <= off < 2 ^ 42 ->
  exists info k', query_offset_info root inode off k = Some (info, k') /\ kept (in_use k) k k' /\
    (info = slot_info (bound k) (file_slot (bound k) t off) off \/ info = no_info off).
Proof.
  intros H Hw Hi Ho. destruct (query_spec (bound k) root t inode off (fo_index _ _ _ _ _ H) Hi Ho) as (info & s' & R & Q & Hr).
  destruct (loads_query root inode off k) as [L1 L2]. unfold bound in R. rewrite L2 in R. destruct (query_offset_info root inode off k) as [[x k']|]; [|done].
  injection R as -> <-. exists info, k'. split; [done|]. split; [|tauto].
  apply kept_rest; [done|by eapply L1|intros c o; exact (iq_view _ _ Q c o)|]. intros _. exact (w_cache _ (is_world _ _ (iq_step _ _ Q))).
Qed.
Lemma clock_kept k c : bmp_wf (k_bmps k BLOCK_EXT) -> kept (in_use k) k (set_k_clock c k).
Proof. intros. by apply kept_same. Qed.
Lemma require_kept k : bmp_wf (k_bmps k BLOCK_EXT) -> k_cur k = None ->
  exists b k', require_ssd_block_id k = Some (b, k') /\
    ((0 <= b < bmp_total (k_bmps k BLOCK_EXT) /\ in_use k b = false /\ kept (fun y => (y =? b) || in_use k y) k k') \/ (b = -1 /\ kept (in_use k) k k')).
Proof.
  intros Hw Hc. destruct (reserve_spec BLOCK_EXT k) as (b & k' & R & W & O & P & T & Ca & Cu & _ & Hr); [by vm_compute|done|unfold txn_live; by rewrite Hc|].
  assert (forall f, (forall y, bits (k_bmps k' BLOCK_EXT) y = f y) -> kept f k k') as K.
  { intros f Hf. split; try done. - intros c o. unfold cache_view. by rewrite Ca, P.
    - intros H id Hid. specialize (H id Hid). unfold cache_std1 in *. by rewrite Ca. }
  exists b, k'. split; [done|]. destruct Hr as [(B1 & B2 & B3 & _)|(-> & _ & B3 & _)]; [left; split_and!; [lia|lia|done|by apply K]|right; split; [done|by apply K]].
Qed.

(** A prepared plan: the block is one virtual node with exactly the candidate's pages, its
    data are read, and a free SSD block is reserved for it. *)
Definition prepared_plan (k : kfs) (node : LRU_node_info_t) (root : Z) (t : itree) (b : Z) (v : Z) : Prop :=
  file_slot (bound k) t (lru_offset node) = (true, v) /\ v <> EMPTY_BLKID /\ vir_word (bound k) v ND_TYPE = VIR_LEAF_NODE /\
  nvm_page_addr node = vir_slots (bound k) v VN_PAGES nvmpage_to_devaddr /\ 0 <= b < MAX_BLOCK_NUM /\ in_use k b = false.
Lemma slot_info_virtual s slot off : oi_ndtype (slot_info s slot off) = VIR_LEAF_NODE ->
  exists v, slot = (true, v) /\ v <> EMPTY_BLKID /\ vir_word s v ND_TYPE = VIR_LEAF_NODE /\ oi_nvm_page_id (slot_info s slot off) = vir_slots s v VN_PAGES nvmpage_to_devaddr.
Proof.
  destruct slot as [virt v]. unfold slot_info. destruct (Z.eqb_spec v EMPTY_BLKID); [done|]. destruct virt; [|done].
  destruct (Z.eqb_spec (vir_word s v ND_TYPE) VIR_LEAF_NODE) as [E|]; [|by destruct (_ =? STRATA_NODE)]. intros _. by exists v.
Qed.
Lemma prepare_io_spec k node root t m : migration_ready k node root t m ->
  exists e plan k', orchfs_prepare_migration_io (new_plan node) k = Some ((e, plan), k') /\ pl_node plan = node /\
    ((e <> 0 /\ new_ssd_block_id plan = -1 /\ kept (in_use k) k k') \/
     exists b v, e = 0 /\ prepared_plan k node root t b v /\ kept (fun y => (y =? b) || in_use k y) k k' /\
       plan = mk_plan node root b (ssdblk_to_devaddr b) (page_data (k_pmem k) (nvm_page_addr node)) true true).
Proof.
  intros [F C I R O X P W T]. unfold orchfs_prepare_migration_io. cbn [pl_prepared new_plan pl_node requeue_on_error].
  pose proof (w_cache _ (fi_world _ _ _ (fo_index _ _ _ _ _ F))) as Hstd. change (cache_std k) in Hstd.
  destruct (load_kept k (ino_id node) Hstd W) as (r & k1 & R1 & K1 & Hr). rewrite (bind_run _ _ _ _ _ R1). destruct r as [p|].
  2:{ eexists _, _, _. split; [done|]. split; [done|]. by left. }
  pose proof (kp_std _ _ _ K1 Hstd) as Hstd1.
  rewrite (bind_run _ _ _ _ _ (ld_ino k1 _ p INODE_NUMBER Hstd1 Hr ltac:(done) ltac:(done))). destruct (negb _).
  { eexists _, _, _. split; [done|]. split; [done|]. by left. }
  rewrite (bind_run _ _ _ _ _ (ld_ino k1 _ p INODE_IDXROOT Hstd1 Hr ltac:(done) ltac:(done))).
  assert (ino_word k1 (ino_id node) INODE_IDXROOT = root) as ->.
  { rewrite <-X. unfold ino_word. do 2 f_equal. apply nvm_read_ext. intros a _. apply (kp_view _ _ _ K1). }
  destruct (kept_file _ k k1 0 {[0 := empty_txn]} _ _ _ _ K1 ltac:(done) F) as [F1 S1]. fold (bound k1) in F1, S1.
  destruct (query_kept k1 root (ino_id node) t m (lru_offset node) F1 (kp_wf _ _ _ K1) I O) as (info & k2 & R2 & K2 & Hi).
  rewrite (bind_run _ _ _ _ _ R2). pose proof (kept_trans _ _ _ _ _ K1 (kept_ext _ _ _ _ K2 (kp_bits _ _ _ K1))) as K12.
  destruct (Z.eqb_spec (oi_ndtype info) VIR_LEAF_NODE) as [Ht|Ht]; cbn [negb orb].
  2:{ eexists _, _, _. split; [done|]. split; [done|]. by left. }
  destruct (bool_decide_reflect (oi_nvm_page_id info = nvm_page_addr node)) as [Hpg|Hpg]; cbn [negb].
  2:{ eexists _, _, _. split; [done|]. split; [done|]. by left. }
  destruct Hi as [-> | ->]; [|done]. apply slot_info_virtual in Ht as (v & Hslot & Hv & Hty & Hpages). rewrite S1 in Hslot.
  destruct (kept_idx _ k k1 (Some 0) {[0 := empty_txn]} K1) as (_ & _ & V1). fold (bound k1) in V1.
  unfold malloc. unfold mbind at 1, M_bind at 1. pose proof (kept_trans _ _ _ _ _ K12 (kept_ext _ _ _ _ (clock_kept k2 (k_clock k2 + 1) (kp_wf _ _ _ K12)) (kp_bits _ _ _ K12))) as K3.
  destruct (malloc_ok (k_clock k2)); cbn [negb].
  2:{ eexists _, _, _. split; [done|]. split; [done|]. by left. }
  set (k3 := set_k_clock (k_clock k2 + 1) k2) in *. unfold gets at 1, mbind at 1, M_bind at 1.
  destruct (require_kept k3 (kp_wf _ _ _ K3)) as (b & k4 & R4 & Hb); [by rewrite (kp_cur _ _ _ K3)|]. rewrite (bind_run _ _ _ _ _ R4).
  assert (forall y, in_use k3 y = in_use k y) as Hu by apply (kp_bits _ _ _ K3). destruct Hb as [(B1 & B2 & K4)|(-> & K4)].
  - rewrite (kp_total _ _ _ K3), T in B1. replace (b <? 0) with false by lia. eexists _, _, _. split; [done|]. split; [done|]. right. exists b, v.
    split; [done|]. split; [|split].
    + rewrite Hu in B2. split_and!; try done; [by rewrite <-V1| |lia|lia]. rewrite <-Hpg, Hpages. unfold vir_slots. apply map_ext. intros i. by rewrite V1.
    + eapply kept_ext; [eapply kept_trans; [exact K3|exact K4]|]. intros y. cbn. by rewrite Hu.
    + unfold page_data. rewrite (kp_pmem _ _ _ K3). f_equal. unfold ssdblk_to_devaddr. replace ((b <? 0) || (MAX_BLOCK_NUM <=? b)) with false by lia.
      apply u64_small. assert (MAX_BLOCK_NUM * ORCH_BLOCK_SIZE + OFFSET_BLOCK < 2 ^ 64) by done. assert (0 <= OFFSET_BLOCK) by done. assert (ORCH_BLOCK_SIZE = 32768) as E by done. rewrite E in *. nia.
  - eexists _, _, _. split; [done|]. split; [done|]. left. split; [done|]. split; [done|].
    eapply kept_ext; [eapply kept_trans; [exact K3|exact K4]|]. intros y. apply Hu.
Qed.

(** ** Giving a block back *)

Definition without (b : Z) (f : Z -> bool) (y : Z) : bool := negb (y =? b) && f y.
Lemma release_kept k b : bmp_wf (k_bmps k BLOCK_EXT) -> k_cur k = None -> 0 <= b < bmp_total (k_bmps k BLOCK_EXT) -> in_use k b = true ->
  exists k', release_ssd_block b k = Some (tt, k') /\ kept (without b (in_use k)) k k'.
Proof.
  intros Hw Hc Hb Hu. unfold release_ssd_block, release. replace (b <? 0) with false by lia.
  assert (orchfs_log_defer_current_release BLOCK_EXT b k = Some (0, k)) as R0.
  { unfold orchfs_log_defer_current_release, gets, mbind, M_bind. by rewrite Hc. }
  rewrite (bind_run _ _ _ _ _ R0). change (0 <? 0) with false. cbv iota.
  destruct (release_one_spec BLOCK_EXT b k) as (arr & R & W & O & T & B); [by vm_compute|done|done|done|]. rewrite (bind_run _ _ _ _ _ R). exists (set_k_bmps arr k). split; [done|]. by split.
Qed.
Lemma release_txns k b k' : k_cur k = None -> 0 <= b -> release_ssd_block b k = Some (tt, k') -> k_txns k' = k_txns k.
Proof.
  intros Hc Hb. unfold release_ssd_block, release. replace (b <? 0) with false by lia.
  assert (orchfs_log_defer_current_release BLOCK_EXT b k = Some (0, k)) as R0.
  { unfold orchfs_log_defer_current_release, gets, mbind, M_bind. by rewrite Hc. }
  rewrite (bind_run _ _ _ _ _ R0). change (0 <? 0) with false. cbv iota. unfold release_one.
  change (BLOCK_EXT =? INODE_EXT) with false. change (BLOCK_EXT =? IDXND_EXT) with false. change (BLOCK_EXT =? VIRND_EXT) with false.
  change (BLOCK_EXT =? BUFMETA_EXT) with false. change (BLOCK_EXT =? PAGE_EXT) with false. change (BLOCK_EXT =? BLOCK_EXT) with true. cbv iota.
  unfold call_dealloc, mbind, M_bind. destruct (send_dealloc_block_req _ _ _) as [e arr]. destruct (negb (e =? 0)); by intros [= <-].
Qed.
(** Inside a transaction the release is noted there. *)
Lemma release_noted k h x b : k_cur k = Some h -> k_txns k !! h = Some x -> bmp_wf (k_bmps k BLOCK_EXT) -> 0 <= b ->
  exists k' x', release_ssd_block b k = Some (tt, k') /\ kept (in_use k) k k' /\ k_txns k' !! h = Some x' /\
    tx_records x' = tx_records x /\ tx_allocations x' = tx_allocations x.
Proof.
  intros Hc Hx Hw Hb. unfold release_ssd_block, release. replace (b <? 0) with false by lia.
  unfold orchfs_log_defer_current_release, gets, mbind, M_bind. rewrite Hc. unfold get_txn. rewrite Hx.
  replace ((BLOCK_EXT <? MIN_EXT_ID) || (MAX_EXT_ID <? BLOCK_EXT) || (b <? 0)) with false by (change (BLOCK_EXT <? MIN_EXT_ID) with false; change (MAX_EXT_ID <? BLOCK_EXT) with false; cbn; lia).
  unfold malloc, put_txn, modify. destruct (malloc_ok (k_clock k)); cbn; (eexists _, _; split; [done|]; split; [by apply kept_same|]);
    cbn; rewrite lookup_insert_eq; by split.
Qed.
(** Abandoning a transaction without records gives its block back. *)
Lemma abort_kept k h x b : bmp_wf (k_bmps k BLOCK_EXT) -> k_cur k = None -> k_txns k !! h = Some x -> tx_records x = [] ->
  (tx_allocations x = [] \/ (tx_allocations x = [mk_allocation BLOCK_EXT b] /\ 0 <= b < bmp_total (k_bmps k BLOCK_EXT) /\ in_use k b = true)) ->
  exists k', orchfs_log_transaction_abort h k = Some (tt, k') /\
    kept (if bool_decide (tx_allocations x = []) then in_use k else without b (in_use k)) k k'.
Proof.
  intros Hw Hc Hx Hr Ha. unfold orchfs_log_transaction_abort.
  rewrite (bind_run _ _ k tt k) by (unfold modify; by rewrite Hc, bool_decide_false). rewrite (bind_run _ _ k x k) by (unfold get_txn; by rewrite Hx).
  rewrite Hr. rewrite (bind_run (mforeach reload_record []) _ k tt k) by done. unfold free_allocations, free_deallocations.
  destruct Ha as [-> |(-> & Hb & Hu)].
  - rewrite bool_decide_true by done. eexists. split; [reflexivity|]. by apply kept_same.
  - rewrite bool_decide_false by done. destruct (release_kept k b Hw Hc Hb Hu) as (k1 & R & K).
    rewrite (bind_run _ _ k tt k1) by (cbn [mforeach]; by rewrite (bind_run (release_by_type (mk_allocation BLOCK_EXT b)) _ k tt k1 R)). eexists. split; [reflexivity|].
    eapply kept_ext; [eapply kept_trans; [exact K|by apply kept_same; [apply K|..]]|]. intros y. apply (kp_bits _ _ _ K).
Qed.

(** ** One block *)

Lemma lift_run {A} (c : M A) s x k : c (mi_kfs s) = Some (x, k) -> lift c s = Some (x, mk_mig k (mi_ssd s) (mi_queue s) (mi_info s)).
Proof. intros E. unfold lift. by rewrite E. Qed.
Lemma mg_bind_run {A B} (c : MG A) (f : A -> MG B) s x s' : c s = Some (x, s') -> (c ≫= f) s = f x s'.
Proof. intros E. unfold mbind, MG_bind. by rewrite E. Qed.
Lemma lift_bind {A B} (c : M A) (f : A -> MG B) s x k : c (mi_kfs s) = Some (x, k) ->
  (lift c ≫= f) s = f x (mk_mig k (mi_ssd s) (mi_queue s) (mi_info s)).
Proof. intros E. by rewrite (mg_bind_run _ _ _ _ _ (lift_run c s x k E)). Qed.

Lemma requeue_kept node s : bmp_wf (k_bmps (mi_kfs s) BLOCK_EXT) ->
  exists s', requeue node s = Some (tt, s') /\ kept (in_use (mi_kfs s)) (mi_kfs s) (mi_kfs s') /\ mi_ssd s' = mi_ssd s /\ k_txns (mi_kfs s') = k_txns (mi_kfs s).
Proof.
  intros Hw. unfold requeue. rewrite (lift_bind malloc _ s _ _ eq_refl). eexists. split; [reflexivity|]. cbn. split; [by apply clock_kept|done].
Qed.
(** Giving up outside a transaction: the reserved block, if any, is free again. *)
Definition given_up (plan : orchfs_migration_plan) (f : Z -> bool) : Z -> bool :=
  if 0 <=? new_ssd_block_id plan then without (new_ssd_block_id plan) f else f.
Lemma give_up_kept plan error s : let k := mi_kfs s in bmp_wf (k_bmps k BLOCK_EXT) -> k_cur k = None -> error <> 0 ->
  (0 <= new_ssd_block_id plan -> new_ssd_block_id plan < bmp_total (k_bmps k BLOCK_EXT) /\ in_use k (new_ssd_block_id plan) = true) ->
  exists s', orchfs_finish_migration plan error s = Some (error, s') /\ kept (given_up plan (in_use k)) k (mi_kfs s') /\ mi_ssd s' = mi_ssd s /\
    k_txns (mi_kfs s') = k_txns k.
Proof.
  intros k Hw Hc He Hb. unfold orchfs_finish_migration. replace (error =? 0) with false by lia. cbn [andb].
  rewrite (mg_bind_run (mret error) _ s error s) by done. cbn [negb]. replace (error =? 0) with false by lia. cbn [negb]. unfold given_up.
  assert (exists s1, (if 0 <=? new_ssd_block_id plan then lift (release_ssd_block (new_ssd_block_id plan)) else mret tt) s = Some (tt, s1) /\
    kept (given_up plan (in_use k)) k (mi_kfs s1) /\ mi_ssd s1 = mi_ssd s /\ k_txns (mi_kfs s1) = k_txns k) as (s1 & R1 & K1 & E1 & T1).
  { unfold given_up. destruct (Z.leb_spec 0 (new_ssd_block_id plan)) as [L|L].
    - destruct (Hb L) as [B1 B2]. destruct (release_kept k (new_ssd_block_id plan)) as (k1 & R & K); try done.
      rewrite (lift_run _ s tt k1 R). eexists. split; [done|]. cbn. split; [done|]. split; [done|].
      apply release_txns in R; done.
    - exists s. split; [done|]. split; [by apply kept_same|done]. }
  rewrite (mg_bind_run _ _ _ _ _ R1). unfold given_up in K1. destruct (requeue_on_error plan).
  - destruct (requeue_kept (pl_node plan) s1 (kp_wf _ _ _ K1)) as (s2 & R2 & K2 & E2 & T2). rewrite (mg_bind_run _ _ _ _ _ R2).
    exists s2. split; [done|]. split; [|split; congruence]. eapply kept_ext; [by eapply kept_trans|]. apply (kp_bits _ _ _ K1).
  - exists s1. split; [done|]. done.
Qed.

Lemma txn_create_kept k : bmp_wf (k_bmps k BLOCK_EXT) ->
  exists error h k', orchfs_log_transaction_create k = Some ((error, h), k') /\ kept (in_use k) k k' /\ (error = 0 -> k_txns k' !! h = Some empty_txn).
Proof.
  intros Hw. unfold orchfs_log_transaction_create, gets, mbind, M_bind. destruct (initialized (k_journal k)); cbn [negb].
  2:{ eexists _, _, _. split; [reflexivity|]. split; [by apply kept_same|done]. }
  unfold malloc. destruct (malloc_ok (k_clock k)); (eexists _, _, _; split; [reflexivity|]; split; [by apply kept_same|]); [|done].
  intros _. apply lookup_insert_eq.
Qed.
Lemma create_kept e k : bmp_wf (k_bmps k BLOCK_EXT) -> k_cur k = None ->
  exists error h k', create_transaction e k = Some ((error, h), k') /\ kept (in_use k) k k' /\ (error = 0 -> k_txns k' !! h = Some empty_txn).
Proof.
  intros Hw Hc. unfold create_transaction. destruct (txn_create_kept k Hw) as (error & h & k1 & R & K & Hx). rewrite (bind_run _ _ _ _ _ R).
  destruct (Z.eqb_spec error 0) as [->|He]; cbn [negb]; [|by eexists _, _, _]. destruct (me_object e); [by eexists _, _, _|].
  destruct (abort_kept k1 h empty_txn 0) as (k2 & R2 & K2); [apply K|by rewrite (kp_cur _ _ _ K)|by apply Hx|done|by left|].
  rewrite (bind_run _ _ _ _ _ R2). eexists _, _, _. split; [reflexivity|]. split; [|done]. rewrite bool_decide_true in K2 by done.
  eapply kept_ext; [by eapply kept_trans|]. apply (kp_bits _ _ _ K).
Qed.
Lemma record_kept k h b : bmp_wf (k_bmps k BLOCK_EXT) -> k_txns k !! h = Some empty_txn -> 0 <= b ->
  exists error k' x, orchfs_log_transaction_record_allocation h BLOCK_EXT b k = Some (error, k') /\ kept (in_use k) k k' /\
    k_txns k' !! h = Some x /\ tx_records x = [] /\
    ((error = 0 /\ x = txn_push_allocation (mk_allocation BLOCK_EXT b) empty_txn) \/ (error <> 0 /\ tx_allocations x = [])).
Proof.
  intros Hw Hx Hb. unfold orchfs_log_transaction_record_allocation.
  replace ((BLOCK_EXT <? MIN_EXT_ID) || (MAX_EXT_ID <? BLOCK_EXT) || (b <? 0)) with false by (change (BLOCK_EXT <? MIN_EXT_ID) with false; change (MAX_EXT_ID <? BLOCK_EXT) with false; cbn; lia).
  unfold malloc, mbind, M_bind, get_txn. cbn [k_txns set_k_clock]. rewrite Hx. unfold put_txn, modify, mret, M_ret.
  destruct (malloc_ok (k_clock k)); (eexists _, _, _; split; [reflexivity|]; split; [by apply kept_same|]; split; [cbn; apply lookup_insert_eq|]; split; [done|]).
  - by left.
  - by right.
Qed.
(** The block in its new place: only its slot and SSD blocks that were free changed, what is
    freed and allocated is in the transaction. *)
Record migrated (k k' : kfs) (node : LRU_node_info_t) (root : Z) (t : itree) (m b v h : Z) : Prop := {
  mg_file : file_ok (bound k') root (ino_id node) t m;
  mg_slots : forall o, 0 <= o < 2 ^ 42 -> file_slot (bound k') t o = if o =? lru_offset node then (false, b) else file_slot (bound k) t o;
  mg_view : forall c o, c <> IDXND_CACHE -> cache_view k' c o = cache_view k c o;
  mg_pmem : k_pmem k' = k_pmem k;
  mg_bits : forall y, in_use k' y = (y =? b) || in_use k y;
  mg_cur : k_cur k' = None;
  mg_txn : exists x, k_txns k' !! h = Some x /\ (tx_error x = 0 -> tx_allocations x = [mk_allocation BLOCK_EXT b] /\ tx_deallocations x = node_blocks (bound k) v);
}.
Lemma file_rebind k root inode t m h txns h' txns' : is_Some (txns' !! h') -> file_ok (rebind (Some h) txns k) root inode t m ->
  file_ok (rebind (Some h') txns' k) root inode t m.
Proof.
  intros Hs [[[W1 W2 W3 W4] H2 H3 H4 H5 H6] H7 H8 H9]. split; [split|..]; try done. split; try done. by exists h'.
Qed.

Definition use (b : Z) (f : Z -> bool) (y : Z) : bool := (y =? b) || f y.
Lemma use_without b f : f b = false -> forall y, without b (use b f) y = f y.
Proof. intros Hb y. unfold without, use. destruct (Z.eqb_spec y b) as [->|]; [done|]. done. Qed.
Definition on_kfs (k : kfs) (s : mig) : mig := mk_mig k (mi_ssd s) (mi_queue s) (mi_info s).
Lemma invoke_run {A} h (f : MG A) s r s' : k_cur (mi_kfs s) = None -> f (on_kfs (set_k_cur (Some h) (mi_kfs s)) s) = Some (r, s') -> k_cur (mi_kfs s') = Some h ->
  invoke h f s = Some (r, on_kfs (set_k_cur None (mi_kfs s')) s').
Proof.
  intros Hc Hf Hc'. unfold invoke, mbind, MG_bind, lift, orchfs_log_transaction_bind, orchfs_log_transaction_unbind, gets, mbind, M_bind. rewrite Hc.
  unfold modify. unfold on_kfs in Hf. rewrite Hf. rewrite Hc', bool_decide_true by done. done.
Qed.
Lemma finish_changed plan s k : pl_prepared plan = true ->
  change_virnd_to_ssdblk (pl_root_id plan) (ino_id (pl_node plan)) (lru_offset (pl_node plan)) (new_ssd_block_id plan) (mi_kfs s) = Some (0, k) ->
  exists s', orchfs_finish_migration plan 0 s = Some (0, s') /\ mi_kfs s' = k /\ mi_ssd s' = mi_ssd s.
Proof. intros Hp Hc. unfold orchfs_finish_migration. rewrite Hp. unfold mbind, MG_bind, lift. cbn [andb Z.eqb]. rewrite Hc. by eexists. Qed.
Lemma finish_failed plan s e k1 k2 s3 : pl_prepared plan = true -> e <> 0 -> 0 <= new_ssd_block_id plan -> requeue_on_error plan = true ->
  change_virnd_to_ssdblk (pl_root_id plan) (ino_id (pl_node plan)) (lru_offset (pl_node plan)) (new_ssd_block_id plan) (mi_kfs s) = Some (e, k1) ->
  release_ssd_block (new_ssd_block_id plan) k1 = Some (tt, k2) -> requeue (pl_node plan) (on_kfs k2 s) = Some (tt, s3) ->
  orchfs_finish_migration plan 0 s = Some (e, s3).
Proof.
  intros Hp He Hb Hq Hc Hr Hs. unfold orchfs_finish_migration. rewrite Hp, Hq. replace (0 <=? new_ssd_block_id plan) with true by lia.
  unfold mbind, MG_bind, lift. cbn [andb Z.eqb]. rewrite Hc. replace (e =? 0) with false by lia. unfold mret, MG_ret. cbn [negb mi_kfs].
  replace (e =? 0) with false by lia. cbn [negb]. cbv beta iota. cbn [mi_kfs]. rewrite Hr. cbn [mi_ssd mi_queue mi_info]. unfold on_kfs in Hs. by rewrite Hs.
Qed.
(** Changing the index inside the transaction. *)
Lemma finish_bound k0 s node root t m b v h : let k := mi_kfs s in migration_ready k0 node root t m -> prepared_plan k0 node root t b v -> kept (use b (in_use k0)) k0 k ->
  k_txns k !! h = Some (txn_push_allocation (mk_allocation BLOCK_EXT b) empty_txn) -> forall data,
  exists e s', invoke h (orchfs_finish_migration (mk_plan node root b (ssdblk_to_devaddr b) data true true) 0) s = Some (e, s') /\ mi_ssd s' = mi_ssd s /\
    ((e = 0 /\ migrated k0 (mi_kfs s') node root t m b v h) \/
     (e <> 0 /\ kept (use b (in_use k0)) k0 (mi_kfs s') /\
      exists x, k_txns (mi_kfs s') !! h = Some x /\ tx_records x = [] /\ tx_allocations x = [mk_allocation BLOCK_EXT b])).
Proof.
  intros k Hr (P1 & P2 & P3 & P4 & P5 & P6) K Hx data. pose proof Hr as [F C I R O X P W T]. set (x0 := txn_push_allocation _ _) in Hx.
  assert (is_Some (k_txns k !! h)) as Hsx by (rewrite Hx; done). assert (k_cur k = None) as Hc by (rewrite (kp_cur _ _ _ K); done).
  destruct (kept_file _ k0 k h (k_txns k) _ _ _ _ K Hsx F) as [F1 S1]. destruct (kept_idx _ k0 k (Some h) (k_txns k) K) as (_ & _ & V1).
  assert (rebind (Some h) (k_txns k) k = set_k_cur (Some h) k) as Er by (by destruct k). rewrite Er in F1, S1, V1. set (k1 := set_k_cur (Some h) k) in *.
  destruct (change_virnd_spec k1 root (ino_id node) t m (lru_offset node) b v F1 I R O) as (e & k2 & R2 & H2).
  { assert (MAX_BLOCK_NUM < 2 ^ 63) by done. unfold is_s64. lia. } { by rewrite S1. } { by rewrite V1. }
  { intros i Hi. rewrite !V1. by apply (P v P1). }
  destruct H2 as [[-> Hch]|(He & Q & E)].
  - destruct (finish_changed (mk_plan node root b (ssdblk_to_devaddr b) data true true) (on_kfs k1 s) k2) as (s2 & Rf & Ek & Es); [done|exact R2|].
    exists 0, (on_kfs (set_k_cur None (mi_kfs s2)) s2). split; [|split].
    + apply invoke_run; [done|exact Rf|]. by rewrite Ek, (ch_cur _ _ _ _ _ _ _ _ _ Hch).
    + exact Es.
    + left. split; [done|]. destruct Hch as [C1 C2 C3 C4 C5 C6 C7]. cbn [mi_kfs on_kfs]. rewrite Ek. split.
      * apply (file_rebind k2 _ _ _ _ h (k_txns k2)); [done|]. replace (rebind (Some h) (k_txns k2) k2) with k2; [done|].
        change (Some h) with (k_cur k1). rewrite <-C7. symmetry. apply rebind_self.
      * intros o Ho. rewrite <-S1. by apply C2.
      * intros c o Hco. change (cache_view (set_k_cur None k2) c o) with (cache_view k2 c o). rewrite C3 by done. apply (kp_view _ _ _ K).
      * cbn. rewrite C5. apply (kp_pmem _ _ _ K).
      * intros y. unfold in_use. cbn. rewrite C6. apply (kp_bits _ _ _ K).
      * done.
      * destruct (C4 x0) as (x' & X1 & X2); [unfold cur_txn; cbn; by rewrite Hx|]. unfold cur_txn in X1. rewrite C7 in X1. cbn in X1. exists x'. split; [done|].
        intros Hx'. destruct (X2 Hx') as (_ & -> & ->). split; [done|]. cbn. rewrite app_nil_r. unfold node_blocks, used_slots. do 2 f_equal.
        apply flat_map_ext. intros i. by rewrite V1.
  - assert (k_txns k2 !! h = Some x0) as Hx2 by (rewrite (sr_txns _ _ E); done).
    assert (kept (use b (in_use k0)) k0 (set_k_cur None k2)) as K2.
    { eapply kept_ext; [eapply kept_trans; [exact K|]|apply (kp_bits _ _ _ K)]. destruct E as [E1 E2 E3 E4 E5 E6 E7]. destruct K as [_ _ _ _ Kw _ _ _]. split; cbn; try done.
      - intros c o. exact (iq_view _ _ Q c o).
      - intros _. exact (w_cache _ (is_world _ _ (iq_step _ _ Q))).
      - by rewrite E2.
      - by rewrite E2.
      - by rewrite E2.
      - intros y. by rewrite E2. }
    destruct (release_noted k2 h x0 b) as (k3 & x3 & R3 & K3 & X3 & X4 & X5); [by rewrite (sr_cur _ _ E)|done|apply K2|lia|].
    set (s3 := on_kfs k3 (on_kfs k1 s)). destruct (requeue_kept node s3 (kp_wf _ _ _ K3)) as (s4 & R4 & K4 & E4 & T4).
    exists e, (on_kfs (set_k_cur None (mi_kfs s4)) s4). split; [|split].
    + apply invoke_run; [done|eapply finish_failed; [done|done|cbn; lia|done|exact R2|exact R3|exact R4]|].
      rewrite (kp_cur _ _ _ K4). cbn [mi_kfs on_kfs s3]. by rewrite (kp_cur _ _ _ K3), (sr_cur _ _ E).
    + exact E4.
    + right. split; [done|]. cbn [mi_kfs]. split.
      * destruct K2 as [A1 A2 A3 A4 A5 A6 A7 A8]. destruct (kept_trans _ _ _ _ _ K3 K4) as [B1 B2 B3 B4 B5 B6 B7 B8]. split; cbn in *; try congruence; auto.
        -- intros c o. etrans; [exact (B1 c o)|apply A1].
        -- intros u Hu. by rewrite B4, A4.
        -- intros y. rewrite B7. unfold in_use. cbn. rewrite (kp_bits _ _ _ K3). apply A7.
      * exists x3. cbn. rewrite T4. split; [done|]. by rewrite X4, X5.
Qed.

(** The SSD is as before outside block [b]. *)
Definition ssd_outside (b : Z) (ssd ssd' : Z -> Z) : Prop :=
  forall a, ~ (ssdblk_to_devaddr b <= a < ssdblk_to_devaddr b + ORCH_BLOCK_SIZE) -> ssd' a = ssd a.
Lemma write_outside b ssd data : len data <= ORCH_BLOCK_SIZE -> ssd_outside b ssd (nvm_write ssd data (ssdblk_to_devaddr b)).
Proof. intros Hl a Ha. unfold nvm_write. destruct (in_rangeP a (ssdblk_to_devaddr b) (len data)); [lia|done]. Qed.
Lemma prepared_data_len k node root t b v : prepared_plan k node root t b v -> len (page_data (k_pmem k) (nvm_page_addr node)) = ORCH_BLOCK_SIZE.
Proof. intros (_ & _ & _ & -> & _). rewrite page_data_len. unfold vir_slots, len. by rewrite length_map. Qed.
(** A failed attempt: no metadata changed, no block in use that was not, and at most a free SSD block overwritten. *)
Definition not_migrated (s s' : mig) : Prop :=
  kept (in_use (mi_kfs s)) (mi_kfs s) (mi_kfs s') /\
  (mi_ssd s' = mi_ssd s \/ exists b, in_use (mi_kfs s) b = false /\ ssd_outside b (mi_ssd s) (mi_ssd s')).
Section attempt.
Context (s0 : mig) (node : LRU_node_info_t) (root : Z) (t : itree) (m b v : Z).
Let k0 : kfs := mi_kfs s0.
Context (Hr : migration_ready k0 node root t m) (Hp : prepared_plan k0 node root t b v).
Let plan : orchfs_migration_plan := mk_plan node root b (ssdblk_to_devaddr b) (page_data (k_pmem k0) (nvm_page_addr node)) true true.
Lemma attempt_block k : kept (use b (in_use k0)) k0 k -> k_cur k = None /\ bmp_wf (k_bmps k BLOCK_EXT) /\
  0 <= b < bmp_total (k_bmps k BLOCK_EXT) /\ in_use k b = true.
Proof.
  intros K. destruct Hp as (_ & _ & _ & _ & Hb & _). split_and!; [by rewrite (kp_cur _ _ _ K), (mr_cur _ _ _ _ _ Hr)|apply K|lia|rewrite (kp_total _ _ _ K), (mr_total _ _ _ _ _ Hr); lia|].
  unfold in_use. rewrite (kp_bits _ _ _ K). unfold use. by rewrite Z.eqb_refl.
Qed.
Lemma kept_back k k' : kept (use b (in_use k0)) k0 k -> kept (without b (in_use k)) k k' -> kept (in_use k0) k0 k'.
Proof.
  intros K K'. destruct Hp as (_ & _ & _ & _ & _ & Hf). eapply kept_ext; [by eapply kept_trans|]. intros y. rewrite <-(use_without b (in_use k0) Hf y). unfold without.
  f_equal. apply (kp_bits _ _ _ K).
Qed.
Lemma attempt_gives_up s error : kept (use b (in_use k0)) k0 (mi_kfs s) -> ssd_outside b (mi_ssd s0) (mi_ssd s) -> error <> 0 ->
  exists s', orchfs_finish_migration plan error s = Some (error, s') /\ not_migrated s0 s' /\ k_txns (mi_kfs s') = k_txns (mi_kfs s) /\ kept (without b (in_use (mi_kfs s))) (mi_kfs s) (mi_kfs s').
Proof.
  intros K O He. destruct (attempt_block _ K) as (C & W & B & U). pose proof Hp as (_ & _ & _ & _ & Hb & Hf).
  destruct (give_up_kept plan error s W C He) as (s' & R & K' & E & T); [intros _; split; [apply B|done]|].
  unfold given_up in K'. cbn [new_ssd_block_id plan] in K'. replace (0 <=? b) with true in K' by lia.
  exists s'. split; [done|]. split; [|done]. split; [by eapply kept_back|]. right. exists b. split; [done|]. by rewrite E.
Qed.
(** From the written block to the transaction. *)
Lemma attempt_transaction e s : kept (use b (in_use k0)) k0 (mi_kfs s) -> ssd_outside b (mi_ssd s0) (mi_ssd s) ->
  exists r s', ('(error, h) ← lift (create_transaction e);
    if negb (error =? 0) then orchfs_finish_migration plan error;; mret (inl error)
    else
      error ← lift (orchfs_log_transaction_record_allocation h BLOCK_EXT (new_ssd_block_id plan));
      if error =? 0 then
        error ← invoke h (orchfs_finish_migration plan 0);
        if error =? 0 then mret (inr h) else lift (orchfs_log_transaction_abort h);; mret (inl error)
      else orchfs_finish_migration plan error;; lift (orchfs_log_transaction_abort h);; mret (inl error)) s = Some (r, s') /\
    match r with
    | inr h => migrated k0 (mi_kfs s') node root t m b v h /\ mi_ssd s' = mi_ssd s
    | inl error => error <> 0 /\ not_migrated s0 s'
    end.
Proof.
  intros K O. destruct (attempt_block _ K) as (C & W & B & U). pose proof Hp as (_ & _ & _ & _ & Hb & Hf).
  destruct (create_kept e (mi_kfs s) W C) as (error & h & k1 & R1 & K1 & Hx). rewrite (lift_bind _ _ _ _ _ R1). fold (on_kfs k1 s).
  pose proof (kept_ext _ _ _ _ (kept_trans _ _ _ _ _ K K1) (kp_bits _ _ _ K)) as K01.
  destruct (Z.eqb_spec error 0) as [->|He]; cbn [negb].
  2:{ destruct (attempt_gives_up (on_kfs k1 s) error K01 O He) as (s' & R & N & _). rewrite (mg_bind_run _ _ _ _ _ R). by eexists _, _. }
  destruct (record_kept k1 h b (kp_wf _ _ _ K1) (Hx eq_refl) ltac:(lia)) as (error & k2 & x & R2 & K2 & X & Xr & Hc). rewrite (lift_bind _ _ (on_kfs k1 s) _ _ R2).
  pose proof (kept_ext _ _ _ _ (kept_trans _ _ _ _ _ K01 K2) (kp_bits _ _ _ K01)) as K02. change (mk_mig k2 _ _ _) with (on_kfs k2 s). destruct Hc as [[-> ->]|[He Xa]].
  - cbn [Z.eqb]. destruct (finish_bound k0 (on_kfs k2 s) node root t m b v h Hr Hp K02 X (block_data plan)) as (error & s3 & R3 & E3 & H3).
    rewrite (mg_bind_run _ _ _ _ _ R3). destruct H3 as [[-> H3]|(He & K3 & x3 & X3 & X4 & X5)].
    + eexists _, _. split; [reflexivity|]. split; [done|]. exact E3.
    + replace (error =? 0) with false by lia. destruct (attempt_block _ K3) as (C3 & W3 & B3 & U3).
      destruct (abort_kept (mi_kfs s3) h x3 b W3 C3 X3 X4) as (k4 & R4 & K4); [by right|]. rewrite (lift_bind _ _ _ _ _ R4). rewrite bool_decide_false in K4 by (by rewrite X5).
      eexists _, _. split; [reflexivity|]. split; [done|]. split; [by eapply kept_back|]. right. exists b. split; [done|]. cbn. by rewrite E3.
  - replace (error =? 0) with false by lia. destruct (attempt_gives_up (on_kfs k2 s) error K02 O He) as (s3 & R3 & [N1 N2] & T3 & K3). rewrite (mg_bind_run _ _ _ _ _ R3).
    destruct (abort_kept (mi_kfs s3) h x b) as (k4 & R4 & K4); [apply N1|rewrite (kp_cur _ _ _ N1); exact (mr_cur _ _ _ _ _ Hr)|by rewrite T3|done|by left|].
    rewrite (lift_bind _ _ _ _ _ R4). rewrite bool_decide_true in K4 by done. eexists _, _. split; [reflexivity|]. split; [done|]. split; [|done].
    eapply kept_ext; [by eapply kept_trans|]. apply (kp_bits _ _ _ N1).
Qed.
End attempt.

(** C17: Migration moves a block and loses nothing.  Whatever fails (memory, the device with
    a torn write, space, the journal), [migrate_block] ends.  When it ends with a
    transaction to commit, the slot of the block is the new SSD block, which was free and
    now holds exactly the bytes of the eight pages; every other slot of the file, the
    virtual nodes, persistent memory and the rest of the SSD are as before, and, unless the
    transaction has failed, it allocates that block and frees the node and its pages.
    When it ends with an error, no metadata has changed, no block has leaked, and at most a
    free block of the SSD has been overwritten. *)
Theorem migration_moves_block e s node root t m : migration_ready (mi_kfs s) node root t m ->
  exists r s', migrate_block e (new_plan node) s = Some (r, s') /\
    match r with
    | inr h => exists b v, prepared_plan (mi_kfs s) node root t b v /\ migrated (mi_kfs s) (mi_kfs s') node root t m b v h /\
        (forall i, 0 <= i < ORCH_BLOCK_SIZE -> mi_ssd s' (ssdblk_to_devaddr b + i) = page_byte (k_pmem (mi_kfs s)) (nvm_page_addr node) i) /\
        ssd_outside b (mi_ssd s) (mi_ssd s')
    | inl error => error <> 0 /\ not_migrated s s'
    end.
Proof.
  intros Hr. unfold migrate_block. destruct (prepare_io_spec _ _ _ _ _ Hr) as (error & plan & k1 & R1 & Hn & H1). rewrite (lift_bind _ _ _ _ _ R1). fold (on_kfs k1 s).
  destruct H1 as [(He & Hb & K1)|(b & v & -> & Hp & K1 & ->)].
  - replace (error =? 0) with false by lia. rewrite (mg_bind_run (mret error) _ _ error _ eq_refl). replace (error =? 0) with false by lia.
    destruct (give_up_kept plan error (on_kfs k1 s)) as (s2 & R2 & K2 & E2 & _); [apply K1|cbn; rewrite (kp_cur _ _ _ K1); apply Hr|done|lia|].
    rewrite (mg_bind_run _ _ _ _ _ R2). eexists _, _. split; [reflexivity|]. split; [done|]. split; [|left; exact E2].
    unfold given_up in K2. rewrite Hb in K2. change (0 <=? -1) with false in K2. cbv iota in K2. eapply kept_ext; [by eapply kept_trans|]. apply (kp_bits _ _ _ K1).
  - pose proof (prepared_data_len _ _ _ _ _ _ Hp) as Hl. set (data := page_data _ _) in *. cbn [Z.eqb pl_device_offset block_data].
    set (s2 := mk_mig k1 (nvm_write (mi_ssd s) (if me_write e =? 0 then data else take (length data) (me_torn e)) (ssdblk_to_devaddr b)) (mi_queue s) (mi_info s)).
    rewrite (mg_bind_run (device_write e (ssdblk_to_devaddr b) data) _ (on_kfs k1 s) (me_write e) s2 eq_refl). assert (ssd_outside b (mi_ssd s) (mi_ssd s2)) as O.
    { apply write_outside. destruct (me_write e =? 0); [lia|]. unfold len in *. rewrite length_take. lia. }
    destruct (Z.eqb_spec (me_write e) 0) as [Ew|Ew].
    + destruct (attempt_transaction s node root t m b v Hr Hp e s2 K1 O) as (r & s3 & R3 & H3). fold data in R3. eexists r, s3. split; [exact R3|].
      destruct r as [error|h]; [done|]. destruct H3 as [H3 Es]. exists b, v. split; [done|]. split; [done|]. rewrite Es. split; [|done]. intros i Hi.
      cbn [mi_ssd s2]. rewrite nvm_write_in by lia. rewrite Z.add_simpl_l. apply page_data_byte. rewrite <-page_data_len with (m := k_pmem (mi_kfs s)). fold data. lia.
    + destruct (attempt_gives_up s node root t m b v Hr Hp s2 (me_write e) K1 O Ew) as (s3 & R3 & N & _). fold data in R3. rewrite (mg_bind_run _ _ _ _ _ R3). by eexists _, _.
Qed.
End correct.

(** ** A concrete run *)

(** File 0: block 0 is virtual node 0 with pages 0 to 7; page [i] holds bytes [i + 1]. *)
Definition words (l : list Z) : list Z := mjoin (map (le_bytes 8) l).
Definition demo_media : pmem := fun a =>
  if in_range a OFFSET_INDEX 32 then byte_at (words [IDX_ROOT; 0; 1; 0]) (a - OFFSET_INDEX)
  else if in_range a (OFFSET_INDEX + ORCH_IDX_SIZE) 560 then byte_at (words ([LEAF_NODE; 6; 1; 0; 0; 0; 0] ++ repeat (-1) 63)) (a - (OFFSET_INDEX + ORCH_IDX_SIZE))
  else if in_range a OFFSET_VIRND 152 then byte_at (words ([VIR_LEAF_NODE; -1; 8; 0; 1; 2; 3; 4; 5; 6; 7] ++ repeat (-1) 8)) (a - OFFSET_VIRND)
  else if OFFSET_PAGE <=? a then (a - OFFSET_PAGE) / ORCH_PAGE_SIZE + 1 else 0.
Definition demo_bmp (first : Z) (used total : Z) : mem_bmp :=
  mk_bmp true (fun o => if o =? 0 then first else 0) 0 0 used (total / 8) (total / 8) 0 1 (fun _ => 0) 1.
Definition demo_bitmaps (type : Z) : mem_bmp :=
  if type =? IDXND_EXT then demo_bmp 192 2 MAX_INDEX_NUM else if type =? BLOCK_EXT then demo_bmp 128 1 MAX_BLOCK_NUM else demo_bmp 255 8 8.
Definition demo_mig : mig := mk_mig (boot_kfs demo_media demo_bitmaps) (fun _ => 9) (mk_candidates [] []) initial_info.
Definition demo_node : LRU_node_info_t := mk_node_info 0 0 (map nvmpage_to_devaddr [0; 1; 2; 3; 4; 5; 6; 7]).
Definition demo_env : migrate_env := mk_migrate_env 0 0 0 0 0 0 [] true.

Lemma demo_bmp_bits first used total b : 0 <= b -> bits (demo_bmp first used total) b = if b <? 8 then Z.testbit first (7 - b) else false.
Proof.
  intros Hb. unfold bits, bit_set. rewrite mask_set_testbit. cbn [bmp_bytes demo_bmp]. pose proof (Z.div_mod b 8 ltac:(lia)). pose proof (Z.mod_pos_bound b 8 ltac:(lia)).
  destruct (Z.ltb_spec b 8) as [L|L].
  - rewrite Z.div_small, Z.mod_small by lia. done.
  - replace (b / 8 =? 0) with false by (symmetry; apply Z.eqb_neq; lia). apply Z.testbit_0_l.
Qed.
Lemma demo_index_wf : bmp_wf (demo_bmp 192 2 MAX_INDEX_NUM).
Proof.
  split; [split|].
  - intros i. cbn. unfold byte_ok. destruct (i =? 0); lia.
  - by vm_compute.
  - by vm_compute.
  - intros w. cbn. lia.
  - unfold bmp_allocated. change (bmp_total (demo_bmp 192 2 MAX_INDEX_NUM)) with 3145728. symmetry.
    rewrite (count_bits_ext _ (fun x => (x =? 0) || ((x =? 1) || false))).
    + rewrite !count_bits_add, count_bits_false by (reflexivity || (rewrite Z2Nat.id; lia)). reflexivity.
    + intros x Hx. rewrite demo_bmp_bits by lia. destruct (Z.ltb_spec x 8) as [L|L]; [|lia].
      assert (x = 0 \/ x = 1 \/ x = 2 \/ x = 3 \/ x = 4 \/ x = 5 \/ x = 6 \/ x = 7) as Hc by lia. by repeat destruct Hc as [->|Hc]; [..|subst].
Qed.
Lemma demo_block_wf : bmp_wf (demo_bmp 128 1 MAX_BLOCK_NUM).
Proof.
  split; [split|].
  - intros i. cbn. unfold byte_ok. destruct (i =? 0); lia.
  - by vm_compute.
  - by vm_compute.
  - intros w. cbn. lia.
  - unfold bmp_allocated. change (bmp_total (demo_bmp 128 1 MAX_BLOCK_NUM)) with 29687808. symmetry.
    rewrite (count_bits_ext _ (fun x => (x =? 0) || false)).
    + rewrite count_bits_add by (done || (rewrite Z2Nat.id; lia)). by rewrite count_bits_false.
    + intros x Hx. rewrite demo_bmp_bits by lia. destruct (Z.ltb_spec x 8) as [L|L]; [|lia].
      assert (x = 0 \/ x = 1 \/ x = 2 \/ x = 3 \/ x = 4 \/ x = 5 \/ x = 6 \/ x = 7) as Hc by lia. by repeat destruct Hc as [->|Hc]; [..|subst].
Qed.
Lemma demo_migration_file : file_ok (bound (mi_kfs demo_mig)) 0 0 (ILeaf 1 6) 0.
Proof.
  split; [split|by vm_compute..].
  - split; [apply boot_kfs_std|by exists 0; split; [|eexists]|exact demo_index_wf|by vm_compute].
  - by vm_compute.
  - by intros [=].
  - by vm_compute.
  - cbn. split_and!; by vm_compute.
  - intros x ->. by vm_compute.
Qed.
Lemma demo_ready : migration_ready (mi_kfs demo_mig) demo_node 0 (ILeaf 1 6) 0.
Proof.
  split; [exact demo_migration_file|reflexivity|by vm_compute|done|by vm_compute|by vm_compute| |exact demo_block_wf|by vm_compute].
  intros v [= <-] i Hi. unfold VLN_SLOT_SUM in Hi.
  assert (i = 0 \/ i = 1 \/ i = 2 \/ i = 3 \/ i = 4 \/ i = 5 \/ i = 6 \/ i = 7) as Hc by lia. by repeat destruct Hc as [->|Hc]; [..|subst]; vm_compute.
Qed.
(** Block 0 is in use, so the file's block moves to block 1. *)
Lemma migration_moves_block_witness : exists h s', migrate_block demo_env (new_plan demo_node) demo_mig = Some (inr h, s') /\
  file_slot (bound (mi_kfs s')) (ILeaf 1 6) 0 = (false, 1) /\
  map (fun i => mi_ssd s' (ssdblk_to_devaddr 1 + i)) [0; 4095; 4096; 32767] = [1; 1; 2; 8].
Proof.
  destruct (migration_moves_block demo_env demo_mig demo_node 0 (ILeaf 1 6) 0 demo_ready) as (r & s' & R & H).
  assert (option_map (fun x => match x with (inr h, s) => Some (h, file_slot (bound (mi_kfs s)) (ILeaf 1 6) 0) | _ => None end)
    (migrate_block demo_env (new_plan demo_node) demo_mig) = Some (Some (0, (false, 1)))) as E by (vm_compute; reflexivity).
  rewrite R in E. destruct r as [error|h]; [discriminate E|]. cbn [option_map] in E. set (slot := file_slot _ _ _) in E.
  assert (slot = (false, 1)) as Hs by congruence. assert (h = 0) as -> by congruence. subst slot. exists 0, s'. split; [exact R|]. split; [exact Hs|].
  destruct H as (b & v & _ & M & Hc & _). assert (b = 1) as ->.
  { pose proof (mg_slots _ _ _ _ _ _ _ _ _ M 0 ltac:(lia)) as Hb. change (lru_offset demo_node) with 0 in Hb. change (0 =? 0) with true in Hb. cbv iota in Hb. rewrite Hs in Hb. congruence. }
  change ORCH_BLOCK_SIZE with 32768 in Hc. clear R Hs M. cbn [map].
  pose proof (Hc 0 ltac:(lia)) as H0. pose proof (Hc 4095 ltac:(lia)) as H1. pose proof (Hc 4096 ltac:(lia)) as H2. pose proof (Hc 32767 ltac:(lia)) as H3.
  rewrite H0, H1, H2, H3. vm_compute. reflexivity.
Defined.
