(* ===== verification/JournalService.v ===== *)
(** * The commits of all workers (class JournalService of Async/kfs_coroutine_core.cpp)

    Coroutines on every worker hand their transactions to worker 0, which commits them in
    batches and resumes the coroutines with the outcome.  Requests, worker 0 and the other
    workers run in any interleaving; commits are those of Journal.v on the state of the
    file system. *)

From stdpp Require Import base tactics numbers list gmap relations.
From Stdlib Require Import ZArith Lia.
From S2P Require Import Prelude Bytes Layout Pmem DiskFormat Bitmap KernelFunc Frame Kfs MetaCache Txn LibSpace Journal.
Open Scope Z_scope.

(** ** Commits outside of any bound transaction *)

(** A program that, run on a thread without a bound transaction, comes to an end and
    leaves all transactions alone. *)
Definition calm {A} (c : M A) : Prop := forall s, k_cur s = None -> exists x s', c s = Some (x, s') /\ k_cur s' = None /\ k_txns s' = k_txns s.
Lemma calm_ret {A} (x : A) : calm (mret x).
Proof. intros s Hc. by exists x, s. Qed.
Lemma calm_bind {A B} (c : M A) (f : A -> M B) : calm c -> (forall x, calm (f x)) -> calm (c ≫= f).
Proof.
  intros Hc Hf s H. destruct (Hc s H) as (x & s1 & R1 & C1 & T1). destruct (Hf x s1 C1) as (y & s2 & R2 & C2 & T2).
  exists y, s2. rewrite (bind_run _ _ _ _ _ R1). split; [done|]. split; [done|]. congruence.
Qed.
Lemma calm_gets {A} (f : kfs -> A) : calm (gets f).
Proof. intros s H. by exists (f s), s. Qed.
Lemma calm_modify f : (forall s, k_cur (f s) = k_cur s /\ k_txns (f s) = k_txns s) -> calm (modify f).
Proof. intros Hf s H. destruct (Hf s) as [E1 E2]. exists tt, (f s). split; [done|]. by rewrite E1, E2. Qed.
Lemma calm_if {A} (b : bool) (c c' : M A) : calm c -> calm c' -> calm (if b then c else c').
Proof. by destruct b. Qed.
Lemma calm_foreach {A} (f : A -> M unit) l : (forall x, calm (f x)) -> calm (mforeach f l).
Proof. intros Hf. induction l as [|x l IH]; cbn [mforeach]; [apply calm_ret|]. by apply calm_bind. Qed.

Section service.
Context `{Mo : MallocOracle}.

Lemma calm_malloc : calm malloc.
Proof. intros s H. by eexists _, _. Qed.
Lemma calm_alloc f n ty : calm (call_alloc f n ty).
Proof. intros s H. unfold call_alloc. destruct (f _ _ _ _) as [[e r] arr]. by eexists _, _. Qed.
Lemma calm_dealloc f n ty : calm (call_dealloc f n ty).
Proof. intros s H. unfold call_dealloc. destruct (f _ _ _) as [e arr]. by eexists _, _. Qed.
Lemma calm_apply b frame : calm (call_apply_frame b frame).
Proof. intros s H. unfold call_apply_frame. destruct (apply_frame _ _ _ _) as [[e m] arr]. by eexists _, _. Qed.
Ltac calm := repeat match goal with
  | |- forall _, _ => intro
  | |- calm (_ ≫= _) => apply calm_bind
  | |- calm (if _ then _ else _) => apply calm_if
  | |- calm (mforeach _ _) => apply calm_foreach
  | |- calm (match ?o with _ => _ end) => destruct o
  | |- calm (let '(_, _) := ?o in _) => destruct o
  | |- calm _ => first [apply calm_ret|apply calm_gets|apply calm_malloc|apply calm_alloc|apply calm_dealloc|apply calm_apply|apply calm_modify; done|assumption]
  end.
Lemma calm_release ty b : calm (release ty b).
Proof.
  unfold release, set_errno, release_one. apply calm_if; [calm|]. apply calm_bind; [|calm].
  intros s H. unfold orchfs_log_defer_current_release, gets, mbind, M_bind. rewrite H. by exists 0, s.
Qed.
Lemma calm_location ty block off n : calm (metadata_location ty block off n).
Proof.
  unfold metadata_location, inodeid_to_memaddr, indexid_to_memaddr, virnodeid_to_memaddr, id_to_memaddr, load_segment, set_errno, dev_read. calm.
Qed.
Lemma calm_build t txid : calm (build_frame t txid).
Proof.
  assert (forall r, calm (record_target r)) as Ht by (intros r; unfold record_target; pose proof calm_location; calm; apply calm_location).
  assert (forall recs sizes, calm (size_records recs sizes)) as Hs.
  { induction recs as [|r recs IH]; intros sizes; cbn [size_records]; [calm|]. calm; auto. }
  assert (forall recs, calm (resolve_records recs)) as Hr.
  { induction recs as [|r recs IH]; cbn [resolve_records]; calm; auto. }
  unfold build_frame. calm; auto.
Qed.
Lemma calm_commit_one t : calm (commit_one t).
Proof. unfold commit_one, write_checkpoint, clear_journal, dev_write. calm. apply calm_build. Qed.
Lemma calm_by_type a : calm (release_by_type a).
Proof. unfold release_by_type, release_inode, release_index_node, release_virindex_node, release_buffer_metadata, release_nvm_page, release_ssd_block. calm; apply calm_release. Qed.
Lemma calm_reload r : calm (reload_record r).
Proof. unfold reload_record, dev_read, mem_write. calm. apply calm_location. Qed.
(** The transaction is gone afterwards, whatever the outcome. *)
Definition ends (h : Z) {A} (c : M A) : Prop := forall s, k_cur s = None -> is_Some (k_txns s !! h) ->
  exists x s', c s = Some (x, s') /\ k_cur s' = None /\ k_txns s' = delete h (k_txns s).
Lemma ends_bind {A B} h (c : M A) (f : A -> M B) : calm c -> (forall x, ends h (f x)) -> ends h (c ≫= f).
Proof.
  intros Hc Hf s H Hl. destruct (Hc s H) as (x & s1 & R1 & C1 & T1). destruct (Hf x s1 C1) as (y & s2 & R2 & C2 & T2); [by rewrite T1|].
  exists y, s2. rewrite (bind_run _ _ _ _ _ R1). split; [done|]. split; [done|]. congruence.
Qed.
Lemma ends_get {B} h (f : orchfs_log_transaction -> M B) : (forall t, ends h (f t)) -> ends h (get_txn h ≫= f).
Proof. intros Hf s H [t Ht]. destruct (Hf t s H) as (y & s2 & R2 & ?); [done|]. exists y, s2. split; [|done]. unfold get_txn, mbind, M_bind. by rewrite Ht. Qed.
Lemma ends_free h : ends h (free_txn h).
Proof. intros s H _. by eexists tt, _. Qed.
Lemma ends_result {A B} h (c : M A) (x : B) : ends h c -> ends h (c;; mret x).
Proof. intros Hc s H Hl. destruct (Hc s H Hl) as (y & s1 & R1 & ?). exists x, s1. by rewrite (bind_run _ _ _ _ _ R1). Qed.
Lemma abort_ends h : ends h (orchfs_log_transaction_abort h).
Proof.
  unfold orchfs_log_transaction_abort, free_allocations, free_deallocations. apply ends_bind.
  { intros s H. exists tt. eexists. split; [done|]. by rewrite H. }
  intros _. apply ends_get. intros t. do 3 (apply ends_bind; [first [apply calm_foreach; intros; first [apply calm_reload|apply calm_by_type]|apply calm_ret]|intros _]). apply ends_free.
Qed.
Lemma commit_member_ends h : ends h (commit_member h).
Proof.
  unfold commit_member, free_allocations, free_deallocations. apply ends_get. intros t. apply ends_bind; [apply calm_if; [apply calm_ret|apply calm_commit_one]|]. intros e.
  destruct (negb _); [apply ends_result, abort_ends|]. apply ends_get. intros t'. apply ends_bind; [apply calm_ret|]. intros _.
  apply ends_bind; [apply calm_foreach; intros; apply calm_by_type|]. intros _. apply ends_result, ends_free.
Qed.

(** ** The service *)

(** The word the two sides hand over with. *)
Inductive wait_word := submitting | suspended | completed.
(** Where the coroutine of a request is. *)
Inductive waiter := at_push | at_exchange | at_rest | resumed.
(** [q_given]: the transaction it was made for; [q_transaction]: null once worker 0 has taken it; [q_error]: [error_], 0 for none. *)
Record commit_request := mk_commit { q_given : Z; q_transaction : option Z; q_waiter : waiter; q_word : wait_word; q_error : Z }.
(** Worker 0: between two polls, in [orchfs_log_transaction_commit_group], completing. *)
Inductive committer := p_idle | p_commit (todo : list (nat * Z)) (done : list (nat * Z)) | p_complete (done : list (nat * Z)).
(** One committed request: its transaction, the outcome, the file system before and after. *)
Record committed := mk_committed { h_request : nat; h_transaction : Z; h_error : Z; h_before : kfs; h_after : kfs }.
(** [js_pushed], [js_history]: the requests in the order they were pushed, the commits in
    the order they happened. *)
Record service_state := mk_service {
  js_kfs : kfs; js_requests : gmap nat commit_request; js_inbox : list nat; js_local : list nat; js_committer : committer;
  js_pushed : list nat; js_history : list committed;
}.
Definition kMaximumCommitBatch : nat := 64.
Definition owner_of (s : service_state) (h : Z) : Prop :=
  (exists i r, js_requests s !! i = Some r /\ q_transaction r = Some h) \/
  (exists todo done i, js_committer s = p_commit todo done /\ (i, h) ∈ todo).
Definition put_request (i : nat) (r : commit_request) (s : service_state) : service_state :=
  mk_service (js_kfs s) (<[i := r]> (js_requests s)) (js_inbox s) (js_local s) (js_committer s) (js_pushed s) (js_history s).
Definition set_kfs (k : kfs) (s : service_state) : service_state :=
  mk_service k (js_requests s) (js_inbox s) (js_local s) (js_committer s) (js_pushed s) (js_history s).
Definition set_committer (p : committer) (s : service_state) : service_state :=
  mk_service (js_kfs s) (js_requests s) (js_inbox s) (js_local s) p (js_pushed s) (js_history s).

(** [take_transaction] of the requests of a batch. *)
Definition take_transaction (r : commit_request) : commit_request := mk_commit (q_given r) None (q_waiter r) (q_word r) (q_error r).
Fixpoint take_batch (l : list nat) (m : gmap nat commit_request) : list (nat * Z) * gmap nat commit_request :=
  match l with
  | [] => ([], m)
  | i :: l =>
      match m !! i with
      | Some r =>
          let '(batch, m) := take_batch l (<[i := take_transaction r]> m) in
          ((i, default 0 (q_transaction r)) :: batch, m)
      | None => take_batch l m
      end
  end.

(** [None]: [std::terminate]. *)
Inductive service_step : service_state -> option service_state -> Prop :=
(* other workers: they have no access to a transaction that was handed over *)
| sv_work s k : k_cur k = None -> (forall h, owner_of s h -> k_txns k !! h = k_txns (js_kfs s) !! h) -> service_step s (Some (set_kfs k s))
(* the constructor of [CommitAwaiter] *)
| sv_new s i h t : js_requests s !! i = None -> ~ owner_of s h -> k_txns (js_kfs s) !! h = Some t -> orchfs_log_transaction_is_empty t = false ->
    service_step s (Some (put_request i (mk_commit h (Some h) at_push submitting 0) s))
| sv_empty s i h t e k : js_requests s !! i = None -> ~ owner_of s h -> k_txns (js_kfs s) !! h = Some t -> orchfs_log_transaction_is_empty t = true ->
    orchfs_log_transaction_commit h (js_kfs s) = Some (e, k) -> service_step s (Some (set_kfs k (put_request i (mk_commit h None resumed completed e) s)))
(* [await_suspend] *)
| sv_outside s i r h k error : js_requests s !! i = Some r -> q_waiter r = at_push -> q_transaction r = Some h ->
    orchfs_log_transaction_abort h (js_kfs s) = Some (tt, k) -> service_step s (Some (set_kfs k (put_request i (mk_commit (q_given r) None resumed completed error) s)))
| sv_push s i r : js_requests s !! i = Some r -> q_waiter r = at_push ->
    service_step s (Some (mk_service (js_kfs s) (<[i := mk_commit (q_given r) (q_transaction r) at_exchange (q_word r) (q_error r)]> (js_requests s))
      (i :: js_inbox s) (js_local s) (js_committer s) (js_pushed s ++ [i]) (js_history s)))
| sv_exchange s i r : js_requests s !! i = Some r -> q_waiter r = at_exchange ->
    service_step s (match q_word r with
      | submitting => Some (put_request i (mk_commit (q_given r) (q_transaction r) at_rest suspended (q_error r)) s)
      | completed => Some (put_request i (mk_commit (q_given r) (q_transaction r) resumed completed (q_error r)) s)
      | suspended => None
      end)
(* [poll_once] *)
| sv_poll s local batch m : js_committer s = p_idle -> local = (if bool_decide (js_local s = []) then reverse (js_inbox s) else js_local s) -> local <> [] ->
    take_batch (take kMaximumCommitBatch local) (js_requests s) = (batch, m) ->
    service_step s (Some (mk_service (js_kfs s) m (if bool_decide (js_local s = []) then [] else js_inbox s) (drop kMaximumCommitBatch local) (p_commit batch [])
      (js_pushed s) (js_history s)))
| sv_commit s i h todo done e k : js_committer s = p_commit ((i, h) :: todo) done -> commit_member h (js_kfs s) = Some (e, k) ->
    service_step s (Some (mk_service k (js_requests s) (js_inbox s) (js_local s) (p_commit todo (done ++ [(i, e)])) (js_pushed s)
      (js_history s ++ [mk_committed i h e (js_kfs s) k])))
| sv_committed s done : js_committer s = p_commit [] done -> service_step s (Some (set_committer (p_complete done) s))
(* [complete_on_owner] *)
| sv_complete s i e done r : js_committer s = p_complete ((i, e) :: done) -> js_requests s !! i = Some r ->
    service_step s (match q_word r with
      | submitting => Some (set_committer (p_complete done) (put_request i (mk_commit (q_given r) (q_transaction r) (q_waiter r) completed e) s))
      | suspended => match q_waiter r with
                     | at_rest => Some (set_committer (p_complete done) (put_request i (mk_commit (q_given r) (q_transaction r) resumed completed e) s))
                     | _ => None
                     end
      | completed => None
      end)
| sv_done s : js_committer s = p_complete [] -> service_step s (Some (set_committer p_idle s)).
Definition new_service (k : kfs) : service_state := mk_service k ∅ [] [] p_idle [] [].
Inductive service_reachable (k : kfs) : service_state -> Prop :=
| svr_new : service_reachable k (new_service k)
| svr_step s s' : service_reachable k s -> service_step s (Some s') -> service_reachable k s'.

(** [poll_once] commits a batch as one group; without a bound transaction that is one
    commit after the other. *)
Lemma group_is_members hs s : k_cur s = None -> orchfs_log_transaction_commit_group hs s = (es ← commit_members hs; mret (0, es)) s.
Proof.
  intros H. unfold orchfs_log_transaction_commit_group. rewrite (bind_run (gets k_cur) _ s (k_cur s) s) by done. rewrite H.
  destruct (existsb _ hs) eqn:E; [|done]. apply existsb_exists in E as (h & _ & E). by apply bool_decide_eq_true in E.
Qed.
Lemma commit_ends h : ends h (orchfs_log_transaction_commit h).
Proof.
  intros s H Hl. destruct (commit_member_ends h s H Hl) as (e & s' & R & C & T). unfold orchfs_log_transaction_commit.
  exists e, s'. rewrite (bind_run _ _ s (0, [e]) s'); [done|]. rewrite group_is_members by done. cbn [commit_members].
  rewrite (bind_run _ _ s [e] s'); [done|]. by rewrite (bind_run _ _ _ _ _ R).
Qed.

Lemma take_batch_spec l : forall m, NoDup l -> (forall i, i ∈ l -> exists r h, m !! i = Some r /\ q_transaction r = Some h) ->
  exists batch m', take_batch l m = (batch, m') /\ map fst batch = l /\
    (forall i, m' !! i = if bool_decide (i ∈ l) then take_transaction <$> m !! i else m !! i) /\
    (forall i h, (i, h) ∈ batch -> exists r, m !! i = Some r /\ q_transaction r = Some h).
Proof.
  induction l as [|i l IH]; intros m ND Hl; cbn [take_batch].
  { exists [], m. split_and!; try done. intros i h E. by apply not_elem_of_nil in E. }
  apply NoDup_cons in ND as [Ni ND]. destruct (Hl i) as (r & h & Ei & Eh); [apply elem_of_cons; by left|]. rewrite Ei.
  destruct (IH (<[i := take_transaction r]> m) ND) as (batch & m' & -> & E1 & E2 & E3).
  { intros j Hj. destruct (Hl j) as (r' & h' & ? & ?); [apply elem_of_cons; by right|]. exists r', h'. rewrite lookup_insert_ne by (intros ->; done). done. }
  exists ((i, h) :: batch), m'. rewrite Eh. split; [done|]. split; [cbn; congruence|]. split.
  - intros j. rewrite E2. destruct (decide (j = i)) as [->|N].
    + rewrite lookup_insert_eq, Ei, bool_decide_eq_false_2 by done. rewrite bool_decide_eq_true_2; [done|]. apply elem_of_cons. by left.
    + rewrite lookup_insert_ne by done. rewrite (bool_decide_ext (j ∈ i :: l) (j ∈ l)); [done|]. rewrite elem_of_cons. naive_solver.
  - intros j h'. rewrite elem_of_cons. intros [[= -> ->]|Hj]; [by exists r|]. destruct (E3 j h' Hj) as (r' & Ej & Eh'). exists r'. split; [|done].
    destruct (decide (j = i)) as [->|N]; [|by rewrite lookup_insert_ne in Ej by done].
    rewrite lookup_insert_eq in Ej. by injection Ej as <-.
Qed.

(** ** Where every request is *)

Definition todo_of (s : service_state) : list (nat * Z) := match js_committer s with p_commit todo _ => todo | _ => [] end.
Definition done_of (s : service_state) : list (nat * Z) := match js_committer s with p_commit _ done | p_complete done => done | p_idle => [] end.
Definition owns (s : service_state) (i : nat) (h : Z) : Prop :=
  (exists r, js_requests s !! i = Some r /\ q_transaction r = Some h) \/ (i, h) ∈ todo_of s.
(** The requests worker 0 has not completed. *)
Definition unfinished (s : service_state) (i : nat) : Prop :=
  (i ∈ map fst (todo_of s)) \/ (i ∈ map fst (done_of s)) \/ (i ∈ js_local s) \/ i ∈ js_inbox s.
Definition outcome_of (s : service_state) (i : nat) (e : Z) : Prop := exists c, c ∈ js_history s /\ h_request c = i /\ h_error c = e.
Record service_inv (s : service_state) : Prop := {
  j_cur : k_cur (js_kfs s) = None;
  j_order : js_pushed s = map h_request (js_history s) ++ map fst (todo_of s) ++ js_local s ++ reverse (js_inbox s);
  j_nodup : NoDup (js_pushed s);
  j_known : forall i, i ∈ js_pushed s -> exists r, js_requests s !! i = Some r /\ q_waiter r <> at_push;
  j_push : forall i r, js_requests s !! i = Some r -> q_waiter r = at_push -> q_word r = submitting /\ is_Some (q_transaction r);
  j_queued : forall i, (i ∈ js_local s) \/ i ∈ js_inbox s -> exists r h, js_requests s !! i = Some r /\ q_transaction r = Some h;
  j_taken : forall i r h, js_requests s !! i = Some r -> q_transaction r = Some h -> i ∉ map fst (todo_of s);
  j_given : forall i r h, js_requests s !! i = Some r -> owns s i h -> q_given r = h;
  j_committed : forall c r, c ∈ js_history s -> js_requests s !! h_request c = Some r -> q_given r = h_transaction c;
  j_live : forall i h, owns s i h -> is_Some (k_txns (js_kfs s) !! h);
  j_owner : forall i j h, owns s i h -> owns s j h -> i = j;
  j_open : forall i r, js_requests s !! i = Some r -> unfinished s i -> q_waiter r = at_exchange /\ q_word r = submitting \/ q_waiter r = at_rest /\ q_word r = suspended;
  j_rest : forall i r, js_requests s !! i = Some r -> q_waiter r = at_rest -> unfinished s i;
  j_exchange : forall i r, js_requests s !! i = Some r -> q_waiter r = at_exchange -> unfinished s i \/ q_word r = completed;
  j_word : forall i r, js_requests s !! i = Some r -> i ∈ js_pushed s -> q_word r = completed -> outcome_of s i (q_error r);
  j_resumed : forall i r, js_requests s !! i = Some r -> q_waiter r = resumed -> q_word r = completed;
  j_done : forall i e, (i, e) ∈ done_of s -> outcome_of s i e;
  j_done_nodup : NoDup (map fst (done_of s));
  j_history : Forall (fun c => commit_member (h_transaction c) (h_before c) = Some (h_error c, h_after c)) (js_history s);
}.
Lemma new_service_inv k : k_cur k = None -> service_inv (new_service k).
Proof.
  intros H. split; cbn; try done; try constructor; try (by intros ? ?%not_elem_of_nil); try (by intros i r E; rewrite lookup_empty in E).
  - intros i [E|E]; by apply not_elem_of_nil in E.
  - intros i h [(r & E & _)|E]; cbn in E; [by rewrite lookup_empty in E|by apply not_elem_of_nil in E].
  - intros i j h [(r & E & _)|E]; cbn in E; [by rewrite lookup_empty in E|by apply not_elem_of_nil in E].
  - intros i e E. by apply not_elem_of_nil in E.
Qed.

Lemma queued_pushed s i : service_inv s -> (i ∈ map fst (todo_of s)) \/ (i ∈ js_local s) \/ (i ∈ js_inbox s) -> i ∈ js_pushed s.
Proof. intros [_ Ho _ _ _ _ _ _ _ _ _ _ _ _ _ _ _ _ _]. rewrite Ho, !elem_of_app, elem_of_reverse. tauto. Qed.
Lemma outcome_pushed s i e : service_inv s -> outcome_of s i e -> i ∈ js_pushed s.
Proof.
  intros [_ Ho _ _ _ _ _ _ _ _ _ _ _ _ _ _ _ _ _] (c & Hc & <- & _). rewrite Ho, !elem_of_app. left. by apply list_elem_of_fmap_2.
Qed.
Lemma done_pushed s i : service_inv s -> i ∈ map fst (done_of s) -> i ∈ js_pushed s.
Proof. intros I ([i' e] & -> & Hd)%list_elem_of_fmap. by eapply outcome_pushed, j_done. Qed.
Lemma unfinished_pushed s i : service_inv s -> unfinished s i -> i ∈ js_pushed s.
Proof. intros I [H|[H|[H|H]]]; [apply queued_pushed; auto|by apply done_pushed|apply queued_pushed; auto|apply queued_pushed; auto]. Qed.
(** A request that was committed is no longer waiting for it. *)
Lemma outcome_not_queued s i e : service_inv s -> outcome_of s i e -> (i ∉ map fst (todo_of s)) /\ (i ∉ js_local s) /\ i ∉ js_inbox s.
Proof.
  intros [_ Ho Hn _ _ _ _ _ _ _ _ _ _ _ _ _ _ _ _] (c & Hc & <- & _). rewrite Ho in Hn. apply NoDup_app in Hn as (_ & Hn & _).
  specialize (Hn (h_request c)). rewrite !elem_of_app, elem_of_reverse in Hn. assert (h_request c ∈ map h_request (js_history s)) as Hin by by apply list_elem_of_fmap_2. naive_solver.
Qed.

(** Other workers, and the transactions they hand over. *)
Lemma owner_owns s i h : owns s i h -> owner_of s h.
Proof.
  intros [(r & E & Eh)|E]; [left; by exists i, r|]. right. unfold todo_of in E. destruct (js_committer s) as [|todo dn|dn] eqn:Ec; [by apply not_elem_of_nil in E| |by apply not_elem_of_nil in E].
  by exists todo, dn, i.
Qed.
Lemma inv_work s k : service_inv s -> k_cur k = None -> (forall h, owner_of s h -> k_txns k !! h = k_txns (js_kfs s) !! h) -> service_inv (set_kfs k s).
Proof.
  intros [] Hc Hk. split; try done. intros i h Hi. assert (owns s i h) as Hi' by exact Hi. cbn. rewrite Hk by by eapply owner_owns. by eapply j_live0.
Qed.
Lemma inv_new s i r : service_inv s -> js_requests s !! i = None -> q_waiter r = at_push \/ q_waiter r = resumed -> (q_waiter r = at_push -> q_word r = submitting /\ is_Some (q_transaction r)) ->
  (q_waiter r = resumed -> q_word r = completed) ->
  (forall h, q_transaction r = Some h -> q_given r = h /\ ~ owner_of s h /\ is_Some (k_txns (js_kfs s) !! h)) -> service_inv (put_request i r s).
Proof.
  intros I Hi Hw Hp Hr Hh. assert (i ∉ js_pushed s) as Ni by (intros H; destruct (j_known s I i H) as (r' & E & _); congruence).
  assert (forall j, unfinished (put_request i r s) j -> unfinished s j) as Hu by done.
  assert (~ unfinished s i) as Nu by (intros H; by apply Ni, unfinished_pushed).
  assert (forall j h, owns (put_request i r s) j h -> j = i /\ q_transaction r = Some h \/ owns s j h) as Hown.
  { intros j h [(r' & E & Eh)|E]; [|right; by right]. cbn in E. apply lookup_insert_Some in E as [[<- <-]|[_ E]]; [by left|]. right. left. by exists r'. }
  pose proof I as []. split; try done.
  - intros j Hj. destruct (j_known0 j Hj) as (r' & E & ?). exists r'. cbn. rewrite lookup_insert_ne by congruence. done.
  - intros j r'. cbn. rewrite lookup_insert_Some. intros [[<- <-]|[_ E]]; [done|by eapply j_push0].
  - intros j Hj. destruct (j_queued0 j Hj) as (r' & h & E & ?). exists r', h. cbn. rewrite lookup_insert_ne by congruence. done.
  - intros j r' h. cbn. rewrite lookup_insert_Some. intros [[<- <-]|[_ E]] Eh; [|by eapply j_taken0]. intros H. apply Nu. by left.
  - intros j r' h. cbn. rewrite lookup_insert_Some. intros [[<- <-]|[N E]] Hj; [|destruct (Hown j h Hj) as [[-> _]|Ho]; [done|by eapply j_given0]].
    destruct (Hown i h Hj) as [[_ Eh]|[(r' & E & _)|E]]; [by apply Hh|congruence|]. destruct Nu. left. apply list_elem_of_fmap. by exists (i, h).
  - intros c r' Hc. cbn. rewrite lookup_insert_Some. intros [[E <-]|[_ E]]; [|by eapply j_committed0]. destruct Ni. subst i. apply (outcome_pushed s _ (h_error c) I). by exists c.
  - intros j h Hj. cbn. destruct (Hown j h Hj) as [[-> Eh]|Ho]; [by apply Hh|by eapply j_live0].
  - intros j j' h Hj Hj'. destruct (Hown j h Hj) as [[-> Eh]|Ho], (Hown j' h Hj') as [[-> Eh']|Ho']; [done|..].
    + destruct (Hh h Eh) as (_ & N & _). destruct N. by eapply owner_owns.
    + destruct (Hh h Eh') as (_ & N & _). destruct N. by eapply owner_owns.
    + by eapply j_owner0.
  - intros j r'. cbn. rewrite lookup_insert_Some. intros [[<- <-]|[_ E]] H; [done|by eapply j_open0].
  - intros j r'. cbn. rewrite lookup_insert_Some. intros [[<- <-]|[_ E]] H; [destruct Hw; congruence|by eapply j_rest0].
  - intros j r'. cbn. rewrite lookup_insert_Some. intros [[<- <-]|[_ E]] H; [destruct Hw; congruence|by eapply j_exchange0].
  - intros j r'. cbn. rewrite lookup_insert_Some. intros [[<- <-]|[_ E]] H; [done|by eapply j_word0].
  - intros j r'. cbn. rewrite lookup_insert_Some. intros [[<- <-]|[_ E]] H; [by apply Hr|by eapply j_resumed0].
Qed.
(** One request goes on, and worker 0 may have finished with it. *)
Lemma inv_update s i r r' p : service_inv s -> js_requests s !! i = Some r ->
  let s' := set_committer p (put_request i r' s) in
  q_given r' = q_given r ->
  todo_of s' = todo_of s -> (forall x, x ∈ done_of s' -> x ∈ done_of s) -> NoDup (map fst (done_of s')) -> (forall j, j <> i -> unfinished s' j <-> unfinished s j) ->
  q_transaction r' = q_transaction r \/ q_transaction r' = None /\ i ∉ js_pushed s -> q_waiter r' <> at_push ->
  (unfinished s' i -> q_waiter r' = at_exchange /\ q_word r' = submitting \/ q_waiter r' = at_rest /\ q_word r' = suspended) ->
  (q_waiter r' = at_rest -> unfinished s' i) -> (q_waiter r' = at_exchange -> unfinished s' i \/ q_word r' = completed) ->
  (i ∈ js_pushed s -> q_word r' = completed -> outcome_of s i (q_error r')) -> (q_waiter r' = resumed -> q_word r' = completed) -> service_inv s'.
Proof.
  intros I Hi s' Hg Ht Hd Hdn Hu Htr Hnp H1 H2 H3 H4 H5.
  assert (forall j h, owns s' j h -> owns s j h) as Hown.
  { intros j h [(q & E & Eh)|E]; [|right; by rewrite Ht in E]. cbn in E. apply lookup_insert_Some in E as [[<- <-]|[_ E]]; [|left; by exists q].
    left. exists r. split; [done|]. destruct Htr as [<-|[E' _]]; congruence. }
  pose proof I as []. split; try done; try (by rewrite ?Ht).
  - intros j Hj. destruct (j_known0 j Hj) as (q & E & Hq). cbn. destruct (decide (j = i)) as [->|N]; [exists r'; by rewrite lookup_insert_eq|exists q; by rewrite lookup_insert_ne by done].
  - intros j q. cbn. rewrite lookup_insert_Some. intros [[<- <-]|[_ E]] H; [done|by eapply j_push0].
  - intros j Hj. destruct (j_queued0 j Hj) as (q & h & E & Eh). cbn. destruct (decide (j = i)) as [->|N]; [|exists q, h; by rewrite lookup_insert_ne by done].
    exists r', h. rewrite lookup_insert_eq. split; [done|]. destruct Htr as [Htr|[_ Hn]]; [congruence|]. destruct Hn. apply queued_pushed; auto.
  - intros j q h. rewrite Ht. cbn. rewrite lookup_insert_Some. intros [[<- <-]|[_ E]] Eh; [|by eapply j_taken0]. eapply j_taken0; [exact Hi|]. destruct Htr as [<-|[E _]]; [done|congruence].
  - intros j q h. cbn. rewrite lookup_insert_Some. intros [[<- <-]|[N E]] Hj; [rewrite Hg|]; by eapply j_given0, Hown.
  - intros c q Hc. cbn. rewrite lookup_insert_Some. intros [[E <-]|[N E]]; [rewrite Hg; eapply j_committed0; [done|congruence]|by eapply j_committed0].
  - intros j h Hj. by eapply j_live0, Hown.
  - intros j j' h Hj Hj'. eapply j_owner0; by apply Hown.
  - intros j q. cbn. rewrite lookup_insert_Some. intros [[<- <-]|[N E]] H; [by apply H1|]. eapply j_open0; [done|by apply Hu].
  - intros j q. cbn. rewrite lookup_insert_Some. intros [[<- <-]|[N E]] H; [by apply H2|]. apply Hu; [done|by eapply j_rest0].
  - intros j q. cbn. rewrite lookup_insert_Some. intros [[<- <-]|[N E]] H; [by apply H3|]. destruct (j_exchange0 j q E H); [left; by apply Hu|by right].
  - intros j q. cbn. rewrite lookup_insert_Some. intros [[<- <-]|[N E]] H; [by apply H4|by eapply j_word0].
  - intros j q. cbn. rewrite lookup_insert_Some. intros [[<- <-]|[N E]] H; [by apply H5|by eapply j_resumed0].
  - intros j e Hj. by apply j_done0, Hd.
Qed.
Lemma inv_push s i r : service_inv s -> js_requests s !! i = Some r -> q_waiter r = at_push ->
  service_inv (mk_service (js_kfs s) (<[i := mk_commit (q_given r) (q_transaction r) at_exchange (q_word r) (q_error r)]> (js_requests s))
      (i :: js_inbox s) (js_local s) (js_committer s) (js_pushed s ++ [i]) (js_history s)).
Proof.
  intros I Hi Hw. assert (i ∉ js_pushed s) as Ni by (intros H; destruct (j_known s I i H) as (r' & E & ?); congruence).
  destruct (j_push s I i r Hi Hw) as [Hword [h Hh]]. set (s' := mk_service _ _ _ _ _ _ _). set (r' := mk_commit _ _ _ _ _) in *.
  assert (forall j, unfinished s' j <-> j = i \/ unfinished s j) as Hu by (intros j; unfold unfinished; cbn; rewrite elem_of_cons; tauto).
  assert (forall j h, owns s' j h -> owns s j h) as Hown.
  { intros j h' [(q & E & Eh)|E]; [|by right]. cbn in E. apply lookup_insert_Some in E as [[<- <-]|[_ E]]; left; [by exists r|by exists q]. }
  pose proof I as []. split; try done.
  - change (js_pushed s ++ [i] = map h_request (js_history s) ++ map fst (todo_of s) ++ js_local s ++ reverse (i :: js_inbox s)). rewrite j_order0, reverse_cons, <-!app_assoc. done.
  - cbn. apply NoDup_app. split; [done|]. split; [|apply NoDup_singleton]. intros x Hx E%list_elem_of_singleton. by subst.
  - intros j. cbn. rewrite elem_of_app, list_elem_of_singleton. destruct (decide (j = i)) as [->|N]; [exists r'; by rewrite lookup_insert_eq|].
    intros [Hj|]; [|done]. destruct (j_known0 j Hj) as (q & E & ?). exists q. by rewrite lookup_insert_ne by done.
  - intros j q. cbn. rewrite lookup_insert_Some. intros [[<- <-]|[_ E]] H; [done|by eapply j_push0].
  - intros j. cbn. rewrite elem_of_cons. destruct (decide (j = i)) as [->|N]; [exists r', h; by rewrite lookup_insert_eq|]. intros Hj.
    destruct (j_queued0 j) as (q & h' & E & ?); [tauto|]. exists q, h'. by rewrite lookup_insert_ne by done.
  - intros j q h'. cbn. rewrite lookup_insert_Some. intros [[<- <-]|[_ E]] Eh; [by eapply j_taken0|by eapply j_taken0].
  - intros j q h'. cbn. rewrite lookup_insert_Some. intros [[<- <-]|[N E]] Hj; [change (q_given r = h')|]; by eapply j_given0, Hown.
  - intros c q Hc. cbn. rewrite lookup_insert_Some. intros [[E <-]|[N E]]; [change (q_given r = h_transaction c); eapply j_committed0; [done|congruence]|by eapply j_committed0].
  - intros j h' Hj. by eapply j_live0, Hown.
  - intros j j' h' Hj Hj'. eapply j_owner0; by apply Hown.
  - intros j q. rewrite Hu. cbn. rewrite lookup_insert_Some. intros [[<- <-]|[N E]] H; [by left|]. destruct H as [->|H]; [done|by eapply j_open0].
  - intros j q. rewrite Hu. cbn. rewrite lookup_insert_Some. intros [[<- <-]|[N E]] H; [by left|right; by eapply j_rest0].
  - intros j q. rewrite Hu. cbn. rewrite lookup_insert_Some. intros [[<- <-]|[N E]] H; [left; by left|]. destruct (j_exchange0 j q E H); [left; by right|by right].
  - intros j q. cbn. rewrite lookup_insert_Some, elem_of_app, list_elem_of_singleton. intros [[<- <-]|[N E]] Hp Hq; [cbn in Hq; congruence|]. eapply j_word0; [done| |done]. naive_solver.
  - intros j q. cbn. rewrite lookup_insert_Some. intros [[<- <-]|[N E]] H; [done|by eapply j_resumed0].
Qed.
(** Worker 0 takes a batch of the requests it has drained. *)
Lemma inv_batch s local inbox batch m : service_inv s -> js_committer s = p_idle -> js_local s ++ reverse (js_inbox s) = local ++ reverse inbox ->
  take_batch (take kMaximumCommitBatch local) (js_requests s) = (batch, m) ->
  service_inv (mk_service (js_kfs s) m inbox (drop kMaximumCommitBatch local) (p_commit batch []) (js_pushed s) (js_history s)).
Proof.
  intros I Hc Hq Hb. pose proof I as []. assert (todo_of s = [] /\ done_of s = []) as [Et Ed] by (unfold todo_of, done_of; by rewrite Hc).
  set (l := take kMaximumCommitBatch local) in *. set (rest := drop kMaximumCommitBatch local). assert (local = l ++ rest) as El by (symmetry; apply take_drop).
  rewrite Et in j_order0. cbn in j_order0. rewrite Hq, El, <-app_assoc in j_order0.
  assert (forall j, unfinished s j <-> j ∈ l ++ rest ++ reverse inbox) as Hu0.
  { intros j. rewrite app_assoc, <-El, <-Hq. unfold unfinished. rewrite Et, Ed, elem_of_app, elem_of_reverse. cbn. rewrite !elem_of_nil. tauto. }
  assert (NoDup (l ++ rest ++ reverse inbox)) as ND by (rewrite j_order0 in j_nodup0; by apply NoDup_app in j_nodup0 as (_ & _ & ?)).
  pose proof ND as (NDl & Disj & _)%NoDup_app.
  assert (forall j, j ∈ l ++ rest ++ reverse inbox -> exists r h, js_requests s !! j = Some r /\ q_transaction r = Some h) as Hin.
  { intros j Hj. apply j_queued0. rewrite app_assoc, <-El, <-Hq, elem_of_app, elem_of_reverse in Hj. done. }
  destruct (take_batch_spec l (js_requests s) NDl) as (batch' & m' & E & Em & Hm & Hh); [intros j Hj; apply Hin, elem_of_app; by left|].
  rewrite E in Hb. injection Hb as -> ->. set (s' := mk_service _ _ _ _ _ _ _).
  assert (forall j, unfinished s' j <-> unfinished s j) as Hu.
  { intros j. rewrite Hu0. unfold unfinished, todo_of, done_of. cbn. rewrite Em, elem_of_nil, !elem_of_app, elem_of_reverse. tauto. }
  assert (forall j r', m !! j = Some r' -> exists r, js_requests s !! j = Some r /\ q_waiter r' = q_waiter r /\ q_word r' = q_word r /\ q_error r' = q_error r /\ q_given r' = q_given r /\
    (q_transaction r' = None \/ q_transaction r' = q_transaction r /\ j ∉ l)) as Back.
  { intros j r'. rewrite Hm. destruct (bool_decide_reflect (j ∈ l)); [|intros; exists r'; by auto 10]. destruct (js_requests s !! j) as [r|]; [|done]. intros [= <-]. exists r. by auto 10. }
  assert (forall j h, owns s' j h -> owns s j h) as Hown.
  { intros j h [(r' & Ej & Eh)|Ej]; left.
    - destruct (Back j r' Ej) as (r & E0 & _ & _ & _ & _ & [E1|[E1 _]]); [congruence|]. exists r. by rewrite <-E1.
    - apply Hh. exact Ej. }
  split; try done.
  - change (js_pushed s = map h_request (js_history s) ++ map fst batch ++ rest ++ reverse inbox). by rewrite Em.
  - intros j Hj. destruct (j_known0 j Hj) as (r & Ej & Hw). cbn. rewrite Hm, Ej. destruct (bool_decide _); by eexists.
  - intros j r' Ej Hw. destruct (Back j r' Ej) as (r & E0 & E1 & E2 & _ & _ & Hx). rewrite E1 in Hw. destruct (j_push0 j r E0 Hw) as [? Hs]. rewrite E2. split; [done|].
    destruct Hx as [_|[-> _]]; [|done]. cbn in Ej. rewrite Hm in Ej. destruct (bool_decide_reflect (j ∈ l)) as [Hl|]; [|by simplify_eq].
    destruct (j_known0 j) as (r2 & ? & ?); [rewrite j_order0, !elem_of_app; tauto|]. congruence.
  - intros j Hj. cbn in Hj. assert (j ∈ rest ++ reverse inbox) as Hj' by (rewrite elem_of_app, elem_of_reverse; tauto).
    destruct (Hin j) as (r & h & E0 & Eh); [apply elem_of_app; by right|]. exists r, h. cbn. rewrite Hm, bool_decide_eq_false_2; [done|]. intros Hl. by apply (Disj j).
  - intros j r' h Ej Eh. destruct (Back j r' Ej) as (r & _ & _ & _ & _ & _ & [E1|[_ N]]); [congruence|]. unfold todo_of. cbn. by rewrite Em.
  - intros j r' h Ej Hj. destruct (Back j r' Ej) as (r & E0 & _ & _ & _ & -> & _). by eapply j_given0, Hown.
  - intros c r' Hin' Ej. destruct (Back _ r' Ej) as (r & E0 & _ & _ & _ & -> & _). by eapply j_committed0.
  - intros j h Hj. by eapply j_live0, Hown.
  - intros j j' h Hj Hj'. eapply j_owner0; by apply Hown.
  - intros j r' Ej Hj. destruct (Back j r' Ej) as (r & E0 & -> & -> & _). eapply j_open0; [done|by apply Hu].
  - intros j r' Ej Hj. destruct (Back j r' Ej) as (r & E0 & E1 & _). rewrite E1 in Hj. apply Hu. by eapply j_rest0.
  - intros j r' Ej Hj. destruct (Back j r' Ej) as (r & E0 & E1 & -> & _). rewrite E1 in Hj. destruct (j_exchange0 j r E0 Hj); [left; by apply Hu|by right].
  - intros j r' Ej Hp Hw. destruct (Back j r' Ej) as (r & E0 & _ & E2 & -> & _). rewrite E2 in Hw. by eapply j_word0.
  - intros j r' Ej Hw. destruct (Back j r' Ej) as (r & E0 & E1 & -> & _). rewrite E1 in Hw. by eapply j_resumed0.
  - intros j e Hj. by apply not_elem_of_nil in Hj.
  - constructor.
Qed.
Lemma inv_commit s i h todo dn e k : service_inv s -> js_committer s = p_commit ((i, h) :: todo) dn -> commit_member h (js_kfs s) = Some (e, k) ->
  service_inv (mk_service k (js_requests s) (js_inbox s) (js_local s) (p_commit todo (dn ++ [(i, e)])) (js_pushed s) (js_history s ++ [mk_committed i h e (js_kfs s) k])).
Proof.
  intros I Hc Hk. pose proof I as []. assert (todo_of s = (i, h) :: todo /\ done_of s = dn) as [Et Ed] by (unfold todo_of, done_of; by rewrite Hc).
  assert (owns s i h) as Hi by (right; rewrite Et; apply elem_of_cons; by left).
  destruct (commit_member_ends h (js_kfs s) j_cur0 (j_live0 i h Hi)) as (e' & k' & Rk & Ck & Tk). rewrite Hk in Rk. injection Rk as <- <-.
  set (c := mk_committed i h e (js_kfs s) k). set (s' := mk_service _ _ _ _ _ _ _).
  assert (forall j, unfinished s' j <-> unfinished s j) as Hu.
  { intros j. unfold unfinished. rewrite Et, Ed. unfold todo_of, done_of. cbn. rewrite map_app. cbn. rewrite elem_of_app, !elem_of_cons, elem_of_nil. tauto. }
  pose proof j_nodup0 as ND. rewrite j_order0, Et in ND. cbn in ND. apply NoDup_app in ND as (_ & _ & [Ni _]%NoDup_cons). rewrite !elem_of_app in Ni.
  assert (forall j h', owns s' j h' -> owns s j h' /\ h' <> h) as Hown.
  { intros j h' Hj. assert (owns s j h') as Hj'.
    { destruct Hj as [Hj|Hj]; [by left|]. right. rewrite Et. apply elem_of_cons. by right. }
    split; [done|]. intros ->. pose proof (j_owner0 i j h Hi Hj') as <-. destruct Hj as [(r & E & Eh)|Hj].
    - apply (j_taken0 i r h E Eh). rewrite Et. apply elem_of_cons. by left.
    - apply Ni. left. apply list_elem_of_fmap. by exists (i, h). }
  assert (forall j x, outcome_of s j x -> outcome_of s' j x) as Hout.
  { intros j x (c' & H1 & H2). exists c'. split; [|done]. cbn. apply elem_of_app. by left. }
  assert (i ∉ map fst dn) as Nd.
  { intros ([i' e'] & -> & Hd)%list_elem_of_fmap. rewrite <-Ed in Hd. destruct (outcome_not_queued s i' e' I (j_done0 _ _ Hd)) as (N & _). apply N. rewrite Et. apply elem_of_cons. by left. }
  split; try done.
  - change (js_pushed s = map h_request (js_history s ++ [c]) ++ map fst todo ++ js_local s ++ reverse (js_inbox s)). rewrite j_order0, Et, map_app, <-app_assoc. done.
  - intros j r h' E Eh Hj. apply (j_taken0 j r h' E Eh). rewrite Et. apply elem_of_cons. by right.
  - intros j r h' E Hj. by eapply j_given0, Hown.
  - intros c' r. cbn. rewrite elem_of_app, list_elem_of_singleton. intros [Hc'| ->] E; [by eapply j_committed0|by eapply j_given0].
  - intros j h' Hj. destruct (Hown j h' Hj) as [Ho N]. cbn. rewrite Tk, lookup_delete_ne by done. by eapply j_live0.
  - intros j j' h' Hj Hj'. eapply j_owner0; by apply Hown.
  - intros j r E Hj. eapply j_open0; [done|by apply Hu].
  - intros j r E Hj. apply Hu. by eapply j_rest0.
  - intros j r E Hj. destruct (j_exchange0 j r E Hj); [left; by apply Hu|by right].
  - intros j r E Hp Hw. by eapply Hout, j_word0.
  - intros j x. unfold done_of. cbn. rewrite elem_of_app, list_elem_of_singleton. intros [Hj|[= -> ->]]; [apply Hout, j_done0; by rewrite Ed|].
    exists c. split; [|done]. cbn. apply elem_of_app. right. by apply list_elem_of_singleton.
  - unfold done_of. cbn. rewrite map_app. apply NoDup_app. rewrite Ed in j_done_nodup0. split; [done|]. split; [|apply NoDup_singleton].
    intros x Hx E%list_elem_of_singleton. cbn in E. by subst.
  - cbn. apply Forall_app. split; [done|]. by constructor.
Qed.
Lemma inv_committer s p : service_inv s -> todo_of (set_committer p s) = todo_of s -> done_of (set_committer p s) = done_of s -> service_inv (set_committer p s).
Proof.
  intros [] Et Ed. assert (forall j, unfinished (set_committer p s) j <-> unfinished s j) as Hu by (intros j; unfold unfinished; by rewrite Et, Ed).
  assert (forall j h, owns (set_committer p s) j h <-> owns s j h) as Ho by (intros j h; unfold owns; by rewrite Et).
  split; try done; try (by rewrite ?Et, ?Ed).
  - intros i r h E H. by eapply j_given0, Ho.
  - intros i h H. by eapply j_live0, Ho.
  - intros i j h H1 H2. eapply j_owner0; by apply Ho.
  - intros i r E H. eapply j_open0; [done|by apply Hu].
  - intros i r E H. apply Hu. by eapply j_rest0.
  - intros i r E H. destruct (j_exchange0 i r E H); [left; by apply Hu|by right].
Qed.
Lemma inv_complete s i e dn r : service_inv s -> js_committer s = p_complete ((i, e) :: dn) -> js_requests s !! i = Some r ->
  exists w, (q_waiter r = at_exchange /\ q_word r = submitting /\ w = at_exchange \/ q_waiter r = at_rest /\ q_word r = suspended /\ w = resumed) /\
    service_inv (set_committer (p_complete dn) (put_request i (mk_commit (q_given r) (q_transaction r) w completed e) s)).
Proof.
  intros I Hc Hi. assert (todo_of s = [] /\ done_of s = (i, e) :: dn) as [Et Ed] by (unfold todo_of, done_of; by rewrite Hc).
  assert (unfinished s i) as Hu by (right; left; rewrite Ed; apply elem_of_cons; by left).
  assert (outcome_of s i e) as Ho by (apply (j_done s I); rewrite Ed; apply elem_of_cons; by left).
  pose proof (j_done_nodup s I) as ND. rewrite Ed in ND. apply NoDup_cons in ND as [Nd ND].
  destruct (outcome_not_queued s i e I Ho) as (_ & N2 & N3).
  assert (forall w, w = at_exchange \/ w = resumed -> service_inv (set_committer (p_complete dn) (put_request i (mk_commit (q_given r) (q_transaction r) w completed e) s))) as Hgo.
  { intros w Hw. assert (~ unfinished (set_committer (p_complete dn) (put_request i (mk_commit (q_given r) (q_transaction r) w completed e) s)) i) as Nu.
    { unfold unfinished, todo_of, done_of. cbn. rewrite elem_of_nil. tauto. }
    apply (inv_update s i r _ _ I Hi); try done.
    - intros x Hx. rewrite Ed. apply elem_of_cons. by right.
    - intros j Nj. unfold unfinished. rewrite Et, Ed. unfold todo_of, done_of. cbn. rewrite elem_of_cons. naive_solver.
    - by left.
    - cbn. by destruct Hw; subst.
    - cbn. by destruct Hw; subst.
    - intros _. by right. }
  destruct (j_open s I i r Hi Hu) as [[E1 E2]|[E1 E2]]; [exists at_exchange|exists resumed]; split; auto.
Qed.
Lemma set_committer_self s : set_committer (js_committer s) s = s.
Proof. by destruct s. Qed.
Lemma inv_outside s i r h k error : service_inv s -> js_requests s !! i = Some r -> q_waiter r = at_push -> q_transaction r = Some h ->
  orchfs_log_transaction_abort h (js_kfs s) = Some (tt, k) -> service_inv (set_kfs k (put_request i (mk_commit (q_given r) None resumed completed error) s)).
Proof.
  intros I Hi Hw Hh Ha. assert (i ∉ js_pushed s) as Ni by (intros H; destruct (j_known s I i H) as (r' & E & ?); congruence).
  assert (owns s i h) as Ho by (left; by exists r). destruct (abort_ends h (js_kfs s) (j_cur s I) (j_live s I i h Ho)) as (x & k' & Rk & Ck & Tk).
  rewrite Ha in Rk. injection Rk as _ <-. set (r' := mk_commit _ _ _ _ _).
  assert (~ unfinished s i) as Nu by (intros H; by apply Ni, unfinished_pushed).
  apply inv_work; [|done|].
  - rewrite <-(set_committer_self (put_request i r' s)). apply (inv_update s i r r' _ I Hi); try done.
    + apply (j_done_nodup s I).
    + by right.
  - intros h' Hh'. rewrite Tk, lookup_delete_ne; [done|]. intros <-. destruct Hh' as [(j & q & E & Eq)|(todo & dn & j & E & Ej)].
    + cbn in E. apply lookup_insert_Some in E as [[<- <-]|[N E]]; [done|]. apply N, (j_owner s I i j h Ho). left. by exists q.
    + assert (owns s j h) as Hj by (right; unfold todo_of; cbn in E; by rewrite E). pose proof (j_owner s I i j h Ho Hj) as <-.
      apply (j_taken s I i r h Hi Hh). unfold todo_of. cbn in E. rewrite E. apply list_elem_of_fmap. by exists (i, h).
Qed.
Lemma inv_empty s i h t e k : service_inv s -> js_requests s !! i = None -> ~ owner_of s h -> k_txns (js_kfs s) !! h = Some t ->
  orchfs_log_transaction_commit h (js_kfs s) = Some (e, k) -> service_inv (set_kfs k (put_request i (mk_commit h None resumed completed e) s)).
Proof.
  intros I Hi No Ht Hk. destruct (commit_ends h (js_kfs s) (j_cur s I)) as (e' & k' & Rk & Ck & Tk); [by eexists|]. rewrite Hk in Rk. injection Rk as <- <-.
  apply inv_work; [apply inv_new; auto; done|done|]. intros h' Hh'. rewrite Tk, lookup_delete_ne; [done|]. intros <-. apply No.
  destruct Hh' as [(j & q & E & Eq)|Hh']; [|by right]. cbn in E. apply lookup_insert_Some in E as [[<- <-]|[N E]]; [done|]. left. by exists j, q.
Qed.
Lemma inv_exchange s i r : service_inv s -> js_requests s !! i = Some r -> q_waiter r = at_exchange ->
  q_word r = submitting /\ service_inv (put_request i (mk_commit (q_given r) (q_transaction r) at_rest suspended (q_error r)) s) \/
  q_word r = completed /\ service_inv (put_request i (mk_commit (q_given r) (q_transaction r) resumed completed (q_error r)) s).
Proof.
  intros I Hi Hw. destruct (j_exchange s I i r Hi Hw) as [Hu|Hc].
  - destruct (j_open s I i r Hi Hu) as [[_ E]|[E _]]; [|congruence]. left. split; [done|]. set (r' := mk_commit _ _ _ _ _).
    rewrite <-(set_committer_self (put_request i r' s)). apply (inv_update s i r r' _ I Hi); try done; [apply (j_done_nodup s I)|by left|intros _; by right].
  - right. split; [done|]. set (r' := mk_commit _ _ _ _ _). assert (~ unfinished s i) as Nu by (intros H; destruct (j_open s I i r Hi H) as [[_ ?]|[_ ?]]; congruence).
    rewrite <-(set_committer_self (put_request i r' s)). apply (inv_update s i r r' _ I Hi); try done; [apply (j_done_nodup s I)|by left|].
    intros Hp _. exact (j_word s I i r Hi Hp Hc).
Qed.
Lemma service_inv_step s o : service_inv s -> service_step s o -> exists s', o = Some s' /\ service_inv s'.
Proof.
  intros I S. destruct S as [s k Hc Hk|s i h t Hi No Ht He|s i h t e k Hi No Ht He Hk|s i r h k error Hi Hw Hh Ha|s i r Hi Hw|s i r Hi Hw|s local batch m Hc El Hl Hb|
    s i h todo dn e k Hc Hk|s dn Hc|s i e dn r Hc Hi|s Hc].
  - eexists. split; [done|]. by apply inv_work.
  - eexists. split; [done|]. apply inv_new; auto; try done. intros h' [= <-]. split; [done|]. split; [done|by eexists].
  - eexists. split; [done|]. by eapply inv_empty.
  - eexists. split; [done|]. by eapply inv_outside.
  - eexists. split; [done|]. by apply inv_push.
  - destruct (inv_exchange s i r I Hi Hw) as [[-> H]|[-> H]]; by eexists.
  - eexists. split; [done|]. apply (inv_batch s local); try done. subst local. case_bool_decide as E; [by rewrite E, app_nil_r|done].
  - eexists. split; [done|]. by apply inv_commit.
  - eexists. split; [done|]. apply inv_committer; unfold todo_of, done_of; cbn; by rewrite ?Hc.
  - destruct (inv_complete s i e dn r I Hc Hi) as (w & [(E1 & E2 & ->)|(E1 & E2 & ->)] & H); rewrite E1, E2 in *; by eexists.
  - eexists. split; [done|]. apply inv_committer; unfold todo_of, done_of; cbn; by rewrite ?Hc.
Qed.
Lemma service_reachable_inv k s : k_cur k = None -> service_reachable k s -> service_inv s.
Proof. intros Hk. induction 1 as [|s s' _ IH S]; [by apply new_service_inv|]. by destruct (service_inv_step s (Some s') IH S) as (x & [= <-] & ?). Qed.
(** Worker 0 has work and can do it. *)
Lemma committer_goes_on s i : service_inv s -> unfinished s i -> exists s', service_step s (Some s') /\ js_committer s' <> js_committer s.
Proof.
  intros I Hu. destruct (js_committer s) as [|[|[j h] todo] dn|[|[j e] dn]] eqn:Ec.
  - unfold unfinished, todo_of, done_of in Hu. rewrite Ec in Hu. cbn in Hu. rewrite !elem_of_nil in Hu.
    set (local := if bool_decide (js_local s = []) then reverse (js_inbox s) else js_local s).
    destruct (take_batch (take kMaximumCommitBatch local) (js_requests s)) as [batch m] eqn:Eb.
    eexists. split; [apply (sv_poll s local batch m Ec eq_refl); [|done]|done]. unfold local. case_bool_decide as E; [|done]. intros Er. rewrite E, elem_of_nil in Hu.
    assert (i ∈ js_inbox s) as Hi by tauto. rewrite <-elem_of_reverse, Er in Hi. by apply not_elem_of_nil in Hi.
  - eexists. split; [by apply (sv_committed s dn)|]. cbn. congruence.
  - assert (owns s j h) as Ho by (right; unfold todo_of; rewrite Ec; apply elem_of_cons; by left).
    destruct (commit_member_ends h (js_kfs s) (j_cur s I) (j_live s I j h Ho)) as (e & k & Rk & _). eexists. split; [by eapply (sv_commit s j h todo dn)|].
    cbn. intros [= H _]. apply (f_equal length) in H. cbn in H. lia.
  - eexists. split; [by apply sv_done|]. cbn. congruence.
  - destruct (j_known s I j) as (r & Hj & _). { apply done_pushed; [done|]. unfold done_of. rewrite Ec. apply elem_of_cons. by left. }
    pose proof (sv_complete s j e dn r Ec Hj) as S. destruct (inv_complete s j e dn r I Ec Hj) as (w & [(E1 & E2 & _)|(E1 & E2 & _)] & _); rewrite E1, E2 in S;
      (eexists; split; [exact S|]; cbn; intros [= H]; apply (f_equal length) in H; cbn in H; lia).
Qed.

End service.

(** ** A run *)

(** Transaction 1 has reserved page 9; a coroutine hands it over, waits, and is resumed. *)
Definition demo_commit : kfs := set_k_txns {[1 := mk_txn [] [mk_allocation PAGE_EXT 9] [] 0]} (boot_kfs (fun _ => 0) demo_arr).
Lemma service_go k s o s' : service_reachable k s -> service_step s o -> o = Some s' -> service_reachable k s'.
Proof. intros R S ->. by eapply svr_step. Qed.
(** The run on any file system with such a transaction. *)
Lemma one_commit k t : k_cur k = None -> k_txns k !! 1 = Some t -> orchfs_log_transaction_is_empty t = false ->
  exists e k' s, commit_member 1 k = Some (e, k') /\ service_reachable k s /\ js_pushed s = [0%nat] /\ js_requests s !! 0%nat = Some (mk_commit 1 None resumed completed e).
Proof.
  intros Hc Ht He. destruct (commit_member_ends 1 k Hc) as (e & k' & R & _); [by eexists|]. exists e, k'.
  pose proof (svr_new k) as H.
  eapply service_go in H; [|eapply (sv_new _ 0%nat 1 t); [reflexivity| |exact Ht|exact He]|reflexivity].
  2:{ intros [(i & r & E & _)|(todo & dn & i & E & _)]; [cbn in E; by rewrite lookup_empty in E|discriminate E]. }
  eapply service_go in H; [|eapply (sv_push _ 0%nat); reflexivity|reflexivity].
  eapply service_go in H; [|eapply (sv_exchange _ 0%nat); reflexivity|reflexivity].
  eapply service_go in H; [|eapply (sv_poll _ [0%nat]); [reflexivity|reflexivity|discriminate|reflexivity]|reflexivity].
  eapply service_go in H; [|eapply (sv_commit _ 0%nat 1 [] [] e k'); [reflexivity|exact R]|reflexivity].
  eapply service_go in H; [|eapply sv_committed; reflexivity|reflexivity].
  eapply service_go in H; [|eapply (sv_complete _ 0%nat e []); reflexivity|reflexivity].
  eexists. split; [done|]. split; [exact H|]. split; reflexivity.
Qed.
