(* ===== verification/JournalCrash.v ===== *)
(** * Crash safety of the write-ahead log

    The writes of a commit grouped by the fences between them, the media contents
    a power failure may leave, and what recovery makes of each of them. *)

From stdpp Require Import base tactics numbers list gmap.
From Stdlib Require Import ZArith Lia FunctionalExtensionality.
From S2P Require Import Prelude Bytes Crc32c Layout Pmem DiskFormat Bitmap KernelFunc Frame Kfs MetaCache Txn LibSpace Journal.
Open Scope Z_scope.

(** ** Writes between fences *)

Definition dev_op : Type := list Z * Z.
Definition exec_op (m : pmem) (w : dev_op) : pmem := nvm_write m (fst w) (snd w).
Definition exec_ops (ws : list dev_op) (m : pmem) : pmem := fold_left exec_op ws m.
Definition exec_groups (gs : list (list dev_op)) (m : pmem) : pmem := fold_left (fun m ws => exec_ops ws m) gs m.

(** A 64-byte line that one write covers entirely is stored by a non-temporal
    store, in 8-byte units; other bytes reach the media one by one. *)
Definition full_line (ws : list dev_op) (a : Z) : Prop :=
  Exists (fun '(src, off) => off <= 64 * (a / 64) /\ 64 * (a / 64) + 64 <= off + len src) ws.
Definition same_unit (ws : list dev_op) (a b : Z) : Prop := a / 8 = b / 8 /\ full_line ws a.

(** Power fails while the writes [ws] are in flight: each unit holds what it held
    after some of them. *)
Definition torn (ws : list dev_op) (m m' : pmem) : Prop :=
  exists k : Z -> nat, (forall a b, same_unit ws a b -> k a = k b) /\
    forall a, m' a = exec_ops (take (k a) ws) m a.

(** Power fails during group [n] of [gs], the groups before it being fenced. *)
Definition crash_in (n : nat) (gs : list (list dev_op)) (m m' : pmem) : Prop :=
  torn (nth n gs []) (exec_groups (take n gs) m) m'.

(** ** The writes of a commit *)

(** The home writes of [apply_frame], a bitmap change being a one-byte write. *)
Fixpoint home_writes (arr : mem_bmps) (recs : list jrec) (m : pmem) : list dev_op :=
  match recs with
  | [] => []
  | r :: recs' =>
      let w := match r with
               | JWrite _ target data => (data, target)
               | JBit kind type block =>
                   let a := dev_start_addr (arr type) + block / 8 in ([media_rec arr r m a], a)
               end in
      w :: home_writes arr recs' (media_rec arr r m)
  end.

Definition log_body (txid : Z) (recs : list jrec) : dev_op := (frame_body txid recs, OFFSET_LOG).
Definition log_commit (txid : Z) (recs : list jrec) : dev_op :=
  (commit_enc (frame_commit txid (frame_body txid recs)), OFFSET_LOG + frame_size recs - COMMIT_BYTES).
Definition log_checkpoint (generation txid : Z) : dev_op :=
  (checkpoint_enc (new_checkpoint generation txid), checkpoint_offset generation).
Definition log_clear : dev_op := (zeros 64, OFFSET_LOG).

(** [commit_one] of the records [recs] as transaction [txid] from generation [g]. *)
Definition commit_groups (arr : mem_bmps) (txid g : Z) (recs : list jrec) (m : pmem) : list (list dev_op) :=
  let m2 := exec_ops [log_body txid recs; log_commit txid recs] m in
  [[log_body txid recs]; [log_commit txid recs]; home_writes arr recs m2; [log_checkpoint (g + 1) txid]; [log_clear]].

Lemma media_jbit_write arr kind type block m : geom_ok arr -> jrec_ok (JBit kind type block) -> pmem_ok m ->
  let a := dev_start_addr (arr type) + block / 8 in
  nvm_write m [media_rec arr (JBit kind type block) m a] a = media_rec arr (JBit kind type block) m.
Proof.
  intros Hg Hr Hm a. apply functional_extensionality. intros x.
  destruct (media_jbit arr kind type block m Hg Hr Hm) as [Hok Hb].
  destruct (Z.eq_dec x a) as [->|Hne].
  - rewrite nvm_write_in by (unfold len; cbn; lia). by rewrite Z.sub_diag.
  - rewrite nvm_write_out by (unfold len; cbn; lia). apply byte_bits_eq; [apply Hm|apply Hok|].
    intros j Hj. rewrite Hb by lia. rewrite bool_decide_false; [done|]. cbn. fold a. tauto.
Qed.

Lemma home_writes_exec arr recs m : geom_ok arr -> Forall jrec_ok recs -> pmem_ok m ->
  exec_ops (home_writes arr recs m) m = media_recs arr recs m.
Proof.
  intros Hg Hok. revert m. induction Hok as [|r recs Hr _ IH]; intros m Hm; [done|].
  cbn [home_writes exec_ops fold_left media_recs]. unfold exec_op at 2.
  assert (forall w, w = media_rec arr r m -> fold_left exec_op (home_writes arr recs (media_rec arr r m)) w
    = fold_left (fun m r => media_rec arr r m) recs (media_rec arr r m)) as Hstep.
  { intros w ->. apply IH. by apply media_rec_ok. }
  apply Hstep. destruct r as [|kind type block]; [done|]. cbn [fst snd]. by apply media_jbit_write.
Qed.

(** ** A commit that does not crash *)

Definition home (a : Z) : Prop :=
  ~ (CHECKPOINTS_OFFSET <= a < CHECKPOINTS_OFFSET + 64) /\ ~ (OFFSET_LOG <= a < OFFSET_LOG + ORCHFS_JOURNAL_BYTES).

Section commit.
Context `{Mo : MallocOracle}.

Definition commit_ready (s : kfs) : Prop :=
  cache_std s /\ geom_ok (k_bmps s) /\ pmem_ok (k_pmem s) /\ initialized (k_journal s) = true /\
  0 < next_txid (k_journal s) < UINT64_MAX /\ 0 <= checkpoint_generation (k_journal s) < UINT64_MAX.

Lemma commit_body_ops txid recs : is_u64 txid -> frame_fits recs ->
  slice 0 (len (frame_image txid recs) - COMMIT_BYTES) (frame_image txid recs) = frame_body txid recs /\
  slice (len (frame_image txid recs) - COMMIT_BYTES) COMMIT_BYTES (frame_image txid recs) =
    commit_enc (frame_commit txid (frame_body txid recs)).
Proof.
  intros Ht Hf. rewrite frame_image_len by done. pose proof (frame_body_len txid recs Ht Hf) as Hb.
  pose proof (frame_commit_len txid recs Ht Hf) as Hc. unfold frame_image. split.
  - by apply slice_prefix_len.
  - rewrite slice_app_r by lia. rewrite Hb, Z.sub_diag. by apply slice_all.
Qed.

(** The media with the frame and its commit record in the log. *)
Definition logged (txid : Z) (recs : list jrec) (m : pmem) : pmem :=
  nvm_write (nvm_write m (frame_body txid recs) OFFSET_LOG)
    (commit_enc (frame_commit txid (frame_body txid recs))) (OFFSET_LOG + frame_size recs - COMMIT_BYTES).

Lemma logged_ok txid recs m : is_u64 txid -> frame_fits recs -> pmem_ok m -> pmem_ok (logged txid recs m).
Proof.
  intros Hu Hf Hm. apply nvm_write_ok; [apply nvm_write_ok; [done|by apply frame_body_ok]|].
  by apply commit_image_ok, frame_commit_wf.
Qed.

Lemma commit_groups_exec arr txid g recs m : geom_ok arr -> is_u64 txid -> frame_fits recs -> pmem_ok m ->
  exec_groups (commit_groups arr txid g recs m) m =
  nvm_write (nvm_write (media_recs arr recs (logged txid recs m))
    (checkpoint_enc (new_checkpoint (g + 1) txid)) (checkpoint_offset (g + 1))) (zeros 64) OFFSET_LOG.
Proof.
  intros Hg Hu Hf Hm. rewrite <-home_writes_exec by first [done|apply Hf|by apply logged_ok]. done.
Qed.

(** A commit either fails before its first write or performs all its groups. *)
Lemma commit_one_run t s : commit_ready s -> txn_wf t -> orchfs_log_transaction_is_empty t = false ->
  exists e s', commit_one t s = Some (e, s') /\
    ((e <> 0 /\ cache_grows s s') \/
     (e = 0 /\ exists s1, frame_fits (txn_recs t) /\ cache_grows s s1 /\
        k_pmem s' = exec_groups (commit_groups (k_bmps s) (next_txid (k_journal s))
          (checkpoint_generation (k_journal s)) (txn_recs t) (k_pmem s)) (k_pmem s) /\
        k_bmps s' = k_bmps s /\ k_cache s' = k_cache s1 /\
        k_journal s' = mk_journal (next_txid (k_journal s) + 1) (checkpoint_generation (k_journal s) + 1) true)).
Proof.
  intros (Hs & Hg & Hm & Hi & Htx & Hgen) Hwf Hne. unfold commit_one.
  rewrite (bind_run _ _ _ _ _ (eq_refl : gets k_journal s = Some (k_journal s, s))).
  rewrite Hi, Hne. cbn [negb]. set (txid := next_txid (k_journal s)) in *.
  set (g := checkpoint_generation (k_journal s)) in *. unfold UINT64_MAX in *.
  replace ((txid =? 0) || (txid =? _) || (g =? _)) with false by lia.
  destruct (build_frame_spec t txid s Hs Hwf) as (x & s1 & Hrun & Hgr & Hx). rewrite (bind_run _ _ _ _ _ Hrun).
  destruct x as [e|frame]; [by eexists _, _; split; [done|left]|].
  destruct Hx as (-> & Hf). set (recs := txn_recs t) in *.
  assert (is_u64 txid) as Hu by (unfold is_u64; lia).
  destruct (commit_body_ops txid recs Hu Hf) as [-> ->]. rewrite frame_image_len by done.
  destruct (cache_grows_pmem _ _ Hgr) as (Ep & Eb & Ej & _).
  unfold mbind, M_bind, dev_write, modify, call_apply_frame, gets, mret, M_ret. cbn [k_pmem k_bmps set_k_pmem].
  rewrite apply_frame_image by done. rewrite Ep, Eb.
  fold (logged txid recs (k_pmem s)). set (m2 := logged txid recs (k_pmem s)).
  assert (pmem_ok m2) as Hm2 by by apply logged_ok.
  destruct (apply_jrecs_media false recs m2 (k_bmps s) Hg (proj1 Hf) Hm2) as (arr' & -> & _ & Harr).
  specialize (Harr eq_refl) as ->. cbn [Z.eqb].
  unfold write_checkpoint, mbind, M_bind, gets, dev_write, modify, mret, M_ret.
  cbn [k_journal set_k_bmps set_k_pmem k_pmem]. rewrite Ej. fold g. unfold UINT64_MAX.
  replace (g =? 2 ^ 64 - 1) with false by lia.
  eexists _, _. split; [reflexivity|]. right. split; [done|]. exists s1.
  split_and!; [done|done| |by cbn|by cbn|].
  - rewrite commit_groups_exec by done. done.
  - cbn. rewrite Ej. unfold journal_advance, journal_set_generation. cbn. f_equal; [|done].
    fold txid. apply u64_small. lia.
Qed.
End commit.

(** ** What recovery reads *)

Lemma rd_u64_nvm m off : 0 <= off -> off + 8 <= 512 -> rd_u64 off (nvm_read m 512 0) = le_val (nvm_read m 8 off).
Proof. intros. unfold rd_u64. by rewrite nvm_read_slice by lia. Qed.
Lemma rd_s64_nvm m off : 0 <= off -> off + 8 <= 512 -> rd_s64 off (nvm_read m 512 0) = s64 (le_val (nvm_read m 8 off)).
Proof. intros. unfold rd_s64. by rewrite rd_u64_nvm. Qed.

(** Format check and checkpoints in terms of the bytes they read. *)
Lemma validate_format_ext m m' : (forall a, 0 <= a < 304 -> m' a = m a) ->
  orchfs_log_validate_format m' = orchfs_log_validate_format m.
Proof.
  intros H. unfold orchfs_log_validate_format, read_superblock, super_blk_dec.
  change ORCH_SUPER_BLK_SIZE with 512. change OFFSET_SUPER_BLK with 0.
  cbn [sb_magic_num sb_format_version sb_feature_flags s64s_dec nth].
  change (8 + 8) with 16. change (16 + 8) with 24.
  rewrite !rd_s64_nvm, !rd_u64_nvm by lia.
  by rewrite !(nvm_read_ext m' m) by (intros; apply H; lia).
Qed.

Definition slot0 (m : pmem) : orchfs_disk_checkpoint := checkpoint_dec (nvm_read m 32 304).
Definition slot1 (m : pmem) : orchfs_disk_checkpoint := checkpoint_dec (nvm_read m 32 336).

Lemma superblock_slots m : sb_checkpoint0 (read_superblock m) = slot0 m /\ sb_checkpoint1 (read_superblock m) = slot1 m.
Proof.
  unfold read_superblock, super_blk_dec. cbn [sb_checkpoint0 sb_checkpoint1].
  change ORCH_SUPER_BLK_SIZE with 512. change OFFSET_SUPER_BLK with 0. by rewrite !nvm_read_slice by lia.
Qed.

(** The frame recovery accepts at [cursor], if any. *)
Definition frame_at (m : pmem) (cursor : Z) : option (list Z) :=
  if ORCHFS_JOURNAL_BYTES <? cursor + FRAME_HEADER_BYTES then None
  else
    let header := frame_header_dec (nvm_read m FRAME_HEADER_BYTES (OFFSET_LOG + cursor)) in
    let frame_bytes := fh_frame_bytes header in
    if negb (fh_magic header =? ORCHFS_JOURNAL_MAGIC) || (frame_bytes <? FRAME_HEADER_BYTES + COMMIT_BYTES) ||
       negb (Z.land frame_bytes 63 =? 0) || (ORCHFS_JOURNAL_BYTES - cursor <? frame_bytes) then None
    else
      let frame := nvm_read m frame_bytes (OFFSET_LOG + cursor) in
      if negb (validate_frame frame frame_bytes =? 0) then None else Some frame.

Lemma frame_at_ext m m' cursor : 0 <= cursor ->
  (forall a, OFFSET_LOG + cursor <= a < OFFSET_LOG + ORCHFS_JOURNAL_BYTES -> m' a = m a) ->
  frame_at m' cursor = frame_at m cursor.
Proof.
  intros Hc H. unfold frame_at. unfold FRAME_HEADER_BYTES.
  destruct (Z.ltb_spec ORCHFS_JOURNAL_BYTES (cursor + 64)); [done|].
  rewrite (nvm_read_ext m' m 64) by (intros; apply H; lia).
  set (header := frame_header_dec _).
  destruct (negb (fh_magic header =? _) || _ || _ || _) eqn:E; [done|].
  rewrite (nvm_read_ext m' m (fh_frame_bytes header)); [done|].
  intros a Ha. apply H. lia.
Qed.

Section recover.
Context `{Mo : MallocOracle} (Hmalloc : forall n, malloc_ok n = true).

Lemma recover_step_none s cursor d : frame_at (k_pmem s) cursor = None ->
  exists c, recover_step (s, cursor, d) = Stop (inr (set_k_clock c s, d)).
Proof.
  unfold frame_at, recover_step. intros H.
  assert (exists c, set_k_clock c s = s) as [c0 Hc0] by (exists (k_clock s); by destruct s).
  destruct (_ <? _); [exists c0; by rewrite Hc0|].
  destruct (negb (_ =? _) || _ || _ || _); [exists c0; by rewrite Hc0|].
  unfold malloc. rewrite Hmalloc. cbn [k_pmem set_k_clock].
  destruct (negb (validate_frame _ _ =? 0)); [by eexists|done].
Qed.

(** A frame whose payload is that of [recs] is applied as [recs]. *)
Lemma recover_step_some s cursor d frame recs : frame_at (k_pmem s) cursor = Some frame ->
  frame_fits recs -> len frame = frame_size recs -> pmem_ok (k_pmem s) -> geom_ok (k_bmps s) ->
  slice FRAME_HEADER_BYTES (len (payload_image recs)) frame = payload_image recs ->
  let tx := fh_txid (frame_header_dec (nvm_read (k_pmem s) FRAME_HEADER_BYTES (OFFSET_LOG + cursor))) in
  exists s', recover_step (s, cursor, d) = Next (s', cursor + frame_size recs, Z.max d tx) /\
    k_pmem s' = media_recs (k_bmps s) recs (k_pmem s) /\ geom_eq (k_bmps s) (k_bmps s') /\
    k_journal s' = k_journal s.
Proof.
  intros H Hf Hl Hm Hg Hs tx. unfold frame_at in H. unfold recover_step.
  destruct (ORCHFS_JOURNAL_BYTES <? _); [done|].
  set (header := frame_header_dec _) in *. set (fb := fh_frame_bytes header) in *.
  destruct (negb (fh_magic header =? _) || _ || _ || _) eqn:E; [done|].
  unfold malloc. rewrite Hmalloc. cbn [k_pmem set_k_clock k_bmps].
  destruct (negb (validate_frame (nvm_read (k_pmem s) fb (OFFSET_LOG + cursor)) fb =? 0)) eqn:Hv; [done|].
  injection H as <-. assert (fb = frame_size recs) as Hfb.
  { unfold FRAME_HEADER_BYTES, COMMIT_BYTES in E. rewrite len_nvm_read in Hl by lia. done. }
  rewrite Hfb in *. apply negb_false_iff, Z.eqb_eq in Hv.
  rewrite (apply_frame_payload true _ recs) by done.
  destruct (apply_jrecs_media true recs (k_pmem s) (k_bmps s) Hg (proj1 Hf) Hm) as (arr' & -> & Hge & _).
  cbn [Z.eqb negb]. fold tx. replace (if d <? tx then tx else d) with (Z.max d tx)
    by (destruct (Z.ltb_spec d tx); lia).
  eexists. split; [reflexivity|]. by cbn.
Qed.

(** ** Recovery as a whole *)

(** The superblock is one recovery accepts, its counters below their maximum. *)
Definition recover_ready (m : pmem) : Prop :=
  orchfs_log_validate_format m = 0 /\
  exists cp, latest_checkpoint (read_superblock m) = Some cp /\
    0 <= cp_generation cp < UINT64_MAX /\ cp_durable_txid cp < UINT64_MAX.

Lemma checkpoint_offset_bounds g : checkpoint_offset g = 304 \/ checkpoint_offset g = 336.
Proof.
  unfold checkpoint_offset. change OFFSET_SUPER_BLK with 0. unfold CHECKPOINTS_OFFSET.
  change (Z.land (u64 (g - 1)) 1) with (Z.land (u64 (g - 1)) (Z.ones 1)).
  rewrite Z.land_ones by lia. change (2 ^ 1) with 2.
  pose proof (Z.mod_pos_bound (u64 (g - 1)) 2 ltac:(lia)). lia.
Qed.


(** What follows the scan leaves the home locations as the scan left them. *)
Lemma recover_finish s cp s1 d : orchfs_log_validate_format (k_pmem s) = 0 ->
  latest_checkpoint (read_superblock (k_pmem s)) = Some cp -> 0 <= cp_generation cp < UINT64_MAX ->
  d < UINT64_MAX -> checkpoint_generation (k_journal s1) = cp_generation cp ->
  loopZ RECOVER_FUEL recover_step
    (set_k_journal (journal_set_generation (cp_generation cp) (k_journal s)) s, 0, cp_durable_txid cp) =
    Stop (inr (s1, d)) ->
  exists s', orchfs_log_recover s = Some (0, s') /\ (forall a, home a -> k_pmem s' a = k_pmem s1 a) /\
    k_journal s' = mk_journal (d + 1) (cp_generation cp + 1) true.
Proof.
  intros Hv Hcp Hg Hd Hj Hloop. unfold orchfs_log_recover.
  rewrite (bind_run _ _ _ _ _ (eq_refl : gets k_pmem s = Some (k_pmem s, s))).
  rewrite Hv. cbn [Z.eqb negb]. rewrite Hcp.
  unfold mbind, M_bind, modify, get. rewrite Hloop.
  unfold write_checkpoint, clear_journal, dev_write, mbind, M_bind, modify, gets, mret, M_ret.
  cbn [k_journal set_k_bmps k_pmem]. rewrite Hj.
  destruct (Z.eqb_spec (cp_generation cp) UINT64_MAX); [lia|]. cbn [Z.eqb negb].
  destruct (Z.eqb_spec d UINT64_MAX); [lia|]. eexists. split; [reflexivity|]. split.
  - intros a [Ha1 Ha2]. cbn [k_pmem set_k_pmem set_k_journal set_k_bmps].
    destruct (checkpoint_offset_bounds (cp_generation cp + 1)) as [E|E];
    rewrite !nvm_write_out; try done; rewrite ?E, ?checkpoint_enc_len; change (len (zeros 64)) with 64;
    unfold CHECKPOINTS_OFFSET in *; change ORCHFS_JOURNAL_BYTES with 67108864 in *; lia.
  - by cbn.
Qed.

Lemma recover_none s : recover_ready (k_pmem s) -> frame_at (k_pmem s) 0 = None ->
  exists s', orchfs_log_recover s = Some (0, s') /\ (forall a, home a -> k_pmem s' a = k_pmem s a) /\
    initialized (k_journal s') = true.
Proof.
  intros (Hv & cp & Hcp & Hg & Hd) Hn.
  set (s0 := set_k_journal (journal_set_generation (cp_generation cp) (k_journal s)) s).
  destruct (recover_step_none s0 0 (cp_durable_txid cp) Hn) as [c Hc].
  destruct (recover_finish s cp (set_k_clock c s0) (cp_durable_txid cp)) as (s' & Hr & Hh & Hj); try done.
  - fold s0. rewrite loopZ_step by done. by rewrite Hc.
  - exists s'. split_and!; [done|done|by rewrite Hj].
Qed.

(** The records reach only home locations below and above the log. *)
Definition recs_home (arr : mem_bmps) (recs : list jrec) : Prop :=
  forall a j, touched arr recs a j ->
    ORCH_SUPER_BLK_SIZE <= a < OFFSET_LOG \/ OFFSET_LOG + ORCHFS_JOURNAL_BYTES <= a.

Lemma media_recs_outside arr recs m a : geom_ok arr -> Forall jrec_ok recs -> pmem_ok m -> recs_home arr recs ->
  a < ORCH_SUPER_BLK_SIZE \/ OFFSET_LOG <= a < OFFSET_LOG + ORCHFS_JOURNAL_BYTES ->
  media_recs arr recs m a = m a.
Proof.
  intros Hg Hf Hm Hh Ha. pose proof (media_recs_ok arr recs m Hg Hf Hm) as Hok.
  pose proof (media_recs_frame arr recs m Hg Hf Hm) as Hfr.
  apply byte_bits_eq; [apply Hok|apply Hm|]. intros j Hj. symmetry. apply Hfr; [lia|].
  intros Ht. specialize (Hh a j Ht). unfold ORCH_SUPER_BLK_SIZE in *.
  change OFFSET_LOG with 104857600 in *. change ORCHFS_JOURNAL_BYTES with 67108864 in *. lia.
Qed.

Lemma recover_frame s recs frame : recover_ready (k_pmem s) -> pmem_ok (k_pmem s) -> geom_ok (k_bmps s) ->
  frame_fits recs -> recs_home (k_bmps s) recs ->
  frame_at (k_pmem s) 0 = Some frame -> len frame = frame_size recs ->
  slice FRAME_HEADER_BYTES (len (payload_image recs)) frame = payload_image recs ->
  fh_txid (frame_header_dec (nvm_read (k_pmem s) FRAME_HEADER_BYTES OFFSET_LOG)) < UINT64_MAX ->
  frame_at (k_pmem s) (frame_size recs) = None ->
  exists s', orchfs_log_recover s = Some (0, s') /\
    (forall a, home a -> k_pmem s' a = media_recs (k_bmps s) recs (k_pmem s) a) /\
    initialized (k_journal s') = true.
Proof.
  intros (Hv & cp & Hcp & Hg & Hd) Hm Hgeo Hf Hh Hfr Hl Hp Htx Hnone.
  set (s0 := set_k_journal (journal_set_generation (cp_generation cp) (k_journal s)) s).
  destruct (recover_step_some s0 0 (cp_durable_txid cp) frame recs Hfr Hf Hl Hm Hgeo Hp)
    as (s1 & Hs1 & Hp1 & Hg1 & Hj1).
  change (k_pmem s0) with (k_pmem s) in *. change (k_bmps s0) with (k_bmps s) in *.
  rewrite Z.add_0_r in Hs1. set (tx := fh_txid _) in *. rewrite Z.add_0_l in Hs1.
  destruct (recover_step_none s1 (frame_size recs) (Z.max (cp_durable_txid cp) tx)) as [c Hc].
  { rewrite Hp1, (frame_at_ext (k_pmem s)); [done| |].
    - pose proof (frame_size_bounds recs Hf). lia.
    - intros a Ha. apply media_recs_outside; try done; [apply Hf|].
      pose proof (frame_size_bounds recs Hf). lia. }
  destruct (recover_finish s cp (set_k_clock c s1) (Z.max (cp_durable_txid cp) tx)) as (s' & Hr & Hh' & Hj);
    try done; [lia|by cbn; rewrite Hj1| |].
  - fold s0. rewrite loopZ_step by done. rewrite Hs1. cbn [ctl_bind].
    rewrite loopZ_step by done. by rewrite Hc.
  - exists s'. split_and!; [done| |by rewrite Hj]. intros a Ha. rewrite Hh' by done. by rewrite <-Hp1.
Qed.
End recover.
