(* ===== verification/Recovery.v ===== *)
(** * Commit is atomic across power failure (LibFS/lib_log.c)

    Whatever point of [commit_one] a power failure interrupts, and whatever part of
    the writes in flight reached the media, [orchfs_log_recover] brings the home
    locations to the contents before the transaction or to those after it. *)

From stdpp Require Import base tactics numbers list gmap.
From Stdlib Require Import ZArith Lia FunctionalExtensionality.
From S2P Require Import Prelude Bytes Crc32c Layout Pmem DiskFormat Bitmap KernelFunc Frame Kfs MetaCache Txn LibSpace Journal JournalCrash.
Open Scope Z_scope.

#[export] Instance home_dec a : Decision (home a).
Proof. unfold home. apply _. Defined.

(** ** Torn writes *)

Lemma torn_one src off m m' : torn [(src, off)] m m' ->
  exists c : Z -> bool, (forall a b, same_unit [(src, off)] a b -> c a = c b) /\
    forall a, m' a = if c a then nvm_write m src off a else m a.
Proof.
  intros (k & Hk & Hm). exists (fun a => match k a with O => false | S _ => true end). split.
  - intros a b Hab. by rewrite (Hk a b Hab).
  - intros a. rewrite Hm. destruct (k a) as [|n]; [done|]. cbn. by rewrite take_nil.
Qed.

Lemma torn_one_out src off m m' a : torn [(src, off)] m m' -> ~ (off <= a < off + len src) -> m' a = m a.
Proof.
  intros H Ha. destruct (torn_one _ _ _ _ H) as (c & _ & Hc). rewrite Hc, nvm_write_out by done. by destruct (c a).
Qed.

Lemma torn_one_ok src off m m' : torn [(src, off)] m m' -> pmem_ok m -> bytes_ok src -> pmem_ok m'.
Proof.
  intros H Hm Hs a. destruct (torn_one _ _ _ _ H) as (c & _ & Hc). rewrite Hc.
  destruct (c a); [by apply nvm_write_ok|apply Hm].
Qed.

(** An aligned word of a line the write covers is old or new as a whole. *)
Lemma torn_one_word src off m m' p : torn [(src, off)] m m' -> p mod 8 = 0 ->
  off <= 64 * (p / 64) -> 64 * (p / 64) + 64 <= off + len src ->
  nvm_read m' 8 p = nvm_read m 8 p \/ nvm_read m' 8 p = slice (p - off) 8 src.
Proof.
  intros H Hp Hlo Hhi. destruct (torn_one _ _ _ _ H) as (c & Hu & Hc).
  assert (forall a, p <= a < p + 8 -> c a = c p) as Hcp.
  { intros a Ha. apply Hu. split; [|].
    - pose proof (Z.div_mod p 8). symmetry. apply Z.div_unique with (a - p); lia.
    - apply Exists_cons_hd. replace (a / 64) with (p / 64); [done|].
      pose proof (Z.div_mod p 8 ltac:(lia)). pose proof (Z.div_mod p 64 ltac:(lia)).
      pose proof (Z.mod_pos_bound p 64 ltac:(lia)). apply Z.div_unique with (a - 64 * (p / 64)); lia. }
  pose proof (Z.div_mod p 64 ltac:(lia)). pose proof (Z.mod_pos_bound p 64 ltac:(lia)).
  pose proof (Z.div_mod p 8 ltac:(lia)). destruct (c p) eqn:E; [right|left].
  - rewrite <-(nvm_read_write_in m src off 8 p) by lia. apply nvm_read_ext. intros a Ha. by rewrite Hc, Hcp.
  - apply nvm_read_ext. intros a Ha. by rewrite Hc, Hcp.
Qed.

Lemma home_writes_take arr k recs m : take k (home_writes arr recs m) = home_writes arr (take k recs) m.
Proof. revert k m. induction recs as [|r recs IH]; intros [|k] m; cbn; [done..|]. by rewrite IH. Qed.

(** Interrupted home writes differ from their start on the touched bits only. *)
Lemma torn_home arr recs m m' : geom_ok arr -> Forall jrec_ok recs -> pmem_ok m ->
  torn (home_writes arr recs m) m m' -> pmem_ok m' /\ agree_off (touched arr recs) m m'.
Proof.
  intros Hg Hok Hm (k & _ & Hk).
  assert (forall a, m' a = media_recs arr (take (k a) recs) m a) as Hk'.
  { intros a. rewrite Hk, home_writes_take, home_writes_exec by (try apply Forall_take; done). done. }
  split.
  - intros a. rewrite Hk'. apply media_recs_ok; [done|by apply Forall_take|done].
  - intros a j Hj Hn. rewrite Hk'. apply media_recs_frame; try done; [by apply Forall_take|].
    intros Ht. apply Hn. unfold touched in *. rewrite <-(take_drop (k a) recs). apply Exists_app. by left.
Qed.

(** ** Frames in a torn log *)

Lemma header_fields m : let h := frame_header_dec (nvm_read m FRAME_HEADER_BYTES OFFSET_LOG) in
  fh_magic h = le_val (nvm_read m 8 OFFSET_LOG) /\ fh_txid h = le_val (nvm_read m 8 (OFFSET_LOG + 16)) /\
  fh_frame_bytes h = le_val (nvm_read m 8 (OFFSET_LOG + 24)).
Proof.
  unfold frame_header_dec, FRAME_HEADER_BYTES. cbn [fh_magic fh_txid fh_frame_bytes]. unfold rd_u64.
  rewrite !nvm_read_slice by lia. by rewrite Z.add_0_r.
Qed.

(** What a commit record has to say for the frame to be accepted. *)
Definition commit_accepts (c : orchfs_journal_commit) (txid n checksum : Z) : Prop :=
  jc_magic c = ORCHFS_JOURNAL_COMMIT_MAGIC /\ jc_txid c = txid /\ jc_frame_bytes c = n /\
  jc_frame_checksum c = checksum.

Lemma validate_frame_commit frame n : validate_frame frame n = 0 ->
  commit_accepts (commit_dec (slice (n - COMMIT_BYTES) COMMIT_BYTES frame))
    (fh_txid (frame_header_dec (slice 0 FRAME_HEADER_BYTES frame))) n (orchfs_crc32c (slice 0 (n - COMMIT_BYTES) frame)).
Proof.
  unfold validate_frame, commit_accepts. intros H. set (commit := commit_dec _) in *. set (header := frame_header_dec _) in *.
  destruct (_ || _); [done|]. destruct (_ || _); [done|]. destruct (negb _); [done|].
  destruct (negb (jc_magic commit =? _) || _ || _ || _) eqn:E; [done|].
  rewrite !orb_false_iff, !negb_false_iff, !Z.eqb_eq in E. by destruct E as [[[-> ->] ->] ->].
Qed.

(** What an accepted frame at the start of the log tells. *)
Lemma frame_at_some m frame : frame_at m 0 = Some frame ->
  let h := frame_header_dec (nvm_read m FRAME_HEADER_BYTES OFFSET_LOG) in
  let n := fh_frame_bytes h in
  fh_magic h = ORCHFS_JOURNAL_MAGIC /\ 128 <= n <= ORCHFS_JOURNAL_BYTES /\ frame = nvm_read m n OFFSET_LOG /\
  commit_accepts (commit_dec (nvm_read m COMMIT_BYTES (OFFSET_LOG + n - COMMIT_BYTES))) (fh_txid h) n
    (orchfs_crc32c (nvm_read m (n - COMMIT_BYTES) OFFSET_LOG)).
Proof.
  unfold frame_at. rewrite Z.add_0_r. destruct (_ <? _); [done|]. cbv zeta.
  set (h := frame_header_dec _). set (n := fh_frame_bytes h).
  destruct (negb (fh_magic h =? _) || _ || _ || _) eqn:E; [done|].
  destruct (negb (validate_frame _ _ =? 0)) eqn:Ev; [done|]. intros [= <-].
  rewrite !orb_false_iff in E. destruct E as [[[E1 E2] E3] E4].
  unfold FRAME_HEADER_BYTES, COMMIT_BYTES in E2. assert (128 <= n <= ORCHFS_JOURNAL_BYTES) as Hn by lia.
  apply negb_false_iff, Z.eqb_eq in Ev. apply validate_frame_commit in Ev.
  unfold COMMIT_BYTES, FRAME_HEADER_BYTES in *. rewrite !nvm_read_slice, !Z.add_0_r in Ev by lia.
  replace (OFFSET_LOG + (n - 64)) with (OFFSET_LOG + n - 64) in Ev by lia.
  split_and!; try done; lia.
Qed.

(** A log that starts with the body of a frame. *)
Lemma frame_at_body txid recs m : is_u64 txid -> frame_fits recs ->
  nvm_read m (frame_size recs - COMMIT_BYTES) OFFSET_LOG = frame_body txid recs ->
  let tail := nvm_read m COMMIT_BYTES (OFFSET_LOG + frame_size recs - COMMIT_BYTES) in
  frame_at m 0 = if commit_matches txid recs (commit_dec tail) then Some (frame_body txid recs ++ tail) else None.
Proof.
  intros Hu Hf Hb. cbv zeta. pose proof (frame_size_bounds recs Hf) as (Hs & _ & Hm).
  unfold frame_at. change (ORCHFS_JOURNAL_BYTES <? 0 + FRAME_HEADER_BYTES) with false. rewrite Z.add_0_r, Z.sub_0_r.
  cbv iota. assert (nvm_read m FRAME_HEADER_BYTES OFFSET_LOG = slice 0 FRAME_HEADER_BYTES (frame_body txid recs)) as Hh.
  { rewrite <-Hb. unfold FRAME_HEADER_BYTES, COMMIT_BYTES. rewrite nvm_read_slice by lia. by rewrite Z.add_0_r. }
  rewrite Hh, header_of_body by done. cbn [frame_header_of fh_magic fh_frame_bytes]. fold (frame_size recs).
  unfold FRAME_HEADER_BYTES at 1, COMMIT_BYTES at 1. rewrite Z.eqb_refl, Hm. cbn [negb orb Z.eqb].
  change ORCHFS_JOURNAL_BYTES with 67108864.
  replace (frame_size recs <? 64 + 64) with false by lia. replace (67108864 <? frame_size recs) with false by lia.
  cbn [orb]. replace (nvm_read m (frame_size recs) OFFSET_LOG) with
    (frame_body txid recs ++ nvm_read m COMMIT_BYTES (OFFSET_LOG + frame_size recs - COMMIT_BYTES)).
  2: { rewrite <-Hb. replace (OFFSET_LOG + frame_size recs - COMMIT_BYTES) with
      (OFFSET_LOG + (frame_size recs - COMMIT_BYTES)) by lia. unfold COMMIT_BYTES.
    rewrite <-nvm_read_app by lia. f_equal. lia. }
  rewrite validate_body; [|done|done|by rewrite len_nvm_read by (unfold COMMIT_BYTES; lia)].
  by destruct (commit_matches _ _ _).
Qed.

(** ** Checkpoint slots *)

Lemma le_val_top m p : pmem_ok m -> (le_val (nvm_read m 8 p) < 2 ^ 56 <-> m (p + 7) = 0).
Proof.
  intros Hm. unfold nvm_read. change (Z.to_nat 8) with 8%nat. cbn [read_bytes le_val].
  replace (p + 1 + 1 + 1 + 1 + 1 + 1 + 1) with (p + 7) by lia.
  pose proof (Hm p). pose proof (Hm (p + 1)). pose proof (Hm (p + 1 + 1)). pose proof (Hm (p + 1 + 1 + 1)).
  pose proof (Hm (p + 1 + 1 + 1 + 1)). pose proof (Hm (p + 1 + 1 + 1 + 1 + 1)).
  pose proof (Hm (p + 1 + 1 + 1 + 1 + 1 + 1)). pose proof (Hm (p + 7)). unfold byte_ok in *. lia.
Qed.

Definition slot (m : pmem) (off : Z) : orchfs_disk_checkpoint := checkpoint_dec (nvm_read m 32 off).
(** Counters of a slot, valid or not, of which the topmost byte is clear. *)
Definition slot_small (m : pmem) (off : Z) : Prop :=
  cp_generation (slot m off) < 2 ^ 56 /\ cp_durable_txid (slot m off) < 2 ^ 56.

Lemma slot_small_bytes m off : pmem_ok m -> slot_small m off <-> m (off + 7) = 0 /\ m (off + 15) = 0.
Proof.
  intros Hm. unfold slot_small, slot, checkpoint_dec. cbn [cp_generation cp_durable_txid]. unfold rd_u64.
  rewrite !nvm_read_slice by lia. rewrite Z.add_0_r, !le_val_top by done.
  by replace (off + 8 + 7) with (off + 15) by lia.
Qed.

(** A superblock with a valid checkpoint in the slot of generation [g]. *)
Definition checkpoints_ok (g : Z) (m : pmem) : Prop :=
  orchfs_log_validate_format m = 0 /\ valid_checkpoint (slot m (checkpoint_offset g)) = true /\
  slot_small m 304 /\ slot_small m 336.

Lemma slot_nonneg m off : pmem_ok m -> 0 <= cp_generation (slot m off).
Proof. intros Hm. apply rd_u64_range. by apply nvm_read_ok. Qed.

Lemma checkpoints_ready g m : pmem_ok m -> checkpoints_ok g m -> recover_ready m.
Proof.
  intros Hm (Hv & Hg & H0 & H1). split; [done|]. destruct (superblock_slots m) as [E0 E1].
  unfold latest_checkpoint. rewrite E0, E1. unfold slot0, slot1. fold (slot m 304) (slot m 336).
  pose proof (slot_nonneg m 304 Hm). pose proof (slot_nonneg m 336 Hm). unfold slot_small, UINT64_MAX in *.
  assert (negb (valid_checkpoint (slot m 304)) && negb (valid_checkpoint (slot m 336)) = false) as ->.
  { destruct (checkpoint_offset_bounds g) as [E|E]; rewrite E in Hg; rewrite Hg; [done|by rewrite andb_false_r]. }
  destruct (_ || _); eexists; (split; [done|]); lia.
Qed.

Lemma checkpoint_offset_next g : 1 <= g < 2 ^ 56 -> checkpoint_offset (g + 1) + checkpoint_offset g = 640.
Proof.
  intros Hg. unfold checkpoint_offset. rewrite !u64_small by lia. change OFFSET_SUPER_BLK with 0.
  unfold CHECKPOINTS_OFFSET. assert (forall x, Z.land x 1 = x mod 2) as Hl by (intros; by apply (Z.land_ones x 1)).
  rewrite !Hl. replace (g + 1 - 1) with g by lia. pose proof (Z.div_mod g 2 ltac:(lia)).
  pose proof (Z.mod_pos_bound g 2 ltac:(lia)). pose proof (Z.div_mod (g - 1) 2 ltac:(lia)).
  pose proof (Z.mod_pos_bound (g - 1) 2 ltac:(lia)). lia.
Qed.

Lemma checkpoints_ok_ext g m m' : pmem_ok m -> pmem_ok m' -> (forall a, 0 <= a < ORCH_SUPER_BLK_SIZE -> m' a = m a) ->
  checkpoints_ok g m -> checkpoints_ok g m'.
Proof.
  unfold ORCH_SUPER_BLK_SIZE. intros Hm Hm' H (Hv & Hg & H0 & H1). unfold checkpoints_ok.
  rewrite !slot_small_bytes in * by done. rewrite !H by lia. split_and!; try tauto.
  - rewrite <-Hv. apply validate_format_ext. intros a Ha. apply H. lia.
  - rewrite <-Hg. unfold slot. rewrite (nvm_read_ext m' m); [done|].
    destruct (checkpoint_offset_bounds g); intros; apply H; lia.
Qed.

Lemma small_top_byte z n : 0 <= z < 256 ^ Z.of_nat n -> byte_at (le_bytes (S n) z) (Z.of_nat n) = 0.
Proof.
  revert z. induction n as [|n IH]; intros z Hz.
  - cbn in *. unfold byte_at. cbn. by replace z with 0 by lia.
  - rewrite Nat2Z.inj_succ, Z.pow_succ_r in Hz by lia. cbn [le_bytes].
    transitivity (byte_at (le_bytes (S n) (z / 256)) (Z.of_nat n)); [|apply IH; split;
      [apply Z.div_pos; lia|apply Z.div_lt_upper_bound; lia]].
    unfold byte_at. rewrite !Nat2Z.id. done.
Qed.

(** The other slot may be torn. *)
Lemma checkpoints_ok_torn g txid m m' : pmem_ok m -> 1 <= g -> g + 1 < 2 ^ 56 -> 0 <= txid < 2 ^ 56 ->
  torn [log_checkpoint (g + 1) txid] m m' -> checkpoints_ok g m ->
  pmem_ok m' /\ checkpoints_ok g m'.
Proof.
  intros Hm Hg1 Hg2 Ht Htorn (Hv & Hg & H0 & H1). unfold log_checkpoint in Htorn.
  pose proof (checkpoint_offset_next g ltac:(lia)) as Hsum. pose proof (checkpoint_offset_bounds g) as Hb.
  assert (pmem_ok m') as Hm'.
  { apply (torn_one_ok _ _ _ _ Htorn); [done|]. unfold checkpoint_enc, bytes_ok. rewrite !Forall_app.
    split_and!; apply le_bytes_ok. }
  split; [done|]. set (c := checkpoint_enc _) in Htorn.
  assert (byte_at c 7 = 0 /\ byte_at c 15 = 0) as [Hc7 Hc15].
  { split; [apply (small_top_byte (g + 1) 7)|apply (small_top_byte txid 7)]; lia. }
  unfold checkpoints_ok. rewrite !slot_small_bytes in * by done.
  assert (forall off i, (off = 304 \/ off = 336) -> (i = 7 \/ i = 15) -> m (off + i) = 0 -> m' (off + i) = 0) as Hz.
  { intros off i Ho Hi Hz. destruct (torn_one _ _ _ _ Htorn) as (k & _ & Hk). rewrite Hk.
    destruct (k _); [|done]. change (len c) with 32 in *.
    destruct (Z.eq_dec off (checkpoint_offset (g + 1))) as [E|E].
    - rewrite nvm_write_in by (change (len c) with 32; lia). replace (off + i - _) with i by lia.
      by destruct Hi as [-> | ->].
    - rewrite nvm_write_out; [done|]. change (len c) with 32. lia. }
  assert (forall a, ~ (checkpoint_offset (g + 1) <= a < checkpoint_offset (g + 1) + 32) -> m' a = m a) as Hout.
  { intros a Ha. by apply (torn_one_out _ _ _ _ _ Htorn). }
  split_and!; try (apply Hz; tauto).
  - rewrite <-Hv. apply validate_format_ext. intros a Ha. apply Hout. lia.
  - rewrite <-Hg. unfold slot. rewrite (nvm_read_ext m' m); [done|]. intros a Ha. apply Hout. lia.
Qed.

(** ** The crash theorem *)

(** What a commit of [recs] as [txid] at generation [g] starts from: the log
    header is clear; the stale bytes where the commit record goes do not commit a
    partly written body of this transaction, and those after the frame do not make
    up a frame of their own. *)
Record log_ready (arr : mem_bmps) (txid g : Z) (recs : list jrec) (m : pmem) : Prop := {
  lr_media : pmem_ok m;
  lr_geom : geom_ok arr;
  lr_fits : frame_fits recs;
  lr_home : recs_home arr recs;
  lr_txid : 0 < txid < 2 ^ 56;
  lr_gen : 1 <= g /\ g + 1 < 2 ^ 56;
  lr_checkpoints : checkpoints_ok g m;
  lr_clear : forall a, OFFSET_LOG <= a < OFFSET_LOG + 64 -> m a = 0;
  lr_slot : forall m' tx, torn [log_body txid recs] m m' -> tx = 0 \/ tx = txid ->
    ~ commit_accepts (commit_dec (nvm_read m COMMIT_BYTES (OFFSET_LOG + frame_size recs - COMMIT_BYTES)))
        tx (frame_size recs) (orchfs_crc32c (nvm_read m' (frame_size recs - COMMIT_BYTES) OFFSET_LOG));
  lr_after : frame_at m (frame_size recs) = None;
}.

Section crash.
Context `{Mo : MallocOracle} (Hmalloc : forall n, malloc_ok n = true).
Context (arr : mem_bmps) (txid g : Z) (recs : list jrec) (m : pmem) (Hready : log_ready arr txid g recs m).

(** Recovery started on media [m'], with any DRAM state over the same bitmaps. *)
Definition recovers_to (m' target : pmem) : Prop :=
  forall s, k_pmem s = m' -> geom_eq arr (k_bmps s) ->
  exists s', orchfs_log_recover s = Some (0, s') /\ (forall a, home a -> k_pmem s' a = target a) /\
    initialized (k_journal s') = true.

Lemma recovers_no_frame m' target : pmem_ok m' -> checkpoints_ok g m' -> frame_at m' 0 = None ->
  (forall a, home a -> m' a = target a) -> recovers_to m' target.
Proof.
  intros Hm' Hcp Hn Hh s <- Hg. destruct (recover_none Hmalloc s) as (s' & Hr & Ha & Hi); [by eapply checkpoints_ready|done|].
  exists s'. split_and!; [done| |done]. intros a Hha. by rewrite Ha, Hh.
Qed.

Lemma geom_eq_recs arr' rs x : geom_eq arr arr' -> media_recs arr' rs x = media_recs arr rs x.
Proof.
  intros H. unfold media_recs. revert x. induction rs as [|r rs IH]; intros x; [done|]. cbn.
  by rewrite (geom_eq_media _ _ _ _ H).
Qed.
Lemma geom_eq_home arr' : geom_eq arr arr' -> recs_home arr recs -> recs_home arr' recs.
Proof.
  intros H Hh a j Ht. apply (Hh a j). unfold touched in *. eapply Exists_impl; [exact Ht|].
  intros [|kind type block]; cbn; [done|]. by destruct (H type) as [-> _].
Qed.

(** Media that agree with [m] on the home bits the records leave alone. *)
Definition agree_home (m' : pmem) : Prop := agree_off (fun a j => touched arr recs a j \/ ~ home a) m m'.

Lemma agree_home_replay m' : pmem_ok m' -> agree_home m' ->
  forall a, home a -> media_recs arr recs m' a = media_recs arr recs m a.
Proof.
  destruct Hready. intros Hm' H a Ha. apply byte_bits_eq; [apply media_recs_ok; try done; apply lr_fits0..|].
  intros j Hj. symmetry. apply (media_recs_agree arr recs _ m m' lr_geom0 (proj1 lr_fits0) lr_media0 Hm' H); [done|].
  tauto.
Qed.

Lemma recovers_frame m' frame : pmem_ok m' -> checkpoints_ok g m' -> agree_home m' ->
  frame_at m' 0 = Some frame -> len frame = frame_size recs ->
  slice FRAME_HEADER_BYTES (len (payload_image recs)) frame = payload_image recs ->
  fh_txid (frame_header_dec (nvm_read m' FRAME_HEADER_BYTES OFFSET_LOG)) < UINT64_MAX ->
  (forall a, OFFSET_LOG + frame_size recs <= a < OFFSET_LOG + ORCHFS_JOURNAL_BYTES -> m' a = m a) ->
  recovers_to m' (media_recs arr recs m).
Proof.
  intros Hm' Hcp Hag Hfr Hl Hp Htx Hafter s <- Hg. pose proof Hready as [].
  destruct (recover_frame Hmalloc s recs frame) as (s' & Hr & Ha & Hi); try done.
  - by eapply checkpoints_ready.
  - by eapply geom_eq_ok.
  - by apply geom_eq_home.
  - rewrite (frame_at_ext m); [done| |done]. pose proof (frame_size_bounds recs lr_fits0). lia.
  - exists s'. split_and!; [done| |done]. intros a Hha. rewrite Ha by done. rewrite geom_eq_recs by done.
    by apply agree_home_replay.
Qed.
Lemma agree_home_same m' : (forall a, home a -> m' a = m a) -> agree_home m'.
Proof.
  intros H a j Hj Hn. destruct (decide (home a)); [by rewrite H|destruct Hn; by right].
Qed.

Lemma txid_u64 : is_u64 txid.
Proof. destruct Hready. unfold is_u64. lia. Qed.

Lemma log_bounds : 128 <= frame_size recs <= 67108864 /\ ORCHFS_JOURNAL_BYTES = 67108864 /\ OFFSET_LOG = 104857600 /\
  len (frame_body txid recs) = frame_size recs - 64 /\
  len (commit_enc (frame_commit txid (frame_body txid recs))) = 64 /\ frame_size recs mod 64 = 0.
Proof.
  destruct Hready. pose proof (frame_size_bounds recs lr_fits0) as (? & ? & _). pose proof txid_u64.
  split_and!; first [done|lia|by apply frame_body_len|by apply frame_commit_len].
Qed.

Lemma checkpoints_kept m' : pmem_ok m' -> (forall a, 0 <= a < ORCH_SUPER_BLK_SIZE -> m' a = m a) -> checkpoints_ok g m'.
Proof. intros Hm' H. destruct Hready. by eapply checkpoints_ok_ext. Qed.

Lemma body_words : le_val (slice 16 8 (frame_body txid recs)) = txid /\
  le_val (slice 24 8 (frame_body txid recs)) = frame_size recs.
Proof.
  destruct Hready. pose proof (header_of_body txid recs txid_u64 lr_fits0) as Hh.
  unfold frame_header_dec, rd_u64, FRAME_HEADER_BYTES in Hh. rewrite !slice_slice in Hh by lia.
  pose proof (f_equal fh_txid Hh) as H1. pose proof (f_equal fh_frame_bytes Hh) as H2.
  cbn [fh_txid fh_frame_bytes frame_header_of] in H1, H2. rewrite Z.add_0_l in H1, H2. by split.
Qed.

(** The words of a log header a torn write covers. *)
Lemma torn_header src x x' p : torn [(src, OFFSET_LOG)] x x' -> 64 <= len src -> p = 16 \/ p = 24 ->
  nvm_read x' 8 (OFFSET_LOG + p) = nvm_read x 8 (OFFSET_LOG + p) \/ nvm_read x' 8 (OFFSET_LOG + p) = slice p 8 src.
Proof.
  intros Ht Hl Hp. destruct (torn_one_word _ _ _ _ (OFFSET_LOG + p) Ht) as [E|E]; [..|by left|right].
  - by destruct Hp as [-> | ->].
  - by destruct Hp as [-> | ->].
  - replace (64 * ((OFFSET_LOG + p) / 64)) with OFFSET_LOG by (by destruct Hp as [-> | ->]). lia.
  - rewrite E. f_equal. lia.
Qed.

Lemma clear_word p : 0 <= p <= 56 -> le_val (nvm_read m 8 (OFFSET_LOG + p)) = 0.
Proof. intros Hp. destruct Hready. by rewrite (nvm_read_ext m (fun _ => 0)) by (intros; apply lr_clear0; lia). Qed.

(** A torn body is not accepted: its commit record is missing. *)
Lemma torn_body_rejected m' : torn [log_body txid recs] m m' -> frame_at m' 0 = None.
Proof.
  intros Ht. pose proof log_bounds as (Hs & HJ & HL & Hbl & _). pose proof Hready as [].
  destruct (frame_at m' 0) as [frame|] eqn:E; [exfalso|done].
  apply frame_at_some in E as (_ & En & _ & Ec).
  destruct (header_fields m') as (_ & Ft & Fn). rewrite Ft in Ec. rewrite Fn in *. destruct body_words as [Bt Bn].
  destruct (torn_header _ m m' 24 Ht ltac:(lia) ltac:(lia)) as [E24|E24]; rewrite E24 in *;
    [rewrite clear_word in En; lia|]. rewrite Bn in *.
  rewrite (nvm_read_ext m' m COMMIT_BYTES) in Ec
    by (unfold COMMIT_BYTES; intros a Ha; apply (torn_one_out _ _ _ _ _ Ht); lia).
  apply (lr_slot0 m' (le_val (nvm_read m' 8 (OFFSET_LOG + 16))) Ht); [|done].
  destruct (torn_header _ m m' 16 Ht ltac:(lia) ltac:(lia)) as [E16|E16]; rewrite E16; [left; by apply clear_word|by right].
Qed.

(** Group 0: the body of the frame. *)
Lemma crash_body m' : torn [log_body txid recs] m m' -> recovers_to m' m.
Proof.
  intros Ht. pose proof log_bounds as (Hs & HJ & HL & Hbl & _ & Hmod). pose proof Hready as [].
  pose proof (torn_body_rejected m' Ht) as Hrej. unfold log_body in Ht.
  pose proof (fun a => torn_one_out _ _ _ _ a Ht) as Hout. rewrite Hbl in Hout.
  assert (pmem_ok m') as Hm' by (apply (torn_one_ok _ _ _ _ Ht); [done|by apply frame_body_ok; [apply txid_u64|]]).
  apply recovers_no_frame; [done| |done|].
  - apply checkpoints_kept; [done|]. unfold ORCH_SUPER_BLK_SIZE. intros a Ha. apply Hout. lia.
  - intros a [_ Ha]. apply Hout. lia.
Qed.

(** A log that starts with the body of the frame: accepted with its commit record. *)
Lemma crash_with_body m' : pmem_ok m' -> checkpoints_ok g m' -> agree_home m' ->
  nvm_read m' (frame_size recs - COMMIT_BYTES) OFFSET_LOG = frame_body txid recs ->
  (forall a, OFFSET_LOG + frame_size recs <= a < OFFSET_LOG + ORCHFS_JOURNAL_BYTES -> m' a = m a) ->
  if commit_matches txid recs (commit_dec (nvm_read m' COMMIT_BYTES (OFFSET_LOG + frame_size recs - COMMIT_BYTES)))
  then recovers_to m' (media_recs arr recs m) else frame_at m' 0 = None.
Proof.
  intros Hm' Hcp Hag Hb Haf. pose proof log_bounds as (Hs & HJ & HL & Hbl & _). pose proof Hready as [].
  pose proof (frame_at_body txid recs m' txid_u64 lr_fits0 Hb) as Hf. cbv zeta in Hf.
  destruct (commit_matches _ _ _) eqn:E; [|done].
  eapply recovers_frame; [done..| | | |done].
  - unfold len in *. rewrite length_app, Nat2Z.inj_add. fold (len (nvm_read m' COMMIT_BYTES
      (OFFSET_LOG + frame_size recs - COMMIT_BYTES))). rewrite len_nvm_read by done. unfold COMMIT_BYTES. lia.
  - pose proof (len_nonneg (payload_image recs)). unfold frame_size in Hbl. unfold FRAME_HEADER_BYTES, COMMIT_BYTES in *.
    rewrite slice_app_l by lia. by apply (payload_of_body txid recs txid_u64).
  - destruct (header_fields m') as (_ & -> & _). destruct body_words as [Bt _]. rewrite <-Hb in Bt.
    unfold COMMIT_BYTES in *. rewrite nvm_read_slice in Bt by lia. rewrite Bt. unfold UINT64_MAX. lia.
Qed.
Lemma frame_commit_bytes : bytes_ok (commit_enc (frame_commit txid (frame_body txid recs))).
Proof. destruct Hready. apply commit_image_ok. by apply frame_commit_wf; [apply txid_u64|]. Qed.
Lemma frame_body_bytes : bytes_ok (frame_body txid recs).
Proof. destruct Hready. by apply frame_body_ok; [apply txid_u64|]. Qed.

Lemma commit_matches_own : commit_matches txid recs
  (commit_dec (commit_enc (frame_commit txid (frame_body txid recs)))) = true.
Proof.
  destruct Hready. pose proof log_bounds as (_ & _ & _ & Hbl & _).
  rewrite commit_roundtrip by by apply frame_commit_wf; [apply txid_u64|].
  unfold commit_matches, frame_commit. cbn [jc_magic jc_txid jc_frame_bytes jc_frame_checksum].
  rewrite !Z.eqb_refl, Hbl. unfold COMMIT_BYTES. rewrite Z.sub_add. by rewrite Z.eqb_refl.
Qed.

(** Group 1: the commit record. *)
Lemma crash_commit m' : torn [log_commit txid recs] (nvm_write m (frame_body txid recs) OFFSET_LOG) m' ->
  recovers_to m' m \/ recovers_to m' (media_recs arr recs m).
Proof.
  intros Ht. pose proof log_bounds as (Hs & HJ & HL & Hbl & Hcl & _). pose proof Hready as []. unfold log_commit in Ht.
  pose proof (fun a => torn_one_out _ _ _ _ a Ht) as Hout. rewrite Hcl in Hout. unfold COMMIT_BYTES in *.
  assert (pmem_ok m') as Hm'.
  { apply (torn_one_ok _ _ _ _ Ht); [apply nvm_write_ok; [done|apply frame_body_bytes]|apply frame_commit_bytes]. }
  assert (forall a, ~ (OFFSET_LOG <= a < OFFSET_LOG + frame_size recs) -> m' a = m a) as Hsame.
  { intros a Ha. rewrite Hout by lia. apply nvm_write_out. lia. }
  assert (checkpoints_ok g m') as Hcp.
  { apply checkpoints_kept; [done|]. unfold ORCH_SUPER_BLK_SIZE. intros a Ha. apply Hsame. lia. }
  assert (forall a, home a -> m' a = m a) as Hhome by (intros a [_ Ha]; apply Hsame; lia).
  pose proof (crash_with_body m' Hm' Hcp (agree_home_same m' Hhome)) as Hfr. unfold COMMIT_BYTES in Hfr.
  assert (nvm_read m' (frame_size recs - 64) OFFSET_LOG = frame_body txid recs) as Hb.
  { rewrite (nvm_read_ext m' (nvm_write m (frame_body txid recs) OFFSET_LOG)) by (intros; apply Hout; lia).
    rewrite <-Hbl. apply nvm_read_write_same. }
  specialize (Hfr Hb ltac:(intros a Ha; apply Hsame; lia)).
  destruct (commit_matches _ _ _); [by right|left]. by apply recovers_no_frame.
Qed.

(** From the second fence on the frame is in the log. *)
Lemma crash_logged m' : pmem_ok m' -> checkpoints_ok g m' -> agree_home m' ->
  (forall a, OFFSET_LOG <= a < OFFSET_LOG + ORCHFS_JOURNAL_BYTES -> m' a = logged txid recs m a) ->
  recovers_to m' (media_recs arr recs m).
Proof.
  intros Hm' Hcp Hag Hlog. pose proof log_bounds as (Hs & HJ & HL & Hbl & Hcl & _). pose proof Hready as [].
  pose proof (crash_with_body m' Hm' Hcp Hag) as Hfr. unfold COMMIT_BYTES in Hfr. unfold logged in Hlog.
  unfold COMMIT_BYTES in Hlog.
  set (m1 := nvm_write m _ _) in Hlog. set (m2 := nvm_write m1 _ _) in Hlog.
  rewrite (nvm_read_ext m' m2 64) in Hfr by (intros; apply Hlog; lia).
  assert (nvm_read m2 64 (OFFSET_LOG + frame_size recs - 64) =
    commit_enc (frame_commit txid (frame_body txid recs))) as Hc.
  { rewrite <-Hcl at 1. apply nvm_read_write_same. }
  rewrite Hc, commit_matches_own in Hfr. apply Hfr.
  - rewrite (nvm_read_ext m' m2) by (intros; apply Hlog; lia). unfold m2, m1.
    rewrite nvm_read_write_out by lia. rewrite <-Hbl. apply nvm_read_write_same.
  - intros a Ha. rewrite Hlog by lia. unfold m2, m1. rewrite !nvm_write_out by lia. done.
Qed.

Lemma logged_home a : home a -> logged txid recs m a = m a.
Proof.
  pose proof log_bounds as (Hs & HJ & HL & Hbl & Hcl & _). intros [_ Ha]. unfold logged, COMMIT_BYTES.
  rewrite !nvm_write_out by lia. done.
Qed.
Lemma logged_pmem_ok : pmem_ok (logged txid recs m).
Proof. destruct Hready. apply logged_ok; [apply txid_u64|done..]. Qed.

(** Media that agree with the logged media off the touched bits. *)
Lemma agree_home_logged m' : agree_off (touched arr recs) (logged txid recs m) m' -> agree_home m'.
Proof.
  intros H. assert (agree_home (logged txid recs m)) as Hl by (apply agree_home_same, logged_home).
  intros a j Hj Hn. rewrite Hl by done. apply H; [done|]. tauto.
Qed.
Lemma agree_outside m' a : pmem_ok m' -> agree_off (touched arr recs) (logged txid recs m) m' ->
  a < ORCH_SUPER_BLK_SIZE \/ OFFSET_LOG <= a < OFFSET_LOG + ORCHFS_JOURNAL_BYTES -> m' a = logged txid recs m a.
Proof.
  intros Hm' H Ha. destruct Hready. pose proof log_bounds as (_ & HJ & HL & _).
  apply byte_bits_eq; [apply Hm'|apply logged_pmem_ok|]. intros j Hj. symmetry. apply H; [done|].
  intros Ht. specialize (lr_home0 a j Ht). unfold ORCH_SUPER_BLK_SIZE in *. lia.
Qed.
Lemma logged_checkpoints m' : pmem_ok m' -> agree_off (touched arr recs) (logged txid recs m) m' -> checkpoints_ok g m'.
Proof.
  intros Hm' H. apply checkpoints_kept; [done|]. intros a Ha. rewrite agree_outside by (done || lia).
  pose proof log_bounds as (Hs & HJ & HL & Hbl & Hcl & _). unfold logged, COMMIT_BYTES, ORCH_SUPER_BLK_SIZE in *.
  rewrite !nvm_write_out by lia. done.
Qed.

(** Group 2: the home writes. *)
Lemma crash_home m' : torn (home_writes arr recs (logged txid recs m)) (logged txid recs m) m' ->
  recovers_to m' (media_recs arr recs m).
Proof.
  intros Ht. pose proof Hready as [].
  destruct (torn_home arr recs _ m' lr_geom0 (proj1 lr_fits0) logged_pmem_ok Ht) as [Hm' Hag].
  apply crash_logged; [done|by apply logged_checkpoints|by apply agree_home_logged|].
  intros a Ha. apply agree_outside; [done..|by right].
Qed.
(** The media once the home writes are fenced. *)
Definition applied : pmem := media_recs arr recs (logged txid recs m).
Lemma applied_ok : pmem_ok applied /\ agree_off (touched arr recs) (logged txid recs m) applied.
Proof.
  destruct Hready. pose proof logged_pmem_ok. split; [apply media_recs_ok|apply media_recs_frame]; try done;
    apply lr_fits0.
Qed.
Lemma applied_home a : home a -> applied a = media_recs arr recs m a.
Proof. apply agree_home_replay; [apply logged_pmem_ok|apply agree_home_same, logged_home]. Qed.

Lemma torn_checkpoint_ok m' : torn [log_checkpoint (g + 1) txid] applied m' -> pmem_ok m' /\ checkpoints_ok g m'.
Proof.
  destruct applied_ok as [Ha1 Ha2]. destruct Hready. intros Ht.
  apply (checkpoints_ok_torn g txid applied); try done; [lia..|by apply logged_checkpoints].
Qed.
Lemma torn_checkpoint_out m' a : torn [log_checkpoint (g + 1) txid] applied m' ->
  home a \/ OFFSET_LOG <= a < OFFSET_LOG + ORCHFS_JOURNAL_BYTES -> m' a = applied a.
Proof.
  intros Ht Ha. apply (torn_one_out _ _ _ _ _ Ht). rewrite checkpoint_enc_len.
  pose proof log_bounds as (_ & HJ & HL & _). pose proof (checkpoint_offset_bounds (g + 1)).
  unfold home, CHECKPOINTS_OFFSET in Ha. lia.
Qed.

(** Group 3: the checkpoint. *)
Lemma crash_checkpoint m' : torn [log_checkpoint (g + 1) txid] applied m' -> recovers_to m' (media_recs arr recs m).
Proof.
  intros Ht. destruct (torn_checkpoint_ok m' Ht) as [Hm' Hcp]. destruct applied_ok as [Ha1 Ha2].
  apply crash_logged; [done|done| |].
  - intros a j Hj Hn. destruct (decide (home a)); [|destruct Hn; by right].
    rewrite (torn_checkpoint_out m' a Ht) by by left. by apply (agree_home_logged applied Ha2).
  - intros a Ha. rewrite (torn_checkpoint_out m' a Ht) by by right. apply agree_outside; [done..|by right].
Qed.

Lemma torn_full ws x : torn ws x (exec_ops ws x).
Proof. exists (fun _ => length ws). split; [done|]. intros a. by rewrite firstn_all. Qed.

(** The header words while it is being cleared. *)
Lemma clear_header m4 m' : torn [log_clear] m4 m' ->
  (forall a, OFFSET_LOG <= a < OFFSET_LOG + 64 -> m4 a = logged txid recs m a) ->
  (le_val (nvm_read m' 8 (OFFSET_LOG + 16)) = 0 \/ le_val (nvm_read m' 8 (OFFSET_LOG + 16)) = txid) /\
  (le_val (nvm_read m' 8 (OFFSET_LOG + 24)) = 0 \/ le_val (nvm_read m' 8 (OFFSET_LOG + 24)) = frame_size recs).
Proof.
  intros Ht H4. pose proof log_bounds as (Hs & HJ & HL & Hbl & _). destruct body_words as [Bt Bn].
  assert (forall p, 0 <= p <= 56 -> nvm_read m4 8 (OFFSET_LOG + p) = slice p 8 (frame_body txid recs)) as H4'.
  { intros p Hp. rewrite (nvm_read_ext m4 (logged txid recs m)) by (intros; apply H4; lia).
    unfold logged, COMMIT_BYTES. rewrite nvm_read_write_out by lia. rewrite nvm_read_write_in by lia. f_equal. lia. }
  split.
  - destruct (torn_header _ m4 m' 16 Ht ltac:(done) ltac:(lia)) as [-> | ->]; [right; by rewrite H4'|by left].
  - destruct (torn_header _ m4 m' 24 Ht ltac:(done) ltac:(lia)) as [-> | ->]; [right; by rewrite H4'|by left].
Qed.

Lemma logged_payload m' :
  (forall a, OFFSET_LOG + 64 <= a < OFFSET_LOG + frame_size recs -> m' a = logged txid recs m a) ->
  slice FRAME_HEADER_BYTES (len (payload_image recs)) (nvm_read m' (frame_size recs) OFFSET_LOG) = payload_image recs.
Proof.
  intros H. destruct Hready. pose proof log_bounds as (Hs & HJ & HL & Hbl & Hcl & _).
  pose proof (len_nonneg (payload_image recs)). pose proof (payload_of_body txid recs txid_u64 lr_fits0) as Hp.
  assert (frame_size recs = 128 + len (payload_image recs)) as Hfs by done. unfold FRAME_HEADER_BYTES in *.
  rewrite nvm_read_slice by lia. rewrite (nvm_read_ext m' (logged txid recs m)) by (intros; apply H; lia).
  unfold logged, COMMIT_BYTES. rewrite nvm_read_write_out by lia. rewrite nvm_read_write_in by lia.
  by replace (OFFSET_LOG + 64 - OFFSET_LOG) with 64 by lia.
Qed.

(** Group 4: clearing the log header. *)
Lemma crash_clear m4 m' : m4 = exec_ops [log_checkpoint (g + 1) txid] applied -> torn [log_clear] m4 m' ->
  recovers_to m' (media_recs arr recs m).
Proof.
  intros E4 Ht. assert (torn [log_checkpoint (g + 1) txid] applied m4) as Ht4 by (rewrite E4; apply torn_full).
  destruct (torn_checkpoint_ok m4 Ht4) as [Hm4 Hcp4]. destruct applied_ok as [Ha1 Ha2].
  pose proof log_bounds as (Hs & HJ & HL & Hbl & Hcl & _). pose proof Hready as [].
  pose proof (fun a => torn_one_out _ _ _ _ a Ht) as Hout. change (len (zeros 64)) with 64 in Hout.
  assert (pmem_ok m') as Hm' by (apply (torn_one_ok _ _ _ _ Ht); [done|apply zeros_ok]).
  assert (checkpoints_ok g m') as Hcp.
  { apply (checkpoints_ok_ext g m4); try done. unfold ORCH_SUPER_BLK_SIZE. intros a Ha. apply Hout. lia. }
  assert (forall a, home a -> m' a = applied a) as Hh.
  { intros a Ha. rewrite Hout by (destruct Ha; lia). apply (torn_checkpoint_out m4 a Ht4). by left. }
  assert (forall a, OFFSET_LOG + 64 <= a < OFFSET_LOG + ORCHFS_JOURNAL_BYTES -> m' a = logged txid recs m a) as Hl.
  { intros a Ha. rewrite Hout by lia. rewrite (torn_checkpoint_out m4 a Ht4) by lia. apply agree_outside; [done..|lia]. }
  destruct (frame_at m' 0) as [frame|] eqn:Hf.
  2: { apply recovers_no_frame; try done. intros a Ha. rewrite Hh by done. by apply applied_home. }
  destruct (clear_header m4 m' Ht) as [Et En].
  { intros a Ha. rewrite (torn_checkpoint_out m4 a Ht4) by lia. apply agree_outside; [done..|lia]. }
  pose proof (frame_at_some m' frame Hf) as (_ & Hn & -> & _).
  destruct (header_fields m') as (_ & Ft & Fn). rewrite Fn in *. destruct En as [En|En]; [lia|]. rewrite En in *.
  eapply recovers_frame; try done.
  - intros a j Hj Hnt. pose proof (agree_home_logged applied Ha2 a j Hj Hnt) as ->.
    destruct (decide (home a)); [by rewrite Hh|]. destruct Hnt. by right.
  - rewrite len_nvm_read by lia. done.
  - apply logged_payload. intros a Ha. apply Hl. lia.
  - rewrite Ft. unfold UINT64_MAX. destruct Et as [-> | ->]; lia.
  - intros a Ha. rewrite Hl by lia. unfold logged, COMMIT_BYTES. rewrite !nvm_write_out by lia. done.
Qed.

Lemma crash_groups n m' : (n <= 5)%nat -> crash_in n (commit_groups arr txid g recs m) m m' ->
  recovers_to m' (media_recs arr recs m) \/ (n <= 1)%nat /\ recovers_to m' m.
Proof.
  intros Hn Hc. pose proof Hready as [].
  assert (exec_groups (take 3 (commit_groups arr txid g recs m)) m = applied) as E3.
  { unfold applied. rewrite <-home_writes_exec by (done || apply lr_fits0 || apply logged_pmem_ok). done. }
  assert (exec_groups (take 4 (commit_groups arr txid g recs m)) m =
    exec_ops [log_checkpoint (g + 1) txid] applied) as E4 by by rewrite <-E3.
  unfold crash_in in Hc. destruct n as [|[|[|[|[|[|]]]]]]; [..|lia].
  - right. split; [lia|]. by apply crash_body.
  - destruct (crash_commit m' Hc); [right; by split; [lia|]|by left].
  - left. by apply crash_home.
  - left. rewrite E3 in Hc. by apply crash_checkpoint.
  - left. by eapply crash_clear; [exact E4|].
  - left. eapply (crash_clear _ m' E4). destruct Hc as (k & _ & Hk).
    replace m' with (exec_ops [log_clear] (exec_groups (take 4 (commit_groups arr txid g recs m)) m));
      [apply torn_full|].
    apply functional_extensionality. intros a. rewrite Hk. cbn [nth commit_groups]. by rewrite take_nil.
Qed.
End crash.

(** What a whole commit leaves at the home locations. *)
Lemma commit_groups_home arr txid g recs m a : geom_ok arr -> is_u64 txid -> frame_fits recs -> pmem_ok m -> home a ->
  exec_groups (commit_groups arr txid g recs m) m a = media_recs arr recs m a.
Proof.
  intros Hg Hu Hf Hm [Ha1 Ha2]. rewrite commit_groups_exec by done. unfold CHECKPOINTS_OFFSET in Ha1.
  pose proof (checkpoint_offset_bounds (g + 1)). change ORCHFS_JOURNAL_BYTES with 67108864 in Ha2.
  rewrite !nvm_write_out by (rewrite ?checkpoint_enc_len; change (len (zeros 64)) with 64; lia).
  pose proof (frame_size_bounds recs Hf) as (Hs & _). pose proof (frame_body_len txid recs Hu Hf) as Hb.
  pose proof (frame_commit_len txid recs Hu Hf) as Hc.
  assert (agree_off (fun b _ => OFFSET_LOG <= b < OFFSET_LOG + 67108864) m (logged txid recs m)) as Hag.
  { intros b j Hj Hn. unfold logged, COMMIT_BYTES. by rewrite !nvm_write_out by (unfold COMMIT_BYTES in *; lia). }
  pose proof (logged_ok txid recs m Hu Hf Hm) as Hl.
  apply byte_bits_eq; [apply media_recs_ok; try done; apply Hf..|]. intros j Hj. symmetry.
  apply (media_recs_agree arr recs _ m (logged txid recs m) Hg (proj1 Hf) Hm Hl Hag); [done|]. tauto.
Qed.

(** C2: a commit is all or nothing.  An error leaves the media, the bitmaps and the
    journal counters as they were.  Success puts exactly the transaction's records
    at their home locations, in order: each change of cached metadata at the place
    of its block, each write of raw memory at its offset, the bits of allocated
    blocks set and those of released blocks cleared; and it advances transaction id
    and checkpoint generation by one. *)
Theorem commit_one_all_or_nothing `{Mo : MallocOracle} (t : orchfs_log_transaction) (s : kfs) :
  commit_ready s -> txn_wf t -> orchfs_log_transaction_is_empty t = false ->
  exists e s', commit_one t s = Some (e, s') /\ k_bmps s' = k_bmps s /\
    ((e <> 0 /\ k_pmem s' = k_pmem s /\ k_journal s' = k_journal s) \/
     (e = 0 /\ (forall a, home a -> k_pmem s' a = media_recs (k_bmps s) (txn_recs t) (k_pmem s) a) /\
      next_txid (k_journal s') = next_txid (k_journal s) + 1 /\
      checkpoint_generation (k_journal s') = checkpoint_generation (k_journal s) + 1)).
Proof.
  intros Hr Hwf Hne. destruct (commit_one_run t s Hr Hwf Hne) as (e & s' & Hrun & H). exists e, s'. split; [done|].
  destruct Hr as (_ & Hg & Hm & _ & Htx & _). destruct H as [[He Hgr]|(-> & s1 & Hf & _ & Hp & Hb & _ & Hj)].
  - destruct (cache_grows_pmem _ _ Hgr) as (Ep & Eb & Ej & _). split; [done|]. by left.
  - split; [done|]. right. split; [done|]. rewrite Hj. split; [|done]. intros a Ha. rewrite Hp.
    apply commit_groups_home; try done. unfold is_u64, UINT64_MAX in *. lia.
Qed.


(** ** A concrete commit *)

(** An image with a superblock and an empty log, its bitmaps, and a transaction that
    writes three bytes of an inode and allocates a page. *)
Definition demo_superblock : orch_super_blk :=
  mk_super_blk 0 (repeat ORCH_MAGIC_NUM 3)
    [0; OFFSET_INODE_BMP; OFFSET_IDX_BMP; OFFSET_VIRND_BMP; OFFSET_BUFMETA_BMP; OFFSET_PAGE_BMP; OFFSET_BLOCK_BMP; 0]
    (repeat 0 8) (repeat 0 8) (repeat 0 8) ORCHFS_DISK_FORMAT_VERSION ORCHFS_DISK_FEATURE_WAL
    (new_checkpoint 1 0) (mk_checkpoint 0 0 0 0 0) (zeros 144).
Definition demo_image : pmem := nvm_write (fun _ => 0) (super_blk_enc demo_superblock) OFFSET_SUPER_BLK.
Definition demo_bmps : mem_bmps := init_one demo_image demo_superblock 1.
Definition demo_recs : list jrec := [JWrite INODE_OP (OFFSET_INODE + 512) [1; 2; 3]; JBit ORCHFS_JOURNAL_ALLOCATE PAGE_EXT 9].

Lemma demo_image_ok : pmem_ok demo_image.
Proof.
  apply nvm_write_ok; [intros a; unfold byte_ok; lia|]. apply (bool_decide_unpack _). vm_compute. reflexivity.
Qed.

Lemma demo_geom : geom_ok demo_bmps.
Proof.
  intros t Ht. unfold START_BMP_ID, END_BMP_ID in Ht.
  assert (t = 1 \/ t = 2 \/ t = 3 \/ t = 4 \/ t = 5 \/ t = 6) as H by lia.
  destruct H as [->|[->|[->|[->|[->| ->]]]]]; reflexivity.
Qed.

Lemma demo_recs_fit : frame_fits demo_recs.
Proof.
  split; [|vm_compute; congruence].
  repeat (apply List.Forall_cons; [|]); [| |apply List.Forall_nil]; cbn [jrec_ok].
  - unfold is_s32. split_and!; try (vm_compute; congruence). apply (bool_decide_unpack _). reflexivity.
  - split_and!; [by left|by vm_compute|by vm_compute|reflexivity].
Qed.

Lemma demo_recs_home : recs_home demo_bmps demo_recs.
Proof.
  intros a j H. unfold touched, demo_recs in H. rewrite !Exists_cons, Exists_nil in H. cbn [touches] in H.
  change (dev_start_addr (demo_bmps PAGE_EXT)) with 12582912 in H. change (9 / 8) with 1 in H.
  change (OFFSET_INODE + 512) with 1073742336 in H. change (len [1; 2; 3]) with 3 in H.
  change ORCH_SUPER_BLK_SIZE with 512. change OFFSET_LOG with 104857600. change ORCHFS_JOURNAL_BYTES with 67108864. lia.
Qed.

Lemma demo_log_ready : log_ready demo_bmps 1 1 demo_recs demo_image.
Proof.
  split.
  - exact demo_image_ok.
  - exact demo_geom.
  - exact demo_recs_fit.
  - exact demo_recs_home.
  - lia.
  - lia.
  - split; [vm_compute; reflexivity|]. split; [vm_compute; reflexivity|]. split; split; vm_compute; reflexivity.
  - intros a Ha. unfold demo_image. rewrite nvm_write_out; [done|]. change (len (super_blk_enc demo_superblock)) with 512.
    change OFFSET_LOG with 104857600 in Ha. change OFFSET_SUPER_BLK with 0. lia.
  - intros m' tx _ _ (H & _). revert H.
    assert (jc_magic (commit_dec (nvm_read demo_image COMMIT_BYTES (OFFSET_LOG + frame_size demo_recs - COMMIT_BYTES))) = 0)
      as -> by (vm_compute; reflexivity). discriminate.
  - vm_compute. reflexivity.
Qed.


(** A transaction that changes three bytes of inode 1 and allocates page 9. *)
Definition demo_txn : orchfs_log_transaction :=
  mk_txn [mk_record RECORD_CHANGE 1 INODE_OP 0 3 [1; 2; 3]] [mk_allocation PAGE_EXT 9] [] 0.

Lemma commit_one_all_or_nothing_witness :
  exists s', commit_one demo_txn (boot_kfs demo_image demo_bmps) = Some (0, s') /\
    k_pmem s' (OFFSET_INODE + 513) = 2 /\ bit_set (fun o => k_pmem s' (OFFSET_PAGE_BMP + o)) 9 = true.
Proof.
  destruct (commit_one_all_or_nothing demo_txn (boot_kfs demo_image demo_bmps)) as (e & s' & Hrun & _ & H).
  - split; [exact (boot_kfs_std _ _)|]. split; [exact demo_geom|]. split; [exact demo_image_ok|].
    split; [reflexivity|]. split; vm_compute; split; congruence.
  - split; [|split]; (apply List.Forall_cons; [|apply List.Forall_nil]) || apply List.Forall_nil.
    + unfold record_wf, is_s32. cbn [tr_type tr_block tr_offset tr_length tr_data]. split_and!; try (vm_compute; congruence).
      apply (bool_decide_unpack _). reflexivity.
    + vm_compute. split; congruence.
  - reflexivity.
  - assert (option_map fst (commit_one demo_txn (boot_kfs demo_image demo_bmps)) = Some 0) as E by (vm_compute; reflexivity).
    rewrite Hrun in E. assert (e = 0) as -> by (cbn in E; congruence). exists s'. split; [exact Hrun|].
    destruct H as [[He _]|(_ & H & _)]; [congruence|].
    assert (forall a, 512 <= a < 104857600 \/ 171966464 <= a -> home a) as Hh.
    { intros a Ha. unfold home. change CHECKPOINTS_OFFSET with 304. change OFFSET_LOG with 104857600.
      change ORCHFS_JOURNAL_BYTES with 67108864. lia. }
    split.
    + rewrite H; [reflexivity|]. apply Hh. right. vm_compute. congruence.
    + unfold bit_set. rewrite H; [reflexivity|]. apply Hh. left. vm_compute. split; congruence.
Defined.
