(* ===== verification/RangeArbiter.v ===== *)
(** * Range permits (Async/range_arbiter.cpp)

    A [RangeArbiter] grants read and write permits for ranges of 32 KiB blocks to
    coroutines of a runtime.  One worker owns the lists of granted and waiting
    requests; other workers send requests through an inbox.  A request and the
    worker that wakes it meet in one word, the wait phase of the request.

    The model is a transition system: every atomic step of a client (pushing a
    request, exchanging its phase) and every request handled by the owner is one
    labelled step, so that clients interleave freely with each other and with the
    owner.  The only variables an owner's step shares with other threads are the
    phase words of requests, each of which it exchanges at most once. *)

From stdpp Require Import base tactics numbers list sets.
From Stdlib Require Import ZArith Lia.
From S2P Require Import Prelude Layout.
Open Scope Z_scope.

(** ** Requests *)

Inductive RangeMode := mode_read | mode_write.
Inductive RangeWaitPhase := phase_installing | phase_parked | phase_granted.
Inductive RangeOperation := op_acquire | op_release.
#[export] Instance RangeMode_eq_dec : EqDecision RangeMode.
Proof. solve_decision. Defined.
#[export] Instance RangeWaitPhase_eq_dec : EqDecision RangeWaitPhase.
Proof. solve_decision. Defined.
#[export] Instance RangeOperation_eq_dec : EqDecision RangeOperation.
Proof. solve_decision. Defined.

(** Where a coroutine is to be resumed; there is one runtime. *)
Record ResumeTarget := mk_target { rt_worker : Z; rt_pin_depth : Z; rt_owner : bool }.

(** What the coroutine of a request is doing: it has not started, has built the
    awaiter, is inside [await_suspend] of the acquisition, is suspended in it, owns
    the permit, was refused, is inside [await_suspend] of the release, is suspended
    in it, has released, or could not send its release. *)
Inductive client := c_none | c_new | c_acquiring | c_parked | c_owner | c_failed | c_releasing | c_release_parked
  | c_done | c_stuck.
#[export] Instance client_eq_dec : EqDecision client.
Proof. solve_decision. Defined.

Record RangeRequest := mk_request {
  first_block : Z;
  last_block : Z;
  rq_mode : RangeMode;
  resume_target : ResumeTarget;
  rq_phase : RangeWaitPhase;
  rq_granted : bool;
  rq_error : Z;
  pin_applied : bool;
  rq_operation : RangeOperation;
  rq_client : client;
}.

Definition overlaps (l r : RangeRequest) : bool :=
  (first_block l <=? last_block r) && (first_block r <=? last_block l).
Definition conflicts (l r : RangeRequest) : bool :=
  overlaps l r && (bool_decide (rq_mode l = mode_write) || bool_decide (rq_mode r = mode_write)).

Definition granularity : Z := 32 * 1024.

Definition no_target : ResumeTarget := mk_target (-1) 0 false.
Definition no_request : RangeRequest :=
  mk_request 0 0 mode_read no_target phase_installing false 0 false op_acquire c_none.

(** The awaiter's request, or [None] for [Errc::invalid_range]. *)
Definition make_request (offset length : Z) (mode : RangeMode) : option RangeRequest :=
  if (length =? 0) || (UINT64_MAX - (length - 1) <? offset) then None
  else Some (mk_request (offset / granularity) (u64 (offset + length - 1) / granularity) mode no_target
               phase_installing false 0 false op_acquire c_new).

Definition set_phase (p : RangeWaitPhase) (q : RangeRequest) : RangeRequest :=
  mk_request (first_block q) (last_block q) (rq_mode q) (resume_target q) p (rq_granted q) (rq_error q)
    (pin_applied q) (rq_operation q) (rq_client q).
Definition set_granted (q : RangeRequest) : RangeRequest :=
  mk_request (first_block q) (last_block q) (rq_mode q) (resume_target q) (rq_phase q) true (rq_error q)
    (pin_applied q) (rq_operation q) (rq_client q).
Definition set_error (e : Z) (q : RangeRequest) : RangeRequest :=
  mk_request (first_block q) (last_block q) (rq_mode q) (resume_target q) (rq_phase q) (rq_granted q) e
    (pin_applied q) (rq_operation q) (rq_client q).
Definition set_target (t : ResumeTarget) (q : RangeRequest) : RangeRequest :=
  mk_request (first_block q) (last_block q) (rq_mode q) t (rq_phase q) (rq_granted q) (rq_error q)
    (pin_applied q) (rq_operation q) (rq_client q).
Definition set_pinned (q : RangeRequest) : RangeRequest :=
  mk_request (first_block q) (last_block q) (rq_mode q) (resume_target q) (rq_phase q) (rq_granted q) (rq_error q)
    true (rq_operation q) (rq_client q).
Definition set_operation (o : RangeOperation) (q : RangeRequest) : RangeRequest :=
  mk_request (first_block q) (last_block q) (rq_mode q) (resume_target q) (rq_phase q) (rq_granted q) (rq_error q)
    (pin_applied q) o (rq_client q).
Definition set_client (c : client) (q : RangeRequest) : RangeRequest :=
  mk_request (first_block q) (last_block q) (rq_mode q) (resume_target q) (rq_phase q) (rq_granted q) (rq_error q)
    (pin_applied q) (rq_operation q) c.

(** ** State *)

(** [inbox] is the stack the clients push on; [fifo] is what the owner has drained
    and not handled yet. *)
Record RangeState := mk_state {
  reqs : Z -> RangeRequest;
  active : list Z;
  waiting : list Z;
  inbox : list Z;
  fifo : list Z;
  owner_worker : Z;
}.
Definition init_state (worker : Z) : RangeState := mk_state (fun _ => no_request) [] [] [] [] worker.

Definition on_req (r : Z) (f : RangeRequest -> RangeRequest) (st : RangeState) : RangeState :=
  mk_state (upd (reqs st) r (f (reqs st r))) (active st) (waiting st) (inbox st) (fifo st) (owner_worker st).
Definition set_active (l : list Z) (st : RangeState) : RangeState :=
  mk_state (reqs st) l (waiting st) (inbox st) (fifo st) (owner_worker st).
Definition set_waiting (l : list Z) (st : RangeState) : RangeState :=
  mk_state (reqs st) (active st) l (inbox st) (fifo st) (owner_worker st).
Definition set_inbox (l : list Z) (st : RangeState) : RangeState :=
  mk_state (reqs st) (active st) (waiting st) l (fifo st) (owner_worker st).
Definition set_fifo (l : list Z) (st : RangeState) : RangeState :=
  mk_state (reqs st) (active st) (waiting st) (inbox st) l (owner_worker st).

(** [MpscInbox::push] and [MpscInbox::drain], the latter with its loop that turns
    the stack round. *)
Definition inbox_push (r : Z) (st : RangeState) : RangeState := set_inbox (r :: inbox st) st.
Fixpoint drain_loop (stack fifo : list Z) : list Z :=
  match stack with [] => fifo | r :: stack' => drain_loop stack' (r :: fifo) end.
Definition inbox_drain (st : RangeState) : RangeState := set_fifo (drain_loop (inbox st) []) (set_inbox [] st).

(** ** The owner's operations; [None] is [std::terminate] *)

(** [await_resume] of an acquisition: the outcome and the pin it takes. *)
Definition await_resume (q : RangeRequest) : RangeRequest :=
  if negb (rq_error q =? 0) then set_client c_failed q
  else if negb (rq_granted q) then set_client c_failed q
  else set_client c_owner (if pin_applied q then q else set_pinned q).

(** Resuming the coroutine of a request, which is an error unless it is suspended. *)
Definition resume (r : Z) (st : RangeState) : option RangeState :=
  match rq_client (reqs st r) with
  | c_parked => Some (on_req r await_resume st)
  | c_release_parked => Some (on_req r (set_client c_done) st)
  | _ => None
  end.

Definition conflicts_with_active (st : RangeState) (r : Z) : bool :=
  existsb (fun other => conflicts (reqs st r) (reqs st other)) (active st).
Definition can_grant_immediately (st : RangeState) (r : Z) : bool :=
  if conflicts_with_active st r then false
  else negb (existsb (fun waiter => conflicts (reqs st r) (reqs st waiter)) (waiting st)).

Definition wake_completed (r : Z) (st : RangeState) : option RangeState :=
  let phase := rq_phase (reqs st r) in
  let st := on_req r (set_phase phase_granted) st in
  match phase with
  | phase_installing => Some st
  | phase_granted => None
  | phase_parked => resume r st
  end.

(** The second component is [direct]: a coroutine the releaser resumes itself. *)
Definition wake_granted (r : Z) (allow_direct : bool) (direct : option Z) (st : RangeState)
    : option (RangeState * option Z) :=
  let st := on_req r set_granted st in
  let phase := rq_phase (reqs st r) in
  let st := on_req r (set_phase phase_granted) st in
  match phase with
  | phase_installing => Some (st, direct)
  | phase_granted => None
  | phase_parked =>
      let target := resume_target (reqs st r) in
      let target := if (rt_pin_depth target =? 0) && negb (rt_owner target)
                    then mk_target (owner_worker st) (rt_pin_depth target) true else target in
      let target := mk_target (rt_worker target) (rt_pin_depth target + 1) (rt_owner target) in
      let st := on_req r set_pinned (on_req r (set_target target) st) in
      if allow_direct && bool_decide (direct = None) && (rt_worker target =? owner_worker st)
      then Some (st, Some r)
      else match resume r st with Some st => Some (st, direct) | None => None end
  end.

(** The loop of [grant_waiters]: [before] are the waiters before the iterator. *)
Fixpoint grant_loop (allow_direct : bool) (before rest : list Z) (direct : option Z) (st : RangeState)
    : option (RangeState * option Z) :=
  match rest with
  | [] => Some (set_waiting before st, direct)
  | r :: rest' =>
      let blocked := conflicts_with_active st r ||
                     existsb (fun earlier => conflicts (reqs st r) (reqs st earlier)) before in
      if blocked then grant_loop allow_direct (before ++ [r]) rest' direct st
      else
        match wake_granted r allow_direct direct (set_active (active st ++ [r]) st) with
        | None => None
        | Some (st, direct) => grant_loop allow_direct before rest' direct st
        end
  end.
(** [alloc] says whether [active.reserve] finds memory. *)
Definition grant_waiters (alloc allow_direct : bool) (st : RangeState) : option (RangeState * option Z) :=
  if alloc then grant_loop allow_direct [] (waiting st) None st else None.

Inductive AcquireResult := acquire_granted | acquire_waiting | acquire_failed.

Definition acquire_on_owner (alloc : bool) (r : Z) (st : RangeState) : option (AcquireResult * RangeState) :=
  if alloc then
    if can_grant_immediately st r then
      match wake_granted r false None (set_active (active st ++ [r]) st) with
      | Some (st, _) => Some (acquire_granted, st)
      | None => None
      end
    else Some (acquire_waiting, set_waiting (waiting st ++ [r]) st)
  else
    match wake_completed r (on_req r (set_error ENOMEM) st) with
    | Some st => Some (acquire_failed, st)
    | None => None
    end.

Fixpoint erase (r : Z) (l : list Z) : list Z :=
  match l with [] => [] | x :: l' => if x =? r then l' else x :: erase r l' end.
Definition invalid_handle : Z := 4.

(** [release_on_owner]: error, coroutine to resume directly. *)
Definition release_on_owner (alloc : bool) (r : Z) (st : RangeState) : option (Z * option Z * RangeState) :=
  if negb (existsb (Z.eqb r) (active st)) then Some (invalid_handle, None, st)
  else
    match grant_waiters alloc true (set_active (erase r (active st)) st) with
    | Some (st, direct) => Some (0, direct, st)
    | None => None
    end.

Definition release_from_queue (alloc : bool) (r : Z) (st : RangeState) : option RangeState :=
  match (if negb (existsb (Z.eqb r) (active st)) then Some (on_req r (set_error invalid_handle) st)
         else match grant_waiters alloc false (set_active (erase r (active st)) st) with
              | Some (st, _) => Some st
              | None => None
              end) with
  | Some st => wake_completed r st
  | None => None
  end.

(** One round of the loop of [poll_once]. *)
Definition poll_one (alloc : bool) (r : Z) (st : RangeState) : option RangeState :=
  match rq_operation (reqs st r) with
  | op_acquire => match acquire_on_owner alloc r st with Some (_, st) => Some st | None => None end
  | op_release => release_from_queue alloc r st
  end.

(** ** Steps *)

(** [await_suspend] of an acquisition ends by exchanging the phase: a request that
    is already granted goes on, otherwise the coroutine is suspended. *)
Definition park_acquire (r : Z) (st : RangeState) : option RangeState :=
  let phase := rq_phase (reqs st r) in
  let st := on_req r (set_phase phase_parked) st in
  match phase with
  | phase_granted => Some (on_req r await_resume st)
  | phase_installing => Some (on_req r (set_client c_parked) st)
  | phase_parked => None
  end.
Definition park_release (r : Z) (st : RangeState) : option RangeState :=
  let phase := rq_phase (reqs st r) in
  let st := on_req r (set_phase phase_parked) st in
  match phase with
  | phase_granted => Some (on_req r (set_client c_done) st)
  | phase_installing => Some (on_req r (set_client c_release_parked) st)
  | phase_parked => None
  end.

(** [RangeAcquireAwaiter::await_suspend] on the owner and on another worker. *)
Definition acquire_suspend_owner (alloc : bool) (r : Z) (target : ResumeTarget) (st : RangeState) : option RangeState :=
  match acquire_on_owner alloc r (on_req r (set_target target) st) with
  | None => None
  | Some (acquire_waiting, st) => park_acquire r st
  | Some (_, st) => Some (on_req r await_resume st)
  end.
Definition enqueue (r : Z) (operation : RangeOperation) (st : RangeState) : RangeState :=
  inbox_push r (on_req r (set_operation operation) st).
Definition acquire_suspend_remote (poller : bool) (r : Z) (target : ResumeTarget) (st : RangeState) : RangeState :=
  let st := on_req r (set_target target) st in
  if poller then enqueue r op_acquire (on_req r (set_client c_acquiring) st) else on_req r (set_client c_failed) st.

(** [ReleaseAwaiter::await_suspend] on the owner and on another worker. *)
Definition start_release (r : Z) (target : ResumeTarget) (st : RangeState) : RangeState :=
  on_req r (fun q => set_error 0 (set_phase phase_installing (set_target target q))) st.
Definition release_suspend_owner (alloc : bool) (r : Z) (target : ResumeTarget) (st : RangeState) : option RangeState :=
  match release_on_owner alloc r (start_release r target st) with
  | None => None
  | Some (_, direct, st) =>
      let st := on_req r (set_client c_done) st in
      match direct with Some d => resume d st | None => Some st end
  end.
Definition release_suspend_remote (poller : bool) (r : Z) (target : ResumeTarget) (st : RangeState) : RangeState :=
  if poller then enqueue r op_release (on_req r (set_client c_releasing) (start_release r target st))
  else on_req r (set_client c_stuck) st.

Inductive label :=
| l_construct (r offset length : Z) (mode : RangeMode)
| l_acquire_owner (alloc : bool) (r : Z) (target : ResumeTarget)
| l_acquire_remote (poller : bool) (r : Z) (target : ResumeTarget)
| l_park (r : Z)
| l_drain
| l_poll (alloc : bool)
| l_release_owner (alloc : bool) (r : Z) (target : ResumeTarget)
| l_release_remote (poller : bool) (r : Z) (target : ResumeTarget)
| l_release_park (r : Z).

Inductive outcome := not_enabled | terminated | next (st : RangeState).
Definition outcome_of (o : option RangeState) : outcome := match o with Some st => next st | None => terminated end.
Definition is_client (c : client) (r : Z) (st : RangeState) : bool := bool_decide (rq_client (reqs st r) = c).
(** The owner's thread runs coroutines only when it is not polling. *)
Definition owner_free (st : RangeState) : bool := bool_decide (fifo st = []).

Definition exec (l : label) (st : RangeState) : outcome :=
  match l with
  | l_construct r offset length mode =>
      if is_client c_none r st then
        match make_request offset length mode with Some q => next (on_req r (fun _ => q) st) | None => not_enabled end
      else not_enabled
  | l_acquire_owner alloc r target =>
      if is_client c_new r st && owner_free st then outcome_of (acquire_suspend_owner alloc r target st) else not_enabled
  | l_acquire_remote poller r target =>
      if is_client c_new r st then next (acquire_suspend_remote poller r target st) else not_enabled
  | l_park r => if is_client c_acquiring r st then outcome_of (park_acquire r st) else not_enabled
  | l_drain => if owner_free st then next (inbox_drain st) else not_enabled
  | l_poll alloc =>
      match fifo st with
      | r :: rest => outcome_of (poll_one alloc r (set_fifo rest st))
      | [] => not_enabled
      end
  | l_release_owner alloc r target =>
      if is_client c_owner r st && owner_free st then outcome_of (release_suspend_owner alloc r target st) else not_enabled
  | l_release_remote poller r target =>
      if is_client c_owner r st then next (release_suspend_remote poller r target st) else not_enabled
  | l_release_park r => if is_client c_releasing r st then outcome_of (park_release r st) else not_enabled
  end.

Inductive reachable (worker : Z) : RangeState -> Prop :=
| reach_init : reachable worker (init_state worker)
| reach_step l st st' : reachable worker st -> exec l st = next st' -> reachable worker st'.

(** ** Where a request is *)

Inductive place := p_out | p_queued | p_waiting | p_active | p_leaving.
#[export] Instance place_eq_dec : EqDecision place.
Proof. solve_decision. Defined.

Definition pending (st : RangeState) : list Z := fifo st ++ rev (inbox st).
Definition at_place (st : RangeState) (r : Z) (p : place) : Prop :=
  (r ∈ active st <-> p = p_active \/ p = p_leaving) /\ (r ∈ waiting st <-> p = p_waiting) /\
  (r ∈ pending st <-> p = p_queued \/ p = p_leaving).

(** The places and contents that go with what the coroutine is doing. *)
Definition legal (q : RangeRequest) (p : place) : Prop :=
  match rq_client q, p with
  | c_none, p_out => True
  | c_new, p_out => rq_phase q = phase_installing /\ rq_error q = 0
  | c_acquiring, p_queued => rq_phase q = phase_installing /\ rq_error q = 0 /\ rq_operation q = op_acquire
  | c_acquiring, p_waiting => rq_phase q = phase_installing /\ rq_error q = 0
  | c_acquiring, p_active => rq_phase q = phase_granted /\ rq_error q = 0 /\ rq_granted q = true
  | c_acquiring, p_out => rq_phase q = phase_granted /\ rq_error q <> 0
  | c_parked, p_queued => rq_phase q = phase_parked /\ rq_error q = 0 /\ rq_operation q = op_acquire
  | c_parked, p_waiting => rq_phase q = phase_parked /\ rq_error q = 0
  | c_owner, p_active => True
  | c_failed, p_out => True
  | c_releasing, p_leaving => rq_phase q = phase_installing /\ rq_operation q = op_release
  | c_releasing, p_out => rq_phase q = phase_granted
  | c_release_parked, p_leaving => rq_phase q = phase_parked /\ rq_operation q = op_release
  | c_done, p_out => True
  | c_stuck, p_active => True
  | _, _ => False
  end.

(** A waiter is held up by a granted request or an earlier waiter. *)
Definition held_up (st : RangeState) (before : list Z) (w : Z) : Prop :=
  exists o, o ∈ active st ++ before /\ conflicts (reqs st w) (reqs st o) = true.

Record inv (st : RangeState) : Prop := {
  i_active : NoDup (active st);
  i_waiting : NoDup (waiting st);
  i_pending : NoDup (pending st);
  i_place : forall r, exists p, at_place st r p /\ legal (reqs st r) p;
  i_excl : forall a b, a ∈ active st -> b ∈ active st -> a <> b -> conflicts (reqs st a) (reqs st b) = false;
  i_held : forall l1 w l2, waiting st = l1 ++ w :: l2 -> held_up st l1 w;
}.

(** ** Requests and their ranges *)

Definition rng (q : RangeRequest) : Z * Z * RangeMode := (first_block q, last_block q, rq_mode q).

Lemma conflicts_rng q1 q2 q1' q2' : rng q1 = rng q1' -> rng q2 = rng q2' -> conflicts q1 q2 = conflicts q1' q2'.
Proof. unfold rng, conflicts, overlaps. intros [= -> -> ->] [= -> -> ->]. done. Qed.

Lemma conflicts_sym q1 q2 : conflicts q1 q2 = conflicts q2 q1.
Proof. unfold conflicts, overlaps. rewrite orb_comm. f_equal. apply andb_comm. Qed.

Lemma reqs_on_req r f st x : reqs (on_req r f st) x = if x =? r then f (reqs st r) else reqs st x.
Proof. done. Qed.
Lemma reqs_on_same r f st : reqs (on_req r f st) r = f (reqs st r).
Proof. rewrite reqs_on_req. by rewrite Z.eqb_refl. Qed.
Lemma reqs_on_other r f st x : x <> r -> reqs (on_req r f st) x = reqs st x.
Proof. intros H. rewrite reqs_on_req. by destruct (Z.eqb_spec x r). Qed.

(** What a step on request [r] leaves alone. *)
Record local (r : Z) (st st' : RangeState) : Prop := {
  lo_active : active st' = active st;
  lo_waiting : waiting st' = waiting st;
  lo_inbox : inbox st' = inbox st;
  lo_fifo : fifo st' = fifo st;
  lo_others : forall x, x <> r -> reqs st' x = reqs st x;
  lo_range : rng (reqs st' r) = rng (reqs st r);
}.
Lemma local_refl r st : local r st st.
Proof. by split. Qed.
Lemma local_trans r st1 st2 st3 : local r st1 st2 -> local r st2 st3 -> local r st1 st3.
Proof.
  intros [A1 A2 A3 A4 A5 A6] [B1 B2 B3 B4 B5 B6]. split; try congruence. intros x Hx. by rewrite B5, A5.
Qed.
Lemma local_on_req r f st : rng (f (reqs st r)) = rng (reqs st r) -> local r st (on_req r f st).
Proof. intros H. split; try done; [|by rewrite reqs_on_same]. intros x Hx. by apply reqs_on_other. Qed.
Lemma local_ranges r st st' x : local r st st' -> rng (reqs st' x) = rng (reqs st x).
Proof. intros H. destruct (Z.eq_dec x r) as [->|Hx]; [apply H|by rewrite (lo_others _ _ _ H)]. Qed.

Lemma await_resume_range q : rng (await_resume q) = rng q.
Proof. unfold await_resume. destruct (negb _); [done|]. destruct (negb _); [done|]. by destruct (pin_applied q). Qed.
Lemma await_resume_owner q : rq_error q = 0 -> rq_granted q = true -> rq_client (await_resume q) = c_owner.
Proof. intros H1 H2. unfold await_resume. rewrite H1, H2. cbn. by destruct (pin_applied q). Qed.
Lemma await_resume_failed q : rq_error q <> 0 -> rq_client (await_resume q) = c_failed.
Proof. intros H1. unfold await_resume. by destruct (Z.eqb_spec (rq_error q) 0). Qed.

(** ** The handshake on the phase *)

(** A request that can be woken: its coroutine is suspended, or will look at the
    phase before it is. *)
Definition wakeable (q : RangeRequest) : Prop :=
  rq_error q = 0 /\
  ((rq_client q = c_new \/ rq_client q = c_acquiring) /\ rq_phase q = phase_installing \/
   rq_client q = c_parked /\ rq_phase q = phase_parked).
(** ... and what waking it makes of it. *)
Definition woken (q q' : RangeRequest) : Prop :=
  rq_error q' = 0 /\ rq_granted q' = true /\
  (rq_client q = c_parked /\ rq_client q' = c_owner \/
   rq_client q <> c_parked /\ rq_client q' = rq_client q /\ rq_phase q' = phase_granted).
Definition direct_ok (q : RangeRequest) : Prop := rq_client q = c_parked /\ rq_error q = 0 /\ rq_granted q = true.

Lemma wake_granted_spec r ad direct st : wakeable (reqs st r) ->
  exists st' direct', wake_granted r ad direct st = Some (st', direct') /\ local r st st' /\
    ((direct' = direct /\ woken (reqs st r) (reqs st' r)) \/
     (ad = true /\ direct = None /\ direct' = Some r /\ direct_ok (reqs st' r))).
Proof.
  intros (He & Hw). unfold wake_granted. rewrite reqs_on_same. change (rq_phase (set_granted ?q)) with (rq_phase q).
  set (st1 := on_req r (set_phase phase_granted) (on_req r set_granted st)).
  assert (local r st st1) as L1 by (eapply local_trans; apply local_on_req; done).
  assert (reqs st1 r = set_phase phase_granted (set_granted (reqs st r))) as E1 by (unfold st1; by rewrite !reqs_on_same).
  destruct Hw as [[Hc Hp]|[Hc Hp]]; rewrite Hp.
  { eexists _, _. split; [done|]. split; [done|]. left. split; [done|]. rewrite E1. unfold woken. cbn.
    split_and!; [done|done|]. right. by destruct Hc as [-> | ->]. }
  set (t2 := mk_target _ _ _). set (st2 := on_req r set_pinned (on_req r (set_target t2) st1)).
  assert (local r st st2) as L2 by (eapply local_trans; [exact L1|eapply local_trans; apply local_on_req; done]).
  assert (reqs st2 r = set_pinned (set_target t2 (reqs st1 r))) as E2 by (unfold st2; by rewrite !reqs_on_same).
  assert (rq_client (reqs st2 r) = c_parked /\ rq_error (reqs st2 r) = 0 /\ rq_granted (reqs st2 r) = true) as (C1 & C2 & C3)
    by by rewrite E2, E1.
  destruct (ad && bool_decide (direct = None) && _) eqn:Ed.
  { rewrite !andb_true_iff, bool_decide_eq_true in Ed. destruct Ed as [[-> ->] _].
    eexists _, _. split; [done|]. split; [done|]. by right. }
  unfold resume. rewrite C1. eexists _, _. split; [done|]. split.
  - eapply local_trans; [exact L2|]. apply local_on_req, await_resume_range.
  - left. split; [done|]. rewrite reqs_on_same. unfold woken. rewrite await_resume_owner by done.
    unfold await_resume. rewrite C2, C3. cbn [Z.eqb negb]. split_and!; [by destruct (pin_applied _)|by destruct (pin_applied _)|by left].
Qed.

Lemma wake_completed_spec r st : (rq_phase (reqs st r) = phase_installing \/
    rq_phase (reqs st r) = phase_parked /\ (rq_client (reqs st r) = c_parked \/ rq_client (reqs st r) = c_release_parked)) ->
  exists st', wake_completed r st = Some st' /\ local r st st' /\
    ((rq_phase (reqs st r) = phase_installing /\ reqs st' r = set_phase phase_granted (reqs st r)) \/
     (rq_client (reqs st r) = c_parked /\ reqs st' r = await_resume (set_phase phase_granted (reqs st r))) \/
     (rq_client (reqs st r) = c_release_parked /\ rq_client (reqs st' r) = c_done)).
Proof.
  intros H. unfold wake_completed. set (st1 := on_req r (set_phase phase_granted) st).
  assert (local r st st1) as L1 by by apply local_on_req.
  assert (reqs st1 r = set_phase phase_granted (reqs st r)) as E1 by (unfold st1; by rewrite reqs_on_same).
  destruct H as [->|[-> Hc]]; [eexists; split; [done|]; split; [done|]; by left|].
  unfold resume. rewrite E1. change (rq_client (set_phase _ ?q)) with (rq_client q).
  destruct Hc as [Hc|Hc]; rewrite Hc; eexists; (split; [done|]);
    (split; [eapply local_trans; [exact L1|]; by apply local_on_req; rewrite ?await_resume_range|]); rewrite reqs_on_same, E1.
  - right. by left.
  - right. by right.
Qed.

(** ** Granting waiters *)

(** The invariant without the one on waiters, and with requests [ex] that are in
    the middle of an operation. *)
Record core (ex : Z -> Prop) (st : RangeState) : Prop := {
  co_active : NoDup (active st);
  co_waiting : NoDup (waiting st);
  co_pending : NoDup (pending st);
  co_place : forall r, ~ ex r -> exists p, at_place st r p /\ legal (reqs st r) p;
  co_excl : forall a b, a ∈ active st -> b ∈ active st -> a <> b -> conflicts (reqs st a) (reqs st b) = false;
}.
Definition held_list (st : RangeState) (l : list Z) : Prop := forall l1 w l2, l = l1 ++ w :: l2 -> held_up st l1 w.

Lemma inv_core st : inv st <-> core (fun _ => False) st /\ held_list st (waiting st).
Proof.
  split; [intros [H1 H2 H3 H4 H5 H6]; split; [split|]; auto|]. intros [[H1 H2 H3 H4 H5] H6]. split; auto.
Qed.

Lemma held_list_mono st st' l : (forall x, rng (reqs st' x) = rng (reqs st x)) ->
  (forall x, x ∈ active st -> x ∈ active st') -> held_list st l -> held_list st' l.
Proof.
  intros Hr Ha H l1 w l2 E. destruct (H l1 w l2 E) as (o & Ho & Hc). exists o. split.
  - apply elem_of_app. apply elem_of_app in Ho as [?|?]; auto.
  - rewrite <-Hc. by apply conflicts_rng.
Qed.

Lemma held_list_snoc st l w : held_list st l -> held_up st l w -> held_list st (l ++ [w]).
Proof.
  intros H Hw l1 x l2 E. destruct l2 as [|y l2 _] using rev_ind.
  - apply app_inj_tail in E as [-> ->]. done.
  - rewrite app_comm_cons, app_assoc in E. apply app_inj_tail in E as [E _]. by apply (H l1 x l2).
Qed.

Lemma existsb_elem {A} (f : A -> bool) (l : list A) : existsb f l = true <-> exists x, x ∈ l /\ f x = true.
Proof. rewrite existsb_exists. split; intros (x & Hx & Hf); exists x; (split; [by apply list_elem_of_In|done]). Qed.
Lemma existsb_none {A} (f : A -> bool) (l : list A) : existsb f l = false -> forall x, x ∈ l -> f x = false.
Proof.
  intros H x Hx. destruct (f x) eqn:E; [|done]. assert (existsb f l = true) by (apply existsb_elem; by exists x). congruence.
Qed.

Lemma waiting_wakeable q : legal q p_waiting -> wakeable q /\ rq_client q <> c_new.
Proof. unfold legal, wakeable. destruct (rq_client q); try done; intros [? ?]; naive_solver. Qed.
Lemma woken_legal q q' : legal q p_waiting -> woken q q' -> legal q' p_active.
Proof.
  intros H (He & Hg & Hw). unfold legal in *. destruct (rq_client q) eqn:E; try done.
  - destruct Hw as [[? _]|(_ & -> & ->)]; done.
  - destruct Hw as [[_ ->]|[? _]]; done.
Qed.

Definition exempt (ex : Z -> Prop) (direct : option Z) : Z -> Prop := fun x => ex x \/ direct = Some x.
(** The coroutine that is to be resumed directly is granted and suspended. *)
Definition direct_held (st : RangeState) (direct : option Z) (l : list Z) (ex : Z -> Prop) : Prop :=
  forall d, direct = Some d -> (d ∈ active st) /\ (d ∉ pending st) /\ (d ∉ l) /\ ~ ex d /\ direct_ok (reqs st d).

Definition placed (st : RangeState) (r : Z) : Prop := exists p, at_place st r p /\ legal (reqs st r) p.

Lemma core_weaken ex ex' st : (forall x, ex x -> ex' x) -> core ex st -> core ex' st.
Proof. intros H [Ha Hw Hp Hpl Hx]. split; auto. Qed.
Lemma core_local ex r st st' : ex r -> local r st st' -> core ex st -> core ex st'.
Proof.
  intros Hr L [Ha Hw Hp Hpl Hx]. pose proof (local_ranges r st st') as Hrng. destruct L as [L1 L2 L3 L4 L5 L6].
  split; unfold pending in *; rewrite ?L1, ?L2, ?L3, ?L4; try done.
  - intros x Hne. destruct (Hpl x Hne) as (p & Hat & Hl). assert (x <> r) by congruence. exists p. rewrite L5 by done.
    split; [|done]. unfold at_place, pending in *. by rewrite L1, L2, L3, L4.
  - intros a b Haa Hbb Hab. rewrite (conflicts_rng _ _ (reqs st a) (reqs st b)) by (by apply Hrng). by apply Hx.
Qed.
Lemma core_close ex ex' r st : (forall x, ex x -> ex' x \/ x = r) -> placed st r -> core ex st -> core ex' st.
Proof.
  intros Hex Hpr [Ha Hw Hp Hpl Hx]. split; auto. intros x Hn. destruct (Z.eq_dec x r) as [->|Hne]; [done|].
  apply Hpl. intros Hxx. by destruct (Hex x Hxx).
Qed.

Lemma at_waiting st r p l : at_place (set_waiting l st) r p -> r ∈ l -> p = p_waiting.
Proof. intros (_ & H & _) Hr. by apply H. Qed.

(** A request that leaves the list of waiters, and one that enters the granted ones. *)
Lemma unwait_core ex before r rest st : core ex (set_waiting (before ++ r :: rest) st) ->
  core (fun x => ex x \/ x = r) (set_waiting (before ++ rest) st) /\ (r ∉ before ++ rest).
Proof.
  intros [Ha Hw Hp Hpl Hx]. cbn in Hw. rewrite <-Permutation_middle in Hw. apply NoDup_cons in Hw as [Hr Hw].
  split; [|done]. split; try done. intros x Hn. destruct (Hpl x) as (p & (A1 & A2 & A3) & Hl); [tauto|].
  exists p. split; [|done]. split; [done|]. split; [|done]. rewrite <-A2. cbn. rewrite !elem_of_app, elem_of_cons. tauto.
Qed.
Lemma activate_core ex r st : ex r -> r ∉ active st -> conflicts_with_active st r = false -> core ex st ->
  core ex (set_active (active st ++ [r]) st).
Proof.
  intros Hr Hra Hc [Ha Hw Hp Hpl Hx]. pose proof (existsb_none _ _ Hc) as Hcn. split; try done; cbn.
  - apply NoDup_app. split_and!; [done| |apply NoDup_singleton]. intros x Hxa ->%list_elem_of_singleton. done.
  - intros x Hn. destruct (Hpl x Hn) as (p & (A1 & A2 & A3) & Hl). exists p. split; [|done]. split; [|done].
    rewrite <-A1. cbn. rewrite elem_of_app, list_elem_of_singleton. split; [intros [?| ->]; done|by left].
  - intros a b [Haa| ->%list_elem_of_singleton]%elem_of_app [Hbb| ->%list_elem_of_singleton]%elem_of_app Hab;
      [by apply Hx|rewrite conflicts_sym; by apply Hcn|by apply Hcn|done].
Qed.

(** One grant of the loop. *)
Lemma grant_step ad ex before rest r direct st :
  core (exempt ex direct) (set_waiting (before ++ r :: rest) st) ->
  direct_held st direct (before ++ r :: rest) ex -> ~ ex r -> conflicts_with_active st r = false ->
  exists st' direct', wake_granted r ad direct (set_active (active st ++ [r]) st) = Some (st', direct') /\
    core (exempt ex direct') (set_waiting (before ++ rest) st') /\ direct_held st' direct' (before ++ rest) ex /\
    inbox st' = inbox st /\ fifo st' = fifo st /\ active st' = active st ++ [r] /\
    (forall x, x <> r -> reqs st' x = reqs st x) /\ rng (reqs st' r) = rng (reqs st r) /\
    (ad = false -> direct' = direct).
Proof.
  intros Hco Hd Hr Hc. assert (r ∈ before ++ r :: rest) as Hin by set_solver.
  assert (~ exempt ex direct r) as Hnx by (intros [?|E]; [done|]; by destruct (Hd r E) as (_ & _ & ? & _)).
  destruct (co_place _ _ Hco r Hnx) as (p & Hat & Hleg). pose proof (at_waiting _ _ _ _ Hat Hin) as ->.
  destruct Hat as (A1 & _ & A3). change (pending (set_waiting _ st)) with (pending st) in A3. cbn in A1.
  destruct (waiting_wakeable _ Hleg) as [Hwk _].
  assert (r ∉ active st) as Hra by (rewrite A1; naive_solver). assert (r ∉ pending st) as Hrp by (rewrite A3; naive_solver).
  destruct (unwait_core _ _ _ _ _ Hco) as [Hco1 Hrn].
  apply (activate_core _ r) in Hco1; [|by right|done|exact Hc].
  destruct (wake_granted_spec r ad direct (set_active (active st ++ [r]) st) Hwk) as (st' & direct' & Hrun & L & Hcase).
  exists st', direct'. split; [done|].
  assert (local r (set_active (active st ++ [r]) (set_waiting (before ++ rest) st)) (set_waiting (before ++ rest) st')) as L'
    by (destruct L; by split).
  apply (core_local (fun x => exempt ex direct x \/ x = r) r _ _ (or_intror eq_refl) L') in Hco1. destruct L as [L1 L2 L3 L4 L5 L6]. cbn in L1, L2, L3, L4, L5, L6.
  assert (pending st' = pending st) as Lp by (unfold pending; by rewrite L3, L4).
  split_and!; try done.
  - destruct Hcase as [[-> Hwo]|(_ & -> & -> & _)].
    + refine (core_close _ _ r _ _ _ Hco1); [tauto|]. exists p_active.
      split; [|by eapply woken_legal]. unfold at_place. change (pending (set_waiting _ st')) with (pending st'). cbn.
      rewrite L1, Lp. set_solver.
    + eapply core_weaken; [|exact Hco1]. intros x [[?|?]| ->]; [by left|done|by right].
  - intros d Ed. destruct Hcase as [[-> _]|(-> & -> & -> & Hok)].
    + destruct (Hd d Ed) as (D1 & D2 & D3 & D4 & D5). assert (d <> r) by set_solver. rewrite Lp, L1, L5 by done.
      split_and!; [set_solver|done|set_solver|done|done].
    + injection Ed as <-. rewrite Lp, L1. split_and!; [set_solver|done|done|done|done].
  - by intros ->; destruct Hcase as [[? _]|[? _]].
Qed.

(** What granting waiters among [rest] does to the state. *)
Record granted_some (rest : list Z) (st st' : RangeState) : Prop := {
  gs_inbox : inbox st' = inbox st;
  gs_fifo : fifo st' = fifo st;
  gs_others : forall x, x ∉ rest -> reqs st' x = reqs st x;
  gs_range : forall x, rng (reqs st' x) = rng (reqs st x);
  gs_active : forall x, x ∈ active st' -> x ∈ active st \/ x ∈ rest;
  gs_kept : forall x, x ∈ active st -> x ∈ active st';
}.

Lemma grant_loop_spec ad ex rest : forall before direct st,
  core (exempt ex direct) (set_waiting (before ++ rest) st) -> held_list st before ->
  direct_held st direct (before ++ rest) ex -> (forall w, w ∈ rest -> ~ ex w) ->
  exists st' direct', grant_loop ad before rest direct st = Some (st', direct') /\
    core (exempt ex direct') st' /\ held_list st' (waiting st') /\ direct_held st' direct' (waiting st') ex /\
    granted_some rest st st' /\ (ad = false -> direct' = direct) /\ (forall w, w ∈ waiting st' -> w ∈ before ++ rest).
Proof.
  induction rest as [|r rest IH]; intros before direct st Hco Hh Hd Hex; cbn [grant_loop].
  { rewrite app_nil_r in *. exists (set_waiting before st), direct. split_and!; try done.
    split; try done. intros x Hx. by left. }
  destruct (_ || _) eqn:Hb.
  - destruct (IH (before ++ [r]) direct st) as (st' & direct' & Hrun & C & H & D & G & A & W).
    + by rewrite <-app_assoc.
    + apply held_list_snoc; [done|]. apply orb_true_iff in Hb as [Hb|Hb]; apply existsb_elem in Hb as (o & Ho & Hc);
        exists o; (split; [set_solver|done]).
    + by rewrite <-app_assoc.
    + intros w Hw. apply Hex. by right.
    + exists st', direct'. rewrite <-app_assoc in W. split_and!; try done. destruct G as [G1 G2 G3 G4 G5 G6]. split; try done.
      * intros x Hx. apply G3. set_solver.
      * intros x Hx. destruct (G5 x Hx); set_solver.
  - apply orb_false_iff in Hb as [Hb _].
    destruct (grant_step ad ex before rest r direct st Hco Hd (Hex r ltac:(by left)) Hb)
      as (st1 & d1 & Hw & C1 & D1 & I1 & F1 & A1 & O1 & R1 & AD1).
    rewrite Hw. assert (forall x, rng (reqs st1 x) = rng (reqs st x)) as Hrng
      by (intros x; destruct (Z.eq_dec x r) as [->|?]; [done|by rewrite O1]).
    destruct (IH before d1 st1) as (st' & direct' & Hrun & C & H & D & G & A & W); [done| |done| |].
    + eapply held_list_mono; [exact Hrng| |exact Hh]. intros x Hx. rewrite A1. set_solver.
    + intros w Hx. apply Hex. by right.
    + exists st', direct'. split_and!; try done; [|intros E; rewrite A, AD1; done|set_solver].
      destruct G as [G1 G2 G3 G4 G5 G6]. split; try congruence.
      * intros x Hx. rewrite G3, O1; set_solver.
      * intros x Hx. rewrite A1 in G5. destruct (G5 x Hx); set_solver.
      * intros x Hx. apply G6. rewrite A1. set_solver.
Qed.

(** ** The owner's operations keep the invariant *)

(** Taking a released request out, apart from what becomes of the request itself. *)
Lemma erase_elem r l : NoDup l -> forall x, x ∈ erase r l <-> x ∈ l /\ x <> r.
Proof.
  induction l as [|y l IH]; intros Hn x; cbn [erase]; [set_solver|]. apply NoDup_cons in Hn as [Hy Hn].
  destruct (Z.eqb_spec y r) as [->|Hne]; [set_solver|]. specialize (IH Hn x). set_solver.
Qed.
Lemma erase_nodup r l : NoDup l -> NoDup (erase r l).
Proof.
  induction l as [|y l IH]; intros Hn; cbn [erase]; [done|]. apply NoDup_cons in Hn as [Hy Hn].
  destruct (y =? r); [done|]. apply NoDup_cons. split; [|by apply IH]. by rewrite erase_elem; [intros [? _]|].
Qed.

Lemma release_core r st : core (fun x => x = r) st -> r ∉ waiting st ->
  core (exempt (fun x => x = r) None) (set_waiting ([] ++ waiting st) (set_active (erase r (active st)) st)).
Proof.
  intros [Ha Hw Hp Hpl Hx] Hr. split; cbn; try done.
  - by apply erase_nodup.
  - intros x Hne. assert (x <> r) as Hne' by (intros ->; apply Hne; by left). destruct (Hpl x Hne') as (p & (A1 & A2 & A3) & Hl).
    exists p. split; [|done]. unfold at_place. cbn. rewrite erase_elem by done. unfold pending in *. cbn in *.
    rewrite <-A1, A2, <-A3. tauto.
  - intros a b Haa Hbb. rewrite erase_elem in Haa, Hbb by done. apply Hx; tauto.
Qed.

Lemma grant_waiters_spec ad r st : core (fun x => x = r) st -> r ∉ waiting st ->
  exists st' direct, grant_waiters true ad (set_active (erase r (active st)) st) = Some (st', direct) /\
    core (exempt (fun x => x = r) direct) st' /\ held_list st' (waiting st') /\
    direct_held st' direct (waiting st') (fun x => x = r) /\ (r ∉ active st') /\ (r ∉ waiting st') /\
    reqs st' r = reqs st r /\ inbox st' = inbox st /\ fifo st' = fifo st /\ (ad = false -> direct = None).
Proof.
  intros Hco Hr. unfold grant_waiters. cbn [waiting set_active].
  destruct (grant_loop_spec ad (fun x => x = r) (waiting st) [] None (set_active (erase r (active st)) st))
    as (st' & d & Hrun & C & H & D & G & A & W).
  - by apply release_core.
  - intros l1 w l2 E. by destruct l1.
  - done.
  - by intros w Hw ->.
  - exists st', d. destruct G as [G1 G2 G3 G4 G5 G6]. cbn in *. split_and!; try done.
    + intros Hin. destruct (G5 r Hin) as [Ha|]; [|done]. rewrite erase_elem in Ha by apply Hco. by destruct Ha.
    + intros Hin. by apply Hr, W.
    + by apply G3.
Qed.

Lemma held_list_local r st st' l : local r st st' -> held_list st l -> held_list st' l.
Proof.
  intros L. apply held_list_mono; [intros x; by eapply local_ranges|]. intros x. by rewrite (lo_active _ _ _ L).
Qed.

(** What acquiring makes of the request, by result. *)
Definition acquired (res : AcquireResult) (q : RangeRequest) (st : RangeState) (r : Z) : Prop :=
  match res with
  | acquire_granted => (r ∈ active st) /\ (r ∉ waiting st) /\ woken q (reqs st r)
  | acquire_waiting => (r ∉ active st) /\ (r ∈ waiting st) /\ reqs st r = q
  | acquire_failed => (r ∉ active st) /\ (r ∉ waiting st) /\
      (rq_client q = c_parked /\ rq_client (reqs st r) = c_failed \/
       rq_client q <> c_parked /\ reqs st r = set_phase phase_granted (set_error ENOMEM q))
  end.

Lemma acquire_on_owner_spec alloc r st : core (fun x => x = r) st -> held_list st (waiting st) ->
  r ∉ active st -> r ∉ waiting st -> wakeable (reqs st r) ->
  exists res st', acquire_on_owner alloc r st = Some (res, st') /\ core (fun x => x = r) st' /\
    held_list st' (waiting st') /\ pending st' = pending st /\ acquired res (reqs st r) st' r.
Proof.
  intros Hco Hh Hra Hrw Hwk. unfold acquire_on_owner. destruct alloc.
  - unfold can_grant_immediately. destruct (conflicts_with_active st r) eqn:Hc;
      [|destruct (existsb _ (waiting st)) eqn:Hc2; cbn [negb]].
    3:{ apply (activate_core _ r) in Hco; [|done|done|done].
        destruct (wake_granted_spec r false None (set_active (active st ++ [r]) st) Hwk) as (st' & d' & Hrun & L & Hcase).
        rewrite Hrun. exists acquire_granted, st'. split; [done|].
        apply (core_local (fun x => x = r) r _ _ eq_refl L) in Hco. split; [done|].
        split; [|split; [unfold pending; by rewrite (lo_inbox _ _ _ L), (lo_fifo _ _ _ L)|]].
        - rewrite (lo_waiting _ _ _ L). apply (held_list_local r _ _ _ L). apply (held_list_mono st); [done| |exact Hh].
          intros x Hx. cbn. set_solver.
        - unfold acquired. rewrite (lo_active _ _ _ L), (lo_waiting _ _ _ L).
          destruct Hcase as [[_ Hwo]|[? _]]; [|done]. cbn. split_and!; [set_solver|done|exact Hwo]. }
    all: exists acquire_waiting, (set_waiting (waiting st ++ [r]) st); split; [done|].
    all: assert (held_up st (waiting st) r) as Hu by
      (first [apply existsb_elem in Hc as (o & Ho & Hco')|apply existsb_elem in Hc2 as (o & Ho & Hco')];
       exists o; (split; [set_solver|done])).
    all: split; [|split; [apply (held_list_snoc st); done|split; [done|cbn; split_and!; [done|set_solver|done]]]].
    all: destruct Hco as [Ha Hw Hp Hpl Hx]; split; try done; cbn.
    1,3: apply NoDup_app; split_and!; [done| |apply NoDup_singleton]; intros x Hxa ->%list_elem_of_singleton; done.
    all: intros x Hn; destruct (Hpl x Hn) as (p & (A1 & A2 & A3) & Hl); exists p; (split; [|done]); (split; [done|]);
      (split; [|done]); rewrite <-A2; cbn; rewrite elem_of_app, list_elem_of_singleton; tauto.
  - destruct (wake_completed_spec r (on_req r (set_error ENOMEM) st)) as (st' & Hrun & L & Hcase).
    { rewrite reqs_on_same. destruct Hwk as [_ [[_ ?]|[? ?]]]; [by left|right]. cbn. tauto. }
    rewrite Hrun. exists acquire_failed, st'. split; [done|].
    apply (local_trans r st) in L; [|by apply local_on_req].
    apply (core_local (fun x => x = r) r _ _ eq_refl L) in Hco. split; [done|].
    split; [rewrite (lo_waiting _ _ _ L); by apply (held_list_local r st)|].
    split; [unfold pending; by rewrite (lo_inbox _ _ _ L), (lo_fifo _ _ _ L)|].
    unfold acquired. rewrite (lo_active _ _ _ L), (lo_waiting _ _ _ L). split; [done|]. split; [done|].
    rewrite reqs_on_same in Hcase. destruct Hwk as [_ [[Hcl Hph]|[Hcl Hph]]].
    + right. split; [by destruct Hcl as [-> | ->]|]. destruct Hcase as [[_ ?]|[[Hx _]|[Hx _]]]; [done| |]; cbn in Hx; destruct Hcl; congruence.
    + left. split; [done|]. destruct Hcase as [[Hx _]|[[_ ->]|[Hx _]]]; [|by apply await_resume_failed|]; cbn in Hx; congruence.
Qed.

(** ** Every step keeps the invariant *)

Lemma inv_open r st : inv st -> core (fun x => x = r) st /\ held_list st (waiting st).
Proof. intros [C H]%inv_core. split; [|done]. eapply core_weaken; [|exact C]. done. Qed.
Lemma inv_close r st : core (fun x => x = r) st -> held_list st (waiting st) -> placed st r -> inv st.
Proof. intros C H P. apply inv_core. split; [|done]. refine (core_close _ _ r st _ P C). by right. Qed.

(** A step on one request that leaves the lists alone. *)
Lemma local_inv r st st' : inv st -> local r st st' ->
  (forall p, at_place st r p -> legal (reqs st r) p -> legal (reqs st' r) p) -> inv st'.
Proof.
  intros I L Hl. destruct (inv_open r st I) as [C H]. apply (inv_close r).
  - by apply (core_local _ r st).
  - rewrite (lo_waiting _ _ _ L). by apply (held_list_local r st).
  - destruct (i_place _ I r) as (p & Hat & Hp). exists p. split; [|by apply Hl].
    destruct L as [L1 L2 L3 L4 _ _]. unfold at_place, pending in *. by rewrite L1, L2, L3, L4.
Qed.

(** The place of a request, from what its coroutine does. *)
Lemma client_place c p0 st r : inv st -> rq_client (reqs st r) = c ->
  (forall q p, rq_client q = c -> legal q p -> p = p0) -> at_place st r p0 /\ legal (reqs st r) p0.
Proof. intros I Hc H. destruct (i_place _ I r) as (p & Hat & Hl). pose proof (H _ p Hc Hl) as ->. done. Qed.
Ltac only_place := let q := fresh in let p := fresh in let E := fresh in
  intros q p E; unfold legal; rewrite E; by destruct p.

Lemma out_not st r : at_place st r p_out -> (r ∉ active st) /\ (r ∉ waiting st) /\ (r ∉ pending st).
Proof. intros (-> & -> & ->). split_and!; [intros []|..]; naive_solver. Qed.
Lemma active_only st r : at_place st r p_active -> (r ∈ active st) /\ (r ∉ waiting st) /\ (r ∉ pending st).
Proof. intros (-> & -> & ->). split_and!; [by left|..]; naive_solver. Qed.

(** Constructing an awaiter: the range of the request changes, while it is nowhere. *)
Lemma construct_inv r q st : inv st -> rq_client (reqs st r) = c_none -> legal q p_out -> inv (on_req r (fun _ => q) st).
Proof.
  intros I Hc Hl. destruct (client_place c_none p_out st r I Hc) as [Hat _]; [only_place|].
  destruct (out_not _ _ Hat) as (Na & Nw & _). destruct I as [Ha Hw Hp Hpl Hx Hh]. split; try done.
  - intros x. destruct (Z.eq_dec x r) as [->|Hne].
    + exists p_out. by rewrite reqs_on_same.
    + rewrite reqs_on_other by done. apply Hpl.
  - intros a b Haa Hbb. rewrite !reqs_on_other by (intros ->; done). by apply Hx.
  - intros l1 w l2 E. cbn in E. destruct (Hh l1 w l2 E) as (o & Ho & Hco). exists o. split; [done|].
    rewrite !reqs_on_other; [done| |].
    + intros ->. apply elem_of_app in Ho as [|Ho]; [done|]. apply Nw. rewrite E. set_solver.
    + intros ->. apply Nw. rewrite E. set_solver.
Qed.

(** Sending a request through the inbox. *)
Lemma push_core r st : r ∉ pending st -> core (fun x => x = r) st -> core (fun x => x = r) (inbox_push r st).
Proof.
  intros Hr [Ha Hw Hp Hpl Hx]. assert (pending (inbox_push r st) = pending st ++ [r]) as E
    by (unfold pending; cbn; by rewrite app_assoc). split; try done.
  - rewrite E. apply NoDup_app. split_and!; [done| |apply NoDup_singleton]. intros x Hxa ->%list_elem_of_singleton. done.
  - intros x Hn. destruct (Hpl x Hn) as (p & (A1 & A2 & A3) & Hl). exists p. split; [|done]. split; [done|]. split; [done|].
    rewrite E, elem_of_app, list_elem_of_singleton, A3. tauto.
Qed.
Lemma enqueue_inv r o p0 p st st1 : inv st -> local r st st1 -> at_place st r p0 ->
  (p0 = p_out /\ p = p_queued \/ p0 = p_active /\ p = p_leaving) ->
  legal (set_operation o (reqs st1 r)) p -> inv (enqueue r o st1).
Proof.
  intros I L (A1 & A2 & A3) Hp Hl. destruct (inv_open r st I) as [C H]. unfold enqueue.
  set (st2 := on_req r (set_operation o) st1).
  assert (local r st st2) as L2 by (eapply local_trans; [exact L|by apply local_on_req]).
  assert (pending st2 = pending st) as Ep by (unfold pending; by rewrite (lo_inbox _ _ _ L2), (lo_fifo _ _ _ L2)).
  apply (inv_close r).
  - apply push_core; [rewrite Ep, A3; naive_solver|]. by apply (core_local _ r st).
  - change (held_list st2 (waiting st2)). rewrite (lo_waiting _ _ _ L2). exact (held_list_local r st st2 _ L2 H).
  - exists p. split; [|change (reqs (inbox_push r st2) r) with (reqs st2 r); unfold st2; by rewrite reqs_on_same].
    assert (pending (inbox_push r st2) = pending st ++ [r]) as E by (rewrite <-Ep; unfold pending; cbn; by rewrite app_assoc).
    unfold at_place. rewrite E, elem_of_app, list_elem_of_singleton. change (active (inbox_push r st2)) with (active st2).
    change (waiting (inbox_push r st2)) with (waiting st2). rewrite (lo_active _ _ _ L2), (lo_waiting _ _ _ L2), A1, A2, A3.
    naive_solver.
Qed.

Lemma inv_close_local r p st st' : core (fun x => x = r) st -> held_list st (waiting st) -> local r st st' ->
  at_place st r p -> legal (reqs st' r) p -> inv st'.
Proof.
  intros C H L Hat Hl. apply (inv_close r).
  - by apply (core_local _ r st).
  - rewrite (lo_waiting _ _ _ L). by apply (held_list_local r st).
  - exists p. split; [|done]. destruct L as [L1 L2 L3 L4 _ _]. unfold at_place, pending in *. by rewrite L1, L2, L3, L4.
Qed.

(** Where an acquired request is. *)
Definition result_place (res : AcquireResult) : place :=
  match res with acquire_granted => p_active | acquire_waiting => p_waiting | acquire_failed => p_out end.
Lemma acquired_place res q st r : acquired res q st r -> (r ∉ pending st) -> at_place st r (result_place res).
Proof. unfold acquired, at_place. destruct res; cbn; intros (? & ? & _) ?; naive_solver. Qed.

Lemma acquire_owner_inv alloc r target st : inv st -> rq_client (reqs st r) = c_new ->
  exists st', acquire_suspend_owner alloc r target st = Some st' /\ inv st'.
Proof.
  intros I Hc. destruct (client_place c_new p_out st r I Hc) as [Hat Hl]; [only_place|].
  destruct (out_not _ _ Hat) as (Na & Nw & Np). destruct (inv_open r st I) as [C H]. unfold acquire_suspend_owner.
  set (st1 := on_req r (set_target target) st). assert (local r st st1) as L1 by by apply local_on_req.
  assert (reqs st1 r = set_target target (reqs st r)) as E1 by apply reqs_on_same.
  unfold legal in Hl. rewrite Hc in Hl. destruct Hl as [Hph Her].
  destruct (acquire_on_owner_spec alloc r st1) as (res & st2 & Hrun & C2 & H2 & P2 & Q2); [|by apply (held_list_local r st)|done|done| |].
  { by apply (core_local _ r st). }
  { rewrite E1. split; [done|]. left. cbn. tauto. }
  rewrite Hrun. assert (at_place st2 r (result_place res)) as Hat2 by (eapply acquired_place; [done|by rewrite P2]).
  rewrite E1 in Q2. destruct res; cbn [acquired] in Q2; destruct Q2 as (_ & _ & Q2).
  - eexists. split; [done|]. destruct Q2 as (W1 & W2 & _).
    eapply (inv_close_local r); [exact C2|exact H2|apply local_on_req, await_resume_range|exact Hat2|].
    rewrite reqs_on_same. unfold legal. by rewrite await_resume_owner.
  - unfold park_acquire. rewrite Q2. cbn [rq_phase set_target]. rewrite Hph. eexists. split; [done|].
    eapply (inv_close_local r); [exact C2|exact H2|eapply local_trans; by apply local_on_req|exact Hat2|].
    rewrite !reqs_on_same, Q2. done.
  - eexists. split; [done|]. destruct Q2 as [[Hx _]|[_ Q2]]; [cbn in Hx; congruence|].
    eapply (inv_close_local r); [exact C2|exact H2|apply local_on_req, await_resume_range|exact Hat2|].
    rewrite reqs_on_same. unfold legal. rewrite await_resume_failed; [done|]. by rewrite Q2.
Qed.

Lemma park_inv r st : inv st -> rq_client (reqs st r) = c_acquiring -> exists st', park_acquire r st = Some st' /\ inv st'.
Proof.
  intros I Hc. destruct (i_place _ I r) as (p & Hat & Hl). destruct (inv_open r st I) as [C H]. unfold park_acquire.
  assert (rq_phase (reqs st r) = phase_installing /\ legal (set_client c_parked (set_phase phase_parked (reqs st r))) p \/
          rq_phase (reqs st r) = phase_granted /\ legal (await_resume (set_phase phase_parked (reqs st r))) p) as [[-> Hl']|[-> Hl']].
  { unfold legal in *. rewrite Hc in Hl. destruct p; try done; cbn [rq_client set_client].
    - right. destruct Hl as [-> ?]. by rewrite await_resume_failed.
    - left. destruct Hl as (-> & ? & ?). done.
    - left. destruct Hl as (-> & ?). done.
    - right. destruct Hl as (-> & ? & ?). by rewrite await_resume_owner. }
  - eexists. split; [done|]. eapply (inv_close_local r); [exact C|exact H|eapply local_trans; by apply local_on_req|exact Hat|].
    by rewrite !reqs_on_same.
  - eexists. split; [done|].
    eapply (inv_close_local r); [exact C|exact H|eapply local_trans; apply local_on_req; [done|apply await_resume_range]|exact Hat|].
    by rewrite !reqs_on_same.
Qed.

Lemma release_park_inv r st : inv st -> rq_client (reqs st r) = c_releasing -> exists st', park_release r st = Some st' /\ inv st'.
Proof.
  intros I Hc. destruct (i_place _ I r) as (p & Hat & Hl). destruct (inv_open r st I) as [C H]. unfold park_release.
  unfold legal in Hl. rewrite Hc in Hl. destruct p; try done; [rewrite Hl|destruct Hl as [-> Ho]].
  all: eexists; (split; [done|]).
  all: eapply (inv_close_local r); [exact C|exact H|eapply local_trans; by apply local_on_req|exact Hat|].
  all: by rewrite !reqs_on_same.
Qed.

(** The owner takes the next request of its list. *)
Lemma pop_core r rest st : inv st -> fifo st = r :: rest ->
  core (fun x => x = r) (set_fifo rest st) /\ (r ∉ pending (set_fifo rest st)) /\ exists p, (p = p_queued \/ p = p_leaving) /\
    at_place st r p /\ legal (reqs st r) p.
Proof.
  intros I E. destruct (inv_open r st I) as [[Ha Hw Hp Hpl Hx] _]. assert (pending st = r :: pending (set_fifo rest st)) as Ep
    by (unfold pending; by rewrite E). rewrite Ep in Hp. apply NoDup_cons in Hp as [Hr Hp]. split_and!; [|done|].
  - split; try done. intros x Hn. destruct (Hpl x Hn) as (p & (A1 & A2 & A3) & Hl). exists p. split; [|done].
    split; [done|]. split; [done|]. rewrite <-A3, Ep, elem_of_cons. tauto.
  - destruct (i_place _ I r) as (p & (A1 & A2 & A3) & Hl). exists p. split; [apply A3; rewrite Ep; by left|]. done.
Qed.

Lemma poll_acquire_inv alloc r rest st : inv st -> fifo st = r :: rest -> rq_operation (reqs st r) = op_acquire ->
  exists st', poll_one alloc r (set_fifo rest st) = Some st' /\ inv st'.
Proof.
  intros I E Ho. destruct (pop_core r rest st I E) as (C & Np & p & Hp & (A1 & A2 & A3) & Hl). unfold poll_one. cbn [reqs set_fifo].
  rewrite Ho. assert (p = p_queued) as -> by (destruct Hp as [->| ->]; [done|]; unfold legal in Hl; destruct (rq_client _); intuition congruence).
  assert (legal (reqs st r) p_waiting) as Hw by (unfold legal in *; destruct (rq_client _); tauto).
  destruct (acquire_on_owner_spec alloc r (set_fifo rest st)) as (res & st2 & Hrun & C2 & H2 & P2 & Q2).
  { done. } { apply (inv_open r st I). } { cbn. rewrite A1. naive_solver. } { cbn. rewrite A2. naive_solver. }
  { by apply waiting_wakeable. }
  rewrite Hrun. eexists. split; [done|]. cbn [reqs set_fifo] in Q2.
  eapply (inv_close_local r); [exact C2|exact H2|apply local_refl|eapply acquired_place; [exact Q2|by rewrite P2]|].
  destruct res; cbn [acquired result_place] in *; destruct Q2 as (_ & _ & Q2).
  - by eapply woken_legal.
  - by rewrite Q2.
  - destruct Q2 as [[_ Q2]|[Hn ->]]; unfold legal in *; [by rewrite Q2|]. destruct (rq_client (reqs st r)) eqn:Ec; try done; cbn; by rewrite Ec.
Qed.

Lemma existsb_in r l : existsb (Z.eqb r) l = true <-> r ∈ l.
Proof. rewrite existsb_elem. split; [intros (x & Hx & ->%Z.eqb_eq); done|intros H; exists r; by rewrite Z.eqb_refl]. Qed.

Lemma poll_release_inv r rest st : inv st -> fifo st = r :: rest -> rq_operation (reqs st r) = op_release ->
  exists st', poll_one true r (set_fifo rest st) = Some st' /\ inv st'.
Proof.
  intros I E Ho. destruct (pop_core r rest st I E) as (C & Np & p & Hp & (A1 & A2 & A3) & Hl). unfold poll_one. cbn [reqs set_fifo].
  rewrite Ho. assert (p = p_leaving) as -> by (destruct Hp as [->| ->]; [|done]; unfold legal in Hl; destruct (rq_client _); intuition congruence).
  unfold release_from_queue. assert (existsb (Z.eqb r) (active (set_fifo rest st)) = true) as -> by (apply existsb_in, A1; by right).
  cbn [negb]. destruct (grant_waiters_spec false r (set_fifo rest st) C) as (st2 & d & -> & C2 & H2 & _ & Na & Nw & Er & Ei & Ef & Hd).
  { cbn. rewrite A2. naive_solver. }
  specialize (Hd eq_refl) as ->.
  assert (core (fun x => x = r) st2) as C2' by (eapply core_weaken; [|exact C2]; intros x [?|?]; done).
  assert (at_place st2 r p_out) as Hat.
  { assert (pending st2 = pending (set_fifo rest st)) as Ep by (unfold pending; by rewrite Ei, Ef).
    unfold at_place. rewrite Ep. naive_solver. }
  cbn [reqs set_fifo] in Er. unfold legal in Hl.
  destruct (wake_completed_spec r st2) as (st3 & -> & L & Hcase).
  { rewrite Er. destruct (rq_client _); try done; tauto. }
  eexists. split; [done|]. eapply (inv_close_local r); [exact C2'|exact H2|exact L|exact Hat|]. rewrite Er in Hcase. unfold legal.
  destruct Hcase as [[Hph ->]|[[Hc _]|[_ ->]]]; [|by rewrite Hc in Hl|done].
  cbn. destruct (rq_client _); try done. destruct Hl; congruence.
Qed.

Lemma release_owner_inv r target st : inv st -> rq_client (reqs st r) = c_owner ->
  exists st', release_suspend_owner true r target st = Some st' /\ inv st'.
Proof.
  intros I Hc. destruct (client_place c_owner p_active st r I Hc) as [Hat Hl]; [only_place|].
  destruct (active_only _ _ Hat) as (Ia & Nw & Np). destruct (inv_open r st I) as [C H].
  unfold release_suspend_owner, release_on_owner. set (st1 := start_release r target st).
  assert (local r st st1) as L1 by by apply local_on_req.
  assert (existsb (Z.eqb r) (active st1) = true) as -> by (by apply existsb_in). cbn [negb].
  destruct (grant_waiters_spec true r st1) as (st2 & d & -> & C2 & H2 & D2 & Na & Nw2 & Er & Ei & Ef & _).
  { by apply (core_local _ r st). } { done. }
  set (st3 := on_req r (set_client c_done) st2). assert (local r st2 st3) as L3 by by apply local_on_req.
  assert (core (fun x => d = Some x) st3) as C3.
  { refine (core_close (exempt (fun x => x = r) d) _ r st3 _ _ (core_local _ r st2 st3 _ L3 C2));
      [intros x [?|?]; [by right|by left]| |by left].
    exists p_out. split; [|unfold st3; by rewrite reqs_on_same].
    assert (pending st3 = pending st) as Ep by (unfold pending; cbn; by rewrite Ei, Ef).
    unfold at_place. rewrite Ep. cbn. naive_solver. }
  assert (held_list st3 (waiting st3)) as H3 by (exact (held_list_local r st2 st3 _ L3 H2)).
  destruct d as [d|]; [|exists st3; split; [done|]; apply inv_core; split; [|done]; eapply core_weaken; [|exact C3]; done].
  destruct (D2 d eq_refl) as (D1 & D3 & D4 & D5 & D6 & D7 & D8).
  assert (reqs st3 d = reqs st2 d) as E3 by (unfold st3; by rewrite reqs_on_other).
  unfold resume. rewrite E3, D6. eexists. split; [done|].
  eapply (inv_close_local d p_active st3); [|exact H3|apply local_on_req, await_resume_range| |].
  - eapply core_weaken; [|exact C3]. intros x [= ->]. done.
  - unfold at_place. cbn. change (pending st3) with (pending st2). naive_solver.
  - rewrite reqs_on_same, E3. unfold legal. by rewrite await_resume_owner.
Qed.

(** A release needs memory for the requests it grants. *)
Definition memory (l : label) : bool :=
  match l with l_poll alloc | l_release_owner alloc _ _ => alloc | _ => true end.

Lemma make_request_legal offset length mode q : make_request offset length mode = Some q -> legal q p_out.
Proof. unfold make_request. destruct (_ || _); [done|]. by intros [= <-]. Qed.

Lemma release_without_memory r st : r ∈ active st -> release_from_queue false r st = None.
Proof. intros H%existsb_in. unfold release_from_queue. by rewrite H. Qed.

Lemma poll_inv alloc r rest st : inv st -> fifo st = r :: rest ->
  match poll_one alloc r (set_fifo rest st) with Some st' => inv st' | None => alloc = false end.
Proof.
  intros I E. destruct (rq_operation (reqs st r)) eqn:Ho.
  - by destruct (poll_acquire_inv alloc r rest st I E Ho) as (st' & -> & ?).
  - destruct alloc; [by destruct (poll_release_inv r rest st I E Ho) as (st' & -> & ?)|].
    destruct (pop_core r rest st I E) as (_ & _ & p & Hp & (A1 & _) & Hl).
    unfold poll_one. cbn [reqs set_fifo]. rewrite Ho, release_without_memory; [done|]. apply A1. right.
    destruct Hp as [->| ->]; [|done]. unfold legal in Hl. destruct (rq_client _); intuition congruence.
Qed.

Lemma acquire_remote_inv poller r t st : inv st -> rq_client (reqs st r) = c_new -> inv (acquire_suspend_remote poller r t st).
Proof.
  intros I Hc. destruct (client_place c_new p_out st r I Hc) as [Hat Hl]; [only_place|].
  unfold legal in Hl. rewrite Hc in Hl. destruct poller; cbn [acquire_suspend_remote].
  - eapply (enqueue_inv r op_acquire p_out p_queued st); [done|eapply local_trans; by apply local_on_req|done|by left|].
    rewrite !reqs_on_same. cbn. tauto.
  - eapply (inv_close_local r p_out st); [apply (inv_open r st I)|apply (inv_open r st I)|eapply local_trans; by apply local_on_req|done|].
    by rewrite !reqs_on_same.
Qed.

Lemma release_remote_inv poller r t st : inv st -> rq_client (reqs st r) = c_owner -> inv (release_suspend_remote poller r t st).
Proof.
  intros I Hc. destruct (client_place c_owner p_active st r I Hc) as [Hat _]; [only_place|].
  destruct poller; cbn [release_suspend_remote].
  - eapply (enqueue_inv r op_release p_active p_leaving st); [done|eapply local_trans; by apply local_on_req|done|by right|].
    unfold start_release. by rewrite !reqs_on_same.
  - eapply (inv_close_local r p_active st); [apply (inv_open r st I)|apply (inv_open r st I)|by apply local_on_req|done|].
    by rewrite reqs_on_same.
Qed.

(** Draining turns the stack round, so requests are handled in the order they were pushed. *)
Lemma drain_loop_rev s : forall f, drain_loop s f = rev s ++ f.
Proof. induction s as [|x s IH]; intros f; [done|]. cbn. by rewrite IH, <-app_assoc. Qed.
Lemma drain_inv st : inv st -> fifo st = [] -> inv (inbox_drain st).
Proof.
  intros [Ha Hw Hp Hpl Hx Hh] Hf. assert (pending (inbox_drain st) = pending st) as Ep
    by (unfold pending; cbn; by rewrite Hf, drain_loop_rev, !app_nil_r).
  split; try done; [by rewrite Ep|]. intros r. destruct (Hpl r) as (p & Hat & Hl). exists p.
  split; [|done]. unfold at_place in *. by rewrite Ep.
Qed.

Lemma release_owner_without_memory r t st : inv st -> rq_client (reqs st r) = c_owner -> release_suspend_owner false r t st = None.
Proof.
  intros I Hc. destruct (client_place c_owner p_active st r I Hc) as [Hat _]; [only_place|]. destruct (active_only _ _ Hat) as (Ha & _).
  unfold release_suspend_owner, release_on_owner.
  assert (existsb (Z.eqb r) (active (start_release r t st)) = true) as -> by (by apply existsb_in). done.
Qed.

Lemma exec_inv l st : inv st ->
  match exec l st with next st' => inv st' | terminated => memory l = false | not_enabled => True end.
Proof.
  intros I. destruct l as [r off len mode|alloc r t|poller r t|r| |alloc|alloc r t|poller r t|r]; cbn [exec memory]; unfold is_client;
    try (case_bool_decide as Hc; [|done]).
  - destruct (make_request off len mode) as [q|] eqn:E; [|done]. apply construct_inv; [done|done|]. by eapply make_request_legal.
  - destruct (owner_free st); [|done]. by destruct (acquire_owner_inv alloc r t st I Hc) as (st' & -> & ?).
  - by apply acquire_remote_inv.
  - by destruct (park_inv r st I Hc) as (st' & -> & ?).
  - unfold owner_free. case_bool_decide; [by apply drain_inv|done].
  - destruct (fifo st) as [|r rest] eqn:E; [done|]. pose proof (poll_inv alloc r rest st I E). by destruct (poll_one _ _ _).
  - destruct (owner_free st); [|done]. destruct alloc; [by destruct (release_owner_inv r t st I Hc) as (st' & -> & ?)|].
    by rewrite release_owner_without_memory.
  - by apply release_remote_inv.
  - by destruct (release_park_inv r st I Hc) as (st' & -> & ?).
Qed.

Lemma init_inv worker : inv (init_state worker).
Proof.
  split; try (by apply NoDup_nil_2).
  - intros r. exists p_out. split; [|done]. unfold at_place. cbn. split_and!; (split; [by intros ?%not_elem_of_nil|naive_solver]).
  - by intros a b ?%not_elem_of_nil.
  - by intros [|x l1] w l2 E.
Qed.
Lemma reachable_inv worker st : reachable worker st -> inv st.
Proof.
  induction 1 as [|l st st' _ IH E]; [apply init_inv|]. pose proof (exec_inv l st IH) as H. by rewrite E in H.
Qed.

(** ** No overtaking *)

Lemma resume_local r st st' : resume r st = Some st' -> local r st st'.
Proof.
  unfold resume. destruct (rq_client (reqs st r)); try done; intros [= <-]; apply local_on_req; [apply await_resume_range|done].
Qed.
Lemma wake_granted_local r ad d st st' d' : wake_granted r ad d st = Some (st', d') -> local r st st'.
Proof.
  unfold wake_granted. cbv zeta. set (st1 := on_req r (set_phase phase_granted) (on_req r set_granted st)).
  assert (local r st st1) as L1 by (eapply local_trans; by apply local_on_req).
  destruct (rq_phase _); [by intros [= <- _]| |done]. set (t2 := mk_target _ (_ + 1) _).
  set (st2 := on_req r set_pinned (on_req r (set_target t2) st1)).
  assert (local r st st2) as L2 by (eapply local_trans; [exact L1|]; eapply local_trans; by apply local_on_req).
  destruct (ad && _ && _); [by intros [= <- _]|]. destruct (resume r st2) as [st3|] eqn:E; [|done]. intros [= <- _].
  eapply local_trans; [exact L2|]. by apply resume_local.
Qed.

Lemma grant_loop_waiting ad rest : forall before d st st' d', grant_loop ad before rest d st = Some (st', d') ->
  forall x, x ∈ waiting st' -> x ∈ before ++ rest.
Proof.
  induction rest as [|r rest IH]; intros before d st st' d'; cbn [grant_loop].
  - intros [= <- <-] x Hx. set_solver.
  - destruct (_ || _); [intros Hrun x Hx; apply (IH _ _ _ _ _ Hrun) in Hx; set_solver|].
    destruct (wake_granted _ _ _ _) as [[st1 d1]|]; [|done]. intros Hrun x Hx. apply (IH _ _ _ _ _ Hrun) in Hx. set_solver.
Qed.

(** A waiter [a] that stays is not overtaken by a conflicting one that came after it. *)
Lemma grant_loop_fair ad a b rest : forall before d st st' d', grant_loop ad before rest d st = Some (st', d') ->
  b ∉ active st -> b ∈ active st' -> a ∈ waiting st' -> NoDup (before ++ rest) ->
  (a ∈ before \/ exists r1 r2, rest = r1 ++ a :: r2 /\ b ∉ r1) -> conflicts (reqs st b) (reqs st a) = false.
Proof.
  induction rest as [|r rest IH]; intros before d st st' d'; cbn [grant_loop].
  { by intros [= <- <-] Hb Hb'. }
  destruct (_ || _) eqn:Hbl.
  - intros Hrun Hb Hb' Ha Hn Hin. refine (IH _ _ _ _ _ Hrun Hb Hb' Ha _ _); [by rewrite <-app_assoc|].
    destruct Hin as [?|([|x r1] & r2 & E & Hr)]; [left; set_solver|injection E as -> _; left; set_solver|].
    injection E as _ ->. right. exists r1, r2. split; [done|]. set_solver.
  - apply orb_false_iff in Hbl as [_ Hbf]. destruct (wake_granted _ _ _ _) as [[st1 d1]|] eqn:Ew; [|done].
    intros Hrun Hb Hb' Ha Hn Hin. pose proof (wake_granted_local _ _ _ _ _ _ Ew) as L.
    pose proof (fun x => local_ranges _ _ _ x L) as Hrng. cbn in Hrng. rewrite <-Permutation_middle in Hn. apply NoDup_cons in Hn as [Hr Hn].
    pose proof (grant_loop_waiting _ _ _ _ _ _ _ Hrun _ Ha) as Ha'. assert (a <> r) as Har by (intros ->; done).
    destruct (Z.eq_dec b r) as [->|Hbr].
    + destruct Hin as [Hin|([|x r1] & r2 & E & Hr1)]; [by apply (existsb_none _ _ Hbf)|by injection E as -> _|]. injection E as <- _. set_solver.
    + rewrite <-(conflicts_rng (reqs st1 b) (reqs st1 a)) by apply Hrng.
      refine (IH _ _ _ _ _ Hrun _ Hb' Ha Hn _); [rewrite (lo_active _ _ _ L); cbn; set_solver|].
      destruct Hin as [?|([|x r1] & r2 & E & Hr1)]; [by left|by injection E as -> _|]. injection E as _ ->. right. exists r1, r2. split; [done|set_solver].
Qed.

Lemma wake_completed_local r st st' : wake_completed r st = Some st' -> local r st st'.
Proof.
  unfold wake_completed. assert (local r st (on_req r (set_phase phase_granted) st)) as L by by apply local_on_req.
  destruct (rq_phase _); [by intros [= <-]| |done]. intros H%resume_local. by eapply local_trans.
Qed.

(** [b], which is not a waiter before [a], does not conflict with [a]. *)
Definition behind (a b : Z) (l : list Z) : Prop := exists l1 l2, l = l1 ++ a :: l2 /\ b ∉ l1.

Lemma acquire_fair alloc r st res st' a b : acquire_on_owner alloc r st = Some (res, st') -> b ∉ active st -> b ∈ active st' ->
  behind a b (waiting st) -> conflicts (reqs st b) (reqs st a) = false.
Proof.
  unfold acquire_on_owner, can_grant_immediately. intros Hrun Hb Hb' (l1 & l2 & E & _). destruct alloc.
  - destruct (conflicts_with_active st r); [by injection Hrun as <- <-|]. destruct (existsb _ _) eqn:Hc; cbn [negb] in Hrun;
      [by injection Hrun as <- <-|]. destruct (wake_granted _ _ _ _) as [[st1 d1]|] eqn:Ew; [|done]. injection Hrun as <- <-.
    rewrite (lo_active _ _ _ (wake_granted_local _ _ _ _ _ _ Ew)) in Hb'. cbn in Hb'. assert (b = r) as -> by set_solver.
    apply (existsb_none _ _ Hc). rewrite E. set_solver.
  - destruct (wake_completed _ _) as [st1|] eqn:Ew; [|done]. injection Hrun as <- <-.
    by rewrite (lo_active _ _ _ (wake_completed_local _ _ _ Ew)) in Hb'.
Qed.

Lemma release_fair alloc ad r st st' d a b : grant_waiters alloc ad (set_active (erase r (active st)) st) = Some (st', d) ->
  NoDup (active st) -> NoDup (waiting st) -> b ∉ active st -> b ∈ active st' -> a ∈ waiting st' ->
  behind a b (waiting st) -> conflicts (reqs st b) (reqs st a) = false.
Proof.
  unfold grant_waiters. destruct alloc; [|done]. intros Hrun Hn Hw Hb Hb' Ha Hin.
  refine (grant_loop_fair ad a b (waiting st) [] None _ st' d Hrun _ Hb' Ha Hw (or_intror Hin)).
  cbn. rewrite erase_elem by done. tauto.
Qed.

Lemma poll_fair alloc r rest st st' a b : inv st -> poll_one alloc r (set_fifo rest st) = Some st' -> b ∉ active st ->
  b ∈ active st' -> a ∈ waiting st' -> behind a b (waiting st) -> conflicts (reqs st b) (reqs st a) = false.
Proof.
  intros I Hrun Hb Hb' Ha Hin. unfold poll_one in Hrun. destruct (rq_operation _).
  - destruct (acquire_on_owner _ _ _) as [[res st1]|] eqn:E; [|done]. injection Hrun as <-. by apply (acquire_fair _ _ _ _ _ a b) in E.
  - unfold release_from_queue in Hrun. destruct (negb _).
    + apply wake_completed_local in Hrun. by rewrite (lo_active _ _ _ Hrun) in Hb'.
    + destruct (grant_waiters _ _ _) as [[st1 d]|] eqn:E; [|done]. apply wake_completed_local in Hrun.
      rewrite (lo_active _ _ _ Hrun) in Hb'. rewrite (lo_waiting _ _ _ Hrun) in Ha.
      refine (release_fair _ _ r (set_fifo rest st) _ _ a b E _ _ _ Hb' Ha Hin); [apply I|apply I|done].
Qed.

Lemma acquire_owner_fair alloc r t st st' a b : acquire_suspend_owner alloc r t st = Some st' -> b ∉ active st ->
  b ∈ active st' -> behind a b (waiting st) -> conflicts (reqs st b) (reqs st a) = false.
Proof.
  intros Hrun Hb Hb' Hin. unfold acquire_suspend_owner in Hrun. destruct (acquire_on_owner _ _ _) as [[res st1]|] eqn:E; [|done].
  assert (active st' = active st1) as Hact.
  { destruct res; [by injection Hrun as <-| |by injection Hrun as <-]. unfold park_acquire in Hrun.
    destruct (rq_phase _); [by injection Hrun as <-|done|by injection Hrun as <-]. }
  rewrite Hact in Hb'. apply (acquire_fair _ _ _ _ _ a b) in E; [|done|done|done].
  rewrite <-E. apply conflicts_rng; symmetry; apply (local_ranges r); by apply local_on_req.
Qed.

Lemma release_owner_fair alloc r t st st' a b : inv st -> release_suspend_owner alloc r t st = Some st' -> b ∉ active st ->
  b ∈ active st' -> a ∈ waiting st' -> behind a b (waiting st) -> conflicts (reqs st b) (reqs st a) = false.
Proof.
  intros I Hrun Hb Hb' Ha Hin. unfold release_suspend_owner, release_on_owner in Hrun.
  destruct (negb _); [cbn in Hrun; by injection Hrun as <-|].
  destruct (grant_waiters _ _ _) as [[st1 d]|] eqn:E; [|done]. set (st2 := on_req r (set_client c_done) st1) in *.
  assert (active st' = active st1 /\ waiting st' = waiting st1) as [E1 E2].
  { destruct d as [d|]; [|by injection Hrun as <-]. apply resume_local in Hrun. by destruct Hrun. }
  rewrite E1 in Hb'. rewrite E2 in Ha.
  rewrite <-(conflicts_rng (reqs (start_release r t st) b) (reqs (start_release r t st) a));
    [|apply (local_ranges r); by apply local_on_req..].
  refine (release_fair _ _ r (start_release r t st) _ _ a b E _ _ _ Hb' Ha Hin); [apply I|apply I|done].
Qed.

Lemma exec_fair l st st' a b : inv st -> exec l st = next st' -> b ∉ active st -> b ∈ active st' -> a ∈ waiting st' ->
  behind a b (waiting st) -> conflicts (reqs st b) (reqs st a) = false.
Proof.
  intros I E Hb Hb' Ha Hin.
  assert (active st' <> active st) as Hne by (intros E'; by rewrite E' in Hb').
  destruct l as [r off len mode|alloc r t|poller r t|r| |alloc|alloc r t|poller r t|r]; cbn [exec] in E; unfold outcome_of in E;
    try (destruct (is_client _ _ _); [|done]); cbn [andb] in E.
  - destruct (make_request _ _ _); [|done]. by injection E as <-.
  - destruct (owner_free st); [|done]. destruct (acquire_suspend_owner _ _ _ _) eqn:Er; [|done]. injection E as ->.
    by apply (acquire_owner_fair _ _ _ _ _ a b) in Er.
  - injection E as <-. by destruct poller.
  - unfold park_acquire in E. destruct (rq_phase _); [by injection E as <-|done|by injection E as <-].
  - destruct (owner_free st); [|done]. by injection E as <-.
  - destruct (fifo st) as [|r rest]; [done|]. destruct (poll_one _ _ _) eqn:Er; [|done]. injection E as ->.
    by apply (poll_fair _ _ _ _ _ a b) in Er.
  - destruct (owner_free st); [|done]. destruct (release_suspend_owner _ _ _ _) eqn:Er; [|done]. injection E as ->.
    by apply (release_owner_fair _ _ _ _ _ a b) in Er.
  - injection E as <-. by destruct poller.
  - unfold park_release in E. destruct (rq_phase _); [by injection E as <-|done|by injection E as <-].
Qed.

(** ** Handing a permit over *)

Lemma grant_loop_split ad rest : forall before d st st' d', grant_loop ad before rest d st = Some (st', d') ->
  forall x, (x ∈ before ++ rest -> x ∈ waiting st' \/ x ∈ active st') /\ (x ∈ active st -> x ∈ active st') /\
    (x ∈ active st' -> x ∈ active st \/ x ∈ rest) /\ rng (reqs st' x) = rng (reqs st x).
Proof.
  induction rest as [|r rest IH]; intros before d st st' d'; cbn [grant_loop].
  - intros [= <- <-] x. rewrite app_nil_r. split_and!; try done; by left.
  - destruct (_ || _).
    + intros Hrun x. destruct (IH _ _ _ _ _ Hrun x) as (A & B & C & D). rewrite <-app_assoc in A. split_and!; try done. set_solver.
    + destruct (wake_granted _ _ _ _) as [[st1 d1]|] eqn:Ew; [|done]. intros Hrun x. apply wake_granted_local in Ew.
      pose proof (local_ranges _ _ _ x Ew) as Hr. cbn in Hr.
      destruct (IH _ _ _ _ _ Hrun x) as (A & B & C & D). rewrite (lo_active _ _ _ Ew) in B, C. cbn in B, C.
      split_and!; [|set_solver..|congruence]. intros Hx. destruct (Z.eq_dec x r); set_solver.
Qed.

Lemma release_owner_split r t st st' : inv st -> release_suspend_owner true r t st = Some st' -> r ∈ active st ->
  forall x, (x ∈ waiting st -> x ∈ waiting st' \/ x ∈ active st') /\
    (x ∈ active st' -> (x ∈ active st /\ x <> r) \/ x ∈ waiting st) /\ (x ∈ waiting st' -> x ∈ waiting st) /\
    rng (reqs st' x) = rng (reqs st x).
Proof.
  intros I Hrun Hr x. unfold release_suspend_owner, release_on_owner in Hrun.
  assert (existsb (Z.eqb r) (active (start_release r t st)) = true) as E by (by apply existsb_in). rewrite E in Hrun. cbn [negb] in Hrun.
  unfold grant_waiters in Hrun. destruct (grant_loop _ _ _ _ _) as [[st1 d]|] eqn:Eg; [|done].
  set (st2 := on_req r (set_client c_done) st1) in *.
  assert (active st' = active st1 /\ waiting st' = waiting st1 /\ rng (reqs st' x) = rng (reqs st1 x)) as (E1 & E2 & E3).
  { assert (rng (reqs st2 x) = rng (reqs st1 x)) as H2 by (apply (local_ranges r); by apply local_on_req).
    destruct d as [d|]; [|injection Hrun as <-; done]. apply resume_local in Hrun. pose proof (local_ranges _ _ _ x Hrun).
    destruct Hrun. split_and!; [done|done|congruence]. }
  destruct (grant_loop_split _ _ _ _ _ _ _ Eg x) as (A & _ & C & D). pose proof (grant_loop_waiting _ _ _ _ _ _ _ Eg x) as W.
  rewrite E1, E2, E3, D. cbn in *. split_and!; [done| |done|].
  - intros Hx. destruct (C Hx) as [Hx'|?]; [|by right]. left. by apply erase_elem in Hx'; [|apply I].
  - change (rng (reqs (start_release r t st) x) = rng (reqs st x)). apply (local_ranges r). by apply local_on_req.
Qed.

(** ** What the arbiter promises *)

(** A byte of the file that a request is for. *)
Definition covers (q : RangeRequest) (x : Z) : Prop := first_block q <= x / granularity <= last_block q.
(** The coroutine is suspended. *)
Definition suspended (q : RangeRequest) : Prop := rq_client q = c_parked \/ rq_client q = c_release_parked.
(** The coroutine has a permit, is about to find out that it has, or failed to give it back. *)
Definition holds_permit (q : RangeRequest) : Prop :=
  rq_client q = c_owner \/ rq_client q = c_acquiring \/ rq_client q = c_stuck.

Lemma overlap_conflicts q1 q2 x : covers q1 x -> covers q2 x -> conflicts q1 q2 = false ->
  rq_mode q1 = mode_read /\ rq_mode q2 = mode_read.
Proof.
  unfold covers, conflicts, overlaps. intros H1 H2 H. rewrite (proj2 (Z.leb_le _ _)), (proj2 (Z.leb_le _ _)) in H by lia.
  cbn [andb] in H. destruct (rq_mode q1), (rq_mode q2); done.
Qed.

Lemma permits_apart worker st a b x : reachable worker st -> a <> b ->
  rq_client (reqs st a) = c_owner -> rq_client (reqs st b) = c_owner -> covers (reqs st a) x -> covers (reqs st b) x ->
  rq_mode (reqs st a) = mode_read /\ rq_mode (reqs st b) = mode_read.
Proof.
  intros I%reachable_inv Hab Ha Hb Ca Cb. apply (overlap_conflicts _ _ x); [done|done|].
  destruct (client_place c_owner p_active st a I Ha) as [(A1 & _) _]; [only_place|].
  destruct (client_place c_owner p_active st b I Hb) as [(B1 & _) _]; [only_place|].
  apply (i_excl _ I); [apply A1; by left|apply B1; by left|done].
Qed.

(** C7: Mutual exclusion of permits.  In every state that any interleaving of
    clients on any workers with the owner's polling reaches, two coroutines hold
    permits that share a byte of the file only if both are read permits. *)
Theorem permits_exclude worker st a b x : reachable worker st -> a <> b ->
  rq_client (reqs st a) = c_owner -> rq_client (reqs st b) = c_owner -> covers (reqs st a) x -> covers (reqs st b) x ->
  rq_mode (reqs st a) = mode_read /\ rq_mode (reqs st b) = mode_read.
Proof. apply permits_apart. Qed.

(** The hand-shake between a coroutine that suspends and the worker that wakes
    it never goes wrong: in a reachable state no step ends in [std::terminate], that
    is, no phase word has an unexpected value and no coroutine is resumed that is
    not suspended, as long as a release finds memory for the grants it makes. *)
Theorem arbiter_never_terminates worker st l : reachable worker st -> memory l = true -> exec l st <> terminated.
Proof. intros I%reachable_inv Hm E. pose proof (exec_inv l st I) as H. rewrite E in H. congruence. Qed.

(** C8: No wake-up is lost.  A suspended coroutine is in the owner's queue, or is a
    waiter that conflicts with a granted request or an earlier waiter; and when the
    queue is empty some coroutine holds a permit, so the system is not deadlocked. *)
Theorem no_lost_wakeup worker st r : reachable worker st -> suspended (reqs st r) ->
  (r ∈ pending st \/ exists l1 l2, waiting st = l1 ++ r :: l2 /\ held_up st l1 r) /\
  (pending st = [] -> exists o, o ∈ active st /\ holds_permit (reqs st o)).
Proof.
  intros I%reachable_inv Hs. destruct (i_place _ I r) as (p & (A1 & A2 & A3) & Hl).
  assert (r ∈ pending st \/ r ∈ waiting st) as Hin.
  { unfold legal in Hl. destruct Hs as [Hs|Hs]; rewrite Hs in Hl; destruct p; try done;
      [left; apply A3; by left|right; by apply A2|left; apply A3; by right]. }
  split.
  - destruct Hin as [?|(l1 & l2 & E)%list_elem_of_split]; [by left|]. right. exists l1, l2. split; [done|]. by eapply (i_held _ I).
  - intros Ep. destruct Hin as [Hin|Hin]; [rewrite Ep in Hin; by apply not_elem_of_nil in Hin|].
    destruct (waiting st) as [|h t] eqn:Ew; [by apply not_elem_of_nil in Hin|].
    destruct (i_held _ I [] h t) as (o & Ho & _); [done|]. rewrite app_nil_r in Ho. exists o. split; [done|].
    destruct (i_place _ I o) as (q & (B1 & _ & B3) & Hq). destruct (proj1 B1 Ho) as [Eq|Eq]; rewrite Eq in Hq, B3.
    + unfold legal, holds_permit in *. destruct (rq_client (reqs st o)); done || (by left) || (right; by left) || (by right; right).
    + exfalso. assert (o ∈ pending st) as Hx by (apply B3; by right). rewrite Ep in Hx. by apply not_elem_of_nil in Hx.
Qed.

(** No overtaking.  When a step grants [b] while [a] waits and goes on waiting,
    and [b] did not already wait in front of [a], then [b] does not conflict with
    [a]: a waiter is delayed only by requests that came before it. *)
Theorem grants_do_not_overtake worker st l st' a b : reachable worker st -> exec l st = next st' ->
  behind a b (waiting st) -> a ∈ waiting st' -> b ∉ active st -> b ∈ active st' ->
  conflicts (reqs st b) (reqs st a) = false.
Proof. intros I%reachable_inv E Hin Ha Hb Hb'. by eapply exec_fair. Qed.

(** Releasing a permit on the owner always succeeds and hands it over: every
    waiter that conflicts with no granted request but the released one, and with
    no other waiter, is granted by the release. *)
Theorem release_hands_over worker st r t w : reachable worker st -> rq_client (reqs st r) = c_owner -> fifo st = [] ->
  w ∈ waiting st -> (forall o, o ∈ active st ++ waiting st -> o <> r -> o <> w -> conflicts (reqs st w) (reqs st o) = false) ->
  exists st', exec (l_release_owner true r t) st = next st' /\ (w ∈ active st') /\ (r ∉ active st').
Proof.
  intros I%reachable_inv Hc Hf Hw Hfree. cbn [exec]. unfold is_client, owner_free. rewrite !bool_decide_true by done. cbn [andb].
  destruct (release_owner_inv r t st I Hc) as (st' & Hrun & I'). rewrite Hrun. exists st'. split; [done|].
  destruct (client_place c_owner p_active st r I Hc) as [Hat _]; [only_place|]. destruct (active_only _ _ Hat) as (Ha & Nw & _).
  pose proof (release_owner_split r t st st' I Hrun Ha) as Hs. split; [|intros Hx; destruct (Hs r) as (_ & B & _); naive_solver].
  destruct (proj1 (Hs w) Hw) as [(l1 & l2 & E)%list_elem_of_split|]; [|done]. exfalso.
  destruct (i_held _ I' l1 w l2 E) as (o & Ho & Hco). pose proof (i_waiting _ I') as Hnd. rewrite E in Hnd.
  rewrite (conflicts_rng _ _ (reqs st w) (reqs st o)) in Hco by (by apply Hs). destruct (Hs o) as (_ & B & C & _).
  assert (w ∉ active st') as Hwa.
  { destruct (i_place _ I' w) as (p & (A1 & A2 & _) & _). assert (w ∈ waiting st') as Hx by (rewrite E; set_solver).
    apply A2 in Hx as ->. rewrite A1. naive_solver. }
  apply NoDup_app in Hnd as (_ & Hd & _). rewrite Hfree in Hco; [done| | |].
  - apply elem_of_app in Ho as [Ho|Ho]; [destruct (B Ho) as [[? _]|?]; set_solver|]. apply elem_of_app. right. apply C. rewrite E. set_solver.
  - intros ->. apply elem_of_app in Ho as [Ho|Ho]; [destruct (B Ho) as [[_ ?]|?]; done|]. apply Nw, C. rewrite E. set_solver.
  - intros ->. apply elem_of_app in Ho as [Ho|Ho]; [done|]. apply (Hd w Ho). by left.
Qed.

(** A request is for the blocks of its bytes: the awaiter refuses an empty range
    and one that runs past the last 64-bit offset, otherwise the block range has
    exactly the blocks that hold a byte of the range, and nothing overflows. *)
Theorem request_blocks_exact offset length mode : 0 <= offset <= UINT64_MAX -> 0 <= length <= UINT64_MAX ->
  match make_request offset length mode with
  | None => length = 0 \/ UINT64_MAX + 1 < offset + length
  | Some q => length <> 0 /\ offset + length <= UINT64_MAX + 1 /\ 0 <= first_block q <= last_block q /\
      forall k, first_block q <= k <= last_block q <-> exists x, offset <= x < offset + length /\ x / granularity = k
  end.
Proof.
  intros Ho Hl. unfold make_request. destruct (_ || _) eqn:E.
  { apply orb_true_iff in E as [E|E]; lia. }
  apply orb_false_iff in E as [E1 E2]. split; [lia|]. split; [lia|]. cbn [first_block last_block].
  rewrite u64_small by (unfold UINT64_MAX in *; lia). unfold granularity. change (32 * 1024) with 32768.
  split; [split; [apply Z.div_pos; lia|apply Z.div_le_mono; lia]|]. intros k. split.
  - intros [H1 H2]. exists (Z.max offset (k * 32768)). pose proof (Z.mul_div_le (offset + length - 1) 32768).
    split; [lia|]. destruct (Z.max_spec offset (k * 32768)) as [[_ ->]|[Hm ->]]; [by rewrite Z.div_mul|].
    apply Z.le_antisymm; [done|]. apply Z.div_le_lower_bound; lia.
  - intros (x & Hx & <-). split; apply Z.div_le_mono; lia.
Qed.

(** ** Concrete runs *)

Fixpoint run_labels (ls : list label) (st : RangeState) : option RangeState :=
  match ls with
  | [] => Some st
  | l :: ls' => match exec l st with next st' => run_labels ls' st' | _ => None end
  end.
Lemma run_reachable worker ls : forall st st', reachable worker st -> run_labels ls st = Some st' -> reachable worker st'.
Proof.
  induction ls as [|l ls IH]; intros st st' H E; cbn in E; [by injection E as <-|].
  destruct (exec l st) as [| |st1] eqn:E1; try done. apply (IH st1); [|done]. by eapply reach_step.
Qed.
Definition demo_run (ls : list label) : RangeState := default (init_state 0) (run_labels ls (init_state 0)).
Lemma demo_reachable ls : reachable 0 (demo_run ls).
Proof.
  unfold demo_run. destruct (run_labels ls (init_state 0)) eqn:E; [|apply reach_init]. exact (run_reachable 0 ls _ _ (reach_init 0) E).
Qed.

Definition here : ResumeTarget := mk_target 0 0 false.
Definition there : ResumeTarget := mk_target 1 0 false.
(** Two readers of one block. *)
Definition demo_readers : list label :=
  [l_construct 1 0 100 mode_read; l_construct 2 50 40000 mode_read; l_acquire_owner true 1 here; l_acquire_owner true 2 here].
(** A writer, and a reader on another worker that waits for it. *)
Definition demo_parked : list label :=
  [l_construct 1 0 100 mode_write; l_acquire_owner true 1 here; l_construct 2 50 40000 mode_read;
   l_acquire_remote true 2 there; l_park 2; l_drain; l_poll true].
(** Writers of blocks 0 and 2, and writers of blocks 0 to 1 and 2 that wait. *)
Definition demo_waiters : list label :=
  [l_construct 1 0 1 mode_write; l_construct 2 65536 1 mode_write; l_construct 3 0 40000 mode_write;
   l_construct 4 65536 1 mode_write; l_acquire_owner true 1 here; l_acquire_owner true 2 here;
   l_acquire_owner true 3 here; l_acquire_owner true 4 here].

Lemma permits_exclude_witness :
  rq_mode (reqs (demo_run demo_readers) 1) = mode_read /\ rq_mode (reqs (demo_run demo_readers) 2) = mode_read.
Proof.
  apply (permits_exclude 0 (demo_run demo_readers) 1 2 60); [apply demo_reachable|done|by vm_compute|by vm_compute| |];
    unfold covers; vm_compute; done.
Defined.
Lemma arbiter_never_terminates_witness : exec (l_release_owner true 2 here) (demo_run demo_waiters) <> terminated.
Proof. apply (arbiter_never_terminates 0); [apply demo_reachable|done]. Defined.
Lemma no_lost_wakeup_witness :
  (2 ∈ pending (demo_run demo_parked) \/
   exists l1 l2, waiting (demo_run demo_parked) = l1 ++ 2 :: l2 /\ held_up (demo_run demo_parked) l1 2) /\
  (pending (demo_run demo_parked) = [] ->
   exists o, o ∈ active (demo_run demo_parked) /\ holds_permit (reqs (demo_run demo_parked) o)).
Proof. apply (no_lost_wakeup 0); [apply demo_reachable|]. left. by vm_compute. Defined.
Lemma grants_do_not_overtake_witness :
  conflicts (reqs (demo_run demo_waiters) 4) (reqs (demo_run demo_waiters) 3) = false.
Proof.
  apply (grants_do_not_overtake 0 (demo_run demo_waiters) (l_release_owner true 2 here)
    (demo_run (demo_waiters ++ [l_release_owner true 2 here])) 3 4).
  - apply demo_reachable.
  - vm_compute. done.
  - exists [], [4]. split; [by vm_compute|by apply not_elem_of_nil].
  - apply (bool_decide_unpack _). by vm_compute.
  - apply (bool_decide_unpack _). by vm_compute.
  - apply (bool_decide_unpack _). by vm_compute.
Defined.
Lemma release_hands_over_witness : exists st', exec (l_release_owner true 2 here) (demo_run demo_waiters) = next st' /\
  (4 ∈ active st') /\ (2 ∉ active st').
Proof.
  apply (release_hands_over 0 (demo_run demo_waiters) 2 here 4); [apply demo_reachable|by vm_compute|by vm_compute| |].
  - replace (waiting (demo_run demo_waiters)) with [3; 4] by by vm_compute. set_solver.
  - replace (active (demo_run demo_waiters) ++ waiting (demo_run demo_waiters)) with [1; 2; 3; 4] by by vm_compute.
    intros o Ho H2 H4. assert (o = 1 \/ o = 3) as [-> | ->] by set_solver; by vm_compute.
Defined.
Lemma request_blocks_exact_witness : match make_request 100 40000 mode_write with
  | None => 40000 = 0 \/ UINT64_MAX + 1 < 100 + 40000
  | Some q => 40000 <> 0 /\ 100 + 40000 <= UINT64_MAX + 1 /\ 0 <= first_block q <= last_block q /\
      forall k, first_block q <= k <= last_block q <-> exists x, 100 <= x < 100 + 40000 /\ x / granularity = k
  end.
Proof. apply (request_blocks_exact 100 40000 mode_write); by vm_compute. Defined.
