(* ===== verification/Namespace.v ===== *)
(** * Namespace coordination (Async/namespace_coordinator.cpp)

    The coordinator keeps, in 256 shards each, the arbiters that lock directories
    and inode states, a cache of directory entries, a cache of inode snapshots, and
    the number of open references and the orphan mark of each inode.  A shard is
    protected by a mutex for the duration of one operation, so operations are
    functions on the state.  A [bool] argument says whether an allocation inside the
    operation finds memory. *)

From stdpp Require Import base tactics numbers list gmap strings sorting relations.
From Stdlib Require Import ZArith Lia Sorted.
From S2P Require Import Prelude Layout.
Open Scope Z_scope.

(** ** Shards *)

Definition kShardCount : Z := 256.
Definition fmix64 (complete : bool) (value : Z) : Z :=
  let value := Z.lxor value (Z.shiftr value 33) in
  let value := u64 (value * 0xff51afd7ed558ccd) in
  let value := Z.lxor value (Z.shiftr value 33) in
  if complete then
    let value := u64 (value * 0xc4ceb9fe1a85ec53) in
    Z.lxor value (Z.shiftr value 33)
  else value.
Definition shard_index (inode : Z) : Z := Z.land (fmix64 true (u64 inode)) (kShardCount - 1).

(** An array of shards, and the operations of the map in the shard of an inode. *)
Definition shards (A : Type) : Type := Z -> gmap Z A.
Definition sh_find {A} (inode : Z) (m : shards A) : option A := m (shard_index inode) !! inode.
Definition sh_insert {A} (inode : Z) (v : A) (m : shards A) : shards A :=
  upd m (shard_index inode) (<[inode := v]> (m (shard_index inode))).
Definition sh_erase {A} (inode : Z) (m : shards A) : shards A :=
  upd m (shard_index inode) (delete inode (m (shard_index inode))).

Lemma sh_find_insert {A} i j (v : A) m : sh_find j (sh_insert i v m) = if decide (j = i) then Some v else sh_find j m.
Proof.
  unfold sh_find, sh_insert. destruct (decide (j = i)) as [->|Hne]; [by rewrite upd_same, lookup_insert_eq|].
  destruct (Z.eq_dec (shard_index j) (shard_index i)) as [->|?]; [by rewrite upd_same, lookup_insert_ne|by rewrite upd_other].
Qed.
Lemma sh_find_erase {A} i j (m : shards A) : sh_find j (sh_erase i m) = if decide (j = i) then None else sh_find j m.
Proof.
  unfold sh_find, sh_erase. destruct (decide (j = i)) as [->|Hne]; [by rewrite upd_same, lookup_delete_eq|].
  destruct (Z.eq_dec (shard_index j) (shard_index i)) as [->|?]; [by rewrite upd_same, lookup_delete_ne|by rewrite upd_other].
Qed.

(** ** State *)

Record Dentry := mk_dentry { dn_inode : Z; dn_offset : Z; dn_type : Z }.
#[export] Instance Dentry_eq_dec : EqDecision Dentry.
Proof. solve_decision. Defined.
Record DirectoryIndex := mk_directory { names : gmap string Dentry; complete : bool }.
Definition empty_directory : DirectoryIndex := mk_directory ∅ false.
Record InodeState := mk_inode_state { open_references : Z; orphaned : bool }.
Definition new_inode_state : InodeState := mk_inode_state 0 false.
Inductive ReleaseDisposition := reference_remains | last_reference | delete_orphan.

Record FileStat := mk_file_stat {
  fs_device : Z; fs_inode : Z; fs_mode : Z; fs_link_count : Z; fs_uid : Z; fs_gid : Z; fs_rdev : Z; fs_size : Z;
  fs_block_size : Z; fs_blocks : Z; fs_atime_seconds : Z; fs_atime_nanoseconds : Z; fs_mtime_seconds : Z;
  fs_mtime_nanoseconds : Z; fs_ctime_seconds : Z; fs_ctime_nanoseconds : Z;
}.

(** An arbiter is known by the order of its construction. *)
Record NamespaceCoordinator := mk_coordinator {
  data_ranges : shards Z;
  inode_state_ranges : shards Z;
  dentries : shards DirectoryIndex;
  snapshots : shards FileStat;
  inode_states : shards InodeState;
  arbiters_made : Z;
}.
Definition init_coordinator : NamespaceCoordinator :=
  mk_coordinator (fun _ => ∅) (fun _ => ∅) (fun _ => ∅) (fun _ => ∅) (fun _ => ∅) 0.
Definition set_dentries (d : shards DirectoryIndex) (c : NamespaceCoordinator) : NamespaceCoordinator :=
  mk_coordinator (data_ranges c) (inode_state_ranges c) d (snapshots c) (inode_states c) (arbiters_made c).
Definition set_snapshots (d : shards FileStat) (c : NamespaceCoordinator) : NamespaceCoordinator :=
  mk_coordinator (data_ranges c) (inode_state_ranges c) (dentries c) d (inode_states c) (arbiters_made c).
Definition set_inode_states (d : shards InodeState) (c : NamespaceCoordinator) : NamespaceCoordinator :=
  mk_coordinator (data_ranges c) (inode_state_ranges c) (dentries c) (snapshots c) d (arbiters_made c).

(** ** Directory entries *)

Definition find_dentry (parent : Z) (name : string) (c : NamespaceCoordinator) : option Dentry :=
  if parent <? 0 then None
  else match sh_find parent (dentries c) with
       | None => None
       | Some directory => names directory !! name
       end.

(** [alloc_dir] is for the directory's index, [alloc_name] for the entry in it. *)
Definition cache_dentry (alloc_dir alloc_name : bool) (parent : Z) (name : string) (dentry : Dentry)
    (c : NamespaceCoordinator) : bool * NamespaceCoordinator :=
  if parent <? 0 then (false, c)
  else match sh_find parent (dentries c) with
       | Some directory =>
           match names directory !! name with
           | Some _ => (true, set_dentries (sh_insert parent (mk_directory (<[name := dentry]> (names directory))
                                                                 (complete directory)) (dentries c)) c)
           | None =>
               if alloc_name then
                 (true, set_dentries (sh_insert parent (mk_directory (<[name := dentry]> (names directory))
                                                          (complete directory)) (dentries c)) c)
               else (false, set_dentries (sh_insert parent (mk_directory (names directory) false) (dentries c)) c)
           end
       | None =>
           if negb alloc_dir then (false, c)
           else if alloc_name then
             (true, set_dentries (sh_insert parent (mk_directory {[name := dentry]} false) (dentries c)) c)
           else (false, set_dentries (sh_insert parent empty_directory (dentries c)) c)
       end.

Definition directory_complete (directory : Z) (c : NamespaceCoordinator) : bool :=
  if directory <? 0 then false
  else match sh_find directory (dentries c) with Some d => complete d | None => false end.

Definition erase_dentry (parent : Z) (name : string) (c : NamespaceCoordinator) : NamespaceCoordinator :=
  if parent <? 0 then c
  else match sh_find parent (dentries c) with
       | None => c
       | Some directory =>
           let rest := delete name (names directory) in
           if bool_decide (rest = ∅) && negb (complete directory)
           then set_dentries (sh_erase parent (dentries c)) c
           else set_dentries (sh_insert parent (mk_directory rest (complete directory)) (dentries c)) c
       end.

Definition erase_directory (directory : Z) (c : NamespaceCoordinator) : NamespaceCoordinator :=
  if directory <? 0 then c else set_dentries (sh_erase directory (dentries c)) c.

Definition mark_directory_complete (alloc : bool) (directory : Z) (c : NamespaceCoordinator) : NamespaceCoordinator :=
  if directory <? 0 then c
  else match sh_find directory (dentries c) with
       | Some d => set_dentries (sh_insert directory (mk_directory (names d) true) (dentries c)) c
       | None => if alloc then set_dentries (sh_insert directory (mk_directory ∅ true) (dentries c)) c
                 else set_dentries (sh_erase directory (dentries c)) c
       end.

(** ** Snapshots *)

Definition publish_snapshot (alloc : bool) (inode : Z) (snapshot : FileStat) (c : NamespaceCoordinator) : NamespaceCoordinator :=
  if inode <? 0 then c
  else match sh_find inode (snapshots c) with
       | Some _ => set_snapshots (sh_insert inode snapshot (snapshots c)) c
       | None => if alloc then set_snapshots (sh_insert inode snapshot (snapshots c)) c else c
       end.
Definition cached_snapshot (inode : Z) (c : NamespaceCoordinator) : Z + FileStat :=
  if inode <? 0 then inl EINVAL
  else match sh_find inode (snapshots c) with None => inl ENOENT | Some s => inr s end.
Definition erase_snapshot (inode : Z) (c : NamespaceCoordinator) : NamespaceCoordinator :=
  if inode <? 0 then c else set_snapshots (sh_erase inode (snapshots c)) c.

(** ** Open references and orphans *)

Definition retain_locked (alloc : bool) (inode : Z) (c : NamespaceCoordinator) : Z * NamespaceCoordinator :=
  if inode <? 0 then (EINVAL, c)
  else match sh_find inode (inode_states c) with
       | None => if alloc then (0, set_inode_states (sh_insert inode (mk_inode_state 1 false) (inode_states c)) c)
                 else (ENOMEM, c)
       | Some state =>
           if open_references state =? UINT64_MAX then (EOVERFLOW, c)
           else (0, set_inode_states (sh_insert inode (mk_inode_state (open_references state + 1) (orphaned state))
                                        (inode_states c)) c)
       end.

Definition mark_orphan_if_open_locked (inode : Z) (c : NamespaceCoordinator) : (Z + bool) * NamespaceCoordinator :=
  if inode <? 0 then (inl EINVAL, c)
  else match sh_find inode (inode_states c) with
       | None => (inr false, c)
       | Some state =>
           if open_references state =? 0 then (inr false, c)
           else (inr true, set_inode_states (sh_insert inode (mk_inode_state (open_references state) true) (inode_states c)) c)
       end.

Definition rollback_orphan_locked (inode : Z) (c : NamespaceCoordinator) : NamespaceCoordinator :=
  if inode <? 0 then c
  else match sh_find inode (inode_states c) with
       | None => c
       | Some state => set_inode_states (sh_insert inode (mk_inode_state (open_references state) false) (inode_states c)) c
       end.

Definition erase_inode_state_locked (inode : Z) (c : NamespaceCoordinator) : NamespaceCoordinator :=
  if inode <? 0 then c else set_inode_states (sh_erase inode (inode_states c)) c.
Definition finish_orphan_release_locked (inode : Z) (c : NamespaceCoordinator) : NamespaceCoordinator :=
  erase_inode_state_locked inode c.

Definition release_reference_locked (inode : Z) (c : NamespaceCoordinator)
    : (Z + ReleaseDisposition) * NamespaceCoordinator :=
  if inode <? 0 then (inl EINVAL, c)
  else match sh_find inode (inode_states c) with
       | None => (inl EBADF, c)
       | Some state =>
           if open_references state =? 0 then (inl EBADF, c)
           else if 1 <? open_references state then
             (inr reference_remains,
              set_inode_states (sh_insert inode (mk_inode_state (open_references state - 1) (orphaned state))
                                  (inode_states c)) c)
           else if negb (orphaned state) then
             (inr last_reference, set_inode_states (sh_erase inode (inode_states c)) c)
           else (inr delete_orphan, c)
       end.

(** ** Arbiters and lock order *)

(** [range_for]: the arbiter of an inode, made on first use.  [state_range] selects
    [inode_state_ranges_] instead of [data_ranges_]. *)
Definition range_for (alloc state_range : bool) (inode : Z) (c : NamespaceCoordinator) : (Z + Z) * NamespaceCoordinator :=
  if inode <? 0 then (inl EINVAL, c)
  else
    let ranges := if state_range then inode_state_ranges c else data_ranges c in
    match sh_find inode ranges with
    | Some range => (inr range, c)
    | None =>
        if negb alloc then (inl ENOMEM, c)
        else
          let range := arbiters_made c in
          let ranges := sh_insert inode range ranges in
          (inr range,
           mk_coordinator (if state_range then data_ranges c else ranges)
             (if state_range then ranges else inode_state_ranges c) (dentries c) (snapshots c) (inode_states c) (range + 1))
    end.

(** [std::unique] on a sorted array. *)
Fixpoint unique (l : list Z) : list Z :=
  match l with
  | x :: ((y :: _) as l') => if x =? y then unique l' else x :: unique l'
  | l => l
  end.
(** The directories [acquire_ordered] locks, in the order it locks them. *)
Definition lock_order (directories : list Z) : Z + list Z :=
  if bool_decide (directories = []) || (4 <? Z.of_nat (length directories)) then inl EINVAL
  else if existsb (fun inode => inode <? 0) directories then inl EINVAL
  else inr (unique (merge_sort Z.le directories)).

(** ** Nesting of locks *)

(** What the operations of Async/kfs_coroutine_core.cpp lock while they hold other
    locks: the topology gate, the arbiters of directories, the arbiter of a regular
    file, the state of an inode. *)
Inductive resource := r_topology | r_directory (inode : Z) | r_file (inode : Z) | r_state (inode : Z).
(** The nested acquisitions of each operation, outermost first.  Locks that are
    released before the next one is acquired are operations of their own. *)
Inductive operation :=
| op_find_child (topology : bool) (directory : Z)
| op_open (parent : Z) (truncated : option Z)
| op_open_state (parent inode : Z)
| op_read_write (inode : Z)
| op_remove_file (parent child : Z)
| op_remove_directory (parent child : Z)
| op_rename (topology : bool) (directories : list Z) (replaced : option Z)
| op_release (inode : Z).
Definition directory_locks (directories : list Z) : list resource :=
  match lock_order directories with inr l => map r_directory l | inl _ => [] end.
Definition topology_lock (topology : bool) : list resource := if topology then [r_topology] else [].
Definition lock_sequence (op : operation) : list resource :=
  match op with
  | op_find_child topology directory => topology_lock topology ++ directory_locks [directory]
  | op_open parent truncated =>
      directory_locks [parent] ++ match truncated with Some inode => [r_file inode] | None => [] end
  | op_open_state parent inode => directory_locks [parent] ++ [r_state inode]
  | op_read_write inode => [r_file inode]
  | op_remove_file parent child => directory_locks [parent] ++ [r_state child]
  | op_remove_directory parent child => topology_lock true ++ directory_locks [parent; child] ++ [r_state child]
  | op_rename topology directories replaced =>
      topology_lock topology ++ directory_locks directories ++ match replaced with Some inode => [r_state inode] | None => [] end
  | op_release inode => [r_state inode]
  end.

(** The order of resources. *)
Definition resource_lt (r q : resource) : Prop :=
  match r, q with
  | r_topology, r_topology => False
  | r_topology, _ => True
  | r_directory i, r_directory j => i < j
  | r_directory _, (r_file _ | r_state _) => True
  | r_file i, r_file j => i < j
  | r_file _, r_state _ => True
  | r_state i, r_state j => i < j
  | _, _ => False
  end.

Lemma unique_head x l : StronglySorted Z.le (x :: l) -> StronglySorted Z.lt (unique (x :: l)) /\ Forall (fun y => x <= y) (unique (x :: l)).
Proof.
  revert x. induction l as [|y l IH]; intros x H; [split; [repeat constructor|constructor; [lia|constructor]]|].
  apply StronglySorted_inv in H as [H1 H2]. destruct (IH y H1) as [IH1 IH2]. apply Forall_cons in H2 as [H2 _].
  change (unique (x :: y :: l)) with (if x =? y then unique (y :: l) else x :: unique (y :: l)).
  destruct (Z.eqb_spec x y) as [->|Hne]; [done|]. split.
  - constructor; [done|]. eapply Forall_impl; [exact IH2|]. cbn. lia.
  - constructor; [lia|]. eapply Forall_impl; [exact IH2|]. cbn. lia.
Qed.
Lemma unique_sorted l : StronglySorted Z.le l -> StronglySorted Z.lt (unique l).
Proof. destruct l as [|x l]; [constructor|]. intros H. by apply unique_head. Qed.
Lemma directory_locks_sorted directories : StronglySorted resource_lt (directory_locks directories).
Proof.
  unfold directory_locks, lock_order. destruct (_ || _); [constructor|]. destruct (existsb _ _); [constructor|].
  assert (StronglySorted Z.lt (unique (merge_sort Z.le directories))) as H.
  { apply unique_sorted. apply Sorted_StronglySorted; [intros a b c; lia|]. apply Sorted_merge_sort. intros a b. unfold Total. lia. }
  induction H as [|x l _ IH Hx]; cbn [map]; constructor; [done|]. apply Forall_forall. intros r Hr. apply list_elem_of_fmap in Hr as (y & -> & Hy).
  rewrite Forall_forall in Hx. by apply Hx.
Qed.

Lemma sorted_app l1 l2 : StronglySorted resource_lt l1 -> StronglySorted resource_lt l2 ->
  (forall r q, r ∈ l1 -> q ∈ l2 -> resource_lt r q) -> StronglySorted resource_lt (l1 ++ l2).
Proof.
  intros H1 H2 H. induction H1 as [|r l1 H1 IH Hr]; [done|]. cbn [app]. constructor; [apply IH; intros; apply H; [by right|done]|].
  apply Forall_app. split; [done|]. apply Forall_forall. intros q Hq. apply H; [by left|done].
Qed.
Lemma directory_locks_elem directories r : r ∈ directory_locks directories -> exists i, r = r_directory i.
Proof. unfold directory_locks. destruct (lock_order directories); [by intros ?%not_elem_of_nil|]. intros (i & -> & _)%list_elem_of_fmap. by exists i. Qed.
Lemma singleton_sorted r : StronglySorted resource_lt [r].
Proof. repeat constructor. Qed.
Lemma topology_sorted b : StronglySorted resource_lt (topology_lock b).
Proof. destruct b; repeat constructor. Qed.
Lemma topology_below b r q : r ∈ topology_lock b -> q <> r_topology -> resource_lt r q.
Proof. destruct b; [|by intros ?%not_elem_of_nil]. intros ->%list_elem_of_singleton. by destruct q. Qed.
Lemma directories_below directories r q : r ∈ directory_locks directories -> (exists i, q = r_file i \/ q = r_state i) -> resource_lt r q.
Proof. intros (i & ->)%directory_locks_elem (j & [-> | ->]); done. Qed.

(** Every operation acquires its locks in the order of resources. *)
Lemma lock_sequence_sorted op : StronglySorted resource_lt (lock_sequence op).
Proof.
  assert (forall directories o, StronglySorted resource_lt (directory_locks directories ++ match o with Some i => [r_state i] | None => [] end)) as Hds.
  { intros directories o. apply sorted_app; [apply directory_locks_sorted|destruct o; repeat constructor|]. intros r q Hr Hq.
    eapply directories_below; [done|]. destruct o as [i|]; [|by apply not_elem_of_nil in Hq]. apply list_elem_of_singleton in Hq. eauto. }
  assert (forall b directories o, StronglySorted resource_lt (topology_lock b ++ directory_locks directories ++ match o with Some i => [r_state i] | None => [] end)) as Htds.
  { intros b directories o. apply sorted_app; [apply topology_sorted|done|]. intros r q Hr Hq. eapply topology_below; [done|]. intros ->.
    apply elem_of_app in Hq as [(i & ?)%directory_locks_elem|Hq]; [done|]. destruct o; [by apply list_elem_of_singleton in Hq|by apply not_elem_of_nil in Hq]. }
  destruct op as [b directory|parent [inode|]|parent inode|inode|parent child|parent child|b directories replaced|inode]; cbn [lock_sequence].
  - pose proof (Htds b [directory] None) as H. by rewrite app_nil_r in H.
  - apply sorted_app; [apply directory_locks_sorted|apply singleton_sorted|]. intros r q Hr ->%list_elem_of_singleton. eapply directories_below; eauto.
  - rewrite app_nil_r. apply directory_locks_sorted.
  - apply (Hds [parent] (Some inode)).
  - apply singleton_sorted.
  - apply (Hds [parent] (Some child)).
  - apply (Htds true [parent; child] (Some child)).
  - apply Htds.
  - apply singleton_sorted.
Qed.

(** A task has acquired the first locks of its operation and waits for the next
    one; requests wait behind holders and behind earlier requests. *)
Record task := mk_task { t_operation : operation; t_held : nat; t_ticket : Z }.
Definition holds (t : task) (r : resource) : Prop := r ∈ take (t_held t) (lock_sequence (t_operation t)).
Definition waits (t : task) (r : resource) : Prop := lock_sequence (t_operation t) !! t_held t = Some r.
Definition blocked_by (t u : task) : Prop := exists r, waits t r /\ (holds u r \/ (waits u r /\ t_ticket u < t_ticket t)).

Lemma resource_lt_trans r q s : resource_lt r q -> resource_lt q s -> resource_lt r s.
Proof. destruct r, q, s; cbn; lia || done. Qed.
Lemma resource_lt_irrefl r : ~ resource_lt r r.
Proof. destruct r; cbn; lia || done. Qed.
Lemma sorted_take l n r q : StronglySorted resource_lt l -> r ∈ take n l -> l !! n = Some q -> resource_lt r q.
Proof.
  intros H. revert n. induction H as [|x l H IH Hx]; intros [|n] Hr Hq; cbn in *; try done; [by apply not_elem_of_nil in Hr|].
  apply elem_of_cons in Hr as [->|Hr]; [|by apply (IH n)]. rewrite Forall_forall in Hx. apply Hx. by eapply list_elem_of_lookup_2.
Qed.
Lemma maximal_elem {A} (R : A -> A -> Prop) (l : list A) : (forall x, ~ R x x) -> (forall x y z, R x y -> R y z -> R x z) -> l <> [] ->
  (forall x y, x ∈ l -> y ∈ l -> R x y \/ ~ R x y) -> exists x, x ∈ l /\ forall y, y ∈ l -> ~ R x y.
Proof.
  intros Hi Ht. induction l as [|x l IH]; intros Hne Hd; [done|]. destruct (decide (l = [])) as [->|Hl].
  - exists x. split; [by left|]. intros y ->%list_elem_of_singleton. apply Hi.
  - destruct IH as (m & Hm & Hmax); [done|intros; apply Hd; by right|]. destruct (Hd m x) as [Hr|Hr]; [by right|by left|..].
    + exists x. split; [by left|]. intros y [->|Hy]%elem_of_cons; [apply Hi|]. intros Hxy. apply (Hmax y Hy). by eapply Ht.
    + exists m. split; [by right|]. intros y [->|Hy]%elem_of_cons; [done|by apply Hmax].
Qed.

#[export] Instance resource_lt_dec r q : Decision (resource_lt r q).
Proof. destruct r, q; cbn; apply _. Defined.
#[export] Instance resource_eq_dec : EqDecision resource.
Proof. solve_decision. Defined.
(** A waiting task is behind another when that one waits for a later resource or
    has the older ticket for the same one. *)
Definition behind (t u : task) : Prop :=
  match lock_sequence (t_operation t) !! t_held t, lock_sequence (t_operation u) !! t_held u with
  | Some r, Some q => resource_lt r q \/ (r = q /\ t_ticket u < t_ticket t)
  | _, _ => False
  end.
Lemma behind_irrefl t : ~ behind t t.
Proof. unfold behind. destruct (lock_sequence (t_operation t) !! t_held t) as [r|]; [|tauto]. intros [H|[_ H]]; [by apply resource_lt_irrefl in H|lia]. Qed.
Lemma behind_trans t u v : behind t u -> behind u v -> behind t v.
Proof.
  unfold behind. destruct (lock_sequence (t_operation t) !! t_held t) as [r|], (lock_sequence (t_operation u) !! t_held u) as [q|],
    (lock_sequence (t_operation v) !! t_held v) as [s|]; try done.
  intros [H|[-> H]] [H'|[-> H']]; [left; by eapply resource_lt_trans|by left|by left|right; split; [done|lia]].
Qed.
Lemma blocked_behind t u q : blocked_by t u -> waits u q -> behind t u.
Proof.
  intros (r & Hr & H) Hq. unfold behind, waits in *. rewrite Hr, Hq. destruct H as [H|[H Ht]].
  - left. eapply sorted_take; [apply lock_sequence_sorted|exact H|exact Hq].
  - right. unfold waits in H. split; [congruence|done].
Qed.

