(* ===== verification/DataPath.v ===== *)
(** * The data path (Async/kfs_coroutine_core.cpp: read_unlocked, write_unlocked)

    A file is a sequence of 32 KiB blocks, each on the SSD, in eight pages of
    persistent memory (a virtual block), or on the SSD with pages of persistent
    memory that hold newer bytes of parts of it (a strata block).  For each page of a
    strata block a buffer of metadata lists up to twelve segments of the page whose
    bytes are in persistent memory.

    A write collects the writes to the SSD, to persistent memory and to the metadata
    of all its blocks, reads and merges what has to be merged, and then carries them
    out.  The device and the file's index are arguments: [lookup] and [prepare] give
    the blocks, [ensure] makes a strata block, error numbers say what fails. *)

From stdpp Require Import base tactics numbers list sorting.
From Stdlib Require Import ZArith Lia Sorted.
From S2P Require Import Prelude Bytes Layout Pmem.
Open Scope Z_scope.

Definition kPageSize : Z := 4096.
Definition kBlockSize : Z := 32 * 1024.
Definition kBufferMetadataSize : Z := 128.
Definition kBufferMetadataEntries : Z := kBufferMetadataSize / 2.
Definition kMaximumBufferSegments : Z := 12.
Definition kStrataSsdPageThreshold : Z := 6.
Definition kPipelinedWriteThreshold : Z := 256 * 1024.
Definition kMaximumFileSize : Z := Z.shiftl 1 (42 + 15).

Definition ORCHFS_CORE_DIRECTORY : Z := 1.
Definition ORCHFS_CORE_REGULAR : Z := 2.
Definition ORCHFS_CORE_VIRTUAL_BLOCK : Z := 3.
Definition ORCHFS_CORE_STRATA_BLOCK : Z := 4.
Definition ORCHFS_CORE_SSD_BLOCK : Z := 5.
Definition ORCHFS_CORE_PAGE_COUNT : Z := 8.

Record orchfs_core_block := mk_core_block {
  cb_type : Z;
  ssd_device_offset : Z;
  nvm_page_offset : Z -> Z;
  buffer_metadata_offset : Z -> Z;
  cb_file_block : Z;
}.

(** Persistent memory and the SSD. *)
Record data := mk_data { dp_nvm : pmem; dp_ssd : pmem }.

(** ** Persistent memory and its metadata *)

Definition valid_pmem_range (offset length : Z) : bool :=
  (0 <=? offset) && (offset <=? PMEM_LEN) && (length <=? PMEM_LEN - offset).
Definition orchfs_core_read_pmem (m : pmem) (offset length : Z) : Z + list Z :=
  if negb (valid_pmem_range offset length) then inl EINVAL else inr (nvm_read m length offset).
Definition orchfs_core_write_pmem (m : pmem) (offset : Z) (source : list Z) : Z + pmem :=
  if negb (valid_pmem_range offset (len source)) then inl EINVAL else inr (nvm_write m source offset).

(** Metadata is an array of 64 [int16_t]. *)
Definition s16 (z : Z) : Z := (z + 2 ^ 15) mod 2 ^ 16 - 2 ^ 15.
Definition metadata_dec (bytes : list Z) : list Z :=
  map (fun i => s16 (le_val (slice (2 * Z.of_nat i) 2 bytes))) (seq 0 (Z.to_nat kBufferMetadataEntries)).
Definition metadata_enc (values : list Z) : list Z := concat (map (le_bytes 2) values).
Definition md (values : list Z) (i : Z) : Z := nth (Z.to_nat i) values 0.
Definition md_set (values : list Z) (i v : Z) : list Z := <[Z.to_nat i := s16 v]> values.
Definition no_metadata : list Z := replicate (Z.to_nat kBufferMetadataEntries) 0.

Definition read_metadata (m : pmem) (offset : Z) : Z + list Z :=
  if offset <? 0 then inl EIO
  else match orchfs_core_read_pmem m offset kBufferMetadataSize with
       | inl error => inl error
       | inr bytes =>
           let metadata := metadata_dec bytes in
           if (md metadata 0 <? 0) || (kMaximumBufferSegments <? md metadata 0) then inl EIO else inr metadata
       end.

(** [memcpy] into a buffer. *)
Definition patch (buffer : list Z) (start : Z) (bytes : list Z) : list Z :=
  take (Z.to_nat start) buffer ++ bytes ++ drop (Z.to_nat (start + len bytes)) buffer.

(** The loop of [overlay_page], from a segment on. *)
Fixpoint overlay_segments (n : nat) (segment : Z) (cached metadata destination : list Z) : Z + list Z :=
  match n with
  | O => inr destination
  | S n' =>
      let start := md metadata (1 + segment * 2) in
      let length := md metadata (2 + segment * 2) in
      if (start <? 0) || (length <? 0) || (len destination <? start) || (len destination - start <? length) then inl EIO
      else overlay_segments n' (segment + 1) cached metadata (patch destination start (slice start length cached))
  end.
Definition overlay_page (m : pmem) (destination : list Z) (nvm_offset : Z) (metadata : list Z) : Z + list Z :=
  if (nvm_offset <? 0) || negb (len destination =? kPageSize) then inl EIO
  else match orchfs_core_read_pmem m nvm_offset kPageSize with
       | inl error => inl error
       | inr cached => overlay_segments (Z.to_nat (md metadata 0)) 0 cached metadata destination
       end.

(** The parts of [chunk] bytes at [inside] of a block, page by page: page, position
    in the page, length, bytes before it. *)
Fixpoint page_parts (fuel : nat) (inside chunk page_consumed : Z) : list (Z * Z * Z * Z) :=
  match fuel with
  | O => []
  | S fuel' =>
      if page_consumed <? chunk then
        let position := inside + page_consumed in
        let page := position / kPageSize in
        let in_page := position mod kPageSize in
        let part := Z.min (chunk - page_consumed) (kPageSize - in_page) in
        (page, in_page, part, page_consumed) :: page_parts fuel' inside chunk (page_consumed + part)
      else []
  end.
Definition parts_of (inside chunk : Z) : list (Z * Z * Z * Z) := page_parts 9 inside chunk 0.

(** ** Reading *)

(** What a block contributes to a read: bytes of persistent memory, a whole block of
    the SSD, or part of a block read into a scratch buffer. *)
Inductive read_item :=
| r_bytes (bytes : list Z)
| r_ssd (offset : Z)
| r_scratch (block : orchfs_core_block) (block_offset length : Z).

Fixpoint read_parts (m : pmem) (block : orchfs_core_block) (parts : list (Z * Z * Z * Z)) : Z + list Z :=
  match parts with
  | [] => inr []
  | (page, in_page, part, _) :: rest =>
      if (ORCHFS_CORE_PAGE_COUNT <=? page) || (nvm_page_offset block page <? 0) then inl EIO
      else match orchfs_core_read_pmem m (nvm_page_offset block page + in_page) part with
           | inl error => inl error
           | inr bytes => match read_parts m block rest with inl error => inl error | inr l => inr (bytes ++ l) end
           end
  end.

Definition plan_read (m : pmem) (block : orchfs_core_block) (inside chunk : Z) : Z + read_item :=
  if cb_type block =? ORCHFS_CORE_VIRTUAL_BLOCK then
    match read_parts m block (parts_of inside chunk) with inl error => inl error | inr l => inr (r_bytes l) end
  else if (cb_type block =? ORCHFS_CORE_SSD_BLOCK) && (inside =? 0) && (chunk =? kBlockSize) then
    inr (r_ssd (u64 (ssd_device_offset block)))
  else if (cb_type block =? ORCHFS_CORE_SSD_BLOCK) || (cb_type block =? ORCHFS_CORE_STRATA_BLOCK) then
    if ssd_device_offset block <? 0 then inl EIO else inr (r_scratch block inside chunk)
  else inl EIO.

(** The overlay of all pages of a strata block on the block read from the SSD. *)
Fixpoint overlay_pages (m : pmem) (mapping : orchfs_core_block) (pages : list Z) (block : list Z) : Z + list Z :=
  match pages with
  | [] => inr block
  | page :: rest =>
      if nvm_page_offset mapping page <? 0 then overlay_pages m mapping rest block
      else match read_metadata m (buffer_metadata_offset mapping page) with
           | inl error => inl error
           | inr metadata =>
               match overlay_page m (slice (page * kPageSize) kPageSize block) (nvm_page_offset mapping page) metadata with
               | inl error => inl error
               | inr bytes => overlay_pages m mapping rest (patch block (page * kPageSize) bytes)
               end
           end
  end.
Definition all_pages : list Z := [0; 1; 2; 3; 4; 5; 6; 7].

Definition finish_read (d : data) (item : read_item) : Z + list Z :=
  match item with
  | r_bytes l => inr l
  | r_ssd offset => inr (nvm_read (dp_ssd d) kBlockSize offset)
  | r_scratch mapping block_offset length =>
      let block := nvm_read (dp_ssd d) kBlockSize (ssd_device_offset mapping) in
      match (if cb_type mapping =? ORCHFS_CORE_STRATA_BLOCK then overlay_pages (dp_nvm d) mapping all_pages block
             else inr block) with
      | inl error => inl error
      | inr block => inr (slice block_offset length block)
      end
  end.
Definition needs_device (item : read_item) : bool := match item with r_bytes _ => false | _ => true end.

(** The loop over the blocks of a read. *)
Fixpoint plan_reads (d : data) (lookup : Z -> Z + orchfs_core_block) (n : nat) (block_index offset length consumed : Z)
    : Z + list read_item :=
  match n with
  | O => inr []
  | S n' =>
      match lookup block_index with
      | inl error => inl error
      | inr block =>
          let logical_start := block_index * kBlockSize in
          let inside := Z.max offset logical_start - logical_start in
          let chunk := Z.min (kBlockSize - inside) (length - consumed) in
          match plan_read (dp_nvm d) block inside chunk with
          | inl error => inl error
          | inr item =>
              match plan_reads d lookup n' (block_index + 1) offset length (consumed + chunk) with
              | inl error => inl error
              | inr items => inr (item :: items)
              end
          end
      end
  end.
Fixpoint finish_reads (d : data) (items : list read_item) : Z + list Z :=
  match items with
  | [] => inr []
  | item :: rest =>
      match finish_read d item with
      | inl error => inl error
      | inr bytes => match finish_reads d rest with inl error => inl error | inr l => inr (bytes ++ l) end
      end
  end.

(** [read_unlocked] of a file of the given type and size; [extents_error] and
    [device_error] are the outcomes of [extents_for], which regular files use, and of
    the batch of device reads.  Allocation of the buffers does not fail here. *)
Definition read_unlocked (d : data) (type size : Z) (extents_error : Z) (lookup : Z -> Z + orchfs_core_block)
    (device_error : Z) (offset wanted : Z) : Z + list Z :=
  if negb (type =? ORCHFS_CORE_REGULAR) && negb (type =? ORCHFS_CORE_DIRECTORY) then inl EIO
  else if size <? 0 then inl EIO
  else if (size <=? offset) || (wanted =? 0) then inr []
  else if (type =? ORCHFS_CORE_REGULAR) && negb (extents_error =? 0) then inl extents_error
  else
    let length := Z.min wanted (size - offset) in
    let first_block := offset / kBlockSize in
    let last_block := (offset + length - 1) / kBlockSize in
    match plan_reads d lookup (Z.to_nat (last_block - first_block + 1)) first_block offset length 0 with
    | inl error => inl error
    | inr items =>
        if existsb needs_device items && negb (device_error =? 0) then inl device_error else finish_reads d items
    end.

(** ** Writing *)

Record MergePage := mk_merge_page { mp_ssd_offset : Z; mp_nvm_offset : Z; mp_metadata : list Z }.
Record DirectSsdMerge := mk_direct_merge { dm_ssd_offset : Z; dm_inside : Z; dm_source : list Z }.

(** What a write has collected: writes to the SSD, to persistent memory and to
    metadata, pages and blocks to merge. *)
Record plan := mk_plan {
  writes : list (Z * list Z);
  pmem_writes : list (Z * list Z);
  metadata_writes : list (Z * list Z);
  merges : list MergePage;
  direct_ssd_merges : list DirectSsdMerge;
}.
Definition empty_plan : plan := mk_plan [] [] [] [] [].
Definition add_plan (p q : plan) : plan :=
  mk_plan (writes p ++ writes q) (pmem_writes p ++ pmem_writes q) (metadata_writes p ++ metadata_writes q)
    (merges p ++ merges q) (direct_ssd_merges p ++ direct_ssd_merges q).

Fixpoint plan_virtual (block : orchfs_core_block) (input : list Z) (parts : list (Z * Z * Z * Z)) : Z + plan :=
  match parts with
  | [] => inr empty_plan
  | (page, in_page, part, page_consumed) :: rest =>
      if (ORCHFS_CORE_PAGE_COUNT <=? page) || (nvm_page_offset block page <? 0) then inl EIO
      else match plan_virtual block input rest with
           | inl error => inl error
           | inr p => inr (add_plan (mk_plan [] [(nvm_page_offset block page + in_page, slice page_consumed part input)]
                                       [] [] []) p)
           end
  end.

(** One part of a strata block. *)
Definition plan_strata_part (m : pmem) (block : orchfs_core_block) (input : list Z) (write_full_pages_to_ssd : bool)
    (page in_page part page_consumed : Z) : Z + plan :=
  if (ORCHFS_CORE_PAGE_COUNT <=? page) || (nvm_page_offset block page <? 0) || (buffer_metadata_offset block page <? 0)
  then inl EIO
  else match read_metadata m (buffer_metadata_offset block page) with
       | inl error => inl error
       | inr metadata =>
           let bytes := slice page_consumed part input in
           let ssd_offset := ssd_device_offset block + page * kPageSize in
           if write_full_pages_to_ssd && (in_page =? 0) && (part =? kPageSize) then
             inr (mk_plan [(u64 ssd_offset, bytes)] []
                    [(buffer_metadata_offset block page, metadata_enc no_metadata)] [] [])
           else
             let full := md metadata 0 =? kMaximumBufferSegments in
             let merge := mk_merge_page ssd_offset (nvm_page_offset block page) metadata in
             let metadata := if full then no_metadata else metadata in
             let segment := md metadata 0 in
             let metadata := md_set metadata 0 (segment + 1) in
             let metadata := md_set metadata (1 + segment * 2) in_page in
             let metadata := md_set metadata (2 + segment * 2) part in
             inr (mk_plan [] [(nvm_page_offset block page + in_page, bytes)]
                    [(buffer_metadata_offset block page, metadata_enc metadata)] (if full then [merge] else []) [])
       end.
Fixpoint plan_strata (m : pmem) (block : orchfs_core_block) (input : list Z) (write_full_pages_to_ssd : bool)
    (parts : list (Z * Z * Z * Z)) : Z + plan :=
  match parts with
  | [] => inr empty_plan
  | (page, in_page, part, page_consumed) :: rest =>
      match plan_strata_part m block input write_full_pages_to_ssd page in_page part page_consumed with
      | inl error => inl error
      | inr p => match plan_strata m block input write_full_pages_to_ssd rest with
                 | inl error => inl error
                 | inr q => inr (add_plan p q)
                 end
      end
  end.

Definition plan_write (m : pmem) (block : orchfs_core_block) (inside chunk : Z) (input : list Z) : Z + plan :=
  if cb_type block =? ORCHFS_CORE_SSD_BLOCK then
    if (ssd_device_offset block <? 0) || (UINT64_MAX - inside <? ssd_device_offset block) then inl EIO
    else if (inside =? 0) && (chunk =? kBlockSize) then inr (mk_plan [(ssd_device_offset block, input)] [] [] [] [])
    else inr (mk_plan [] [] [] [] [mk_direct_merge (ssd_device_offset block) inside input])
  else if cb_type block =? ORCHFS_CORE_VIRTUAL_BLOCK then plan_virtual block input (parts_of inside chunk)
  else if cb_type block =? ORCHFS_CORE_STRATA_BLOCK then
    if ssd_device_offset block <? 0 then inl EIO
    else if (inside =? 0) && (chunk =? kBlockSize) then
      inr (mk_plan [(ssd_device_offset block, input)] []
             (map (fun page => (buffer_metadata_offset block page, metadata_enc no_metadata))
                (filter (fun page => 0 <= buffer_metadata_offset block page) all_pages)) [] [])
    else
      let first_full_page := (inside + kPageSize - 1) / kPageSize in
      let full_page_end := (inside + chunk) / kPageSize in
      let full_page_count := if first_full_page <? full_page_end then full_page_end - first_full_page else 0 in
      plan_strata m block input (kStrataSsdPageThreshold <=? full_page_count) (parts_of inside chunk)
  else inl EIO.

(** Whether [ensure_strata] is called for a block. *)
Definition needs_strata (stable : bool) (block : orchfs_core_block) (inside chunk : Z) : bool :=
  ((cb_type block =? ORCHFS_CORE_SSD_BLOCK) || (cb_type block =? ORCHFS_CORE_STRATA_BLOCK)) &&
  (negb (inside =? 0) || negb (chunk =? kBlockSize)) &&
  negb (stable && (cb_type block =? ORCHFS_CORE_SSD_BLOCK)).

(** The loop over the blocks of a write.  [ensure] also changes persistent memory:
    it gives the metadata of new pages its first value. *)
Fixpoint plan_writes (m : pmem) (stable : bool) (blocks : Z -> orchfs_core_block)
    (ensure : Z -> Z -> Z -> pmem -> Z + orchfs_core_block * pmem)
    (n : nat) (block_index offset consumed : Z) (source : list Z) : Z + plan * pmem :=
  match n with
  | O => inr (empty_plan, m)
  | S n' =>
      let logical_start := block_index * kBlockSize in
      let inside := Z.max offset logical_start - logical_start in
      let chunk := Z.min (len source - consumed) (kBlockSize - inside) in
      let block := blocks block_index in
      match (if needs_strata stable block inside chunk then ensure block_index inside chunk m else inr (block, m)) with
      | inl error => inl error
      | inr (block, m) =>
          match plan_write m block inside chunk (slice consumed chunk source) with
          | inl error => inl error
          | inr p =>
              match plan_writes m stable blocks ensure n' (block_index + 1) offset (consumed + chunk) source with
              | inl error => inl error
              | inr (q, m) => inr (add_plan p q, m)
              end
          end
      end
  end.

Definition write_all (m : pmem) (ws : list (Z * list Z)) : pmem := fold_left (fun m w => nvm_write m w.2 w.1) ws m.

(** The merged pages and blocks, from the SSD as it was read. *)
Fixpoint merge_pages (d : data) (l : list MergePage) : Z + list (Z * list Z) :=
  match l with
  | [] => inr []
  | merge :: rest =>
      match overlay_page (dp_nvm d) (nvm_read (dp_ssd d) kPageSize (u64 (mp_ssd_offset merge))) (mp_nvm_offset merge)
              (mp_metadata merge) with
      | inl error => inl error
      | inr page => match merge_pages d rest with
                    | inl error => inl error
                    | inr ws => inr ((u64 (mp_ssd_offset merge), page) :: ws)
                    end
      end
  end.
Definition merge_direct (d : data) (merge : DirectSsdMerge) : Z * list Z :=
  (dm_ssd_offset merge, patch (nvm_read (dp_ssd d) kBlockSize (dm_ssd_offset merge)) (dm_inside merge) (dm_source merge)).

Fixpoint pmem_all (m : pmem) (ws : list (Z * list Z)) : Z + pmem :=
  match ws with
  | [] => inr m
  | (offset, source) :: rest =>
      match orchfs_core_write_pmem m offset source with inl error => inl error | inr m => pmem_all m rest end
  end.

(** What can fail while a plan is carried out; [we_early] says whether a pipelined
    batch of writes reaches the SSD before the blocks to merge are read. *)
Record write_env := mk_write_env {
  we_early : bool; we_pipelined : Z; we_read : Z; we_write : Z; we_metadata : Z; we_persist : Z; we_size : Z; we_commit : Z;
}.
Definition batch_bytes (ws : list (Z * list Z)) : Z := fold_right (fun w n => len w.2 + n) 0 ws.

(** From the reads of the merge to the fence; the metadata is in the transaction.
    After an error the content of the device is not described. *)
Definition execute_plan (e : write_env) (d : data) (p : plan) : Z + data :=
  let merging := negb (bool_decide (merges p = [])) || negb (bool_decide (direct_ssd_merges p = [])) in
  let pipelined := merging && (kPipelinedWriteThreshold <=? batch_bytes (writes p)) in
  let after := mk_data (dp_nvm d) (write_all (dp_ssd d) (writes p)) in
  if merging && negb (we_read e =? 0) then inl (we_read e)
  else if pipelined && negb (we_pipelined e =? 0) then inl (we_pipelined e)
  else
    match merge_pages (if pipelined && we_early e then after else d) (merges p) with
    | inl error => inl error
    | inr merged =>
        let direct := map (merge_direct (if pipelined && we_early e then after else d)) (direct_ssd_merges p) in
        let d := if pipelined then after else d in
        let ws := (if pipelined then [] else writes p) ++ merged ++ direct in
        if negb (bool_decide (ws = [])) && negb (we_write e =? 0) then inl (we_write e)
        else
          match pmem_all (dp_nvm d) (pmem_writes p) with
          | inl error => inl error
          | inr m =>
              if negb (bool_decide (metadata_writes p = [])) && negb (we_metadata e =? 0) then inl (we_metadata e)
              else if negb (we_persist e =? 0) then inl (we_persist e)
              else inr (mk_data (write_all m (metadata_writes p)) (write_all (dp_ssd d) ws))
          end
    end.

(** [stable_overwrite]: the write stays on the blocks of the snapshot. *)
Definition stable_block (direct : bool) (offset end_ block_index : Z) (mapped : Z + orchfs_core_block) : bool :=
  let logical_start := block_index * kBlockSize in
  let inside := Z.max offset logical_start - logical_start in
  let chunk := Z.min end_ (logical_start + kBlockSize) - Z.max offset logical_start in
  match mapped with
  | inl _ => false
  | inr block =>
      (cb_type block =? ORCHFS_CORE_VIRTUAL_BLOCK) ||
      ((cb_type block =? ORCHFS_CORE_SSD_BLOCK) && ((inside =? 0) && (chunk =? kBlockSize) || direct))
  end.
Definition block_aligned_overwrite (offset length : Z) : bool := (offset mod kBlockSize =? 0) && (length mod kBlockSize =? 0).
Definition maybe_stable (append : bool) (size offset length : Z) : bool :=
  let cached_partial_overwrite := length <=? kBlockSize in
  let direct_ssd_partial_overwrite := kBlockSize <? length in
  negb append && (offset + length <=? size) &&
  (block_aligned_overwrite offset length || cached_partial_overwrite || direct_ssd_partial_overwrite).
(** The stable path uses the extent snapshot, or else queries the index. *)
Definition uses_extents (append : bool) (size offset length : Z) : bool :=
  maybe_stable append size offset length && (negb (kBlockSize <? length) || block_aligned_overwrite offset length).
Definition stable_overwrite (lookup : Z -> Z + orchfs_core_block) (append : bool) (size offset length : Z) : bool :=
  let end_ := offset + length in
  let first_block := offset / kBlockSize in
  let last_block := (end_ - 1) / kBlockSize in
  let direct_ssd_partial_overwrite := kBlockSize <? length in
  maybe_stable append size offset length &&
  forallb (fun i => stable_block direct_ssd_partial_overwrite offset end_ (first_block + Z.of_nat i)
                      (lookup (first_block + Z.of_nat i))) (seq 0 (Z.to_nat (last_block - first_block + 1))).

(** [write_unlocked] of a regular file: bytes written, offset, device and size after
    it.  [prepare] stands for [orchfs_core_prepare_write_blocks]. *)
Definition write_unlocked (e : write_env) (d : data) (type size : Z) (extents_error : Z) (lookup : Z -> Z + orchfs_core_block)
    (transaction_error : Z) (prepare : Z + (Z -> orchfs_core_block))
    (ensure : Z -> Z -> Z -> pmem -> Z + orchfs_core_block * pmem)
    (requested_offset : Z) (source : list Z) (append : bool) : Z + Z * Z * data * Z :=
  if negb (type =? ORCHFS_CORE_REGULAR) then inl EISDIR
  else if size <? 0 then inl EIO
  else
    let offset := if append then size else requested_offset in
    if (size <? offset) || (len source =? 0) then inr (0, offset, d, size)
    else if (kMaximumFileSize <? offset) || (kMaximumFileSize - offset <? len source) then inl EFBIG
    else if uses_extents append size offset (len source) && negb (extents_error =? 0) then inl extents_error
    else
      let end_ := offset + len source in
      let first_block := offset / kBlockSize in
      let last_block := (end_ - 1) / kBlockSize in
      let n := Z.to_nat (last_block - first_block + 1) in
      let stable := stable_overwrite lookup append size offset (len source) in
      let blocks :=
        if stable then inr (fun k => match lookup k with inr b => b | inl _ => mk_core_block 0 0 (fun _ => 0) (fun _ => 0) 0 end)
        else if negb (transaction_error =? 0) then inl transaction_error else prepare in
      match blocks with
      | inl error => inl error
      | inr blocks =>
          match plan_writes (dp_nvm d) stable blocks ensure n first_block offset 0 source with
          | inl error => inl error
          | inr (p, m) =>
              match execute_plan e (mk_data m (dp_ssd d)) p with
              | inl error => inl error
              | inr d =>
                  if (size <? end_) && negb (we_size e =? 0) then inl (we_size e)
                  else if negb stable && negb (we_commit e =? 0) then inl (we_commit e)
                  else inr (len source, offset, d, Z.max size end_)
              end
          end
      end.

(** ** Buffers and metadata *)

Lemma len_patch l s b : 0 <= s -> s + len b <= len l -> len (patch l s b) = len l.
Proof. unfold patch. intros. rewrite !len_app. unfold len in *. rewrite length_take, length_drop. lia. Qed.
Lemma byte_at_patch l s b i : 0 <= s -> s + len b <= len l -> 0 <= i ->
  byte_at (patch l s b) i = if in_range i s (len b) then byte_at b (i - s) else byte_at l i.
Proof.
  intros Hs Hl Hi. unfold patch, byte_at, len in *. destruct (in_rangeP i s (Z.of_nat (length b))) as [H|H].
  - rewrite app_nth2; rewrite length_take; [|lia]. rewrite app_nth1 by lia. f_equal. lia.
  - destruct (Z.lt_ge_cases i s).
    + rewrite app_nth1 by (rewrite length_take; lia). rewrite !nth_lookup. by rewrite lookup_take_lt by lia.
    + rewrite app_nth2 by (rewrite length_take; lia). rewrite length_take, app_nth2 by lia.
      rewrite !nth_lookup, lookup_drop. do 2 f_equal. lia.
Qed.

(** A position of a page lies in a segment. *)
Definition segment_has (metadata : list Z) (x : Z) (s : Z) : bool :=
  in_range x (md metadata (1 + s * 2)) (md metadata (2 + s * 2)).
Definition in_segments (metadata : list Z) (x : Z) : bool :=
  existsb (fun s => segment_has metadata x (Z.of_nat s)) (seq 0 (Z.to_nat (md metadata 0))).
(** The segments of a page are inside it, and there are at most twelve. *)
Definition metadata_ok (metadata : list Z) : Prop :=
  length metadata = 64%nat /\ 0 <= md metadata 0 <= kMaximumBufferSegments /\
  forall s, 0 <= s < md metadata 0 -> 0 <= md metadata (1 + s * 2) /\ 0 <= md metadata (2 + s * 2) /\
    md metadata (1 + s * 2) + md metadata (2 + s * 2) <= kPageSize.

Lemma overlay_segments_spec n : forall seg cached metadata dest, metadata_ok metadata -> 0 <= seg ->
  seg + Z.of_nat n <= md metadata 0 -> len dest = kPageSize -> len cached = kPageSize ->
  exists out, overlay_segments n seg cached metadata dest = inr out /\ len out = kPageSize /\
    forall x, 0 <= x < kPageSize -> byte_at out x =
      if existsb (fun s => segment_has metadata x (Z.of_nat s)) (seq (Z.to_nat seg) n) then byte_at cached x else byte_at dest x.
Proof.
  induction n as [|n IH]; intros seg cached metadata dest Hok Hs Hn Hd Hc; cbn [overlay_segments].
  { exists dest. split; [done|]. split; [done|]. intros x Hx. done. }
  destruct (proj2 (proj2 Hok) seg ltac:(lia)) as (H1 & H2 & H3).
  set (start := md metadata (1 + seg * 2)) in *. set (length := md metadata (2 + seg * 2)) in *.
  rewrite (proj2 (Z.ltb_ge start 0)), (proj2 (Z.ltb_ge length 0)), (proj2 (Z.ltb_ge (len dest) start)),
    (proj2 (Z.ltb_ge (len dest - start) length)) by lia. cbn [orb].
  assert (len (slice start length cached) = length) as Hsl by (apply len_slice; lia).
  destruct (IH (seg + 1) cached metadata (patch dest start (slice start length cached))) as (out & -> & Hlo & Ho);
    [done|lia|lia|rewrite len_patch; lia|done|].
  exists out. split; [done|]. split; [done|]. intros x Hx. rewrite (Ho x Hx). cbn [seq existsb].
  replace (Z.to_nat (seg + 1)) with (S (Z.to_nat seg)) by lia. destruct (existsb _ (seq (S (Z.to_nat seg)) n)) eqn:E.
  - by rewrite orb_true_r.
  - rewrite orb_false_r. rewrite byte_at_patch by lia. rewrite Hsl. unfold segment_has. rewrite Z2Nat.id by lia.
    fold start length. destruct (in_rangeP x start length) as [H|H]; [|done].
    rewrite byte_at_slice by lia. f_equal. lia.
Qed.

Lemma valid_pmem_range_spec o n : valid_pmem_range o n = true <-> 0 <= o /\ o <= PMEM_LEN /\ n <= PMEM_LEN - o.
Proof. unfold valid_pmem_range. rewrite !andb_true_iff, !Z.leb_le. tauto. Qed.
Definition pmem_range (o n : Z) : Prop := 0 <= o /\ o + n <= PMEM_LEN.
Lemma read_pmem_ok m o n : pmem_range o n -> 0 <= n -> orchfs_core_read_pmem m o n = inr (nvm_read m n o).
Proof.
  intros [H1 H2] Hn. unfold orchfs_core_read_pmem. rewrite (proj2 (valid_pmem_range_spec o n)); [done|]. lia.
Qed.
Lemma write_pmem_ok m o l : pmem_range o (len l) -> orchfs_core_write_pmem m o l = inr (nvm_write m l o).
Proof.
  intros [H1 H2]. unfold orchfs_core_write_pmem. rewrite (proj2 (valid_pmem_range_spec o (len l))); [done|].
  pose proof (len_nonneg l). lia.
Qed.

(** The overlay of a page: bytes of segments from persistent memory, the others kept. *)
Lemma overlay_page_spec m dest o metadata : metadata_ok metadata -> pmem_range o kPageSize -> len dest = kPageSize ->
  exists out, overlay_page m dest o metadata = inr out /\ len out = kPageSize /\
    forall x, 0 <= x < kPageSize -> byte_at out x = if in_segments metadata x then m (o + x) else byte_at dest x.
Proof.
  intros Hok Ho Hd. unfold overlay_page. rewrite (proj2 (Z.ltb_ge o 0)) by apply Ho. rewrite Hd, Z.eqb_refl. cbn [orb negb].
  rewrite read_pmem_ok by (done || (unfold kPageSize; lia)).
  assert (0 <= md metadata 0) as Hn by apply Hok.
  destruct (overlay_segments_spec (Z.to_nat (md metadata 0)) 0 (nvm_read m kPageSize o) metadata dest) as (out & -> & Hl & H);
    [done|lia|lia|done|apply len_nvm_read; unfold kPageSize; lia|].
  exists out. split; [done|]. split; [done|]. intros x Hx. rewrite (H x Hx). unfold in_segments.
  destruct (existsb _ _); [|done]. by apply byte_at_nvm_read.
Qed.

(** Metadata written and read again. *)
Definition s16_range (z : Z) : Prop := - 2 ^ 15 <= z < 2 ^ 15.
Lemma s16_small z : s16_range z -> s16 z = z.
Proof. unfold s16_range, s16. intros. rewrite Z.mod_small; lia. Qed.
Lemma s16_le_bytes z : s16_range z -> s16 (le_val (le_bytes 2 z)) = z.
Proof.
  unfold s16_range, s16. intros. rewrite le_val_bytes. change (256 ^ Z.of_nat 2) with (2 ^ 16).
  rewrite Z.add_mod_idemp_l by lia. rewrite Z.mod_small; lia.
Qed.
Lemma len_metadata_enc l : len (metadata_enc l) = 2 * Z.of_nat (length l).
Proof.
  unfold metadata_enc. induction l as [|x l IH]; [done|]. cbn [map concat length]. rewrite len_app, IH, len_le_bytes. lia.
Qed.
Lemma slice_metadata_enc l : forall (i : nat), (i < length l)%nat ->
  slice (2 * Z.of_nat i) 2 (metadata_enc l) = le_bytes 2 (nth i l 0).
Proof.
  unfold metadata_enc. induction l as [|x l IH]; intros i Hi; [cbn in Hi; lia|]. cbn [map concat].
  pose proof (len_le_bytes 2 x) as Hlx. destruct i as [|i].
  - cbn [nth Z.of_nat]. rewrite slice_app_l by lia. apply slice_all. lia.
  - rewrite slice_app_r by lia. rewrite Hlx. replace (2 * Z.of_nat (S i) - Z.of_nat 2) with (2 * Z.of_nat i) by lia.
    cbn [nth]. apply IH. cbn in Hi. lia.
Qed.
Lemma metadata_dec_enc l : length l = 64%nat -> Forall s16_range l -> metadata_dec (metadata_enc l) = l.
Proof.
  intros Hl Hr. apply (nth_ext _ _ 0 0); [unfold metadata_dec; by rewrite length_map, length_seq|].
  intros n Hn. unfold metadata_dec in *. rewrite length_map, length_seq in Hn. change (Z.to_nat kBufferMetadataEntries) with 64%nat in *.
  rewrite (nth_indep _ 0 (s16 (le_val (slice (2 * Z.of_nat 0) 2 (metadata_enc l))))) by (rewrite length_map, length_seq; lia).
  rewrite (map_nth (fun i => s16 (le_val (slice (2 * Z.of_nat i) 2 (metadata_enc l))))), seq_nth by lia.
  cbn [Nat.add]. rewrite slice_metadata_enc by lia. apply s16_le_bytes. eapply Forall_forall; [exact Hr|].
  apply list_elem_of_In, nth_In. lia.
Qed.
Lemma metadata_dec_range l : Forall s16_range (metadata_dec l).
Proof.
  unfold metadata_dec. apply Forall_map, Forall_forall. intros i _. unfold s16_range, s16.
  match goal with |- context [?a mod 2 ^ 16] => pose proof (Z.mod_pos_bound a (2 ^ 16)) end. lia.
Qed.
Lemma length_metadata_dec l : length (metadata_dec l) = 64%nat.
Proof. unfold metadata_dec. by rewrite length_map, length_seq. Qed.

(** The metadata of a buffer. *)
Definition metadata_at (m : pmem) (o : Z) : list Z := metadata_dec (nvm_read m kBufferMetadataSize o).
Lemma read_metadata_ok m o : pmem_range o kBufferMetadataSize -> metadata_ok (metadata_at m o) ->
  read_metadata m o = inr (metadata_at m o).
Proof.
  intros Ho (_ & Hm & _). unfold read_metadata. rewrite (proj2 (Z.ltb_ge o 0)) by apply Ho.
  rewrite read_pmem_ok by (done || (unfold kBufferMetadataSize; lia)). fold (metadata_at m o).
  rewrite (proj2 (Z.ltb_ge _ _)), (proj2 (Z.ltb_ge _ _)) by lia. done.
Qed.
Lemma metadata_at_ext m m' o : (forall a, o <= a < o + kBufferMetadataSize -> m a = m' a) -> metadata_at m o = metadata_at m' o.
Proof. intros H. unfold metadata_at. f_equal. by apply nvm_read_ext. Qed.
Lemma metadata_at_write m o l : length l = 64%nat -> Forall s16_range l -> metadata_at (nvm_write m (metadata_enc l) o) o = l.
Proof.
  intros Hl Hr. unfold metadata_at. replace kBufferMetadataSize with (len (metadata_enc l)) by (rewrite len_metadata_enc, Hl; done).
  rewrite nvm_read_write_same. by apply metadata_dec_enc.
Qed.

Lemma md_set_length l i v : length (md_set l i v) = length l.
Proof. apply length_insert. Qed.
Lemma md_set_same l i v : 0 <= i < Z.of_nat (length l) -> s16_range v -> md (md_set l i v) i = v.
Proof. intros H Hv. unfold md, md_set. rewrite nth_lookup, list_lookup_insert_eq by lia. by rewrite s16_small. Qed.
Lemma md_set_other l i j v : 0 <= i -> 0 <= j -> i <> j -> md (md_set l i v) j = md l j.
Proof. intros Hi Hj H. unfold md, md_set. rewrite !nth_lookup, list_lookup_insert_ne by lia. done. Qed.
Lemma md_set_range l i v : Forall s16_range l -> Forall s16_range (md_set l i v).
Proof.
  intros H. unfold md_set. apply Forall_insert; [done|]. unfold s16_range, s16.
  pose proof (Z.mod_pos_bound (v + 2 ^ 15) (2 ^ 16)). lia.
Qed.
Lemma no_metadata_ok : metadata_ok no_metadata /\ Forall s16_range no_metadata /\ forall x, in_segments no_metadata x = false.
Proof.
  split_and!; [split; [done|split; [by vm_compute|intros s Hs; change (md no_metadata 0) with 0 in Hs; lia]]| |done].
  apply Forall_replicate. unfold s16_range. lia.
Qed.

Lemma existsb_ext_in {A} (f g : A -> bool) l : (forall x, In x l -> f x = g x) -> existsb f l = existsb g l.
Proof. induction l as [|x l IH]; intros H; [done|]. cbn. rewrite H, IH; [done| |by left]. intros y Hy. apply H. by right. Qed.

(** A segment added at the end. *)
Definition add_segment (metadata : list Z) (in_page part : Z) : list Z :=
  md_set (md_set (md_set metadata 0 (md metadata 0 + 1)) (1 + md metadata 0 * 2) in_page) (2 + md metadata 0 * 2) part.
Lemma add_segment_ok metadata in_page part : metadata_ok metadata -> Forall s16_range metadata ->
  md metadata 0 < kMaximumBufferSegments -> 0 <= in_page -> 0 <= part -> in_page + part <= kPageSize ->
  metadata_ok (add_segment metadata in_page part) /\ Forall s16_range (add_segment metadata in_page part) /\
  forall x, in_segments (add_segment metadata in_page part) x = in_range x in_page part || in_segments metadata x.
Proof.
  intros (Hl & Hn & Hs) Hr Hlt Hi Hp Hip. unfold kMaximumBufferSegments, kPageSize in *. set (n := md metadata 0) in *.
  assert (s16_range in_page /\ s16_range part /\ s16_range (n + 1)) as (Ri & Rp & Rn) by (unfold s16_range; lia).
  assert (md (add_segment metadata in_page part) 0 = n + 1) as E0.
  { unfold add_segment. fold n. rewrite !md_set_other by lia. apply md_set_same; [lia|done]. }
  assert (forall s, 0 <= s <= n -> md (add_segment metadata in_page part) (1 + s * 2) = if s =? n then in_page else md metadata (1 + s * 2)) as E1.
  { intros s Hsn. unfold add_segment. fold n. rewrite md_set_other by lia. destruct (Z.eqb_spec s n) as [->|Hne].
    - apply md_set_same; [rewrite md_set_length; lia|done].
    - by rewrite !md_set_other by lia. }
  assert (forall s, 0 <= s <= n -> md (add_segment metadata in_page part) (2 + s * 2) = if s =? n then part else md metadata (2 + s * 2)) as E2.
  { intros s Hsn. unfold add_segment. fold n. destruct (Z.eqb_spec s n) as [->|Hne].
    - apply md_set_same; [rewrite !md_set_length; lia|done].
    - by rewrite !md_set_other by lia. }
  split_and!.
  - split; [unfold add_segment; by rewrite !md_set_length|]. rewrite E0. unfold kMaximumBufferSegments. split; [lia|].
    intros s Hsn. rewrite E1, E2 by lia. destruct (Z.eqb_spec s n); [unfold kPageSize; lia|]. apply Hs. lia.
  - unfold add_segment. by repeat apply md_set_range.
  - intros x. unfold in_segments. rewrite E0. replace (Z.to_nat (n + 1)) with (Z.to_nat n + 1)%nat by lia.
    rewrite seq_app, existsb_app. cbn [seq existsb]. rewrite orb_false_r, orb_comm. f_equal.
    + unfold segment_has. rewrite Nat.add_0_l, Z2Nat.id by lia. rewrite E1, E2 by lia. by rewrite Z.eqb_refl.
    + fold n. apply existsb_ext_in. intros s Hin%in_seq. unfold segment_has. rewrite E1, E2 by lia.
      by rewrite (proj2 (Z.eqb_neq (Z.of_nat s) n)) by lia.
Qed.

(** ** Blocks and their content *)

Definition page_metadata (m : pmem) (b : orchfs_core_block) (page : Z) : list Z :=
  metadata_at m (buffer_metadata_offset b page).
(** Whether byte [i] of a block is in persistent memory. *)
Definition in_nvm (m : pmem) (b : orchfs_core_block) (i : Z) : bool :=
  (cb_type b =? ORCHFS_CORE_VIRTUAL_BLOCK) ||
  ((cb_type b =? ORCHFS_CORE_STRATA_BLOCK) && (0 <=? nvm_page_offset b (i / kPageSize)) &&
   in_segments (page_metadata m b (i / kPageSize)) (i mod kPageSize)).
Definition block_byte (d : data) (b : orchfs_core_block) (i : Z) : Z :=
  if in_nvm (dp_nvm d) b i then dp_nvm d (nvm_page_offset b (i / kPageSize) + i mod kPageSize)
  else dp_ssd d (ssd_device_offset b + i).

Definition is_page (page : Z) : Prop := 0 <= page < ORCHFS_CORE_PAGE_COUNT.
Record block_ok (m : pmem) (b : orchfs_core_block) : Prop := {
  bo_type : cb_type b = ORCHFS_CORE_VIRTUAL_BLOCK \/ cb_type b = ORCHFS_CORE_STRATA_BLOCK \/ cb_type b = ORCHFS_CORE_SSD_BLOCK;
  bo_ssd : cb_type b <> ORCHFS_CORE_VIRTUAL_BLOCK -> 0 <= ssd_device_offset b /\ ssd_device_offset b + kBlockSize <= 2 ^ 63;
  bo_page : forall page, is_page page -> 0 <= nvm_page_offset b page -> pmem_range (nvm_page_offset b page) kPageSize;
  bo_meta : cb_type b = ORCHFS_CORE_STRATA_BLOCK -> forall page, is_page page -> 0 <= nvm_page_offset b page ->
    pmem_range (buffer_metadata_offset b page) kBufferMetadataSize /\ metadata_ok (page_metadata m b page);
}.
(** The pages of a virtual block that hold bytes of a range. *)
Definition has_pages (b : orchfs_core_block) (inside chunk : Z) : Prop :=
  cb_type b = ORCHFS_CORE_VIRTUAL_BLOCK -> forall i, inside <= i < inside + chunk -> 0 <= nvm_page_offset b (i / kPageSize).
Definition block_range (inside chunk : Z) : Prop := 0 <= inside /\ 0 < chunk /\ inside + chunk <= kBlockSize.

Definition bytes_from (f : Z -> Z) (start n : Z) : list Z := map (fun i => f (start + Z.of_nat i)) (seq 0 (Z.to_nat n)).
Lemma len_bytes_from f s n : 0 <= n -> len (bytes_from f s n) = n.
Proof. intros. unfold bytes_from, len. rewrite length_map, length_seq. lia. Qed.
Lemma byte_at_bytes_from f s n i : 0 <= i < n -> byte_at (bytes_from f s n) i = f (s + i).
Proof.
  intros H. unfold byte_at, bytes_from. rewrite (nth_indep _ 0 (f (s + Z.of_nat 0))) by (rewrite length_map, length_seq; lia).
  rewrite (map_nth (fun i => f (s + Z.of_nat i))), seq_nth by lia. f_equal. lia.
Qed.
Lemma bytes_from_ext f l s n : 0 <= n -> len l = n -> (forall i, 0 <= i < n -> byte_at l i = f (s + i)) -> l = bytes_from f s n.
Proof.
  intros Hn Hl H. apply byte_at_ext; [by rewrite len_bytes_from|]. intros i Hi. rewrite byte_at_bytes_from by lia. apply H. lia.
Qed.
Lemma bytes_from_app f s n k : 0 <= n -> 0 <= k -> bytes_from f s n ++ bytes_from f (s + n) k = bytes_from f s (n + k).
Proof.
  intros Hn Hk. apply bytes_from_ext; [lia|rewrite len_app, !len_bytes_from; lia|]. intros i Hi.
  destruct (Z.lt_ge_cases i n).
  - rewrite byte_at_app_l by (rewrite len_bytes_from; lia). apply byte_at_bytes_from. lia.
  - rewrite byte_at_app_r by (rewrite len_bytes_from; lia). rewrite len_bytes_from by lia. rewrite byte_at_bytes_from by lia. f_equal. lia.
Qed.

(** The parts of a range: consecutive, each inside one page, covering the range. *)
Definition part_ok (inside chunk consumed : Z) (p : Z * Z * Z * Z) : Prop :=
  let '(page, in_page, part, c) := p in
  page * kPageSize + in_page = inside + c /\ 0 < part /\ 0 <= in_page /\ in_page + part <= kPageSize /\ is_page page /\
  consumed <= c /\ c + part <= chunk.
Lemma page_parts_step fuel inside chunk c : 0 <= inside -> inside + chunk <= kBlockSize -> 0 <= c < chunk ->
  exists part, page_parts (S fuel) inside chunk c =
    ((inside + c) / kPageSize, (inside + c) mod kPageSize, part, c) :: page_parts fuel inside chunk (c + part) /\
    part_ok inside chunk c ((inside + c) / kPageSize, (inside + c) mod kPageSize, part, c) /\
    (c + part = chunk \/ inside + c + part = ((inside + c) / kPageSize + 1) * kPageSize).
Proof.
  intros Hi Hc H. exists (Z.min (chunk - c) (kPageSize - (inside + c) mod kPageSize)). cbn [page_parts].
  rewrite (proj2 (Z.ltb_lt c chunk)) by lia. split; [done|]. unfold part_ok, is_page, kBlockSize, kPageSize, ORCHFS_CORE_PAGE_COUNT in *.
  pose proof (Z.div_mod (inside + c) 4096). pose proof (Z.mod_pos_bound (inside + c) 4096).
  assert (0 <= (inside + c) / 4096 < 8) by (split; [apply Z.div_pos; lia|apply Z.div_lt_upper_bound; lia]). lia.
Qed.
Lemma page_parts_spec fuel : forall inside chunk c, 0 <= inside -> inside + chunk <= kBlockSize -> 0 <= c <= chunk ->
  (c < chunk -> (inside + chunk - 1) / kPageSize - (inside + c) / kPageSize < Z.of_nat fuel) ->
  Forall (part_ok inside chunk c) (page_parts fuel inside chunk c) /\
  (forall y, c <= y < chunk -> exists page in_page part c', (page, in_page, part, c') ∈ page_parts fuel inside chunk c /\ c' <= y < c' + part) /\
  StronglySorted (fun p q => p.1.1.1 < q.1.1.1) (page_parts fuel inside chunk c).
Proof.
  induction fuel as [|fuel IH]; intros inside chunk c Hi Hb Hc Hf.
  - cbn. split_and!; [done| |constructor]. intros y Hy. specialize (Hf ltac:(lia)).
    pose proof (Z.div_le_mono (inside + c) (inside + chunk - 1) kPageSize). unfold kPageSize in *. lia.
  - destruct (Z.eq_dec c chunk) as [->|Hne].
    { cbn [page_parts]. rewrite Z.ltb_irrefl. split_and!; [constructor|intros y Hy; lia|constructor]. }
    destruct (page_parts_step fuel inside chunk c Hi Hb ltac:(lia)) as (part & E & Hp & Hend). rewrite E.
    pose proof Hp as (P1 & P2 & P3 & P4 & P5 & P6 & P7).
    destruct (IH inside chunk (c + part)) as (A & B & C); [done|done|lia| |].
    { intros Hlt. specialize (Hf ltac:(lia)). destruct Hend as [?|Hend]; [lia|].
      rewrite Z.add_assoc, Hend, Z.div_mul by (unfold kPageSize; lia). lia. }
    split_and!.
    + constructor; [done|]. eapply Forall_impl; [exact A|]. intros [[[pg ip] pt] c'] (Q1 & Q2 & Q3 & Q4 & Q5 & Q6 & Q7). unfold part_ok. split_and!; (done || lia).
    + intros y Hy. destruct (Z.lt_ge_cases y (c + part)).
      * eexists _, _, _, _. split; [by left|lia].
      * destruct (B y ltac:(lia)) as (pg & ip & pt & c' & Hin & Hy'). exists pg, ip, pt, c'. split; [by right|done].
    + constructor; [done|]. apply Forall_forall. intros [[[pg ip] pt] c'] Hin. cbn.
      eapply Forall_forall in A; [|exact Hin]. destruct A as (Q1 & Q2 & Q3 & Q4 & Q5 & Q6 & Q7). unfold kPageSize in *.
      destruct Hend as [?|Hend]; [lia|]. lia.
Qed.
Lemma parts_of_spec inside chunk : block_range inside chunk ->
  Forall (part_ok inside chunk 0) (parts_of inside chunk) /\
  (forall y, 0 <= y < chunk -> exists page in_page part c, (page, in_page, part, c) ∈ parts_of inside chunk /\ c <= y < c + part) /\
  StronglySorted (fun p q => p.1.1.1 < q.1.1.1) (parts_of inside chunk).
Proof.
  intros (H1 & H2 & H3). apply page_parts_spec; [done|done|lia|]. intros _. unfold kBlockSize, kPageSize in *.
  pose proof (Z.div_lt_upper_bound (inside + chunk - 1) 4096 8). pose proof (Z.div_pos (inside + 0) 4096). lia.
Qed.

(** ** Reads return the content *)

Lemma page_split page x : 0 <= x < kPageSize -> (page * kPageSize + x) / kPageSize = page /\ (page * kPageSize + x) mod kPageSize = x.
Proof.
  unfold kPageSize. intros H. rewrite (Z.add_comm (page * 4096)), Z.div_add, Z.mod_add by lia.
  rewrite Z.div_small, Z.mod_small by lia. lia.
Qed.

Lemma read_parts_spec m b fuel : forall inside chunk c, 0 <= inside -> inside + chunk <= kBlockSize -> 0 <= c <= chunk ->
  (c < chunk -> (inside + chunk - 1) / kPageSize - (inside + c) / kPageSize < Z.of_nat fuel) ->
  (forall i, inside + c <= i < inside + chunk -> 0 <= nvm_page_offset b (i / kPageSize)) ->
  (forall page, is_page page -> 0 <= nvm_page_offset b page -> pmem_range (nvm_page_offset b page) kPageSize) ->
  read_parts m b (page_parts fuel inside chunk c) =
    inr (bytes_from (fun i => m (nvm_page_offset b (i / kPageSize) + i mod kPageSize)) (inside + c) (chunk - c)).
Proof.
  induction fuel as [|fuel IH]; intros inside chunk c Hi Hb Hc Hf Hp Hr.
  - destruct (Z.eq_dec c chunk) as [->|?]; [by rewrite Z.sub_diag|]. specialize (Hf ltac:(lia)).
    pose proof (Z.div_le_mono (inside + c) (inside + chunk - 1) kPageSize). unfold kPageSize in *. lia.
  - destruct (Z.eq_dec c chunk) as [->|Hne]; [cbn [page_parts]; by rewrite Z.ltb_irrefl, Z.sub_diag|].
    destruct (page_parts_step fuel inside chunk c Hi Hb ltac:(lia)) as (part & E & (P1 & P2 & P3 & P4 & P5 & P6 & P7) & Hend). rewrite E.
    set (page := (inside + c) / kPageSize) in *. set (x := (inside + c) mod kPageSize) in *. cbn [read_parts].
    assert (0 <= nvm_page_offset b page) as Hpg by (apply Hp; lia).
    rewrite (proj2 (Z.leb_gt _ _)), (proj2 (Z.ltb_ge _ _)) by (unfold is_page in *; lia). cbn [orb].
    destruct (Hr page P5 Hpg) as [R1 R2]. unfold kPageSize in R2, P4.
    rewrite read_pmem_ok by (unfold pmem_range; lia).
    rewrite IH; [|done|done|lia| |intros i Hi'; apply Hp; lia|done].
    2:{ intros Hlt. specialize (Hf ltac:(lia)). fold page in Hf. destruct Hend as [?|Hend]; [lia|].
        rewrite Z.add_assoc, Hend, Z.div_mul by (unfold kPageSize; lia). lia. }
    f_equal. replace (chunk - c) with (part + (chunk - (c + part))) by lia. rewrite <-bytes_from_app by lia.
    f_equal; [|f_equal; lia]. apply bytes_from_ext; [lia|apply len_nvm_read; lia|]. intros i Hi'.
    rewrite byte_at_nvm_read by lia. replace (inside + c + i) with (page * kPageSize + (x + i)) by lia.
    destruct (page_split page (x + i)) as [-> ->]; [unfold kPageSize; lia|]. f_equal. lia.
Qed.

Lemma overlay_pages_spec m b pages : forall block, len block = kBlockSize -> NoDup pages -> Forall is_page pages ->
  (forall page, is_page page -> 0 <= nvm_page_offset b page -> pmem_range (nvm_page_offset b page) kPageSize /\
    pmem_range (buffer_metadata_offset b page) kBufferMetadataSize /\ metadata_ok (page_metadata m b page)) ->
  exists out, overlay_pages m b pages block = inr out /\ len out = kBlockSize /\ forall i, 0 <= i < kBlockSize ->
    byte_at out i = if bool_decide (i / kPageSize ∈ pages) && (0 <=? nvm_page_offset b (i / kPageSize)) &&
                       in_segments (page_metadata m b (i / kPageSize)) (i mod kPageSize)
                    then m (nvm_page_offset b (i / kPageSize) + i mod kPageSize) else byte_at block i.
Proof.
  induction pages as [|page pages IH]; intros block Hl Hn Hp Hok; cbn [overlay_pages].
  { exists block. split_and!; [done|done|]. intros i Hi. rewrite bool_decide_false; [done|]. apply not_elem_of_nil. }
  apply NoDup_cons in Hn as [Hnp Hn]. apply Forall_cons in Hp as [Hpg Hp].
  destruct (Z.ltb_spec (nvm_page_offset b page) 0) as [Hneg|Hpos].
  - destruct (IH block Hl Hn Hp Hok) as (out & -> & Hlo & H). exists out. split_and!; [done|done|]. intros i Hi. rewrite (H i Hi).
    destruct (Z.eq_dec (i / kPageSize) page) as [E|E].
    + rewrite E, (proj2 (Z.leb_gt _ _)) by done. by rewrite !andb_false_r.
    + by rewrite (bool_decide_ext (i / kPageSize ∈ page :: pages) (i / kPageSize ∈ pages)) by (rewrite elem_of_cons; tauto).
  - destruct (Hok page Hpg Hpos) as (R1 & R2 & R3). rewrite read_metadata_ok by done. fold (page_metadata m b page).
    unfold is_page, ORCHFS_CORE_PAGE_COUNT in Hpg. unfold kBlockSize in *.
    destruct (overlay_page_spec m (slice (page * kPageSize) kPageSize block) (nvm_page_offset b page) (page_metadata m b page))
      as (bytes & -> & Hlb & Hb); [done|done|apply len_slice; unfold kPageSize; lia|].
    destruct (IH (patch block (page * kPageSize) bytes)) as (out & -> & Hlo & H); [rewrite len_patch; unfold kPageSize in *; lia|done|done|done|].
    exists out. split_and!; [done|done|]. intros i Hi. rewrite (H i Hi).
    rewrite byte_at_patch by (unfold kPageSize in *; lia). rewrite Hlb.
    pose proof (Z.div_mod i kPageSize). pose proof (Z.mod_pos_bound i kPageSize). unfold kPageSize in *.
    destruct (Z.eq_dec (i / 4096) page) as [E|E].
    + rewrite E, bool_decide_false by done. cbn [andb]. rewrite bool_decide_true by (by left).
      rewrite (proj2 (Z.leb_le _ _)) by done. cbn [andb]. rewrite (proj2 (in_range_spec _ _ _)) by lia.
      rewrite Hb by lia. replace (i - page * 4096) with (i mod 4096) by lia.
      destruct (in_segments _ _); [done|]. rewrite byte_at_slice by lia. f_equal. lia.
    + rewrite (proj2 (in_range_false _ _ _)) by lia.
      by rewrite (bool_decide_ext (i / 4096 ∈ page :: pages) (i / 4096 ∈ pages)) by (rewrite elem_of_cons; tauto).
Qed.

Lemma read_block_correct d b inside chunk : block_ok (dp_nvm d) b -> has_pages b inside chunk -> block_range inside chunk ->
  exists item, plan_read (dp_nvm d) b inside chunk = inr item /\
    finish_read d item = inr (bytes_from (block_byte d b) inside chunk).
Proof.
  intros [Ht Hs Hp Hm] Hh Hr. pose proof Hr as (R1 & R2 & R3). unfold plan_read.
  destruct (Z.eqb_spec (cb_type b) ORCHFS_CORE_VIRTUAL_BLOCK) as [Ev|Ev].
  - unfold parts_of. rewrite read_parts_spec; [|done|done|lia| |intros i Hi; apply Hh; [done|lia]|done].
    2:{ intros _. unfold kBlockSize, kPageSize in *. pose proof (Z.div_lt_upper_bound (inside + chunk - 1) 4096 8).
        pose proof (Z.div_pos (inside + 0) 4096). lia. }
    rewrite Z.add_0_r, Z.sub_0_r. eexists. split; [done|]. cbn [finish_read]. f_equal. unfold bytes_from. apply map_ext. intros i.
    unfold block_byte, in_nvm. by rewrite Ev.
  - specialize (Hs Ev). assert (forall i, in_nvm (dp_nvm d) b i = (cb_type b =? ORCHFS_CORE_STRATA_BLOCK) &&
      (0 <=? nvm_page_offset b (i / kPageSize)) && in_segments (page_metadata (dp_nvm d) b (i / kPageSize)) (i mod kPageSize)) as En.
    { intros i. unfold in_nvm. by rewrite (proj2 (Z.eqb_neq _ _) Ev). }
    destruct ((cb_type b =? ORCHFS_CORE_SSD_BLOCK) && (inside =? 0) && (chunk =? kBlockSize)) eqn:Efull.
    + rewrite !andb_true_iff, !Z.eqb_eq in Efull. destruct Efull as [[Et ->] ->].
      eexists. split; [done|]. cbn [finish_read]. rewrite u64_small by (unfold kBlockSize in *; lia). f_equal.
      apply bytes_from_ext; [unfold kBlockSize; lia|apply len_nvm_read; unfold kBlockSize; lia|]. intros i Hi.
      rewrite byte_at_nvm_read by done. unfold block_byte. rewrite En, Et. done.
    + assert ((cb_type b =? ORCHFS_CORE_SSD_BLOCK) || (cb_type b =? ORCHFS_CORE_STRATA_BLOCK) = true) as ->.
      { destruct Ht as [?|[-> | ->]]; done. }
      rewrite (proj2 (Z.ltb_ge _ _)) by lia. eexists. split; [done|]. cbn [finish_read].
      assert (len (nvm_read (dp_ssd d) kBlockSize (ssd_device_offset b)) = kBlockSize) as Hlen by (apply len_nvm_read; unfold kBlockSize; lia).
      destruct (Z.eqb_spec (cb_type b) ORCHFS_CORE_STRATA_BLOCK) as [Es|Es].
      * destruct (overlay_pages_spec (dp_nvm d) b all_pages (nvm_read (dp_ssd d) kBlockSize (ssd_device_offset b)))
          as (out & -> & Hlo & Ho); [done|apply (bool_decide_unpack _); by vm_compute| | |].
        { repeat constructor; unfold is_page, ORCHFS_CORE_PAGE_COUNT; lia. }
        { intros page Hpg Hpos. split; [by apply Hp|by apply Hm]. }
        f_equal. apply bytes_from_ext; [lia|apply len_slice; lia|]. intros i Hi. rewrite byte_at_slice by lia.
        rewrite Ho by lia. unfold block_byte. rewrite En, bool_decide_true; [cbn [andb]|].
        -- rewrite byte_at_nvm_read by lia. reflexivity.
        -- assert (0 <= (inside + i) / kPageSize < 8) as Hpg.
           { unfold kBlockSize, kPageSize in *. split; [apply Z.div_pos; lia|apply Z.div_lt_upper_bound; lia]. }
           unfold all_pages. rewrite !elem_of_cons. lia.
      * f_equal. apply bytes_from_ext; [lia|apply len_slice; lia|]. intros i Hi. rewrite byte_at_slice by lia.
        rewrite byte_at_nvm_read by lia. unfold block_byte. by rewrite En.
Qed.

(** ** Files *)

(** A file's bytes, from its blocks. *)
Definition file_byte (d : data) (blk : Z -> orchfs_core_block) (x : Z) : Z :=
  block_byte d (blk (x / kBlockSize)) (x mod kBlockSize).
(** The blocks below a size are well formed and have the pages they need. *)
Definition file_blocks_ok (m : pmem) (blk : Z -> orchfs_core_block) (size : Z) : Prop :=
  forall k, 0 <= k -> k * kBlockSize < size -> block_ok m (blk k) /\ has_pages (blk k) 0 (Z.min kBlockSize (size - k * kBlockSize)).

Lemma block_split k x : 0 <= x < kBlockSize -> (k * kBlockSize + x) / kBlockSize = k /\ (k * kBlockSize + x) mod kBlockSize = x.
Proof.
  unfold kBlockSize. change (32 * 1024) with 32768. intros H. rewrite (Z.add_comm (k * 32768)), Z.div_add, Z.mod_add by lia.
  rewrite Z.div_small, Z.mod_small by lia. lia.
Qed.

Lemma plan_reads_spec d blk lookup size offset length n : forall k consumed, file_blocks_ok (dp_nvm d) blk size ->
  (forall k, 0 <= k -> k * kBlockSize < size -> lookup k = inr (blk k)) -> 0 <= k -> 0 <= consumed <= length -> 0 < length ->
  0 <= offset -> offset + length <= size -> offset + consumed = Z.max offset (k * kBlockSize) ->
  offset < (k + 1) * kBlockSize -> (k + Z.of_nat n - 1) * kBlockSize < offset + length <= (k + Z.of_nat n) * kBlockSize ->
  exists items, plan_reads d lookup n k offset length consumed = inr items /\
    finish_reads d items = inr (bytes_from (file_byte d blk) (offset + consumed) (length - consumed)).
Proof.
  unfold kBlockSize. change (32 * 1024) with 32768.
  induction n as [|n IH]; intros k consumed Hok Hlk Hk Hc Hpos Ho Hs Hoc Hb Hn; cbn [plan_reads].
  { exists []. split; [done|]. cbn. replace (length - consumed) with 0 by lia. done. }
  unfold kBlockSize. change (32 * 1024) with 32768. rewrite Hlk by (unfold kBlockSize; lia).
  set (inside := Z.max offset (k * 32768) - k * 32768). set (chunk := Z.min (32768 - inside) (length - consumed)).
  destruct (Hok k Hk) as [Hbo Hhp]; [unfold kBlockSize; lia|].
  destruct (read_block_correct d (blk k) inside chunk) as (item & -> & Hf); [done| |unfold block_range, kBlockSize; lia|].
  { intros Hv i Hi. apply Hhp; [done|]. unfold kBlockSize. lia. }
  assert (bytes_from (block_byte d (blk k)) inside chunk = bytes_from (file_byte d blk) (offset + consumed) chunk) as Eb.
  { apply bytes_from_ext; [lia|apply len_bytes_from; lia|]. intros i Hi. rewrite byte_at_bytes_from by done. unfold file_byte.
    replace (offset + consumed + i) with (k * kBlockSize + (inside + i)) by (unfold kBlockSize; lia).
    by destruct (block_split k (inside + i)) as [-> ->]; [unfold kBlockSize; lia|]. }
  destruct (Z.eq_dec (consumed + chunk) length) as [El|Hne].
  - assert (n = O) as -> by nia. eexists. split; [done|]. cbn [finish_reads]. rewrite Hf, Eb. f_equal. rewrite app_nil_r. f_equal. lia.
  - destruct (IH (k + 1) (consumed + chunk)) as (items & -> & Hfs); [done|done|lia|lia|done|done|done|lia|lia|lia|].
    eexists. split; [done|]. cbn [finish_reads]. rewrite Hf, Hfs, Eb. f_equal.
    rewrite Z.add_assoc, bytes_from_app by lia. f_equal. lia.
Qed.

Lemma read_unlocked_spec d type size blk lookup offset wanted :
  type = ORCHFS_CORE_REGULAR \/ type = ORCHFS_CORE_DIRECTORY -> 0 <= size -> 0 <= offset -> 0 <= wanted ->
  file_blocks_ok (dp_nvm d) blk size -> (forall k, 0 <= k -> k * kBlockSize < size -> lookup k = inr (blk k)) ->
  read_unlocked d type size 0 lookup 0 offset wanted =
    inr (bytes_from (file_byte d blk) offset (Z.max 0 (Z.min wanted (size - offset)))).
Proof.
  intros Ht Hs Ho Hw Hok Hlk. unfold read_unlocked.
  assert (negb (type =? ORCHFS_CORE_REGULAR) && negb (type =? ORCHFS_CORE_DIRECTORY) = false) as -> by (by destruct Ht as [-> | ->]).
  rewrite (proj2 (Z.ltb_ge _ _)) by done. destruct ((size <=? offset) || (wanted =? 0)) eqn:E.
  { replace (Z.max 0 (Z.min wanted (size - offset))) with 0; [done|]. apply orb_true_iff in E as [E|E]; lia. }
  rewrite andb_false_r. apply orb_false_iff in E as [E1 E2]. set (length := Z.min wanted (size - offset)). replace (Z.max 0 length) with length by lia.
  destruct (plan_reads_spec d blk lookup size offset length
    (Z.to_nat ((offset + length - 1) / kBlockSize - offset / kBlockSize + 1)) (offset / kBlockSize) 0)
    as (items & -> & Hf); try done; try lia.
  - apply Z.div_pos; unfold kBlockSize; lia.
  - pose proof (Z.mul_div_le offset kBlockSize). unfold kBlockSize in *. lia.
  - pose proof (Z.mul_succ_div_gt offset kBlockSize). unfold kBlockSize in *. lia.
  - pose proof (Z.mul_div_le (offset + length - 1) kBlockSize). pose proof (Z.mul_succ_div_gt (offset + length - 1) kBlockSize).
    pose proof (Z.div_le_mono offset (offset + length - 1) kBlockSize). unfold kBlockSize in *. lia.
  - rewrite andb_false_r, Hf. do 2 f_equal; lia.
Qed.

(** Reading returns the file's bytes: for every offset and length, and whatever
    mixture of SSD, virtual and strata blocks the range covers, [read_unlocked] gives
    the bytes of the file from the offset up to the length or the end of the file. *)
Theorem read_unlocked_correct d type size blk lookup offset wanted :
  type = ORCHFS_CORE_REGULAR \/ type = ORCHFS_CORE_DIRECTORY -> 0 <= size -> 0 <= offset -> 0 <= wanted ->
  file_blocks_ok (dp_nvm d) blk size -> (forall k, 0 <= k -> k * kBlockSize < size -> lookup k = inr (blk k)) ->
  read_unlocked d type size 0 lookup 0 offset wanted =
    inr (bytes_from (file_byte d blk) offset (Z.max 0 (Z.min wanted (size - offset)))).
Proof. apply read_unlocked_spec. Qed.

(** A strata block with one page in persistent memory, the rest on the SSD. *)
Definition one_page_block : orchfs_core_block :=
  mk_core_block ORCHFS_CORE_STRATA_BLOCK 0 (fun p => if p =? 0 then 8192 else -1) (fun p => if p =? 0 then 4096 else -1) 0.
(** Its page holds bytes 2 and 3; memory is filled with 7 there. *)
Definition one_page_memory : pmem := fun a => if a =? 4096 then 1 else if a =? 4098 then 2 else if a =? 4100 then 2 else if 8192 <=? a then 7 else 0.
Lemma one_page_metadata : page_metadata one_page_memory one_page_block 0 = [1; 2; 2] ++ repeat 0 61.
Proof. vm_compute. reflexivity. Qed.
Lemma one_page_ok : block_ok one_page_memory one_page_block.
Proof.
  split; [by right; left|intros _; cbn; unfold kBlockSize; lia|..].
  - intros page _ H. unfold one_page_block in *. cbn [nvm_page_offset] in *. destruct (page =? 0); [|lia]. unfold pmem_range. vm_compute. split; congruence.
  - intros _ page _ H. destruct (Z.eqb_spec page 0) as [->|Hp].
    + split; [unfold pmem_range; vm_compute; split; congruence|]. rewrite one_page_metadata. split; [done|].
      change (md _ 0) with 1. split; [unfold kMaximumBufferSegments; lia|]. intros s Hs. replace s with 0 by lia.
      change (md _ (1 + 0 * 2)) with 2. change (md _ (2 + 0 * 2)) with 2. unfold kPageSize. lia.
    + exfalso. unfold one_page_block in H. cbn [nvm_page_offset] in H. rewrite (proj2 (Z.eqb_neq _ _) Hp) in H. lia.
Qed.
Lemma read_unlocked_correct_witness :
  read_unlocked (mk_data one_page_memory (fun _ => 9)) ORCHFS_CORE_REGULAR 100 0 (fun _ => inr one_page_block) 0 1 4 = inr [9; 7; 7; 9].
Proof.
  rewrite (read_unlocked_correct _ _ _ (fun _ => one_page_block)); try done.
  - by left.
  - intros k _ _. split; [apply one_page_ok|by intros ?].
Defined.
