(* ===== verification/DataWrite.v ===== *)
(** * Writes change exactly the bytes of their range

    The writes that [write_unlocked] collects fall into units: one for each page of a
    virtual or strata block, one for a whole block otherwise.  Units have disjoint
    footprints on the devices, so that carrying out the whole plan has on each
    footprint the effect of its own unit. *)

From stdpp Require Import base tactics numbers list sorting.
From Stdlib Require Import ZArith Lia Sorted.
From S2P Require Import Prelude Bytes Layout Pmem DataPath.
Open Scope Z_scope.

(** ** Lists of writes *)

Definition covers (w : Z * list Z) (a : Z) : Prop := w.1 <= a < w.1 + len w.2.

Lemma write_all_app m ws1 ws2 : write_all m (ws1 ++ ws2) = write_all (write_all m ws1) ws2.
Proof. apply fold_left_app. Qed.
Lemma write_all_local ws : forall m m' a, m a = m' a -> write_all m ws a = write_all m' ws a.
Proof.
  induction ws as [|w ws IH]; intros m m' a H; [done|]. cbn [write_all fold_left]. apply IH. unfold nvm_write. by rewrite H.
Qed.
Lemma write_all_miss ws : forall m a, (forall w, w ∈ ws -> ~ covers w a) -> write_all m ws a = m a.
Proof.
  induction ws as [|w ws IH]; intros m a H; [done|]. cbn [write_all fold_left].
  change (write_all (nvm_write m w.2 w.1) ws a = m a). rewrite IH by (intros v Hv; apply H; by right).
  apply nvm_write_out. apply (H w). by left.
Qed.
Lemma write_all_middle m ws1 ws ws2 a : (forall w, w ∈ ws1 -> ~ covers w a) -> (forall w, w ∈ ws2 -> ~ covers w a) ->
  write_all m (ws1 ++ ws ++ ws2) a = write_all m ws a.
Proof.
  intros H1 H2. rewrite !write_all_app, (write_all_miss ws2) by done. apply write_all_local. by apply write_all_miss.
Qed.

Lemma pmem_all_write ws : forall m m', pmem_all m ws = inr m' -> m' = write_all m ws.
Proof.
  induction ws as [|[o l] ws IH]; intros m m' H; cbn in H; [by injection H as <-|]. unfold orchfs_core_write_pmem in H.
  destruct (negb _); [done|]. by apply IH in H.
Qed.
Lemma pmem_all_ok ws : forall m, (forall w, w ∈ ws -> pmem_range w.1 (len w.2)) -> pmem_all m ws = inr (write_all m ws).
Proof.
  induction ws as [|[o l] ws IH]; intros m H; [done|]. cbn [pmem_all write_all fold_left].
  rewrite write_pmem_ok by (apply (H (o, l)); by left). rewrite IH by (intros w Hw; apply H; by right). done.
Qed.

(** ** Merged pages *)

Lemma len_overlay_segments n : forall seg cached metadata dest out,
  overlay_segments n seg cached metadata dest = inr out -> len cached = len dest -> len out = len dest.
Proof.
  induction n as [|n IH]; intros seg cached metadata dest out H Hc; cbn [overlay_segments] in H; [by injection H as <-|].
  destruct (_ || _) eqn:E; [done|]. rewrite !orb_false_iff, !Z.ltb_ge in E. destruct E as [[[E1 E2] E3] E4].
  assert (len (slice (md metadata (1 + seg * 2)) (md metadata (2 + seg * 2)) cached) = md metadata (2 + seg * 2)) as Hs
    by (apply len_slice; lia).
  apply IH in H; rewrite len_patch in *; lia.
Qed.
Lemma len_overlay_page m dest o metadata out : overlay_page m dest o metadata = inr out -> len out = kPageSize.
Proof.
  unfold overlay_page. destruct (_ || _) eqn:E; [done|]. apply orb_false_iff in E as [_ E]. apply negb_false_iff, Z.eqb_eq in E.
  unfold orchfs_core_read_pmem. destruct (negb _); [done|]. intros H%len_overlay_segments; [lia|]. rewrite E. apply len_nvm_read.
  unfold kPageSize. lia.
Qed.

(** Merging reads only the page on the SSD and the page in persistent memory. *)
Definition merge_one (d : data) (g : MergePage) : Z + list Z :=
  overlay_page (dp_nvm d) (nvm_read (dp_ssd d) kPageSize (u64 (mp_ssd_offset g))) (mp_nvm_offset g) (mp_metadata g).
Lemma merge_pages_elem d l ws w : merge_pages d l = inr ws -> w ∈ ws ->
  exists g, g ∈ l /\ w.1 = u64 (mp_ssd_offset g) /\ merge_one d g = inr w.2.
Proof.
  revert ws. induction l as [|g l IH]; intros ws H Hw; cbn [merge_pages] in H; [injection H as <-; by apply not_elem_of_nil in Hw|].
  fold (merge_one d g) in H. destruct (merge_one d g) as [|page] eqn:E; [done|]. destruct (merge_pages d l) as [|ws'] eqn:E2; [done|].
  injection H as <-. apply elem_of_cons in Hw as [->|Hw].
  - exists g. split; [by left|]. done.
  - destruct (IH ws' eq_refl Hw) as (g' & Hg & ?). exists g'. split; [by right|done].
Qed.
Lemma merge_pages_app d l1 l2 ws : merge_pages d (l1 ++ l2) = inr ws ->
  exists ws1 ws2, ws = ws1 ++ ws2 /\ merge_pages d l1 = inr ws1 /\ merge_pages d l2 = inr ws2.
Proof.
  revert ws. induction l1 as [|g l1 IH]; intros ws H; [by exists [], ws|]. cbn [merge_pages app] in *. fold (merge_one d g) in *.
  destruct (merge_one d g) as [|page]; [done|]. destruct (merge_pages d (l1 ++ l2)) as [|ws'] eqn:E; [done|]. injection H as <-.
  destruct (IH ws' eq_refl) as (ws1 & ws2 & -> & -> & ->). by exists ((u64 (mp_ssd_offset g), page) :: ws1), ws2.
Qed.
Lemma merge_pages_ok d l : (forall g, g ∈ l -> exists page, merge_one d g = inr page) -> exists ws, merge_pages d l = inr ws.
Proof.
  induction l as [|g l IH]; intros H; [by exists []|]. cbn [merge_pages]. fold (merge_one d g).
  destruct (H g ltac:(by left)) as (page & ->). destruct IH as (ws & ->); [intros g' Hg; apply H; by right|]. by eexists.
Qed.
Lemma merge_pages_ext d d' l : dp_nvm d = dp_nvm d' ->
  (forall g, g ∈ l -> forall a, u64 (mp_ssd_offset g) <= a < u64 (mp_ssd_offset g) + kPageSize -> dp_ssd d a = dp_ssd d' a) ->
  merge_pages d l = merge_pages d' l.
Proof.
  intros Hn. induction l as [|g l IH]; intros H; [done|]. cbn [merge_pages].
  rewrite (nvm_read_ext (dp_ssd d) (dp_ssd d')) by (apply (H g); by left). rewrite Hn.
  rewrite IH by (intros g' Hg; apply H; by right). done.
Qed.

(** ** Carrying out a plan *)

(** The effect of a plan when nothing interferes. *)
Definition plan_nvm (m : pmem) (p : plan) : pmem := write_all m (pmem_writes p ++ metadata_writes p).
Definition plan_ssd (d : data) (p : plan) (merged : list (Z * list Z)) : pmem :=
  write_all (dp_ssd d) (writes p ++ merged ++ map (merge_direct d) (direct_ssd_merges p)).

Lemma execute_plan_inv e d p d' : execute_plan e d p = inr d' ->
  exists dm merged, (dm = d \/ dm = mk_data (dp_nvm d) (write_all (dp_ssd d) (writes p))) /\
    merge_pages dm (merges p) = inr merged /\ dp_nvm d' = plan_nvm (dp_nvm d) p /\
    dp_ssd d' = write_all (dp_ssd d) (writes p ++ merged ++ map (merge_direct dm) (direct_ssd_merges p)).
Proof.
  unfold execute_plan. cbv zeta. set (mg := negb _ || negb _). set (pl := mg && (kPipelinedWriteThreshold <=? _)).
  set (af := mk_data _ _). destruct (mg && negb (we_read e =? 0)); [done|]. destruct (pl && negb (we_pipelined e =? 0)); [done|].
  set (dm := if pl && we_early e then af else d). destruct (merge_pages dm (merges p)) as [|merged] eqn:Em; [done|].
  destruct (negb (bool_decide _) && negb (we_write e =? 0)); [done|]. destruct (pmem_all _ (pmem_writes p)) as [|m] eqn:Ep; [done|].
  destruct (negb (bool_decide _) && negb (we_metadata e =? 0)); [done|]. destruct (negb (we_persist e =? 0)); [done|]. intros [= <-].
  apply pmem_all_write in Ep. exists dm, merged. split_and!; [unfold dm; by destruct (pl && _); [right|left]|done| |].
  - cbn. unfold plan_nvm. rewrite write_all_app, Ep. by destruct pl.
  - cbn. destruct pl; cbn [dp_ssd af app]; [by rewrite !write_all_app|done].
Qed.

(** A unit of a plan and its footprint. *)
Definition footprint : Type := (Z -> Prop) * (Z -> Prop).
Definition apart (f g : footprint) : Prop := (forall a, f.1 a -> g.1 a -> False) /\ (forall a, f.2 a -> g.2 a -> False).
Record unit_in (f : footprint) (u : plan) : Prop := {
  ui_ssd : forall w a, w ∈ writes u -> covers w a -> f.2 a;
  ui_nvm : forall w a, w ∈ pmem_writes u ++ metadata_writes u -> covers w a -> f.1 a;
  ui_merge : forall g a, g ∈ merges u -> u64 (mp_ssd_offset g) <= a < u64 (mp_ssd_offset g) + kPageSize -> f.2 a;
  ui_direct : forall g a, g ∈ direct_ssd_merges u -> dm_ssd_offset g <= a < dm_ssd_offset g + kBlockSize -> f.2 a;
  ui_fit : forall g, g ∈ direct_ssd_merges u -> 0 <= dm_inside g /\ dm_inside g + len (dm_source g) <= kBlockSize;
  ui_only : writes u = [] \/ (merges u = [] /\ direct_ssd_merges u = []);
}.

Definition sum_plans (us : list plan) : plan := foldr add_plan empty_plan us.
Lemma add_plan_assoc p q r : add_plan p (add_plan q r) = add_plan (add_plan p q) r.
Proof. unfold add_plan. cbn. by rewrite !app_assoc. Qed.
Lemma add_plan_empty_r p : add_plan p empty_plan = p.
Proof. destruct p. unfold add_plan. cbn. by rewrite !app_nil_r. Qed.
Lemma add_plan_empty_l p : add_plan empty_plan p = p.
Proof. by destruct p. Qed.
Lemma sum_plans_app us1 us2 : sum_plans (us1 ++ us2) = add_plan (sum_plans us1) (sum_plans us2).
Proof.
  induction us1 as [|u us1 IH]; [symmetry; apply add_plan_empty_l|]. cbn [sum_plans foldr app] in *.
  change (foldr add_plan empty_plan (us1 ++ us2)) with (sum_plans (us1 ++ us2)). rewrite IH, add_plan_assoc. done.
Qed.

Section sum_elem.
Context {A : Type} (sel : plan -> list A).
Hypothesis sel_empty : sel empty_plan = [].
Hypothesis sel_add : forall p q, sel (add_plan p q) = sel p ++ sel q.
Lemma sum_elem us w : w ∈ sel (sum_plans us) -> exists v, v ∈ us /\ w ∈ sel v.
Proof.
  induction us as [|u us IH]; cbn [sum_plans foldr]; [rewrite sel_empty; by intros ?%not_elem_of_nil|].
  rewrite sel_add. intros [H|H]%elem_of_app; [exists u; by split; [left|]|]. destruct (IH H) as (v & Hv & Hw). exists v. by split; [right|].
Qed.
End sum_elem.


(** The other units leave a footprint alone. *)
Definition others_apart (f : footprint) (us : list plan) : Prop := forall v, v ∈ us -> exists g, apart f g /\ unit_in g v.
Lemma others_ssd f us w a : others_apart f us -> w ∈ writes (sum_plans us) -> f.2 a -> ~ covers w a.
Proof.
  intros Ho Hw Ha Hc. destruct (sum_elem writes eq_refl (fun _ _ => eq_refl) us w Hw) as (v & Hv & Hwv).
  destruct (Ho v Hv) as (g & [_ H2] & Hu). apply (H2 a Ha). by apply (ui_ssd _ _ Hu w).
Qed.
Lemma others_nvm f us w a : others_apart f us -> (w ∈ pmem_writes (sum_plans us) \/ w ∈ metadata_writes (sum_plans us)) ->
  f.1 a -> ~ covers w a.
Proof.
  intros Ho Hw Ha Hc. assert (exists v, v ∈ us /\ w ∈ pmem_writes v ++ metadata_writes v) as (v & Hv & Hwv).
  { destruct Hw as [Hw|Hw];
      [destruct (sum_elem pmem_writes eq_refl (fun _ _ => eq_refl) us w Hw) as (v & Hv & ?)
      |destruct (sum_elem metadata_writes eq_refl (fun _ _ => eq_refl) us w Hw) as (v & Hv & ?)];
      exists v; (split; [done|]); apply elem_of_app; tauto. }
  destruct (Ho v Hv) as (g & [H1 _] & Hu). apply (H1 a Ha). by apply (ui_nvm _ _ Hu w).
Qed.
Lemma others_merged f us dm merged w a : others_apart f us -> merge_pages dm (merges (sum_plans us)) = inr merged -> w ∈ merged ->
  f.2 a -> ~ covers w a.
Proof.
  intros Ho Hm Hw Ha Hc. destruct (merge_pages_elem _ _ _ _ Hm Hw) as (g & Hg & E1 & E2).
  destruct (sum_elem merges eq_refl (fun _ _ => eq_refl) us g Hg) as (v & Hv & Hgv). destruct (Ho v Hv) as (h & [_ H2] & Hu).
  apply (H2 a Ha). apply (ui_merge _ _ Hu g a Hgv). unfold covers in Hc. apply len_overlay_page in E2. lia.
Qed.
Lemma others_direct f us dm w a : others_apart f us -> w ∈ map (merge_direct dm) (direct_ssd_merges (sum_plans us)) ->
  f.2 a -> ~ covers w a.
Proof.
  intros Ho Hw Ha Hc. apply list_elem_of_fmap in Hw as (g & -> & Hg).
  destruct (sum_elem direct_ssd_merges eq_refl (fun _ _ => eq_refl) us g Hg) as (v & Hv & Hgv). destruct (Ho v Hv) as (h & [_ H2] & Hu).
  apply (H2 a Ha). apply (ui_direct _ _ Hu g a Hgv). destruct (ui_fit _ _ Hu g Hgv) as [F1 F2].
  unfold covers, merge_direct in Hc. cbn in Hc. rewrite len_patch in Hc; rewrite ?len_nvm_read in *; unfold kBlockSize in *; lia.
Qed.

(** On its footprint the plan has the effect of the unit. *)
Lemma exec_unit e d us1 u us2 f d' : execute_plan e d (sum_plans (us1 ++ u :: us2)) = inr d' -> unit_in f u ->
  others_apart f us1 -> others_apart f us2 ->
  exists merged, merge_pages d (merges u) = inr merged /\
    (forall a, f.1 a -> dp_nvm d' a = plan_nvm (dp_nvm d) u a) /\
    (forall a, f.2 a -> dp_ssd d' a = plan_ssd d u merged a).
Proof.
  intros Hx Hu Ho1 Ho2. apply execute_plan_inv in Hx as (dm & merged & Hdm & Hm & Hn & Hs).
  set (p1 := sum_plans us1) in *. set (p2 := sum_plans us2) in *.
  assert (sum_plans (us1 ++ u :: us2) = add_plan p1 (add_plan u p2)) as E by apply sum_plans_app.
  rewrite E in *. cbn [merges writes direct_ssd_merges add_plan] in *.
  apply merge_pages_app in Hm as (m1 & m' & -> & Hm1 & Hm). apply merge_pages_app in Hm as (mu & m2 & -> & Hmu & Hm2).
  assert (dp_nvm dm = dp_nvm d) as Ednvm by by destruct Hdm as [-> | ->].
  assert (forall a, f.2 a -> merges u <> [] \/ direct_ssd_merges u <> [] -> dp_ssd dm a = dp_ssd d a) as Eread.
  { intros a Ha Hne. destruct Hdm as [-> | ->]; [done|]. cbn. destruct (ui_only _ _ Hu) as [->|[? ?]]; [|naive_solver].
    apply write_all_miss. intros w [Hw|Hw]%elem_of_app; [by eapply (others_ssd f us1)|by eapply (others_ssd f us2)]. }
  exists mu. split_and!.
  - rewrite <-Hmu. symmetry. apply merge_pages_ext; [done|]. intros g Hg a Ha. apply Eread; [by apply (ui_merge _ _ Hu g)|].
    left. intros E'. rewrite E' in Hg. by apply not_elem_of_nil in Hg.
  - intros a Ha. rewrite Hn. unfold plan_nvm. cbn [pmem_writes metadata_writes add_plan]. rewrite !write_all_app.
    rewrite (write_all_miss (metadata_writes p2)) by (intros w Hw; eapply (others_nvm f us2); eauto).
    apply write_all_local. rewrite (write_all_miss (metadata_writes p1)) by (intros w Hw; eapply (others_nvm f us1); eauto).
    rewrite (write_all_miss (pmem_writes p2)) by (intros w Hw; eapply (others_nvm f us2); eauto).
    apply write_all_local. apply write_all_miss. intros w Hw. eapply (others_nvm f us1); eauto.
  - intros a Ha. rewrite Hs. unfold plan_ssd. rewrite !map_app, !write_all_app.
    rewrite (write_all_miss (map _ (direct_ssd_merges p2))) by (intros w Hw; by eapply (others_direct f us2)).
    assert (map (merge_direct dm) (direct_ssd_merges u) = map (merge_direct d) (direct_ssd_merges u)) as ->.
    { apply map_ext_in. intros g Hg%list_elem_of_In. unfold merge_direct. do 2 f_equal. apply nvm_read_ext. intros b Hb.
      apply Eread; [by apply (ui_direct _ _ Hu g)|]. right. intros E'. rewrite E' in Hg. by apply not_elem_of_nil in Hg. }
    apply write_all_local. rewrite (write_all_miss (map _ (direct_ssd_merges p1))) by (intros w Hw; by eapply (others_direct f us1)).
    rewrite (write_all_miss m2) by (intros w Hw; by eapply (others_merged f us2)).
    apply write_all_local. rewrite (write_all_miss m1) by (intros w Hw; by eapply (others_merged f us1)).
    rewrite (write_all_miss (writes p2)) by (intros w Hw; by eapply (others_ssd f us2)).
    apply write_all_local. apply write_all_miss. intros w Hw. by eapply (others_ssd f us1).
Qed.

(** What no unit touches stays. *)
Lemma exec_frame e d us f d' : execute_plan e d (sum_plans us) = inr d' -> others_apart f us ->
  (forall a, f.1 a -> dp_nvm d' a = dp_nvm d a) /\ (forall a, f.2 a -> dp_ssd d' a = dp_ssd d a).
Proof.
  intros Hx Ho. assert (sum_plans us = sum_plans (us ++ [empty_plan])) as E by (rewrite sum_plans_app; by rewrite add_plan_empty_r).
  rewrite E in Hx. destruct (exec_unit e d us empty_plan [] f d' Hx) as (merged & Hm & Hn & Hs);
    [split; try (by intros ? ? ?%not_elem_of_nil); [by intros ? ?%not_elem_of_nil|by left]|done|by intros v ?%not_elem_of_nil|].
  cbn in Hm. injection Hm as <-. done.
Qed.

(** ** Blocks: footprints and units *)

(** The bytes of persistent memory of a page: its data and, in a strata block, its metadata. *)
Definition page_nvm (b : orchfs_core_block) (page a : Z) : Prop :=
  nvm_page_offset b page <= a < nvm_page_offset b page + kPageSize \/
  (cb_type b = ORCHFS_CORE_STRATA_BLOCK /\ buffer_metadata_offset b page <= a < buffer_metadata_offset b page + kBufferMetadataSize).
Definition page_fp (b : orchfs_core_block) (page : Z) : footprint :=
  (page_nvm b page,
   fun a => cb_type b <> ORCHFS_CORE_VIRTUAL_BLOCK /\
     ssd_device_offset b + page * kPageSize <= a < ssd_device_offset b + (page + 1) * kPageSize).
Definition block_fp (b : orchfs_core_block) : footprint :=
  (fun a => exists page, is_page page /\ 0 <= nvm_page_offset b page /\ page_nvm b page a,
   fun a => cb_type b <> ORCHFS_CORE_VIRTUAL_BLOCK /\ ssd_device_offset b <= a < ssd_device_offset b + kBlockSize).

(** A block does not use a byte of persistent memory twice. *)
Record block_sep (b : orchfs_core_block) : Prop := {
  bs_pages : forall p q a, is_page p -> is_page q -> 0 <= nvm_page_offset b p -> 0 <= nvm_page_offset b q ->
    page_nvm b p a -> page_nvm b q a -> p = q;
  bs_metadata : cb_type b = ORCHFS_CORE_STRATA_BLOCK -> forall p a, is_page p -> 0 <= nvm_page_offset b p ->
    nvm_page_offset b p <= a < nvm_page_offset b p + kPageSize ->
    buffer_metadata_offset b p <= a < buffer_metadata_offset b p + kBufferMetadataSize -> False;
  bs_both : cb_type b = ORCHFS_CORE_STRATA_BLOCK -> forall p, is_page p ->
    0 <= nvm_page_offset b p <-> 0 <= buffer_metadata_offset b p;
}.

Lemma page_fp_apart b p q : block_sep b -> is_page p -> is_page q -> 0 <= nvm_page_offset b p -> 0 <= nvm_page_offset b q ->
  p <> q -> apart (page_fp b p) (page_fp b q).
Proof.
  intros Hs Hp Hq Np Nq Hne. split; cbn.
  - intros a Ha Ha'. by apply Hne, (bs_pages b Hs p q a).
  - intros a [_ Ha] [_ Ha']. unfold kPageSize in *. apply Hne. lia.
Qed.

(** What a part of a page becomes. *)
Definition page_after (d d' : data) (b : orchfs_core_block) (page in_page : Z) (bytes : list Z) : Prop :=
  forall x, 0 <= x < kPageSize -> block_byte d' b (page * kPageSize + x) =
    if in_range x in_page (len bytes) then byte_at bytes (x - in_page) else block_byte d b (page * kPageSize + x).

Lemma block_byte_page d b page x : 0 <= x < kPageSize -> block_byte d b (page * kPageSize + x) =
  if (cb_type b =? ORCHFS_CORE_VIRTUAL_BLOCK) || ((cb_type b =? ORCHFS_CORE_STRATA_BLOCK) && (0 <=? nvm_page_offset b page) &&
       in_segments (page_metadata (dp_nvm d) b page) x)
  then dp_nvm d (nvm_page_offset b page + x) else dp_ssd d (ssd_device_offset b + page * kPageSize + x).
Proof.
  intros H. unfold block_byte, in_nvm. destruct (page_split page x H) as [-> ->]. by rewrite Z.add_assoc.
Qed.

(** Agreement on a page's footprint keeps the page. *)
Lemma page_same d d' b page : is_page page -> (0 <= nvm_page_offset b page \/ cb_type b <> ORCHFS_CORE_VIRTUAL_BLOCK) ->
  (forall a, (page_fp b page).1 a -> 0 <= nvm_page_offset b page -> dp_nvm d' a = dp_nvm d a) ->
  (forall a, (page_fp b page).2 a -> dp_ssd d' a = dp_ssd d a) ->
  (0 <= nvm_page_offset b page -> cb_type b = ORCHFS_CORE_STRATA_BLOCK -> page_metadata (dp_nvm d') b page = page_metadata (dp_nvm d) b page) /\
  forall x, 0 <= x < kPageSize -> block_byte d' b (page * kPageSize + x) = block_byte d b (page * kPageSize + x).
Proof.
  intros Hp Hv Hn Hs. assert (0 <= nvm_page_offset b page -> cb_type b = ORCHFS_CORE_STRATA_BLOCK ->
    page_metadata (dp_nvm d') b page = page_metadata (dp_nvm d) b page) as Hm.
  { intros Hpos Ht. apply metadata_at_ext. intros a Ha. apply Hn; [right; done|done]. }
  split; [done|]. intros x Hx. rewrite !block_byte_page by done.
  destruct (Z.eqb_spec (cb_type b) ORCHFS_CORE_VIRTUAL_BLOCK) as [Ev|Ev]; cbn [orb].
  - destruct Hv as [Hv|?]; [|done]. apply Hn; [left; unfold kPageSize in *; lia|done].
  - assert (dp_ssd d' (ssd_device_offset b + page * kPageSize + x) = dp_ssd d (ssd_device_offset b + page * kPageSize + x)) as Es
      by (apply Hs; cbn; split; [done|unfold kPageSize in *; lia]).
    destruct (Z.eqb_spec (cb_type b) ORCHFS_CORE_STRATA_BLOCK) as [Et|Et]; cbn [andb]; [|done].
    destruct (Z.leb_spec 0 (nvm_page_offset b page)) as [Hpos|Hneg]; cbn [andb]; [|done].
    rewrite Hm by done. destruct (in_segments _ _); [|done]. apply Hn; [left; unfold kPageSize in *; lia|done].
Qed.

(** The effect of a unit on its footprint, and what makes it succeed. *)
Definition effect (d d' : data) (f : footprint) (u : plan) : Prop :=
  exists merged, merge_pages d (merges u) = inr merged /\
    (forall a, f.1 a -> dp_nvm d' a = plan_nvm (dp_nvm d) u a) /\ (forall a, f.2 a -> dp_ssd d' a = plan_ssd d u merged a).
Definition unit_runs (m : pmem) (u : plan) : Prop :=
  (forall w, w ∈ pmem_writes u -> pmem_range w.1 (len w.2)) /\
  (forall g, g ∈ merges u -> forall ssd, exists page, merge_one (mk_data m ssd) g = inr page).

Lemma elem_one {A} (x y : A) : x ∈ [y] -> x = y.
Proof. apply list_elem_of_singleton. Qed.

(** A unit without merges writes one range of the SSD or of persistent memory, and metadata. *)
Lemma simple_unit f ws ps ms : (forall w a, w ∈ ws -> covers w a -> f.2 a) -> (forall w a, w ∈ ps ++ ms -> covers w a -> f.1 a) ->
  unit_in f (mk_plan ws ps ms [] []).
Proof.
  intros H1 H2. split; cbn; try (by intros ? ? ?%not_elem_of_nil); [done|done|by intros ? ?%not_elem_of_nil|by right].
Qed.

Lemma virtual_part d d' b page in_page bytes : cb_type b = ORCHFS_CORE_VIRTUAL_BLOCK -> is_page page -> 0 <= nvm_page_offset b page ->
  pmem_range (nvm_page_offset b page) kPageSize -> 0 <= in_page -> in_page + len bytes <= kPageSize ->
  let u := mk_plan [] [(nvm_page_offset b page + in_page, bytes)] [] [] [] in
  unit_in (page_fp b page) u /\ unit_runs (dp_nvm d) u /\ (effect d d' (page_fp b page) u -> page_after d d' b page in_page bytes).
Proof.
  intros Ht Hp Hpos [R1 R2] Hi Hl u. unfold kPageSize in *. split_and!.
  - apply simple_unit; [by intros ? ? ?%not_elem_of_nil|]. intros w a ->%elem_one Ha. left. unfold covers in Ha. cbn in Ha. unfold kPageSize. lia.
  - split; [|by intros ? ?%not_elem_of_nil]. intros w ->%elem_one. unfold pmem_range. cbn. lia.
  - intros (merged & _ & Hn & _) x Hx. unfold kPageSize in Hx. rewrite !block_byte_page by (unfold kPageSize; lia). rewrite Ht. cbn [Z.eqb orb ORCHFS_CORE_VIRTUAL_BLOCK Pos.eqb].
    rewrite Hn by (left; unfold kPageSize; lia). unfold plan_nvm. cbn [u pmem_writes metadata_writes app write_all fold_left fst snd].
    unfold nvm_write. destruct (in_rangeP x in_page (len bytes)) as [H|H].
    + rewrite (proj2 (in_range_spec _ _ _)) by lia. f_equal. lia.
    + by rewrite (proj2 (in_range_false _ _ _)) by lia.
Qed.

Section strata.
Context (d : data) (b : orchfs_core_block) (page : Z).
Hypothesis Ht : cb_type b = ORCHFS_CORE_STRATA_BLOCK.
Hypothesis Hok : block_ok (dp_nvm d) b.
Hypothesis Hsep : block_sep b.
Hypothesis Hpg : is_page page.
Hypothesis Hpos : 0 <= nvm_page_offset b page.
Abbreviation o := (nvm_page_offset b page).
Abbreviation meta := (buffer_metadata_offset b page).
Abbreviation so := (ssd_device_offset b + page * kPageSize).

Lemma strata_ranges : pmem_range o kPageSize /\ pmem_range meta kBufferMetadataSize /\ metadata_ok (page_metadata (dp_nvm d) b page) /\
  0 <= so /\ so + kPageSize < 2 ^ 64 /\ 0 <= meta.
Proof.
  destruct (bo_meta _ _ Hok Ht page Hpg Hpos) as [H1 H2]. destruct (bo_ssd _ _ Hok) as [S1 S2]; [by rewrite Ht|].
  pose proof (bo_page _ _ Hok page Hpg Hpos). unfold is_page, ORCHFS_CORE_PAGE_COUNT, kPageSize, kBlockSize in *.
  split_and!; try done; try lia. apply H1.
Qed.

Lemma strata_byte d1 x : 0 <= x < kPageSize -> block_byte d1 b (page * kPageSize + x) =
  if in_segments (page_metadata (dp_nvm d1) b page) x then dp_nvm d1 (o + x) else dp_ssd d1 (so + x).
Proof.
  intros Hx. rewrite block_byte_page by done. rewrite Ht. cbn [Z.eqb orb andb ORCHFS_CORE_VIRTUAL_BLOCK ORCHFS_CORE_STRATA_BLOCK Pos.eqb].
  by rewrite (proj2 (Z.leb_le 0 o) Hpos).
Qed.

(** The metadata after a unit that writes new metadata and one range of the page. *)
Lemma strata_metadata m' values ps : length values = 64%nat -> Forall s16_range values ->
  (forall w a, w ∈ ps -> covers w a -> o <= a < o + kPageSize) ->
  (forall a, page_nvm b page a -> m' a = write_all (dp_nvm d) (ps ++ [(meta, metadata_enc values)]) a) ->
  page_metadata m' b page = values.
Proof.
  intros Hl Hr Hw Hm. unfold page_metadata. rewrite (metadata_at_ext m' (nvm_write (write_all (dp_nvm d) ps) (metadata_enc values) meta)).
  - by apply metadata_at_write.
  - intros a Ha. rewrite Hm by (right; done). by rewrite write_all_app.
Qed.
Lemma strata_data m' values ps x : length values = 64%nat -> 0 <= x < kPageSize ->
  (forall a, page_nvm b page a -> m' a = write_all (dp_nvm d) (ps ++ [(meta, metadata_enc values)]) a) ->
  m' (o + x) = write_all (dp_nvm d) ps (o + x).
Proof.
  intros Hl Hx Hm. rewrite Hm by (left; unfold kPageSize in *; lia). rewrite write_all_app. apply write_all_miss.
  intros w ->%elem_one Hc. unfold covers in Hc. cbn in Hc. rewrite len_metadata_enc, Hl in Hc.
  apply (bs_metadata b Hsep Ht page (o + x) Hpg Hpos); unfold kPageSize, kBufferMetadataSize in *; lia.
Qed.

(** A whole page that goes to the SSD. *)
Lemma strata_full d' bytes : len bytes = kPageSize ->
  let u := mk_plan [(so, bytes)] [] [(meta, metadata_enc no_metadata)] [] [] in
  unit_in (page_fp b page) u /\ unit_runs (dp_nvm d) u /\
  (effect d d' (page_fp b page) u -> page_after d d' b page 0 bytes /\ metadata_ok (page_metadata (dp_nvm d') b page)).
Proof.
  intros Hl u. destruct strata_ranges as (R1 & R2 & R3 & R4 & R5 & R6). destruct no_metadata_ok as (N1 & N2 & N3).
  split_and!.
  - apply simple_unit; [intros w a ->%elem_one Ha; split; [by rewrite Ht|unfold covers in Ha; cbn in Ha; lia]|].
    intros w a ->%elem_one Ha. right. split; [done|]. unfold covers in Ha. cbn [fst snd] in Ha. rewrite len_metadata_enc in Ha. apply Ha.
  - split; by intros ? ?%not_elem_of_nil.
  - intros (merged & Hm & Hn & Hs). cbn in Hm. injection Hm as <-.
    assert (page_metadata (dp_nvm d') b page = no_metadata) as Em.
    { apply (strata_metadata _ no_metadata []); [done|done|by intros ? ? ?%not_elem_of_nil|exact Hn]. }
    rewrite Em. split; [|done]. intros x Hx. rewrite (strata_byte d') by done. rewrite Em, N3.
    rewrite Hs by (split; [by rewrite Ht|unfold kPageSize in *; lia]). unfold plan_ssd. cbn [u writes direct_ssd_merges map app write_all fold_left fst snd].
    rewrite nvm_write_in by (unfold kPageSize in *; lia). rewrite (proj2 (in_range_spec _ _ _)) by (unfold kPageSize in *; lia). f_equal. lia.
Qed.

(** A part that goes to persistent memory, with a segment added. *)
Lemma strata_segment d' in_page bytes : 0 <= in_page -> in_page + len bytes <= kPageSize ->
  md (page_metadata (dp_nvm d) b page) 0 < kMaximumBufferSegments ->
  let u := mk_plan [] [(o + in_page, bytes)]
             [(meta, metadata_enc (add_segment (page_metadata (dp_nvm d) b page) in_page (len bytes)))] [] [] in
  unit_in (page_fp b page) u /\ unit_runs (dp_nvm d) u /\
  (effect d d' (page_fp b page) u -> page_after d d' b page in_page bytes /\ metadata_ok (page_metadata (dp_nvm d') b page)).
Proof.
  intros Hi Hl Hlt u. destruct strata_ranges as ([R1 R1'] & R2 & R3 & R4 & R5 & R6). pose proof (len_nonneg bytes) as Hb.
  destruct (add_segment_ok (page_metadata (dp_nvm d) b page) in_page (len bytes)) as (N1 & N2 & N3);
    [done|apply metadata_dec_range|done|done|done|done|]. set (values := add_segment _ _ _) in *.
  assert (length values = 64%nat) as Hlv by apply N1. unfold kPageSize in *.
  assert (forall w a, w ∈ [(o + in_page, bytes)] -> covers w a -> o <= a < o + kPageSize) as Hcov.
  { intros w a ->%elem_one Ha. unfold covers, kPageSize in *. cbn in Ha. lia. }
  split_and!.
  - apply simple_unit; [by intros ? ? ?%not_elem_of_nil|]. intros w a [Hw|Hw]%elem_of_cons Ha; [left; apply (Hcov w); [by rewrite Hw; left|done]|].
    apply elem_one in Hw as ->. right. split; [done|]. unfold covers in Ha. cbn [fst snd] in Ha. rewrite len_metadata_enc, Hlv in Ha. apply Ha.
  - split; [|by intros ? ?%not_elem_of_nil]. intros w ->%elem_one. unfold pmem_range. cbn. lia.
  - intros (merged & Hm & Hn & Hs). cbn in Hm. injection Hm as <-.
    assert (page_metadata (dp_nvm d') b page = values) as Em by (by apply (strata_metadata _ values [(o + in_page, bytes)])).
    rewrite Em. split; [|done]. intros x Hx. rewrite !strata_byte by done. rewrite Em, N3.
    assert (dp_nvm d' (o + x) = nvm_write (dp_nvm d) bytes (o + in_page) (o + x)) as En
      by (by apply (strata_data _ values [(o + in_page, bytes)])).
    destruct (in_rangeP x in_page (len bytes)) as [H|H]; cbn [orb].
    + rewrite En, nvm_write_in by lia. f_equal. lia.
    + rewrite En, nvm_write_out by lia. destruct (in_segments _ _); [done|].
      rewrite Hs; [done|]. split; [by rewrite Ht|unfold kPageSize in *; lia].
Qed.

(** A part of a page whose twelve segments are used: the page is merged first. *)
Lemma strata_merge d' in_page bytes : 0 <= in_page -> in_page + len bytes <= kPageSize ->
  let u := mk_plan [] [(o + in_page, bytes)] [(meta, metadata_enc (add_segment no_metadata in_page (len bytes)))]
             [mk_merge_page so o (page_metadata (dp_nvm d) b page)] [] in
  unit_in (page_fp b page) u /\ unit_runs (dp_nvm d) u /\
  (effect d d' (page_fp b page) u -> page_after d d' b page in_page bytes /\ metadata_ok (page_metadata (dp_nvm d') b page)).
Proof.
  intros Hi Hl u. destruct strata_ranges as ([R1 R1'] & R2 & R3 & R4 & R5 & R6). pose proof (len_nonneg bytes) as Hb.
  destruct no_metadata_ok as (Z1 & Z2 & Z3).
  destruct (add_segment_ok no_metadata in_page (len bytes)) as (N1 & N2 & N3); [done|done|by vm_compute|done|done|done|].
  set (values := add_segment _ _ _) in *. assert (length values = 64%nat) as Hlv by apply N1. unfold kPageSize in *.
  assert (forall w a, w ∈ [(o + in_page, bytes)] -> covers w a -> o <= a < o + kPageSize) as Hcov.
  { intros w a ->%elem_one Ha. unfold covers, kPageSize in *. cbn in Ha. lia. }
  assert (forall ssd, exists pg, merge_one (mk_data (dp_nvm d) ssd) (mk_merge_page so o (page_metadata (dp_nvm d) b page)) = inr pg /\
    forall x, 0 <= x < kPageSize -> byte_at pg x = if in_segments (page_metadata (dp_nvm d) b page) x then dp_nvm d (o + x) else ssd (so + x)) as Hmg.
  { intros ssd. unfold merge_one. cbn [dp_nvm dp_ssd mp_ssd_offset mp_nvm_offset mp_metadata]. rewrite u64_small by (unfold kPageSize in *; lia).
    destruct (overlay_page_spec (dp_nvm d) (nvm_read ssd kPageSize so) o (page_metadata (dp_nvm d) b page)) as (pg & -> & _ & H);
      [done|done|apply len_nvm_read; unfold kPageSize; lia|]. exists pg. split; [done|]. intros x Hx. rewrite (H x Hx).
    destruct (in_segments _ _); [done|]. by apply byte_at_nvm_read. }
  split_and!.
  - split; cbn [u writes pmem_writes metadata_writes merges direct_ssd_merges]; try (by intros ? ? ?%not_elem_of_nil);
      [|intros g a ->%elem_one Ha; cbn in Ha; rewrite u64_small in Ha by (unfold kPageSize; lia); split; [by rewrite Ht|unfold kPageSize in *; lia]
      |by intros ? ?%not_elem_of_nil|by left].
    intros w a [Hw|Hw]%elem_of_cons Ha; [left; apply (Hcov w); [by rewrite Hw; left|done]|].
    apply elem_one in Hw as ->. right. split; [done|]. unfold covers in Ha. cbn [fst snd] in Ha. rewrite len_metadata_enc, Hlv in Ha. apply Ha.
  - split; [intros w ->%elem_one; unfold pmem_range; cbn; lia|]. intros g ->%elem_one ssd. destruct (Hmg ssd) as (pg & ? & _). by exists pg.
  - intros (merged & Hm & Hn & Hs). destruct (Hmg (dp_ssd d)) as (pg & E & Hpgb). cbn [u merges merge_pages mp_ssd_offset mp_nvm_offset mp_metadata] in Hm.
    unfold merge_one in E. cbn [dp_nvm dp_ssd mp_ssd_offset mp_nvm_offset mp_metadata] in E.
    pose proof (len_overlay_page _ _ _ _ _ E) as Hlp. change 4096 with kPageSize in Hm. rewrite E in Hm. injection Hm as <-. cbn [mp_ssd_offset] in Hs.
    rewrite u64_small in Hs by (unfold kPageSize; lia).
    assert (page_metadata (dp_nvm d') b page = values) as Em by (by apply (strata_metadata _ values [(o + in_page, bytes)])).
    rewrite Em. split; [|done]. intros x Hx. rewrite !strata_byte by done. rewrite Em, N3, Z3, orb_false_r.
    destruct (in_rangeP x in_page (len bytes)) as [H|H].
    + rewrite (strata_data _ values [(o + in_page, bytes)]) by done. cbn. rewrite nvm_write_in by lia. f_equal. lia.
    + rewrite Hs by (split; [by rewrite Ht|unfold kPageSize in *; lia]). unfold plan_ssd.
      cbn [u writes direct_ssd_merges map app write_all fold_left fst snd]. rewrite nvm_write_in by lia.
      replace (so + x - so) with x by lia. by apply Hpgb.
Qed.
End strata.

(** ** Parts of a block *)

(** A unit does to its page what is asked of the part. *)
Definition part_unit (d : data) (b : orchfs_core_block) (input : list Z) (p : Z * Z * Z * Z) (u : plan) : Prop :=
  let '(page, in_page, part, c) := p in
  0 <= nvm_page_offset b page /\ unit_in (page_fp b page) u /\ unit_runs (dp_nvm d) u /\
  forall d', effect d d' (page_fp b page) u -> page_after d d' b page in_page (slice c part input) /\
    (cb_type b = ORCHFS_CORE_STRATA_BLOCK -> metadata_ok (page_metadata (dp_nvm d') b page)).

Lemma strata_part d b input full page in_page part c : cb_type b = ORCHFS_CORE_STRATA_BLOCK -> block_ok (dp_nvm d) b -> block_sep b ->
  is_page page -> 0 <= nvm_page_offset b page -> 0 <= in_page -> 0 < part -> in_page + part <= kPageSize -> 0 <= c -> c + part <= len input ->
  exists u, plan_strata_part (dp_nvm d) b input full page in_page part c = inr u /\ part_unit d b input (page, in_page, part, c) u.
Proof.
  intros Ht Hok Hsep Hpg Hpos Hi Hp Hip Hc Hl. assert (len (slice c part input) = part) as Hls by (apply len_slice; lia).
  destruct (strata_ranges d b page Ht Hok Hpg Hpos) as (R1 & R2 & R3 & R4 & R5 & R6). unfold plan_strata_part.
  rewrite (proj2 (Z.leb_gt _ _)), (proj2 (Z.ltb_ge _ _)), (proj2 (Z.ltb_ge _ _)) by (unfold is_page in Hpg; lia). cbn [orb].
  rewrite read_metadata_ok by done. fold (page_metadata (dp_nvm d) b page).
  destruct (full && (in_page =? 0) && (part =? kPageSize)) eqn:Ef.
  - rewrite !andb_true_iff, !Z.eqb_eq in Ef. destruct Ef as [[_ ->] ->]. rewrite u64_small by (unfold kPageSize in *; lia).
    eexists. split; [done|]. split; [done|]. split_and!; [eapply (strata_full d b page Ht Hok Hpg Hpos d); done..|].
    intros d' He. destruct (strata_full d b page Ht Hok Hpg Hpos d' (slice c kPageSize input) Hls) as (_ & _ & H). by destruct (H He).
  - destruct (Z.eqb_spec (md (page_metadata (dp_nvm d) b page) 0) kMaximumBufferSegments) as [Eq|Hne].
    + pose proof (strata_merge d b page Ht Hok Hsep Hpg Hpos) as T. rewrite <-Hls in Hip.
      eexists (mk_plan _ _ [(_, metadata_enc (add_segment no_metadata in_page (len (slice c part input))))] _ _).
      split; [rewrite Hls; reflexivity|]. split; [done|].
      split_and!; [by apply (T d in_page)..|]. intros d' He. by destruct (T d' in_page (slice c part input) Hi Hip) as (_ & _ & H); destruct (H He).
    + assert (md (page_metadata (dp_nvm d) b page) 0 < kMaximumBufferSegments) as Hlt by (destruct R3 as (_ & ? & _); lia).
      pose proof (strata_segment d b page Ht Hok Hsep Hpg Hpos) as T. rewrite <-Hls in Hip.
      eexists (mk_plan _ _ [(_, metadata_enc (add_segment (page_metadata (dp_nvm d) b page) in_page (len (slice c part input))))] _ _).
      split; [rewrite Hls; reflexivity|]. split; [done|].
      split_and!; [by apply (T d in_page)..|]. intros d' He. by destruct (T d' in_page (slice c part input) Hi Hip Hlt) as (_ & _ & H); destruct (H He).
Qed.

Lemma plan_strata_units d b input full inside chunk parts : cb_type b = ORCHFS_CORE_STRATA_BLOCK -> block_ok (dp_nvm d) b ->
  block_sep b -> Forall (part_ok inside chunk 0) parts -> chunk <= len input ->
  Forall (fun p => 0 <= nvm_page_offset b p.1.1.1) parts ->
  exists us, plan_strata (dp_nvm d) b input full parts = inr (sum_plans us) /\ Forall2 (part_unit d b input) parts us.
Proof.
  intros Ht Hok Hsep Hp Hl Hn. induction parts as [|[[[page in_page] part] c] parts IH]; [by exists []|].
  apply Forall_cons in Hp as [(P1 & P2 & P3 & P4 & P5 & P6 & P7) Hp]. apply Forall_cons in Hn as [Hpos Hn]. cbn in Hpos.
  destruct (strata_part d b input full page in_page part c) as (u & E & Hu); try done; [lia|]. cbn [plan_strata]. rewrite E.
  destruct IH as (us & -> & Hus); [done|done|]. exists (u :: us). split; [done|]. by constructor.
Qed.
Lemma plan_virtual_units d b input inside chunk parts : cb_type b = ORCHFS_CORE_VIRTUAL_BLOCK -> block_ok (dp_nvm d) b ->
  Forall (part_ok inside chunk 0) parts -> chunk <= len input -> Forall (fun p => 0 <= nvm_page_offset b p.1.1.1) parts ->
  exists us, plan_virtual b input parts = inr (sum_plans us) /\ Forall2 (part_unit d b input) parts us.
Proof.
  intros Ht Hok Hp Hl Hn. induction parts as [|[[[page in_page] part] c] parts IH]; [by exists []|].
  apply Forall_cons in Hp as [(P1 & P2 & P3 & P4 & P5 & P6 & P7) Hp]. apply Forall_cons in Hn as [Hpos Hn]. cbn in Hpos.
  assert (len (slice c part input) = part) as Hls by (apply len_slice; lia). cbn [plan_virtual].
  rewrite (proj2 (Z.leb_gt _ _)), (proj2 (Z.ltb_ge _ _)) by (unfold is_page in P5; lia). cbn [orb].
  destruct IH as (us & -> & Hus); [done|done|]. eexists (_ :: us). split; [done|]. constructor; [|done].
  pose proof (fun d' => virtual_part d d' b page in_page (slice c part input) Ht P5 Hpos (bo_page _ _ Hok page P5 Hpos) P3 ltac:(lia)) as T.
  split; [done|]. split_and!; [apply (T d)..|]. intros d' He. split; [by apply T|]. by rewrite Ht.
Qed.

(** What a write makes of a block; a virtual block need not have all its pages. *)
Definition present (b : orchfs_core_block) (i : Z) : Prop :=
  0 <= nvm_page_offset b (i / kPageSize) \/ cb_type b <> ORCHFS_CORE_VIRTUAL_BLOCK.
Definition block_after (d d' : data) (b : orchfs_core_block) (inside : Z) (input : list Z) : Prop :=
  forall i, 0 <= i < kBlockSize -> present b i ->
    block_byte d' b i = if in_range i inside (len input) then byte_at input (i - inside) else block_byte d b i.

Lemma others_sub f g us : (forall a, g.1 a -> f.1 a) -> (forall a, g.2 a -> f.2 a) -> others_apart f us -> others_apart g us.
Proof. intros H1 H2 Ho v Hv. destruct (Ho v Hv) as (h & [A1 A2] & Hu). exists h. split; [|done]. split; eauto. Qed.
Lemma others_app f us1 us2 : others_apart f us1 -> others_apart f us2 -> others_apart f (us1 ++ us2).
Proof. intros H1 H2 v [Hv|Hv]%elem_of_app; auto. Qed.
Lemma apart_sym f g : apart f g -> apart g f.
Proof. intros [H1 H2]. split; eauto. Qed.

Lemma page_fp_sub b page a : is_page page -> 0 <= nvm_page_offset b page -> (page_fp b page).1 a -> (block_fp b).1 a.
Proof. intros Hp Hn H. by exists page. Qed.
Lemma page_fp_sub2 b page a : is_page page -> (page_fp b page).2 a -> (block_fp b).2 a.
Proof. unfold is_page, ORCHFS_CORE_PAGE_COUNT. intros Hp [Ht Ha]. split; [done|]. unfold kPageSize, kBlockSize in *. lia. Qed.

(** The units of the other pages of a block. *)
Lemma pages_apart d b input parts us q : block_sep b -> is_page q -> Forall2 (part_unit d b input) parts us ->
  Forall (fun p => is_page p.1.1.1 /\ p.1.1.1 <> q) parts ->
  others_apart (fun a => 0 <= nvm_page_offset b q /\ page_nvm b q a, (page_fp b q).2) us.
Proof.
  intros Hsep Hq H2 Hp v Hv. apply list_elem_of_lookup in Hv as (i & Hi).
  destruct (Forall2_lookup_r _ _ _ _ _ H2 Hi) as ([[[page in_page] part] c] & Hpi & (Hpos & Hu & _)).
  rewrite Forall_lookup in Hp. destruct (Hp _ _ Hpi) as [Hpg Hne]. cbn in Hpg, Hne. exists (page_fp b page). split; [|done]. split; cbn.
  - intros a [Hn Ha] Ha'. apply Hne. by apply (bs_pages b Hsep page q a).
  - intros a [_ Ha] [_ Ha']. unfold kPageSize in *. apply Hne. lia.
Qed.

Section block_parts.
Context (e : write_env) (d d' : data) (b : orchfs_core_block) (inside : Z) (input : list Z).
Context (parts : list (Z * Z * Z * Z)) (U1 us U2 : list plan).
Hypothesis Hok : block_ok (dp_nvm d) b.
Hypothesis Hsep : block_sep b.
Hypothesis Hparts : Forall (part_ok inside (len input) 0) parts.
Hypothesis Hcover : forall y, 0 <= y < len input ->
  exists page in_page part c, (page, in_page, part, c) ∈ parts /\ c <= y < c + part.
Hypothesis Hsorted : StronglySorted (fun p q => p.1.1.1 < q.1.1.1) parts.
Hypothesis Hunits : Forall2 (part_unit d b input) parts us.
Hypothesis Hrun : execute_plan e d (sum_plans (U1 ++ us ++ U2)) = inr d'.
Hypothesis H1 : others_apart (block_fp b) U1.
Hypothesis H2 : others_apart (block_fp b) U2.

Lemma sorted_split ps1 p ps2 : parts = ps1 ++ p :: ps2 -> Forall (fun q => q.1.1.1 <> p.1.1.1) (ps1 ++ ps2).
Proof.
  intros ->. clear -Hsorted. apply Forall_app. induction ps1 as [|x ps1 IH]; cbn in Hsorted; apply StronglySorted_inv in Hsorted as [Hs Hx].
  - split; [done|]. eapply Forall_impl; [exact Hx|]. cbn. intros. lia.
  - destruct (IH Hs) as [A B]. split; [|done]. constructor; [|done]. rewrite Forall_app, Forall_cons in Hx. destruct Hx as (_ & Hx & _). cbn in Hx. lia.
Qed.

Lemma part_effect page in_page part c : (page, in_page, part, c) ∈ parts ->
  page_after d d' b page in_page (slice c part input) /\
  (cb_type b = ORCHFS_CORE_STRATA_BLOCK -> metadata_ok (page_metadata (dp_nvm d') b page)).
Proof.
  intros Hin. apply list_elem_of_split in Hin as (ps1 & ps2 & E). pose proof (sorted_split _ _ _ E) as Hne. rewrite E in Hunits, Hparts.
  apply Forall2_app_inv_l in Hunits as (us1 & us' & F1 & F2 & ->). apply Forall2_cons_inv_l in F2 as (u & us2 & Hu & F2 & ->).
  apply Forall_app in Hne as [Ne1 Ne2]. apply Forall_app in Hparts as [P1 P2]. apply Forall_cons in P2 as [Pp P2].
  destruct Hu as (Hpos & Hui & _ & He). destruct Pp as (_ & _ & _ & _ & Hpg & _).
  assert (forall l, Forall (part_ok inside (len input) 0) l -> Forall (fun q : Z * Z * Z * Z => q.1.1.1 <> page) l ->
    Forall (fun q => is_page q.1.1.1 /\ q.1.1.1 <> page) l) as Hcomb.
  { intros l A B. apply Forall_forall. intros [[[pg ip] pt] cc] Hx. rewrite Forall_forall in A, B. specialize (A _ Hx). specialize (B _ Hx).
    destruct A as (_ & _ & _ & _ & A & _). done. }
  apply He. replace (U1 ++ (us1 ++ u :: us2) ++ U2) with ((U1 ++ us1) ++ u :: (us2 ++ U2)) in Hrun by (by rewrite <-!app_assoc).
  destruct (exec_unit e d _ u _ (page_fp b page) d' Hrun Hui) as (mg & Em & En & Es); [| |by exists mg].
  - apply others_app; [eapply others_sub; [| |exact H1]; intros a; [by apply page_fp_sub|by apply page_fp_sub2]|].
    eapply others_sub; [| |apply (pages_apart d b input ps1 us1 page Hsep Hpg F1), (Hcomb ps1); done]; [by cbn|done].
  - apply others_app; [|eapply others_sub; [| |exact H2]; intros a; [by apply page_fp_sub|by apply page_fp_sub2]].
    eapply others_sub; [| |apply (pages_apart d b input ps2 us2 page Hsep Hpg F2), (Hcomb ps2); done]; [by cbn|done].
Qed.

Lemma page_untouched page : is_page page -> Forall (fun q => q.1.1.1 <> page) parts ->
  (0 <= nvm_page_offset b page \/ cb_type b <> ORCHFS_CORE_VIRTUAL_BLOCK) ->
  (0 <= nvm_page_offset b page -> cb_type b = ORCHFS_CORE_STRATA_BLOCK ->
    page_metadata (dp_nvm d') b page = page_metadata (dp_nvm d) b page) /\
  forall x, 0 <= x < kPageSize -> block_byte d' b (page * kPageSize + x) = block_byte d b (page * kPageSize + x).
Proof.
  intros Hpg Hne Hv. destruct (exec_frame e d _ (fun a => 0 <= nvm_page_offset b page /\ page_nvm b page a, (page_fp b page).2) d' Hrun)
    as [En Es].
  - apply others_app; [eapply others_sub; [| |exact H1]; cbn [fst snd]; [intros a [Hn Ha]; by exists page|intros a; by apply page_fp_sub2]|].
    apply others_app; [|eapply others_sub; [| |exact H2]; cbn [fst snd]; [intros a [Hn Ha]; by exists page|intros a; by apply page_fp_sub2]].
    apply (pages_apart d b input parts us page Hsep Hpg Hunits). apply Forall_forall. intros [[[pg ip] pt] cc] Hx.
    rewrite Forall_forall in Hparts, Hne. specialize (Hparts _ Hx). specialize (Hne _ Hx). by destruct Hparts as (_ & _ & _ & _ & ? & _).
  - apply page_same; [done|done|intros a Ha Hn; apply En; done|exact Es].
Qed.

Lemma part_at page : Forall (fun q => q.1.1.1 <> page) parts \/ exists in_page part c, (page, in_page, part, c) ∈ parts.
Proof.
  clear. induction parts as [|[[[pg ip] pt] cc] l IH]; [left; constructor|]. destruct (Z.eq_dec pg page) as [->|Hne].
  - right. exists ip, pt, cc. by left.
  - destruct IH as [IH|(i & p & c & H)]; [left; by constructor|]. right. exists i, p, c. by right.
Qed.

Lemma part_unique page i1 p1 c1 i2 p2 c2 : (page, i1, p1, c1) ∈ parts -> (page, i2, p2, c2) ∈ parts -> (i1, p1, c1) = (i2, p2, c2).
Proof.
  intros (ps1 & ps2 & E)%list_elem_of_split Hin. pose proof (sorted_split _ _ _ E) as Hne. rewrite Forall_forall in Hne. rewrite E in Hin.
  apply elem_of_app in Hin as [Hin|[Heq|Hin]%elem_of_cons]; [|by injection Heq as -> -> ->|];
    exfalso; (refine (Hne (page, i2, p2, c2) _ eq_refl); apply elem_of_app); [by left|by right].
Qed.

Lemma block_parts_after : 0 <= inside -> block_after d d' b inside input /\ block_ok (dp_nvm d') b.
Proof.
  intros Hi. pose proof (proj1 (Forall_forall _ _) Hparts) as HP. split.
  - intros i Hib Hpres. assert (is_page (i / kPageSize)) as Hpg.
    { unfold is_page, ORCHFS_CORE_PAGE_COUNT, kPageSize, kBlockSize in *. split; [apply Z.div_pos; lia|apply Z.div_lt_upper_bound; lia]. }
    pose proof (Z.mod_pos_bound i kPageSize ltac:(unfold kPageSize; lia)) as Hx.
    pose proof (Z.div_mod i kPageSize ltac:(unfold kPageSize; lia)) as Hdm.
    set (page := i / kPageSize) in *. set (x := i mod kPageSize) in *. replace i with (page * kPageSize + x) by lia.
    destruct (part_at page) as [Hno|(in_page & part & c & Hin)].
    + rewrite (proj2 (page_untouched page Hpg Hno Hpres) x Hx). destruct (in_rangeP (page * kPageSize + x) inside (len input)) as [Hr|Hr]; [|done].
      destruct (Hcover (i - inside)) as (pg & ip & pt & c & Hin & Hy); [lia|].
      rewrite Forall_forall in Hno. specialize (Hno _ Hin). cbn in Hno.
      destruct (HP _ Hin) as (Q1 & Q2 & Q3 & Q4 & Q5 & Q6 & Q7). unfold kPageSize in *. lia.
    + destruct (part_effect page in_page part c Hin) as [Hpa _]. rewrite (Hpa x Hx).
      destruct (HP _ Hin) as (Q1 & Q2 & Q3 & Q4 & Q5 & Q6 & Q7). rewrite len_slice by lia.
      destruct (in_rangeP x in_page part) as [Hr|Hr].
      * rewrite (proj2 (in_range_spec _ _ _)) by lia. rewrite byte_at_slice by lia. f_equal. lia.
      * destruct (in_rangeP (page * kPageSize + x) inside (len input)) as [Hr'|Hr']; [|done].
        destruct (Hcover (page * kPageSize + x - inside)) as (pg & ip & pt & c' & Hin' & Hy); [lia|].
        destruct (HP _ Hin') as (S1 & S2 & S3 & S4 & S5 & S6 & S7). assert (pg = page) as -> by (unfold kPageSize in *; lia).
        pose proof (part_unique _ _ _ _ _ _ _ Hin Hin') as [= -> -> ->]. lia.
  - destruct Hok as [O1 O2 O3 O4]. split; try done. intros Ht page Hpg Hpos. destruct (O4 Ht page Hpg Hpos) as [R M]. split; [done|].
    destruct (part_at page) as [Hno|(in_page & part & c & Hin)].
    + rewrite (proj1 (page_untouched page Hpg Hno (or_introl Hpos)) Hpos Ht). done.
    + by apply (part_effect page in_page part c Hin).
Qed.
End block_parts.

(** ** The plan of one block *)

Definition whole (inside chunk : Z) : bool := (inside =? 0) && (chunk =? kBlockSize).
(** The pages a write of part of a block needs. *)
Definition write_pages (b : orchfs_core_block) (inside chunk : Z) : Prop :=
  cb_type b = ORCHFS_CORE_VIRTUAL_BLOCK \/ (cb_type b = ORCHFS_CORE_STRATA_BLOCK /\ whole inside chunk = false) ->
  forall i, inside <= i < inside + chunk -> 0 <= nvm_page_offset b (i / kPageSize).

Record block_plan (d : data) (b : orchfs_core_block) (inside : Z) (input : list Z) (us : list plan) : Prop := {
  bp_in : forall v, v ∈ us -> exists g, unit_in g v /\ (forall a, g.1 a -> (block_fp b).1 a) /\ (forall a, g.2 a -> (block_fp b).2 a);
  bp_runs : forall v, v ∈ us -> unit_runs (dp_nvm d) v;
  bp_after : forall e U1 U2 d', execute_plan e d (sum_plans (U1 ++ us ++ U2)) = inr d' ->
    others_apart (block_fp b) U1 -> others_apart (block_fp b) U2 -> block_after d d' b inside input /\ block_ok (dp_nvm d') b;
}.

Lemma block_ok_nvm m m' b : (forall a, (block_fp b).1 a -> m' a = m a) -> block_ok m b -> block_ok m' b.
Proof.
  intros H [O1 O2 O3 O4]. split; try done. intros Ht page Hpg Hpos. destruct (O4 Ht page Hpg Hpos) as [R M]. split; [done|].
  unfold page_metadata in *. rewrite (metadata_at_ext m' m); [done|]. intros a Ha. apply H. exists page. split; [done|]. split; [done|]. right. done.
Qed.

(** A single unit for the whole block. *)
Lemma single_unit_plan d b inside input u : unit_in (block_fp b) u -> unit_runs (dp_nvm d) u ->
  (forall d', effect d d' (block_fp b) u -> block_after d d' b inside input /\ block_ok (dp_nvm d') b) -> block_plan d b inside input [u].
Proof.
  intros Hu Hr He. split.
  - intros v ->%elem_one. exists (block_fp b). done.
  - by intros v ->%elem_one.
  - intros e U1 U2 d' Hrun H1 H2. cbn [app] in Hrun. apply He. destruct (exec_unit e d U1 u U2 (block_fp b) d' Hrun Hu H1 H2) as (mg & E & En & Es).
    by exists mg.
Qed.

Lemma ssd_byte d b i : cb_type b = ORCHFS_CORE_SSD_BLOCK -> block_byte d b i = dp_ssd d (ssd_device_offset b + i).
Proof. intros Ht. unfold block_byte, in_nvm. by rewrite Ht. Qed.

Lemma ssd_whole_plan d b input : cb_type b = ORCHFS_CORE_SSD_BLOCK -> block_ok (dp_nvm d) b -> len input = kBlockSize ->
  block_plan d b 0 input [mk_plan [(ssd_device_offset b, input)] [] [] [] []].
Proof.
  intros Ht Hok Hl. apply single_unit_plan.
  - apply simple_unit; [|by intros ? ? ?%not_elem_of_nil]. intros w a ->%elem_one Ha. split; [by rewrite Ht|]. unfold covers in Ha. cbn in Ha. lia.
  - split; by intros ? ?%not_elem_of_nil.
  - intros d' (mg & Em & En & Es). cbn in Em. injection Em as <-. split; [|by eapply block_ok_nvm].
    intros i Hi _. rewrite ssd_byte by done. rewrite Es by (split; [by rewrite Ht|unfold kBlockSize in *; lia]). unfold plan_ssd.
    cbn [writes direct_ssd_merges map app write_all fold_left fst snd]. rewrite nvm_write_in by lia.
    rewrite (proj2 (in_range_spec _ _ _)) by lia. f_equal. lia.
Qed.

Lemma ssd_merge_plan d b inside input : cb_type b = ORCHFS_CORE_SSD_BLOCK -> block_ok (dp_nvm d) b -> block_range inside (len input) ->
  block_plan d b inside input [mk_plan [] [] [] [] [mk_direct_merge (ssd_device_offset b) inside input]].
Proof.
  intros Ht Hok (R1 & R2 & R3). assert (0 <= kBlockSize) as Hbs by (unfold kBlockSize; lia). apply single_unit_plan.
  - split; cbn; try (by intros ? ? ?%not_elem_of_nil); [|by intros g ->%elem_one|by left].
    intros g a ->%elem_one Ha. cbn in Ha. split; [by rewrite Ht|done].
  - split; by intros ? ?%not_elem_of_nil.
  - intros d' (mg & Em & En & Es). cbn in Em. injection Em as <-. split; [|by eapply block_ok_nvm].
    intros i Hi _. rewrite !ssd_byte by done. rewrite Es by (split; [by rewrite Ht|lia]). unfold plan_ssd, merge_direct.
    cbn [writes direct_ssd_merges map app write_all fold_left fst snd dm_ssd_offset dm_inside dm_source].
    pose proof (len_nvm_read (dp_ssd d) kBlockSize (ssd_device_offset b) Hbs) as Hlr.
    rewrite nvm_write_in by (rewrite len_patch; lia). replace (ssd_device_offset b + i - ssd_device_offset b) with i by lia.
    rewrite byte_at_patch by lia. destruct (in_range _ _ _); [done|]. by apply byte_at_nvm_read.
Qed.

Lemma is_page_all page : page ∈ all_pages <-> is_page page.
Proof. unfold all_pages, is_page, ORCHFS_CORE_PAGE_COUNT. rewrite !elem_of_cons, elem_of_nil. lia. Qed.

Lemma write_all_zero ws : forall m a, (forall w i, w ∈ ws -> byte_at w.2 i = 0) -> m a = 0 \/ (exists w, w ∈ ws /\ covers w a) ->
  write_all m ws a = 0.
Proof.
  induction ws as [|w ws IH]; intros m a Hz H.
  - destruct H as [?|(w & Hw & _)]; [done|by apply not_elem_of_nil in Hw].
  - cbn [write_all fold_left]. apply IH; [intros v i Hv; apply Hz; by right|].
    destruct (in_rangeP a w.1 (len w.2)) as [Hr|Hr].
    + left. rewrite nvm_write_in by done. apply Hz. by left.
    + rewrite nvm_write_out by done. destruct H as [?|(v & [->|Hv]%elem_of_cons & Hc)]; [by left|done|right; by exists v].
Qed.
Lemma no_metadata_bytes i : byte_at (metadata_enc no_metadata) i = 0.
Proof.
  assert (metadata_enc no_metadata = replicate 128 0) as -> by by vm_compute. unfold byte_at. rewrite nth_lookup.
  destruct (replicate 128 0 !! Z.to_nat i) eqn:E; [|done]. by apply lookup_replicate in E as [-> _].
Qed.

Lemma strata_whole_plan d b input : cb_type b = ORCHFS_CORE_STRATA_BLOCK -> block_ok (dp_nvm d) b -> block_sep b -> len input = kBlockSize ->
  block_plan d b 0 input [mk_plan [(ssd_device_offset b, input)] []
    (map (fun page => (buffer_metadata_offset b page, metadata_enc no_metadata))
       (filter (fun page => 0 <= buffer_metadata_offset b page) all_pages)) [] []].
Proof.
  intros Ht Hok Hsep Hl. set (ms := map _ _). destruct no_metadata_ok as (N1 & N2 & N3).
  assert (forall w, w ∈ ms -> exists page, is_page page /\ 0 <= nvm_page_offset b page /\ w = (buffer_metadata_offset b page, metadata_enc no_metadata)) as Hms.
  { intros w (page & -> & Hp)%list_elem_of_fmap. apply list_elem_of_filter in Hp as [Hpos Hp%is_page_all]. exists page.
    split; [done|]. split; [by apply (bs_both b Hsep Ht)|done]. }
  apply single_unit_plan.
  - apply simple_unit; [intros w a ->%elem_one Ha; split; [by rewrite Ht|unfold covers in Ha; cbn in Ha; lia]|].
    cbn [app]. intros w a (page & Hp & Hpos & ->)%Hms Ha. exists page. split; [done|]. split; [done|]. right. split; [done|].
    unfold covers in Ha. cbn [fst snd] in Ha. rewrite len_metadata_enc in Ha. apply Ha.
  - split; by intros ? ?%not_elem_of_nil.
  - intros d' (mg & Em & En & Es). cbn in Em. injection Em as <-. unfold plan_nvm in En. cbn [pmem_writes metadata_writes app] in En.
    assert (forall page, is_page page -> 0 <= nvm_page_offset b page -> page_metadata (dp_nvm d') b page = no_metadata) as Emd.
    { intros page Hp Hpos. assert ((buffer_metadata_offset b page, metadata_enc no_metadata) ∈ ms) as Hin.
      { apply list_elem_of_fmap. exists page. split; [done|]. apply list_elem_of_filter. split; [by apply (bs_both b Hsep Ht)|by apply is_page_all]. }
      unfold page_metadata. rewrite (metadata_at_ext _ (nvm_write (dp_nvm d) (metadata_enc no_metadata) (buffer_metadata_offset b page)));
        [by apply metadata_at_write|]. intros a Ha. assert (covers (buffer_metadata_offset b page, metadata_enc no_metadata) a) as Hc
        by (unfold covers; cbn [fst snd]; by rewrite len_metadata_enc).
      rewrite En by (exists page; split; [done|split; [done|right; done]]). rewrite nvm_write_in by done. rewrite no_metadata_bytes.
      apply write_all_zero; [|right; by eexists]. intros w j (q & _ & _ & ->)%Hms. apply no_metadata_bytes. }
    split.
    + intros i Hi _. unfold block_byte at 1, in_nvm. rewrite Ht. cbn [Z.eqb ORCHFS_CORE_VIRTUAL_BLOCK ORCHFS_CORE_STRATA_BLOCK Pos.eqb orb andb].
      assert (is_page (i / kPageSize)) as Hp.
      { unfold is_page, ORCHFS_CORE_PAGE_COUNT, kPageSize, kBlockSize in *. split; [apply Z.div_pos; lia|apply Z.div_lt_upper_bound; lia]. }
      destruct (Z.leb_spec 0 (nvm_page_offset b (i / kPageSize))) as [Hpos|Hneg]; [rewrite Emd, N3 by done|]; cbn [andb].
      all: rewrite Es by (split; [by rewrite Ht|unfold kBlockSize in *; lia]); unfold plan_ssd.
      all: cbn [writes direct_ssd_merges map app write_all fold_left fst snd]; rewrite nvm_write_in by lia.
      all: rewrite (proj2 (in_range_spec _ _ _)) by lia; f_equal; lia.
    + destruct Hok as [O1 O2 O3 O4]. split; try done. intros _ page Hpg Hpos. split; [by apply O4|]. by rewrite Emd.
Qed.

Lemma parts_plan d b inside input us : block_ok (dp_nvm d) b -> block_sep b -> block_range inside (len input) ->
  Forall2 (part_unit d b input) (parts_of inside (len input)) us -> block_plan d b inside input us.
Proof.
  intros Hok Hsep Hr H2. destruct (parts_of_spec inside (len input) Hr) as (A & B & C).
  assert (forall v, v ∈ us -> exists page, is_page page /\ 0 <= nvm_page_offset b page /\ unit_in (page_fp b page) v /\ unit_runs (dp_nvm d) v) as Hv.
  { intros v (i & Hi)%list_elem_of_lookup. destruct (Forall2_lookup_r _ _ _ _ _ H2 Hi) as ([[[page in_page] part] c] & Hpi & (Hpos & Hu & Hru & _)).
    rewrite Forall_lookup in A. destruct (A _ _ Hpi) as (_ & _ & _ & _ & Hp & _). by exists page. }
  split.
  - intros v (page & Hp & Hpos & Hu & _)%Hv. exists (page_fp b page). split; [done|]. split; intros a; [by apply page_fp_sub|by apply page_fp_sub2].
  - by intros v (page & Hp & Hpos & Hu & Hru)%Hv.
  - intros e U1 U2 d' Hrun O1 O2. eapply (block_parts_after e d d' b inside input (parts_of inside (len input)) U1 us U2); try done. apply Hr.
Qed.

Lemma plan_write_spec d b inside input : block_ok (dp_nvm d) b -> block_sep b -> block_range inside (len input) ->
  write_pages b inside (len input) ->
  exists us, plan_write (dp_nvm d) b inside (len input) input = inr (sum_plans us) /\ block_plan d b inside input us.
Proof.
  intros Hok Hsep Hr Hw. destruct (parts_of_spec inside (len input) Hr) as (A & B & C). pose proof Hr as (R1 & R2 & R3).
  assert ((forall i, inside <= i < inside + len input -> 0 <= nvm_page_offset b (i / kPageSize)) ->
    Forall (fun p => 0 <= nvm_page_offset b p.1.1.1) (parts_of inside (len input))) as Hnn.
  { intros Hall. apply Forall_forall. intros [[[page in_page] part] c] Hin. cbn. rewrite Forall_forall in A.
    destruct (A _ Hin) as (Q1 & Q2 & Q3 & Q4 & Q5 & Q6 & Q7). specialize (Hall (inside + c) ltac:(lia)). rewrite <-Q1 in Hall.
    destruct (page_split page in_page) as [Es _]; [lia|]. by rewrite Es in Hall. }
  unfold plan_write. destruct (bo_type _ _ Hok) as [Ht|[Ht|Ht]]; rewrite Ht;
    cbn [Z.eqb ORCHFS_CORE_VIRTUAL_BLOCK ORCHFS_CORE_STRATA_BLOCK ORCHFS_CORE_SSD_BLOCK Pos.eqb].
  - destruct (plan_virtual_units d b input inside (len input) (parts_of inside (len input)) Ht Hok A) as (us & -> & Hus);
      [lia|apply Hnn, Hw; by left|]. exists us. split; [done|]. by apply parts_plan.
  - destruct (bo_ssd _ _ Hok) as [S1 S2]; [by rewrite Ht|]. rewrite (proj2 (Z.ltb_ge _ _)) by done.
    destruct ((inside =? 0) && (len input =? kBlockSize)) eqn:Ew.
    + rewrite andb_true_iff, !Z.eqb_eq in Ew. destruct Ew as [-> El].
      match goal with |- context [inr ?p] => exists [p] end. split; [cbn [sum_plans foldr]; by rewrite add_plan_empty_r|].
      by apply strata_whole_plan.
    + edestruct (plan_strata_units d b input) as (us & -> & Hus); [done|done|done|exact A|lia|apply Hnn, Hw; right; split; [done|exact Ew]|].
      exists us. split; [done|]. by apply parts_plan.
  - destruct (bo_ssd _ _ Hok) as [S1 S2]; [by rewrite Ht|]. rewrite (proj2 (Z.ltb_ge _ _)) by done.
    rewrite (proj2 (Z.ltb_ge _ _)) by (unfold UINT64_MAX, kBlockSize in *; lia). cbn [orb].
    destruct ((inside =? 0) && (len input =? kBlockSize)) eqn:Ew.
    + rewrite andb_true_iff, !Z.eqb_eq in Ew. destruct Ew as [-> El].
      match goal with |- context [inr ?p] => exists [p] end. split; [done|]. by apply ssd_whole_plan.
    + match goal with |- context [inr ?p] => exists [p] end. split; [done|]. by apply ssd_merge_plan.
Qed.

(** The plan of a block depends on persistent memory only through its metadata. *)
Lemma plan_write_ext m m' b inside chunk input : (forall a, (block_fp b).1 a -> m a = m' a) -> block_range inside chunk ->
  write_pages b inside chunk -> plan_write m b inside chunk input = plan_write m' b inside chunk input.
Proof.
  intros Hm Hr Hw. destruct (parts_of_spec inside chunk Hr) as (A & _ & _). unfold plan_write.
  destruct (Z.eqb_spec (cb_type b) ORCHFS_CORE_SSD_BLOCK); [done|]. destruct (Z.eqb_spec (cb_type b) ORCHFS_CORE_VIRTUAL_BLOCK); [done|].
  destruct (Z.eqb_spec (cb_type b) ORCHFS_CORE_STRATA_BLOCK) as [Ht|]; [|done]. destruct (ssd_device_offset b <? 0); [done|].
  destruct ((inside =? 0) && _) eqn:Ew; [done|]. match goal with |- plan_strata _ _ _ ?f _ = _ => generalize f as full end. intros full.
  assert (Forall (fun p => is_page p.1.1.1 /\ 0 <= nvm_page_offset b p.1.1.1) (parts_of inside chunk)) as Hp.
  { apply Forall_forall. intros [[[page in_page] part] c] Hin. cbn. rewrite Forall_forall in A.
    destruct (A _ Hin) as (Q1 & Q2 & Q3 & Q4 & Q5 & Q6 & Q7). split; [done|].
    pose proof (Hw (or_intror (conj Ht Ew)) (inside + c) ltac:(lia)) as Hall. rewrite <-Q1 in Hall.
    destruct (page_split page in_page) as [Es _]; [lia|]. by rewrite Es in Hall. }
  clear A. induction (parts_of inside chunk) as [|[[[page in_page] part] c] parts IH]; [done|]. apply Forall_cons in Hp as [[Hpg Hpos] Hp].
  cbn [plan_strata]. cbn in Hpg, Hpos.
  assert (plan_strata_part m b input full page in_page part c = plan_strata_part m' b input full page in_page part c) as E.
  { unfold plan_strata_part, read_metadata. destruct (_ || _); [done|]. destruct (buffer_metadata_offset b page <? 0); [done|].
    unfold orchfs_core_read_pmem. destruct (negb _); [done|]. rewrite (nvm_read_ext m m'); [done|]. intros a Ha. apply Hm. exists page.
    split; [done|]. split; [done|]. right. done. }
  rewrite E, (IH Hp). done.
Qed.

(** ** Success *)

Definition env_ok (e : write_env) : Prop :=
  we_pipelined e = 0 /\ we_read e = 0 /\ we_write e = 0 /\ we_metadata e = 0 /\ we_persist e = 0 /\ we_size e = 0 /\ we_commit e = 0.
Lemma execute_plan_ok e d us : env_ok e -> (forall u, u ∈ us -> unit_runs (dp_nvm d) u) -> exists d', execute_plan e d (sum_plans us) = inr d'.
Proof.
  intros (E1 & E2 & E3 & E4 & E5 & _ & _) Hr. unfold execute_plan. cbv zeta. set (p := sum_plans us). set (mg := negb _ || negb _).
  set (pl := mg && (kPipelinedWriteThreshold <=? _)). set (af := mk_data _ _). rewrite E1, E2, E3, E4, E5. cbn [Z.eqb negb].
  rewrite !andb_false_r. destruct (merge_pages_ok (if pl && we_early e then af else d) (merges p)) as (ws & ->).
  { intros g Hg. destruct (sum_elem merges eq_refl (fun _ _ => eq_refl) us g Hg) as (u & Hu & Hgu). destruct (Hr u Hu) as [_ H].
    destruct (pl && we_early e); [apply (H g Hgu)|]. destruct d as [m ssd]. apply (H g Hgu). }
  rewrite !andb_false_r. rewrite pmem_all_ok; [rewrite ?andb_false_r; by eexists|]. intros w Hw.
  destruct (sum_elem pmem_writes eq_refl (fun _ _ => eq_refl) us w Hw) as (u & Hu & Hwu). destruct (Hr u Hu) as [H _]. by apply H.
Qed.

(** ** The blocks of a file *)

Lemma block_byte_ext d d' b i : (forall a, (block_fp b).1 a -> dp_nvm d' a = dp_nvm d a) ->
  (forall a, (block_fp b).2 a -> dp_ssd d' a = dp_ssd d a) -> 0 <= i < kBlockSize -> present b i -> block_byte d' b i = block_byte d b i.
Proof.
  intros Hn Hs Hi Hp. assert (is_page (i / kPageSize)) as Hpg.
  { unfold is_page, ORCHFS_CORE_PAGE_COUNT, kPageSize, kBlockSize in *. split; [apply Z.div_pos; lia|apply Z.div_lt_upper_bound; lia]. }
  pose proof (Z.mod_pos_bound i kPageSize ltac:(unfold kPageSize; lia)) as Hx. pose proof (Z.div_mod i kPageSize ltac:(unfold kPageSize; lia)) as Hdm.
  destruct (page_same d d' b (i / kPageSize) Hpg Hp) as [_ H].
  - intros a Ha Hpos. apply Hn. by eapply page_fp_sub.
  - intros a Ha. apply Hs. by eapply page_fp_sub2.
  - replace i with (i / kPageSize * kPageSize + i mod kPageSize) by lia. by apply H.
Qed.

(** [blk0] are the blocks of the file when the transfer starts, [blk1] the blocks
    after [ensure_strata] has made strata blocks of some of them. *)
Definition in_file (size k : Z) : Prop := 0 <= k /\ k * kBlockSize < size.
Record blocks_apart (blk0 blk1 : Z -> orchfs_core_block) (size : Z) : Prop := {
  ba_sep : forall k, in_file size k -> block_sep (blk1 k);
  ba_apart : forall j k, in_file size j -> in_file size k -> j <> k -> apart (block_fp (blk1 j)) (block_fp (blk1 k));
  ba_sub : forall k a, in_file size k -> (block_fp (blk0 k)).1 a -> (block_fp (blk1 k)).1 a;
  ba_pages : forall k, in_file size k -> has_pages (blk1 k) 0 (Z.min kBlockSize (size - k * kBlockSize));
}.
(** What [ensure_strata] does for a block: pages for the range, the same content,
    nothing else in persistent memory changed. *)
Definition ensure_ok (ensure : Z -> Z -> Z -> pmem -> Z + orchfs_core_block * pmem) (stable : bool)
    (blk0 blk1 : Z -> orchfs_core_block) (size k inside chunk : Z) : Prop :=
  if needs_strata stable (blk0 k) inside chunk then
    forall m, block_ok m (blk0 k) -> exists m', ensure k inside chunk m = inr (blk1 k, m') /\ block_ok m' (blk1 k) /\
      write_pages (blk1 k) inside chunk /\
      (forall j a, in_file size j -> j <> k -> (block_fp (blk1 j)).1 a -> m' a = m a) /\
      (forall ssd i, 0 <= i < kBlockSize -> block_byte (mk_data m' ssd) (blk1 k) i = block_byte (mk_data m ssd) (blk0 k) i)
  else blk1 k = blk0 k.

Section write_file.
Context (ensure : Z -> Z -> Z -> pmem -> Z + orchfs_core_block * pmem) (stable : bool).
Context (blk0 blk1 blocks : Z -> orchfs_core_block) (size offset : Z) (source : list Z).
(** The position of the write in block [k]. *)
Definition w_start (k : Z) : Z := Z.max offset (k * kBlockSize).
Definition w_inside (k : Z) : Z := w_start k - k * kBlockSize.
Definition w_consumed (k : Z) : Z := w_start k - offset.
Definition w_chunk (k : Z) : Z := Z.min (len source - w_consumed k) (kBlockSize - w_inside k).
Definition w_input (k : Z) : list Z := slice (w_consumed k) (w_chunk k) source.
Definition in_write (k : Z) : Prop := offset < (k + 1) * kBlockSize /\ k * kBlockSize < offset + len source.
Hypothesis Hoff : 0 <= offset.
Hypothesis Hsrc : 0 < len source.
Hypothesis Hsize : offset + len source <= size.
Hypothesis Hb : blocks_apart blk0 blk1 size.
Hypothesis Hblocks : forall k, in_write k -> blocks k = blk0 k.
Hypothesis Hens : forall k, in_write k -> ensure_ok ensure stable blk0 blk1 size k (w_inside k) (w_chunk k).

Lemma write_in_file k : in_write k -> in_file size k /\ block_range (w_inside k) (w_chunk k) /\ len (w_input k) = w_chunk k.
Proof.
  intros [H1 H2]. unfold w_input, w_chunk, w_inside, w_consumed, w_start, in_file, block_range in *. unfold kBlockSize in *.
  change (32 * 1024) with 32768 in *. split; [lia|]. split; [lia|]. apply len_slice; lia.
Qed.
Lemma write_next k : in_write k -> w_consumed k + w_chunk k = len source \/ (in_write (k + 1) /\ w_consumed (k + 1) = w_consumed k + w_chunk k).
Proof.
  intros [H1 H2]. unfold w_chunk, w_inside, w_consumed, w_start, in_write in *. unfold kBlockSize in *. change (32 * 1024) with 32768 in *. lia.
Qed.

(** Pages for blocks that [ensure_strata] is not called for. *)
Lemma plain_pages k : in_write k -> needs_strata stable (blk0 k) (w_inside k) (w_chunk k) = false -> blk1 k = blk0 k ->
  write_pages (blk1 k) (w_inside k) (w_chunk k).
Proof.
  intros Hk Hn E. destruct (write_in_file k Hk) as (Hf & (R1 & R2 & R3) & _). intros Hc i Hi. destruct Hc as [Ht|[Ht Hw]].
  - apply (ba_pages _ _ _ Hb k Hf Ht). destruct Hk as [H1 H2].
    unfold w_chunk, w_inside, w_consumed, w_start in *. unfold kBlockSize in *. change (32 * 1024) with 32768 in *. lia.
  - exfalso. unfold needs_strata in Hn. rewrite <-E, Ht in Hn. unfold whole in Hw.
    destruct (w_inside k =? 0), (w_chunk k =? kBlockSize), stable; cbn in *; congruence.
Qed.

Lemma present_before k i : in_write k -> present (blk1 k) i -> present (blk0 k) i.
Proof.
  intros Hk Hp. pose proof (Hens k Hk) as He. unfold ensure_ok in He. destruct (needs_strata stable (blk0 k) _ _) eqn:En; [|by rewrite <-He].
  right. intros Et. unfold needs_strata in En. rewrite Et in En. by rewrite ?andb_false_r in En.
Qed.

(** One block: the plan is made for the new block, on memory that still has its content. *)
Lemma ensure_step k m : in_write k -> block_ok m (blk0 k) ->
  exists m1, (if needs_strata stable (blocks k) (w_inside k) (w_chunk k) then ensure k (w_inside k) (w_chunk k) m else inr (blocks k, m))
      = inr (blk1 k, m1) /\ block_ok m1 (blk1 k) /\ write_pages (blk1 k) (w_inside k) (w_chunk k) /\
    (forall j a, in_file size j -> j <> k -> (block_fp (blk1 j)).1 a -> m1 a = m a) /\
    (forall ssd i, 0 <= i < kBlockSize -> block_byte (mk_data m1 ssd) (blk1 k) i = block_byte (mk_data m ssd) (blk0 k) i).
Proof.
  intros Hk Hm. rewrite Hblocks by done. pose proof (Hens k Hk) as He. unfold ensure_ok in He.
  destruct (needs_strata stable (blk0 k) _ _) eqn:En; [by apply He|]. exists m.
  split; [by rewrite He|]. split; [by rewrite He|]. split; [by apply plain_pages|]. split; [done|]. intros. by rewrite He.
Qed.

(** All blocks: the plan is the sum of the plans of the blocks, each made for the
    persistent memory the loop ends with. *)
Lemma plan_writes_spec ssd n : forall k m, (forall j, k <= j < k + Z.of_nat n -> in_write j) ->
  (n <> O -> w_consumed (k + Z.of_nat n - 1) + w_chunk (k + Z.of_nat n - 1) = len source) ->
  (forall j, k <= j < k + Z.of_nat n -> block_ok m (blk0 j)) ->
  exists uss m', plan_writes m stable blocks ensure n k offset (if decide (n = O) then len source else w_consumed k) source
      = inr (sum_plans (concat uss), m') /\ length uss = n /\
    (forall i us, uss !! i = Some us -> block_plan (mk_data m' ssd) (blk1 (k + Z.of_nat i)) (w_inside (k + Z.of_nat i)) (w_input (k + Z.of_nat i)) us) /\
    (forall j a, in_file size j -> ~ k <= j < k + Z.of_nat n -> (block_fp (blk1 j)).1 a -> m' a = m a) /\
    (forall j i, k <= j < k + Z.of_nat n -> 0 <= i < kBlockSize -> present (blk1 j) i ->
      block_byte (mk_data m' ssd) (blk1 j) i = block_byte (mk_data m ssd) (blk0 j) i).
Proof.
  induction n as [|n IH]; intros k m Hk Hlast Hok.
  { exists [], m. split; [done|]. split; [done|]. split; [by intros i us ?|]. split; [done|]. intros. lia. }
  assert (in_write k) as Hkk by (apply Hk; lia). destruct (write_in_file k Hkk) as (Hf & Hr & Hl).
  destruct (ensure_step k m Hkk) as (m1 & E1 & Ok1 & Pg1 & Fr1 & Ct1); [apply Hok; lia|].
  assert (w_consumed k + w_chunk k = if decide (n = O) then len source else w_consumed (k + 1)) as Enext.
  { destruct (decide (n = O)) as [->|Hn]; [specialize (Hlast ltac:(done)); by replace (k + Z.of_nat 1 - 1) with k in Hlast by lia|].
    destruct (write_next k Hkk) as [Hend|[_ ->]]; [|done]. exfalso. pose proof (Hk (k + 1) ltac:(lia)) as [_ H2].
    unfold w_chunk, w_inside, w_consumed, w_start in Hend. unfold kBlockSize in *. change (32 * 1024) with 32768 in *. lia. }
  destruct (IH (k + 1) m1) as (uss & m' & Ep & El & Hbp & Hfr & Hct).
  - intros j Hj. apply Hk. lia.
  - intros Hn. replace (k + 1 + Z.of_nat n - 1) with (k + Z.of_nat (S n) - 1) by lia. by apply Hlast.
  - intros j Hj. eapply block_ok_nvm; [|apply Hok; lia]. intros a Ha. destruct (write_in_file j) as [Hfj _]; [apply Hk; lia|].
    apply (Fr1 j); [done|lia|]. by apply (ba_sub _ _ _ Hb).
  - assert (forall a, (block_fp (blk1 k)).1 a -> m' a = m1 a) as Hm' by (intros a Ha; apply (Hfr k a Hf); [lia|done]).
    destruct (plan_write_spec (mk_data m' ssd) (blk1 k) (w_inside k) (w_input k)) as (us & Eu & Hu).
    { by eapply block_ok_nvm. } { by apply (ba_sep _ _ _ Hb). } { by rewrite Hl. } { by rewrite Hl. }
    cbn [dp_nvm] in Eu. rewrite Hl in Eu. rewrite (plan_write_ext m' m1) in Eu by done.
    exists (us :: uss), m'. destruct (decide (S n = O)); [done|]. split.
    { cbn [plan_writes]. fold (w_start k). fold (w_inside k). fold (w_chunk k). rewrite E1. fold (w_input k). rewrite Eu, Enext, Ep.
      by rewrite <-sum_plans_app. }
    split; [cbn; lia|]. split; [|split].
    + intros [|i] us' Hi; [injection Hi as <-; by rewrite Z.add_0_r|]. replace (k + Z.of_nat (S i)) with (k + 1 + Z.of_nat i) by lia. by apply Hbp.
    + intros j a Hj Hn Ha. rewrite (Hfr j a Hj); [|lia|done]. apply (Fr1 j); [done|lia|done].
    + intros j i Hj Hi Hp. destruct (decide (j = k)) as [->|Hjk].
      * rewrite <-Ct1 by done. by apply block_byte_ext.
      * rewrite Hct by (done || lia). destruct (write_in_file j) as [Hfj _]; [apply Hk; lia|].
        assert (forall a, (block_fp (blk0 j)).1 a -> m1 a = m a) as Hs.
        { intros a Ha. apply (Fr1 j); [done|lia|]. by apply (ba_sub _ _ _ Hb). }
        apply block_byte_ext; try done. apply present_before; [apply Hk; lia|done].
Qed.

Lemma lookup_split {A} (l : list A) i x : l !! i = Some x -> l = take i l ++ x :: drop (S i) l.
Proof. intros H. symmetry. by apply take_drop_middle. Qed.

(** The units of the other blocks are apart from block [j]. *)
Lemma concat_apart d' (uss : list (list plan)) (J : nat -> Z) j : in_file size j ->
  (forall i us, uss !! i = Some us -> in_file size (J i) /\ J i <> j /\ block_plan d' (blk1 (J i)) (w_inside (J i)) (w_input (J i)) us) ->
  others_apart (block_fp (blk1 j)) (concat uss).
Proof.
  intros Hj H v Hv. apply list_elem_of_In, in_concat in Hv as (us & Hus & Hvu). apply list_elem_of_In in Hus, Hvu.
  apply list_elem_of_lookup in Hus as (i & Hi). destruct (H i us Hi) as (Hf & Hne & [Hin _ _]). destruct (Hin v Hvu) as (g & Hu & G1 & G2).
  exists g. split; [|done]. destruct (ba_apart _ _ _ Hb j (J i) Hj Hf ltac:(done)) as [A1 A2]. split; eauto.
Qed.

Context (e : write_env) (d : data) (k : Z) (n : nat).
Hypothesis He : env_ok e.
Hypothesis Hrange : forall j, in_write j <-> k <= j < k + Z.of_nat n.
Hypothesis Hok : forall j, in_file size j -> block_ok (dp_nvm d) (blk0 j).
Hypothesis Hout : forall j, in_file size j -> ~ in_write j -> blk1 j = blk0 j.

Lemma input_byte j i : in_write j -> 0 <= i < kBlockSize -> in_range i (w_inside j) (len (w_input j)) = in_range (j * kBlockSize + i) offset (len source) /\
  (in_range i (w_inside j) (len (w_input j)) = true -> byte_at (w_input j) (i - w_inside j) = byte_at source (j * kBlockSize + i - offset)).
Proof.
  intros Hj Hi. destruct (write_in_file j Hj) as (_ & (R1 & R2 & R3) & Hl). rewrite Hl. destruct Hj as [J1 J2]. split.
  - unfold in_range, w_chunk, w_inside, w_consumed, w_start. unfold kBlockSize in *. change (32 * 1024) with 32768 in *.
    apply eq_true_iff_eq. rewrite !andb_true_iff, !Z.leb_le, !Z.ltb_lt. lia.
  - unfold in_range. rewrite andb_true_iff, Z.leb_le, Z.ltb_lt. intros Hx. unfold w_input.
    rewrite byte_at_slice; [f_equal|..]; unfold w_chunk, w_inside, w_consumed, w_start in *; lia.
Qed.

Lemma write_blocks_spec : exists P m' d',
  plan_writes (dp_nvm d) stable blocks ensure n k offset (w_consumed k) source = inr (P, m') /\
  execute_plan e (mk_data m' (dp_ssd d)) P = inr d' /\ (forall j, in_file size j -> block_ok (dp_nvm d') (blk1 j)) /\
  (forall j i, in_file size j -> 0 <= i < kBlockSize -> present (blk1 j) i -> block_byte d' (blk1 j) i =
     if in_range (j * kBlockSize + i) offset (len source) then byte_at source (j * kBlockSize + i - offset) else block_byte d (blk0 j) i).
Proof.
  assert (n <> O) as Hn. { intros ->. cut (in_write (offset / kBlockSize)); [rewrite Hrange; lia|]. unfold in_write, kBlockSize.
    change (32 * 1024) with 32768. pose proof (Z.div_mod offset 32768). pose proof (Z.mod_pos_bound offset 32768). lia. }
  destruct (plan_writes_spec (dp_ssd d) n k (dp_nvm d)) as (uss & m' & Ep & El & Hbp & Hfr & Hct).
  { intros j Hj. by apply Hrange. }
  { intros _. destruct (write_next (k + Z.of_nat n - 1)) as [H|[H _]]; [apply Hrange; lia|done|apply Hrange in H; lia]. }
  { intros j Hj. apply Hok. apply write_in_file. by apply Hrange. }
  destruct (decide (n = O)); [done|].
  assert (forall i us, uss !! i = Some us -> in_file size (k + Z.of_nat i)) as Hin.
  { intros i us Hi. apply lookup_lt_Some in Hi. apply write_in_file, Hrange. lia. }
  destruct (execute_plan_ok e (mk_data m' (dp_ssd d)) (concat uss) He) as (d' & Ed).
  { intros u Hu. apply list_elem_of_In, in_concat in Hu as (us & Hus & Hvu). apply list_elem_of_In in Hus, Hvu.
    apply list_elem_of_lookup in Hus as (i & Hi). by apply (bp_runs _ _ _ _ _ (Hbp i us Hi)). }
  exists (sum_plans (concat uss)), m', d'. split; [done|]. split; [done|].
  assert (forall j, in_file size j -> block_ok (dp_nvm d') (blk1 j) /\ forall i, 0 <= i < kBlockSize -> present (blk1 j) i ->
    block_byte d' (blk1 j) i = if in_range (j * kBlockSize + i) offset (len source) then byte_at source (j * kBlockSize + i - offset)
      else block_byte d (blk0 j) i) as Hall; [|split; [intros; by apply Hall|intros; by apply Hall]].
  intros j Hj. destruct (decide (k <= j < k + Z.of_nat n)) as [Hw|Hw].
  - destruct (lookup_lt_is_Some_2 uss (Z.to_nat (j - k))) as [us Hus]; [lia|]. pose proof (Hbp _ _ Hus) as Hp.
    replace (k + Z.of_nat (Z.to_nat (j - k))) with j in Hp by lia.
    rewrite (lookup_split _ _ _ Hus), concat_app in Ed. cbn [concat] in Ed. destruct (bp_after _ _ _ _ _ Hp e _ _ _ Ed) as [Ha Ho].
    { apply (concat_apart (mk_data m' (dp_ssd d)) _ (fun i => k + Z.of_nat i)); [done|]. intros i vs Hi.
      apply lookup_take_Some in Hi as [Hi Hlt]. split; [by eapply Hin|]. split; [lia|by apply Hbp]. }
    { apply (concat_apart (mk_data m' (dp_ssd d)) _ (fun i => k + Z.of_nat (S (Z.to_nat (j - k)) + i))); [done|]. intros i vs Hi.
      rewrite lookup_drop in Hi. split; [by eapply Hin|]. split; [lia|by apply Hbp]. }
    split; [done|]. intros i Hi Hpi. rewrite (Ha i Hi Hpi). apply Hrange in Hw. destruct (input_byte j i Hw Hi) as [Er Eb].
    rewrite <-Er. destruct (in_range i _ _) eqn:Ex; [by apply Eb|]. apply Hct; [by apply Hrange|done|done].
  - destruct (exec_frame e (mk_data m' (dp_ssd d)) (concat uss) (block_fp (blk1 j)) d' Ed) as [F1 F2].
    { apply (concat_apart (mk_data m' (dp_ssd d)) _ (fun i => k + Z.of_nat i)); [done|]. intros i vs Hi.
      split; [by eapply Hin|]. split; [apply lookup_lt_Some in Hi; lia|by apply Hbp]. }
    cbn [dp_nvm dp_ssd] in F1, F2. assert (~ in_write j) as Hnw by (by rewrite Hrange). pose proof (Hout j Hj Hnw) as Eb.
    assert (forall a, (block_fp (blk1 j)).1 a -> dp_nvm d' a = dp_nvm d a) as F by (intros a Ha; rewrite F1 by done; by apply (Hfr j)).
    split; [eapply block_ok_nvm; [apply F|]; rewrite Eb; by apply Hok|]. intros i Hi Hpi.
    assert (in_range (j * kBlockSize + i) offset (len source) = false) as ->.
    { unfold in_range. unfold in_write in Hnw. destruct (Z.leb_spec offset (j * kBlockSize + i)); [|done].
      apply Z.ltb_ge. lia. }
    rewrite <-Eb. by apply block_byte_ext.
Qed.
End write_file.

(** ** The whole write *)

(** The blocks the write works on: [blk0] as found by the lookup or prepared, [blk1] after it. *)
Record write_ready (e : write_env) (d : data) (size : Z) (lookup : Z -> Z + orchfs_core_block)
    (prepare : Z + (Z -> orchfs_core_block)) (ensure : Z -> Z -> Z -> pmem -> Z + orchfs_core_block * pmem)
    (stable : bool) (offset : Z) (source : list Z) (blk0 blk1 : Z -> orchfs_core_block) : Prop := {
  wr_env : env_ok e;
  wr_offset : 0 <= offset <= size;
  wr_source : 0 < len source;
  wr_maximum : offset + len source <= kMaximumFileSize;
  wr_lookup : forall k b, lookup k = inr b -> b = blk0 k;
  wr_prepare : prepare = inr blk0;
  wr_ok : forall j, in_file (Z.max size (offset + len source)) j -> block_ok (dp_nvm d) (blk0 j);
  wr_apart : blocks_apart blk0 blk1 (Z.max size (offset + len source));
  wr_ensure : forall k, in_write offset source k ->
    ensure_ok ensure stable blk0 blk1 (Z.max size (offset + len source)) k (w_inside offset k) (w_chunk offset source k);
  wr_out : forall j, in_file (Z.max size (offset + len source)) j -> ~ in_write offset source j -> blk1 j = blk0 j;
}.

Lemma write_span offset source j : 0 <= offset -> 0 < len source ->
  in_write offset source j <-> offset / kBlockSize <= j <
    offset / kBlockSize + Z.of_nat (Z.to_nat ((offset + len source - 1) / kBlockSize - offset / kBlockSize + 1)).
Proof.
  intros Ho Hs. unfold in_write, kBlockSize. change (32 * 1024) with 32768.
  pose proof (Z.div_mod offset 32768). pose proof (Z.mod_pos_bound offset 32768).
  pose proof (Z.div_mod (offset + len source - 1) 32768). pose proof (Z.mod_pos_bound (offset + len source - 1) 32768). lia.
Qed.
Lemma stable_lookup lookup append size offset length i : stable_overwrite lookup append size offset length = true ->
  offset / kBlockSize <= i <= (offset + length - 1) / kBlockSize -> exists b, lookup i = inr b.
Proof.
  unfold stable_overwrite. cbv zeta. rewrite andb_true_iff. intros [_ H] Hi. rewrite forallb_forall in H.
  specialize (H (Z.to_nat (i - offset / kBlockSize)) ltac:(apply in_seq; lia)).
  replace (offset / kBlockSize + Z.of_nat (Z.to_nat (i - offset / kBlockSize))) with i in H by lia.
  unfold stable_block in H. destruct (lookup i) as [|b]; [done|by exists b].
Qed.

Lemma has_page_present b i length : has_pages b 0 length -> 0 <= i < length -> present b i.
Proof. intros H Hi. unfold present. destruct (decide (cb_type b = ORCHFS_CORE_VIRTUAL_BLOCK)) as [E|E]; [left; by apply H|by right]. Qed.

Lemma write_unlocked_spec e d size lookup prepare ensure requested source (append : bool) blk0 blk1 :
  let offset := if append then size else requested in
  write_ready e d size lookup prepare ensure (stable_overwrite lookup append size offset (len source)) offset source blk0 blk1 ->
  exists d', write_unlocked e d ORCHFS_CORE_REGULAR size 0 lookup 0 prepare ensure requested source append
      = inr (len source, offset, d', Z.max size (offset + len source)) /\
    file_blocks_ok (dp_nvm d') blk1 (Z.max size (offset + len source)) /\
    forall x, 0 <= x < Z.max size (offset + len source) ->
      file_byte d' blk1 x = if in_range x offset (len source) then byte_at source (x - offset) else file_byte d blk0 x.
Proof.
  intros offset [W1 W2 W3 W4 W5 W6 W7 W8 W9 W10]. unfold write_unlocked. fold offset.
  set (size' := Z.max size (offset + len source)) in *. set (stable := stable_overwrite lookup append size offset (len source)) in *.
  rewrite (proj2 (Z.ltb_ge size 0)), (proj2 (Z.ltb_ge size offset)), (proj2 (Z.eqb_neq (len source) 0)) by lia.
  rewrite (proj2 (Z.ltb_ge kMaximumFileSize offset)), (proj2 (Z.ltb_ge (kMaximumFileSize - offset) (len source))) by lia.
  change (negb (ORCHFS_CORE_REGULAR =? ORCHFS_CORE_REGULAR)) with false. change (negb (0 =? 0)) with false. cbn [orb]. rewrite andb_false_r. cbv zeta.
  set (n := Z.to_nat _). set (found := fun k => match lookup k with inr b => b | inl _ => mk_core_block 0 0 (fun _ => 0) (fun _ => 0) 0 end).
  set (blocks := if stable then found else blk0).
  assert (forall k, in_write offset source k -> blocks k = blk0 k) as Hbl.
  { intros k Hk. unfold blocks. destruct stable eqn:Es; [|done]. apply write_span in Hk; [|lia|lia].
    destruct (stable_lookup _ _ _ _ _ k Es) as (b & Eb); [lia|]. unfold found. rewrite Eb. by apply W5. }
  assert ((if stable then inr found else prepare) = inr blocks) as -> by (unfold blocks; by destruct stable).
  destruct (write_blocks_spec ensure stable blk0 blk1 blocks size' offset source ltac:(lia) W3 ltac:(lia) W8 Hbl W9
    e d (offset / kBlockSize) n W1 (fun j => write_span offset source j (proj1 W2) W3) W7 W10) as (P & m' & d' & E1 & E2 & Ok & Ct).
  assert (w_consumed offset (offset / kBlockSize) = 0) as Ec.
  { unfold w_consumed, w_start, kBlockSize. change (32 * 1024) with 32768.
    pose proof (Z.div_mod offset 32768). pose proof (Z.mod_pos_bound offset 32768). lia. }
  destruct W1 as (_ & _ & _ & _ & _ & Es & Em).
  rewrite Ec in E1. rewrite E1, E2, Es, Em, !andb_false_r. exists d'. split; [done|]. split.
  - intros k H1 H2. split; [by apply Ok|by apply (ba_pages _ _ _ W8)].
  - intros x Hx. unfold file_byte. pose proof (Z.div_mod x kBlockSize ltac:(done)). pose proof (Z.mod_pos_bound x kBlockSize ltac:(done)).
    assert (in_file size' (x / kBlockSize)) as Hf by (split; [apply Z.div_pos; [lia|done]|lia]).
    rewrite Ct; [|done|done|].
    + by replace (x / kBlockSize * kBlockSize + x mod kBlockSize) with x by lia.
    + eapply has_page_present; [by apply (ba_pages _ _ _ W8)|]. unfold size' in *. lia.
Qed.

(** *** Overwrites on stable blocks *)

Definition stable_type (b : orchfs_core_block) : Prop := cb_type b = ORCHFS_CORE_VIRTUAL_BLOCK \/ cb_type b = ORCHFS_CORE_SSD_BLOCK.
Lemma stable_types lookup append size offset length i b : stable_overwrite lookup append size offset length = true ->
  offset / kBlockSize <= i <= (offset + length - 1) / kBlockSize -> lookup i = inr b -> stable_type b.
Proof.
  unfold stable_overwrite. cbv zeta. rewrite andb_true_iff. intros [_ H] Hi Hb. rewrite forallb_forall in H.
  specialize (H (Z.to_nat (i - offset / kBlockSize)) ltac:(apply in_seq; lia)).
  replace (offset / kBlockSize + Z.of_nat (Z.to_nat (i - offset / kBlockSize))) with i in H by lia.
  rewrite Hb in H. unfold stable_block in H. apply orb_true_iff in H as [H|[H _]%andb_true_iff]; apply Z.eqb_eq in H; [by left|by right].
Qed.
Lemma plan_virtual_metadata b input parts p : plan_virtual b input parts = inr p -> metadata_writes p = [].
Proof.
  revert p. induction parts as [|[[[page ip] pt] c] parts IH]; intros p H; cbn [plan_virtual] in H; [by injection H as <-|].
  destruct (_ || _); [done|]. destruct (plan_virtual b input parts) as [|q]; [done|]. injection H as <-. cbn. by apply IH.
Qed.
Lemma plan_write_stable m b inside chunk input p : stable_type b -> plan_write m b inside chunk input = inr p -> metadata_writes p = [].
Proof.
  intros [E|E]; unfold plan_write; rewrite E; cbn [Z.eqb]; [apply plan_virtual_metadata|].
  destruct ((ssd_device_offset b <? 0) || _); [done|]. destruct ((inside =? 0) && _); by intros [= <-].
Qed.
Lemma plan_writes_stable ensure ensure' blocks source offset n : forall m k consumed,
  (forall j, k <= j < k + Z.of_nat n -> stable_type (blocks j)) ->
  plan_writes m true blocks ensure n k offset consumed source = plan_writes m true blocks ensure' n k offset consumed source /\
  forall P m', plan_writes m true blocks ensure n k offset consumed source = inr (P, m') -> m' = m /\ metadata_writes P = [].
Proof.
  induction n as [|n IH]; intros m k consumed Hst; [split; [done|]; by intros P m' [= <- <-]|]. cbn [plan_writes].
  set (inside := Z.max offset (k * kBlockSize) - k * kBlockSize). set (chunk := Z.min _ (kBlockSize - inside)).
  assert (stable_type (blocks k)) as Hk by (apply Hst; lia).
  assert (needs_strata true (blocks k) inside chunk = false) as ->.
  { unfold needs_strata. destruct Hk as [-> | ->]; cbn; [done|]. by rewrite andb_false_r. }
  destruct (plan_write m (blocks k) inside chunk (slice consumed chunk source)) as [|p] eqn:Ep; [done|].
  destruct (IH m (k + 1) (consumed + chunk)) as [IH1 IH2]; [intros j Hj; apply Hst; lia|]. rewrite <-IH1. split; [done|].
  intros P m' H. destruct (plan_writes m true blocks ensure n _ _ _ _) as [|[q mq]]; [done|]. injection H as <- <-.
  destruct (IH2 q mq eq_refl) as [-> Hq]. split; [done|]. cbn. by rewrite Hq, (plan_write_stable _ _ _ _ _ _ Hk Ep).
Qed.

(** A stable overwrite never touches its transaction, which is a null pointer:
    no block of it is turned into a strata block, whatever [ensure_strata] would do, it
    plans no metadata, it leaves persistent memory alone while planning and does not
    grow the file, so no size has to be recorded. *)
Theorem stable_overwrite_needs_no_transaction lookup append size offset source blocks ensure ensure' m :
  stable_overwrite lookup append size offset (len source) = true ->
  (forall k b, lookup k = inr b -> blocks k = b) ->
  let n := Z.to_nat ((offset + len source - 1) / kBlockSize - offset / kBlockSize + 1) in
  let planned := plan_writes m true blocks ensure n (offset / kBlockSize) offset 0 source in
  planned = plan_writes m true blocks ensure' n (offset / kBlockSize) offset 0 source /\
  offset + len source <= size /\
  forall P m', planned = inr (P, m') -> m' = m /\ metadata_writes P = [].
Proof.
  intros Hst Hl n planned. destruct (plan_writes_stable ensure ensure' blocks source offset n m (offset / kBlockSize) 0) as [H1 H2].
  { intros j Hj. destruct (stable_lookup _ _ _ _ _ j Hst) as (b & Eb); [lia|]. rewrite (Hl j b Eb). eapply stable_types; [done| |done]. lia. }
  split; [done|]. split; [|done]. unfold stable_overwrite, maybe_stable in Hst. rewrite !andb_true_iff, Z.leb_le in Hst. tauto.
Qed.

(** C13: Writing changes exactly the written range: when the blocks are prepared,
    [write_unlocked] succeeds, the file then has the source's bytes from the offset
    on and its old bytes everywhere else, its size is the larger of the old size and
    the end of the write, and its blocks are well formed again.  This holds for every
    mixture of SSD, virtual and strata blocks, overwrites on stable blocks, appends,
    merged pages and pipelined batches. *)
Theorem write_unlocked_correct e d size lookup prepare ensure requested source (append : bool) blk0 blk1 :
  let offset := if append then size else requested in
  write_ready e d size lookup prepare ensure (stable_overwrite lookup append size offset (len source)) offset source blk0 blk1 ->
  exists d', write_unlocked e d ORCHFS_CORE_REGULAR size 0 lookup 0 prepare ensure requested source append
      = inr (len source, offset, d', Z.max size (offset + len source)) /\
    file_blocks_ok (dp_nvm d') blk1 (Z.max size (offset + len source)) /\
    forall x, 0 <= x < Z.max size (offset + len source) ->
      file_byte d' blk1 x = if in_range x offset (len source) then byte_at source (x - offset) else file_byte d blk0 x.
Proof. apply write_unlocked_spec. Qed.

(** Write, then read: reading the range a write has just stored gives the bytes
    that were written. *)
Theorem write_then_read e d size lookup prepare ensure requested source (append : bool) blk0 blk1 :
  let offset := if append then size else requested in
  write_ready e d size lookup prepare ensure (stable_overwrite lookup append size offset (len source)) offset source blk0 blk1 ->
  exists d' size', write_unlocked e d ORCHFS_CORE_REGULAR size 0 lookup 0 prepare ensure requested source append
      = inr (len source, offset, d', size') /\
    read_unlocked d' ORCHFS_CORE_REGULAR size' 0 (fun k => inr (blk1 k)) 0 offset (len source) = inr source.
Proof.
  intros offset Hr. destruct (write_unlocked_spec _ _ _ _ _ _ requested _ append _ _ Hr) as (d' & E & Hok & Hc). fold offset in E, Hok, Hc.
  exists d', (Z.max size (offset + len source)). split; [done|]. pose proof (wr_offset _ _ _ _ _ _ _ _ _ _ _ Hr) as Ho.
  pose proof (wr_source _ _ _ _ _ _ _ _ _ _ _ Hr) as Hs.
  rewrite (read_unlocked_spec _ _ _ blk1); try done; [|by left|lia|lia|lia]. f_equal.
  replace (Z.max 0 _) with (len source) by lia. apply (byte_at_ext _ _ (len_bytes_from _ _ _ (len_nonneg _))).
  rewrite len_bytes_from by apply len_nonneg. intros i Hi. rewrite byte_at_bytes_from by done. rewrite Hc by lia.
  unfold in_range. rewrite (proj2 (Z.leb_le _ _)), (proj2 (Z.ltb_lt _ _)) by lia. cbn. f_equal. lia.
Qed.

(** A write of two bytes to the strata block of one page: its second page is on the SSD. *)
Definition quiet_env : write_env := mk_write_env false 0 0 0 0 0 0 0.
Lemma one_page_offset p : 0 <= nvm_page_offset one_page_block p -> p = 0.
Proof. unfold one_page_block. cbn [nvm_page_offset]. destruct (Z.eqb_spec p 0); [done|lia]. Qed.
Lemma one_page_sep : block_sep one_page_block.
Proof.
  split.
  - intros p q a _ _ Hp Hq _ _. by rewrite (one_page_offset p Hp), (one_page_offset q Hq).
  - intros _ p a _ Hp. rewrite (one_page_offset p Hp). cbn. unfold kPageSize, kBufferMetadataSize. lia.
  - intros _ p _. unfold one_page_block. cbn [nvm_page_offset buffer_metadata_offset]. destruct (p =? 0); lia.
Qed.
Lemma one_page_ready : write_ready quiet_env (mk_data one_page_memory (fun _ => 9)) 100 (fun k => if k =? 0 then inr one_page_block else inl EIO)
  (inr (fun _ => one_page_block)) (fun _ _ _ m => inr (one_page_block, m))
  (stable_overwrite (fun k => if k =? 0 then inr one_page_block else inl EIO) false 100 10 (len [1; 2])) 10 [1; 2]
  (fun _ => one_page_block) (fun _ => one_page_block).
Proof.
  assert (forall j, in_file (Z.max 100 (10 + len [1; 2])) j -> j = 0) as H0.
  { intros j [H1 H2]. change (Z.max 100 (10 + len [1; 2])) with 100 in H2. unfold kBlockSize in H2. lia. }
  split; try done.
  - intros k b. destruct (k =? 0); congruence.
  - intros j _. apply one_page_ok.
  - split; try done; [intros; apply one_page_sep|]. intros j k Hj Hk Hne. rewrite (H0 j Hj), (H0 k Hk) in Hne. done.
  - intros k [K1 K2]. assert (k = 0) as -> by (change (len [1; 2]) with 2 in K2; unfold kBlockSize in *; lia).
    unfold ensure_ok. change (needs_strata _ _ _ _) with true. cbv iota. intros m Hm. exists m. split; [done|]. split; [done|].
    split; [|done]. intros _ i Hi. change (w_inside 10 0) with 10 in Hi. change (w_chunk 10 [1; 2] 0) with 2 in Hi.
    rewrite (Z.div_small i) by (unfold kPageSize; lia). done.
Qed.
Lemma write_unlocked_correct_witness : exists d', write_unlocked quiet_env (mk_data one_page_memory (fun _ => 9)) ORCHFS_CORE_REGULAR 100 0
    (fun k => if k =? 0 then inr one_page_block else inl EIO) 0 (inr (fun _ => one_page_block)) (fun _ _ _ m => inr (one_page_block, m)) 10 [1; 2] false
      = inr (2, 10, d', 100) /\ map (file_byte d' (fun _ => one_page_block)) [1; 2; 3; 4; 9; 10; 11; 12] = [9; 7; 7; 9; 9; 1; 2; 9].
Proof.
  destruct (write_unlocked_correct _ _ _ _ _ _ 10 _ false _ _ one_page_ready) as (d' & E & _ & H). exists d'. split; [exact E|].
  cbn [map]. do 8 rewrite H by (vm_compute; split; congruence). vm_compute. reflexivity.
Defined.
Lemma write_then_read_witness : exists d' size', write_unlocked quiet_env (mk_data one_page_memory (fun _ => 9)) ORCHFS_CORE_REGULAR 100 0
    (fun k => if k =? 0 then inr one_page_block else inl EIO) 0 (inr (fun _ => one_page_block)) (fun _ _ _ m => inr (one_page_block, m)) 10 [1; 2] false
      = inr (2, 10, d', size') /\ read_unlocked d' ORCHFS_CORE_REGULAR size' 0 (fun _ => inr one_page_block) 0 10 2 = inr [1; 2].
Proof. exact (write_then_read _ _ _ _ _ _ 10 _ false _ _ one_page_ready). Defined.

Lemma stable_overwrite_needs_no_transaction_witness :
  let block := mk_core_block ORCHFS_CORE_SSD_BLOCK 65536 (fun _ => -1) (fun _ => -1) 0 in
  let source := replicate (Z.to_nat 40000) 5 in
  stable_overwrite (fun _ => inr block) false 100000 100 40000 = true /\
  forall P m', plan_writes (fun _ => 0) true (fun _ => block) (fun _ _ _ _ => inl EIO) 2 0 100 0 source = inr (P, m') ->
    m' = (fun _ => 0) /\ metadata_writes P = [].
Proof.
  intros block source. split; [vm_compute; reflexivity|].
  assert (len source = 40000) as Hl by (vm_compute; reflexivity).
  destruct (stable_overwrite_needs_no_transaction (fun _ => inr block) false 100000 100 source (fun _ => block)
    (fun _ _ _ _ => inl EIO) (fun _ _ _ _ => inl EIO) (fun _ => 0)) as (_ & _ & H).
  - rewrite Hl. vm_compute. reflexivity.
  - intros k b Hb. injection Hb as <-. reflexivity.
  - rewrite Hl in H. exact H.
Defined.
