(* ===== verification/Extents.v ===== *)
(** * The extent cache (Async/kfs_coroutine_core.cpp: extents_for, publish_extent_update)

    The index of a file is cached as a snapshot: a sorted vector of extents, runs of
    SSD blocks that follow each other on the device being one extent.  Snapshots are
    kept in a table of 8192 entries with open addressing, whose entries are never
    freed.  A cached snapshot is used when it was made for the file's size; a write
    replaces the extents of the blocks it wrote.

    The file's index is an argument: [query] is [orchfs_core_query_block].  Allocation
    of the vectors does not fail, and operations on the table are not interleaved. *)

From stdpp Require Import base tactics numbers list relations.
From Stdlib Require Import ZArith Lia FunctionalExtensionality.
From S2P Require Import Prelude Bytes Layout Pmem Namespace DataPath.
Open Scope Z_scope.

(** ** Extents *)

Record CachedExtent := mk_extent { first_block : Z; block_count : Z; ce_mapping : orchfs_core_block }.
Record ExtentSnapshot := mk_snapshot { generation : Z; file_size : Z; extents : list CachedExtent }.

(** The arrays of a block without pages. *)
Definition page_fun (pages : list Z) : Z -> Z := fun i => nth (Z.to_nat i) pages (-1).
Definition blank : Z -> Z := page_fun (replicate 8 (-1)).

Definition mergeable_ssd_extent (previous : CachedExtent) (logical_block : Z) (mapping : orchfs_core_block) : bool :=
  if negb (cb_type (ce_mapping previous) =? ORCHFS_CORE_SSD_BLOCK) || negb (cb_type mapping =? ORCHFS_CORE_SSD_BLOCK) ||
     negb (u64 (first_block previous + block_count previous) =? logical_block) ||
     (ssd_device_offset (ce_mapping previous) <? 0) || (ssd_device_offset mapping <? 0) then false
  else
    let count := s64 (block_count previous) in
    (count <=? Z.quot (INT64_MAX - ssd_device_offset (ce_mapping previous)) kBlockSize) &&
    (ssd_device_offset (ce_mapping previous) + count * kBlockSize =? ssd_device_offset mapping).

(** Appending to the vector: the last extent grows, or a new one follows it. *)
Definition grow_last (l : list CachedExtent) (previous : CachedExtent) (count : Z) : list CachedExtent :=
  removelast l ++ [mk_extent (first_block previous) (u64 (block_count previous + count)) (ce_mapping previous)].
Definition append_extent (l : list CachedExtent) (logical_block : Z) (mapping : orchfs_core_block) : list CachedExtent :=
  match last l with
  | Some previous =>
      if mergeable_ssd_extent previous logical_block mapping then grow_last l previous 1
      else l ++ [mk_extent logical_block 1 mapping]
  | None => l ++ [mk_extent logical_block 1 mapping]
  end.
Definition append_cached_extent (l : list CachedExtent) (extent : CachedExtent) : list CachedExtent :=
  if block_count extent =? 0 then l
  else match last l with
       | Some previous =>
           if (cb_type (ce_mapping extent) =? ORCHFS_CORE_SSD_BLOCK) &&
              mergeable_ssd_extent previous (first_block extent) (ce_mapping extent)
           then grow_last l previous (block_count extent) else l ++ [extent]
       | None => l ++ [extent]
       end.

(** The mapping [delta] blocks into an extent. *)
Definition shift_mapping (b : orchfs_core_block) (delta : Z) : orchfs_core_block :=
  if cb_type b =? ORCHFS_CORE_SSD_BLOCK then
    mk_core_block (cb_type b) (ssd_device_offset b + s64 (u64 (delta * kBlockSize))) (nvm_page_offset b)
      (buffer_metadata_offset b) (cb_file_block b + s64 delta)
  else b.

(** [std::upper_bound]: the index of the first extent after the block. *)
Fixpoint upper_bound (l : list CachedExtent) (block : Z) : nat :=
  match l with
  | [] => O
  | extent :: rest => if block <? first_block extent then O else S (upper_bound rest block)
  end.
Definition mapping_from_snapshot (snapshot : ExtentSnapshot) (logical_block : Z) : option orchfs_core_block :=
  match upper_bound (extents snapshot) logical_block with
  | O => None
  | S i =>
      match extents snapshot !! i with
      | None => None
      | Some extent =>
          if (logical_block <? first_block extent) || (block_count extent <=? u64 (logical_block - first_block extent)) then None
          else
            let delta := u64 (logical_block - first_block extent) in
            if (cb_type (ce_mapping extent) =? ORCHFS_CORE_SSD_BLOCK) && (Z.quot INT64_MAX kBlockSize <? delta) then None
            else Some (shift_mapping (ce_mapping extent) delta)
      end
  end.

(** ** Snapshots of a file *)

Definition blocks_of (size : Z) : Z := u64 (size + kBlockSize - 1) / kBlockSize.

Fixpoint build_extents (query : Z -> Z + orchfs_core_block) (n : nat) (block : Z) (l : list CachedExtent)
    : Z + list CachedExtent :=
  match n with
  | O => inr l
  | S n' => match query block with
            | inl error => inl error
            | inr mapping => build_extents query n' (block + 1) (append_extent l block mapping)
            end
  end.
Definition build_extent_snapshot (query : Z -> Z + orchfs_core_block) (size : Z) : Z + ExtentSnapshot :=
  if size <? 0 then inl EIO
  else match build_extents query (Z.to_nat (blocks_of size)) 0 [] with
       | inl error => inl error
       | inr l => inr (mk_snapshot 0 size l)
       end.

(** The loop of [publish_extent_update]: the updated vector, and whether the
    replacements are in it. *)
Definition append_clipped (new_block_count : Z) (l : list CachedExtent) (extent : CachedExtent) : list CachedExtent :=
  if new_block_count <=? first_block extent then l
  else append_cached_extent l
         (mk_extent (first_block extent) (Z.min (block_count extent) (new_block_count - first_block extent)) (ce_mapping extent)).
Fixpoint append_replacements (new_block_count block : Z) (replacements : list orchfs_core_block) (l : list CachedExtent)
    : list CachedExtent :=
  match replacements with
  | [] => l
  | mapping :: rest => append_replacements new_block_count (block + 1) rest (append_clipped new_block_count l (mk_extent block 1 mapping))
  end.
Definition insert_replacements (new_block_count first : Z) (replacements : list orchfs_core_block) (st : list CachedExtent * bool)
    : list CachedExtent * bool :=
  if st.2 then st else (append_replacements new_block_count first replacements st.1, true).
Definition update_extent (new_block_count first : Z) (replacements : list orchfs_core_block) (st : list CachedExtent * bool)
    (extent : CachedExtent) : list CachedExtent * bool :=
  let replace_end := first + Z.of_nat (length replacements) in
  let extent_end := u64 (first_block extent + block_count extent) in
  if bool_decide (replacements = []) || (extent_end <=? first) then (append_clipped new_block_count st.1 extent, st.2)
  else if replace_end <=? first_block extent then
    let st := insert_replacements new_block_count first replacements st in
    (append_clipped new_block_count st.1 extent, st.2)
  else
    let st := if first_block extent <? first
              then (append_clipped new_block_count st.1
                      (mk_extent (first_block extent) (first - first_block extent) (ce_mapping extent)), st.2)
              else st in
    let st := insert_replacements new_block_count first replacements st in
    if replace_end <? extent_end
    then (append_clipped new_block_count st.1
            (mk_extent replace_end (extent_end - replace_end) (shift_mapping (ce_mapping extent) (replace_end - first_block extent))), st.2)
    else st.
Definition update_extents (new_size first : Z) (replacements : list orchfs_core_block) (current : list CachedExtent)
    : list CachedExtent :=
  let new_block_count := blocks_of new_size in
  (insert_replacements new_block_count first replacements
     (fold_left (update_extent new_block_count first replacements) current ([], bool_decide (replacements = [])))).1.

(** ** The table *)

Definition kExtentCacheEntries : Z := 8192.
Record ExtentCacheEntry := mk_entry { ec_inode : Z; next_generation : Z; ec_snapshot : option ExtentSnapshot }.
Definition extent_cache : Type := Z -> ExtentCacheEntry.
Definition empty_extent_cache : extent_cache := fun _ => mk_entry (-1) 1 None.

Definition extent_cache_index (inode : Z) : Z := Z.land (fmix64 false (u64 inode)) (kExtentCacheEntries - 1).
Definition probe_index (inode probe : Z) : Z := Z.land (extent_cache_index inode + probe) (kExtentCacheEntries - 1).
Fixpoint find_probe (n : nat) (probe : Z) (c : extent_cache) (inode : Z) (create : bool) : option Z * extent_cache :=
  match n with
  | O => (None, c)
  | S n' =>
      let i := probe_index inode probe in
      if ec_inode (c i) =? inode then (Some i, c)
      else if negb (ec_inode (c i) =? -1) then find_probe n' (probe + 1) c inode create
      else if negb create then (None, c)
      else (Some i, upd c i (mk_entry inode (next_generation (c i)) (ec_snapshot (c i))))
  end.
Definition find_extent_entry (c : extent_cache) (inode : Z) (create : bool) : option Z * extent_cache :=
  if inode <? 0 then (None, c) else find_probe (Z.to_nat kExtentCacheEntries) 0 c inode create.

Definition publish_extent_snapshot (c : extent_cache) (inode : Z) (snapshot : ExtentSnapshot) : ExtentSnapshot * extent_cache :=
  match find_extent_entry c inode true with
  | (None, c) => (snapshot, c)
  | (Some i, c) =>
      let snapshot := mk_snapshot (next_generation (c i)) (file_size snapshot) (extents snapshot) in
      (snapshot, upd c i (mk_entry (ec_inode (c i)) (u64 (next_generation (c i) + 1)) (Some snapshot)))
  end.
Definition erase_extents (c : extent_cache) (inode : Z) : extent_cache :=
  match find_extent_entry c inode false with
  | (None, c) => c
  | (Some i, c) => upd c i (mk_entry (ec_inode (c i)) (next_generation (c i)) None)
  end.

(** A file as the operations see it: [orchfs_core_snapshot] and [orchfs_core_query_block]. *)
Record file := mk_file { f_type : Z; f_size : Z; f_query : Z -> Z + orchfs_core_block }.

Definition extents_for (c : extent_cache) (inode : Z) (f : file) : (Z + ExtentSnapshot) * extent_cache :=
  let '(entry, c) := find_extent_entry c inode true in
  let hit := match entry with
             | Some i => match ec_snapshot (c i) with
                         | Some cached => if (0 <=? f_size f) && (file_size cached =? f_size f) then Some cached else None
                         | None => None
                         end
             | None => None
             end in
  match hit with
  | Some cached => (inr cached, c)
  | None => match build_extent_snapshot (f_query f) (f_size f) with
            | inl error => (inl error, c)
            | inr built => let '(published, c) := publish_extent_snapshot c inode built in (inr published, c)
            end
  end.
(** [None] is a file whose inode cannot be read. *)
Definition refresh_extents (c : extent_cache) (inode : Z) (f : option file) : extent_cache :=
  match f with
  | None => erase_extents c inode
  | Some f =>
      if negb (f_type f =? ORCHFS_CORE_REGULAR) then erase_extents c inode
      else match build_extent_snapshot (f_query f) (f_size f) with
           | inl _ => erase_extents c inode
           | inr built => (publish_extent_snapshot c inode built).2
           end
  end.
Definition publish_extent_update (c : extent_cache) (inode : Z) (f : option file) (old_size new_size first : Z)
    (replacements : list orchfs_core_block) : extent_cache :=
  match find_extent_entry c inode true with
  | (None, c) => c
  | (Some i, c) =>
      match ec_snapshot (c i) with
      | None => refresh_extents c inode f
      | Some current =>
          if negb (file_size current =? old_size) || (UINT64_MAX - Z.of_nat (length replacements) <? first) then refresh_extents c inode f
          else (publish_extent_snapshot c inode (mk_snapshot 0 new_size (update_extents new_size first replacements (extents current)))).2
      end
  end.
Fixpoint query_all (query : Z -> Z + orchfs_core_block) (n : nat) (block : Z) : option (list orchfs_core_block) :=
  match n with
  | O => Some []
  | S n' => match query block with
            | inl _ => None
            | inr mapping => match query_all query n' (block + 1) with None => None | Some l => Some (mapping :: l) end
            end
  end.
Definition refresh_extent_range (c : extent_cache) (inode : Z) (f : option file) (offset length : Z) : extent_cache :=
  if (length =? 0) || (UINT64_MAX - length <? offset) then c
  else match f with
       | None => erase_extents c inode
       | Some g =>
           if (f_size g <? 0) || negb (f_type g =? ORCHFS_CORE_REGULAR) then erase_extents c inode
           else
             let first := offset / kBlockSize in
             let last := (offset + length - 1) / kBlockSize in
             match query_all (f_query g) (Z.to_nat (last - first + 1)) first with
             | None => erase_extents c inode
             | Some mappings => publish_extent_update c inode f (f_size g) (f_size g) first mappings
             end
       end.

(** ** What a vector of extents stands for *)

Definition max_blocks : Z := kMaximumFileSize / kBlockSize.
Definition ssd_at (offset k : Z) : orchfs_core_block := mk_core_block ORCHFS_CORE_SSD_BLOCK offset blank blank k.
(** What a query says of an SSD block: its place on the device and its number. *)
Definition mapping_ok (k : Z) (b : orchfs_core_block) : Prop :=
  cb_type b = ORCHFS_CORE_SSD_BLOCK -> b = ssd_at (ssd_device_offset b) k /\ 0 <= ssd_device_offset b < 2 ^ 62.
Record covers_run (f : Z -> orchfs_core_block) (e : CachedExtent) : Prop := {
  cr_first : 0 <= first_block e;
  cr_count : 1 <= block_count e;
  cr_end : first_block e + block_count e <= max_blocks;
  cr_map : forall i, 0 <= i < block_count e -> shift_mapping (ce_mapping e) i = f (first_block e + i);
}.
(** The extents cover the blocks from [a] to [b] without gaps and agree with [f]. *)
Fixpoint contig (f : Z -> orchfs_core_block) (a : Z) (l : list CachedExtent) (b : Z) : Prop :=
  match l with
  | [] => a = b
  | e :: rest => first_block e = a /\ covers_run f e /\ contig f (a + block_count e) rest b
  end.

Lemma max_blocks_val : max_blocks = 2 ^ 42.
Proof. reflexivity. Qed.
Lemma shift_ssd offset k i : 0 <= i <= max_blocks -> shift_mapping (ssd_at offset k) i = ssd_at (offset + i * kBlockSize) (k + i).
Proof.
  rewrite max_blocks_val. intros Hi. unfold shift_mapping, ssd_at. cbn [cb_type Z.eqb]. unfold kBlockSize.
  rewrite Z.eqb_refl, s64_u64, !s64_small by lia. done.
Qed.
Lemma shift_zero b : shift_mapping b 0 = b.
Proof.
  unfold shift_mapping. destruct (cb_type b =? ORCHFS_CORE_SSD_BLOCK); [|done]. destruct b. cbn.
  change (s64 (u64 0)) with 0. change (s64 0) with 0. by rewrite !Z.add_0_r.
Qed.

Lemma contig_app f a l1 l2 b : contig f a (l1 ++ l2) b <-> exists m, contig f a l1 m /\ contig f m l2 b.
Proof.
  revert a. induction l1 as [|e l1 IH]; intros a; cbn [app contig]; [naive_solver|]. rewrite IH. naive_solver.
Qed.
Lemma contig_le f a l b : contig f a l b -> a <= b.
Proof. revert a. induction l as [|e l IH]; intros a; cbn; [lia|]. intros (E & [_ C _ _] & H). apply IH in H. lia. Qed.
Lemma contig_ext f g a l b : (forall k, a <= k < b -> f k = g k) -> contig f a l b -> contig g a l b.
Proof.
  revert a. induction l as [|e l IH]; intros a Hfg; cbn; [done|]. intros (E & [R1 R2 R3 R4] & H). pose proof (contig_le _ _ _ _ H).
  split; [done|]. split; [|apply IH; [intros; apply Hfg; lia|done]]. split; try done. intros i Hi. rewrite R4 by done. apply Hfg. lia.
Qed.
Lemma contig_last f a l b p : contig f a l b -> last l = Some p ->
  exists m, contig f a (removelast l) m /\ first_block p = m /\ covers_run f p /\ m + block_count p = b.
Proof.
  intros Hc Hl. apply last_Some in Hl as [l' ->]. rewrite removelast_last. apply contig_app in Hc as (m & H1 & H2). cbn in H2. naive_solver.
Qed.

(** Two runs of SSD blocks that follow each other on the device are one run. *)
Lemma merge_runs f p e : covers_run f p -> covers_run f e -> (forall k, 0 <= k < max_blocks -> mapping_ok k (f k)) ->
  first_block p + block_count p = first_block e -> mergeable_ssd_extent p (first_block e) (ce_mapping e) = true ->
  covers_run f (mk_extent (first_block p) (u64 (block_count p + block_count e)) (ce_mapping p)).
Proof.
  intros [P1 P2 P3 P4] [E1 E2 E3 E4] Hf Hadj Hm. rewrite max_blocks_val in *. rewrite u64_small by lia.
  unfold mergeable_ssd_extent in Hm. destruct (negb _ || _ || _ || _ || _) eqn:Hg in Hm; [done|].
  rewrite !orb_false_iff, !negb_false_iff, !Z.eqb_eq, !Z.ltb_ge in Hg. destruct Hg as ((((T1 & T2) & _) & O1) & O2).
  rewrite s64_small in Hm by lia. apply andb_true_iff in Hm as [_ Ho]. apply Z.eqb_eq in Ho.
  assert (ce_mapping p = f (first_block p)) as Ep by (rewrite <-(shift_zero (ce_mapping p)), (P4 0), Z.add_0_r by lia; done).
  assert (ce_mapping e = f (first_block e)) as Ee by (rewrite <-(shift_zero (ce_mapping e)), (E4 0), Z.add_0_r by lia; done).
  destruct (Hf (first_block p) ltac:(lia)) as [Cp _]; [congruence|]. destruct (Hf (first_block e) ltac:(lia)) as [Ce _]; [congruence|].
  rewrite <-Ep in Cp. rewrite <-Ee in Ce.
  split; cbn [first_block block_count ce_mapping]; [lia|lia|rewrite max_blocks_val; lia|]. intros i Hi. destruct (decide (i < block_count p)); [apply P4; lia|].
  replace (first_block p + i) with (first_block e + (i - block_count p)) by lia. rewrite <-E4 by lia.
  rewrite Cp, Ce, !shift_ssd by (rewrite max_blocks_val; lia). f_equal; unfold kBlockSize in *; lia.
Qed.

Section append.
Context (f : Z -> orchfs_core_block) (Hf : forall k, 0 <= k < max_blocks -> mapping_ok k (f k)).

Lemma grow_last_contig a l m p e : contig f a (removelast l) m -> first_block p = m -> covers_run f p -> covers_run f e ->
  m + block_count p = first_block e -> mergeable_ssd_extent p (first_block e) (ce_mapping e) = true ->
  contig f a (grow_last l p (block_count e)) (first_block e + block_count e).
Proof.
  intros H1 H2 Hp He Hadj Hm. unfold grow_last. apply contig_app. exists m. split; [done|].
  pose proof (merge_runs f p e Hp He Hf ltac:(lia) Hm) as Hr. cbn. split; [done|]. split; [done|].
  destruct Hp as [P1 P2 P3 _], He as [E1 E2 E3 _]. rewrite max_blocks_val in *. rewrite u64_small by lia. lia.
Qed.
Lemma contig_snoc a l b e : contig f a l b -> first_block e = b -> covers_run f e -> contig f a (l ++ [e]) (b + block_count e).
Proof. intros H E He. apply contig_app. exists b. split; [done|]. cbn. split; [done|]. split; [done|lia]. Qed.

Lemma append_cached_contig a l b e : contig f a l b -> first_block e = b -> covers_run f e ->
  contig f a (append_cached_extent l e) (b + block_count e).
Proof.
  intros H E He. unfold append_cached_extent. destruct (Z.eqb_spec (block_count e) 0); [destruct He; lia|].
  destruct (last l) as [p|] eqn:El; [|by apply contig_snoc]. destruct ((cb_type _ =? _) && _) eqn:Em; [|by apply contig_snoc].
  apply andb_true_iff in Em as [_ Em]. destruct (contig_last _ _ _ _ _ H El) as (m & H1 & H2 & Hp & Hb).
  rewrite <-E. eapply grow_last_contig; try done. lia.
Qed.
Lemma append_extent_contig a l b : contig f a l b -> 0 <= b < max_blocks -> contig f a (append_extent l b (f b)) (b + 1).
Proof.
  intros H Hb. assert (covers_run f (mk_extent b 1 (f b))) as He.
  { split; cbn; [lia|lia|lia|]. intros i Hi. replace i with 0 by lia. rewrite Z.add_0_r. by apply shift_zero. }
  unfold append_extent. destruct (last l) as [p|] eqn:El; [|by apply (contig_snoc _ _ b (mk_extent b 1 (f b)))].
  destruct (mergeable_ssd_extent p b (f b)) eqn:Em; [|by apply (contig_snoc _ _ b (mk_extent b 1 (f b)))].
  destruct (contig_last _ _ _ _ _ H El) as (m & H1 & H2 & Hp & Hbb).
  by apply (grow_last_contig a l m p (mk_extent b 1 (f b))).
Qed.
End append.

Section lookup.
Context (f : Z -> orchfs_core_block).

Lemma upper_bound_contig l : forall a b k, contig f a l b -> 0 <= a ->
  (k < a -> upper_bound l k = O) /\
  (a <= k < b -> exists i e, upper_bound l k = S i /\ l !! i = Some e /\ first_block e <= k < first_block e + block_count e /\ covers_run f e) /\
  (b <= k -> a < b -> exists i e, upper_bound l k = S i /\ l !! i = Some e /\ first_block e + block_count e <= k /\ covers_run f e).
Proof.
  induction l as [|e l IH]; intros a b k; cbn [contig upper_bound].
  { intros -> Ha. split_and!; [done|lia|lia]. }
  intros (E & He & H) Ha. pose proof (contig_le _ _ _ _ H) as Hle. pose proof (cr_count _ _ He) as Hc.
  destruct (IH (a + block_count e) b k H ltac:(lia)) as (I1 & I2 & I3). split; [|split].
  - intros Hk. by rewrite (proj2 (Z.ltb_lt _ _)) by lia.
  - intros Hk. rewrite (proj2 (Z.ltb_ge _ _)) by lia. destruct (decide (k < a + block_count e)) as [Hlt|Hge].
    + exists O, e. rewrite I1 by done. split_and!; [done|done|lia|lia|done].
    + destruct I2 as (i & e' & -> & Hi & Hr); [lia|]. by exists (S i), e'.
  - intros Hk Hab. rewrite (proj2 (Z.ltb_ge _ _)) by lia. destruct (decide (a + block_count e = b)) as [Heq|Hne].
    + destruct l as [|e' l]; [|cbn in H; destruct H as (? & [_ ? _ _] & H); apply contig_le in H; lia].
      exists O, e. split_and!; [done|done|lia|done].
    + destruct I3 as (i & e' & -> & Hi & Hr); [lia|lia|]. by exists (S i), e'.
Qed.
(** A contiguous snapshot answers as the index does, and only for its blocks. *)
Lemma mapping_contig s n k : contig f 0 (extents s) n -> 0 <= k < 2 ^ 64 ->
  mapping_from_snapshot s k = if k <? n then Some (f k) else None.
Proof.
  intros H Hk. destruct (upper_bound_contig (extents s) 0 n k H ltac:(lia)) as (_ & I2 & I3). unfold mapping_from_snapshot.
  destruct (Z.ltb_spec k n) as [Hlt|Hge].
  - destruct I2 as (i & e & -> & -> & Hr & [C1 C2 C3 C4]); [lia|]. rewrite max_blocks_val in C3.
    rewrite (proj2 (Z.ltb_ge _ _)) by lia. rewrite u64_small by lia. rewrite (proj2 (Z.leb_gt _ _)) by lia. cbn [orb].
    change (Z.quot INT64_MAX kBlockSize) with 281474976710655. rewrite (proj2 (Z.ltb_ge _ _)) by lia. rewrite andb_false_r, C4 by lia.
    by replace (first_block e + (k - first_block e)) with k by lia.
  - apply contig_le in H as Hn. destruct (decide (n = 0)) as [->|Hn0].
    + destruct (extents s) as [|e l]; [done|]. cbn in H. destruct H as (? & [_ ? _ _] & H). apply contig_le in H. lia.
    + destruct I3 as (i & e & -> & -> & Hr & [C1 C2 C3 C4]); [lia|lia|]. rewrite u64_small by lia.
      rewrite (proj2 (Z.leb_le (block_count e) _)) by lia. by rewrite orb_true_r.
Qed.
End lookup.

(** The number of blocks of a file. *)
Lemma blocks_of_spec size : 0 <= size <= kMaximumFileSize -> 0 <= blocks_of size <= max_blocks /\ forall k, k < blocks_of size <-> k * kBlockSize < size.
Proof.
  change kMaximumFileSize with (2 ^ 57). rewrite max_blocks_val. intros H. unfold blocks_of, kBlockSize. change (32 * 1024) with 32768.
  rewrite u64_small by lia. pose proof (Z.div_mod (size + 32768 - 1) 32768). pose proof (Z.mod_pos_bound (size + 32768 - 1) 32768).
  split; [|intros k]; lia.
Qed.

Lemma build_contig query f n : forall k l, (forall j, k <= j < k + Z.of_nat n -> query j = inr (f j)) ->
  (forall j, 0 <= j < max_blocks -> mapping_ok j (f j)) -> 0 <= k -> k + Z.of_nat n <= max_blocks -> contig f 0 l k ->
  exists l', build_extents query n k l = inr l' /\ contig f 0 l' (k + Z.of_nat n).
Proof.
  induction n as [|n IH]; intros k l Hq Hf Hk Hn Hc; [exists l; split; [done|]; by rewrite Z.add_0_r|].
  cbn [build_extents]. rewrite Hq by lia. destruct (IH (k + 1) (append_extent l k (f k))) as (l' & -> & H').
  - intros j Hj. apply Hq. lia.
  - done.
  - lia.
  - lia.
  - apply append_extent_contig; [done|done|lia].
  - exists l'. split; [done|]. by replace (k + Z.of_nat (S n)) with (k + 1 + Z.of_nat n) by lia.
Qed.

(** ** Updates *)

(** The mapping after the blocks from [first] on are replaced. *)
Definition replaced (f : Z -> orchfs_core_block) (first : Z) (reps : list orchfs_core_block) (k : Z) : orchfs_core_block :=
  match (if first <=? k then reps !! Z.to_nat (k - first) else None) with Some b => b | None => f k end.

Section update.
Context (f : Z -> orchfs_core_block) (first : Z) (reps : list orchfs_core_block) (N : Z).
Abbreviation g := (replaced f first reps).
Abbreviation rend := (first + Z.of_nat (length reps)).
Hypothesis Hf : forall k, 0 <= k < max_blocks -> mapping_ok k (f k).
Hypothesis Hg : forall k, 0 <= k < max_blocks -> mapping_ok k (g k).
Hypothesis HN : 0 <= N <= max_blocks.
Hypothesis Hfirst : 0 <= first /\ rend <= max_blocks.

Lemma replaced_out k : k < first \/ rend <= k -> g k = f k.
Proof.
  intros H. unfold replaced. destruct (Z.leb_spec first k); [|done]. rewrite lookup_ge_None_2 by lia. done.
Qed.
Lemma replaced_in i b : reps !! i = Some b -> g (first + Z.of_nat i) = b.
Proof. intros H. unfold replaced. rewrite (proj2 (Z.leb_le _ _)) by lia. by replace (Z.to_nat (first + Z.of_nat i - first)) with i by lia; rewrite H. Qed.

(** Part of a run, and a run cut to the new size. *)
Lemma sub_run e d c : covers_run f e -> 0 <= d -> 1 <= c -> d + c <= block_count e ->
  (forall i, 0 <= i < c -> g (first_block e + d + i) = f (first_block e + d + i)) ->
  covers_run g (mk_extent (first_block e + d) c (shift_mapping (ce_mapping e) d)).
Proof.
  intros [C1 C2 C3 C4] Hd Hc Hdc Hsame. split; cbn [first_block block_count ce_mapping]; [lia|lia|lia|]. intros i Hi.
  rewrite (Hsame i Hi). rewrite <-Z.add_assoc, <-C4 by lia. rewrite max_blocks_val in C3.
  unfold shift_mapping. destruct (cb_type (ce_mapping e) =? ORCHFS_CORE_SSD_BLOCK) eqn:E; [|by rewrite E]. cbn [cb_type]. rewrite E. cbn.
  unfold kBlockSize. rewrite !s64_u64, !s64_small by lia. f_equal; lia.
Qed.
Lemma clipped_contig l x e : contig g 0 l (Z.min x N) -> 0 <= x -> first_block e = x -> covers_run g e ->
  contig g 0 (append_clipped N l e) (Z.min (x + block_count e) N).
Proof.
  intros H Hx E [C1 C2 C3 C4]. unfold append_clipped. destruct (Z.leb_spec N (first_block e)) as [Hle|Hlt].
  { replace (Z.min (x + block_count e) N) with (Z.min x N) by lia. done. }
  replace (Z.min (x + block_count e) N) with (Z.min x N + Z.min (block_count e) (N - first_block e)) by lia.
  apply (append_cached_contig g Hg 0 l (Z.min x N) (mk_extent (first_block e) (Z.min (block_count e) (N - first_block e)) (ce_mapping e)));
    [done|cbn; lia|]. split; cbn [first_block block_count ce_mapping]; [lia|lia|lia|]. intros i Hi. apply C4. lia.
Qed.
Lemma replacements_contig rs : forall l k i, contig g 0 l (Z.min k N) -> drop i reps = rs -> k = first + Z.of_nat i ->
  contig g 0 (append_replacements N k rs l) (Z.min (k + Z.of_nat (length rs)) N).
Proof.
  induction rs as [|b rs IH]; intros l k i H Hd Hk; cbn [append_replacements length]; [by rewrite Z.add_0_r|].
  assert (reps !! i = Some b) as Hi by (rewrite <-(Nat.add_0_r i), <-lookup_drop, Hd; done).
  apply lookup_lt_Some in Hi as Hlt.
  replace (k + Z.of_nat (S (length rs))) with (k + 1 + Z.of_nat (length rs)) by lia. apply (IH _ _ (S i)); [|by rewrite <-Nat.add_1_r, <-drop_drop, Hd|lia].
  apply (clipped_contig l k (mk_extent k 1 b)); [done|lia|done|]. split; cbn [first_block block_count ce_mapping]; [lia|lia|lia|].
  intros j Hj. replace j with 0 by lia. rewrite shift_zero, Z.add_0_r, Hk. symmetry. by apply replaced_in.
Qed.

(** The state of the loop at block [a]. *)
Definition loop_at (st : list CachedExtent * bool) (a : Z) : Prop :=
  if st.2 then first <= a /\ contig g 0 st.1 (Z.min (Z.max a rend) N) else a <= first /\ contig g 0 st.1 (Z.min a N).

Lemma insert_at st a : loop_at st a -> first <= a ->
  exists l, insert_replacements N first reps st = (l, true) /\ contig g 0 l (Z.min (Z.max a rend) N).
Proof.
  unfold loop_at, insert_replacements. destruct st as [l []]; cbn [fst snd]; intros [Ha H] Hb; [by exists l|].
  assert (a = first) as -> by lia. eexists. split; [done|].
  pose proof (replacements_contig reps l first 0%nat H eq_refl ltac:(lia)) as Hr. by replace (Z.max first rend) with rend by lia.
Qed.
Lemma whole_run e : covers_run f e -> (forall i, 0 <= i < block_count e -> g (first_block e + i) = f (first_block e + i)) -> covers_run g e.
Proof. intros [C1 C2 C3 C4] H. split; try done. intros i Hi. rewrite C4 by done. symmetry. by apply H. Qed.

(** The part of an extent before the replacements. *)
Lemma prefix_at st e : loop_at st (first_block e) -> covers_run f e -> first < first_block e + block_count e ->
  loop_at (if first_block e <? first then (append_clipped N st.1 (mk_extent (first_block e) (first - first_block e) (ce_mapping e)), st.2) else st)
    (Z.max (first_block e) first).
Proof.
  intros Hst He Hlt. destruct (Z.ltb_spec (first_block e) first) as [L|L]; [|by rewrite Z.max_l by lia].
  rewrite Z.max_r by lia. unfold loop_at in *. destruct st as [l []]; cbn [fst snd] in *; [lia|]. destruct Hst as [_ H]. split; [lia|].
  pose proof (sub_run e 0 (first - first_block e) He ltac:(lia) ltac:(lia) ltac:(lia)) as Hs. rewrite shift_zero, Z.add_0_r in Hs.
  pose proof (clipped_contig l (first_block e) (mk_extent (first_block e) (first - first_block e) (ce_mapping e)) H (cr_first _ _ He) eq_refl (Hs ltac:(intros i Hi; apply replaced_out; lia))) as Hq.
  cbn [block_count] in Hq. by replace (first_block e + (first - first_block e)) with first in Hq by lia.
Qed.

Lemma update_step st e : reps <> [] -> loop_at st (first_block e) -> covers_run f e ->
  loop_at (update_extent N first reps st e) (first_block e + block_count e).
Proof.
  intros Hr Hst He. pose proof (cr_first _ _ He). pose proof (cr_count _ _ He). pose proof (cr_end _ _ He).
  assert (0 < Z.of_nat (length reps)) as Hlen by (destruct reps; [done|cbn; lia]).
  unfold update_extent. cbv zeta. rewrite (u64_small (first_block e + _)) by (rewrite max_blocks_val in *; lia).
  rewrite bool_decide_eq_false_2 by done. cbn [orb]. destruct (Z.leb_spec (first_block e + block_count e) first) as [L1|L1].
  { unfold loop_at in *. destruct st as [l []]; cbn [fst snd] in *; [lia|]. destruct Hst as [Ha Hst].
    split; [lia|]. apply clipped_contig; [done|lia|done|]. apply whole_run; [done|]. intros i Hi. apply replaced_out. lia. }
  destruct (Z.leb_spec rend (first_block e)) as [L2|L2].
  - destruct (insert_at st (first_block e) Hst ltac:(lia)) as (l & -> & Hl). unfold loop_at. cbn [fst snd]. split; [lia|].
    rewrite Z.max_l in Hl by lia. rewrite Z.max_l by lia. apply clipped_contig; [done|lia|done|].
    apply whole_run; [done|]. intros i Hi. apply replaced_out. lia.
  - destruct (insert_at _ _ (prefix_at st e Hst He L1) ltac:(lia)) as (l & -> & Hl). rewrite Z.max_r in Hl by lia.
    destruct (Z.ltb_spec rend (first_block e + block_count e)) as [L3|L3]; unfold loop_at; cbn [fst snd].
    + split; [lia|]. rewrite Z.max_l by lia. pose proof (sub_run e (rend - first_block e) (first_block e + block_count e - rend) He
        ltac:(lia) ltac:(lia) ltac:(lia)) as Hs. replace (first_block e + (rend - first_block e)) with rend in Hs by lia.
      pose proof (clipped_contig l rend (mk_extent rend (first_block e + block_count e - rend) (shift_mapping (ce_mapping e) (rend - first_block e))) Hl ltac:(lia) eq_refl (Hs ltac:(intros i Hi; apply replaced_out; lia))) as Hq.
      cbn [block_count] in Hq. by replace (rend + (first_block e + block_count e - rend)) with (first_block e + block_count e) in Hq by lia.
    + split; [lia|]. by rewrite Z.max_r by lia.
Qed.
Lemma update_loop l : forall st a b, reps <> [] -> loop_at st a -> contig f a l b ->
  loop_at (fold_left (update_extent N first reps) l st) b.
Proof.
  induction l as [|e l IH]; intros st a b Hr Hst Hc; cbn in Hc; [by subst|]. destruct Hc as (E & He & Hc). cbn [fold_left].
  eapply IH; [done| |done]. subst a. by apply update_step.
Qed.
End update.

Lemma replaced_nil f first k : replaced f first [] k = f k.
Proof. unfold replaced. by destruct (first <=? k). Qed.
Lemma update_none f N first l : forall l' a b, (forall k, 0 <= k < max_blocks -> mapping_ok k (f k)) -> 0 <= N <= max_blocks ->
  contig f 0 l' (Z.min a N) -> 0 <= a -> contig f a l b ->
  exists l'', fold_left (update_extent N first []) l (l', true) = (l'', true) /\ contig f 0 l'' (Z.min b N).
Proof.
  induction l as [|e l IH]; intros l' a b Hf HN H Ha Hc; cbn in Hc; [exists l'; by subst|]. destruct Hc as (E & He & Hc).
  cbn [fold_left]. unfold update_extent at 2. rewrite bool_decide_eq_true_2 by done. cbn [orb fst snd].
  pose proof (cr_count _ _ He). eapply (IH _ (a + block_count e)); [done|done| |lia|done].
  assert (forall k, replaced f 0 [] k = f k) as Hr by (intros; apply replaced_nil).
  eapply contig_ext; [intros k _; apply Hr|]. apply clipped_contig; try done.
  - intros k Hk. rewrite Hr. by apply Hf.
  - eapply contig_ext; [intros k _; symmetry; apply Hr|done].
  - destruct He as [C1 C2 C3 C4]. split; try done. intros i Hi. by rewrite Hr, C4.
Qed.

(** The updated vector stands for the updated mapping. *)
Lemma update_extents_contig f old_count new_size first reps current :
  (forall k, 0 <= k < max_blocks -> mapping_ok k (f k)) -> (forall k, 0 <= k < max_blocks -> mapping_ok k (replaced f first reps k)) ->
  0 <= new_size <= kMaximumFileSize -> 0 <= first -> first + Z.of_nat (length reps) <= max_blocks ->
  (reps <> [] -> first <= old_count) -> (reps = [] -> blocks_of new_size <= old_count) ->
  blocks_of new_size <= Z.max old_count (first + Z.of_nat (length reps)) -> contig f 0 current old_count ->
  contig (replaced f first reps) 0 (update_extents new_size first reps current) (blocks_of new_size).
Proof.
  intros Hf Hg Hs H1 H2 H3 H3' H4 Hc. destruct (blocks_of_spec new_size Hs) as [HN _]. unfold update_extents. cbv zeta.
  destruct (decide (reps = [])) as [->|Hr].
  - rewrite bool_decide_eq_true_2 by done. destruct (update_none f (blocks_of new_size) first current [] 0 old_count Hf HN) as (l & -> & Hl);
      [change (0 = Z.min 0 (blocks_of new_size)); lia|lia|done|]. cbn. rewrite Z.min_r in Hl by auto. eapply contig_ext; [|done]. intros k _. by rewrite replaced_nil.
  - rewrite bool_decide_eq_false_2 by done.
    pose proof (update_loop f first reps (blocks_of new_size) Hf Hg HN (conj H1 H2) current ([], false) 0 old_count Hr) as Hl.
    destruct (insert_at f first reps (blocks_of new_size) Hg HN (conj H1 H2) _ old_count (Hl (conj H1 (eq_sym (Z.min_l 0 _ (proj1 HN)))) Hc) (H3 Hr)) as (l & -> & Hfin).
    cbn. by rewrite Z.min_r in Hfin by lia.
Qed.

(** ** The table as a map *)

Definition in_table (i : Z) : Prop := 0 <= i < kExtentCacheEntries.
(** The probes of an inode before the given one meet entries of other inodes. *)
Definition passed (c : extent_cache) (inode p : Z) : Prop :=
  forall q, 0 <= q < p -> ec_inode (c (probe_index inode q)) <> -1 /\ ec_inode (c (probe_index inode q)) <> inode.
Record table_ok (c : extent_cache) : Prop := {
  tb_probe : forall i, in_table i -> ec_inode (c i) <> -1 ->
    exists p, in_table p /\ probe_index (ec_inode (c i)) p = i /\ passed c (ec_inode (c i)) p;
  tb_empty : forall i, in_table i -> ec_inode (c i) = -1 -> ec_snapshot (c i) = None;
}.
Definition cached_snapshot_of (c : extent_cache) (inode : Z) : option ExtentSnapshot :=
  match (find_extent_entry c inode false).1 with Some i => ec_snapshot (c i) | None => None end.

Lemma probe_in inode p : in_table (probe_index inode p).
Proof.
  unfold in_table, probe_index, kExtentCacheEntries. change (8192 - 1) with (Z.ones 13). rewrite Z.land_ones by lia.
  change 8192 with (2 ^ 13). apply Z.mod_pos_bound. lia.
Qed.

Lemma find_probe_cases n : forall p c inode create, passed c inode p -> 0 <= p ->
  let r := find_probe n p c inode create in
  (exists q, p <= q < p + Z.of_nat n /\ passed c inode q /\ ec_inode (c (probe_index inode q)) = inode /\ r = (Some (probe_index inode q), c)) \/
  (exists q, p <= q < p + Z.of_nat n /\ passed c inode q /\ inode <> -1 /\ ec_inode (c (probe_index inode q)) = -1 /\
     let i := probe_index inode q in
     r = if create then (Some i, upd c i (mk_entry inode (next_generation (c i)) (ec_snapshot (c i)))) else (None, c)) \/
  (passed c inode (p + Z.of_nat n) /\ r = (None, c)).
Proof.
  induction n as [|n IH]; intros p c inode create Hp H0; cbn [find_probe].
  { right. right. by rewrite Z.add_0_r. }
  destruct (Z.eqb_spec (ec_inode (c (probe_index inode p))) inode) as [E|E].
  { left. exists p. split; [lia|done]. }
  destruct (Z.eqb_spec (ec_inode (c (probe_index inode p))) (-1)) as [E1|E1]; cbn [negb].
  { right. left. exists p. split; [lia|]. split; [done|]. split; [congruence|]. split; [done|]. by destruct create. }
  destruct (IH (p + 1) c inode create) as [(q & Hq & H)|[(q & Hq & H)|[H1 H2]]].
  - intros q Hq. destruct (decide (q = p)) as [->|]; [done|]. apply Hp. lia.
  - lia.
  - left. exists q. split; [lia|done].
  - right. left. exists q. split; [lia|done].
  - right. right. by replace (p + Z.of_nat (S n)) with (p + 1 + Z.of_nat n) by lia.
Qed.
Lemma find_cases c inode create : 0 <= inode ->
  let r := find_extent_entry c inode create in
  (exists q, in_table q /\ passed c inode q /\ ec_inode (c (probe_index inode q)) = inode /\ r = (Some (probe_index inode q), c)) \/
  (exists q, in_table q /\ passed c inode q /\ inode <> -1 /\ ec_inode (c (probe_index inode q)) = -1 /\
     let i := probe_index inode q in
     r = if create then (Some i, upd c i (mk_entry inode (next_generation (c i)) (ec_snapshot (c i)))) else (None, c)) \/
  (passed c inode kExtentCacheEntries /\ r = (None, c)).
Proof.
  intros Hi. unfold find_extent_entry. rewrite (proj2 (Z.ltb_ge _ _)) by done.
  assert (passed c inode 0) as H0 by (intros q Hq; lia).
  pose proof (find_probe_cases (Z.to_nat kExtentCacheEntries) 0 c inode create H0 ltac:(lia)) as H.
  rewrite Z2Nat.id in H by (unfold kExtentCacheEntries; lia). exact H.
Qed.
(** An inode has at most one entry, and the probes find it. *)
Lemma find_entry c inode i create : table_ok c -> 0 <= inode -> in_table i -> ec_inode (c i) = inode ->
  find_extent_entry c inode create = (Some i, c).
Proof.
  intros [T1 T2] Hn Hi E. destruct (T1 i Hi ltac:(lia)) as (p & Hp & Ep & Hpass). rewrite E in Ep, Hpass.
  destruct (find_cases c inode create Hn) as [(q & Hq & H1 & H2 & ->)|[(q & Hq & H1 & _ & H2 & _)|[H1 _]]].
  - destruct (decide (q < p)) as [L|L]; [destruct (Hpass q) as [_ ?]; [unfold in_table in *; lia|done]|].
    destruct (decide (p < q)) as [L'|L']; [destruct (H1 p) as [_ ?]; [unfold in_table in *; lia|congruence]|]. by replace q with p by lia; rewrite Ep.
  - exfalso. destruct (decide (q < p)) as [L|L]; [destruct (Hpass q) as [? _]; [unfold in_table in *; lia|done]|].
    destruct (decide (p < q)) as [L'|L']; [destruct (H1 p) as [_ ?]; [unfold in_table in *; lia|congruence]|]. assert (q = p) as -> by lia.
    rewrite Ep, E in H2. lia.
  - exfalso. destruct (H1 p Hp) as [_ ?]. congruence.
Qed.
Lemma cached_iff c inode s : table_ok c -> 0 <= inode ->
  cached_snapshot_of c inode = Some s <-> exists i, in_table i /\ ec_inode (c i) = inode /\ ec_snapshot (c i) = Some s.
Proof.
  intros T Hn. unfold cached_snapshot_of. split.
  - destruct (find_cases c inode false Hn) as [(q & Hq & _ & E & ->)|[(q & _ & _ & _ & _ & ->)|[_ ->]]]; cbn [fst]; [|done|done].
    intros Hs. exists (probe_index inode q). split; [apply probe_in|done].
  - intros (i & Hi & E & Hs). by rewrite (find_entry c inode i false T Hn Hi E).
Qed.
Lemma cached_eq c c' inode : table_ok c -> table_ok c' -> 0 <= inode ->
  (forall i s, in_table i -> ec_inode (c i) = inode /\ ec_snapshot (c i) = Some s <-> ec_inode (c' i) = inode /\ ec_snapshot (c' i) = Some s) ->
  cached_snapshot_of c' inode = cached_snapshot_of c inode.
Proof.
  intros T T' Hn H. apply option_eq. intros s. rewrite !cached_iff by done. split; intros (i & Hi & Hr); exists i; (split; [done|]); by apply H.
Qed.

(** Finding an entry, making it if it is missing, keeps the map. *)
Lemma touch_entry c inode r c1 : table_ok c -> 0 <= inode -> find_extent_entry c inode true = (r, c1) ->
  table_ok c1 /\ (forall m, 0 <= m -> cached_snapshot_of c1 m = cached_snapshot_of c m) /\
  match r with
  | Some i => in_table i /\ ec_inode (c1 i) = inode /\ ec_snapshot (c1 i) = cached_snapshot_of c inode
  | None => cached_snapshot_of c inode = None
  end.
Proof.
  intros T Hn Hr. destruct (find_cases c inode true Hn) as [(q & Hq & _ & E & Ef)|[(q & Hq & Hp & Hne & E & Ef)|[Hp Ef]]];
    rewrite Ef in Hr; injection Hr as <- <-.
  - split; [done|]. split; [done|]. split; [apply probe_in|]. split; [done|]. unfold cached_snapshot_of.
    by rewrite (find_entry c inode _ false T Hn (probe_in inode q) E).
  - set (i := probe_index inode q) in *. pose proof (probe_in inode q : in_table i) as Hi. destruct T as [T1 T2].
    assert (ec_snapshot (c i) = None) as Es by (by apply T2). rewrite Es. set (c1 := upd c i _).
    assert (forall j, ec_inode (c1 j) = if decide (j = i) then inode else ec_inode (c j)) as Ei.
    { intros j. unfold c1. destruct (decide (j = i)) as [->|]; [by rewrite upd_same|by rewrite upd_other]. }
    assert (forall j, ec_snapshot (c1 j) = ec_snapshot (c j)) as Esn.
    { intros j. unfold c1. destruct (decide (j = i)) as [->|]; [by rewrite upd_same, Es|by rewrite upd_other]. }
    assert (forall m p, passed c m p -> passed c1 m p) as Hpass.
    { intros m p Hm x Hx. destruct (Hm x Hx) as [X1 X2]. rewrite Ei. destruct (decide _) as [Ex|]; [rewrite Ex in X1; congruence|done]. }
    assert (table_ok c1) as T'.
    { split; intros j Hj; rewrite Ei; [|rewrite Esn]; destruct (decide (j = i)) as [->|Hji]; intros Hx; [|by apply T1 in Hx as (p & ? & ? & ?);
        [exists p; split_and!; [| |apply Hpass]|]|done|by apply T2]. exists q. split_and!; [done|done|by apply Hpass]. }
    split; [done|]. split; [|split_and!; [done|by rewrite Ei, decide_True|]].
    + intros m Hm. apply cached_eq; [done|done|done|]. intros j s Hj. rewrite Ei, Esn. destruct (decide (j = i)) as [->|]; [|done]. rewrite Es. naive_solver.
    + rewrite Esn, Es. symmetry. unfold cached_snapshot_of.
      destruct (find_cases c inode false Hn) as [(x & Hx & Px & Ex & _)|[(x & _ & _ & _ & _ & ->)|[_ ->]]]; [exfalso|done|done].
      destruct (decide (q < x)); [destruct (Px q) as [? _]; [unfold in_table in *; lia|done]|].
      destruct (decide (x < q)); [destruct (Hp x) as [_ ?]; [unfold in_table in *; lia|done]|]. assert (x = q) as -> by lia. fold i in Ex. congruence.
  - split; [done|]. split; [done|]. destruct (cached_snapshot_of c inode) as [s|] eqn:Es; [|done]. exfalso.
    apply cached_iff in Es as (i & Hi & E & _); [|done|done]. pose proof (find_entry c inode i true T Hn Hi E). congruence.
Qed.

(** Storing a snapshot, or none, in the entry of an inode. *)
Lemma store_entry c inode i e : table_ok c -> 0 <= inode -> in_table i -> ec_inode (c i) = inode -> ec_inode e = inode ->
  table_ok (upd c i e) /\ cached_snapshot_of (upd c i e) inode = ec_snapshot e /\
  forall m, 0 <= m -> m <> inode -> cached_snapshot_of (upd c i e) m = cached_snapshot_of c m.
Proof.
  intros T Hn Hi E Ee. set (c1 := upd c i e).
  assert (forall j, ec_inode (c1 j) = ec_inode (c j)) as Ei.
  { intros j. unfold c1. destruct (decide (j = i)) as [->|]; [by rewrite upd_same, Ee|by rewrite upd_other]. }
  assert (table_ok c1) as T'.
  { destruct T as [T1 T2]. split; intros j Hj; rewrite Ei; intros Hx.
    - destruct (T1 j Hj Hx) as (p & ? & ? & Hp). exists p. split_and!; [done|done|]. intros x Hq. rewrite Ei. by apply Hp.
    - unfold c1. rewrite upd_other; [by apply T2|]. intros ->. lia. }
  split; [done|]. split.
  - unfold cached_snapshot_of. rewrite (find_entry c1 inode i false T' Hn Hi) by (by rewrite Ei). cbn. unfold c1. by rewrite upd_same.
  - intros m Hm Hne. apply cached_eq; [done|done|done|]. intros j s Hj. rewrite Ei. destruct (decide (j = i)) as [->|].
    + split; intros [H _]; congruence.
    + unfold c1. by rewrite upd_other.
Qed.

Lemma publish_cached c inode s : table_ok c -> 0 <= inode ->
  let r := publish_extent_snapshot c inode s in
  file_size r.1 = file_size s /\ extents r.1 = extents s /\ table_ok r.2 /\
  (cached_snapshot_of r.2 inode = Some r.1 \/ cached_snapshot_of r.2 inode = None) /\
  forall m, 0 <= m -> m <> inode -> cached_snapshot_of r.2 m = cached_snapshot_of c m.
Proof.
  intros T Hn. unfold publish_extent_snapshot. destruct (find_extent_entry c inode true) as [[i|] c1] eqn:Ef;
    destruct (touch_entry c inode _ _ T Hn Ef) as (T1 & Hm & Hx); cbn [fst snd file_size extents].
  - destruct Hx as (Hi & E & _). split; [done|]. split; [done|].
    destruct (store_entry c1 inode i (mk_entry (ec_inode (c1 i)) (u64 (next_generation (c1 i) + 1))
      (Some (mk_snapshot (next_generation (c1 i)) (file_size s) (extents s)))) T1 Hn Hi E E) as (T2 & Hs & Ho).
    split; [done|]. split; [by left|]. intros m H0 Hne. rewrite Ho by done. by apply Hm.
  - split; [done|]. split; [done|]. split; [done|]. split; [right; by rewrite Hm|]. intros m H0 _. by apply Hm.
Qed.
Lemma erase_cached c inode : table_ok c -> 0 <= inode ->
  table_ok (erase_extents c inode) /\ cached_snapshot_of (erase_extents c inode) inode = None /\
  forall m, 0 <= m -> m <> inode -> cached_snapshot_of (erase_extents c inode) m = cached_snapshot_of c m.
Proof.
  intros T Hn. unfold erase_extents. destruct (find_cases c inode false Hn) as [(q & Hq & _ & E & Ef)|[(q & _ & _ & _ & _ & Ef)|[_ Ef]]].
  - rewrite Ef. apply (store_entry c inode (probe_index inode q)); try done. apply probe_in.
  - cbn in Ef. rewrite Ef. split; [done|]. split; [|done]. unfold cached_snapshot_of. by rewrite Ef.
  - rewrite Ef. split; [done|]. split; [|done]. unfold cached_snapshot_of. by rewrite Ef.
Qed.

(** ** Coherence *)

Definition no_block : orchfs_core_block := mk_core_block 0 (-1) blank blank 0.
Definition f_map (f : file) (k : Z) : orchfs_core_block := match f_query f k with inr b => b | inl _ => no_block end.
(** A regular file: all its blocks are mapped. *)
Record file_ok (f : file) : Prop := {
  fo_type : f_type f = ORCHFS_CORE_REGULAR;
  fo_size : 0 <= f_size f <= kMaximumFileSize;
  fo_mapped : forall k, 0 <= k < blocks_of (f_size f) -> f_query f k = inr (f_map f k);
  fo_mapping : forall k b, f_query f k = inr b -> mapping_ok k b;
}.
Definition exact (f : file) (s : ExtentSnapshot) : Prop := contig (f_map f) 0 (extents s) (blocks_of (f_size f)).

Lemma file_mapping f k : file_ok f -> mapping_ok k (f_map f k).
Proof. intros [_ _ _ H]. unfold f_map. destruct (f_query f k) as [|b] eqn:E; [intros Ht; by vm_compute in Ht|by apply H]. Qed.
Lemma build_exact f : file_ok f -> exists s, build_extent_snapshot (f_query f) (f_size f) = inr s /\ file_size s = f_size f /\ exact f s.
Proof.
  intros Hf. destruct Hf as [T S Q M] eqn:E. clear E. unfold build_extent_snapshot. rewrite (proj2 (Z.ltb_ge _ _)) by lia.
  destruct (blocks_of_spec (f_size f) S) as [HN _].
  destruct (build_contig (f_query f) (f_map f) (Z.to_nat (blocks_of (f_size f))) 0 []) as (l & -> & Hl).
  - intros j Hj. apply Q. lia.
  - intros j _. by apply file_mapping.
  - lia.
  - lia.
  - done.
  - rewrite Z2Nat.id in Hl by lia. eexists. split; [done|]. split; [done|]. exact Hl.
Qed.

(** Files that agree on their blocks have the same exact snapshots. *)
Lemma exact_replaced f f' s first reps old_size :
  (forall k, 0 <= k < blocks_of (f_size f') -> f_map f' k = replaced (f_map f) first reps k) ->
  contig (replaced (f_map f) first reps) 0 (extents s) (blocks_of (f_size f')) -> old_size = f_size f -> exact f' s.
Proof. intros H Hc _. eapply contig_ext; [|exact Hc]. intros k Hk. symmetry. by apply H. Qed.

(** What a write or a truncation changes: blocks from [first] on are replaced, and
    blocks beyond the old end are among the replaced ones. *)
Record file_update (f f' : file) (first : Z) (reps : list orchfs_core_block) : Prop := {
  fu_ok : file_ok f';
  fu_first : 0 <= first;
  fu_end : first + Z.of_nat (length reps) <= max_blocks;
  fu_gap : reps <> [] -> first <= blocks_of (f_size f);
  fu_new : blocks_of (f_size f') <= Z.max (blocks_of (f_size f)) (if bool_decide (reps = []) then 0 else first + Z.of_nat (length reps));
  fu_map : forall k, 0 <= k < blocks_of (f_size f') -> f_map f' k = replaced (f_map f) first reps k;
  fu_reps : forall i b, reps !! i = Some b -> mapping_ok (first + Z.of_nat i) b;
}.
Definition coherent_for (c : extent_cache) (inode : Z) (f : file) : Prop :=
  forall s, cached_snapshot_of c inode = Some s -> file_size s = f_size f -> exact f s.

Lemma refresh_coherent c inode f : table_ok c -> 0 <= inode -> file_ok f ->
  let c' := refresh_extents c inode (Some f) in
  table_ok c' /\ coherent_for c' inode f /\ forall m, 0 <= m -> m <> inode -> cached_snapshot_of c' m = cached_snapshot_of c m.
Proof.
  intros T Hn Hf. unfold refresh_extents. rewrite (fo_type _ Hf). cbn [negb Z.eqb].
  destruct (build_exact f Hf) as (s & -> & Es & Hs). change (negb (ORCHFS_CORE_REGULAR =? ORCHFS_CORE_REGULAR)) with false. cbv iota.
  destruct (publish_cached c inode s T Hn) as (E1 & E2 & T' & Hc & Ho). split; [done|]. split; [|done].
  intros s' Hs' _. destruct Hc as [Hc|Hc]; rewrite Hc in Hs'; [injection Hs' as <-|done]. unfold exact. by rewrite E2.
Qed.
Lemma replaced_mapping f first reps k : file_ok f -> (forall i b, reps !! i = Some b -> mapping_ok (first + Z.of_nat i) b) ->
  mapping_ok k (replaced (f_map f) first reps k).
Proof.
  intros Hf Hr. unfold replaced. destruct (Z.leb_spec first k) as [L|L]; [|by apply file_mapping].
  destruct (reps !! _) as [b|] eqn:E; [|by apply file_mapping]. apply Hr in E. by replace (first + Z.of_nat (Z.to_nat (k - first))) with k in E by lia.
Qed.
Lemma publish_update_coherent c inode f f' first reps : table_ok c -> 0 <= inode -> file_ok f -> coherent_for c inode f ->
  file_update f f' first reps ->
  let c' := publish_extent_update c inode (Some f') (f_size f) (f_size f') first reps in
  table_ok c' /\ coherent_for c' inode f' /\ forall m, 0 <= m -> m <> inode -> cached_snapshot_of c' m = cached_snapshot_of c m.
Proof.
  intros T Hn Hf Hc [U1 U2 U3 U4 U5 U6 U7]. unfold publish_extent_update.
  destruct (find_extent_entry c inode true) as [[i|] c1] eqn:Ef; destruct (touch_entry c inode _ _ T Hn Ef) as (T1 & Hm & Hx).
  2: { split; [done|]. split; [|intros; by apply Hm]. intros s Hs. rewrite Hm, Hx in Hs by done. done. }
  destruct Hx as (Hi & E & Es).
  assert (forall c', table_ok c' /\ coherent_for c' inode f' /\ (forall m, 0 <= m -> m <> inode -> cached_snapshot_of c' m = cached_snapshot_of c1 m) ->
    table_ok c' /\ coherent_for c' inode f' /\ (forall m, 0 <= m -> m <> inode -> cached_snapshot_of c' m = cached_snapshot_of c m)) as Hw.
  { intros c' (A & B & C). split; [done|]. split; [done|]. intros m M0 M1. rewrite C by done. by apply Hm. }
  apply Hw. destruct (ec_snapshot (c1 i)) as [current|] eqn:Ec; [|by apply refresh_coherent].
  destruct (negb (file_size current =? f_size f) || _) eqn:Eg; [by apply refresh_coherent|].
  apply orb_false_iff in Eg as [Eg _]. apply negb_false_iff, Z.eqb_eq in Eg.
  assert (exact f current) as Hx by (apply Hc; [congruence|done]).
  destruct (publish_cached c1 inode (mk_snapshot 0 (f_size f') (update_extents (f_size f') first reps (extents current))) T1 Hn)
    as (E1 & E2 & T' & Hcc & Ho). split; [done|]. split; [|done].
  intros s' Hs' _. destruct Hcc as [Hcc|Hcc]; rewrite Hcc in Hs'; [injection Hs' as <-|done].
  assert (0 <= blocks_of (f_size f)) by (destruct (blocks_of_spec (f_size f) (fo_size _ Hf)); lia).
  eapply (exact_replaced f f' _ first reps); [done| |done]. rewrite E2. cbn [extents].
  apply (update_extents_contig _ (blocks_of (f_size f))); try done.
  - intros k _. by apply file_mapping.
  - intros k _. by apply replaced_mapping.
  - apply U1.
  - intros ->. rewrite bool_decide_eq_true_2 in U5 by done. lia.
  - destruct (decide (reps = [])) as [->|Hr]; [rewrite bool_decide_eq_true_2 in U5 by done; lia|by rewrite bool_decide_eq_false_2 in U5].
Qed.

Lemma query_all_spec query n : forall k l, query_all query n k = Some l ->
  length l = n /\ forall i b, l !! i = Some b -> query (k + Z.of_nat i) = inr b.
Proof.
  induction n as [|n IH]; intros k l; cbn [query_all]; [intros [= <-]; split; [done|]; by intros i b ?|].
  destruct (query k) as [|b] eqn:Eq; [done|]. destruct (query_all query n (k + 1)) as [l'|] eqn:El; [|done]. intros [= <-].
  destruct (IH _ _ El) as [H1 H2]. split; [cbn; lia|]. intros [|i] b' Hi; [injection Hi as <-; by rewrite Z.add_0_r|].
  replace (k + Z.of_nat (S i)) with (k + 1 + Z.of_nat i) by lia. by apply H2.
Qed.
(** What a migration changes: the mapping of the blocks of its range. *)
Record file_migration (f f' : file) (offset length : Z) : Prop := {
  fm_ok : file_ok f';
  fm_size : f_size f' = f_size f;
  fm_range : 0 <= offset /\ 0 < length /\ offset + length <= f_size f;
  fm_map : forall k, k < offset / kBlockSize \/ (offset + length - 1) / kBlockSize < k -> f_query f' k = f_query f k;
}.
Lemma migration_update f f' offset length mappings : file_ok f -> file_migration f f' offset length ->
  query_all (f_query f') (Z.to_nat ((offset + length - 1) / kBlockSize - offset / kBlockSize + 1)) (offset / kBlockSize) = Some mappings ->
  file_update f f' (offset / kBlockSize) mappings.
Proof.
  intros Hf [M1 M2 M3 M4] Hq. destruct (query_all_spec _ _ _ _ Hq) as [Hl Hi].
  destruct (blocks_of_spec (f_size f) (fo_size _ Hf)) as [B1 B2].
  assert (offset / kBlockSize <= (offset + length - 1) / kBlockSize < blocks_of (f_size f)) as Hr.
  { split; [apply Z.div_le_mono; [done|lia]|]. apply B2. pose proof (Z.mul_div_le (offset + length - 1) kBlockSize ltac:(done)). lia. }
  assert (0 <= offset / kBlockSize) as H0 by (apply Z.div_pos; [lia|done]).
  assert (mappings <> []) as Hne by (intros ->; cbn in Hl; lia).
  split; rewrite ?M2; try done; try lia.
  - intros k Hk. unfold replaced, f_map. destruct (Z.leb_spec (offset / kBlockSize) k) as [L|L]; [|by rewrite M4 by lia].
    destruct (mappings !! _) as [b|] eqn:Eb.
    + apply Hi in Eb. rewrite Z2Nat.id, Zplus_minus in Eb by lia. by rewrite Eb.
    + apply lookup_ge_None_1 in Eb. rewrite M4; [done|lia].
  - intros i b Hb. apply Hi in Hb. by apply (fo_mapping _ M1) in Hb.
Qed.

(** The operations on files and the cache: reading looks extents up; a write, a
    truncation or a migration changes the index and then the cache; every other
    change of a file, its removal included, forgets its extents. *)
Inductive cache_step : extent_cache * (Z -> file) -> extent_cache * (Z -> file) -> Prop :=
| step_read c fs n : 0 <= n -> cache_step (c, fs) ((extents_for c n (fs n)).2, fs)
| step_update c fs n f' first reps : 0 <= n -> file_update (fs n) f' first reps ->
    cache_step (c, fs) (publish_extent_update c n (Some f') (f_size (fs n)) (f_size f') first reps, upd fs n f')
| step_migrate c fs n f' offset length : 0 <= n -> file_migration (fs n) f' offset length ->
    cache_step (c, fs) (refresh_extent_range c n (Some f') offset length, upd fs n f')
| step_forget c fs n f' : 0 <= n -> file_ok f' -> cache_step (c, fs) (erase_extents c n, upd fs n f').

Record cache_inv (st : extent_cache * (Z -> file)) : Prop := {
  ci_table : table_ok st.1;
  ci_files : forall n, file_ok (st.2 n);
  ci_coherent : forall n, 0 <= n -> coherent_for st.1 n (st.2 n);
}.

Lemma empty_inv fs : (forall n, file_ok (fs n)) -> cache_inv (empty_extent_cache, fs).
Proof.
  intros Hf. assert (table_ok empty_extent_cache) as T by (split; [by intros i _ ?|done]). split; [done|done|].
  intros n Hn s Hs. apply cached_iff in Hs as (i & _ & _ & E); done.
Qed.
(** One file and its extents change, the others stay. *)
Lemma inv_change c fs c' n f' : cache_inv (c, fs) -> 0 <= n -> file_ok f' -> table_ok c' -> coherent_for c' n f' ->
  (forall m, 0 <= m -> m <> n -> cached_snapshot_of c' m = cached_snapshot_of c m) -> cache_inv (c', upd fs n f').
Proof.
  intros [_ I2 I3] Hn Hf' T Hc Ho. split; cbn [fst snd] in *; [done|..].
  - intros m. destruct (decide (m = n)) as [->|]; [by rewrite upd_same|by rewrite upd_other].
  - intros m Hm. destruct (decide (m = n)) as [->|Hne]; [by rewrite upd_same|]. rewrite upd_other by done. intros s. rewrite Ho by done. by apply I3.
Qed.

(** Looking extents up gives an exact snapshot and keeps the cache coherent. *)
Lemma extents_for_exact c fs n : cache_inv (c, fs) -> 0 <= n ->
  exists s c', extents_for c n (fs n) = (inr s, c') /\ exact (fs n) s /\ cache_inv (c', fs).
Proof.
  intros I Hn. pose proof I as [T If Ic]. cbn [fst snd] in *. specialize (If n). unfold extents_for.
  destruct (find_extent_entry c n true) as [r c1] eqn:Ef. destruct (touch_entry c n _ _ T Hn Ef) as (T1 & Hm & Hx).
  assert (cache_inv (c1, fs)) as I1.
  { split; [done|apply I|]. intros m M0 s Hs. cbn [fst snd] in *. rewrite Hm in Hs by done. by apply Ic. }
  destruct (match r with Some i => _ | None => None end) as [s|] eqn:Eh.
  - exists s, c1. split; [done|]. split; [|done]. destruct r as [i|]; [|done]. destruct Hx as (_ & _ & Es).
    destruct (ec_snapshot (c1 i)) as [cached|] eqn:Ec; [|done]. destruct ((0 <=? f_size (fs n)) && _) eqn:Eb; [|done].
    injection Eh as <-. apply andb_true_iff in Eb as [_ Eb]. apply Z.eqb_eq in Eb. by apply (Ic n Hn).
  - destruct (build_exact (fs n) If) as (s & -> & Es & Hs). destruct (publish_cached c1 n s T1 Hn) as (E1 & E2 & T' & Hc & Ho).
    destruct (publish_extent_snapshot c1 n s) as [s' c'] eqn:Ep. cbn [fst snd] in *. exists s', c'. split; [done|].
    assert (exact (fs n) s') as He by (unfold exact; by rewrite E2). split; [done|].
    assert (fs = upd fs n (fs n)) as -> by (apply functional_extensionality; intros m; unfold upd; by destruct (m =? n) eqn:?; [apply Z.eqb_eq in Heqb; subst|]).
    apply (inv_change c1); try done. intros s'' Hs'' _. rewrite Hs'' in Hc. destruct Hc as [[= ->]|]; done.
Qed.

Lemma step_inv st st' : cache_inv st -> cache_step st st' -> cache_inv st'.
Proof.
  intros I Hs. destruct Hs as [c fs n Hn|c fs n f' first reps Hn Hu|c fs n f' offset length Hn Hm|c fs n f' Hn Hf'].
  - destruct (extents_for_exact c fs n I Hn) as (s & c' & E & _ & I'). by rewrite E.
  - destruct (publish_update_coherent c n (fs n) f' first reps (ci_table _ I) Hn (ci_files _ I n) (ci_coherent _ I n Hn) Hu) as (A & B & C).
    apply (inv_change c); try done. apply Hu.
  - pose proof (ci_files _ I n : file_ok (fs n)) as Hf. pose proof (fm_ok _ _ _ _ Hm) as Hf'. unfold refresh_extent_range.
    destruct (erase_cached c n (ci_table _ I) Hn) as (A & B & C).
    assert (cache_inv (erase_extents c n, upd fs n f')) as He by (apply (inv_change c); try done; intros s E; congruence).
    destruct Hm as [M1 M2 (M3 & M4 & M5) M6] eqn:Em. pose proof (fo_size _ Hf) as Hs.
    rewrite (proj2 (Z.eqb_neq length 0)), (proj2 (Z.ltb_ge _ _)) by (change kMaximumFileSize with (2 ^ 57) in Hs; unfold UINT64_MAX; lia).
    cbn [orb]. rewrite (proj2 (Z.ltb_ge (f_size f') 0)) by (rewrite M2; lia). rewrite (fo_type _ Hf').
    change (negb (ORCHFS_CORE_REGULAR =? ORCHFS_CORE_REGULAR)) with false. cbn [orb].
    destruct (query_all _ _ _) as [mappings|] eqn:Eq; [|done].
    pose proof (migration_update (fs n) f' offset length mappings Hf Hm Eq) as Hu. rewrite M2 at 1.
    destruct (publish_update_coherent c n (fs n) f' _ mappings (ci_table _ I) Hn Hf (ci_coherent _ I n Hn) Hu) as (A' & B' & C').
    apply (inv_change c); done.
  - destruct (erase_cached c n (ci_table _ I) Hn) as (A & B & C). apply (inv_change c); try done. intros s E. congruence.
Qed.

(** C14: The extent cache never answers from a stale index: after any sequence of
    reads, writes, truncations, migrations and removals of files, looking up the
    extents of a file succeeds, and the snapshot it gives, cached or not, maps every
    block of the file to exactly what the index says of it, and no block beyond. *)
Theorem extent_cache_exact fs0 c fs n : (forall m, file_ok (fs0 m)) -> rtc cache_step (empty_extent_cache, fs0) (c, fs) -> 0 <= n ->
  exists s c', extents_for c n (fs n) = (inr s, c') /\
    forall k, 0 <= k < 2 ^ 64 -> mapping_from_snapshot s k =
      if k <? blocks_of (f_size (fs n)) then match f_query (fs n) k with inr b => Some b | inl _ => None end else None.
Proof.
  intros Hf Hr Hn. assert (cache_inv (c, fs)) as I.
  { pose proof (empty_inv fs0 Hf) as I0. revert I0. generalize dependent (empty_extent_cache, fs0). intros st0 Hr. remember (c, fs) as st.
    clear Heqst. induction Hr; intros I0; [done|]. apply IHHr. by eapply step_inv. }
  destruct (extents_for_exact c fs n I Hn) as (s & c' & E & Hx & _). exists s, c'. split; [done|]. intros k Hk.
  rewrite (mapping_contig (f_map (fs n)) s (blocks_of (f_size (fs n))) k Hx Hk). destruct (Z.ltb_spec k (blocks_of (f_size (fs n)))); [|done].
  pose proof (ci_files _ I n : file_ok (fs n)) as Hfn. by rewrite (fo_mapped _ Hfn k) by lia.
Qed.

(** Three blocks in a row on the SSD, of which a write replaces the middle one. *)
Definition row_file : file := mk_file ORCHFS_CORE_REGULAR 98304
  (fun k => if (0 <=? k) && (k <? 3) then inr (ssd_at (65536 + k * kBlockSize) k) else inl EIO).
Definition row_block : orchfs_core_block := mk_core_block ORCHFS_CORE_STRATA_BLOCK 98304 (fun p => if p =? 0 then 8192 else -1) (fun p => if p =? 0 then 4096 else -1) 1.
Definition row_written : file := mk_file ORCHFS_CORE_REGULAR 98304 (fun k => if k =? 1 then inr row_block else f_query row_file k).
Lemma row_ok (f : file) : f = row_file \/ f = row_written -> file_ok f.
Proof.
  intros Hf. assert (f_type f = ORCHFS_CORE_REGULAR /\ f_size f = 98304) as [Ht Hs] by (destruct Hf as [-> | ->]; done).
  split; [done|rewrite Hs; change kMaximumFileSize with (2 ^ 57); lia|..].
  - intros k Hk. rewrite Hs in Hk. change (blocks_of 98304) with 3 in Hk. assert (k = 0 \/ k = 1 \/ k = 2) as Hc by lia.
    destruct Hf as [-> | ->]; destruct Hc as [-> |[-> | ->]]; reflexivity.
  - assert (forall k b, f_query row_file k = inr b -> mapping_ok k b) as Hr.
    { intros k b. unfold row_file. cbn [f_query]. destruct ((0 <=? k) && (k <? 3)) eqn:E; [|done]. intros [= <-] _.
      apply andb_true_iff in E as [E1%Z.leb_le E2%Z.ltb_lt]. split; [done|]. cbn. unfold kBlockSize. lia. }
    intros k b. destruct Hf as [-> | ->]; [apply Hr|]. unfold row_written. cbn [f_query]. destruct (k =? 1); [|apply Hr].
    intros [= <-] Hx. by vm_compute in Hx.
Qed.
Lemma extent_cache_exact_witness : exists c s c',
  extents_for c 7 row_written = (inr s, c') /\ mapping_from_snapshot s 1 = Some row_block /\
  mapping_from_snapshot s 2 = Some (ssd_at 131072 2) /\ mapping_from_snapshot s 3 = None.
Proof.
  set (c1 := (extents_for empty_extent_cache 7 row_file).2).
  destruct (extent_cache_exact (fun _ => row_file) (publish_extent_update c1 7 (Some row_written) 98304 98304 1 [row_block])
    (upd (fun _ => row_file) 7 row_written) 7) as (s & c' & E & H).
  - intros m. apply row_ok. by left.
  - eapply rtc_l; [by apply (step_read empty_extent_cache (fun _ => row_file) 7)|]. apply rtc_once.
    apply (step_update c1 (fun _ => row_file) 7 row_written 1 [row_block]); [lia|]. split; cbn [f_size row_file row_written length].
    + apply row_ok. by right.
    + lia.
    + rewrite max_blocks_val. lia.
    + by vm_compute.
    + by vm_compute.
    + intros k Hk. change (blocks_of 98304) with 3 in Hk. assert (k = 0 \/ k = 1 \/ k = 2) as Hc by lia. destruct Hc as [-> |[-> | ->]]; reflexivity.
    + intros [|[|i]] b Hb; cbn in Hb; [injection Hb as <-; by vm_compute|done|done].
  - lia.
  - rewrite upd_same in E, H. do 3 eexists. split; [exact E|]. do 3 rewrite H by lia. split_and!; reflexivity.
Defined.
