(* ===== verification/Directory.v ===== *)
(** * Directories (Async/kfs_coroutine_core.cpp: lookup, creation, removal, renaming, opening)

    A directory is a file of 256-byte entries; an entry of type 0 is free.  The
    operations here run under the locks of the directories they use, so each is one
    step on the state: inodes, the coordinator's caches and references, the extent
    cache.  A transaction works on a copy of the inodes that its commit installs and
    its abort drops.

    Deleting an inode frees it but leaves its memory as it is: [nd_live] is the
    inode's bit in the allocation map, and a snapshot of a freed inode succeeds. *)

From stdpp Require Import base tactics numbers list gmap strings relations.
From Stdlib Require Import ZArith Lia Ascii.
From S2P Require Import Prelude Bytes Layout Pmem Namespace DataPath Extents.
Open Scope Z_scope.

Definition ORCHFS_CORE_DIRENT_SIZE : Z := 256.
Definition ORCHFS_CORE_DIRENT_NAME_MAX : Z := 230.
Definition kDirectoryWindowEntries : Z := 64.

Record orchfs_core_dirent := mk_dirent { de_inode : Z; de_offset : Z; de_type : Z; de_name : string }.
Definition no_dirent : orchfs_core_dirent := mk_dirent 0 0 0 EmptyString.

(** An inode: type, size and index of a regular file, entries of a directory, orphan
    flag, whether it is allocated. *)
Record node := mk_node {
  nd_type : Z; nd_size : Z; nd_query : Z -> Z + orchfs_core_block; nd_entries : list orchfs_core_dirent;
  nd_orphan : bool; nd_live : bool;
}.
Definition node_size (n : node) : Z :=
  if nd_type n =? ORCHFS_CORE_DIRECTORY then Z.of_nat (length (nd_entries n)) * ORCHFS_CORE_DIRENT_SIZE else nd_size n.
Definition node_file (n : node) : file := mk_file (nd_type n) (node_size n) (nd_query n).
Definition set_entries (l : list orchfs_core_dirent) (n : node) : node :=
  mk_node (nd_type n) (nd_size n) (nd_query n) l (nd_orphan n) (nd_live n).
Definition set_node_orphan (b : bool) (n : node) : node :=
  mk_node (nd_type n) (nd_size n) (nd_query n) (nd_entries n) b (nd_live n).
Definition set_node_size (z : Z) (n : node) : node :=
  mk_node (nd_type n) z (nd_query n) (nd_entries n) (nd_orphan n) (nd_live n).
Definition free_node (n : node) : node :=
  mk_node (nd_type n) (nd_size n) (nd_query n) (nd_entries n) (nd_orphan n) false.

Abbreviation inodes := (gmap Z node).
Record fsystem := mk_fsystem { fs_nodes : inodes; fs_coord : NamespaceCoordinator; fs_extents : extent_cache; fs_root : Z }.
Definition set_nodes (m : inodes) (s : fsystem) : fsystem := mk_fsystem m (fs_coord s) (fs_extents s) (fs_root s).
Definition set_coord (c : NamespaceCoordinator) (s : fsystem) : fsystem := mk_fsystem (fs_nodes s) c (fs_extents s) (fs_root s).
Definition set_extents (c : extent_cache) (s : fsystem) : fsystem := mk_fsystem (fs_nodes s) (fs_coord s) c (fs_root s).

(** What can go wrong, as error numbers (0 for success), and what the inodes' other
    fields are for [stat]. *)
Record env := mk_env {
  e_read : Z -> Z -> Z;                 (* reading a directory at a cursor *)
  e_transaction : Z; e_create : Z + Z;  (* the inode [orchfs_core_create_inode] makes *)
  e_write : Z -> Z -> Z;                (* writing an entry of a directory *)
  e_orphan : Z; e_delete : Z; e_size : Z; e_commit : Z;
  e_state_lock : Z -> Z; e_state_unlock : Z -> Z; e_range_lock : Z; e_range_unlock : Z;
  e_directory_lock : Z -> Z; e_directory_unlock : Z -> Z; e_topology_lock : Z; e_topology_unlock : Z;
  e_memory : string -> bool;            (* memory for a cached name *)
  e_stat : Z -> node -> FileStat;
}.

(** A step that can fail, and what follows it. *)
Definition bind_result {A B} (r : Z + A) (k : A -> Z + B) : Z + B := match r with inl error => inl error | inr a => k a end.
Notation "'let?' x := r 'in' k" := (bind_result r (fun x => k)) (at level 10, x name, r at level 100, k at level 200).

(** ** Inodes *)

Definition orchfs_core_snapshot (m : inodes) (inode : Z) : Z + node :=
  if (inode <? 0) || (MAX_INODE_NUM <=? inode) then inl EINVAL
  else match m !! inode with Some n => inr n | None => inl ENOENT end.
Definition orchfs_core_delete_inode (e : env) (m : inodes) (root inode : Z) : Z + inodes :=
  if (inode <? 0) || (inode =? root) then inl EINVAL
  else match m !! inode with
       | None => inl ENOENT
       | Some n => if negb (e_delete e =? 0) then inl (e_delete e) else inr (<[inode := free_node n]> m)
       end.
Definition orchfs_core_set_orphan (e : env) (m : inodes) (inode : Z) (orphaned : bool) : Z + inodes :=
  if inode <? 0 then inl EINVAL
  else match m !! inode with
       | None => inl ENOENT
       | Some n => if negb (e_orphan e =? 0) then inl (e_orphan e) else inr (<[inode := set_node_orphan orphaned n]> m)
       end.

(** ** Caches *)

Definition publish (e : env) (s : fsystem) (inode : Z) (n : node) : fsystem :=
  set_coord (publish_snapshot (e_memory e EmptyString) inode (e_stat e inode n) (fs_coord s)) s.
(** [publish] of the inode as it is now, if it can be read. *)
Definition publish_now (e : env) (s : fsystem) (inode : Z) : fsystem :=
  match orchfs_core_snapshot (fs_nodes s) inode with inl _ => s | inr n => publish e s inode n end.
Definition forget (s : fsystem) (inode : Z) : fsystem :=
  let s := set_extents (erase_extents (fs_extents s) inode) s in
  set_coord (erase_directory inode (erase_snapshot inode (fs_coord s))) s.
Definition remember (e : env) (parent : Z) (name : string) (dentry : Dentry) (c : NamespaceCoordinator) : bool * NamespaceCoordinator :=
  cache_dentry (e_memory e name) (e_memory e name) parent name dentry c.

(** ** Lookup *)

Record NamespaceEntry := mk_ns_entry { ne_inode : Z; ne_node : node; ne_parent : Z; ne_offset : Z; ne_entry : orchfs_core_dirent }.

(** The scan from entry [i] on: the entry found so far, whether all names could be
    cached. *)
Fixpoint scan (e : env) (m : inodes) (directory : Z) (name : string) (entries : list orchfs_core_dirent) (i : Z)
    (located : option NamespaceEntry) (cache_complete : bool) (c : NamespaceCoordinator)
    : (Z + option NamespaceEntry * bool) * NamespaceCoordinator :=
  match entries with
  | [] => (inr (located, cache_complete), c)
  | entry :: rest =>
      let offset := i * ORCHFS_CORE_DIRENT_SIZE in
      if (i mod kDirectoryWindowEntries =? 0) && negb (e_read e directory offset =? 0) then (inl (e_read e directory offset), c)
      else if (de_type entry =? 0) || (ORCHFS_CORE_DIRENT_NAME_MAX <? Z.of_nat (String.length (de_name entry)))
      then scan e m directory name rest (i + 1) located cache_complete c
      else
        let '(cached, c) := remember e directory (de_name entry) (mk_dentry (de_inode entry) offset (de_type entry)) c in
        let cache_complete := cached && cache_complete in
        if bool_decide (located = None) && bool_decide (de_name entry = name) then
          match orchfs_core_snapshot m (de_inode entry) with
          | inl error => (inl error, c)
          | inr child => scan e m directory name rest (i + 1) (Some (mk_ns_entry (de_inode entry) child directory offset entry)) cache_complete c
          end
        else scan e m directory name rest (i + 1) located cache_complete c
  end.
(** What follows when the cache does not answer. *)
Definition find_by_scan (e : env) (s : fsystem) (directory : Z) (name : string) (parent : node) : (Z + NamespaceEntry) * fsystem :=
  match scan e (fs_nodes s) directory name (nd_entries parent) 0 None true (fs_coord s) with
  | (inl error, c) => (inl error, set_coord c s)
  | (inr (located, cache_complete), c) =>
      let c := if cache_complete then mark_directory_complete (e_memory e name) directory c else c in
      (match located with Some entry => inr entry | None => inl ENOENT end, set_coord c s)
  end.
Definition find_child_locked (e : env) (s : fsystem) (directory : Z) (name : string) : (Z + NamespaceEntry) * fsystem :=
  match orchfs_core_snapshot (fs_nodes s) directory with
  | inl error => (inl error, s)
  | inr parent =>
      if negb (nd_type parent =? ORCHFS_CORE_DIRECTORY) then (inl ENOTDIR, s)
      else
        match find_dentry directory name (fs_coord s) with
        | Some cached =>
            match orchfs_core_snapshot (fs_nodes s) (dn_inode cached) with
            | inr child =>
                (inr (mk_ns_entry (dn_inode cached) child directory (dn_offset cached)
                        (mk_dirent (dn_inode cached) (dn_offset cached) (nd_type child) name)), s)
            | inl error =>
                let s := set_coord (erase_directory directory (fs_coord s)) s in
                if negb (error =? ENOENT) then (inl error, s) else find_by_scan e s directory name parent
            end
        | None =>
            if directory_complete directory (fs_coord s) then (inl ENOENT, s) else find_by_scan e s directory name parent
        end
  end.

(** ** Changing directories *)

(** A write of one entry, which may be the one after the last. *)
Definition write_directory_entry (e : env) (m : inodes) (directory offset : Z) (entry : orchfs_core_dirent) : Z + inodes :=
  match orchfs_core_snapshot m directory with
  | inl error => inl error
  | inr n =>
      if negb (nd_type n =? ORCHFS_CORE_DIRECTORY) then inl EISDIR
      else if node_size n <? offset then inl EIO
      else if negb (e_write e directory offset =? 0) then inl (e_write e directory offset)
      else
        let slot := Z.to_nat (offset / ORCHFS_CORE_DIRENT_SIZE) in
        let entries := if decide (slot = length (nd_entries n)) then nd_entries n ++ [entry] else <[slot := entry]> (nd_entries n) in
        inr (<[directory := set_entries entries n]> m)
  end.

(** The loops of [free_directory_slot] and [directory_empty_locked], from entry [i] on. *)
Fixpoint find_slot (e : env) (directory : Z) (free : bool) (entries : list orchfs_core_dirent) (i : Z) : Z + option Z :=
  match entries with
  | [] => inr None
  | entry :: rest =>
      let offset := i * ORCHFS_CORE_DIRENT_SIZE in
      if negb (e_read e directory offset =? 0) then inl (e_read e directory offset)
      else if Bool.eqb (de_type entry =? 0) free then inr (Some offset)
      else find_slot e directory free rest (i + 1)
  end.
Definition free_directory_slot (e : env) (m : inodes) (directory : Z) : Z + Z :=
  match orchfs_core_snapshot m directory with
  | inl error => inl error
  | inr n =>
      if negb (nd_type n =? ORCHFS_CORE_DIRECTORY) then inl ENOTDIR
      else match find_slot e directory true (drop 2 (nd_entries n)) 2 with
           | inl error => inl error
           | inr (Some offset) => inr offset
           | inr None => inr (node_size n)
           end
  end.
Definition directory_empty_locked (e : env) (m : inodes) (inode : Z) : Z + bool :=
  match orchfs_core_snapshot m inode with
  | inl error => inl error
  | inr n =>
      if negb (nd_type n =? ORCHFS_CORE_DIRECTORY) then inl ENOTDIR
      else match find_slot e inode false (drop 2 (nd_entries n)) 2 with
           | inl error => inl error
           | inr (Some _) => inr false
           | inr None => inr true
           end
  end.

Definition dot_entries (inode parent : Z) : list orchfs_core_dirent :=
  [mk_dirent inode 0 ORCHFS_CORE_DIRECTORY "."; mk_dirent parent ORCHFS_CORE_DIRENT_SIZE ORCHFS_CORE_DIRECTORY ".."].
Definition new_node (type : Z) (entries : list orchfs_core_dirent) : node :=
  mk_node type 0 (fun _ => inl ENODATA) entries false true.

(** The transaction of [create_node_locked]: the new inode, its entry, the inodes. *)
Definition stage_create (e : env) (m : inodes) (parent : Z) (name : string) (type : Z) : Z + Z * Z * orchfs_core_dirent * inodes :=
  match e_create e with
  | inl error => inl error
  | inr inode =>
      let directory := type =? ORCHFS_CORE_DIRECTORY in
      let m := <[inode := new_node type (if directory then dot_entries inode parent else [])]> m in
      if directory && negb (e_write e inode 0 =? 0) then inl (e_write e inode 0)
      else match free_directory_slot e m parent with
           | inl error => inl error
           | inr slot =>
               let entry := mk_dirent inode slot type name in
               match write_directory_entry e m parent slot entry with
               | inl error => inl error
               | inr m => inr (inode, slot, entry, m)
               end
           end
  end.
Definition create_node_locked (e : env) (s : fsystem) (parent : Z) (name : string) (type : Z) : (Z + NamespaceEntry) * fsystem :=
  match find_child_locked e s parent name with
  | (inr _, s) => (inl EEXIST, s)
  | (inl error, s) =>
      if negb (error =? ENOENT) then (inl error, s)
      else if negb (e_transaction e =? 0) then (inl (e_transaction e), s)
      else match stage_create e (fs_nodes s) parent name type with
           | inl error => (inl error, s)
           | inr (inode, slot, entry, m) =>
               if negb (e_commit e =? 0) then (inl (e_commit e), s)
               else
                 let s := set_nodes m s in
                 let c := (remember e parent name (mk_dentry inode slot type) (fs_coord s)).2 in
                 let c :=
                   if type =? ORCHFS_CORE_DIRECTORY then
                     let '(dot_cached, c) := remember e inode "." (mk_dentry inode 0 ORCHFS_CORE_DIRECTORY) c in
                     let '(dotdot_cached, c) := remember e inode ".." (mk_dentry parent ORCHFS_CORE_DIRENT_SIZE ORCHFS_CORE_DIRECTORY) c in
                     if dot_cached && dotdot_cached then mark_directory_complete (e_memory e ".") inode c else c
                   else c in
                 let s := set_coord c s in
                 let n := match fs_nodes s !! inode with Some n => n | None => new_node type [] end in
                 let s := publish_now e (publish e s inode n) parent in
                 (inr (mk_ns_entry inode n parent slot entry), s)
           end
  end.

(** The transaction of [remove_child_locked] once the orphan mark is known. *)
Definition stage_remove (e : env) (m : inodes) (root : Z) (child : NamespaceEntry) (defer_delete : bool) : Z + inodes :=
  let entry := mk_dirent (de_inode (ne_entry child)) (de_offset (ne_entry child)) 0 (de_name (ne_entry child)) in
  match (if defer_delete then orchfs_core_set_orphan e m (ne_inode child) true else inr m) with
  | inl error => inl error
  | inr m =>
      match write_directory_entry e m (ne_parent child) (ne_offset child) entry with
      | inl error => inl error
      | inr m => if defer_delete then inr m else orchfs_core_delete_inode e m root (ne_inode child)
      end
  end.
Definition with_commit {A} (e : env) (staged : Z + A) : Z + A :=
  match staged with inl error => inl error | inr a => if negb (e_commit e =? 0) then inl (e_commit e) else inr a end.
Definition remove_commit (e : env) (s : fsystem) (name : string) (child : NamespaceEntry) : (Z + unit) * fsystem :=
  if negb (e_transaction e =? 0) then (inl (e_transaction e), s)
  else
    match mark_orphan_if_open_locked (ne_inode child) (fs_coord s) with
    | (inl error, c) => (inl error, set_coord c s)
    | (inr defer_delete, c) =>
        let s := set_coord c s in
        match with_commit e (stage_remove e (fs_nodes s) (fs_root s) child defer_delete) with
        | inl error => (inl error, if defer_delete then set_coord (rollback_orphan_locked (ne_inode child) (fs_coord s)) s else s)
        | inr m =>
            let s := set_nodes m s in
            let s := set_coord (erase_dentry (ne_parent child) name (fs_coord s)) s in
            let s := if defer_delete then s
                     else forget (set_coord (erase_inode_state_locked (ne_inode child) (fs_coord s)) s) (ne_inode child) in
            (inr tt, publish_now e s (ne_parent child))
        end
    end.
(** [fold_range_lock_release]: an error of the release becomes the result's error. *)
Definition fold_release {A} (error : Z) (r : (Z + A) * fsystem) : (Z + A) * fsystem :=
  match r with
  | (inr a, s) => if negb (error =? 0) then (inl error, s) else (inr a, s)
  | _ => r
  end.
Definition remove_child_locked (e : env) (s : fsystem) (parent : Z) (name : string) (expected_type : Z) (expected_inode : option Z)
    : (Z + unit) * fsystem :=
  match find_child_locked e s parent name with
  | (inl error, s) => (inl error, s)
  | (inr child, s) =>
      if match expected_inode with Some i => negb (ne_inode child =? i) | None => false end then (inl EAGAIN, s)
      else if ne_inode child =? fs_root s then (inl EBUSY, s)
      else if negb (nd_type (ne_node child) =? expected_type) then
        (inl (if expected_type =? ORCHFS_CORE_DIRECTORY then ENOTDIR else EISDIR), s)
      else
        match (if expected_type =? ORCHFS_CORE_DIRECTORY then directory_empty_locked e (fs_nodes s) (ne_inode child) else inr true) with
        | inl error => (inl error, s)
        | inr false => (inl ENOTEMPTY, s)
        | inr true =>
            if negb (e_state_lock e (ne_inode child) =? 0) then (inl (e_state_lock e (ne_inode child)), s)
            else fold_release (e_state_unlock e (ne_inode child)) (remove_commit e s name child)
        end
  end.

(** ** Renaming *)

Record ParentPath := mk_parent_path { pp_parent : Z; pp_name : string }.

(** The transaction of [commit_rename_locked] once the orphan mark is known. *)
Definition stage_rename (e : env) (m : inodes) (root : Z) (new_parent : ParentPath) (source : NamespaceEntry)
    (replaced : option (Z * bool)) (dotdot : option NamespaceEntry) (destination_slot : Z) : Z + inodes :=
  let? m := match replaced with
            | None => inr m
            | Some (inode, true) => orchfs_core_set_orphan e m inode true
            | Some (inode, false) => orchfs_core_delete_inode e m root inode
            end in
  let? m := write_directory_entry e m (pp_parent new_parent) destination_slot
              (mk_dirent (de_inode (ne_entry source)) destination_slot (de_type (ne_entry source)) (pp_name new_parent)) in
  let? m := if negb (pp_parent new_parent =? ne_parent source) || negb (destination_slot =? ne_offset source)
            then write_directory_entry e m (ne_parent source) (ne_offset source) (mk_dirent 0 (ne_offset source) 0 EmptyString)
            else inr m in
  match dotdot with
  | None => inr m
  | Some d => write_directory_entry e m (ne_inode source) (ne_offset d)
                (mk_dirent (pp_parent new_parent) (de_offset (ne_entry d)) (de_type (ne_entry d)) (de_name (ne_entry d)))
  end.
Definition commit_rename_locked (e : env) (s : fsystem) (old_parent new_parent : ParentPath) (source : NamespaceEntry)
    (destination dotdot : option NamespaceEntry) (destination_slot : Z) : (Z + unit) * fsystem :=
  if negb (e_transaction e =? 0) then (inl (e_transaction e), s)
  else
    let '(marked, c) := match destination with
                        | None => (inr None, fs_coord s)
                        | Some d => match mark_orphan_if_open_locked (ne_inode d) (fs_coord s) with
                                    | (inl error, c) => (inl error, c)
                                    | (inr defer_delete, c) => (inr (Some (ne_inode d, defer_delete)), c)
                                    end
                        end in
    let s := set_coord c s in
    match marked with
    | inl error => (inl error, s)
    | inr replaced =>
        match with_commit e (stage_rename e (fs_nodes s) (fs_root s) new_parent source replaced dotdot destination_slot) with
        | inl error => (inl error, match replaced with
                                   | Some (inode, true) => set_coord (rollback_orphan_locked inode (fs_coord s)) s
                                   | _ => s
                                   end)
        | inr m =>
            let s := set_nodes m s in
            let s := match replaced with
                     | Some (inode, false) => forget (set_coord (erase_inode_state_locked inode (fs_coord s)) s) inode
                     | _ => s
                     end in
            let c := erase_dentry (pp_parent old_parent) (pp_name old_parent) (fs_coord s) in
            let c := (remember e (pp_parent new_parent) (pp_name new_parent)
                        (mk_dentry (ne_inode source) destination_slot (de_type (ne_entry source))) c).2 in
            let c := match dotdot with
                     | Some d => (remember e (ne_inode source) ".." (mk_dentry (pp_parent new_parent) (ne_offset d) ORCHFS_CORE_DIRECTORY) c).2
                     | None => c
                     end in
            let s := publish e (set_coord c s) (ne_inode source) (ne_node source) in
            let s := publish_now e s (ne_parent source) in
            let s := if negb (pp_parent new_parent =? ne_parent source) then publish_now e s (pp_parent new_parent) else s in
            (inr tt, s)
        end
    end.

(** Whether an entry is the one found before the locks were taken. *)
Definition same_entry (found expected : NamespaceEntry) : bool :=
  (ne_inode found =? ne_inode expected) && (nd_type (ne_node found) =? nd_type (ne_node expected)).
Definition rename_locked (e : env) (s : fsystem) (old_parent new_parent : ParentPath) (expected_source : NamespaceEntry)
    (expected_destination : option NamespaceEntry) : (Z + unit) * fsystem :=
  match find_child_locked e s (pp_parent old_parent) (pp_name old_parent) with
  | (inl error, s) => (inl error, s)
  | (inr source, s) =>
      if negb (same_entry source expected_source) then (inl EAGAIN, s)
      else if ne_inode source =? fs_root s then (inl EBUSY, s)
      else if (pp_parent old_parent =? pp_parent new_parent) && bool_decide (pp_name old_parent = pp_name new_parent) then (inr tt, s)
      else
        let '(found, s) := find_child_locked e s (pp_parent new_parent) (pp_name new_parent) in
        match (match found with inr d => inr (Some d) | inl error => if error =? ENOENT then inr None else inl error end) with
        | inl error => (inl error, s)
        | inr destination =>
            if negb (match destination, expected_destination with
                     | Some d, Some expected => same_entry d expected
                     | None, None => true
                     | _, _ => false
                     end) then (inl EAGAIN, s)
            else if match destination with Some d => ne_inode d =? ne_inode source | None => false end then (inr tt, s)
            else
              let moved_directory := nd_type (ne_node source) =? ORCHFS_CORE_DIRECTORY in
              let checked :=
                match destination with
                | None => inr tt
                | Some d =>
                    if moved_directory && negb (nd_type (ne_node d) =? ORCHFS_CORE_DIRECTORY) then inl ENOTDIR
                    else if negb moved_directory && (nd_type (ne_node d) =? ORCHFS_CORE_DIRECTORY) then inl EISDIR
                    else if nd_type (ne_node d) =? ORCHFS_CORE_DIRECTORY then
                      let? empty := directory_empty_locked e (fs_nodes s) (ne_inode d) in
                      if negb empty then inl ENOTEMPTY else inr tt
                    else inr tt
                end in
              match checked with
              | inl error => (inl error, s)
              | inr _ =>
                  let '(dotdot, s) :=
                    if moved_directory && negb (ne_parent source =? pp_parent new_parent) then
                      match find_child_locked e s (ne_inode source) ".." with
                      | (inl error, s) => (inl error, s)
                      | (inr d, s) => (inr (Some d), s)
                      end
                    else (inr None, s) in
                  match dotdot with
                  | inl error => (inl error, s)
                  | inr dotdot =>
                      match (match destination with
                             | Some d => inr (ne_offset d)
                             | None => if negb (ne_parent source =? pp_parent new_parent)
                                       then free_directory_slot e (fs_nodes s) (pp_parent new_parent) else inr (ne_offset source)
                             end) with
                      | inl error => (inl error, s)
                      | inr destination_slot =>
                          match destination with
                          | Some d =>
                              if negb (e_state_lock e (ne_inode d) =? 0) then (inl (e_state_lock e (ne_inode d)), s)
                              else fold_release (e_state_unlock e (ne_inode d))
                                     (commit_rename_locked e s old_parent new_parent source destination dotdot destination_slot)
                          | None => commit_rename_locked e s old_parent new_parent source destination dotdot destination_slot
                          end
                      end
                  end
              end
        end
  end.

(** ** Opening and closing *)

Definition O_RDONLY : Z := 0.
Definition O_ACCMODE : Z := 3.
Definition O_CREAT : Z := 64.
Definition O_EXCL : Z := 128.
Definition O_TRUNC : Z := 512.
Definition O_DIRECTORY : Z := 65536.
Definition has_flag (flags flag : Z) : bool := negb (Z.land flags flag =? 0).

(** [release]: closing. *)
Definition release (e : env) (s : fsystem) (inode : Z) : (Z + unit) * fsystem :=
  if negb (e_state_lock e inode =? 0) then (inl (e_state_lock e inode), s)
  else fold_release (e_state_unlock e inode)
    match release_reference_locked inode (fs_coord s) with
    | (inl error, c) => (inl error, set_coord c s)
    | (inr delete_orphan, c) =>
        let s := set_coord c s in
        if negb (e_transaction e =? 0) then (inl (e_transaction e), s)
        else match with_commit e (orchfs_core_delete_inode e (fs_nodes s) (fs_root s) inode) with
             | inl error => (inl error, s)
             | inr m => (inr tt, forget (set_coord (finish_orphan_release_locked inode (fs_coord s)) (set_nodes m s)) inode)
             end
    | (inr _, c) => (inr tt, set_coord c s)
    end.

(** Truncation to nothing by [O_TRUNC]; the inode as it is afterwards. *)
Definition truncate_open (e : env) (s : fsystem) (inode : Z) (n : node) : (Z + node) * fsystem :=
  if negb (e_range_lock e =? 0) then (inl (e_range_lock e), s)
  else if negb (e_transaction e =? 0) then (inl (e_transaction e), s)
  else match (match fs_nodes s !! inode with
              | None => inl ENOENT
              | Some n => if negb (e_size e =? 0) then inl (e_size e) else inr (<[inode := set_node_size 0 n]> (fs_nodes s))
              end) with
       | inl error => (inl error, s)
       | inr m =>
           if negb (e_commit e =? 0) then (inl (e_commit e), s)
           else
             let s := set_nodes m s in
             if negb (e_range_unlock e =? 0) then (inl (e_range_unlock e), s)
             else
               match orchfs_core_snapshot (fs_nodes s) inode with
               | inl _ => (inr n, set_extents (erase_extents (fs_extents s) inode) s)
               | inr n' =>
                   if node_size n' <? 0 then (inr n', set_extents (erase_extents (fs_extents s) inode) s)
                   else (inr n', set_extents (publish_extent_update (fs_extents s) inode (Some (node_file n'))
                                                (Z.max 0 (node_size n)) (node_size n') 0 []) s)
               end
       end.
Definition finish_open_locked (e : env) (s : fsystem) (inode : Z) (n : node) (flags : Z) (created : bool) : (Z + Z * Z) * fsystem :=
  if negb created && has_flag flags O_CREAT && has_flag flags O_EXCL then (inl EEXIST, s)
  else if has_flag flags O_DIRECTORY && negb (nd_type n =? ORCHFS_CORE_DIRECTORY) then (inl ENOTDIR, s)
  else if has_flag flags O_TRUNC && negb (nd_type n =? ORCHFS_CORE_REGULAR) then (inl EISDIR, s)
  else if has_flag flags O_TRUNC && (Z.land flags O_ACCMODE =? O_RDONLY) then (inl EINVAL, s)
  else
    let '(truncated, s) := if has_flag flags O_TRUNC then truncate_open e s inode n else (inr n, s) in
    match truncated with
    | inl error => (inl error, s)
    | inr n =>
        let s := publish e s inode n in
        if negb (nd_type n =? ORCHFS_CORE_DIRECTORY) && negb (nd_type n =? ORCHFS_CORE_REGULAR) then (inl EIO, s)
        else if negb (e_state_lock e inode =? 0) then (inl (e_state_lock e inode), s)
        else
          let '(error, c) := retain_locked (e_memory e EmptyString) inode (fs_coord s) in
          let s := set_coord c s in
          if negb (error =? 0) then (inl error, s)
          else if negb (e_state_unlock e inode =? 0) then (inl (e_state_unlock e inode), (release e s inode).2)
          else (inr (inode, nd_type n), s)
    end.
Definition open_child_locked (e : env) (s : fsystem) (parent : Z) (name : string) (flags : Z) : (Z + Z * Z) * fsystem :=
  match find_child_locked e s parent name with
  | (inr located, s) => finish_open_locked e s (ne_inode located) (ne_node located) flags false
  | (inl error, s) =>
      if negb (error =? ENOENT) || negb (has_flag flags O_CREAT) then (inl error, s)
      else match create_node_locked e s parent name ORCHFS_CORE_REGULAR with
           | (inl error, s) => (inl error, s)
           | (inr located, s) => finish_open_locked e s (ne_inode located) (ne_node located) flags true
           end
  end.

(** ** Paths *)

Fixpoint pieces (path : string) : list string :=
  match path with
  | EmptyString => [EmptyString]
  | String c rest =>
      if Ascii.eqb c "/"%char then EmptyString :: pieces rest
      else match pieces rest with piece :: l => String c piece :: l | [] => [String c EmptyString] end
  end.
Definition split_path (path : string) : Z + list string :=
  if bool_decide (path = EmptyString) then inl ENOENT
  else
    let components := filter (fun piece => piece <> EmptyString) (pieces path) in
    if existsb (fun piece => ORCHFS_CORE_DIRENT_NAME_MAX <? Z.of_nat (String.length piece)) components then inl ENAMETOOLONG
    else inr components.
Definition absolute (path : string) : bool := match path with String c _ => Ascii.eqb c "/"%char | EmptyString => false end.
Definition start_of (s : fsystem) (path : string) (relative_to : option Z) : Z :=
  match relative_to with Some inode => if absolute path then fs_root s else inode | None => fs_root s end.

(** [find_child]: under the read lock of the directory. *)
Definition find_child (e : env) (s : fsystem) (directory : Z) (name : string) : (Z + NamespaceEntry) * fsystem :=
  if negb (e_directory_lock e directory =? 0) then (inl (e_directory_lock e directory), s)
  else fold_release (e_directory_unlock e directory) (find_child_locked e s directory name).
Fixpoint walk (e : env) (s : fsystem) (current : Z) (located : Z + Z * node) (components : list string) (parents : bool)
    : (Z + Z * node) * fsystem :=
  match components with
  | [] => (located, s)
  | component :: rest =>
      if bool_decide (component = ".") then walk e s current located rest parents
      else match find_child e s current component with
           | (inl error, s) => (inl error, s)
           | (inr child, s) =>
               if parents && negb (nd_type (ne_node child) =? ORCHFS_CORE_DIRECTORY) then (inl ENOTDIR, s)
               else walk e s (ne_inode child) (inr (ne_inode child, ne_node child)) rest parents
           end
  end.
Definition resolve (e : env) (s : fsystem) (path : string) (relative_to : option Z) : (Z + Z * node) * fsystem :=
  match split_path path with
  | inl error => (inl error, s)
  | inr components =>
      let current := start_of s path relative_to in
      if current <? 0 then (inl EIO, s)
      else match orchfs_core_snapshot (fs_nodes s) current with
           | inl error => (inl error, s)
           | inr n => walk e s current (inr (current, n)) components false
           end
  end.
Definition resolve_parent (e : env) (s : fsystem) (path : string) (relative_to : option Z) : (Z + ParentPath) * fsystem :=
  match split_path path with
  | inl error => (inl error, s)
  | inr components =>
      match last components with
      | None => (inl EBUSY, s)
      | Some name =>
          if bool_decide (name = EmptyString) || bool_decide (name = ".") || bool_decide (name = "..") then (inl EINVAL, s)
          else
            let current := start_of s path relative_to in
            match walk e s current (inr (current, new_node ORCHFS_CORE_DIRECTORY [])) (removelast components) true with
            | (inl error, s) => (inl error, s)
            | (inr (parent, _), s) => (inr (mk_parent_path parent name), s)
            end
      end
  end.

(** ** Operations on paths *)

(** An operation under the lock of a directory; what was opened is closed again when
    the lock cannot be released. *)
Definition open_under (e : env) (directory : Z) (r : (Z + Z * Z) * fsystem) : (Z + Z * Z) * fsystem :=
  match r with
  | (inr opened, s) =>
      if negb (e_directory_unlock e directory =? 0) then (inl (e_directory_unlock e directory), (release e s opened.1).2) else (inr opened, s)
  | _ => r
  end.
Definition open_self (e : env) (s : fsystem) (inode flags : Z) : (Z + Z * Z) * fsystem :=
  if negb (e_directory_lock e inode =? 0) then (inl (e_directory_lock e inode), s)
  else open_under e inode
    match orchfs_core_snapshot (fs_nodes s) inode with
    | inl error => (inl error, s)
    | inr n => finish_open_locked e s inode n flags false
    end.
Definition open_path (e : env) (s : fsystem) (path : string) (flags : Z) (relative_to : option Z) : (Z + Z * Z) * fsystem :=
  match split_path path with
  | inl error => (inl error, s)
  | inr components =>
      if forallb (fun component => bool_decide (component = ".")) components then open_self e s (start_of s path relative_to) flags
      else if bool_decide (last components = Some "..") then
        match resolve e s path relative_to with
        | (inl error, s) => (inl error, s)
        | (inr (inode, _), s) => open_self e s inode flags
        end
      else
        match resolve_parent e s path relative_to with
        | (inl error, s) => (inl error, s)
        | (inr parent, s) =>
            if negb (e_directory_lock e (pp_parent parent) =? 0) then (inl (e_directory_lock e (pp_parent parent)), s)
            else open_under e (pp_parent parent) (open_child_locked e s (pp_parent parent) (pp_name parent) flags)
        end
  end.
Definition make_directory (e : env) (s : fsystem) (path : string) : (Z + unit) * fsystem :=
  match resolve_parent e s path None with
  | (inl error, s) => (inl error, s)
  | (inr parent, s) =>
      if negb (e_directory_lock e (pp_parent parent) =? 0) then (inl (e_directory_lock e (pp_parent parent)), s)
      else fold_release (e_directory_unlock e (pp_parent parent))
             match create_node_locked e s (pp_parent parent) (pp_name parent) ORCHFS_CORE_DIRECTORY with
             | (inl error, s) => (inl error, s)
             | (inr _, s) => (inr tt, s)
             end
  end.

(** The set of directories of [acquire_directory_set]; its first one names it. *)
Definition set_lock (e : env) (directories : list Z) : Z :=
  match lock_order directories with inl error => error | inr l => e_directory_lock e (hd 0 l) end.
Definition set_unlock (e : env) (directories : list Z) : Z :=
  match lock_order directories with inl _ => 0 | inr l => e_directory_unlock e (hd 0 l) end.
Definition remove_path (e : env) (s : fsystem) (path : string) (expected_type : Z) : (Z + unit) * fsystem :=
  let directory := expected_type =? ORCHFS_CORE_DIRECTORY in
  if directory && negb (e_topology_lock e =? 0) then (inl (e_topology_lock e), s)
  else
    match resolve_parent e s path None with
    | (inl error, s) => (inl error, s)
    | (inr parent, s) =>
        if directory then
          match find_child e s (pp_parent parent) (pp_name parent) with
          | (inl error, s) => (inl error, s)
          | (inr child, s) =>
              let directories := [pp_parent parent; ne_inode child] in
              if negb (set_lock e directories =? 0) then (inl (set_lock e directories), s)
              else fold_release (e_topology_unlock e) (fold_release (set_unlock e directories)
                     (remove_child_locked e s (pp_parent parent) (pp_name parent) expected_type (Some (ne_inode child))))
          end
        else if negb (e_directory_lock e (pp_parent parent) =? 0) then (inl (e_directory_lock e (pp_parent parent)), s)
        else fold_release (e_directory_unlock e (pp_parent parent))
               (remove_child_locked e s (pp_parent parent) (pp_name parent) expected_type None)
    end.

(** [parent_is_below]: the loop visits a directory at most once.  [None] is running
    out of fuel. *)
Fixpoint parent_is_below (e : env) (fuel : nat) (s : fsystem) (current possible_ancestor : Z) (visited : list Z)
    : option (Z + bool) * fsystem :=
  match fuel with
  | O => (None, s)
  | S fuel' =>
      if current =? possible_ancestor then (Some (inr true), s)
      else if current =? fs_root s then (Some (inr false), s)
      else if bool_decide (current ∈ visited) then (Some (inl EIO), s)
      else match find_child e s current ".." with
           | (inl error, s) => (Some (inl error), s)
           | (inr parent, s) =>
               if negb (nd_type (ne_node parent) =? ORCHFS_CORE_DIRECTORY) || (ne_inode parent =? current) then (Some (inl EIO), s)
               else parent_is_below e fuel' s (ne_inode parent) possible_ancestor (current :: visited)
           end
  end.
Definition below_fuel (s : fsystem) : nat := S (size (fs_nodes s)).

(** One attempt of [rename_path] with the topology lock held or not: [None] asks for
    another attempt, with the lock if [true]. *)
Definition rename_attempt (e : env) (s : fsystem) (old_path new_path : string) (topology : bool)
    : (Z + unit + bool) * fsystem :=
  match resolve_parent e s old_path None with
  | (inl error, s) => (inl (inl error), s)
  | (inr old_parent, s) =>
  match resolve_parent e s new_path None with
  | (inl error, s) => (inl (inl error), s)
  | (inr new_parent, s) =>
  match find_child e s (pp_parent old_parent) (pp_name old_parent) with
  | (inl error, s) => (inl (inl error), s)
  | (inr source, s) =>
  let moved_directory := nd_type (ne_node source) =? ORCHFS_CORE_DIRECTORY in
  if moved_directory && negb topology then (inr true, s)
  else
    let '(found, s) := find_child e s (pp_parent new_parent) (pp_name new_parent) in
    match (match found with inr d => inr (Some d) | inl error => if error =? ENOENT then inr None else inl error end) with
    | inl error => (inl (inl error), s)
    | inr destination =>
        let '(cycle, s) :=
          if moved_directory && negb (pp_parent old_parent =? pp_parent new_parent)
          then parent_is_below e (below_fuel s) s (pp_parent new_parent) (ne_inode source) [] else (Some (inr false), s) in
        match cycle with
        | None | Some (inr true) => (inl (inl EINVAL), s)
        | Some (inl error) => (inl (inl error), s)
        | Some (inr false) =>
            let directories := [pp_parent old_parent; pp_parent new_parent] ++ (if moved_directory then [ne_inode source] else []) ++
              match destination with
              | Some d => if nd_type (ne_node d) =? ORCHFS_CORE_DIRECTORY then [ne_inode d] else []
              | None => []
              end in
            if negb (set_lock e directories =? 0) then (inl (inl (set_lock e directories)), s)
            else
              let '(result, s) := rename_locked e s old_parent new_parent source destination in
              let '(result, s) := fold_release (set_unlock e directories) (result, s) in
              let '(result, s) := if topology then fold_release (e_topology_unlock e) (result, s) else (result, s) in
              match result with
              | inl error =>
                  if (error =? EAGAIN) && (set_unlock e directories =? 0) && (negb topology || (e_topology_unlock e =? 0))
                  then (inr false, s) else (inl (inl error), s)
              | inr _ => (inl (inr tt), s)
              end
        end
    end
  end end end.
Fixpoint rename_attempts (e : env) (n : nat) (s : fsystem) (old_path new_path : string) (topology : bool) : (Z + unit) * fsystem :=
  match n with
  | O => (inl EAGAIN, s)
  | S n' =>
      if topology && negb (e_topology_lock e =? 0) then (inl (e_topology_lock e), s)
      else match rename_attempt e s old_path new_path topology with
           | (inl result, s) => (result, s)
           | (inr again, s) => rename_attempts e n' s old_path new_path again
           end
  end.
Definition rename_path (e : env) (s : fsystem) (old_path new_path : string) : (Z + unit) * fsystem :=
  rename_attempts e 8 s old_path new_path false.
