(* ===== verification/Tree.v ===== *)
(** * The tree of directories: what the operations of Directory.v do

    The invariant says that the directories form one name space: every entry of a
    linked directory leads to a linked inode, every linked inode but the root has
    exactly one entry, caches agree with the directories, and open inodes are not
    freed. *)

From stdpp Require Import base tactics numbers list gmap strings relations.
From Stdlib Require Import ZArith Lia.
From S2P Require Import Prelude Bytes Layout Pmem Namespace DataPath Extents Directory.
Open Scope Z_scope.

(** ** Entries *)

Definition dir_node (m : inodes) (d : Z) (n : node) : Prop := m !! d = Some n /\ nd_type n = ORCHFS_CORE_DIRECTORY.
Definition live_dir (m : inodes) (d : Z) : Prop := exists n, dir_node m d n /\ nd_live n = true.
(** An inode that is allocated and has not been removed. *)
Definition linked (m : inodes) (i : Z) : Prop := exists n, m !! i = Some n /\ nd_live n = true /\ nd_orphan n = false.
(** The entry in slot [j] of directory [d]; the first two are the dots. *)
Definition ent (m : inodes) (d : Z) (j : nat) (en : orchfs_core_dirent) : Prop :=
  exists n, dir_node m d n /\ nd_entries n !! j = Some en /\ de_type en <> 0.
Definition used (m : inodes) (d : Z) (j : nat) (en : orchfs_core_dirent) : Prop := ent m d j en /\ (2 <= j)%nat.
Definition dotdot_of (m : inodes) (d p : Z) : Prop := exists en, ent m d 1 en /\ de_inode en = p.
Definition slot_offset (j : nat) : Z := Z.of_nat j * ORCHFS_CORE_DIRENT_SIZE.

Record tree (m : inodes) (root : Z) : Prop := {
  t_bound : forall i n, m !! i = Some n -> 0 <= i < MAX_INODE_NUM /\ (nd_type n = ORCHFS_CORE_DIRECTORY \/ nd_type n = ORCHFS_CORE_REGULAR);
  t_root : linked m root /\ live_dir m root;
  t_dots : forall d n, dir_node m d n -> nd_live n = true -> exists p rest, nd_entries n = dot_entries d p ++ rest;
  t_name : forall d j en, live_dir m d -> used m d j en ->
    de_offset en = slot_offset j /\ de_name en <> "." /\ de_name en <> ".." /\
    Z.of_nat (String.length (de_name en)) <= ORCHFS_CORE_DIRENT_NAME_MAX;
  t_unique : forall d j k en en', live_dir m d -> used m d j en -> used m d k en' -> de_name en = de_name en' -> j = k;
  t_target : forall d j en, linked m d -> used m d j en ->
    linked m (de_inode en) /\ de_inode en <> root /\ exists n, m !! de_inode en = Some n /\ nd_type n = de_type en;
  t_once : forall d d' j j' en en', linked m d -> linked m d' -> used m d j en -> used m d' j' en' ->
    de_inode en = de_inode en' -> d = d' /\ j = j';
  t_found : forall i, linked m i -> i <> root -> exists d j en, linked m d /\ used m d j en /\ de_inode en = i;
  t_parent : forall d j en, linked m d -> used m d j en -> de_type en = ORCHFS_CORE_DIRECTORY -> dotdot_of m (de_inode en) d;
  t_root_parent : dotdot_of m root root;
  t_orphan_empty : forall d n j en, dir_node m d n -> nd_live n = true -> nd_orphan n = true -> ~ used m d j en;
  t_reach : forall d, linked m d -> live_dir m d -> rtc (dotdot_of m) d root;
}.

(** Cached names agree with the directory; a complete index has all of them. *)
Definition cached_name (c : NamespaceCoordinator) (d : Z) (name : string) : Prop :=
  exists index dn, sh_find d (dentries c) = Some index /\ names index !! name = Some dn.
Definition cache_ok (m : inodes) (c : NamespaceCoordinator) : Prop := forall d index, 0 <= d -> sh_find d (dentries c) = Some index ->
  live_dir m d /\
  (forall name dn, names index !! name = Some dn -> exists j en, ent m d j en /\ de_name en = name /\
     dn_inode dn = de_inode en /\ dn_offset dn = slot_offset j) /\
  (complete index = true -> forall j en, ent m d j en -> exists dn, names index !! de_name en = Some dn).
(** References are to allocated inodes; an inode is marked as an orphan in memory
    exactly when it is on the media, and an orphan is open. *)
Definition refs_ok (m : inodes) (c : NamespaceCoordinator) : Prop :=
  (forall i st, 0 <= i -> sh_find i (inode_states c) = Some st -> 1 <= open_references st /\
     exists n, m !! i = Some n /\ nd_live n = true /\ nd_orphan n = orphaned st) /\
  (forall i n, m !! i = Some n -> nd_live n = true -> nd_orphan n = true -> exists st, sh_find i (inode_states c) = Some st).
Record fs_ok (s : fsystem) : Prop := {
  ok_tree : tree (fs_nodes s) (fs_root s);
  ok_cache : cache_ok (fs_nodes s) (fs_coord s);
  ok_refs : refs_ok (fs_nodes s) (fs_coord s);
}.

Lemma ent_fun m d j en en' : ent m d j en -> ent m d j en' -> en = en'.
Proof. intros (n & [H _] & E & _) (n' & [H' _] & E' & _). congruence. Qed.

(** ** The cache of entries *)

(** Only the index of directory [d] changes. *)
Definition only_dentries (d : Z) (c c' : NamespaceCoordinator) : Prop :=
  data_ranges c' = data_ranges c /\ inode_state_ranges c' = inode_state_ranges c /\ snapshots c' = snapshots c /\
  inode_states c' = inode_states c /\ arbiters_made c' = arbiters_made c /\
  forall d', d' <> d -> sh_find d' (dentries c') = sh_find d' (dentries c).
Lemma only_dentries_refl d c : only_dentries d c c.
Proof. by repeat split. Qed.
Lemma only_dentries_trans d c1 c2 c3 : only_dentries d c1 c2 -> only_dentries d c2 c3 -> only_dentries d c1 c3.
Proof. intros (A & B & C & D & E & F) (A' & B' & C' & D' & E' & F'). repeat split; try congruence. intros d' Hd. by rewrite F', F. Qed.
Lemma set_dentries_only d c t : (forall d', d' <> d -> sh_find d' t = sh_find d' (dentries c)) -> only_dentries d c (set_dentries t c).
Proof. by repeat split. Qed.
Lemma insert_only d c index : only_dentries d c (set_dentries (sh_insert d index (dentries c)) c).
Proof. apply set_dentries_only. intros d' Hd. rewrite sh_find_insert. by destruct (decide (d' = d)). Qed.
Lemma erase_only d c : only_dentries d c (set_dentries (sh_erase d (dentries c)) c).
Proof. apply set_dentries_only. intros d' Hd. rewrite sh_find_erase. by destruct (decide (d' = d)). Qed.

(** A change of one index keeps the cache right when the new index is. *)
Definition index_ok (m : inodes) (d : Z) (index : DirectoryIndex) : Prop :=
  live_dir m d /\
  (forall name dn, names index !! name = Some dn -> exists j en, ent m d j en /\ de_name en = name /\
     dn_inode dn = de_inode en /\ dn_offset dn = slot_offset j) /\
  (complete index = true -> forall j en, ent m d j en -> exists dn, names index !! de_name en = Some dn).
Lemma cache_change m c c' d : cache_ok m c -> only_dentries d c c' ->
  (forall index, sh_find d (dentries c') = Some index -> index_ok m d index) -> cache_ok m c'.
Proof.
  intros Hc (_ & _ & _ & _ & _ & Ho) Hd d' index H0 Hf. destruct (decide (d' = d)) as [->|Hne]; [by apply Hd|]. rewrite Ho in Hf by done.
  by apply Hc.
Qed.

(** An index is right for all names but those in [X]. *)
Definition index_but (m : inodes) (X : string -> Prop) (d : Z) (index : DirectoryIndex) : Prop :=
  (forall name dn, names index !! name = Some dn -> ~ X name -> exists j en, ent m d j en /\ de_name en = name /\
     dn_inode dn = de_inode en /\ dn_offset dn = slot_offset j) /\
  (complete index = true -> forall j en, ent m d j en -> ~ X (de_name en) -> exists dn, names index !! de_name en = Some dn).
Definition cache_of (m : inodes) (t : shards DirectoryIndex) : Prop := forall d index, 0 <= d -> sh_find d t = Some index -> index_ok m d index.
Definition cache_but (m : inodes) (X : Z -> string -> Prop) (t : shards DirectoryIndex) : Prop :=
  forall d index, 0 <= d -> sh_find d t = Some index -> index_but m (X d) d index.
(** [X] without one name. *)
Definition but (X : Z -> string -> Prop) (d : Z) (name : string) : Z -> string -> Prop := fun d' nm => X d' nm /\ ~ (d' = d /\ nm = name).

(** The directories that have an index. *)
Definition indexed_live (m : inodes) (t : shards DirectoryIndex) : Prop := forall d index, 0 <= d -> sh_find d t = Some index -> live_dir m d.
Lemma cache_but_none m X t : (forall d nm, ~ X d nm) -> indexed_live m t -> cache_but m X t -> cache_of m t.
Proof. intros HX Hl H d index H0 Hf. destruct (H d index H0 Hf) as [B C]. split; [by eapply Hl|]. split; eauto. Qed.
Lemma cache_but_ext m m' X t : cache_of m t ->
  (forall d j en, 0 <= d -> is_Some (sh_find d t) -> ~ X d (de_name en) -> ent m' d j en <-> ent m d j en) -> cache_but m' X t.
Proof.
  intros Hc He d index H0 Hf. destruct (Hc d index H0 Hf) as (_ & B & C). split.
  - intros name dn Hn HX. destruct (B name dn Hn) as (j & en & Hj & <- & R). exists j, en. split; [|done]. apply He; eauto.
  - intros Hcomp j en Hj HX. apply (C Hcomp j). apply He; eauto.
Qed.
Lemma cache_but_erase m X t i : cache_but m X t -> cache_but m X (sh_erase i t).
Proof. intros H d index H0. rewrite sh_find_erase. destruct (decide (d = i)); [done|by apply H]. Qed.
Lemma indexed_live_only m d c c' : live_dir m d -> only_dentries d c c' -> indexed_live m (dentries c) -> indexed_live m (dentries c').
Proof.
  intros Hd (_ & _ & _ & _ & _ & Ho) H d' index H0 Hf. destruct (decide (d' = d)) as [->|Hne]; [done|]. rewrite Ho in Hf by done. by eapply H.
Qed.
Lemma but_ne X d name d' nm : ~ but X d name d' nm -> d' <> d \/ nm <> name -> ~ X d' nm.
Proof. unfold but. tauto. Qed.
Lemma index_but_ne m X d name d' index : d' <> d -> index_but m (X d') d' index -> index_but m (but X d name d') d' index.
Proof.
  intros Hne (B & C). split.
  - intros nm dn Hn HX. apply (B nm dn Hn). eapply but_ne; [done|by left].
  - intros Hcomp j en Hj HX. apply (C Hcomp j en Hj). eapply but_ne; [done|by left].
Qed.

Section remember.
Context (e : env) (m : inodes) (d : Z) (H0 : 0 <= d) (Hlive : live_dir m d).

Lemma remember_only name dn c : only_dentries d c (remember e d name dn c).2.
Proof.
  unfold remember, cache_dentry. rewrite (proj2 (Z.ltb_ge _ _)) by done. destruct (sh_find d (dentries c)) as [index|] eqn:Ef.
  - destruct (names index !! name); [apply insert_only|]. destruct (e_memory e name); apply insert_only.
  - destruct (e_memory e name); cbn [negb]; [apply insert_only|apply only_dentries_refl].
Qed.
(** The index after caching a name: it has the other names as before, and the new one
    unless memory ran out. *)
Lemma remember_index name dn c index' : sh_find d (dentries (remember e d name dn c).2) = Some index' ->
  (forall nm, nm <> name -> names index' !! nm = match sh_find d (dentries c) with Some index => names index !! nm | None => None end) /\
  (names index' !! name = Some dn \/ (names index' !! name = None /\ complete index' = false)) /\
  (complete index' = true -> exists index, sh_find d (dentries c) = Some index /\ complete index = true).
Proof.
  unfold remember, cache_dentry. rewrite (proj2 (Z.ltb_ge _ _)) by done. destruct (sh_find d (dentries c)) as [index|] eqn:Ef.
  - destruct (names index !! name) as [old|] eqn:En; [|destruct (e_memory e name)]; cbn [snd set_dentries dentries];
      rewrite sh_find_insert, decide_True by done; intros [= <-]; cbn [names complete].
    1, 2: split; [intros nm Hne; by rewrite lookup_insert_ne|]; split; [left; apply lookup_insert_eq|eauto].
    split; [done|]. split; [by right|done].
  - destruct (e_memory e name); cbn [negb snd set_dentries dentries]; [|by rewrite Ef].
    rewrite sh_find_insert, decide_True by done. intros [= <-]. cbn [names complete]. split; [|split; [left; by rewrite lookup_singleton_eq|done]].
    intros nm Hne. by rewrite lookup_singleton_ne.
Qed.
(** Caching an entry makes its name right. *)
Lemma remember_but X name dn c j en : cache_but m X (dentries c) -> ent m d j en -> de_name en = name -> dn_inode dn = de_inode en ->
  dn_offset dn = slot_offset j -> cache_but m (but X d name) (dentries (remember e d name dn c).2).
Proof.
  intros Hc He Hn H1 H2 d' index' Hd' Hf. destruct (remember_only name dn c) as (_ & _ & _ & _ & _ & Ho).
  destruct (decide (d' = d)) as [->|Hne]; [|rewrite Ho in Hf by done; apply index_but_ne; [done|by apply Hc]].
  destruct (remember_index _ _ _ _ Hf) as (Ha & Hb & Hcc). split.
  - intros nm dn' Hl HX. destruct (decide (nm = name)) as [->|Hnm].
    + destruct Hb as [E|[E _]]; [|congruence]. rewrite E in Hl. injection Hl as <-. eauto 10.
    + rewrite Ha in Hl by done. destruct (sh_find d (dentries c)) as [index|] eqn:Ef; [|done].
      destruct (Hc d index H0 Ef) as (B & _). apply (B nm dn' Hl). eapply but_ne; [done|by right].
  - intros Hcomp k en' Hk HX. destruct (decide (de_name en' = name)) as [Hnm|Hnm].
    + rewrite Hnm. destruct Hb as [E|[_ E]]; [eauto|congruence].
    + rewrite Ha by done. destruct (Hcc Hcomp) as (index & Ef & Hci). rewrite Ef. destruct (Hc d index H0 Ef) as (_ & C).
      apply (C Hci k en' Hk). eapply but_ne; [done|by right].
Qed.
Lemma remember_ok name dn c j en : cache_ok m c -> ent m d j en -> de_name en = name -> dn_inode dn = de_inode en -> dn_offset dn = slot_offset j ->
  cache_ok m (remember e d name dn c).2.
Proof.
  intros Hc He Hn H1 H2. apply (cache_but_none m (but (fun _ _ => False) d name)); [by intros d' nm [[] _]| |].
  - eapply indexed_live_only; [done|apply remember_only|]. intros d' index' Hd' Hf. by apply (Hc d' index').
  - apply (remember_but _ name dn c j en); try done. by apply (cache_but_ext m).
Qed.
Lemma remember_mono name dn c nm : cached_name c d nm -> cached_name (remember e d name dn c).2 d nm.
Proof.
  intros (index & old & Ef & En). unfold cached_name, remember, cache_dentry. rewrite (proj2 (Z.ltb_ge _ _)) by done. rewrite Ef.
  assert (exists dn', (<[name := dn]> (names index)) !! nm = Some dn') as [dn' Hdn'].
  { destruct (decide (nm = name)) as [->|Hne]; [rewrite lookup_insert_eq; by eexists|rewrite lookup_insert_ne by done; by eexists]. }
  destruct (names index !! name); [|destruct (e_memory e name)]; cbn [snd set_dentries dentries];
    rewrite sh_find_insert, decide_True by done; do 2 eexists; (split; [done|]); cbn; done.
Qed.
Lemma remember_cached name dn c : (remember e d name dn c).1 = true -> cached_name (remember e d name dn c).2 d name.
Proof.
  unfold cached_name, remember, cache_dentry. rewrite (proj2 (Z.ltb_ge _ _)) by done. destruct (sh_find d (dentries c)) as [index|] eqn:Ef.
  - destruct (names index !! name) as [old|]; [|destruct (e_memory e name)]; cbn [fst snd set_dentries dentries]; intros Hb; try done;
      rewrite sh_find_insert, decide_True by done; do 2 eexists; (split; [done|]); cbn; by rewrite lookup_insert_eq.
  - destruct (e_memory e name); cbn [negb fst snd set_dentries dentries]; [|done]. intros _.
    rewrite sh_find_insert, decide_True by done. do 2 eexists. split; [done|]. cbn. by rewrite lookup_singleton_eq.
Qed.
End remember.

Lemma mark_complete_only alloc d c : 0 <= d -> only_dentries d c (mark_directory_complete alloc d c).
Proof.
  intros H0. unfold mark_directory_complete. rewrite (proj2 (Z.ltb_ge _ _)) by done. destruct (sh_find d (dentries c)); [apply insert_only|].
  destruct alloc; [apply insert_only|apply erase_only].
Qed.
Lemma mark_complete_ok m alloc d c : 0 <= d -> live_dir m d -> cache_ok m c -> (forall j en, ent m d j en -> cached_name c d (de_name en)) ->
  cache_ok m (mark_directory_complete alloc d c).
Proof.
  intros H0 Hl Hc Hall. eapply cache_change; [done|by apply mark_complete_only|]. unfold mark_directory_complete. rewrite (proj2 (Z.ltb_ge _ _)) by done.
  intros index. destruct (sh_find d (dentries c)) as [old|] eqn:Ef; [|destruct alloc]; cbn [set_dentries dentries].
  - rewrite sh_find_insert, decide_True by done. intros [= <-]. destruct (Hc d old H0 Ef) as (A & B & C). split; [done|]. split; [done|].
    intros _ j en He. destruct (Hall j en He) as (idx & dn & E1 & E2). rewrite Ef in E1. injection E1 as <-. by exists dn.
  - rewrite sh_find_insert, decide_True by done. intros [= <-]. split; [done|]. split; [by intros nm dn Hx|].
    intros _ j en He. destruct (Hall j en He) as (idx & dn & E1 & _). congruence.
  - rewrite sh_find_erase, decide_True by done. done.
Qed.

(** ** Lookup *)

(** A failed read; it does not look like a name that is not there. *)
Definition read_error (e : env) (d error : Z) : Prop := exists offset, error = e_read e d offset /\ error <> 0.
Definition reads_ok (e : env) : Prop := forall d offset, e_read e d offset <> ENOENT.
(** The entry a lookup finds. *)
Definition is_child (m : inodes) (d : Z) (name : string) (ne : NamespaceEntry) : Prop :=
  exists j en n, ent m d j en /\ de_name en = name /\ m !! de_inode en = Some n /\
    ne = mk_ns_entry (de_inode en) n d (slot_offset j) en.

Section lookup.
Context (m : inodes) (root : Z) (T : tree m root).

Lemma snapshot_ok i n : m !! i = Some n -> orchfs_core_snapshot m i = inr n.
Proof.
  intros H. destruct (t_bound _ _ T i n H) as [Hb _]. unfold orchfs_core_snapshot.
  rewrite (proj2 (Z.ltb_ge i 0)), (proj2 (Z.leb_gt MAX_INODE_NUM i)) by lia. cbn. by rewrite H.
Qed.
Lemma snapshot_inv i n : orchfs_core_snapshot m i = inr n -> m !! i = Some n.
Proof. unfold orchfs_core_snapshot. destruct (_ || _); [done|]. destruct (m !! i); [by intros [= ->]|done]. Qed.
Lemma live_dir_ent d : live_dir m d -> exists n p rest, m !! d = Some n /\ nd_type n = ORCHFS_CORE_DIRECTORY /\ nd_live n = true /\
  nd_entries n = dot_entries d p ++ rest.
Proof. intros (n & Hn & Hl). destruct (t_dots _ _ T d n Hn Hl) as (p & rest & E). destruct Hn. eauto 10. Qed.
Lemma ent_cases d j en : live_dir m d -> ent m d j en ->
  (j = 0%nat /\ en = mk_dirent d 0 ORCHFS_CORE_DIRECTORY ".") \/
  (j = 1%nat /\ exists p, en = mk_dirent p ORCHFS_CORE_DIRENT_SIZE ORCHFS_CORE_DIRECTORY ".." /\ dotdot_of m d p) \/ used m d j en.
Proof.
  intros Hl He. destruct (live_dir_ent d Hl) as (n & p & rest & Hm & Ht & _ & E). pose proof He as (n' & [Hm' _] & Hj & Hne).
  assert (n' = n) as -> by congruence. rewrite E in Hj. destruct j as [|[|j]].
  - left. cbn in Hj. split; [done|]. congruence.
  - right. left. cbn in Hj. split; [done|]. exists p. split; [congruence|]. exists en. split; [done|]. injection Hj as <-. done.
  - right. right. split; [done|lia].
Qed.
Lemma ent_unique d j k en en' : live_dir m d -> ent m d j en -> ent m d k en' -> de_name en = de_name en' -> j = k.
Proof.
  intros Hl H1 H2 Hn. destruct (ent_cases d j en Hl H1) as [[-> ->]|[[-> (p & -> & _)]|U1]], (ent_cases d k en' Hl H2) as [[-> ->]|[[-> (q & -> & _)]|U2]];
    cbn in Hn; try done; try (destruct (t_name _ _ T d _ _ Hl U2) as (_ & ? & ? & _); congruence);
    try (destruct (t_name _ _ T d _ _ Hl U1) as (_ & ? & ? & _); congruence).
  by eapply (t_unique _ _ T).
Qed.
Lemma linked_live d n : linked m d -> dir_node m d n -> live_dir m d.
Proof. intros (n' & H & Hl & _) [H' Ht]. exists n. split; [by split|]. congruence. Qed.
(** The parent of a linked directory is a linked directory. *)
Lemma dotdot_linked d p : linked m d -> live_dir m d -> dotdot_of m d p -> linked m p /\ exists n, dir_node m p n.
Proof.
  intros Hd (nd & Hnd & Hlive) (en & He & <-). destruct (decide (d = root)) as [->|Hne].
  - destruct (t_root_parent _ _ T) as (en' & He' & E'). rewrite (ent_fun _ _ _ _ _ He He'), E'. split; [done|eauto].
  - destruct (t_found _ _ T d Hd Hne) as (p & j & en' & Hp & Hu & E). destruct (t_target _ _ T p j en' Hp Hu) as (_ & _ & n & Hn & Ht).
    rewrite E in Hn. destruct Hnd as [Hnd Htd].
    destruct (t_parent _ _ T p j en' Hp Hu ltac:(congruence)) as (en'' & He'' & E''). rewrite E in He''.
    rewrite (ent_fun _ _ _ _ _ He He''), E''. split; [done|]. destruct Hu as [(np & Hnp & _) _]. eauto.
Qed.
(** Every entry of a linked directory leads to an inode of its type. *)
Lemma ent_ok d j en : linked m d -> ent m d j en -> exists n, m !! de_inode en = Some n /\ nd_type n = de_type en /\
  de_offset en = slot_offset j /\ Z.of_nat (String.length (de_name en)) <= ORCHFS_CORE_DIRENT_NAME_MAX /\ linked m (de_inode en).
Proof.
  intros Hd He. pose proof He as (nd & Hnd & _). pose proof (linked_live d nd Hd Hnd) as Hl.
  destruct (ent_cases d j en Hl He) as [[-> ->]|[[-> (p & -> & Hp)]|U]].
  - exists nd. destruct Hnd. split_and!; try done.
  - destruct (dotdot_linked d p Hd Hl Hp) as (Hlp & n & [Hn Ht]). exists n. split_and!; try done.
  - destruct (t_target _ _ T d j en Hd U) as (H1 & _ & n & Hn & Ht). destruct (t_name _ _ T d j en Hl U) as (H2 & _ & _ & H3). eauto 10.
Qed.
End lookup.

Section scan.
Context (e : env) (m : inodes) (root : Z) (T : tree m root).
Context (d : Z) (nd : node) (Hd : linked m d) (Hnd : dir_node m d nd) (name : string).
Lemma dir_bound : 0 <= d.
Proof. destruct Hnd as [H _]. destruct (t_bound _ _ T d nd H) as [? _]. lia. Qed.
Lemma dir_ent j en : nd_entries nd !! j = Some en -> de_type en <> 0 -> ent m d j en.
Proof. intros H1 H2. by exists nd. Qed.

Definition scanned (r : Z + option NamespaceEntry * bool) (c : NamespaceCoordinator) : Prop :=
  match r with
  | inl error => read_error e d error
  | inr (located, flag) => (flag = true -> forall j en, ent m d j en -> cached_name c d (de_name en)) /\
      match located with Some ne => is_child m d name ne | None => forall j en, ent m d j en -> de_name en <> name end
  end.
Lemma scan_entries_spec l : forall pre located flag c, nd_entries nd = pre ++ l -> cache_ok m c ->
  (flag = true -> forall j en, (j < length pre)%nat -> ent m d j en -> cached_name c d (de_name en)) ->
  match located with
  | Some ne => is_child m d name ne
  | None => forall j en, (j < length pre)%nat -> ent m d j en -> de_name en <> name
  end ->
  exists r c', scan e m d name l (Z.of_nat (length pre)) located flag c = (r, c') /\ cache_ok m c' /\ only_dentries d c c' /\ scanned r c'.
Proof.
  induction l as [|en l IH]; intros pre located flag c Hpre Hc Hflag Hloc.
  { rewrite app_nil_r in Hpre. assert (forall j en, ent m d j en -> (j < length pre)%nat) as Hj.
    { intros j en (n & [Hn _] & Hj & _). destruct Hnd as [Hn' _]. rewrite <-Hpre. apply lookup_lt_Some in Hj. congruence. }
    exists (inr (located, flag)), c. split; [done|]. split; [done|]. split; [apply only_dentries_refl|]. split; [eauto|]. destruct located; eauto. }
  assert (nd_entries nd !! length pre = Some en) as Hat by (rewrite Hpre; apply list_lookup_middle; done).
  assert (nd_entries nd = (pre ++ [en]) ++ l) as Hpre' by (rewrite Hpre; by rewrite <-app_assoc).
  assert (length (pre ++ [en]) = S (length pre)) as Hlen by (rewrite length_app; cbn; lia).
  cbn [scan]. destruct ((Z.of_nat (length pre) mod kDirectoryWindowEntries =? 0) && negb (e_read e d _ =? 0)) eqn:Eread.
  { apply andb_prop in Eread as [_ Eread%negb_true_iff%Z.eqb_neq]. do 2 eexists. split; [done|]. split; [done|]. split; [apply only_dentries_refl|].
    by eexists. }
  replace (Z.of_nat (length pre) + 1) with (Z.of_nat (length (pre ++ [en]))) by lia.
  destruct (Z.eqb_spec (de_type en) 0) as [Et|Et]; cbn [orb].
  { apply IH; [done|done|..].
    - intros Hf j en' Hj Hj'. apply (Hflag Hf j); [|done]. destruct (decide (j = length pre)) as [->|]; [|lia].
      destruct Hj' as (n & [Hn _] & Hx & Hne). destruct Hnd as [Hn' _]. congruence.
    - destruct located; [done|]. intros j en' Hj Hj'. apply (Hloc j); [|done]. destruct (decide (j = length pre)) as [->|]; [|lia].
      destruct Hj' as (n & [Hn _] & Hx & Hne). destruct Hnd as [Hn' _]. congruence. }
  pose proof (dir_ent _ _ Hat Et) as Hent. destruct (ent_ok m root T d _ en Hd Hent) as (n & Hn & Ht & Ho & Hlen' & _).
  rewrite (proj2 (Z.ltb_ge ORCHFS_CORE_DIRENT_NAME_MAX _)) by done.
  pose proof (linked_live m d nd Hd Hnd) as Hlive. pose proof dir_bound as H0.
  set (dn := mk_dentry (de_inode en) (Z.of_nat (length pre) * ORCHFS_CORE_DIRENT_SIZE) (de_type en)).
  pose proof (remember_ok e m d H0 Hlive (de_name en) dn c (length pre) en Hc Hent eq_refl eq_refl eq_refl) as Hc'.
  pose proof (remember_only e d H0 (de_name en) dn c) as Ho'.
  pose proof (remember_cached e d H0 (de_name en) dn c) as Hcached.
  pose proof (fun nm => remember_mono e d H0 (de_name en) dn c nm) as Hmono.
  destruct (remember e d (de_name en) dn c) as [cached c'] eqn:Er. cbn [fst snd] in *.
  assert (cached && flag = true -> forall j en', (j < length (pre ++ [en]))%nat -> ent m d j en' -> cached_name c' d (de_name en')) as Hflag'.
  { intros [-> ->]%andb_true_iff j en' Hj Hj'. destruct (decide (j = length pre)) as [->|].
    - rewrite (ent_fun _ _ _ _ _ Hj' Hent). by apply Hcached.
    - apply Hmono. apply (Hflag eq_refl j); [lia|done]. }
  assert (forall located1, match located1 with Some ne => is_child m d name ne
      | None => forall j en', (j < length (pre ++ [en]))%nat -> ent m d j en' -> de_name en' <> name end ->
    exists r c'', scan e m d name l (Z.of_nat (length (pre ++ [en]))) located1 (cached && flag) c' = (r, c'') /\
    cache_ok m c'' /\ only_dentries d c c'' /\ scanned r c'') as Hnext.
  { intros located1 Hl1. destruct (IH (pre ++ [en]) located1 (cached && flag) c' Hpre' Hc' Hflag' Hl1) as (r & c'' & A & B & C & D).
    exists r, c''. split; [done|]. split; [done|]. split; [by eapply only_dentries_trans|done]. }
  destruct located as [ne|]; cbn [bool_decide].
  - rewrite bool_decide_eq_false_2 by done. cbn [andb]. by apply Hnext.
  - rewrite bool_decide_eq_true_2 by done. cbn [andb]. destruct (decide (de_name en = name)) as [Hname|Hname].
    + rewrite bool_decide_eq_true_2 by done. rewrite (snapshot_ok m root T _ n Hn). apply Hnext. exists (length pre), en, n. eauto.
    + rewrite bool_decide_eq_false_2 by done. apply Hnext. intros j en' Hj Hj'. destruct (decide (j = length pre)) as [->|].
      * by rewrite (ent_fun _ _ _ _ _ Hj' Hent).
      * apply (Hloc j); [lia|done].
Qed.
End scan.

Definition found_ok (e : env) (m : inodes) (d : Z) (name : string) (r : Z + NamespaceEntry) : Prop :=
  match r with
  | inr ne => is_child m d name ne
  | inl error => (error = ENOENT /\ forall j en, ent m d j en -> de_name en <> name) \/ read_error e d error
  end.
Lemma found_none e m d name : reads_ok e -> found_ok e m d name (inl ENOENT) -> forall j en, ent m d j en -> de_name en <> name.
Proof. intros Hr [[_ H]|(offset & E & _)]; [done|]. by destruct (Hr d offset). Qed.
Lemma set_coord_id s : set_coord (fs_coord s) s = s.
Proof. by destruct s. Qed.

Lemma find_by_scan_spec e s d nd name : tree (fs_nodes s) (fs_root s) -> cache_ok (fs_nodes s) (fs_coord s) ->
  linked (fs_nodes s) d -> dir_node (fs_nodes s) d nd ->
  exists r c', find_by_scan e s d name nd = (r, set_coord c' s) /\ cache_ok (fs_nodes s) c' /\ only_dentries d (fs_coord s) c' /\
    found_ok e (fs_nodes s) d name r.
Proof.
  intros T Hc Hd Hnd. unfold find_by_scan.
  destruct (scan_entries_spec e (fs_nodes s) (fs_root s) T d nd Hd Hnd name (nd_entries nd) [] None true (fs_coord s) eq_refl Hc)
    as (r & c' & E & Hc' & Ho & Hs); [intros _ j en Hj; cbn in Hj; lia|intros j en Hj; cbn in Hj; lia|].
  change (Z.of_nat (length [])) with 0 in E. rewrite E. pose proof (dir_bound _ _ T d nd Hnd) as H0. pose proof (linked_live _ d nd Hd Hnd) as Hlive.
  destruct r as [error|[located flag]]; [do 2 eexists; split; [done|]; split; [done|]; split; [done|by right]|]. destruct Hs as [Hf Hl].
  do 2 eexists. split; [done|]. split; [|split].
  - destruct flag; [|done]. apply mark_complete_ok; [done|done|done|by apply Hf].
  - destruct flag; [|done]. eapply only_dentries_trans; [done|by apply mark_complete_only].
  - destruct located as [ne|]; [done|by left].
Qed.
Lemma find_child_spec e s d nd name : tree (fs_nodes s) (fs_root s) -> cache_ok (fs_nodes s) (fs_coord s) ->
  linked (fs_nodes s) d -> dir_node (fs_nodes s) d nd ->
  exists r c', find_child_locked e s d name = (r, set_coord c' s) /\ cache_ok (fs_nodes s) c' /\ only_dentries d (fs_coord s) c' /\
    found_ok e (fs_nodes s) d name r.
Proof.
  intros T Hc Hd Hnd. unfold find_child_locked. rewrite (snapshot_ok _ _ T d nd) by apply Hnd. rewrite (proj2 Hnd). cbn [negb Z.eqb].
  change (negb (ORCHFS_CORE_DIRECTORY =? ORCHFS_CORE_DIRECTORY)) with false. cbv iota. pose proof (dir_bound _ _ T d nd Hnd) as H0.
  unfold find_dentry, directory_complete. rewrite (proj2 (Z.ltb_ge _ _)) by done.
  destruct (sh_find d (dentries (fs_coord s))) as [index|] eqn:Ef; [|by apply find_by_scan_spec].
  destruct (Hc d index H0 Ef) as (Hlive & Hpos & Hcomp). destruct (names index !! name) as [dn|] eqn:En.
  - destruct (Hpos name dn En) as (j & en & Hent & Hname & Hi & Ho). destruct (ent_ok _ _ T d j en Hd Hent) as (n & Hn & Ht & Hoff & _ & _).
    rewrite Hi, (snapshot_ok _ _ T _ n Hn). exists (inr (mk_ns_entry (de_inode en) n d (slot_offset j) en)), (fs_coord s).
    rewrite set_coord_id. split; [|split; [done|split; [apply only_dentries_refl|by exists j, en, n]]].
    rewrite Ho, Ht, <-Hname, <-Hoff. by destruct en.
  - destruct (complete index) eqn:Ecomp; [|by apply find_by_scan_spec]. exists (inl ENOENT), (fs_coord s). rewrite set_coord_id.
    split; [done|]. split; [done|]. split; [apply only_dentries_refl|]. left. split; [done|]. intros j en Hent Hname.
    destruct (Hcomp eq_refl j en Hent) as (dn & E). congruence.
Qed.

(** Changing cached entries changes nothing else of the state. *)
Lemma refs_only m d c c' : only_dentries d c c' -> refs_ok m c -> refs_ok m c'.
Proof. intros (_ & _ & _ & E & _) [H1 H2]. unfold refs_ok. by rewrite E. Qed.
Lemma fs_ok_coord s d c' : fs_ok s -> cache_ok (fs_nodes s) c' -> only_dentries d (fs_coord s) c' -> fs_ok (set_coord c' s).
Proof. intros [T C R] Hc Ho. split; [done|done|]. by eapply refs_only. Qed.

(** ** Changing entries and inodes *)

Definition attr (n : node) : Z * bool * bool := (nd_type n, nd_live n, nd_orphan n).
Definition put_list (j : nat) (en : orchfs_core_dirent) (l : list orchfs_core_dirent) : list orchfs_core_dirent :=
  if decide (j = length l) then l ++ [en] else <[j := en]> l.
Definition put (m : inodes) (d : Z) (n : node) (j : nat) (en : orchfs_core_dirent) : inodes :=
  <[d := set_entries (put_list j en (nd_entries n)) n]> m.

Lemma put_list_lookup j en l k : (j <= length l)%nat -> put_list j en l !! k = if decide (k = j) then Some en else l !! k.
Proof.
  intros Hj. unfold put_list. destruct (decide (j = length l)) as [->|Hne].
  - destruct (decide (k = length l)) as [->|Hk]; [by apply list_lookup_middle|]. destruct (decide (k < length l)%nat).
    + by apply lookup_app_l.
    + rewrite !lookup_ge_None_2; [done|lia|rewrite length_app; cbn; lia].
  - destruct (decide (k = j)) as [->|Hk]; [apply list_lookup_insert_eq; lia|by apply list_lookup_insert_ne].
Qed.
Lemma write_entry_ok e m d n j en : 0 <= d < MAX_INODE_NUM -> dir_node m d n -> (j <= length (nd_entries n))%nat ->
  write_directory_entry e m d (slot_offset j) en =
    if negb (e_write e d (slot_offset j) =? 0) then inl (e_write e d (slot_offset j)) else inr (put m d n j en).
Proof.
  intros Hb [Hm Ht] Hj. unfold write_directory_entry, orchfs_core_snapshot.
  rewrite (proj2 (Z.ltb_ge d 0)), (proj2 (Z.leb_gt MAX_INODE_NUM d)) by lia. cbn [orb]. rewrite Hm, Ht.
  change (negb (ORCHFS_CORE_DIRECTORY =? ORCHFS_CORE_DIRECTORY)) with false. cbv iota. unfold node_size. rewrite Ht, Z.eqb_refl.
  assert (slot_offset j / ORCHFS_CORE_DIRENT_SIZE = Z.of_nat j) as Es by (unfold slot_offset, ORCHFS_CORE_DIRENT_SIZE; apply Z.div_mul; lia).
  rewrite (proj2 (Z.ltb_ge _ _)) by (unfold slot_offset, ORCHFS_CORE_DIRENT_SIZE; lia). cbv zeta. rewrite Es, Nat2Z.id. done.
Qed.
Lemma put_attr m d n j en i : m !! d = Some n -> attr <$> put m d n j en !! i = attr <$> m !! i.
Proof. intros H. unfold put. destruct (decide (i = d)) as [->|]; [by rewrite lookup_insert_eq, H|by rewrite lookup_insert_ne]. Qed.
Lemma put_ent m d n j en d' k en' : dir_node m d n -> (j <= length (nd_entries n))%nat ->
  ent (put m d n j en) d' k en' <-> if decide (d' = d /\ k = j) then en' = en /\ de_type en <> 0 else ent m d' k en'.
Proof.
  intros [Hm Ht] Hj. unfold ent, dir_node, put. destruct (decide (d' = d)) as [->|Hd].
  - rewrite lookup_insert_eq. split.
    + intros (n' & [[= <-] _] & Hk & Hne). cbn [nd_entries set_entries] in Hk. rewrite put_list_lookup in Hk by done.
      destruct (decide (k = j)) as [->|]; [rewrite decide_True by done; split; congruence|rewrite decide_False by tauto]. by exists n.
    + intros H. exists (set_entries (put_list j en (nd_entries n)) n). split; [done|]. cbn [nd_entries set_entries]. rewrite put_list_lookup by done.
      destruct (decide (k = j)) as [->|]; [rewrite decide_True in H by done; destruct H; subst; done|rewrite decide_False in H by tauto].
      destruct H as (n' & [Hn' _] & ?). congruence.
  - rewrite lookup_insert_ne by done. rewrite decide_False by tauto. done.
Qed.

(** [linked] and [live_dir] depend on the attributes only. *)
Lemma linked_attr m m' i : attr <$> m !! i = attr <$> m' !! i -> linked m i -> linked m' i.
Proof.
  intros Ha (n & Hn & Hl & Ho). rewrite Hn in Ha. destruct (m' !! i) as [n'|] eqn:E; [|done]. exists n'. cbn in Ha. unfold attr in Ha.
  injection Ha as _ <- <-. done.
Qed.
Lemma live_dir_attr m m' i : attr <$> m !! i = attr <$> m' !! i -> live_dir m i -> live_dir m' i.
Proof.
  intros Ha (n & [Hn Ht] & Hl). rewrite Hn in Ha. destruct (m' !! i) as [n'|] eqn:E; [|done]. exists n'. cbn in Ha. unfold attr in Ha.
  injection Ha as Et <- _. split; [split; [done|congruence]|done].
Qed.
Lemma dotdot_ent m m' d p : (forall en, ent m d 1 en -> ent m' d 1 en) -> dotdot_of m d p -> dotdot_of m' d p.
Proof. intros H (en & He & Hp). exists en. auto. Qed.

Definition name_ok (name : string) : Prop :=
  name <> "." /\ name <> ".." /\ Z.of_nat (String.length name) <= ORCHFS_CORE_DIRENT_NAME_MAX.
Definition type_ok (type : Z) : Prop := type = ORCHFS_CORE_DIRECTORY \/ type = ORCHFS_CORE_REGULAR.
(** An inode number the allocator may hand out. *)
Definition fresh (m : inodes) (i : Z) : Prop := 0 <= i < MAX_INODE_NUM /\ forall n, m !! i = Some n -> nd_live n = false.
(** A slot an entry can be put in. *)
Definition free_slot (m : inodes) (d : Z) (n : node) (j : nat) : Prop :=
  dir_node m d n /\ (2 <= j <= length (nd_entries n))%nat /\ forall en, ~ ent m d j en.

(** *** Creation *)
Section create.
Context (m : inodes) (root : Z) (T : tree m root).
Context (p : Z) (np : node) (j : nat) (name : string) (type i : Z).
Hypothesis Hp : linked m p.
Hypothesis Hslot : free_slot m p np j.
Hypothesis Hname : name_ok name.
Hypothesis Hnew : forall k en, ent m p k en -> de_name en <> name.
Hypothesis Htype : type_ok type.
Hypothesis Hi : fresh m i.
Definition created_node : node := new_node type (if type =? ORCHFS_CORE_DIRECTORY then dot_entries i p else []).
Definition created_entry : orchfs_core_dirent := mk_dirent i (slot_offset j) type name.
Definition created : inodes := put (<[i := created_node]> m) p np j created_entry.

Lemma create_ne : p <> i.
Proof. intros E. destruct Hp as (n & Hn & Hl & _). rewrite E in Hn. destruct Hi as [_ Hd]. rewrite (Hd n Hn) in Hl. done. Qed.
Lemma create_dir : dir_node (<[i := created_node]> m) p np.
Proof. destruct Hslot as [[H1 H2] _]. split; [|done]. rewrite lookup_insert_ne; [done|]. intros E. by apply create_ne. Qed.
Lemma create_attr x : x <> i -> attr <$> created !! x = attr <$> m !! x.
Proof. intros Hx. unfold created. rewrite put_attr by apply create_dir. by rewrite lookup_insert_ne. Qed.
Lemma create_at : exists n, created !! i = Some n /\ n = created_node.
Proof. unfold created, put. pose proof create_ne. rewrite lookup_insert_ne, lookup_insert_eq by done. eauto. Qed.
Lemma create_ent d k en : d <> i -> ent created d k en <-> ent m d k en \/ (d = p /\ k = j /\ en = created_entry).
Proof.
  intros Hd. unfold created. destruct Hslot as (_ & Hj & Hfree). rewrite put_ent by (apply create_dir || lia).
  destruct (decide (d = p /\ k = j)) as [[-> ->]|Hne].
  - split; [intros [-> _]; by right|]. intros [H|(_ & _ & ->)]; [by apply Hfree in H|]. split; [done|]. cbn. destruct Htype as [-> | ->]; done.
  - split; [|intros [H|(? & ? & _)]; [|tauto]]; unfold ent, dir_node; rewrite lookup_insert_ne by done; [by left|done].
Qed.
Lemma create_ent_new k en : ent created i k en <-> type = ORCHFS_CORE_DIRECTORY /\ dot_entries i p !! k = Some en.
Proof.
  destruct create_at as (n & Hn & ->). unfold ent, dir_node. rewrite Hn. cbn [nd_type created_node new_node]. split.
  - intros (n' & [[= <-] Ht] & Hk & _). cbn in Ht, Hk. rewrite Ht in Hk. by cbn in Hk.
  - intros [Ht Hk]. exists created_node. cbn. rewrite Ht. cbn. split; [done|]. split; [done|]. destruct k as [|[|k]]; cbn in Hk; [by injection Hk as <-..|done].
Qed.
Lemma create_linked x : linked created x <-> linked m x \/ x = i.
Proof.
  destruct (decide (x = i)) as [->|Hx].
  - split; [by right|]. intros _. destruct create_at as (n & Hn & ->). by exists created_node.
  - pose proof (create_attr x Hx). split; [left; by eapply linked_attr|]. intros [H'|?]; [|done]. by eapply linked_attr.
Qed.
Lemma create_live x : live_dir created x <-> live_dir m x \/ (x = i /\ type = ORCHFS_CORE_DIRECTORY).
Proof.
  destruct (decide (x = i)) as [->|Hx].
  - destruct create_at as (n & Hn & ->). split; [intros (n' & [Hn' Ht] & _); right; split; [done|]; rewrite Hn in Hn'; by injection Hn' as <-|].
    intros [(n' & [Hn' _] & Hl)|[_ Ht]]; [destruct Hi as [_ Hd]; rewrite (Hd _ Hn') in Hl; done|]. exists created_node. by repeat split.
  - pose proof (create_attr x Hx). split; [left; by eapply live_dir_attr|]. intros [H'|[? _]]; [|done]. by eapply live_dir_attr.
Qed.
Lemma not_linked_new : ~ linked m i.
Proof. intros (n & Hn & Hl & _). destruct Hi as [_ Hd]. rewrite (Hd n Hn) in Hl. done. Qed.
Lemma not_live_new : ~ live_dir m i.
Proof. intros (n & [Hn _] & Hl). destruct Hi as [_ Hd]. rewrite (Hd n Hn) in Hl. done. Qed.
(** Entries after the dots. *)
Lemma create_used d k en : used created d k en -> d <> i /\ (used m d k en \/ (d = p /\ k = j /\ en = created_entry)).
Proof.
  intros [He Hk]. destruct (decide (d = i)) as [->|Hd].
  - apply create_ent_new in He as [_ He]. destruct k as [|[|k]]; [lia|lia|done].
  - split; [done|]. apply create_ent in He as [He|He]; [left; by split|by right|done].
Qed.
Lemma used_create d k en : d <> i -> used m d k en -> used created d k en.
Proof. intros Hd [He Hk]. split; [|done]. apply create_ent; [done|by left]. Qed.
Lemma create_dotdot d q : d <> i -> dotdot_of m d q -> dotdot_of created d q.
Proof. intros Hd. apply dotdot_ent. intros en He. apply create_ent; [done|by left]. Qed.
Lemma create_dotdot_new : type = ORCHFS_CORE_DIRECTORY -> dotdot_of created i p.
Proof. intros Ht. eexists. split; [apply create_ent_new; by split|done]. Qed.
Lemma create_reach d z : linked m d -> live_dir m d -> rtc (dotdot_of m) d z -> rtc (dotdot_of created) d z.
Proof.
  intros Hd Hl Hr. induction Hr as [d|d q r Hq Hr IH]; [done|]. assert (d <> i) by (intros ->; by apply not_linked_new).
  destruct (dotdot_linked m _ T d q Hd Hl Hq) as (Hlq & n & Hn). eapply rtc_l; [by apply create_dotdot|]. apply IH; [done|]. by eapply linked_live.
Qed.
Lemma linked_ne d : linked m d -> d <> i.
Proof. intros H ->. by apply not_linked_new. Qed.

Lemma linked_mono d : linked m d -> linked created d.
Proof. intros H. apply create_linked. by left. Qed.
Lemma linked_back d : linked created d -> d <> i -> linked m d.
Proof. intros [H|H]%create_linked Hd; done. Qed.
Lemma create_bound x n : created !! x = Some n ->
  0 <= x < MAX_INODE_NUM /\ (nd_type n = ORCHFS_CORE_DIRECTORY \/ nd_type n = ORCHFS_CORE_REGULAR).
Proof.
  intros Hx. destruct (decide (x = i)) as [->|Hne].
  - destruct create_at as (n' & Hn' & ->). rewrite Hn' in Hx. injection Hx as <-. split; [apply Hi|exact Htype].
  - pose proof (create_attr x Hne) as Ha. rewrite Hx in Ha. destruct (m !! x) as [n'|] eqn:E; [|done].
    destruct (t_bound _ _ T x n' E) as [Hb Ht]. cbn in Ha. unfold attr in Ha. injection Ha as -> _ _. done.
Qed.
Lemma create_dots d n : dir_node created d n -> nd_live n = true -> exists q rest, nd_entries n = dot_entries d q ++ rest.
Proof.
  intros [Hn Ht] Hl. destruct (decide (d = i)) as [->|Hne].
  - destruct create_at as (n' & Hn' & ->). rewrite Hn' in Hn. injection Hn as <-. cbn in Ht.
    exists p, []. rewrite app_nil_r. unfold created_node. cbn. by rewrite Ht.
  - unfold created, put in Hn. destruct Hslot as (Hdp & Hj & _). destruct (decide (d = p)) as [->|Hdp'].
    + rewrite lookup_insert_eq in Hn. injection Hn as <-. cbn in Hl. destruct (t_dots _ _ T p np Hdp Hl) as (q & rest & E).
      cbn [nd_entries set_entries]. rewrite E in *. unfold put_list. cbn in Hj. exists q. destruct (decide _) as [Ej|Ej].
      * exists (rest ++ [created_entry]). done.
      * exists (<[(j - 2)%nat := created_entry]> rest). destruct j as [|[|j']]; [lia|lia|]. cbn. by rewrite Nat.sub_0_r.
    + rewrite !lookup_insert_ne in Hn by done. apply (t_dots _ _ T d n); [by split|done].
Qed.
Lemma create_name d k en : live_dir created d -> used created d k en -> de_offset en = slot_offset k /\ de_name en <> "." /\ de_name en <> ".." /\
  Z.of_nat (String.length (de_name en)) <= ORCHFS_CORE_DIRENT_NAME_MAX.
Proof.
  intros Hl Hu. apply create_used in Hu as [Hne [Hu|(-> & -> & ->)]].
  - apply create_live in Hl as [Hl|[? _]]; [|done]. by apply (t_name _ _ T d k en).
  - destruct Hname as (A & B & C). done.
Qed.
Lemma create_unique d k k' en en' : live_dir created d -> used created d k en -> used created d k' en' -> de_name en = de_name en' -> k = k'.
Proof.
  intros Hl [Hne Hu]%create_used [_ Hu']%create_used Hnm. apply create_live in Hl as [Hl|[? _]]; [|done].
  destruct Hu as [Hu|(-> & -> & ->)], Hu' as [Hu'|(E & -> & ->)].
  - by eapply (t_unique _ _ T).
  - subst d. destruct Hu as [Hu _]. exfalso. by apply (Hnew k en Hu).
  - destruct Hu' as [Hu' _]. exfalso. by apply (Hnew k' en' Hu').
  - done.
Qed.
Lemma create_target d k en : linked created d -> used created d k en ->
  linked created (de_inode en) /\ de_inode en <> root /\ exists n, created !! de_inode en = Some n /\ nd_type n = de_type en.
Proof.
  destruct (t_root _ _ T) as [Hroot _]. intros Hd [Hne Hu]%create_used. apply linked_back in Hd; [|done]. destruct Hu as [Hu|(-> & -> & ->)].
  - destruct (t_target _ _ T d k en Hd Hu) as (H1 & H2 & n & Hn & Ht). split; [by apply linked_mono|]. split; [done|].
    pose proof (create_attr (de_inode en) (linked_ne _ H1)) as Ha. rewrite Hn in Ha. destruct (created !! de_inode en) as [n'|]; [|done].
    exists n'. split; [done|]. cbn in Ha. unfold attr in Ha. injection Ha as Ea _ _. congruence.
  - cbn. split; [apply create_linked; by right|]. split; [intros E; apply not_linked_new; by rewrite E|].
    destruct create_at as (n & Hn & ->). by exists created_node.
Qed.
Lemma create_once d d' k k' en en' : linked created d -> linked created d' -> used created d k en -> used created d' k' en' ->
  de_inode en = de_inode en' -> d = d' /\ k = k'.
Proof.
  intros Hd Hd' [Hne Hu]%create_used [Hne' Hu']%create_used E. apply linked_back in Hd, Hd'; try done.
  destruct Hu as [Hu|(-> & -> & ->)], Hu' as [Hu'|(E1 & -> & ->)].
  - by apply (t_once _ _ T d d' k k' en en').
  - exfalso. destruct (t_target _ _ T d k en Hd Hu) as (H1 & _). rewrite E in H1. by apply not_linked_new.
  - exfalso. destruct (t_target _ _ T d' k' en' Hd' Hu') as (H1 & _). rewrite <-E in H1. by apply not_linked_new.
  - done.
Qed.
Lemma create_found x : linked created x -> x <> root -> exists d k en, linked created d /\ used created d k en /\ de_inode en = x.
Proof.
  intros Hx Hxr. destruct (decide (x = i)) as [->|Hne].
  - exists p, j, created_entry. split; [by apply linked_mono|]. split; [|done]. split; [|destruct Hslot as (_ & ? & _); lia].
    apply create_ent; [apply create_ne|]. by right.
  - apply linked_back in Hx; [|done]. destruct (t_found _ _ T x Hx Hxr) as (d & k & en & Hd & Hu & E). exists d, k, en.
    split; [by apply linked_mono|]. split; [apply used_create; [by apply linked_ne|done]|done].
Qed.
Lemma create_orphan d n k en : dir_node created d n -> nd_live n = true -> nd_orphan n = true -> ~ used created d k en.
Proof.
  intros [Hn Ht] Hl Ho Hu. apply create_used in Hu as [Hne Hu]. pose proof (create_attr d Hne) as Ha. rewrite Hn in Ha.
  destruct (m !! d) as [n'|] eqn:E; [|done]. cbn in Ha. unfold attr in Ha. injection Ha as Ea Eb Ec. destruct Hu as [Hu|(-> & _ & _)].
  - apply (t_orphan_empty _ _ T d n' k en); [split; congruence|congruence|congruence|done].
  - destruct Hp as (n'' & Hn'' & _ & Ho''). congruence.
Qed.
Lemma create_tree : tree created root.
Proof.
  destruct (t_root _ _ T) as [Hroot Hrd]. split.
  - apply create_bound.
  - split; [by apply linked_mono|]. apply create_live. by left.
  - apply create_dots.
  - apply create_name.
  - apply create_unique.
  - apply create_target.
  - apply create_once.
  - apply create_found.
  - intros d k en Hd [Hne Hu]%create_used Ht. apply linked_back in Hd; [|done]. destruct Hu as [Hu|(-> & -> & ->)].
    + apply create_dotdot; [|by eapply (t_parent _ _ T)]. apply linked_ne. by apply (t_target _ _ T d k en).
    + by apply create_dotdot_new.
  - apply create_dotdot; [by apply linked_ne|apply T].
  - apply create_orphan.
  - intros d Hd Hl. destruct (decide (d = i)) as [->|Hne].
    + apply create_live in Hl as [Hl|[_ Ht]]; [by apply not_live_new in Hl|]. eapply rtc_l; [by apply create_dotdot_new|].
      destruct Hslot as (Hdn & _). pose proof (linked_live m p np Hp Hdn). apply create_reach; [done|done|by apply (t_reach _ _ T)].
    + apply linked_back in Hd; [|done]. apply create_live in Hl as [Hl|[? _]]; [|done]. apply create_reach; [done|done|by apply (t_reach _ _ T)].
Qed.
End create.

(** *** Removing and moving entries *)

(** [R] are the slots that are cleared or overwritten, [N] is the entry that is
    written, [g] the inode that is freed or becomes an orphan. *)
Record relink (m m' : inodes) (root : Z) (R : Z -> nat -> Prop) (N : option (Z * nat * orchfs_core_dirent)) (g : option Z) : Prop := {
  rl_attr : forall x, g <> Some x -> attr <$> m' !! x = attr <$> m !! x;
  rl_gone : forall x n', g = Some x -> m' !! x = Some n' -> exists n, m !! x = Some n /\ nd_type n' = nd_type n /\
    (nd_live n' = true -> nd_live n = true);
  rl_unlinked : forall x, g = Some x -> ~ linked m' x;
  rl_used : forall d k en, used m' d k en <-> (used m d k en /\ ~ R d k) \/ N = Some (d, k, en);
  rl_dots : forall d n', dir_node m' d n' -> nd_live n' = true -> exists p rest, nd_entries n' = dot_entries d p ++ rest;
  rl_dotdot : forall d q, (forall pd jd en, N = Some (pd, jd, en) -> de_type en = ORCHFS_CORE_DIRECTORY -> de_inode en <> d) ->
    dotdot_of m d q -> dotdot_of m' d q;
  rl_moved : forall pd jd en, N = Some (pd, jd, en) -> de_type en = ORCHFS_CORE_DIRECTORY -> dotdot_of m' (de_inode en) pd;
  rl_cleared : forall d k en, linked m d -> used m d k en -> R d k ->
    g = Some (de_inode en) \/ exists pd jd en', N = Some (pd, jd, en') /\ de_inode en' = de_inode en;
  rl_empty : forall x k en, g = Some x -> x <> root /\ ~ used m x k en /\
    forall d j en', linked m d -> used m d j en' -> de_inode en' = x -> R d j;
  rl_new : forall pd jd en, N = Some (pd, jd, en) -> linked m pd /\ live_dir m pd /\ g <> Some pd /\ (2 <= jd)%nat /\
    de_offset en = slot_offset jd /\ name_ok (de_name en) /\ linked m (de_inode en) /\ de_inode en <> root /\ g <> Some (de_inode en) /\
    (exists n, m !! de_inode en = Some n /\ nd_type n = de_type en) /\
    (forall d j en', linked m d -> used m d j en' -> de_inode en' = de_inode en -> R d j) /\
    (forall k en', used m pd k en' -> ~ R pd k -> de_name en' <> de_name en) /\
    (forall en', used m pd jd en' -> R pd jd) /\
    (de_type en = ORCHFS_CORE_DIRECTORY -> ~ rtc (dotdot_of m) pd (de_inode en));
}.

Section relink_tree.
Context (m m' : inodes) (root : Z) (R : Z -> nat -> Prop) (N : option (Z * nat * orchfs_core_dirent)) (g : option Z).
Context (T : tree m root) (L : relink m m' root R N g).

Lemma relink_linked x : linked m' x <-> linked m x /\ g <> Some x.
Proof.
  split.
  - intros Hx. assert (g <> Some x) as Hg by (intros E; by apply (rl_unlinked _ _ _ _ _ _ L x E)). split; [|done].
    eapply linked_attr; [|done]. by apply (rl_attr _ _ _ _ _ _ L).
  - intros [Hx Hg]. eapply linked_attr; [|done]. symmetry. by apply (rl_attr _ _ _ _ _ _ L).
Qed.
Lemma relink_live x : live_dir m' x -> live_dir m x.
Proof.
  intros Hx. destruct (decide (g = Some x)) as [E|E].
  - destruct Hx as (n' & [Hn' Ht] & Hl). destruct (rl_gone _ _ _ _ _ _ L x n' E Hn') as (n & Hn & Et & Hlive).
    exists n. split; [split; [done|congruence]|by apply Hlive].
  - eapply live_dir_attr; [|done]. by apply (rl_attr _ _ _ _ _ _ L).
Qed.
Lemma relink_type x n : m !! x = Some n -> linked m' x -> exists n', m' !! x = Some n' /\ nd_type n' = nd_type n.
Proof.
  intros Hn [_ Hg]%relink_linked. pose proof (rl_attr _ _ _ _ _ _ L x Hg) as Ha. rewrite Hn in Ha. destruct (m' !! x) as [n'|]; [|done].
  exists n'. cbn in Ha. unfold attr in Ha. injection Ha as -> _ _. done.
Qed.
Lemma relink_name d j en : live_dir m' d -> used m' d j en -> de_offset en = slot_offset j /\ de_name en <> "." /\ de_name en <> ".." /\
  Z.of_nat (String.length (de_name en)) <= ORCHFS_CORE_DIRENT_NAME_MAX.
Proof.
  intros Hl [[Hu _]|E]%(rl_used _ _ _ _ _ _ L); [by apply (t_name _ _ T d); [apply relink_live|]|].
  destruct (rl_new _ _ _ _ _ _ L d j en E) as (_ & _ & _ & _ & Ho & (A & B & C) & _). done.
Qed.
Lemma relink_unique d j k en en' : live_dir m' d -> used m' d j en -> used m' d k en' -> de_name en = de_name en' -> j = k.
Proof.
  intros Hl%relink_live [[Hu Hr]|E]%(rl_used _ _ _ _ _ _ L) [[Hu' Hr']|E']%(rl_used _ _ _ _ _ _ L) Hn.
  - by eapply (t_unique _ _ T).
  - exfalso. apply (rl_new _ _ _ _ _ _ L) in E' as (_ & _ & _ & _ & _ & _ & _ & _ & _ & _ & _ & H & _). by apply (H j en).
  - exfalso. apply (rl_new _ _ _ _ _ _ L) in E as (_ & _ & _ & _ & _ & _ & _ & _ & _ & _ & _ & H & _). by apply (H k en').
  - congruence.
Qed.
Lemma relink_target d j en : linked m' d -> used m' d j en ->
  linked m' (de_inode en) /\ de_inode en <> root /\ exists n, m' !! de_inode en = Some n /\ nd_type n = de_type en.
Proof.
  intros [Hd Hg]%relink_linked Hu. assert (linked m (de_inode en) /\ g <> Some (de_inode en) /\ de_inode en <> root /\
    exists n, m !! de_inode en = Some n /\ nd_type n = de_type en) as (H1 & H2 & H3 & n & Hn & Ht).
  { apply (rl_used _ _ _ _ _ _ L) in Hu as [[Hu Hr]|E].
    - destruct (t_target _ _ T d j en Hd Hu) as (A & B & C). split; [done|]. split; [|done]. intros E.
      destruct (rl_empty _ _ _ _ _ _ L _ j en E) as (_ & _ & H). by apply Hr, (H d j en).
    - destruct (rl_new _ _ _ _ _ _ L d j en E) as (_ & _ & _ & _ & _ & _ & A & B & C & D & _). done. }
  assert (linked m' (de_inode en)) as Hl by (apply relink_linked; done). split; [done|]. split; [done|].
  destruct (relink_type _ n Hn Hl) as (n' & Hn' & Et). exists n'. split; [done|congruence].
Qed.
Lemma relink_once d d' j j' en en' : linked m' d -> linked m' d' -> used m' d j en -> used m' d' j' en' ->
  de_inode en = de_inode en' -> d = d' /\ j = j'.
Proof.
  intros [Hd _]%relink_linked [Hd' _]%relink_linked [[Hu Hr]|E]%(rl_used _ _ _ _ _ _ L) [[Hu' Hr']|E']%(rl_used _ _ _ _ _ _ L) Hi.
  - by apply (t_once _ _ T d d' j j' en en').
  - exfalso. apply (rl_new _ _ _ _ _ _ L) in E' as (_ & _ & _ & _ & _ & _ & _ & _ & _ & _ & H & _). by apply Hr, (H d j en).
  - exfalso. apply (rl_new _ _ _ _ _ _ L) in E as (_ & _ & _ & _ & _ & _ & _ & _ & _ & _ & H & _). by apply Hr', (H d' j' en').
  - rewrite E in E'. by injection E' as -> -> _.
Qed.
Lemma relink_found x : linked m' x -> x <> root -> exists d j en, linked m' d /\ used m' d j en /\ de_inode en = x.
Proof.
  intros [Hx Hg]%relink_linked Hr. destruct (t_found _ _ T x Hx Hr) as (d & j & en & Hd & Hu & E).
  assert (N = None \/ exists pd jd en', N = Some (pd, jd, en')) as HN by (destruct N as [[[? ?] ?]|]; eauto 10).
  assert ((exists pd jd en', N = Some (pd, jd, en') /\ de_inode en' = x) \/ ~ R d j) as [(pd & jd & en' & EN & Ei)|HR].
  { destruct HN as [EN|(pd & jd & en' & EN)].
    - right. intros H. destruct (rl_cleared _ _ _ _ _ _ L d j en Hd Hu H) as [Eg|(? & ? & ? & ? & _)]; congruence.
    - destruct (decide (de_inode en' = x)); [left; eauto 10|]. right. intros H.
      destruct (rl_cleared _ _ _ _ _ _ L d j en Hd Hu H) as [Eg|(? & ? & ? & E1 & E2)]; congruence. }
  - destruct (rl_new _ _ _ _ _ _ L pd jd en' EN) as (A & _ & B & _). exists pd, jd, en'. split; [by apply relink_linked|].
    split; [|done]. apply (rl_used _ _ _ _ _ _ L). by right.
  - exists d, j, en. split; [|split; [apply (rl_used _ _ _ _ _ _ L); by left|done]]. apply relink_linked. split; [done|].
    intros Eg. destruct (rl_empty _ _ _ _ _ _ L d j en Eg) as (_ & He & _). done.
Qed.

(** The directory that moves, if one does. *)
Lemma moved_dec d : (exists pd jd en, N = Some (pd, jd, en) /\ de_type en = ORCHFS_CORE_DIRECTORY /\ de_inode en = d) \/
  (forall pd jd en, N = Some (pd, jd, en) -> de_type en = ORCHFS_CORE_DIRECTORY -> de_inode en <> d).
Proof.
  destruct N as [[[pd jd] en]|]; [|right; by intros]. destruct (decide (de_type en = ORCHFS_CORE_DIRECTORY)), (decide (de_inode en = d)).
  - left. eauto 10.
  - right. intros ? ? ? [= <- <- <-]. done.
  - right. intros ? ? ? [= <- <- <-]. done.
  - right. intros ? ? ? [= <- <- <-]. done.
Qed.
Lemma relink_parent d j en : linked m' d -> used m' d j en -> de_type en = ORCHFS_CORE_DIRECTORY -> dotdot_of m' (de_inode en) d.
Proof.
  intros [Hd _]%relink_linked Hu Ht. apply (rl_used _ _ _ _ _ _ L) in Hu as [[Hu Hr]|E].
  - apply (rl_dotdot _ _ _ _ _ _ L); [|by eapply (t_parent _ _ T)]. intros pd jd en' EN _ Ei.
    destruct (rl_new _ _ _ _ _ _ L pd jd en' EN) as (_ & _ & _ & _ & _ & _ & _ & _ & _ & _ & H & _). by apply Hr, (H d j en).
  - by apply (rl_moved _ _ _ _ _ _ L d j en).
Qed.
(** A chain of parents that does not meet the moved directory is kept. *)
Lemma chain_kept x z : rtc (dotdot_of m) x z ->
  (forall y pd jd en, rtc (dotdot_of m) x y -> N = Some (pd, jd, en) -> de_type en = ORCHFS_CORE_DIRECTORY -> de_inode en <> y) ->
  rtc (dotdot_of m') x z.
Proof.
  induction 1 as [x|x y z Hxy H IH]; intros Ha; [done|]. eapply rtc_l.
  - apply (rl_dotdot _ _ _ _ _ _ L); [|done]. intros pd jd en EN Ht. by apply (Ha x pd jd en).
  - apply IH. intros w pd jd en Hw. apply Ha. by eapply rtc_l.
Qed.
Lemma relink_reach_from x z : rtc (dotdot_of m) x z -> z = root -> linked m x -> live_dir m x -> rtc (dotdot_of m') x root.
Proof.
  induction 1 as [x|x y z Hxy H IH]; intros Hz Hx Hl; [by subst|]. destruct (moved_dec x) as [(pd & jd & en & EN & Ht & Ei)|Hne].
  - destruct (rl_new _ _ _ _ _ _ L pd jd en EN) as (A & B & _ & _ & _ & _ & _ & _ & _ & _ & _ & _ & _ & Hc). subst x.
    eapply rtc_l; [by apply (rl_moved _ _ _ _ _ _ L pd jd en)|]. apply chain_kept; [by apply (t_reach _ _ T)|].
    intros w pd' jd' en' Hw EN' Ht'. rewrite EN in EN'. injection EN' as <- <- <-. intros <-. by apply Hc.
  - destruct (dotdot_linked m root T x y Hx Hl Hxy) as (Hy & n & Hn). eapply rtc_l; [by apply (rl_dotdot _ _ _ _ _ _ L)|].
    apply IH; [done|done|]. by eapply linked_live.
Qed.
Lemma relink_tree : tree m' root.
Proof.
  destruct (t_root _ _ T) as [Hroot Hrd]. assert (g <> Some root) as Hgr.
  { intros E. destruct (rl_empty _ _ _ _ _ _ L root 0%nat no_dirent E) as [? _]. done. }
  split.
  - intros x n' Hx. destruct (decide (g = Some x)) as [E|E].
    + destruct (rl_gone _ _ _ _ _ _ L x n' E Hx) as (n & Hn & Et & _). rewrite Et. by apply (t_bound _ _ T).
    + pose proof (rl_attr _ _ _ _ _ _ L x E) as Ha. rewrite Hx in Ha. destruct (m !! x) as [n|] eqn:En; [|done]. cbn in Ha. unfold attr in Ha.
      injection Ha as -> _ _. by apply (t_bound _ _ T x n).
  - split; [by apply relink_linked|]. eapply live_dir_attr; [|exact Hrd]. symmetry. by apply (rl_attr _ _ _ _ _ _ L).
  - apply L.
  - apply relink_name.
  - apply relink_unique.
  - apply relink_target.
  - apply relink_once.
  - apply relink_found.
  - apply relink_parent.
  - apply (rl_dotdot _ _ _ _ _ _ L); [|apply T]. intros pd jd en EN _ Ei.
    destruct (rl_new _ _ _ _ _ _ L pd jd en EN) as (_ & _ & _ & _ & _ & _ & _ & H & _). done.
  - intros d n' k en [Hn' Ht] Hl Ho Hu. apply (rl_used _ _ _ _ _ _ L) in Hu. destruct (decide (g = Some d)) as [E|E].
    + destruct Hu as [[Hu _]|EN]; [by apply (rl_empty _ _ _ _ _ _ L d k en E)|].
      destruct (rl_new _ _ _ _ _ _ L d k en EN) as (_ & _ & H & _). done.
    + pose proof (rl_attr _ _ _ _ _ _ L d E) as Ha. rewrite Hn' in Ha. destruct (m !! d) as [n|] eqn:En; [|done]. cbn in Ha. unfold attr in Ha.
      injection Ha as E1 E2 E3. destruct Hu as [[Hu _]|EN].
      * apply (t_orphan_empty _ _ T d n k en); [split; congruence|congruence|congruence|done].
      * destruct (rl_new _ _ _ _ _ _ L d k en EN) as ((n'' & Hn'' & _ & Ho'') & _). congruence.
  - intros d [Hd _]%relink_linked Hl%relink_live. eapply relink_reach_from; [by apply (t_reach _ _ T)|done|done|done].
Qed.
End relink_tree.

(** *** The staged maps *)

Definition unlink_node (defer : bool) (n : node) : node := if defer then set_node_orphan true n else free_node n.
(** One written entry. *)
Definition wrote (m : inodes) (d : Z) (j : nat) (en : orchfs_core_dirent) (m' : inodes) : Prop :=
  exists n, dir_node m d n /\ (j <= length (nd_entries n))%nat /\ m' = put m d n j en.

Lemma slot_offset_div j : Z.to_nat (slot_offset j / ORCHFS_CORE_DIRENT_SIZE) = j.
Proof. unfold slot_offset, ORCHFS_CORE_DIRENT_SIZE. rewrite Z.div_mul by lia. lia. Qed.
Lemma write_entry_inv e m d j en m' : write_directory_entry e m d (slot_offset j) en = inr m' -> wrote m d j en m'.
Proof.
  unfold write_directory_entry. destruct (orchfs_core_snapshot m d) as [|n] eqn:Es; [done|]. apply snapshot_inv in Es.
  destruct (Z.eqb_spec (nd_type n) ORCHFS_CORE_DIRECTORY) as [Ht|]; [|done]. cbn [negb]. destruct (Z.ltb_spec (node_size n) (slot_offset j)) as [|Hle]; [done|].
  destruct (negb _); [done|]. intros [= <-]. exists n. split; [by split|]. split; [|by rewrite slot_offset_div].
  unfold node_size, slot_offset in Hle. rewrite Ht, Z.eqb_refl in Hle. unfold ORCHFS_CORE_DIRENT_SIZE in Hle. lia.
Qed.
Lemma wrote_attr m d j en m' i : wrote m d j en m' -> attr <$> m' !! i = attr <$> m !! i.
Proof. intros (n & [Hn _] & _ & ->). by apply put_attr. Qed.
Lemma wrote_ent m d j en m' d' k en' : wrote m d j en m' ->
  ent m' d' k en' <-> if decide (d' = d /\ k = j) then en' = en /\ de_type en <> 0 else ent m d' k en'.
Proof. intros (n & Hn & Hj & ->). by apply put_ent. Qed.
Lemma unlink_ent m i n defer d k en : m !! i = Some n -> ent (<[i := unlink_node defer n]> m) d k en <-> ent m d k en.
Proof.
  intros Hn. unfold ent, dir_node. destruct (decide (d = i)) as [->|Hd]; [|by rewrite lookup_insert_ne]. rewrite lookup_insert_eq, Hn. split.
  - intros (n' & [[= <-] Ht] & He). exists n. destruct defer; cbn in *; tauto.
  - intros (n' & [[= <-] Ht] & He). exists (unlink_node defer n). destruct defer; cbn in *; tauto.
Qed.
Lemma unlink_unlinked (m : inodes) i n defer : m !! i = Some (unlink_node defer n) -> ~ linked m i.
Proof. intros H (n' & Hn' & Hl & Ho). rewrite H in Hn'. injection Hn' as <-. by destruct defer. Qed.
Lemma dots_of_ent m d n p : dir_node m d n -> ent m d 0 (mk_dirent d 0 ORCHFS_CORE_DIRECTORY ".") ->
  ent m d 1 (mk_dirent p ORCHFS_CORE_DIRENT_SIZE ORCHFS_CORE_DIRECTORY "..") -> exists p rest, nd_entries n = dot_entries d p ++ rest.
Proof.
  intros [Hn _] (n0 & [H0 _] & E0 & _) (n1 & [H1 _] & E1 & _). assert (n0 = n) as -> by congruence. assert (n1 = n) as -> by congruence.
  exists p. destruct (nd_entries n) as [|a [|b rest]]; cbn in E0, E1; try done. injection E0 as ->. injection E1 as ->. by exists rest.
Qed.
Lemma dots_ent m root d : tree m root -> live_dir m d -> ent m d 0 (mk_dirent d 0 ORCHFS_CORE_DIRECTORY ".") /\
  exists p, ent m d 1 (mk_dirent p ORCHFS_CORE_DIRENT_SIZE ORCHFS_CORE_DIRECTORY "..").
Proof.
  intros T Hl. destruct (live_dir_ent m root T d Hl) as (n & p & rest & Hn & Ht & _ & E). split; [|exists p]; exists n; rewrite E; by repeat split.
Qed.

(** Taking an inode out of the tree. *)
Section remove.
Context (m : inodes) (root : Z) (T : tree m root) (p i : Z) (j : nat) (en : orchfs_core_dirent) (ni : node) (defer : bool) (m' : inodes).
Hypothesis Hp : linked m p.
Hypothesis Hu : used m p j en.
Hypothesis Hi : de_inode en = i.
Hypothesis Hempty : forall k en', ~ used m i k en'.
Hypothesis Hni : m !! i = Some ni.
Hypothesis Hattr : forall x, x <> i -> attr <$> m' !! x = attr <$> m !! x.
Hypothesis Hgone : exists n', m' !! i = Some n' /\ attr n' = attr (unlink_node defer ni).
Hypothesis Hent : forall d k en', ent m' d k en' <-> ent m d k en' /\ ~ (d = p /\ k = j).

Lemma remove_relink : relink m m' root (fun d k => d = p /\ k = j) None (Some i).
Proof.
  destruct (t_target _ _ T p j en Hp Hu) as (Hl & Hr & _). rewrite Hi in Hl, Hr. destruct Hgone as (n' & Hn' & Ha).
  assert (nd_type n' = nd_type ni /\ (nd_live n' = true -> nd_live ni = true)) as [Ht Hlive].
  { unfold attr in Ha. destruct defer; injection Ha as -> -> _; cbn; done. }
  assert (Hj : (2 <= j)%nat) by apply Hu.
  split; try done.
  - intros x Hx. apply Hattr. congruence.
  - intros x nx [= <-] Hx. exists ni. assert (nx = n') as -> by congruence. done.
  - intros x [= <-] (nx & Hx & Hlx & Hox). assert (nx = n') as -> by congruence. unfold attr in Ha. destruct defer; injection Ha as _ E1 E2; cbn in *; congruence.
  - intros d k en'. unfold used. rewrite Hent. naive_solver.
  - intros d nd Hd Hld. assert (live_dir m d) as Hlm.
    { destruct (decide (d = i)) as [->|Hdi].
      - exists ni. destruct Hd as [Hd Htd]. assert (nd = n') as -> by congruence. split; [split; [done|congruence]|by apply Hlive].
      - eapply live_dir_attr; [by apply Hattr|]. by exists nd. }
    destruct (dots_ent m root d T Hlm) as (E0 & q & E1). eapply dots_of_ent; [done|apply Hent; split; [done|lia]|apply Hent; split; [exact E1|lia]].
  - intros d q _. apply dotdot_ent. intros en' He. apply Hent. split; [done|lia].
  - intros d k en' Hd Hu' [-> ->]. left. destruct Hu as [He _], Hu' as [He' _]. rewrite (ent_fun _ _ _ _ _ He' He). congruence.
  - intros x k en' [= <-]. split; [done|]. split; [apply Hempty|]. intros d k' en'' Hd Hu' E'. by apply (t_once _ _ T d p k' j en'' en); [..|congruence].
Qed.
End remove.

Lemma stage_remove_spec e m root p i j en ni defer m' : m !! i = Some ni -> de_inode en = i ->
  stage_remove e m root (mk_ns_entry i ni p (slot_offset j) en) defer = inr m' ->
  (forall x, x <> i -> attr <$> m' !! x = attr <$> m !! x) /\
  (exists n', m' !! i = Some n' /\ attr n' = attr (unlink_node defer ni)) /\
  (forall d k en', ent m' d k en' <-> ent m d k en' /\ ~ (d = p /\ k = j)).
Proof.
  intros Hi Ei. unfold stage_remove. cbn [ne_inode ne_parent ne_offset ne_entry]. destruct defer.
  - unfold orchfs_core_set_orphan. destruct (i <? 0); [done|]. rewrite Hi. destruct (negb (e_orphan e =? 0)); [done|].
    destruct (write_directory_entry _ _ _ _ _) as [|m1] eqn:Ew; [done|]. intros [= <-]. apply write_entry_inv in Ew. split_and!.
    + intros x Hx. by rewrite (wrote_attr _ _ _ _ _ x Ew), lookup_insert_ne.
    + pose proof (wrote_attr _ _ _ _ _ i Ew) as Ha. rewrite lookup_insert_eq in Ha. destruct (m1 !! i) as [n'|]; [|done]. exists n'. split; [done|].
      by apply (inj Some) in Ha.
    + intros d k en'. rewrite (wrote_ent _ _ _ _ _ d k en' Ew). change (set_node_orphan true ni) with (unlink_node true ni).
      destruct (decide _) as [Hc|Hc]; [cbn; tauto|rewrite unlink_ent by done; tauto].
  - destruct (write_directory_entry _ _ _ _ _) as [|m1] eqn:Ew; [done|]. apply write_entry_inv in Ew. unfold orchfs_core_delete_inode.
    destruct (_ || _); [done|]. destruct (m1 !! i) as [n1|] eqn:E1; [|done]. destruct (negb (e_delete e =? 0)); [done|]. intros [= <-].
    pose proof (wrote_attr _ _ _ _ _ i Ew) as Ha. rewrite E1, Hi in Ha. cbn in Ha. unfold attr in Ha. injection Ha as Ea Eb Ec. split_and!.
    + intros x Hx. by rewrite lookup_insert_ne, (wrote_attr _ _ _ _ _ x Ew).
    + exists (free_node n1). rewrite lookup_insert_eq. split; [done|]. unfold attr. cbn. congruence.
    + intros d k en'. change (free_node n1) with (unlink_node false n1). rewrite unlink_ent by done.
      rewrite (wrote_ent _ _ _ _ _ d k en' Ew). destruct (decide _) as [Hc|Hc]; [cbn; tauto|tauto].
Qed.

(** ** Views of the state *)

Definition view (s : fsystem) : inodes * Z * shards DirectoryIndex * shards InodeState :=
  (fs_nodes s, fs_root s, dentries (fs_coord s), inode_states (fs_coord s)).
Lemma fs_ok_view s s' : view s' = view s -> fs_ok s -> fs_ok s'.
Proof.
  unfold view. intros [= E1 E2 E3 E4] [T C R]. split; unfold cache_ok, refs_ok in *; rewrite ?E1, ?E2, ?E3, ?E4; done.
Qed.
Lemma publish_view e s i n : view (publish e s i n) = view s.
Proof.
  unfold publish, publish_snapshot. destruct (i <? 0); [by destruct s|]. destruct (sh_find _ _); [done|]. by destruct (e_memory e _); destruct s.
Qed.
Lemma publish_now_view e s i : view (publish_now e s i) = view s.
Proof. unfold publish_now. destruct (orchfs_core_snapshot _ _); [done|apply publish_view]. Qed.
Lemma forget_view s i : 0 <= i -> view (forget s i) = (fs_nodes s, fs_root s, sh_erase i (dentries (fs_coord s)), inode_states (fs_coord s)).
Proof. intros Hi. unfold forget, erase_directory, erase_snapshot. by rewrite (proj2 (Z.ltb_ge _ _)) by done. Qed.
Lemma view_nodes s v : view s = v -> fs_nodes s = v.1.1.1 /\ fs_root s = v.1.1.2 /\ dentries (fs_coord s) = v.1.2 /\ inode_states (fs_coord s) = v.2.
Proof. by intros <-. Qed.

(** The parts of the invariant over the parts of the state. *)
Definition refs_of (m : inodes) (t : shards InodeState) : Prop :=
  (forall i st, 0 <= i -> sh_find i t = Some st -> 1 <= open_references st /\
     exists n, m !! i = Some n /\ nd_live n = true /\ nd_orphan n = orphaned st) /\
  (forall i n, m !! i = Some n -> nd_live n = true -> nd_orphan n = true -> exists st, sh_find i t = Some st).
Lemma fs_ok_parts s m r t u : view s = (m, r, t, u) -> tree m r -> cache_of m t -> refs_of m u -> fs_ok s.
Proof. intros (E1 & E2 & E3 & E4)%view_nodes T C R. cbn in *. subst. by split. Qed.
Lemma fs_parts s m r t u : view s = (m, r, t, u) -> fs_ok s -> tree m r /\ cache_of m t /\ refs_of m u.
Proof. intros (E1 & E2 & E3 & E4)%view_nodes [T C R]. cbn in *. subst. done. Qed.

Lemma index_ext m m' d index : (forall k en, ent m' d k en <-> ent m d k en) -> live_dir m' d -> index_ok m d index -> index_ok m' d index.
Proof.
  intros He Hl (_ & H1 & H2). split; [done|]. split.
  - intros nm dn H. destruct (H1 nm dn H) as (j & en & Hj & R). exists j, en. split; [by apply He|done].
  - intros Hc j en Hj. apply (H2 Hc j). by apply He.
Qed.

(** ** Removal *)

Lemma erase_dentry_only p name c : 0 <= p -> only_dentries p c (erase_dentry p name c).
Proof.
  intros H0. unfold erase_dentry. rewrite (proj2 (Z.ltb_ge _ _)) by done. destruct (sh_find p (dentries c)); [|apply only_dentries_refl].
  destruct (_ && _); [apply erase_only|apply insert_only].
Qed.
Lemma erase_dentry_index p name c index' : 0 <= p -> sh_find p (dentries (erase_dentry p name c)) = Some index' ->
  exists index, sh_find p (dentries c) = Some index /\ names index' = delete name (names index) /\ complete index' = complete index.
Proof.
  intros H0. unfold erase_dentry. rewrite (proj2 (Z.ltb_ge _ _)) by done. destruct (sh_find p (dentries c)) as [index|] eqn:Ef; [|congruence].
  destruct (_ && _); cbn [set_dentries dentries]; [rewrite sh_find_erase, decide_True by done; done|].
  rewrite sh_find_insert, decide_True by done. intros [= <-]. eauto.
Qed.
Lemma erase_dentry_states p name c : inode_states (erase_dentry p name c) = inode_states c.
Proof. unfold erase_dentry. destruct (p <? 0); [done|]. destruct (sh_find p (dentries c)); [|done]. by destruct (_ && _). Qed.
(** Erasing the cached name of an entry that is gone makes the name right. *)
Lemma erase_dentry_but m X p name c : 0 <= p -> cache_but m X (dentries c) -> (forall j en, ent m p j en -> de_name en <> name) ->
  cache_but m (but X p name) (dentries (erase_dentry p name c)).
Proof.
  intros H0 Hc Hno d index Hd Hf. destruct (erase_dentry_only p name c H0) as (_ & _ & _ & _ & _ & Ho).
  destruct (decide (d = p)) as [->|Hne]; [|rewrite Ho in Hf by done; apply index_but_ne; [done|by apply Hc]].
  destruct (erase_dentry_index p name c index H0 Hf) as (old & Ef & En & Ec). destruct (Hc p old H0 Ef) as (B & C). split.
  - intros nm dn. rewrite En. intros [Hnm Hl]%lookup_delete_Some HX. apply (B nm dn Hl). eapply but_ne; [done|right; congruence].
  - rewrite Ec, En. intros Hcomp k en Hk HX. pose proof (Hno k en Hk) as Hnm. rewrite lookup_delete_ne by congruence.
    apply (C Hcomp k en Hk). eapply but_ne; [done|by right].
Qed.

Definition states_eq (u u' : shards InodeState) : Prop := forall i, sh_find i u' = sh_find i u.
Lemma refs_states_eq m u u' : states_eq u u' -> refs_of m u -> refs_of m u'.
Proof. intros E [H1 H2]. split; [intros i st Hi; rewrite E; by apply H1|]. intros i n A B C. rewrite E. by apply (H2 i n). Qed.

(** The orphan mark of a linked inode: it is set when the inode is open. *)
Lemma mark_orphan_spec m c i ni : refs_of m (inode_states c) -> 0 <= i -> m !! i = Some ni -> nd_orphan ni = false ->
  exists defer c1, mark_orphan_if_open_locked i c = (inr defer, c1) /\ dentries c1 = dentries c /\
    (defer = true <-> is_Some (sh_find i (inode_states c))) /\
    (forall k, k <> i -> sh_find k (inode_states c1) = sh_find k (inode_states c)) /\
    (if defer then exists r, 1 <= r /\ sh_find i (inode_states c) = Some (mk_inode_state r false) /\ sh_find i (inode_states c1) = Some (mk_inode_state r true)
     else c1 = c /\ sh_find i (inode_states c) = None).
Proof.
  intros [H1 _] Hi Hm Ho. unfold mark_orphan_if_open_locked. rewrite (proj2 (Z.ltb_ge _ _)) by done.
  destruct (sh_find i (inode_states c)) as [[r b]|] eqn:Ef.
  - destruct (H1 i _ Hi Ef) as (Hr & n & Hn & _ & Hb). cbn in *. assert (b = false) as -> by congruence.
    rewrite (proj2 (Z.eqb_neq r 0)) by lia. do 2 eexists. split; [done|]. split; [done|]. split; [done|]. cbn [set_inode_states inode_states]. split.
    + intros k Hk. by rewrite sh_find_insert, decide_False.
    + exists r. by rewrite sh_find_insert, decide_True.
  - exists false, c. split; [done|]. split; [done|]. split; [split; [done|by intros []]|]. done.
Qed.
Lemma rollback_spec c i r b : 0 <= i -> sh_find i (inode_states c) = Some (mk_inode_state r b) ->
  dentries (rollback_orphan_locked i c) = dentries c /\
  forall k, sh_find k (inode_states (rollback_orphan_locked i c)) = if decide (k = i) then Some (mk_inode_state r false) else sh_find k (inode_states c).
Proof.
  intros Hi Ef. unfold rollback_orphan_locked. rewrite (proj2 (Z.ltb_ge _ _)) by done. rewrite Ef. split; [done|]. intros k. cbn. apply sh_find_insert.
Qed.

Definition is_open (s : fsystem) (i : Z) : Prop := is_Some (sh_find i (inode_states (fs_coord s))).
(** Slot [j] of [p] is cleared and inode [i] is freed, or made an orphan if it is open. *)
Record unlinked (m m' : inodes) (p : Z) (j : nat) (i : Z) (defer : bool) : Prop := {
  un_attr : forall x, x <> i -> attr <$> m' !! x = attr <$> m !! x;
  un_gone : exists n n', m !! i = Some n /\ m' !! i = Some n' /\ attr n' = attr (unlink_node defer n);
  un_ent : forall d k en, ent m' d k en <-> ent m d k en /\ ~ (d = p /\ k = j);
}.

Lemma unlink_live m m' i ni defer d : (forall x, x <> i -> attr <$> m' !! x = attr <$> m !! x) -> m !! i = Some ni ->
  (exists n', m' !! i = Some n' /\ attr n' = attr (unlink_node defer ni)) -> d <> i \/ defer = true -> live_dir m d -> live_dir m' d.
Proof.
  intros Ha Hi (n' & Hn' & Ea) Hd Hl. destruct (decide (d = i)) as [->|Hne]; [|eapply live_dir_attr; [symmetry; by apply Ha|done]].
  destruct Hd as [| ->]; [done|]. destruct Hl as (n & [Hn Ht] & Hl). assert (n = ni) as -> by congruence. exists n'. unfold attr in Ea. cbn in Ea.
  injection Ea as E1 E2 _. split; [split|]; congruence.
Qed.
Lemma refs_unlink m m' u u' i ni defer : refs_of m u -> m !! i = Some ni -> nd_live ni = true ->
  (forall x, x <> i -> attr <$> m' !! x = attr <$> m !! x) -> (exists n', m' !! i = Some n' /\ attr n' = attr (unlink_node defer ni)) ->
  (forall k, k <> i -> sh_find k u' = sh_find k u) ->
  (if defer then exists r, 1 <= r /\ sh_find i u' = Some (mk_inode_state r true) else sh_find i u' = None) -> refs_of m' u'.
Proof.
  intros [H1 H2] Hi Hl Ha (n' & Hn' & Ea) Hu Hd. split.
  - intros x st Hx Hst. destruct (decide (x = i)) as [->|Hne].
    + destruct defer; [|congruence]. destruct Hd as (r & Hr & Hs). rewrite Hs in Hst. injection Hst as <-. split; [done|]. exists n'.
      unfold attr in Ea. cbn in Ea. injection Ea as _ E1 E2. split; [done|]. cbn. split; congruence.
    + rewrite Hu in Hst by done. destruct (H1 x st Hx Hst) as (Hr & n & Hn & A & B). split; [done|]. specialize (Ha x Hne). rewrite Hn in Ha.
      destruct (m' !! x) as [n1|]; [|done]. exists n1. unfold attr in Ha. cbn in Ha. injection Ha as _ E1 E2. split; [done|]. split; congruence.
  - intros x n Hn A B. destruct (decide (x = i)) as [->|Hne].
    + assert (n = n') as -> by congruence. unfold attr in Ea. destruct defer; cbn in Ea; injection Ea as _ E1 E2; [|congruence].
      destruct Hd as (r & _ & Hs). eauto.
    + rewrite Hu by done. specialize (Ha x Hne). rewrite Hn in Ha. destruct (m !! x) as [n1|] eqn:E; [|done]. unfold attr in Ha. cbn in Ha.
      injection Ha as _ E1 E2. apply (H2 x n1 E); congruence.
Qed.

Section remove_commit.
Context (e : env) (s : fsystem) (p i : Z) (j : nat) (en : orchfs_core_dirent) (ni : node) (name : string).
Hypothesis Hok : fs_ok s.
Hypothesis Hp : linked (fs_nodes s) p.
Hypothesis Hu : used (fs_nodes s) p j en.
Hypothesis Hi : de_inode en = i.
Hypothesis Hn : de_name en = name.
Hypothesis Hni : fs_nodes s !! i = Some ni.
Hypothesis Hempty : forall k en', ~ used (fs_nodes s) i k en'.

Lemma remove_success (defer : bool) c1 m' s' : dentries c1 = dentries (fs_coord s) ->
  (forall k, k <> i -> sh_find k (inode_states c1) = sh_find k (inode_states (fs_coord s))) ->
  (if defer then exists r, 1 <= r /\ sh_find i (inode_states c1) = Some (mk_inode_state r true)
   else sh_find i (inode_states c1) = None) ->
  unlinked (fs_nodes s) m' p j i defer ->
  view s' = (m', fs_root s, if defer then dentries (erase_dentry p name c1) else sh_erase i (dentries (erase_dentry p name c1)),
             if defer then inode_states c1 else sh_erase i (inode_states c1)) -> fs_ok s'.
Proof.
  intros Hd Hs Hdef [U1 U2 U3] Hv. destruct Hok as [T C R]. destruct (t_target _ _ T p j en Hp Hu) as (Hl & Hr & _). rewrite Hi in Hl, Hr.
  assert (exists n', m' !! i = Some n' /\ attr n' = attr (unlink_node defer ni)) as U2'.
  { destruct U2 as (n & n' & E1 & E2 & E3). exists n'. split; [done|]. congruence. }
  pose proof (remove_relink (fs_nodes s) (fs_root s) T p i j en ni defer m' Hp Hu Hi Hempty Hni U1 U2' U3) as L.
  pose proof Hu as [He Hj]. assert (i <> p) as Hip by (intros E; rewrite E in Hempty; by apply (Hempty j en)).
  assert (live_dir (fs_nodes s) p) as Hlp by (destruct He as (np & Hnp & _); by eapply linked_live).
  destruct (t_bound _ _ T i ni Hni) as [Hbi _]. assert (0 <= p) as H0 by (destruct Hp as (np & Hnp & _); destruct (t_bound _ _ T p np Hnp); lia).
  apply (fs_ok_parts s' _ _ _ _ Hv); [by apply (relink_tree _ _ _ _ _ _ T L)| |].
  - apply (cache_but_none _ (but (fun d nm => d = p /\ nm = name) p name)); [by intros d nm [? ?]| |].
    + intros d index H1 Hf. assert (d <> i \/ defer = true) as Hdi.
      { destruct defer; [by right|left]. rewrite sh_find_erase in Hf. by destruct (decide (d = i)). }
      assert (live_dir (fs_nodes s) d) as Hld.
      { destruct (decide (d = p)) as [->|Hne]; [done|]. destruct (erase_dentry_only p name c1 H0) as (_ & _ & _ & _ & _ & Ho).
        destruct defer; [|rewrite sh_find_erase in Hf; destruct (decide (d = i)); [done|]]; rewrite Ho, Hd in Hf by done; by apply (C d index H1 Hf). }
      by eapply unlink_live.
    + assert (cache_but m' (but (fun d nm => d = p /\ nm = name) p name) (dentries (erase_dentry p name c1))) as Hc; [|by destruct defer; [|apply cache_but_erase]].
      apply erase_dentry_but; [done| |].
      * rewrite Hd. eapply cache_but_ext; [exact C|]. intros d k en' _ _ HX. rewrite U3. split; [by intros []|]. intros Hk. split; [done|].
        intros [-> ->]. apply HX. by rewrite (ent_fun _ _ _ _ _ Hk He).
      * intros k en' [Hk Hne]%U3 E. apply Hne. split; [done|]. apply (ent_unique _ _ T p k j en' en Hlp Hk He). congruence.
  - destruct Hl as (n0 & En0 & El0 & _). assert (n0 = ni) as -> by congruence.
    eapply (refs_unlink (fs_nodes s) m' (inode_states (fs_coord s)) _ i ni defer); try done.
    + intros k Hk. destruct defer; [by apply Hs|]. rewrite sh_find_erase, decide_False by done. by apply Hs.
    + destruct defer; [done|]. by rewrite sh_find_erase, decide_True.
Qed.

Lemma remove_commit_spec :
  match remove_commit e s name (mk_ns_entry i ni p (slot_offset j) en) with
  | (inl _, s') => fs_ok s' /\ fs_nodes s' = fs_nodes s /\ fs_root s' = fs_root s /\
      dentries (fs_coord s') = dentries (fs_coord s) /\ states_eq (inode_states (fs_coord s)) (inode_states (fs_coord s'))
  | (inr _, s') => fs_ok s' /\ fs_root s' = fs_root s /\
      exists defer : bool, (defer = true <-> is_open s i) /\ unlinked (fs_nodes s) (fs_nodes s') p j i defer
  end.
Proof.
  unfold remove_commit. destruct (negb (e_transaction e =? 0)); [done|]. cbn [ne_inode ne_parent].
  pose proof (ok_tree _ Hok) as T. destruct (t_target _ _ T p j en Hp Hu) as (Hl & _ & _). rewrite Hi in Hl. destruct Hl as (n0 & En0 & _ & Ho).
  assert (n0 = ni) as -> by congruence. destruct (t_bound _ _ T i ni Hni) as [Hbi _].
  destruct (mark_orphan_spec (fs_nodes s) (fs_coord s) i ni (ok_refs _ Hok) ltac:(lia) Hni Ho) as (defer & c1 & -> & Ed & Edef & Ek & Hdef).
  cbn [set_coord fs_nodes fs_root fs_coord]. destruct (stage_remove e (fs_nodes s) (fs_root s) _ defer) as [error|m'] eqn:Est; cbn [with_commit].
  2: destruct (negb (e_commit e =? 0)).
  3: { apply stage_remove_spec in Est as (U1 & U2 & U3); [|done|done]. assert (unlinked (fs_nodes s) m' p j i defer) as U.
       { split; [done| |done]. destruct U2 as (n' & A & B). by exists ni, n'. }
       set (s1 := publish_now _ _ _). assert (fs_nodes s1 = m' /\ fs_root s1 = fs_root s) as [E1 E2].
       { unfold s1. match goal with |- context [publish_now ?a ?b ?c] => destruct (view_nodes _ _ (publish_now_view a b c)) as (E1 & E2 & _) end.
         rewrite E1, E2. by destruct defer. }
       split; [|split; [done|exists defer; split; [done|by rewrite E1]]].
       eapply (remove_success defer c1 m'); [done|done| |done|].
       - destruct defer; [destruct Hdef as (r & A & _ & B); by exists r|]. by destruct Hdef as [-> ?].
       - unfold s1. rewrite publish_now_view. destruct defer; [unfold view; cbn; by rewrite erase_dentry_states|]. rewrite forget_view by lia.
         cbn. unfold erase_inode_state_locked. rewrite (proj2 (Z.ltb_ge i 0)) by lia. cbn. by rewrite erase_dentry_states. }
  all: destruct defer; [|destruct Hdef as [-> _]; rewrite set_coord_id; split; [done|]; split; [done|]; split; [done|]; split; done].
  all: destruct Hdef as (r & Hr & Hs & Hs1); destruct (rollback_spec c1 i r true ltac:(lia) Hs1) as [R1 R2].
  all: assert (states_eq (inode_states (fs_coord s)) (inode_states (rollback_orphan_locked i c1))) as Hse
    by (intros k; rewrite R2; destruct (decide (k = i)) as [->|]; [done|by apply Ek]).
  all: cbn [set_coord fs_nodes fs_root fs_coord]; split; [|split; [done|split; [done|split; [congruence|done]]]].
  all: apply (fs_ok_parts _ (fs_nodes s) (fs_root s) (dentries (fs_coord s)) (inode_states (rollback_orphan_locked i c1)));
    [unfold view; cbn; by rewrite R1, Ed|done|apply Hok|]; eapply refs_states_eq; [exact Hse|apply Hok].
Qed.
End remove_commit.

Lemma find_slot_none e d free l i : find_slot e d free l i = inr None -> forall k en, l !! k = Some en -> (de_type en =? 0) = negb free.
Proof.
  revert i. induction l as [|x l IH]; intros i H k en Hk; [done|]. cbn [find_slot] in H. destruct (negb (e_read e d _ =? 0)); [done|].
  destruct (Bool.eqb _ _) eqn:E; [done|]. destruct k as [|k]; [|by apply (IH (i + 1) H k)]. injection Hk as <-.
  destruct (de_type x =? 0), free; done.
Qed.
Lemma find_slot_some e d free l i offset : find_slot e d free l i = inr (Some offset) ->
  exists k en, l !! k = Some en /\ offset = (i + Z.of_nat k) * ORCHFS_CORE_DIRENT_SIZE /\ (de_type en =? 0) = free.
Proof.
  revert i. induction l as [|x l IH]; intros i H; [done|]. cbn [find_slot] in H. destruct (negb _); [done|].
  destruct (Bool.eqb _ _) eqn:E.
  - injection H as <-. exists 0%nat, x. split; [done|]. split; [f_equal; lia|]. by apply Bool.eqb_prop.
  - destruct (IH (i + 1) H) as (k & en & Hk & -> & Ht). exists (S k), en. split; [done|]. split; [f_equal; lia|done].
Qed.
Lemma directory_empty_spec e m i : directory_empty_locked e m i = inr true -> forall k en, ~ used m i k en.
Proof.
  unfold directory_empty_locked. destruct (orchfs_core_snapshot m i) as [|n] eqn:Es; [done|]. apply snapshot_inv in Es. destruct (negb _); [done|].
  destruct (find_slot e i false (drop 2 (nd_entries n)) 2) as [|[|]] eqn:Ef; try done. intros _ k en [(n' & [Hn' _] & Hk & Ht) H2].
  assert (n' = n) as -> by congruence. pose proof (find_slot_none _ _ _ _ _ Ef (k - 2) en) as H. rewrite lookup_drop in H.
  replace (2 + (k - 2))%nat with k in H by lia. apply Ht. apply Z.eqb_eq. by apply H.
Qed.
Lemma file_empty m i n : m !! i = Some n -> nd_type n <> ORCHFS_CORE_DIRECTORY -> forall k en, ~ used m i k en.
Proof. intros Hn Ht k en [(n' & [Hn' Ht'] & _) _]. congruence. Qed.

(** A name that is not a dot is in a slot after the dots. *)
Lemma child_used m root d name ne : tree m root -> live_dir m d -> name_ok name -> is_child m d name ne ->
  exists j en n, used m d j en /\ de_name en = name /\ m !! de_inode en = Some n /\ ne = mk_ns_entry (de_inode en) n d (slot_offset j) en.
Proof.
  intros T Hl (N1 & N2 & _) (j & en & n & He & Hn & Hm & ->). exists j, en, n. split; [|done].
  destruct (ent_cases m root T d j en Hl He) as [[-> ->]|[[-> (p & -> & _)]|U]]; [by cbn in Hn..|done].
Qed.

(** What removing [name] from [p] has done. *)
Definition removed (s s' : fsystem) (p : Z) (name : string) (type : Z) : Prop :=
  exists j en defer, used (fs_nodes s) p j en /\ de_name en = name /\ de_type en = type /\
    (forall k en', ~ used (fs_nodes s) (de_inode en) k en') /\ (defer = true <-> is_open s (de_inode en)) /\
    unlinked (fs_nodes s) (fs_nodes s') p j (de_inode en) defer.

Lemma remove_child_spec e s p name type expected : fs_ok s -> linked (fs_nodes s) p -> live_dir (fs_nodes s) p -> name_ok name ->
  let r := remove_child_locked e s p name type expected in
  fs_ok r.2 /\ fs_root r.2 = fs_root s /\
  match r.1 with
  | inr _ => removed s r.2 p name type
  | inl error => fs_nodes r.2 = fs_nodes s \/ (removed s r.2 p name type /\ exists i, e_state_unlock e i <> 0 /\ error = e_state_unlock e i)
  end.
Proof.
  intros Hok Hp Hl Hname. destruct Hl as (np & Hnp & Hlive) eqn:EHl. clear EHl. unfold remove_child_locked.
  destruct (find_child_spec e s p np name (ok_tree _ Hok) (ok_cache _ Hok) Hp Hnp) as (r & c1 & -> & Hc & Ho & Hf).
  pose proof (fs_ok_coord s p c1 Hok Hc Ho) as Hok1. set (s1 := set_coord c1 s) in *. destruct r as [error|ne]; [by split_and!; [| |left]|].
  destruct (child_used _ _ _ _ _ (ok_tree _ Hok) Hl Hname Hf) as (j & en & ni & Hu & Hn & Hm & ->). cbn [ne_inode ne_node].
  destruct (match expected with Some i => _ | None => false end); [by split_and!; [| |left]|].
  destruct (de_inode en =? fs_root s1); [by split_and!; [| |left]|].
  destruct (Z.eqb_spec (nd_type ni) type) as [Ht|]; [|by split_and!; [| |left]]. cbn [negb].
  destruct (t_target _ _ (ok_tree _ Hok) p j en Hp Hu) as (_ & _ & n & En & Et). assert (n = ni) as -> by congruence.
  destruct (if type =? ORCHFS_CORE_DIRECTORY then _ else _) as [error|[]] eqn:Ee; [by split_and!; [| |left]| |by split_and!; [| |left]].
  assert (forall k en', ~ used (fs_nodes s) (de_inode en) k en') as Hempty.
  { destruct (Z.eqb_spec type ORCHFS_CORE_DIRECTORY) as [->|Hne]; [by eapply directory_empty_spec|]. eapply file_empty; [done|congruence]. }
  destruct (negb _); [by split_and!; [| |left]|].
  pose proof (remove_commit_spec e s1 p (de_inode en) j en ni name Hok1 Hp Hu eq_refl Hn Hm Hempty) as H.
  destruct (remove_commit e s1 name _) as [[error|[]] s2].
  - destruct H as (A & B & C & _). cbn. split; [done|]. split; [done|]. by left.
  - destruct H as (A & B & defer & D & U). assert (removed s s2 p name type) as Hrem.
    { exists j, en, defer. split; [done|]. split; [done|]. split; [congruence|]. split; [done|]. split; [|done].
      rewrite D. unfold is_open. destruct Ho as (_ & _ & _ & E & _). cbn. by rewrite E. }
    cbn [fold_release]. destruct (Z.eqb_spec (e_state_unlock e (de_inode en)) 0) as [Eu|Eu]; cbn [negb fst snd]; (split; [done|]); (split; [done|]); [done|].
    right. split; [done|]. by exists (de_inode en).
Qed.

(** ** Creation *)

Lemma free_slot_spec e m d n slot : 0 <= d < MAX_INODE_NUM -> dir_node m d n -> (2 <= length (nd_entries n))%nat ->
  free_directory_slot e m d = inr slot -> exists j, slot = slot_offset j /\ free_slot m d n j.
Proof.
  intros Hb [Hm Ht] Hlen. unfold free_directory_slot, orchfs_core_snapshot.
  rewrite (proj2 (Z.ltb_ge d 0)), (proj2 (Z.leb_gt MAX_INODE_NUM d)) by lia. cbn [orb]. rewrite Hm, Ht.
  change (negb (ORCHFS_CORE_DIRECTORY =? ORCHFS_CORE_DIRECTORY)) with false. cbv iota.
  destruct (find_slot e d true _ 2) as [|[offset|]] eqn:Ef; [done|intros [= <-]|intros [= <-]].
  - apply find_slot_some in Ef as (k & en & Hk & -> & Het). rewrite lookup_drop in Hk. exists (2 + k)%nat. split; [unfold slot_offset; f_equal; lia|].
    apply lookup_lt_Some in Hk as Hlt. split; [done|]. split; [lia|]. intros en' (n' & [Hn' _] & Hk' & Hne). assert (n' = n) as -> by congruence.
    apply Hne. apply Z.eqb_eq. congruence.
  - exists (length (nd_entries n)). unfold node_size. rewrite Ht, Z.eqb_refl. split; [done|]. split; [done|]. split; [lia|].
    intros en' (n' & [Hn' _] & Hk' & Hne). assert (n' = n) as -> by congruence. apply lookup_lt_Some in Hk'. lia.
Qed.

Section create_node.
Context (e : env) (s : fsystem) (p : Z) (np : node) (name : string) (type : Z).
Hypothesis Hok : fs_ok s.
Hypothesis Hp : linked (fs_nodes s) p.
Hypothesis Hnp : dir_node (fs_nodes s) p np.
Hypothesis Hname : name_ok name.
Hypothesis Hnew : forall k en, ent (fs_nodes s) p k en -> de_name en <> name.
Hypothesis Htype : type_ok type.
Hypothesis Hfresh : forall i, e_create e = inr i -> fresh (fs_nodes s) i.

Lemma stage_create_spec i slot en m' : stage_create e (fs_nodes s) p name type = inr (i, slot, en, m') ->
  e_create e = inr i /\ exists j, slot = slot_offset j /\ free_slot (fs_nodes s) p np j /\ en = created_entry j name type i /\
    m' = created (fs_nodes s) p np j name type i.
Proof.
  unfold stage_create. destruct (e_create e) as [|i'] eqn:Ei; [done|]. pose proof (Hfresh i' eq_refl) as Hf.
  destruct (_ && negb _); [done|]. pose proof (create_ne (fs_nodes s) p i' Hp Hf) as Hne. pose proof (ok_tree _ Hok) as T.
  destruct (t_bound _ _ T p np) as [Hb _]; [apply Hnp|]. set (m1 := <[i' := _]> (fs_nodes s)).
  assert (dir_node m1 p np) as Hnp1 by (destruct Hnp; split; [|done]; unfold m1; by rewrite lookup_insert_ne).
  assert (2 <= length (nd_entries np))%nat as Hlen.
  { destruct (linked_live _ _ _ Hp Hnp) as (n & Hn & Hl). assert (n = np) as -> by (destruct Hn, Hnp; congruence).
    destruct (t_dots _ _ T p np Hnp Hl) as (q & rest & ->). rewrite length_app. cbn. lia. }
  destruct (free_directory_slot e m1 p) as [|slot'] eqn:Es; [done|].
  destruct (free_slot_spec e m1 p np slot' Hb Hnp1 Hlen Es) as (j & -> & (_ & Hj & Hfree)).
  destruct (write_directory_entry e m1 p (slot_offset j) _) as [|m2] eqn:Ew; [done|]. intros [= <- <- <- <-]. split; [done|]. exists j.
  split; [done|]. split; [|split; [done|]].
  - split; [done|]. split; [lia|]. intros en He. apply (Hfree en). destruct He as (n & [Hn Ht] & R). exists n. split; [|done].
    split; [|done]. unfold m1. by rewrite lookup_insert_ne.
  - rewrite (write_entry_ok e m1 p np j) in Ew by (done || lia). destruct (negb _) in Ew; [done|]. by injection Ew as <-.
Qed.
End create_node.

(** The caches after a creation. *)
Section create_caches.
Context (e : env) (m : inodes) (root : Z) (T : tree m root).
Context (p : Z) (np : node) (j : nat) (name : string) (type i : Z) (c : NamespaceCoordinator).
Hypothesis Hp : linked m p.
Hypothesis Hslot : free_slot m p np j.
Hypothesis Htype : type_ok type.
Hypothesis Hi : fresh m i.
Hypothesis Hc : cache_of m (dentries c).
Abbreviation m' := (created m p np j name type i).

Lemma create_remember : cache_ok m' (remember e p name (mk_dentry i (slot_offset j) type) c).2.
Proof.
  destruct Hslot as (Hdp & Hj & _). pose proof (create_ne m p i Hp Hi) as Hne. pose proof (linked_live m p np Hp Hdp) as Hlp.
  destruct (t_bound _ _ T p np) as [Hb _]; [apply Hdp|]. assert (live_dir m' p) as Hlp' by (apply create_live; [done..|by left]).
  apply (cache_but_none _ (but (fun d nm => d = p /\ nm = name) p name)); [by intros d nm [? ?]| |].
  - eapply indexed_live_only; [done|apply remember_only; lia|]. intros d index H0 Hf. apply create_live; [done..|]. left. by apply (Hc d index).
  - apply (remember_but e m' p ltac:(lia) _ name _ c j (created_entry j name type i)); try done; [|apply create_ent; [done..|by right]].
    apply (cache_but_ext m); [done|]. intros d k en' Hd [index Hf] HX. assert (d <> i) as Hdi by (intros ->; apply (not_live_new m i Hi); by apply (Hc i index)).
    rewrite create_ent by done. split; [intros [H|(-> & -> & ->)]; [done|by destruct HX]|by left].
Qed.
Lemma create_dots_remember cd b1 c1 b2 c2 : cache_ok m' cd -> type = ORCHFS_CORE_DIRECTORY ->
  remember e i "." (mk_dentry i 0 ORCHFS_CORE_DIRECTORY) cd = (b1, c1) ->
  remember e i ".." (mk_dentry p ORCHFS_CORE_DIRENT_SIZE ORCHFS_CORE_DIRECTORY) c1 = (b2, c2) ->
  cache_ok m' (if b1 && b2 then mark_directory_complete (e_memory e ".") i c2 else c2) /\ inode_states
    (if b1 && b2 then mark_directory_complete (e_memory e ".") i c2 else c2) = inode_states cd.
Proof.
  intros Hcd Ht E1 E2. destruct Hi as [Hb Hd]. assert (live_dir m' i) as Hl by (apply create_live; [done|done|done|by right]).
  assert (forall k en, dot_entries i p !! k = Some en -> ent m' i k en) as Hdots by (intros k en Hk; by apply create_ent_new).
  pose proof (remember_ok e m' i ltac:(lia) Hl "." (mk_dentry i 0 ORCHFS_CORE_DIRECTORY) cd 0 _ Hcd (Hdots 0%nat _ eq_refl) eq_refl eq_refl eq_refl) as Hc1.
  pose proof (remember_only e i ltac:(lia) "." (mk_dentry i 0 ORCHFS_CORE_DIRECTORY) cd) as (_ & _ & _ & S1 & _).
  pose proof (remember_cached e i ltac:(lia) "." (mk_dentry i 0 ORCHFS_CORE_DIRECTORY) cd) as K1. rewrite E1 in Hc1, S1, K1. cbn in Hc1, S1, K1.
  pose proof (remember_ok e m' i ltac:(lia) Hl ".." (mk_dentry p ORCHFS_CORE_DIRENT_SIZE ORCHFS_CORE_DIRECTORY) c1 1 _ Hc1 (Hdots 1%nat _ eq_refl) eq_refl eq_refl eq_refl) as Hc2.
  pose proof (remember_only e i ltac:(lia) ".." (mk_dentry p ORCHFS_CORE_DIRENT_SIZE ORCHFS_CORE_DIRECTORY) c1) as (_ & _ & _ & S2 & _).
  pose proof (remember_cached e i ltac:(lia) ".." (mk_dentry p ORCHFS_CORE_DIRENT_SIZE ORCHFS_CORE_DIRECTORY) c1) as K2.
  pose proof (remember_mono e i ltac:(lia) ".." (mk_dentry p ORCHFS_CORE_DIRENT_SIZE ORCHFS_CORE_DIRECTORY) c1 ".") as M2.
  rewrite E2 in Hc2, S2, K2, M2. cbn in Hc2, S2, K2, M2. destruct b1, b2; cbn [andb]; try (split; [done|congruence]).
  destruct (mark_complete_only (e_memory e ".") i c2 ltac:(lia)) as (_ & _ & _ & S3 & _). split; [|congruence].
  apply mark_complete_ok; [lia|done|done|]. intros k en [_ Hk]%create_ent_new; [|done..].
  destruct k as [|[|k]]; cbn in Hk; [injection Hk as <-..|done]; cbn; auto.
Qed.
Lemma create_refs u : refs_of m u -> refs_of m' u.
Proof.
  intros [H1 H2]. destruct Hslot as (Hdp & _). split.
  - intros x st Hx Hst. destruct (H1 x st Hx Hst) as (Hr & n & Hn & A & B). split; [done|]. assert (x <> i) as Hxi.
    { intros ->. destruct Hi as [_ Hd]. rewrite (Hd n Hn) in A. done. }
    pose proof (create_attr m p np j name type i Hp Hslot Hi x Hxi) as Ha. rewrite Hn in Ha. destruct (m' !! x) as [n'|]; [|done].
    exists n'. cbn in Ha. unfold attr in Ha. injection Ha as _ E1 E2. split; [done|]. split; congruence.
  - intros x n Hn A B. destruct (decide (x = i)) as [->|Hxi].
    + destruct (create_at m p np j name type i Hp Hi) as (n' & Hn' & ->). rewrite Hn in Hn'. injection Hn' as ->. done.
    + pose proof (create_attr m p np j name type i Hp Hslot Hi x Hxi) as Ha. rewrite Hn in Ha. destruct (m !! x) as [n'|] eqn:E; [|done].
      cbn in Ha. unfold attr in Ha. injection Ha as _ E1 E2. apply (H2 x n' E); congruence.
Qed.
End create_caches.

(** What creating [name] in [p] has done: the entry [ne] is new. *)
Definition made (e : env) (s s' : fsystem) (p : Z) (name : string) (type : Z) (ne : NamespaceEntry) : Prop :=
  (forall k en, ent (fs_nodes s) p k en -> de_name en <> name) /\
  exists np j i, e_create e = inr i /\ free_slot (fs_nodes s) p np j /\ fs_nodes s' = created (fs_nodes s) p np j name type i /\
    ne = mk_ns_entry i (created_node p type i) p (slot_offset j) (created_entry j name type i).

Lemma create_child_spec e s p name type : fs_ok s -> reads_ok e -> linked (fs_nodes s) p -> live_dir (fs_nodes s) p -> name_ok name ->
  type_ok type -> (forall i, e_create e = inr i -> fresh (fs_nodes s) i) ->
  let r := create_node_locked e s p name type in
  fs_ok r.2 /\ fs_root r.2 = fs_root s /\ inode_states (fs_coord r.2) = inode_states (fs_coord s) /\
  match r.1 with inr ne => made e s r.2 p name type ne | inl _ => fs_nodes r.2 = fs_nodes s end.
Proof.
  intros Hok Hr Hp (np & Hnp & Hlive) Hname Htype Hfresh. unfold create_node_locked.
  destruct (find_child_spec e s p np name (ok_tree _ Hok) (ok_cache _ Hok) Hp Hnp) as (r & c1 & -> & Hc & Ho & Hf).
  pose proof (fs_ok_coord s p c1 Hok Hc Ho) as Hok1. destruct Ho as (_ & _ & _ & Hst & _). set (s1 := set_coord c1 s) in *.
  destruct r as [error|ne]; [|by split_and!].
  destruct (Z.eqb_spec error ENOENT) as [->|]; [|by split_and!]. pose proof (found_none e _ _ _ Hr Hf) as Hnew. cbn [negb].
  destruct (negb _); [by split_and!|]. destruct (stage_create e (fs_nodes s1) p name type) as [error|[[[i slot] en] m']] eqn:Es; [by split_and!|].
  destruct (negb _); [by split_and!|]. apply (stage_create_spec e s1 p np name type Hok1 Hp Hnp Hfresh) in Es as (Ei & j & -> & Hslot & -> & ->).
  pose proof (Hfresh i Ei) as Hi. set (m' := created _ _ _ _ _ _ _).
  cbv zeta. match goal with |- context [publish_now _ (publish _ (set_coord ?c _) _ _) _] => set (c' := c) end.
  assert (cache_ok m' c' /\ inode_states c' = inode_states c1) as [Hc' Hs'].
  { pose proof (create_remember e (fs_nodes s) (fs_root s) (ok_tree _ Hok) p np j name type i c1 Hp Hslot Htype Hi Hc) as Hcd.
    destruct (remember_only e p ltac:(destruct (t_bound _ _ (ok_tree _ Hok) p np); [apply Hnp|lia]) name (mk_dentry i (slot_offset j) type) c1)
      as (_ & _ & _ & Scd & _). unfold c'. cbn [set_nodes fs_coord s1 set_coord]. destruct (Z.eqb_spec type ORCHFS_CORE_DIRECTORY) as [Ht|]; [|done].
    destruct (remember e i "." _ _) as [b1 ca] eqn:E1. destruct (remember e i ".." _ ca) as [b2 cb] eqn:E2.
    destruct (create_dots_remember e (fs_nodes s) p np j name type i Hp Hslot Hi _ b1 ca b2 cb Hcd Ht E1 E2) as [A B]. by rewrite B. }
  destruct (create_at (fs_nodes s) p np j name type i Hp Hi) as (n & Hn & ->). cbn [set_coord set_nodes fs_nodes]. change (fs_nodes s1) with (fs_nodes s) in m'.
  fold m' in Hn. rewrite Hn. cbn [fst snd].
  match goal with |- fs_ok (publish_now ?a ?b ?c) /\ _ => pose proof (publish_now_view a b c) as Hv end. rewrite publish_view in Hv.
  destruct (view_nodes _ _ Hv) as (E1 & E2 & E3 & E4). cbn in E1, E2, E3, E4. split; [|split; [done|split; [congruence|]]].
  - apply (fs_ok_parts _ _ _ _ _ Hv); [by apply create_tree; [apply Hok|..]|done|]. change (refs_of m' (inode_states c')). rewrite Hs', Hst. apply create_refs; [done..|apply Hok].
  - split; [done|]. exists np, j, i. rewrite E1. done.
Qed.
