(* ===== verification/Rename.v ===== *)
(** * Renaming (Async/kfs_coroutine_core.cpp: commit_rename_locked, rename_locked, parent_is_below)

    A rename either leaves every inode and directory entry as it was or moves exactly
    one entry: the invariant of Tree.v holds afterwards in both cases. *)

From stdpp Require Import base tactics numbers list gmap strings relations.
From Stdlib Require Import ZArith Lia.
From S2P Require Import Prelude Bytes Layout Pmem Namespace DataPath Extents Directory Tree.
Open Scope Z_scope.

Definition dotdot_entry (p : Z) : orchfs_core_dirent := mk_dirent p ORCHFS_CORE_DIRENT_SIZE ORCHFS_CORE_DIRECTORY "..".
Definition moved_entry (en : orchfs_core_dirent) (j : nat) (name : string) : orchfs_core_dirent :=
  mk_dirent (de_inode en) (slot_offset j) (de_type en) name.

(** Entry [en] of slot [js] of [ps] has become [name] in slot [jd] of [pd]; [g] is the
    inode that was there, and whether it is kept as an orphan; with [dd] the dots of the
    moved directory lead to [pd]. *)
Record moved (m m' : inodes) (ps : Z) (js : nat) (en : orchfs_core_dirent) (pd : Z) (jd : nat) (name : string)
    (g : option (Z * bool)) (dd : bool) : Prop := {
  mv_attr : forall x, (forall b, g <> Some (x, b)) -> attr <$> m' !! x = attr <$> m !! x;
  mv_gone : forall x b, g = Some (x, b) -> exists n n', m !! x = Some n /\ m' !! x = Some n' /\ attr n' = attr (unlink_node b n);
  mv_ent : forall d k en', ent m' d k en' <->
    if decide (d = de_inode en /\ k = 1%nat /\ dd = true) then en' = dotdot_entry pd
    else if decide (d = pd /\ k = jd) then en' = moved_entry en jd name
    else if decide (d = ps /\ k = js) then False else ent m d k en';
}.

(** The part of the transaction that takes the replaced inode out. *)
Lemma stage_replaced e m root (g : option (Z * bool)) m1 :
  match g with
  | None => inr m
  | Some (inode, true) => orchfs_core_set_orphan e m inode true
  | Some (inode, false) => orchfs_core_delete_inode e m root inode
  end = inr m1 ->
  match g with None => m1 = m | Some (x, b) => exists n, m !! x = Some n /\ m1 = <[x := unlink_node b n]> m end.
Proof.
  destruct g as [[x []]|]; [| |by intros [= ->]].
  - unfold orchfs_core_set_orphan. destruct (x <? 0); [done|]. destruct (m !! x) as [n|]; [|done]. destruct (negb _); [done|]. intros [= <-]. by exists n.
  - unfold orchfs_core_delete_inode. destruct (_ || _); [done|]. destruct (m !! x) as [n|]; [|done]. destruct (negb _); [done|]. intros [= <-]. by exists n.
Qed.
Lemma slot_offset_eqb j k : (slot_offset j =? slot_offset k) = bool_decide (j = k).
Proof.
  unfold slot_offset, ORCHFS_CORE_DIRENT_SIZE. destruct (Z.eqb_spec (Z.of_nat j * 256) (Z.of_nat k * 256)); symmetry;
    [apply bool_decide_eq_true|apply bool_decide_eq_false]; lia.
Qed.

Definition given {A} (o : option A) : bool := match o with Some _ => true | None => false end.

Section stage.
Context (e : env) (m : inodes) (root ps pd src : Z) (js jd : nat) (en : orchfs_core_dirent) (ns : node) (name : string).
Context (g : option (Z * bool)) (dotdot : option NamespaceEntry) (m' : inodes).
Hypothesis Hsrc : de_inode en = src.
Hypothesis Htype : de_type en <> 0.
Hypothesis Hdd : forall ne, dotdot = Some ne -> exists q n, ne = mk_ns_entry q n src (slot_offset 1) (dotdot_entry q).

Lemma stage_rename_spec :
  stage_rename e m root (mk_parent_path pd name) (mk_ns_entry src ns ps (slot_offset js) en) g dotdot (slot_offset jd) = inr m' ->
  moved m m' ps js en pd jd name g (given dotdot).
Proof.
  unfold stage_rename. cbn [pp_parent pp_name ne_parent ne_offset ne_entry ne_inode]. intros H.
  destruct (match g with None => inr m | _ => _ end) as [|m1] eqn:E1; [done|]. apply stage_replaced in E1. cbn [bind_result] in H.
  destruct (write_directory_entry e m1 pd _ _) as [|m2] eqn:E2; [done|]. apply write_entry_inv in E2. cbn [bind_result] in H.
  destruct (if negb (pd =? ps) || negb (slot_offset jd =? slot_offset js) then _ else _) as [|m3] eqn:E3; [done|]. cbn [bind_result] in H.
  rewrite slot_offset_eqb in E3. set (cleared := mk_dirent 0 (slot_offset js) 0 EmptyString) in *.
  assert ((pd = ps /\ jd = js /\ m3 = m2) \/ (~ (pd = ps /\ jd = js) /\ wrote m2 ps js cleared m3)) as H3.
  { destruct (Z.eqb_spec pd ps) as [->|Hp], (bool_decide_reflect (jd = js)) as [->|Hj]; cbn in E3;
      [left; injection E3 as ->; done|right; apply write_entry_inv in E3; split; [tauto|done]..]. }
  assert ((dotdot = None /\ m' = m3) \/ (dotdot <> None /\ wrote m3 src 1 (dotdot_entry pd) m')) as H4.
  { destruct dotdot as [ne|]; [|left; by injection H as ->]. right. split; [done|]. destruct (Hdd ne eq_refl) as (q & n & ->).
    cbn [ne_offset ne_entry de_offset de_type de_name dotdot_entry] in H. by apply write_entry_inv in H. }
  clear E3 H. assert (forall x, attr <$> m' !! x = attr <$> m1 !! x) as Ha.
  { intros x. rewrite <-(wrote_attr _ _ _ _ _ x E2). transitivity (attr <$> m3 !! x).
    - destruct H4 as [[_ ->]|[_ H4]]; [done|by apply (wrote_attr _ _ _ _ _ x H4)].
    - destruct H3 as [(_ & _ & ->)|[_ H3]]; [done|by apply (wrote_attr _ _ _ _ _ x H3)]. }
  assert (forall d k en', ent m1 d k en' <-> ent m d k en') as He.
  { intros d k en'. destruct g as [[x b]|]; [|by rewrite E1]. destruct E1 as (n & Hn & ->). by apply unlink_ent. }
  assert (forall d k en', ent m3 d k en' <->
    if decide (d = pd /\ k = jd) then en' = moved_entry en jd name else if decide (d = ps /\ k = js) then False else ent m d k en') as He3.
  { intros d k en'. pose proof (wrote_ent _ _ _ _ _ d k en' E2) as H2. unfold moved_entry. cbn [de_type] in H2.
    destruct H3 as [(-> & -> & ->)|[Hd H3]].
    - rewrite H2. destruct (decide _) as [Hc|Hc]; [tauto|]. apply He.
    - rewrite (wrote_ent _ _ _ _ _ d k en' H3). destruct (decide (d = ps /\ k = js)) as [Hc|Hc].
      + rewrite decide_False by (intros [-> ->]; tauto). cbn. tauto.
      + rewrite H2. destruct (decide (d = pd /\ k = jd)); [tauto|]. apply He. }
  split.
  - intros x Hx. rewrite Ha. destruct g as [[y b]|]; [|by rewrite E1]. destruct E1 as (n & Hn & ->). rewrite lookup_insert_ne; [done|].
    intros ->. by apply (Hx b).
  - intros x b ->. destruct E1 as (n & Hn & ->). specialize (Ha x). rewrite lookup_insert_eq in Ha. destruct (m' !! x) as [n'|]; [|done].
    apply (inj Some) in Ha. by exists n, n'.
  - intros d k en'. rewrite Hsrc. destruct H4 as [[-> ->]|[Hne H4]]; [rewrite decide_False by (intros (_ & _ & ?); done); apply He3|].
    rewrite (wrote_ent _ _ _ _ _ d k en' H4). destruct dotdot as [ne|]; [|done]. destruct (decide (d = src /\ k = 1%nat)) as [Hc|Hc].
    + rewrite decide_True by tauto. cbn. split; [by intros [-> _]|by intros ->].
    + rewrite decide_False by tauto. apply He3.
Qed.
End stage.

(** ** Ancestors *)

Lemma dotdot_det m d p q : dotdot_of m d p -> dotdot_of m d q -> p = q.
Proof. intros (en & He & <-) (en' & He' & <-). by rewrite (ent_fun _ _ _ _ _ He He'). Qed.
Lemma root_top m root x : tree m root -> rtc (dotdot_of m) root x -> x = root.
Proof.
  intros T H. remember root as y eqn:Ey in H. induction H as [y|y z w Hyz _ IH]; [done|]. subst y. apply IH.
  apply (dotdot_det m root); [done|apply T].
Qed.
(** What is reached from a directory on a cycle reaches it again. *)
Lemma cycle_back m s y : (exists p, dotdot_of m s p /\ rtc (dotdot_of m) p s) -> rtc (dotdot_of m) s y -> rtc (dotdot_of m) y s.
Proof.
  intros (p & Hp & Hps). revert y. apply rtc_ind_r; [done|]. intros y z Hsy Hyz IH. inversion IH as [|? w ? Hyw Hw]; subst.
  - by rewrite (dotdot_det _ _ _ _ Hyz Hp).
  - by rewrite (dotdot_det _ _ _ _ Hyz Hyw).
Qed.
(** A directory is not below one of its own entries. *)
Lemma above_not_below m root d k en : tree m root -> linked m d -> used m d k en -> de_type en = ORCHFS_CORE_DIRECTORY ->
  ~ rtc (dotdot_of m) d (de_inode en).
Proof.
  intros T Hd Hu Ht Hr. destruct (t_target _ _ T d k en Hd Hu) as (Hl & Hroot & n & Hn & En). apply Hroot. apply (root_top m root _ T).
  apply cycle_back; [exists d; split; [by apply (t_parent _ _ T d k en)|done]|]. apply (t_reach _ _ T); [done|].
  eapply linked_live; [done|]. split; [done|congruence].
Qed.
Lemma entry_ne m root d k en : tree m root -> linked m d -> used m d k en -> de_inode en <> d.
Proof.
  intros T Hd Hu E. destruct (decide (de_type en = ORCHFS_CORE_DIRECTORY)) as [Ht|Ht].
  - apply (above_not_below m root d k en T Hd Hu Ht). by rewrite E.
  - destruct (t_target _ _ T d k en Hd Hu) as (_ & _ & n & Hn & En). destruct Hu as [(n' & [Hn' Ht'] & _) _]. congruence.
Qed.

(** ** The tree after a rename *)

Lemma refs_attr m m' u : (forall x, attr <$> m' !! x = attr <$> m !! x) -> refs_of m u -> refs_of m' u.
Proof.
  intros Ha [H1 H2]. split.
  - intros x st Hx Hst. destruct (H1 x st Hx Hst) as (Hr & n & Hn & A & B). split; [done|]. specialize (Ha x). rewrite Hn in Ha.
    destruct (m' !! x) as [n'|]; [|done]. exists n'. cbn in Ha. unfold attr in Ha. injection Ha as _ E1 E2. split; [done|]. split; congruence.
  - intros x n Hn A B. specialize (Ha x). rewrite Hn in Ha. destruct (m !! x) as [n'|] eqn:E; [|done]. cbn in Ha. unfold attr in Ha.
    injection Ha as _ E1 E2. apply (H2 x n' E); congruence.
Qed.

(** Where the entry goes: over the entry of an empty inode, or to a slot of its own. *)
Definition place (m : inodes) (ps : Z) (js : nat) (en : orchfs_core_dirent) (pd : Z) (jd : nat) (name : string) (g : option (Z * bool)) : Prop :=
  match g with
  | Some (x, b) => exists old, used m pd jd old /\ de_name old = name /\ de_inode old = x /\ x <> de_inode en /\ forall k en', ~ used m x k en'
  | None => (forall k en', ent m pd k en' -> de_name en' <> name) /\
      ((pd = ps /\ jd = js) \/ (pd <> ps /\ (2 <= jd)%nat /\ forall en', ~ ent m pd jd en'))
  end.

Section moved.
Context (m m' : inodes) (root ps : Z) (js : nat) (en : orchfs_core_dirent) (pd : Z) (jd : nat) (name : string) (g : option (Z * bool)) (dd : bool).
Hypothesis T : tree m root.
Hypothesis Hps : linked m ps.
Hypothesis Hu : used m ps js en.
Hypothesis Hpd : linked m pd.
Hypothesis Hlpd : live_dir m pd.
Hypothesis Hname : name_ok name.
Hypothesis Hdst : place m ps js en pd jd name g.
Hypothesis Hdd : dd = true <-> de_type en = ORCHFS_CORE_DIRECTORY /\ pd <> ps.
Hypothesis Hcycle : dd = true -> ~ rtc (dotdot_of m) pd (de_inode en).
Hypothesis M : moved m m' ps js en pd jd name g dd.

Definition touched (d : Z) (k : nat) : Prop := (d = ps /\ k = js) \/ (d = pd /\ k = jd).
Lemma moved_slot : (2 <= jd)%nat.
Proof. destruct g as [[x b]|]; [destruct Hdst as (old & [_ H] & _); done|]. destruct Hdst as [_ [[_ ->]|(_ & H & _)]]; [apply Hu|done]. Qed.
Lemma moved_used d k en' : used m' d k en' <-> (used m d k en' /\ ~ touched d k) \/ (d = pd /\ k = jd /\ en' = moved_entry en jd name).
Proof.
  pose proof moved_slot as Hj. unfold used, touched. rewrite (mv_ent _ _ _ _ _ _ _ _ _ _ M). destruct (decide (d = de_inode en /\ k = 1%nat /\ dd = true)) as [(_ & -> & _)|_].
  - split; [lia|]. intros [[[_ H] _]|(_ & <- & _)]; lia.
  - destruct (decide (d = pd /\ k = jd)) as [[-> ->]|Hd]; [naive_solver|]. destruct (decide (d = ps /\ k = js)) as [[-> ->]|Hs]; naive_solver.
Qed.
Lemma moved_dot d k en' : (k < 2)%nat -> (dd = true -> k = 1%nat -> d <> de_inode en) -> ent m' d k en' <-> ent m d k en'.
Proof.
  intros Hk Hd. pose proof moved_slot as Hj. destruct Hu as [_ Hjs]. rewrite (mv_ent _ _ _ _ _ _ _ _ _ _ M). rewrite !decide_False; [done|lia|lia|].
  intros (E & Ek & Edd). by apply Hd.
Qed.
Lemma moved_dotdot : dd = true -> ent m' (de_inode en) 1 (dotdot_entry pd).
Proof. intros E. apply (mv_ent _ _ _ _ _ _ _ _ _ _ M). by rewrite decide_True. Qed.
Lemma moved_parent : de_type en = ORCHFS_CORE_DIRECTORY -> dotdot_of m' (de_inode en) pd.
Proof.
  intros Ht. destruct (decide (dd = true)) as [E|E]; [exists (dotdot_entry pd); split; [by apply moved_dotdot|done]|].
  assert (pd = ps) as Ep by (destruct (decide (pd = ps)); [done|]; destruct E; by apply Hdd). rewrite Ep.
  eapply dotdot_ent; [|by apply (t_parent _ _ T ps js en)]. intros en' He. apply moved_dot; [lia|done|done].
Qed.
Lemma moved_live d : live_dir m' d -> live_dir m d.
Proof.
  intros Hl. assert ((exists b, g = Some (d, b)) \/ forall b, g <> Some (d, b)) as [[b E]|E].
  { destruct g as [[x b]|]; [|by right]. destruct (decide (x = d)) as [->|]; [left; by exists b|right; congruence]. }
  - destruct (mv_gone _ _ _ _ _ _ _ _ _ _ M d b E) as (n & n' & Hn & Hn' & Ea). destruct Hl as (n1 & [Hn1 Ht] & Hl). exists n.
    assert (n1 = n') as -> by congruence. unfold attr in Ea. destruct b; cbn in Ea; injection Ea as E1 E2 _; [|congruence]. split; [split|]; congruence.
  - eapply live_dir_attr; [|done]. by apply (mv_attr _ _ _ _ _ _ _ _ _ _ M).
Qed.

Lemma moved_source : linked m (de_inode en) /\ de_inode en <> root /\ exists n, m !! de_inode en = Some n /\ nd_type n = de_type en.
Proof. apply (t_target _ _ T ps js en Hps Hu). Qed.
(** The replaced inode is neither of the parents nor the source. *)
Lemma moved_gone x b : g = Some (x, b) -> x <> ps /\ x <> pd /\ x <> de_inode en /\ x <> root /\ (forall k en', ~ used m x k en') /\ linked m x /\
  forall d k en', linked m d -> used m d k en' -> de_inode en' = x -> d = pd /\ k = jd.
Proof.
  intros E. rewrite E in Hdst. destruct Hdst as (old & Hold & Hn & Hi & Hne & Hempty).
  destruct (t_target _ _ T pd jd old Hpd Hold) as (Hl & Hr & _). rewrite Hi in Hl, Hr.
  split; [intros Ex; apply (Hempty js en); by rewrite Ex|]. split; [intros Ex; apply (Hempty jd old); by rewrite Ex|]. split_and!; try done.
  intros d k en' Hd Hk Hx. apply (t_once _ _ T d pd k jd en' old Hd Hpd Hk Hold). congruence.
Qed.
Lemma moved_cleared d k en' : linked m d -> used m d k en' -> touched d k -> (exists b, g = Some (de_inode en', b)) \/ en' = en.
Proof.
  intros Hd Hk Ht. assert (d = ps -> k = js -> en' = en) as Hs.
  { intros -> ->. destruct Hk as [Hk _], Hu as [He _]. by apply (ent_fun _ _ _ _ _ Hk He). }
  destruct Ht as [[-> ->]|[-> ->]]; [right; by apply Hs|]. destruct g as [[x b]|].
  - left. exists b. destruct Hdst as (old & [Hold _] & _ & Hi & _). destruct Hk as [Hk _]. by rewrite (ent_fun _ _ _ _ _ Hk Hold), Hi.
  - destruct Hdst as [_ [[Ep Ej]|(_ & _ & Hfree)]]; [right; by apply Hs|]. destruct Hk as [Hk _]. by apply Hfree in Hk.
Qed.
Lemma moved_fresh k en' : used m pd k en' -> ~ touched pd k -> de_name en' <> name.
Proof.
  intros Hk Ht. destruct g as [[x b]|]; [|destruct Hdst as [H _]; by apply (H k), Hk].
  destruct Hdst as (old & Hold & Hn & _). intros E. apply Ht. right. split; [done|]. apply (t_unique _ _ T pd k jd en' old Hlpd Hk Hold). congruence.
Qed.
Lemma moved_acyclic : de_type en = ORCHFS_CORE_DIRECTORY -> ~ rtc (dotdot_of m) pd (de_inode en).
Proof.
  intros Ht. destruct (decide (pd = ps)) as [E|E]; [rewrite E; by apply (above_not_below m root ps js en)|]. apply Hcycle. by apply Hdd.
Qed.
Lemma moved_dots d n' : dir_node m' d n' -> nd_live n' = true -> exists p rest, nd_entries n' = dot_entries d p ++ rest.
Proof.
  intros Hd Hl. assert (live_dir m d) as Hlm by (apply moved_live; by exists n'). destruct (dots_ent m root d T Hlm) as (E0 & q & E1).
  assert (ent m' d 0 (mk_dirent d 0 ORCHFS_CORE_DIRECTORY ".")) as E0' by (apply moved_dot; [lia|lia|done]).
  destruct (decide (d = de_inode en /\ dd = true)) as [[-> Edd]|Hne]; [eapply dots_of_ent; [done|done|by apply moved_dotdot]|].
  eapply dots_of_ent; [done|done|]. apply moved_dot; [lia| |exact E1]. intros Edd _ ->. by apply Hne.
Qed.

Lemma moved_relink : relink m m' root touched (Some (pd, jd, moved_entry en jd name)) (fst <$> g).
Proof.
  assert (forall x, fst <$> g = Some x -> exists b, g = Some (x, b)) as Hg by (intros x Hx; destruct g as [[y b]|]; [|done]; exists b; cbn in Hx; congruence).
  assert (forall x, (fst <$> g) <> Some x -> forall b, g <> Some (x, b)) as Hg' by (intros x Hx b E; rewrite E in Hx; by apply Hx).
  destruct moved_source as (Hl & Hr & Hty). split.
  - intros x Hx. apply (mv_attr _ _ _ _ _ _ _ _ _ _ M). by apply Hg'.
  - intros x n' [b E]%Hg Hn'. destruct (mv_gone _ _ _ _ _ _ _ _ _ _ M x b E) as (n & n1 & Hn & Hn1 & Ea). exists n. split; [done|].
    assert (n1 = n') as -> by congruence. unfold attr in Ea. destruct b; cbn in Ea; injection Ea as E1 E2 _; split; congruence.
  - intros x [b E]%Hg (n' & Hn' & Hlx & Ho). destruct (mv_gone _ _ _ _ _ _ _ _ _ _ M x b E) as (n & n1 & Hn & Hn1 & Ea).
    assert (n1 = n') as -> by congruence. unfold attr in Ea. destruct b; cbn in Ea; injection Ea as E1 E2 E3; congruence.
  - intros d k en'. rewrite moved_used. split; (intros [H|H]; [by left|right]); [by destruct H as (-> & -> & ->)|injection H as -> -> ->; done].
  - apply moved_dots.
  - intros d q Hne. apply dotdot_ent. intros en' He. apply moved_dot; [lia| |done]. intros Edd _ Ed. apply Hdd in Edd as [Ht _].
    by apply (Hne pd jd _ eq_refl Ht).
  - intros ? ? ? [= <- <- <-]. apply moved_parent.
  - intros d k en' Hd Hk Ht. destruct (moved_cleared d k en' Hd Hk Ht) as [[b ->]| ->]; [by left|right]. by do 3 eexists.
  - intros x k en' [b E]%Hg. destruct (moved_gone x b E) as (_ & _ & _ & A & B & _ & C). split; [done|]. split; [done|].
    intros d j en'' Hd Hj Ei. right. by apply (C d j en'').
  - intros ? ? ? [= <- <- <-]. cbn [moved_entry de_inode de_offset de_name de_type]. split; [done|]. split; [done|].
    split; [intros [b E]%Hg; apply moved_gone in E; tauto|]. split; [apply moved_slot|]. split; [done|]. split; [done|]. split; [done|]. split; [done|].
    split; [intros [b E]%Hg; apply moved_gone in E; tauto|]. split; [done|]. split.
    + intros d j en' Hd Hj Ei. left. by apply (t_once _ _ T d ps j js en' en).
    + split; [apply moved_fresh|]. split; [by right|apply moved_acyclic].
Qed.
Lemma moved_tree : tree m' root.
Proof. exact (relink_tree _ _ _ _ _ _ T moved_relink). Qed.

(** *** The caches after a rename *)
Hypothesis Hdiff : ~ (ps = pd /\ de_name en = name).

Lemma moved_source_live : dd = true -> live_dir m (de_inode en).
Proof.
  intros [Ht _]%Hdd. destruct (t_target _ _ T ps js en Hps Hu) as (Hl & _ & n & Hn & En). eapply linked_live; [done|]. split; [done|congruence].
Qed.
Lemma live_kept d : (forall b, g = Some (d, b) -> b = true) -> live_dir m d -> live_dir m' d.
Proof.
  intros Hg Hl. assert ((exists b, g = Some (d, b)) \/ forall b, g <> Some (d, b)) as [[b E]|E].
  { destruct g as [[x b]|]; [|by right]. destruct (decide (x = d)) as [->|]; [left; by exists b|right; congruence]. }
  - destruct (mv_gone _ _ _ _ _ _ _ _ _ _ M d b E) as (n & n' & Hn & Hn' & Ea). rewrite (Hg b E) in Ea. destruct Hl as (n1 & [Hn1 Ht] & Hl).
    assert (n1 = n) as -> by congruence. exists n'. unfold attr in Ea. cbn in Ea. injection Ea as E1 E2 _. split; [split|]; congruence.
  - eapply live_dir_attr; [|done]. symmetry. by apply (mv_attr _ _ _ _ _ _ _ _ _ _ M).
Qed.
(** The names a rename may change. *)
Definition changes (d : Z) (nm : string) : Prop := (d = ps /\ nm = de_name en) \/ (d = pd /\ nm = name) \/ (dd = true /\ d = de_inode en /\ nm = "..").
Lemma moved_same d k en' : 0 <= d -> live_dir m d -> ~ changes d (de_name en') -> ent m' d k en' <-> ent m d k en'.
Proof.
  intros H0 Hl HX. unfold changes in HX. rewrite (mv_ent _ _ _ _ _ _ _ _ _ _ M). destruct Hu as [He _].
  destruct (decide (d = de_inode en /\ k = 1%nat /\ dd = true)) as [(-> & -> & Edd)|_].
  { split; [intros ->; cbn in HX; tauto|]. intros Hk. destruct (ent_cases m root T _ 1 en' Hl Hk) as [[? _]|[[_ (p & -> & _)]|[_ ?]]]; [lia| |lia].
    cbn in HX. tauto. }
  destruct (decide (d = pd /\ k = jd)) as [[-> ->]|Hd].
  { split; [intros ->; cbn in HX; tauto|]. intros Hk. destruct g as [[x b]|].
    - destruct Hdst as (old & [Hold _] & Hn & _). rewrite (ent_fun _ _ _ _ _ Hk Hold) in HX. tauto.
    - destruct Hdst as [_ [[-> ->]|(_ & _ & Hf)]]; [|by apply Hf in Hk]. rewrite (ent_fun _ _ _ _ _ Hk He) in HX. tauto. }
  destruct (decide (d = ps /\ k = js)) as [[-> ->]|Hs]; [|done]. split; [done|]. intros Hk. rewrite (ent_fun _ _ _ _ _ Hk He) in HX. tauto.
Qed.
Lemma moved_old_gone k en' : ent m' ps k en' -> de_name en' <> de_name en.
Proof.
  rewrite (mv_ent _ _ _ _ _ _ _ _ _ _ M). pose proof Hu as [He _]. assert (live_dir m ps) as Hl by (destruct He as (n & Hn & _); by eapply linked_live).
  destruct (t_name _ _ T ps js en Hl Hu) as (_ & _ & N2 & _).
  destruct (decide _) as [_|_]; [intros -> E; by cbn in E|]. destruct (decide _) as [[Ep _]|_]; [intros -> E; cbn in E; destruct Hdiff; split; congruence|].
  destruct (decide _) as [_|Hs]; [done|]. intros Hk E. apply Hs. split; [done|]. by apply (ent_unique _ _ T ps k js en' en).
Qed.
Lemma moved_new : ent m' pd jd (moved_entry en jd name).
Proof. apply (proj2 (moved_used pd jd _)). by right. Qed.
Lemma moved_caches (e : env) c (dn ddn : Dentry) : cache_of m (dentries c) -> dn_inode dn = de_inode en -> dn_offset dn = slot_offset jd ->
  dn_inode ddn = pd -> dn_offset ddn = ORCHFS_CORE_DIRENT_SIZE ->
  forall c1, dentries c1 = match g with Some (x, false) => sh_erase x (dentries c) | _ => dentries c end ->
  let c2 := (remember e pd name dn (erase_dentry ps (de_name en) c1)).2 in
  cache_of m' (dentries (if dd then (remember e (de_inode en) ".." ddn c2).2 else c2)).
Proof.
  intros Hc H1 H2 H3 H4 c1 Ec. pose proof Hu as [He _]. assert (0 <= ps /\ 0 <= pd /\ 0 <= de_inode en) as (P1 & P2 & P3).
  { destruct (t_target _ _ T ps js en Hps Hu) as (_ & _ & n & Hn & _). destruct He as (n1 & [Hn1 _] & _). destruct Hlpd as (n2 & [Hn2 _] & _).
    destruct (t_bound _ _ T _ _ Hn), (t_bound _ _ T _ _ Hn1), (t_bound _ _ T _ _ Hn2). lia. }
  assert (forall d index, sh_find d (dentries c1) = Some index -> sh_find d (dentries c) = Some index /\ forall b, g = Some (d, b) -> b = true) as Hsub.
  { intros d index Hf. rewrite Ec in Hf. destruct g as [[x []]|]; [split; [done|congruence]| |done]. rewrite sh_find_erase in Hf.
    destruct (decide (d = x)); [done|]. split; [done|congruence]. }
  assert (cache_but m' changes (dentries c1)) as C1.
  { rewrite Ec. assert (cache_but m' changes (dentries c)); [|by destruct g as [[x []]|]; [|apply cache_but_erase|]].
    apply (cache_but_ext m); [done|]. intros d k en' Hd [index Hf] HX. apply moved_same; [done|by apply (Hc d index)|done]. }
  assert (indexed_live m' (dentries c1)) as L1 by (intros d index Hd [Hf Hg]%Hsub; apply live_kept; [done|by apply (Hc d index)]).
  assert (live_dir m' pd) as Lpd.
  { apply live_kept; [|done]. intros b E. by apply moved_gone in E as (_ & ? & _). }
  set (c2 := erase_dentry ps (de_name en) c1). assert (indexed_live m' (dentries c2)) as L2.
  { eapply indexed_live_only; [|by apply erase_dentry_only|done]. apply live_kept; [|destruct He as (n & Hn & _); by eapply linked_live].
    intros b E. by apply moved_gone in E as (? & _). }
  pose proof (erase_dentry_but m' changes ps (de_name en) c1 P1 C1 moved_old_gone) as C2. fold c2 in C2.
  pose proof (remember_but e m' pd P2 _ name dn c2 jd (moved_entry en jd name) C2 moved_new eq_refl H1 H2) as C3.
  pose proof (indexed_live_only m' pd _ _ Lpd (remember_only e pd P2 name dn c2) L2) as L3. cbv zeta. set (c3 := (remember e pd name dn c2).2) in *.
  destruct (decide (dd = true)) as [Edd|Edd%not_true_is_false]; rewrite Edd.
  - assert (live_dir m' (de_inode en)) as Ls.
    { apply live_kept; [intros b E; by apply moved_gone in E as (_ & _ & ? & _)|by apply moved_source_live]. }
    eapply cache_but_none; [|by eapply indexed_live_only; [exact Ls|by apply remember_only|]|].
    2: apply (remember_but e m' (de_inode en) P3 _ ".." ddn c3 1 (dotdot_entry pd) C3); [by apply moved_dotdot|done|done|done].
    intros d nm. unfold but, changes. tauto.
  - eapply cache_but_none; [|exact L3|exact C3]. intros d nm. unfold but, changes. rewrite Edd. naive_solver.
Qed.
End moved.

(** ** The transaction of a rename *)

(** The orphan mark of the inode that is replaced. *)
Definition mark_replaced (destination : option NamespaceEntry) (c : NamespaceCoordinator) : (Z + option (Z * bool)) * NamespaceCoordinator :=
  match destination with
  | None => (inr None, c)
  | Some d => match mark_orphan_if_open_locked (ne_inode d) c with
              | (inl error, c) => (inl error, c)
              | (inr defer_delete, c) => (inr (Some (ne_inode d, defer_delete)), c)
              end
  end.
(** What is known of the states after it. *)
Definition marked (u u1 : shards InodeState) (g : option (Z * bool)) : Prop :=
  match g with
  | None => u1 = u
  | Some (x, b) => (forall k, k <> x -> sh_find k u1 = sh_find k u) /\ (b = true <-> is_Some (sh_find x u)) /\
      if b then exists r, 1 <= r /\ sh_find x u = Some (mk_inode_state r false) /\ sh_find x u1 = Some (mk_inode_state r true)
      else sh_find x u1 = None
  end.
Lemma mark_replaced_spec m root c destination : tree m root -> refs_of m (inode_states c) -> (forall d, destination = Some d -> linked m (ne_inode d)) ->
  exists g c1, mark_replaced destination c = (inr g, c1) /\ fst <$> g = ne_inode <$> destination /\ dentries c1 = dentries c /\
    marked (inode_states c) (inode_states c1) g.
Proof.
  intros T R Hd. destruct destination as [d|]; [|by exists None, c]. destruct (Hd d eq_refl) as (n & Hn & _ & Ho).
  destruct (t_bound _ _ T _ _ Hn) as [Hb _].
  destruct (mark_orphan_spec m c (ne_inode d) n R ltac:(lia) Hn Ho) as (defer & c1 & E & Ed & Edef & Ek & Hdef).
  exists (Some (ne_inode d, defer)), c1. unfold mark_replaced. rewrite E. split; [done|]. split; [done|]. split; [done|]. split; [done|]. split; [done|].
  destruct defer; [done|]. by destruct Hdef as [-> ?].
Qed.
Definition rollback_replaced (g : option (Z * bool)) (s : fsystem) : fsystem :=
  match g with Some (inode, true) => set_coord (rollback_orphan_locked inode (fs_coord s)) s | _ => s end.
Lemma rollback_replaced_spec m s c1 g : (forall x b, g = Some (x, b) -> 0 <= x) -> dentries c1 = dentries (fs_coord s) ->
  marked (inode_states (fs_coord s)) (inode_states c1) g -> fs_nodes s = m -> fs_ok s ->
  let s' := rollback_replaced g (set_coord c1 s) in fs_ok s' /\ fs_nodes s' = m /\ fs_root s' = fs_root s.
Proof.
  intros Hx Ed Hm <- Hok s'. assert (fs_nodes s' = fs_nodes s /\ fs_root s' = fs_root s) as [E1 E2] by (unfold s'; by destruct g as [[x []]|]).
  split; [|done]. assert (states_eq (inode_states (fs_coord s)) (inode_states (fs_coord s')) /\ dentries (fs_coord s') = dentries (fs_coord s)) as [Hs E3].
  { unfold s', rollback_replaced. destruct g as [[x []]|]; cbn in *.
    - destruct Hm as (Hk & _ & r & _ & A & B). destruct (rollback_spec c1 x r true (Hx x true eq_refl) B) as [R1 R2]. split; [|congruence].
      intros k. rewrite R2. destruct (decide (k = x)) as [->|]; [done|by apply Hk].
    - destruct Hm as (Hk & Hb & A). split; [|done]. intros k. destruct (decide (k = x)) as [->|]; [|by apply Hk]. rewrite A.
      destruct (sh_find x (inode_states (fs_coord s))) eqn:E; [|done]. destruct Hb as [_ Hb]. by discriminate Hb.
    - by rewrite Hm. }
  eapply (fs_ok_parts s' (fs_nodes s) (fs_root s) (dentries (fs_coord s)) (inode_states (fs_coord s')));
    [unfold view; congruence|apply Hok|apply Hok|]. eapply refs_states_eq; [exact Hs|apply Hok].
Qed.

(** What renaming [old] in [ps] to [name] in [pd] has done. *)
Definition renamed (s s' : fsystem) (ps : Z) (old : string) (pd : Z) (name : string) : Prop :=
  exists js en jd g dd, used (fs_nodes s) ps js en /\ de_name en = old /\ place (fs_nodes s) ps js en pd jd name g /\
    (forall x b, g = Some (x, b) -> b = true <-> is_open s x) /\ (dd = true <-> de_type en = ORCHFS_CORE_DIRECTORY /\ pd <> ps) /\
    moved (fs_nodes s) (fs_nodes s') ps js en pd jd name g dd.

Section commit_rename.
Context (e : env) (s : fsystem) (ps : Z) (js : nat) (en : orchfs_core_dirent) (ns : node) (pd : Z) (jd : nat) (name : string).
Context (destination dotdot : option NamespaceEntry).
Hypothesis Hok : fs_ok s.
Hypothesis Hps : linked (fs_nodes s) ps.
Hypothesis Hu : used (fs_nodes s) ps js en.
Hypothesis Hpd : linked (fs_nodes s) pd.
Hypothesis Hlpd : live_dir (fs_nodes s) pd.
Hypothesis Hname : name_ok name.
Hypothesis Hdest : forall g, fst <$> g = ne_inode <$> destination -> place (fs_nodes s) ps js en pd jd name g.
Hypothesis Hdot : forall ne, dotdot = Some ne -> exists q n, ne = mk_ns_entry q n (de_inode en) (slot_offset 1) (dotdot_entry q).
Hypothesis Hdd : given dotdot = true <-> de_type en = ORCHFS_CORE_DIRECTORY /\ pd <> ps.
Hypothesis Hcycle : given dotdot = true -> ~ rtc (dotdot_of (fs_nodes s)) pd (de_inode en).
Hypothesis Hdiff : ~ (ps = pd /\ de_name en = name).

Lemma destination_linked d : destination = Some d -> linked (fs_nodes s) (ne_inode d).
Proof.
  intros ->. destruct (Hdest (Some (ne_inode d, false)) eq_refl) as (old & Hold & _ & <- & _).
  apply (t_target _ _ (ok_tree _ Hok) pd jd old Hpd Hold).
Qed.
Lemma rename_refs g m' c1 : marked (inode_states (fs_coord s)) (inode_states c1) g -> moved (fs_nodes s) m' ps js en pd jd name g (given dotdot) ->
  (forall x b, g = Some (x, b) -> linked (fs_nodes s) x) ->
  refs_of m' (match g with Some (x, false) => sh_erase x (inode_states c1) | _ => inode_states c1 end).
Proof.
  intros Hm M Hg. destruct g as [[x b]|]; [|rewrite Hm; apply (refs_attr (fs_nodes s)); [intros x; by apply M|apply Hok]].
  destruct (Hg x b eq_refl) as (n & Hn & Hl & _). destruct (mv_gone _ _ _ _ _ _ _ _ _ _ M x b eq_refl) as (n0 & n' & Hn0 & Hn' & Ea).
  assert (n0 = n) as -> by congruence. destruct Hm as (Hk & _ & Hb).
  apply (refs_unlink (fs_nodes s) m' (inode_states (fs_coord s)) _ x n b); try done; [apply Hok| |by exists n'| |].
  - intros y Hy. apply (mv_attr _ _ _ _ _ _ _ _ _ _ M). congruence.
  - intros k Hkx. destruct b; [by apply Hk|]. rewrite sh_find_erase, decide_False by done. by apply Hk.
  - destruct b; [destruct Hb as (r & ? & _ & ?); by exists r|]. by rewrite sh_find_erase, decide_True.
Qed.

(** The updates of the caches. *)
Definition rename_cache (c : NamespaceCoordinator) : NamespaceCoordinator :=
  let c := (remember e pd name (mk_dentry (de_inode en) (slot_offset jd) (de_type en)) (erase_dentry ps (de_name en) c)).2 in
  match dotdot with
  | Some d => (remember e (de_inode en) ".." (mk_dentry pd (ne_offset d) ORCHFS_CORE_DIRECTORY) c).2
  | None => c
  end.
Lemma rename_caches g m' c : moved (fs_nodes s) m' ps js en pd jd name g (given dotdot) -> place (fs_nodes s) ps js en pd jd name g ->
  dentries c = match g with Some (x, false) => sh_erase x (dentries (fs_coord s)) | _ => dentries (fs_coord s) end -> cache_of m' (dentries (rename_cache c)).
Proof.
  intros M Hplace Ec. assert (forall d, dotdot = Some d -> ne_offset d = ORCHFS_CORE_DIRENT_SIZE) as Ho by (intros d E; destruct (Hdot d E) as (q & n & ->); done).
  pose proof (moved_caches (fs_nodes s) m' (fs_root s) ps js en pd jd name g (given dotdot) (ok_tree _ Hok) Hps Hu Hpd Hlpd Hplace Hdd Hcycle M Hdiff
    e (fs_coord s) (mk_dentry (de_inode en) (slot_offset jd) (de_type en)) (mk_dentry pd ORCHFS_CORE_DIRENT_SIZE ORCHFS_CORE_DIRECTORY)
    (ok_cache _ Hok) eq_refl eq_refl eq_refl eq_refl c Ec) as H.
  unfold rename_cache. destruct dotdot as [d|]; [|exact H]. by rewrite (Ho d eq_refl).
Qed.
Lemma rename_states c : inode_states (rename_cache c) = inode_states c.
Proof.
  assert (0 <= pd /\ 0 <= de_inode en) as [P1 P2].
  { pose proof (ok_tree _ Hok) as T. destruct (t_target _ _ T ps js en Hps Hu) as (_ & _ & n & Hn & _). destruct Hlpd as (n2 & [Hn2 _] & _).
    destruct (t_bound _ _ T _ _ Hn), (t_bound _ _ T _ _ Hn2). lia. }
  unfold rename_cache. rewrite <-(erase_dentry_states ps (de_name en) c).
  destruct (remember_only e pd P1 name (mk_dentry (de_inode en) (slot_offset jd) (de_type en)) (erase_dentry ps (de_name en) c)) as (_ & _ & _ & E & _).
  rewrite <-E. destruct dotdot as [d|]; [|done]. by destruct (remember_only e (de_inode en) P2 ".." (mk_dentry pd (ne_offset d) ORCHFS_CORE_DIRECTORY)
    (remember e pd name (mk_dentry (de_inode en) (slot_offset jd) (de_type en)) (erase_dentry ps (de_name en) c)).2) as (_ & _ & _ & E' & _).
Qed.

Lemma commit_rename_spec :
  let r := commit_rename_locked e s (mk_parent_path ps (de_name en)) (mk_parent_path pd name)
             (mk_ns_entry (de_inode en) ns ps (slot_offset js) en) destination dotdot (slot_offset jd) in
  fs_ok r.2 /\ fs_root r.2 = fs_root s /\
  match r.1 with inl _ => fs_nodes r.2 = fs_nodes s | inr _ => renamed s r.2 ps (de_name en) pd name end.
Proof.
  unfold commit_rename_locked. destruct (negb (e_transaction e =? 0)); [done|]. fold (mark_replaced destination (fs_coord s)).
  pose proof (ok_tree _ Hok) as T.
  destruct (mark_replaced_spec (fs_nodes s) (fs_root s) (fs_coord s) destination T (ok_refs _ Hok) destination_linked) as (g & c1 & -> & Eg & Ed & Hm).
  pose proof (Hdest g Eg) as Hplace. assert (forall x b, g = Some (x, b) -> linked (fs_nodes s) x /\ 0 <= x) as Hgx.
  { intros x b E. rewrite E in Eg. symmetry in Eg. apply fmap_Some in Eg as (d & Edest & Ex). cbn in Ex. rewrite Ex.
    pose proof (destination_linked d Edest) as Hl. split; [done|]. destruct Hl as (n & Hn & _). destruct (t_bound _ _ T _ _ Hn). lia. }
  assert (forall x b, g = Some (x, b) -> 0 <= x) as Hg0 by (intros x b E; by apply (Hgx x b)).
  cbv beta iota zeta. cbn [set_coord fs_nodes fs_root fs_coord pp_parent pp_name ne_inode ne_parent ne_entry ne_node].
  fold (rollback_replaced g (set_coord c1 s)).
  destruct (stage_rename _ _ _ _ _ g dotdot _) as [error|m'] eqn:Est; cbn [with_commit].
  { destruct (rollback_replaced_spec (fs_nodes s) s c1 g Hg0 Ed Hm eq_refl Hok) as (A & B & C). done. }
  destruct (negb (e_commit e =? 0)).
  { destruct (rollback_replaced_spec (fs_nodes s) s c1 g Hg0 Ed Hm eq_refl Hok) as (A & B & C). done. }
  assert (de_type en <> 0) as Hty by (destruct Hu as [(? & _ & _ & ?) _]; done).
  apply (stage_rename_spec e _ _ ps pd (de_inode en) js jd en ns name g dotdot m' eq_refl Hty Hdot) in Est as M.
  match goal with |- context [publish e (set_coord ?c ?s0) (de_inode en) ns] => set (s2 := s0); set (c2 := c) end.
  assert (fs_nodes s2 = m' /\ fs_root s2 = fs_root s) as [En Er] by (unfold s2; by destruct g as [[x []]|]).
  assert (inode_states (fs_coord s2) = match g with Some (x, false) => sh_erase x (inode_states c1) | _ => inode_states c1 end /\
    dentries (fs_coord s2) = match g with Some (x, false) => sh_erase x (dentries c1) | _ => dentries c1 end) as [Es Et].
  { unfold s2. destruct g as [[x []]|]; [done| |done]. pose proof (forget_view (set_coord (erase_inode_state_locked x (fs_coord (set_nodes m' (set_coord c1 s))))
      (set_nodes m' (set_coord c1 s))) x (Hg0 x false eq_refl)) as (_ & _ & E3 & E4)%view_nodes. rewrite E3, E4. cbn.
    unfold erase_inode_state_locked. by rewrite (proj2 (Z.ltb_ge x 0)) by (apply (Hg0 x false eq_refl)). }
  assert (cache_of m' (dentries c2) /\ inode_states c2 = inode_states (fs_coord s2)) as [Hc2 Hs2].
  { split; [apply (rename_caches g m' (fs_coord s2)); [done|done|by rewrite Et, Ed]|apply (rename_states (fs_coord s2))]. }
  cbn [fst snd]. match goal with |- fs_ok ?s3 /\ _ => assert (view s3 = view (set_coord c2 s2)) as Hv end.
  { destruct (negb (pd =? ps)); by rewrite ?publish_now_view, publish_view. }
  destruct (view_nodes _ _ Hv) as (V1 & V2 & V3 & V4). cbn in V1, V2, V3, V4. split; [|split; [congruence|]].
  - apply (fs_ok_parts _ m' (fs_root s) (dentries c2) (inode_states c2)); [rewrite Hv; unfold view; cbn; congruence| |done|].
    + by apply (moved_tree (fs_nodes s) m' (fs_root s) ps js en pd jd name g (given dotdot)).
    + rewrite Hs2, Es. apply rename_refs; [done|done|]. intros x b E. by apply (Hgx x b).
  - exists js, en, jd, g, (given dotdot). split; [done|]. split; [done|]. split; [done|]. split; [|split; [done|by rewrite V1, En]].
    intros x b E. rewrite E in Hm. by destruct Hm as (_ & ? & _).
Qed.
End commit_rename.

(** ** The checks of a rename *)

Lemma child_dotdot m root d ne : tree m root -> live_dir m d -> is_child m d ".." ne ->
  exists q n, ne = mk_ns_entry q n d (slot_offset 1) (dotdot_entry q) /\ dotdot_of m d q /\ m !! q = Some n.
Proof.
  intros T Hl (j & en & n & He & Hn & Hm & ->). destruct (ent_cases m root T d j en Hl He) as [[-> ->]|[[-> (q & -> & Hq)]|U]]; [done| |].
  - by exists q, n.
  - destruct (t_name _ _ T d j en Hl U) as (_ & _ & ? & _). done.
Qed.
(** A lookup changes caches only. *)
Lemma find_child_ok e s d name : fs_ok s -> linked (fs_nodes s) d -> live_dir (fs_nodes s) d ->
  exists r c, find_child_locked e s d name = (r, set_coord c s) /\ fs_ok (set_coord c s) /\ inode_states c = inode_states (fs_coord s) /\
    found_ok e (fs_nodes s) d name r.
Proof.
  intros Hok Hd (n & Hn & _). destruct (find_child_spec e s d n name (ok_tree _ Hok) (ok_cache _ Hok) Hd Hn) as (r & c & E & Hc & Ho & Hf).
  exists r, c. split; [done|]. split; [by eapply fs_ok_coord|]. split; [apply Ho|done].
Qed.

(** Checking what is to be replaced. *)
Definition replaceable (e : env) (m : inodes) (moved_directory : bool) (destination : option NamespaceEntry) : Z + unit :=
  match destination with
  | None => inr tt
  | Some d =>
      if moved_directory && negb (nd_type (ne_node d) =? ORCHFS_CORE_DIRECTORY) then inl ENOTDIR
      else if negb moved_directory && (nd_type (ne_node d) =? ORCHFS_CORE_DIRECTORY) then inl EISDIR
      else if nd_type (ne_node d) =? ORCHFS_CORE_DIRECTORY then
        let? empty := directory_empty_locked e m (ne_inode d) in
        if negb empty then inl ENOTEMPTY else inr tt
      else inr tt
  end.
Lemma replaceable_empty e m b d : m !! ne_inode d = Some (ne_node d) -> replaceable e m b (Some d) = inr tt -> forall k en, ~ used m (ne_inode d) k en.
Proof.
  intros Hm. cbn. destruct (b && _); [done|]. destruct (negb b && _); [done|]. destruct (Z.eqb_spec (nd_type (ne_node d)) ORCHFS_CORE_DIRECTORY) as [|Hne].
  - destruct (directory_empty_locked e m (ne_inode d)) as [|[]] eqn:E; try done. intros _. by eapply directory_empty_spec.
  - intros _. by eapply file_empty.
Qed.
Definition destination_of (found : Z + NamespaceEntry) : Z + option NamespaceEntry :=
  match found with inr d => inr (Some d) | inl error => if error =? ENOENT then inr None else inl error end.

Section rename.
Context (e : env) (s : fsystem) (ps : Z) (old : string) (pd : Z) (name : string).
Hypothesis Hok : fs_ok s.
Hypothesis Hr : reads_ok e.
Hypothesis Hps : linked (fs_nodes s) ps.
Hypothesis Hlps : live_dir (fs_nodes s) ps.
Hypothesis Hpd : linked (fs_nodes s) pd.
Hypothesis Hlpd : live_dir (fs_nodes s) pd.
Hypothesis Hold : name_ok old.
Hypothesis Hname : name_ok name.
Hypothesis Hdiff : ~ (ps = pd /\ old = name).
Context (js : nat) (en : orchfs_core_dirent) (ns : node).
Hypothesis Hu : used (fs_nodes s) ps js en.
Hypothesis Hn : de_name en = old.
Hypothesis Hns : fs_nodes s !! de_inode en = Some ns.
Hypothesis Hcycle : nd_type ns = ORCHFS_CORE_DIRECTORY -> pd <> ps -> ~ rtc (dotdot_of (fs_nodes s)) pd (de_inode en).

Lemma source_type : nd_type ns = de_type en.
Proof. destruct (t_target _ _ (ok_tree _ Hok) ps js en Hps Hu) as (_ & _ & n & Hn' & Et). congruence. Qed.
(** What the new name leads to is not the source. *)
Lemma destination_ne found d : found_ok e (fs_nodes s) pd name found -> destination_of found = inr (Some d) -> ne_inode d <> de_inode en /\
  exists jd oe nd, used (fs_nodes s) pd jd oe /\ de_name oe = name /\ fs_nodes s !! de_inode oe = Some nd /\
    d = mk_ns_entry (de_inode oe) nd pd (slot_offset jd) oe.
Proof.
  pose proof (ok_tree _ Hok) as T. destruct found as [error|d']; cbn [found_ok destination_of]; [by destruct (error =? ENOENT)|]. intros Hf [= <-].
  destruct (child_used _ _ pd name d' T Hlpd Hname Hf) as (jd & oe & nd & Hoe & Hnm & Hnd & ->). split; [|eauto 10]. cbn [ne_inode]. intros E.
  destruct (t_once _ _ T pd ps jd js oe en Hpd Hps Hoe Hu E) as [E1 E2]. rewrite E1, E2 in Hoe. destruct Hoe as [Hoe _], Hu as [He _].
  apply Hdiff. split; [done|]. rewrite <-Hn, <-Hnm. by rewrite (ent_fun _ _ _ _ _ Hoe He).
Qed.
(** The slot chosen for the entry is a place for it. *)
Lemma place_found found destination slot b : found_ok e (fs_nodes s) pd name found -> destination_of found = inr destination ->
  replaceable e (fs_nodes s) b destination = inr tt ->
  match destination with
  | Some d => inr (ne_offset d)
  | None => if negb (ps =? pd) then free_directory_slot e (fs_nodes s) pd else inr (slot_offset js)
  end = inr slot ->
  exists jd, slot = slot_offset jd /\ forall g, fst <$> g = ne_inode <$> destination -> place (fs_nodes s) ps js en pd jd name g.
Proof.
  pose proof (ok_tree _ Hok) as T. intros Hf Hd Hrep Hs. destruct destination as [d|].
  - destruct (destination_ne found d Hf Hd) as (Hne & jd & oe & nd & Hoe & Hnm & Hnd & ->). injection Hs as <-. exists jd. split; [done|].
    intros [[x b']|] Hg; [|done]. injection Hg as ->. exists oe. split; [done|]. split; [done|]. split; [done|]. split; [done|].
    apply (replaceable_empty e _ b (mk_ns_entry (de_inode oe) nd pd (slot_offset jd) oe) Hnd Hrep).
  - assert (forall k en', ent (fs_nodes s) pd k en' -> de_name en' <> name) as Hno by (destruct found as [error|]; [|done]; cbn in Hd; destruct (Z.eqb_spec error ENOENT) as [->|]; [|done]; by apply (found_none e)).
    assert (exists jd, slot = slot_offset jd /\ ((pd = ps /\ jd = js) \/ (pd <> ps /\ (2 <= jd)%nat /\ forall en', ~ ent (fs_nodes s) pd jd en'))) as (jd & -> & Hjd).
    { destruct (Z.eqb_spec ps pd) as [E|E]; cbn [negb] in Hs; [injection Hs as <-; exists js; split; [done|by left]|].
      destruct Hlpd as (np & Hnp & Hl). destruct (t_bound _ _ T pd np) as [Hb _]; [apply Hnp|]. destruct (t_dots _ _ T pd np Hnp Hl) as (q & rest & Ee).
      destruct (free_slot_spec e (fs_nodes s) pd np slot Hb Hnp ltac:(rewrite Ee, length_app; cbn; lia) Hs) as (j & -> & _ & Hj & Hfree).
      exists j. split; [done|]. right. split; [done|]. split; [lia|done]. }
    exists jd. split; [done|]. intros [[x b']|] Hg; [done|]. by split.
Qed.
End rename.

Lemma renamed_coord s c s' ps old pd name : inode_states c = inode_states (fs_coord s) -> renamed (set_coord c s) s' ps old pd name -> renamed s s' ps old pd name.
Proof.
  intros E (js & en & jd & g & dd & A & B & C & D & F). exists js, en, jd, g, dd. split; [done|]. split; [done|]. split; [done|]. split; [|done].
  unfold is_open in *. cbn in D. by rewrite <-E.
Qed.
(** All or nothing: what a rename may have done. *)
Definition rename_result (e : env) (s : fsystem) (ps : Z) (old : string) (pd : Z) (name : string) (r : (Z + unit) * fsystem) : Prop :=
  fs_ok r.2 /\ fs_root r.2 = fs_root s /\
  match r.1 with
  | inr _ => (ps = pd /\ old = name /\ fs_nodes r.2 = fs_nodes s) \/ renamed s r.2 ps old pd name
  | inl error => fs_nodes r.2 = fs_nodes s \/ (renamed s r.2 ps old pd name /\ exists i, e_state_unlock e i <> 0 /\ error = e_state_unlock e i)
  end.
Lemma rename_error e s ps old pd name c error : fs_ok (set_coord c s) -> rename_result e s ps old pd name (inl error, set_coord c s).
Proof. intros H. split; [done|]. split; [done|]. by left. Qed.

Section rename_locked.
Context (e : env) (s : fsystem) (ps : Z) (old : string) (pd : Z) (name : string) (expected : NamespaceEntry).
Hypothesis Hok : fs_ok s.
Hypothesis Hr : reads_ok e.
Hypothesis Hps : linked (fs_nodes s) ps.
Hypothesis Hlps : live_dir (fs_nodes s) ps.
Hypothesis Hpd : linked (fs_nodes s) pd.
Hypothesis Hlpd : live_dir (fs_nodes s) pd.
Hypothesis Hold : name_ok old.
Hypothesis Hname : name_ok name.
Hypothesis Hcycle : nd_type (ne_node expected) = ORCHFS_CORE_DIRECTORY -> pd <> ps -> ~ rtc (dotdot_of (fs_nodes s)) pd (ne_inode expected).

(** The ".." entry of a directory that changes its parent. *)
Lemma find_dotdot_ok js en ns c : used (fs_nodes s) ps js en -> fs_nodes s !! de_inode en = Some ns -> fs_ok (set_coord c s) ->
  exists r c', (if (nd_type ns =? ORCHFS_CORE_DIRECTORY) && negb (ps =? pd)
                then match find_child_locked e (set_coord c s) (de_inode en) ".." with
                     | (inl error, s) => (inl error, s)
                     | (inr d, s) => (inr (Some d), s)
                     end
                else (inr None, set_coord c s)) = (r, set_coord c' s) /\
    fs_ok (set_coord c' s) /\ inode_states c' = inode_states c /\
    forall dotdot, r = inr dotdot -> (given dotdot = true <-> de_type en = ORCHFS_CORE_DIRECTORY /\ pd <> ps) /\
      forall ne, dotdot = Some ne -> exists q n, ne = mk_ns_entry q n (de_inode en) (slot_offset 1) (dotdot_entry q).
Proof.
  intros Hu Hns Hokc. pose proof (source_type s ps Hok Hps js en ns Hu Hns) as Et. destruct (t_target _ _ (ok_tree _ Hok) ps js en Hps Hu) as (Hl & _).
  destruct (Z.eqb_spec (nd_type ns) ORCHFS_CORE_DIRECTORY) as [Ht|Ht], (Z.eqb_spec ps pd) as [E|E]; cbn [andb negb].
  1, 3, 4: exists (inr None), c; split; [done|]; split; [done|]; split; [done|]; intros dotdot [= <-]; split; [|done]; split; [done|];
    intros [? ?]; congruence.
  assert (live_dir (fs_nodes s) (de_inode en)) as Hlive by (eapply linked_live; [done|by split]).
  destruct (find_child_ok e (set_coord c s) (de_inode en) ".." Hokc Hl Hlive) as (r & c' & -> & Hok' & S' & F').
  change (set_coord c' (set_coord c s)) with (set_coord c' s) in *. destruct r as [error|d].
  - by exists (inl error), c'.
  - exists (inr (Some d)), c'. split; [done|]. split; [done|]. split; [done|]. intros dotdot [= <-]. split; [split; [intros _|done]; split; congruence|].
    intros ne [= <-]. destruct (child_dotdot _ _ _ d (ok_tree _ Hok) Hlive F') as (q & n & -> & _). by exists q, n.
Qed.
(** The transaction, from a state that differs in its caches. *)
Lemma rename_commit js en ns jd destination dotdot c : used (fs_nodes s) ps js en -> de_name en = old -> fs_nodes s !! de_inode en = Some ns ->
  de_inode en = ne_inode expected -> nd_type ns = nd_type (ne_node expected) -> ~ (ps = pd /\ old = name) ->
  (forall g, fst <$> g = ne_inode <$> destination -> place (fs_nodes s) ps js en pd jd name g) ->
  (forall ne, dotdot = Some ne -> exists q n, ne = mk_ns_entry q n (de_inode en) (slot_offset 1) (dotdot_entry q)) ->
  (given dotdot = true <-> de_type en = ORCHFS_CORE_DIRECTORY /\ pd <> ps) -> fs_ok (set_coord c s) -> inode_states c = inode_states (fs_coord s) ->
  rename_result e s ps old pd name
    match destination with
    | Some d =>
        if negb (e_state_lock e (ne_inode d) =? 0) then (inl (e_state_lock e (ne_inode d)), set_coord c s)
        else fold_release (e_state_unlock e (ne_inode d))
          (commit_rename_locked e (set_coord c s) (mk_parent_path ps old) (mk_parent_path pd name)
             (mk_ns_entry (de_inode en) ns ps (slot_offset js) en) destination dotdot (slot_offset jd))
    | None => commit_rename_locked e (set_coord c s) (mk_parent_path ps old) (mk_parent_path pd name)
                (mk_ns_entry (de_inode en) ns ps (slot_offset js) en) destination dotdot (slot_offset jd)
    end.
Proof.
  intros Hu <- Hns Ei Et Hdiff Hplace Hdot Hdd Hokc S. pose proof (source_type s ps Hok Hps js en ns Hu Hns) as Est.
  assert (given dotdot = true -> ~ rtc (dotdot_of (fs_nodes s)) pd (de_inode en)) as Hcyc.
  { intros [Ht Hne]%Hdd. rewrite Ei. apply Hcycle; [congruence|done]. }
  destruct (commit_rename_spec e (set_coord c s) ps js en ns pd jd name destination dotdot Hokc Hps Hu Hpd Hlpd Hname Hplace Hdot Hdd Hcyc Hdiff)
    as (A & B & C). set (r := commit_rename_locked _ _ _ _ _ _ _ _) in *.
  assert (rename_result e s ps (de_name en) pd name r) as Hres.
  { split; [done|]. split; [done|]. destruct (r.1); [by left|right; by eapply renamed_coord]. }
  destruct destination as [d|]; [|done]. destruct (negb (e_state_lock e (ne_inode d) =? 0)); [by apply rename_error|].
  destruct r as [[error|[]] s']; [done|]. cbn [fold_release]. destruct (Z.eqb_spec (e_state_unlock e (ne_inode d)) 0) as [|Hne]; cbn [negb]; [done|].
  split; [done|]. split; [done|]. right. split; [by eapply renamed_coord|]. by exists (ne_inode d).
Qed.

Lemma rename_locked_spec expected_destination :
  rename_result e s ps old pd name (rename_locked e s (mk_parent_path ps old) (mk_parent_path pd name) expected expected_destination).
Proof.
  unfold rename_locked. cbn [pp_parent pp_name]. pose proof (ok_tree _ Hok) as T.
  destruct (find_child_ok e s ps old Hok Hps Hlps) as (r1 & c1 & -> & Hok1 & S1 & F1).
  destruct r1 as [error|source]; [by apply rename_error|].
  destruct (child_used _ _ ps old source T Hlps Hold F1) as (js & en & ns & Hu & Hn & Hns & ->). cbn [ne_inode ne_node ne_parent ne_offset].
  destruct (same_entry _ expected) eqn:Esame; cbn [negb]; [|by apply rename_error].
  unfold same_entry in Esame. cbn [ne_inode ne_node] in Esame. apply andb_prop in Esame as [Ei%Z.eqb_eq Et%Z.eqb_eq].
  destruct (de_inode en =? _); [by apply rename_error|].
  destruct ((ps =? pd) && bool_decide (old = name)) eqn:Ediff.
  { apply andb_prop in Ediff as [->%Z.eqb_eq ->%bool_decide_eq_true]. split; [done|]. split; [done|]. by left. }
  assert (~ (ps = pd /\ old = name)) as Hdiff.
  { intros [-> ->]. rewrite Z.eqb_refl, bool_decide_true in Ediff by done. done. }
  destruct (find_child_ok e (set_coord c1 s) pd name Hok1 Hpd Hlpd) as (found & c2 & -> & Hok2 & S2 & F2).
  cbn [set_coord fs_coord fs_nodes] in S2, F2. change (set_coord c2 (set_coord c1 s)) with (set_coord c2 s) in *. fold (destination_of found).
  destruct (destination_of found) as [error|destination] eqn:Edest; [by apply rename_error|].
  destruct (negb (match destination, expected_destination with Some d, Some expected => _ | None, None => true | _, _ => false end)); [by apply rename_error|].
  change (fs_nodes (set_coord c2 s)) with (fs_nodes s).
  destruct (match destination with Some d => ne_inode d =? de_inode en | None => false end) eqn:Esrc.
  { destruct destination as [d|]; [|done]. apply Z.eqb_eq in Esrc.
    by destruct (destination_ne e s ps old pd name Hok Hps Hpd Hlpd Hname Hdiff js en Hu Hn found d F2 Edest) as [? _]. }
  fold (replaceable e (fs_nodes s) (nd_type ns =? ORCHFS_CORE_DIRECTORY) destination).
  destruct (replaceable e (fs_nodes s) (nd_type ns =? ORCHFS_CORE_DIRECTORY) destination) as [error|[]] eqn:Erep; [by apply rename_error|].
  destruct (find_dotdot_ok js en ns c2 Hu Hns Hok2) as (r3 & c3 & -> & Hok3 & S3 & F3). destruct r3 as [error|dotdot]; [by apply rename_error|].
  change (fs_nodes (set_coord c3 s)) with (fs_nodes s).
  destruct (match destination with Some d => inr (ne_offset d) | None => _ end) as [error|slot] eqn:Eslot; [by apply rename_error|].
  destruct (place_found e s ps old pd name Hok Hr Hps Hpd Hlpd Hname Hdiff js en Hu Hn found destination slot (nd_type ns =? ORCHFS_CORE_DIRECTORY) F2 Edest Erep Eslot) as (jd & -> & Hplace).
  destruct (F3 dotdot eq_refl) as [Hdd Hdot]. apply rename_commit; try done. congruence.
Qed.
End rename_locked.
