(* ===== verification/NamespaceOps.v ===== *)
(** * The name space operations (Async/kfs_coroutine_core.cpp: mkdir, unlink, rmdir, rename, open, close)

    Every operation on a path, with whatever errors it meets, keeps the invariant of
    Tree.v; a rename asks for an ancestor test that always answers. *)

From stdpp Require Import base tactics numbers list gmap strings relations.
From Stdlib Require Import ZArith Lia.
From S2P Require Import Prelude Bytes Layout Pmem Namespace DataPath Extents Directory Tree Rename.
Open Scope Z_scope.

(** Only caches of names change. *)
Definition cached_only (s s' : fsystem) : Prop :=
  exists c, s' = set_coord c s /\ fs_ok s' /\ inode_states c = inode_states (fs_coord s).
Lemma cached_only_refl s : fs_ok s -> cached_only s s.
Proof. intros H. exists (fs_coord s). rewrite set_coord_id. done. Qed.
Lemma cached_only_trans s s1 s2 : cached_only s s1 -> cached_only s1 s2 -> cached_only s s2.
Proof. intros (c1 & -> & _ & E1) (c2 & -> & H & E2). exists c2. cbn in *. split; [done|]. split; [done|congruence]. Qed.
Lemma cached_only_ok s s' : cached_only s s' -> fs_ok s' /\ fs_nodes s' = fs_nodes s /\ fs_root s' = fs_root s.
Proof. by intros (c & -> & H & _). Qed.

(** ** Lookup under the lock of a directory *)

Definition lock_error (e : env) (d error : Z) : Prop := (error = e_directory_lock e d \/ error = e_directory_unlock e d) /\ error <> 0.
Definition locks_ok (e : env) : Prop := forall d, e_directory_lock e d <> ENOENT /\ e_directory_unlock e d <> ENOENT.
Definition looked_up (e : env) (m : inodes) (d : Z) (name : string) (r : Z + NamespaceEntry) : Prop :=
  match r with
  | inr ne => is_child m d name ne
  | inl error => (error = ENOENT /\ forall j en, ent m d j en -> de_name en <> name) \/ read_error e d error \/ lock_error e d error
  end.
Lemma find_child_dir e s d name : fs_ok s -> linked (fs_nodes s) d -> live_dir (fs_nodes s) d ->
  let r := find_child e s d name in cached_only s r.2 /\ looked_up e (fs_nodes s) d name r.1.
Proof.
  intros Hok Hd Hl. unfold find_child. destruct (Z.eqb_spec (e_directory_lock e d) 0) as [|Hne]; cbn [negb].
  - destruct (find_child_ok e s d name Hok Hd Hl) as (r & c & -> & Hok' & S' & F). assert (cached_only s (set_coord c s)) as Hc by (by exists c).
    destruct r as [error|ne]; cbn [fold_release].
    + split; [done|]. cbn in *. tauto.
    + destruct (Z.eqb_spec (e_directory_unlock e d) 0) as [|Hne]; cbn [negb fst snd]; (split; [done|]); [done|]. cbn. unfold lock_error. tauto.
  - split; [by apply cached_only_refl|]. cbn. unfold lock_error. tauto.
Qed.
(** On any linked inode. *)
Lemma find_child_any e s i name : fs_ok s -> linked (fs_nodes s) i ->
  let r := find_child e s i name in cached_only s r.2 /\ forall ne, r.1 = inr ne -> live_dir (fs_nodes s) i /\ is_child (fs_nodes s) i name ne.
Proof.
  intros Hok Hi. pose proof Hi as (n & Hn & Hl & _). destruct (decide (nd_type n = ORCHFS_CORE_DIRECTORY)) as [Ht|Ht].
  - assert (live_dir (fs_nodes s) i) as Hd by (by exists n). destruct (find_child_dir e s i name Hok Hi Hd) as [A B]. split; [done|].
    intros ne E. by rewrite E in B.
  - unfold find_child, find_child_locked. destruct (negb (e_directory_lock e i =? 0)); [split; [by apply cached_only_refl|done]|].
    rewrite (snapshot_ok _ _ (ok_tree _ Hok) i n Hn), (proj2 (Z.eqb_neq _ _) Ht). cbn. split; [by apply cached_only_refl|done].
Qed.
(** Where an entry leads. *)
Lemma child_linked m root d name ne : tree m root -> linked m d -> live_dir m d -> is_child m d name ne ->
  linked m (ne_inode ne) /\ m !! ne_inode ne = Some (ne_node ne).
Proof.
  intros T Hd Hl (j & en & n & He & _ & Hm & ->). cbn. split; [|done]. destruct (ent_ok m root T d j en Hd He) as (n' & Hn' & _ & _ & _ & H). done.
Qed.

(** ** Paths *)

Definition directory_ok (m : inodes) (d : Z) : Prop := linked m d /\ live_dir m d.
Lemma walk_spec e components parents : forall s current located, fs_ok s -> linked (fs_nodes s) current -> (parents = true -> live_dir (fs_nodes s) current) ->
  let r := walk e s current (inr (current, located)) components parents in
  cached_only s r.2 /\ forall i n, r.1 = inr (i, n) -> linked (fs_nodes s) i /\ (parents = true -> live_dir (fs_nodes s) i) /\
    ((i = current /\ n = located) \/ fs_nodes s !! i = Some n).
Proof.
  induction components as [|component rest IH]; intros s current located Hok Hc Hl; cbn [walk].
  { split; [by apply cached_only_refl|]. intros i n [= <- <-]. auto. }
  destruct (bool_decide (component = ".")); [by apply IH|].
  pose proof (find_child_any e s current component Hok Hc) as [A B]. destruct (find_child e s current component) as [[error|ne] s1]; cbn [fst snd] in *; [done|].
  destruct (B ne eq_refl) as [Hlive Hch]. destruct (child_linked _ _ _ _ _ (ok_tree _ Hok) Hc Hlive Hch) as [Hln Hm].
  destruct (parents && negb (nd_type (ne_node ne) =? ORCHFS_CORE_DIRECTORY)) eqn:Ep; [done|]. destruct (cached_only_ok _ _ A) as (Hok1 & E1 & _).
  assert (parents = true -> live_dir (fs_nodes s1) (ne_inode ne)) as Hl1.
  { intros ->. rewrite E1. cbn in Ep. apply negb_false_iff, Z.eqb_eq in Ep. destruct Hln as (n & Hn & Hl' & _). exists n. split; [split; [done|congruence]|done]. }
  destruct (IH s1 (ne_inode ne) (ne_node ne) Hok1 ltac:(by rewrite E1) Hl1) as [C D]. split; [by eapply cached_only_trans|].
  intros i n E. destruct (D i n E) as (D1 & D2 & D3). rewrite E1 in D1, D2, D3. split; [done|]. split; [done|]. right. destruct D3 as [[-> ->]|D3]; done.
Qed.
Lemma start_root s path : start_of s path None = fs_root s.
Proof. done. Qed.
Lemma root_ok s : fs_ok s -> directory_ok (fs_nodes s) (fs_root s).
Proof. intros H. apply (t_root _ _ (ok_tree _ H)). Qed.
Lemma resolve_spec e s path : fs_ok s -> let r := resolve e s path None in
  cached_only s r.2 /\ forall i n, r.1 = inr (i, n) -> linked (fs_nodes s) i /\ fs_nodes s !! i = Some n.
Proof.
  intros Hok. unfold resolve. rewrite start_root. destruct (root_ok s Hok) as [Hl Hd]. destruct (split_path path) as [error|components]; [by split; [apply cached_only_refl|]|].
  destruct (fs_root s <? 0); [by split; [apply cached_only_refl|]|].
  destruct (orchfs_core_snapshot (fs_nodes s) (fs_root s)) as [error|n0] eqn:Es; [by split; [apply cached_only_refl|]|]. apply snapshot_inv in Es.
  destruct (walk_spec e components false s (fs_root s) n0 Hok Hl ltac:(done)) as [A B]. split; [done|]. intros i n E. destruct (B i n E) as (B1 & _ & [[-> ->]|B2]); done.
Qed.
Lemma split_path_names path components : split_path path = inr components ->
  forall name, name ∈ components -> Z.of_nat (String.length name) <= ORCHFS_CORE_DIRENT_NAME_MAX.
Proof.
  unfold split_path. destruct (bool_decide (path = EmptyString)); [done|]. destruct (existsb _ _) eqn:E; [done|]. intros [= <-] name Hin.
  destruct (Z.ltb_spec ORCHFS_CORE_DIRENT_NAME_MAX (Z.of_nat (String.length name))) as [Hlt|]; [|lia]. exfalso.
  rewrite (proj2 (existsb_exists _ _)) in E; [done|]. exists name. split; [by apply list_elem_of_In|by apply Z.ltb_lt].
Qed.
Lemma resolve_parent_spec e s path : fs_ok s -> let r := resolve_parent e s path None in
  cached_only s r.2 /\ forall p, r.1 = inr p -> directory_ok (fs_nodes s) (pp_parent p) /\ name_ok (pp_name p).
Proof.
  intros Hok. unfold resolve_parent. rewrite start_root. destruct (root_ok s Hok) as [Hl Hd].
  destruct (split_path path) as [error|components] eqn:Esp; [by split; [apply cached_only_refl|]|].
  destruct (last components) as [name|] eqn:El; [|by split; [apply cached_only_refl|]].
  destruct (bool_decide (name = EmptyString) || bool_decide (name = ".") || bool_decide (name = "..")) eqn:En; [by split; [apply cached_only_refl|]|].
  destruct (walk_spec e (removelast components) true s (fs_root s) (new_node ORCHFS_CORE_DIRECTORY []) Hok Hl ltac:(done)) as [A B].
  destruct (walk _ _ _ _ _ _) as [[error|[i n]] s1]; cbn [fst snd] in *; (split; [done|]); [done|]. intros p [= <-]. cbn.
  destruct (B i n eq_refl) as (B1 & B2 & _). split; [split; auto|]. rewrite !orb_false_iff, !bool_decide_eq_false in En. split; [apply En|]. split; [apply En|].
  apply (split_path_names path components Esp). apply last_Some in El as [l ->]. apply elem_of_app. right. by apply list_elem_of_singleton.
Qed.

(** ** Ancestors *)

Section below.
Context (e : env) (m : inodes) (root : Z) (T : tree m root) (ancestor : Z).

Lemma not_on_cycle d p : directory_ok m d -> d <> root -> dotdot_of m d p -> ~ rtc (dotdot_of m) p d.
Proof.
  intros [Hd Hl] Hne Hp Hr. apply Hne. apply (root_top m root d T). apply cycle_back; [by exists p|]. by apply (t_reach _ _ T).
Qed.
(** The test answers with the fuel it is given, and the answer is right. *)
Lemma parent_is_below_spec fuel : forall s current visited, fs_ok s -> fs_nodes s = m -> fs_root s = root -> directory_ok m current ->
  (fuel + length visited = S (size m))%nat -> NoDup visited ->
  (forall v, v ∈ visited -> is_Some (m !! v) /\ exists p, dotdot_of m v p /\ rtc (dotdot_of m) p current) ->
  exists r, (parent_is_below e fuel s current ancestor visited).1 = Some r /\ cached_only s (parent_is_below e fuel s current ancestor visited).2 /\
    match r with
    | inr b => b = true <-> rtc (dotdot_of m) current ancestor
    | inl error => exists d, read_error e d error \/ lock_error e d error
    end.
Proof.
  induction fuel as [|fuel IH]; intros s current visited Hok Em Er [Hc Hl] Hfuel Hnd Hv.
  { exfalso. assert (length visited <= size m)%nat; [|lia]. rewrite <-size_dom, <-(size_list_to_set (C := gset Z)) by done. apply subseteq_size.
    intros v Hin%elem_of_list_to_set. apply elem_of_dom. by apply Hv. }
  cbn [parent_is_below]. destruct (Z.eqb_spec current ancestor) as [->|Hne].
  { eexists. split; [done|]. split; [by apply cached_only_refl|]. done. }
  rewrite Er. destruct (Z.eqb_spec current root) as [->|Hroot].
  { eexists. split; [done|]. split; [by apply cached_only_refl|]. split; [done|]. intros H%(root_top m root _ T). done. }
  assert (current ∉ visited) as Hnin by (intros Hin; destruct (Hv current Hin) as (_ & p & Hp & Hr); by apply (not_on_cycle current p)).
  rewrite bool_decide_eq_false_2 by done.
  destruct (find_child_dir e s current ".." Hok ltac:(by rewrite Em) ltac:(by rewrite Em)) as [A B]. rewrite Em in B.
  destruct (find_child e s current "..") as [[error|ne] s1]; cbn [fst snd] in *.
  { eexists. split; [done|]. split; [done|]. destruct B as [[_ B]|B]; [|by exists current].
    destruct (dots_ent m root current T Hl) as (_ & p & Hp). by destruct (B 1%nat _ Hp). }
  destruct (child_dotdot m root current ne T Hl B) as (q & n & -> & Hq & Hn). cbn [ne_inode ne_node].
  destruct (dotdot_linked m root T current q Hc Hl Hq) as (Hlq & n' & Hn'). assert (n' = n) as -> by (destruct Hn'; congruence).
  rewrite (proj2 Hn'), Z.eqb_refl. cbn [negb orb]. destruct (Z.eqb_spec q current) as [->|Hqc].
  { exfalso. by apply (not_on_cycle current current). }
  destruct (cached_only_ok _ _ A) as (Hok1 & E1 & E2). pose proof (linked_live m q n Hlq Hn') as Hlq'.
  destruct (IH s1 q (current :: visited) Hok1) as (r & C1 & C2 & C3); [congruence|congruence|done|cbn; lia|by constructor| |].
  { intros v [->|Hin]%elem_of_cons.
    - split; [destruct Hc as (nc & Hnc & _); by eexists|]. by exists q.
    - destruct (Hv v Hin) as (V1 & p & V2 & V3). split; [done|]. exists p. split; [done|]. by eapply rtc_r. }
  exists r. split; [done|]. split; [by eapply cached_only_trans|]. destruct r as [error|b]; [done|]. rewrite C3. split; [by apply rtc_l|].
  intros H. inversion H as [|? p ? Hp Hr]; subst; [done|]. by rewrite (dotdot_det _ _ _ _ Hq Hp).
Qed.
End below.

(** ** Directories and files by path *)

Lemma fold_release_state {A} error (r : (Z + A) * fsystem) : (fold_release error r).2 = r.2.
Proof. destruct r as [[|] s]; [done|]. cbn. by destruct (negb _). Qed.
Lemma fold_release_inv {A} error (r r' : Z + A) s s' : fold_release error (r, s) = (r', s') -> s' = s.
Proof. intros E. change s with ((r, s).2). by rewrite <-(fold_release_state error), E. Qed.
(** The inode a transaction creates was free. *)
Definition creates_fresh (e : env) (s : fsystem) : Prop := forall i, e_create e = inr i -> fresh (fs_nodes s) i.
Lemma creates_fresh_cached e s s' : cached_only s s' -> creates_fresh e s -> creates_fresh e s'.
Proof. by intros (c & -> & _). Qed.

Lemma make_directory_ok e s path : fs_ok s -> reads_ok e -> creates_fresh e s -> fs_ok (make_directory e s path).2.
Proof.
  intros Hok Hr Hf. unfold make_directory. destruct (resolve_parent_spec e s path Hok) as [A B].
  destruct (resolve_parent e s path None) as [[error|p] s1]; cbn [fst snd] in *; [by destruct (cached_only_ok _ _ A)|].
  destruct (B p eq_refl) as [[B1 B2] B3]. destruct (cached_only_ok _ _ A) as (Hok1 & E1 & _). destruct (negb _); [done|]. rewrite fold_release_state.
  rewrite <-E1 in B1, B2.
  pose proof (create_child_spec e s1 (pp_parent p) (pp_name p) ORCHFS_CORE_DIRECTORY Hok1 Hr B1 B2 B3 ltac:(by left) (creates_fresh_cached e s s1 A Hf)) as [C _].
  by destruct (create_node_locked e s1 _ _ _) as [[|] s2].
Qed.
Lemma remove_path_ok e s path type : fs_ok s -> fs_ok (remove_path e s path type).2.
Proof.
  intros Hok. unfold remove_path. destruct (_ && _); [done|]. destruct (resolve_parent_spec e s path Hok) as [A B].
  destruct (resolve_parent e s path None) as [[error|p] s1]; cbn [fst snd] in *; [by destruct (cached_only_ok _ _ A)|].
  destruct (B p eq_refl) as [[B1 B2] B3]. destruct (cached_only_ok _ _ A) as (Hok1 & E1 & _). rewrite <-E1 in B1, B2.
  destruct (type =? ORCHFS_CORE_DIRECTORY).
  - destruct (find_child_dir e s1 (pp_parent p) (pp_name p) Hok1 B1 B2) as [C _]. destruct (find_child e s1 _ _) as [[error|child] s2]; cbn [fst snd] in *;
      destruct (cached_only_ok _ _ C) as (Hok2 & E2 & _); [done|]. destruct (negb _); [done|]. rewrite !fold_release_state.
    apply remove_child_spec; [done|by rewrite E2|by rewrite E2|done].
  - destruct (negb _); [done|]. rewrite fold_release_state. by apply remove_child_spec.
Qed.
(** The ancestor test of a rename. *)
Lemma cycle_checked e s ps pd source (directory : bool) : fs_ok s -> directory_ok (fs_nodes s) pd ->
  let r := if directory && negb (ps =? pd) then parent_is_below e (below_fuel s) s pd source [] else (Some (inr false), s) in
  cached_only s r.2 /\ (r.1 = Some (inr false) -> directory = true -> pd <> ps -> ~ rtc (dotdot_of (fs_nodes s)) pd source).
Proof.
  intros Hok Hd. destruct directory, (Z.eqb_spec ps pd) as [E|E]; cbn [andb negb]; [by split; [apply cached_only_refl|]| |by split; [apply cached_only_refl|]..].
  destruct (parent_is_below_spec e (fs_nodes s) (fs_root s) (ok_tree _ Hok) source (below_fuel s) s pd [] Hok eq_refl eq_refl Hd) as (r & E1 & E2 & E3);
    [unfold below_fuel; cbn; lia|constructor|by intros v ?%elem_of_nil|]. split; [done|]. rewrite E1. intros [= ->] _ _ Hr. by apply E3 in Hr.
Qed.
Lemma rename_attempt_ok e s old_path new_path topology : fs_ok s -> reads_ok e -> fs_ok (rename_attempt e s old_path new_path topology).2.
Proof.
  intros Hok Hr. unfold rename_attempt.
  destruct (resolve_parent_spec e s old_path Hok) as [A1 B1]. destruct (resolve_parent e s old_path None) as [[error|p] s1]; cbn [fst snd] in *;
    destruct (cached_only_ok _ _ A1) as (Hok1 & E1 & _); [done|]. destruct (B1 p eq_refl) as [[P1 P2] P3].
  destruct (resolve_parent_spec e s1 new_path Hok1) as [A2 B2]. destruct (resolve_parent e s1 new_path None) as [[error|q] s2]; cbn [fst snd] in *;
    destruct (cached_only_ok _ _ A2) as (Hok2 & E2 & _); [done|]. destruct (B2 q eq_refl) as [[Q1 Q2] Q3].
  destruct (find_child_dir e s2 (pp_parent p) (pp_name p) Hok2 ltac:(congruence) ltac:(congruence)) as [A3 B3].
  destruct (find_child e s2 (pp_parent p) _) as [[error|source] s3]; cbn [fst snd] in *; destruct (cached_only_ok _ _ A3) as (Hok3 & E3 & _); [done|].
  destruct (_ && negb topology); [done|].
  destruct (find_child_dir e s3 (pp_parent q) (pp_name q) Hok3 ltac:(congruence) ltac:(congruence)) as [A4 _].
  destruct (find_child e s3 (pp_parent q) _) as [found s4]; cbn [fst snd] in *; destruct (cached_only_ok _ _ A4) as (Hok4 & E4 & _).
  fold (destination_of found). destruct (destination_of found) as [error|destination]; [done|].
  destruct (cycle_checked e s4 (pp_parent p) (pp_parent q) (ne_inode source) (nd_type (ne_node source) =? ORCHFS_CORE_DIRECTORY) Hok4
    ltac:(split; congruence)) as [A5 B5].
  destruct (if _ && _ then parent_is_below _ _ _ _ _ _ else _) as [cycle s5]; cbn [fst snd] in *; destruct (cached_only_ok _ _ A5) as (Hok5 & E5 & _).
  destruct cycle as [[error|[]]|]; [done|done| |done]. destruct (negb (set_lock e _ =? 0)); [done|]. destruct p as [ps old], q as [pd name]. cbn [pp_parent pp_name] in *.
  assert (nd_type (ne_node source) = ORCHFS_CORE_DIRECTORY -> pd <> ps -> ~ rtc (dotdot_of (fs_nodes s5)) pd (ne_inode source)) as Hcyc.
  { intros Ht%Z.eqb_eq. rewrite E5. by apply B5. }
  pose proof (rename_locked_spec e s5 ps old pd name source Hok5 Hr ltac:(congruence) ltac:(congruence) ltac:(congruence) ltac:(congruence) P3 Q3 Hcyc
    destination) as [H _]. destruct (rename_locked e s5 _ _ source destination) as [result s6]. cbn [snd] in H.
  destruct (fold_release _ (result, s6)) as [result1 s7] eqn:F1. apply fold_release_inv in F1 as ->.
  destruct (if topology then _ else _) as [result2 s8] eqn:F2. assert (s8 = s6) as ->.
  { destruct topology; [by apply fold_release_inv in F2|by injection F2]. }
  destruct result2 as [error|]; [|done]. by destruct (_ && _).
Qed.
Lemma rename_path_ok e s old_path new_path : fs_ok s -> reads_ok e -> fs_ok (rename_path e s old_path new_path).2.
Proof.
  intros Hok Hr. unfold rename_path. generalize 8%nat, false. intros n. revert s Hok. induction n as [|n IH]; intros s Hok topology; [done|].
  cbn [rename_attempts]. destruct (topology && _); [done|]. pose proof (rename_attempt_ok e s old_path new_path topology Hok Hr) as H.
  destruct (rename_attempt _ _ _ _ _) as [[result|again] s1]; [done|]. by apply IH.
Qed.

(** ** Opening and closing *)

Lemma refs_insert m u i st n : refs_of m u -> 0 <= i -> m !! i = Some n -> nd_live n = true -> nd_orphan n = orphaned st -> 1 <= open_references st ->
  refs_of m (sh_insert i st u).
Proof.
  intros [H1 H2] H0 Hn Hl Ho Hr. split.
  - intros x st' Hx. rewrite sh_find_insert. destruct (decide (x = i)) as [->|]; [intros [= <-]; eauto|by apply H1].
  - intros x n' Hn' A B. rewrite sh_find_insert. destruct (decide (x = i)); [eauto|by apply (H2 x n')].
Qed.
Lemma refs_erase m u i n : refs_of m u -> m !! i = Some n -> nd_orphan n = false -> refs_of m (sh_erase i u).
Proof.
  intros [H1 H2] Hn Ho. split.
  - intros x st Hx. rewrite sh_find_erase. destruct (decide (x = i)); [done|by apply H1].
  - intros x n' Hn' A B. rewrite sh_find_erase. destruct (decide (x = i)) as [->|]; [congruence|by apply (H2 x n')].
Qed.
Lemma fs_ok_states s u : fs_ok s -> refs_of (fs_nodes s) u -> fs_ok (set_coord (set_inode_states u (fs_coord s)) s).
Proof. intros [T C R] H. by split. Qed.

(** Freeing an orphan changes nothing that is linked. *)
Lemma free_orphan_tree m root i n : tree m root -> m !! i = Some n -> nd_live n = true -> nd_orphan n = true -> tree (<[i := free_node n]> m) root.
Proof.
  intros T Hn Hl Ho. assert (~ linked m i) as Hul by (intros (n' & Hn' & _ & ?); congruence).
  assert (forall d k en, ent (<[i := free_node n]> m) d k en <-> ent m d k en) as He by (intros d k en; by apply (unlink_ent m i n false)).
  apply (relink_tree m _ root (fun _ _ => False) None (Some i) T). split; try done.
  - intros x Hx. rewrite lookup_insert_ne; [done|congruence].
  - intros x n' [= <-]. rewrite lookup_insert_eq. intros [= <-]. by exists n.
  - intros x [= <-] (n' & Hn' & Hl' & _). rewrite lookup_insert_eq in Hn'. by injection Hn' as <-.
  - intros d k en. unfold used. rewrite He. split; [intros H; left; by split; [|tauto]|by intros [[H _]|?]].
  - intros d n' [Hn' Ht] Hl'. destruct (decide (d = i)) as [->|Hne]; [rewrite lookup_insert_eq in Hn'; by injection Hn' as <-|].
    rewrite lookup_insert_ne in Hn' by done. by apply (t_dots _ _ T d n').
  - intros d q _. apply dotdot_ent. intros en. by apply He.
  - intros x k en [= <-]. split; [intros ->; apply Hul; apply T|]. split.
    + intros [(n' & [Hn' Ht] & Hk) H2]. assert (n' = n) as -> by congruence. apply (t_orphan_empty _ _ T i n k en); [done|done|done|]. split; [by exists n|done].
    + intros d j en' Hd Hu E. destruct (t_target _ _ T d j en' Hd Hu) as (H & _). by rewrite E in H.
Qed.
Lemma free_orphan_ok s i n s' : fs_ok s -> fs_nodes s !! i = Some n -> nd_live n = true -> nd_orphan n = true ->
  view s' = (<[i := free_node n]> (fs_nodes s), fs_root s, sh_erase i (dentries (fs_coord s)), sh_erase i (inode_states (fs_coord s))) -> fs_ok s'.
Proof.
  intros [T C R] Hn Hl Ho Hv. apply (fs_ok_parts s' _ _ _ _ Hv).
  - by apply free_orphan_tree.
  - intros d index H0. rewrite sh_find_erase. destruct (decide (d = i)) as [|Hne]; [done|]. intros Hf. destruct (C d index H0 Hf) as [A B].
    apply (index_ext (fs_nodes s)); [intros k en; by apply (unlink_ent _ i n false)| |by split]. eapply live_dir_attr; [|exact A]. by rewrite lookup_insert_ne.
  - apply (refs_unlink (fs_nodes s) _ (inode_states (fs_coord s)) _ i n false); [done|done|done|..].
    + intros x Hx. by rewrite lookup_insert_ne.
    + rewrite lookup_insert_eq. by eexists.
    + intros k Hk. by rewrite sh_find_erase, decide_False.
    + by rewrite sh_find_erase, decide_True.
Qed.
Lemma release_ok e s i : fs_ok s -> fs_ok (release e s i).2.
Proof.
  intros Hok. unfold release. destruct (negb _); [done|]. rewrite fold_release_state. unfold release_reference_locked.
  destruct (Z.ltb_spec i 0) as [|H0]; [by rewrite set_coord_id|]. destruct (sh_find i (inode_states (fs_coord s))) as [st|] eqn:Ef; [|by rewrite set_coord_id].
  destruct (ok_refs _ Hok) as [H1 _]. destruct (H1 i st H0 Ef) as (Hr & n & Hn & Hl & Ho). rewrite (proj2 (Z.eqb_neq _ 0)) by lia.
  destruct (Z.ltb_spec 1 (open_references st)) as [Hgt|Hle].
  { cbn [snd]. apply fs_ok_states; [done|]. apply (refs_insert _ _ _ _ n); try done; [apply Hok|cbn; lia]. }
  destruct (orphaned st) eqn:Eo; cbn [negb]; [|cbn [snd]; apply fs_ok_states; [done|apply (refs_erase _ _ _ n); [apply Hok|done|done]]].
  rewrite set_coord_id. destruct (negb _); [done|]. unfold orchfs_core_delete_inode. destruct (_ || _); [done|]. rewrite Hn. destruct (negb _); [done|].
  cbn [with_commit]. destruct (negb _); [done|]. cbn [snd]. apply (free_orphan_ok s i n); [done|done|done|done|]. rewrite forget_view by done. cbn.
  unfold finish_orphan_release_locked, erase_inode_state_locked. by rewrite (proj2 (Z.ltb_ge i 0)) by done.
Qed.

(** A change of an inode that leaves its kind and entries. *)
Lemma resize_ok s i n n' s' : fs_ok s -> fs_nodes s !! i = Some n -> attr n' = attr n -> nd_entries n' = nd_entries n ->
  view s' = (<[i := n']> (fs_nodes s), fs_root s, dentries (fs_coord s), inode_states (fs_coord s)) -> fs_ok s'.
Proof.
  intros [T C R] Hn Ha He Hv. set (m := fs_nodes s) in *. assert (forall x, attr <$> <[i := n']> m !! x = attr <$> m !! x) as HA.
  { intros x. destruct (decide (x = i)) as [->|]; [by rewrite lookup_insert_eq, Hn; cbn; rewrite Ha|by rewrite lookup_insert_ne]. }
  assert (nd_type n' = nd_type n) as Ht by (unfold attr in Ha; congruence).
  assert (forall d k en, ent (<[i := n']> m) d k en <-> ent m d k en) as HE.
  { intros d k en. unfold ent, dir_node. destruct (decide (d = i)) as [->|]; [|by rewrite lookup_insert_ne]. rewrite lookup_insert_eq, Hn.
    split; intros (x & [[= <-] Hx] & Hk); [exists n|exists n']; rewrite ?He, ?Ht in *; done. }
  apply (fs_ok_parts s' _ _ _ _ Hv).
  - apply (relink_tree m _ (fs_root s) (fun _ _ => False) None None T). split; try done.
    + intros d k en. unfold used. rewrite HE. split; [intros H; left; by split; [|tauto]|by intros [[H _]|?]].
    + intros d x [Hx Hd] Hl. destruct (decide (d = i)) as [->|]; [|rewrite lookup_insert_ne in Hx by done; by apply (t_dots _ _ T d x)].
      rewrite lookup_insert_eq in Hx. injection Hx as <-. rewrite He. apply (t_dots _ _ T i n); [split; congruence|unfold attr in Ha; congruence].
    + intros d q _. apply dotdot_ent. intros en. by apply HE.
  - intros d index H0 Hf. destruct (C d index H0 Hf) as [A B]. apply (index_ext m); [intros; apply HE| |by split]. eapply live_dir_attr; [|exact A]. symmetry. apply HA.
  - by apply (refs_attr m).
Qed.
Lemma truncate_open_ok e s i n : fs_ok s -> linked (fs_nodes s) i -> fs_ok (truncate_open e s i n).2 /\
  linked (fs_nodes (truncate_open e s i n).2) i /\ fs_root (truncate_open e s i n).2 = fs_root s.
Proof.
  intros Hok Hi. unfold truncate_open. destruct (negb _); [done|]. destruct (negb _); [done|]. pose proof Hi as (ni & Hn & Hl & Ho). rewrite Hn.
  destruct (negb (e_size e =? 0)); [done|]. destruct (negb _); [done|]. set (m' := <[i := set_node_size 0 ni]> (fs_nodes s)).
  assert (linked m' i) as Hi' by (exists (set_node_size 0 ni); unfold m'; by rewrite lookup_insert_eq).
  assert (forall s', view s' = view (set_nodes m' s) -> fs_ok s') as H by (intros s' Hv; by apply (resize_ok s i ni (set_node_size 0 ni))).
  destruct (negb _); [split; [by apply H|done]|]. destruct (orchfs_core_snapshot _ i) as [|n']; [split; [by apply H|done]|].
  destruct (node_size n' <? 0); (split; [by apply H|done]).
Qed.
Lemma view_linked s s' i : view s' = view s -> linked (fs_nodes s) i -> linked (fs_nodes s') i.
Proof. by intros (-> & _)%view_nodes. Qed.
Lemma finish_open_ok e s i n flags created : fs_ok s -> linked (fs_nodes s) i -> fs_ok (finish_open_locked e s i n flags created).2.
Proof.
  intros Hok Hi. unfold finish_open_locked. do 4 (destruct (_ && _); [done|]).
  assert (forall t, t = (if has_flag flags O_TRUNC then truncate_open e s i n else (inr n, s)) -> fs_ok t.2 /\ linked (fs_nodes t.2) i) as Ht.
  { intros t ->. destruct (has_flag flags O_TRUNC); [|done]. by destruct (truncate_open_ok e s i n Hok Hi) as (A & B & _). }
  destruct (if has_flag flags O_TRUNC then _ else _) as [truncated s1]. destruct (Ht _ eq_refl) as [Hok1 Hi1]. cbn [fst snd] in *.
  destruct truncated as [error|n1]; [done|]. pose proof (publish_view e s1 i n1) as Hv. pose proof (fs_ok_view _ _ Hv Hok1) as Hok2.
  pose proof (view_linked _ _ _ Hv Hi1) as Hi2. set (s2 := publish e s1 i n1) in *. clearbody s2. destruct (_ && _); [done|]. destruct (negb _); [done|].
  assert (fs_ok (set_coord (retain_locked (e_memory e EmptyString) i (fs_coord s2)).2 s2)) as Hok3.
  { unfold retain_locked. destruct (Z.ltb_spec i 0); [cbn [snd]; by rewrite set_coord_id|]. destruct Hi2 as (ni & Hn & Hl & Ho).
    destruct (sh_find i (inode_states (fs_coord s2))) as [st|] eqn:Ef.
    - destruct (ok_refs _ Hok2) as [H1 _]. destruct (H1 i st ltac:(done) Ef) as (Hr & n' & Hn' & _ & Hst).
      destruct (open_references st =? UINT64_MAX); [cbn [snd]; by rewrite set_coord_id|]. apply fs_ok_states; [done|].
      apply (refs_insert _ _ _ _ ni); try done; [apply Hok2|cbn; congruence|cbn; lia].
    - destruct (e_memory e EmptyString); [|cbn [snd]; by rewrite set_coord_id]. apply fs_ok_states; [done|]. by apply (refs_insert _ _ _ _ ni); [apply Hok2|..]. }
  destruct (retain_locked _ i (fs_coord s2)) as [error c3]. cbn [fst snd] in *. destruct (negb _); [done|]. destruct (negb _); [by apply release_ok|done].
Qed.
Lemma open_child_ok e s p name flags : fs_ok s -> reads_ok e -> creates_fresh e s -> directory_ok (fs_nodes s) p -> name_ok name ->
  fs_ok (open_child_locked e s p name flags).2.
Proof.
  intros Hok Hr Hf [Hp Hl] Hname. unfold open_child_locked. destruct (find_child_ok e s p name Hok Hp Hl) as (r & c & -> & Hok1 & _ & F).
  destruct r as [error|ne].
  - destruct (_ || _); [done|].
    destruct (create_child_spec e (set_coord c s) p name ORCHFS_CORE_REGULAR Hok1 Hr Hp Hl Hname ltac:(by right) Hf) as (A & _ & _ & D).
    destruct (create_node_locked e _ p name _) as [[error'|ne] s2]; cbn [fst snd] in *; [done|]. apply finish_open_ok; [done|].
    destruct D as (_ & np & j & i & Hi & Hslot & -> & ->). cbn [ne_inode]. pose proof (Hf i Hi) as Hfresh. cbn in Hslot.
    by apply (create_linked _ _ _ _ _ _ _ Hp Hslot Hfresh); right.
  - apply finish_open_ok; [done|]. by destruct (child_linked _ _ _ _ _ (ok_tree _ Hok) Hp Hl F).
Qed.
Lemma open_under_ok e d r : fs_ok r.2 -> fs_ok (open_under e d r).2.
Proof. destruct r as [[|opened] s]; [done|]. intros H. cbn in *. destruct (negb _); [by apply release_ok|done]. Qed.
Lemma open_self_ok e s i flags : fs_ok s -> linked (fs_nodes s) i -> fs_ok (open_self e s i flags).2.
Proof.
  intros Hok Hi. unfold open_self. destruct (negb _); [done|]. apply open_under_ok. destruct (orchfs_core_snapshot _ _); [done|by apply finish_open_ok].
Qed.
Lemma open_path_ok e s path flags : fs_ok s -> reads_ok e -> creates_fresh e s -> fs_ok (open_path e s path flags None).2.
Proof.
  intros Hok Hr Hf. unfold open_path. destruct (split_path path) as [|components]; [done|]. destruct (forallb _ _).
  { apply open_self_ok; [done|]. apply (root_ok s Hok). }
  destruct (bool_decide _).
  - destruct (resolve_spec e s path Hok) as [A B]. destruct (resolve e s path None) as [[error|[i n]] s1]; cbn [fst snd] in *;
      destruct (cached_only_ok _ _ A) as (Hok1 & E1 & _); [done|]. apply open_self_ok; [done|]. rewrite E1. by apply (B i n).
  - destruct (resolve_parent_spec e s path Hok) as [A B]. destruct (resolve_parent e s path None) as [[error|p] s1]; cbn [fst snd] in *;
      destruct (cached_only_ok _ _ A) as (Hok1 & E1 & _); [done|]. destruct (B p eq_refl) as [B1 B2]. destruct (negb _); [done|]. apply open_under_ok.
    apply open_child_ok; [done|done|by eapply creates_fresh_cached|by rewrite E1|done].
Qed.

(** ** Sequences of operations *)

Inductive fs_operation :=
| op_mkdir (path : string)
| op_unlink (path : string)
| op_rmdir (path : string)
| op_rename (old_path new_path : string)
| op_open (path : string) (flags : Z)
| op_close (inode : Z).
Definition run_op (e : env) (s : fsystem) (op : fs_operation) : fsystem :=
  match op with
  | op_mkdir path => (make_directory e s path).2
  | op_unlink path => (remove_path e s path ORCHFS_CORE_REGULAR).2
  | op_rmdir path => (remove_path e s path ORCHFS_CORE_DIRECTORY).2
  | op_rename old_path new_path => (rename_path e s old_path new_path).2
  | op_open path flags => (open_path e s path flags None).2
  | op_close inode => (release e s inode).2
  end.
(** An operation with the errors [e] runs; the allocator hands out free inodes. *)
Inductive fs_step (s : fsystem) : fsystem -> Prop :=
| fs_step_run e op : reads_ok e -> creates_fresh e s -> fs_step s (run_op e s op).
(** A formatted file system: the root directory, open files and caches empty. *)
Definition formatted (root : Z) : fsystem :=
  mk_fsystem {[ root := new_node ORCHFS_CORE_DIRECTORY (dot_entries root root) ]} init_coordinator empty_extent_cache root.

Lemma run_op_ok e s op : reads_ok e -> creates_fresh e s -> fs_ok s -> fs_ok (run_op e s op).
Proof.
  intros Hr Hf Hok. destruct op; cbn [run_op].
  - by apply make_directory_ok.
  - by apply remove_path_ok.
  - by apply remove_path_ok.
  - by apply rename_path_ok.
  - by apply open_path_ok.
  - by apply release_ok.
Qed.
Lemma steps_ok s s' : rtc fs_step s s' -> fs_ok s -> fs_ok s'.
Proof. induction 1 as [|s s1 s' [e op Hr Hf] _ IH]; [done|]. intros Hok. apply IH. by apply run_op_ok. Qed.

Section formatted.
Context (root : Z) (H0 : 0 <= root < MAX_INODE_NUM).
Abbreviation mf := ({[ root := new_node ORCHFS_CORE_DIRECTORY (dot_entries root root) ]} : inodes).
Lemma formatted_node i n : mf !! i = Some n -> i = root /\ n = new_node ORCHFS_CORE_DIRECTORY (dot_entries root root).
Proof. intros [<- <-]%lookup_singleton_Some. done. Qed.
Lemma formatted_used d k en : ~ used mf d k en.
Proof. intros [(n & [[-> ->]%formatted_node _] & Hk & _) H2]. destruct k as [|[|k]]; [lia|lia|done]. Qed.
Lemma formatted_root : linked mf root /\ live_dir mf root.
Proof. by split; exists (new_node ORCHFS_CORE_DIRECTORY (dot_entries root root)); repeat split; try apply lookup_singleton_eq. Qed.
Lemma formatted_ok : fs_ok (formatted root).
Proof.
  split; cbn [formatted fs_nodes fs_root fs_coord].
  - split.
    + intros i n [-> ->]%formatted_node. split; [done|by left].
    + apply formatted_root.
    + intros d n [[-> ->]%formatted_node _] _. by exists root, [].
    + by intros d j en _ []%formatted_used.
    + by intros d j k en en' _ []%formatted_used.
    + by intros d j en _ []%formatted_used.
    + by intros d d' j j' en en' _ _ []%formatted_used.
    + intros i (n & [-> _]%formatted_node & _) ?. done.
    + by intros d j en _ []%formatted_used.
    + exists (dotdot_entry root). split; [|done]. eexists. split; [split; [apply lookup_singleton_eq|done]|done].
    + intros d n j en _ _ _. apply formatted_used.
    + intros d (n & [-> _]%formatted_node & _) _. done.
  - intros d index _ Hf. cbn in Hf. unfold sh_find in Hf. by rewrite lookup_empty in Hf.
  - split; [intros i st _ Hf; unfold sh_find in Hf; cbn in Hf; by rewrite lookup_empty in Hf|]. intros i n [-> ->]%formatted_node. done.
Qed.
End formatted.

(** ** What the operations show *)

(** C5: in every state that mkdir, unlink, rmdir, rename, open and close, in any order and
    with any errors, reach from a formatted file system, the directories form one tree:
    every entry of a linked directory leads to a linked inode of its type, every linked
    inode but the root has exactly one entry, names in a directory are distinct, the
    parents of every directory lead to the root, cached names agree with the media, and
    every open inode is allocated. *)
Theorem namespace_invariant root s : 0 <= root < MAX_INODE_NUM -> rtc fs_step (formatted root) s -> fs_ok s.
Proof. intros H0 H. apply (steps_ok _ _ H). by apply formatted_ok. Qed.

(** The lookup of a name without caches: the first entry with the name. *)
Fixpoint lookup_from (m : inodes) (d : Z) (name : string) (entries : list orchfs_core_dirent) (j : nat) : Z + NamespaceEntry :=
  match entries with
  | [] => inl ENOENT
  | en :: rest =>
      if negb (de_type en =? 0) && bool_decide (de_name en = name) then
        match m !! de_inode en with
        | Some n => inr (mk_ns_entry (de_inode en) n d (slot_offset j) en)
        | None => inl ENOENT
        end
      else lookup_from m d name rest (S j)
  end.
Definition lookup_reference (m : inodes) (d : Z) (name : string) : Z + NamespaceEntry :=
  match m !! d with Some n => lookup_from m d name (nd_entries n) 0 | None => inl ENOENT end.

Lemma lookup_from_spec m d name l : forall j,
  match lookup_from m d name l j with
  | inr ne => exists k en n, l !! k = Some en /\ de_type en <> 0 /\ de_name en = name /\ m !! de_inode en = Some n /\
      ne = mk_ns_entry (de_inode en) n d (slot_offset (j + k)) en
  | inl error => error = ENOENT /\ forall k en, l !! k = Some en -> de_type en <> 0 -> de_name en = name -> exists k' en', l !! k' = Some en' /\
      de_type en' <> 0 /\ de_name en' = name /\ m !! de_inode en' = None
  end.
Proof.
  induction l as [|en l IH]; intros j; cbn [lookup_from]; [done|]. destruct (Z.eqb_spec (de_type en) 0) as [Et|Et], (bool_decide_reflect (de_name en = name)) as [En|En];
    cbn [negb andb].
  3: { destruct (m !! de_inode en) as [n|] eqn:Em.
       - exists 0%nat, en, n. rewrite Nat.add_0_r. done.
       - split; [done|]. intros k en' _ _ _. by exists 0%nat, en. }
  all: specialize (IH (S j)); revert IH; destruct (lookup_from m d name l (S j)) as [error|ne]; intros IH.
  1, 3, 5: destruct IH as [-> IH]; split; [done|]; intros [|k] en' Hk Ht Hn; cbn in Hk; [congruence|];
    destruct (IH k en' Hk Ht Hn) as (k' & en'' & H); by exists (S k'), en''.
  all: destruct IH as (k & en' & n & Hk & Ht & Hn & Hm & ->); exists (S k), en', n; rewrite Nat.add_succ_r; done.
Qed.

(** a lookup through the cache of names finds exactly what a search of the directory
    without any cache finds, whatever was looked up, created, removed or renamed before. *)
Theorem find_child_locked_exact e s d name : fs_ok s -> linked (fs_nodes s) d -> live_dir (fs_nodes s) d -> (forall i offset, e_read e i offset = 0) ->
  (find_child_locked e s d name).1 = lookup_reference (fs_nodes s) d name.
Proof.
  intros Hok Hd Hl He. pose proof (ok_tree _ Hok) as T. pose proof Hl as (n & [Hn Ht] & _).
  destruct (find_child_ok e s d name Hok Hd Hl) as (r & c & -> & _ & _ & F). cbn [fst]. unfold lookup_reference. rewrite Hn.
  assert (forall k en, nd_entries n !! k = Some en -> de_type en <> 0 -> ent (fs_nodes s) d k en) as Hent by (intros k en A B; by exists n).
  pose proof (lookup_from_spec (fs_nodes s) d name (nd_entries n) 0) as L. revert L. destruct (lookup_from _ d name _ 0) as [error|ne]; intros L.
  - destruct L as [-> L]. destruct r as [error|ne]; cbn in F.
    + destruct F as [[-> _]|(offset & E & Hne)]; [done|]. rewrite He in E. done.
    + destruct F as (j & en & n' & (n1 & [Hn1 _] & Hj & Hne) & Hnm & _). assert (n1 = n) as -> by congruence.
      destruct (L j en Hj Hne Hnm) as (k & en' & Hk & Hne' & _ & Hm). destruct (ent_ok _ _ T d k en' Hd (Hent k en' Hk Hne')) as (n2 & Hn2 & _). congruence.
  - destruct L as (k & en & n' & Hk & Hne & Hnm & Hm & ->). cbn [Nat.add]. pose proof (Hent k en Hk Hne) as Hek. destruct r as [error|ne]; cbn in F.
    + destruct F as [[_ F]|(offset & E & Hne')]; [by destruct (F k en Hek)|]. rewrite He in E. done.
    + destruct F as (j & en' & n1 & Hej & Hnm' & Hm' & ->). assert (j = k) as -> by (apply (ent_unique _ _ T d j k en' en Hl Hej Hek); congruence).
      rewrite (ent_fun _ _ _ _ _ Hej Hek) in *. congruence.
Qed.

(** C22: a rename is all or nothing.  It ends with the invariant; on success the source's
    entry has moved, with every other entry as it was, the dots of a moved directory lead
    to its new parent, and an inode that was replaced is freed or, if open, kept as an
    orphan.  An error leaves every directory as it was, except when only a lock could not
    be released. *)
Theorem rename_all_or_nothing e s ps old pd name source destination : fs_ok s -> reads_ok e -> directory_ok (fs_nodes s) ps -> directory_ok (fs_nodes s) pd ->
  name_ok old -> name_ok name ->
  (nd_type (ne_node source) = ORCHFS_CORE_DIRECTORY -> pd <> ps -> ~ rtc (dotdot_of (fs_nodes s)) pd (ne_inode source)) ->
  rename_result e s ps old pd name (rename_locked e s (mk_parent_path ps old) (mk_parent_path pd name) source destination).
Proof. intros Hok Hr [A B] [C D] N1 N2 Hc. by apply rename_locked_spec. Qed.


(** *** Examples *)

(** No errors; the next inode is [i]. *)
Definition quiet (i : Z) : env :=
  mk_env (fun _ _ => 0) 0 (inr i) (fun _ _ => 0) 0 0 0 0 (fun _ => 0) (fun _ => 0) 0 0 (fun _ => 0) (fun _ => 0) 0 0 (fun _ => true)
    (fun i n => mk_file_stat 0 i (nd_type n) 1 0 0 0 (node_size n) 0 0 0 0 0 0 0 0).
Lemma quiet_reads i : reads_ok (quiet i).
Proof. done. Qed.
Lemma quiet_fresh i s : 0 <= i < MAX_INODE_NUM -> fs_nodes s !! i = None -> creates_fresh (quiet i) s.
Proof. intros H0 Hn i' [= <-]. split; [done|]. by rewrite Hn. Qed.
Lemma quiet_step i s op : 0 <= i < MAX_INODE_NUM -> fs_nodes s !! i = None -> fs_step s (run_op (quiet i) s op).
Proof. intros H0 Hn. constructor; [apply quiet_reads|by apply quiet_fresh]. Qed.
(** Two directories and a file in the first, open. *)
Definition demo : fsystem :=
  run_op (quiet 3) (run_op (quiet 2) (run_op (quiet 1) (formatted 0) (op_mkdir "/a")) (op_mkdir "/b")) (op_open "/a/f" (O_CREAT + 2)).
Lemma demo_steps : rtc fs_step (formatted 0) demo.
Proof.
  eapply rtc_l; [apply (quiet_step 1 _ (op_mkdir "/a")); [done|by vm_compute]|]. eapply rtc_l; [apply (quiet_step 2 _ (op_mkdir "/b")); [done|by vm_compute]|].
  apply rtc_once. apply (quiet_step 3 _ (op_open "/a/f" (O_CREAT + 2))); [done|by vm_compute].
Qed.
Lemma demo_ok : fs_ok demo.
Proof. apply (steps_ok _ _ demo_steps). by apply formatted_ok. Qed.
Lemma demo_directory d : d ∈ [0; 1; 2] -> directory_ok (fs_nodes demo) d.
Proof.
  intros Hd. destruct (fs_nodes demo !! d) as [n|] eqn:E.
  - assert (nd_type n = ORCHFS_CORE_DIRECTORY /\ nd_live n = true /\ nd_orphan n = false) as (A & B & C).
    { repeat (apply elem_of_cons in Hd as [->|Hd]; [vm_compute in E; by injection E as <-|]). clear E; by apply elem_of_nil in Hd. }
    split; [exact (ex_intro _ n (conj E (conj B C)))|exact (ex_intro _ n (conj (conj E A) B))].
  - repeat (apply elem_of_cons in Hd as [->|Hd]; [by vm_compute in E|]). clear E; by apply elem_of_nil in Hd.
Qed.

Lemma namespace_invariant_witness : fs_ok demo.
Proof. apply (namespace_invariant 0 demo); [done|]. apply demo_steps. Defined.
Lemma find_child_locked_exact_witness : (find_child_locked (quiet 4) demo 1 "f").1 = lookup_reference (fs_nodes demo) 1 "f".
Proof. apply (find_child_locked_exact (quiet 4) demo 1 "f"); [apply demo_ok|apply demo_directory; set_solver|apply demo_directory; set_solver|done]. Defined.
Definition demo_file : NamespaceEntry :=
  mk_ns_entry 3 (new_node ORCHFS_CORE_REGULAR []) 1 (slot_offset 2) (mk_dirent 3 (slot_offset 2) ORCHFS_CORE_REGULAR "f").
Lemma rename_all_or_nothing_witness :
  rename_result (quiet 4) demo 1 "f" 2 "g" (rename_locked (quiet 4) demo (mk_parent_path 1 "f") (mk_parent_path 2 "g") demo_file None).
Proof.
  apply (rename_all_or_nothing (quiet 4) demo 1 "f" 2 "g" demo_file None);
    [apply demo_ok|apply quiet_reads|apply demo_directory; set_solver|apply demo_directory; set_solver|done|done|done].
Defined.

(** A directory is opened and removed, a file is created in it through the open
    directory, and both are closed. *)
Definition lost_file : fsystem :=
  let s := run_op (quiet 2) (run_op (quiet 2) (run_op (quiet 1) (formatted 0) (op_mkdir "/a")) (op_open "/a" 0)) (op_rmdir "/a") in
  let s := (open_path (quiet 2) s "x" (O_CREAT + 2) (Some 1)).2 in
  run_op (quiet 3) (run_op (quiet 3) s (op_close 1)) (op_close 2).
Lemma lost_file_nodes d n : fs_nodes lost_file !! d = Some n -> (d, n) ∈ map_to_list (fs_nodes lost_file).
Proof. apply elem_of_map_to_list. Qed.

