(* ===== verification/FileOps.v ===== *)
(** * Operations of the core (class KfsCoroutineCore of Async/kfs_coroutine_core.cpp)

    The calls a server makes for its clients, from the operations of the other files:
    closing, status, seeking, listing of directories, truncation.  Scheduling on the
    owner of an inode and the range permits are outcomes of the environment. *)

From stdpp Require Import base tactics numbers list gmap strings relations.
From Stdlib Require Import ZArith Lia Ascii.
From S2P Require Import Prelude Bytes Layout Pmem RangeArbiter Namespace DataPath Extents Directory DataWrite Tree Rename NamespaceOps.
Open Scope Z_scope.

Definition INT64_MAX : Z := 2 ^ 63 - 1.
Definition kYieldBytes : Z := 1024 * 1024.
Definition kWholeFile : Z := UINT64_MAX.
Definition range_length (offset length : Z) : Z :=
  if length =? 0 then 1 else if kWholeFile - offset <? length then kWholeFile else length.

(** ** Permits of the data calls *)

(** The calls on the data of a file: what they ask the arbiter of the file for. *)
Inductive io :=
| io_read (offset length : Z)
| io_write (offset length : Z) (append : bool)
| io_truncate (size : Z)
| io_list.
(** [None]: the call fails before it asks, or its range is refused. *)
Definition io_request (op : io) : option RangeRequest :=
  match op with
  | io_read offset length =>
      if (INT64_MAX <? offset) || (INT64_MAX - offset <? length) then None (* EOVERFLOW *)
      else make_request offset (range_length offset length) mode_read
  | io_write offset length append =>
      let range_start := if append then 0 else offset in
      let length := if append then kWholeFile else range_length offset length in
      make_request range_start length mode_write
  | io_truncate size => if kMaximumFileSize <? size then None (* EFBIG *) else make_request 0 kWholeFile mode_write
  | io_list => make_request 0 kWholeFile mode_read
  end.

(** ** Closing and status *)

Definition NODE_UNKNOWN : Z := 0.
Definition close_node (e : env) (s : fsystem) (inode type : Z) : (Z + unit) * fsystem :=
  if (inode <? 0) || (type =? NODE_UNKNOWN) then (inl EBADF, s) else release e s inode.
Definition close_directory (e : env) (s : fsystem) (inode type : Z) : (Z + unit) * fsystem :=
  if negb (type =? ORCHFS_CORE_DIRECTORY) then (inl EBADF, s) else release e s inode.
Definition stat_path (e : env) (s : fsystem) (path : string) : (Z + FileStat) * fsystem :=
  match resolve e s path None with
  | (inl error, s) => (inl error, s)
  | (inr (inode, n), s) => (inr (e_stat e inode n), publish e s inode n)
  end.
Definition stat_inode (e : env) (s : fsystem) (inode : Z) : (Z + FileStat) * fsystem :=
  match cached_snapshot inode (fs_coord s) with
  | inr cached => (inr cached, s)
  | inl _ => match orchfs_core_snapshot (fs_nodes s) inode with
             | inl error => (inl error, s)
             | inr n => (inr (e_stat e inode n), publish e s inode n)
             end
  end.

Record FileSystemStat := mk_fs_stat {
  st_type : Z; st_block_size : Z; st_blocks : Z; st_blocks_free : Z; st_blocks_available : Z; st_files : Z; st_files_free : Z;
  st_name_length : Z; st_fragment_size : Z; st_flags : Z;
}.
Definition EXT2_SUPER_MAGIC : Z := 0xEF53.
Definition statfs (s : fsystem) (inode : Z) : Z + FileSystemStat :=
  match orchfs_core_snapshot (fs_nodes s) inode with
  | inl error => inl error
  | inr _ => inr (mk_fs_stat EXT2_SUPER_MAGIC kBlockSize (Z.shiftl 1 40 / kBlockSize) (Z.shiftl 1 39 / kBlockSize) (Z.shiftl 1 39 / kBlockSize)
                    (Z.shiftl 1 21) (Z.shiftl 1 20) ORCHFS_CORE_DIRENT_NAME_MAX kPageSize 0)
  end.

(** ** Seeking *)

Definition SEEK_SET : Z := 0.
Definition SEEK_CUR : Z := 1.
Definition SEEK_END : Z := 2.
Definition seek_from (base offset : Z) : Z + Z :=
  if offset <? 0 then
    let magnitude := - (offset + 1) + 1 in
    if base <? magnitude then inl EINVAL else inr (base - magnitude)
  else if u64 (INT64_MAX - base) <? offset then inl EOVERFLOW else inr (u64 (base + offset)).
Definition seek (s : fsystem) (inode current_offset offset whence : Z) : Z + Z :=
  if whence =? SEEK_CUR then seek_from current_offset offset
  else if whence =? SEEK_END then
    match orchfs_core_snapshot (fs_nodes s) inode with
    | inl error => inl error
    | inr n => if node_size n <? 0 then inl EIO else seek_from (node_size n) offset
    end
  else if negb (whence =? SEEK_SET) then inl EINVAL
  else seek_from 0 offset.

(** ** Directories *)

Definition open_directory (e : env) (s : fsystem) (path : string) : (Z + Z * Z) * fsystem :=
  match open_path e s path (Z.lor O_RDONLY O_DIRECTORY) None with
  | (inl error, s) => (inl error, s)
  | (inr (inode, type), s) => if negb (type =? ORCHFS_CORE_DIRECTORY) then (inl ENOTDIR, s) else (inr (inode, type), s)
  end.
Definition open_directory_inode (e : env) (s : fsystem) (inode : Z) : (Z + Z * Z) * fsystem :=
  if negb (e_state_lock e inode =? 0) then (inl (e_state_lock e inode), s)
  else
    let '(result, s) :=
      match orchfs_core_snapshot (fs_nodes s) inode with
      | inl error => (inl error, s)
      | inr n =>
          if negb (nd_type n =? ORCHFS_CORE_DIRECTORY) then (inl ENOTDIR, s)
          else
            let s := publish e s inode n in
            let '(error, c) := retain_locked (e_memory e EmptyString) inode (fs_coord s) in
            (if negb (error =? 0) then inl error else inr (inode, nd_type n), set_coord c s)
      end in
    match result with
    | inr opened => if negb (e_state_unlock e inode =? 0) then (inl (e_state_unlock e inode), (release e s inode).2) else (inr opened, s)
    | inl error => (inl error, s)
    end.

Record DirEntry := mk_dir_entry { dr_inode : Z; dr_offset : Z; dr_type : Z; dr_name : string }.
Fixpoint has_nul (name : string) : bool :=
  match name with EmptyString => false | String c rest => Ascii.eqb c "000"%char || has_nul rest end.
Definition bad_name (entry : orchfs_core_dirent) : bool :=
  (ORCHFS_CORE_DIRENT_NAME_MAX <? Z.of_nat (String.length (de_name entry))) || has_nul (de_name entry).
(** The entries of one window, from [cursor] on, into [room] slots. *)
Fixpoint read_entries (window : list orchfs_core_dirent) (room : nat) (cursor : Z) : Z + list DirEntry * Z :=
  match window, room with
  | [], _ | _, O => inr ([], cursor)
  | entry :: rest, S room' =>
      let cursor := cursor + ORCHFS_CORE_DIRENT_SIZE in
      if de_type entry =? 0 then read_entries rest room cursor
      else if bad_name entry then inl EIO
      else match read_entries rest room' cursor with
           | inl error => inl error
           | inr (l, c) => inr (mk_dir_entry (u64 (de_inode entry)) cursor (de_type entry) (de_name entry) :: l, c)
           end
  end.
(** [memory] says whether the buffer of a window can be had. *)
Fixpoint read_windows (fuel : nat) (e : env) (memory : Z -> bool) (inode size : Z) (entries : list orchfs_core_dirent) (room : nat) (cursor : Z)
    : option (Z + list DirEntry * Z) :=
  match fuel with
  | O => None
  | S fuel =>
      if (room =? 0)%nat || (size <=? cursor) then Some (inr ([], cursor))
      else
        let window := Z.min (kDirectoryWindowEntries * ORCHFS_CORE_DIRENT_SIZE) (size - cursor) in
        let aligned_window := window - window mod ORCHFS_CORE_DIRENT_SIZE in
        if aligned_window =? 0 then Some (inl EIO)
        else if negb (memory cursor) then Some (inl ENOMEM)
        else if negb (e_read e inode cursor =? 0) then Some (inl (e_read e inode cursor))
        else match read_entries (take (Z.to_nat (aligned_window / ORCHFS_CORE_DIRENT_SIZE)) (drop (Z.to_nat (cursor / ORCHFS_CORE_DIRENT_SIZE)) entries)) room cursor with
             | inl error => Some (inl error)
             | inr (l, cursor) =>
                 match read_windows fuel e memory inode size entries (room - length l)%nat cursor with
                 | Some (inr (l', cursor)) => Some (inr (l ++ l', cursor))
                 | r => r
                 end
             end
  end.
Definition read_directory (e : env) (memory : Z -> bool) (s : fsystem) (inode cursor : Z) (room : nat) : option (Z + list DirEntry * Z) :=
  if negb (cursor mod ORCHFS_CORE_DIRENT_SIZE =? 0) then Some (inl EINVAL)
  else if negb (e_range_lock e =? 0) then Some (inl (e_range_lock e))
  else
    let result :=
      match orchfs_core_snapshot (fs_nodes s) inode with
      | inl error => Some (inl error)
      | inr n =>
          if negb (nd_type n =? ORCHFS_CORE_DIRECTORY) then Some (inl ENOTDIR)
          else read_windows (S (length (nd_entries n))) e memory inode (node_size n) (nd_entries n) room cursor
      end in
    match result with
    | Some (inr r) => Some (if negb (e_range_unlock e =? 0) then inl (e_range_unlock e) else inr r)
    | r => r
    end.

(** ** Truncation *)

(** What writing and resizing of a well-formed file offer: its size and bytes before and after.
    A write that fails at the end of the file may leave traces behind the end only. *)
Class FileData (F : Type) := {
  fd_size : F -> Z;
  fd_byte : F -> Z -> Z;
  fd_type : F -> Z;
  fd_ok : F -> Prop;
  fd_write : F -> Z -> list Z -> (Z + Z) * F;  (** [write_unlocked] without append: bytes written *)
  fd_resize : F -> Z -> (Z + unit) * F;  (** [orchfs_core_set_size] in a committed transaction, and its publication *)
  fd_write_law : forall f offset source n f', fd_ok f -> 0 <= offset <= fd_size f -> 0 < len source -> offset + len source <= kMaximumFileSize ->
    fd_write f offset source = (inr n, f') ->
    n = len source /\ fd_ok f' /\ fd_type f' = fd_type f /\ fd_size f' = Z.max (fd_size f) (offset + len source) /\
    forall x, 0 <= x < fd_size f' -> fd_byte f' x = if in_range x offset (len source) then byte_at source (x - offset) else fd_byte f x;
  fd_write_fail : forall f source error f', fd_ok f -> fd_write f (fd_size f) source = (inl error, f') ->
    fd_ok f' /\ fd_type f' = fd_type f /\ fd_size f' = fd_size f /\ forall x, 0 <= x < fd_size f -> fd_byte f' x = fd_byte f x;
  fd_resize_law : forall f size f', fd_ok f -> 0 <= size <= fd_size f -> fd_resize f size = (inr tt, f') ->
    fd_ok f' /\ fd_type f' = fd_type f /\ fd_size f' = size /\ forall x, 0 <= x < size -> fd_byte f' x = fd_byte f x;
  fd_resize_fail : forall f size error f', fd_ok f -> fd_resize f size = (inl error, f') ->
    fd_ok f' /\ fd_type f' = fd_type f /\ fd_size f' = fd_size f /\ forall x, 0 <= x < fd_size f -> fd_byte f' x = fd_byte f x;
}.
Section Truncate.
Context {F : Type} `{FileData F}.
(** The loop that writes zeros from the old end to the new one; the file as it is when the loop ends. *)
Fixpoint extend (fuel : nat) (f : F) (cursor size : Z) : option (Z + unit) * F :=
  match fuel with
  | O => (None, f)
  | S fuel =>
      if cursor <? size then
        let chunk := Z.min kYieldBytes (size - cursor) in
        match fd_write f cursor (zeros chunk) with
        | (inl error, f) => (Some (inl error), f)
        | (inr bytes, f) => if negb (bytes =? chunk) then (Some (inl EIO), f) else extend fuel f (cursor + chunk) size
        end
      else (Some (inr tt), f)
  end.
Definition extend_fuel (cursor size : Z) : nat := S (Z.to_nat ((size - cursor + kYieldBytes - 1) / kYieldBytes)).
(** [acquire], [release]: what the range permit over the whole file answers. *)
Definition truncate (acquire release : Z) (snapshot : F -> Z) (f : F) (size : Z) : option (Z + unit) * F :=
  if kMaximumFileSize <? size then (Some (inl EFBIG), f)
  else if negb (acquire =? 0) then (Some (inl acquire), f)
  else
    let '(result, f) :=
      if negb (snapshot f =? 0) then (Some (inl (snapshot f)), f)
      else if fd_size f <? 0 then (Some (inl EIO), f)
      else if negb (fd_type f =? ORCHFS_CORE_REGULAR) then (Some (inl EISDIR), f)
      else if fd_size f <? size then extend (extend_fuel (fd_size f) size) f (fd_size f) size
      else let '(r, f) := fd_resize f size in (Some r, f) in
    match result with
    | Some (inr _) => (Some (if negb (release =? 0) then inl release else inr tt), f)
    | r => (r, f)
    end.
End Truncate.

(** ** Listing *)

(** The used entries of a directory, from entry [i] on, each with the cursor behind it. *)
Fixpoint listing (i : Z) (entries : list orchfs_core_dirent) : list DirEntry :=
  match entries with
  | [] => []
  | entry :: rest =>
      (if de_type entry =? 0 then []
       else [mk_dir_entry (u64 (de_inode entry)) ((i + 1) * ORCHFS_CORE_DIRENT_SIZE) (de_type entry) (de_name entry)]) ++ listing (i + 1) rest
  end.
Lemma listing_app l1 : forall i l2, listing i (l1 ++ l2) = listing i l1 ++ listing (i + Z.of_nat (length l1)) l2.
Proof.
  induction l1 as [|en l1 IH]; intros i l2; cbn [listing app length]; [by rewrite Z.add_0_r|].
  rewrite IH, app_assoc. do 2 f_equal. lia.
Qed.
Lemma elem_of_listing x l : forall i, x ∈ listing i l <-> exists (j : nat) en, l !! j = Some en /\ de_type en <> 0 /\
  x = mk_dir_entry (u64 (de_inode en)) ((i + Z.of_nat j + 1) * ORCHFS_CORE_DIRENT_SIZE) (de_type en) (de_name en).
Proof.
  induction l as [|en l IH]; intros i; cbn [listing].
  { split; [by intros ?%not_elem_of_nil|by intros (j & en & E & _)]. }
  rewrite elem_of_app, IH. split.
  - intros [H|(j & en' & Hj & Ht & ->)].
    + destruct (Z.eqb_spec (de_type en) 0) as [|N]; [by apply not_elem_of_nil in H|]. apply list_elem_of_singleton in H as ->.
      exists O, en. split_and!; [done|done|]. do 2 f_equal; lia.
    + exists (S j), en'. split_and!; [done|done|]. do 2 f_equal; lia.
  - intros ([|j] & en' & Hj & Ht & ->).
    + left. injection Hj as <-. rewrite (proj2 (Z.eqb_neq _ _) Ht). apply list_elem_of_singleton. do 2 f_equal; lia.
    + right. exists j, en'. split_and!; [done|done|]. do 2 f_equal; lia.
Qed.

Lemma listing_NoDup l : forall i, (forall (j k : nat) en en', l !! j = Some en -> l !! k = Some en' -> de_type en <> 0 -> de_type en' <> 0 ->
  de_name en = de_name en' -> j = k) -> NoDup (map dr_name (listing i l)).
Proof.
  induction l as [|en l IH]; intros i H; cbn [listing]; [constructor|]. rewrite map_app. assert (NoDup (map dr_name (listing (i + 1) l))) as Hl.
  { apply IH. intros j k a b Hj Hk Ha Hb E. assert (S j = S k) by (by eapply H). lia. }
  destruct (Z.eqb_spec (de_type en) 0) as [|N]; [done|]. cbn [map app]. apply NoDup_cons. split; [|done].
  intros (x & Ex & Hx)%list_elem_of_fmap. apply elem_of_listing in Hx as (j & en' & Hj & Ht & ->). cbn [dr_name] in Ex.
  assert (O = S j) by (by eapply H). lia.
Qed.

Definition names_ok (l : list orchfs_core_dirent) : Prop := Forall (fun en => de_type en <> 0 -> bad_name en = false) l.
(** A batch from entry [i]: it stops behind entry [i + k], at the end or with all slots used. *)
Definition batch (i : Z) (l : list orchfs_core_dirent) (room k : nat) : Prop :=
  (k <= length l)%nat /\ (length (listing i (take k l)) <= room)%nat /\ (k = length l \/ length (listing i (take k l)) = room).
Lemma read_entries_spec l : forall room i, names_ok l ->
  exists k, batch i l room k /\
    read_entries l room (i * ORCHFS_CORE_DIRENT_SIZE) = inr (listing i (take k l), (i + Z.of_nat k) * ORCHFS_CORE_DIRENT_SIZE).
Proof.
  induction l as [|en l IH]; intros room i Hn; cbn [read_entries].
  { exists O. split; [split_and!; [done|cbn; lia|by left]|]. cbn. by rewrite Z.add_0_r. }
  destruct room as [|room']. { exists O. split; [split_and!; [cbn; lia|cbn; lia|by right]|]. cbn. by rewrite Z.add_0_r. }
  apply Forall_cons in Hn as [Hen Hl].
  replace (i * ORCHFS_CORE_DIRENT_SIZE + ORCHFS_CORE_DIRENT_SIZE) with ((i + 1) * ORCHFS_CORE_DIRENT_SIZE) by lia.
  destruct (Z.eqb_spec (de_type en) 0) as [E|N].
  - destruct (IH (S room') (i + 1) Hl) as (k & (A & B & C) & Hr). exists (S k). rewrite Hr. unfold batch. cbn [take listing length]. rewrite E. cbn [Z.eqb app].
    split; [split_and!; [lia|done|lia]|]. do 2 f_equal. lia.
  - rewrite (Hen N). destruct (IH room' (i + 1) Hl) as (k & (A & B & C) & Hr). exists (S k). rewrite Hr. unfold batch. cbn [take listing length].
    rewrite (proj2 (Z.eqb_neq _ _) N). cbn [app length]. split; [split_and!; lia|]. do 2 f_equal. lia.
Qed.

Section Windows.
Context (e : env) (memory : Z -> bool) (inode : Z) (entries : list orchfs_core_dirent)
  (He : forall offset, e_read e inode offset = 0) (Hm : forall cursor, memory cursor = true) (Hn : names_ok entries).
Abbreviation size := (Z.of_nat (length entries) * ORCHFS_CORE_DIRENT_SIZE).
Lemma window_entries (i : nat) : (i < length entries)%nat ->
  let window := Z.min (kDirectoryWindowEntries * ORCHFS_CORE_DIRENT_SIZE) (size - Z.of_nat i * ORCHFS_CORE_DIRENT_SIZE) in
  window mod ORCHFS_CORE_DIRENT_SIZE = 0 /\ window / ORCHFS_CORE_DIRENT_SIZE = Z.of_nat (Nat.min 64 (length entries - i)) /\ 0 < window.
Proof.
  intros Hi window. assert (window = Z.of_nat (Nat.min 64 (length entries - i)) * ORCHFS_CORE_DIRENT_SIZE) as ->.
  { subst window. unfold kDirectoryWindowEntries, ORCHFS_CORE_DIRENT_SIZE. lia. }
  split_and!; [by apply Z.mod_mul|by apply Z.div_mul|unfold ORCHFS_CORE_DIRENT_SIZE; lia].
Qed.
Lemma read_windows_spec fuel : forall (i room : nat), (i <= length entries)%nat -> (length entries - i < fuel)%nat ->
  exists k, batch (Z.of_nat i) (drop i entries) room k /\
    read_windows fuel e memory inode size entries room (Z.of_nat i * ORCHFS_CORE_DIRENT_SIZE) =
      Some (inr (listing (Z.of_nat i) (take k (drop i entries)), Z.of_nat (i + k) * ORCHFS_CORE_DIRENT_SIZE)).
Proof.
  induction fuel as [|fuel IH]; intros i room Hi Hf; [lia|]. cbn [read_windows].
  destruct (Nat.eqb_spec room 0) as [->|Nr]; cbn [orb].
  { exists O. unfold batch. rewrite take_0. split; [split_and!; [lia|cbn; lia|by right]|]. cbn. do 4 f_equal. lia. }
  destruct (Z.leb_spec size (Z.of_nat i * ORCHFS_CORE_DIRENT_SIZE)) as [L|L].
  { assert (i = length entries) as -> by (unfold ORCHFS_CORE_DIRENT_SIZE in L; lia). rewrite drop_ge by done. exists O.
    split; [split_and!; [cbn; lia|cbn; lia|by left]|]. cbn. do 4 f_equal. lia. }
  assert (i < length entries)%nat as Hlt by (unfold ORCHFS_CORE_DIRENT_SIZE in L; lia).
  destruct (window_entries i Hlt) as (Wm & Wd & Wp). rewrite Wm, Z.sub_0_r, Wd. rewrite (proj2 (Z.eqb_neq _ 0)) by lia.
  rewrite Hm, He. cbn [negb Z.eqb]. rewrite Z.div_mul, !Nat2Z.id by done. set (w := Nat.min 64 (length entries - i)).
  assert (names_ok (take w (drop i entries))) as Hw by (by apply Forall_take, Forall_drop).
  destruct (read_entries_spec (take w (drop i entries)) room (Z.of_nat i) Hw) as (k & (A & B & C) & Hr). rewrite Hr.
  rewrite length_take, length_drop in A, C. assert (k <= w)%nat by lia. rewrite take_take, (Nat.min_l k w) in B, C, Hr |- * by lia.
  set (l := listing (Z.of_nat i) (take k (drop i entries))) in *.
  assert (0 < k)%nat as Hk. { destruct k; [|lia]. subst l. rewrite take_0 in C. destruct C as [C|C]; [lia|cbn in C; lia]. }
  replace (Z.of_nat i + Z.of_nat k) with (Z.of_nat (i + k)) by lia.
  destruct (IH (i + k)%nat (room - length l)%nat) as (k' & (A' & B' & C') & Hr'); [lia|lia|]. rewrite Hr'. rewrite length_drop in A', C'.
  exists (k + k')%nat. assert (listing (Z.of_nat i) (take (k + k') (drop i entries)) = l ++ listing (Z.of_nat (i + k)) (take k' (drop (i + k) entries))) as E.
  { subst l. rewrite <-take_take_drop, listing_app, length_take, length_drop, drop_drop. do 2 f_equal. lia. }
  unfold batch. rewrite E, length_app, length_drop. split; [split_and!; lia|]. do 4 f_equal. lia.
Qed.
End Windows.

(** Successive calls, each from where the one before stopped, with room for [rooms] entries. *)
Fixpoint read_all (e : env) (memory : Z -> bool) (s : fsystem) (inode cursor : Z) (rooms : list nat) : option (Z + list DirEntry) :=
  match rooms with
  | [] => Some (inr [])
  | room :: rooms =>
      match read_directory e memory s inode cursor room with
      | Some (inr (l, cursor)) =>
          match read_all e memory s inode cursor rooms with Some (inr l') => Some (inr (l ++ l')) | r => r end
      | Some (inl error) => Some (inl error)
      | None => None
      end
  end.
Definition total_room (rooms : list nat) : nat := foldr Nat.add 0%nat rooms.
Lemma read_all_spec e memory s d n rooms : tree (fs_nodes s) (fs_root s) -> dir_node (fs_nodes s) d n -> names_ok (nd_entries n) ->
  (forall offset, e_read e d offset = 0) -> (forall cursor, memory cursor = true) -> e_range_lock e = 0 -> e_range_unlock e = 0 ->
  forall i, (i <= length (nd_entries n))%nat ->
  read_all e memory s d (Z.of_nat i * ORCHFS_CORE_DIRENT_SIZE) rooms = Some (inr (take (total_room rooms) (listing (Z.of_nat i) (drop i (nd_entries n))))).
Proof.
  intros T [Hn Ht] Hok He Hm Hl Hu. induction rooms as [|room rooms IH]; intros i Hi; cbn [read_all total_room foldr]; [by rewrite take_0|].
  unfold read_directory. rewrite Z.mod_mul, Hl, Hu, (snapshot_ok _ _ T d n Hn), Ht by done. cbn [Z.eqb negb].
  change (negb (ORCHFS_CORE_DIRECTORY =? ORCHFS_CORE_DIRECTORY)) with false. cbv iota. unfold node_size. rewrite Ht, Z.eqb_refl.
  destruct (read_windows_spec e memory d (nd_entries n) He Hm Hok (S (length (nd_entries n))) i room Hi) as (k & (A & B & C) & E); [lia|].
  rewrite E. rewrite length_drop in A, C. rewrite (IH (i + k)%nat) by lia. do 2 f_equal.
  set (l := nd_entries n) in *. assert (listing (Z.of_nat i) (drop i l) = listing (Z.of_nat i) (take k (drop i l)) ++ listing (Z.of_nat (i + k)) (drop (i + k) l)) as ->.
  { rewrite <-(take_drop k (drop i l)) at 1. rewrite listing_app, length_take, length_drop, drop_drop. do 2 f_equal. lia. }
  rewrite take_app. rewrite (take_ge (listing _ (take k _))) by lia. f_equal. destruct C as [-> | ->].
  - rewrite drop_ge by lia. cbn [listing]. by rewrite !take_nil.
  - by replace (room + foldr Nat.add 0%nat rooms - room)%nat with (foldr Nat.add 0%nat rooms) by lia.
Qed.

(** No name of the directory has a NUL byte: the server refuses such paths. *)
Definition plain_names (n : node) : Prop := Forall (fun en => has_nul (de_name en) = false) (nd_entries n).
Lemma live_names_ok m root d n : tree m root -> linked m d -> dir_node m d n -> plain_names n -> names_ok (nd_entries n).
Proof.
  intros T Hd Hn Hp. apply Forall_forall. intros en Hin Ht. unfold plain_names in Hp. rewrite Forall_forall in Hp. unfold bad_name. rewrite (Hp en Hin), orb_false_r.
  apply list_elem_of_lookup in Hin as [j Hj]. apply Z.ltb_ge.
  destruct (ent_ok m root T d j en Hd) as (_ & _ & _ & _ & H & _); [by exists n|done].
Qed.

(** The directory's entries as a client sees them agree with what lookups find. *)
Definition lists (l : list DirEntry) (name : string) (inode : Z) : Prop := exists x, x ∈ l /\ dr_name x = name /\ dr_inode x = inode.
Lemma listing_lookup e s d n : fs_ok s -> (forall offset, e_read e d offset = 0) -> linked (fs_nodes s) d -> dir_node (fs_nodes s) d n -> forall name inode,
  lists (listing 0 (nd_entries n)) name inode <-> exists ne, (find_child_locked e s d name).1 = inr ne /\ ne_inode ne = inode.
Proof.
  intros [T Hc _] Hr Hd Hn name inode. destruct (find_child_spec e s d n name T Hc Hd Hn) as (r & c & E & _ & _ & Hf). rewrite E. cbn [fst].
  assert (forall en j, ent (fs_nodes s) d j en -> u64 (de_inode en) = de_inode en) as Hu.
  { intros en j He. destruct (ent_ok _ _ T d j en Hd He) as (ni & Hi & _). destruct (t_bound _ _ T _ _ Hi) as [Hb _]. apply Z.mod_small.
    assert (MAX_INODE_NUM < 2 ^ 64) by done. lia. }
  split.
  - intros (x & Hx & <- & <-). apply elem_of_listing in Hx as (j & en & Hj & Ht & ->). cbn [dr_name dr_inode].
    assert (ent (fs_nodes s) d j en) as He by (by exists n). rewrite (Hu en j He). destruct r as [error|ne].
    + destruct Hf as [[_ Hf]|(offset & Eo & N)]; [by destruct (Hf j en He)|]. by rewrite Hr in Eo.
    + exists ne. split; [done|]. destruct Hf as (k & en' & ni & He' & Hname & _ & ->). cbn [ne_inode].
      assert (k = j) as -> by (eapply (ent_unique _ _ T d); [by eapply linked_live|done|done|done]). by rewrite (ent_fun _ _ _ _ _ He He').
  - intros (ne & -> & <-). destruct Hf as (k & en & ni & He & <- & _ & ->). cbn [ne_inode]. pose proof He as (n' & [Hn' _] & Hj & Ht).
    assert (n' = n) as -> by (destruct Hn; congruence). exists (mk_dir_entry (u64 (de_inode en)) ((0 + Z.of_nat k + 1) * ORCHFS_CORE_DIRENT_SIZE) (de_type en) (de_name en)).
    cbn [dr_name dr_inode]. split_and!; [apply elem_of_listing; eauto|done|by eapply Hu].
Qed.

(** C27: Listing a directory gives its names, each once, however the calls are sized:
    the batches of successive calls, each from the cursor of the one before, are the
    used entries in order, as many as the calls have room for; and a name with an
    inode is listed exactly when a lookup finds that inode under the name. *)
Theorem directory_listing_complete e memory s d n rooms :
  fs_ok s -> (forall offset, e_read e d offset = 0) -> linked (fs_nodes s) d -> dir_node (fs_nodes s) d n -> plain_names n ->
  (forall cursor, memory cursor = true) -> e_range_lock e = 0 -> e_range_unlock e = 0 ->
  let all := listing 0 (nd_entries n) in
  read_all e memory s d 0 rooms = Some (inr (take (total_room rooms) all)) /\
  NoDup (map dr_name all) /\
  forall name inode, lists all name inode <-> exists ne, (find_child_locked e s d name).1 = inr ne /\ ne_inode ne = inode.
Proof.
  intros Hok Hr Hd Hn Hp Hm Hl Hu all. pose proof (ok_tree _ Hok) as T. split_and!.
  - apply (read_all_spec e memory s d n rooms T Hn) with (i := O); try done; [by eapply live_names_ok|lia].
  - apply listing_NoDup. intros j k en en' Hj Hk Tj Tk E. eapply (ent_unique _ _ T d); [by eapply linked_live|by exists n|by exists n|done].
  - by apply listing_lookup.
Qed.
Definition demo_root : node := default (new_node 0 []) (fs_nodes demo !! 0).
Lemma directory_listing_complete_witness :
  read_all (quiet 4) (fun _ => true) demo 0 0 [1; 0; 2; 5]%nat = Some (inr (listing 0 (nd_entries demo_root))) /\
  map dr_name (listing 0 (nd_entries demo_root)) = ["."; ".."; "a"; "b"]%string.
Proof.
  destruct (demo_directory 0) as (Hl & _); [set_solver|].
  assert (dir_node (fs_nodes demo) 0 demo_root) as Hn by (vm_compute; split; reflexivity).
  assert (plain_names demo_root) as Hp by (vm_compute; repeat constructor).
  assert (forall offset, e_read (quiet 4) 0 offset = 0) as He by (intros; reflexivity).
  pose proof (directory_listing_complete (quiet 4) (fun _ => true) demo 0 demo_root [1; 0; 2; 5]%nat demo_ok He Hl Hn Hp (fun _ => eq_refl) eq_refl eq_refl) as (E & _ & _).
  split; [|vm_compute; reflexivity]. rewrite E. vm_compute. reflexivity.
Defined.

(** ** Truncation *)

Section Truncation.
Context {F : Type} `{FileData F}.
(** [f'] is [f] with more bytes, all of them zero. *)
Definition grown (f f' : F) (size : Z) : Prop :=
  fd_ok f' /\ fd_type f' = fd_type f /\ fd_size f' = size /\
  forall x, 0 <= x < size -> fd_byte f' x = if x <? fd_size f then fd_byte f x else 0.
Lemma byte_at_zeros n i : byte_at (zeros n) i = 0.
Proof.
  unfold byte_at, zeros. destruct (nth_in_or_default (Z.to_nat i) (replicate (Z.to_nat n) 0) 0) as [H0|]; [|done].
  apply list_elem_of_In, elem_of_replicate in H0. tauto.
Qed.
Lemma grown_refl f : fd_ok f -> grown f f (fd_size f).
Proof. intros Hok. split_and!; try done. intros x Hx. by rewrite (proj2 (Z.ltb_lt _ _)) by lia. Qed.
Lemma grown_step f g h size size' : fd_size f <= size <= size' -> grown f g size ->
  fd_ok h -> fd_type h = fd_type g -> fd_size h = size' -> (forall x, 0 <= x < size' -> fd_byte h x = if x <? size then fd_byte g x else 0) -> grown f h size'.
Proof.
  intros Hs (_ & G1 & G2 & G3) H0 H1 H2 H3. split_and!; [done|congruence|done|]. intros x Hx. rewrite H3 by done.
  destruct (Z.ltb_spec x size) as [L|L]; [apply G3; lia|]. by rewrite (proj2 (Z.ltb_ge x (fd_size f))) by lia.
Qed.
Lemma extend_step f g cursor chunk n h : 0 <= fd_size f <= cursor -> grown f g cursor -> 0 < chunk -> cursor + chunk <= kMaximumFileSize ->
  fd_write g cursor (zeros chunk) = (inr n, h) -> n = chunk /\ grown f h (cursor + chunk).
Proof.
  intros Hs G Hc Hm E. pose proof G as (Hok & _ & Hg & _).
  destruct (fd_write_law g cursor (zeros chunk) n h Hok) as (-> & O & A & B & C); rewrite ?len_zeros in * by lia; try lia; [done|].
  split; [done|]. rewrite Z.max_r in B by lia. eapply grown_step; [|exact G|done|done|done|]; [lia|]. intros x Hx. rewrite C by lia. rewrite byte_at_zeros.
  destruct (in_rangeP x cursor chunk); destruct (Z.ltb_spec x cursor); try lia; done.
Qed.
Lemma extend_spec f size : 0 <= fd_size f -> size <= kMaximumFileSize -> forall fuel g cursor, fd_size f <= cursor <= size -> grown f g cursor ->
  size - cursor <= (Z.of_nat fuel - 1) * kYieldBytes ->
  exists r h size', extend fuel g cursor size = (Some r, h) /\ grown f h size' /\ fd_size f <= size' <= size /\ (r = inr tt -> size' = size).
Proof.
  intros H0 Hm. induction fuel as [|fuel IH]; intros g cursor Hc G Hf; cbn [extend]; [unfold kYieldBytes in *; lia|].
  destruct (Z.ltb_spec cursor size) as [L|L]; [|exists (inr tt), g, cursor; split; [done|]; split; [done|]; split; lia].
  set (chunk := Z.min kYieldBytes (size - cursor)). assert (0 < chunk) by (unfold chunk, kYieldBytes; lia).
  destruct (fd_write g cursor (zeros chunk)) as [[error|n] h] eqn:E.
  - pose proof G as (G0 & G1 & G2 & G3). rewrite <-G2 in E. destruct (fd_write_fail _ _ _ _ G0 E) as (O & A & B & C).
    exists (inl error), h, cursor. split; [done|]. split; [|split; [lia|done]]. rewrite G2 in C. eapply (grown_step f g h cursor cursor); [lia|done|done|done|by rewrite B|].
    intros x Hx. rewrite (proj2 (Z.ltb_lt _ _)) by lia. by apply C.
  - destruct (extend_step f g cursor chunk n h) as [-> G']; try done; [lia|lia|]. rewrite Z.eqb_refl. cbn [negb]. apply IH; [lia|done|].
    unfold chunk, kYieldBytes in *. lia.
Qed.
(** How a file can be after a call with target [size]: on success exactly as asked for;
    on failure no byte below the old and the new end is changed, and what was added is zero. *)
Definition truncated (f : F) (size : Z) (r : Z + unit) (f' : F) : Prop :=
  fd_ok f' /\ fd_type f' = fd_type f /\ Z.min (fd_size f) size <= fd_size f' <= Z.max (fd_size f) size /\
  (forall x, 0 <= x < fd_size f' -> fd_byte f' x = if x <? fd_size f then fd_byte f x else 0) /\
  (r = inr tt -> fd_size f' = size).
Lemma grown_truncated f f' size size' r : 0 <= fd_size f <= size' -> size' <= size -> grown f f' size' -> (r = inr tt -> size' = size) -> truncated f size r f'.
Proof. intros H1 H2 (O & A & B & C) D. split_and!; [done|done|lia|lia|by rewrite B|by rewrite B]. Qed.
Lemma same_truncated f size error f' : 0 <= fd_size f -> fd_ok f' -> fd_type f' = fd_type f -> fd_size f' = fd_size f ->
  (forall x, 0 <= x < fd_size f -> fd_byte f' x = fd_byte f x) -> truncated f size (inl error) f'.
Proof.
  intros H0 O A B C. split_and!; [done|done|lia|lia| |done]. intros x Hx. rewrite B in Hx. rewrite (proj2 (Z.ltb_lt _ _)) by lia. by apply C.
Qed.
Lemma resize_truncated f size r f' : fd_ok f -> 0 <= size <= fd_size f -> fd_resize f size = (r, f') -> truncated f size r f'.
Proof.
  intros Hok Hs E. destruct r as [error|[]].
  - apply fd_resize_fail in E as (O & A & B & C); [|done]. apply same_truncated; [lia|done|done|done|done].
  - apply fd_resize_law in E as (O & A & B & C); [|done|done]. split_and!; [done|done|lia|lia| |done]. intros x Hx. rewrite (proj2 (Z.ltb_lt _ _)) by lia. apply C. lia.
Qed.
Lemma extend_fuel_enough cursor size : cursor < size -> size - cursor <= (Z.of_nat (extend_fuel cursor size) - 1) * kYieldBytes.
Proof.
  intros Hc. unfold extend_fuel, kYieldBytes. change (1024 * 1024) with 1048576. pose proof (Z.div_pos (size - cursor + 1048576 - 1) 1048576).
  pose proof (Z.div_mod (size - cursor + 1048576 - 1) 1048576). pose proof (Z.mod_pos_bound (size - cursor + 1048576 - 1) 1048576). lia.
Qed.
Lemma truncated_release f size f' (release : Z) : truncated f size (inr tt) f' -> truncated f size (if negb (release =? 0) then inl release else inr tt) f'.
Proof. intros (O & A & B & C & D). split_and!; [done|done|apply B|apply B|done|]. intros _. by apply D. Qed.

(** C26: Truncation ends, and does what it says or harms nothing: against the promises
    of writing and resizing, a call answers for every file and every target; on success
    the file has the asked size, its old bytes below the smaller of the two ends, and
    zeros behind the old end; on any failure, also in the middle of the zero loop or
    when the permit is given back, every byte is still the old one or an added zero and
    the size lies between the old and the asked one. *)
Theorem truncate_correct acquire release snapshot f size : fd_ok f -> 0 <= fd_size f -> 0 <= size ->
  exists r f', truncate acquire release snapshot f size = (Some r, f') /\ truncated f size r f' /\
    (acquire = 0 -> release = 0 -> snapshot f = 0 -> kMaximumFileSize < size -> r = inl EFBIG) /\
    (fd_type f <> ORCHFS_CORE_REGULAR -> r <> inr tt).
Proof.
  intros Hok Hf Hs. unfold truncate. assert (forall error, truncated f size (inl error) f) as Hsame by (intros; by apply same_truncated).
  destruct (Z.ltb_spec kMaximumFileSize size) as [Hm|Hm]; [by exists (inl EFBIG), f|].
  destruct (negb (acquire =? 0)); [exists (inl acquire), f; split_and!; done || (intros; lia)|].
  destruct (negb (snapshot f =? 0)); [exists (inl (snapshot f)), f; split_and!; done || (intros; lia)|].
  rewrite (proj2 (Z.ltb_ge (fd_size f) 0)) by lia.
  destruct (Z.eqb_spec (fd_type f) ORCHFS_CORE_REGULAR) as [Ht|Ht]; cbn [negb]; [|exists (inl EISDIR), f; split_and!; done || (intros; lia)].
  assert (exists r f', (if fd_size f <? size then extend (extend_fuel (fd_size f) size) f (fd_size f) size else let '(r, f) := fd_resize f size in (Some r, f))
    = (Some r, f') /\ truncated f size r f') as (r & f' & -> & Htr).
  { destruct (Z.ltb_spec (fd_size f) size) as [L|L].
    - destruct (extend_spec f size Hf Hm (extend_fuel (fd_size f) size) f (fd_size f)) as (r & h & size' & E & G & B & D); [lia|by apply grown_refl|by apply extend_fuel_enough|].
      exists r, h. split; [done|]. apply (grown_truncated _ _ _ size'); [lia|lia|done|done].
    - destruct (fd_resize f size) as [r f'] eqn:E. exists r, f'. split; [done|]. by apply resize_truncated. }
  destruct r as [error|[]]; eexists _, f'; (split; [reflexivity|]); (split; [done || by apply truncated_release|]); split; intros; done || lia.
Qed.
End Truncation.

(** ** The data path as file data *)

(** A file with its blocks.  [prepared] is what the extent cache and the preparation of
    blocks answer for a write: cached blocks, prepared blocks, [ensure_strata] and the
    blocks after the write; the preparation is the part that can fail. *)
Record stored := mk_stored { sr_type : Z; sr_size : Z; sr_data : data; sr_blocks : Z -> orchfs_core_block }.
Record preparation := mk_preparation {
  pr_lookup : Z -> Z + orchfs_core_block;
  pr_before : Z -> orchfs_core_block;
  pr_ensure : Z -> Z -> Z -> pmem -> Z + orchfs_core_block * pmem;
  pr_after : Z -> orchfs_core_block;
}.
Section Stored.
Context (e : write_env) (prepared : stored -> Z -> list Z -> Z + preparation) (resize_error : stored -> Z -> Z) (sound : stored -> Prop).
Definition stored_write (f : stored) (offset : Z) (source : list Z) : (Z + Z) * stored :=
  match prepared f offset source with
  | inl error => (inl error, f)
  | inr p =>
      match write_unlocked e (sr_data f) (sr_type f) (sr_size f) 0 (pr_lookup p) 0 (inr (pr_before p)) (pr_ensure p) offset source false with
      | inl error => (inl error, f)
      | inr (bytes, _, d, size) => (inr bytes, mk_stored (sr_type f) size d (pr_after p))
      end
  end.
Definition stored_resize (f : stored) (size : Z) : (Z + unit) * stored :=
  if negb (resize_error f size =? 0) then (inl (resize_error f size), f) else (inr tt, mk_stored (sr_type f) size (sr_data f) (sr_blocks f)).
Definition stored_byte (f : stored) (x : Z) : Z := file_byte (sr_data f) (sr_blocks f) x.
(** What is relied on of the preparation for a sound file: blocks ready for the write
    that hold the bytes of the file; the file is sound again with the blocks after it. *)
Record prepared_promise : Prop := {
  pp_ready : forall f offset source p, sound f -> prepared f offset source = inr p -> 0 <= offset <= sr_size f -> 0 < len source ->
    offset + len source <= kMaximumFileSize ->
    write_ready e (sr_data f) (sr_size f) (pr_lookup p) (inr (pr_before p)) (pr_ensure p)
      (stable_overwrite (pr_lookup p) false (sr_size f) offset (len source)) offset source (pr_before p) (pr_after p) /\
    forall x, 0 <= x < sr_size f -> file_byte (sr_data f) (pr_before p) x = stored_byte f x;
  pp_sound : forall f offset source p d, sound f -> prepared f offset source = inr p ->
    file_blocks_ok (dp_nvm d) (pr_after p) (Z.max (sr_size f) (offset + len source)) ->
    sound (mk_stored (sr_type f) (Z.max (sr_size f) (offset + len source)) d (pr_after p));
  pp_shrink : forall f size, sound f -> 0 <= size <= sr_size f -> sound (mk_stored (sr_type f) size (sr_data f) (sr_blocks f));
}.
Hypothesis promise : prepared_promise.
Lemma stored_write_law f offset source n f' : sound f -> 0 <= offset <= sr_size f -> 0 < len source -> offset + len source <= kMaximumFileSize ->
  stored_write f offset source = (inr n, f') ->
  n = len source /\ sound f' /\ sr_type f' = sr_type f /\ sr_size f' = Z.max (sr_size f) (offset + len source) /\
  forall x, 0 <= x < sr_size f' -> stored_byte f' x = if in_range x offset (len source) then byte_at source (x - offset) else stored_byte f x.
Proof using promise.
  intros Hf Ho Hs Hm. unfold stored_write. destruct (prepared f offset source) as [|p] eqn:E; [done|].
  destruct (pp_ready promise f offset source p Hf E Ho Hs Hm) as [Hr Hb].
  destruct (Z.eq_dec (sr_type f) ORCHFS_CORE_REGULAR) as [Et|N]; [|unfold write_unlocked; by rewrite (proj2 (Z.eqb_neq _ _) N)].
  destruct (write_unlocked_spec e (sr_data f) (sr_size f) _ _ _ offset source false _ _ Hr) as (d & Ew & Hd & H). rewrite Et, Ew. intros [= <- <-]. cbn [sr_type sr_size].
  split_and!; try done; [rewrite <-Et; by apply (pp_sound promise)|]. intros x Hx. unfold stored_byte at 1. cbn [sr_data sr_blocks]. rewrite H by done.
  destruct (in_rangeP x offset (len source)) as [|N]; [done|]. apply Hb. lia.
Qed.
Lemma stored_write_fail f source error f' : stored_write f (sr_size f) source = (inl error, f') -> f' = f.
Proof. unfold stored_write. repeat case_match; congruence. Qed.
#[local] Instance stored_file_data : FileData stored.
Proof using promise resize_error.
  refine (Build_FileData stored sr_size stored_byte sr_type sound stored_write stored_resize stored_write_law _ _ _).
  - by intros f source error f' Hf ->%stored_write_fail.
  - intros f size f' Hf Hs. unfold stored_resize. case_match; [done|]. intros [= <-]. split_and!; try done. by apply (pp_shrink promise).
  - intros f size error f' Hf. unfold stored_resize. case_match; [|done]. by intros [= _ <-].
Defined.
End Stored.

(** Files on a small area of persistent memory, block after block; a write behind its third block finds no space. *)
Definition linear_block (k : Z) : orchfs_core_block :=
  mk_core_block ORCHFS_CORE_VIRTUAL_BLOCK (-1) (fun page => k * kBlockSize + page * kPageSize) (fun _ => -1) k.
Definition linear_limit : Z := 3 * kBlockSize.
Definition linear_prepared (f : stored) (offset : Z) (source : list Z) : Z + preparation :=
  if offset + len source <=? linear_limit
  then inr (mk_preparation (fun _ => inl EIO) linear_block (fun _ _ _ m => inr (linear_block 0, m)) linear_block) else inl ENOSPC.
Definition linear_sound (f : stored) : Prop := sr_blocks f = linear_block /\ sr_size f <= linear_limit.
Lemma linear_ok m k : 0 <= k < 3 -> block_ok m (linear_block k).
Proof.
  intros Hk. split; try done; [by left|]. intros page Hp _. unfold is_page, ORCHFS_CORE_PAGE_COUNT in Hp. assert (PMEM_LEN = 118 * 2 ^ 30) as E by done.
  unfold pmem_range. cbn [nvm_page_offset linear_block]. unfold kBlockSize, kPageSize. lia.
Qed.
Lemma linear_page k page a : page_nvm (linear_block k) page a -> k * kBlockSize + page * kPageSize <= a < k * kBlockSize + (page + 1) * kPageSize.
Proof. intros [H|[H _]]; [|done]. cbn [nvm_page_offset linear_block] in H. lia. Qed.
Lemma linear_apart size : blocks_apart linear_block linear_block size.
Proof.
  split; try done.
  - intros k _. split; try done. intros p q a Hp Hq _ _ H1%linear_page H2%linear_page. unfold kPageSize in *. lia.
  - intros j k Hj Hk N. split; [|by intros a [? _]]. intros a (p & Hp & _ & H1%linear_page) (q & Hq & _ & H2%linear_page).
    unfold is_page, ORCHFS_CORE_PAGE_COUNT, kPageSize, kBlockSize in *. lia.
  - intros k [Hk _] _ i Hi. cbn [nvm_page_offset linear_block]. pose proof (Z.div_pos i kPageSize). unfold kPageSize, kBlockSize in *. lia.
Qed.
Lemma linear_promise : prepared_promise quiet_env linear_prepared linear_sound.
Proof.
  split.
  - intros f offset source p [Hb Hs]. unfold linear_prepared. destruct (Z.leb_spec (offset + len source) linear_limit) as [L|]; [|done].
    intros [= <-] Ho Hl Hm. cbn [pr_lookup pr_before pr_ensure pr_after]. split; [|unfold stored_byte; by rewrite Hb].
    split; try done; [|apply linear_apart]. intros j [H1 H2]. apply linear_ok. unfold linear_limit, kBlockSize in *. lia.
  - intros f offset source p d [Hb Hs]. unfold linear_prepared. destruct (Z.leb_spec (offset + len source) linear_limit) as [L|]; [|done].
    intros [= <-] _. split; [done|]. cbn [sr_size]. lia.
  - intros f size [Hb Hs] Hsz. split; [done|]. cbn [sr_size]. lia.
Qed.
Definition linear_data : FileData stored := stored_file_data quiet_env linear_prepared (fun _ _ => 0) linear_sound linear_promise.
Definition linear_file : stored := mk_stored ORCHFS_CORE_REGULAR 5 (mk_data (fun a => a + 1) (fun _ => 0)) linear_block.
Lemma truncate_correct_witness :
  (exists f, @truncate stored linear_data 0 0 (fun _ => 0) linear_file 9 = (Some (inr tt), f) /\
    sr_size f = 9 /\ map (stored_byte f) [0; 1; 2; 3; 4; 5; 6; 7; 8] = [1; 2; 3; 4; 5; 0; 0; 0; 0]) /\
  (exists f, @truncate stored linear_data 0 0 (fun _ => 0) linear_file 100000 = (Some (inl ENOSPC), f) /\ map (stored_byte f) [0; 1; 2; 3; 4] = [1; 2; 3; 4; 5]).
Proof.
  assert (linear_sound linear_file) as Hs by (split; done).
  split.
  - destruct (@truncate_correct stored linear_data 0 0 (fun _ => 0) linear_file 9 Hs ltac:(done) ltac:(done)) as (r & f & E & (_ & _ & H1 & H2 & H3) & _ & _).
    assert (r = inr tt) as -> by (apply (f_equal fst) in E; vm_compute in E; congruence). exists f. split; [exact E|]. specialize (H3 eq_refl).
    change (sr_size f = 9) in H3. split; [exact H3|]. cbn [map]. change fd_byte with stored_byte in H2. change (@fd_size stored linear_data) with sr_size in H2. rewrite H3 in H2.
    do 9 rewrite H2 by lia. reflexivity.
  - destruct (@truncate_correct stored linear_data 0 0 (fun _ => 0) linear_file 100000 Hs ltac:(done) ltac:(done)) as (r & f & E & (_ & _ & H1 & H2 & _) & _ & _).
    assert (r = inl ENOSPC) as -> by (apply (f_equal fst) in E; vm_compute in E; injection E as <-; reflexivity). exists f. split; [exact E|].
    change (5 <= sr_size f <= 100000) in H1. change fd_byte with stored_byte in H2. change (@fd_size stored linear_data) with sr_size in H2.
    cbn [map]. do 5 rewrite H2 by lia. reflexivity.
Defined.

(** ** Permits and blocks *)

Definition io_reads (op : io) : bool := match op with io_read _ _ | io_list => true | _ => false end.
(** The blocks of which a call can read or change bytes of a file of [size] bytes: a
    write merges its bytes into whole blocks. *)
Definition io_block (size : Z) (op : io) (k : Z) : Prop :=
  exists x, x / kBlockSize = k /\
    match op with
    | io_read offset length => offset <= x < offset + length
    | io_write offset length append => let start := if append then size else offset in start <= x < start + length /\ start + length <= kMaximumFileSize
    | io_truncate target => 0 <= x < Z.max size target
    | io_list => 0 <= x < size
    end.
Lemma make_request_covers offset length mode q x : 0 <= offset -> 0 < length <= UINT64_MAX -> make_request offset length mode = Some q ->
  offset <= x < offset + length -> RangeArbiter.covers q x /\ rq_mode q = mode.
Proof.
  intros Ho Hl. unfold make_request. destruct (_ || _) eqn:E; [done|]. apply orb_false_iff in E as [E1 E2]. intros [= <-] Hx. split; [|done].
  unfold RangeArbiter.covers. cbn [first_block last_block]. rewrite u64_small by (unfold UINT64_MAX in *; lia). unfold granularity. split; apply Z.div_le_mono; lia.
Qed.
Lemma io_request_covers size op q k : 0 <= size <= kMaximumFileSize -> match op with io_read o n | io_write o n _ => 0 <= o <= UINT64_MAX /\ 0 <= n <= UINT64_MAX | _ => True end ->
  io_request op = Some q -> io_block size op k -> (exists x, x / granularity = k /\ RangeArbiter.covers q x) /\ rq_mode q = if io_reads op then mode_read else mode_write.
Proof.
  assert (kMaximumFileSize = 2 ^ 57) as Em by done. assert (UINT64_MAX = 2 ^ 64 - 1) as Eu by done.
  intros Hs Ha Hq (x & Hk & Hx). assert (forall start length mode, make_request start length mode = Some q -> 0 <= start -> 0 < length <= UINT64_MAX -> start <= x < start + length ->
    (exists x, x / granularity = k /\ RangeArbiter.covers q x) /\ rq_mode q = mode) as M.
  { intros start length mode E H1 H2 H3. destruct (make_request_covers start length mode q x H1 H2 E H3). split; [by exists x|done]. }
  destruct op as [o n|o n ap|t|]; cbn [io_request io_reads] in *.
  - destruct ((INT64_MAX <? o) || (INT64_MAX - o <? n)) eqn:E; [done|]. apply orb_false_iff in E as [E1 E2]. unfold INT64_MAX in *.
    apply (M _ _ _ Hq); unfold range_length, kWholeFile; repeat case_match; lia.
  - apply (M _ _ _ Hq); destruct ap; unfold range_length, kWholeFile; repeat case_match; lia.
  - destruct (Z.ltb_spec kMaximumFileSize t); [done|]. apply (M _ _ _ Hq); unfold kWholeFile; lia.
  - apply (M _ _ _ Hq); unfold kWholeFile; lia.
Qed.

(** No data race on a block: in every state the arbiter of a file reaches, two calls
    that hold the permits they ask for and work on one block, which writing may read
    and write back as a whole, are both reading. *)
Theorem data_calls_exclude worker st a b size op1 op2 q1 q2 k :
  reachable worker st -> a <> b -> rq_client (reqs st a) = c_owner -> rq_client (reqs st b) = c_owner -> 0 <= size <= kMaximumFileSize ->
  (forall op, op = op1 \/ op = op2 -> match op with io_read o n | io_write o n _ => 0 <= o <= UINT64_MAX /\ 0 <= n <= UINT64_MAX | _ => True end) ->
  io_request op1 = Some q1 -> io_request op2 = Some q2 -> rng (reqs st a) = rng q1 -> rng (reqs st b) = rng q2 ->
  io_block size op1 k -> io_block size op2 k -> io_reads op1 = true /\ io_reads op2 = true.
Proof.
  intros R N Ca Cb Hs Ha E1 E2 G1 G2 B1 B2.
  destruct (io_request_covers size op1 q1 k Hs (Ha op1 (or_introl eq_refl)) E1 B1) as ((x & X1 & X2) & M1).
  destruct (io_request_covers size op2 q2 k Hs (Ha op2 (or_intror eq_refl)) E2 B2) as ((y & Y1 & Y2) & M2).
  unfold rng in *. injection G1 as F1 L1 O1. injection G2 as F2 L2 O2. unfold RangeArbiter.covers in *. rewrite Y1, <-X1 in Y2.
  destruct (permits_apart worker st a b x R N Ca Cb) as [P Q]; [unfold RangeArbiter.covers; lia|unfold RangeArbiter.covers; lia|].
  destruct (io_reads op1), (io_reads op2); split; congruence.
Qed.
Lemma data_calls_exclude_witness : io_reads (io_read 0 100) = true /\ io_reads (io_read 50 40000) = true.
Proof.
  destruct (io_request (io_read 0 100)) as [q1|] eqn:E1; [|by vm_compute in E1]. destruct (io_request (io_read 50 40000)) as [q2|] eqn:E2; [|by vm_compute in E2].
  apply (data_calls_exclude 0 (demo_run demo_readers) 1 2 200 (io_read 0 100) (io_read 50 40000) q1 q2 0);
    [apply demo_reachable|done|by vm_compute|by vm_compute|done|by intros op [-> | ->]|done|done| | | |].
  - injection E1 as <-. by vm_compute.
  - injection E2 as <-. by vm_compute.
  - exists 60. split; [done|lia].
  - exists 60. split; [done|lia].
Defined.
