(* ===== verification/Rpc.v ===== *)
(** * Remote calls: requests and wire objects (include/orchfs/async/rpc_protocol.hpp)

    A request is a fixed header, then the bytes of two paths and of the data.  The client
    side ([make_rpc_request], [header_request] of Async/client.cpp) and the server side
    ([parse_request] of Async/server.cpp) are shown inverse to each other, and so are the
    two sides of the objects that replies carry. *)

From stdpp Require Import base tactics numbers list gmap strings relations.
From Stdlib Require Import ZArith Lia Ascii.
From S2P Require Import Prelude Bytes Layout Pmem Namespace FileOps.
Open Scope Z_scope.

(** ** Strings and bytes *)

Definition byte_of_char (c : ascii) : Z := Z.of_nat (nat_of_ascii c).
Definition char_of_byte (b : Z) : ascii := ascii_of_nat (Z.to_nat b).
Fixpoint string_bytes (s : string) : list Z := match s with EmptyString => [] | String c s => byte_of_char c :: string_bytes s end.
Fixpoint bytes_string (l : list Z) : string := match l with [] => EmptyString | b :: l => String (char_of_byte b) (bytes_string l) end.

Lemma byte_char c : char_of_byte (byte_of_char c) = c.
Proof. unfold char_of_byte, byte_of_char. rewrite Nat2Z.id. apply ascii_nat_embedding. Qed.
Lemma char_byte b : byte_ok b -> byte_of_char (char_of_byte b) = b.
Proof. unfold byte_ok, char_of_byte, byte_of_char. intros. rewrite nat_ascii_embedding; lia. Qed.
Lemma bytes_string_bytes s : bytes_string (string_bytes s) = s.
Proof. induction s as [|c s IH]; cbn; [done|]. by rewrite byte_char, IH. Qed.
Lemma string_bytes_string l : bytes_ok l -> string_bytes (bytes_string l) = l.
Proof. induction 1 as [|b l Hb Hl IH]; cbn; [done|]. by rewrite char_byte, IH. Qed.
Lemma string_bytes_ok s : bytes_ok (string_bytes s).
Proof.
  induction s as [|c s IH]; cbn; constructor; [|done]. unfold byte_ok, byte_of_char. pose proof (nat_ascii_bounded c). lia.
Qed.
Lemma len_string_bytes s : len (string_bytes s) = Z.of_nat (String.length s).
Proof. unfold len. induction s as [|c s IH]; cbn; [done|]. cbn in IH. lia. Qed.
#[export] Hint Resolve string_bytes_ok : orch.

(** ** Objects on the wire *)

(** A trivially copyable structure: the bytes of its fields, the padding behind them, and
    how the fields are found again in a copy. *)
Class WireObject (A : Type) := {
  wire_fields : A -> list Z;
  wire_padding : Z;
  wire_size : Z;  (** sizeof *)
  wire_load : list Z -> A;
  wire_ok : A -> Prop;
  wire_length : forall x, wire_ok x -> len (wire_fields x) + wire_padding = wire_size;
  wire_padding_nonneg : 0 <= wire_padding;
  wire_round : forall x rest, wire_ok x -> wire_load (wire_fields x ++ rest) = x;
}.
(** [padding]: the indeterminate bytes that a copy of the object carries along. *)
Definition encode_object {A} `{WireObject A} (padding : list Z) (x : A) : list Z := wire_fields x ++ padding.
Definition decode_object {A} `{WireObject A} (bytes : list Z) : Z + A :=
  if negb (len bytes =? wire_size (A := A)) then inl EPROTO else inr (wire_load bytes).
Definition append_object {A} `{WireObject A} (padding bytes : list Z) (x : A) : list Z := bytes ++ encode_object padding x.
Definition append_bytes (bytes data : list Z) (size : Z) : list Z := if size =? 0 then bytes else bytes ++ data.

Lemma decode_encode {A} `{WireObject A} padding (x : A) : wire_ok x -> len padding = wire_padding (A := A) ->
  decode_object (encode_object padding x) = inr x.
Proof.
  intros Hx Hp. unfold decode_object, encode_object. rewrite len_app, Hp, wire_length by done. rewrite Z.eqb_refl. cbn.
  by rewrite wire_round.
Qed.
Lemma append_bytes_all bytes data : append_bytes bytes data (len data) = bytes ++ data.
Proof. unfold append_bytes. destruct (len data =? 0) eqn:E; [|done]. destruct data; [by rewrite app_nil_r|]. rewrite len_cons in E. pose proof (len_nonneg data). lia. Qed.

(** ** Requests *)

Definition kRpcSchemaVersion : Z := 1.
Definition kRpcNameCapacity : Z := 232.
Definition kInvalidRemoteHandle : Z := 0.
Definition REQUEST_IMPLICIT_OFFSET : Z := 1.
Definition REQUEST_DATA_FOLLOWS : Z := 2.

Record RpcRequest := mk_request {
  q_schema_version : Z; q_flags : Z; q_handle : Z; q_second_handle : Z; q_offset : Z; q_length : Z; q_value : Z; q_open_flags : Z;
  q_mode : Z; q_whence : Z; q_path1_length : Z; q_path2_length : Z; q_data_length : Z; q_reserved : Z;
}.
Definition new_request : RpcRequest := mk_request kRpcSchemaVersion 0 kInvalidRemoteHandle kInvalidRemoteHandle 0 0 0 0 0 0 0 0 0 0.
Definition in_s64 (z : Z) : Prop := - 2 ^ 63 <= z < 2 ^ 63.
Definition in_s32 (z : Z) : Prop := - 2 ^ 31 <= z < 2 ^ 31.
Definition request_fields (q : RpcRequest) : list Z :=
  le_bytes 4 (q_schema_version q) ++ le_bytes 4 (q_flags q) ++ le_bytes 8 (q_handle q) ++ le_bytes 8 (q_second_handle q) ++
  le_bytes 8 (q_offset q) ++ le_bytes 8 (q_length q) ++ le_bytes 8 (q_value q) ++ le_bytes 4 (q_open_flags q) ++ le_bytes 4 (q_mode q) ++
  le_bytes 4 (q_whence q) ++ le_bytes 4 (q_path1_length q) ++ le_bytes 4 (q_path2_length q) ++ le_bytes 4 (q_data_length q) ++
  le_bytes 4 (q_reserved q).
Definition load_request (b : list Z) : RpcRequest :=
  mk_request (rd_u32 0 b) (rd_u32 4 b) (rd_u64 8 b) (rd_u64 16 b) (rd_s64 24 b) (rd_u64 32 b) (rd_s64 40 b) (rd_s32 48 b) (rd_u32 52 b)
    (rd_s32 56 b) (rd_u32 60 b) (rd_u32 64 b) (rd_u32 68 b) (rd_u32 72 b).
Definition in_width (w z : Z) : Prop := 0 <= z < 2 ^ w.
Definition request_ok (q : RpcRequest) : Prop :=
  in_width 32 (q_schema_version q) /\ in_width 32 (q_flags q) /\ in_width 64 (q_handle q) /\ in_width 64 (q_second_handle q) /\
  in_s64 (q_offset q) /\ in_width 64 (q_length q) /\ in_s64 (q_value q) /\ in_s32 (q_open_flags q) /\ in_width 32 (q_mode q) /\
  in_s32 (q_whence q) /\ in_width 32 (q_path1_length q) /\ in_width 32 (q_path2_length q) /\ in_width 32 (q_data_length q) /\
  in_width 32 (q_reserved q).
Lemma load_request_fields q rest : request_ok q -> load_request (request_fields q ++ rest) = q.
Proof.
  intros (A1 & A2 & A3 & A4 & A5 & A6 & A7 & A8 & A9 & A10 & A11 & A12 & A13 & A14). unfold load_request. destruct q.
  cbn [q_schema_version q_flags q_handle q_second_handle q_offset q_length q_value q_open_flags q_mode q_whence q_path1_length
    q_path2_length q_data_length q_reserved] in *.
  f_equal; first [apply rd_u32_enc | apply rd_u64_enc | apply rd_s64_enc | apply rd_s32_enc]; first [assumption | reflexivity].
Qed.
#[export, refine] Instance request_wire : WireObject RpcRequest := {
  wire_fields := request_fields; wire_padding := 4; wire_size := 80; wire_load := load_request; wire_ok := request_ok }.
Proof.
  - done.
  - done.
  - exact load_request_fields.
Defined.
Definition REQUEST_SIZE : Z := 80.

(** The lengths of the three variable parts, as the encoders set them. *)
Definition set_lengths (q : RpcRequest) (path1 path2 data : Z) : RpcRequest :=
  let 'mk_request _ fl ha h2 off le va ofl mo wh _ _ _ re := q in
  mk_request kRpcSchemaVersion fl ha h2 off le va ofl mo wh (u32 path1) (u32 path2) (u32 data) re.
(** The loop over the sizes of the parts; [None]: a part does not fit. *)
Fixpoint wire_total (limit size : Z) (parts : list Z) : option Z :=
  match parts with
  | [] => Some size
  | part :: rest => if limit - size <? part then None else wire_total limit (size + part) rest
  end.
Definition make_rpc_request (padding : list Z) (wire_size_limit : Z) (q : RpcRequest) (path1 path2 : string) (data : list Z) : Z + list Z :=
  let wire_size_limit := Z.min wire_size_limit UINT32_MAX in
  if wire_size_limit <? REQUEST_SIZE then inl EMSGSIZE
  else
    let path1 := string_bytes path1 in
    let path2 := string_bytes path2 in
    match wire_total wire_size_limit REQUEST_SIZE [len path1; len path2; len data] with
    | None => inl EMSGSIZE
    | Some _ =>
        let wire := set_lengths q (len path1) (len path2) (len data) in
        let bytes := append_object padding [] wire in
        let bytes := append_bytes bytes path1 (len path1) in
        let bytes := append_bytes bytes path2 (len path2) in
        inr (append_bytes bytes data (len data))
    end.
(** A request without paths whose data is copied into the slot behind the header. *)
Definition header_request (padding : list Z) (data_slot_size : Z) (q : RpcRequest) (tail : list Z) : Z + list Z * list Z :=
  if (data_slot_size <? REQUEST_SIZE) || (data_slot_size - REQUEST_SIZE <? len tail) then inl EMSGSIZE
  else inr (encode_object padding (set_lengths q 0 0 (len tail)), tail).

Record ParsedRequest := mk_parsed { p_request : RpcRequest; p_path1 : string; p_path2 : string; p_data : list Z }.
Definition parse_request (payload : list Z) : Z + ParsedRequest :=
  if len payload <? REQUEST_SIZE then inl EPROTO
  else
    let q := wire_load payload in
    if negb (q_schema_version q =? kRpcSchemaVersion) then inl EPROTONOSUPPORT
    else
      let variable_size := q_path1_length q + q_path2_length q + q_data_length q in
      if negb (variable_size =? len payload - REQUEST_SIZE) then inl EPROTO
      else
        let cursor := REQUEST_SIZE in
        let path1 := bytes_string (slice cursor (q_path1_length q) payload) in
        let cursor := cursor + q_path1_length q in
        let path2 := bytes_string (slice cursor (q_path2_length q) payload) in
        let cursor := cursor + q_path2_length q in
        let data := slice cursor (q_data_length q) payload in
        if has_nul path1 || has_nul path2 then inl EINVAL
        else inr (mk_parsed q path1 path2 data).

(** *** The two sides agree *)

Lemma set_lengths_ok q a b c : request_ok q -> request_ok (set_lengths q a b c).
Proof.
  intros (A1 & A2 & A3 & A4 & A5 & A6 & A7 & A8 & A9 & A10 & A11 & A12 & A13 & A14). destruct q. cbn in *.
  repeat split; try (apply A2 || apply A3 || apply A4 || apply A5 || apply A6 || apply A7 || apply A8 || apply A9 || apply A10 || apply A14);
    try done; apply u32_range.
Qed.
Lemma set_lengths_handle q a b c : q_handle (set_lengths q a b c) = q_handle q.
Proof. by destruct q. Qed.
Lemma set_lengths_offset q a b c : q_offset (set_lengths q a b c) = q_offset q.
Proof. by destruct q. Qed.
Lemma set_lengths_length q a b c : q_length (set_lengths q a b c) = q_length q.
Proof. by destruct q. Qed.
Lemma set_lengths_value q a b c : q_value (set_lengths q a b c) = q_value q.
Proof. by destruct q. Qed.
Lemma set_lengths_open_flags q a b c : q_open_flags (set_lengths q a b c) = q_open_flags q.
Proof. by destruct q. Qed.
Lemma set_lengths_mode q a b c : q_mode (set_lengths q a b c) = q_mode q.
Proof. by destruct q. Qed.
Lemma set_lengths_whence q a b c : q_whence (set_lengths q a b c) = q_whence q.
Proof. by destruct q. Qed.
Create Rewrite HintDb rpc.
#[export] Hint Rewrite set_lengths_handle set_lengths_offset set_lengths_length set_lengths_value set_lengths_open_flags set_lengths_mode set_lengths_whence : rpc.
Lemma wire_total_fits limit size parts total : wire_total limit size parts = Some total -> Forall (Z.le 0) parts ->
  total = size + foldr Z.add 0 parts /\ (size <= limit -> total <= limit).
Proof.
  revert size. induction parts as [|part parts IH]; cbn; intros size H HF; [by simplify_eq; lia|].
  destruct (limit - size <? part) eqn:E; [done|]. apply Z.ltb_ge in E. inversion_clear HF as [|? ? H1 H2]. destruct (IH _ H H2). lia.
Qed.
Lemma encoded_length padding q : len padding = 4 -> len (encode_object padding q) = REQUEST_SIZE.
Proof. intros. unfold encode_object. rewrite len_app. unfold wire_fields, request_wire. by rewrite H. Qed.
Lemma slice_part a b c off n : off = len a -> n = len b -> slice off n (a ++ b ++ c) = b.
Proof. intros -> ->. rewrite slice_app_r, Z.sub_diag, slice_app_l by (try apply len_nonneg; lia). by apply slice_all. Qed.
Lemma slice_tail a b off n : off = len a -> n = len b -> slice off n (a ++ b) = b.
Proof. intros. rewrite <-(app_nil_r b) at 1. by apply slice_part. Qed.
(** What [parse_request] makes of a header followed by the three parts it announces. *)
Lemma parse_encoded padding q path1 path2 data : request_ok q -> len padding = 4 ->
  len (string_bytes path1) < 2 ^ 32 -> len (string_bytes path2) < 2 ^ 32 -> len data < 2 ^ 32 ->
  let q' := set_lengths q (len (string_bytes path1)) (len (string_bytes path2)) (len data) in
  parse_request (encode_object padding q' ++ string_bytes path1 ++ string_bytes path2 ++ data) =
  if has_nul path1 || has_nul path2 then inl EINVAL else inr (mk_parsed q' path1 path2 data).
Proof.
  intros Hq Hp H1 H2 H3 q'. pose proof (encoded_length padding q' Hp) as L. set (h := encode_object padding q') in *.
  assert (wire_load (h ++ string_bytes path1 ++ string_bytes path2 ++ data) = q') as W.
  { unfold h, encode_object. rewrite <-app_assoc. apply wire_round. by apply set_lengths_ok. }
  pose proof (len_nonneg (string_bytes path1)). pose proof (len_nonneg (string_bytes path2)). pose proof (len_nonneg data).
  assert (q_schema_version q' = kRpcSchemaVersion /\ q_path1_length q' = len (string_bytes path1) /\ q_path2_length q' = len (string_bytes path2) /\
    q_data_length q' = len data) as (E0 & E1 & E2 & E3).
  { unfold q'. destruct q. cbn. split; [done|]. split; [|split]; apply u32_small; lia. }
  unfold parse_request. rewrite W, E0, E1, E2, E3, !len_app, L. unfold REQUEST_SIZE in *.
  rewrite (proj2 (Z.ltb_ge _ _)), Z.eqb_refl by lia. cbn [negb].
  replace (len (string_bytes path1) + len (string_bytes path2) + len data =? _) with true by (symmetry; apply Z.eqb_eq; lia). cbn [negb].
  rewrite (slice_part h), (app_assoc h), (slice_part (h ++ _)) by (rewrite ?len_app; lia).
  rewrite (app_assoc (h ++ _)), slice_tail by (rewrite ?len_app; lia). by rewrite !bytes_string_bytes.
Qed.
Lemma made_request padding limit q path1 path2 data bytes : make_rpc_request padding limit q path1 path2 data = inr bytes -> len padding = 4 ->
  let q' := set_lengths q (len (string_bytes path1)) (len (string_bytes path2)) (len data) in
  bytes = encode_object padding q' ++ string_bytes path1 ++ string_bytes path2 ++ data /\ len bytes <= Z.min limit UINT32_MAX.
Proof.
  intros H Hp. unfold make_rpc_request in H. destruct (Z.min limit UINT32_MAX <? REQUEST_SIZE) eqn:E; [done|]. apply Z.ltb_ge in E.
  destruct (wire_total _ _ _) as [total|] eqn:T; [|done]. simplify_eq. rewrite !append_bytes_all. unfold append_object. cbn [app].
  apply wire_total_fits in T as [T T']; [|repeat constructor; apply len_nonneg]. specialize (T' E). cbn in T. rewrite <-!app_assoc. split; [done|].
  rewrite !len_app, encoded_length by done. lia.
Qed.

(** C29: What a client encodes is what the server parses.  A request with two paths and data
    that [make_rpc_request] accepts fits the slot, and [parse_request] returns its fields, its
    paths and its data, or EINVAL when a path holds a zero byte; a header with its data
    copied behind it ([header_request]) parses to the same header and data. *)
Theorem request_roundtrip (padding : list Z) (limit : Z) (q : RpcRequest) (path1 path2 : string) (data : list Z)
    (Hq : request_ok q) (Hp : len padding = 4) (Hl : limit < 2 ^ 32) :
  (forall bytes, make_rpc_request padding limit q path1 path2 data = inr bytes ->
    len bytes <= limit /\
    parse_request bytes =
      if has_nul path1 || has_nul path2 then inl EINVAL
      else inr (mk_parsed (set_lengths q (len (string_bytes path1)) (len (string_bytes path2)) (len data)) path1 path2 data)) /\
  (forall head tail, header_request padding limit q data = inr (head, tail) ->
    len head + len tail <= limit /\
    parse_request (head ++ tail) = inr (mk_parsed (set_lengths q 0 0 (len data)) EmptyString EmptyString data)).
Proof.
  split.
  - intros bytes H. destruct (made_request _ _ _ _ _ _ _ H Hp) as [-> L]. split; [lia|]. rewrite !len_app, encoded_length in L by done.
    unfold REQUEST_SIZE, UINT32_MAX in L. pose proof (len_nonneg (string_bytes path1)). pose proof (len_nonneg (string_bytes path2)).
    pose proof (len_nonneg data). by apply parse_encoded; [..|lia|lia|lia].
  - intros head tail H. unfold header_request in H. destruct (_ || _) eqn:E; [done|]. apply orb_false_elim in E as [E1 E2].
    apply Z.ltb_ge in E1, E2. simplify_eq. rewrite encoded_length by done. unfold REQUEST_SIZE in *. split; [lia|].
    pose proof (parse_encoded padding q EmptyString EmptyString tail Hq Hp ltac:(done) ltac:(done) ltac:(lia)) as P. cbn in P. exact P.
Qed.
Definition sample_request : RpcRequest := mk_request kRpcSchemaVersion 3 7 0 (-5) 4 2 66 420 (-1) 0 0 0 0.
Lemma request_roundtrip_witness :
  parse_request (match make_rpc_request [9; 9; 9; 9] 200 sample_request "/a" "b" [1; 2; 3] with inr b => b | _ => [] end) =
  inr (mk_parsed (set_lengths sample_request 2 1 3) "/a" "b" [1; 2; 3]).
Proof.
  refine (proj2 (proj1 (request_roundtrip [9; 9; 9; 9] 200 sample_request "/a" "b" [1; 2; 3] _ eq_refl eq_refl) _ eq_refl)).
  unfold request_ok. by repeat split.
Defined.

(** Whatever the payload holds, the parts of an accepted request lie in it, in order and without a gap. *)
Lemma parse_partition payload r : bytes_ok payload -> parse_request payload = inr r ->
  payload = slice 0 REQUEST_SIZE payload ++ string_bytes (p_path1 r) ++ string_bytes (p_path2 r) ++ p_data r /\
  p_request r = load_request payload /\ q_schema_version (p_request r) = kRpcSchemaVersion /\ has_nul (p_path1 r) = false /\ has_nul (p_path2 r) = false.
Proof.
  intros Hb H. unfold parse_request in H. destruct (len payload <? REQUEST_SIZE) eqn:E1; [done|]. apply Z.ltb_ge in E1.
  destruct (negb (q_schema_version _ =? _)) eqn:E2; [done|]. apply negb_false_iff, Z.eqb_eq in E2.
  destruct (negb (_ + _ + _ =? _)) eqn:E3; [done|]. apply negb_false_iff, Z.eqb_eq in E3.
  destruct (_ || _) eqn:E4; [done|]. apply orb_false_elim in E4 as [E4 E5]. simplify_eq. cbn [p_request p_path1 p_path2 p_data].
  split_and!; try done. rewrite !string_bytes_string by auto with orch.
  change (wire_load payload) with (load_request payload) in *.
  assert (forall o, 0 <= rd_u32 o payload) as P by (intros; by apply rd_u32_range).
  pose proof (P 60). pose proof (P 64). pose proof (P 68). unfold load_request in *.
  cbn [q_path1_length q_path2_length q_data_length] in *. unfold REQUEST_SIZE in *.
  rewrite !slice_cat by lia.
  symmetry. apply slice_all. lia.
Qed.

(** ** Objects of replies *)

Definition stat_fields (s : FileStat) : list Z :=
  le_bytes 8 (fs_device s) ++ le_bytes 8 (fs_inode s) ++ le_bytes 8 (fs_mode s) ++ le_bytes 8 (fs_link_count s) ++ le_bytes 8 (fs_uid s) ++
  le_bytes 8 (fs_gid s) ++ le_bytes 8 (fs_rdev s) ++ le_bytes 8 (fs_size s) ++ le_bytes 8 (fs_block_size s) ++ le_bytes 8 (fs_blocks s) ++
  le_bytes 8 (fs_atime_seconds s) ++ le_bytes 8 (fs_atime_nanoseconds s) ++ le_bytes 8 (fs_mtime_seconds s) ++
  le_bytes 8 (fs_mtime_nanoseconds s) ++ le_bytes 8 (fs_ctime_seconds s) ++ le_bytes 8 (fs_ctime_nanoseconds s).
Definition load_stat (b : list Z) : FileStat :=
  mk_file_stat (rd_u64 0 b) (rd_u64 8 b) (rd_u64 16 b) (rd_u64 24 b) (rd_u64 32 b) (rd_u64 40 b) (rd_u64 48 b) (rd_s64 56 b) (rd_s64 64 b)
    (rd_s64 72 b) (rd_s64 80 b) (rd_s64 88 b) (rd_s64 96 b) (rd_s64 104 b) (rd_s64 112 b) (rd_s64 120 b).
Definition stat_ok (s : FileStat) : Prop :=
  in_width 64 (fs_device s) /\ in_width 64 (fs_inode s) /\ in_width 64 (fs_mode s) /\ in_width 64 (fs_link_count s) /\ in_width 64 (fs_uid s) /\
  in_width 64 (fs_gid s) /\ in_width 64 (fs_rdev s) /\ in_s64 (fs_size s) /\ in_s64 (fs_block_size s) /\ in_s64 (fs_blocks s) /\
  in_s64 (fs_atime_seconds s) /\ in_s64 (fs_atime_nanoseconds s) /\ in_s64 (fs_mtime_seconds s) /\ in_s64 (fs_mtime_nanoseconds s) /\
  in_s64 (fs_ctime_seconds s) /\ in_s64 (fs_ctime_nanoseconds s).
Lemma load_stat_fields s rest : stat_ok s -> load_stat (stat_fields s ++ rest) = s.
Proof.
  intros (A1 & A2 & A3 & A4 & A5 & A6 & A7 & A8 & A9 & A10 & A11 & A12 & A13 & A14 & A15 & A16). unfold load_stat. destruct s as [v1 v2 v3 v4 v5 v6 v7 v8 v9 v10 v11 v12 v13 v14 v15 v16].
  cbn [fs_device fs_inode fs_mode fs_link_count fs_uid fs_gid fs_rdev fs_size fs_block_size fs_blocks fs_atime_seconds fs_atime_nanoseconds
    fs_mtime_seconds fs_mtime_nanoseconds fs_ctime_seconds fs_ctime_nanoseconds] in *.
  f_equal; first [apply rd_u64_enc | apply rd_s64_enc]; first [assumption | reflexivity].
Qed.
#[export, refine] Instance stat_wire : WireObject FileStat := {
  wire_fields := stat_fields; wire_padding := 0; wire_size := 128; wire_load := load_stat; wire_ok := stat_ok }.
Proof.
  - done.
  - done.
  - exact load_stat_fields.
Defined.

Definition statfs_fields (s : FileSystemStat) : list Z :=
  le_bytes 8 (st_type s) ++ le_bytes 8 (st_block_size s) ++ le_bytes 8 (st_blocks s) ++ le_bytes 8 (st_blocks_free s) ++
  le_bytes 8 (st_blocks_available s) ++ le_bytes 8 (st_files s) ++ le_bytes 8 (st_files_free s) ++ le_bytes 8 (st_name_length s) ++
  le_bytes 8 (st_fragment_size s) ++ le_bytes 8 (st_flags s).
Definition load_statfs (b : list Z) : FileSystemStat :=
  mk_fs_stat (rd_u64 0 b) (rd_u64 8 b) (rd_u64 16 b) (rd_u64 24 b) (rd_u64 32 b) (rd_u64 40 b) (rd_u64 48 b) (rd_u64 56 b) (rd_u64 64 b) (rd_u64 72 b).
Definition statfs_ok (s : FileSystemStat) : Prop :=
  in_width 64 (st_type s) /\ in_width 64 (st_block_size s) /\ in_width 64 (st_blocks s) /\ in_width 64 (st_blocks_free s) /\
  in_width 64 (st_blocks_available s) /\ in_width 64 (st_files s) /\ in_width 64 (st_files_free s) /\ in_width 64 (st_name_length s) /\
  in_width 64 (st_fragment_size s) /\ in_width 64 (st_flags s).
Lemma load_statfs_fields s rest : statfs_ok s -> load_statfs (statfs_fields s ++ rest) = s.
Proof.
  intros (A1 & A2 & A3 & A4 & A5 & A6 & A7 & A8 & A9 & A10). unfold load_statfs. destruct s as [v1 v2 v3 v4 v5 v6 v7 v8 v9 v10].
  cbn [st_type st_block_size st_blocks st_blocks_free st_blocks_available st_files st_files_free st_name_length st_fragment_size st_flags] in *.
  f_equal; apply rd_u64_enc; first [assumption | reflexivity].
Qed.
#[export, refine] Instance statfs_wire : WireObject FileSystemStat := {
  wire_fields := statfs_fields; wire_padding := 0; wire_size := 80; wire_load := load_statfs; wire_ok := statfs_ok }.
Proof.
  - done.
  - done.
  - exact load_statfs_fields.
Defined.

Record RpcDirEntry := mk_wire_entry { w_inode : Z; w_offset : Z; w_record_length : Z; w_type : Z; w_name_length : Z; w_name : list Z }.
Definition entry_fields (w : RpcDirEntry) : list Z :=
  le_bytes 8 (w_inode w) ++ le_bytes 8 (w_offset w) ++ le_bytes 2 (w_record_length w) ++ le_bytes 1 (w_type w) ++ le_bytes 1 (w_name_length w) ++
  w_name w.
Definition load_entry (b : list Z) : RpcDirEntry :=
  mk_wire_entry (rd_u64 0 b) (rd_s64 8 b) (le_val (slice 16 2 b)) (le_val (slice 18 1 b)) (le_val (slice 19 1 b)) (slice 20 kRpcNameCapacity b).
Definition entry_ok (w : RpcDirEntry) : Prop :=
  in_width 64 (w_inode w) /\ in_s64 (w_offset w) /\ in_width 16 (w_record_length w) /\ in_width 8 (w_type w) /\ in_width 8 (w_name_length w) /\
  len (w_name w) = kRpcNameCapacity.
Lemma load_entry_fields w rest : entry_ok w -> load_entry (entry_fields w ++ rest) = w.
Proof.
  intros (A1 & A2 & A3 & A4 & A5 & A6). unfold load_entry. destruct w. cbn [w_inode w_offset w_record_length w_type w_name_length w_name] in *.
  f_equal.
  - apply rd_u64_enc; [reflexivity|assumption].
  - apply rd_s64_enc; [reflexivity|assumption].
  - change (slice 16 2 _) with (le_bytes 2 w_record_length0). by apply le_val_bytes_small.
  - change (slice 18 1 _) with (le_bytes 1 w_type0). by apply le_val_bytes_small.
  - change (slice 19 1 _) with (le_bytes 1 w_name_length0). by apply le_val_bytes_small.
  - by apply (slice_part (le_bytes 8 w_inode0 ++ le_bytes 8 w_offset0 ++ le_bytes 2 w_record_length0 ++ le_bytes 1 w_type0 ++ le_bytes 1 w_name_length0)).
Qed.
#[export, refine] Instance entry_wire : WireObject RpcDirEntry := {
  wire_fields := entry_fields; wire_padding := 4; wire_size := 256; wire_load := load_entry; wire_ok := entry_ok }.
Proof.
  - intros w (_ & _ & _ & _ & _ & E). unfold entry_fields. rewrite !len_app, E. reflexivity.
  - done.
  - exact load_entry_fields.
Defined.
