(* ===== verification/Ipc.v ===== *)
(** * Shared memory of a session (Async/ipc_transport.cpp, include/orchfs/async/ipc_protocol.hpp)

    A client and the server share one memory mapping: a session header, and for each
    lane a header, a submission ring and a completion ring with their data slots.  The
    server lays it out and initialises it, both sides check it before they use it. *)

From stdpp Require Import base tactics numbers list.
From Stdlib Require Import ZArith Lia.
From S2P Require Import Prelude Bytes Layout Pmem.
Open Scope Z_scope.

(** ** Errors *)

Inductive transport_errc :=
| would_block | protocol_mismatch | corrupt_layout | stale_session | buffer_too_small | peer_closed.
(** [std::error_code]: an error of the transport or an error number. *)
Inductive error_code := transport (e : transport_errc) | errc (n : Z).
#[export] Instance transport_errc_dec : EqDecision transport_errc.
Proof. solve_decision. Defined.
#[export] Instance error_code_dec : EqDecision error_code.
Proof. solve_decision. Defined.

(** ** Loads and stores *)

Definition ld16 (m : pmem) (a : Z) : Z := le_val (nvm_read m 2 a).
Definition ld32 (m : pmem) (a : Z) : Z := le_val (nvm_read m 4 a).
Definition ld64 (m : pmem) (a : Z) : Z := le_val (nvm_read m 8 a).
Definition st16 (m : pmem) (a v : Z) : pmem := nvm_write m (le_bytes 2 v) a.
Definition st32 (m : pmem) (a v : Z) : pmem := nvm_write m (le_bytes 4 v) a.
Definition st64 (m : pmem) (a v : Z) : pmem := nvm_write m (le_bytes 8 v) a.

(** ** Constants *)

Definition kIpcMagic : Z := 0x4f524348.
Definition kIpcProtocolVersion : Z := 1.
Definition kIpcCacheLineSize : Z := 64.
Definition kMaxIpcWorkerLanes : Z := 120.
Definition kMaxRingCapacity : Z := 2 ^ 20.
Definition kMaxDataSlotSize : Z := 64 * 1024 * 1024.
Definition kMaxSharedMemorySize : Z := 64 * 1024 * 1024 * 1024.
Definition kIpcHugePageSize : Z := 2 * 1024 * 1024.
Definition SHARED_RING_HEADER : Z := 192.
Definition SHARED_RING_SLOT : Z := 128.
Definition SHARED_LANE_HEADER : Z := 64.
Definition SHARED_SESSION_HEADER : Z := 256.
Definition STATE_INITIALIZING : Z := 0.
Definition STATE_ACTIVE : Z := 1.
Definition STATE_CLOSING : Z := 2.
Definition STATE_DEAD : Z := 3.

Record TransportConfig := mk_config { lane_count : Z; ring_capacity : Z; data_slot_size : Z }.
#[export] Instance config_dec : EqDecision TransportConfig.
Proof. solve_decision. Defined.
(** The three fields are 32-bit unsigned. *)
Definition config_ok (c : TransportConfig) : Prop :=
  0 <= lane_count c < 2 ^ 32 /\ 0 <= ring_capacity c < 2 ^ 32 /\ 0 <= data_slot_size c < 2 ^ 32.
Definition valid_config (c : TransportConfig) : bool :=
  negb (lane_count c =? 0) && (lane_count c <=? kMaxIpcWorkerLanes) &&
  (2 <=? ring_capacity c) && (ring_capacity c <=? kMaxRingCapacity) &&
  negb (data_slot_size c =? 0) && (data_slot_size c <=? kMaxDataSlotSize).

(** ** Layout *)

Definition align_up (value alignment : Z) : Z := Z.land (u64 (value + alignment - 1)) (UINT64_MAX - (alignment - 1)).
Definition checked_add (lhs rhs : Z) : option Z := if UINT64_MAX - rhs <? lhs then None else Some (u64 (lhs + rhs)).
Definition checked_multiply (lhs rhs : Z) : option Z :=
  if negb (lhs =? 0) && (UINT64_MAX / lhs <? rhs) then None else Some (u64 (lhs * rhs)).

Record SessionLayout := mk_layout {
  total_size : Z; lanes_offset : Z; lane_stride : Z; submission_ring_offset : Z; completion_ring_offset : Z;
  submission_data_offset : Z; completion_data_offset : Z; ring_size : Z; data_region_size : Z;
}.
Definition make_layout (c : TransportConfig) : error_code + SessionLayout :=
  if negb (valid_config c) then inl (errc EINVAL)
  else match checked_multiply (ring_capacity c) SHARED_RING_SLOT with
  | None => inl (errc EOVERFLOW)
  | Some slots_size =>
  match checked_add SHARED_RING_HEADER slots_size with
  | None => inl (errc EOVERFLOW)
  | Some raw_ring_size =>
  let ring_size := align_up raw_ring_size kIpcCacheLineSize in
  let data_slot_stride := align_up (data_slot_size c) kIpcCacheLineSize in
  match checked_multiply (ring_capacity c) data_slot_stride with
  | None => inl (errc EOVERFLOW)
  | Some data_region_size =>
  let submission_ring_offset := SHARED_LANE_HEADER in
  let completion_ring_offset := u64 (submission_ring_offset + ring_size) in
  let submission_data_offset := u64 (completion_ring_offset + ring_size) in
  let completion_data_offset := u64 (submission_data_offset + data_region_size) in
  let lane_stride := align_up (u64 (completion_data_offset + data_region_size)) kIpcCacheLineSize in
  let lanes_offset := align_up SHARED_SESSION_HEADER kIpcCacheLineSize in
  match checked_multiply (lane_count c) lane_stride with
  | None => inl (errc EOVERFLOW)
  | Some all_lanes_size =>
  match checked_add lanes_offset all_lanes_size with
  | None => inl (errc EOVERFLOW)
  | Some unaligned_total =>
      let total_size := align_up unaligned_total kIpcHugePageSize in
      if (UINT64_MAX - kIpcHugePageSize + 1 <? unaligned_total) || (total_size =? 0) || (kMaxSharedMemorySize <? total_size)
      then inl (errc EOVERFLOW)
      else inr (mk_layout total_size lanes_offset lane_stride submission_ring_offset completion_ring_offset
                  submission_data_offset completion_data_offset ring_size data_region_size)
  end end end end end.

(** ** Initialisation *)

(** Fields of the headers, by their offsets. *)
Definition SESSION_STATE : Z := 128.
Definition SESSION_HEARTBEAT : Z := 192.
Definition RING_CAPACITY : Z := 8.
Definition RING_PRODUCER : Z := 64.
Definition RING_CONSUMER : Z := 128.
Definition ring_slot (ring index : Z) : Z := ring + SHARED_RING_HEADER + SHARED_RING_SLOT * index.

(** [SharedRingSlot{}]: the descriptor's protocol version is set by its initialiser. *)
Definition empty_slot (index : Z) : list Z :=
  le_bytes 8 index ++ zeros 56 ++ le_bytes 4 kIpcProtocolVersion ++ zeros 60.
Definition initialize_slots (m : pmem) (ring : Z) (n : nat) : pmem :=
  fold_left (fun m i => nvm_write m (empty_slot (Z.of_nat i)) (ring_slot ring (Z.of_nat i))) (seq 0 n) m.
Definition ring_header (capacity : Z) : list Z :=
  le_bytes 4 kIpcMagic ++ le_bytes 4 kIpcProtocolVersion ++ le_bytes 4 capacity ++ le_bytes 4 SHARED_RING_SLOT ++ zeros 176.
Definition initialize_ring (m : pmem) (ring capacity : Z) : pmem :=
  initialize_slots (nvm_write m (ring_header capacity) ring) ring (Z.to_nat capacity).

Definition session_fields (l : SessionLayout) (c : TransportConfig) (client_id session_generation client_pid : Z) : list Z :=
  le_bytes 4 kIpcMagic ++ le_bytes 4 kIpcProtocolVersion ++ le_bytes 4 SHARED_SESSION_HEADER ++ le_bytes 4 (lane_count c) ++
  le_bytes 4 (ring_capacity c) ++ le_bytes 4 (data_slot_size c) ++ le_bytes 4 client_pid ++ le_bytes 4 0 ++
  le_bytes 8 (total_size l) ++ le_bytes 8 client_id ++ le_bytes 8 session_generation ++ le_bytes 8 (lane_stride l) ++
  le_bytes 8 (lanes_offset l) ++ zeros 56.
Definition session_header (l : SessionLayout) (c : TransportConfig) (client_id session_generation client_pid : Z) : list Z :=
  session_fields l c client_id session_generation client_pid ++ le_bytes 4 STATE_INITIALIZING ++ zeros 60 ++ zeros 64.
Definition lane_header (l : SessionLayout) (c : TransportConfig) (index : Z) : list Z :=
  le_bytes 4 kIpcMagic ++ le_bytes 4 kIpcProtocolVersion ++ le_bytes 4 index ++ le_bytes 4 (ring_capacity c) ++
  le_bytes 4 (data_slot_size c) ++ le_bytes 4 0 ++ le_bytes 8 (submission_ring_offset l) ++ le_bytes 8 (completion_ring_offset l) ++
  le_bytes 8 (submission_data_offset l) ++ le_bytes 8 (completion_data_offset l) ++ le_bytes 8 (lane_stride l).
Definition lane_base (l : SessionLayout) (index : Z) : Z := lanes_offset l + lane_stride l * index.
Definition initialize_lane (l : SessionLayout) (c : TransportConfig) (m : pmem) (index : Z) : pmem :=
  let base := lane_base l index in
  let m := nvm_write m (lane_header l c index) base in
  let m := initialize_ring m (base + submission_ring_offset l) (ring_capacity c) in
  initialize_ring m (base + completion_ring_offset l) (ring_capacity c).
Definition memset0 (m : pmem) (size : Z) : pmem := fun a => if in_range a 0 size then 0 else m a.
Definition initialize_mapping (m : pmem) (l : SessionLayout) (c : TransportConfig) (client_id session_generation client_pid : Z) : pmem :=
  let m := nvm_write (memset0 m (total_size l)) (session_header l c client_id session_generation client_pid) 0 in
  fold_left (fun m i => initialize_lane l c m (Z.of_nat i)) (seq 0 (Z.to_nat (lane_count c))) m.

(** ** Checking *)

Definition region_inside (offset length container_size : Z) : bool := (offset <=? container_size) && (length <=? container_size - offset).
Record LaneView := mk_lane_view { v_submissions : Z; v_completions : Z; v_submission_data : Z; v_completion_data : Z }.
Definition valid_ring (m : pmem) (c : TransportConfig) (ring : Z) : bool :=
  (ld32 m ring =? kIpcMagic) && (ld32 m (ring + 4) =? kIpcProtocolVersion) && (ld32 m (ring + RING_CAPACITY) =? ring_capacity c) &&
  (ld32 m (ring + 12) =? SHARED_RING_SLOT).
Definition valid_session (m : pmem) (size : Z) (l : SessionLayout) (c : TransportConfig) (client_id session_generation : Z) : bool :=
  (ld32 m 0 =? kIpcMagic) && (ld32 m 4 =? kIpcProtocolVersion) && (ld32 m 8 =? SHARED_SESSION_HEADER) &&
  (ld32 m 12 =? lane_count c) && (ld32 m 16 =? ring_capacity c) && (ld32 m 20 =? data_slot_size c) &&
  (ld64 m 32 =? size) && (ld64 m 32 =? total_size l) && (ld64 m 64 =? lanes_offset l) && (ld64 m 56 =? lane_stride l) &&
  (ld64 m 40 =? client_id) && (ld64 m 48 =? session_generation) &&
  region_inside (ld64 m 64) (u64 (ld64 m 56 * ld32 m 12)) (ld64 m 32).
Definition valid_lane (m : pmem) (l : SessionLayout) (c : TransportConfig) (base index ring_bytes data_bytes : Z) : bool :=
  (ld32 m base =? kIpcMagic) && (ld32 m (base + 4) =? kIpcProtocolVersion) && (ld32 m (base + 8) =? index) &&
  (ld32 m (base + 12) =? ring_capacity c) && (ld32 m (base + 16) =? data_slot_size c) && (ld64 m (base + 56) =? ld64 m 56) &&
  (ld64 m (base + 24) =? submission_ring_offset l) && (ld64 m (base + 32) =? completion_ring_offset l) &&
  (ld64 m (base + 40) =? submission_data_offset l) && (ld64 m (base + 48) =? completion_data_offset l) &&
  region_inside (ld64 m (base + 24)) ring_bytes (ld64 m (base + 56)) && region_inside (ld64 m (base + 32)) ring_bytes (ld64 m (base + 56)) &&
  region_inside (ld64 m (base + 40)) data_bytes (ld64 m (base + 56)) && region_inside (ld64 m (base + 48)) data_bytes (ld64 m (base + 56)).
Fixpoint build_lanes (m : pmem) (l : SessionLayout) (c : TransportConfig) (ring_bytes data_bytes : Z) (indices : list nat) : error_code + list LaneView :=
  match indices with
  | [] => inr []
  | i :: rest =>
      let index := Z.of_nat i in
      let base := ld64 m 64 + u64 (ld64 m 56 * index) in
      let submission := base + ld64 m (base + 24) in
      let completion := base + ld64 m (base + 32) in
      if negb (valid_lane m l c base index ring_bytes data_bytes) then inl (transport corrupt_layout)
      else if negb (valid_ring m c submission) || negb (valid_ring m c completion) then inl (transport corrupt_layout)
      else match build_lanes m l c ring_bytes data_bytes rest with
           | inl error => inl error
           | inr lanes => inr (mk_lane_view submission completion (base + ld64 m (base + 40)) (base + ld64 m (base + 48)) :: lanes)
           end
  end.
Definition build_views (m : pmem) (size : Z) (c : TransportConfig) (client_id session_generation : Z) : error_code + list LaneView :=
  if size <? SHARED_SESSION_HEADER then inl (transport corrupt_layout)
  else match make_layout c with
  | inl _ => inl (transport corrupt_layout)
  | inr l =>
      if negb (valid_session m size l c client_id session_generation) then inl (transport corrupt_layout)
      else
        let ring_bytes := align_up (u64 (SHARED_RING_HEADER + u64 (ring_capacity c * SHARED_RING_SLOT))) kIpcCacheLineSize in
        let data_bytes := u64 (align_up (data_slot_size c) kIpcCacheLineSize * ring_capacity c) in
        build_lanes m l c ring_bytes data_bytes (seq 0 (Z.to_nat (lane_count c)))
  end.

(** ** Lemmas on the arithmetic *)

Lemma align_up_pow k v : 0 <= k <= 64 -> 0 <= v -> v + 2 ^ k - 1 < 2 ^ 64 ->
  align_up v (2 ^ k) = (v + 2 ^ k - 1) / 2 ^ k * 2 ^ k.
Proof.
  intros Hk Hv Hb. assert (0 < 2 ^ k) by (apply Z.pow_pos_nonneg; lia). unfold align_up.
  rewrite u64_small by lia. set (x := v + 2 ^ k - 1) in *.
  replace (UINT64_MAX - (2 ^ k - 1)) with (Z.shiftl (Z.ones (64 - k)) k).
  - assert (E : Z.land x (Z.shiftl (Z.ones (64 - k)) k) = Z.shiftl (Z.land (Z.shiftr x k) (Z.ones (64 - k))) k).
    { apply Z.bits_inj'. intros n Hn. rewrite Z.land_spec, !Z.shiftl_spec, Z.land_spec by lia.
      destruct (decide (n < k)) as [L|L].
      - rewrite !(Z.testbit_neg_r _ (n - k)) by lia. by rewrite andb_false_r.
      - rewrite Z.shiftr_spec by lia. by replace (n - k + k) with n by lia. }
    rewrite E, Z.land_ones, Z.shiftl_mul_pow2, Z.shiftr_div_pow2 by lia. f_equal. apply Z.mod_small.
    split; [apply Z.div_pos; lia|]. apply Z.div_lt_upper_bound; [lia|].
    rewrite <-Z.pow_add_r by lia. replace (k + (64 - k)) with 64 by lia. lia.
  - rewrite Z.shiftl_mul_pow2, Z.ones_equiv by lia. unfold UINT64_MAX.
    assert (2 ^ (64 - k) * 2 ^ k = 2 ^ 64) by (rewrite <-Z.pow_add_r by lia; f_equal; lia). nia.
Qed.
(** The value is rounded up to the next multiple. *)
Definition round_up (v a : Z) : Z := (v + a - 1) / a * a.
Lemma round_up_spec v a : 0 < a -> v <= round_up v a < v + a /\ round_up v a mod a = 0.
Proof.
  intros Ha. unfold round_up. split; [|apply Z.mod_mul; lia].
  pose proof (Z.div_mod (v + a - 1) a ltac:(lia)). pose proof (Z.mod_pos_bound (v + a - 1) a Ha). nia.
Qed.
Lemma align_up_line v : 0 <= v < 2 ^ 63 -> align_up v kIpcCacheLineSize = round_up v 64.
Proof. intros. apply (align_up_pow 6); lia. Qed.
Lemma align_up_page v : 0 <= v < 2 ^ 63 -> align_up v kIpcHugePageSize = round_up v kIpcHugePageSize.
Proof. intros. apply (align_up_pow 21); lia. Qed.
Lemma checked_add_small a b : 0 <= a -> 0 <= b -> a + b < 2 ^ 64 -> checked_add a b = Some (a + b).
Proof. intros. unfold checked_add, UINT64_MAX. rewrite (proj2 (Z.ltb_ge _ _)) by lia. by rewrite u64_small by lia. Qed.
Lemma checked_multiply_small a b : 0 <= a -> 0 <= b -> a * b < 2 ^ 64 -> checked_multiply a b = Some (a * b).
Proof.
  intros. unfold checked_multiply. rewrite u64_small by nia. destruct (Z.eqb_spec a 0) as [|N]; [done|]. simpl.
  rewrite (proj2 (Z.ltb_ge _ _)); [done|]. apply Z.div_le_lower_bound; unfold UINT64_MAX; lia.
Qed.

(** The layout in unbounded arithmetic. *)
Definition ring_bytes_of (c : TransportConfig) : Z := SHARED_RING_HEADER + ring_capacity c * SHARED_RING_SLOT.
Definition data_stride (c : TransportConfig) : Z := round_up (data_slot_size c) 64.
Definition layout_of (c : TransportConfig) : SessionLayout :=
  let ring := ring_bytes_of c in
  let data := ring_capacity c * data_stride c in
  let stride := 64 + 2 * ring + 2 * data in
  mk_layout (round_up (256 + lane_count c * stride) kIpcHugePageSize) 256 stride 64 (64 + ring) (64 + 2 * ring) (64 + 2 * ring + data) ring data.

Lemma valid_config_spec c : config_ok c -> valid_config c = true <->
  1 <= lane_count c <= kMaxIpcWorkerLanes /\ 2 <= ring_capacity c <= kMaxRingCapacity /\ 1 <= data_slot_size c <= kMaxDataSlotSize.
Proof. intros (A & B & D). unfold valid_config. rewrite !andb_true_iff, !negb_true_iff, !Z.eqb_neq, !Z.leb_le. intuition lia. Qed.

Lemma round_up_id v a : 0 < a -> v mod a = 0 -> round_up v a = v.
Proof.
  intros Ha Hv. pose proof (Z.div_mod v a ltac:(lia)) as E. unfold round_up.
  assert ((v + a - 1) / a = v / a) as ->.
  { symmetry. apply (Z.div_unique _ a _ (a - 1)); lia. }
  lia.
Qed.
Lemma ring_bytes_aligned c : ring_bytes_of c mod 64 = 0.
Proof. unfold ring_bytes_of, SHARED_RING_HEADER, SHARED_RING_SLOT. replace (192 + ring_capacity c * 128) with ((3 + ring_capacity c * 2) * 64) by lia. apply Z.mod_mul. lia. Qed.
Lemma data_stride_spec c : data_slot_size c <= data_stride c < data_slot_size c + 64 /\ data_stride c mod 64 = 0.
Proof. apply round_up_spec. lia. Qed.
Lemma mod64_add a b : a mod 64 = 0 -> b mod 64 = 0 -> (a + b) mod 64 = 0.
Proof. intros. rewrite Z.add_mod by lia. by replace (a mod 64 + b mod 64) with 0 by lia. Qed.
Lemma mod64_mul a b : b mod 64 = 0 -> (a * b) mod 64 = 0.
Proof. intros H. rewrite Z.mul_mod, H by lia. by rewrite Z.mul_0_r. Qed.
Create HintDb ipc.
#[export] Hint Resolve mod64_add mod64_mul ring_bytes_aligned : ipc.

(** A valid configuration cannot overflow: the sizes stay below 2{^55}. *)
Lemma layout_bounds c : config_ok c -> valid_config c = true ->
  0 < ring_bytes_of c < 2 ^ 28 /\ 0 < data_stride c < 2 ^ 27 /\ 0 < ring_capacity c * data_stride c < 2 ^ 47 /\
  0 < lane_stride (layout_of c) < 2 ^ 49 /\ 0 < lane_count c * lane_stride (layout_of c) < 2 ^ 56.
Proof.
  intros Hc Hv. apply (proj1 (valid_config_spec c Hc)) in Hv as (A & B & D).
  unfold kMaxIpcWorkerLanes, kMaxRingCapacity, kMaxDataSlotSize in *. pose proof (data_stride_spec c) as [S _].
  assert (ring_bytes_of c = 192 + ring_capacity c * 128) as R by done.
  assert (0 < ring_capacity c * data_stride c < 2 ^ 47) by nia.
  assert (lane_stride (layout_of c) = 64 + 2 * ring_bytes_of c + 2 * (ring_capacity c * data_stride c)) as L by done.
  repeat split; nia.
Qed.
Lemma layout_of_eq c : layout_of c =
  mk_layout (total_size (layout_of c)) 256 (lane_stride (layout_of c)) 64 (64 + ring_bytes_of c) (64 + 2 * ring_bytes_of c)
    (64 + 2 * ring_bytes_of c + ring_capacity c * data_stride c) (ring_bytes_of c) (ring_capacity c * data_stride c).
Proof. reflexivity. Qed.
Lemma make_layout_eq c : config_ok c ->
  make_layout c =
  if negb (valid_config c) then inl (errc EINVAL)
  else if kMaxSharedMemorySize <? total_size (layout_of c) then inl (errc EOVERFLOW)
  else inr (layout_of c).
Proof.
  intros Hc. unfold make_layout. destruct (valid_config c) eqn:Hv; [|done]. cbn [negb].
  destruct (layout_bounds c Hc Hv) as (R & S & D & L & T).
  assert (lane_stride (layout_of c) = 64 + 2 * ring_bytes_of c + 2 * (ring_capacity c * data_stride c)) as EL by done.
  assert (0 <= ring_capacity c * SHARED_RING_SLOT) by (unfold ring_bytes_of, SHARED_RING_HEADER, SHARED_RING_SLOT in *; lia).
  rewrite checked_multiply_small by (unfold ring_bytes_of, SHARED_RING_HEADER, SHARED_RING_SLOT in *; lia).
  rewrite checked_add_small by (unfold ring_bytes_of, SHARED_RING_HEADER in *; lia).
  fold (ring_bytes_of c). rewrite !(align_up_line (ring_bytes_of c)) by lia.
  rewrite (round_up_id (ring_bytes_of c)) by (try apply ring_bytes_aligned; lia).
  assert (align_up (data_slot_size c) kIpcCacheLineSize = data_stride c) as -> by (apply align_up_line; destruct Hc as (_ & _ & ?); lia).
  rewrite checked_multiply_small by (destruct Hc as (_ & ? & _); lia). cbn zeta.
  set (d := ring_capacity c * data_stride c) in *.
  rewrite (u64_small (SHARED_LANE_HEADER + ring_bytes_of c)) by (unfold SHARED_LANE_HEADER; lia).
  rewrite (u64_small (SHARED_LANE_HEADER + ring_bytes_of c + ring_bytes_of c)) by (unfold SHARED_LANE_HEADER; lia).
  rewrite (u64_small (SHARED_LANE_HEADER + ring_bytes_of c + ring_bytes_of c + d)) by (unfold SHARED_LANE_HEADER; lia).
  rewrite (u64_small (SHARED_LANE_HEADER + ring_bytes_of c + ring_bytes_of c + d + d)) by (unfold SHARED_LANE_HEADER; lia).
  set (stride := lane_stride (layout_of c)) in *.
  replace (SHARED_LANE_HEADER + ring_bytes_of c + ring_bytes_of c + d + d)
    with stride by (unfold SHARED_LANE_HEADER; lia).
  assert (stride mod 64 = 0) as Hm.
  { rewrite EL. pose proof (data_stride_spec c) as [_ ?]. subst d. auto 10 with ipc. }
  rewrite (align_up_line stride), (round_up_id stride) by lia.
  change (align_up SHARED_SESSION_HEADER kIpcCacheLineSize) with 256.
  rewrite checked_multiply_small, checked_add_small by (destruct Hc; lia).
  rewrite align_up_page by lia. unfold UINT64_MAX.
  destruct (round_up_spec (256 + lane_count c * stride) kIpcHugePageSize ltac:(done)) as [P _].
  rewrite (proj2 (Z.ltb_ge (2 ^ 64 - 1 - kIpcHugePageSize + 1) _)), (proj2 (Z.eqb_neq _ 0)) by (unfold kIpcHugePageSize in *; lia). cbn [orb].
  change (total_size (layout_of c)) with (round_up (256 + lane_count c * stride) kIpcHugePageSize).
  destruct (_ <? _); [done|].
  f_equal. rewrite (layout_of_eq c). f_equal; first [reflexivity|unfold SHARED_LANE_HEADER; lia].
Qed.

(** ** The parts of a lane *)

Inductive area := lane_header_area | submissions_area | completions_area | submission_data_area | completion_data_area.
Definition area_offset (l : SessionLayout) (a : area) : Z :=
  match a with
  | lane_header_area => 0
  | submissions_area => submission_ring_offset l
  | completions_area => completion_ring_offset l
  | submission_data_area => submission_data_offset l
  | completion_data_area => completion_data_offset l
  end.
Definition area_size (l : SessionLayout) (a : area) : Z :=
  match a with
  | lane_header_area => SHARED_LANE_HEADER
  | submissions_area | completions_area => ring_size l
  | submission_data_area | completion_data_area => data_region_size l
  end.
Definition area_at (l : SessionLayout) (i : Z) (a : area) : Z := lane_base l i + area_offset l a.
Definition apart (o1 n1 o2 n2 : Z) : Prop := o1 + n1 <= o2 \/ o2 + n2 <= o1.

Lemma make_layout_inv c l : config_ok c -> make_layout c = inr l ->
  valid_config c = true /\ l = layout_of c /\ total_size (layout_of c) <= kMaxSharedMemorySize.
Proof.
  intros Hc. rewrite (make_layout_eq c Hc). destruct (valid_config c); [|done]. cbn [negb].
  destruct (Z.ltb_spec kMaxSharedMemorySize (total_size (layout_of c))); [done|]. by intros [= <-].
Qed.
Lemma area_in_lane c a : config_ok c -> valid_config c = true ->
  let l := layout_of c in
  0 <= area_offset l a /\ 0 < area_size l a /\ area_offset l a + area_size l a <= lane_stride l /\ area_offset l a mod 64 = 0.
Proof.
  intros Hc Hv l. destruct (layout_bounds c Hc Hv) as (R & S & D & L & T).
  pose proof (data_stride_spec c) as [_ ?]. pose proof (ring_bytes_aligned c).
  assert (lane_stride l = 64 + 2 * ring_bytes_of c + 2 * (ring_capacity c * data_stride c)) as EL by done.
  assert (64 mod 64 = 0) by done. subst l. rewrite (layout_of_eq c) in EL |- *.
  destruct a; cbn -[Z.mul Z.add Z.modulo] in *; unfold SHARED_LANE_HEADER; (split_and!; [lia..|]); first [done|solve [auto 10 with ipc]].
Qed.
Lemma lane_parts_apart c a b : config_ok c -> valid_config c = true -> a <> b ->
  let l := layout_of c in apart (area_offset l a) (area_size l a) (area_offset l b) (area_size l b).
Proof.
  intros Hc Hv N l. destruct (layout_bounds c Hc Hv) as (R & S & D & L & T). subst l. rewrite (layout_of_eq c). unfold apart.
  destruct a, b; try done; cbn -[Z.mul Z.add]; unfold SHARED_LANE_HEADER; lia.
Qed.
Lemma lane_inside c i : config_ok c -> valid_config c = true -> 0 <= i < lane_count c ->
  let l := layout_of c in SHARED_SESSION_HEADER <= lane_base l i /\ lane_base l i + lane_stride l <= total_size l /\ lane_base l i mod 64 = 0.
Proof.
  intros Hc Hv Hi l. destruct (layout_bounds c Hc Hv) as (R & S & D & L & T).
  assert (lane_base l i = 256 + lane_stride l * i) as E by done.
  assert (total_size l = round_up (256 + lane_count c * lane_stride l) kIpcHugePageSize) as Et by done.
  destruct (round_up_spec (256 + lane_count c * lane_stride l) kIpcHugePageSize ltac:(done)) as [P _].
  rewrite E, Et. fold l in L. repeat split; [unfold SHARED_SESSION_HEADER; nia|nia|].
  apply mod64_add; [done|]. rewrite Z.mul_comm. apply mod64_mul.
  assert (lane_stride l = 64 + 2 * ring_bytes_of c + 2 * (ring_capacity c * data_stride c)) as -> by done.
  pose proof (data_stride_spec c) as [_ ?]. assert (64 mod 64 = 0) by done. auto 10 with ipc.
Qed.
Lemma lanes_apart l i j : 0 < lane_stride l -> i <> j -> apart (lane_base l i) (lane_stride l) (lane_base l j) (lane_stride l).
Proof. intros. unfold apart, lane_base. nia. Qed.
Lemma lane_areas_apart c i j a b : config_ok c -> valid_config c = true -> (i, a) <> (j, b) ->
  let l := layout_of c in apart (area_at l i a) (area_size l a) (area_at l j b) (area_size l b).
Proof.
  intros Hc Hv N l. destruct (decide (i = j)) as [<-|Nij].
  - assert (a <> b) as Nab by congruence. pose proof (lane_parts_apart c a b Hc Hv Nab) as H. unfold apart, area_at in *. fold l in H. lia.
  - destruct (layout_bounds c Hc Hv) as (_ & _ & _ & [L _] & _). pose proof (lanes_apart l i j L Nij) as H.
    pose proof (area_in_lane c a Hc Hv) as A. pose proof (area_in_lane c b Hc Hv) as B. fold l in A, B. cbn zeta in A, B.
    unfold apart, area_at in *. lia.
Qed.

(** A layout that [make_layout] accepts is sound.  It is computed without overflow:
    every part of every lane lies behind the session header and inside the mapping, on a
    cache line boundary; no two parts share a byte; the rings hold [ring_capacity] slots
    and the data regions as many payloads of [data_slot_size] bytes; the mapping is a
    whole number of huge pages and at most 64 GiB. *)
Theorem make_layout_sound (c : TransportConfig) (l : SessionLayout) (Hc : config_ok c) (H : make_layout c = inr l) :
  (forall i a, 0 <= i < lane_count c ->
     SHARED_SESSION_HEADER <= area_at l i a /\ area_at l i a + area_size l a <= total_size l /\ area_at l i a mod 64 = 0) /\
  (forall i j a b, (i, a) <> (j, b) -> apart (area_at l i a) (area_size l a) (area_at l j b) (area_size l b)) /\
  SHARED_RING_HEADER + ring_capacity c * SHARED_RING_SLOT <= ring_size l /\
  ring_capacity c * align_up (data_slot_size c) kIpcCacheLineSize <= data_region_size l /\
  total_size l mod kIpcHugePageSize = 0 /\ total_size l <= kMaxSharedMemorySize.
Proof.
  destruct (make_layout_inv c l Hc H) as (Hv & -> & Ht). split_and!; try done.
  - intros i a Hi. pose proof (lane_inside c i Hc Hv Hi) as (A & B & D). destruct (area_in_lane c a Hc Hv) as (P & Q & R & S).
    unfold area_at. split_and!; [lia|lia|by apply mod64_add].
  - intros i j a b N. by apply lane_areas_apart.
  - rewrite align_up_line by (destruct Hc as (_ & _ & ?); lia). done.
  - apply round_up_spec. done.
Qed.
Lemma make_layout_sound_witness : exists c l, make_layout c = inr l /\ total_size l <= kMaxSharedMemorySize.
Proof.
  exists (mk_config 4 64 65536), (layout_of (mk_config 4 64 65536)). split; [vm_compute; reflexivity|].
  apply (make_layout_sound (mk_config 4 64 65536)); [by unfold config_ok|vm_compute; reflexivity].
Defined.

(** ** What initialisation leaves *)

Definition outside (m m' : pmem) (o n : Z) : Prop := forall a, ~ (o <= a < o + n) -> m' a = m a.
Lemma outside_refl m o n : outside m m o n.
Proof. done. Qed.
Lemma outside_trans m1 m2 m3 o n : outside m1 m2 o n -> outside m2 m3 o n -> outside m1 m3 o n.
Proof. intros A B a H. by rewrite B, A. Qed.
Lemma outside_mono m m' o n o' n' : outside m m' o n -> o' <= o -> o + n <= o' + n' -> outside m m' o' n'.
Proof. intros A ? ? a H. apply A. lia. Qed.
Lemma outside_write m l o : outside m (nvm_write m l o) o (len l).
Proof. intros a H. apply nvm_write_out. lia. Qed.
Lemma outside_read m m' o n p k : outside m m' o n -> 0 <= k -> apart p k o n -> nvm_read m' k p = nvm_read m k p.
Proof. intros A Hk B. apply nvm_read_ext. intros i Hi. apply A. unfold apart in B. lia. Qed.

Lemma len_empty_slot i : len (empty_slot i) = SHARED_RING_SLOT.
Proof. done. Qed.
Lemma len_ring_header c : len (ring_header c) = SHARED_RING_HEADER.
Proof. done. Qed.
Lemma len_lane_header l c i : len (lane_header l c i) = SHARED_LANE_HEADER.
Proof. done. Qed.
Lemma len_session_header l c a b p : len (session_header l c a b p) = SHARED_SESSION_HEADER.
Proof. done. Qed.

Definition ring_ready (m : pmem) (ring capacity : Z) : Prop :=
  nvm_read m SHARED_RING_HEADER ring = ring_header capacity /\
  forall i, 0 <= i < capacity -> nvm_read m SHARED_RING_SLOT (ring_slot ring i) = empty_slot i.

Lemma initialize_slots_S m ring n :
  initialize_slots m ring (S n) = nvm_write (initialize_slots m ring n) (empty_slot (Z.of_nat n)) (ring_slot ring (Z.of_nat n)).
Proof. unfold initialize_slots. rewrite seq_S, fold_left_app. done. Qed.
Lemma initialize_slots_outside m ring n : outside m (initialize_slots m ring n) (ring + SHARED_RING_HEADER) (SHARED_RING_SLOT * Z.of_nat n).
Proof.
  induction n as [|n IH]; [done|]. rewrite initialize_slots_S.
  eapply outside_trans; [eapply outside_mono; [exact IH|..]|eapply outside_mono; [apply outside_write|..]];
    rewrite ?len_empty_slot; unfold ring_slot, SHARED_RING_SLOT; lia.
Qed.
Lemma initialize_slots_read m ring n i : 0 <= i < Z.of_nat n ->
  nvm_read (initialize_slots m ring n) SHARED_RING_SLOT (ring_slot ring i) = empty_slot i.
Proof.
  induction n as [|n IH]; [lia|]. intros Hi. rewrite initialize_slots_S. destruct (decide (i = Z.of_nat n)) as [->|N].
  - apply nvm_read_write_same.
  - rewrite nvm_read_write_out; [apply IH; lia|]. rewrite len_empty_slot. unfold ring_slot, SHARED_RING_SLOT. lia.
Qed.
Lemma initialize_ring_outside m ring capacity : 0 <= capacity ->
  outside m (initialize_ring m ring capacity) ring (SHARED_RING_HEADER + capacity * SHARED_RING_SLOT).
Proof.
  intros Hc. eapply outside_trans; [eapply outside_mono; [apply outside_write|..]|eapply outside_mono; [apply initialize_slots_outside|..]];
    rewrite ?len_ring_header, ?Z2Nat.id by done; unfold SHARED_RING_HEADER, SHARED_RING_SLOT; lia.
Qed.
Lemma initialize_ring_ready m ring capacity : 0 <= capacity -> ring_ready (initialize_ring m ring capacity) ring capacity.
Proof.
  intros Hc. split.
  - unfold initialize_ring. rewrite (outside_read _ _ _ _ _ _ (initialize_slots_outside _ _ _)); [apply nvm_read_write_same|done|].
    unfold apart, SHARED_RING_HEADER. lia.
  - intros i Hi. apply initialize_slots_read. lia.
Qed.
Lemma ring_ready_frame m m' ring capacity o n : outside m m' o n -> apart ring (SHARED_RING_HEADER + capacity * SHARED_RING_SLOT) o n -> 0 <= capacity ->
  ring_ready m ring capacity -> ring_ready m' ring capacity.
Proof.
  intros A B Hc [H S]. unfold apart, SHARED_RING_HEADER, SHARED_RING_SLOT in *. split.
  - rewrite <-H. eapply outside_read; [done|done|]. unfold apart, SHARED_RING_HEADER. lia.
  - intros i Hi. rewrite <-(S i Hi). eapply outside_read; [done|done|]. unfold apart, ring_slot, SHARED_RING_SLOT, SHARED_RING_HEADER. lia.
Qed.

Definition lane_ready (m : pmem) (l : SessionLayout) (c : TransportConfig) (i : Z) : Prop :=
  nvm_read m SHARED_LANE_HEADER (lane_base l i) = lane_header l c i /\
  ring_ready m (area_at l i submissions_area) (ring_capacity c) /\ ring_ready m (area_at l i completions_area) (ring_capacity c).
Lemma area_size_ring c : ring_size (layout_of c) = SHARED_RING_HEADER + ring_capacity c * SHARED_RING_SLOT.
Proof. done. Qed.

Section Initialise.
Context (c : TransportConfig) (Hc : config_ok c) (Hv : valid_config c = true).
Abbreviation l := (layout_of c).

Lemma initialize_lane_outside m i : outside m (initialize_lane l c m i) (lane_base l i) (lane_stride l).
Proof.
  assert (0 <= ring_capacity c) by (destruct Hc as (_ & ? & _); lia).
  pose proof (area_in_lane c submissions_area Hc Hv) as A. pose proof (area_in_lane c completions_area Hc Hv) as B.
  pose proof (area_in_lane c lane_header_area Hc Hv) as D. cbn zeta in A, B, D. cbn [area_offset area_size] in A, B, D.
  rewrite area_size_ring in A, B. unfold initialize_lane. cbn zeta.
  eapply outside_trans; [|eapply outside_mono; [by apply initialize_ring_outside|lia|lia]].
  eapply outside_trans; [|eapply outside_mono; [by apply initialize_ring_outside|lia|lia]].
  eapply outside_mono; [apply outside_write|lia|rewrite len_lane_header; lia].
Qed.
Lemma initialize_lane_ready m i : lane_ready (initialize_lane l c m i) l c i.
Proof.
  assert (0 <= ring_capacity c) by (destruct Hc as (_ & ? & _); lia).
  pose proof (lane_parts_apart c lane_header_area submissions_area Hc Hv ltac:(done)) as A.
  pose proof (lane_parts_apart c lane_header_area completions_area Hc Hv ltac:(done)) as B.
  pose proof (lane_parts_apart c submissions_area completions_area Hc Hv ltac:(done)) as D.
  cbn zeta in A, B, D. cbn [area_offset area_size] in A, B, D. rewrite area_size_ring in A, B, D.
  unfold initialize_lane, apart in *. cbn zeta. split_and!.
  - rewrite (outside_read _ _ _ _ _ _ (initialize_ring_outside _ _ _ ltac:(done))) by (unfold apart, SHARED_LANE_HEADER in *; lia).
    rewrite (outside_read _ _ _ _ _ _ (initialize_ring_outside _ _ _ ltac:(done))) by (unfold apart, SHARED_LANE_HEADER in *; lia).
    apply nvm_read_write_same.
  - eapply ring_ready_frame; [apply initialize_ring_outside; done| |done|by apply initialize_ring_ready].
    unfold apart, area_at. cbn [area_offset]. lia.
  - by apply initialize_ring_ready.
Qed.
Lemma lane_ready_frame m m' i o n : outside m m' o n -> apart (lane_base l i) (lane_stride l) o n -> lane_ready m l c i -> lane_ready m' l c i.
Proof.
  intros A B (H & R1 & R2). assert (0 <= ring_capacity c) by (destruct Hc as (_ & ? & _); lia).
  pose proof (area_in_lane c submissions_area Hc Hv) as A1. pose proof (area_in_lane c completions_area Hc Hv) as A2.
  pose proof (area_in_lane c lane_header_area Hc Hv) as A3. cbn zeta in A1, A2, A3.
  cbn [area_offset area_size] in A1, A2, A3. rewrite area_size_ring in A1, A2. unfold apart in B. split_and!.
  - rewrite <-H. eapply outside_read; [done|done|]. unfold apart. lia.
  - eapply ring_ready_frame; [done| |done|done]. unfold apart, area_at. cbn [area_offset]. lia.
  - eapply ring_ready_frame; [done| |done|done]. unfold apart, area_at. cbn [area_offset]. lia.
Qed.

Definition initialize_lanes (m : pmem) (n : nat) : pmem := fold_left (fun m i => initialize_lane l c m (Z.of_nat i)) (seq 0 n) m.
Lemma initialize_lanes_spec m n :
  outside m (initialize_lanes m n) (lanes_offset l) (lane_stride l * Z.of_nat n) /\
  forall i, 0 <= i < Z.of_nat n -> lane_ready (initialize_lanes m n) l c i.
Proof.
  destruct (layout_bounds c Hc Hv) as (_ & _ & _ & [L _] & _).
  induction n as [|n [IHo IHr]]; [split; [done|lia]|]. unfold initialize_lanes in *. rewrite seq_S, fold_left_app. cbn [fold_left].
  replace (0 + n)%nat with n by lia. set (m1 := fold_left _ _ m) in *. split.
  - eapply outside_trans; [eapply outside_mono; [exact IHo|..]|eapply outside_mono; [apply initialize_lane_outside|..]]; unfold lane_base; nia.
  - intros i Hi. destruct (decide (i = Z.of_nat n)) as [->|N]; [apply initialize_lane_ready|].
    eapply lane_ready_frame; [apply initialize_lane_outside|by apply lanes_apart|]. apply IHr. lia.
Qed.
Definition session_ready (m : pmem) (client_id session_generation client_pid : Z) : Prop :=
  nvm_read m SESSION_STATE 0 = session_fields l c client_id session_generation client_pid /\
  forall i, 0 <= i < lane_count c -> lane_ready m l c i.
Lemma initialize_mapping_ready m client_id session_generation client_pid :
  let m' := initialize_mapping m l c client_id session_generation client_pid in
  session_ready m' client_id session_generation client_pid /\ ld32 m' SESSION_STATE = STATE_INITIALIZING.
Proof.
  unfold initialize_mapping. set (m1 := nvm_write _ _ 0).
  destruct (initialize_lanes_spec m1 (Z.to_nat (lane_count c))) as [O R]. unfold initialize_lanes in O. cbn zeta. split; [split|].
  - rewrite (outside_read _ _ _ _ _ _ O) by (done || by left). subst m1.
    rewrite nvm_read_write_in by (rewrite ?len_session_header; done). reflexivity.
  - intros i Hi. apply R. lia.
  - unfold ld32. rewrite (outside_read _ _ _ _ _ _ O) by (done || by left). subst m1.
    rewrite nvm_read_write_in by (rewrite ?len_session_header; done). reflexivity.
Qed.
End Initialise.

(** ** Views *)

Definition lane_view (l : SessionLayout) (i : Z) : LaneView :=
  mk_lane_view (area_at l i submissions_area) (area_at l i completions_area) (area_at l i submission_data_area) (area_at l i completion_data_area).
Definition lane_views (l : SessionLayout) (c : TransportConfig) : list LaneView :=
  map (fun i => lane_view l (Z.of_nat i)) (seq 0 (Z.to_nat (lane_count c))).

Lemma ld32_field m n o h off v : nvm_read m n o = h -> slice off 4 h = le_bytes 4 v -> 0 <= off -> off + 4 <= n -> 0 <= v < 2 ^ 32 ->
  ld32 m (o + off) = v.
Proof. intros <- E ? ? Hv. unfold ld32. rewrite nvm_read_slice in E by lia. rewrite E. by apply le_val_bytes_small. Qed.
Lemma ld64_field m n o h off v : nvm_read m n o = h -> slice off 8 h = le_bytes 8 v -> 0 <= off -> off + 8 <= n -> 0 <= v < 2 ^ 64 ->
  ld64 m (o + off) = v.
Proof. intros <- E ? ? Hv. unfold ld64. rewrite nvm_read_slice in E by lia. rewrite E. by apply le_val_bytes_small. Qed.
Lemma region_inside_true o n t : o <= t -> n <= t - o -> region_inside o n t = true.
Proof. intros. unfold region_inside. rewrite andb_true_iff, !Z.leb_le. done. Qed.

Ltac field H := first [apply (ld32_field _ _ _ _ _ _ H); [reflexivity|done|done|] | apply (ld64_field _ _ _ _ _ _ H); [reflexivity|done|done|]].
Ltac field_eqb H := rewrite (proj2 (Z.eqb_eq _ _)) by (field H; try done; lia).

Section Build.
Context (c : TransportConfig) (Hc : config_ok c) (Hv : valid_config c = true) (Ht : total_size (layout_of c) <= kMaxSharedMemorySize).
Abbreviation l := (layout_of c).

Lemma ring_ready_valid m ring : ring_ready m ring (ring_capacity c) -> valid_ring m c ring = true.
Proof.
  intros [H _]. destruct Hc as (_ & Hr & _). unfold valid_ring.
  replace (ld32 m ring) with (ld32 m (ring + 0)) by (f_equal; lia). unfold RING_CAPACITY.
  do 4 field_eqb H. done.
Qed.
Lemma lane_offsets_u64 : 0 <= submission_ring_offset l < 2 ^ 64 /\ 0 <= completion_ring_offset l < 2 ^ 64 /\
  0 <= submission_data_offset l < 2 ^ 64 /\ 0 <= completion_data_offset l < 2 ^ 64 /\ 0 <= lane_stride l < 2 ^ 64 /\
  0 <= total_size l < 2 ^ 64 /\ lanes_offset l = 256.
Proof.
  destruct (layout_bounds c Hc Hv) as (R & S & D & L & T).
  assert (0 <= total_size l) by (destruct (round_up_spec (256 + lane_count c * lane_stride l) kIpcHugePageSize ltac:(done)) as [P _];
    change (total_size l) with (round_up (256 + lane_count c * lane_stride l) kIpcHugePageSize); lia).
  unfold kMaxSharedMemorySize in Ht. change (submission_ring_offset l) with 64. change (completion_ring_offset l) with (64 + ring_bytes_of c).
  change (submission_data_offset l) with (64 + 2 * ring_bytes_of c).
  change (completion_data_offset l) with (64 + 2 * ring_bytes_of c + ring_capacity c * data_stride c). split_and!; done || lia.
Qed.
Lemma lane_ready_valid m i session_stride : lane_ready m l c i -> 0 <= i < lane_count c -> ld64 m 56 = session_stride -> session_stride = lane_stride l ->
  valid_lane m l c (lane_base l i) i (ring_bytes_of c) (ring_capacity c * data_stride c) = true /\
  ld64 m (lane_base l i + 24) = submission_ring_offset l /\ ld64 m (lane_base l i + 32) = completion_ring_offset l /\
  ld64 m (lane_base l i + 40) = submission_data_offset l /\ ld64 m (lane_base l i + 48) = completion_data_offset l.
Proof.
  intros (H & _) Hi E1 E2. destruct lane_offsets_u64 as (U1 & U2 & U3 & U4 & U5 & U6 & U7). destruct (Hc) as (A & B & D).
  assert (ld64 m (lane_base l i + 56) = lane_stride l) as Es by (by field H).
  assert (ld64 m (lane_base l i + 24) = submission_ring_offset l) as E24 by (by field H).
  assert (ld64 m (lane_base l i + 32) = completion_ring_offset l) as E32 by (by field H).
  assert (ld64 m (lane_base l i + 40) = submission_data_offset l) as E40 by (by field H).
  assert (ld64 m (lane_base l i + 48) = completion_data_offset l) as E48 by (by field H).
  split_and!; [|done..]. unfold valid_lane. rewrite Es, E24, E32, E40, E48, E1, E2, !Z.eqb_refl.
  replace (ld32 m (lane_base l i)) with (ld32 m (lane_base l i + 0)) by (f_equal; lia).
  do 5 field_eqb H. rewrite !andb_true_l.
  pose proof (area_in_lane c submissions_area Hc Hv) as A1. pose proof (area_in_lane c completions_area Hc Hv) as A2.
  pose proof (area_in_lane c submission_data_area Hc Hv) as A3. pose proof (area_in_lane c completion_data_area Hc Hv) as A4.
  cbn zeta in A1, A2, A3, A4. cbn [area_offset area_size] in A1, A2, A3, A4. rewrite area_size_ring in A1, A2.
  change (data_region_size l) with (ring_capacity c * data_stride c) in A3, A4. unfold ring_bytes_of.
  rewrite !region_inside_true by lia. done.
Qed.
Lemma build_lanes_ready m : ld64 m 64 = lanes_offset l -> ld64 m 56 = lane_stride l ->
  forall indices, Forall (fun i => 0 <= Z.of_nat i < lane_count c /\ lane_ready m l c (Z.of_nat i)) indices ->
  build_lanes m l c (ring_bytes_of c) (ring_capacity c * data_stride c) indices = inr (map (fun i => lane_view l (Z.of_nat i)) indices).
Proof.
  intros E64 E56. destruct (layout_bounds c Hc Hv) as (_ & _ & _ & L & T).
  induction indices as [|i indices IH]; [done|]. intros [[Hi R] Hr]%Forall_cons. cbn [build_lanes map].
  rewrite E64, E56, (u64_small (lane_stride l * Z.of_nat i)) by nia. fold (lane_base l (Z.of_nat i)).
  destruct (lane_ready_valid m (Z.of_nat i) _ R Hi E56 eq_refl) as (V & E24 & E32 & E40 & E48).
  rewrite V, E24, E32, E40, E48. cbn [negb]. destruct R as (_ & R1 & R2). unfold area_at in R1, R2. cbn [area_offset] in R1, R2.
  rewrite (ring_ready_valid _ _ R1), (ring_ready_valid _ _ R2), (IH Hr). done.
Qed.
Lemma build_views_sizes : align_up (u64 (SHARED_RING_HEADER + u64 (ring_capacity c * SHARED_RING_SLOT))) kIpcCacheLineSize = ring_bytes_of c /\
  u64 (align_up (data_slot_size c) kIpcCacheLineSize * ring_capacity c) = ring_capacity c * data_stride c.
Proof.
  destruct (layout_bounds c Hc Hv) as (R & S & D & _). destruct (Hc) as (_ & Hr & Hd). split.
  - unfold ring_bytes_of, SHARED_RING_HEADER, SHARED_RING_SLOT in R. rewrite !u64_small by (rewrite ?u64_small; unfold SHARED_RING_HEADER, SHARED_RING_SLOT; lia).
    fold (ring_bytes_of c). rewrite align_up_line by (unfold ring_bytes_of, SHARED_RING_HEADER, SHARED_RING_SLOT; lia).
    apply round_up_id; [lia|apply ring_bytes_aligned].
  - rewrite align_up_line by lia. fold (data_stride c). rewrite Z.mul_comm. apply u64_small. lia.
Qed.
Lemma session_ready_views m client_id session_generation client_pid :
  session_ready c m client_id session_generation client_pid -> 0 <= client_id < 2 ^ 64 -> 0 <= session_generation < 2 ^ 64 ->
  build_views m (total_size l) c client_id session_generation = inr (lane_views l c).
Proof.
  intros [H R] Hi Hg. destruct lane_offsets_u64 as (U1 & U2 & U3 & U4 & U5 & U6 & U7). destruct (Hc) as (A & B & D).
  destruct (layout_bounds c Hc Hv) as (_ & _ & _ & L & T).
  assert (256 + lane_count c * lane_stride l <= total_size l).
  { change (total_size l) with (round_up (256 + lane_count c * lane_stride l) kIpcHugePageSize). by apply round_up_spec. }
  unfold build_views. rewrite (proj2 (Z.ltb_ge _ _)) by (unfold SHARED_SESSION_HEADER; lia).
  rewrite (make_layout_eq c Hc), Hv. cbn [negb]. rewrite (proj2 (Z.ltb_ge _ _)) by done.
  assert (ld64 m 64 = lanes_offset l) as E64 by (change 64 with (0 + 64); by field H).
  assert (ld64 m 56 = lane_stride l) as E56 by (change 56 with (0 + 56); by field H).
  assert (valid_session m (total_size l) l c client_id session_generation = true) as ->.
  { unfold valid_session. rewrite E64, E56.
    assert (ld32 m 12 = lane_count c) as -> by (change 12 with (0 + 12); by field H).
    assert (ld64 m 32 = total_size l) as -> by (change 32 with (0 + 32); by field H).
    rewrite !Z.eqb_refl. change 4 with (0 + 4). change 8 with (0 + 8). change 16 with (0 + 16). change 20 with (0 + 20).
    change 40 with (0 + 40). change 48 with (0 + 48). change (ld32 m 0) with (ld32 m (0 + 0)).
    do 7 field_eqb H. rewrite !andb_true_l, u64_small by nia. apply region_inside_true; [lia|]. rewrite U7. lia. }
  cbn [negb]. destruct build_views_sizes as [-> ->]. apply build_lanes_ready; [done|done|].
  apply Forall_forall. intros i Hin. apply elem_of_seq in Hin. split; [lia|]. apply R. lia.
Qed.
Lemma build_lanes_inv m rb db indices lanes : ld64 m 64 = lanes_offset l -> ld64 m 56 = lane_stride l ->
  Forall (fun i => 0 <= Z.of_nat i < lane_count c) indices -> build_lanes m l c rb db indices = inr lanes ->
  lanes = map (fun i => lane_view l (Z.of_nat i)) indices /\
  Forall (fun v => valid_ring m c (v_submissions v) = true /\ valid_ring m c (v_completions v) = true) lanes.
Proof.
  intros E64 E56. destruct (layout_bounds c Hc Hv) as (_ & _ & _ & L & T). revert lanes.
  induction indices as [|i indices IH]; intros lanes Hi H; cbn [build_lanes] in H; [by injection H as <-|].
  apply Forall_cons in Hi as [Hi Hr]. rewrite E64, E56, (u64_small (lane_stride l * Z.of_nat i)) in H by nia.
  fold (lane_base l (Z.of_nat i)) in H. destruct (valid_lane _ _ _ _ _ _ _) eqn:V; [|done]. cbn [negb] in H.
  unfold valid_lane in V. rewrite !andb_true_iff, !Z.eqb_eq in V. destruct V as [[[[[[[[_ V24] V32] V40] V48] _] _] _] _].
  rewrite V24, V32, V40, V48 in H.
  destruct (valid_ring m c _) eqn:V1 in H; [|done]. destruct (valid_ring m c _) eqn:V2 in H; [|done]. cbn [negb orb] in H.
  destruct (build_lanes _ _ _ _ _ indices) as [|rest] eqn:B; [done|]. injection H as <-.
  destruct (IH rest Hr eq_refl) as [-> F]. by split; [|constructor].
Qed.
Lemma build_views_inv m size client_id session_generation lanes :
  build_views m size c client_id session_generation = inr lanes ->
  size = total_size l /\ lanes = lane_views l c /\
  Forall (fun v => valid_ring m c (v_submissions v) = true /\ valid_ring m c (v_completions v) = true) lanes.
Proof.
  unfold build_views. destruct (_ <? _); [done|]. rewrite (make_layout_eq c Hc), Hv. cbn [negb].
  rewrite (proj2 (Z.ltb_ge _ _)) by done. destruct (valid_session _ _ _ _ _ _) eqn:V; [|done]. cbn [negb]. intros B.
  unfold valid_session in V. rewrite !andb_true_iff, !Z.eqb_eq in V. destruct V as [[[[[[[_ Vs] Vt] Vo] Vl] _] _] _].
  apply build_lanes_inv in B as [-> F]; [split_and!; [lia|done|done]|done|done|].
  apply Forall_forall. intros i Hin. apply elem_of_seq in Hin. lia.
Qed.
End Build.
Lemma build_views_config m size c client_id session_generation lanes : config_ok c ->
  build_views m size c client_id session_generation = inr lanes -> make_layout c = inr (layout_of c).
Proof.
  intros Hc. unfold build_views. destruct (_ <? _); [done|]. destruct (make_layout c) as [|l] eqn:E; [done|].
  by destruct (make_layout_inv c l Hc E) as (_ & -> & _).
Qed.
Definition view_area (v : LaneView) (a : area) : Z :=
  match a with
  | lane_header_area | submissions_area => v_submissions v
  | completions_area => v_completions v
  | submission_data_area => v_submission_data v
  | completion_data_area => v_completion_data v
  end.
Lemma view_area_at l i a : a <> lane_header_area -> view_area (lane_view l i) a = area_at l i a.
Proof. by destruct a. Qed.

(** Views of a shared mapping are safe whatever the mapping contains.  If
    [build_views] accepts a memory image, there is a view for each lane, and each of its
    two rings and two data regions lies inside the mapping, behind the session header;
    no two of them, in this lane or another, share a byte.  Nothing but the configuration
    decides where they are. *)
Theorem build_views_sound (m : pmem) (size : Z) (c : TransportConfig) (client_id session_generation : Z) (lanes : list LaneView)
    (Hc : config_ok c) (H : build_views m size c client_id session_generation = inr lanes) :
  length lanes = Z.to_nat (lane_count c) /\
  (forall i v a, a <> lane_header_area -> lanes !! i = Some v ->
     SHARED_SESSION_HEADER <= view_area v a /\ view_area v a + area_size (layout_of c) a <= size) /\
  (forall i j v w a b, a <> lane_header_area -> b <> lane_header_area -> (i, a) <> (j, b) -> lanes !! i = Some v -> lanes !! j = Some w ->
     apart (view_area v a) (area_size (layout_of c) a) (view_area w b) (area_size (layout_of c) b)).
Proof.
  destruct (make_layout_inv _ _ Hc (build_views_config _ _ _ _ _ _ Hc H)) as (Hv & _ & Ht).
  destruct (build_views_inv c Hc Hv Ht _ _ _ _ _ H) as (-> & -> & _).
  assert (forall i v, lane_views (layout_of c) c !! i = Some v -> 0 <= Z.of_nat i < lane_count c /\ v = lane_view (layout_of c) (Z.of_nat i)) as Hl.
  { intros i v (k & -> & Hk)%list_lookup_fmap_Some. apply lookup_seq in Hk as [-> ?]. split; [lia|done]. }
  split_and!.
  - unfold lane_views. by rewrite length_map, length_seq.
  - intros i v a N (Hi & ->)%Hl. rewrite view_area_at by done. pose proof (lane_inside c _ Hc Hv Hi) as (A & B & _).
    destruct (area_in_lane c a Hc Hv) as (P & Q & R & _). unfold area_at. lia.
  - intros i j v w a b Na Nb N (Hi & ->)%Hl (Hj & ->)%Hl. rewrite !view_area_at by done.
    apply lane_areas_apart; [done|done|]. intros [= E ->]. apply N. f_equal. lia.
Qed.
Definition small_config : TransportConfig := mk_config 2 2 100.
Definition small_session : pmem := initialize_mapping (fun _ => 255) (layout_of small_config) small_config 7 9 1234.
Lemma build_views_sound_witness : exists lanes,
  build_views small_session (total_size (layout_of small_config)) small_config 7 9 = inr lanes /\ length lanes = 2%nat.
Proof.
  exists (lane_views (layout_of small_config) small_config). split; [vm_compute; reflexivity|].
  apply (build_views_sound small_session (total_size (layout_of small_config)) small_config 7 9); [by unfold config_ok|vm_compute; reflexivity].
Defined.

(** What the server initialises, both sides accept.  For every configuration with a
    layout and every content the fresh mapping may have, [initialize_mapping] leaves a
    session that [build_views] accepts under the identity it was made for, with the rings
    of every lane empty and the session in the initialising state. *)
Theorem initialize_mapping_roundtrip (m : pmem) (c : TransportConfig) (l : SessionLayout) (client_id session_generation client_pid : Z)
    (Hc : config_ok c) (H : make_layout c = inr l) (Hi : 0 <= client_id < 2 ^ 64) (Hg : 0 <= session_generation < 2 ^ 64) :
  let m' := initialize_mapping m l c client_id session_generation client_pid in
  build_views m' (total_size l) c client_id session_generation = inr (lane_views l c) /\
  ld32 m' SESSION_STATE = STATE_INITIALIZING /\
  (forall i, 0 <= i < lane_count c ->
     ring_ready m' (area_at l i submissions_area) (ring_capacity c) /\ ring_ready m' (area_at l i completions_area) (ring_capacity c)).
Proof.
  destruct (make_layout_inv c l Hc H) as (Hv & -> & Ht). cbn zeta.
  destruct (initialize_mapping_ready c Hc Hv m client_id session_generation client_pid) as [R S]. split_and!.
  - by eapply session_ready_views.
  - done.
  - intros i Hin. by destruct (proj2 R i Hin) as (_ & ? & ?).
Qed.
Lemma initialize_mapping_roundtrip_witness :
  build_views small_session (total_size (layout_of small_config)) small_config 7 9 = inr (lane_views (layout_of small_config) small_config).
Proof.
  apply (initialize_mapping_roundtrip (fun _ => 255) small_config (layout_of small_config) 7 9 1234); [by unfold config_ok|vm_compute; reflexivity|lia|lia].
Defined.
