(* ===== verification/IpcRing.v ===== *)
(** * Rings of a session (class RingView of Async/ipc_transport.cpp)

    A ring is written by one side of a session and read by the other.  Each slot has a
    generation word: for position [p] of the ring the producer owns the slot when the word
    is [p], the consumer when it is [p + 1], and the consumer hands it back as
    [p + capacity].  The operations are the source's, on the bytes of the mapping; a
    transition system then cuts them at every shared store, and shows that the two sides,
    interleaved in any way, implement a first-in first-out queue. *)

From stdpp Require Import base tactics numbers list gmap relations.
From Stdlib Require Import ZArith Lia.
From S2P Require Import Prelude Bytes Layout Pmem Ipc.
Open Scope Z_scope.

(** ** Descriptors *)

Definition FLAG_REQUEST : Z := 1.
Definition FLAG_RESPONSE : Z := 2.
Definition FLAG_HAS_PAYLOAD : Z := 4.
Definition FLAG_END_OF_STREAM : Z := 8.

Record IpcDescriptor := mk_descriptor {
  d_client_id : Z; d_session_generation : Z; d_request_id : Z; d_offset : Z; d_length : Z; d_result_length : Z; d_slot_generation : Z;
  d_protocol_version : Z; d_resume_worker : Z; d_data_slot : Z; d_payload_length : Z; d_status : Z; d_opcode : Z; d_flags : Z; d_reserved : Z;
}.
Definition descriptor_bytes (d : IpcDescriptor) : list Z :=
  le_bytes 8 (d_client_id d) ++ le_bytes 8 (d_session_generation d) ++ le_bytes 8 (d_request_id d) ++ le_bytes 8 (d_offset d) ++
  le_bytes 8 (d_length d) ++ le_bytes 8 (d_result_length d) ++ le_bytes 8 (d_slot_generation d) ++ le_bytes 4 (d_protocol_version d) ++
  le_bytes 4 (d_resume_worker d) ++ le_bytes 4 (d_data_slot d) ++ le_bytes 4 (d_payload_length d) ++ le_bytes 4 (u32 (d_status d)) ++
  le_bytes 2 (d_opcode d) ++ le_bytes 2 (d_flags d) ++ le_bytes 4 (d_reserved d).
Definition load_descriptor (m : pmem) (a : Z) : IpcDescriptor :=
  mk_descriptor (ld64 m a) (ld64 m (a + 8)) (ld64 m (a + 16)) (ld64 m (a + 24)) (ld64 m (a + 32)) (ld64 m (a + 40)) (ld64 m (a + 48))
    (ld32 m (a + 56)) (ld32 m (a + 60)) (ld32 m (a + 64)) (ld32 m (a + 68)) (s32 (ld32 m (a + 72))) (ld16 m (a + 76)) (ld16 m (a + 78)) (ld32 m (a + 80)).
Definition DESCRIPTOR_BYTES : Z := 84.
Definition in_u64 (z : Z) : Prop := 0 <= z < 2 ^ 64.
Definition in_u32 (z : Z) : Prop := 0 <= z < 2 ^ 32.
Definition in_u16 (z : Z) : Prop := 0 <= z < 2 ^ 16.
Definition descriptor_ok (d : IpcDescriptor) : Prop :=
  in_u64 (d_client_id d) /\ in_u64 (d_session_generation d) /\ in_u64 (d_request_id d) /\ in_u64 (d_offset d) /\ in_u64 (d_length d) /\
  in_u64 (d_result_length d) /\ in_u64 (d_slot_generation d) /\ in_u32 (d_protocol_version d) /\ in_u32 (d_resume_worker d) /\
  in_u32 (d_data_slot d) /\ in_u32 (d_payload_length d) /\ - 2 ^ 31 <= d_status d < 2 ^ 31 /\ in_u16 (d_opcode d) /\ in_u16 (d_flags d) /\
  in_u32 (d_reserved d).

(** What the producer sets before it stores a descriptor. *)
Definition set_flags (d : IpcDescriptor) (flags : Z) : IpcDescriptor :=
  let 'mk_descriptor ci sg ri off le rl gen pv rw ds pl st op _ re := d in mk_descriptor ci sg ri off le rl gen pv rw ds pl st op flags re.
Definition mark_payload (d : IpcDescriptor) (payload_size : Z) : IpcDescriptor :=
  set_flags d (if negb (payload_size =? 0) then Z.lor (d_flags d) FLAG_HAS_PAYLOAD else Z.land (d_flags d) (Z.lnot FLAG_HAS_PAYLOAD)).
Definition place_descriptor (d : IpcDescriptor) (slot_index payload_size position : Z) : IpcDescriptor :=
  let 'mk_descriptor ci sg ri off le rl _ pv rw _ _ st op fl re := mark_payload d payload_size in
  mk_descriptor ci sg ri off le rl position pv rw slot_index (u32 payload_size) st op fl re.

(** ** Operations *)

(** [position % header_->capacity]: the capacity is read from the shared header; a zero
    capacity traps. *)
Definition slot_index (m : pmem) (ring position : Z) : option Z :=
  let capacity := ld32 m (ring + RING_CAPACITY) in
  if capacity =? 0 then None else Some (position mod capacity).
Definition slot_generation (m : pmem) (ring i : Z) : Z := ld64 m (ring_slot ring i).
Definition slot_data (data size i : Z) : Z := data + u64 (align_up size kIpcCacheLineSize * i).
Definition ready (m : pmem) (ring : Z) : option bool :=
  let position := ld64 m (ring + RING_CONSUMER) in
  match slot_index m ring position with
  | None => None
  | Some i => Some (slot_generation m ring i =? u64 (position + 1))
  end.

(** The stores of a producer. *)
Definition store_payload (m : pmem) (destination : Z) (payload tail : list Z) : pmem :=
  nvm_write (nvm_write m payload destination) tail (destination + len payload).
Definition store_descriptor (m : pmem) (slot : Z) (d : IpcDescriptor) : pmem := nvm_write m (descriptor_bytes d) (slot + 8).
Definition store_generation (m : pmem) (slot v : Z) : pmem := st64 m slot v.
Definition try_push (m : pmem) (ring : Z) (d : IpcDescriptor) (payload tail : list Z) (data size : Z) : option (option error_code * pmem) :=
  let position := ld64 m (ring + RING_PRODUCER) in
  match slot_index m ring position with
  | None => None
  | Some i =>
      if negb (slot_generation m ring i =? position) then Some (Some (transport would_block), m)
      else if (size <? len payload) || (size - len payload <? len tail) then Some (Some (errc EMSGSIZE), m)
      else
        let m := store_payload m (slot_data data size i) payload tail in
        let m := store_descriptor m (ring_slot ring i) (place_descriptor d i (len payload + len tail) position) in
        let m := store_generation m (ring_slot ring i) (u64 (position + 1)) in
        Some (None, st64 m (ring + RING_PRODUCER) (u64 (position + 1)))
  end.

(** The checks of a consumer on the descriptor it finds. *)
Definition bad_layout (incoming : IpcDescriptor) (i position size : Z) : bool :=
  negb (d_protocol_version incoming =? kIpcProtocolVersion) || negb (d_data_slot incoming =? i) ||
  negb (d_slot_generation incoming =? position) || (size <? d_payload_length incoming).
Definition is_stale (incoming : IpcDescriptor) (client_id session_generation : Z) : bool :=
  negb (d_client_id incoming =? client_id) || negb (d_session_generation incoming =? session_generation).

(** [try_pop]: the error, the descriptor handed out, the payload size reported, the bytes
    copied and the memory after it. *)
Record popped := mk_popped { pop_error : option error_code; pop_descriptor : option IpcDescriptor; pop_size : Z; pop_bytes : list Z; pop_mem : pmem }.
Definition try_pop (m : pmem) (ring buffer_size data size client_id session_generation : Z) : option popped :=
  let position := ld64 m (ring + RING_CONSUMER) in
  match slot_index m ring position with
  | None => None
  | Some i =>
      if negb (slot_generation m ring i =? u64 (position + 1)) then Some (mk_popped (Some (transport would_block)) None 0 [] m)
      else
        let incoming := load_descriptor m (ring_slot ring i + 8) in
        let payload_size := d_payload_length incoming in
        let bad := bad_layout incoming i position size in
        let stale := is_stale incoming client_id session_generation in
        if negb bad && negb stale && (buffer_size <? payload_size)
        then Some (mk_popped (Some (transport buffer_too_small)) None payload_size [] m)
        else
          let bytes := if negb bad && negb stale && negb (payload_size =? 0) then nvm_read m payload_size (slot_data data size i) else [] in
          let m := store_generation m (ring_slot ring i) (u64 (position + ld32 m (ring + RING_CAPACITY))) in
          let m := st64 m (ring + RING_CONSUMER) (u64 (position + 1)) in
          let error := if bad then Some (transport corrupt_layout) else if stale then Some (transport stale_session) else None in
          Some (mk_popped error (Some incoming) payload_size bytes m)
  end.

Record AcquiredSlotData := mk_acquired { a_slot : Z; a_release_generation : Z; a_descriptor : IpcDescriptor; a_payload : Z; a_payload_length : Z }.
Definition try_acquire (m : pmem) (ring data size client_id session_generation : Z) : option ((error_code + AcquiredSlotData) * pmem) :=
  let position := ld64 m (ring + RING_CONSUMER) in
  match slot_index m ring position with
  | None => None
  | Some i =>
      if negb (slot_generation m ring i =? u64 (position + 1)) then Some (inl (transport would_block), m)
      else
        let incoming := load_descriptor m (ring_slot ring i + 8) in
        let bad := bad_layout incoming i position size in
        let stale := is_stale incoming client_id session_generation in
        let m := st64 m (ring + RING_CONSUMER) (u64 (position + 1)) in
        let release := u64 (position + ld32 m (ring + RING_CAPACITY)) in
        if bad || stale
        then Some (inl (transport (if bad then corrupt_layout else stale_session)), store_generation m (ring_slot ring i) release)
        else Some (inr (mk_acquired (ring_slot ring i) release incoming (slot_data data size i) (d_payload_length incoming)), m)
  end.
(** [ReceivedIpcSlot::reset] of a slot that is held. *)
Definition release_slot (m : pmem) (a : AcquiredSlotData) : pmem := store_generation m (a_slot a) (a_release_generation a).

Record ReservedSlotData := mk_reserved { r_slot : Z; r_payload : Z; r_position : Z }.
Definition try_reserve (m : pmem) (ring data size : Z) : option ((error_code + ReservedSlotData) * pmem) :=
  let position := ld64 m (ring + RING_PRODUCER) in
  match slot_index m ring position with
  | None => None
  | Some i =>
      if negb (slot_generation m ring i =? position) then Some (inl (transport would_block), m)
      else Some (inr (mk_reserved (ring_slot ring i) (slot_data data size i) position), st64 m (ring + RING_PRODUCER) (u64 (position + 1)))
  end.

(** ** Reservations of completion slots *)

(** The slot and its payload area; both pointers are null in a reservation that holds none. *)
Record CompletionReservation := mk_reservation {
  c_slot : option Z; c_payload : option Z; c_payload_capacity : Z; c_position : Z; c_ring_capacity : Z; c_client_id : Z; c_session_generation : Z;
}.
Definition drop_slot (r : CompletionReservation) : CompletionReservation :=
  let 'mk_reservation _ _ pc pos rc ci sg := r in mk_reservation None None pc pos rc ci sg.
(** The identity, version and direction that [publish] writes over the caller's. *)
Definition response_of (d : IpcDescriptor) (client_id session_generation : Z) : IpcDescriptor :=
  let 'mk_descriptor _ _ ri off le rl gen _ rw ds pl st op fl re := d in
  mk_descriptor client_id session_generation ri off le rl gen kIpcProtocolVersion rw ds pl st op
    (Z.land (Z.lor fl FLAG_RESPONSE) (Z.lnot FLAG_REQUEST)) re.
(** [signal] is the outcome of writing the lane's event counter. *)
Definition publish (m : pmem) (r : CompletionReservation) (d : IpcDescriptor) (payload_size : Z) (signal : option error_code)
    : option error_code * CompletionReservation * pmem :=
  match c_slot r with
  | None => (Some (errc EINVAL), r, m)
  | Some slot =>
      if (d_request_id d =? 0) || (c_payload_capacity r <? payload_size) then (Some (errc EINVAL), r, m)
      else
        let d := response_of d (c_client_id r) (c_session_generation r) in
        let d := place_descriptor d (c_position r mod c_ring_capacity r) payload_size (c_position r) in
        let m := store_descriptor m slot d in
        (signal, drop_slot r, store_generation m slot (u64 (c_position r + 1)))
  end.
(** [None]: a write through the null pointer. *)
Definition publish_copy (m : pmem) (r : CompletionReservation) (d : IpcDescriptor) (payload : list Z) (signal : option error_code)
    : option (option error_code * CompletionReservation * pmem) :=
  if c_payload_capacity r <? len payload then Some (Some (errc EMSGSIZE), r, m)
  else match payload, c_payload r with
  | [], _ => Some (publish m r d 0 signal)
  | _ :: _, None => None
  | _ :: _, Some destination => Some (publish (nvm_write m payload destination) r d (len payload) signal)
  end.
Definition abandon (m : pmem) (r : CompletionReservation) : CompletionReservation * pmem :=
  match c_slot r with
  | None => (drop_slot r, m)
  | Some slot => (drop_slot r, store_generation m slot (u64 (c_position r + c_ring_capacity r)))
  end.

(** ** Descriptors survive memory *)

Lemma ld16_field m n o h off v : nvm_read m n o = h -> slice off 2 h = le_bytes 2 v -> 0 <= off -> off + 2 <= n -> 0 <= v < 2 ^ 16 ->
  ld16 m (o + off) = v.
Proof. intros <- E ? ? Hv. unfold ld16. rewrite nvm_read_slice in E by lia. rewrite E. by apply le_val_bytes_small. Qed.
Lemma len_descriptor_bytes d : len (descriptor_bytes d) = DESCRIPTOR_BYTES.
Proof. done. Qed.
Lemma s32_of_u32 z : - 2 ^ 31 <= z < 2 ^ 31 -> s32 (u32 z) = z.
Proof.
  intros. unfold s32, u32. rewrite Zplus_mod_idemp_l. rewrite Z.mod_small; lia.
Qed.
Lemma load_descriptor_bytes m a d : descriptor_ok d -> nvm_read m DESCRIPTOR_BYTES a = descriptor_bytes d -> load_descriptor m a = d.
Proof.
  intros (A1 & A2 & A3 & A4 & A5 & A6 & A7 & A8 & A9 & A10 & A11 & A12 & A13 & A14 & A15) H.
  unfold load_descriptor. destruct d. cbn [d_client_id d_session_generation d_request_id d_offset d_length d_result_length d_slot_generation
    d_protocol_version d_resume_worker d_data_slot d_payload_length d_status d_opcode d_flags d_reserved] in *.
  f_equal; try (field H; assumption); try (apply (ld16_field _ _ _ _ _ _ H); [reflexivity|done|done|assumption]).
  - replace a with (a + 0) by lia. by field H.
  - erewrite (ld32_field _ _ _ _ 72 (u32 d_status0) H); [by apply s32_of_u32|reflexivity|done|done|]. unfold u32. by apply Z.mod_pos_bound.
Qed.
Lemma load_store_descriptor m slot d : descriptor_ok d -> load_descriptor (store_descriptor m slot d) (slot + 8) = d.
Proof. intros H. apply load_descriptor_bytes; [done|]. unfold store_descriptor. rewrite <-(len_descriptor_bytes d). apply nvm_read_write_same. Qed.

(** ** Flags stay in their sixteen bits *)

Lemma in_u16_ones x : in_u16 x <-> Z.land x (Z.ones 16) = x.
Proof.
  unfold in_u16. rewrite Z.land_ones by lia. split; intros H.
  - by rewrite Z.mod_small.
  - rewrite <-H. by apply Z.mod_pos_bound.
Qed.
Lemma in_u16_lor x y : in_u16 x -> in_u16 y -> in_u16 (Z.lor x y).
Proof. rewrite !in_u16_ones. intros E1 E2. by rewrite Z.land_lor_distr_l, E1, E2. Qed.
Lemma in_u16_land x y : in_u16 x -> in_u16 (Z.land x y).
Proof. rewrite !in_u16_ones. intros E. by rewrite <-Z.land_assoc, (Z.land_comm y), Z.land_assoc, E. Qed.
Lemma place_descriptor_ok d i n p : descriptor_ok d -> in_u32 i -> in_u32 n -> in_u64 p -> descriptor_ok (place_descriptor d i n p).
Proof.
  intros (A1 & A2 & A3 & A4 & A5 & A6 & A7 & A8 & A9 & A10 & A11 & A12 & A13 & A14 & A15) Hi Hn Hp. destruct d.
  cbn in A1, A2, A3, A4, A5, A6, A7, A8, A9, A10, A11, A12, A13, A14, A15.
  unfold descriptor_ok. cbn. rewrite u32_small by done. split_and!; try done; [apply A12..|].
  destruct (n =? 0); cbn [negb]; [by apply in_u16_land|by apply in_u16_lor].
Qed.
