(* ===== verification/IpcQueue.v ===== *)
(** * Rings as queues

    The transition system of one ring of a session.  Producer and consumer run in
    different processes, and the completions of a lane are published in any order, so the
    operations of IpcRing are cut at each store to shared memory:

    - [try_push] is a claim, two fills, a place, a publish and an advance;
    - [try_reserve] is a claim and an advance, the handler's writes to the payload are
      fills, and [CompletionReservation::publish] is a place and a publish;
    - [try_pop] is a take, a release and an advance; [try_acquire] is a take and an
      advance, and [ReceivedIpcSlot::reset] is a release.

    In between, the rest of the mapping may change in any way. *)

From stdpp Require Import base tactics numbers list gmap relations.
From Stdlib Require Import ZArith Lia.
From S2P Require Import Prelude Bytes Layout Pmem Ipc IpcRing.
Open Scope Z_scope.

Record geometry := mk_geometry { g_ring : Z; g_data : Z; g_capacity : Z; g_size : Z; g_client : Z; g_session : Z }.
Definition ring_length (g : geometry) : Z := SHARED_RING_HEADER + g_capacity g * SHARED_RING_SLOT.
Definition g_stride (g : geometry) : Z := round_up (g_size g) 64.
Definition data_length (g : geometry) : Z := g_capacity g * g_stride g.
Definition geometry_ok (g : geometry) : Prop :=
  2 <= g_capacity g <= kMaxRingCapacity /\ 1 <= g_size g <= kMaxDataSlotSize /\
  apart (g_ring g) (ring_length g) (g_data g) (data_length g) /\ in_u64 (g_client g) /\ in_u64 (g_session g).

Definition message : Type := IpcDescriptor * list Z.
(** A position of the ring the producer has claimed: still being filled, or with its
    descriptor and payload length in place. *)
Inductive work := Filling (i : Z) | Placed (i : Z) (d : IpcDescriptor) (n : Z).
Record ring_state := mk_ring_state {
  s_mem : pmem;
  s_prod : option Z;  (** claimed, producer cursor not advanced yet *)
  s_work : gmap Z work;  (** claimed and not published *)
  s_cons : option Z;  (** taken, consumer cursor not advanced yet *)
  s_leases : gmap Z AcquiredSlotData;  (** taken and not released *)
  s_q : Z;  (** positions claimed so far *)
  s_c : Z;  (** positions taken so far *)
  s_sent : gmap Z message;  (** what was published, by position *)
  s_recv : list message;  (** what was taken, in order *)
}.

(** A descriptor as the two sides of this session make it. *)
Definition of_session (g : geometry) (d : IpcDescriptor) : Prop :=
  descriptor_ok d /\ d_client_id d = g_client g /\ d_session_generation d = g_session g /\ d_protocol_version d = kIpcProtocolVersion.
Definition data_at (g : geometry) (i : Z) : Z := slot_data (g_data g) (g_size g) i.
Definition same_ring (g : geometry) (m m' : pmem) : Prop :=
  forall a, g_ring g <= a < g_ring g + ring_length g \/ g_data g <= a < g_data g + data_length g -> m' a = m a.

Inductive ring_step (g : geometry) : ring_state -> ring_state -> Prop :=
| step_claim m res cons leases q c sent recv p i :
    ld64 m (g_ring g + RING_PRODUCER) = p -> slot_index m (g_ring g) p = Some i -> slot_generation m (g_ring g) i = p ->
    p + g_capacity g < 2 ^ 64 ->
    ring_step g (mk_ring_state m None res cons leases q c sent recv)
      (mk_ring_state m (Some p) (<[p := Filling i]> res) cons leases (q + 1) c sent recv)
| step_fill m prod res cons leases q c sent recv p i off b :
    res !! p = Some (Filling i) -> 0 <= off -> off + len b <= g_size g ->
    ring_step g (mk_ring_state m prod res cons leases q c sent recv)
      (mk_ring_state (nvm_write m b (data_at g i + off)) prod res cons leases q c sent recv)
| step_place m prod res cons leases q c sent recv p i d n :
    res !! p = Some (Filling i) -> of_session g d -> 0 <= n <= g_size g ->
    let d' := place_descriptor d i n p in
    ring_step g (mk_ring_state m prod res cons leases q c sent recv)
      (mk_ring_state (store_descriptor m (ring_slot (g_ring g) i) d') prod (<[p := Placed i d' n]> res) cons leases q c sent recv)
| step_publish m prod res cons leases q c sent recv p i d n :
    res !! p = Some (Placed i d n) ->
    ring_step g (mk_ring_state m prod res cons leases q c sent recv)
      (mk_ring_state (store_generation m (ring_slot (g_ring g) i) (u64 (p + 1))) prod (delete p res) cons leases q c
         (<[p := (d, nvm_read m n (data_at g i))]> sent) recv)
| step_produced m res cons leases q c sent recv p :
    ring_step g (mk_ring_state m (Some p) res cons leases q c sent recv)
      (mk_ring_state (st64 m (g_ring g + RING_PRODUCER) (u64 (p + 1))) None res cons leases q c sent recv)
| step_take m prod res leases q c sent recv p i :
    ld64 m (g_ring g + RING_CONSUMER) = p -> slot_index m (g_ring g) p = Some i -> slot_generation m (g_ring g) i = u64 (p + 1) ->
    let d := load_descriptor m (ring_slot (g_ring g) i + 8) in
    bad_layout d i p (g_size g) = false -> is_stale d (g_client g) (g_session g) = false ->
    let a := mk_acquired (ring_slot (g_ring g) i) (u64 (p + ld32 m (g_ring g + RING_CAPACITY))) d (data_at g i) (d_payload_length d) in
    ring_step g (mk_ring_state m prod res None leases q c sent recv)
      (mk_ring_state m prod res (Some p) (<[p := a]> leases) q (c + 1) sent
         (recv ++ [(d, nvm_read m (d_payload_length d) (data_at g i))]))
| step_release m prod res cons leases q c sent recv p a :
    leases !! p = Some a ->
    ring_step g (mk_ring_state m prod res cons leases q c sent recv)
      (mk_ring_state (release_slot m a) prod res cons (delete p leases) q c sent recv)
| step_consumed m prod res leases q c sent recv p :
    ring_step g (mk_ring_state m prod res (Some p) leases q c sent recv)
      (mk_ring_state (st64 m (g_ring g + RING_CONSUMER) (u64 (p + 1))) prod res None leases q c sent recv)
| step_other m m' prod res cons leases q c sent recv :
    same_ring g m m' ->
    ring_step g (mk_ring_state m prod res cons leases q c sent recv) (mk_ring_state m' prod res cons leases q c sent recv).

(** A session starts with the rings as [initialize_ring] leaves them. *)
Definition initial_ring (g : geometry) (s : ring_state) : Prop :=
  exists m, s = mk_ring_state m None ∅ None ∅ 0 0 ∅ [] /\ ring_ready m (g_ring g) (g_capacity g).
Definition ring_reachable (g : geometry) (s : ring_state) : Prop := exists s0, initial_ring g s0 /\ rtc (ring_step g) s0 s.

(** ** Which bytes an operation touches *)

Definition agree (m m' : pmem) (o n : Z) : Prop := forall a, o <= a < o + n -> m' a = m a.
Lemma agree_of_outside m m' o n p k : outside m m' o n -> apart p k o n -> agree m m' p k.
Proof. intros A B a Ha. apply A. unfold apart in B. lia. Qed.
Lemma agree_sub m m' o n p k : agree m m' o n -> o <= p -> p + k <= o + n -> agree m m' p k.
Proof. intros A ? ? a Ha. apply A. lia. Qed.
Lemma agree_read m m' o n : agree m m' o n -> nvm_read m' n o = nvm_read m n o.
Proof. intros A. apply nvm_read_ext. intros. apply A. lia. Qed.
Lemma agree_ld64 m m' o : agree m m' o 8 -> ld64 m' o = ld64 m o.
Proof. intros A. unfold ld64. by rewrite (agree_read _ _ _ _ A). Qed.
Lemma agree_ld32 m m' o : agree m m' o 4 -> ld32 m' o = ld32 m o.
Proof. intros A. unfold ld32. by rewrite (agree_read _ _ _ _ A). Qed.
Lemma agree_ld16 m m' o : agree m m' o 2 -> ld16 m' o = ld16 m o.
Proof. intros A. unfold ld16. by rewrite (agree_read _ _ _ _ A). Qed.
Lemma agree_descriptor m m' o : agree m m' o DESCRIPTOR_BYTES -> load_descriptor m' o = load_descriptor m o.
Proof.
  intros A. unfold load_descriptor, DESCRIPTOR_BYTES in *.
  f_equal; first [f_equal; apply agree_ld32|apply agree_ld64|apply agree_ld32|apply agree_ld16];
    (eapply agree_sub; [exact A|lia|lia]).
Qed.
Lemma ld_st64 m a v : in_u64 v -> ld64 (st64 m a v) a = v.
Proof.
  intros H. unfold ld64, st64. change 8 with (len (le_bytes 8 v)). rewrite nvm_read_write_same. by apply le_val_bytes_small.
Qed.
Lemma st64_outside m a v : outside m (st64 m a v) a 8.
Proof. change 8 with (len (le_bytes 8 v)). apply outside_write. Qed.

Section Ring.
Context (g : geometry) (G : geometry_ok g).
Abbreviation R := (g_ring g).
Abbreviation N := (g_capacity g).

Lemma stride_spec : g_size g <= g_stride g < g_size g + 64.
Proof. apply round_up_spec. lia. Qed.
Lemma data_at_eq i : 0 <= i < N -> data_at g i = g_data g + g_stride g * i.
Proof.
  intros Hi. destruct (G) as ((? & ?) & (? & ?) & _). unfold kMaxRingCapacity, kMaxDataSlotSize in *. pose proof stride_spec.
  unfold data_at, slot_data. rewrite align_up_line by lia. fold (g_stride g). rewrite u64_small; [done|nia].
Qed.
Lemma index_bounds p : 0 <= p mod N < N.
Proof. destruct (G) as ((? & _) & _). apply Z.mod_pos_bound. lia. Qed.
Lemma index_inj q p p' : q - N <= p < q -> q - N <= p' < q -> p mod N = p' mod N -> p = p'.
Proof.
  intros ? ? E. destruct (G) as ((? & _) & _). pose proof (Z.div_mod p N ltac:(lia)). pose proof (Z.div_mod p' N ltac:(lia)).
  destruct (Z.lt_trichotomy (p / N) (p' / N)) as [|[|]]; nia.
Qed.
Lemma index_shift p : (p - N) mod N = p mod N.
Proof. destruct (G) as ((? & _) & _). replace (p - N) with (p + (-1) * N) by lia. apply Z_mod_plus_full. Qed.

(** The bytes of slot [i]: its generation, its descriptor, its payload. *)
Definition same_generation (m m' : pmem) (i : Z) : Prop := agree m m' (ring_slot R i) 8.
Definition same_descriptor (m m' : pmem) (i : Z) : Prop := agree m m' (ring_slot R i + 8) DESCRIPTOR_BYTES.
Definition same_payload (m m' : pmem) (i : Z) : Prop := agree m m' (data_at g i) (g_size g).
(** [m'] is [m] with one field of the ring changed. *)
Inductive changed : Type := Ch_generation (i : Z) | Ch_descriptor (i : Z) | Ch_payload (i : Z) | Ch_producer | Ch_consumer | Ch_other.
Definition changes (k : changed) (m m' : pmem) : Prop :=
  (forall j, 0 <= j < N -> k <> Ch_generation j -> same_generation m m' j) /\
  (forall j, 0 <= j < N -> k <> Ch_descriptor j -> same_descriptor m m' j) /\
  (forall j, 0 <= j < N -> k <> Ch_payload j -> same_payload m m' j) /\
  agree m m' (R + RING_CAPACITY) 4 /\
  (k <> Ch_producer -> agree m m' (R + RING_PRODUCER) 8) /\ (k <> Ch_consumer -> agree m m' (R + RING_CONSUMER) 8).

Ltac layout := unfold apart, ring_slot, ring_length, data_length, SHARED_RING_HEADER, SHARED_RING_SLOT, RING_CAPACITY, RING_PRODUCER, RING_CONSUMER,
  DESCRIPTOR_BYTES in *.
Lemma data_inside i : 0 <= i < N -> g_data g <= data_at g i /\ data_at g i + g_size g <= g_data g + data_length g.
Proof. intros Hi. rewrite data_at_eq by done. pose proof stride_spec. destruct (G) as (_ & (? & _) & _). unfold data_length. nia. Qed.
Lemma data_disjoint i j : 0 <= i < N -> 0 <= j < N -> i <> j -> apart (data_at g i) (g_size g) (data_at g j) (g_size g).
Proof. intros. rewrite !data_at_eq by done. pose proof stride_spec. destruct (G) as (_ & (? & _) & _). unfold apart. nia. Qed.

Lemma change_generation m i v : 0 <= i < N -> changes (Ch_generation i) m (store_generation m (ring_slot R i) v).
Proof.
  intros Hi. destruct (G) as (_ & _ & A & _). pose proof (st64_outside m (ring_slot R i) v) as O. unfold store_generation.
  split_and!; intros; (eapply agree_of_outside; [exact O|]); try (assert (i <> j) by congruence); try (pose proof (data_inside j)); layout; lia.
Qed.
Lemma change_descriptor m i d : 0 <= i < N -> changes (Ch_descriptor i) m (store_descriptor m (ring_slot R i) d).
Proof.
  intros Hi. destruct (G) as (_ & _ & A & _). pose proof (outside_write m (descriptor_bytes d) (ring_slot R i + 8)) as O.
  rewrite len_descriptor_bytes in O.
  split_and!; intros; (eapply agree_of_outside; [exact O|]); try (assert (i <> j) by congruence); try (pose proof (data_inside j)); layout; lia.
Qed.
Lemma change_payload m i off b : 0 <= i < N -> 0 <= off -> off + len b <= g_size g ->
  changes (Ch_payload i) m (nvm_write m b (data_at g i + off)).
Proof.
  intros Hi Ho Hb. destruct (G) as (_ & _ & A & _). pose proof (outside_write m b (data_at g i + off)) as O.
  pose proof (data_inside i Hi). pose proof (len_nonneg b).
  split_and!; intros; (eapply agree_of_outside; [exact O|]).
  3: { assert (i <> j) as Nij by congruence. pose proof (data_disjoint i j Hi ltac:(done) Nij). unfold apart in *. lia. }
  all: layout; lia.
Qed.
Lemma change_producer m v : changes Ch_producer m (st64 m (R + RING_PRODUCER) v).
Proof.
  destruct (G) as (_ & _ & A & _). pose proof (st64_outside m (R + RING_PRODUCER) v) as O.
  split_and!; intros; try done; (eapply agree_of_outside; [exact O|]); try (pose proof (data_inside j)); layout; lia.
Qed.
Lemma change_consumer m v : changes Ch_consumer m (st64 m (R + RING_CONSUMER) v).
Proof.
  destruct (G) as (_ & _ & A & _). pose proof (st64_outside m (R + RING_CONSUMER) v) as O.
  split_and!; intros; try done; (eapply agree_of_outside; [exact O|]); try (pose proof (data_inside j)); layout; lia.
Qed.
Lemma change_other m m' : same_ring g m m' -> changes Ch_other m m'.
Proof.
  intros S. destruct (G) as ((? & _) & _ & A & _).
  split_and!; intros; intros a Ha; apply S; try (pose proof (data_inside j)); layout; lia.
Qed.

(** ** The invariant *)

(** A descriptor with a payload of [n] bytes that belongs at position [p]. *)
Definition fits (d : IpcDescriptor) (p n : Z) : Prop :=
  bad_layout d (p mod N) p (g_size g) = false /\ is_stale d (g_client g) (g_session g) = false /\ d_payload_length d = n /\ 0 <= n <= g_size g.
Definition descriptor_at (m : pmem) (p : Z) : IpcDescriptor := load_descriptor m (ring_slot R (p mod N) + 8).
Definition work_ok (m : pmem) (p : Z) (w : work) : Prop :=
  match w with
  | Filling i => i = p mod N
  | Placed i d n => i = p mod N /\ descriptor_at m p = d /\ fits d p n
  end.
Definition stored (m : pmem) (p : Z) (msg : message) : Prop :=
  descriptor_at m p = msg.1 /\ nvm_read m (len msg.2) (data_at g (p mod N)) = msg.2 /\ fits msg.1 p (len msg.2).
Definition lease_ok (sent : gmap Z message) (p : Z) (a : AcquiredSlotData) : Prop :=
  a_slot a = ring_slot R (p mod N) /\ a_release_generation a = p + N /\ a_payload a = data_at g (p mod N) /\
  exists b, sent !! p = Some (a_descriptor a, b) /\ a_payload_length a = len b.
(** The generation of the slot of [p], when [p] is the last position claimed in it. *)
Definition expected (res : gmap Z work) (leases : gmap Z AcquiredSlotData) (c p : Z) : Z :=
  if decide (is_Some (res !! p)) then p
  else if decide (is_Some (leases !! p)) then p + 1
  else if decide (p < c) then p + N else p + 1.

Record ring_inv (s : ring_state) : Prop := {
  i_capacity : ld32 (s_mem s) (R + RING_CAPACITY) = N;
  i_producer : ld64 (s_mem s) (R + RING_PRODUCER) = match s_prod s with None => s_q s | Some _ => s_q s - 1 end;
  i_claimed : forall p, s_prod s = Some p -> p = s_q s - 1;
  i_consumer : ld64 (s_mem s) (R + RING_CONSUMER) = match s_cons s with None => s_c s | Some _ => s_c s - 1 end;
  i_taken : forall p, s_cons s = Some p -> p = s_c s - 1;
  i_window : 0 <= s_c s <= s_q s /\ s_q s <= s_c s + N /\ s_q s - 1 + N < 2 ^ 64 /\ (s_cons s <> None -> 0 < s_c s) /\ (s_prod s <> None -> 0 < s_q s);
  i_work : forall p w, s_work s !! p = Some w -> s_c s <= p < s_q s /\ work_ok (s_mem s) p w;
  i_leases : forall p a, s_leases s !! p = Some a -> 0 <= p < s_c s /\ s_q s - N <= p /\ lease_ok (s_sent s) p a;
  i_generation : forall p, s_q s - N <= p < s_q s -> slot_generation (s_mem s) R (p mod N) = expected (s_work s) (s_leases s) (s_c s) p;
  i_sent : forall p, 0 <= p < s_q s -> s_work s !! p = None -> exists msg, s_sent s !! p = Some msg /\
    (s_c s <= p \/ is_Some (s_leases s !! p) -> stored (s_mem s) p msg);
  i_sent_dom : forall p msg, s_sent s !! p = Some msg -> 0 <= p < s_q s /\ s_work s !! p = None;
  i_recv : Z.of_nat (length (s_recv s)) = s_c s /\ forall n, Z.of_nat n < s_c s -> s_recv s !! n = s_sent s !! Z.of_nat n;
}.

(** What a change of memory keeps. *)
Lemma changes_generation k m m' p : changes k m m' -> k <> Ch_generation (p mod N) ->
  slot_generation m' R (p mod N) = slot_generation m R (p mod N).
Proof. intros (A & _) H. apply agree_ld64, A; [apply index_bounds|done]. Qed.
Lemma changes_descriptor k m m' p : changes k m m' -> k <> Ch_descriptor (p mod N) -> descriptor_at m' p = descriptor_at m p.
Proof. intros (_ & A & _) H. apply agree_descriptor, A; [apply index_bounds|done]. Qed.
Lemma changes_payload k m m' p n : changes k m m' -> k <> Ch_payload (p mod N) -> n <= g_size g ->
  nvm_read m' n (data_at g (p mod N)) = nvm_read m n (data_at g (p mod N)).
Proof. intros (_ & _ & A & _) H Hn. apply agree_read. eapply agree_sub; [apply A; [apply index_bounds|done]|lia|lia]. Qed.
Lemma changes_stored k m m' p msg : changes k m m' -> k <> Ch_descriptor (p mod N) -> k <> Ch_payload (p mod N) ->
  stored m p msg -> stored m' p msg.
Proof.
  intros C H1 H2 (A & B & F). split_and!; [by rewrite (changes_descriptor _ _ _ _ C H1)| |done].
  rewrite (changes_payload _ _ _ _ _ C H2); [done|]. destruct F as (_ & _ & _ & ?). lia.
Qed.
Lemma changes_work k m m' p w : changes k m m' -> k <> Ch_descriptor (p mod N) -> work_ok m p w -> work_ok m' p w.
Proof. intros C H. destruct w; [done|]. intros (A & B & F). split_and!; [done| |done]. by rewrite (changes_descriptor _ _ _ _ C H). Qed.

(** ** Steps keep the invariant *)

Ltac open_inv H := destruct H as [Icap Iprod Iclaim Icons Itaken Iwin Iwork Ilease Igen Isent Idom Irecv];
  cbn [s_mem s_prod s_work s_cons s_leases s_q s_c s_sent s_recv] in *.
Section Steps.
Context (m : pmem) (prod : option Z) (res : gmap Z work) (cons : option Z) (leases : gmap Z AcquiredSlotData) (q c : Z)
  (sent : gmap Z message) (recv : list message).
Abbreviation st := (mk_ring_state m prod res cons leases q c sent recv).

(** A position in use shares its slot with no other. *)
Lemma in_use_window p : ring_inv st -> c <= p < q \/ is_Some (leases !! p) -> q - N <= p < q.
Proof. intros H. open_inv H. intros [?|[a Ha]]; [lia|]. apply Ilease in Ha as (? & ? & _). lia. Qed.
Lemma other_slot p p' : ring_inv st -> is_Some (res !! p) -> p' <> p -> c <= p' < q \/ is_Some (leases !! p') -> p mod N <> p' mod N.
Proof.
  intros H Hr Np Hu E. pose proof (in_use_window p' H Hu) as W. assert (q - N <= p < q) as W'.
  { apply in_use_window; [done|]. left. destruct Hr as [w Hw]. by apply (i_work _ H) in Hw as [? _]. }
  by apply (index_inj q p p') in E.
Qed.
(** The cursors and the rest of the mapping change without touching a slot. *)
Lemma inv_cursors m' k prod' cons' : ring_inv st -> changes k m m' ->
  (forall i, k <> Ch_generation i /\ k <> Ch_descriptor i /\ k <> Ch_payload i) ->
  ld64 m' (R + RING_PRODUCER) = match prod' with None => q | Some _ => q - 1 end -> (forall p, prod' = Some p -> p = q - 1 /\ 0 < q) ->
  ld64 m' (R + RING_CONSUMER) = match cons' with None => c | Some _ => c - 1 end -> (forall p, cons' = Some p -> p = c - 1 /\ 0 < c) ->
  ring_inv (mk_ring_state m' prod' res cons' leases q c sent recv).
Proof.
  intros H C K Hp Hp' Hc Hc'. pose proof H as H'. open_inv H. constructor; cbn [s_mem s_prod s_work s_cons s_leases s_q s_c s_sent s_recv]; try done.
  - rewrite <-Icap. apply agree_ld32. by destruct C as (_ & _ & _ & ? & _).
  - intros p E. by apply Hp'.
  - intros p E. by apply Hc'.
  - destruct Iwin as (? & ? & ? & _). split_and!; try lia.
    + destruct cons' as [p|]; [|done]. intros _. by apply (Hc' p).
    + destruct prod' as [p|]; [|done]. intros _. by apply (Hp' p).
  - intros p w Hw. apply Iwork in Hw as [? ?]. split; [done|]. eapply changes_work; [done| |done]. apply K.
  - intros p Hin. rewrite (changes_generation _ _ _ _ C); [by apply Igen|apply K].
  - intros p Hin Hn. destruct (Isent p Hin Hn) as (msg & E & S). exists msg. split; [done|]. intros U.
    eapply changes_stored; [done|apply K|apply K|by apply S].
Qed.
(** A claimed slot is written; no other position sees it. *)
Lemma inv_slot_write m' k p w w' : ring_inv st -> res !! p = Some w -> changes k m m' ->
  k = Ch_payload (p mod N) \/ k = Ch_descriptor (p mod N) -> work_ok m' p w' ->
  ring_inv (mk_ring_state m' prod (<[p := w']> res) cons leases q c sent recv).
Proof.
  intros H Hw C K Hw'. pose proof H as H'. open_inv H.
  assert (forall p', p' <> p -> c <= p' < q \/ is_Some (leases !! p') -> k <> Ch_payload (p' mod N) /\ k <> Ch_descriptor (p' mod N)) as Q.
  { intros p' Np U. pose proof (other_slot p p' H' ltac:(by rewrite Hw) Np U). destruct K as [-> | ->]; split; congruence. }
  constructor; cbn [s_mem s_prod s_work s_cons s_leases s_q s_c s_sent s_recv]; try done.
  - rewrite <-Icap. apply agree_ld32. by destruct C as (_ & _ & _ & ? & _).
  - rewrite <-Iprod. apply agree_ld64. destruct C as (_ & _ & _ & _ & A & _). apply A. by destruct K as [-> | ->].
  - rewrite <-Icons. apply agree_ld64. destruct C as (_ & _ & _ & _ & _ & A). apply A. by destruct K as [-> | ->].
  - intros p' w0 [[-> <-]|[Np Hw0]]%lookup_insert_Some; [split; [|done]; by apply Iwork in Hw as [? _]|].
    apply Iwork in Hw0 as [Hin Hok]. split; [done|]. eapply changes_work; [done| |done]. apply Q; [done|by left].
  - intros p' Hin. rewrite (changes_generation _ _ _ _ C) by (destruct K as [-> | ->]; done). rewrite (Igen p' Hin). unfold expected.
    destruct (decide (p' = p)) as [->|Np]; [rewrite lookup_insert_eq, Hw; by rewrite !decide_True by eauto|by rewrite lookup_insert_ne].
  - intros p' Hin [Hn Np]%lookup_insert_None. destruct (Isent p' Hin Hn) as (msg & E & S). exists msg. split; [done|]. intros U.
    destruct (Q p') as [? ?]; [done|destruct U; [left; lia|by right]|]. eapply changes_stored; [done|done|done|by apply S].
  - intros p' msg [Hin Hn]%Idom. split; [done|]. apply lookup_insert_None. split; [done|]. intros ->. by rewrite Hw in Hn.
Qed.
End Steps.

Lemma slot_index_eq m p i : ld32 m (R + RING_CAPACITY) = N -> slot_index m R p = Some i -> i = p mod N.
Proof.
  intros E. unfold slot_index. rewrite E. destruct (Z.eqb_spec N 0); [done|]. by intros [= <-].
Qed.
Lemma expected_claim res leases c q : expected res leases c (q - N) = q -> leases !! (q - N) = None /\ q - N < c.
Proof.
  destruct (G) as ((? & _) & _). unfold expected. destruct (decide (is_Some (res !! _))); [lia|].
  destruct (decide (is_Some (leases !! _))) as [|L]; [lia|]. destruct (decide (q - N < c)); [|lia]. intros _. split; [by apply eq_None_not_Some|done].
Qed.
Lemma inv_claim m res cons leases q c sent recv p i :
  ring_inv (mk_ring_state m None res cons leases q c sent recv) ->
  ld64 m (R + RING_PRODUCER) = p -> slot_index m R p = Some i -> slot_generation m R i = p -> p + N < 2 ^ 64 ->
  ring_inv (mk_ring_state m (Some p) (<[p := Filling i]> res) cons leases (q + 1) c sent recv).
Proof.
  intros H Ep Ei Eg Hb. open_inv H. destruct (G) as ((? & _) & _). apply (slot_index_eq _ _ _ Icap) in Ei.
  rewrite Iprod in Ep. subst p i.
  assert (leases !! (q - N) = None /\ q - N < c) as [Lf Lc].
  { apply (expected_claim res). rewrite <-Igen by lia. by rewrite index_shift. }
  assert (res !! q = None) as Rq by (apply eq_None_not_Some; intros [w [? _]%Iwork]; lia).
  constructor; cbn [s_mem s_prod s_work s_cons s_leases s_q s_c s_sent s_recv]; try done.
  - rewrite Iprod. lia.
  - intros p [= <-]. lia.
  - destruct Iwin as (? & ? & ? & ? & _). split_and!; try done; lia.
  - intros p w [[-> <-]|[Np Hw]]%lookup_insert_Some; [split; [lia|done]|]. apply Iwork in Hw as [? ?]. split; [lia|done].
  - intros p a Ha. assert (p <> q - N) by congruence. apply Ilease in Ha as (? & ? & ?). split_and!; [lia|lia|lia|done].
  - intros p Hin. destruct (decide (p = q)) as [->|Np].
    + unfold expected. by rewrite lookup_insert_eq, decide_True by eauto.
    + unfold expected. rewrite lookup_insert_ne by done. apply Igen. lia.
  - intros p Hin [Hn Np]%lookup_insert_None. apply Isent; [lia|done].
  - intros p msg Hs. apply Idom in Hs as [Hin Hn]. split; [lia|]. apply lookup_insert_None. split; [done|lia].
Qed.

(** Only the generation of the slot of position [p] changes. *)
Lemma inv_publish m prod res cons leases q c sent recv p i d n :
  ring_inv (mk_ring_state m prod res cons leases q c sent recv) -> res !! p = Some (Placed i d n) ->
  ring_inv (mk_ring_state (store_generation m (ring_slot R i) (u64 (p + 1))) prod (delete p res) cons leases q c
    (<[p := (d, nvm_read m n (data_at g i))]> sent) recv).
Proof.
  intros H Hw. pose proof H as H'. open_inv H. destruct (Iwork _ _ Hw) as (Hp & -> & Ed & F).
  pose proof (change_generation m (p mod N) (u64 (p + 1)) (index_bounds p)) as C. destruct (G) as ((? & _) & _).
  rewrite u64_small in * by lia. set (m' := store_generation _ _ _) in *.
  assert (leases !! p = None) as Lp by (apply eq_None_not_Some; intros [a (? & _)%Ilease]; lia).
  assert (sent !! p = None) as Sp by (apply eq_None_not_Some; intros [msg [_ ?]%Idom]; congruence).
  pose proof F as (_ & _ & _ & Hn). assert (len (nvm_read m n (data_at g (p mod N))) = n) as El by (apply len_nvm_read; lia).
  constructor; cbn [s_mem s_prod s_work s_cons s_leases s_q s_c s_sent s_recv]; try done.
  - rewrite <-Icap. apply agree_ld32. by destruct C as (_ & _ & _ & ? & _).
  - rewrite <-Iprod. apply agree_ld64. destruct C as (_ & _ & _ & _ & A & _). by apply A.
  - rewrite <-Icons. apply agree_ld64. destruct C as (_ & _ & _ & _ & _ & A). by apply A.
  - intros p' w [Np Hw']%lookup_delete_Some. apply Iwork in Hw' as [? ?]. split; [done|]. by eapply changes_work.
  - intros p' a Ha. pose proof Ha as (? & ? & E1 & E2 & E3 & b & E4 & E5)%Ilease. split; [done|]. split; [done|]. unfold lease_ok. split_and!; try done.
    exists b. split; [|done]. rewrite lookup_insert_ne; [done|congruence].
  - intros p' Hin. destruct (decide (p' = p)) as [->|Np].
    + unfold expected. rewrite lookup_delete_eq, Lp, !decide_False by (try (intros [? [=]]); lia). subst m'. apply ld_st64. unfold in_u64. lia.
    + rewrite (changes_generation _ _ _ _ C).
      * rewrite (Igen p' Hin). unfold expected. by rewrite lookup_delete_ne.
      * intros [= E]. apply Np. symmetry. eapply (index_inj q p p'); [lia|lia|done].
  - intros p' Hin Hn'. destruct (decide (p' = p)) as [->|Np].
    + eexists. split; [apply lookup_insert_eq|]. intros _. eapply changes_stored; [exact C|done|done|]. split_and!; cbn [fst snd]; [done|by rewrite El|by rewrite El].
    + rewrite lookup_delete_ne in Hn' by done. destruct (Isent p' Hin Hn') as (msg & E & S). exists msg. rewrite lookup_insert_ne by done.
      split; [done|]. intros U. eapply changes_stored; [exact C|done|done|by apply S].
  - intros p' msg [[-> _]|[Np Hs]]%lookup_insert_Some; [split; [lia|apply lookup_delete_eq]|]. apply Idom in Hs as [? ?].
    split; [done|]. by rewrite lookup_delete_ne.
  - destruct Irecv as [El' Er]. split; [done|]. intros k Hk. rewrite lookup_insert_ne by lia. by apply Er.
Qed.

(** A consumer that finds its generation finds the next message. *)
Lemma inv_found m prod res leases q c sent recv i :
  ring_inv (mk_ring_state m prod res None leases q c sent recv) -> slot_index m R c = Some i -> slot_generation m R i = u64 (c + 1) ->
  i = c mod N /\ c < q /\ c + 1 < 2 ^ 64 /\ exists msg, sent !! c = Some msg /\ stored m c msg.
Proof.
  intros H Ei Eg. open_inv H. destruct (G) as ((? & _) & _). destruct Iwin as (? & ? & ? & _). apply (slot_index_eq _ _ _ Icap) in Ei. subst i.
  rewrite u64_small in Eg by lia. assert (c < q) as Hcq.
  { destruct (decide (c < q)); [done|]. assert (c = q) by lia. rewrite <-index_shift in Eg. rewrite Igen in Eg by lia.
    unfold expected in Eg. repeat case_decide; lia. }
  split_and!; [done|done|lia|]. rewrite Igen in Eg by lia. destruct (res !! c) as [w|] eqn:Rc.
  { unfold expected in Eg. rewrite decide_True in Eg by (by rewrite Rc). lia. }
  destruct (Isent c) as (msg & E & S); [lia|done|]. exists msg. split; [done|]. apply S. left. lia.
Qed.
Lemma inv_take m prod res leases q c sent recv i :
  ring_inv (mk_ring_state m prod res None leases q c sent recv) -> slot_index m R c = Some i -> slot_generation m R i = u64 (c + 1) ->
  let d := load_descriptor m (ring_slot R i + 8) in
  let a := mk_acquired (ring_slot R i) (u64 (c + ld32 m (R + RING_CAPACITY))) d (data_at g i) (d_payload_length d) in
  ring_inv (mk_ring_state m prod res (Some c) (<[c := a]> leases) q (c + 1) sent (recv ++ [(d, nvm_read m (d_payload_length d) (data_at g i))])).
Proof.
  intros H Ei Eg d a. destruct (inv_found _ _ _ _ _ _ _ _ _ H Ei Eg) as (-> & Hcq & Hb & [d0 b] & Es & St & Er & F). cbn [fst snd] in *.
  open_inv H. change d with (descriptor_at m c) in *. subst a. rewrite St in *. pose proof F as (_ & _ & -> & _). rewrite Er.
  destruct (G) as ((? & _) & _). rewrite Icap, u64_small by lia.
  constructor; cbn [s_mem s_prod s_work s_cons s_leases s_q s_c s_sent s_recv]; try done.
  - lia.
  - intros p [= <-]. lia.
  - destruct Iwin as (? & ? & ? & _ & ?). split_and!; try done; lia.
  - intros p w Hw. pose proof Hw as [? ?]%Iwork. split; [|done]. assert (p <> c) by (intros ->; apply Idom in Es as [_ ?]; congruence). lia.
  - intros p a [[-> <-]|[Np Ha]]%lookup_insert_Some.
    + split; [lia|]. split; [lia|]. unfold lease_ok. split_and!; try done. by exists b.
    + apply Ilease in Ha as (? & ? & ?). split_and!; [lia..|done].
  - intros p Hin. rewrite (Igen p Hin). unfold expected. destruct (decide (p = c)) as [->|Np].
    + rewrite lookup_insert_eq. destruct (decide (is_Some (res !! c))); [done|]. rewrite (decide_True (P := is_Some (Some _))) by eauto.
      repeat case_decide; done || lia.
    + rewrite lookup_insert_ne by done. repeat case_decide; done || lia.
  - intros p Hin Hn. destruct (Isent p Hin Hn) as (msg & E & S). exists msg. split; [done|]. intros U.
    destruct (decide (p = c)) as [->|Np]; [apply S; left; lia|]. apply S. destruct U as [U|U]; [left; lia|right]. by rewrite lookup_insert_ne in U.
  - destruct Irecv as [Hl Hr]. rewrite length_app. cbn [length]. split; [lia|]. intros k Hk. destruct (decide (Z.of_nat k = c)) as [E|Nk].
    + rewrite lookup_app_r by lia. replace (k - length recv)%nat with O by lia. by rewrite E, Es.
    + rewrite lookup_app_l by lia. apply Hr. lia.
Qed.
Lemma inv_release m prod res cons leases q c sent recv p a :
  ring_inv (mk_ring_state m prod res cons leases q c sent recv) -> leases !! p = Some a ->
  ring_inv (mk_ring_state (release_slot m a) prod res cons (delete p leases) q c sent recv).
Proof.
  intros H Ha. pose proof H as H'. open_inv H. pose proof Ha as (Hp & Hw & Es & Eg & _ & _)%Ilease. unfold release_slot. rewrite Es, Eg.
  pose proof (change_generation m (p mod N) (p + N) (index_bounds p)) as C. destruct (G) as ((? & _) & _).
  set (m' := store_generation _ _ _) in *.
  assert (res !! p = None) as Rp by (apply eq_None_not_Some; intros [w [? _]%Iwork]; lia).
  constructor; cbn [s_mem s_prod s_work s_cons s_leases s_q s_c s_sent s_recv]; try done.
  - rewrite <-Icap. apply agree_ld32. by destruct C as (_ & _ & _ & ? & _).
  - rewrite <-Iprod. apply agree_ld64. destruct C as (_ & _ & _ & _ & A & _). by apply A.
  - rewrite <-Icons. apply agree_ld64. destruct C as (_ & _ & _ & _ & _ & A). by apply A.
  - intros p' w Hw'. apply Iwork in Hw' as [? ?]. split; [done|]. by eapply changes_work.
  - intros p' a' [Np Ha']%lookup_delete_Some. by apply Ilease.
  - intros p' Hin. destruct (decide (p' = p)) as [->|Np].
    + unfold expected. rewrite Rp, lookup_delete_eq. rewrite !decide_False by (intros [? [=]]). rewrite decide_True by lia.
      subst m'. apply ld_st64. unfold in_u64. lia.
    + rewrite (changes_generation _ _ _ _ C).
      * rewrite (Igen p' Hin). unfold expected. by rewrite lookup_delete_ne.
      * intros [= E]. apply Np. symmetry. eapply (index_inj q p p'); [lia|lia|done].
  - intros p' Hin Hn. destruct (Isent p' Hin Hn) as (msg & E & S). exists msg. split; [done|]. intros U.
    eapply changes_stored; [exact C|done|done|]. apply S. destruct U as [U|U]; [by left|right].
    destruct (decide (p' = p)) as [->|Np]; [by rewrite lookup_delete_eq in U; destruct U|by rewrite lookup_delete_ne in U].
Qed.

Lemma place_fits d n p : of_session g d -> 0 <= n <= g_size g -> 0 <= p < 2 ^ 64 ->
  let d' := place_descriptor d (p mod N) n p in descriptor_ok d' /\ fits d' p n.
Proof.
  intros (Hd & E1 & E2 & E3) Hn Hp d'. destruct (G) as ((? & Hm) & (_ & Hs) & _). unfold kMaxRingCapacity, kMaxDataSlotSize in *.
  pose proof (index_bounds p) as Hi. split; [apply place_descriptor_ok; unfold in_u32, in_u64; done || lia|].
  subst d'. destruct d. cbn in E1, E2, E3. unfold fits, bad_layout, is_stale. cbn. rewrite E1, E2, E3, !Z.eqb_refl, u32_small by lia. cbn.
  split_and!; try done; try lia.
Qed.
Lemma inv_initial s : initial_ring g s -> ring_inv s.
Proof.
  intros (m & -> & Hh & Hs). destruct (G) as ((? & Hm) & _). unfold kMaxRingCapacity in Hm.
  constructor; cbn [s_mem s_prod s_work s_cons s_leases s_q s_c s_sent s_recv]; try done; try lia.
  - by field Hh; lia.
  - by field Hh.
  - by field Hh.
  - split_and!; done || lia.
  - intros p Hp. unfold expected. rewrite !lookup_empty, !decide_False by (intros [? [=]]). rewrite decide_True by lia.
    assert (p mod N = p + N) as -> by (rewrite <-(Z_mod_plus_full p 1 N); rewrite Z.mod_small; lia).
    pose proof (Hs (p + N) ltac:(lia)) as E. unfold slot_generation. replace (ring_slot R (p + N)) with (ring_slot R (p + N) + 0) by lia.
    field E. lia.
Qed.
Lemma inv_step s s' : ring_inv s -> ring_step g s s' -> ring_inv s'.
Proof.
  destruct (G) as ((HN & HM) & _). unfold kMaxRingCapacity in HM. intros H St. destruct St.
  - by apply inv_claim.
  - match goal with E : res !! p = Some (Filling i) |- _ => rename E into Hw end. pose proof (proj2 (i_work _ H _ _ Hw)) as Hok. cbn in Hok.
    rewrite <-(insert_id res p (Filling i)) by done. eapply inv_slot_write; [done|done|by apply change_payload; [rewrite Hok; apply index_bounds|..]| |done].
    left. by rewrite Hok.
  - match goal with E : res !! p = Some (Filling i) |- _ => rename E into Hw end. pose proof (i_work _ H _ _ Hw) as [Hp Hok]. cbn in Hok, Hp.
    pose proof (i_window _ H) as W. cbn in W. destruct (place_fits d n p) as [Hd F]; [done|done|lia|]. subst d'. rewrite Hok in *.
    eapply inv_slot_write; [done|done|apply change_descriptor, index_bounds|by right|]. cbn. split_and!; [done|by apply load_store_descriptor|done].
  - by apply inv_publish.
  - pose proof (i_window _ H) as W. pose proof (i_claimed _ H p eq_refl) as E. cbn in W, E.
    eapply inv_cursors; [done|apply change_producer|done|..].
    + subst p. rewrite u64_small by lia. rewrite ld_st64 by (unfold in_u64; lia). lia.
    + done.
    + etrans; [apply agree_ld64; by apply change_producer|apply (i_consumer _ H)].
    + intros p' E'. split; [by apply (i_taken _ H)|]. apply W. by rewrite E'.
  - pose proof (i_consumer _ H) as E. cbn in E. subst p. subst d a. rewrite E in *. by apply inv_take.
  - by apply inv_release.
  - pose proof (i_window _ H) as W. pose proof (i_taken _ H p eq_refl) as E. cbn in W, E.
    eapply inv_cursors; [done|apply change_consumer|done|..].
    + etrans; [apply agree_ld64; by apply change_consumer|apply (i_producer _ H)].
    + intros p' E'. split; [by apply (i_claimed _ H)|]. apply W. by rewrite E'.
    + subst p. rewrite u64_small by lia. rewrite ld_st64 by (unfold in_u64; lia). lia.
    + done.
  - pose proof (i_window _ H) as W. cbn in W. eapply inv_cursors; [done|by apply change_other|done|..].
    + etrans; [apply agree_ld64; by apply change_other|apply (i_producer _ H)].
    + intros p' E'. split; [by apply (i_claimed _ H)|]. apply W. by rewrite E'.
    + etrans; [apply agree_ld64; by apply change_other|apply (i_consumer _ H)].
    + intros p' E'. split; [by apply (i_taken _ H)|]. apply W. by rewrite E'.
Qed.
Lemma inv_rtc s s' : ring_inv s -> rtc (ring_step g) s s' -> ring_inv s'.
Proof. intros H St. induction St; [done|]. eauto using inv_step. Qed.
Lemma inv_reachable s : ring_reachable g s -> ring_inv s.
Proof. intros (s0 & H0 & St). eapply inv_rtc; [by apply inv_initial|done]. Qed.

(** ** The operations are sequences of steps *)

Definition in_use (s : ring_state) (p : Z) : Prop := is_Some (s_work s !! p) \/ is_Some (s_leases s !! p) \/ s_c s <= p.
Lemma free_slot s : ring_inv s -> slot_generation (s_mem s) R (s_q s mod N) = s_q s <-> ~ in_use s (s_q s - N).
Proof.
  intros H. destruct (G) as ((? & _) & _). rewrite <-index_shift, (i_generation _ H) by lia. unfold expected, in_use.
  destruct (decide (is_Some (s_work s !! _))) as [W|W]; [split; [lia|tauto]|].
  destruct (decide (is_Some (s_leases s !! _))) as [L|L]; [split; [lia|tauto]|].
  destruct (decide (s_q s - N < s_c s)).
  - split; [intros _ [?|[?|?]]; [done|done|lia]|lia].
  - split; [lia|]. intros F. exfalso. apply F. right. right. lia.
Qed.
Lemma busy_slot s : ring_inv s -> slot_generation (s_mem s) R (s_q s mod N) <> s_q s -> in_use s (s_q s - N).
Proof.
  intros H Ng. destruct (decide (is_Some (s_work s !! (s_q s - N)))) as [?|NW]; [by left|].
  destruct (decide (is_Some (s_leases s !! (s_q s - N)))) as [?|NL]; [by right; left|]. destruct (decide (s_c s <= s_q s - N)); [by right; right|].
  exfalso. apply Ng, free_slot; [done|]. by intros [?|[?|?]].
Qed.
Lemma slot_index_inv s p : ring_inv s -> slot_index (s_mem s) R p = Some (p mod N).
Proof.
  intros H. destruct (G) as ((? & _) & _). unfold slot_index. rewrite (i_capacity _ H). destruct (Z.eqb_spec N 0); [lia|done].
Qed.
Lemma push_steps m res cons leases q c sent recv d payload tail :
  let s := mk_ring_state m None res cons leases q c sent recv in
  ring_inv s -> of_session g d -> q + N < 2 ^ 64 -> ~ in_use s (q - N) -> len payload + len tail <= g_size g ->
  let i := q mod N in
  let d' := place_descriptor d i (len payload + len tail) q in
  let m1 := store_descriptor (store_payload m (data_at g i) payload tail) (ring_slot R i) d' in
  let m2 := st64 (store_generation m1 (ring_slot R i) (u64 (q + 1))) (R + RING_PRODUCER) (u64 (q + 1)) in
  rtc (ring_step g) s (mk_ring_state m2 None res cons leases (q + 1) c (<[q := (d', payload ++ tail)]> sent) recv).
Proof.
  intros s H Hd Hb Hf Hn i d' m1 m2. pose proof (len_nonneg payload). pose proof (len_nonneg tail).
  assert (res !! q = None) as Rq by (apply eq_None_not_Some; intros [w [? _]%(i_work _ H)]; cbn in *; lia).
  assert (nvm_read m1 (len payload + len tail) (data_at g i) = payload ++ tail) as Er.
  { subst m1 i. rewrite (changes_payload _ _ _ _ _ (change_descriptor _ _ _ (index_bounds q))) by (done || lia).
    unfold store_payload. rewrite <-nvm_write_app, <-len_app. apply nvm_read_write_same. }
  eapply rtc_l; [apply step_claim with (p := q) (i := i); [apply (i_producer _ H)|by apply (slot_index_inv s)|by apply (free_slot s)|done]|].
  eapply rtc_l; [apply step_fill with (p := q) (i := i) (off := 0) (b := payload); [apply lookup_insert_eq|lia|lia]|]. rewrite Z.add_0_r.
  eapply rtc_l; [apply step_fill with (p := q) (i := i) (off := len payload) (b := tail); [apply lookup_insert_eq|lia|lia]|].
  eapply rtc_l; [apply step_place with (p := q) (i := i) (d := d) (n := len payload + len tail); [apply lookup_insert_eq|done|lia]|].
  eapply rtc_l; [apply step_publish with (p := q) (i := i); apply lookup_insert_eq|].
  eapply rtc_l; [apply step_produced|]. fold (store_payload m (data_at g i) payload tail). fold d'. fold m1.
  rewrite insert_insert_eq, delete_insert_id by done. rewrite Er. done.
Qed.

Lemma next_message m prod res leases q c sent recv :
  let s := mk_ring_state m prod res None leases q c sent recv in
  ring_inv s -> slot_generation m R (c mod N) = u64 (c + 1) <-> is_Some (sent !! c).
Proof.
  intros s H. split.
  - intros E. destruct (inv_found _ _ _ _ _ _ _ _ _ H (slot_index_inv s c H) E) as (_ & _ & _ & msg & -> & _). by eexists.
  - intros [msg Hs]. pose proof (i_window _ H) as W. apply (i_sent_dom _ H) in Hs as [Hin Hn]. cbn in W, Hin, Hn. destruct (G) as ((? & _) & _).
    rewrite u64_small by lia. rewrite (i_generation _ H) by (cbn; lia). unfold expected. subst s. cbn [s_work s_leases s_c]. rewrite Hn.
    rewrite !decide_False; [done|cbn; lia| |by intros [? [=]]]. intros [a (? & _)%(i_leases _ H)]. cbn in *. lia.
Qed.
Lemma take_steps m prod res leases q c sent recv d b :
  let s := mk_ring_state m prod res None leases q c sent recv in
  ring_inv s -> sent !! c = Some (d, b) ->
  let a := mk_acquired (ring_slot R (c mod N)) (u64 (c + N)) d (data_at g (c mod N)) (len b) in
  load_descriptor m (ring_slot R (c mod N) + 8) = d /\ nvm_read m (len b) (data_at g (c mod N)) = b /\ fits d c (len b) /\
  ring_step g s (mk_ring_state m prod res (Some c) (<[c := a]> leases) q (c + 1) sent (recv ++ [(d, b)])).
Proof.
  intros s H Hs a. assert (slot_generation m R (c mod N) = u64 (c + 1)) as Eg by (apply (next_message m prod res leases q c sent recv H); by eexists).
  destruct (inv_found _ _ _ _ _ _ _ _ _ H (slot_index_inv s c H) Eg) as (_ & _ & _ & msg & Es & Ed & Er & F).
  pose proof (eq_trans (eq_sym Hs) Es) as [= <-]. cbn [fst snd] in *. split_and!; [done..|].
  pose proof F as (Hb & Hst & Hl & _).
  pose proof (step_take g m prod res leases q c sent recv c (c mod N) (i_consumer _ H) (slot_index_inv s c H) Eg) as St. cbn zeta in St.
  change (load_descriptor m (ring_slot R (c mod N) + 8)) with (descriptor_at m c) in St. assert (ld32 m (R + RING_CAPACITY) = N) as Ec by apply (i_capacity _ H).
  rewrite Ed, Hl, Er, Ec in St. by apply St.
Qed.
End Ring.

(** ** The queue a ring implements *)

(** Positions in the order they were claimed, each with its message once it is published,
    and the messages delivered so far. *)
Record queue := mk_queue { q_positions : list (option message); q_delivered : list message }.
Inductive queue_step : queue -> queue -> Prop :=
| queue_claim positions delivered : queue_step (mk_queue positions delivered) (mk_queue (positions ++ [None]) delivered)
| queue_publish positions delivered n msg :
    positions !! n = Some None -> queue_step (mk_queue positions delivered) (mk_queue (<[n := Some msg]> positions) delivered)
| queue_deliver positions delivered msg :
    positions !! length delivered = Some (Some msg) -> queue_step (mk_queue positions delivered) (mk_queue positions (delivered ++ [msg])).
Definition positions_of (sent : gmap Z message) (q : Z) : list (option message) := map (fun i => sent !! Z.of_nat i) (seq 0 (Z.to_nat q)).
Definition queue_of (s : ring_state) : queue := mk_queue (positions_of (s_sent s) (s_q s)) (s_recv s).

Lemma positions_lookup sent q n : Z.of_nat n < q -> positions_of sent q !! n = Some (sent !! Z.of_nat n).
Proof.
  intros H. unfold positions_of. etrans; [apply list_lookup_fmap|]. by rewrite lookup_seq_lt by lia.
Qed.
Lemma positions_claim sent q : 0 <= q -> sent !! q = None -> positions_of sent (q + 1) = positions_of sent q ++ [None].
Proof.
  intros Hq E. unfold positions_of. replace (Z.to_nat (q + 1)) with (S (Z.to_nat q)) by lia. rewrite seq_S, map_app. cbn [map Nat.add].
  by rewrite Z2Nat.id, E by done.
Qed.
Lemma positions_publish sent q p msg : 0 <= p < q -> positions_of (<[p := msg]> sent) q = <[Z.to_nat p := Some msg]> (positions_of sent q).
Proof.
  intros Hp. apply list_eq. intros n. destruct (decide (Z.of_nat n < q)) as [L|L].
  - rewrite positions_lookup by done. destruct (decide (n = Z.to_nat p)) as [->|Np].
    + rewrite list_lookup_insert_eq by (unfold positions_of; rewrite length_map, length_seq; lia). by rewrite Z2Nat.id, lookup_insert_eq by lia.
    + rewrite list_lookup_insert_ne by done. rewrite positions_lookup by done. by rewrite lookup_insert_ne by lia.
  - rewrite !lookup_ge_None_2; [done|rewrite length_insert|]; unfold positions_of; rewrite length_map, length_seq; lia.
Qed.
Lemma step_refines g s s' : geometry_ok g -> ring_inv g s -> ring_step g s s' -> queue_of s' = queue_of s \/ queue_step (queue_of s) (queue_of s').
Proof.
  intros G H St. pose proof (i_window _ _ H) as W. destruct St; try (left; reflexivity); right; unfold queue_of; cbn [s_sent s_q s_recv] in *.
  - rewrite positions_claim; [constructor|cbn in W; lia|]. apply eq_None_not_Some. intros [msg [? _]%(i_sent_dom _ _ H)]. cbn in *. lia.
  - match goal with E : res !! p = Some _ |- _ => rename E into Hw end. pose proof (i_work _ _ H _ _ Hw) as [Hp _]. cbn in Hp, W.
    rewrite positions_publish by lia. constructor. rewrite positions_lookup, Z2Nat.id by lia. f_equal.
    apply eq_None_not_Some. intros [msg [_ ?]%(i_sent_dom _ _ H)]. cbn in *. congruence.
  - pose proof (i_consumer _ _ H) as E. cbn in E. subst p. subst d a. rewrite E in *.
    match goal with E : slot_index _ _ _ = Some _, F : slot_generation _ _ _ = _ |- _ => rename E into Hi; rename F into Hg end.
    destruct (inv_found g G _ _ _ _ _ _ _ _ _ H Hi Hg) as (-> & Hcq & _ & msg & Es & Ed & Er & F). destruct (i_recv _ _ H) as [Hl _]. cbn in Hl.
    change (load_descriptor m (ring_slot (g_ring g) (c mod g_capacity g) + 8)) with (descriptor_at g m c). rewrite Ed.
    destruct F as (_ & _ & Hn & _). rewrite Hn, Er. constructor. rewrite positions_lookup by lia. rewrite Hl. f_equal. rewrite Es. by destruct msg.
Qed.

(** ** Operations on a running ring *)

Section Operations.
Context (g : geometry) (G : geometry_ok g).
Abbreviation R := (g_ring g).
Abbreviation N := (g_capacity g).

(** One outcome of a producer's operation: nothing changes but the ring, by steps. *)
Definition producer_run (s s' : ring_state) : Prop :=
  rtc (ring_step g) s s' /\ s_prod s' = None /\ s_q s' = s_q s + 1 /\ s_c s' = s_c s /\ s_recv s' = s_recv s /\ s_leases s' = s_leases s /\
  s_cons s' = s_cons s.
Definition consumer_run (s s' : ring_state) : Prop :=
  rtc (ring_step g) s s' /\ s_cons s' = None /\ s_c s' = s_c s + 1 /\ s_q s' = s_q s /\ s_sent s' = s_sent s /\ s_work s' = s_work s /\
  s_prod s' = s_prod s.

Lemma try_push_run s d payload tail : ring_inv g s -> s_prod s = None -> of_session g d -> s_q s + N < 2 ^ 64 ->
  let push := try_push (s_mem s) R d payload tail (g_data g) (g_size g) in
  (in_use s (s_q s - N) /\ push = Some (Some (transport would_block), s_mem s)) \/
  (~ in_use s (s_q s - N) /\ g_size g < len payload + len tail /\ push = Some (Some (errc EMSGSIZE), s_mem s)) \/
  (~ in_use s (s_q s - N) /\ len payload + len tail <= g_size g /\ exists s', push = Some (None, s_mem s') /\ producer_run s s' /\ s_work s' = s_work s /\
     s_sent s' = <[s_q s := (place_descriptor d (s_q s mod N) (len payload + len tail) (s_q s), payload ++ tail)]> (s_sent s)).
Proof.
  intros H Hp Hd Hb push. subst push. unfold try_push. pose proof (i_producer _ _ H) as E. rewrite Hp in E.
  rewrite E, (slot_index_inv g G s _ H). pose proof (free_slot g G s H) as F.
  destruct (Z.eqb_spec (slot_generation (s_mem s) R (s_q s mod N)) (s_q s)) as [Eg|Ng]; cbn [negb].
  2: { left. split; [by apply busy_slot|done]. }
  right. pose proof (proj1 F Eg) as Hf. pose proof (len_nonneg payload). pose proof (len_nonneg tail).
  destruct (Z.ltb_spec (g_size g) (len payload + len tail)) as [L|L]; [left|right].
  - split_and!; [done|done|]. replace (_ || _) with true; [done|]. symmetry. apply orb_true_iff. rewrite !Z.ltb_lt. lia.
  - split_and!; [done|done|]. rewrite (proj2 (Z.ltb_ge _ _)), (proj2 (Z.ltb_ge _ _)) by lia. cbn [orb].
    destruct s as [m prod res cons leases q c sent recv]. cbn [s_mem s_prod s_work s_cons s_leases s_q s_c s_sent s_recv] in *. subst prod.
    pose proof (push_steps g G m res cons leases q c sent recv d payload tail H Hd Hb Hf L) as St. cbn zeta in St.
    match type of St with rtc _ _ ?s' => exists s' end. split; [reflexivity|]. split; [|done]. split_and!; [exact St|done..].
Qed.
Lemma try_reserve_run s : ring_inv g s -> s_prod s = None -> s_q s + N < 2 ^ 64 ->
  let reserve := try_reserve (s_mem s) R (g_data g) (g_size g) in
  (in_use s (s_q s - N) /\ reserve = Some (inl (transport would_block), s_mem s)) \/
  (~ in_use s (s_q s - N) /\ exists s', producer_run s s' /\ s_sent s' = s_sent s /\ s_work s' = <[s_q s := Filling (s_q s mod N)]> (s_work s) /\
     reserve = Some (inr (mk_reserved (ring_slot R (s_q s mod N)) (data_at g (s_q s mod N)) (s_q s)), s_mem s')).
Proof.
  intros H Hp Hb reserve. subst reserve. unfold try_reserve. pose proof (i_producer _ _ H) as E. rewrite Hp in E.
  rewrite E, (slot_index_inv g G s _ H). pose proof (free_slot g G s H) as F.
  destruct (Z.eqb_spec (slot_generation (s_mem s) R (s_q s mod N)) (s_q s)) as [Eg|Ng]; cbn [negb].
  2: { left. split; [by apply busy_slot|done]. }
  right. split; [by apply F|]. pose proof (slot_index_inv g G s (s_q s) H) as Ei.
  destruct s as [m prod res cons leases q c sent recv]. cbn [s_mem s_prod s_work s_cons s_leases s_q s_c s_sent s_recv] in *. subst prod.
  pose proof (step_claim g m res cons leases q c sent recv q (q mod N) E Ei Eg Hb) as S1.
  pose proof (step_produced g m (<[q := Filling (q mod N)]> res) cons leases (q + 1) c sent recv q) as S2.
  match type of S2 with ring_step _ _ ?s' => exists s' end. split_and!; [|done..]. split_and!; [|done..].
  by eapply rtc_l, rtc_once.
Qed.

Lemma no_message s : ring_inv g s -> s_cons s = None -> s_sent s !! s_c s = None -> (slot_generation (s_mem s) R (s_c s mod N) =? u64 (s_c s + 1)) = false.
Proof.
  intros H Hc Hs. apply Z.eqb_neq. destruct s. cbn in *. subst. rewrite (next_message g G _ _ _ _ _ _ _ _ H). by rewrite Hs; intros [? [=]].
Qed.
Lemma a_message s d b : ring_inv g s -> s_cons s = None -> s_sent s !! s_c s = Some (d, b) ->
  (slot_generation (s_mem s) R (s_c s mod N) =? u64 (s_c s + 1)) = true /\ load_descriptor (s_mem s) (ring_slot R (s_c s mod N) + 8) = d /\
  nvm_read (s_mem s) (len b) (data_at g (s_c s mod N)) = b /\ fits g d (s_c s) (len b).
Proof.
  intros H Hc Hs. destruct s. cbn in *. subst. split; [apply Z.eqb_eq, (next_message g G _ _ _ _ _ _ _ _ H); by eexists|].
  by destruct (take_steps g G _ _ _ _ _ _ _ _ _ _ H Hs) as (? & ? & ? & _).
Qed.
(** What a lease points to is the message. *)
Lemma lease_payload s p d b : ring_inv g s -> is_Some (s_leases s !! p) -> s_sent s !! p = Some (d, b) ->
  nvm_read (s_mem s) (len b) (data_at g (p mod N)) = b.
Proof.
  intros H L Hs. pose proof Hs as [Hp Hn]%(i_sent_dom _ _ H). destruct (i_sent _ _ H p Hp Hn) as (msg & E & St).
  pose proof (eq_trans (eq_sym Hs) E) as [= <-]. apply St. by right.
Qed.
Definition acquired_at (c : Z) (d : IpcDescriptor) (b : list Z) : AcquiredSlotData :=
  mk_acquired (ring_slot R (c mod N)) (u64 (c + N)) d (data_at g (c mod N)) (len b).
Lemma try_acquire_run s : ring_inv g s -> s_cons s = None ->
  let acquire := try_acquire (s_mem s) R (g_data g) (g_size g) (g_client g) (g_session g) in
  match s_sent s !! s_c s with
  | None => acquire = Some (inl (transport would_block), s_mem s)
  | Some (d, b) => exists s', consumer_run s s' /\ s_recv s' = s_recv s ++ [(d, b)] /\ s_leases s' = <[s_c s := acquired_at (s_c s) d b]> (s_leases s) /\
      acquire = Some (inr (acquired_at (s_c s) d b), s_mem s')
  end.
Proof.
  intros H Hc acquire. subst acquire. unfold try_acquire. pose proof (i_consumer _ _ H) as E. rewrite Hc in E.
  rewrite E, (slot_index_inv g G s _ H). destruct (s_sent s !! s_c s) as [[d b]|] eqn:Hs; [|by rewrite no_message].
  destruct (a_message s d b H Hc Hs) as (-> & -> & Er & F). pose proof F as (-> & -> & -> & _). cbn [negb orb]. cbn zeta.
  rewrite (agree_ld32 (s_mem s)) by (by apply change_consumer). rewrite (i_capacity _ _ H).
  destruct s as [m prod res cons leases q c sent recv]. cbn [s_mem s_prod s_work s_cons s_leases s_q s_c s_sent s_recv] in *. subst cons.
  destruct (take_steps g G _ _ _ _ _ _ _ _ _ _ H Hs) as (_ & _ & _ & S1). fold (acquired_at c d b) in S1.
  pose proof (step_consumed g m prod res (<[c := acquired_at c d b]> leases) q (c + 1) sent (recv ++ [(d, b)]) c) as S2.
  match type of S2 with ring_step _ _ ?s' => exists s' end. split_and!; [|done..]. split_and!; [|done..]. by eapply rtc_l, rtc_once.
Qed.
Lemma try_pop_run s buffer_size : ring_inv g s -> s_cons s = None ->
  let pop := try_pop (s_mem s) R buffer_size (g_data g) (g_size g) (g_client g) (g_session g) in
  match s_sent s !! s_c s with
  | None => pop = Some (mk_popped (Some (transport would_block)) None 0 [] (s_mem s))
  | Some (d, b) =>
      if buffer_size <? len b then pop = Some (mk_popped (Some (transport buffer_too_small)) None (len b) [] (s_mem s))
      else exists s', consumer_run s s' /\ s_recv s' = s_recv s ++ [(d, b)] /\ s_leases s' = s_leases s /\
        pop = Some (mk_popped None (Some d) (len b) b (s_mem s'))
  end.
Proof.
  intros H Hc pop. subst pop. unfold try_pop. pose proof (i_consumer _ _ H) as E. rewrite Hc in E.
  rewrite E, (slot_index_inv g G s _ H). destruct (s_sent s !! s_c s) as [[d b]|] eqn:Hs; [|by rewrite no_message].
  destruct (a_message s d b H Hc Hs) as (-> & -> & Er & F). pose proof F as (-> & -> & -> & _). cbn [negb andb]. cbn zeta.
  destruct (buffer_size <? len b); [done|]. rewrite (i_capacity _ _ H).
  assert ((if negb (len b =? 0) then nvm_read (s_mem s) (len b) (slot_data (g_data g) (g_size g) (s_c s mod N)) else []) = b) as ->.
  { destruct (Z.eqb_spec (len b) 0) as [E0|_]; [|exact Er]. destruct b; [done|]. rewrite len_cons in E0. pose proof (len_nonneg b). lia. }
  assert (s_leases s !! s_c s = None) as Ln by (apply eq_None_not_Some; intros [a (? & _)%(i_leases _ _ H)]; lia).
  destruct s as [m prod res cons leases q c sent recv]. cbn [s_mem s_prod s_work s_cons s_leases s_q s_c s_sent s_recv] in *. subst cons.
  destruct (take_steps g G _ _ _ _ _ _ _ _ _ _ H Hs) as (_ & _ & _ & S1). fold (acquired_at c d b) in S1.
  pose proof (step_release g m prod res (Some c) (<[c := acquired_at c d b]> leases) q (c + 1) sent (recv ++ [(d, b)]) c (acquired_at c d b) (lookup_insert_eq _ _ _)) as S2.
  rewrite delete_insert_id in S2 by done.
  pose proof (step_consumed g (release_slot m (acquired_at c d b)) prod res leases q (c + 1) sent (recv ++ [(d, b)]) c) as S3.
  match type of S3 with ring_step _ _ ?s' => exists s' end. split_and!; [|done..]. split_and!; [|done..]. by eapply rtc_l, rtc_l, rtc_once.
Qed.

(** A reservation of position [p] of this ring. *)
Definition reserves (r : CompletionReservation) (p : Z) : Prop :=
  r = mk_reservation (Some (ring_slot R (p mod N))) (Some (data_at g (p mod N))) (g_size g) p N (g_client g) (g_session g).
Lemma response_of_session d : descriptor_ok d -> of_session g (response_of d (g_client g) (g_session g)).
Proof.
  intros (A1 & A2 & A3 & A4 & A5 & A6 & A7 & A8 & A9 & A10 & A11 & A12 & A13 & A14 & A15). destruct (G) as (_ & _ & _ & ? & ?). destruct d.
  cbn in A1, A2, A3, A4, A5, A6, A7, A8, A9, A10, A11, A12, A13, A14, A15. unfold of_session. split_and!; try done.
  unfold descriptor_ok. cbn. split_and!; try done; try lia. by apply in_u16_land, in_u16_lor.
Qed.
Lemma publish_run s r p d n signal : s_work s !! p = Some (Filling (p mod N)) -> reserves r p -> descriptor_ok d -> d_request_id d <> 0 ->
  0 <= n <= g_size g ->
  exists s', publish (s_mem s) r d n signal = (signal, drop_slot r, s_mem s') /\ rtc (ring_step g) s s' /\ s_work s' = delete p (s_work s) /\
    s_sent s' = <[p := (place_descriptor (response_of d (g_client g) (g_session g)) (p mod N) n p, nvm_read (s_mem s) n (data_at g (p mod N)))]> (s_sent s).
Proof.
  intros Hw -> Hd Hr Hn. unfold publish. cbn [c_slot c_payload_capacity c_client_id c_session_generation c_position c_ring_capacity].
  rewrite (proj2 (Z.eqb_neq _ _) Hr), (proj2 (Z.ltb_ge _ _)) by lia. cbn [orb].
  destruct s as [m prod res cons leases q c sent recv]. cbn [s_mem s_prod s_work s_cons s_leases s_q s_c s_sent s_recv] in *.
  pose proof (step_place g m prod res cons leases q c sent recv p (p mod N) _ n Hw (response_of_session d Hd) Hn) as S1. cbn zeta in S1.
  match type of S1 with ring_step _ _ (mk_ring_state ?m1 _ ?res1 _ _ _ _ _ _) =>
    pose proof (step_publish g m1 prod res1 cons leases q c sent recv p (p mod N) _ n (lookup_insert_eq _ _ _)) as S2 end.
  rewrite delete_insert_eq in S2. rewrite (changes_payload g G _ _ _ _ _ (change_descriptor g G m (p mod N) _ (index_bounds g G p))) in S2 by (done || lia).
  match type of S2 with ring_step _ _ ?s' => exists s' end. split_and!; [done| |done|done]. by eapply rtc_l, rtc_once.
Qed.
End Operations.

(** ** Theorems *)

Definition demo_geometry : geometry := mk_geometry 0 4096 2 100 7 9.
Lemma demo_geometry_ok : geometry_ok demo_geometry.
Proof. split_and!; try done; [left|..]; done. Qed.
Definition demo_ring : ring_state := mk_ring_state (initialize_ring (fun _ => 0) 0 2) None ∅ None ∅ 0 0 ∅ [].
Lemma demo_ring_reachable : ring_reachable demo_geometry demo_ring.
Proof. exists demo_ring. split; [|done]. eexists. split; [done|]. by apply initialize_ring_ready. Qed.

(** Slots have one owner.  In every reachable state of a ring two positions that are
    being filled, published or held by the consumer never share a slot, there are at most
    [capacity] of them, and a slot the consumer holds still has the message that was
    delivered: its descriptor, and the payload bytes it was handed a pointer to. *)
Theorem ring_slots_exclusive (g : geometry) (G : geometry_ok g) (s : ring_state) (H : ring_reachable g s) :
  (forall p p', s_c s <= p < s_q s \/ is_Some (s_leases s !! p) -> s_c s <= p' < s_q s \/ is_Some (s_leases s !! p') -> p <> p' ->
     p mod g_capacity g <> p' mod g_capacity g) /\
  (forall p, is_Some (s_work s !! p) -> s_c s <= p < s_q s) /\ s_q s - s_c s <= g_capacity g /\
  (forall p a, s_leases s !! p = Some a ->
     load_descriptor (s_mem s) (a_slot a + 8) = a_descriptor a /\
     s_recv s !! Z.to_nat p = Some (a_descriptor a, nvm_read (s_mem s) (a_payload_length a) (a_payload a))).
Proof.
  apply (inv_reachable g G) in H. pose proof (i_window _ _ H) as W. split_and!.
  - destruct s as [m prod res cons leases q c sent recv]. intros p p' U U' N E. apply N.
    eapply (index_inj g G q); [eapply in_use_window; [exact H|exact U]|eapply in_use_window; [exact H|exact U']|done].
  - intros p [w [? _]%(i_work _ _ H)]. lia.
  - lia.
  - intros p a Ha. pose proof Ha as (Hp & Hw & E1 & _ & E3 & b & E4 & E5)%(i_leases _ _ H).
    destruct (i_sent _ _ H p) as (msg & Es & St); [lia|exact (proj2 (i_sent_dom _ _ H _ _ E4))|].
    destruct St as (Ed & Er & F); [right; by rewrite Ha|]. pose proof (eq_trans (eq_sym E4) Es) as [= <-]. cbn [fst snd] in *.
    rewrite E1, E3, E5, Er. split; [done|]. destruct (i_recv _ _ H) as [_ R]. rewrite R by lia. rewrite Z2Nat.id by lia. done.
Qed.
Lemma ring_slots_exclusive_witness : s_q demo_ring - s_c demo_ring <= g_capacity demo_geometry.
Proof. apply (ring_slots_exclusive demo_geometry demo_geometry_ok demo_ring demo_ring_reachable). Defined.

(** A producer's operation succeeds exactly when the slot of its position is free.
    [try_push] then runs as steps of the ring that publish the descriptor and the two
    parts of the payload, one after the other, at the next position; a message too long
    is refused with the ring unchanged; while the slot is in use it reports that it would
    block, also with the ring unchanged.  [try_reserve] claims the next position under
    the same condition, and publishing a reservation delivers the bytes its slot holds. *)
Theorem producer_operations (g : geometry) (G : geometry_ok g) (s : ring_state) (d : IpcDescriptor) (payload tail : list Z)
    (H : ring_reachable g s) (Hp : s_prod s = None) (Hd : of_session g d) (Hb : s_q s + g_capacity g < 2 ^ 64) :
  (let push := try_push (s_mem s) (g_ring g) d payload tail (g_data g) (g_size g) in
   (in_use s (s_q s - g_capacity g) /\ push = Some (Some (transport would_block), s_mem s)) \/
   (~ in_use s (s_q s - g_capacity g) /\ g_size g < len payload + len tail /\ push = Some (Some (errc EMSGSIZE), s_mem s)) \/
   (~ in_use s (s_q s - g_capacity g) /\ len payload + len tail <= g_size g /\ exists s', push = Some (None, s_mem s') /\ producer_run g s s' /\
      s_work s' = s_work s /\
      s_sent s' = <[s_q s := (place_descriptor d (s_q s mod g_capacity g) (len payload + len tail) (s_q s), payload ++ tail)]> (s_sent s))) /\
  (let reserve := try_reserve (s_mem s) (g_ring g) (g_data g) (g_size g) in
   (in_use s (s_q s - g_capacity g) /\ reserve = Some (inl (transport would_block), s_mem s)) \/
   (~ in_use s (s_q s - g_capacity g) /\ exists s', producer_run g s s' /\ s_sent s' = s_sent s /\
      s_work s' = <[s_q s := Filling (s_q s mod g_capacity g)]> (s_work s) /\
      reserve = Some (inr (mk_reserved (ring_slot (g_ring g) (s_q s mod g_capacity g)) (data_at g (s_q s mod g_capacity g)) (s_q s)), s_mem s'))) /\
  (forall r p n signal, s_work s !! p = Some (Filling (p mod g_capacity g)) -> reserves g r p -> d_request_id d <> 0 -> 0 <= n <= g_size g ->
   exists s', publish (s_mem s) r d n signal = (signal, drop_slot r, s_mem s') /\ rtc (ring_step g) s s' /\ s_work s' = delete p (s_work s) /\
     s_sent s' = <[p := (place_descriptor (response_of d (g_client g) (g_session g)) (p mod g_capacity g) n p,
                         nvm_read (s_mem s) n (data_at g (p mod g_capacity g)))]> (s_sent s)).
Proof.
  pose proof (inv_reachable g G s H) as I. split_and!.
  - by apply try_push_run.
  - by apply try_reserve_run.
  - intros r p n signal Hw Hr Hq Hn. apply publish_run; try done. by destruct Hd.
Qed.
Definition demo_descriptor : IpcDescriptor := mk_descriptor 7 9 5 0 0 0 0 1 0 0 0 0 6 1 0.
Lemma producer_operations_witness : exists s', rtc (ring_step demo_geometry) demo_ring s' /\ s_q s' = 1.
Proof.
  assert (of_session demo_geometry demo_descriptor) as Hd by (unfold of_session, descriptor_ok, in_u64, in_u32, in_u16; cbn; split_and!; done).
  destruct (producer_operations demo_geometry demo_geometry_ok demo_ring demo_descriptor [1; 2; 3] [4] demo_ring_reachable eq_refl Hd eq_refl) as [P _].
  destruct P as [(U & _)|[(_ & L & _)|(_ & _ & s' & _ & (St & _ & Q & _) & _)]].
  - exfalso. destruct U as [[? [=]]|[[? [=]]|U]]. apply U. reflexivity.
  - exfalso. discriminate L.
  - exists s'. split; [exact St|exact Q].
Defined.

(** A consumer's operation succeeds exactly when the next position is published, and
    hands out its message.  [try_acquire] lends the slot and [try_pop] copies the payload
    out and returns the slot; a buffer too small leaves the message in the ring and
    reports its size.  Between honest parties neither ever reports a corrupt layout or a
    stale session. *)
Theorem consumer_operations (g : geometry) (G : geometry_ok g) (s : ring_state) (buffer_size : Z)
    (H : ring_reachable g s) (Hc : s_cons s = None) :
  let acquire := try_acquire (s_mem s) (g_ring g) (g_data g) (g_size g) (g_client g) (g_session g) in
  let pop := try_pop (s_mem s) (g_ring g) buffer_size (g_data g) (g_size g) (g_client g) (g_session g) in
  match s_sent s !! s_c s with
  | None =>
      acquire = Some (inl (transport would_block), s_mem s) /\ pop = Some (mk_popped (Some (transport would_block)) None 0 [] (s_mem s))
  | Some (d, b) =>
      (exists s', consumer_run g s s' /\ s_recv s' = s_recv s ++ [(d, b)] /\
         s_leases s' = <[s_c s := acquired_at g (s_c s) d b]> (s_leases s) /\ acquire = Some (inr (acquired_at g (s_c s) d b), s_mem s')) /\
      (if buffer_size <? len b then pop = Some (mk_popped (Some (transport buffer_too_small)) None (len b) [] (s_mem s))
       else exists s', consumer_run g s s' /\ s_recv s' = s_recv s ++ [(d, b)] /\ s_leases s' = s_leases s /\
         pop = Some (mk_popped None (Some d) (len b) b (s_mem s')))
  end.
Proof.
  cbn zeta. pose proof (inv_reachable g G s H) as I. pose proof (try_acquire_run g G s I Hc) as A.
  pose proof (try_pop_run g G s buffer_size I Hc) as P. cbn zeta in A, P. destruct (s_sent s !! s_c s) as [[d b]|]; by split.
Qed.
Lemma consumer_operations_witness :
  try_acquire (s_mem demo_ring) 0 4096 100 7 9 = Some (inl (transport would_block), s_mem demo_ring).
Proof. apply (consumer_operations demo_geometry demo_geometry_ok demo_ring 64 demo_ring_reachable eq_refl). Defined.

