(* ===== verification/IpcSession.v ===== *)
(** * Sessions (ControlServer, ClientConnector, ClientTransport and ServerTransport of Async/ipc_transport.cpp)

    The handshake over the control socket, from the client's hello to the shared mapping
    both sides have checked, and the operations of the two transports on its lanes.  The
    outcomes of the system calls are arguments. *)

From stdpp Require Import base tactics numbers list gmap relations.
From Stdlib Require Import ZArith Lia.
From S2P Require Import Prelude Bytes Layout Pmem Ipc IpcRing IpcQueue.
Open Scope Z_scope.

(** ** Hello messages *)

Record ClientHello := mk_client_hello {
  ch_magic : Z; ch_version : Z; ch_size : Z; ch_lanes : Z; ch_capacity : Z; ch_slot_size : Z; ch_pid : Z; ch_nonce : Z;
}.
Definition CLIENT_HELLO_SIZE : Z := 40.
Record ServerHello := mk_server_hello {
  sh_magic : Z; sh_version : Z; sh_size : Z; sh_status : Z; sh_lanes : Z; sh_capacity : Z; sh_slot_size : Z; sh_fd_count : Z;
  sh_memory_size : Z; sh_client_id : Z; sh_session_generation : Z;
}.
Definition SERVER_HELLO_SIZE : Z := 56.
Definition client_hello (c : TransportConfig) (pid nonce : Z) : ClientHello :=
  mk_client_hello kIpcMagic kIpcProtocolVersion CLIENT_HELLO_SIZE (lane_count c) (ring_capacity c) (data_slot_size c) (u32 pid) nonce.
Definition reject_hello (status : Z) : ServerHello :=
  mk_server_hello kIpcMagic kIpcProtocolVersion SERVER_HELLO_SIZE status 0 0 0 0 0 0 0.
(** [error.value()]: the number without its category. *)
Definition error_value (e : error_code) : Z :=
  match e with
  | transport would_block => 1 | transport protocol_mismatch => 2 | transport corrupt_layout => 3
  | transport stale_session => 4 | transport buffer_too_small => 5 | transport peer_closed => 6
  | errc n => n
  end.

(** ** The server's side of a handshake *)

(** What one connection's system calls return: the packet received with the number of file
    descriptors that came with it, the peer's credentials, the shared memory object and
    its initial bytes, the values of [new_generation], the event counters, the reply. *)
Record accept_env := mk_accept_env {
  e_receive : error_code + ClientHello * Z;
  e_peercred : Z + Z;
  e_memory : Z + pmem;
  e_generation : Z; e_generation' : Z;
  e_events : list (option Z);
  e_send : option error_code;
}.
Record session := mk_session { ses_config : TransportConfig; ses_lanes : list LaneView; ses_size : Z }.
(** What a handshake leaves: the session or the error, the packets sent on the socket with
    their descriptors, and the shared memory. *)
Record accepted := mk_accepted { acc_result : error_code + session; acc_sent : list (ServerHello * Z); acc_mem : option pmem; acc_next_client : Z }.
Definition refuse (next_client : Z) (status : Z) (error : error_code) : accepted :=
  mk_accepted (inl error) [(reject_hello status, 0)] None next_client.
Definition first_error (events : list (option Z)) : option Z := list_find (fun e => e <> None) events ≫= fun '(_, e) => e.
(** When the views of the fresh mapping are refused the reply is lost: the control socket
    has been moved into the transport that is being destroyed, which marks the session dead. *)
Definition accept_connected (limits : TransportConfig) (next_client : Z) (e : accept_env) : accepted :=
  match e_receive e with
  | inl error => mk_accepted (inl error) [] None next_client
  | inr (hello, unexpected_fds) =>
  if negb (unexpected_fds =? 0) || negb (ch_magic hello =? kIpcMagic) || negb (ch_size hello =? CLIENT_HELLO_SIZE)
  then refuse next_client EPROTO (transport protocol_mismatch)
  else if negb (ch_version hello =? kIpcProtocolVersion) then refuse next_client EPROTONOSUPPORT (transport protocol_mismatch)
  else
  let requested := mk_config (ch_lanes hello) (ch_capacity hello) (ch_slot_size hello) in
  if negb (valid_config requested) || (lane_count limits <? lane_count requested) || (ring_capacity limits <? ring_capacity requested) ||
     (data_slot_size limits <? data_slot_size requested)
  then refuse next_client EINVAL (errc EINVAL)
  else match e_peercred e with
  | inl errno => refuse next_client EACCES (errc errno)
  | inr pid =>
  if (pid <=? 0) || negb (ch_pid hello =? u32 pid) then refuse next_client EACCES (errc EACCES)
  else match make_layout requested with
  | inl error => refuse next_client (error_value error) error
  | inr layout =>
  match e_memory e with
  | inl errno => refuse next_client errno (errc errno)
  | inr m =>
      let client_id := next_client in
      let next_client := u64 (next_client + 1) in
      let generation := Z.lxor (e_generation e) (ch_nonce hello) in
      let generation := if generation =? 0 then e_generation' e else generation in
      let m := initialize_mapping m layout requested client_id generation (u32 pid) in
      match first_error (take (Z.to_nat (lane_count requested)) (e_events e)) with
      | Some errno => mk_accepted (inl (errc errno)) [(reject_hello errno, 0)] (Some m) next_client
      | None =>
      match build_views m (total_size layout) requested client_id generation with
      | inl error => mk_accepted (inl error) [] (Some (st32 m SESSION_STATE STATE_DEAD)) next_client
      | inr lanes =>
          let m := st32 m SESSION_STATE STATE_ACTIVE in
          let fds := 1 + 2 * lane_count requested in
          let response := mk_server_hello kIpcMagic kIpcProtocolVersion SERVER_HELLO_SIZE 0 (lane_count requested) (ring_capacity requested)
            (data_slot_size requested) (u32 fds) (total_size layout) client_id generation in
          match e_send e with
          | Some error => mk_accepted (inl error) [] (Some (st32 m SESSION_STATE STATE_DEAD)) next_client
          | None => mk_accepted (inr (mk_session requested lanes (total_size layout))) [(response, fds)] (Some m) next_client
          end
      end end
  end end end end.

(** ** The client's side *)

Inductive phase := connecting | sending_hello | receiving_hello | complete.
Record connector := mk_connector { con_phase : phase; con_requested : TransportConfig; con_hello : ClientHello }.
(** [ClientConnector::start]: the outcome of [connect], and the nonce. *)
Definition connector_start (requested : TransportConfig) (address_error : option error_code) (connected : option Z) (pid nonce : Z) : error_code + connector :=
  if negb (valid_config requested) then inl (errc EINVAL)
  else match address_error with
  | Some error => inl error
  | None =>
      let hello := client_hello requested pid nonce in
      match connected with
      | None => inr (mk_connector sending_hello requested hello)
      | Some errno =>
          if (errno =? EINPROGRESS) || (errno =? EALREADY) || (errno =? EAGAIN) then inr (mk_connector connecting requested hello) else inl (errc errno)
      end
  end.
(** What the system calls of one [poll] return. *)
Record poll_env := mk_poll_env {
  p_sockopt : Z + Z;  (** the error of [getsockopt], or the pending socket error *)
  p_send : option error_code;
  p_receive : error_code + ServerHello * Z;
  p_stat : Z + Z;  (** the size of the memory object *)
  p_map : Z + pmem;
}.
Inductive polled := pending | failed (e : error_code) | connected (s : session).
Definition again (e : error_code) : bool := match e with errc n => n =? EAGAIN | _ => false end.
Definition receive_hello (c : connector) (e : poll_env) : polled * phase :=
  match p_receive e with
  | inl error => (if again error then pending else failed error, receiving_hello)
  | inr (response, received_fds) =>
  if negb (sh_magic response =? kIpcMagic) || negb (sh_version response =? kIpcProtocolVersion) || negb (sh_size response =? SERVER_HELLO_SIZE)
  then (failed (transport protocol_mismatch), receiving_hello)
  else if negb (sh_status response =? 0) then (failed (errc (sh_status response)), receiving_hello)
  else
  let negotiated := mk_config (sh_lanes response) (sh_capacity response) (sh_slot_size response) in
  let expected_fds := u32 (1 + 2 * lane_count negotiated) in
  if negb (valid_config negotiated) || negb (bool_decide (negotiated = con_requested c)) || negb (sh_fd_count response =? expected_fds) ||
     negb (received_fds =? expected_fds) || (sh_memory_size response =? 0)
  then (failed (transport protocol_mismatch), receiving_hello)
  else match p_stat e with
  | inl errno => (failed (errc errno), receiving_hello)
  | inr size =>
  if (size <? 0) || negb (size =? sh_memory_size response) then (failed (transport corrupt_layout), receiving_hello)
  else match p_map e with
  | inl errno => (failed (errc errno), receiving_hello)
  | inr m =>
  match build_views m (sh_memory_size response) negotiated (sh_client_id response) (sh_session_generation response) with
  | inl error => (failed error, receiving_hello)
  | inr lanes =>
      if negb (ld32 m SESSION_STATE =? STATE_ACTIVE) then (failed (transport stale_session), receiving_hello)
      else (connected (mk_session negotiated lanes (sh_memory_size response)), complete)
  end end end end.
Definition send_hello (c : connector) (e : poll_env) : polled * phase :=
  match p_send e with
  | Some error => (if again error then pending else failed error, sending_hello)
  | None => receive_hello c e
  end.
Definition connector_poll (c : connector) (e : poll_env) : polled * connector :=
  let with_phase '(r, ph) := (r, mk_connector ph (con_requested c) (con_hello c)) in
  match con_phase c with
  | complete => (failed (errc EINVAL), c)
  | connecting =>
      match p_sockopt e with
      | inl errno => (failed (errc errno), c)
      | inr socket_error =>
          if (socket_error =? EINPROGRESS) || (socket_error =? EALREADY) || (socket_error =? EAGAIN) then (pending, c)
          else if negb (socket_error =? 0) then (failed (errc socket_error), c)
          else with_phase (send_hello c e)
      end
  | sending_hello => with_phase (send_hello c e)
  | receiving_hello => with_phase (receive_hello c e)
  end.

(** ** Connections waiting for their hello *)

Definition kControlHandshakeTimeoutMs : Z := 250.
Inductive poll_result := poll_error (errno : Z) | poll_none | poll_hangup | poll_input.
(** [accept4] until it would block, or an error; [poll] of one descriptor. *)
Record listen_env := mk_listen_env { l_now : Z; l_accepted : list Z; l_accept_error : option Z; l_poll : Z -> poll_result }.
Definition handshake : Type := Z * Z.  (* control descriptor, deadline *)
Fixpoint next_handshake (poll : Z -> poll_result) (pending : list handshake) : (error_code + Z) * list handshake :=
  match pending with
  | [] => (inl (errc EAGAIN), [])
  | (fd, deadline) :: rest =>
      match poll fd with
      | poll_error errno => (inl (errc errno), (fd, deadline) :: rest)
      | poll_none => let '(r, rest) := next_handshake poll rest in (r, (fd, deadline) :: rest)
      | poll_hangup => next_handshake poll rest
      | poll_input => (inr fd, rest)
      end
  end.
(** [try_accept] up to the descriptor it passes to [accept_connected]. *)
Definition try_accept (pending : list handshake) (e : listen_env) : (error_code + Z) * list handshake :=
  let pending := filter (fun h => l_now e < h.2) pending in
  let pending := pending ++ map (fun fd => (fd, l_now e + kControlHandshakeTimeoutMs)) (l_accepted e) in
  match l_accept_error e with
  | Some errno => (inl (errc errno), pending)
  | None => next_handshake (l_poll e) pending
  end.

(** ** Transports *)

(** A transport of this process: [owned] says whether the process is the one that made it,
    not a child of a fork. *)
Record client_transport := mk_client { cl_session : session; cl_next_request : Z }.
Definition active (m : pmem) : bool := ld32 m SESSION_STATE =? STATE_ACTIVE.
Definition header_client (m : pmem) : Z := ld64 m 40.
Definition header_session (m : pmem) : Z := ld64 m 48.
Definition next_request_id (next : Z) : Z * Z :=
  let id := next in
  let next := u64 (next + 1) in
  if id =? 0 then (next, u64 (next + 1)) else (id, next).
Definition set_request_id (d : IpcDescriptor) (id : Z) : IpcDescriptor :=
  let 'mk_descriptor ci sg _ off le rl gen pv rw ds pl st op fl re := d in mk_descriptor ci sg id off le rl gen pv rw ds pl st op fl re.
(** The identity, version and direction [try_submit_scattered] writes over the caller's. *)
Definition request_of (d : IpcDescriptor) (client_id session_generation : Z) : IpcDescriptor :=
  let 'mk_descriptor _ _ ri off le rl gen _ rw ds pl st op fl re := d in
  mk_descriptor client_id session_generation ri off le rl gen kIpcProtocolVersion rw ds pl st op
    (Z.land (Z.lor fl FLAG_REQUEST) (Z.lnot FLAG_RESPONSE)) re.

(** The error, the request id assigned, the transport and the memory; [None] is a division
    by a zero capacity or a lane without a view. *)
Record submitted := mk_submitted { sub_error : option error_code; sub_request : option Z; sub_client : client_transport; sub_mem : pmem }.
Definition try_submit_scattered (cl : client_transport) (owned : bool) (m : pmem) (lane : Z) (d : IpcDescriptor) (prefix tail : list Z)
    (signal : option error_code) : option submitted :=
  let c := ses_config (cl_session cl) in
  if negb owned || (lane_count c <=? lane) then Some (mk_submitted (Some (errc EINVAL)) None cl m)
  else if negb (active m) then Some (mk_submitted (Some (transport peer_closed)) None cl m)
  else
    let '(id, next) := if d_request_id d =? 0 then next_request_id (cl_next_request cl) else (d_request_id d, cl_next_request cl) in
    let cl := mk_client (cl_session cl) next in
    let d := request_of (set_request_id d id) (header_client m) (header_session m) in
    match ses_lanes (cl_session cl) !! Z.to_nat lane with
    | None => None
    | Some view =>
        match try_push m (v_submissions view) d prefix tail (v_submission_data view) (data_slot_size c) with
        | None => None
        | Some (Some error, m) => Some (mk_submitted (Some error) None cl m)
        | Some (None, m) => Some (mk_submitted signal (Some id) cl m)
        end
    end.
Definition try_submit (cl : client_transport) (owned : bool) (m : pmem) (lane : Z) (d : IpcDescriptor) (payload : list Z) (signal : option error_code) :=
  try_submit_scattered cl owned m lane d payload [] signal.
Definition try_receive_completion (s : session) (owned : bool) (m : pmem) (lane buffer_size : Z) : option popped :=
  if negb owned || (lane_count (ses_config s) <=? lane) then Some (mk_popped (Some (errc EINVAL)) None 0 [] m)
  else match ses_lanes s !! Z.to_nat lane with
  | None => None
  | Some view => try_pop m (v_completions view) buffer_size (v_completion_data view) (data_slot_size (ses_config s)) (header_client m) (header_session m)
  end.
(** [completion.reset()] comes first: a slot the caller still holds is given back. *)
Definition try_acquire_on (ring data : LaneView -> Z) (s : session) (owned : bool) (m : pmem) (lane : Z) (held : option AcquiredSlotData)
    : option ((error_code + AcquiredSlotData) * pmem) :=
  let m := match held with Some a => release_slot m a | None => m end in
  if negb owned || (lane_count (ses_config s) <=? lane) then Some (inl (errc EINVAL), m)
  else match ses_lanes s !! Z.to_nat lane with
  | None => None
  | Some view => try_acquire m (ring view) (data view) (data_slot_size (ses_config s)) (header_client m) (header_session m)
  end.
Definition try_acquire_completion := try_acquire_on v_completions v_completion_data.
Definition try_acquire_submission := try_acquire_on v_submissions v_submission_data.
Definition try_receive_submission (s : session) (owned : bool) (m : pmem) (lane buffer_size : Z) : option popped :=
  if negb owned || (lane_count (ses_config s) <=? lane) then Some (mk_popped (Some (errc EINVAL)) None 0 [] m)
  else match ses_lanes s !! Z.to_nat lane with
  | None => None
  | Some view => try_pop m (v_submissions view) buffer_size (v_submission_data view) (data_slot_size (ses_config s)) (header_client m) (header_session m)
  end.
Definition submission_ready (s : session) (owned : bool) (m : pmem) (lane : Z) : option bool :=
  if negb owned || (lane_count (ses_config s) <=? lane) then Some false
  else match ses_lanes s !! Z.to_nat lane with None => None | Some view => ready m (v_submissions view) end.
Definition try_reserve_completion (s : session) (owned : bool) (m : pmem) (lane : Z) (held : CompletionReservation)
    : option (option error_code * CompletionReservation * pmem) :=
  let '(held, m) := abandon m held in
  let c := ses_config s in
  if negb owned || (lane_count c <=? lane) then Some (Some (errc EINVAL), held, m)
  else match ses_lanes s !! Z.to_nat lane with
  | None => None
  | Some view =>
      match try_reserve m (v_completions view) (v_completion_data view) (data_slot_size c) with
      | None => None
      | Some (inl error, m) => Some (Some error, held, m)
      | Some (inr r, m) =>
          Some (None, mk_reservation (Some (r_slot r)) (Some (r_payload r)) (data_slot_size c) (r_position r) (ring_capacity c)
                        (header_client m) (header_session m), m)
      end
  end.
Definition try_complete (s : session) (owned : bool) (m : pmem) (lane : Z) (d : IpcDescriptor) (payload : list Z) (signal : option error_code)
    : option (option error_code * pmem) :=
  if negb owned || (lane_count (ses_config s) <=? lane) then Some (Some (errc EINVAL), m)
  else if negb (d_client_id d =? header_client m) || negb (d_session_generation d =? header_session m) || (d_request_id d =? 0)
  then Some (Some (transport stale_session), m)
  else match ses_lanes s !! Z.to_nat lane with
  | None => None
  | Some view =>
      match try_push m (v_completions view) (response_of d (d_client_id d) (d_session_generation d)) payload [] (v_completion_data view) (data_slot_size (ses_config s)) with
      | None => None
      | Some (Some error, m) => Some (Some error, m)
      | Some (None, m) => Some (signal, m)
      end
  end.
(** State changes of the session header. *)
Definition heartbeat (owned : bool) (m : pmem) : pmem := if owned then st64 m SESSION_HEARTBEAT (u64 (ld64 m SESSION_HEARTBEAT + 1)) else m.
Definition mark_dead (owned : bool) (m : pmem) : pmem := if owned then st32 m SESSION_STATE STATE_DEAD else m.
Definition close_client (owned : bool) (m : pmem) : pmem := if owned && active m then st32 m SESSION_STATE STATE_CLOSING else m.
Definition close_server (owned : bool) (m : pmem) : pmem := if owned then st32 m SESSION_STATE STATE_DEAD else m.
Definition peer_alive (owned : bool) (m : pmem) (socket_alive : bool) : bool := owned && active m && socket_alive.

(** ** The rings of a session *)

Definition submission_ring (c : TransportConfig) (i client_id session_generation : Z) : geometry :=
  mk_geometry (area_at (layout_of c) i submissions_area) (area_at (layout_of c) i submission_data_area) (ring_capacity c) (data_slot_size c) client_id session_generation.
Definition completion_ring (c : TransportConfig) (i client_id session_generation : Z) : geometry :=
  mk_geometry (area_at (layout_of c) i completions_area) (area_at (layout_of c) i completion_data_area) (ring_capacity c) (data_slot_size c) client_id session_generation.

Lemma lane_ring_ok c i (ring data : area) client_id session_generation : config_ok c -> valid_config c = true ->
  in_u64 client_id -> in_u64 session_generation -> ring <> data -> area_size (layout_of c) ring = ring_size (layout_of c) ->
  area_size (layout_of c) data = data_region_size (layout_of c) ->
  geometry_ok (mk_geometry (area_at (layout_of c) i ring) (area_at (layout_of c) i data) (ring_capacity c) (data_slot_size c) client_id session_generation).
Proof.
  intros Hc Hv Hi Hg N Er Ed. pose proof (proj1 (valid_config_spec c Hc) Hv) as (_ & ? & ?). split_and!; cbn [g_capacity g_size g_client g_session]; try lia; try done.
  assert ((i, ring) <> (i, data)) as N' by congruence. pose proof (lane_areas_apart c i i ring data Hc Hv N') as A. cbn zeta in A.
  rewrite Er, Ed in A. exact A.
Qed.
Lemma submission_ring_ok c i client_id session_generation : config_ok c -> valid_config c = true ->
  in_u64 client_id -> in_u64 session_generation -> geometry_ok (submission_ring c i client_id session_generation).
Proof. intros. by apply lane_ring_ok. Qed.
Lemma completion_ring_ok c i client_id session_generation : config_ok c -> valid_config c = true ->
  in_u64 client_id -> in_u64 session_generation -> geometry_ok (completion_ring c i client_id session_generation).
Proof. intros. by apply lane_ring_ok. Qed.

(** Setting the state of a session leaves the rest of it alone. *)
Lemma st32_outside m a v : outside m (st32 m a v) a 4.
Proof. change 4 with (len (le_bytes 4 v)). apply outside_write. Qed.
Lemma ld_st32 m a v : in_u32 v -> ld32 (st32 m a v) a = v.
Proof.
  intros H. unfold ld32, st32. change 4 with (len (le_bytes 4 v)). rewrite nvm_read_write_same. by apply le_val_bytes_small.
Qed.
Lemma session_ready_state c m client_id session_generation pid v : config_ok c -> valid_config c = true ->
  session_ready c m client_id session_generation pid -> session_ready c (st32 m SESSION_STATE v) client_id session_generation pid.
Proof.
  intros Hc Hv [H L]. pose proof (st32_outside m SESSION_STATE v) as O. split.
  - by rewrite (outside_read _ _ _ _ _ _ O) by (done || by left).
  - intros i Hi. eapply (lane_ready_frame c Hc Hv); [exact O| |by apply L]. pose proof (lane_inside c i Hc Hv Hi) as (B & _). right.
    unfold SHARED_SESSION_HEADER, SESSION_STATE in *. lia.
Qed.
Lemma session_ready_identity c m client_id session_generation pid : session_ready c m client_id session_generation pid ->
  in_u64 client_id -> in_u64 session_generation -> header_client m = client_id /\ header_session m = session_generation.
Proof.
  intros [H _] Hi Hg. unfold header_client, header_session. change 40 with (0 + 40). change 48 with (0 + 48). split; by field H.
Qed.

(** ** The handshake *)

Definition within (c limits : TransportConfig) : Prop :=
  lane_count c <= lane_count limits /\ ring_capacity c <= ring_capacity limits /\ data_slot_size c <= data_slot_size limits.
(** The server's system calls succeed for a client with this process id. *)
Definition good_accept (e : accept_env) (c : TransportConfig) (pid nonce : Z) (m : pmem) : Prop :=
  e_receive e = inr (client_hello c pid nonce, 0) /\ e_peercred e = inr pid /\ e_memory e = inr m /\
  Forall (fun x => x = None) (e_events e) /\ e_send e = None /\ in_u64 (e_generation e) /\ in_u64 (e_generation' e).

Lemma in_u64_lxor x y : in_u64 x -> in_u64 y -> in_u64 (Z.lxor x y).
Proof.
  assert (forall z, in_u64 z <-> Z.land z (Z.ones 64) = z) as E.
  { intros z. unfold in_u64. rewrite Z.land_ones by lia. split; intros H; [by rewrite Z.mod_small|]. rewrite <-H. by apply Z.mod_pos_bound. }
  rewrite !E. intros E1 E2. apply Z.bits_inj'. intros n Hn. rewrite Z.land_spec, Z.lxor_spec.
  rewrite <-E1, <-E2, !Z.land_spec. by destruct (Z.testbit x n), (Z.testbit y n), (Z.testbit (Z.ones 64) n).
Qed.
Lemma first_error_none l n : Forall (fun x => x = None) l -> first_error (take n l) = None.
Proof.
  intros F. unfold first_error. rewrite (proj2 (list_find_None _ _)); [done|]. apply Forall_take.
  eapply Forall_impl; [exact F|]. cbn. tauto.
Qed.

Definition server_hello (c : TransportConfig) (client_id generation : Z) : ServerHello :=
  mk_server_hello kIpcMagic kIpcProtocolVersion SERVER_HELLO_SIZE 0 (lane_count c) (ring_capacity c) (data_slot_size c) (1 + 2 * lane_count c)
    (total_size (layout_of c)) client_id generation.
Definition session_of (c : TransportConfig) : session := mk_session c (lane_views (layout_of c) c) (total_size (layout_of c)).
Definition chosen_generation (e : accept_env) (nonce : Z) : Z :=
  if Z.lxor (e_generation e) nonce =? 0 then e_generation' e else Z.lxor (e_generation e) nonce.
(** The memory a handshake leaves to both sides. *)
Definition session_memory (c : TransportConfig) (m : pmem) (client_id generation pid : Z) : pmem :=
  st32 (initialize_mapping m (layout_of c) c client_id generation (u32 pid)) SESSION_STATE STATE_ACTIVE.

Section Handshake.
Context (c : TransportConfig) (Hc : config_ok c) (Hm : make_layout c = inr (layout_of c)).
Lemma config_valid : valid_config c = true /\ total_size (layout_of c) <= kMaxSharedMemorySize.
Proof. by destruct (make_layout_inv c _ Hc Hm) as (? & _ & ?). Qed.

Lemma accept_good limits next e pid nonce m : good_accept e c pid nonce m -> within c limits -> 0 < pid < 2 ^ 31 -> in_u64 next -> in_u64 nonce ->
  let g := chosen_generation e nonce in
  accept_connected limits next e =
    mk_accepted (inr (session_of c)) [(server_hello c next g, 1 + 2 * lane_count c)] (Some (session_memory c m next g pid)) (u64 (next + 1)).
Proof.
  intros (E1 & E2 & E3 & E4 & E5 & G1 & G2) (W1 & W2 & W3) Hp Hn Hk g. destruct config_valid as [Hv Ht].
  unfold accept_connected. rewrite E1, E2, E3, E5. cbn [client_hello ch_magic ch_version ch_size ch_lanes ch_capacity ch_slot_size ch_pid ch_nonce].
  cbn [Z.eqb negb orb kIpcMagic CLIENT_HELLO_SIZE kIpcProtocolVersion Pos.eqb].
  replace (mk_config (lane_count c) (ring_capacity c) (data_slot_size c)) with c by (by destruct c).
  rewrite Hv. rewrite !(proj2 (Z.ltb_ge _ _)) by done. cbn [negb orb]. rewrite (proj2 (Z.leb_gt _ _)) by lia. rewrite Z.eqb_refl, Hm. cbn [negb orb].
  fold (chosen_generation e nonce). fold g. rewrite (first_error_none _ _ E4).
  assert (in_u64 g) as Hg by (subst g; unfold chosen_generation; destruct (_ =? _); [done|by apply in_u64_lxor]).
  destruct (initialize_mapping_ready c Hc Hv m next g (u32 pid)) as [R _].
  rewrite (session_ready_views c Hc Hv Ht _ _ _ _ R Hn Hg).
  rewrite u32_small; [done|]. pose proof (proj1 (valid_config_spec c Hc) Hv) as (? & _). unfold kMaxIpcWorkerLanes in *. lia.
Qed.
Lemma session_memory_ready m next g pid : in_u64 next -> in_u64 g ->
  let m' := session_memory c m next g pid in
  session_ready c m' next g (u32 pid) /\ active m' = true /\ header_client m' = next /\ header_session m' = g.
Proof.
  intros Hn Hg m'. destruct config_valid as [Hv Ht]. assert (session_ready c m' next g (u32 pid)) as R.
  { apply session_ready_state; [done|done|]. by destruct (initialize_mapping_ready c Hc Hv m next g (u32 pid)). }
  split_and!; [done| |by eapply session_ready_identity..]. unfold active, m', session_memory. by rewrite ld_st32.
Qed.
Lemma poll_good con e next g m pid : con_requested con = c -> in_u64 next -> in_u64 g ->
  p_receive e = inr (server_hello c next g, 1 + 2 * lane_count c) -> p_stat e = inr (total_size (layout_of c)) ->
  p_map e = inr (session_memory c m next g pid) -> receive_hello con e = (connected (session_of c), complete).
Proof.
  intros Ec Hn Hg E1 E2 E3. destruct config_valid as [Hv Ht]. destruct (session_memory_ready m next g pid Hn Hg) as (R & A & _).
  unfold receive_hello. rewrite E1, E2, E3. cbn [server_hello sh_magic sh_version sh_size sh_status sh_lanes sh_capacity sh_slot_size sh_fd_count sh_memory_size sh_client_id sh_session_generation].
  cbn [Z.eqb negb orb kIpcMagic SERVER_HELLO_SIZE kIpcProtocolVersion Pos.eqb].
  replace (mk_config (lane_count c) (ring_capacity c) (data_slot_size c)) with c by (by destruct c). rewrite Hv, Ec.
  pose proof (proj1 (valid_config_spec c Hc) Hv) as (? & _). unfold kMaxIpcWorkerLanes in *. rewrite u32_small, Z.eqb_refl by lia.
  pose proof (lane_inside c 0 Hc Hv ltac:(lia)) as (B1 & B2 & _). destruct (layout_bounds c Hc Hv) as (_ & _ & _ & [L _] & _). unfold SHARED_SESSION_HEADER in B1.
  rewrite (bool_decide_true (c = c)), (proj2 (Z.eqb_neq _ 0)), (proj2 (Z.ltb_ge _ _)), Z.eqb_refl by (done || lia). cbn [negb orb].
  rewrite (session_ready_views c Hc Hv Ht _ _ _ _ R Hn Hg). unfold active in A. by rewrite A.
Qed.
End Handshake.

(** A ring as a handshake leaves it. *)
Definition fresh_ring (m : pmem) : ring_state := mk_ring_state m None ∅ None ∅ 0 0 ∅ [].
Lemma fresh_ring_reachable g m : ring_ready m (g_ring g) (g_capacity g) -> ring_reachable g (fresh_ring m).
Proof. intros H. exists (fresh_ring m). split; [by exists m|done]. Qed.

(** A handshake makes one session for both sides.  When a client's valid request is
    within the server's limits, comes from the process it names, and the system calls
    succeed, [accept_connected] makes a session of the requested shape and answers with
    its identity; a client that receives the answer and maps the memory reaches, from any
    phase before the end, the same views of the same lanes.  The session is active, both
    sides read the identity the server chose, and the rings of every lane are empty. *)
Theorem handshake_agrees (limits c : TransportConfig) (next pid nonce : Z) (m : pmem) (e : accept_env) (con : connector) (p : poll_env)
    (Hc : config_ok c) (Hl : make_layout c = inr (layout_of c)) (Hw : within c limits) (Hp : 0 < pid < 2 ^ 31) (Hn : in_u64 next) (Hk : in_u64 nonce)
    (He : good_accept e c pid nonce m) (Hcon : con_requested con = c) (Hph : con_phase con <> complete)
    (Hso : p_sockopt p = inr 0) (Hse : p_send p = None) (Hst : p_stat p = inr (total_size (layout_of c))) :
  let g := chosen_generation e nonce in
  let m' := session_memory c m next g pid in
  let r := accept_connected limits next e in
  r = mk_accepted (inr (session_of c)) [(server_hello c next g, 1 + 2 * lane_count c)] (Some m') (u64 (next + 1)) /\
  (p_receive p = inr (server_hello c next g, 1 + 2 * lane_count c) -> p_map p = inr m' ->
     connector_poll con p = (connected (session_of c), mk_connector complete c (con_hello con))) /\
  active m' = true /\ header_client m' = next /\ header_session m' = g /\
  (forall i, 0 <= i < lane_count c -> ring_reachable (submission_ring c i next g) (fresh_ring m') /\ ring_reachable (completion_ring c i next g) (fresh_ring m')).
Proof.
  cbn zeta. assert (in_u64 (chosen_generation e nonce)) as Hg.
  { destruct He as (_ & _ & _ & _ & _ & G1 & G2). unfold chosen_generation. destruct (_ =? _); [done|by apply in_u64_lxor]. }
  destruct (session_memory_ready c Hc Hl m next _ pid Hn Hg) as (R & A & I & S). split_and!; [by apply accept_good| |done..|].
  - intros E1 E2. pose proof (poll_good c Hc Hl con p _ _ m pid Hcon Hn Hg E1 Hst E2) as P. unfold connector_poll, send_hello.
    destruct (con_phase con); [rewrite Hso|..|done]; cbn [Z.eqb orb negb]; rewrite ?Hse, P, Hcon; done.
  - intros i Hi. destruct (proj2 R i Hi) as (_ & R1 & R2). by split; apply fresh_ring_reachable.
Qed.
Definition demo_accept : accept_env := mk_accept_env (inr (client_hello small_config 1234 99, 0)) (inr 1234) (inr (fun _ => 0)) 5 6 [None; None] None.
Definition demo_poll : poll_env :=
  mk_poll_env (inr 0) None (inr (server_hello small_config 1 (Z.lxor 5 99), 5)) (inr (total_size (layout_of small_config)))
    (inr (session_memory small_config (fun _ => 0) 1 (Z.lxor 5 99) 1234)).
Lemma handshake_agrees_witness :
  acc_result (accept_connected small_config 1 demo_accept) = inr (session_of small_config) /\
  connector_poll (mk_connector connecting small_config (client_hello small_config 1234 99)) demo_poll =
    (connected (session_of small_config), mk_connector complete small_config (client_hello small_config 1234 99)).
Proof.
  assert (good_accept demo_accept small_config 1234 99 (fun _ => 0)) as Hg by (unfold good_accept, in_u64; split_and!; try done; repeat constructor).
  destruct (handshake_agrees small_config small_config 1 1234 99 (fun _ => 0) demo_accept (mk_connector connecting small_config (client_hello small_config 1234 99))
    demo_poll) as (E & P & _); [by unfold config_ok|vm_compute; reflexivity|unfold within; lia|lia|done|done|exact Hg|done|done|done|done|done|].
  split; [by rewrite E|by apply P].
Defined.

(** The server makes sessions for valid clients only.  Whatever a connection sends and
    whatever the system calls return, if [accept_connected] returns a session, then the
    hello was complete, without file descriptors, of this protocol version, asked for a
    valid configuration within the limits whose mapping is at most 64 GiB, and named the
    process at the other end of the socket.  Otherwise it sends nothing or one message
    with an error status and no descriptor. *)
Theorem accept_only_valid (limits : TransportConfig) (next : Z) (e : accept_env) :
  match accept_connected limits next e with
  | mk_accepted (inr s) sent _ _ => exists hello pid,
      e_receive e = inr (hello, 0) /\ e_peercred e = inr pid /\ 0 < pid /\ ch_pid hello = u32 pid /\ ch_magic hello = kIpcMagic /\
      ch_version hello = kIpcProtocolVersion /\ ch_size hello = CLIENT_HELLO_SIZE /\
      ses_config s = mk_config (ch_lanes hello) (ch_capacity hello) (ch_slot_size hello) /\ valid_config (ses_config s) = true /\
      within (ses_config s) limits /\ (exists l, make_layout (ses_config s) = inr l /\ ses_size s = total_size l /\ ses_size s <= kMaxSharedMemorySize) /\
      exists hello', sent = [(hello', 1 + 2 * lane_count (ses_config s))] /\ sh_status hello' = 0
  | mk_accepted (inl _) sent _ _ => sent = [] \/ exists status, sent = [(reject_hello status, 0)]
  end.
Proof.
  unfold accept_connected, refuse. destruct (e_receive e) as [|[hello fds]]; [by left|].
  destruct (Z.eqb_spec fds 0) as [->|]; [|by right; eexists]. destruct (Z.eqb_spec (ch_magic hello) kIpcMagic) as [Em|]; [|by right; eexists].
  destruct (Z.eqb_spec (ch_size hello) CLIENT_HELLO_SIZE) as [Es|]; [|by right; eexists]. cbn [negb orb].
  destruct (Z.eqb_spec (ch_version hello) kIpcProtocolVersion) as [Ev|]; [|by right; eexists]. cbn [negb orb].
  set (c := mk_config _ _ _). destruct (valid_config c) eqn:Hv; [|by right; eexists]. cbn [negb orb].
  destruct (Z.ltb_spec (lane_count limits) (lane_count c)) as [|W1]; [by right; eexists|].
  destruct (Z.ltb_spec (ring_capacity limits) (ring_capacity c)) as [|W2]; [by right; eexists|].
  destruct (Z.ltb_spec (data_slot_size limits) (data_slot_size c)) as [|W3]; [by right; eexists|]. cbn [orb].
  destruct (e_peercred e) as [|pid]; [by right; eexists|]. destruct (Z.leb_spec pid 0) as [|Hp]; [by right; eexists|].
  destruct (Z.eqb_spec (ch_pid hello) (u32 pid)) as [Ep|]; [|by right; eexists]. cbn [negb orb].
  destruct (make_layout c) as [|l] eqn:El; [by right; eexists|]. destruct (e_memory e) as [|m]; [by right; eexists|].
  destruct (first_error _); [by right; eexists|]. destruct (build_views _ _ _ _ _) as [|lanes]; [by left|]. destruct (e_send e); [by left|].
  exists hello, pid. split_and!; try done; [|by eexists].
  exists l. split_and!; [done|done|]. cbn [ses_size]. unfold make_layout in El.
  repeat match type of El with context [match ?x with _ => _ end] => destruct x eqn:?; try done end.
  injection El as <-. cbn [total_size]. repeat match goal with H : _ || _ = false |- _ => apply orb_false_iff in H as [? ?] end. lia.
Qed.

(** ** A request and its response *)

(** An operation on a ring touches the ring and its data slots only. *)
Definition keeps_rest (g : geometry) (m m' : pmem) : Prop :=
  forall a, ~ (g_ring g <= a < g_ring g + ring_length g) -> ~ (g_data g <= a < g_data g + data_length g) -> m' a = m a.
Lemma keeps_rest_trans g m1 m2 m3 : keeps_rest g m1 m2 -> keeps_rest g m2 m3 -> keeps_rest g m1 m3.
Proof. intros A B a H1 H2. by rewrite B, A. Qed.
Lemma keeps_rest_ring g m m' o n : outside m m' o n -> g_ring g <= o -> o + n <= g_ring g + ring_length g -> keeps_rest g m m'.
Proof. intros O ? ? a H1 _. apply O. lia. Qed.
Lemma keeps_rest_data g m m' o n : outside m m' o n -> g_data g <= o -> o + n <= g_data g + data_length g -> keeps_rest g m m'.
Proof. intros O ? ? a _ H2. apply O. lia. Qed.
Lemma try_push_rest g m d payload tail r m' : geometry_ok g -> ld32 m (g_ring g + RING_CAPACITY) = g_capacity g ->
  try_push m (g_ring g) d payload tail (g_data g) (g_size g) = Some (r, m') -> keeps_rest g m m'.
Proof.
  intros G Ec. unfold try_push. set (p := ld64 _ _). destruct (slot_index m (g_ring g) p) as [i|] eqn:Ei; [|done].
  apply (slot_index_eq g m p i Ec) in Ei. subst i. pose proof (index_bounds g G p) as Hi.
  destruct (negb _); [by intros [= _ <-]|]. destruct (_ || _) eqn:Hs; [by intros [= _ <-]|]. apply orb_false_iff in Hs as [H1 H2].
  apply Z.ltb_ge in H1, H2. intros [= _ <-]. pose proof (data_inside g G _ Hi) as [D1 D2]. unfold data_at in D1, D2.
  pose proof (len_nonneg payload). pose proof (len_nonneg tail). destruct (G) as ((? & _) & _).
  eapply keeps_rest_trans; [|eapply keeps_rest_ring; [apply st64_outside|..]; unfold RING_PRODUCER, ring_length, SHARED_RING_SLOT, SHARED_RING_HEADER; lia].
  eapply keeps_rest_trans; [|eapply keeps_rest_ring; [apply st64_outside|..]; unfold ring_slot, ring_length, SHARED_RING_SLOT, SHARED_RING_HEADER; lia].
  eapply keeps_rest_trans; [|eapply keeps_rest_ring; [apply outside_write|..]; rewrite ?len_descriptor_bytes;
    unfold ring_slot, ring_length, SHARED_RING_SLOT, SHARED_RING_HEADER, DESCRIPTOR_BYTES; lia].
  eapply keeps_rest_trans; [|eapply keeps_rest_data; [apply outside_write|lia|lia]].
  eapply keeps_rest_data; [apply outside_write|lia|lia].
Qed.

Lemma try_acquire_rest g m a m' : geometry_ok g -> ld32 m (g_ring g + RING_CAPACITY) = g_capacity g ->
  try_acquire m (g_ring g) (g_data g) (g_size g) (g_client g) (g_session g) = Some (inr a, m') -> keeps_rest g m m'.
Proof.
  intros G Ec. unfold try_acquire. destruct (slot_index m (g_ring g) _); [|done]. destruct (negb _); [done|]. cbn zeta. destruct (_ || _); [done|].
  intros [= _ <-]. destruct G as ((? & _) & _).
  eapply keeps_rest_ring; [apply st64_outside|..]; unfold RING_CONSUMER, ring_length, SHARED_RING_SLOT, SHARED_RING_HEADER; lia.
Qed.

Section Lane.
Context (c : TransportConfig) (Hc : config_ok c) (Hl : make_layout c = inr (layout_of c)) (i : Z) (Hi : 0 <= i < lane_count c)
  (client_id session_generation : Z) (Hid : in_u64 client_id) (Hgen : in_u64 session_generation).
Abbreviation sub := (submission_ring c i client_id session_generation).
Abbreviation comp := (completion_ring c i client_id session_generation).

Lemma session_lane : ses_lanes (session_of c) !! Z.to_nat i = Some (lane_view (layout_of c) i).
Proof.
  unfold session_of, lane_views. cbn [ses_lanes]. etrans; [apply list_lookup_fmap|]. rewrite lookup_seq_lt by lia. cbn. do 2 f_equal. lia.
Qed.
Lemma header_rest ring data (g := mk_geometry (area_at (layout_of c) i ring) (area_at (layout_of c) i data) (ring_capacity c) (data_slot_size c) client_id session_generation) m m' :
  keeps_rest g m m' ->
  area_size (layout_of c) ring = ring_size (layout_of c) -> area_size (layout_of c) data = data_region_size (layout_of c) ->
  header_client m' = header_client m /\ header_session m' = header_session m /\ active m' = active m.
Proof.
  intros K Er Ed. destruct (config_valid c Hc Hl) as [Hv Ht].
  assert (agree m m' 0 SHARED_SESSION_HEADER) as A.
  { pose proof (lane_inside c i Hc Hv Hi) as (B & _). pose proof (area_in_lane c ring Hc Hv) as (B1 & _). pose proof (area_in_lane c data Hc Hv) as (B2 & _).
    intros a Ha. subst g. unfold area_at in K. apply K; cbn [g_ring g_data]; lia. }
  unfold header_client, header_session, active, SESSION_STATE. unfold SHARED_SESSION_HEADER in A.
  rewrite (agree_ld64 m m' 40), (agree_ld64 m m' 48), (agree_ld32 m m' 128) by (eapply agree_sub; [exact A|lia|lia]). done.
Qed.
Lemma request_of_session d id : descriptor_ok d -> in_u64 id -> of_session sub (request_of (set_request_id d id) client_id session_generation).
Proof.
  intros (A1 & A2 & A3 & A4 & A5 & A6 & A7 & A8 & A9 & A10 & A11 & A12 & A13 & A14 & A15) Hq. destruct d.
  cbn in A1, A2, A3, A4, A5, A6, A7, A8, A9, A10, A11, A12, A13, A14, A15. unfold of_session. split_and!; try done.
  unfold descriptor_ok. cbn. split_and!; try done; try lia. by apply in_u16_land, in_u16_lor.
Qed.
(** The request id a submission gets. *)
Definition assigned (cl : client_transport) (d : IpcDescriptor) : Z :=
  if d_request_id d =? 0 then (next_request_id (cl_next_request cl)).1 else d_request_id d.
Lemma assigned_ok cl d : descriptor_ok d -> in_u64 (cl_next_request cl) -> assigned cl d <> 0 /\ in_u64 (assigned cl d).
Proof.
  intros (_ & _ & Hr & _) Hn. unfold assigned, next_request_id. destruct (Z.eqb_spec (d_request_id d) 0) as [_|N]; [|done].
  destruct (Z.eqb_spec (cl_next_request cl) 0) as [->|N]; done.
Qed.

(** A message sent to a drained ring is the one the other side acquires. *)
Lemma acquire_sent g s d b : geometry_ok g -> ring_inv g s -> s_cons s = None -> s_sent s !! s_c s = Some (d, b) ->
  exists a m', try_acquire (s_mem s) (g_ring g) (g_data g) (g_size g) (g_client g) (g_session g) = Some (inr a, m') /\ a = acquired_at g (s_c s) d b /\
    nvm_read m' (a_payload_length a) (a_payload a) = b /\ keeps_rest g (s_mem s) m'.
Proof.
  intros G H Hn Hs. pose proof (try_acquire_run g G s H Hn) as A. cbn zeta in A.
  assert (exists s', consumer_run g s s' /\ s_leases s' = <[s_c s := acquired_at g (s_c s) d b]> (s_leases s) /\
    try_acquire (s_mem s) (g_ring g) (g_data g) (g_size g) (g_client g) (g_session g) = Some (inr (acquired_at g (s_c s) d b), s_mem s')) as (s' & C & Ls & E).
  { revert A. rewrite Hs. intros (s' & C & _ & Ls & E). by exists s'. }
  exists (acquired_at g (s_c s) d b), (s_mem s'). split_and!; [done|done| |by eapply try_acquire_rest; [done|apply (i_capacity _ _ H)|]].
  destruct C as (St & _ & _ & _ & Es & _). apply (lease_payload g s' (s_c s) d b); [by eapply inv_rtc|by rewrite Ls, lookup_insert_eq|by rewrite Es].
Qed.
Lemma submit_run s cl d prefix tail signal : ring_inv sub s -> s_prod s = None -> ~ in_use s (s_q s - ring_capacity c) ->
  s_q s + ring_capacity c < 2 ^ 64 -> active (s_mem s) = true -> header_client (s_mem s) = client_id -> header_session (s_mem s) = session_generation ->
  cl_session cl = session_of c -> in_u64 (cl_next_request cl) -> descriptor_ok d -> len prefix + len tail <= data_slot_size c ->
  let d' := place_descriptor (request_of (set_request_id d (assigned cl d)) client_id session_generation) (s_q s mod ring_capacity c) (len prefix + len tail) (s_q s) in
  exists next s', try_submit_scattered cl true (s_mem s) i d prefix tail signal =
      Some (mk_submitted signal (Some (assigned cl d)) (mk_client (session_of c) next) (s_mem s')) /\
    producer_run sub s s' /\ s_sent s' = <[s_q s := (d', prefix ++ tail)]> (s_sent s) /\ keeps_rest sub (s_mem s) (s_mem s').
Proof.
  intros H Hp Hf Hb Ha Hci Hsg Ecl Hn Hd Hlen d'. destruct (config_valid c Hc Hl) as [Hv _].
  destruct (assigned_ok cl d Hd Hn) as [_ Hq]. pose proof (submission_ring_ok c i _ _ Hc Hv Hid Hgen) as G.
  pose proof (try_push_run sub G s _ prefix tail H Hp (request_of_session d _ Hd Hq) Hb) as P. cbn zeta in P.
  destruct P as [(U & _)|[(_ & L & _)|(_ & _ & s' & E & Run & _ & Es)]]; [done|cbn in L; lia|].
  unfold try_submit_scattered. rewrite Ecl, Ha, Hci, Hsg. cbn [session_of ses_config negb orb]. rewrite (proj2 (Z.leb_gt _ _)) by lia.
  pose proof (try_push_rest sub _ _ _ _ _ _ G (i_capacity _ _ H) E) as K.
  unfold assigned in *. destruct (d_request_id d =? 0) eqn:E0; [destruct (next_request_id (cl_next_request cl)) as [id next]; exists next, s'|exists (cl_next_request cl), s'];
    cbn [fst cl_session cl_next_request] in *; fold (session_of c); rewrite session_lane; cbn [lane_view v_submissions v_submission_data];
    cbn [submission_ring g_ring g_data g_size] in E; rewrite E; done.
Qed.

Lemma acquire_on_ring ring data (rv dv : LaneView -> Z) s d b
    (g := mk_geometry (area_at (layout_of c) i ring) (area_at (layout_of c) i data) (ring_capacity c) (data_slot_size c) client_id session_generation) :
  geometry_ok g -> rv (lane_view (layout_of c) i) = area_at (layout_of c) i ring -> dv (lane_view (layout_of c) i) = area_at (layout_of c) i data ->
  ring_inv g s -> s_cons s = None -> header_client (s_mem s) = client_id -> header_session (s_mem s) = session_generation ->
  s_sent s !! s_c s = Some (d, b) ->
  exists a m', try_acquire_on rv dv (session_of c) true (s_mem s) i None = Some (inr a, m') /\ a = acquired_at g (s_c s) d b /\
    nvm_read m' (a_payload_length a) (a_payload a) = b /\ keeps_rest g (s_mem s) m'.
Proof.
  intros G Er Ed H Hn Hci Hsg Hs. destruct (acquire_sent g s d b G H Hn Hs) as (a & m' & E & E1 & E2 & E3). exists a, m'. split_and!; [|done..].
  unfold try_acquire_on. cbn [session_of ses_config negb orb]. fold (session_of c). rewrite (proj2 (Z.leb_gt _ _)), session_lane, Er, Ed, Hci, Hsg by lia. exact E.
Qed.

(** [try_reserve_completion] of an empty reservation, then [publish_copy]. *)
Lemma complete_run s d payload signal : ring_inv comp s -> s_prod s = None -> ~ in_use s (s_q s - ring_capacity c) ->
  s_q s + ring_capacity c < 2 ^ 64 -> header_client (s_mem s) = client_id -> header_session (s_mem s) = session_generation ->
  descriptor_ok d -> d_request_id d <> 0 -> len payload <= data_slot_size c ->
  forall none, c_slot none = None ->
  let d' := place_descriptor (response_of d client_id session_generation) (s_q s mod ring_capacity c) (len payload) (s_q s) in
  exists r m1 s', try_reserve_completion (session_of c) true (s_mem s) i none = Some (None, r, m1) /\
    publish_copy m1 r d payload signal = Some (signal, drop_slot r, s_mem s') /\
    rtc (ring_step comp) s s' /\ s_cons s' = s_cons s /\ s_c s' = s_c s /\ s_sent s' = <[s_q s := (d', payload)]> (s_sent s) /\ keeps_rest comp (s_mem s) (s_mem s').
Proof.
  intros H Hp Hf Hb Hci Hsg Hd Hr Hlen none Hnone d'. destruct (config_valid c Hc Hl) as [Hv _].
  pose proof (completion_ring_ok c i _ _ Hc Hv Hid Hgen) as G. pose proof (slot_index_inv comp G s (s_q s) H) as Ei.
  pose proof (proj2 (free_slot comp G s H) Hf) as Eg. pose proof (i_producer _ _ H) as Ep. rewrite Hp in Ep.
  pose proof (index_bounds comp G (s_q s)) as Hx. pose proof (len_nonneg payload) as Hlp.
  set (x := s_q s mod ring_capacity c) in *. change (s_q s mod g_capacity comp) with x in *.
  set (slot := ring_slot (g_ring comp) x). set (dst := data_at comp x).
  set (r := mk_reservation (Some slot) (Some dst) (data_slot_size c) (s_q s) (ring_capacity c) client_id session_generation).
  set (m1 := st64 (s_mem s) (g_ring comp + RING_PRODUCER) (u64 (s_q s + 1))). set (m2 := nvm_write m1 payload dst).
  set (m3 := store_descriptor m2 slot d'). set (m4 := store_generation m3 slot (u64 (s_q s + 1))).
  assert (keeps_rest comp (s_mem s) m1) as K1.
  { eapply keeps_rest_ring; [apply st64_outside|..]; unfold RING_PRODUCER, ring_length, SHARED_RING_SLOT, SHARED_RING_HEADER; destruct G as ((? & _) & _); lia. }
  destruct (header_rest completions_area completion_data_area (s_mem s) m1 K1 eq_refl eq_refl) as (Hc1 & Hs1 & _).
  destruct s as [m prod res cons leases q k sent recv]. cbn [s_mem s_prod s_work s_cons s_leases s_q s_c s_sent s_recv] in *. subst prod.
  exists r, m1, (mk_ring_state m4 None res cons leases (q + 1) k (<[q := (d', payload)]> sent) recv).
  cbn [s_mem s_prod s_work s_cons s_leases s_q s_c s_sent s_recv]. split_and!; try done.
  - unfold try_reserve_completion, abandon. rewrite Hnone. cbn [session_of ses_config negb orb]. fold (session_of c).
    rewrite (proj2 (Z.leb_gt _ _)), session_lane by lia. cbn [lane_view v_completions v_completion_data]. unfold try_reserve.
    change (area_at (layout_of c) i completions_area) with (g_ring comp). rewrite Ep, Ei, Eg, Z.eqb_refl. cbn [negb r_slot r_payload r_position].
    fold m1. rewrite Hc1, Hs1, Hci, Hsg. done.
  - unfold publish_copy. cbn [r c_payload_capacity c_payload]. rewrite (proj2 (Z.ltb_ge _ _)) by done.
    assert (publish m2 r d (len payload) signal = (signal, drop_slot r, m4)) as P.
    { unfold publish. cbn [r c_slot c_payload_capacity c_client_id c_session_generation c_position c_ring_capacity].
      rewrite (proj2 (Z.eqb_neq _ _) Hr), (proj2 (Z.ltb_ge _ _)) by lia. done. }
    destruct payload; [|by rewrite <-P]. f_equal. rewrite <-P. subst m2. by rewrite nvm_write_nil.
  - assert (res !! q = None) as Rq by (apply eq_None_not_Some; intros [w [? _]%(i_work _ _ H)]; cbn in *; lia).
    eapply rtc_l; [by apply step_claim with (p := q) (i := x)|]. eapply rtc_l; [apply step_produced|]. fold m1.
    eapply rtc_l; [apply step_fill with (p := q) (i := x) (off := 0) (b := payload); [apply lookup_insert_eq|lia|cbn; lia]|]. rewrite Z.add_0_r. fold dst m2.
    eapply rtc_l; [apply step_place with (p := q) (i := x) (n := len payload); [apply lookup_insert_eq|by apply (response_of_session comp G d Hd)|cbn; lia]|].
    eapply rtc_l; [apply step_publish with (p := q) (i := x); apply lookup_insert_eq|].
    change (g_client comp) with client_id. change (g_session comp) with session_generation. fold slot d'. fold m3. fold m4.
    assert (nvm_read m3 (len payload) dst = payload) as Er.
    { subst m3 dst x. rewrite (changes_payload comp G _ _ _ _ _ (change_descriptor comp G _ _ _ (index_bounds comp G q))) by (done || cbn; lia).
      subst m2. apply nvm_read_write_same. }
    change (data_at comp x) with dst. rewrite Er, insert_insert_eq, delete_insert_id by done. done.
  - pose proof (data_inside comp G x Hx) as [D1 D2]. fold dst in D1, D2. cbn [g_size comp completion_ring] in D2.
    eapply keeps_rest_trans; [exact K1|]. eapply keeps_rest_trans; [|eapply keeps_rest_ring; [apply st64_outside|..]; subst slot; unfold ring_slot, ring_length, SHARED_RING_SLOT, SHARED_RING_HEADER; lia].
    eapply keeps_rest_trans; [|eapply keeps_rest_ring; [apply outside_write|..]; rewrite ?len_descriptor_bytes; subst slot;
      unfold ring_slot, ring_length, SHARED_RING_SLOT, SHARED_RING_HEADER, DESCRIPTOR_BYTES; lia].
    eapply keeps_rest_data; [apply outside_write|lia|lia].
Qed.

(** The two rings of a lane share no byte. *)
Lemma lane_rings_apart m m' : keeps_rest sub m m' -> same_ring comp m m'.
Proof.
  intros K a Ha. destruct (config_valid c Hc Hl) as [Hv _].
  pose proof (lane_areas_apart c i i submissions_area completions_area Hc Hv ltac:(congruence)) as A1.
  pose proof (lane_areas_apart c i i submissions_area completion_data_area Hc Hv ltac:(congruence)) as A2.
  pose proof (lane_areas_apart c i i submission_data_area completions_area Hc Hv ltac:(congruence)) as A3.
  pose proof (lane_areas_apart c i i submission_data_area completion_data_area Hc Hv ltac:(congruence)) as A4.
  unfold apart in A1, A2, A3, A4. cbn zeta in A1, A2, A3, A4. cbn [area_size] in A1, A2, A3, A4.
  change (ring_size (layout_of c)) with (ring_length sub) in A1, A2, A3. change (data_region_size (layout_of c)) with (data_length sub) in A2, A3, A4.
  apply K; cbn [submission_ring completion_ring g_ring g_data] in *; change (ring_length comp) with (ring_length sub) in Ha;
    change (data_length comp) with (data_length sub) in Ha; lia.
Qed.
Lemma submission_kept m m' k : keeps_rest comp m m' -> 0 <= k < ring_capacity c ->
  agree m m' (data_at sub k) (data_slot_size c).
Proof.
  intros K Hk a Ha. destruct (config_valid c Hc Hl) as [Hv _]. pose proof (submission_ring_ok c i _ _ Hc Hv Hid Hgen) as G.
  pose proof (data_inside sub G k Hk) as [D1 D2]. cbn [submission_ring g_size g_data] in D1, D2.
  pose proof (lane_areas_apart c i i submission_data_area completions_area Hc Hv ltac:(congruence)) as A3.
  pose proof (lane_areas_apart c i i submission_data_area completion_data_area Hc Hv ltac:(congruence)) as A4.
  unfold apart in A3, A4. cbn zeta in A3, A4. cbn [area_size] in A3, A4.
  change (ring_size (layout_of c)) with (ring_length comp) in A3. change (data_region_size (layout_of c)) with (data_length comp) in A3, A4.
  change (data_length sub) with (data_length comp) in D2. apply K; cbn [submission_ring completion_ring g_ring g_data] in *; lia.
Qed.
End Lane.

(** A ring with nothing in it and nobody in the middle of an operation. *)
Definition drained (g : geometry) (s : ring_state) : Prop :=
  ring_reachable g s /\ s_prod s = None /\ s_cons s = None /\ s_c s = s_q s /\ ~ in_use s (s_q s - g_capacity g) /\ s_q s + g_capacity g < 2 ^ 64.

Section RoundTrip.
Context (c : TransportConfig) (Hc : config_ok c) (Hl : make_layout c = inr (layout_of c)) (i : Z) (Hi : 0 <= i < lane_count c)
  (client_id session_generation : Z) (Hid : in_u64 client_id) (Hgen : in_u64 session_generation).
Abbreviation sub := (submission_ring c i client_id session_generation).
Abbreviation comp := (completion_ring c i client_id session_generation).

Lemma request_arrives s cl d prefix tail signal : drained sub s -> active (s_mem s) = true -> header_client (s_mem s) = client_id ->
  header_session (s_mem s) = session_generation -> cl_session cl = session_of c -> in_u64 (cl_next_request cl) -> descriptor_ok d ->
  len prefix + len tail <= data_slot_size c ->
  let d' := place_descriptor (request_of (set_request_id d (assigned cl d)) client_id session_generation) (s_q s mod ring_capacity c) (len prefix + len tail) (s_q s) in
  exists next m1 a m2, try_submit_scattered cl true (s_mem s) i d prefix tail signal =
      Some (mk_submitted signal (Some (assigned cl d)) (mk_client (session_of c) next) m1) /\
    try_acquire_submission (session_of c) true m1 i None = Some (inr a, m2) /\ a = acquired_at sub (s_q s) d' (prefix ++ tail) /\
    nvm_read m2 (a_payload_length a) (a_payload a) = prefix ++ tail /\ keeps_rest sub (s_mem s) m2.
Proof.
  intros (Hr & Hp & Hk & Hq & Hf & Hb) Ha Hci Hsg Ecl Hn Hd Hlen d'. destruct (config_valid c Hc Hl) as [Hv _].
  pose proof (submission_ring_ok c i _ _ Hc Hv Hid Hgen) as G. pose proof (inv_reachable sub G s Hr) as H.
  destruct (submit_run c Hc Hl i Hi client_id session_generation Hid Hgen s cl d prefix tail signal) as (next & s' & E & Run & Es & K); try done.
  destruct (header_rest c Hc Hl i Hi client_id session_generation submissions_area submission_data_area _ _ K eq_refl eq_refl) as (Hc1 & Hs1 & _).
  destruct Run as (St & _ & _ & Ec & _ & _ & Ek). rewrite Hk in Ek.
  destruct (acquire_on_ring c i Hi client_id session_generation submissions_area submission_data_area v_submissions v_submission_data s' d' (prefix ++ tail))
    as (a & m2 & E2 & Ea & Er & K2); [done|done|done|by eapply inv_rtc|done|congruence|congruence|rewrite Ec, Hq, Es; apply lookup_insert_eq|].
  exists next, (s_mem s'), a, m2. split_and!; [done|done|by rewrite Ea, Ec, Hq|done|by eapply keeps_rest_trans].
Qed.
Lemma response_arrives t d payload signal none : drained comp t -> header_client (s_mem t) = client_id -> header_session (s_mem t) = session_generation ->
  descriptor_ok d -> d_request_id d <> 0 -> len payload <= data_slot_size c -> c_slot none = None ->
  let d' := place_descriptor (response_of d client_id session_generation) (s_q t mod ring_capacity c) (len payload) (s_q t) in
  exists r m1 m2 b m3, try_reserve_completion (session_of c) true (s_mem t) i none = Some (None, r, m1) /\
    publish_copy m1 r d payload signal = Some (signal, drop_slot r, m2) /\
    try_acquire_completion (session_of c) true m2 i None = Some (inr b, m3) /\ a_descriptor b = d' /\
    nvm_read m3 (a_payload_length b) (a_payload b) = payload /\ keeps_rest comp (s_mem t) m3.
Proof.
  intros (Hr & Hp & Hk & Hq & Hf & Hb) Hci Hsg Hd Hreq Hlen Hnone d'. destruct (config_valid c Hc Hl) as [Hv _].
  pose proof (completion_ring_ok c i _ _ Hc Hv Hid Hgen) as G. pose proof (inv_reachable comp G t Hr) as H.
  destruct (complete_run c Hc Hl i Hi client_id session_generation Hid Hgen t d payload signal H Hp Hf Hb Hci Hsg Hd Hreq Hlen none Hnone)
    as (r & m1 & t' & E1 & E2 & St & Ek & Ec & Es & K). rewrite Hk in Ek.
  destruct (header_rest c Hc Hl i Hi client_id session_generation completions_area completion_data_area _ _ K eq_refl eq_refl) as (Hc1 & Hs1 & _).
  destruct (acquire_on_ring c i Hi client_id session_generation completions_area completion_data_area v_completions v_completion_data t' d' payload)
    as (b & m3 & E3 & Eb & Er & K2); [done|done|done|by eapply inv_rtc|done|congruence|congruence|rewrite Ec, Hq, Es; apply lookup_insert_eq|].
  exists r, m1, (s_mem t'), b, m3. split_and!; [done|done|done|by rewrite Eb|done|by eapply keeps_rest_trans].
Qed.
(** The completion ring does not see the submission's stores. *)
Lemma drained_other t m : drained comp t -> keeps_rest sub (s_mem t) m ->
  exists t', drained comp t' /\ s_mem t' = m /\ s_q t' = s_q t.
Proof.
  intros ((t0 & H0 & St) & Hp & Hk & Hq & Hf & Hb) K. destruct t as [mt prod res cons leases q k sent recv].
  exists (mk_ring_state m prod res cons leases q k sent recv). split; [|done]. split_and!; try done.
  exists t0. split; [done|]. eapply rtc_r; [exact St|]. apply step_other. by apply lane_rings_apart.
Qed.
End RoundTrip.

(** C28: A remote call goes round.  On a lane of an active session whose two rings are
    drained, [try_submit_scattered] succeeds and gives the request a non-zero id; the
    server's [try_acquire_submission] then obtains that request, stamped with the
    session's identity, with the two parts of the payload joined; whatever response the
    server publishes in the completion slot it reserves, the client's
    [try_acquire_completion] obtains it with the same request id and the same bytes; and
    the server can still read the request it holds. *)
Theorem rpc_round_trip (c : TransportConfig) (i client_id session_generation : Z) (s t : ring_state) (cl : client_transport)
    (d d2 : IpcDescriptor) (prefix tail reply : list Z) (signal signal2 : option error_code) (none : CompletionReservation)
    (Hc : config_ok c) (Hl : make_layout c = inr (layout_of c)) (Hi : 0 <= i < lane_count c) (Hid : in_u64 client_id) (Hgen : in_u64 session_generation)
    (Hs : drained (submission_ring c i client_id session_generation) s) (Ht : drained (completion_ring c i client_id session_generation) t)
    (Hm : s_mem t = s_mem s) (Ha : active (s_mem s) = true) (Hci : header_client (s_mem s) = client_id)
    (Hsg : header_session (s_mem s) = session_generation) (Ecl : cl_session cl = session_of c) (Hn : in_u64 (cl_next_request cl))
    (Hd : descriptor_ok d) (Hlen : len prefix + len tail <= data_slot_size c)
    (Hd2 : descriptor_ok d2) (Hreq : d_request_id d2 = assigned cl d) (Hreply : len reply <= data_slot_size c) (Hnone : c_slot none = None) :
  let ses := session_of c in
  assigned cl d <> 0 /\
  exists next m1 a m2 r m3 m4 b m5,
    try_submit_scattered cl true (s_mem s) i d prefix tail signal = Some (mk_submitted signal (Some (assigned cl d)) (mk_client ses next) m1) /\
    try_acquire_submission ses true m1 i None = Some (inr a, m2) /\
    d_request_id (a_descriptor a) = assigned cl d /\ d_opcode (a_descriptor a) = d_opcode d /\ d_client_id (a_descriptor a) = client_id /\
    nvm_read m2 (a_payload_length a) (a_payload a) = prefix ++ tail /\
    try_reserve_completion ses true m2 i none = Some (None, r, m3) /\
    publish_copy m3 r d2 reply signal2 = Some (signal2, drop_slot r, m4) /\
    try_acquire_completion ses true m4 i None = Some (inr b, m5) /\
    d_request_id (a_descriptor b) = assigned cl d /\ d_status (a_descriptor b) = d_status d2 /\
    nvm_read m5 (a_payload_length b) (a_payload b) = reply /\
    nvm_read m5 (a_payload_length a) (a_payload a) = prefix ++ tail.
Proof.
  destruct (assigned_ok cl d Hd Hn) as [Hnz _]. cbn zeta. split; [done|]. destruct (config_valid c Hc Hl) as [Hv _].
  destruct (request_arrives c Hc Hl i Hi client_id session_generation Hid Hgen s cl d prefix tail signal Hs Ha Hci Hsg Ecl Hn Hd Hlen)
    as (next & m1 & a & m2 & E1 & E2 & Ea & Er & K). rewrite <-Hm in K.
  destruct (drained_other c Hc Hl i client_id session_generation t m2 Ht K) as (t' & Ht' & Em & Eq).
  destruct (header_rest c Hc Hl i Hi client_id session_generation submissions_area submission_data_area _ _ K eq_refl eq_refl) as (Hc1 & Hs1 & _).
  destruct (response_arrives c Hc Hl i Hi client_id session_generation Hid Hgen t' d2 reply signal2 none Ht')
    as (r & m3 & m4 & b & m5 & F1 & F2 & F3 & Fb & Fr & K'); [congruence|congruence|done|congruence|done|done|]. rewrite Em in F1, K'.
  exists next, m1, a, m2, r, m3, m4, b, m5. split_and!; try done.
  - rewrite Ea. by destruct d.
  - rewrite Ea. by destruct d.
  - rewrite Ea. by destruct d.
  - rewrite Fb, <-Hreq. by destruct d2.
  - rewrite Fb. by destruct d2.
  - rewrite <-Er. apply agree_read. rewrite Ea. cbn [acquired_at a_payload a_payload_length].
    pose proof (submission_ring_ok c i _ _ Hc Hv Hid Hgen) as G.
    eapply agree_sub; [eapply (submission_kept c Hc Hl i client_id session_generation Hid Hgen); [exact K'|apply (index_bounds _ G)]|done|].
    rewrite len_app. lia.
Qed.
Definition demo_memory : pmem := session_memory small_config (fun _ => 0) 1 102 1234.
Lemma demo_layout : make_layout small_config = inr (layout_of small_config).
Proof. vm_compute. reflexivity. Qed.
Lemma fresh_drained g m : ring_ready m (g_ring g) (g_capacity g) -> 2 <= g_capacity g <= kMaxRingCapacity -> drained g (fresh_ring m).
Proof.
  intros R Hb. unfold kMaxRingCapacity in Hb. split_and!; [by apply fresh_ring_reachable|done|done|done| |cbn; lia].
  intros [[? [=]]|[[? [=]]|U]]. cbn in U. lia.
Qed.
Lemma rpc_round_trip_witness : exists m1 next,
  try_submit_scattered (mk_client (session_of small_config) 1) true demo_memory 1 (mk_descriptor 0 0 0 4096 3 0 0 1 0 0 0 0 6 0 0) [10; 20] [30] None =
    Some (mk_submitted None (Some 1) (mk_client (session_of small_config) next) m1).
Proof.
  assert (config_ok small_config) as Hc by (by unfold config_ok).
  destruct (session_memory_ready small_config Hc demo_layout (fun _ => 0) 1 102 1234 ltac:(done) ltac:(done)) as (R & A & I & S). fold demo_memory in R, A, I, S.
  destruct (proj2 R 1 ltac:(done)) as (_ & R1 & R2).
  assert (forall id, in_u64 id -> descriptor_ok (mk_descriptor 0 0 id 4096 3 0 0 1 0 0 0 0 6 0 0)) as Hd by (intros id ?; unfold descriptor_ok; cbn; split_and!; done).
  destruct (rpc_round_trip small_config 1 1 102 (fresh_ring demo_memory) (fresh_ring demo_memory) (mk_client (session_of small_config) 1)
    (mk_descriptor 0 0 0 4096 3 0 0 1 0 0 0 0 6 0 0) (mk_descriptor 0 0 1 4096 3 0 0 1 0 0 0 0 6 0 0) [10; 20] [30] [40] None None
    (mk_reservation None None 0 0 0 0 0)) as (_ & next & m1 & _ & _ & _ & _ & _ & _ & _ & E & _);
    [done|exact demo_layout|done|done|done|by apply fresh_drained|by apply fresh_drained|done|done|done|done|done|done|by apply Hd|done|by apply Hd|done|done|done|].
  exists m1, next. exact E.
Defined.
