(* ===== verification/Server.v ===== *)
(** * The server of a session: handles and request handlers (class ServerSession of Async/server.cpp)

    A session keeps a table of handles, each with its inode, offset, flags and the gates
    that order its operations.  A handler runs here from its first to its last
    instruction; what the runtime answers to scheduling and to the acquisition of
    permits is given by [outcomes].  The interleaving of handlers on one handle is the
    subject of ServerHandle.v, the lanes of a session that of ServerLane.v. *)

From stdpp Require Import base tactics numbers list gmap strings relations.
From Stdlib Require Import ZArith Lia Ascii.
From S2P Require Import Prelude Bytes Layout Pmem DataPath Namespace Directory FileOps Ipc IpcRing Rpc.
Open Scope Z_scope.

(** ** Operations of the wire *)

Inductive Opcode :=
| oc_invalid | oc_connect | oc_ping | oc_open | oc_open_at | oc_close | oc_read | oc_write | oc_read_at | oc_write_at | oc_seek | oc_stat_path
| oc_stat_handle | oc_statfs | oc_mkdir | oc_rmdir | oc_unlink | oc_rename | oc_truncate_path | oc_truncate_handle | oc_open_directory
| oc_read_directory_batch | oc_close_directory | oc_sync | oc_set_flags | oc_shutdown_session | oc_raw_device_read | oc_raw_device_write
| oc_raw_device_flush | oc_open_directory_handle.
#[export] Instance opcode_eq_dec : EqDecision Opcode.
Proof. solve_decision. Defined.
(** In the order of their values, from 0. *)
Definition opcodes : list Opcode :=
  [oc_invalid; oc_connect; oc_ping; oc_open; oc_open_at; oc_close; oc_read; oc_write; oc_read_at; oc_write_at; oc_seek; oc_stat_path;
   oc_stat_handle; oc_statfs; oc_mkdir; oc_rmdir; oc_unlink; oc_rename; oc_truncate_path; oc_truncate_handle; oc_open_directory;
   oc_read_directory_batch; oc_close_directory; oc_sync; oc_set_flags; oc_shutdown_session; oc_raw_device_read; oc_raw_device_write;
   oc_raw_device_flush; oc_open_directory_handle].
(** A value beyond the enumeration is no operation. *)
Definition opcode_of (value : Z) : Opcode := default oc_invalid (opcodes !! Z.to_nat value).
Definition opcode_value (op : Opcode) : Z := Z.of_nat (default 0%nat (fst <$> list_find (eq op) opcodes)).
Definition opcode_bit (op : Opcode) : Z := Z.shiftl 1 (opcode_value op).
Definition has_bits (flags mask : Z) : bool := negb (Z.land flags mask =? 0).
Definition kHandleRequiredOpcodes : Z :=
  foldr Z.lor 0 (map opcode_bit [oc_read; oc_write; oc_read_at; oc_write_at; oc_seek; oc_stat_handle; oc_statfs; oc_truncate_handle;
    oc_open_directory_handle; oc_read_directory_batch; oc_sync; oc_set_flags]).
Definition opcode_requires_handle (value : Z) : bool := (value <? 64) && has_bits kHandleRequiredOpcodes (Z.shiftl 1 value).

(** ** Checks of arguments *)

Definition ESPIPE : Z := 29.
Definition ENOTSUP : Z := 95.
Definition ESHUTDOWN : Z := 108.
Definition O_WRONLY : Z := 1.
Definition O_RDWR : Z := 2.
Definition O_NOCTTY : Z := 0x100.
Definition O_APPEND : Z := 0x400.
Definition O_NONBLOCK : Z := 0x800.
Definition O_DSYNC : Z := 0x1000.
Definition O_CLOEXEC : Z := 0x80000.
Definition O_SYNC : Z := 0x101000.
Definition O_PATH : Z := 0x200000.
Definition O_TMPFILE : Z := 0x410000.
Definition O_LARGEFILE : Z := 0.

Definition validate_path (path : string) : Z :=
  if String.eqb path EmptyString then ENOENT else if UINT32_MAX <? Z.of_nat (String.length path) then ENAMETOOLONG else 0.
Definition synchronous_write_flags : Z := Z.lor O_SYNC O_DSYNC.
Definition supported_flags : Z :=
  foldr Z.lor 0 [O_ACCMODE; O_CREAT; O_EXCL; O_TRUNC; O_APPEND; O_NONBLOCK; synchronous_write_flags; O_CLOEXEC; O_NOCTTY; O_LARGEFILE; O_DIRECTORY].
Definition validate_open_flags (flags : Z) : Z :=
  let access_mode := Z.land flags O_ACCMODE in
  if negb (access_mode =? O_RDONLY) && negb (access_mode =? O_WRONLY) && negb (access_mode =? O_RDWR) then EINVAL
  else if has_bits flags O_PATH then EOPNOTSUPP
  else if Z.land flags O_TMPFILE =? O_TMPFILE then EOPNOTSUPP
  else if has_bits flags O_DIRECTORY && has_bits flags O_CREAT then EINVAL
  else if Z.land flags (Z.lnot supported_flags) =? 0 then 0 else EOPNOTSUPP.
Definition transient_flags : Z := foldr Z.lor 0 [O_CREAT; O_EXCL; O_TRUNC; O_CLOEXEC; O_NOCTTY].
Definition stored_open_flags (flags : Z) : Z := Z.land flags (Z.lnot transient_flags).
Definition validate_io_range (offset length : Z) : Z :=
  if (INT64_MAX <? offset) || (INT64_MAX - offset <? length) then EOVERFLOW else 0.

(** ** The file system below the server (include/orchfs/async/filesystem.hpp) *)

Definition OpenedNode : Type := Z * Z.  (** inode, type *)
(** The result of a call, and the file system after it.  A call that reports a count of
    bytes or entries is given by the bytes or entries themselves. *)
Class AsyncFilesystem (F : Type) := {
  fo_open : F -> string -> Z -> Z -> (Z + OpenedNode) * F;
  fo_open_at : F -> Z -> string -> Z -> Z -> (Z + OpenedNode) * F;
  fo_close : F -> OpenedNode -> (Z + unit) * F;
  fo_read : F -> Z -> Z -> Z -> (Z + list Z) * F;
  fo_write : F -> Z -> Z -> list Z -> bool -> (Z + Z * Z) * F;  (** bytes, and the offset of the first *)
  fo_stat_path : F -> string -> (Z + FileStat) * F;
  fo_stat : F -> Z -> (Z + FileStat) * F;
  fo_statfs : F -> Z -> (Z + FileSystemStat) * F;
  fo_seek : F -> Z -> Z -> Z -> Z -> (Z + Z) * F;
  fo_truncate_path : F -> string -> Z -> (Z + unit) * F;
  fo_truncate : F -> Z -> Z -> (Z + unit) * F;
  fo_sync : F -> Z -> (Z + unit) * F;
  fo_make_directory : F -> string -> Z -> (Z + unit) * F;
  fo_remove_directory : F -> string -> (Z + unit) * F;
  fo_unlink : F -> string -> (Z + unit) * F;
  fo_rename : F -> string -> string -> (Z + unit) * F;
  fo_open_directory_path : F -> string -> (Z + OpenedNode) * F;
  fo_open_directory : F -> Z -> (Z + OpenedNode) * F;
  fo_read_directory : F -> Z -> Z -> Z -> (Z + list DirEntry * Z) * F;  (** entries, and the next cursor *)
  fo_close_directory : F -> OpenedNode -> (Z + unit) * F;
  (* the device under it (AsyncBlockDevice) *)
  fo_device_read : F -> Z -> Z -> (Z + list Z) * F;
  fo_device_write : F -> Z -> list Z -> (Z + Z) * F;
  fo_device_flush : F -> (Z + unit) * F;
}.

(** ** Handles *)

Definition kDirectoryCursorInitial : Z := 2 * 256.
Definition kNotDirectoryCursor : Z := UINT64_MAX.
Record HandleState := mk_handle {
  h_inode : Z; h_type : Z; h_offset : Z; h_directory_cursor : Z; h_open_flags : Z; h_closing : bool; h_active_writes : Z;
}.
Definition is_directory_cursor (h : HandleState) : bool := negb (h_directory_cursor h =? kNotDirectoryCursor).
Definition set_offset (v : Z) (h : HandleState) : HandleState :=
  let 'mk_handle i t _ c f cl a := h in mk_handle i t v c f cl a.
Definition set_cursor (v : Z) (h : HandleState) : HandleState :=
  let 'mk_handle i t o _ f cl a := h in mk_handle i t o v f cl a.
Definition set_open_flags (v : Z) (h : HandleState) : HandleState :=
  let 'mk_handle i t o c _ cl a := h in mk_handle i t o c v cl a.
Definition set_closing (v : bool) (h : HandleState) : HandleState :=
  let 'mk_handle i t o c f _ a := h in mk_handle i t o c f v a.
Definition set_active_writes (v : Z) (h : HandleState) : HandleState :=
  let 'mk_handle i t o c f cl _ := h in mk_handle i t o c f cl v.
(** With nobody else between its instructions; see ServerHandle.v for the interleaved one. *)
Definition acquire_write (h : HandleState) : bool * HandleState :=
  if h_closing h then (false, h) else (true, set_active_writes (h_active_writes h + 1) h).
Definition release_write (h : HandleState) : HandleState := set_active_writes (h_active_writes h - 1) h.

Record server_state (F : Type) := mk_server {
  sv_fs : F; sv_handles : gmap Z HandleState; sv_next_handle : Z;
  sv_closing : bool; sv_stop_after_flush : bool; sv_stop_requested : bool; sv_shutdown_requested : bool;
}.
Arguments mk_server {F}. Arguments sv_fs {F}. Arguments sv_handles {F}. Arguments sv_next_handle {F}. Arguments sv_closing {F}.
Arguments sv_stop_after_flush {F}. Arguments sv_stop_requested {F}. Arguments sv_shutdown_requested {F}.

(** ** Completions *)

Definition set_status (d : IpcDescriptor) (v : Z) : IpcDescriptor :=
  let 'mk_descriptor ci sg ri off le rl gen pv rw ds pl _ op fl re := d in mk_descriptor ci sg ri off le rl gen pv rw ds pl v op fl re.
Definition set_result_length (d : IpcDescriptor) (v : Z) : IpcDescriptor :=
  let 'mk_descriptor ci sg ri off le _ gen pv rw ds pl st op fl re := d in mk_descriptor ci sg ri off le v gen pv rw ds pl st op fl re.
Definition set_descriptor_offset (d : IpcDescriptor) (v : Z) : IpcDescriptor :=
  let 'mk_descriptor ci sg ri _ le rl gen pv rw ds pl st op fl re := d in mk_descriptor ci sg ri v le rl gen pv rw ds pl st op fl re.

(** [k_slot]: what the handler has put into the reserved slot itself; its first
    [k_filled] bytes are the payload when that is not zero. *)
Record Completion := mk_completion { k_descriptor : IpcDescriptor; k_payload : list Z; k_filled : Z; k_slot : list Z }.
Definition errno_error (error : Z) : Z := if 0 <? error then error else EIO.
Definition fail (c : Completion) (error : Z) : Completion :=
  mk_completion (set_result_length (set_status (k_descriptor c) (- errno_error error)) 0) [] 0 (k_slot c).
Definition status (c : Completion) : Z := d_status (k_descriptor c).
Definition set_result (c : Completion) (v : Z) : Completion :=
  mk_completion (set_result_length (k_descriptor c) v) (k_payload c) (k_filled c) (k_slot c).
Definition set_payload (c : Completion) (payload : list Z) : Completion :=
  mk_completion (set_result_length (k_descriptor c) (len payload)) payload (k_filled c) (k_slot c).
Definition fill (c : Completion) (bytes : list Z) : Completion :=
  mk_completion (set_result_length (k_descriptor c) (len bytes)) (k_payload c) (len bytes) bytes.
(** What [pump_completions] publishes. *)
Definition response_payload (c : Completion) : list Z := if k_filled c =? 0 then k_payload c else take (Z.to_nat (k_filled c)) (k_slot c).
Definition new_completion (d : IpcDescriptor) : Completion := mk_completion (set_status (set_flags d FLAG_RESPONSE) 0) [] 0 [].

(** ** Handlers *)

(** Zero, or the error of: the hop of [dispatch], the hop of the handler, the two gates
    of the handle, the wait of a close for the writes; whether buffers can be had. *)
Record outcomes := mk_outcomes {
  o_dispatch : Z; o_schedule : Z; o_life : Z; o_life_release : Z; o_offset : Z; o_offset_release : Z; o_drain : Z; o_entries : bool; o_payload : bool;
}.

Section Handlers.
Context {F : Type} `{AsyncFilesystem F}.
Abbreviation st := (server_state F).
Abbreviation handler := (Completion -> st -> Completion * st).
Implicit Types (o : outcomes) (c : Completion) (s : st) (p : ParsedRequest).

Definition set_fs (f : F) (s : st) : st :=
  let 'mk_server _ h n cl sf sr sh := s in mk_server f h n cl sf sr sh.
Definition set_handles (m : gmap Z HandleState) (s : st) : st :=
  let 'mk_server f _ n cl sf sr sh := s in mk_server f m n cl sf sr sh.
Definition put_handle (id : Z) (h : HandleState) (s : st) : st := set_handles (<[id := h]> (sv_handles s)) s.

Definition find_handle (s : st) (id : Z) : option HandleState :=
  match sv_handles s !! id with
  | None => None
  | Some h => if h_closing h then None else Some h
  end.
Definition add_handle (s : st) (node : OpenedNode) (flags : Z) (directory_cursor : bool) : Z * st :=
  let h := mk_handle node.1 node.2 0 (if directory_cursor then kDirectoryCursorInitial else kNotDirectoryCursor) flags false 0 in
  let id := sv_next_handle s in
  let 'mk_server f m n cl sf sr sh := s in
  (id, mk_server f (match m !! id with Some _ => m (* emplace *) | None => <[id := h]> m end) (u64 (n + 1)) cl sf sr sh).
Definition mark_closing (s : st) (id : Z) (directory_cursor : bool) : option (HandleState * st) :=
  match sv_handles s !! id with
  | None => None
  | Some h =>
      if negb (Bool.eqb (is_directory_cursor h) directory_cursor) then None
      else if h_closing h then None
      else let h := set_closing true h in Some (h, put_handle id h s)
  end.
Definition erase_handle (s : st) (id : Z) : st := set_handles (delete id (sv_handles s)) s.

(** The end of a permit: its error counts when nothing failed before. *)
Definition released (error : Z) (c : Completion) : Completion :=
  if negb (error =? 0) && (status c =? 0) then fail c error else c.
(** The hop to the owner of the handle, and the permit of its lifecycle gate around the body. *)
Definition with_life o (body : handler) : handler := fun c s =>
  if negb (o_schedule o =? 0) then (fail c (o_schedule o), s)
  else if negb (o_life o =? 0) then (fail c (o_life o), s)
  else let '(c, s) := body c s in (released (o_life_release o) c, s).
(** The permit of the offset gate, where the body needs one. *)
Definition with_offset o (needed : bool) (body : handler) : handler := fun c s =>
  if needed then
    let c := if negb (o_offset o =? 0) then fail c (o_offset o) else c in
    let '(c, s) := body c s in
    (if o_offset o =? 0 then released (o_offset_release o) c else c, s)
  else body c s.
(** A call of the file system whose result goes into the completion. *)
Definition call {A} (r : (Z + A) * F) (c : Completion) (s : st) (ok : A -> Completion -> st -> Completion * st) : Completion * st :=
  let '(result, f) := r in
  match result with inl error => (fail c error, set_fs f s) | inr a => ok a c (set_fs f s) end.
Definition done_call : unit -> handler := fun _ c s => (c, s).

Definition do_open o p (directory : option HandleState) : handler := fun c s =>
  let q := p_request p in
  if negb (validate_path (p_path1 p) =? 0) then (fail c (validate_path (p_path1 p)), s)
  else if negb (validate_open_flags (q_open_flags q) =? 0) then (fail c (validate_open_flags (q_open_flags q)), s)
  else if match directory with Some h => negb (h_type h =? ORCHFS_CORE_DIRECTORY) | None => false end then (fail c ENOTDIR, s)
  else
    let body : handler := fun c s =>
      call (match directory with
            | Some h => fo_open_at (sv_fs s) (h_inode h) (p_path1 p) (q_open_flags q) (q_mode q)
            | None => fo_open (sv_fs s) (p_path1 p) (q_open_flags q) (q_mode q)
            end) c s (fun node c s =>
        if (node.1 <? 0) || (node.2 =? NODE_UNKNOWN) then (fail c EIO, s)
        else if has_bits (q_open_flags q) O_DIRECTORY && negb (node.2 =? ORCHFS_CORE_DIRECTORY)
        then (fail c ENOTDIR, set_fs (fo_close (sv_fs s) node).2 s)
        else let '(id, s) := add_handle s node (stored_open_flags (q_open_flags q)) false in (set_result c id, s)) in
    match directory with Some _ => with_life o body c s | None => body c s end.

(** The wait for writes and the file system's close come while the lifecycle gate is held;
    every failure takes the mark back. *)
Definition do_close o (id : Z) (directory_cursor : bool) : handler := fun c s =>
  if negb (o_schedule o =? 0) then (fail c (o_schedule o), s)
  else match mark_closing s id directory_cursor with
  | None => (fail c EBADF, s)
  | Some (h, s) =>
      let unmark s := set_handles (alter (set_closing false) id (sv_handles s)) s in
      if negb (o_life o =? 0) then (fail c (o_life o), unmark s)
      else if negb (o_drain o =? 0) then (fail c (o_drain o), unmark s)
      else
        let node := (h_inode h, h_type h) in
        let '(closed, f) := if directory_cursor then fo_close_directory (sv_fs s) node else fo_close (sv_fs s) node in
        let s := set_fs f s in
        match closed with
        | inl error => (released (o_life_release o) (fail c error), unmark s)
        | inr _ => (released (o_life_release o) c, erase_handle s id)
        end
  end.

(** [slot]: the size of a data slot ([config_.data_slot_size]). *)
Definition do_read o (slot : Z) p (id : Z) (h : HandleState) (implicit : bool) : handler := fun c s =>
  let q := p_request p in
  if negb (h_type h =? ORCHFS_CORE_REGULAR) || is_directory_cursor h then (fail c EISDIR, s)
  else if Z.land (h_open_flags h) O_ACCMODE =? O_WRONLY then (fail c EBADF, s)
  else if (slot <? q_length q) || (UINT64_MAX <? q_length q) then (fail c EMSGSIZE, s)
  else with_life o (with_offset o implicit (fun c s =>
    let c := if negb implicit && (q_offset q <? 0) then fail c EINVAL else c in
    let offset := if implicit then h_offset h else u64 (q_offset q) in
    let c := if (status c =? 0) && negb (validate_io_range offset (q_length q) =? 0) then fail c (validate_io_range offset (q_length q)) else c in
    if status c =? 0 then
      call (fo_read (sv_fs s) (h_inode h) offset (q_length q)) c s (fun bytes c s =>
        if q_length q <? len bytes then (fail c EIO, s)
        else (fill c bytes, if implicit then put_handle id (set_offset (u64 (offset + len bytes)) h) s else s))
    else (c, s))) c s.

Definition do_write o p (id : Z) (h : HandleState) (implicit : bool) : handler := fun c s =>
  let q := p_request p in
  if negb (h_type h =? ORCHFS_CORE_REGULAR) || is_directory_cursor h then (fail c EISDIR, s)
  else if Z.land (h_open_flags h) O_ACCMODE =? O_RDONLY then (fail c EBADF, s)
  else if negb (q_length q =? len (p_data p)) then (fail c EPROTO, s)
  else
    let '(held, h) := acquire_write h in
    if negb held then (fail c EBADF, s)
    else
      let s := put_handle id h s in
      let '(c, s) :=
        if negb (o_schedule o =? 0) then (fail c (o_schedule o), s)
        else
          let append := has_bits (h_open_flags h) O_APPEND in
          with_offset o (implicit || append) (fun c s =>
            let c := if negb implicit && (q_offset q <? 0) then fail c EINVAL else c in
            let offset := if implicit then h_offset h else u64 (q_offset q) in
            let c := if (status c =? 0) && negb append && negb (validate_io_range offset (q_length q) =? 0)
                     then fail c (validate_io_range offset (q_length q)) else c in
            if status c =? 0 then
              call (fo_write (sv_fs s) (h_inode h) offset (p_data p) append) c s (fun written c s =>
                if (len (p_data p) <? written.1) || negb (validate_io_range written.2 written.1 =? 0) then (fail c EIO, s)
                else
                  (mk_completion (set_descriptor_offset (set_result_length (k_descriptor c) written.1) written.2) (k_payload c) (k_filled c) (k_slot c),
                   if implicit || append then put_handle id (set_offset (u64 (written.2 + written.1)) h) s else s))
            else (c, s)) c s in
      (c, set_handles (alter release_write id (sv_handles s)) s).

Definition do_seek o p (id : Z) (h : HandleState) : handler := fun c s =>
  let q := p_request p in
  if negb (h_type h =? ORCHFS_CORE_REGULAR) || is_directory_cursor h then (fail c ESPIPE, s)
  else with_life o (fun c s =>
    if negb (o_offset o =? 0) then (fail c (o_offset o), s)
    else
      let '(c, s) := call (fo_seek (sv_fs s) (h_inode h) (h_offset h) (q_offset q) (q_whence q)) c s
        (fun v c s => (set_result c v, put_handle id (set_offset v h) s)) in
      (released (o_offset_release o) c, s)) c s.

Definition do_stat_path (path : string) : handler := fun c s =>
  if negb (validate_path path =? 0) then (fail c (validate_path path), s)
  else call (fo_stat_path (sv_fs s) path) c s (fun v c s => (set_payload c (encode_object [] v), s)).
Definition do_handle_stat o (h : HandleState) (op : Opcode) : handler :=
  with_life o (fun c s =>
    if decide (op = oc_statfs) then call (fo_statfs (sv_fs s) (h_inode h)) c s (fun v c s => (set_payload c (encode_object [] v), s))
    else call (fo_stat (sv_fs s) (h_inode h)) c s (fun v c s => (set_payload c (encode_object [] v), s))).
Definition do_path_mutation p (op : Opcode) : handler := fun c s =>
  let q := p_request p in
  let path1 := p_path1 p in
  if negb (validate_path path1 =? 0) then (fail c (validate_path path1), s)
  else if bool_decide (op = oc_rename) && negb (validate_path (p_path2 p) =? 0) then (fail c (validate_path (p_path2 p)), s)
  else
    let f := sv_fs s in
    call (match op with
          | oc_mkdir => fo_make_directory f path1 (q_mode q)
          | oc_rmdir => fo_remove_directory f path1
          | oc_unlink => fo_unlink f path1
          | oc_rename => fo_rename f path1 (p_path2 p)
          | _ => (inl EOPNOTSUPP, f)
          end) c s done_call.
Definition do_truncate_path p : handler := fun c s =>
  if negb (validate_path (p_path1 p) =? 0) then (fail c (validate_path (p_path1 p)), s)
  else call (fo_truncate_path (sv_fs s) (p_path1 p) (q_length (p_request p))) c s done_call.
Definition do_truncate_handle o p (h : HandleState) : handler := fun c s =>
  if negb (h_type h =? ORCHFS_CORE_REGULAR) || is_directory_cursor h then (fail c EISDIR, s)
  else if Z.land (h_open_flags h) O_ACCMODE =? O_RDONLY then (fail c EBADF, s)
  else with_life o (fun c s => call (fo_truncate (sv_fs s) (h_inode h) (q_length (p_request p))) c s done_call) c s.

Definition opened_directory : OpenedNode -> handler := fun node c s =>
  if negb (node.2 =? ORCHFS_CORE_DIRECTORY) || (node.1 <? 0) then (fail c ENOTDIR, s)
  else let '(id, s) := add_handle s node O_RDONLY true in (set_result c id, s).
Definition do_open_directory (path : string) : handler := fun c s =>
  if negb (validate_path path =? 0) then (fail c (validate_path path), s)
  else call (fo_open_directory_path (sv_fs s) path) c s opened_directory.
Definition do_open_directory_handle o (source : HandleState) : handler := fun c s =>
  if negb (h_type source =? ORCHFS_CORE_DIRECTORY) then (fail c ENOTDIR, s)
  else with_life o (fun c s => call (fo_open_directory (sv_fs s) (h_inode source)) c s opened_directory) c s.

Definition wire_entry (en : DirEntry) : RpcDirEntry :=
  let name := string_bytes (dr_name en) in
  mk_wire_entry (dr_inode en) (dr_offset en) (wire_size (A := RpcDirEntry)) (dr_type en) (u8 (len name)) (name ++ zeros (kRpcNameCapacity - len name)).
(** [None]: a name does not fit. *)
Fixpoint wire_entries (l : list DirEntry) : option (list Z) :=
  match l with
  | [] => Some []
  | en :: rest =>
      if kRpcNameCapacity <? len (string_bytes (dr_name en)) then None
      else match wire_entries rest with None => None | Some b => Some (encode_object (zeros 4) (wire_entry en) ++ b) end
  end.
Definition do_read_directory o (slot : Z) p (id : Z) (h : HandleState) : handler := fun c s =>
  let q := p_request p in
  if negb (h_type h =? ORCHFS_CORE_DIRECTORY) || negb (is_directory_cursor h) then (fail c ENOTDIR, s)
  else if slot / wire_size (A := RpcDirEntry) <? q_length q then (fail c EMSGSIZE, s)
  else with_life o (fun c s =>
    if negb (o_offset o =? 0) then (fail c (o_offset o), s)
    else
      let '(c, s) :=
        if negb (o_entries o) then (fail c ENOMEM, s)
        else call (fo_read_directory (sv_fs s) (h_inode h) (h_directory_cursor h) (q_length q)) c s (fun r c s =>
          let '(entries, next_cursor) := r in
          if q_length q <? Z.of_nat (length entries) then (fail c EIO, s)
          else if negb (o_payload o) then (fail c ENOMEM, s)
          else match wire_entries entries with
          | None => (fail c ENAMETOOLONG, s)
          | Some payload =>
              let d := set_result_length (k_descriptor c) (Z.of_nat (length entries)) in
              let d := if (length entries =? 0)%nat then set_flags d (Z.lor (d_flags d) FLAG_END_OF_STREAM) else d in
              (mk_completion d payload (k_filled c) (k_slot c), put_handle id (set_cursor next_cursor h) s)
          end) in
      (released (o_offset_release o) c, s)) c s.

Definition do_sync o (h : HandleState) : handler :=
  with_life o (fun c s => call (fo_sync (sv_fs s) (h_inode h)) c s done_call).
Definition F_GETFL : Z := 3.
Definition F_SETFL : Z := 4.
Definition mutable_flags : Z := Z.lor O_APPEND O_NONBLOCK.
Definition do_flags o p (id : Z) (h : HandleState) : handler :=
  let q := p_request p in
  with_life o (fun c s =>
    if q_value q =? F_GETFL then (set_result c (u64 (h_open_flags h)), s)
    else if q_value q =? F_SETFL then
      (c, put_handle id (set_open_flags (Z.lor (Z.land (h_open_flags h) (Z.lnot mutable_flags)) (Z.land (q_open_flags q) mutable_flags)) h) s)
    else (fail c EINVAL, s)).
Definition do_raw_device (slot : Z) p (op : Opcode) : handler := fun c s =>
  let q := p_request p in
  let offset := u64 (q_offset q) in
  if decide (op = oc_raw_device_flush) then call (fo_device_flush (sv_fs s)) c s done_call
  else if negb (validate_io_range offset (q_length q) =? 0) then (fail c (validate_io_range offset (q_length q)), s)
  else if decide (op = oc_raw_device_read) then
    if (slot <? q_length q) || (UINT64_MAX <? q_length q) then (fail c EMSGSIZE, s)
    else call (fo_device_read (sv_fs s) offset (q_length q)) c s (fun bytes c s =>
      if q_length q <? len bytes then (fail c EIO, s) else (fill c bytes, s))
  else if negb (q_length q =? len (p_data p)) then (fail c EPROTO, s)
  else call (fo_device_write (sv_fs s) offset (p_data p)) c s (fun written c s =>
    if negb (written =? len (p_data p)) then (fail c EIO, s) else (set_result c written, s)).
Definition do_shutdown : handler := fun c s =>
  if sv_shutdown_requested s then (fail c EALREADY, s)
  else let 'mk_server f m n _ _ sr _ := s in (c, mk_server f m n true true sr true).

(** ** Dispatch *)

Definition starts_with_slash (path : string) : bool := match path with String ch _ => Ascii.eqb ch "/"%char | EmptyString => false end.
Definition is_empty (path : string) : bool := String.eqb path EmptyString.
(** A parsed request on its worker. *)
Definition dispatch_parsed o (slot : Z) (incoming : IpcDescriptor) p (s : st) : Completion * st :=
  let c := new_completion incoming in
  let q := p_request p in
  let id := q_handle q in
  let found := if negb (id =? kInvalidRemoteHandle) then find_handle s id else None in
  let op := opcode_of (d_opcode incoming) in
  if negb (o_dispatch o =? 0) then (fail c (o_dispatch o), s)
  else
    let on_handle (k : HandleState -> handler) : Completion * st := match found with None => (fail c EBADF, s) | Some h => k h c s end in
    if opcode_requires_handle (d_opcode incoming) && match found with None => true | _ => false end then (fail c EBADF, s)
    else match op with
    | oc_connect | oc_ping => (c, s)
    | oc_open => do_open o p None c s
    | oc_open_at =>
        if match found with None => negb (is_empty (p_path1 p)) && negb (starts_with_slash (p_path1 p)) | Some _ => false end then (fail c EBADF, s)
        else do_open o p (if starts_with_slash (p_path1 p) then None else found) c s
    | oc_close => do_close o id false c s
    | oc_read => on_handle (fun h => do_read o slot p id h true)
    | oc_read_at => on_handle (fun h => do_read o slot p id h false)
    | oc_write => on_handle (fun h => do_write o p id h true)
    | oc_write_at => on_handle (fun h => do_write o p id h false)
    | oc_seek => on_handle (fun h => do_seek o p id h)
    | oc_stat_path => do_stat_path (p_path1 p) c s
    | oc_stat_handle | oc_statfs => on_handle (fun h => do_handle_stat o h op)
    | oc_mkdir | oc_rmdir | oc_unlink | oc_rename => do_path_mutation p op c s
    | oc_truncate_path => do_truncate_path p c s
    | oc_truncate_handle => on_handle (fun h => do_truncate_handle o p h)
    | oc_open_directory => do_open_directory (p_path1 p) c s
    | oc_open_directory_handle => on_handle (fun h => do_open_directory_handle o h)
    | oc_read_directory_batch => on_handle (fun h => do_read_directory o slot p id h)
    | oc_close_directory => do_close o id true c s
    | oc_sync => on_handle (fun h => do_sync o h)
    | oc_set_flags => on_handle (fun h => do_flags o p id h)
    | oc_shutdown_session => do_shutdown c s
    | oc_raw_device_read | oc_raw_device_write | oc_raw_device_flush => do_raw_device slot p op c s
    | oc_invalid => (fail c ENOTSUP, s)
    end.
Definition dispatch o (slot : Z) (incoming : IpcDescriptor) (payload : list Z) (s : st) : Completion * st :=
  match parse_request payload with
  | inl error => (fail (new_completion incoming) error, s)
  | inr p => dispatch_parsed o slot incoming p s
  end.

(** ** The end of a session *)

(** One handle of [cleanup_all_handles]: the first error stays.  [life] is what its gate
    answers, [release] what the release of the permit answers. *)
Definition cleanup_handle (life release : Z) (id : Z) (first_error : Z) (s : st) : Z * st :=
  match sv_handles s !! id with
  | None => (first_error, s)
  | Some h =>
      let s := put_handle id (set_closing true h) s in
      if negb (life =? 0) then (if first_error =? 0 then errno_error life else first_error, s)
      else
        let node := (h_inode h, h_type h) in
        let '(closed, f) := if is_directory_cursor h then fo_close_directory (sv_fs s) node else fo_close (sv_fs s) node in
        let first_error := match closed with inl error => if first_error =? 0 then errno_error error else first_error | inr _ => first_error end in
        let s := erase_handle (set_fs f s) id in
        (if negb (release =? 0) && (first_error =? 0) then errno_error release else first_error, s)
  end.
(** [order]: the handles of the table in the order in which the hash map yields them. *)
Fixpoint cleanup_handles (life release : Z -> Z) (order : list Z) (first_error : Z) (s : st) : Z * st :=
  match order with
  | [] => (first_error, s)
  | id :: order =>
      let '(first_error, s) := cleanup_handle (life id) (release id) id first_error s in
      cleanup_handles life release order first_error s
  end.
Definition cleanup_all_handles (schedule : Z) (life release : Z -> Z) (order : list Z) (s : st) : Z * st :=
  if negb (schedule =? 0) then (errno_error schedule, s) else cleanup_handles life release order 0 s.
End Handlers.
