(* ===== verification/ServerTypes.v ===== *)
(** * Requests keep a session well typed, and fail without a trace

    Invariants of the handle table and of completions under every handler of Server.v, by
    one lemma per combinator and handler; and that a request that fails leaves the table
    as it was. *)

From stdpp Require Import base tactics numbers list gmap strings relations.
From Stdlib Require Import ZArith Lia Ascii.
From S2P Require Import Prelude Bytes Layout Pmem DataPath Namespace Directory FileOps Ipc IpcRing Rpc Server.
Open Scope Z_scope.

(** ** Completions stay well formed *)

(** What every handler keeps of the completion it is given: the request it answers, a
    status that is zero or a negated error number, nothing but that status after a
    failure, and a payload that fits the slot. *)
Record completion_ok (slot : Z) (d : IpcDescriptor) (c : Completion) : Prop := {
  co_request : d_request_id (k_descriptor c) = d_request_id d;
  co_flags : d_flags (k_descriptor c) = FLAG_RESPONSE \/ d_flags (k_descriptor c) = Z.lor FLAG_RESPONSE FLAG_END_OF_STREAM;
  co_status : status c <= 0;
  co_failed : status c <> 0 -> d_result_length (k_descriptor c) = 0 /\ k_payload c = [] /\ k_filled c = 0;
  co_payload : len (k_payload c) <= slot;
  co_filled : 0 <= k_filled c <= len (k_slot c);
  co_slot : len (k_slot c) <= slot;
}.
Definition in_progress (slot : Z) (d : IpcDescriptor) (c : Completion) : Prop := completion_ok slot d c /\ status c = 0.

Section Completions.
Context (slot : Z) (d : IpcDescriptor).
Abbreviation ok := (completion_ok slot d).
Abbreviation live := (in_progress slot d).

Lemma errno_error_pos e : 0 < errno_error e.
Proof. unfold errno_error. destruct (Z.ltb_spec 0 e); [done|]. by vm_compute. Qed.
Lemma status_fail c e : status (fail c e) = - errno_error e.
Proof. unfold fail, status. by destruct c as [[] ? ? ?]. Qed.
Lemma failed_nonzero c e : status (fail c e) <> 0.
Proof. rewrite status_fail. pose proof (errno_error_pos e). lia. Qed.
Lemma fail_ok c e : 0 <= slot -> ok c -> ok (fail c e).
Proof.
  intros Hs [A1 A2 A3 A4 A5 A6 A7]. pose proof (errno_error_pos e). pose proof (status_fail c e). split; try done.
  - by destruct c as [[] ? ? ?].
  - by destruct c as [[] ? ? ?].
  - lia.
  - by destruct c as [[] ? ? ?].
  - cbn. pose proof (len_nonneg (k_slot c)). lia.
Qed.
Lemma fail_if_ok (b : bool) c e : 0 <= slot -> ok c -> ok (if b then fail c e else c).
Proof. intros. destruct b; [by apply fail_ok|done]. Qed.
Lemma passed (b : bool) c e : status (if b then fail c e else c) = 0 -> b = false /\ status c = 0.
Proof. destruct b; [|done]. intros E. by apply failed_nonzero in E. Qed.
Lemma released_ok c e : 0 <= slot -> ok c -> ok (released e c).
Proof. intros. unfold released. destruct (_ && _); [by apply fail_ok|done]. Qed.
Lemma set_result_ok c v : live c -> ok (set_result c v).
Proof. intros [[A1 A2 A3 A4 A5 A6 A7] E]. unfold set_result. destruct c as [[] ? ? ?]. cbn in *. by split. Qed.
Lemma set_payload_ok c b : live c -> len b <= slot -> ok (set_payload c b).
Proof. intros [[A1 A2 A3 A4 A5 A6 A7] E] ?. unfold set_payload. destruct c as [[] ? ? ?]. cbn in *. by split. Qed.
Lemma fill_ok c b : live c -> len b <= slot -> ok (fill c b).
Proof.
  intros [[A1 A2 A3 A4 A5 A6 A7] E] ?. unfold fill. destruct c as [[] ? ? ?]. cbn in *. split; try done. cbn. pose proof (len_nonneg b). lia.
Qed.
Lemma new_completion_live : 0 <= slot -> live (new_completion d).
Proof. intros. unfold new_completion. destruct d. split; [split|done]; cbn; first [done | by left | lia]. Qed.
Lemma response_fits c : ok c -> len (response_payload c) <= slot.
Proof.
  intros [A1 A2 A3 A4 A5 A6 A7]. unfold response_payload. destruct (k_filled c =? 0); [done|].
  unfold len in *. rewrite length_take. lia.
Qed.
End Completions.

(** ** Handles stay well formed *)

Definition valid_flags (flags : Z) : Prop := Z.land flags O_ACCMODE <> 3 /\ Z.land flags transient_flags = 0.
Record handle_ok (h : HandleState) : Prop := {
  ho_inode : 0 <= h_inode h;
  ho_type : h_type h = ORCHFS_CORE_DIRECTORY \/ h_type h = ORCHFS_CORE_REGULAR;
  ho_cursor : is_directory_cursor h = true -> h_type h = ORCHFS_CORE_DIRECTORY;
  ho_offset : 0 <= h_offset h <= INT64_MAX;
  ho_flags : valid_flags (h_open_flags h);
  ho_idle : h_closing h = false /\ h_active_writes h = 0;
}.
(** Between requests: every handle is well formed and was handed out by this session. *)
Record table_ok {F} (s : server_state F) : Prop := {
  to_next : 0 < sv_next_handle s < 2 ^ 64;
  to_handles : forall id h, sv_handles s !! id = Some h -> handle_ok h /\ 0 < id < sv_next_handle s;
}.
(** The ranges of what the calls on [f] return. *)
Record well_behaved {F} `{AsyncFilesystem F} (f : F) : Prop := {
  wb_open : forall path flags mode n f', fo_open f path flags mode = (inr n, f') -> n.2 = NODE_UNKNOWN \/ n.2 = ORCHFS_CORE_DIRECTORY \/ n.2 = ORCHFS_CORE_REGULAR;
  wb_open_at : forall i path flags mode n f', fo_open_at f i path flags mode = (inr n, f') -> n.2 = NODE_UNKNOWN \/ n.2 = ORCHFS_CORE_DIRECTORY \/ n.2 = ORCHFS_CORE_REGULAR;
  wb_write : forall i offset data append n f', 0 <= offset -> fo_write f i offset data append = (inr n, f') -> 0 <= n.1 /\ 0 <= n.2;
  wb_seek : forall i current offset whence v f', 0 <= current <= INT64_MAX -> fo_seek f i current offset whence = (inr v, f') -> 0 <= v <= INT64_MAX;
}.

Section Types.
Context {F : Type} `{AsyncFilesystem F} (slot : Z) (Hslot : 128 <= slot) (d : IpcDescriptor).
Abbreviation st := (server_state F).
Abbreviation handler := (Completion -> st -> Completion * st).
Implicit Types (s : st) (c : Completion).

Definition kept_as (Q : st -> Prop) (r : Completion * st) : Prop := completion_ok slot d r.1 /\ Q r.2.
Definition kept : Completion * st -> Prop := kept_as table_ok.
(** [f]: the file system the body starts with; one more handle can be numbered. *)
Definition ready_for (f : F) (s : st) : Prop := table_ok s /\ sv_fs s = f /\ sv_next_handle s + 1 < 2 ^ 64.
Definition keeps (P : st -> Prop) (k : handler) : Prop := forall c s, in_progress slot d c -> P s -> kept (k c s).
Lemma keeps_fail c e s : completion_ok slot d c -> table_ok s -> kept (fail c e, s).
Proof. intros. split; [|done]. apply fail_ok; [lia|done]. Qed.
Lemma table_set_fs f s : table_ok s -> table_ok (set_fs f s).
Proof. intros [? ?]. by destruct s. Qed.
Lemma table_put id h s : table_ok s -> is_Some (sv_handles s !! id) -> handle_ok h -> table_ok (put_handle id h s).
Proof.
  intros [A B] [h0 E] Hh. destruct (B _ _ E) as [_ Hid]. destruct s. cbn in *. split; [done|]. cbn. intros id' h'.
  rewrite lookup_insert_Some. intros [[<- <-]|[? ?]]; [done|by apply B].
Qed.
Lemma table_put_fs id h f s : table_ok s -> is_Some (sv_handles s !! id) -> handle_ok h -> table_ok (put_handle id h (set_fs f s)).
Proof. intros. apply table_put; [by apply table_set_fs| |done]. by destruct s. Qed.
Lemma keeps_call {A} (r : (Z + A) * F) c s k : in_progress slot d c -> table_ok s ->
  (forall a f', r = (inr a, f') -> table_ok (set_fs f' s) -> kept (k a c (set_fs f' s))) -> kept (call r c s k).
Proof.
  intros [Hc E] Hs Hk. unfold call. destruct r as [[error|a] f']; [apply keeps_fail; [done|by apply table_set_fs]|].
  apply Hk; [done|by apply table_set_fs].
Qed.
Lemma keeps_done r c s : in_progress slot d c -> table_ok s -> kept (call r c s done_call).
Proof. intros Hc Hs. apply keeps_call; [done|done|]. intros [] f' _ Hs'. by split; [apply Hc|]. Qed.
Lemma keeps_life P o k : (forall s, P s -> table_ok s) -> keeps P k -> keeps P (with_life o k).
Proof.
  intros HP Hk c s Hc Hs. unfold with_life. destruct (negb _); [apply keeps_fail; [apply Hc|by apply HP]|].
  destruct (negb _); [apply keeps_fail; [apply Hc|by apply HP]|]. destruct (Hk c s Hc Hs) as [A B]. destruct (k c s) as [c' s']. split; [|done].
  apply released_ok; [lia|done].
Qed.
(** The body may start with a completion that has failed. *)
Lemma keeps_offset (P Q : st -> Prop) o b (k : handler) : (forall c s, completion_ok slot d c -> P s -> kept_as Q (k c s)) ->
  forall c s, in_progress slot d c -> P s -> kept_as Q (with_offset o b k c s).
Proof.
  intros Hk c s Hc Hs. unfold with_offset. destruct b; [|apply Hk; [apply Hc|done]].
  set (c1 := if negb (o_offset o =? 0) then _ else _).
  assert (completion_ok slot d c1) as Hc1 by (unfold c1; destruct (negb _); [apply fail_ok; [lia|apply Hc]|apply Hc]).
  destruct (Hk c1 s Hc1 Hs) as [A B]. destruct (k c1 s) as [c' s']. split; [|done]. destruct (_ =? _); [|done]. apply released_ok; [lia|done].
Qed.

Lemma keeps_add c s f' node flags b : in_progress slot d c -> table_ok (set_fs f' s) -> sv_next_handle s + 1 < 2 ^ 64 -> 0 <= node.1 ->
  node.2 = ORCHFS_CORE_DIRECTORY \/ node.2 = ORCHFS_CORE_REGULAR -> (b = true -> node.2 = ORCHFS_CORE_DIRECTORY) -> valid_flags flags ->
  kept (let '(id, s) := add_handle (set_fs f' s) node flags b in (set_result c id, s)).
Proof.
  intros Hc [A B] Hn Hi Ht Hb Hf. destruct s as [f m n cl sf sr sh]. cbn in *. split; [by apply set_result_ok|]. cbn.
  split; cbn; rewrite u64_small by lia; [lia|]. intros id h. destruct (m !! n) eqn:E.
  { intros E'. destruct (B _ _ E'). split; [done|lia]. }
  rewrite lookup_insert_Some. intros [[<- <-]|[_ E']]; [|destruct (B _ _ E'); split; [done|lia]].
  split; [|lia]. split; cbn; try done. intros. by destruct b; [apply Hb|].
Qed.
Lemma stored_valid flags : validate_open_flags flags = 0 -> valid_flags (stored_open_flags flags).
Proof.
  intros Hv. unfold validate_open_flags in Hv. destruct (_ && _ && _) eqn:E in Hv; [done|]. clear Hv. unfold stored_open_flags. split.
  - rewrite <-Z.land_assoc, (Z.land_comm (Z.lnot _)), Z.land_assoc. intros E'.
    assert (Z.land flags O_ACCMODE = 3) as E3.
    { apply Z.bits_inj'. intros k Hk. apply (f_equal (fun z => Z.testbit z k)) in E'. rewrite !Z.land_spec in *.
      destruct (Z.testbit flags k), (Z.testbit O_ACCMODE k) eqn:Ek; cbn in *; try done; change O_ACCMODE with 3 in Ek; congruence. }
    by rewrite E3 in E.
  - rewrite <-Z.land_assoc, (Z.land_comm (Z.lnot _)). by rewrite Z.land_lnot_diag, Z.land_0_r.
Qed.

Context (f : F) (Hwb : well_behaved f).
Lemma ready_table s : ready_for f s -> table_ok s.
Proof. by intros [? _]. Qed.
Lemma ready_found s id h : ready_for f s -> find_handle s id = Some h -> handle_ok h /\ sv_handles s !! id = Some h.
Proof.
  intros [[_ B] _] E. unfold find_handle in E. destruct (sv_handles s !! id) eqn:E1; [|done]. destruct (h_closing _); [done|]. simplify_eq.
  by destruct (B _ _ E1).
Qed.
Lemma keeps_error c s e : in_progress slot d c -> ready_for f s -> kept (fail c e, s).
Proof. intros [Hc _] Hs. apply keeps_fail; [done|by apply ready_table]. Qed.
Hint Resolve keeps_error ready_table : core.
Lemma keeps_open o p dir : keeps (ready_for f) (do_open o p dir).
Proof.
  intros c s Hc Hs. unfold do_open. destruct (negb (validate_path _ =? 0)); [auto|].
  destruct (negb (validate_open_flags _ =? 0)) eqn:Ev; [auto|]. apply negb_false_iff, Z.eqb_eq, stored_valid in Ev.
  destruct (match dir with Some _ => _ | None => _ end); [auto|]. set (body := fun c s => call _ c s _).
  assert (keeps (ready_for f) body) as Hk; [|destruct dir; [by apply (keeps_life (ready_for f) o body ready_table)|by apply Hk]].
  clear c s Hc Hs. intros c s Hc Hs. unfold body. apply keeps_call; [done|auto|]. intros node f' E Hs'.
  assert (node.2 = NODE_UNKNOWN \/ node.2 = ORCHFS_CORE_DIRECTORY \/ node.2 = ORCHFS_CORE_REGULAR) as Ht.
  { destruct Hs as (_ & <- & _). destruct dir; [by eapply wb_open_at|by eapply wb_open]. }
  destruct (_ || _) eqn:E1; [by apply keeps_fail; [apply Hc|]|]. apply orb_false_elim in E1 as [E1 E2]. apply Z.ltb_ge in E1. apply Z.eqb_neq in E2.
  destruct (_ && _); [apply keeps_fail; [apply Hc|]; by apply table_set_fs|].
  apply keeps_add; [done|done|apply Hs|done|by destruct Ht|done|done].
Qed.
Lemma keeps_opened node c s f' : in_progress slot d c -> ready_for f s -> table_ok (set_fs f' s) -> kept (opened_directory node c (set_fs f' s)).
Proof.
  intros Hc Hs Hs'. unfold opened_directory. destruct (_ || _) eqn:E1; [by apply keeps_fail; [apply Hc|]|]. apply orb_false_elim in E1 as [E1 E2].
  apply Z.ltb_ge in E2. apply negb_false_iff, Z.eqb_eq in E1. apply keeps_add; [done|done|apply Hs|done|by left|done|]. by vm_compute.
Qed.
Lemma keeps_open_directory path : keeps (ready_for f) (do_open_directory path).
Proof.
  intros c s Hc Hs. unfold do_open_directory. destruct (negb _); [auto|]. apply keeps_call; [done|auto|]. intros. by apply keeps_opened.
Qed.
Lemma keeps_open_directory_handle o h : keeps (ready_for f) (do_open_directory_handle o h).
Proof.
  intros c s Hc Hs. unfold do_open_directory_handle. destruct (negb _); [auto|]. apply (keeps_life (ready_for f) o); [exact ready_table| |done|done].
  intros c' s' Hc' Hs'. apply keeps_call; [done|auto|]. intros. by apply keeps_opened.
Qed.
Lemma keeps_close o id b : keeps (ready_for f) (do_close o id b).
Proof.
  intros c s Hc Hs. unfold do_close. destruct (negb _); [auto|]. unfold mark_closing. destruct (sv_handles s !! id) as [h|] eqn:E; [|auto].
  destruct (negb _); [auto|]. destruct (h_closing h) eqn:Ec; [auto|]. destruct Hs as ([A B] & Hf & Hn). destruct s as [g m n cl sf sr sh]. cbn in E, B, A, Hn.
  assert (forall g' : F, table_ok (mk_server g' (alter (set_closing false) id (<[id:=set_closing true h]> m)) n cl sf sr sh)) as U.
  { intros g'. split; [done|]. cbn. intros id' h'. rewrite alter_insert_eq. replace (set_closing false _) with h by (destruct h; by cbn in *; subst).
    rewrite insert_id by done. apply B. }
  cbn. destruct (negb _); [by apply keeps_fail; [apply Hc|apply U]|]. destruct (negb _); [by apply keeps_fail; [apply Hc|apply U]|].
  destruct (if b then _ else _) as [[e|[]] f'].
  - split; [|apply U]. apply released_ok; [lia|]. apply fail_ok; [lia|apply Hc].
  - split; [apply released_ok; [lia|apply Hc]|]. split; [done|]. cbn. intros id' h'. rewrite lookup_delete_Some, lookup_insert_Some.
    intros [? [[? ?]|[? E']]]; [done|by apply B].
Qed.

Lemma handle_set_offset h v : handle_ok h -> 0 <= v <= INT64_MAX -> handle_ok (set_offset v h).
Proof. intros [] ?. by destruct h. Qed.
Lemma validate_io_range_ok offset length : validate_io_range offset length = 0 -> offset + length <= INT64_MAX.
Proof. unfold validate_io_range. destruct (_ || _) eqn:E; [done|]. apply orb_false_elim in E as [E1 E2]. apply Z.ltb_ge in E1, E2. lia. Qed.
Lemma live_if c : completion_ok slot d c -> (status c =? 0) = true -> in_progress slot d c.
Proof. intros Hc E. split; [done|]. by apply Z.eqb_eq. Qed.
(** The state in which a handler finds handle [id] to be [h]. *)
Definition holding (id : Z) (h : HandleState) (s : st) : Prop := ready_for f s /\ sv_handles s !! id = Some h.
Lemma holding_table id h s : holding id h s -> table_ok s.
Proof. by intros [[? _] _]. Qed.
Hint Resolve holding_table : core.
Lemma keeps_refuse id h c s e : in_progress slot d c -> holding id h s -> kept (fail c e, s).
Proof. intros [Hc _] Hs. apply keeps_fail; [done|eauto]. Qed.
Lemma holding_put id h h' f' s : holding id h s -> handle_ok h' -> table_ok (put_handle id h' (set_fs f' s)).
Proof. intros [[Hs _] E] Hh. by apply table_put_fs. Qed.
Lemma keeps_read o p id h b : 0 <= q_length (p_request p) -> handle_ok h -> keeps (holding id h) (do_read o slot p id h b).
Proof.
  intros Hq Hh c s Hc Hs. unfold do_read. destruct (_ || _); [by eapply keeps_refuse|]. destruct (_ =? _); [by eapply keeps_refuse|].
  destruct (_ || _) eqn:El; [by eapply keeps_refuse|]. apply orb_false_elim in El as [El _]. apply Z.ltb_ge in El.
  revert c s Hc Hs. apply keeps_life; [eauto|]. refine (keeps_offset _ table_ok _ _ _ _). intros c s Hc Hs.
  set (c1 := if negb b && _ then _ else c). assert (completion_ok slot d c1) as Hc1 by (apply fail_if_ok; [lia|done]).
  set (offset := if b then _ else _). assert (0 <= offset) as Ho by (unfold offset; destruct b; [apply Hh|apply u64_range]).
  set (c2 := if (status c1 =? 0) && _ then _ else c1). assert (completion_ok slot d c2) as Hc2 by (apply fail_if_ok; [lia|done]).
  destruct (status c2 =? 0) eqn:E; [|by split; [|eauto]]. pose proof (live_if c2 Hc2 E) as Hl.
  assert (validate_io_range offset (q_length (p_request p)) = 0) as Hv.
  { destruct (passed _ _ _ (proj2 Hl)) as [E1 E2]. apply andb_false_iff in E1 as [E1|E1]; [by apply Z.eqb_neq in E1|]. by apply negb_false_iff, Z.eqb_eq in E1. }
  apply validate_io_range_ok in Hv. clearbody c2 offset. clear c1 Hc1. apply keeps_call; [done|eauto|]. intros bytes f' _ Hs'.
  destruct (_ <? _) eqn:E3; [by apply keeps_fail|]. apply Z.ltb_ge in E3. split; [apply fill_ok; [done|lia]|]. destruct b; [|done].
  apply (holding_put id h); [done|]. apply handle_set_offset; [done|]. pose proof (len_nonneg bytes). unfold INT64_MAX in *. rewrite u64_small; lia.
Qed.
Lemma keeps_seek o p id h : handle_ok h -> keeps (holding id h) (do_seek o p id h).
Proof.
  intros Hh c s Hc Hs. unfold do_seek. destruct (_ || _); [by eapply keeps_refuse|]. revert c s Hc Hs. apply keeps_life; [eauto|]. intros c s Hc Hs.
  destruct (negb _); [by eapply keeps_refuse|].
  match goal with |- kept (let '(_, _) := ?r in _) => assert (kept r) as [A B] end.
  { apply keeps_call; [done|eauto|]. intros v f' E Hs'. rewrite (proj1 (proj2 (proj1 Hs))) in E. split; [by apply set_result_ok|].
    apply (holding_put id h); [done|]. apply handle_set_offset; [done|]. eapply wb_seek; [done| |exact E]. apply Hh. }
  destruct (call _ _ _ _) as [c' s']. split; [|done]. apply released_ok; [lia|done].
Qed.
Lemma keeps_stat_path path : keeps (ready_for f) (do_stat_path path).
Proof.
  intros c s Hc Hs. unfold do_stat_path. destruct (negb _); [auto|]. apply keeps_call; [done|auto|]. intros v f' _ Hs'. split; [|done].
  apply set_payload_ok; [done|]. by change (len (encode_object [] v)) with 128.
Qed.
Lemma keeps_handle_stat o h op : keeps (ready_for f) (do_handle_stat o h op).
Proof.
  apply keeps_life; [auto|]. intros c s Hc Hs. destruct (decide _); apply keeps_call; try done; auto; intros v f' _ Hs'; (split; [|done]).
  - apply set_payload_ok; [done|]. change (len (encode_object [] v)) with 80. lia.
  - apply set_payload_ok; [done|]. by change (len (encode_object [] v)) with 128.
Qed.
Lemma keeps_path_mutation p op : keeps (ready_for f) (do_path_mutation p op).
Proof. intros c s Hc Hs. unfold do_path_mutation. destruct (negb _); [auto|]. destruct (_ && _); [auto|]. apply keeps_done; auto. Qed.
Lemma keeps_truncate_path p : keeps (ready_for f) (do_truncate_path p).
Proof. intros c s Hc Hs. unfold do_truncate_path. destruct (negb _); [auto|]. apply keeps_done; auto. Qed.
Lemma keeps_truncate_handle o p h : keeps (ready_for f) (do_truncate_handle o p h).
Proof.
  intros c s Hc Hs. unfold do_truncate_handle. destruct (_ || _); [auto|]. destruct (_ =? _); [auto|]. revert c s Hc Hs. apply keeps_life; [auto|].
  intros c s Hc Hs. apply keeps_done; auto.
Qed.
Lemma keeps_sync o h : keeps (ready_for f) (do_sync o h).
Proof. apply keeps_life; [auto|]. intros c s Hc Hs. apply keeps_done; auto. Qed.

(** While a write runs, its handle counts it. *)
Definition writing (id n : Z) (m : gmap Z HandleState) (s : st) : Prop :=
  sv_next_handle s = n /\ exists h, sv_handles s = <[id := h]> m /\ handle_ok (release_write h).
Lemma handle_write h : handle_ok h -> handle_ok (release_write (set_active_writes (h_active_writes h + 1) h)).
Proof. intros []. destruct h. cbn in *. split; try done. cbn. split; [apply ho_idle0|]. destruct ho_idle0. lia. Qed.
Lemma handle_write_offset h v : handle_ok (release_write h) -> 0 <= v <= INT64_MAX -> handle_ok (release_write (set_offset v h)).
Proof. intros Hh Hv. apply (handle_set_offset _ _ Hh) in Hv. by destruct h. Qed.
Lemma keeps_write_body o p id h b append m n : handle_ok (release_write h) -> 0 <= q_length (p_request p) ->
  forall c s, in_progress slot d c -> sv_fs s = f /\ sv_handles s = <[id := h]> m /\ sv_next_handle s = n ->
  kept_as (writing id n m) (with_offset o (b || append) (fun c s =>
    let q := p_request p in
    let c := if negb b && (q_offset q <? 0) then fail c EINVAL else c in
    let offset := if b then h_offset h else u64 (q_offset q) in
    let c := if (status c =? 0) && negb append && negb (validate_io_range offset (q_length q) =? 0)
             then fail c (validate_io_range offset (q_length q)) else c in
    if status c =? 0 then
      call (fo_write (sv_fs s) (h_inode h) offset (p_data p) append) c s (fun written c s =>
        if (len (p_data p) <? written.1) || negb (validate_io_range written.2 written.1 =? 0) then (fail c EIO, s)
        else
          (mk_completion (set_descriptor_offset (set_result_length (k_descriptor c) written.1) written.2) (k_payload c) (k_filled c) (k_slot c),
           if b || append then put_handle id (set_offset (u64 (written.2 + written.1)) h) s else s))
    else (c, s)) c s).
Proof.
  intros Hh Hq. refine (keeps_offset (fun s => sv_fs s = f /\ sv_handles s = <[id := h]> m /\ sv_next_handle s = n) _ _ _ _ _). intros c s Hc Hs. cbn zeta.
  assert (forall f', writing id n m (set_fs f' s)) as W.
  { intros f'. destruct Hs as (_ & E1 & E2), s. cbn in *. split; [done|]. by exists h. }
  set (c1 := if negb b && _ then _ else c). assert (completion_ok slot d c1) as Hc1 by (apply fail_if_ok; [lia|done]).
  set (offset := if b then _ else _).
  assert (0 <= offset) as Ho by (unfold offset; destruct b; [apply ho_offset in Hh; destruct h; cbn in *; lia|apply u64_range]).
  set (c2 := if (status c1 =? 0) && _ && _ then _ else c1).
  assert (completion_ok slot d c2) as Hc2 by (apply fail_if_ok; [lia|done]). clearbody c2 offset. clear c1 Hc1.
  destruct (status c2 =? 0) eqn:E; [|split; [done|]; specialize (W (sv_fs s)); by destruct s]. pose proof (live_if c2 Hc2 E) as [_ Hl].
  unfold call. destruct (fo_write _ _ _ _ _) as [[e|[bytes at_]] f'] eqn:Ew; [split; [apply fail_ok; [lia|done]|apply W]|]. cbn [fst snd].
  destruct (_ || _) eqn:E3; [split; [apply fail_ok; [lia|done]|apply W]|]. apply orb_false_elim in E3 as [E3 E4]. apply negb_false_iff, Z.eqb_eq in E4.
  apply validate_io_range_ok in E4. rewrite (proj1 Hs) in Ew. apply (wb_write _ Hwb) in Ew as [B1 B2]; [|done]. cbn in B1, B2.
  split.
  - destruct Hc2 as [A1 A2 A3 A4 A5 A6 A7], c2 as [[] ? ? ?]. cbn in *. by split.
  - destruct (b || append); [|apply W]. destruct Hs as (_ & E1 & E2), s. cbn in *. split; [done|]. exists (set_offset (u64 (at_ + bytes)) h).
    split; [cbn; by rewrite E1, insert_insert_eq|]. apply handle_write_offset; [done|]. unfold INT64_MAX in *. rewrite u64_small; lia.
Qed.
Lemma keeps_write o p id h b : 0 <= q_length (p_request p) -> handle_ok h -> keeps (holding id h) (do_write o p id h b).
Proof.
  intros Hq Hh c s Hc Hs. unfold do_write. destruct (_ || _); [by eapply keeps_refuse|]. destruct (_ =? _); [by eapply keeps_refuse|].
  destruct (negb _); [by eapply keeps_refuse|]. unfold acquire_write. rewrite (proj1 (ho_idle _ Hh)). cbn [negb].
  set (h1 := set_active_writes _ h).
  match goal with |- kept (let '(_, _) := ?r in _) => assert (kept_as (writing id (sv_next_handle s) (sv_handles s)) r) as [A B] end.
  - destruct (negb _).
    + split; [apply fail_ok; [lia|apply Hc]|]. destruct s. cbn. split; [done|]. exists h1. split; [done|]. by apply handle_write.
    + apply keeps_write_body; [by apply handle_write|done|done|]. destruct Hs as [(_ & Hf & _) _]. by destruct s.
  - match goal with |- kept (let '(_, _) := ?r in _) => destruct r as [c' s'] end. split; [done|]. cbn in B. destruct B as (En & h' & Em & Hh').
    destruct Hs as [([T1 T2] & _ & _) Ei]. destruct s'. cbn in *. subst. split; [done|]. cbn. rewrite alter_insert_eq. intros id' h2.
    rewrite lookup_insert_Some. intros [[<- <-]|[_ E']]; [|by apply T2]. split; [done|]. by apply (T2 _ _ Ei).
Qed.

Lemma len_entry en : len (string_bytes (dr_name en)) <= kRpcNameCapacity -> len (encode_object (zeros 4) (wire_entry en)) = 256.
Proof.
  intros E. unfold encode_object. rewrite len_app. change (wire_fields (wire_entry en)) with (entry_fields (wire_entry en)).
  unfold entry_fields. rewrite !len_app, !len_le_bytes. change (w_name (wire_entry en)) with (string_bytes (dr_name en) ++ zeros (kRpcNameCapacity - len (string_bytes (dr_name en)))).
  rewrite ?len_app, !len_zeros by lia. unfold kRpcNameCapacity. lia.
Qed.
Lemma len_entries l payload : wire_entries l = Some payload -> len payload = 256 * Z.of_nat (length l).
Proof.
  revert payload. induction l as [|en l IH]; intros payload; cbn [wire_entries]; [by intros [= <-]|].
  destruct (_ <? _) eqn:E; [done|]. apply Z.ltb_ge in E. destruct (wire_entries l) as [b|]; [|done]. intros E'. apply (inj Some) in E' as <-.
  rewrite len_app, len_entry, (IH b) by done. cbn [length]. lia.
Qed.
Lemma handle_set_cursor h v : handle_ok h -> h_type h = ORCHFS_CORE_DIRECTORY -> handle_ok (set_cursor v h).
Proof. intros [] ?. by destruct h. Qed.
Lemma keeps_read_directory o p id h : handle_ok h -> keeps (holding id h) (do_read_directory o slot p id h).
Proof.
  intros Hh c s Hc Hs. unfold do_read_directory. destruct (_ || _) eqn:Et; [by eapply keeps_refuse|]. apply orb_false_elim in Et as [Et _].
  apply negb_false_iff, Z.eqb_eq in Et. destruct (_ <? _) eqn:El; [by eapply keeps_refuse|]. apply Z.ltb_ge in El. cbn in El.
  revert c s Hc Hs. apply keeps_life; [eauto|]. intros c s Hc Hs. destruct (negb _); [by eapply keeps_refuse|].
  match goal with |- kept (let '(_, _) := ?r in _) => assert (kept r) as [A B]; [|destruct r as [c' s']; split; [apply released_ok; [lia|done]|done]] end.
  destruct (negb _); [by eapply keeps_refuse|]. apply keeps_call; [done|eauto|]. intros [entries next] f' _ Hs'.
  destruct (_ <? _) eqn:E1; [apply keeps_fail; [apply Hc|done]|]. apply Z.ltb_ge in E1. destruct (negb _); [apply keeps_fail; [apply Hc|done]|].
  destruct (wire_entries entries) as [payload|] eqn:Ew; [|apply keeps_fail; [apply Hc|done]]. apply len_entries in Ew.
  split; [|apply (holding_put id h); [done|by apply handle_set_cursor]]. pose proof (Z.mul_div_le slot 256 ltac:(lia)).
  destruct Hc as [[A1 A2 A3 A4 A5 A6 A7] E], c as [[] ? ? ?]. cbn in *. destruct (_ =? _)%nat; split; cbn; try done; try lia.
  destruct A2 as [-> | ->]; by right.
Qed.
Lemma valid_flags_set flags requested : valid_flags flags -> valid_flags (Z.lor (Z.land flags (Z.lnot mutable_flags)) (Z.land requested mutable_flags)).
Proof.
  intros [A B]. split.
  - rewrite Z.land_lor_distr_l, <-!Z.land_assoc. change (Z.land mutable_flags O_ACCMODE) with 0.
    change (Z.land (Z.lnot mutable_flags) O_ACCMODE) with O_ACCMODE. by rewrite Z.land_0_r, Z.lor_0_r.
  - rewrite Z.land_lor_distr_l, <-!Z.land_assoc. change (Z.land mutable_flags transient_flags) with 0.
    change (Z.land (Z.lnot mutable_flags) transient_flags) with transient_flags. by rewrite Z.land_0_r, Z.lor_0_r.
Qed.
Lemma keeps_flags o p id h : handle_ok h -> keeps (holding id h) (do_flags o p id h).
Proof.
  intros Hh. apply keeps_life; [eauto|]. intros c s Hc Hs. destruct (_ =? _); [by split; [apply set_result_ok|eauto]|].
  destruct (_ =? _); [|by eapply keeps_refuse]. split; [apply Hc|]. destruct Hs as [[Hs _] Eh]. apply table_put; [done|done|].
  destruct Hh, h. cbn in *. split; try done. by apply valid_flags_set.
Qed.
Lemma keeps_raw_device p op : keeps (ready_for f) (do_raw_device slot p op).
Proof.
  intros c s Hc Hs. unfold do_raw_device. destruct (decide _); [apply keeps_done; auto|]. destruct (negb _); [auto|].
  destruct (decide _).
  - destruct (_ || _) eqn:El; [auto|]. apply orb_false_elim in El as [El _]. apply Z.ltb_ge in El. apply keeps_call; [done|auto|].
    intros bytes f' _ Hs'. destruct (_ <? _) eqn:E; [apply keeps_fail; [apply Hc|done]|]. apply Z.ltb_ge in E. split; [apply fill_ok; [done|lia]|done].
  - destruct (negb _); [auto|]. apply keeps_call; [done|auto|]. intros written f' _ Hs'. destruct (negb _); [apply keeps_fail; [apply Hc|done]|].
    by split; [apply set_result_ok|].
Qed.
Lemma keeps_shutdown : keeps (ready_for f) do_shutdown.
Proof.
  intros c s Hc Hs. unfold do_shutdown. destruct (sv_shutdown_requested s); [auto|]. destruct Hs as [[A B] _], s. split; [apply Hc|]. by split.
Qed.
End Types.

Lemma dispatch_kept {F} `{AsyncFilesystem F} (slot : Z) (o : outcomes) (incoming : IpcDescriptor) (payload : list Z) (s : server_state F)
    (Hslot : 128 <= slot) (Hb : bytes_ok payload) (Hs : table_ok s) (Hn : sv_next_handle s + 1 < 2 ^ 64) (Hwb : well_behaved (sv_fs s)) :
  let '(c, s') := dispatch o slot incoming payload s in
  completion_ok slot incoming c /\ len (response_payload c) <= slot /\ table_ok s'.
Proof.
  assert (kept slot incoming (dispatch o slot incoming payload s)) as [A B];
    [|destruct (dispatch o slot incoming payload s) as [c s']; split; [done|split; [|done]]; by eapply response_fits].
  assert (ready_for (sv_fs s) s) as R by done. pose proof (new_completion_live slot incoming ltac:(lia)) as Hc. unfold dispatch.
  destruct (parse_request payload) as [e|p] eqn:Ep; [by apply keeps_fail; [|apply Hc|]|]. unfold dispatch_parsed. apply parse_partition in Ep as (_ & Eq & _); [|done].
  assert (0 <= q_length (p_request p)) as Hq by (rewrite Eq; by apply rd_u64_range).
  destruct (negb (o_dispatch o =? 0)); [by apply keeps_fail; [|apply Hc|]|].
  set (found := if negb (q_handle (p_request p) =? kInvalidRemoteHandle) then find_handle s (q_handle (p_request p)) else None).
  destruct (_ && _); [by apply keeps_fail; [|apply Hc|]|].
  assert (forall k : HandleState -> Completion -> server_state F -> Completion * server_state F, (forall h, handle_ok h -> keeps slot incoming (holding (sv_fs s) (q_handle (p_request p)) h) (k h)) ->
    kept slot incoming (match found with None => (fail (new_completion incoming) EBADF, s) | Some h => k h (new_completion incoming) s end)) as Hon.
  { intros k Hk. destruct found as [h|] eqn:Ef; [|by apply keeps_fail; [|apply Hc|]]. unfold found in Ef. destruct (negb _); [|done].
    destruct (ready_found _ _ _ _ R Ef) as [Hh El]. by apply (Hk h Hh). }
  assert (forall k : HandleState -> Completion -> server_state F -> Completion * server_state F, (forall h, keeps slot incoming (ready_for (sv_fs s)) (k h)) ->
    kept slot incoming (match found with None => (fail (new_completion incoming) EBADF, s) | Some h => k h (new_completion incoming) s end)) as Hon'.
  { intros k Hk. apply (Hon k). intros h Hh c s' Hc' [Hs' _]. by apply Hk. }
  assert (forall e, kept slot incoming (fail (new_completion incoming) e, s)) as He by (intros e; by apply keeps_fail; [|apply Hc|]).
  destruct (opcode_of _); try apply He.
  all: try (by split; [apply Hc|]).
  all: try refine (Hon (fun h => do_read o slot p _ h _) (fun h Hh => keeps_read slot Hslot incoming _ o p _ h _ Hq Hh)).
  all: try refine (Hon (fun h => do_write o p _ h _) (fun h Hh => keeps_write slot Hslot incoming _ Hwb o p _ h _ Hq Hh)).
  all: try refine (Hon' (fun h => do_handle_stat o h _) (fun h => keeps_handle_stat slot Hslot incoming _ o h _)).
  all: try (eapply Hon; intros h Hh; first [eapply keeps_seek | eapply keeps_flags | eapply keeps_read_directory]; eassumption).
  all: try (eapply Hon'; intros h; first [eapply keeps_truncate_handle | eapply keeps_sync | eapply keeps_open_directory_handle]; eassumption).
  all: try (first [refine (keeps_open slot Hslot incoming _ Hwb _ _ _ _ _ Hc R) | refine (keeps_close slot Hslot incoming _ _ _ _ _ _ Hc R)
    | refine (keeps_stat_path slot Hslot incoming _ _ _ _ Hc R) | refine (keeps_path_mutation slot Hslot incoming _ _ _ _ _ Hc R)
    | refine (keeps_truncate_path slot Hslot incoming _ _ _ _ Hc R) | refine (keeps_open_directory slot Hslot incoming _ _ _ _ Hc R)
    | refine (keeps_shutdown slot Hslot incoming _ _ _ Hc R) | refine (keeps_raw_device slot Hslot incoming _ _ _ _ _ Hc R)]).
  destruct (match found with Some _ => _ | None => _ end); [apply He|]. refine (keeps_open slot Hslot incoming _ Hwb _ _ _ _ _ Hc R).
Qed.

(** ** Failures *)

Section Failures.
Context {F : Type} `{AsyncFilesystem F}.
Abbreviation st := (server_state F).
Abbreviation handler := (Completion -> st -> Completion * st).
Implicit Types (s : st) (c : Completion).

(** The parts of a session that only a successful request may change. *)
Definition untouched (s s' : st) : Prop := sv_handles s' = sv_handles s /\ sv_next_handle s' = sv_next_handle s.
Definition clean (s : st) (r : Completion * st) : Prop := status r.1 <> 0 -> untouched s r.2.
Definition atomic (k : handler) : Prop := forall c s, status c = 0 -> clean s (k c s).

Lemma untouched_fs f s : untouched s (set_fs f s).
Proof. by destruct s. Qed.
Lemma clean_same s c : clean s (c, s).
Proof. done. Qed.
Lemma clean_fs s c f : clean s (c, set_fs f s).
Proof. intros _. apply untouched_fs. Qed.
Lemma clean_call {A} (r : (Z + A) * F) c s k : (forall a f', r = (inr a, f') -> clean s (k a c (set_fs f' s))) -> clean s (call r c s k).
Proof. intros Hk. unfold call. destruct r as [[e|a] f']; [apply clean_fs|by apply Hk]. Qed.
Lemma clean_done r c s : clean s (call r c s done_call).
Proof. apply clean_call. intros [] f' _. apply clean_fs. Qed.
Lemma atomic_life o k : o_life_release o = 0 -> atomic k -> atomic (with_life o k).
Proof.
  intros Ho Hk c s Hc. unfold with_life. destruct (negb _); [apply clean_same|]. destruct (negb _); [apply clean_same|].
  specialize (Hk c s Hc). destruct (k c s) as [c' s']. unfold released. by rewrite Ho.
Qed.
Lemma clean_offset o b (k : handler) c s : o_offset_release o = 0 -> (forall c s, clean s (k c s)) -> clean s (with_offset o b k c s).
Proof.
  intros Ho Hk. unfold with_offset. destruct b; [|apply Hk]. set (c1 := if negb _ then fail c _ else c). specialize (Hk c1 s). destruct (k c1 s) as [c' s'].
  unfold released. rewrite Ho. by destruct (o_offset o =? 0).
Qed.
Lemma atomic_add c s f node flags b : status c = 0 -> clean s (let '(id, s) := add_handle (set_fs f s) node flags b in (set_result c id, s)).
Proof. intros Hc. destruct s. cbn. intros E. exfalso. apply E. by destruct c as [[] ? ? ?]. Qed.
Lemma status_set_result c v : status (set_result c v) = status c.
Proof. by destruct c as [[] ? ? ?]. Qed.

Context (o : outcomes) (Hlife : o_life_release o = 0) (Hoffset : o_offset_release o = 0).
Lemma atomic_open p dir : atomic (do_open o p dir).
Proof.
  intros c s Hc. unfold do_open. do 3 (destruct (_ : bool); [apply clean_same|]). set (body := fun c s => call _ c s _).
  assert (atomic body) as Hk; [|destruct dir; [by apply (atomic_life o body)|by apply Hk]]. clear c s Hc. intros c s Hc. apply clean_call.
  intros node f' _. destruct (_ || _); [apply clean_fs|]. destruct (_ && _); [|by apply atomic_add].
  intros _. destruct s. done.
Qed.
Lemma clean_opened node c s f : status c = 0 -> clean s (opened_directory node c (set_fs f s)).
Proof. intros Hc. unfold opened_directory. destruct (_ || _); [apply clean_fs|by apply atomic_add]. Qed.
Lemma clean_close id b c s : status c = 0 -> clean s (do_close o id b c s).
Proof.
  intros Hc. unfold do_close. destruct (negb _); [apply clean_same|]. unfold mark_closing. destruct (sv_handles s !! id) as [h|] eqn:E; [|apply clean_same].
  destruct (negb _); [apply clean_same|]. destruct (h_closing h) eqn:Ec; [apply clean_same|].
  assert (alter (set_closing false) id (<[id:=set_closing true h]> (sv_handles s)) = sv_handles s) as U.
  { rewrite alter_insert_eq. replace (set_closing false _) with h by (destruct h; by cbn in *; subst). by apply insert_id. }
  destruct s as [g m n cl sf sr sh]. cbn in *. destruct (negb _); [by intros _; split|]. destruct (negb _); [by intros _; split|].
  destruct (if b then _ else _) as [[e|[]] f']; [by intros _; split|]. unfold released. rewrite Hlife. cbn. by intros E'.
Qed.
Lemma atomic_read slot p id h b : atomic (do_read o slot p id h b).
Proof.
  intros c s Hc. unfold do_read. do 3 (destruct (_ : bool); [apply clean_same|]). apply atomic_life; [done| |done]. clear c s Hc.
  intros c s _. apply clean_offset; [done|]. clear c s. intros c s. set (c2 := if (_ && negb (validate_io_range _ _ =? 0)) then _ else _).
  destruct (status c2 =? 0) eqn:E; [|apply clean_same]. apply Z.eqb_eq in E. clearbody c2. apply clean_call. intros bytes f' _.
  destruct (_ <? _); [apply clean_fs|]. intros E'. exfalso. apply E'. rewrite <-E. by destruct c2 as [[] ? ? ?].
Qed.

Lemma release_acquire h : release_write (set_active_writes (h_active_writes h + 1) h) = h.
Proof. destruct h. cbn. unfold release_write. cbn. f_equal. lia. Qed.
Lemma clean_write p id h b c s : sv_handles s !! id = Some h -> clean s (do_write o p id h b c s).
Proof.
  intros Eh. unfold do_write. do 3 (destruct (_ : bool); [apply clean_same|]). unfold acquire_write. destruct (h_closing h); [apply clean_same|]. cbn [negb].
  set (h1 := set_active_writes _ h). set (s1 := put_handle id h1 s).
  match goal with |- clean s (let '(_, _) := ?r in _) => assert (clean s1 r) as A end.
  - destruct (negb _); [apply clean_same|]. apply clean_offset; [done|]. clear c. intros c s'. set (c2 := if (_ && negb (validate_io_range _ _ =? 0)) then _ else _).
    destruct (status c2 =? 0) eqn:E; [|apply clean_same]. apply Z.eqb_eq in E. clearbody c2. apply clean_call. intros [bytes at_] f' _.
    destruct (_ || _); [apply clean_fs|]. intros E'. exfalso. apply E'. rewrite <-E. by destruct c2 as [[] ? ? ?].
  - match goal with |- clean s (let '(_, _) := ?r in _) => destruct r as [c' s'] end. intros E. destruct (A E) as [A1 A2]. cbn in A1, A2. cbn.
    destruct s', s. cbn in *. subst. split; [|done]. cbn. rewrite alter_insert_eq. unfold h1. rewrite release_acquire. by apply insert_id.
Qed.
Lemma atomic_seek p id h : atomic (do_seek o p id h).
Proof.
  intros c s Hc. unfold do_seek. destruct (_ || _); [apply clean_same|]. revert c s Hc. apply atomic_life; [done|]. intros c s Hc.
  destruct (negb _); [apply clean_same|].
  match goal with |- clean s (let '(_, _) := ?r in _) => assert (clean s r) as A; [|destruct r as [c' s']; unfold released; by rewrite Hoffset] end.
  apply clean_call. intros v f' _ E. exfalso. apply E. cbn. by rewrite status_set_result.
Qed.
Lemma atomic_read_directory slot p id h : atomic (do_read_directory o slot p id h).
Proof.
  intros c s Hc. unfold do_read_directory. do 2 (destruct (_ : bool); [apply clean_same|]). revert c s Hc. apply atomic_life; [done|]. intros c s Hc.
  destruct (negb _); [apply clean_same|].
  match goal with |- clean s (let '(_, _) := ?r in _) => assert (clean s r) as A; [|destruct r as [c' s']; unfold released; by rewrite Hoffset] end.
  destruct (negb _); [apply clean_same|]. apply clean_call. intros [entries next] f' _. do 2 (destruct (_ : bool); [apply clean_fs|]).
  destruct (wire_entries _); [|apply clean_fs]. intros E. exfalso. apply E. rewrite <-Hc. destruct c as [[] ? ? ?]. cbn. by destruct (_ =? _)%nat.
Qed.
Lemma atomic_flags p id h : atomic (do_flags o p id h).
Proof.
  apply atomic_life; [done|]. intros c s Hc. destruct (_ =? _); [apply clean_same|]. destruct (_ =? _); [|apply clean_same]. by intros E.
Qed.
Lemma atomic_shutdown : atomic do_shutdown.
Proof. intros c s Hc. unfold do_shutdown. destruct (sv_shutdown_requested s); [apply clean_same|]. by destruct s. Qed.
Lemma clean_raw slot p op c s : clean s (do_raw_device slot p op c s).
Proof.
  unfold do_raw_device. destruct (decide _); [apply clean_done|]. destruct (negb _); [apply clean_same|]. destruct (decide _).
  - destruct (_ || _); [apply clean_same|]. apply clean_call. intros bytes f' _. destruct (_ <? _); apply clean_fs.
  - destruct (negb _); [apply clean_same|]. apply clean_call. intros w f' _. destruct (negb _); apply clean_fs.
Qed.
Lemma clean_stat_path path c s : clean s (do_stat_path path c s).
Proof. unfold do_stat_path. destruct (negb _); [apply clean_same|]. apply clean_call. intros v f' _. apply clean_fs. Qed.
Lemma atomic_handle_stat h op : atomic (do_handle_stat o h op).
Proof. apply atomic_life; [done|]. intros c s Hc. destruct (decide _); apply clean_call; intros v f' _; apply clean_fs. Qed.
Lemma clean_path_mutation p op c s : clean s (do_path_mutation p op c s).
Proof. unfold do_path_mutation. destruct (negb _); [apply clean_same|]. destruct (_ && _); [apply clean_same|apply clean_done]. Qed.
Lemma clean_truncate_path p c s : clean s (do_truncate_path p c s).
Proof. unfold do_truncate_path. destruct (negb _); [apply clean_same|apply clean_done]. Qed.
Lemma atomic_truncate_handle p h : atomic (do_truncate_handle o p h).
Proof.
  intros c s Hc. unfold do_truncate_handle. destruct (_ || _); [apply clean_same|]. destruct (_ =? _); [apply clean_same|].
  apply atomic_life; [done| |done]. intros c' s' _. apply clean_done.
Qed.
Lemma clean_open_directory path c s : status c = 0 -> clean s (do_open_directory path c s).
Proof. intros Hc. unfold do_open_directory. destruct (negb _); [apply clean_same|]. apply clean_call. intros node f' _. by apply clean_opened. Qed.
Lemma atomic_open_directory_handle h : atomic (do_open_directory_handle o h).
Proof.
  intros c s Hc. unfold do_open_directory_handle. destruct (negb _); [apply clean_same|]. apply atomic_life; [done| |done]. intros c' s' Hc'.
  apply clean_call. intros node f' _. by apply clean_opened.
Qed.
Lemma atomic_sync h : atomic (do_sync o h).
Proof. apply atomic_life; [done|]. intros c s _. apply clean_done. Qed.
End Failures.

Lemma dispatch_clean {F} `{AsyncFilesystem F} (slot : Z) (o : outcomes) (incoming : IpcDescriptor) (payload : list Z) (s : server_state F)
    (Hlife : o_life_release o = 0) (Hoffset : o_offset_release o = 0) :
  let '(c, s') := dispatch o slot incoming payload s in
  status c <> 0 -> sv_handles s' = sv_handles s /\ sv_next_handle s' = sv_next_handle s.
Proof.
  assert (clean s (dispatch o slot incoming payload s)) as A; [|by destruct (dispatch o slot incoming payload s)].
  assert (status (new_completion incoming) = 0) as Hc by (by destruct incoming).
  unfold dispatch. destruct (parse_request payload) as [e|p]; [apply clean_same|]. unfold dispatch_parsed. destruct (negb (o_dispatch o =? 0)); [apply clean_same|].
  set (found := if negb (q_handle (p_request p) =? kInvalidRemoteHandle) then find_handle s (q_handle (p_request p)) else None).
  destruct (_ && _); [apply clean_same|].
  assert (forall h, found = Some h -> sv_handles s !! q_handle (p_request p) = Some h) as Hf.
  { intros h. unfold found. destruct (negb _); [|done]. unfold find_handle. destruct (sv_handles s !! _) as [h'|]; [|done]. destruct (h_closing h'); [done|congruence]. }
  destruct (opcode_of _); try apply clean_same; try (destruct found as [h|]; [|apply clean_same]).
  all: try (first [by apply clean_write, Hf | by apply atomic_read | by apply atomic_seek | by apply atomic_read_directory | by apply atomic_flags
    | by apply atomic_open | by apply clean_close | by apply atomic_shutdown | by apply clean_raw]).
  all: try (first [by apply clean_stat_path | by apply atomic_handle_stat | by apply clean_path_mutation | by apply clean_truncate_path
    | by apply atomic_truncate_handle | by apply clean_open_directory | by apply atomic_open_directory_handle | by apply atomic_sync]).
  destruct (match found with Some _ => _ | None => _ end); [apply clean_same|by apply atomic_open].
Qed.
