(* ===== verification/Client.v ===== *)
(** * The client of a session: files and directories (Async/client.cpp)

    The calls of the classes Client, File and Directory, down to the bytes of their
    requests, on a server whose requests are handled one after the other.  That the
    transport delivers the bytes of a request and of its response is IpcSession.v's
    [rpc_round_trip]; here a call hands its payload to [dispatch]. *)

From stdpp Require Import base tactics numbers list gmap strings relations.
From Stdlib Require Import ZArith Lia Ascii.
From S2P Require Import Prelude Bytes Layout Pmem DataPath RangeArbiter Namespace Directory FileOps Ipc IpcRing Rpc Server.
Open Scope Z_scope.

(** ** Calls *)

(** What the session fixes for its requests: the size of a data slot, the padding bytes a
    header happens to carry, the identity the transport stamps on a descriptor, whether
    the client still has the session and whether it accepts calls. *)
Record link := mk_link { l_slot : Z; l_padding : list Z; l_client_id : Z; l_session_generation : Z; l_request_id : Z; l_worker : Z;
  l_attached : bool; l_available : bool }.
Definition request_descriptor (L : link) (op : Opcode) (size : Z) : IpcDescriptor :=
  mk_descriptor (l_client_id L) (l_session_generation L) (l_request_id L) 0 0 0 0 kIpcProtocolVersion (l_worker L) 0 (u32 size) 0 (opcode_value op)
    (Z.lor FLAG_REQUEST FLAG_HAS_PAYLOAD) 0.
(** [y_copied]: what was copied into the buffer of a caller that wants it there. *)
Record RpcReply := mk_reply { y_descriptor : IpcDescriptor; y_payload : list Z; y_payload_size : Z; y_copied : list Z }.

Definition status_error (status : Z) : option Z :=
  if status =? 0 then None
  else let magnitude := if status <? 0 then - status else status in if INT_MAX <? magnitude then Some EPROTO else Some magnitude.
Definition positioned_range_error (offset length : Z) : option Z :=
  if (INT64_MAX <? offset) || (INT64_MAX - offset <? length) then Some EOVERFLOW else None.

Section Client.
Context {F : Type} `{AsyncFilesystem F} (L : link).
Abbreviation st := (server_state F).
Implicit Types (s : st) (o : outcomes).

(** Submission, the server, and the reply as [pump_completions] hands it to the caller;
    [target] is the size of the buffer the response goes to, 0 for none. *)
Definition exchange o (op : Opcode) (head tail : list Z) (target : Z) s : (Z + RpcReply) * st :=
  if (l_slot L <? len head) || (l_slot L - len head <? len tail) then (inl EMSGSIZE, s)
  else
    let '(c, s) := dispatch o (l_slot L) (request_descriptor L op (len head + len tail)) (head ++ tail) s in
    let received := response_payload c in
    if negb (target =? 0) then
      if target <? len received then (inl EPROTO, s) else (inr (mk_reply (k_descriptor c) [] (len received) received), s)
    else (inr (mk_reply (k_descriptor c) received (len received) []), s).
Definition rpc o (op : Opcode) (encoded_request : Z + list Z) s : (Z + RpcReply) * st :=
  match encoded_request with inl error => (inl error, s) | inr payload => exchange o op payload [] 0 s end.
Definition rpc_header o (op : Opcode) (q : RpcRequest) (tail : list Z) (target : Z) s : (Z + RpcReply) * st :=
  match header_request (l_padding L) (l_slot L) q tail with
  | inl error => (inl error, s)
  | inr (head, tail) => exchange o op head tail target s
  end.
Definition encode_request (q : RpcRequest) (path1 path2 : string) : Z + list Z := make_rpc_request (l_padding L) (l_slot L) q path1 path2 [].

(** ** Requests of the calls *)

Definition handle_request (handle : Z) : RpcRequest := mk_request kRpcSchemaVersion 0 handle 0 0 0 0 0 0 0 0 0 0 0.
Definition open_request (handle flags mode : Z) : RpcRequest := mk_request kRpcSchemaVersion 0 handle 0 0 0 0 flags mode 0 0 0 0 0.
Definition length_request (handle length : Z) : RpcRequest := mk_request kRpcSchemaVersion 0 handle 0 0 length 0 0 0 0 0 0 0 0.
Definition io_header (flags handle offset length : Z) : RpcRequest := mk_request kRpcSchemaVersion flags handle 0 offset length 0 0 0 0 0 0 0 0.
Definition seek_request (handle offset whence : Z) : RpcRequest := mk_request kRpcSchemaVersion 0 handle 0 offset 0 0 0 0 whence 0 0 0 0.
Definition flags_request (handle value flags : Z) : RpcRequest := mk_request kRpcSchemaVersion 0 handle 0 0 0 value flags 0 0 0 0 0 0.

(** [ORCHFS_TRY] and the check of the status that follows every reply. *)
Definition on_reply {A} (r : (Z + RpcReply) * st) (k : RpcReply -> Z + A) : (Z + A) * st :=
  match r with
  | (inl error, s) => (inl error, s)
  | (inr y, s) => (match status_error (d_status (y_descriptor y)) with Some error => inl error | None => k y end, s)
  end.
Definition no_result (y : RpcReply) : Z + unit := inr tt.

(** ** Client *)

Definition file_valid (handle : Z) : bool := l_available L && negb (handle =? kInvalidRemoteHandle).
Definition on_client {A} s (k : (Z + A) * st) : (Z + A) * st := if negb (l_attached L) then (inl invalid_handle, s) else k.

(** The number of the opened handle; [zero] is the error of a handle that is none. *)
Definition opened_handle (zero : Z) (y : RpcReply) : Z + Z :=
  let handle := d_result_length (y_descriptor y) in if handle =? kInvalidRemoteHandle then inl zero else inr handle.
Definition client_open o (path : string) (flags mode : Z) s : (Z + Z) * st :=
  on_client s (on_reply (rpc o oc_open (encode_request (open_request 0 flags mode) path EmptyString) s) (opened_handle EIO)).
Definition client_open_at o (directory : Z) (path : string) (flags mode : Z) s : (Z + Z) * st :=
  if negb (l_attached L && file_valid directory) then (inl invalid_handle, s)
  else on_reply (rpc o oc_open_at (encode_request (open_request directory flags mode) path EmptyString) s) (opened_handle EPROTO).
Definition client_open_directory o (path : string) s : (Z + Z) * st :=
  on_client s (on_reply (rpc o oc_open_directory (encode_request new_request path EmptyString) s) (opened_handle EPROTO)).
Definition client_open_directory_file o (file : Z) s : (Z + Z) * st :=
  if negb (l_attached L && file_valid file) then (inl invalid_handle, s)
  else on_reply (rpc o oc_open_directory_handle (encode_request (handle_request file) EmptyString EmptyString) s) (opened_handle EPROTO).
Definition decode_reply {A} `{WireObject A} (y : RpcReply) : Z + A := decode_object (y_payload y).
Definition client_stat o (path : string) s : (Z + FileStat) * st :=
  on_client s (on_reply (rpc o oc_stat_path (encode_request new_request path EmptyString) s) decode_reply).
Definition path_mutation o (op : Opcode) (q : RpcRequest) (path1 path2 : string) s : (Z + unit) * st :=
  on_client s (on_reply (rpc o op (encode_request q path1 path2) s) no_result).
Definition client_make_directory o (path : string) (mode : Z) s := path_mutation o oc_mkdir (open_request 0 0 mode) path EmptyString s.
Definition client_remove_directory o (path : string) s := path_mutation o oc_rmdir new_request path EmptyString s.
Definition client_unlink o (path : string) s := path_mutation o oc_unlink new_request path EmptyString s.
Definition client_rename o (old_path new_path : string) s := path_mutation o oc_rename new_request old_path new_path s.
Definition client_truncate o (path : string) (size : Z) s := path_mutation o oc_truncate_path (length_request 0 size) path EmptyString s.
Definition client_shutdown o s : (Z + unit) * st :=
  if negb (l_attached L) then (inr tt, s)
  else on_reply (rpc o oc_shutdown_session (encode_request new_request EmptyString EmptyString) s) no_result.

(** ** Files *)

(** A call of a valid file. *)
Definition on_file {A} (handle : Z) s (k : (Z + A) * st) : (Z + A) * st := if negb (file_valid handle) then (inl invalid_handle, s) else k.

(** The loops over chunks: [step completed chunk] is one remote call, its result the count
    it reports and the bytes that arrived for the caller.  [os]: the outcomes of the calls. *)
Fixpoint chunks (fuel : nat) (step : outcomes -> Z -> Z -> st -> (Z + Z * list Z) * st) (os : nat -> outcomes) (max_chunk size completed : Z)
    (arrived : list Z) s : option ((Z + Z * list Z) * st) :=
  match fuel with
  | O => None
  | S fuel =>
      if completed <? size then
        let chunk := Z.min max_chunk (size - completed) in
        match step (os O) completed chunk s with
        | (inl error, s) => Some (inl error, s)
        | (inr (bytes, b), s) =>
            if negb (bytes =? chunk) then Some (inr (completed + bytes, arrived ++ b), s)
            else chunks fuel step (fun i => os (S i)) max_chunk size (completed + bytes) (arrived ++ b) s
        end
      else Some (inr (completed, arrived), s)
  end.
Definition max_chunk : Z := l_slot L - REQUEST_SIZE.
Definition chunk_fuel (size : Z) : nat := S (Z.to_nat size).

(** What a call makes of the reply to one chunk: [bytes > chunk] is a protocol error, for a
    read also a payload of another size. *)
Definition read_reply (chunk : Z) (y : RpcReply) : Z + Z * list Z :=
  let bytes := d_result_length (y_descriptor y) in
  if (chunk <? bytes) || negb (y_payload_size y =? bytes) then inl EPROTO
  else inr (bytes, match y_payload y with [] => y_copied y | payload => payload end).
Definition write_reply (chunk : Z) (y : RpcReply) : Z + Z * list Z :=
  let bytes := d_result_length (y_descriptor y) in if chunk <? bytes then inl EPROTO else inr (bytes, []).
Definition file_read_unlocked (os : nat -> outcomes) (handle size : Z) s : option ((Z + Z * list Z) * st) :=
  chunks (chunk_fuel size) (fun o _ chunk s =>
    on_reply (rpc_header o oc_read (io_header REQUEST_IMPLICIT_OFFSET handle 0 chunk) [] chunk s) (read_reply chunk)) os max_chunk size 0 [] s.
Definition file_write_unlocked (os : nat -> outcomes) (handle : Z) (buffer : list Z) s : option ((Z + Z * list Z) * st) :=
  chunks (chunk_fuel (len buffer)) (fun o completed chunk s =>
    on_reply (rpc_header o oc_write (io_header (Z.lor REQUEST_IMPLICIT_OFFSET REQUEST_DATA_FOLLOWS) handle 0 chunk) (slice completed chunk buffer) 0 s)
      (write_reply chunk)) os max_chunk (len buffer) 0 [] s.
(** [target]: 0 for the blocking variant, which reads the response where it arrived. *)
Definition read_positioned (direct : bool) (os : nat -> outcomes) (handle offset size : Z) s : option ((Z + Z * list Z) * st) :=
  if negb (file_valid handle) then Some (inl invalid_handle, s)
  else match positioned_range_error offset size with
  | Some error => Some (inl error, s)
  | None =>
      chunks (chunk_fuel size) (fun o completed chunk s =>
        on_reply (rpc_header o oc_read_at (io_header 0 handle (s64 (offset + completed)) chunk) [] (if direct then chunk else 0) s) (read_reply chunk))
        os max_chunk size 0 [] s
  end.
Definition file_read_at := read_positioned true.
Definition file_read_at_blocking := read_positioned false.
(** Also the blocking variant: its reply takes another way to the same checks. *)
Definition file_write_at (os : nat -> outcomes) (handle offset : Z) (buffer : list Z) s : option ((Z + Z * list Z) * st) :=
  if negb (file_valid handle) then Some (inl invalid_handle, s)
  else match positioned_range_error offset (len buffer) with
  | Some error => Some (inl error, s)
  | None =>
      chunks (chunk_fuel (len buffer)) (fun o completed chunk s =>
        on_reply (rpc_header o oc_write_at (io_header REQUEST_DATA_FOLLOWS handle (s64 (offset + completed)) chunk) (slice completed chunk buffer) 0 s)
          (write_reply chunk)) os max_chunk (len buffer) 0 [] s
  end.
(** Around the calls that move the offset: the gate of the file, [acquire] and [release] its answers. *)
Definition with_gate {A} (acquire release : Z) (k : st -> option ((Z + A) * st)) s : option ((Z + A) * st) :=
  if negb (acquire =? 0) then Some (inl acquire, s)
  else match k s with
  | Some (inr a, s) => Some (if negb (release =? 0) then inl release else inr a, s)
  | r => r
  end.
Definition file_read (acquire release : Z) (os : nat -> outcomes) (handle size : Z) s : option ((Z + Z * list Z) * st) :=
  if negb (file_valid handle) then Some (inl invalid_handle, s) else with_gate acquire release (file_read_unlocked os handle size) s.
Definition file_write (acquire release : Z) (os : nat -> outcomes) (handle : Z) (buffer : list Z) s : option ((Z + Z * list Z) * st) :=
  if negb (file_valid handle) then Some (inl invalid_handle, s) else with_gate acquire release (file_write_unlocked os handle buffer) s.
Definition seek_unlocked o (handle offset whence : Z) s : (Z + Z) * st :=
  on_reply (rpc o oc_seek (encode_request (seek_request handle offset whence) EmptyString EmptyString) s) (fun y => inr (d_result_length (y_descriptor y))).
Definition file_seek (acquire release : Z) o (handle offset whence : Z) s : option ((Z + Z) * st) :=
  if negb (file_valid handle) then Some (inl invalid_handle, s)
  else with_gate acquire release (fun s => Some (seek_unlocked o handle offset whence s)) s.

Definition bare_request (q : RpcRequest) : Z + list Z := encode_request q EmptyString EmptyString.
Definition file_stat o (handle : Z) s : (Z + FileStat) * st :=
  on_file handle s (on_reply (rpc o oc_stat_handle (bare_request (handle_request handle)) s) decode_reply).
Definition file_statfs o (handle : Z) s : (Z + FileSystemStat) * st :=
  on_file handle s (on_reply (rpc o oc_statfs (bare_request (handle_request handle)) s) decode_reply).
Definition file_truncate o (handle size : Z) s : (Z + unit) * st :=
  on_file handle s (on_reply (rpc o oc_truncate_handle (bare_request (length_request handle size)) s) no_result).
Definition file_sync o (handle : Z) s : (Z + unit) * st :=
  on_file handle s (on_reply (rpc o oc_sync (bare_request (handle_request handle)) s) no_result).
Definition file_get_flags o (handle : Z) s : (Z + Z) * st :=
  on_file handle s (on_reply (rpc o oc_set_flags (bare_request (flags_request handle F_GETFL 0)) s) (fun y => inr (s32 (d_result_length (y_descriptor y))))).
Definition file_set_flags o (handle flags : Z) s : (Z + unit) * st :=
  on_file handle s (on_reply (rpc o oc_set_flags (bare_request (flags_request handle F_SETFL flags)) s) no_result).
(** The handle after the call: it is given up when the server has closed it. *)
Definition close_handle o (op : Opcode) (handle : Z) s : (Z + unit) * Z * st :=
  if negb (file_valid handle) then (inr tt, handle, s)
  else match on_reply (rpc o op (bare_request (handle_request handle)) s) no_result with
  | (inl error, s) => (inl error, handle, s)
  | (inr _, s) => (inr tt, kInvalidRemoteHandle, s)
  end.
Definition file_close o := close_handle o oc_close.
Definition directory_close o := close_handle o oc_close_directory.

(** ** Directories *)

Definition entry_of_wire (w : RpcDirEntry) : Z + DirEntry :=
  if kRpcNameCapacity <=? w_name_length w then inl EPROTO
  else inr (mk_dir_entry (w_inode w) (w_offset w) (w_type w) (bytes_string (take (Z.to_nat (w_name_length w)) (w_name w)))).
Fixpoint decode_entries (count : nat) (payload : list Z) : Z + list DirEntry :=
  match count with
  | O => inr []
  | S count =>
      match entry_of_wire (wire_load (slice 0 (wire_size (A := RpcDirEntry)) payload)) with
      | inl error => inl error
      | inr en => match decode_entries count (drop (Z.to_nat (wire_size (A := RpcDirEntry))) payload) with inl error => inl error | inr l => inr (en :: l) end
      end
  end.
Definition next_batch o (handle room : Z) s : (Z + list DirEntry) * st :=
  let requested := Z.min room (l_slot L / wire_size (A := RpcDirEntry)) in
  on_file handle s (on_reply (rpc o oc_read_directory_batch (bare_request (length_request handle requested)) s) (fun y =>
    let count := d_result_length (y_descriptor y) in
    if (requested <? count) || negb (len (y_payload y) =? count * wire_size (A := RpcDirEntry)) then inl EPROTO
    else decode_entries (Z.to_nat count) (y_payload y))).
End Client.
