(* ===== verification/ClientCalls.v ===== *)
(** * Remote calls are calls of the file system

    A call of the client, encoded, parsed, handled, answered and decoded, returns what the
    file system below the server returns, and leaves it as that call leaves it. *)

From stdpp Require Import base tactics numbers list gmap strings relations.
From Stdlib Require Import ZArith Lia Ascii.
From S2P Require Import Prelude Bytes Layout Pmem DataPath RangeArbiter Namespace Directory FileOps Ipc IpcRing Rpc Server ServerTypes Client.
Open Scope Z_scope.

(** A session in use, with slots that the protocol accepts. *)
Record link_ok (L : link) : Prop := {
  lk_slot : 128 <= l_slot L < 2 ^ 32;
  lk_padding : len (l_padding L) = 4;
  lk_attached : l_attached L = true;
  lk_available : l_available L = true;
}.
(** The runtime schedules every hop and grants every permit. *)
Definition quiet_outcomes : outcomes := mk_outcomes 0 0 0 0 0 0 0 true true.
(** An error number as the file system reports them. *)
Definition errno_ok (e : Z) : Prop := 0 < e <= INT_MAX.
Definition result_ok {A} (ok : A -> Prop) (r : Z + A) : Prop := match r with inl e => errno_ok e | inr a => ok a end.
(** A path that fits a request of the session. *)
Definition path_ok (L : link) (path : string) : Prop :=
  path <> EmptyString /\ has_nul path = false /\ REQUEST_SIZE + len (string_bytes path) <= l_slot L.

Section Calls.
Context {F : Type} `{AsyncFilesystem F} (L : link) (HL : link_ok L).
Abbreviation st := (server_state F).
Implicit Types (s : st) (o : outcomes).

Definition reply_of (c : Completion) : RpcReply := mk_reply (k_descriptor c) (response_payload c) (len (response_payload c)) [].
Lemma rpc_run o op q path1 path2 s : request_ok q -> has_nul path1 = false -> has_nul path2 = false ->
  REQUEST_SIZE + len (string_bytes path1) + len (string_bytes path2) <= l_slot L ->
  rpc L o op (encode_request L q path1 path2) s =
  let '(c, s') := dispatch_parsed o (l_slot L) (request_descriptor L op (REQUEST_SIZE + len (string_bytes path1) + len (string_bytes path2)))
    (mk_parsed (set_lengths q (len (string_bytes path1)) (len (string_bytes path2)) 0) path1 path2 []) s in
  (inr (reply_of c), s').
Proof using HL.
  intros Hq N1 N2 Hfit. destruct HL as [Hs Hp _ _]. pose proof (len_nonneg (string_bytes path1)). pose proof (len_nonneg (string_bytes path2)).
  unfold rpc, encode_request.
  assert (exists bytes, make_rpc_request (l_padding L) (l_slot L) q path1 path2 [] = inr bytes) as [bytes E].
  { unfold make_rpc_request, REQUEST_SIZE, UINT32_MAX in *. rewrite (proj2 (Z.ltb_ge _ _)) by lia. cbn [wire_total].
    do 3 rewrite (proj2 (Z.ltb_ge _ _)) by (change (len []) with 0; lia). by eexists. }
  rewrite E. destruct (made_request _ _ _ _ _ _ _ E Hp) as [-> _]. rewrite app_nil_r. unfold exchange. rewrite !len_app, encoded_length by done.
  change (len []) with 0. rewrite (proj2 (Z.ltb_ge _ _)) by lia. rewrite (proj2 (Z.ltb_ge _ _)) by lia. cbn [orb].
  rewrite app_nil_r. replace (REQUEST_SIZE + (len (string_bytes path1) + len (string_bytes path2)) + 0) with (REQUEST_SIZE + len (string_bytes path1) + len (string_bytes path2)) by lia.
  unfold dispatch. rewrite <-(app_nil_r (string_bytes path2)).
  pose proof (parse_encoded (l_padding L) q path1 path2 [] Hq Hp) as P. cbn zeta in P. change (len []) with 0 in P. unfold REQUEST_SIZE in Hfit.
  rewrite !app_nil_r. rewrite app_nil_r in P. rewrite P by lia. rewrite N1, N2. cbn [orb]. by destruct (dispatch_parsed _ _ _ _ _).
Qed.
Lemma opcode_of_value op : opcode_of (opcode_value op) = op.
Proof. by destruct op. Qed.

(** What the caller makes of a completion. *)
Definition answer {A} (k : RpcReply -> Z + A) (r : Completion * st) : (Z + A) * st := on_reply (inr (reply_of r.1), r.2) k.
Lemma answer_fail {A} (k : RpcReply -> Z + A) c s e : errno_ok e -> answer k (fail c e, s) = (inl e, s).
Proof.
  unfold errno_ok, INT_MAX. intros He. unfold answer, on_reply, reply_of. cbn [fst snd y_descriptor]. change (d_status _) with (status (fail c e)).
  rewrite status_fail. unfold errno_error. rewrite (proj2 (Z.ltb_lt 0 e)) by lia. unfold status_error.
  rewrite (proj2 (Z.eqb_neq _ _)), (proj2 (Z.ltb_lt _ 0)), Z.opp_involutive by lia. unfold INT_MAX. by rewrite (proj2 (Z.ltb_ge _ _)) by lia.
Qed.
Lemma answer_ok {A} (k : RpcReply -> Z + A) c s : status c = 0 -> answer k (c, s) = (k (reply_of c), s).
Proof. intros E. unfold answer, on_reply, reply_of. cbn [fst snd y_descriptor]. unfold status in E. by rewrite E. Qed.
Lemma answer_call {A B} (k : RpcReply -> Z + B) (r : (Z + A) * F) c s (ok : A -> Completion -> st -> Completion * st) (good : A -> Prop) (g : A -> B) :
  result_ok good r.1 -> (forall a, good a -> answer k (ok a c (set_fs r.2 s)) = (inr (g a), set_fs r.2 s)) ->
  answer k (call r c s ok) = (match r.1 with inl e => inl e | inr a => inr (g a) end, set_fs r.2 s).
Proof. destruct r as [[e|a] f']; cbn; intros Hr Hk; [by apply answer_fail|by apply Hk]. Qed.
Lemma answer_done (r : (Z + unit) * F) c s : status c = 0 -> result_ok (fun _ => True) r.1 -> answer no_result (call r c s done_call) = (r.1, set_fs r.2 s).
Proof.
  intros Hc Hr. rewrite (answer_call no_result r c s done_call (fun _ => True) id); [by destruct r as [[|[]] ?]|done|].
  intros [] _. unfold done_call. by rewrite answer_ok.
Qed.
Lemma answer_object {A} `{WireObject A} (r : (Z + A) * F) c s : status c = 0 -> k_filled c = 0 -> wire_padding (A := A) = 0 -> result_ok wire_ok r.1 ->
  answer decode_reply (call r c s (fun v c s => (set_payload c (encode_object [] v), s))) = (r.1, set_fs r.2 s).
Proof.
  intros Hc Hf Hp Hr. rewrite (answer_call decode_reply r c s _ wire_ok id); [by destruct r as [[]]|done|].
  intros v Hv. rewrite answer_ok by (destruct c as [[] ? ? ?]; done). f_equal. unfold decode_reply, reply_of, response_payload. cbn [y_payload k_filled set_payload k_payload].
  rewrite Hf. cbn. by apply decode_encode.
Qed.
Lemma new_status d : status (new_completion d) = 0.
Proof. by destruct d. Qed.
Lemma new_filled d : k_filled (new_completion d) = 0.
Proof. done. Qed.

(** A parsed request of an operation that needs no handle goes to its handler. *)
Lemma on_rpc {A} (k : RpcReply -> Z + A) op q path1 path2 s : request_ok q -> has_nul path1 = false -> has_nul path2 = false ->
  REQUEST_SIZE + len (string_bytes path1) + len (string_bytes path2) <= l_slot L ->
  on_reply (rpc L quiet_outcomes op (encode_request L q path1 path2) s) k =
  answer k (dispatch_parsed quiet_outcomes (l_slot L) (request_descriptor L op (REQUEST_SIZE + len (string_bytes path1) + len (string_bytes path2)))
    (mk_parsed (set_lengths q (len (string_bytes path1)) (len (string_bytes path2)) 0) path1 path2 []) s).
Proof using HL. intros. rewrite rpc_run by done. by destruct (dispatch_parsed _ _ _ _ _) as [c s']. Qed.
Lemma validate_path_ok path : path_ok L path -> validate_path path = 0.
Proof using HL.
  intros (N & _ & Hl). unfold validate_path. destruct (String.eqb_spec path EmptyString); [done|]. rewrite len_string_bytes in Hl.
  destruct HL as [Hs _ _ _]. unfold REQUEST_SIZE, UINT32_MAX in *. by rewrite (proj2 (Z.ltb_ge _ _)) by lia.
Qed.
Lemma path_mutation_run op q path1 path2 s : op = oc_mkdir \/ op = oc_rmdir \/ op = oc_unlink \/ op = oc_rename -> request_ok q -> q_handle q = 0 -> path_ok L path1 ->
  (if decide (op = oc_rename) then path_ok L path2 else path2 = EmptyString) ->
  REQUEST_SIZE + len (string_bytes path1) + len (string_bytes path2) <= l_slot L ->
  let r := match op with
           | oc_mkdir => fo_make_directory (sv_fs s) path1 (q_mode q)
           | oc_rmdir => fo_remove_directory (sv_fs s) path1
           | oc_unlink => fo_unlink (sv_fs s) path1
           | _ => fo_rename (sv_fs s) path1 path2
           end in
  result_ok (fun _ => True) r.1 -> path_mutation L quiet_outcomes op q path1 path2 s = (r.1, set_fs r.2 s).
Proof using HL.
  intros Hop Hq Hh H1 H2 Hfit r Hr. unfold path_mutation, on_client. rewrite (lk_attached _ HL). cbn [negb].
  assert (has_nul path2 = false /\ (op = oc_rename -> validate_path path2 = 0)) as [N2 V2].
  { destruct (decide _) as [E|N]; [split; [apply H2|intros _; by apply validate_path_ok]|by rewrite H2]. }
  rewrite on_rpc; [|done|apply H1|done|done]. unfold dispatch_parsed. cbn [o_dispatch quiet_outcomes]. change (0 =? 0) with true. cbn [negb p_request].
  rewrite set_lengths_handle, Hh. change (negb (0 =? kInvalidRemoteHandle)) with false. cbn [d_opcode request_descriptor].
  destruct Hop as [-> | [-> | [-> | ->]]]; rewrite opcode_of_value; change (opcode_requires_handle _) with false; cbn [andb].
  all: unfold do_path_mutation; cbn [p_request p_path1 p_path2]; rewrite (validate_path_ok path1 H1), ?V2 by done; autorewrite with rpc; cbn; apply answer_done; try done; apply new_status.
Qed.

(** Open a request without a handle at its handler. *)
Ltac to_handler := unfold dispatch_parsed; cbn [o_dispatch quiet_outcomes p_request p_path1 p_path2 p_data d_opcode request_descriptor];
  change (0 =? 0) with true; cbn [negb]; rewrite opcode_of_value; autorewrite with rpc.
Lemma stat_path_run path s : path_ok L path -> result_ok stat_ok (fo_stat_path (sv_fs s) path).1 ->
  client_stat L quiet_outcomes path s = ((fo_stat_path (sv_fs s) path).1, set_fs (fo_stat_path (sv_fs s) path).2 s).
Proof using HL.
  intros Hp Hr. unfold client_stat, on_client. rewrite (lk_attached _ HL). cbn [negb]. pose proof Hp as (_ & N & Hl).
  rewrite on_rpc; [|by repeat split|done|done|change (len (string_bytes EmptyString)) with 0; lia]. to_handler. change (opcode_requires_handle _) with false. cbn [andb].
  unfold do_stat_path. rewrite (validate_path_ok path Hp). cbn [Z.eqb negb]. apply (answer_object (A := FileStat)); [apply new_status|done|done|done].
Qed.
Lemma truncate_path_run path size s : path_ok L path -> in_width 64 size -> result_ok (fun _ => True) (fo_truncate_path (sv_fs s) path size).1 ->
  client_truncate L quiet_outcomes path size s = ((fo_truncate_path (sv_fs s) path size).1, set_fs (fo_truncate_path (sv_fs s) path size).2 s).
Proof using HL.
  intros Hp Hs Hr. unfold client_truncate, path_mutation, on_client. rewrite (lk_attached _ HL). cbn [negb]. pose proof Hp as (_ & N & Hl).
  rewrite on_rpc; [|by repeat split; try apply Hs|done|done|change (len (string_bytes EmptyString)) with 0; lia]. to_handler. change (opcode_requires_handle _) with false. cbn [andb].
  unfold do_truncate_path. cbn [p_path1 p_request]. rewrite (validate_path_ok path Hp). cbn [Z.eqb negb]. autorewrite with rpc.
  apply answer_done; [apply new_status|done].
Qed.

(** The server's state while it handles requests on handle [id], open as [h]. *)
Definition opened (s : st) (id : Z) (h : HandleState) : Prop := sv_handles s !! id = Some h /\ h_closing h = false /\ 0 < id < 2 ^ 64.
Lemma opened_found s id h : opened s id h -> negb (id =? kInvalidRemoteHandle) = true /\ find_handle s id = Some h.
Proof.
  intros (E & Ec & Hi). split; [unfold kInvalidRemoteHandle; destruct (Z.eqb_spec id 0); [lia|done]|]. unfold find_handle. by rewrite E, Ec.
Qed.
Lemma opened_valid s id h : opened s id h -> file_valid L id = true.
Proof using HL. intros [E _]%opened_found. unfold file_valid. by rewrite (lk_available _ HL), E. Qed.
(** A request on an open handle reaches its handler with that handle. *)
Lemma to_handle p op n s id h : opcode_requires_handle (opcode_value op) = true -> opened s id h -> q_handle (p_request p) = id ->
  let d := request_descriptor L op n in
  let c := new_completion d in
  let q := quiet_outcomes in
  dispatch_parsed q (l_slot L) d p s =
  match op with
  | oc_read => do_read q (l_slot L) p id h true c s
  | oc_read_at => do_read q (l_slot L) p id h false c s
  | oc_write => do_write q p id h true c s
  | oc_write_at => do_write q p id h false c s
  | oc_seek => do_seek q p id h c s
  | oc_stat_handle | oc_statfs => do_handle_stat q h op c s
  | oc_truncate_handle => do_truncate_handle q p h c s
  | oc_open_directory_handle => do_open_directory_handle q h c s
  | oc_read_directory_batch => do_read_directory q (l_slot L) p id h c s
  | oc_sync => do_sync q h c s
  | _ => do_flags q p id h c s
  end.
Proof.
  intros Hop Ho Hid d c q. destruct (opened_found _ _ _ Ho) as [E1 E2]. unfold dispatch_parsed. rewrite Hid, E1, E2. cbn [d_opcode d request_descriptor].
  rewrite opcode_of_value, Hop. cbn [o_dispatch q quiet_outcomes andb]. change (0 =? 0) with true. cbn [negb]. destruct op; first [reflexivity | discriminate Hop].
Qed.
Lemma on_handle_rpc {A} (k : RpcReply -> Z + A) op q s id h : opcode_requires_handle (opcode_value op) = true -> opened s id h -> q_handle q = id -> request_ok q ->
  exists n c, status c = 0 /\ k_filled c = 0 /\ c = new_completion (request_descriptor L op n) /\
  on_reply (rpc L quiet_outcomes op (bare_request L q) s) k =
  answer k (dispatch_parsed quiet_outcomes (l_slot L) (request_descriptor L op n) (mk_parsed (set_lengths q 0 0 0) EmptyString EmptyString []) s).
Proof using HL.
  intros Hop Ho Hid Hq. unfold bare_request. exists (REQUEST_SIZE + 0 + 0), (new_completion (request_descriptor L op (REQUEST_SIZE + 0 + 0))).
  split; [apply new_status|]. split; [done|]. split; [done|]. apply on_rpc; try done. change (len (string_bytes EmptyString)) with 0. destruct HL as [Hs _ _ _]. unfold REQUEST_SIZE. lia.
Qed.

(** *** Headers with data *)

Definition deliver (target : Z) (r : Completion * st) : (Z + RpcReply) * st :=
  let received := response_payload r.1 in
  if negb (target =? 0) then
    if target <? len received then (inl EPROTO, r.2) else (inr (mk_reply (k_descriptor r.1) [] (len received) received), r.2)
  else (inr (reply_of r.1), r.2).
Lemma header_run o op q tail target s : request_ok q -> REQUEST_SIZE + len tail <= l_slot L ->
  rpc_header L o op q tail target s =
  deliver target (dispatch_parsed o (l_slot L) (request_descriptor L op (REQUEST_SIZE + len tail)) (mk_parsed (set_lengths q 0 0 (len tail)) EmptyString EmptyString tail) s).
Proof using HL.
  intros Hq Hfit. destruct HL as [Hs Hp _ _]. pose proof (len_nonneg tail). unfold rpc_header, header_request, REQUEST_SIZE in *.
  rewrite (proj2 (Z.ltb_ge _ _)) by lia. rewrite (proj2 (Z.ltb_ge _ _)) by lia. cbn [orb]. unfold exchange. rewrite encoded_length by done. unfold REQUEST_SIZE.
  rewrite (proj2 (Z.ltb_ge _ _)) by lia. rewrite (proj2 (Z.ltb_ge _ _)) by lia. cbn [orb]. unfold dispatch.
  pose proof (parse_encoded (l_padding L) q EmptyString EmptyString tail Hq Hp ltac:(done) ltac:(done) ltac:(lia)) as P. cbn zeta in P.
  change (string_bytes EmptyString) with (@nil Z) in P. change (len []) with 0 in P. cbn [has_nul orb app] in P. rewrite P. unfold deliver.
  by destruct (dispatch_parsed _ _ _ _ _) as [c s'].
Qed.
Lemma read_answer (direct : bool) chunk c bytes s : status c = 0 -> 0 < chunk -> len bytes <= chunk -> k_filled c = 0 -> k_payload c = [] ->
  on_reply (deliver (if direct then chunk else 0) (fill c bytes, s)) (read_reply chunk) = (inr (len bytes, bytes), s).
Proof.
  intros Hc Hp Hl Hf Hy. assert (response_payload (fill c bytes) = bytes) as E.
  { unfold response_payload. cbn [fill k_filled k_payload k_slot]. rewrite Hy. destruct (Z.eqb_spec (len bytes) 0) as [E|N].
    - destruct bytes; [done|]. rewrite len_cons in E. pose proof (len_nonneg bytes). lia.
    - unfold len. rewrite Nat2Z.id. by apply take_ge. }
  unfold deliver, reply_of. cbn [fst snd]. rewrite !E.
  assert (d_status (k_descriptor (fill c bytes)) = 0 /\ d_result_length (k_descriptor (fill c bytes)) = len bytes) as [E1 E2] by (by destruct c as [[] ? ? ?]).
  destruct direct.
  - rewrite (proj2 (Z.eqb_neq _ _)) by lia. cbn [negb]. rewrite (proj2 (Z.ltb_ge _ _)) by lia. cbn [on_reply y_descriptor]. rewrite E1. cbn [status_error Z.eqb].
    unfold read_reply. cbn [y_descriptor y_payload_size y_payload y_copied]. rewrite E2, Z.eqb_refl. by rewrite (proj2 (Z.ltb_ge _ _)) by lia.
  - cbn [Z.eqb negb on_reply y_descriptor]. rewrite E1. cbn [status_error Z.eqb].
    unfold read_reply. cbn [y_descriptor y_payload_size y_payload y_copied]. rewrite E2, Z.eqb_refl. rewrite (proj2 (Z.ltb_ge _ _)) by lia. by destruct bytes.
Qed.
Lemma failed_answer {A} (k : RpcReply -> Z + A) target c e s : errno_ok e -> 0 <= target -> on_reply (deliver target (fail c e, s)) k = (inl e, s).
Proof.
  intros He Ht. pose proof (answer_fail k c s e He) as E. unfold answer in E. unfold deliver. cbn [fst snd] in *.
  change (response_payload (fail c e)) with (@nil Z) in *. change (len []) with 0. destruct (negb _); [|done]. by rewrite (proj2 (Z.ltb_ge _ _)) by lia.
Qed.
End Calls.
