(* ===== verification/ClientData.v ===== *)
(** * Reading and writing through a session

    A file of the client is read and written in chunks that fit a slot.  Here the loops,
    the requests, the handlers and the file system's reads and writes compose: what is
    read are the bytes of the file, and a write puts its buffer there, whatever the size
    of the slots. *)

From stdpp Require Import base tactics numbers list gmap strings relations.
From Stdlib Require Import ZArith Lia Ascii.
From S2P Require Import Prelude Bytes Layout Pmem DataPath RangeArbiter Namespace Directory FileOps Ipc IpcRing Rpc Server ServerTypes Client ClientCalls.
Open Scope Z_scope.

(** ** Contents *)

Definition splice (offset : Z) (data l : list Z) : list Z := take (Z.to_nat offset) l ++ data ++ drop (Z.to_nat (offset + len data)) l.
Lemma splice_nil offset l : 0 <= offset -> splice offset [] l = l.
Proof. intros. unfold splice. cbn [app]. change (len []) with 0. rewrite Z.add_0_r. apply take_drop. Qed.
Lemma len_splice offset data l : 0 <= offset <= len l -> len (splice offset data l) = Z.max (len l) (offset + len data).
Proof. unfold splice, len. intros. rewrite !length_app, length_take, length_drop. lia. Qed.
Lemma splice_app offset d1 d2 l : 0 <= offset <= len l -> splice (offset + len d1) d2 (splice offset d1 l) = splice offset (d1 ++ d2) l.
Proof.
  intros Ho. unfold splice. unfold len in *. rewrite length_app.
  assert (Z.to_nat (offset + Z.of_nat (length d1)) = length (take (Z.to_nat offset) l ++ d1)) as E1 by (rewrite length_app, length_take; lia).
  rewrite E1, (app_assoc (take _ l)), take_app_length, <-!app_assoc. do 3 f_equal.
  rewrite (app_assoc (take _ l)), drop_app_ge by (rewrite length_app, length_take; lia). rewrite drop_drop. f_equal. rewrite length_app, length_take. lia.
Qed.
(** A buffer spliced in as far as [completed], and its next chunk. *)
Lemma splice_chunk offset completed chunk buffer l : 0 <= offset <= len l -> 0 <= completed -> 0 <= chunk -> completed + chunk <= len buffer ->
  splice (offset + completed) (slice completed chunk buffer) (splice offset (take (Z.to_nat completed) buffer) l) =
    splice offset (take (Z.to_nat (completed + chunk)) buffer) l /\
  len (splice offset (take (Z.to_nat completed) buffer) l) = Z.max (len l) (offset + completed).
Proof.
  intros Ho Hc Hk Hle. assert (len (take (Z.to_nat completed) buffer) = completed) as Et by (unfold len in *; rewrite length_take; lia). split.
  - rewrite <-Et at 1. rewrite splice_app by done. f_equal. change (take (Z.to_nat completed) buffer) with (slice 0 completed buffer).
    pose proof (slice_cat 0 completed chunk buffer) as E. rewrite Z.add_0_l in E. by rewrite E by lia.
  - by rewrite len_splice, Et by done.
Qed.
Lemma slice_splice offset data l : 0 <= offset <= len l -> slice offset (len data) (splice offset data l) = data.
Proof. intros Ho. unfold splice. apply slice_part; [|done]. unfold len in *. rewrite length_take. lia. Qed.
Lemma slice_more offset a b l : 0 <= offset -> 0 <= a -> 0 <= b -> slice offset a l ++ slice (offset + a) b l = slice offset (a + b) l.
Proof. apply slice_cat. Qed.
Lemma slice_short offset n m l : 0 <= offset -> 0 <= n <= m -> len (slice offset n l) < n -> slice offset m l = slice offset n l.
Proof.
  unfold slice, len. intros Ho Hn. rewrite length_take, length_drop. intros. rewrite !take_ge; [done|rewrite length_drop; lia|rewrite length_drop; lia].
Qed.
Lemma len_slice_le offset n l : 0 <= n -> len (slice offset n l) <= n.
Proof. unfold slice, len. rewrite length_take. lia. Qed.

(** What a file offers to its readers and writers; a write that fails leaves the content. *)
Class FileView {F : Type} `{AsyncFilesystem F} (inode : Z) := {
  fv_ok : F -> Prop;
  fv_content : F -> list Z;
  fv_limit : Z;
  fv_read : forall f offset n, fv_ok f -> 0 <= offset -> 0 <= n -> offset + n <= INT64_MAX ->
    exists f', fo_read f inode offset n = (inr (slice offset n (fv_content f)), f') /\ fv_ok f' /\ fv_content f' = fv_content f;
  fv_write : forall f offset data, fv_ok f -> 0 <= offset <= len (fv_content f) -> data <> [] -> offset + len data <= fv_limit ->
    (exists f', fo_write f inode offset data false = (inr (len data, offset), f') /\ fv_ok f' /\ fv_content f' = splice offset data (fv_content f)) \/
    (exists e f', fo_write f inode offset data false = (inl e, f') /\ errno_ok e /\ fv_ok f' /\ fv_content f' = fv_content f);
  fv_bound : fv_limit <= INT64_MAX;
}.
Arguments fv_ok {F H inode _}. Arguments fv_content {F H inode _}.

(** ** Loops *)

Section Loops.
Context {F : Type} (slot : Z) (Hmax : 0 < slot) (step : outcomes -> Z -> Z -> server_state F -> (Z + Z * list Z) * server_state F).
Context (os : nat -> outcomes) (Hos : forall i, os i = quiet_outcomes).

Lemma chunks_read (Inv : Z -> server_state F -> Prop) (base size : Z) (content : list Z) : 0 <= base -> 0 <= size ->
  (forall completed chunk s, Inv completed s -> 0 <= completed -> 0 < chunk -> completed + chunk <= size -> chunk <= slot ->
    let b := slice (base + completed) chunk content in
    exists s', step quiet_outcomes completed chunk s = (inr (len b, b), s') /\ Inv (completed + len b) s') ->
  forall s, Inv 0 s -> exists s', chunks (chunk_fuel size) step os slot size 0 [] s =
    Some (inr (len (slice base size content), slice base size content), s') /\ Inv (len (slice base size content)) s'.
Proof using Hmax Hos.
  intros Hb Hs Hstep s Hi. assert (forall fuel completed arrived s os, (forall i, os i = quiet_outcomes) -> Inv completed s -> 0 <= completed <= size ->
    arrived = slice base completed content -> len arrived = completed -> size - completed < Z.of_nat fuel ->
    exists s', chunks fuel step os slot size completed arrived s = Some (inr (len (slice base size content), slice base size content), s') /\
      Inv (len (slice base size content)) s') as L.
  - clear s Hi os Hos. induction fuel as [|fuel IH]; intros completed arrived s os Hos Hi Hc -> El Hf; [lia|]. cbn [chunks].
    destruct (Z.ltb_spec completed size) as [Hlt|Hge].
    + set (chunk := Z.min slot (size - completed)). assert (0 < chunk <= slot /\ completed + chunk <= size) as [[Hk1 Hk2] Hk3] by lia.
      rewrite Hos. destruct (Hstep completed chunk s Hi ltac:(lia) Hk1 Hk3 Hk2) as (s' & -> & Hi'). clear Hstep.
      pose proof (slice_more base completed chunk content Hb ltac:(lia) ltac:(lia)) as Ecat.
      destruct (Z.eqb_spec (len (slice (base + completed) chunk content)) chunk) as [E|N]; cbn [negb].
      * apply IH; [done|done|lia|by rewrite E, Ecat|rewrite len_app; lia|lia].
      * exists s'. pose proof (len_slice_le (base + completed) chunk content ltac:(lia)).
        assert (slice base size content = slice base completed content ++ slice (base + completed) chunk content) as Eall.
        { rewrite Ecat. apply slice_short; [lia|lia|]. rewrite <-Ecat, len_app. lia. }
        rewrite Eall, len_app, El. done.
    + assert (completed = size) as -> by lia. exists s. by rewrite El.
  - apply (L (chunk_fuel size) 0 [] s os); [done|done|lia| |done|unfold chunk_fuel; lia]. unfold slice. by rewrite take_0.
Qed.
Lemma chunks_write (Inv : Z -> server_state F -> Prop) (size : Z) : 0 <= size ->
  (forall completed chunk s, Inv completed s -> 0 <= completed -> 0 < chunk -> completed + chunk <= size -> chunk <= slot ->
    (exists s', step quiet_outcomes completed chunk s = (inr (chunk, []), s') /\ Inv (completed + chunk) s') \/
    (exists e s', step quiet_outcomes completed chunk s = (inl e, s') /\ errno_ok e /\ Inv completed s')) ->
  forall s, Inv 0 s -> exists r s' k, chunks (chunk_fuel size) step os slot size 0 [] s = Some (r, s') /\ Inv k s' /\ 0 <= k <= size /\
    (r = inr (size, []) /\ k = size \/ exists e, r = inl e /\ errno_ok e).
Proof using Hmax Hos.
  intros Hs Hstep s Hi. assert (forall fuel completed s os, (forall i, os i = quiet_outcomes) -> Inv completed s -> 0 <= completed <= size ->
    size - completed < Z.of_nat fuel ->
    exists r s' k, chunks fuel step os slot size completed [] s = Some (r, s') /\ Inv k s' /\ 0 <= k <= size /\
      (r = inr (size, []) /\ k = size \/ exists e, r = inl e /\ errno_ok e)) as L.
  - clear s Hi os Hos. induction fuel as [|fuel IH]; intros completed s os Hos Hi Hc Hf; [lia|]. cbn [chunks].
    destruct (Z.ltb_spec completed size) as [Hlt|Hge].
    + set (chunk := Z.min slot (size - completed)). assert (0 < chunk <= slot /\ completed + chunk <= size) as [[Hk1 Hk2] Hk3] by lia.
      rewrite Hos. destruct (Hstep completed chunk s Hi ltac:(lia) Hk1 Hk3 Hk2) as [(s' & -> & Hi')|(e & s' & -> & He & Hi')].
      * rewrite Z.eqb_refl. cbn [negb app]. apply IH; [done|done|lia|lia].
      * exists (inl e), s', completed. split_and!; try done; [lia|lia|]. right. by exists e.
    + exists (inr (completed, [])), s, completed. assert (completed = size) as -> by lia. split_and!; try done; try lia. by left.
  - apply (L (chunk_fuel size) 0 s os); [done|done|lia|unfold chunk_fuel; lia].
Qed.
End Loops.

(** ** One chunk *)

Section Chunks.
Context {F : Type} `{AsyncFilesystem F} (L : link) (HL : link_ok L).
Abbreviation st := (server_state F).
Implicit Types (s : st).

Lemma io_header_ok flags handle offset length : in_width 32 flags -> in_width 64 handle -> in_s64 offset -> in_width 64 length ->
  request_ok (io_header flags handle offset length).
Proof. intros H1 H2 H3 H4. by repeat split; try apply H1; try apply H2; try apply H3; try apply H4. Qed.
Definition readable (h : HandleState) : Prop :=
  h_type h = ORCHFS_CORE_REGULAR /\ is_directory_cursor h = false /\ Z.land (h_open_flags h) O_ACCMODE <> O_WRONLY.
Definition writable (h : HandleState) : Prop :=
  h_type h = ORCHFS_CORE_REGULAR /\ is_directory_cursor h = false /\ Z.land (h_open_flags h) O_ACCMODE <> O_RDONLY /\ has_bits (h_open_flags h) O_APPEND = false.
Lemma validate_small offset n : 0 <= offset -> offset + n <= INT64_MAX -> 0 <= n -> validate_io_range offset n = 0.
Proof. intros. unfold validate_io_range. by rewrite !(proj2 (Z.ltb_ge _ _)) by lia. Qed.
(** The state after a call that moved the file system, and the offset of the handle when it is [implicit]. *)
Definition after_io (implicit : bool) (id : Z) (h : HandleState) (v : Z) (f : F) s : st :=
  if implicit then put_handle id (set_offset v h) (set_fs f s) else set_fs f s.

Lemma read_chunk (implicit direct : bool) flags id h s offset chunk b f' : opened s id h -> readable h -> 0 <= offset -> 0 < chunk <= max_chunk L ->
  offset + chunk <= INT64_MAX -> (implicit = true -> h_offset h = offset) -> in_width 32 flags ->
  fo_read (sv_fs s) (h_inode h) offset chunk = (inr b, f') -> len b <= chunk ->
  on_reply (rpc_header L quiet_outcomes (if implicit then oc_read else oc_read_at) (io_header flags id (if implicit then 0 else s64 offset) chunk) []
    (if direct then chunk else 0) s) (read_reply chunk) = (inr (len b, b), after_io implicit id h (offset + len b) f' s).
Proof using HL.
  intros Ho (R1 & R2 & R3) Hof Hc Hr Himp Hfl Er Hb. pose proof (lk_slot _ HL) as Hs. pose proof Ho as (_ & _ & Hid). pose proof (len_nonneg b).
  unfold max_chunk, INT64_MAX, REQUEST_SIZE in *. rewrite header_run; [|done| |].
  2: { apply io_header_ok; [done|unfold in_width; lia|unfold in_s64; destruct implicit; rewrite ?s64_small; lia|unfold in_width; lia]. }
  2: { change (len []) with 0. unfold REQUEST_SIZE. lia. }
  set (p := mk_parsed _ _ _ _).
  assert (q_length (p_request p) = chunk /\ q_handle (p_request p) = id /\ (implicit = false -> q_offset (p_request p) = offset)) as (Eq1 & Eq2 & Eq3).
  { split; [done|]. split; [done|]. intros ->. cbn. apply s64_small. lia. }
  rewrite (to_handle L p _ _ s id h); [|by destruct implicit|done|done].
  assert (forall c, status c = 0 -> k_filled c = 0 -> k_payload c = [] ->
    do_read quiet_outcomes (l_slot L) p id h implicit c s = (fill c b, after_io implicit id h (offset + len b) f' s)) as E.
  { intros c Ec _ _. unfold do_read. rewrite R1, R2. cbn [Z.eqb negb orb]. change (ORCHFS_CORE_REGULAR =? ORCHFS_CORE_REGULAR) with true. cbn [negb orb].
    rewrite (proj2 (Z.eqb_neq _ _) R3), Eq1. unfold UINT64_MAX. rewrite !(proj2 (Z.ltb_ge _ _)) by lia. cbn [orb].
    unfold with_life. cbn [o_schedule o_life quiet_outcomes Z.eqb negb].
    unfold with_offset. cbn [o_offset o_offset_release quiet_outcomes Z.eqb negb].
    destruct implicit.
    - cbn [negb andb]. rewrite (Himp eq_refl), Ec. cbn [Z.eqb andb]. rewrite validate_small by (unfold INT64_MAX; lia). cbn [Z.eqb negb]. rewrite Ec. cbn [Z.eqb].
      unfold call. rewrite Er. rewrite (proj2 (Z.ltb_ge _ _)) by lia. unfold released. cbn [Z.eqb negb andb after_io]. by rewrite u64_small by lia.
    - cbn [negb andb]. rewrite (Eq3 eq_refl), (proj2 (Z.ltb_ge _ _)) by lia. rewrite u64_small by lia. rewrite Ec. cbn [Z.eqb andb].
      rewrite validate_small by (unfold INT64_MAX; lia). cbn [Z.eqb negb]. rewrite Ec. cbn [Z.eqb].
      unfold call. rewrite Er. rewrite (proj2 (Z.ltb_ge _ _)) by lia. done. }
  destruct implicit; rewrite E by (done || apply new_status); apply read_answer; try done; try lia; apply new_status.
Qed.

(** The handler of a write, when the file system answers [r]. *)
Lemma write_handler (implicit : bool) p id h s offset r f' c : opened s id h -> writable h -> q_length (p_request p) = len (p_data p) -> 0 <= offset ->
  offset + len (p_data p) <= INT64_MAX -> status c = 0 -> (if implicit then h_offset h = offset else q_offset (p_request p) = offset) ->
  fo_write (sv_fs s) (h_inode h) offset (p_data p) false = (r, f') -> (forall n, r = inr n -> n = (len (p_data p), offset)) ->
  do_write quiet_outcomes p id h implicit c s =
  match r with
  | inl e => (fail c e, set_fs f' s)
  | inr _ => (mk_completion (set_descriptor_offset (set_result_length (k_descriptor c) (len (p_data p))) offset) (k_payload c) (k_filled c) (k_slot c),
              after_io implicit id h (offset + len (p_data p)) f' s)
  end.
Proof.
  intros (Eh & Ecl & Hid) (W1 & W2 & W3 & W4) Hq Ho Hm Hc Hoff Ew Hr. pose proof (len_nonneg (p_data p)). unfold do_write. rewrite W1, W2.
  change (ORCHFS_CORE_REGULAR =? ORCHFS_CORE_REGULAR) with true. cbn [negb orb]. rewrite (proj2 (Z.eqb_neq _ _) W3), Hq, Z.eqb_refl. cbn [negb].
  unfold acquire_write. rewrite Ecl. cbn [negb o_schedule quiet_outcomes Z.eqb].
  set (h1 := set_active_writes (h_active_writes h + 1) h).
  assert (h_inode h1 = h_inode h /\ h_offset h1 = h_offset h /\ h_open_flags h1 = h_open_flags h) as (E1 & E2 & E3) by (by destruct h).
  rewrite E1, E2, E3, W4. unfold with_offset. cbn [orb].
  assert (release_write h1 = h) as Erel by apply release_acquire.
  assert (forall v, release_write (set_offset v h1) = set_offset v h) as Erel' by (intros v; unfold h1; destruct h; unfold release_write; cbn; f_equal; lia).
  assert (sv_fs (put_handle id h1 s) = sv_fs s) as Ef by (by destruct s).
  destruct implicit; cbn [orb negb andb o_offset o_offset_release quiet_outcomes Z.eqb]; rewrite ?Hoff, ?(proj2 (Z.ltb_ge offset 0)) by lia; rewrite ?u64_small by (unfold INT64_MAX in *; lia).
  all: rewrite Hc; cbn [Z.eqb andb negb]; rewrite validate_small by lia; cbn [Z.eqb negb]; rewrite Hc; cbn [Z.eqb]; unfold call; rewrite Ef, Ew.
  all: destruct r as [e|n]; [|rewrite (Hr n eq_refl); cbn [fst snd]; rewrite Z.ltb_irrefl, validate_small by lia; cbn [Z.eqb negb orb]].
  all: unfold released; cbn [Z.eqb negb andb]; f_equal; destruct s as [f m nx cl sf sr sh]; cbn in Eh |- *; f_equal; rewrite alter_insert_eq, ?insert_insert_eq, ?Erel, ?Erel'; try (by apply insert_id).
  f_equal. f_equal. apply u64_small. unfold INT64_MAX in *. lia.
Qed.
Lemma write_chunk (implicit : bool) flags id h s offset data r f' : opened s id h -> writable h -> 0 <= offset -> 0 < len data <= max_chunk L ->
  offset + len data <= INT64_MAX -> (implicit = true -> h_offset h = offset) -> in_width 32 flags ->
  fo_write (sv_fs s) (h_inode h) offset data false = (r, f') -> match r with inl e => errno_ok e | inr n => n = (len data, offset) end ->
  on_reply (rpc_header L quiet_outcomes (if implicit then oc_write else oc_write_at) (io_header flags id (if implicit then 0 else s64 offset) (len data)) data 0 s)
    (write_reply (len data)) =
  match r with inl e => (inl e, set_fs f' s) | inr _ => (inr (len data, []), after_io implicit id h (offset + len data) f' s) end.
Proof using HL.
  intros Ho Hw Hof Hc Hr Himp Hfl Ew Hres. pose proof (lk_slot _ HL) as Hs. pose proof Ho as (_ & _ & Hid).
  unfold max_chunk, REQUEST_SIZE in *. rewrite header_run; [|done| |unfold REQUEST_SIZE; lia].
  2: { apply io_header_ok; [done|unfold in_width; lia|unfold in_s64, INT64_MAX in *; destruct implicit; rewrite ?s64_small; lia|unfold in_width; lia]. }
  set (p := mk_parsed _ _ _ _). rewrite (to_handle L p _ _ s id h); [|by destruct implicit|done|done].
  assert (forall c, status c = 0 -> on_reply (deliver 0 (do_write quiet_outcomes p id h implicit c s)) (write_reply (len data)) =
    match r with inl e => (inl e, set_fs f' s) | inr _ => (inr (len data, []), after_io implicit id h (offset + len data) f' s) end) as E.
  { intros c Ec. rewrite (write_handler implicit p id h s offset r f' c); try done.
    - destruct r as [e|n]; [by apply failed_answer|]. unfold deliver. cbn [Z.eqb negb fst snd on_reply reply_of y_descriptor k_descriptor].
      replace (d_status _) with (status c) by (by destruct c as [[] ? ? ?]). rewrite Ec. cbn [status_error Z.eqb]. unfold write_reply. cbn [y_descriptor].
      replace (d_result_length _) with (len data) by (by destruct c as [[] ? ? ?]). by rewrite Z.ltb_irrefl.
    - destruct implicit; [by apply Himp|]. cbn. apply s64_small. unfold INT64_MAX in *. lia.
    - intros n ->. done. }
  destruct implicit; apply E, new_status.
Qed.
End Chunks.

(** ** Files *)

Section Files.
Context {F : Type} `{AsyncFilesystem F} (L : link) (HL : link_ok L) (os : nat -> outcomes) (Hos : forall i, os i = quiet_outcomes).
Context (id : Z) (h : HandleState) `{V : !FileView (h_inode h)}.
Abbreviation st := (server_state F).
Implicit Types (s : st).

Lemma opened_set_fs s f : opened s id h -> opened (set_fs f s) id h.
Proof. by destruct s. Qed.
Lemma fs_set_fs s (f : F) : sv_fs (set_fs f s) = f.
Proof. by destruct s. Qed.
Lemma handles_set_fs s (f : F) : sv_handles (set_fs f s) = sv_handles s.
Proof. by destruct s. Qed.
Lemma max_chunk_pos : 0 < max_chunk L.
Proof using HL. pose proof (lk_slot _ HL). unfold max_chunk, REQUEST_SIZE. lia. Qed.
Lemma in_range_positioned offset n : 0 <= offset -> 0 <= n -> offset + n <= INT64_MAX -> positioned_range_error offset n = None.
Proof. intros. unfold positioned_range_error. by rewrite !(proj2 (Z.ltb_ge _ _)) by lia. Qed.

(** The session after calls that touched the file system only. *)
Definition same_handles s s' : Prop := sv_handles s' = sv_handles s.
Lemma read_at_run direct s offset size : opened s id h -> readable h -> fv_ok (sv_fs s) -> 0 <= offset -> 0 <= size -> offset + size <= INT64_MAX ->
  let b := slice offset size (fv_content (sv_fs s)) in
  exists s', read_positioned L direct os id offset size s = Some (inr (len b, b), s') /\ fv_ok (sv_fs s') /\
    fv_content (sv_fs s') = fv_content (sv_fs s) /\ same_handles s s'.
Proof using HL Hos.
  intros Ho Hr Hok H1 H2 H3 b. unfold read_positioned. rewrite (opened_valid L HL s id h Ho), in_range_positioned by lia. cbn [negb].
  set (Inv := fun (_ : Z) s' => opened s' id h /\ fv_ok (sv_fs s') /\ fv_content (sv_fs s') = fv_content (sv_fs s) /\ same_handles s s').
  match goal with |- context [chunks _ ?step _ _ _ _ _ _] => edestruct (chunks_read (max_chunk L) max_chunk_pos step os Hos Inv offset size (fv_content (sv_fs s)) H1 H2) as (s' & E & I) end.
  - intros completed chunk s1 (O1 & K1 & C1 & M1) Hc Hch Hle Hmax b1. pose proof (len_slice_le (offset + completed) chunk (fv_content (sv_fs s)) ltac:(lia)).
    destruct (fv_read (sv_fs s1) (offset + completed) chunk K1 ltac:(lia) ltac:(lia) ltac:(lia)) as (f' & E & K2 & C2). rewrite C1 in E, C2.
    exists (set_fs f' s1). split; [by apply (read_chunk L HL false direct 0 id h s1 (offset + completed) chunk b1 f'); try done; lia|].
    unfold Inv, same_handles. rewrite fs_set_fs, handles_set_fs. split_and!; [by apply opened_set_fs|done|done|done].
  - by split_and!.
  - exists s'. split; [done|]. by destruct I as (_ & ? & ? & ?).
Qed.
Lemma write_at_run s offset buffer : opened s id h -> writable h -> fv_ok (sv_fs s) -> 0 <= offset <= len (fv_content (sv_fs s)) ->
  offset + len buffer <= fv_limit (inode := h_inode h) ->
  exists r s' k, file_write_at L os id offset buffer s = Some (r, s') /\ 0 <= k <= len buffer /\ fv_ok (sv_fs s') /\ same_handles s s' /\
    fv_content (sv_fs s') = splice offset (take (Z.to_nat k) buffer) (fv_content (sv_fs s)) /\
    (r = inr (len buffer, []) /\ k = len buffer \/ exists e, r = inl e /\ errno_ok e).
Proof using HL Hos.
  intros Ho Hw Hok H1 H2. pose proof (fv_bound (inode := h_inode h)) as Hb. pose proof (len_nonneg buffer).
  unfold file_write_at. rewrite (opened_valid L HL s id h Ho), in_range_positioned by lia. cbn [negb].
  set (c0 := fv_content (sv_fs s)).
  set (Inv := fun (k : Z) s' => opened s' id h /\ fv_ok (sv_fs s') /\ fv_content (sv_fs s') = splice offset (take (Z.to_nat k) buffer) c0 /\ same_handles s s').
  match goal with |- context [chunks _ ?step _ _ _ _ _ _] => edestruct (chunks_write (max_chunk L) max_chunk_pos step os Hos Inv (len buffer) ltac:(lia)) as (r & s' & k & E & I & Hk & R) end.
  - intros completed chunk s1 (O1 & K1 & C1 & M1) Hc Hch Hle Hmax. set (data := slice completed chunk buffer).
    assert (len data = chunk) as El by (apply len_slice; lia).
    destruct (splice_chunk offset completed chunk buffer c0 ltac:(done) Hc ltac:(lia) Hle) as [Es Ec]. rewrite <-C1 in Ec.
    destruct (fv_write (sv_fs s1) (offset + completed) data K1) as [(f' & E & K2 & C2)|(e & f' & E & He & K2 & C2)]; [lia|intros Ed; rewrite Ed in El; change (len []) with 0 in El; lia|lia|left|right].
    + exists (set_fs f' s1). rewrite El in E. split.
      * pose proof (write_chunk L HL false REQUEST_DATA_FOLLOWS id h s1 (offset + completed) data (inr (chunk, offset + completed)) f') as W. rewrite El in W.
        apply W; try done; lia.
      * unfold Inv, same_handles. rewrite fs_set_fs, handles_set_fs. split_and!; [by apply opened_set_fs|done|by rewrite C2, C1|done].
    + exists e, (set_fs f' s1). split; [|split; [done|]].
      * pose proof (write_chunk L HL false REQUEST_DATA_FOLLOWS id h s1 (offset + completed) data (inl e) f') as W. rewrite El in W.
        apply W; try done; lia.
      * unfold Inv, same_handles. rewrite fs_set_fs, handles_set_fs. split_and!; [by apply opened_set_fs|done|by rewrite C2, C1|done].
  - unfold Inv. rewrite take_0, splice_nil by lia. by split_and!.
  - destruct I as (_ & ? & ? & ?). by exists r, s', k.
Qed.

(** *** The offset of the handle *)

Definition at_offset (v : Z) : HandleState := set_offset v h.
Lemma at_offset_inode v : h_inode (at_offset v) = h_inode h.
Proof. unfold at_offset. by destruct h. Qed.
Lemma at_offset_offset v : h_offset (at_offset v) = v.
Proof. unfold at_offset. by destruct h. Qed.
Lemma at_offset_readable v : readable h -> readable (at_offset v).
Proof. unfold at_offset. by destruct h. Qed.
Lemma at_offset_writable v : writable h -> writable (at_offset v).
Proof. unfold at_offset. by destruct h. Qed.
Lemma at_offset_again v w : set_offset v (at_offset w) = at_offset v.
Proof. unfold at_offset. by destruct h. Qed.
Lemma at_offset_same : at_offset (h_offset h) = h.
Proof. unfold at_offset. by destruct h. Qed.
(** Handle [id] stands at [v], the others are those of [s]. *)
Definition moved s (v : Z) s' : Prop := opened s' id (at_offset v) /\ sv_handles s' = <[id := at_offset v]> (sv_handles s).
Lemma moved_start s : opened s id h -> moved s (h_offset h) s.
Proof. intros Ho. split; rewrite at_offset_same; [done|]. destruct Ho as (E & _ & _). by rewrite insert_id. Qed.
Lemma moved_after s v s' w f : moved s v s' -> moved s w (after_io true id (at_offset v) w f s').
Proof.
  intros [(E1 & E2 & E3) E]. unfold after_io, moved, opened. rewrite at_offset_again. destruct s' as [g m n cl sf sr sh]. cbn in *. subst.
  rewrite insert_insert_eq, lookup_insert_eq. split_and!; try done; try lia. unfold at_offset in *. by destruct h.
Qed.
Lemma read_run s size : opened s id h -> readable h -> fv_ok (sv_fs s) -> 0 <= h_offset h -> 0 <= size -> h_offset h + size <= INT64_MAX ->
  let b := slice (h_offset h) size (fv_content (sv_fs s)) in
  exists s', file_read L 0 0 os id size s = Some (inr (len b, b), s') /\ fv_ok (sv_fs s') /\ fv_content (sv_fs s') = fv_content (sv_fs s) /\
    moved s (h_offset h + len b) s'.
Proof using HL Hos.
  intros Ho Hr Hok H1 H2 H3 b. unfold file_read. rewrite (opened_valid L HL s id h Ho). cbn [negb]. unfold with_gate. cbn [Z.eqb negb]. unfold file_read_unlocked.
  set (Inv := fun (k : Z) s' => moved s (h_offset h + k) s' /\ fv_ok (sv_fs s') /\ fv_content (sv_fs s') = fv_content (sv_fs s)).
  match goal with |- context [chunks _ ?step _ _ _ _ _ _] => edestruct (chunks_read (max_chunk L) max_chunk_pos step os Hos Inv (h_offset h) size (fv_content (sv_fs s)) H1 H2) as (s' & E & I) end.
  - intros completed chunk s1 ([O1 M1] & K1 & C1) Hc Hch Hle Hmax b1. pose proof (len_slice_le (h_offset h + completed) chunk (fv_content (sv_fs s)) ltac:(lia)).
    destruct (fv_read (sv_fs s1) (h_offset h + completed) chunk K1 ltac:(lia) ltac:(lia) ltac:(lia)) as (f' & E & K2 & C2). rewrite C1 in E, C2.
    exists (after_io true id (at_offset (h_offset h + completed)) (h_offset h + completed + len b1) f' s1). split.
    + apply (read_chunk L HL true true REQUEST_IMPLICIT_OFFSET id (at_offset (h_offset h + completed)) s1 (h_offset h + completed) chunk b1 f'); try done; try lia.
      * by apply at_offset_readable.
      * intros _. apply at_offset_offset.
      * by rewrite at_offset_inode.
    + rewrite <-Z.add_assoc. split_and!; [by apply (moved_after s (h_offset h + completed))| |]; by destruct s1.
  - unfold Inv. rewrite Z.add_0_r. split_and!; [by apply moved_start|done|done].
  - rewrite E. destruct I as (M & K & C). exists s'. by split_and!.
Qed.
Lemma write_run s buffer : opened s id h -> writable h -> fv_ok (sv_fs s) -> 0 <= h_offset h <= len (fv_content (sv_fs s)) ->
  h_offset h + len buffer <= fv_limit (inode := h_inode h) ->
  exists r s' k, file_write L 0 0 os id buffer s = Some (r, s') /\ 0 <= k <= len buffer /\ fv_ok (sv_fs s') /\ moved s (h_offset h + k) s' /\
    fv_content (sv_fs s') = splice (h_offset h) (take (Z.to_nat k) buffer) (fv_content (sv_fs s)) /\
    (r = inr (len buffer, []) /\ k = len buffer \/ exists e, r = inl e /\ errno_ok e).
Proof using HL Hos.
  intros Ho Hw Hok H1 H2. pose proof (fv_bound (inode := h_inode h)) as Hb. pose proof (len_nonneg buffer).
  unfold file_write. rewrite (opened_valid L HL s id h Ho). cbn [negb]. unfold with_gate. cbn [Z.eqb negb]. unfold file_write_unlocked.
  set (c0 := fv_content (sv_fs s)). set (base := h_offset h) in *.
  set (Inv := fun (k : Z) s' => moved s (base + k) s' /\ fv_ok (sv_fs s') /\ fv_content (sv_fs s') = splice base (take (Z.to_nat k) buffer) c0).
  match goal with |- context [chunks _ ?step _ _ _ _ _ _] => edestruct (chunks_write (max_chunk L) max_chunk_pos step os Hos Inv (len buffer) ltac:(lia)) as (r & s' & k & E & I & Hk & R) end.
  - intros completed chunk s1 ([O1 M1] & K1 & C1) Hc Hch Hle Hmax. set (data := slice completed chunk buffer).
    assert (len data = chunk) as El by (apply len_slice; lia).
    destruct (splice_chunk base completed chunk buffer c0 ltac:(done) Hc ltac:(lia) Hle) as [Es Ec]. rewrite <-C1 in Ec.
    destruct (fv_write (sv_fs s1) (base + completed) data K1) as [(f' & E & K2 & C2)|(e & f' & E & He & K2 & C2)]; [lia|intros Ed; rewrite Ed in El; change (len []) with 0 in El; lia|lia|left|right].
    + exists (after_io true id (at_offset (base + completed)) (base + completed + chunk) f' s1). rewrite El in E. split.
      * pose proof (write_chunk L HL true (Z.lor REQUEST_IMPLICIT_OFFSET REQUEST_DATA_FOLLOWS) id (at_offset (base + completed)) s1 (base + completed) data (inr (chunk, base + completed)) f') as W.
        rewrite El in W. apply W; try done; try lia; [by apply at_offset_writable|intros _; apply at_offset_offset|by rewrite at_offset_inode].
      * rewrite <-Z.add_assoc. split_and!; [by apply (moved_after s (base + completed))|by destruct s1|]. rewrite <-Es. fold data. rewrite <-C1, <-C2. by destruct s1.
    + exists e, (set_fs f' s1). split; [|split; [done|]].
      * pose proof (write_chunk L HL true (Z.lor REQUEST_IMPLICIT_OFFSET REQUEST_DATA_FOLLOWS) id (at_offset (base + completed)) s1 (base + completed) data (inl e) f') as W.
        rewrite El in W. apply W; try done; try lia; [by apply at_offset_writable|intros _; apply at_offset_offset|by rewrite at_offset_inode].
      * split_and!; [|by destruct s1|rewrite <-C1, <-C2; by destruct s1]. split; [destruct s1; exact O1|]. by rewrite handles_set_fs.
  - unfold Inv. rewrite Z.add_0_r, take_0, splice_nil by lia. split_and!; [by apply moved_start|done|done].
  - rewrite E. destruct I as (M & K & C). exists r, s', k. split; [by destruct r|]. exact (conj Hk (conj K (conj M (conj C R)))).
Qed.
End Files.
