(* ===== verification/CoreFs.v ===== *)
(** * The core is the file system of the server

    [KfsCoroutineCore] (include/orchfs/async/kfs_coroutine_core.hpp) implements the
    interface the server calls, with the operations of the other files: names from
    Directory.v, data from DataPath.v, the rest from FileOps.v.  A file of the core is
    then shown to be a file for the clients of ClientData.v. *)

From stdpp Require Import base tactics numbers list gmap strings relations.
From Stdlib Require Import ZArith Lia Ascii.
From S2P Require Import Prelude Bytes Layout Pmem DataPath RangeArbiter Namespace Extents Directory DataWrite Tree NamespaceOps FileOps Ipc IpcRing Rpc Server ServerTypes Client ClientCalls ClientData.
Open Scope Z_scope.

(** The namespace with its inodes, and the media the blocks of all files are on. *)
Record core := mk_core { cr_ns : fsystem; cr_data : data }.

Section Core.
(** The errors of the environment; of writing data; what the preparation of
    blocks, [orchfs_core_persist_pmem], the extents of an inode, reads of the
    device for it and the raw device answer; memory for the windows of a listing. *)
Context (e : env) (we : write_env) (prepared : stored -> Z -> list Z -> Z + preparation) (persist_error : Z).
Context (extents_error device_error : Z -> Z).
Context (raw_read : data -> Z -> Z -> Z + list Z) (raw_write : data -> Z -> list Z -> (Z + Z) * data) (raw_flush : Z + unit) (memory : Z -> bool).

Definition on_ns {A} (c : core) (r : A * fsystem) : A * core := (r.1, mk_core r.2 (cr_data c)).
(** An inode with the media, as FileOps.v has it, and back; blocks that are not there
    read as an error of the index. *)
Definition no_block : orchfs_core_block := mk_core_block 0 0 (fun _ => 0) (fun _ => 0) 0.
Definition file_of (c : core) (n : node) : stored :=
  mk_stored (nd_type n) (node_size n) (cr_data c) (fun k => match nd_query n k with inr b => b | inl _ => no_block end).
Definition put_file (c : core) (inode : Z) (n : node) (f : stored) : core :=
  let n := mk_node (nd_type n) (sr_size f) (fun k => inr (sr_blocks f k)) (nd_entries n) (nd_orphan n) (nd_live n) in
  mk_core (set_nodes (<[inode := n]> (fs_nodes (cr_ns c))) (cr_ns c)) (sr_data f).
(** Under the range permit of the inode. *)
Definition under_range {A} (r : (Z + A) * core) : (Z + A) * core :=
  match r with (inr a, c) => (if negb (e_range_unlock e =? 0) then inl (e_range_unlock e) else inr a, c) | _ => r end.

Definition core_read (c : core) (inode offset length : Z) : (Z + list Z) * core :=
  if (INT64_MAX <? offset) || (INT64_MAX - offset <? length) then (inl EOVERFLOW, c)
  else if negb (e_range_lock e =? 0) then (inl (e_range_lock e), c)
  else under_range
    match orchfs_core_snapshot (fs_nodes (cr_ns c)) inode with
    | inl error => (inl error, c)
    | inr n => (read_unlocked (cr_data c) (nd_type n) (node_size n) (extents_error inode) (nd_query n) (device_error inode) offset length, c)
    end.
Definition core_write (c : core) (inode offset : Z) (source : list Z) (append : bool) : (Z + Z * Z) * core :=
  if negb (e_range_lock e =? 0) then (inl (e_range_lock e), c)
  else under_range
    match orchfs_core_snapshot (fs_nodes (cr_ns c)) inode with
    | inl error => (inl error, c)
    | inr n =>
        match prepared (file_of c n) offset source with
        | inl error => (inl error, c)
        | inr p =>
            match write_unlocked we (cr_data c) (nd_type n) (node_size n) (extents_error inode) (pr_lookup p) 0 (inr (pr_before p)) (pr_ensure p) offset source append with
            | inl error => (inl error, c)
            | inr (bytes, at_, d, size) => (inr (bytes, at_), put_file c inode n (mk_stored (nd_type n) size d (pr_after p)))
            end
        end
    end.
Definition core_truncate `{FileData stored} (c : core) (inode size : Z) : (Z + unit) * core :=
  match orchfs_core_snapshot (fs_nodes (cr_ns c)) inode with
  | inl error =>
      (inl (if kMaximumFileSize <? size then EFBIG else if negb (e_range_lock e =? 0) then e_range_lock e else error), c)
  | inr n =>
      let '(r, f) := truncate (e_range_lock e) (e_range_unlock e) (fun _ => 0) (file_of c n) size in
      (default (inl EIO) r, put_file c inode n f)
  end.
Definition core_truncate_path `{FileData stored} (c : core) (path : string) (size : Z) : (Z + unit) * core :=
  if kMaximumFileSize <? size then (inl EFBIG, c)
  else
    let '(opened, s) := open_path e (cr_ns c) path O_WRONLY None in
    let c := mk_core s (cr_data c) in
    match opened with
    | inl error => (inl error, c)
    | inr node =>
        let '(result, c) := core_truncate c node.1 size in
        let '(closed, s) := close_node e (cr_ns c) node.1 node.2 in
        (match closed, result with inl error, inr _ => inl error | _, _ => result end, mk_core s (cr_data c))
    end.
Definition core_read_directory (c : core) (inode cursor room : Z) : (Z + list DirEntry * Z) * core :=
  (default (inl EIO) (read_directory e memory (cr_ns c) inode cursor (Z.to_nat room)), c).
Definition core_sync (c : core) (inode : Z) : (Z + unit) * core :=
  if negb (e_range_lock e =? 0) then (inl (e_range_lock e), c)
  else under_range (if negb (persist_error =? 0) then inl persist_error else inr tt, c).

#[local] Instance core_filesystem `{FileData stored} : AsyncFilesystem core := {
  fo_open c path flags mode := on_ns c (open_path e (cr_ns c) path flags None);
  fo_open_at c directory path flags mode := on_ns c (open_path e (cr_ns c) path flags (Some directory));
  fo_close c node := on_ns c (close_node e (cr_ns c) node.1 node.2);
  fo_read := core_read;
  fo_write := core_write;
  fo_stat_path c path := on_ns c (stat_path e (cr_ns c) path);
  fo_stat c inode := on_ns c (stat_inode e (cr_ns c) inode);
  fo_statfs c inode := (statfs (cr_ns c) inode, c);
  fo_seek c inode current offset whence := (seek (cr_ns c) inode current offset whence, c);
  fo_truncate_path := core_truncate_path;
  fo_truncate := core_truncate;
  fo_sync := core_sync;
  fo_make_directory c path mode := on_ns c (make_directory e (cr_ns c) path);
  fo_remove_directory c path := on_ns c (remove_path e (cr_ns c) path ORCHFS_CORE_DIRECTORY);
  fo_unlink c path := on_ns c (remove_path e (cr_ns c) path ORCHFS_CORE_REGULAR);
  fo_rename c old_path new_path := on_ns c (rename_path e (cr_ns c) old_path new_path);
  fo_open_directory_path c path := on_ns c (open_directory e (cr_ns c) path);
  fo_open_directory c inode := on_ns c (open_directory_inode e (cr_ns c) inode);
  fo_read_directory := core_read_directory;
  fo_close_directory c node := on_ns c (close_directory e (cr_ns c) node.1 node.2);
  fo_device_read c offset length := (raw_read (cr_data c) offset length, c);
  fo_device_write c offset source := let '(r, d) := raw_write (cr_data c) offset source in (r, mk_core (cr_ns c) d);
  fo_device_flush c := (raw_flush, c);
}.

(** ** What the server relies on *)

Lemma known_finish s inode n flags created v s' :
  finish_open_locked e s inode n flags created = (inr v, s') -> v.2 = ORCHFS_CORE_DIRECTORY \/ v.2 = ORCHFS_CORE_REGULAR.
Proof.
  unfold finish_open_locked. do 4 (destruct (_ : bool); [done|]). destruct (if has_flag flags O_TRUNC then _ else _) as [[x|m] s1]; [done|]. cbn zeta.
  destruct (Z.eqb_spec (nd_type m) ORCHFS_CORE_DIRECTORY) as [E1|N1], (Z.eqb_spec (nd_type m) ORCHFS_CORE_REGULAR) as [E2|N2]; cbn [negb andb]; try done.
  all: destruct (_ : bool); [done|]; destruct (retain_locked _ _ _) as [x c]; do 2 (destruct (_ : bool); [done|]); intros; simplify_eq; by auto.
Qed.
Lemma known_under directory r v s' : open_under e directory r = (inr v, s') -> exists s1, r = (inr v, s1).
Proof. unfold open_under. destruct r as [[x|m] s1]; [done|]. destruct (_ : bool); [done|]. intros. simplify_eq. by eexists. Qed.
Lemma known_self s inode flags v s' : open_self e s inode flags = (inr v, s') -> v.2 = ORCHFS_CORE_DIRECTORY \/ v.2 = ORCHFS_CORE_REGULAR.
Proof.
  unfold open_self. destruct (_ : bool); [done|]. intros [s1 E]%known_under. destruct (orchfs_core_snapshot _ _) as [x|n]; [done|]. by eapply known_finish.
Qed.
Lemma known_open s path flags relative v s' :
  open_path e s path flags relative = (inr v, s') -> v.2 = ORCHFS_CORE_DIRECTORY \/ v.2 = ORCHFS_CORE_REGULAR.
Proof.
  unfold open_path. destruct (split_path path); [done|]. destruct (forallb _ _); [apply known_self|]. destruct (bool_decide _).
  - destruct (resolve _ _ _ _) as [[x|[i c]] s1]; [done|apply known_self].
  - destruct (resolve_parent _ _ _ _) as [[x|p] s1]; [done|]. destruct (_ : bool); [done|]. intros [s2 E]%known_under. unfold open_child_locked in E.
    destruct (find_child_locked _ _ _ _) as [[x|l1] s3]; [|by eapply known_finish]. destruct (_ : bool); [done|].
    destruct (create_node_locked _ _ _ _ _) as [[y|l2] s4]; [done|by eapply known_finish].
Qed.
Lemma write_result d type size error lookup prepare ensure offset source append bytes at_ d' size' : 0 <= offset ->
  write_unlocked we d type size error lookup 0 prepare ensure offset source append = inr (bytes, at_, d', size') -> 0 <= bytes /\ 0 <= at_.
Proof.
  intros Ho. unfold write_unlocked. destruct (negb _); [done|]. destruct (Z.ltb_spec size 0); [done|]. pose proof (len_nonneg source). cbn zeta.
  destruct (_ || _); [intros; simplify_eq; split; [done|by destruct append]|]. do 2 (destruct (_ : bool); [done|]). destruct (if stable_overwrite _ _ _ _ _ then _ else _); [done|].
  destruct (plan_writes _ _ _ _ _ _ _ _) as [|[? ?]]; [done|]. destruct (execute_plan _ _ _); [done|]. do 2 (destruct (_ : bool); [done|]).
  intros. simplify_eq. split; [done|]. by destruct append.
Qed.
Lemma seek_from_range base offset v : 0 <= base <= INT64_MAX -> seek_from base offset = inr v -> 0 <= v <= INT64_MAX.
Proof.
  unfold seek_from, INT64_MAX. intros Hb. destruct (Z.ltb_spec offset 0).
  - destruct (Z.ltb_spec base (- (offset + 1) + 1)); [done|]. intros. simplify_eq. lia.
  - rewrite u64_small by lia. destruct (Z.ltb_spec (2 ^ 63 - 1 - base) offset); [done|]. intros. simplify_eq. rewrite u64_small; lia.
Qed.
(** No file is larger than the signed range. *)
Definition sizes_ok (c : core) : Prop := forall i n, fs_nodes (cr_ns c) !! i = Some n -> node_size n <= INT64_MAX.
Lemma snapshot_node nodes i n : orchfs_core_snapshot nodes i = inr n -> nodes !! i = Some n.
Proof.
  unfold orchfs_core_snapshot. destruct (_ || _); [done|]. destruct (nodes !! i) as [m|]; [|done]. repeat (destruct (_ : bool); [done|]). congruence.
Qed.
Lemma core_well_behaved `{FileData stored} c : sizes_ok c -> well_behaved c.
Proof.
  intros Hs. split.
  - intros path flags mode n c'. cbn. unfold on_ns. destruct (open_path _ _ _ _ _) as [[x|v] s'] eqn:E; [done|]. intros. simplify_eq. right. by eapply known_open.
  - intros i path flags mode n c'. cbn. unfold on_ns. destruct (open_path _ _ _ _ _) as [[x|v] s'] eqn:E; [done|]. intros. simplify_eq. right. by eapply known_open.
  - intros i offset source append n c' Ho. cbn. unfold core_write. destruct (negb _); [done|]. destruct (orchfs_core_snapshot _ _) as [|m]; [done|].
    destruct (prepared _ _ _) as [|p]; [done|]. destruct (write_unlocked _ _ _ _ _ _ _ _ _ _ _ _) as [|[[[bytes at_] d] size]] eqn:E; [done|]. unfold under_range.
    destruct (negb _); [done|]. intros. simplify_eq. by eapply write_result.
  - intros i current offset whence v c' Hc. cbn [fo_seek core_filesystem]. intros E. apply (f_equal fst) in E. cbn [fst] in E. unfold seek in E.
    destruct (_ =? _); [exact (seek_from_range _ _ _ Hc E)|]. destruct (_ =? _).
    + destruct (orchfs_core_snapshot _ _) as [|m] eqn:Em; [done|]. destruct (Z.ltb_spec (node_size m) 0); [done|]. apply snapshot_node, Hs in Em. by eapply seek_from_range, E.
    + destruct (negb _); [done|]. exact (seek_from_range 0 _ _ ltac:(done) E).
Qed.

(** ** Files of the core *)

Context (sound : stored -> Prop) (promise : prepared_promise we prepared sound).
Context (sound_blocks : forall f, sound f -> file_blocks_ok (dp_nvm (sr_data f)) (sr_blocks f) (sr_size f)).
Context (prepared_errors : forall f offset source error, prepared f offset source = inl error -> errno_ok error).
Context (range_lock : e_range_lock e = 0) (range_unlock : e_range_unlock e = 0).
Context (inode : Z) (no_extents_error : extents_error inode = 0) (no_device_error : device_error inode = 0).

Record is_file (c : core) (n : node) : Prop := {
  if_node : orchfs_core_snapshot (fs_nodes (cr_ns c)) inode = inr n;
  if_type : nd_type n = ORCHFS_CORE_REGULAR;
  if_size : 0 <= nd_size n;
  if_blocks : forall k, 0 <= k -> k * kBlockSize < nd_size n -> exists b, nd_query n k = inr b;
  if_sound : sound (file_of c n);
}.
Definition core_file_ok (c : core) : Prop := exists n, is_file c n.
Definition core_content (c : core) : list Z :=
  match orchfs_core_snapshot (fs_nodes (cr_ns c)) inode with
  | inl _ => []
  | inr n => bytes_from (stored_byte (file_of c n)) 0 (nd_size n)
  end.
Lemma regular_size n : nd_type n = ORCHFS_CORE_REGULAR -> node_size n = nd_size n.
Proof. intros E. unfold node_size. by rewrite E. Qed.
Lemma bytes_from_lookup g start n i : 0 <= i < n -> bytes_from g start n !! Z.to_nat i = Some (g (start + i)).
Proof.
  intros Hi. unfold bytes_from. rewrite list_lookup_fmap, lookup_seq_lt by lia. cbn. do 2 f_equal. lia.
Qed.
Lemma length_bytes_from g start n : length (bytes_from g start n) = Z.to_nat n.
Proof. unfold bytes_from. by rewrite length_map, length_seq. Qed.
Lemma slice_bytes_from g size offset n : 0 <= offset -> 0 <= n -> 0 <= size ->
  slice offset n (bytes_from g 0 size) = bytes_from g offset (Z.max 0 (Z.min n (size - offset))).
Proof.
  intros Ho Hn Hs. apply list_eq_same_length with (Z.to_nat (Z.max 0 (Z.min n (size - offset)))).
  - apply length_bytes_from.
  - unfold slice. rewrite length_take, length_drop, length_bytes_from. lia.
  - intros i x y Hi. unfold slice. rewrite lookup_take_lt, lookup_drop by lia. rewrite <-(Nat2Z.id i) at 2.
    replace (Z.to_nat offset + i)%nat with (Z.to_nat (offset + Z.of_nat i)) by lia. rewrite !bytes_from_lookup by lia. intros. simplify_eq. by rewrite Z.add_0_l.
Qed.
Lemma bytes_from_splice g g' size offset data : 0 <= offset <= size ->
  (forall x, 0 <= x < Z.max size (offset + len data) -> g' x = if in_range x offset (len data) then byte_at data (x - offset) else g x) ->
  bytes_from g' 0 (Z.max size (offset + len data)) = splice offset data (bytes_from g 0 size).
Proof.
  intros Ho Hg. pose proof (len_nonneg data). assert (len (bytes_from g 0 size) = size) as El by (apply len_bytes_from; lia).
  apply list_eq_same_length with (Z.to_nat (Z.max size (offset + len data))).
  - pose proof (len_splice offset data (bytes_from g 0 size)) as Es. rewrite El in Es. specialize (Es Ho). unfold len in *. lia.
  - apply length_bytes_from.
  - intros i x y Hi. rewrite <-(Nat2Z.id i) at 1. rewrite bytes_from_lookup by lia. intros [= <-]. rewrite Z.add_0_l, Hg by lia.
    unfold splice. destruct (in_rangeP (Z.of_nat i) offset (len data)) as [[I1 I2]|N].
    + rewrite lookup_app_r by (rewrite length_take, length_bytes_from; lia). rewrite length_take, length_bytes_from. rewrite lookup_app_l by (unfold len in *; lia).
      intros Hy. unfold byte_at. rewrite (nth_lookup_Some _ _ 0 y); [done|]. rewrite <-Hy. f_equal. lia.
    + destruct (Z_lt_ge_dec (Z.of_nat i) offset).
      * rewrite lookup_app_l by (rewrite length_take, length_bytes_from; lia). rewrite lookup_take_lt by lia. rewrite <-(Nat2Z.id i) at 1.
        rewrite bytes_from_lookup by lia. intros [= <-]. by rewrite Z.add_0_l.
      * rewrite lookup_app_r by (rewrite length_take, length_bytes_from; lia). rewrite length_take, length_bytes_from.
        rewrite lookup_app_r by (unfold len in *; lia). rewrite lookup_drop.
        replace (Z.to_nat (offset + len data) + (i - Z.to_nat offset `min` Z.to_nat size - length data))%nat with (Z.to_nat (Z.of_nat i)) by (unfold len in *; lia).
        rewrite bytes_from_lookup by (unfold len in *; lia). intros [= <-]. by rewrite Z.add_0_l.
Qed.

Lemma core_read_file c offset n : core_file_ok c -> 0 <= offset -> 0 <= n -> offset + n <= INT64_MAX ->
  core_read c inode offset n = (inr (slice offset n (core_content c)), c).
Proof using range_lock range_unlock sound_blocks no_extents_error no_device_error.
  intros [nd [E Et Hs Hb Hok]] Ho Hn Hm. unfold core_read, core_content. rewrite !(proj2 (Z.ltb_ge _ _)) by lia. cbn [orb].
  rewrite range_lock, E, no_extents_error, no_device_error. cbn [Z.eqb negb]. rewrite (regular_size _ Et), slice_bytes_from by done.
  pose proof (sound_blocks _ Hok) as Hfb. cbn [sr_data sr_blocks sr_size file_of] in Hfb. rewrite (regular_size _ Et) in Hfb.
  rewrite (read_unlocked_spec (cr_data c) (nd_type nd) (nd_size nd) (sr_blocks (file_of c nd))); try done; [|by left|].
  - unfold under_range. by rewrite range_unlock.
  - intros k Hk Hk'. destruct (Hb k Hk Hk') as [b Eb]. cbn. by rewrite Eb.
Qed.
Lemma core_write_file c offset source : core_file_ok c -> 0 <= offset <= len (core_content c) -> source <> [] -> offset + len source <= kMaximumFileSize ->
  (exists c', core_write c inode offset source false = (inr (len source, offset), c') /\ core_file_ok c' /\ core_content c' = splice offset source (core_content c)) \/
  (exists error, core_write c inode offset source false = (inl error, c) /\ errno_ok error).
Proof using range_lock range_unlock promise prepared_errors no_extents_error.
  intros [nd [E Et Hs Hb Hok]] Ho Hn Hm. unfold core_content in Ho |- *. rewrite E in Ho |- *. rewrite len_bytes_from in Ho by done.
  assert (0 < len source) as Hl by (destruct source; [done|rewrite len_cons; pose proof (len_nonneg source); lia]).
  unfold core_write. rewrite range_lock, E, no_extents_error. cbn [Z.eqb negb]. destruct (prepared (file_of c nd) offset source) as [error|p] eqn:Ep.
  { right. exists error. split; [done|]. by eapply prepared_errors. }
  left. assert (sr_size (file_of c nd) = nd_size nd) as Esz by (cbn; by apply regular_size).
  destruct (pp_ready _ _ _ promise _ _ _ _ Hok Ep) as [Hr Hbytes]; [by rewrite Esz|done|done|]. rewrite Esz in Hr, Hbytes. cbn [sr_data file_of] in Hr, Hbytes.
  destruct (write_unlocked_spec we (cr_data c) (nd_size nd) _ _ _ offset source false _ _ Hr) as (d & Ew & Hd & H).
  rewrite Et, (regular_size _ Et), Ew. unfold under_range. rewrite range_unlock. cbn [Z.eqb negb]. eexists. split; [done|].
  set (c' := put_file _ _ _ _).
  assert (orchfs_core_snapshot (fs_nodes (cr_ns c')) inode =
    inr (mk_node (nd_type nd) (Z.max (nd_size nd) (offset + len source)) (fun k => inr (pr_after p k)) (nd_entries nd) (nd_orphan nd) (nd_live nd))) as E'.
  { unfold orchfs_core_snapshot in E |- *. destruct (_ || _); [done|]. cbn. by rewrite lookup_insert_eq. }
  assert (node_size (mk_node (nd_type nd) (Z.max (nd_size nd) (offset + len source)) (fun k => inr (pr_after p k)) (nd_entries nd) (nd_orphan nd) (nd_live nd)) =
    Z.max (nd_size nd) (offset + len source)) as Ens by (by apply regular_size).
  split.
  - eexists. split; [exact E'|done|cbn; lia|by eexists|]. unfold file_of. rewrite Ens. cbn [nd_type nd_query cr_data c' put_file sr_data].
    rewrite <-Esz. apply (pp_sound _ _ _ promise (file_of c nd)); [done|done|]. by rewrite Esz.
  - rewrite E'. cbn [nd_size]. apply bytes_from_splice; [done|]. intros x Hx. unfold stored_byte at 1, file_of. cbn [sr_data sr_blocks nd_query cr_data c' put_file].
    rewrite H by done. destruct (in_rangeP x offset (len source)); [done|]. apply Hbytes. lia.
Qed.
#[local] Instance core_file_view `{FileData stored} : FileView (F := core) inode.
Proof using range_lock range_unlock promise prepared_errors no_extents_error no_device_error sound_blocks.
  refine {| fv_ok := core_file_ok; fv_content := core_content; fv_limit := kMaximumFileSize |}.
  - intros c offset n Hok Ho Hn Hm. exists c. split; [by apply core_read_file|done].
  - intros c offset source Hok Ho Hn Hm. destruct (core_write_file c offset source Hok Ho Hn Hm) as [(c' & E & K & C)|(error & E & He)]; [left|right].
    + by exists c'.
    + by exists error, c.
  - by vm_compute.
Defined.
End Core.
