(* ===== verification/Remote.v ===== *)
(** * Sessions from end to end

    What an application observes of a file system it reaches through the client, the
    wire and the server: opening and closing, listing directories, reading and writing
    files, the operations on paths; and what every session keeps whatever its requests
    are.  The theorems are instantiated with the core of CoreFs.v. *)

From stdpp Require Import base tactics numbers list gmap strings relations.
From Stdlib Require Import ZArith Lia Ascii.
From S2P Require Import Prelude Bytes Layout Pmem DataPath RangeArbiter Namespace Extents Directory DataWrite Tree NamespaceOps FileOps Ipc IpcRing Rpc Server ServerTypes Client ClientCalls ClientData CoreFs.
Open Scope Z_scope.

(** ** Opening and closing *)

Section Sessions.
Context {F : Type} `{AsyncFilesystem F} (L : link) (HL : link_ok L).
Abbreviation st := (server_state F).
Implicit Types (s : st).

(** A number for the next handle that is neither zero nor in use. *)
Definition fresh_handle s : Prop := sv_handles s !! sv_next_handle s = None /\ 0 < sv_next_handle s < 2 ^ 64.
(** The node a file system hands out for an open with [flags]. *)
Definition node_ok (flags : Z) (node : OpenedNode) : Prop :=
  0 <= node.1 /\ node.2 <> NODE_UNKNOWN /\ (has_bits flags O_DIRECTORY = true -> node.2 = ORCHFS_CORE_DIRECTORY).
Definition file_handle (flags : Z) (node : OpenedNode) : HandleState := mk_handle node.1 node.2 0 kNotDirectoryCursor (stored_open_flags flags) false 0.
(** The session with one handle more. *)
Definition with_handle (h : HandleState) (f : F) s : st :=
  let 'mk_server _ m n cl sf sr sh := s in mk_server f (<[n := h]> m) (u64 (n + 1)) cl sf sr sh.
Lemma with_handle_opened h f s : fresh_handle s -> h_closing h = false -> opened (with_handle h f s) (sv_next_handle s) h.
Proof. intros [_ Hn] Hc. destruct s. split; [apply lookup_insert_eq|done]. Qed.
Lemma add_fresh f s node flags (cursor : bool) : fresh_handle s ->
  add_handle (set_fs f s) node flags cursor =
  (sv_next_handle s, with_handle (mk_handle node.1 node.2 0 (if cursor then kDirectoryCursorInitial else kNotDirectoryCursor) flags false 0) f s).
Proof. intros [Hn _]. destruct s. cbn in *. by rewrite Hn. Qed.

Lemma open_run path flags mode s : path_ok L path -> in_s32 flags -> in_width 32 mode -> validate_open_flags flags = 0 -> fresh_handle s ->
  let r := fo_open (sv_fs s) path flags mode in
  result_ok (node_ok flags) r.1 ->
  client_open L quiet_outcomes path flags mode s =
  match r.1 with
  | inl e => (inl e, set_fs r.2 s)
  | inr node => (inr (sv_next_handle s), with_handle (file_handle flags node) r.2 s)
  end.
Proof using HL.
  intros Hp Hf Hm Hv [Hn Hid] r Hr. unfold client_open, on_client. rewrite (lk_attached _ HL). cbn [negb]. pose proof Hp as (_ & N & Hl).
  rewrite on_rpc; [|done|by repeat split; try apply Hf; try apply Hm|done|done|change (len (string_bytes EmptyString)) with 0; lia].
  unfold dispatch_parsed. cbn [o_dispatch quiet_outcomes p_request p_path1 p_path2 p_data d_opcode request_descriptor].
  change (0 =? 0) with true. cbn [negb]. rewrite opcode_of_value. autorewrite with rpc. change (opcode_requires_handle _) with false. cbn [andb].
  unfold do_open. cbn [p_path1 p_request]. autorewrite with rpc. rewrite (validate_path_ok L HL path Hp). cbn [open_request q_open_flags q_mode]. rewrite Hv. cbn [Z.eqb negb].
  fold r. destruct r as [[e|node] f'] eqn:Er; cbn [call fst snd] in *; [by apply answer_fail|]. destruct Hr as (A1 & A2 & A3).
  rewrite (proj2 (Z.ltb_ge _ _) A1), (proj2 (Z.eqb_neq _ _) A2). cbn [orb].
  replace (has_bits flags O_DIRECTORY && negb (node.2 =? ORCHFS_CORE_DIRECTORY)) with false by (destruct (has_bits _ _); [by rewrite A3|done]).
  rewrite (add_fresh _ _ _ _ _ (conj Hn Hid)), answer_ok by (rewrite status_set_result; apply new_status). f_equal. unfold opened_handle.
  cbn [reply_of y_descriptor k_descriptor set_result new_completion set_flags set_status set_result_length d_result_length request_descriptor].
  unfold kInvalidRemoteHandle. by rewrite (proj2 (Z.eqb_neq _ _)) by lia.
Qed.

Lemma close_run s id h (directory : bool) : opened s id h -> is_directory_cursor h = directory ->
  let node := (h_inode h, h_type h) in
  let r := if directory then fo_close_directory (sv_fs s) node else fo_close (sv_fs s) node in
  result_ok (fun _ => True) r.1 ->
  close_handle L quiet_outcomes (if directory then oc_close_directory else oc_close) id s =
  match r.1 with
  | inl e => (inl e, id, set_fs r.2 s)
  | inr _ => (inr tt, kInvalidRemoteHandle, erase_handle (set_fs r.2 s) id)
  end.
Proof using HL.
  intros Ho Hd node r Hr. unfold close_handle, bare_request. rewrite (opened_valid L HL s id h Ho). cbn [negb]. pose proof Ho as (Eh & Ec & Hid). pose proof (lk_slot _ HL).
  assert (in_width 64 id) as Hw by (unfold in_width; lia). rewrite on_rpc; [|done|by repeat split; try apply Hw|done|done|change (len (string_bytes EmptyString)) with 0; unfold REQUEST_SIZE; lia].
  match goal with |- context [dispatch_parsed _ _ (request_descriptor L ?op ?n) ?p _] => set (d := request_descriptor L op n); set (p' := p) end.
  assert (dispatch_parsed quiet_outcomes (l_slot L) d p' s = do_close quiet_outcomes id directory (new_completion d) s) as ->.
  { unfold dispatch_parsed. subst d p'. cbn [o_dispatch quiet_outcomes p_request d_opcode request_descriptor]. rewrite opcode_of_value. autorewrite with rpc. by destruct directory. }
  unfold do_close. cbn [o_schedule o_life o_drain o_life_release quiet_outcomes Z.eqb negb]. unfold mark_closing. rewrite Eh, Ec, Hd, eqb_reflx. cbn [negb].
  replace (h_inode (set_closing true h), h_type (set_closing true h)) with node by (by destruct h).
  replace (sv_fs (put_handle id (set_closing true h) s)) with (sv_fs s) by (by destruct s). fold r.
  destruct r as [[e|[]] f']; cbn [fst snd] in *; unfold released; cbn [Z.eqb negb andb].
  - rewrite answer_fail by done. f_equal. destruct s as [f m n cl sf sr sh]. cbn in Eh |- *. f_equal. rewrite alter_insert_eq. apply insert_id. rewrite Eh. f_equal.
    destruct h. cbn in *. by subst.
  - rewrite answer_ok by apply new_status. cbn [no_result]. f_equal. destruct s as [f m n cl sf sr sh]. cbn. f_equal. by rewrite delete_insert_eq.
Qed.

(** ** Directories *)

(** An entry the records of a reply can carry. *)
Definition entry_fits (en : DirEntry) : Prop :=
  in_width 64 (dr_inode en) /\ in_s64 (dr_offset en) /\ in_width 8 (dr_type en) /\ Z.of_nat (String.length (dr_name en)) < kRpcNameCapacity.
Lemma wire_entry_back en : entry_fits en -> entry_ok (wire_entry en) /\ entry_of_wire (wire_entry en) = inr en.
Proof.
  intros (A1 & A2 & A3 & A4). rewrite <-len_string_bytes in A4. pose proof (len_nonneg (string_bytes (dr_name en))) as B. unfold kRpcNameCapacity in A4.
  assert (u8 (len (string_bytes (dr_name en))) = len (string_bytes (dr_name en))) as E by (unfold u8; rewrite Z.mod_small; lia). split.
  - unfold entry_ok, wire_entry. cbn [w_inode w_offset w_record_length w_type w_name_length w_name]. rewrite E. split_and!; try done; [unfold in_width; lia|].
    rewrite len_app, len_zeros by (unfold kRpcNameCapacity; lia). lia.
  - unfold entry_of_wire, wire_entry. cbn [w_inode w_offset w_type w_name_length w_name]. rewrite E, (proj2 (Z.leb_gt _ _)) by (unfold kRpcNameCapacity; lia).
    unfold len. rewrite Nat2Z.id, take_app_length, bytes_string_bytes. by destruct en.
Qed.
Lemma entries_back l : Forall entry_fits l -> exists payload, wire_entries l = Some payload /\ decode_entries (length l) payload = inr l.
Proof.
  induction 1 as [|en l Hen Hl (payload & E & D)]; [by exists []|]. destruct (wire_entry_back en Hen) as [Ok Back]. destruct Hen as (_ & _ & _ & Hn). rewrite <-len_string_bytes in Hn.
  exists (encode_object (zeros 4) (wire_entry en) ++ payload). cbn [wire_entries length decode_entries]. rewrite (proj2 (Z.ltb_ge _ _)), E by lia. split; [done|].
  change (wire_size (A := RpcDirEntry)) with 256. assert (length (encode_object (zeros 4) (wire_entry en)) = 256%nat) as El.
  { pose proof (len_entry en ltac:(lia)) as El. unfold len in El. lia. }
  pose proof (len_entry en ltac:(lia)) as Ez. pose proof (slice_part [] (encode_object (zeros 4) (wire_entry en)) payload 0 256 eq_refl (eq_sym Ez)) as Es. cbn [app] in Es. rewrite Es.
  unfold encode_object at 1. rewrite (wire_round (wire_entry en)), Back by done. change (Z.to_nat 256) with 256%nat. by rewrite <-El, drop_app_length, D.
Qed.

Definition clipped (room : Z) : Z := Z.min room (l_slot L / wire_size (A := RpcDirEntry)).
Definition directory_handle (h : HandleState) : Prop := h_type h = ORCHFS_CORE_DIRECTORY /\ is_directory_cursor h = true.
Lemma next_batch_run s id h room f' entries next : opened s id h -> directory_handle h -> 0 <= room ->
  fo_read_directory (sv_fs s) (h_inode h) (h_directory_cursor h) (clipped room) = (inr (entries, next), f') ->
  Z.of_nat (length entries) <= clipped room -> Forall entry_fits entries ->
  next_batch L quiet_outcomes id room s = (inr entries, put_handle id (set_cursor next h) (set_fs f' s)).
Proof using HL.
  intros Ho [Ht Hd] Hroom Er Hle Hfit. unfold next_batch, on_file. rewrite (opened_valid L HL s id h Ho). cbn [negb]. fold (clipped room).
  destruct (entries_back _ Hfit) as (payload & Ep & Ed). pose proof (len_entries _ _ Ep) as El. pose proof Ho as (_ & _ & Hid). pose proof (lk_slot _ HL) as Hs.
  assert (0 <= clipped room < 2 ^ 32) as Hc. { unfold clipped. change (wire_size (A := RpcDirEntry)) with 256. pose proof (Z.div_pos (l_slot L) 256). pose proof (Z.div_lt (l_slot L) 256). lia. }
  destruct (on_handle_rpc L HL (fun y =>
    if (clipped room <? d_result_length (y_descriptor y)) || negb (len (y_payload y) =? d_result_length (y_descriptor y) * wire_size (A := RpcDirEntry)) then inl EPROTO
    else decode_entries (Z.to_nat (d_result_length (y_descriptor y))) (y_payload y)) oc_read_directory_batch (length_request id (clipped room)) s id h)
    as (n & c & Hst & Hf & Ec & ->); [done|done|done| |].
  { assert (in_width 64 id /\ in_width 64 (clipped room)) as [W1 W2] by (unfold in_width; lia). by repeat split; try apply W1; try apply W2. }
  rewrite (to_handle L _ oc_read_directory_batch n s id h) by done. cbv zeta. rewrite <-Ec. unfold do_read_directory. cbn [p_request]. autorewrite with rpc. cbn [length_request q_length].
  rewrite Ht, Hd. change (negb (ORCHFS_CORE_DIRECTORY =? ORCHFS_CORE_DIRECTORY)) with false. cbn [orb negb].
  rewrite (proj2 (Z.ltb_ge (l_slot L / _) _)) by (unfold clipped; lia). unfold with_life.
  cbn [o_schedule o_life o_life_release o_offset o_offset_release o_entries o_payload quiet_outcomes Z.eqb negb]. unfold call. rewrite Er.
  rewrite (proj2 (Z.ltb_ge _ _)), Ep by done. unfold released. cbn [Z.eqb negb andb].
  assert (forall d, d_result_length d = Z.of_nat (length entries) -> d_status d = 0 ->
    answer (fun y : RpcReply => if (clipped room <? d_result_length (y_descriptor y)) || negb (len (y_payload y) =? d_result_length (y_descriptor y) * wire_size (A := RpcDirEntry)) then inl EPROTO
      else decode_entries (Z.to_nat (d_result_length (y_descriptor y))) (y_payload y))
      (mk_completion d payload (k_filled c) (k_slot c), put_handle id (set_cursor next h) (set_fs f' s)) =
    (inr entries, put_handle id (set_cursor next h) (set_fs f' s))) as A.
  { intros d E1 E2. rewrite answer_ok by done. f_equal. unfold reply_of, response_payload. cbn [y_descriptor y_payload k_descriptor k_filled k_payload]. rewrite Hf, E1. cbn [Z.eqb].
    rewrite (proj2 (Z.ltb_ge _ _)), El by done. change (wire_size (A := RpcDirEntry)) with 256. rewrite (Z.mul_comm 256), Z.eqb_refl. cbn [orb negb]. by rewrite Nat2Z.id. }
  subst c. unfold new_completion, status in *. destruct (request_descriptor L _ n). cbn in Hst |- *. by destruct (length entries =? 0)%nat; apply A.
Qed.
End Sessions.

(** Successive batches of a directory handle, with room for [rooms] entries. *)
Fixpoint list_remote {F} `{AsyncFilesystem F} (L : link) (id : Z) (rooms : list Z) (s : server_state F) : (Z + list DirEntry) * server_state F :=
  match rooms with
  | [] => (inr [], s)
  | room :: rooms =>
      match next_batch L quiet_outcomes id room s with
      | (inl error, s) => (inl error, s)
      | (inr l, s) => match list_remote L id rooms s with (inr l', s) => (inr (l ++ l'), s) | r => r end
      end
  end.
Lemma read_entries_room window : forall room cursor l c, read_entries window room cursor = inr (l, c) -> (length l <= room)%nat.
Proof.
  induction window as [|en window IH]; intros [|room] cursor l c; cbn [read_entries]; try (intros; simplify_eq; cbn; lia).
  destruct (_ =? _); [apply IH|]. destruct (bad_name en); [done|]. destruct (read_entries window room _) as [|[l' c']] eqn:E; [done|]. intros. simplify_eq.
  apply IH in E. cbn. lia.
Qed.
Lemma read_windows_room e memory inode size entries fuel : forall room cursor l c,
  read_windows fuel e memory inode size entries room cursor = Some (inr (l, c)) -> (length l <= room)%nat.
Proof.
  induction fuel as [|fuel IH]; intros room cursor l c; cbn [read_windows]; [done|]. destruct (_ || _); [intros; simplify_eq; cbn; lia|].
  do 3 (destruct (_ : bool); [done|]). destruct (read_entries _ _ _) as [|[l1 c1]] eqn:E1; [done|]. apply read_entries_room in E1.
  destruct (read_windows fuel _ _ _ _ _ _ _) as [[|[l2 c2]]|] eqn:E2; try done. apply IH in E2. intros. simplify_eq. rewrite length_app. lia.
Qed.
Lemma read_directory_room e memory s inode cursor room l c : read_directory e memory s inode cursor room = Some (inr (l, c)) ->
  (length l <= room)%nat /\ cursor mod ORCHFS_CORE_DIRENT_SIZE = 0.
Proof.
  unfold read_directory. destruct (Z.eqb_spec (cursor mod ORCHFS_CORE_DIRENT_SIZE) 0) as [E|]; [|done]. cbn [negb]. destruct (negb _); [done|].
  destruct (orchfs_core_snapshot _ _) as [|n]; [done|]. destruct (negb (nd_type n =? _)); [done|]. destruct (read_windows _ _ _ _ _ _ _ _) as [[|[l' c']]|] eqn:Ew; try done.
  destruct (negb _); [done|]. intros. simplify_eq. split; [|done]. by eapply read_windows_room.
Qed.

(** ** Sessions of the core *)

Section CoreSessions.
Context (e : env) (we : write_env) (prepared : stored -> Z -> list Z -> Z + preparation) (persist_error : Z).
Context (extents_error device_error : Z -> Z).
Context (raw_read : data -> Z -> Z -> Z + list Z) (raw_write : data -> Z -> list Z -> (Z + Z) * data) (raw_flush : Z + unit) (memory : Z -> bool).
Context `{FileData stored}.
#[local] Instance session_core : AsyncFilesystem core := core_filesystem e we prepared persist_error extents_error device_error raw_read raw_write raw_flush memory.
Context (L : link) (HL : link_ok L).

Lemma list_remote_run id rooms : forall (s : server_state core) h l, opened s id h -> h_type h = ORCHFS_CORE_DIRECTORY -> Forall (Z.le 0) rooms ->
  read_all e memory (cr_ns (sv_fs s)) (h_inode h) (h_directory_cursor h) (map (fun room => Z.to_nat (clipped L room)) rooms) = Some (inr l) -> Forall entry_fits l ->
  exists s' cursor, list_remote L id rooms s = (inr l, s') /\ sv_fs s' = sv_fs s /\ sv_handles s' = <[id := set_cursor cursor h]> (sv_handles s).
Proof using HL.
  induction rooms as [|room rooms IH]; intros s h l Ho Ht Hr Hread Hfit; cbn [read_all map list_remote] in *.
  - apply (inj Some), (inj inr) in Hread as <-. exists s, (h_directory_cursor h). split; [done|]. split; [done|]. destruct Ho as (E & _ & _).
    symmetry. apply insert_id. rewrite E. by destruct h.
  - apply Forall_cons in Hr as [Hr Hrs]. destruct (read_directory _ _ _ _ _ _) as [[|[l1 c1]]|] eqn:Ed; try done.
    destruct (read_all _ _ _ _ c1 _) as [[|l2]|] eqn:Ea; try done. apply (inj Some), (inj inr) in Hread as <-. apply Forall_app in Hfit as [F1 F2].
    destruct (read_directory_room _ _ _ _ _ _ _ _ Ed) as [Hlen Hmod].
    assert (is_directory_cursor h = true) as Hd.
    { unfold is_directory_cursor. destruct (Z.eqb_spec (h_directory_cursor h) kNotDirectoryCursor) as [E|]; [|done]. by rewrite E in Hmod. }
    assert (0 <= clipped L room) as Hc. { unfold clipped. pose proof (lk_slot _ HL). pose proof (Z.div_pos (l_slot L) 256). change (wire_size (A := RpcDirEntry)) with 256. lia. }
    rewrite (next_batch_run L HL s id h room (sv_fs s) l1 c1); [|done|done|done| |lia|done].
    2: { change (fo_read_directory (sv_fs s) (h_inode h) (h_directory_cursor h) (clipped L room)) with
           (core_read_directory e memory (sv_fs s) (h_inode h) (h_directory_cursor h) (clipped L room)). unfold core_read_directory. by rewrite Ed. }
    set (s1 := put_handle id (set_cursor c1 h) (set_fs (sv_fs s) s)). assert (sv_fs s1 = sv_fs s /\ sv_handles s1 = <[id := set_cursor c1 h]> (sv_handles s)) as [E1 E2] by (by destruct s).
    destruct (IH s1 (set_cursor c1 h) l2) as (s' & c & -> & Ef & Eh).
    + destruct Ho as (_ & Ec & Hid). split; [rewrite E2; apply lookup_insert_eq|]. by destruct h.
    + by destruct h.
    + done.
    + rewrite E1. replace (h_inode (set_cursor c1 h)) with (h_inode h) by (by destruct h). by replace (h_directory_cursor (set_cursor c1 h)) with c1 by (by destruct h).
    + done.
    + exists s', c. rewrite Ef, Eh, E1, E2, insert_insert_eq. split; [done|]. split; [done|]. by destruct h.
Qed.

End CoreSessions.

(** ** What every session keeps *)



(** ** What an application observes *)

Section Observed.
Context {F : Type} `{AsyncFilesystem F} (L : link) (HL : link_ok L) (os : nat -> outcomes) (Hos : forall i, os i = quiet_outcomes).
Implicit Types (s : server_state F).



(** C18: The calls on paths, sent to the server and answered, are the calls of its file
    system: same result, same error, same file system afterwards, and the rest of the
    session as before. *)
Theorem remote_path_calls path path2 mode size s :
  path_ok L path -> path_ok L path2 -> REQUEST_SIZE + len (string_bytes path) + len (string_bytes path2) <= l_slot L -> in_width 32 mode -> in_width 64 size ->
  let f := sv_fs s in
  let same {A} (ok : A -> Prop) (remote : (Z + A) * server_state F) (local : (Z + A) * F) := result_ok ok local.1 -> remote = (local.1, set_fs local.2 s) in
  let any := fun _ : unit => True in
  same any (client_make_directory L quiet_outcomes path mode s) (fo_make_directory f path mode) /\
  same any (client_remove_directory L quiet_outcomes path s) (fo_remove_directory f path) /\
  same any (client_unlink L quiet_outcomes path s) (fo_unlink f path) /\
  same any (client_rename L quiet_outcomes path path2 s) (fo_rename f path path2) /\
  same any (client_truncate L quiet_outcomes path size s) (fo_truncate_path f path size) /\
  same stat_ok (client_stat L quiet_outcomes path s) (fo_stat_path f path).
Proof using HL.
  intros H1 H2 H3 Hm Hs f same any. pose proof (len_nonneg (string_bytes path2)). pose proof H1 as (_ & _ & Hfit).
  assert (REQUEST_SIZE + len (string_bytes path) + len (string_bytes EmptyString) <= l_slot L) as H4 by (change (len (string_bytes EmptyString)) with 0; lia).
  unfold same. split_and!; intros Hr; [| | | |by apply truncate_path_run|by apply stat_path_run].
  - apply (path_mutation_run L HL oc_mkdir (open_request 0 0 mode) path EmptyString s); [by left|by repeat split; try apply Hm|done|done|done|done|done].
  - apply (path_mutation_run L HL oc_rmdir new_request path EmptyString s); try done; by auto.
  - apply (path_mutation_run L HL oc_unlink new_request path EmptyString s); try done; by auto.
  - apply (path_mutation_run L HL oc_rename new_request path path2 s); try done; by auto.
Qed.

(** C21: Opening and closing.  An open gives a new handle on the node the file system opened,
    at offset zero, without the flags that only matter to the open itself, or the file
    system's error and no handle.  A close that succeeds gives the node back and leaves the
    session with the handles it had before the open; one that fails leaves the handle open
    and usable as it was. *)
Theorem remote_open_close path flags mode s :
  path_ok L path -> in_s32 flags -> in_width 32 mode -> validate_open_flags flags = 0 -> fresh_handle s ->
  let id := sv_next_handle s in
  let r := fo_open (sv_fs s) path flags mode in
  result_ok (node_ok flags) r.1 ->
  match r.1 with
  | inl error => client_open L quiet_outcomes path flags mode s = (inl error, set_fs r.2 s)
  | inr node => exists s1, client_open L quiet_outcomes path flags mode s = (inr id, s1) /\ sv_fs s1 = r.2 /\
      opened s1 id (mk_handle node.1 node.2 0 kNotDirectoryCursor (stored_open_flags flags) false 0) /\ sv_handles s = delete id (sv_handles s1) /\
      let r' := fo_close (sv_fs s1) node in
      (result_ok (fun _ => True) r'.1 ->
       exists s2, sv_fs s2 = r'.2 /\
         match r'.1 with
         | inl error => file_close L quiet_outcomes id s1 = (inl error, id, s2) /\ sv_handles s2 = sv_handles s1
         | inr _ => file_close L quiet_outcomes id s1 = (inr tt, kInvalidRemoteHandle, s2) /\ sv_handles s2 = sv_handles s
         end)
  end.
Proof using HL.
  intros Hp Hf Hm Hv Hfr id r Hr. pose proof (open_run L HL path flags mode s Hp Hf Hm Hv Hfr Hr) as E. fold r in E. destruct r as [[error|node] f']; cbn [fst snd] in *; [done|].
  exists (with_handle (file_handle flags node) f' s). pose proof (with_handle_opened (file_handle flags node) f' s Hfr eq_refl) as Ho. split; [done|]. split; [by destruct s|].
  split; [done|]. assert (sv_handles s = delete id (sv_handles (with_handle (file_handle flags node) f' s))) as Ed.
  { destruct Hfr as [Hn _], s. cbn in *. by rewrite delete_insert_id. }
  split; [done|]. intros Hr'. pose proof (close_run L HL _ id (file_handle flags node) false Ho eq_refl) as Ec. cbn zeta in Ec. cbn [file_handle h_inode h_type] in Ec.
  change (mk_handle node.1 node.2 0 kNotDirectoryCursor (stored_open_flags flags) false 0) with (file_handle flags node) in Ec. rewrite <-surjective_pairing in Ec. specialize (Ec Hr').
  destruct (fo_close _ node) as [[error|[]] f'']; cbn [fst snd] in *; eexists; (split; [|split; [exact Ec|]]); try by destruct s.
Qed.
End Observed.

(** ** A session on a small core *)

(** The tree of NamespaceOps.v with five bytes in its file, a raw device, and a session
    with that file and the root directory open. *)
Definition demo_core : core :=
  mk_core (set_nodes (<[3 := mk_node ORCHFS_CORE_REGULAR 5 (fun k => inr (linear_block k)) [] false true]> (fs_nodes demo)) demo) (mk_data (fun a => a + 1) (fun _ => 0)).
Definition demo_raw_read (d : data) (offset length : Z) : Z + list Z := inr (bytes_from (dp_ssd d) offset length).
Definition demo_raw_write (d : data) (offset : Z) (source : list Z) : (Z + Z) * data :=
  (inr (len source), mk_data (dp_nvm d) (fun a => if in_range a offset (len source) then byte_at source (a - offset) else dp_ssd d a)).
#[local] Instance demo_filesystem : AsyncFilesystem core :=
  @core_filesystem (quiet 4) quiet_env linear_prepared 0 (fun _ => 0) (fun _ => 0) demo_raw_read demo_raw_write (inr tt) (fun _ => true) linear_data.
Definition demo_handle : HandleState := mk_handle 3 ORCHFS_CORE_REGULAR 2 kNotDirectoryCursor O_RDWR false 0.
Definition demo_directory_handle : HandleState := mk_handle 0 ORCHFS_CORE_DIRECTORY 0 kDirectoryCursorInitial O_RDONLY false 0.
Definition demo_session : server_state core := mk_server demo_core {[1 := demo_handle; 2 := demo_directory_handle]} 3 false false false false.
Definition demo_link : link := mk_link 300 [0; 0; 0; 0] 7 1 9 0 true true.
Definition all_quiet : nat -> outcomes := fun _ => quiet_outcomes.

Lemma demo_link_ok : link_ok demo_link.
Proof. by split. Qed.
Lemma linear_blocks f : linear_sound f -> file_blocks_ok (dp_nvm (sr_data f)) (sr_blocks f) (sr_size f).
Proof.
  intros [-> Hs] k Hk Hk'. split; [apply linear_ok; unfold linear_limit, kBlockSize in *; lia|]. apply (ba_pages _ _ _ (linear_apart (sr_size f))). by split.
Qed.
Lemma linear_errors f offset source error : linear_prepared f offset source = inl error -> errno_ok error.
Proof. unfold linear_prepared. destruct (_ <=? _); [done|]. intros [= <-]. done. Qed.
#[local] Instance demo_view : FileView (F := core) (h_inode demo_handle) :=
  @core_file_view (quiet 4) quiet_env linear_prepared 0 (fun _ => 0) (fun _ => 0) demo_raw_read demo_raw_write (inr tt) (fun _ => true) linear_sound linear_promise
    linear_blocks linear_errors eq_refl eq_refl 3 eq_refl eq_refl linear_data.
Lemma demo_core_file_ok : core_file_ok linear_sound 3 demo_core.
Proof.
  exists (mk_node ORCHFS_CORE_REGULAR 5 (fun k => inr (linear_block k)) [] false true). split; [done|done|done|by eexists|]. split; [done|]. by vm_compute.
Qed.
Lemma demo_content : core_content 3 demo_core = [1; 2; 3; 4; 5].
Proof. by vm_compute. Qed.
Lemma demo_view_content : fv_content (inode := h_inode demo_handle) (sv_fs demo_session) = [1; 2; 3; 4; 5].
Proof. exact demo_content. Qed.
Lemma view_content c : fv_content (inode := h_inode demo_handle) c = core_content 3 c.
Proof. reflexivity. Qed.
Lemma demo_opened : opened demo_session 1 demo_handle.
Proof. by split. Qed.

Definition demo_made : server_state core := (client_make_directory demo_link quiet_outcomes "/c" 420 demo_session).2.
Lemma remote_path_calls_witness :
  (client_make_directory demo_link quiet_outcomes "/c" 420 demo_session).1 = inr tt /\
  (client_rename demo_link quiet_outcomes "/c" "/b/d" demo_made).1 = inr tt /\
  (client_unlink demo_link quiet_outcomes "/c" demo_session).1 = inl ENOENT.
Proof.
  assert (path_ok demo_link "/c" /\ path_ok demo_link "/b/d") as [P1 P2] by (by split; split).
  assert (REQUEST_SIZE + len (string_bytes "/c") + len (string_bytes "/b/d") <= l_slot demo_link /\ in_width 32 420 /\ in_width 64 0) as (P3 & P4 & P5) by (by split_and!).
  destruct (remote_path_calls demo_link demo_link_ok "/c" "/b/d" 420 0 demo_session P1 P2 P3 P4 P5) as (Hm & _ & Hu & _).
  destruct (remote_path_calls demo_link demo_link_ok "/c" "/b/d" 420 0 demo_made P1 P2 P3 P4 P5) as (_ & _ & _ & Hn & _).
  split_and!.
  - refine (eq_trans (f_equal fst (Hm _)) _); vm_compute; exact I || reflexivity.
  - refine (eq_trans (f_equal fst (Hn _)) _); vm_compute; exact I || reflexivity.
  - refine (eq_trans (f_equal fst (Hu _)) _); vm_compute; [split; reflexivity || discriminate|reflexivity].
Defined.
Definition demo_flags : Z := O_RDWR + O_CREAT.
Lemma remote_open_close_witness : exists s1 s2,
  client_open demo_link quiet_outcomes "/a/f" demo_flags 420 demo_session = (inr 3, s1) /\
  file_close demo_link quiet_outcomes 3 s1 = (inr tt, kInvalidRemoteHandle, s2) /\ sv_handles s2 = sv_handles demo_session.
Proof.
  assert (path_ok demo_link "/a/f" /\ in_s32 demo_flags /\ in_width 32 420 /\ validate_open_flags demo_flags = 0 /\ fresh_handle demo_session /\
    node_ok demo_flags (3, ORCHFS_CORE_REGULAR)) as (P1 & P2 & P3 & P4 & P5 & Hnode)
    by (by split_and!).
  pose (opened_node := fo_open (sv_fs demo_session) "/a/f" demo_flags 420).
  assert (opened_node.1 = inr (3, ORCHFS_CORE_REGULAR) /\ (fo_close opened_node.2 (3, ORCHFS_CORE_REGULAR)).1 = inr tt) as [E Ec] by (vm_compute; by split).
  assert (result_ok (node_ok demo_flags) opened_node.1) as P6 by (rewrite E; exact Hnode).
  pose proof (remote_open_close demo_link demo_link_ok "/a/f" demo_flags 420 demo_session P1 P2 P3 P4 P5 P6) as P. cbn zeta in P. fold opened_node in P. rewrite E in P.
  destruct P as (s1 & Eo & Ef & _ & _ & Hc). rewrite Ef, Ec in Hc. destruct (Hc I) as (s2 & _ & Ecl & Eh).
  exists s1, s2. exact (conj Eo (conj Ecl Eh)).
Defined.

Definition demo_listing : server_state core := mk_server (mk_core demo (cr_data demo_core)) (sv_handles demo_session) 3 false false false false.
Definition demo_names : list DirEntry := [mk_dir_entry 1 768 ORCHFS_CORE_DIRECTORY "a"; mk_dir_entry 2 1024 ORCHFS_CORE_DIRECTORY "b"].
Lemma demo_names_fit : Forall entry_fits demo_names.
Proof. repeat (apply Forall_cons; split; [by split|]). by apply Forall_nil. Qed.

Lemma demo_table_ok : table_ok demo_session.
Proof.
  split; [done|]. intros id h. cbn [sv_handles demo_session]. rewrite lookup_insert_Some, lookup_singleton_Some. intros [[<- <-]|[_ [<- <-]]].
  - split; [|done]. split; try done; by right.
  - split; [|done]. split; try done. by left.
Qed.
Lemma demo_sizes_ok : sizes_ok demo_core.
Proof.
  assert (map_Forall (fun _ n => node_size n <= INT64_MAX) (fs_nodes (cr_ns demo_core))) as A; [|exact A]. apply (bool_decide_unpack _). vm_compute. exact I.
Qed.
Lemma demo_well_behaved : well_behaved (sv_fs demo_session).
Proof. apply core_well_behaved, demo_sizes_ok. Qed.
(** A request to read from offset 1, and one with a negative offset. *)
Definition demo_payload (offset : Z) : list Z :=
  match header_request [0; 0; 0; 0] 300 (io_header 0 1 offset 3) [] with inr (head, _) => head | inl _ => [] end.
Definition demo_descriptor : IpcDescriptor := request_descriptor demo_link oc_read_at REQUEST_SIZE.
Lemma demo_payload_ok : bytes_ok (demo_payload 1).
Proof. vm_compute. repeat (apply Forall_cons; split; [by split|]). by apply Forall_nil. Qed.
