(* ===== verification/ServerHandle.v ===== *)
(** * Requests that share a handle (HandleState and its users in Async/server.cpp)

    Requests of a session run as coroutines on several workers and meet at the handles:
    at the mark of closing, at the count of writes and at the two gates.  Here any number
    of requests on one handle run in any interleaving of their accesses to it.  A gate is
    what RangeArbiter.v shows it to be: a permit to write excludes every other permit.
    Every wait and every permit may fail, and ends its request the way the code does. *)

From stdpp Require Import base tactics numbers list relations.
From Stdlib Require Import ZArith Lia.
From S2P Require Import Prelude.
Open Scope Z_scope.

(** ** Requests *)

(** [k_plain]: a request that needs the handle alive but not its offset (read_at, stat,
    truncate, sync, flags, opening below it).  [k_append]: a write to a handle opened for
    appending; [k_write_at]: a write at an offset of its own. *)
Inductive kind := k_read | k_seek | k_plain | k_write | k_append | k_write_at | k_close.
Definition uses_offset (k : kind) : bool := match k with k_read | k_seek | k_write | k_append => true | _ => false end.

(** Where a request is.  The first access of all is the look at the table of handles. *)
Inductive pc :=
| p_start (k : kind)
| p_seen (k : kind)       (** it was in the table; its mark is next *)
| p_found (k : kind)      (** [find_handle] has returned it *)
(* under the lifecycle gate *)
| g_life (k : kind)       (** holds a permit to read of the lifecycle gate *)
| g_offset (k : kind)     (** and the permit of the offset gate *)
| g_run (k : kind) (start : Z)  (** in the file system, from the offset it has read *)
| g_ran (k : kind)
| g_leave (k : kind)      (** has given the offset gate back *)
(* writes *)
| w_checked (k : kind)    (** not closing, in [acquire_write] *)
| w_counted (k : kind)    (** counted, before the second look at the mark *)
| w_refused               (** the mark was set *)
| w_in (k : kind)         (** [acquire_write] has returned true *)
| w_offset (k : kind)
| w_run (k : kind) (start : Z)
| w_ran (k : kind)
| w_leave                 (** before [release_write] *)
(* close *)
| c_marked
| c_gated                 (** holds the lifecycle gate for writing, waits for the writes *)
| c_drained               (** in the file system's close *)
| c_leave                 (** the outcome is known, the gate still held *)
| p_done.

(** What the implicit offset went through: transfers, and moves to an offset. *)
Inductive move := m_io (start bytes : Z) | m_to (offset : Z).

(** [a_readers], [a_writers], [a_offset]: the permits the gates have handed out;
    [a_erased]: the file system's close has succeeded and the handle is out of the table. *)
Record shared := mk_shared {
  a_closing : bool; a_writes : Z; a_readers : Z; a_writers : Z; a_offset : Z; a_erased : bool; a_position : Z; a_moves : list move;
}.
Definition set_mark (v : bool) (s : shared) : shared := mk_shared v (a_writes s) (a_readers s) (a_writers s) (a_offset s) (a_erased s) (a_position s) (a_moves s).
Definition count (d : Z) (s : shared) : shared :=
  mk_shared (a_closing s) (a_writes s + d) (a_readers s) (a_writers s) (a_offset s) (a_erased s) (a_position s) (a_moves s).
Definition readers (d : Z) (s : shared) : shared :=
  mk_shared (a_closing s) (a_writes s) (a_readers s + d) (a_writers s) (a_offset s) (a_erased s) (a_position s) (a_moves s).
Definition writers (d : Z) (s : shared) : shared :=
  mk_shared (a_closing s) (a_writes s) (a_readers s) (a_writers s + d) (a_offset s) (a_erased s) (a_position s) (a_moves s).
Definition offsets (d : Z) (s : shared) : shared :=
  mk_shared (a_closing s) (a_writes s) (a_readers s) (a_writers s) (a_offset s + d) (a_erased s) (a_position s) (a_moves s).
Definition erase (s : shared) : shared := mk_shared (a_closing s) (a_writes s) (a_readers s) (a_writers s) (a_offset s) true (a_position s) (a_moves s).
Definition moved_to (m : move) (v : Z) (s : shared) : shared :=
  mk_shared (a_closing s) (a_writes s) (a_readers s) (a_writers s) (a_offset s) (a_erased s) v (m :: a_moves s).
(** What a request that has the offset gate leaves as offset: a transfer of [n] bytes from
    [start], an append that ended at [n], a seek to [n]. *)
Definition advance (k : kind) (start n : Z) (s : shared) : shared :=
  match k with
  | k_read | k_write => moved_to (m_io start n) (start + n) s
  | k_seek | k_append => moved_to (m_to n) n s
  | _ => s
  end.
Definition is_write (k : kind) : bool := match k with k_write | k_append | k_write_at => true | _ => false end.

(** One access of one request. *)
Inductive thread_step : shared -> pc -> shared -> pc -> Prop :=
(* [find_handle], and the table in [mark_closing] *)
| st_table s k : thread_step s (p_start k) s (if a_erased s then p_done else p_seen k)
| st_mark s k : k <> k_close -> thread_step s (p_seen k) s (if a_closing s then p_done else p_found k)
(* checks, the hop to the owner, the wait for a permit: they may fail *)
| st_give_up s k : thread_step s (p_found k) s p_done
| st_life s k : is_write k = false -> a_writers s = 0 -> thread_step s (p_found k) (readers 1 s) (g_life k)
| st_offset s k : uses_offset k = true -> a_offset s = 0 -> thread_step s (g_life k) (offsets 1 s) (g_offset k)
| st_offset_fails s k : uses_offset k = true -> thread_step s (g_life k) s (g_leave k)
| st_no_offset s k : uses_offset k = false -> thread_step s (g_life k) s (g_run k 0)
| st_invalid s k : thread_step s (g_offset k) s (g_ran k)
| st_call s k : uses_offset k = true -> thread_step s (g_offset k) s (g_run k (a_position s))
| st_fails s k start : thread_step s (g_run k start) s (if uses_offset k then g_ran k else g_leave k)
| st_succeeds s k start n : 0 <= n -> thread_step s (g_run k start) (advance k start n s) (if uses_offset k then g_ran k else g_leave k)
| st_offset_back s k : thread_step s (g_ran k) (offsets (-1) s) (g_leave k)
| st_life_back s k : thread_step s (g_leave k) (readers (-1) s) p_done
(* [acquire_write] *)
| st_check s k : is_write k = true -> thread_step s (p_found k) s (if a_closing s then p_done else w_checked k)
| st_count s k : thread_step s (w_checked k) (count 1 s) (w_counted k)
| st_recheck s k : thread_step s (w_counted k) s (if a_closing s then w_refused else w_in k)
| st_refuse s : thread_step s w_refused (count (-1) s) p_done
(* the write *)
| st_w_fails s k : thread_step s (w_in k) s w_leave
| st_w_offset s k : uses_offset k = true -> a_offset s = 0 -> thread_step s (w_in k) (offsets 1 s) (w_offset k)
| st_w_no_offset s k : uses_offset k = false -> thread_step s (w_in k) s (w_run k 0)
| st_w_invalid s k : thread_step s (w_offset k) s (w_ran k)
| st_w_call s k : uses_offset k = true -> thread_step s (w_offset k) s (w_run k (a_position s))
| st_w_error s k start : thread_step s (w_run k start) s (if uses_offset k then w_ran k else w_leave)
| st_w_succeeds s k start n : 0 <= n -> thread_step s (w_run k start) (advance k start n s) (if uses_offset k then w_ran k else w_leave)
| st_w_offset_back s k : thread_step s (w_ran k) (offsets (-1) s) w_leave
| st_w_release s : thread_step s w_leave (count (-1) s) p_done
(* [do_close] *)
| st_cas s : thread_step s (p_seen k_close) (set_mark true s) (if a_closing s then p_done else c_marked)
| st_gate s : a_writers s = 0 -> a_readers s = 0 -> thread_step s c_marked (writers 1 s) c_gated
| st_gate_fails s : thread_step s c_marked (set_mark false s) p_done
| st_drained s : a_writes s = 0 -> thread_step s c_gated s c_drained
| st_yield_fails s : thread_step s c_gated (set_mark false s) c_leave
| st_close_fails s : thread_step s c_drained (set_mark false s) c_leave
| st_closed s : thread_step s c_drained (erase s) c_leave
| st_gate_back s : thread_step s c_leave (writers (-1) s) p_done.

Record handle_state := mk_state { ha_shared : shared; ha_threads : list pc }.
Definition fresh (position : Z) : shared := mk_shared false 0 0 0 0 false position [].
Inductive handle_step : handle_state -> handle_state -> Prop :=
| hs_thread s s' l i p p' : l !! i = Some p -> thread_step s p s' p' -> handle_step (mk_state s l) (mk_state s' (<[i := p']> l))
| hs_request s l k : handle_step (mk_state s l) (mk_state s (l ++ [p_start k])).
Definition reachable (position : Z) (st : handle_state) : Prop := rtc handle_step (mk_state (fresh position) []) st.

(** ** Who holds what *)

Definition b2z (b : bool) : Z := if b then 1 else 0.
Fixpoint tally (w : pc -> bool) (l : list pc) : Z := match l with [] => 0 | p :: l => b2z (w p) + tally w l end.
Definition holds_life (p : pc) : bool := match p with g_life _ | g_offset _ | g_run _ _ | g_ran _ | g_leave _ => true | _ => false end.
Definition holds_gate (p : pc) : bool := match p with c_gated | c_drained | c_leave => true | _ => false end.
Definition holds_offset (p : pc) : bool := match p with g_offset _ | g_ran _ | w_offset _ | w_ran _ => true | g_run k _ | w_run k _ => uses_offset k | _ => false end.
(** In its write, from [acquire_write] on. *)
Definition is_writing (p : pc) : bool := match p with w_in _ | w_offset _ | w_run _ _ | w_ran _ | w_leave => true | _ => false end.
Definition is_counted (p : pc) : bool := is_writing p || match p with w_counted _ | w_refused => true | _ => false end.
Definition is_closing (p : pc) : bool := match p with c_marked | c_gated | c_drained => true | _ => false end.
Definition in_close (p : pc) : bool := match p with c_drained => true | _ => false end.

Lemma tally_app w l1 l2 : tally w (l1 ++ l2) = tally w l1 + tally w l2.
Proof. induction l1 as [|p l1 IH]; cbn; [done|]. rewrite IH. lia. Qed.
Lemma tally_insert w l i p p' : l !! i = Some p -> tally w (<[i := p']> l) = tally w l - b2z (w p) + b2z (w p').
Proof.
  revert i. induction l as [|q l IH]; intros [|i]; try done.
  - intros [= ->]. cbn. lia.
  - intros Hi. change (<[S i := p']> (q :: l)) with (q :: <[i := p']> l). cbn [tally]. rewrite (IH i) by done. lia.
Qed.
Lemma tally_nonneg w l : 0 <= tally w l.
Proof. induction l as [|p l IH]; cbn; [done|]. destruct (w p); cbn; lia. Qed.
Lemma tally_some w l i p : l !! i = Some p -> w p = true -> 1 <= tally w l.
Proof.
  revert i. induction l as [|q l IH]; intros [|i]; cbn; try done.
  - intros [= ->] ->. cbn. pose proof (tally_nonneg w l). lia.
  - intros Hi Hp. specialize (IH i Hi Hp). destruct (w q); cbn; lia.
Qed.
Lemma tally_two w l i j p q : l !! i = Some p -> l !! j = Some q -> w p = true -> w q = true -> i <> j -> 2 <= tally w l.
Proof.
  revert i j. induction l as [|r l IH]; intros [|i] [|j]; cbn; try done.
  - intros [= ->] Hj -> Hq _. pose proof (tally_some _ _ _ _ Hj Hq). cbn. lia.
  - intros Hi [= ->] Hp -> _. pose proof (tally_some _ _ _ _ Hi Hp). cbn. lia.
  - intros Hi Hj Hp Hq N. specialize (IH i j Hi Hj Hp Hq ltac:(lia)). destruct (w r); cbn; lia.
Qed.

(** The offset the moves lead to, when every transfer began where the offset stood. *)
Fixpoint replay (start : Z) (moves : list move) : option Z :=  (** newest first *)
  match moves with
  | [] => Some start
  | m :: moves =>
      match replay start moves, m with
      | Some v, m_io s n => if v =? s then Some (s + n) else None
      | Some _, m_to v => Some v
      | None, _ => None
      end
  end.

Lemma writing_counted l : tally is_writing l <= tally is_counted l.
Proof. induction l as [|p l IH]; cbn; [done|]. unfold is_counted at 1. destruct (is_writing p); cbn; [lia|]. destruct p; cbn; lia. Qed.
Lemma closing_closed l : tally in_close l <= tally is_closing l.
Proof. induction l as [|p l IH]; cbn; [done|]. destruct p; cbn; lia. Qed.

Ltac tallies := repeat match goal with
  | H : ?l !! ?i = Some ?p |- context [tally ?w (<[?i := ?p']> ?l)] => rewrite (tally_insert w l i p p' H)
  end.
Lemma start_kept l i p p' (a a' : Z) : l !! i = Some p -> (forall k start, p' = g_run k start \/ p' = w_run k start -> uses_offset k = true -> start = a') ->
  (forall j q k start, l !! j = Some q -> q = g_run k start \/ q = w_run k start -> uses_offset k = true -> start = a) ->
  a' = a \/ (holds_offset p = true /\ tally holds_offset l <= 1) ->
  forall j q k start, <[i := p']> l !! j = Some q -> q = g_run k start \/ q = w_run k start -> uses_offset k = true -> start = a'.
Proof.
  intros Hi Hp Hl Ha j q k start Hj Hq Hk. destruct (decide (i = j)) as [<-|N].
  - rewrite list_lookup_insert_eq in Hj by (by eapply lookup_lt_Some). simplify_eq. by eapply Hp.
  - rewrite list_lookup_insert_ne in Hj by done. destruct Ha as [-> | [Ho Ht]]; [by eapply Hl|]. exfalso.
    assert (holds_offset q = true) as Hq' by (destruct Hq as [-> | ->]; done). pose proof (tally_two holds_offset l i j p q Hi Hj Ho Hq' N). lia.
Qed.

(** The counters of the handle count its requests, the gates exclude, the mark is set
    while a close is on its way and after it, and then nobody writes. *)
Definition counts (s : shared) (l : list pc) : Prop :=
  a_writes s = tally is_counted l /\ a_readers s = tally holds_life l /\ a_writers s = tally holds_gate l /\ a_offset s = tally holds_offset l /\
  (tally holds_gate l <= 1 /\ (1 <= tally holds_gate l -> tally holds_life l = 0)) /\ tally holds_offset l <= 1 /\
  tally is_closing l + b2z (a_erased s) = b2z (a_closing s) /\
  (1 <= tally in_close l + b2z (a_erased s) -> tally is_writing l = 0).
Lemma step_counts s s' l i p p' : l !! i = Some p -> thread_step s p s' p' -> counts s l -> counts s' (<[i := p']> l).
Proof.
  intros Hi Hst (H1 & H2 & H3 & H4 & [H5 H6] & H7 & H8 & H9).
  pose proof (writing_counted l) as W. pose proof (closing_closed l) as C. pose proof (tally_nonneg is_writing l) as N1. pose proof (tally_nonneg in_close l) as N2.
  pose proof (tally_nonneg holds_life l) as N3. pose proof (tally_nonneg holds_gate l) as N4. pose proof (tally_nonneg holds_offset l) as N5.
  pose proof (fun w => tally_some w l i p Hi) as S1. pose proof (S1 holds_gate) as S2. pose proof (S1 in_close) as S3. pose proof (S1 is_closing) as S4.
  pose proof (S1 holds_life) as S5. pose proof (S1 is_writing) as S6. clear S1.
  unfold counts. tallies. destruct Hst; destruct s as [[] nw nr ng no [] pos mv]; cbn in H1, H2, H3, H4, H8, H9, S2, S3, S4, S5, S6 |- *.
  all: try specialize (S2 eq_refl); try specialize (S3 eq_refl); try specialize (S4 eq_refl); try specialize (S5 eq_refl); try specialize (S6 eq_refl); try (destruct k); cbn in *; try lia.
Qed.

(** A request in the file system with the offset gate began where the offset stands. *)
Definition at_position (s : shared) (l : list pc) : Prop :=
  forall i p k start, l !! i = Some p -> p = g_run k start \/ p = w_run k start -> uses_offset k = true -> start = a_position s.
Definition handle_inv (position : Z) (st : handle_state) : Prop :=
  counts (ha_shared st) (ha_threads st) /\ replay position (a_moves (ha_shared st)) = Some (a_position (ha_shared st)) /\ at_position (ha_shared st) (ha_threads st).
Lemma replay_advance position k start n s : (uses_offset k = true -> start = a_position s) -> replay position (a_moves s) = Some (a_position s) ->
  replay position (a_moves (advance k start n s)) = Some (a_position (advance k start n s)).
Proof. intros Hs Hr. destruct k; cbn; rewrite ?Hr; try done; by rewrite Hs, Z.eqb_refl. Qed.
Lemma step_position position s s' l i p p' : l !! i = Some p -> thread_step s p s' p' -> replay position (a_moves s) = Some (a_position s) -> at_position s l ->
  replay position (a_moves s') = Some (a_position s').
Proof.
  intros Hi Hst Hr Ha. destruct Hst; try done; apply replay_advance; try done; intros Hk; (eapply Ha; [exact Hi|by auto|done]).
Qed.
Lemma step_at_position s s' l i p p' : l !! i = Some p -> thread_step s p s' p' -> tally holds_offset l <= 1 -> at_position s l -> at_position s' (<[i := p']> l).
Proof.
  intros Hi Hst Ht Ha. unfold at_position. refine (start_kept l i p p' (a_position s) (a_position s') Hi _ Ha _).
  - destruct Hst; intros k' start' [E|E] Hk'; repeat case_match; simplify_eq; try done. all: cbn in *; congruence.
  - destruct Hst; try (by left). all: destruct (uses_offset k) eqn:E; [right; by split|left; by destruct k].
Qed.
Lemma handle_inv_step position st st' : handle_step st st' -> handle_inv position st -> handle_inv position st'.
Proof.
  intros [s s' l i p p' Hi Hst|s l k] (Hc & Hr & Ha); cbn in *.
  - split; [by eapply step_counts|]. split; [by eapply step_position|]. eapply step_at_position; [done|done|apply Hc|done].
  - split; [|split; [done|]].
    + unfold counts in *. cbn [ha_shared ha_threads]. rewrite !tally_app. cbn. rewrite !Z.add_0_r. exact Hc.
    + intros i p k' start Hi Hp Hk. apply lookup_app_Some in Hi as [Hi|[_ Hi]]; [by eapply Ha|]. apply list_lookup_singleton_Some in Hi as [_ <-]. by destruct Hp.
Qed.
Lemma handle_reachable_inv position st : reachable position st -> handle_inv position st.
Proof.
  apply (rtc_ind_r (handle_inv position)).
  - split; [|by split]. unfold counts. cbn. lia.
  - intros x y _ Hs. by apply handle_inv_step.
Qed.

(** ** What the handle guarantees *)

Lemma tally_exists w l : 1 <= tally w l -> exists i p, l !! i = Some p /\ w p = true.
Proof.
  induction l as [|q l IH]; cbn; [lia|]. intros Ht. destruct (w q) eqn:E; [by exists O, q|]. cbn in Ht. destruct IH as (i & p & Hi & Hp); [lia|]. by exists (S i), p.
Qed.
Lemma tally_none w l : tally w l = 0 -> forall i p, l !! i = Some p -> w p = false.
Proof. intros Ht i p Hi. destruct (w p) eqn:E; [|done]. pose proof (tally_some _ _ _ _ Hi E). lia. Qed.

(** C12: A handle is closed alone.  In every interleaving of the requests on a handle: two
    closes are never under way together; while the file system's close runs, no write is
    inside the file system or on its way back, and no request holds the handle alive; once
    that close has succeeded, no write ever begins and the handle is never closed again. *)
Theorem close_excludes position st : reachable position st ->
  let l := ha_threads st in
  (forall i j p q, l !! i = Some p -> l !! j = Some q -> is_closing p = true -> is_closing q = true -> i = j) /\
  (forall i j q, l !! i = Some c_drained -> l !! j = Some q -> holds_life q = false /\ is_writing q = false) /\
  (a_erased (ha_shared st) = true -> a_closing (ha_shared st) = true /\ forall j q, l !! j = Some q -> is_writing q = false /\ is_closing q = false).
Proof.
  intros ((H1 & H2 & H3 & H4 & [H5 H6] & H7 & H8 & H9) & _ & _)%handle_reachable_inv. set (l := ha_threads st) in *. cbn zeta. pose proof (tally_nonneg is_closing l) as N. split_and!.
  - intros i j p q Hi Hj Hp Hq. destruct (decide (i = j)) as [|D]; [done|]. pose proof (tally_two _ _ _ _ _ _ Hi Hj Hp Hq D). exfalso.
    destruct (a_closing _), (a_erased _); cbn in H8; lia.
  - intros i j q Hi Hj. pose proof (tally_some holds_gate _ _ _ Hi eq_refl) as G. pose proof (tally_some in_close _ _ _ Hi eq_refl) as D.
    split; [by eapply tally_none; [apply H6|]|]. eapply tally_none; [apply H9|done]. destruct (a_erased _); cbn; lia.
  - intros E. rewrite E in *. cbn in *. destruct (a_closing _); cbn in H8; [|lia]. split; [done|]. intros j q Hj. pose proof (tally_nonneg in_close l).
    split; [by eapply tally_none; [apply H9; lia|]|]. eapply tally_none; [|done]. lia.
Qed.

(** C25: The implicit offset is shared without loss.  However reads, writes and seeks through
    one handle interleave, at most one of them has the offset at a time, each transfer begins
    exactly where the transfer, append or seek before it left the offset, and the offset is
    what the last of them left. *)
Theorem offset_moves_chain position st : reachable position st ->
  replay position (a_moves (ha_shared st)) = Some (a_position (ha_shared st)) /\
  (forall i j p q, ha_threads st !! i = Some p -> ha_threads st !! j = Some q -> holds_offset p = true -> holds_offset q = true -> i = j) /\
  (forall i k start, ha_threads st !! i = Some (g_run k start) \/ ha_threads st !! i = Some (w_run k start) -> uses_offset k = true -> start = a_position (ha_shared st)).
Proof.
  intros ((H1 & H2 & H3 & H4 & _ & H7 & _) & Hr & Ha)%handle_reachable_inv. split; [done|]. split.
  - intros i j p q Hi Hj Hp Hq. destruct (decide (i = j)) as [|D]; [done|]. pose proof (tally_two _ _ _ _ _ _ Hi Hj Hp Hq D). lia.
  - intros i k start [Hi|Hi] Hk; by eapply Ha; [exact Hi|auto|].
Qed.

(** Whether a request has to wait for others: for a gate, or for the count of writes. *)
Definition waits (s : shared) (p : pc) : bool :=
  match p with
  | p_found k => negb (is_write k) && negb (a_writers s =? 0)
  | g_life k | w_in k => uses_offset k && negb (a_offset s =? 0)
  | c_marked => negb (a_writers s =? 0) || negb (a_readers s =? 0)
  | c_gated => negb (a_writes s =? 0)
  | _ => false
  end.
Definition rank (p : pc) : nat :=
  match p with
  | p_start _ => 12 | p_seen _ => 11 | p_found _ => 10 | g_life _ => 9 | g_offset _ => 8 | g_run _ _ => 7 | g_ran _ => 6 | g_leave _ => 5
  | w_checked _ => 9 | w_counted _ => 8 | w_refused => 1 | w_in _ => 7 | w_offset _ => 6 | w_run _ _ => 5 | w_ran _ => 4 | w_leave => 3
  | c_marked => 4 | c_gated => 3 | c_drained => 2 | c_leave => 1 | p_done => 0
  end.
Definition work (l : list pc) : nat := foldr (fun p n => rank p + n)%nat 0%nat l.
Lemma work_insert l i p p' : l !! i = Some p -> (rank p' < rank p)%nat -> (work (<[i := p']> l) < work l)%nat.
Proof.
  revert i. induction l as [|q l IH]; intros [|i] Hi Hr; try done.
  - injection Hi as ->. cbn. lia.
  - change (<[S i := p']> (q :: l)) with (q :: <[i := p']> l). cbn. specialize (IH i Hi Hr). unfold work in IH. lia.
Qed.
Lemma work_bound l : (work l <= 12 * length l)%nat.
Proof. induction l as [|p l IH]; [done|]. assert (rank p <= 12)%nat by (destruct p; cbn; lia). cbn [length]. unfold work in *. cbn. lia. Qed.
Lemma step_rank s p s' p' : thread_step s p s' p' -> (rank p' < rank p)%nat.
Proof. destruct 1; repeat case_match; cbn; lia. Qed.


(** ** Runs *)

Lemma reach_request position s l k : reachable position (mk_state s l) -> reachable position (mk_state s (l ++ [p_start k])).
Proof. intros Hr. eapply rtc_r; [exact Hr|]. constructor. Qed.
Lemma reach_step position i p s' p' s l : reachable position (mk_state s l) -> l !! i = Some p -> thread_step s p s' p' -> reachable position (mk_state s' (<[i := p']> l)).
Proof. intros Hr Hi Hs. eapply rtc_r; [exact Hr|]. by econstructor. Qed.
Definition pushed (position : Z) (ks : list kind) : handle_state := mk_state (fresh position) (map p_start ks).
Lemma reach_pushed position ks : reachable position (pushed position ks).
Proof.
  unfold pushed. induction ks as [|k ks IH] using rev_ind; [apply rtc_refl|]. rewrite map_app. by apply reach_request.
Qed.
(** The next access of a request when nothing fails; [n] is what the file system answers. *)
Definition act (s : shared) (p : pc) (n : Z) : option (shared * pc) :=
  match p with
  | p_start k => Some (s, if a_erased s then p_done else p_seen k)
  | p_seen k_close => Some (set_mark true s, if a_closing s then p_done else c_marked)
  | p_seen k => Some (s, if a_closing s then p_done else p_found k)
  | p_found k =>
      if is_write k then Some (s, if a_closing s then p_done else w_checked k)
      else if a_writers s =? 0 then Some (readers 1 s, g_life k) else None
  | g_life k => if uses_offset k then if a_offset s =? 0 then Some (offsets 1 s, g_offset k) else None else Some (s, g_run k 0)
  | g_offset k => if uses_offset k then Some (s, g_run k (a_position s)) else None
  | g_run k start => if 0 <=? n then Some (advance k start n s, if uses_offset k then g_ran k else g_leave k) else None
  | g_ran k => Some (offsets (-1) s, g_leave k)
  | g_leave k => Some (readers (-1) s, p_done)
  | w_checked k => Some (count 1 s, w_counted k)
  | w_counted k => Some (s, if a_closing s then w_refused else w_in k)
  | w_refused => Some (count (-1) s, p_done)
  | w_in k => if uses_offset k then if a_offset s =? 0 then Some (offsets 1 s, w_offset k) else None else Some (s, w_run k 0)
  | w_offset k => if uses_offset k then Some (s, w_run k (a_position s)) else None
  | w_run k start => if 0 <=? n then Some (advance k start n s, if uses_offset k then w_ran k else w_leave) else None
  | w_ran k => Some (offsets (-1) s, w_leave)
  | w_leave => Some (count (-1) s, p_done)
  | c_marked => if (a_writers s =? 0) && (a_readers s =? 0) then Some (writers 1 s, c_gated) else None
  | c_gated => if a_writes s =? 0 then Some (s, c_drained) else None
  | c_drained => Some (erase s, c_leave)
  | c_leave => Some (writers (-1) s, p_done)
  | p_done => None
  end.
Lemma act_step s p n s' p' : act s p n = Some (s', p') -> thread_step s p s' p'.
Proof.
  destruct p as [k|k|k|k|k|k start|k|k|k|k| |k|k|k start|k| | | | | |]; cbn [act]; try (intros [= <- <-]; constructor).
  - destruct k; intros [= <- <-]; first [apply st_cas | by apply (st_mark s)].
  - destruct (is_write k) eqn:E; [intros [= <- <-]; by apply st_check|]. destruct (Z.eqb_spec (a_writers s) 0); [|done]. intros [= <- <-]. by apply st_life.
  - destruct (uses_offset k) eqn:E; [|intros [= <- <-]; by apply st_no_offset]. destruct (Z.eqb_spec (a_offset s) 0); [|done]. intros [= <- <-]. by apply st_offset.
  - destruct (uses_offset k) eqn:E; [|done]. intros [= <- <-]. by apply st_call.
  - destruct (Z.leb_spec 0 n); [|done]. intros [= <- <-]. by apply st_succeeds.
  - destruct (uses_offset k) eqn:E; [|intros [= <- <-]; by apply st_w_no_offset]. destruct (Z.eqb_spec (a_offset s) 0); [|done]. intros [= <- <-]. by apply st_w_offset.
  - destruct (uses_offset k) eqn:E; [|done]. intros [= <- <-]. by apply st_w_call.
  - destruct (Z.leb_spec 0 n); [|done]. intros [= <- <-]. by apply st_w_succeeds.
  - destruct (Z.eqb_spec (a_writers s) 0), (Z.eqb_spec (a_readers s) 0); try done. intros [= <- <-]. by apply st_gate.
  - destruct (Z.eqb_spec (a_writes s) 0); [|done]. intros [= <- <-]. by apply st_drained.
Qed.
(** Requests that take their accesses in the order of a schedule; the second number of an
    entry answers for the file system. *)
Fixpoint play (schedule : list (nat * Z)) (st : handle_state) : option handle_state :=
  match schedule with
  | [] => Some st
  | (i, n) :: schedule =>
      match ha_threads st !! i with
      | None => None
      | Some p => match act (ha_shared st) p n with None => None | Some (s, p) => play schedule (mk_state s (<[i := p]> (ha_threads st))) end
      end
  end.
Lemma reach_play position schedule : forall st st', reachable position st -> play schedule st = Some st' -> reachable position st'.
Proof.
  induction schedule as [|[i n] schedule IH]; intros st st' Hr; cbn; [by intros [= <-]|]. destruct (ha_threads st !! i) as [p|] eqn:Ei; [|done].
  destruct (act _ _ _) as [[s p']|] eqn:Ea; [|done]. apply IH. destruct st as [s0 l]. eapply reach_step; [done|done|]. by eapply act_step.
Qed.

(** C38: A request that found its handle before a close can run after it.  Only writes look
    at the mark of closing again: a truncation, a read or any other request under the
    lifecycle gate that waited while the file system closed the node goes on afterwards and
    calls the file system with the inode of a handle that no longer exists. *)
Theorem call_after_close : exists st, reachable 0 st /\ a_erased (ha_shared st) = true /\ ha_threads st = [g_run k_plain 0; p_done].
Proof.
  eexists. split; [|split].
  - eapply (reach_play 0 (map (fun i => (i, 0)) [0; 0; 1; 1; 1; 1; 1; 1; 0; 0]%nat)); [apply (reach_pushed 0 [k_plain; k_close])|]. vm_compute. reflexivity.
  - reflexivity.
  - reflexivity.
Qed.

(** A read of five bytes, then a write and a close together. *)
Definition read_schedule : list (nat * Z) := replicate 5 (0%nat, 0) ++ [(0%nat, 5); (0%nat, 0); (0%nat, 0)].
Definition waiting_schedule : list (nat * Z) := read_schedule ++ replicate 5 (1%nat, 0) ++ replicate 3 (2%nat, 0).
Definition closing_schedule : list (nat * Z) := waiting_schedule ++ [(1%nat, 0); (1%nat, 0); (1%nat, 3); (1%nat, 0); (1%nat, 0); (2%nat, 0)].
Definition after (schedule : list (nat * Z)) : handle_state := default (pushed 0 []) (play schedule (pushed 0 [k_read; k_write; k_close])).
Lemma reach_after schedule st : play schedule (pushed 0 [k_read; k_write; k_close]) = Some st -> reachable 0 st.
Proof. intros E. eapply reach_play; [apply reach_pushed|exact E]. Qed.
Lemma close_excludes_witness : ha_threads (after closing_schedule) = [p_done; p_done; c_drained] /\ forall j q, ha_threads (after closing_schedule) !! j = Some q -> holds_life q = false /\ is_writing q = false.
Proof.
  split; [vm_compute; reflexivity|]. intros j q Hj.
  destruct (close_excludes 0 (after closing_schedule) ltac:(apply (reach_after closing_schedule); vm_compute; reflexivity)) as (_ & H & _).
  apply (H 2%nat j q); [vm_compute; reflexivity|exact Hj].
Defined.
Lemma offset_moves_chain_witness : a_moves (ha_shared (after closing_schedule)) = [m_io 5 3; m_io 0 5] /\
  replay 0 (a_moves (ha_shared (after closing_schedule))) = Some 8.
Proof.
  split; [vm_compute; reflexivity|].
  destruct (offset_moves_chain 0 (after closing_schedule) ltac:(apply (reach_after closing_schedule); vm_compute; reflexivity)) as (H & _). exact H.
Defined.
