(* ===== verification/ServerLane.v ===== *)
(** * The lanes of a session (class ServerSession of Async/server.cpp)

    A lane takes requests from its submission ring, runs each as a coroutine, collects the
    completions in a queue of its own and publishes them.  It reserves the slot of the
    response before it takes the request, which is what bounds everything that follows.
    Lanes are polled by their owner; the coroutines, the other workers and the client run
    beside it in any interleaving. *)

From stdpp Require Import base tactics numbers list relations.
From Stdlib Require Import ZArith Lia.
From S2P Require Import Prelude RangeArbiter.
Open Scope Z_scope.

(** ** The queue of completions *)

Module CompletionQueue.
Section Queue.
Context {A : Type}.
Record t := mk { slots : list (option A); head : nat; tail : nat; size : nat }.
Definition make (capacity : nat) : t := mk (replicate capacity None) 0 0 0.
Definition empty (q : t) : bool := (size q =? 0)%nat.
(** [None] is [std::terminate]. *)
Definition front (q : t) : option A := if empty q then None else match slots q !! head q with Some (Some a) => Some a | _ => None end.
Definition push_back (q : t) (a : A) : option t :=
  if (size q =? length (slots q))%nat then None
  else match slots q !! tail q with
       | Some None => Some (mk (<[tail q := Some a]> (slots q)) (head q) ((tail q + 1) mod length (slots q))%nat (size q + 1))
       | _ => None
       end.
Definition pop_front (q : t) : option t :=
  if empty q then None
  else match slots q !! head q with
       | Some (Some _) => Some (mk (<[head q := None]> (slots q)) ((head q + 1) mod length (slots q))%nat (tail q) (size q - 1))
       | _ => None
       end.
Fixpoint clear_loop (fuel : nat) (q : t) : option t :=
  if empty q then Some q
  else match fuel with O => None | S fuel => match pop_front q with Some q => clear_loop fuel q | None => None end end.
Definition clear (q : t) : option t := clear_loop (size q) q.

(** The slots in use hold [l], from the head on, round the end of the array. *)
Record holds (q : t) (l : list A) : Prop := {
  h_cap : (0 < length (slots q))%nat;
  h_head : (head q < length (slots q))%nat;
  h_size : size q = length l;
  h_fits : (length l <= length (slots q))%nat;
  h_tail : tail q = ((head q + length l) mod length (slots q))%nat;
  h_used : forall i a, l !! i = Some a -> slots q !! ((head q + i) mod length (slots q))%nat = Some (Some a);
  h_free : forall i, (length l <= i < length (slots q))%nat -> slots q !! ((head q + i) mod length (slots q))%nat = Some None;
}.
Lemma holds_make capacity : (0 < capacity)%nat -> holds (make capacity) [].
Proof.
  intros Hc. unfold make. split; cbn [slots head size tail length]; rewrite ?length_replicate; try done; try lia.
  - by rewrite Nat.Div0.mod_0_l.
  - intros i [_ Hi]. apply lookup_replicate_2. apply Nat.mod_upper_bound. lia.
Qed.
(** Positions of a ring, as distances from its head. *)
Lemma ring_inj h c i j : (i < c)%nat -> (j < c)%nat -> ((h + i) mod c = (h + j) mod c)%nat -> i = j.
Proof.
  intros Hi Hj E. assert ((h + i) = c * ((h + i) / c) + (h + i) mod c)%nat as E1 by (apply Nat.div_mod; lia).
  assert ((h + j) = c * ((h + j) / c) + (h + j) mod c)%nat as E2 by (apply Nat.div_mod; lia). rewrite E in E1.
  destruct (Nat.lt_trichotomy ((h + i) / c) ((h + j) / c)) as [Lt|[Eq|Gt]]; [nia|rewrite Eq in E1; lia|nia].
Qed.
Lemma ring_next h c i : (0 < c)%nat -> (((h + 1) mod c + i) mod c = (h + S i) mod c)%nat.
Proof. intros Hc. rewrite Nat.Div0.add_mod_idemp_l. f_equal. lia. Qed.

Lemma front_holds q l : holds q l -> front q = l !! 0%nat.
Proof.
  intros [H1 H2 H3 H4 H5 H6 H7]. unfold front, empty. rewrite H3. destruct l as [|a l]; [done|]. cbn [length Nat.eqb].
  specialize (H6 0%nat a eq_refl). rewrite Nat.add_0_r, Nat.mod_small in H6 by done. by rewrite H6.
Qed.
Lemma push_holds q l a : holds q l -> if (length l =? length (slots q))%nat then push_back q a = None else exists q', push_back q a = Some q' /\ holds q' (l ++ [a]).
Proof.
  intros [H1 H2 H3 H4 H5 H6 H7]. unfold push_back. rewrite H3. destruct (Nat.eqb_spec (length l) (length (slots q))) as [|N]; [done|].
  rewrite H5, (H7 (length l)) by lia. eexists. split; [done|]. split; cbn [slots head tail size]; rewrite ?length_insert, ?length_app; cbn [length]; try done; try lia.
  - rewrite Nat.Div0.add_mod_idemp_l. f_equal. lia.
  - intros i b Hi. apply lookup_app_Some in Hi as [Hi|[Hge Hi]].
    + pose proof (lookup_lt_Some _ _ _ Hi). rewrite list_lookup_insert_ne; [by apply H6|]. intros E%ring_inj; lia.
    + apply list_lookup_singleton_Some in Hi as [Hz ->]. assert (i = length l) as -> by lia. apply list_lookup_insert_eq. apply Nat.mod_upper_bound. lia.
  - intros i Hi. rewrite list_lookup_insert_ne; [apply H7; lia|]. intros E%ring_inj; lia.
Qed.
Lemma pop_holds q l : holds q l -> match l with [] => pop_front q = None | _ :: l => exists q', pop_front q = Some q' /\ holds q' l end.
Proof.
  intros [H1 H2 H3 H4 H5 H6 H7]. unfold pop_front, empty. rewrite H3. destruct l as [|a l]; [done|]. cbn [length Nat.eqb] in *.
  pose proof (H6 0%nat a eq_refl) as Hh. rewrite Nat.add_0_r, Nat.mod_small in Hh by done. rewrite Hh. eexists. split; [done|].
  assert (forall i, (S i < length (slots q))%nat -> ((head q + S i) mod length (slots q) <> head q)%nat) as Ne.
  { intros i Hi E. assert (S i = 0%nat); [|lia]. apply (ring_inj (head q) (length (slots q))); [lia|lia|]. rewrite E, Nat.add_0_r, Nat.mod_small; lia. }
  split; cbn [slots head tail size]; rewrite ?length_insert; try done; try lia.
  - apply Nat.mod_upper_bound. lia.
  - by rewrite ring_next, H5 by lia.
  - intros i b Hi. pose proof (lookup_lt_Some _ _ _ Hi). rewrite ring_next by lia. rewrite list_lookup_insert_ne; [by apply (H6 (S i))|]. intros E. by apply (Ne i); [lia|].
  - intros i Hi. rewrite ring_next by lia. destruct (Nat.eq_dec (S i) (length (slots q))) as [E|N].
    + rewrite E. replace ((head q + length (slots q)) mod length (slots q))%nat with (head q).
      * by apply list_lookup_insert_eq.
      * rewrite <-(Nat.mul_1_l (length (slots q))) at 1. rewrite Nat.Div0.mod_add, Nat.mod_small; lia.
    + rewrite list_lookup_insert_ne; [apply (H7 (S i)); lia|]. intros E. by apply (Ne i); [lia|].
Qed.
Lemma clear_holds l : forall q, holds q l -> exists q', clear q = Some q' /\ holds q' [].
Proof.
  unfold clear. intros q Hq. rewrite (h_size q l Hq). revert q Hq. induction l as [|a l IH]; intros q Hq; cbn [length clear_loop].
  - exists q. unfold empty. by rewrite (h_size q [] Hq).
  - unfold empty. rewrite (h_size q _ Hq). cbn [length Nat.eqb]. destruct (pop_holds q (a :: l) Hq) as (q' & -> & Hq'). by apply IH.
Qed.
Lemma pop_slots q q' : pop_front q = Some q' -> length (slots q') = length (slots q).
Proof. unfold pop_front. repeat case_match; try done. intros [= <-]. cbn. by rewrite length_insert. Qed.
Lemma clear_loop_slots fuel : forall q q', clear_loop fuel q = Some q' -> length (slots q') = length (slots q).
Proof.
  induction fuel as [|fuel IH]; intros q q'; cbn; (destruct (empty q); [by intros [= <-]|]); [done|].
  destruct (pop_front q) as [q1|] eqn:E; [|done]. intros ->%IH. by apply pop_slots.
Qed.
Lemma clear_slots q q' : clear q = Some q' -> length (slots q') = length (slots q).
Proof. apply clear_loop_slots. Qed.
End Queue.
Arguments t : clear implicits.
End CompletionQueue.

(** ** The inbox of completions from other workers (MpscInbox of concurrency.hpp) *)

(** The list its nodes form, newest first; the list a drain makes of it is RangeArbiter.v's. *)
Definition lane_inbox_push (inbox : list Z) (id : Z) : list Z := id :: inbox.
Definition lane_inbox_drain (inbox : list Z) : list Z := drain_loop inbox [].

(** ** Lanes *)

(** Where the poller of the lane is ([poll_lane_once]). *)
Inductive owner_pc :=
| o_top
| o_submit                (** in [pump_submissions] *)
| o_pump | o_publish      (** in [pump_completions]: the inbox, then the queue *)
| o_discard               (** a stop was requested before the pumps *)
| o_recheck               (** the second look at [stop_requested_] *)
| o_stopping (forced : bool)
| o_last (forced : bool) | o_last_publish   (** nothing in flight *)
| o_empty (forced : bool)
| o_drained.
#[export] Instance owner_pc_eq_dec : EqDecision owner_pc.
Proof. solve_decision. Defined.

(** The flags of the session. *)
Record flags := mk_flags { f_closing : bool; f_stop_requested : bool; f_stop_after_flush : bool; f_shutdown_requested : bool }.
Definition request_stop (f : flags) : flags := mk_flags true true (f_stop_after_flush f) (f_shutdown_requested f).
(** Requests by their ids.  [ln_used]: slots of the completion ring that are not free, being
    reserved or holding one of the responses [ln_unread]; [ln_finishing]: requests between
    queueing their completion and leaving [inflight].  Of every request the lane has taken:
    [ln_answered] it has published a response for, [ln_dropped] it has given up in a stop. *)
Record lane := mk_lane {
  ln_submissions : list Z; ln_used : nat; ln_unread : list Z; ln_running : list Z; ln_finishing : nat; ln_inflight : nat;
  ln_completions : CompletionQueue.t Z; ln_inbox : list Z; ln_pc : owner_pc; ln_flags : flags;
  ln_taken : list Z; ln_answered : list Z; ln_dropped : list Z;
}.

Fixpoint push_all (q : CompletionQueue.t Z) (l : list Z) : option (CompletionQueue.t Z) :=
  match l with
  | [] => Some q
  | a :: l => match CompletionQueue.push_back q a with Some q => push_all q l | None => None end
  end.
(** [drain_completion_inbox] *)
Definition drain_inbox (q : CompletionQueue.t Z) (inbox : list Z) : option (CompletionQueue.t Z) := push_all q (lane_inbox_drain inbox).
Definition discard_completions (q : CompletionQueue.t Z) (inbox : list Z) : option (CompletionQueue.t Z) :=
  match drain_inbox q inbox with Some q => CompletionQueue.clear q | None => None end.
(** [contents]: of a queue that is never in a state its operations do not expect. *)
Definition contents (q : CompletionQueue.t Z) : list Z :=
  omap (fun i => default None (CompletionQueue.slots q !! ((CompletionQueue.head q + i) mod length (CompletionQueue.slots q))%nat)) (seq 0 (CompletionQueue.size q)).

Section Lanes.
Context (capacity : nat) (valid shutdown : Z -> bool).

(** Rejections of [submit_incoming], and of a descriptor of another session. *)
Definition rejects (f : flags) (id : Z) : bool :=
  negb (valid id) || (if shutdown id then f_stop_requested f || f_shutdown_requested f else f_closing f).

(** One step of the poller, of a request, of another worker or of the client; [None] is
    [std::terminate]. *)
Inductive lane_step : lane -> option lane -> Prop :=
(* the client *)
| l_submit id sub u ur run fin inf q ib pc f tk an dr :
    lane_step (mk_lane sub u ur run fin inf q ib pc f tk an dr) (Some (mk_lane (sub ++ [id]) u ur run fin inf q ib pc f tk an dr))
| l_consume id sub u ur run fin inf q ib pc f tk an dr :
    lane_step (mk_lane sub (S u) (id :: ur) run fin inf q ib pc f tk an dr) (Some (mk_lane sub u ur run fin inf q ib pc f tk an dr))
(* a shutdown request that was accepted, and a stop, on any lane of the session *)
| l_shutdown sub u ur run fin inf q ib pc f tk an dr :
    lane_step (mk_lane sub u ur run fin inf q ib pc f tk an dr)
      (Some (mk_lane sub u ur run fin inf q ib pc (mk_flags true (f_stop_requested f) true true) tk an dr))
| l_stop sub u ur run fin inf q ib pc f tk an dr :
    lane_step (mk_lane sub u ur run fin inf q ib pc f tk an dr) (Some (mk_lane sub u ur run fin inf q ib pc (request_stop f) tk an dr))
(* [enqueue_completion] of a request that has run: on the owner, or through the inbox *)
| l_finish r1 id r2 sub u ur fin inf q ib pc f tk an dr :
    lane_step (mk_lane sub u ur (r1 ++ id :: r2) fin inf q ib pc f tk an dr)
      match CompletionQueue.push_back q id with Some q => Some (mk_lane sub u ur (r1 ++ r2) (S fin) inf q ib pc f tk an dr) | None => None end
| l_finish_remote r1 id r2 sub u ur fin inf q ib pc f tk an dr :
    lane_step (mk_lane sub u ur (r1 ++ id :: r2) fin inf q ib pc f tk an dr) (Some (mk_lane sub u ur (r1 ++ r2) (S fin) inf q (lane_inbox_push ib id) pc f tk an dr))
| l_finished sub u ur run fin inf q ib pc f tk an dr :
    lane_step (mk_lane sub u ur run (S fin) inf q ib pc f tk an dr) (Some (mk_lane sub u ur run fin (inf - 1) q ib pc f tk an dr))
(* [poll_lane_once] *)
| l_top sub u ur run fin inf q ib f tk an dr :
    lane_step (mk_lane sub u ur run fin inf q ib o_top f tk an dr)
      (Some (mk_lane sub u ur run fin inf q ib (if f_stop_requested f then o_discard else o_submit) f tk an dr))
(* [pump_submissions]: nothing to take or no slot for the response; a transport error; one request *)
| l_submit_done sub u ur run fin inf q ib f tk an dr :
    lane_step (mk_lane sub u ur run fin inf q ib o_submit f tk an dr) (Some (mk_lane sub u ur run fin inf q ib o_pump f tk an dr))
| l_submit_error sub u ur run fin inf q ib f tk an dr :
    lane_step (mk_lane sub u ur run fin inf q ib o_submit f tk an dr) (Some (mk_lane sub u ur run fin inf q ib o_pump (request_stop f) tk an dr))
| l_reject id sub u ur run fin inf q ib f tk an dr : (u < capacity)%nat -> rejects f id = true ->
    lane_step (mk_lane (id :: sub) u ur run fin inf q ib o_submit f tk an dr)
      match CompletionQueue.push_back q id with Some q => Some (mk_lane sub (S u) ur run fin inf q ib o_submit f (id :: tk) an dr) | None => None end
| l_start id sub u ur run fin inf q ib f tk an dr : (u < capacity)%nat -> rejects f id = false ->
    lane_step (mk_lane (id :: sub) u ur run fin inf q ib o_submit f tk an dr)
      (Some (mk_lane sub (S u) ur (id :: run) fin (S inf) q ib o_submit f (id :: tk) an dr))
| l_no_memory id sub u ur run fin inf q ib f tk an dr : (u < capacity)%nat -> rejects f id = false ->
    lane_step (mk_lane (id :: sub) u ur run fin inf q ib o_submit f tk an dr)
      (Some (mk_lane sub (S u) ur run fin inf q ib o_submit (request_stop f) (id :: tk) an (id :: dr)))
(* [pump_completions], first and last *)
| l_pump sub u ur run fin inf q ib f tk an dr :
    lane_step (mk_lane sub u ur run fin inf q ib o_pump f tk an dr)
      match drain_inbox q ib with Some q => Some (mk_lane sub u ur run fin inf q [] o_publish f tk an dr) | None => None end
| l_last_pump sub u ur run fin inf q ib f tk an dr :
    lane_step (mk_lane sub u ur run fin inf q ib (o_last false) f tk an dr)
      match drain_inbox q ib with Some q => Some (mk_lane sub u ur run fin inf q [] o_last_publish f tk an dr) | None => None end
| l_publish pc sub u ur run fin inf q ib f tk an dr : pc = o_publish \/ pc = o_last_publish -> CompletionQueue.empty q = false ->
    lane_step (mk_lane sub u ur run fin inf q ib pc f tk an dr)
      match CompletionQueue.front q, CompletionQueue.pop_front q with
      | Some id, Some q => Some (mk_lane sub u (ur ++ [id]) run fin inf q ib pc f tk (id :: an) dr)
      | _, _ => None
      end
| l_publish_error pc sub u ur run fin inf q ib f tk an dr : pc = o_publish \/ pc = o_last_publish -> CompletionQueue.empty q = false ->
    lane_step (mk_lane sub u ur run fin inf q ib pc f tk an dr)
      match CompletionQueue.front q, CompletionQueue.pop_front q with
      | Some id, Some q => Some (mk_lane sub u ur run fin inf q ib (if decide (pc = o_publish) then o_recheck else o_empty false) (request_stop f) tk an (id :: dr))
      | _, _ => None
      end
| l_published sub u ur run fin inf q ib f tk an dr : CompletionQueue.empty q = true ->
    lane_step (mk_lane sub u ur run fin inf q ib o_publish f tk an dr) (Some (mk_lane sub u ur run fin inf q ib o_recheck f tk an dr))
| l_last_published sub u ur run fin inf q ib f tk an dr : CompletionQueue.empty q = true ->
    lane_step (mk_lane sub u ur run fin inf q ib o_last_publish f tk an dr) (Some (mk_lane sub u ur run fin inf q ib (o_empty false) f tk an dr))
(* [discard_completions], in its three places *)
| l_discard pc pc' sub u ur run fin inf q ib f tk an dr :
    pc = o_discard /\ pc' = o_recheck \/ pc = o_recheck /\ f_stop_requested f = true /\ pc' = o_stopping true \/ pc = o_last true /\ pc' = o_empty true ->
    lane_step (mk_lane sub u ur run fin inf q ib pc f tk an dr)
      match discard_completions q ib with Some q' => Some (mk_lane sub u ur run fin inf q' [] pc' f tk an (contents q ++ ib ++ dr)) | None => None end
| l_recheck sub u ur run fin inf q ib f tk an dr : f_stop_requested f = false ->
    lane_step (mk_lane sub u ur run fin inf q ib o_recheck f tk an dr) (Some (mk_lane sub u ur run fin inf q ib (o_stopping false) f tk an dr))
(* the end of the lane *)
| l_stopping forced sub u ur run fin inf q ib f tk an dr :
    lane_step (mk_lane sub u ur run fin inf q ib (o_stopping forced) f tk an dr)
      (Some (mk_lane sub u ur run fin inf q ib (if (forced || f_stop_after_flush f) && (inf =? 0)%nat then o_last forced else o_top) f tk an dr))
| l_empty forced sub u ur run fin inf q ib f tk an dr :
    lane_step (mk_lane sub u ur run fin inf q ib (o_empty forced) f tk an dr)
      match (if forced then Some q else drain_inbox q ib) with
      | Some q => Some (mk_lane sub u ur run fin inf q (if forced then ib else []) (if forced || CompletionQueue.empty q then o_drained else o_top) f tk an dr)
      | None => None
      end.
Definition new_lane : lane := mk_lane [] 0 [] [] 0 0 (CompletionQueue.make capacity) [] o_top (mk_flags false false false false) [] [] [].
Inductive lane_reachable : lane -> Prop :=
| lr_new : lane_reachable new_lane
| lr_step l l' : lane_reachable l -> lane_step l (Some l') -> lane_reachable l'.

(** ** Accounting *)

Lemma contents_holds q l : CompletionQueue.holds q l -> contents q = l.
Proof.
  intros Hq. unfold contents. rewrite (CompletionQueue.h_size _ _ Hq). set (g := fun i => default None _).
  assert (forall i a, l !! i = Some a -> g i = Some a) as Hg by (intros i a Hi; unfold g; by rewrite (CompletionQueue.h_used _ _ Hq i a Hi)).
  clearbody g. clear Hq. revert g Hg. induction l as [|a l IH]; intros g Hg; [done|]. cbn [length seq omap list_omap]. rewrite (Hg 0%nat a eq_refl).
  rewrite <-seq_shift. f_equal. rewrite <-(IH (fun i => g (S i)) (fun i b Hi => Hg (S i) b Hi)) at 2. clear. induction (seq 0 (length l)) as [|x t IH]; [done|]. cbn. by rewrite IH.
Qed.
Lemma push_all_holds cap m : forall q l, CompletionQueue.holds q l -> length (CompletionQueue.slots q) = cap -> (length l + length m <= cap)%nat ->
  exists q', push_all q m = Some q' /\ CompletionQueue.holds q' (l ++ m) /\ length (CompletionQueue.slots q') = cap.
Proof.
  induction m as [|a m IH]; intros q l Hq Hc Hl; cbn [push_all].
  - exists q. by rewrite app_nil_r.
  - cbn [length] in Hl. pose proof (CompletionQueue.push_holds q l a Hq) as P. destruct (Nat.eqb_spec (length l) (length (CompletionQueue.slots q))); [lia|].
    destruct P as (q1 & E & Hq1). rewrite E. destruct (IH q1 (l ++ [a]) Hq1) as (q' & E' & Hq' & Hc').
    + unfold CompletionQueue.push_back in E. repeat case_match; try done. injection E as <-. cbn. by rewrite length_insert.
    + rewrite length_app. cbn. lia.
    + exists q'. by rewrite <-app_assoc in Hq'.
Qed.
(** A queue of the lane, with its content. *)
Definition queued (q : CompletionQueue.t Z) (l : list Z) : Prop := CompletionQueue.holds q l /\ length (CompletionQueue.slots q) = capacity.
Lemma queued_push q l a : queued q l -> (length l < capacity)%nat -> exists q', CompletionQueue.push_back q a = Some q' /\ queued q' (l ++ [a]).
Proof.
  intros [Hq Hc] Hl. destruct (push_all_holds capacity [a] q l Hq Hc) as (q' & E & Hq' & Hc'); [cbn; lia|]. cbn in E.
  destruct (CompletionQueue.push_back q a); [|done]. injection E as ->. by exists q'.
Qed.
Lemma queued_drain_inbox q l ib : queued q l -> (length l + length ib <= capacity)%nat -> exists q', drain_inbox q ib = Some q' /\ queued q' (l ++ reverse ib).
Proof.
  intros [Hq Hc] Hl. unfold drain_inbox, lane_inbox_drain. rewrite drain_loop_rev, app_nil_r, rev_alt. change (rev_append ib []) with (reverse ib).
  destruct (push_all_holds capacity (reverse ib) q l Hq Hc) as (q' & E & H'); [rewrite length_reverse; lia|by exists q'].
Qed.
Lemma queued_discard q l ib : queued q l -> (length l + length ib <= capacity)%nat -> exists q', discard_completions q ib = Some q' /\ queued q' [].
Proof.
  intros Hq Hl. unfold discard_completions. destruct (queued_drain_inbox q l ib Hq Hl) as (q1 & -> & [Hq1 Hc1]). destruct (CompletionQueue.clear_holds _ q1 Hq1) as (q2 & E & Hq2).
  exists q2. split; [done|]. split; [done|]. by rewrite (CompletionQueue.clear_slots _ _ E).
Qed.
Lemma queued_pop q l : queued q l -> CompletionQueue.empty q = false -> exists id l' q', l = id :: l' /\ CompletionQueue.front q = Some id /\ CompletionQueue.pop_front q = Some q' /\ queued q' l'.
Proof.
  intros [Hq Hc] He. unfold CompletionQueue.empty in He. rewrite (CompletionQueue.h_size _ _ Hq) in He. destruct l as [|id l]; [done|].
  destruct (CompletionQueue.pop_holds q _ Hq) as (q' & E & Hq'). exists id, l, q'. split; [done|]. split; [by apply (CompletionQueue.front_holds q _ Hq)|]. split; [done|].
  split; [done|]. by rewrite (CompletionQueue.pop_slots _ _ E).
Qed.
Lemma queued_empty q l : queued q l -> CompletionQueue.empty q = true -> l = [].
Proof. intros [Hq _] He. unfold CompletionQueue.empty in He. rewrite (CompletionQueue.h_size _ _ Hq) in He. by destruct l. Qed.

(** At the end of the poll, after the look at [inflight]. *)
Definition is_last (pc : owner_pc) : bool := match pc with o_last _ | o_last_publish | o_empty _ | o_drained => true | _ => false end.
Definition is_over (pc : owner_pc) : bool := match pc with o_empty true | o_drained => true | _ => false end.
Lemma over_last pc : is_over pc = true -> is_last pc = true.
Proof. by destruct pc as [| | | | | | | | |[]|]. Qed.
Record accounted (l : lane) (qs : list Z) : Prop := {
  ac_queue : queued (ln_completions l) qs;
  ac_slots : (length (ln_running l) + length qs + length (ln_inbox l) + length (ln_unread l) <= ln_used l <= capacity)%nat;
  ac_inflight : ln_inflight l = (length (ln_running l) + ln_finishing l)%nat;
  ac_requests : ln_taken l ≡ₚ ln_running l ++ qs ++ ln_inbox l ++ ln_answered l ++ ln_dropped l;
  ac_kept : f_stop_requested (ln_flags l) = false -> ln_dropped l = [];
  ac_last : is_last (ln_pc l) = true -> ln_inflight l = 0%nat;
  ac_over : is_over (ln_pc l) = true -> qs = [] /\ ln_inbox l = [];
  ac_discard : ln_pc l = o_discard -> f_stop_requested (ln_flags l) = true;
  ac_forced : ln_pc l = o_stopping true \/ ln_pc l = o_last true \/ ln_pc l = o_empty true -> f_stop_requested (ln_flags l) = true;
}.
Definition lane_inv (l : lane) : Prop := exists qs, accounted l qs.

Ltac account := split; cbn [ln_completions ln_running ln_inbox ln_unread ln_used ln_inflight ln_finishing ln_taken ln_answered ln_dropped ln_flags ln_pc f_stop_requested request_stop
    is_last is_over app] in *; rewrite ?length_app, ?length_reverse in *; cbn [length] in *; try done; try lia;
  try match goal with H : ?t ≡ₚ _ |- context [?t] => rewrite H, ?reverse_Permutation; solve_Permutation end;
  try match goal with |- _ \/ _ \/ _ -> _ => by intros [|[|]] end;
  try match goal with Hl : is_last ?pc = true -> _ |- is_over ?pc = true -> _ => intros E; specialize (Hl (over_last pc E)); lia end.
Local Ltac same qs := eexists; split; [done|]; exists qs; account.
Lemma lane_inv_step l r : (0 < capacity)%nat -> lane_inv l -> lane_step l r -> exists l', r = Some l' /\ lane_inv l'.
Proof.
  intros Hcap [qs [Hq Hs Hi Hr Hk Hl Ho Hd Hf]] Hst. destruct Hst; cbn in Hq, Hs, Hi, Hr, Hk, Hl, Ho, Hd, Hf.
  - same qs.
  - same qs.
  - same qs.
  - same qs.
  - destruct (queued_push q qs id Hq) as (q' & -> & Hq'); [rewrite length_app in Hs; cbn in Hs; lia|]. same (qs ++ [id]).
  - unfold lane_inbox_push. same qs.
  - same qs. intros E. specialize (Hl E). lia.
  - destruct (f_stop_requested f) eqn:E; same qs; intros E'; first [congruence | by apply Hk].
  - same qs.
  - same qs.
  - destruct (queued_push q qs id Hq) as (q' & -> & Hq'); [cbn in Hs; lia|]. same (qs ++ [id]).
  - same qs.
  - same qs.
  - destruct (queued_drain_inbox q qs ib Hq) as (q' & -> & Hq'); [lia|]. same (qs ++ reverse ib).
  - destruct (queued_drain_inbox q qs ib Hq) as (q' & -> & Hq'); [lia|]. same (qs ++ reverse ib).
  - destruct (queued_pop q qs Hq) as (id & l' & q' & -> & -> & -> & Hq'); [done|]. same l'. by destruct H as [-> | ->].
  - destruct (queued_pop q qs Hq) as (id & l' & q' & -> & -> & -> & Hq'); [done|]. same l'; destruct H as [-> | ->]; done.
  - same qs.
  - same qs.
  - destruct (queued_discard q qs ib Hq) as (q' & -> & Hq'); [lia|]. rewrite (contents_holds q qs (proj1 Hq)). same (@nil Z).
    + intros E. exfalso. destruct H as [[-> _]|[(-> & E' & _)|[-> _]]]; [rewrite Hd in E by done|congruence|rewrite Hf in E by auto]; done.
    + destruct H as [[-> ->]|[(-> & E' & ->)|[-> ->]]]; done.
    + destruct H as [[-> ->]|[(-> & E' & ->)|[-> ->]]]; done.
    + intros _. destruct H as [[-> ->]|[(-> & E' & ->)|[-> ->]]]; auto.
  - same qs.
  - same qs.
    + destruct ((forced || _) && (inf =? 0)%nat) eqn:E; [|done]. intros _. apply andb_prop in E as [_ E]. by apply Nat.eqb_eq in E.
    + by destruct (_ && _).
    + by destruct (_ && _).
    + intros E. apply Hf. left. destruct (_ && _); [|by destruct E as [|[|]]]. destruct E as [E|[E|E]]; by simplify_eq.
  - destruct forced.
    + same qs.
    + destruct (queued_drain_inbox q qs ib Hq) as (q' & -> & Hq'); [lia|]. cbn [orb]. destruct (CompletionQueue.empty q') eqn:E; same (qs ++ reverse ib).
      by rewrite (queued_empty _ _ Hq' E).
Qed.

Lemma lane_reachable_inv l : (0 < capacity)%nat -> lane_reachable l -> lane_inv l.
Proof.
  intros Hc. induction 1 as [|l l' _ IH Hst].
  - exists []. split; try done; cbn; [|lia|intros [|[|]]; done]. split; [by apply CompletionQueue.holds_make|apply length_replicate].
  - destruct (lane_inv_step l (Some l') Hc IH Hst) as (l1 & E & H1). by injection E as ->.
Qed.


(** C10: Every request a lane takes is answered once.  Each is, at any time, in exactly one
    place: running, completed and queued, answered, or given up; nothing is given up unless
    a stop was requested; and when the lane is drained nothing is left, so that after an
    orderly shutdown all requests that were taken have been answered, each once. *)
Theorem lane_answers_every_request l : (0 < capacity)%nat -> lane_reachable l ->
  ln_taken l ≡ₚ ln_running l ++ contents (ln_completions l) ++ ln_inbox l ++ ln_answered l ++ ln_dropped l /\
  (f_stop_requested (ln_flags l) = false -> ln_dropped l = []) /\
  (ln_pc l = o_drained -> ln_inflight l = 0%nat /\ ln_taken l ≡ₚ ln_answered l ++ ln_dropped l).
Proof.
  intros Hc Hr. apply lane_reachable_inv in Hr as [qs [[Hq _] _ Hi Hp Hk Hl Ho _ _]]; [|done]. rewrite (contents_holds _ _ Hq). split; [done|]. split; [done|].
  intros E. rewrite E in *. cbn in *. destruct (Ho eq_refl) as [-> Eib]. specialize (Hl eq_refl). split; [done|]. rewrite Hp, Eib. by destruct (ln_running l); [|cbn in Hi; lia].
Qed.
End Lanes.

(** A queue of the lane next to a list. *)
Inductive queue_op (A : Type) := q_push (a : A) | q_front | q_pop | q_clear.
Arguments q_push {A}. Arguments q_front {A}. Arguments q_pop {A}. Arguments q_clear {A}.
(** What the operations return, up to the one that terminates. *)
Fixpoint run_queue {A} (ops : list (queue_op A)) (q : CompletionQueue.t A) : list (option A) :=
  let next q' ops := match q' with Some q => run_queue ops q | None => [None] end in
  match ops with
  | [] => []
  | q_push a :: ops => next (CompletionQueue.push_back q a) ops
  | q_front :: ops => match CompletionQueue.front q with Some a => Some a :: run_queue ops q | None => [None] end
  | q_pop :: ops => next (CompletionQueue.pop_front q) ops
  | q_clear :: ops => next (CompletionQueue.clear q) ops
  end.
Fixpoint run_list {A} (capacity : nat) (ops : list (queue_op A)) (l : list A) : list (option A) :=
  match ops with
  | [] => []
  | q_push a :: ops => if (length l =? capacity)%nat then [None] else run_list capacity ops (l ++ [a])
  | q_front :: ops => match l with a :: _ => Some a :: run_list capacity ops l | [] => [None] end
  | q_pop :: ops => match l with _ :: l => run_list capacity ops l | [] => [None] end
  | q_clear :: ops => run_list capacity ops []
  end.

(** The ring of completions is a bounded first-in first-out queue: any sequence of its
    operations returns what the same operations on a list return, and terminates the
    program exactly when the list is full or empty. *)
Theorem completion_queue_refines {A} capacity (ops : list (queue_op A)) : (0 < capacity)%nat ->
  run_queue ops (CompletionQueue.make capacity) = run_list capacity ops [].
Proof.
  intros Hc. assert (forall q l, CompletionQueue.holds q l -> length (CompletionQueue.slots q) = capacity -> run_queue ops q = run_list capacity ops l) as G.
  - induction ops as [|op ops IH]; intros q l Hq El; [done|]. destruct op as [a| | |]; cbn [run_queue run_list].
    + pose proof (CompletionQueue.push_holds q l a Hq) as P. rewrite El in P. destruct (_ =? _)%nat; [by rewrite P|]. destruct P as (q' & E & Hq'). rewrite E. apply IH; [done|].
      rewrite <-El. unfold CompletionQueue.push_back in E. repeat case_match; try done. injection E as <-. cbn. by rewrite length_insert.
    + rewrite (CompletionQueue.front_holds q l Hq). destruct l as [|a l]; [done|]. cbn. f_equal. by apply IH.
    + pose proof (CompletionQueue.pop_holds q l Hq) as P. destruct l as [|a l]; [by rewrite P|]. destruct P as (q' & E & Hq'). rewrite E. apply IH; [done|]. by rewrite (CompletionQueue.pop_slots _ _ E).
    + destruct (CompletionQueue.clear_holds l q Hq) as (q' & E & Hq'). rewrite E. apply IH; [done|]. by rewrite (CompletionQueue.clear_slots _ _ E).
  - apply G; [by apply CompletionQueue.holds_make|apply length_replicate].
Qed.
Lemma completion_queue_refines_witness : run_queue [q_push 1; q_push 2; q_pop; q_push 3; q_front; q_push 4] (CompletionQueue.make 2) = [Some 2; None].
Proof. rewrite (completion_queue_refines 2); [reflexivity|apply Nat.lt_0_2]. Defined.

(** A lane of two slots takes a request, answers it, and drains after a shutdown. *)
Definition every_id (id : Z) : bool := true.
Definition is_nine (id : Z) : bool := id =? 9.
Lemma lane_go capacity valid shutdown l r l' : lane_reachable capacity valid shutdown l -> lane_step capacity valid shutdown l r -> r = Some l' -> lane_reachable capacity valid shutdown l'.
Proof. intros Hr Hs ->. by eapply lr_step. Qed.
Local Ltac go R step := eapply lane_go in R; [|eapply step; first [done | lia | by left]|vm_compute; reflexivity].
Lemma drained_lane : exists l, lane_reachable 2 every_id is_nine l /\ ln_pc l = o_drained /\ ln_answered l = [7] /\ ln_dropped l = [] /\ ln_unread l = [7].
Proof.
  pose proof (lr_new 2 every_id is_nine) as R. unfold new_lane in R.
  go R (l_submit 2 every_id is_nine 7). go R l_top. go R l_start. go R (l_finish 2 every_id is_nine []). go R l_finished. go R l_submit_done. go R l_pump.
  go R (l_publish 2 every_id is_nine o_publish). go R l_published. go R l_shutdown. go R l_recheck. go R l_stopping. go R l_last_pump. go R l_last_published. go R l_empty.
  eexists. split; [exact R|]. by split_and!.
Qed.
Lemma lane_answers_every_request_witness : exists l, ln_pc l = o_drained /\ ln_taken l ≡ₚ [7] /\ ln_answered l = [7].
Proof.
  destruct drained_lane as (l & R & Ep & Ea & Ed & _).
  destruct (lane_answers_every_request 2 every_id is_nine l Nat.lt_0_2 R) as (_ & _ & H). destruct (H Ep) as [_ Hp]. rewrite Ea, Ed in Hp. exists l. exact (conj Ep (conj Hp Ea)).
Defined.
