(* ===== verification/ClientLane.v ===== *)
(** * The lanes of a client's session (class Session of Async/client.cpp)

    A call enters its lane from any worker: on the lane's owner it goes to the transport
    at once, from elsewhere through an inbox.  The poller of the lane submits, receives,
    and, when the session stops, fails what is left.  Blocking callers use a lane
    directly, under its transport gate.  Calls, poller, server and stops run in any
    interleaving of their accesses to what they share. *)

From stdpp Require Import base tactics numbers list gmap relations.
From Stdlib Require Import ZArith Lia.
From S2P Require Import Prelude.
Open Scope Z_scope.

(** ** State *)

(** Who sent a request: a suspended call, or a blocking caller. *)
Inductive origin := from_call (i : nat) | from_direct (i : nat).
#[export] Instance origin_eq_dec : EqDecision origin.
Proof. solve_decision. Defined.
(** How a call ends: with the reply to a request, or with an error. *)
Inductive outcome := r_reply (o : origin) | r_error.

(** Where a call is in [enqueue]. *)
Inductive phase :=
| ph_idle
| ph_counted              (** among the [active_submitters], before it looks at [accepting_] *)
| ph_numbered             (** has its request id *)
| ph_checked              (** off the owner: has seen [accepting_] again, its node is ready *)
| ph_decided              (** submitted, queued or failed; [finish_submit] is next *)
| ph_returned.
Record call := mk_call { ca_phase : phase; ca_id : option Z; ca_results : list outcome }.
Definition decided (c : call) : bool := match ca_phase c with ph_decided | ph_returned => true | _ => false end.

(** Where the poller is ([poll_lane_once]); [fifo]: the calls it has taken out of the inbox. *)
Inductive poll_pc :=
| y_top
| y_drain (fifo : list nat) | y_submit | y_receive
| y_check
| y_stop                  (** a stop was requested; [accepting_] is off *)
| y_stop_drain (fifo : list nat)
| y_maps | y_inbox | y_submitters  (** the parts of [lane_empty] *)
| y_drained.
Definition taken (pc : poll_pc) : list nat := match pc with y_drain fifo | y_stop_drain fifo => fifo | _ => [] end.

(** Where a blocking caller is ([rpc_header_direct_blocking]). *)
Inductive direct := d_idle | d_gate | d_sent (id : Z) | d_done (r : outcome).

(** [cl_next], [cl_transport_next]: the two counters of request ids.  [cl_wire]: requests on
    the way to the server and in it; [cl_arrived]: completions in the ring. *)
Record client := mk_client {
  cl_next : Z; cl_transport_next : Z; cl_calls : gmap nat call; cl_inbox : list nat; cl_pending : gmap Z nat; cl_outbound : list nat;
  cl_wire : list (Z * origin); cl_arrived : list (Z * origin); cl_submitters : Z; cl_accepting : bool; cl_stop : bool;
  cl_pc : poll_pc; cl_gate : bool; cl_directs : gmap nat direct;
}.
Definition set_next v (c : client) := let 'mk_client _ t ca i p o w a s ac st pc g d := c in mk_client v t ca i p o w a s ac st pc g d.
Definition set_transport_next v (c : client) := let 'mk_client n _ ca i p o w a s ac st pc g d := c in mk_client n v ca i p o w a s ac st pc g d.
Definition set_calls v (c : client) := let 'mk_client n t _ i p o w a s ac st pc g d := c in mk_client n t v i p o w a s ac st pc g d.
Definition set_inbox v (c : client) := let 'mk_client n t ca _ p o w a s ac st pc g d := c in mk_client n t ca v p o w a s ac st pc g d.
Definition set_pending v (c : client) := let 'mk_client n t ca i _ o w a s ac st pc g d := c in mk_client n t ca i v o w a s ac st pc g d.
Definition set_outbound v (c : client) := let 'mk_client n t ca i p _ w a s ac st pc g d := c in mk_client n t ca i p v w a s ac st pc g d.
Definition set_wire v (c : client) := let 'mk_client n t ca i p o _ a s ac st pc g d := c in mk_client n t ca i p o v a s ac st pc g d.
Definition set_arrived v (c : client) := let 'mk_client n t ca i p o w _ s ac st pc g d := c in mk_client n t ca i p o w v s ac st pc g d.
Definition set_submitters v (c : client) := let 'mk_client n t ca i p o w a _ ac st pc g d := c in mk_client n t ca i p o w a v ac st pc g d.
Definition set_accepting v (c : client) := let 'mk_client n t ca i p o w a s _ st pc g d := c in mk_client n t ca i p o w a s v st pc g d.
Definition set_stop v (c : client) := let 'mk_client n t ca i p o w a s ac _ pc g d := c in mk_client n t ca i p o w a s ac v pc g d.
Definition set_pc v (c : client) := let 'mk_client n t ca i p o w a s ac st _ g d := c in mk_client n t ca i p o w a s ac st v g d.
Definition set_gate v (c : client) := let 'mk_client n t ca i p o w a s ac st pc _ d := c in mk_client n t ca i p o w a s ac st pc v d.
Definition set_directs v (c : client) := let 'mk_client n t ca i p o w a s ac st pc g _ := c in mk_client n t ca i p o w a s ac st pc g v.
Definition put_call (i : nat) (k : call) (c : client) : client := set_calls (<[i := k]> (cl_calls c)) c.
Definition put_direct (i : nat) (d : direct) (c : client) : client := set_directs (<[i := d]> (cl_directs c)) c.

(** [finish_pending]; a call that is waiting gets its result. *)
Definition end_call (r : outcome) (k : call) : call := mk_call (ca_phase k) (ca_id k) (r :: ca_results k).
Definition finish_pending (i : nat) (r : outcome) (c : client) : client := set_calls (alter (end_call r) i (cl_calls c)) c.
(** [fail_lane] *)
Definition fail_lane (c : client) : client :=
  set_outbound [] (set_pending ∅ (foldr (fun i => finish_pending i r_error) c (map snd (map_to_list (cl_pending c))))).
Definition client_request_stop (c : client) : client := set_accepting false (set_stop true c).
Definition new_call : call := mk_call ph_idle None [].
Definition advance_call (ph : phase) (k : call) : call := mk_call ph (ca_id k) (ca_results k).
Definition number_call (id : Z) (k : call) : call := mk_call ph_numbered (Some id) (ca_results k).
(** [enqueue] returns false with an error. *)
Definition fail_call (k : call) : call := mk_call ph_decided (ca_id k) (r_error :: ca_results k).

(** ** Steps *)

Inductive client_step : client -> client -> Prop :=
(* a new call; its size is checked before anything else *)
| x_call c i : cl_calls c !! i = None -> client_step c (put_call i new_call c)
| x_too_large c i k : cl_calls c !! i = Some k -> ca_phase k = ph_idle -> client_step c (put_call i (advance_call ph_returned (fail_call k)) c)
(* [enqueue] *)
| x_enter c i k : cl_calls c !! i = Some k -> ca_phase k = ph_idle ->
    client_step c (put_call i (advance_call ph_counted k) (set_submitters (cl_submitters c + 1) c))
| x_refused c i k : cl_calls c !! i = Some k -> ca_phase k = ph_counted -> cl_accepting c = false -> client_step c (put_call i (fail_call k) c)
| x_number c i k : cl_calls c !! i = Some k -> ca_phase k = ph_counted -> cl_accepting c = true ->
    client_step c (put_call i (number_call (cl_next c) k) (set_next (cl_next c + 1) c))
(* on the owner, between two polls *)
| x_own_submit c i k id : cl_calls c !! i = Some k -> ca_phase k = ph_numbered -> ca_id k = Some id -> cl_pc c = y_top -> cl_pending c !! id = None ->
    client_step c (put_call i (advance_call ph_decided k) (set_wire (cl_wire c ++ [(id, from_call i)]) (set_pending (<[id := i]> (cl_pending c)) c)))
| x_own_wait c i k id : cl_calls c !! i = Some k -> ca_phase k = ph_numbered -> ca_id k = Some id -> cl_pc c = y_top -> cl_pending c !! id = None ->
    client_step c (put_call i (advance_call ph_decided k) (set_outbound (cl_outbound c ++ [i]) (set_pending (<[id := i]> (cl_pending c)) c)))
| x_own_error c i k : cl_calls c !! i = Some k -> ca_phase k = ph_numbered -> cl_pc c = y_top -> client_step c (put_call i (fail_call k) c)
(* elsewhere *)
| x_no_node c i k : cl_calls c !! i = Some k -> ca_phase k = ph_numbered -> client_step c (put_call i (fail_call k) c)
| x_recheck c i k : cl_calls c !! i = Some k -> ca_phase k = ph_numbered -> cl_accepting c = true -> client_step c (put_call i (advance_call ph_checked k) c)
| x_recheck_refused c i k : cl_calls c !! i = Some k -> ca_phase k = ph_numbered -> cl_accepting c = false -> client_step c (put_call i (fail_call k) c)
| x_push c i k : cl_calls c !! i = Some k -> ca_phase k = ph_checked -> client_step c (put_call i (advance_call ph_decided k) (set_inbox (i :: cl_inbox c) c))
(* [finish_submit] *)
| x_leave c i k : cl_calls c !! i = Some k -> ca_phase k = ph_decided ->
    client_step c (put_call i (advance_call ph_returned k) (set_submitters (cl_submitters c - 1) c))
(* [poll_lane_once]: the gate, and [drain_inbox] *)
| l_poll c : cl_pc c = y_top -> cl_gate c = false -> client_step c (set_pc (y_drain (reverse (cl_inbox c))) (set_gate true (set_inbox [] c)))
| l_drain_refused c i fifo : taken (cl_pc c) = i :: fifo -> cl_accepting c = false ->
    client_step c (finish_pending i r_error (set_pc (match cl_pc c with y_drain _ => y_drain fifo | _ => y_stop_drain fifo end) c))
| l_drain_insert c i k id fifo : cl_pc c = y_drain (i :: fifo) \/ cl_pc c = y_stop_drain (i :: fifo) -> cl_accepting c = true -> cl_calls c !! i = Some k -> ca_id k = Some id ->
    cl_pending c !! id = None ->
    client_step c (set_outbound (cl_outbound c ++ [i]) (set_pending (<[id := i]> (cl_pending c))
      (set_pc (match cl_pc c with y_drain _ => y_drain fifo | _ => y_stop_drain fifo end) c)))
| l_drain_error c i fifo : taken (cl_pc c) = i :: fifo ->
    client_step c (finish_pending i r_error (set_pc (match cl_pc c with y_drain _ => y_drain fifo | _ => y_stop_drain fifo end) c))
| l_drained_inbox c : cl_pc c = y_drain [] -> client_step c (set_pc y_submit c)
(* [pump_submissions] *)
| l_submit c i k id out : cl_pc c = y_submit -> cl_outbound c = i :: out -> cl_calls c !! i = Some k -> ca_id k = Some id ->
    client_step c (set_outbound out (set_wire (cl_wire c ++ [(id, from_call i)]) c))
| l_submit_error c i k id out : cl_pc c = y_submit -> cl_outbound c = i :: out -> cl_calls c !! i = Some k -> ca_id k = Some id ->
    client_step c (finish_pending i r_error (set_outbound out (set_pending (delete id (cl_pending c)) c)))
| l_submitted c : cl_pc c = y_submit -> client_step c (set_pc y_receive c)
(* [pump_completions] *)
| l_receive c id o i rest r : cl_pc c = y_receive -> cl_arrived c = (id, o) :: rest -> cl_pending c !! id = Some i -> r = r_reply o \/ r = r_error ->
    client_step c (finish_pending i r (set_pending (delete id (cl_pending c)) (set_arrived rest c)))
| l_unknown c id o rest : cl_pc c = y_receive -> cl_arrived c = (id, o) :: rest -> cl_pending c !! id = None -> client_step c (set_arrived rest c)
| l_receive_error c : cl_pc c = y_receive -> client_step c (set_pc y_check (set_stop true (fail_lane c)))
| l_received c : cl_pc c = y_receive -> client_step c (set_pc y_check c)
(* the peer has failed: one more look at the completions *)
| l_again c : cl_pc c = y_check -> client_step c (set_pc y_receive c)
(* a stop *)
| l_go_on c : cl_pc c = y_check -> cl_stop c = false -> client_step c (set_pc y_top (set_gate false c))
| l_stopping c : cl_pc c = y_check -> cl_stop c = true -> client_step c (set_pc y_stop (set_accepting false c))
| l_stop_drain c : cl_pc c = y_stop -> cl_submitters c = 0 ->
    client_step c (set_pc (y_stop_drain (reverse (cl_inbox c))) (set_inbox [] c))
| l_stop_wait c : cl_pc c = y_stop -> cl_submitters c <> 0 -> client_step c (set_pc y_maps c)
| l_stop_fail c : cl_pc c = y_stop_drain [] -> client_step c (set_pc y_maps (fail_lane c))
(* [lane_empty], in the order of its conditions *)
| l_maps c : cl_pc c = y_maps ->
    client_step c (if bool_decide (cl_pending c = ∅) && bool_decide (cl_outbound c = []) then set_pc y_inbox c else set_pc y_top (set_gate false c))
| l_inbox c : cl_pc c = y_inbox -> client_step c (if bool_decide (cl_inbox c = []) then set_pc y_submitters c else set_pc y_top (set_gate false c))
| l_submitters c : cl_pc c = y_submitters -> client_step c (if cl_submitters c =? 0 then set_pc y_drained (set_gate false c) else set_pc y_top (set_gate false c))
(* the server answers, in any order; a stop, its two stores *)
| z_answer c w1 m w2 : cl_wire c = w1 ++ m :: w2 -> client_step c (set_arrived (cl_arrived c ++ [m]) (set_wire (w1 ++ w2) c))
| z_stop c : client_step c (set_stop true c)
| z_close c : cl_stop c = true -> client_step c (set_accepting false c)
(* [rpc_header_direct_blocking]; it is an active submitter only while it holds the gate, when the poller does not look *)
| w_call c i : cl_directs c !! i = None -> client_step c (put_direct i d_idle c)
| w_gate c i : cl_directs c !! i = Some d_idle -> cl_gate c = false -> client_step c (put_direct i d_gate (set_gate true c))
| w_refused c i : cl_directs c !! i = Some d_idle \/ cl_directs c !! i = Some d_gate -> cl_accepting c = false ->
    client_step c (put_direct i (d_done r_error) (match cl_directs c !! i with Some d_gate => set_gate false c | _ => c end))
| w_send c i : cl_directs c !! i = Some d_gate -> cl_accepting c = true ->
    client_step c (put_direct i (d_sent (cl_transport_next c)) (set_transport_next (cl_transport_next c + 1)
      (set_wire (cl_wire c ++ [(cl_transport_next c, from_direct i)]) c)))
| w_receive c i id id' o rest : cl_directs c !! i = Some (d_sent id) -> cl_arrived c = (id', o) :: rest ->
    client_step c (put_direct i (d_done (if id' =? id then r_reply o else r_error)) (set_gate false (set_arrived rest c)))
| w_fails c i d : cl_directs c !! i = Some d -> d = d_gate \/ (exists id, d = d_sent id) -> client_step c (put_direct i (d_done r_error) (set_gate false c)).
Definition new_client : client := mk_client 1 1 ∅ [] ∅ [] [] [] 0 true false y_top false ∅.
Definition client_reachable (c : client) : Prop := rtc client_step new_client c.

(** ** Every call in one place *)

(** [held]: the calls in the inbox and in the poller's hands; [msgs]: requests and
    completions under way. *)
Record placed (next : Z) (calls : gmap nat call) (held : list nat) (pending : gmap Z nat) (out : list nat) (msgs : list (Z * origin)) : Prop := {
  v_nodup : NoDup held;
  v_held : forall i, i ∈ held -> exists k id, calls !! i = Some k /\ decided k = true /\ ca_results k = [] /\ ca_id k = Some id /\ pending !! id = None;
  v_pending : forall id i, pending !! id = Some i -> exists k, calls !! i = Some k /\ decided k = true /\ ca_results k = [] /\ ca_id k = Some id /\ i ∉ held;
  v_ids : forall i k id, calls !! i = Some k -> ca_id k = Some id -> id < next /\ forall j k', calls !! j = Some k' -> ca_id k' = Some id -> i = j;
  v_out_nodup : NoDup out;
  v_out : forall i, i ∈ out -> exists id, pending !! id = Some i;
  v_undecided : forall i k, calls !! i = Some k -> decided k = false -> ca_results k = [] /\ (ca_phase k = ph_numbered \/ ca_phase k = ph_checked -> exists id, ca_id k = Some id) /\
    (ca_phase k = ph_idle \/ ca_phase k = ph_counted -> ca_id k = None);
  v_once : forall i k, calls !! i = Some k -> (length (ca_results k) <= 1)%nat;
  v_waiting : forall i k, calls !! i = Some k -> decided k = true -> ca_results k = [] -> (i ∈ held) \/ exists id, pending !! id = Some i;
  v_sent : forall id o, (id, o) ∈ msgs -> exists i k, o = from_call i /\ calls !! i = Some k /\ decided k = true /\ ca_id k = Some id /\ (i ∉ held) /\ i ∉ out;
  v_own : forall i k o, calls !! i = Some k -> r_reply o ∈ ca_results k -> o = from_call i;
}.
Definition placed_in (c : client) : Prop :=
  placed (cl_next c) (cl_calls c) (cl_inbox c ++ taken (cl_pc c)) (cl_pending c) (cl_outbound c) (cl_wire c ++ cl_arrived c).

Lemma in_values (m : gmap Z nat) j : j ∈ map snd (map_to_list m) <-> exists id, m !! id = Some j.
Proof.
  rewrite list_elem_of_fmap. split.
  - intros ([id i] & -> & E%elem_of_map_to_list). by exists id.
  - intros (id & E). exists (id, j). split; [done|]. by apply elem_of_map_to_list.
Qed.
Section Placed.
Context (next : Z) (calls : gmap nat call) (held : list nat) (pending : gmap Z nat) (out : list nat) (msgs : list (Z * origin)) (P : placed next calls held pending out msgs).

Lemma placed_msgs msgs' : (forall m, m ∈ msgs' -> m ∈ msgs) -> placed next calls held pending out msgs'.
Proof using P. intros H. destruct P. split; try done. intros id o Hm. by apply v_sent0, H. Qed.
Lemma placed_held held' : held' ≡ₚ held -> placed next calls held' pending out msgs.
Proof using P.
  intros H. destruct P. split; try done.
  - by rewrite H.
  - intros i. rewrite H. apply v_held0.
  - intros id i Hp. destruct (v_pending0 id i Hp) as (k & ?). exists k. by rewrite H.
  - intros i k. rewrite H. apply v_waiting0.
  - intros id o Hm. destruct (v_sent0 id o Hm) as (i & k & ?). exists i, k. by rewrite H.
Qed.
(** A call that has no place yet stays so, or gets its id. *)
Lemma placed_early i k k' next' : calls !! i = Some k \/ calls !! i = None -> (calls !! i = Some k -> decided k = false) -> decided k' = false -> ca_results k' = [] -> next <= next' ->
  (ca_phase k' = ph_numbered \/ ca_phase k' = ph_checked -> exists id, ca_id k' = Some id) -> (ca_phase k' = ph_idle \/ ca_phase k' = ph_counted -> ca_id k' = None) ->
  (forall id, ca_id k' = Some id -> (calls !! i = Some k /\ ca_id k = Some id) \/ id = next /\ id < next') ->
  placed next' (<[i := k']> calls) held pending out msgs.
Proof using P.
  intros Hi Hd Hd' Hr Hn H1 H2 Hid.
  assert (forall j kj, calls !! j = Some kj -> decided kj = true -> i <> j) as Ne.
  { intros j kj Hj Hdj <-. destruct Hi as [E|E]; [|congruence]. specialize (Hd E). congruence. }
  destruct P. split; try done.
  - intros j Hj. destruct (v_held0 j Hj) as (kj & id & Ej & Dj & ?). exists kj, id. rewrite lookup_insert_ne by (by eapply Ne). done.
  - intros id j Hp. destruct (v_pending0 id j Hp) as (kj & Ej & Dj & ?). exists kj. rewrite lookup_insert_ne by (by eapply Ne). done.
  - intros j kj id. rewrite lookup_insert_Some. intros [[<- <-]|[N Ej]] Eid.
    + destruct (Hid id Eid) as [[Ek Eid']|[-> Hlt]].
      * destruct (v_ids0 i k id Ek Eid') as [B U]. split; [lia|]. intros j' k2. rewrite lookup_insert_Some. intros [[<- <-]|[N' Ej']] E2; [done|]. by eapply U.
      * split; [done|]. intros j' k2. rewrite lookup_insert_Some. intros [[<- <-]|[N' Ej']] E2; [done|]. destruct (v_ids0 j' k2 next Ej' E2) as [B _]. lia.
    + destruct (v_ids0 j kj id Ej Eid) as [B U]. split; [lia|]. intros j' k2. rewrite lookup_insert_Some. intros [[<- <-]|[N' Ej']] E2; [|by eapply U].
      destruct (Hid id E2) as [[Ek Eid']|[-> Hlt]]; [by eapply U|lia].
  - intros j kj. rewrite lookup_insert_Some. intros [[<- <-]|[N Ej]] Dj; [done|by eapply v_undecided0].
  - intros j kj. rewrite lookup_insert_Some. intros [[<- <-]|[N Ej]]; [rewrite Hr; cbn; lia|by eapply v_once0].
  - intros j kj. rewrite lookup_insert_Some. intros [[<- <-]|[N Ej]]; [congruence|by eapply v_waiting0].
  - intros id o Hm. destruct (v_sent0 id o Hm) as (j & kj & -> & Ej & Dj & ?). exists j, kj. rewrite lookup_insert_ne by (by eapply Ne). done.
  - intros j kj o. rewrite lookup_insert_Some. intros [[<- <-]|[N Ej]]; [rewrite Hr; by intros ?%not_elem_of_nil|by eapply v_own0].
Qed.
(** One call takes or leaves its place, or ends; the others stay. *)
Lemma placed_update i k k' held' pending' out' msgs' : calls !! i = Some k -> ca_id k' = ca_id k -> decided k' = true ->
  NoDup held' -> NoDup out' ->
  (forall j, j <> i -> j ∈ held' <-> j ∈ held) -> (forall id j, j <> i -> pending' !! id = Some j <-> pending !! id = Some j) -> (forall j, j <> i -> j ∈ out' <-> j ∈ out) ->
  (forall id o, (id, o) ∈ msgs' -> (id, o) ∈ msgs \/ o = from_call i /\ ca_id k = Some id) ->
  ((i ∈ held') -> ca_results k' = [] /\ exists id, ca_id k = Some id /\ pending' !! id = None) ->
  (forall id, pending' !! id = Some i -> ca_results k' = [] /\ ca_id k = Some id /\ i ∉ held') ->
  ((i ∈ out') -> exists id, pending' !! id = Some i) ->
  (ca_results k' = [] -> (i ∈ held') \/ exists id, pending' !! id = Some i) ->
  (length (ca_results k') <= 1)%nat -> (forall o, r_reply o ∈ ca_results k' -> o = from_call i) ->
  (forall id, (id, from_call i) ∈ msgs' -> (i ∉ held') /\ i ∉ out') ->
  placed next (<[i := k']> calls) held' pending' out' msgs'.
Proof using P.
  intros Hi Hid Hd Nh No Eh Ep Eo Em Ch Cp Co Cw C1 Cr Cs. destruct P.
  assert (forall j kj, <[i := k']> calls !! j = Some kj -> exists kj', calls !! j = Some kj' /\ ca_id kj' = ca_id kj) as Ids.
  { intros j kj. rewrite lookup_insert_Some. intros [[<- <-]|[_ E]]; [by exists k|by exists kj]. }
  split; try done.
  - intros j Hj. destruct (decide (j = i)) as [->|N].
    + destruct (Ch Hj) as (R & id & E & Ep'). exists k', id. rewrite lookup_insert_eq. rewrite <-Hid in E. done.
    + apply Eh in Hj; [|done]. destruct (v_held0 j Hj) as (kj & id & Ej & Dj & Rj & Idj & Pj). exists kj, id. rewrite lookup_insert_ne by done. split_and!; try done.
      destruct (pending' !! id) as [j'|] eqn:E'; [|done]. destruct (decide (j' = i)) as [->|N']; [|apply Ep in E'; [congruence|done]].
      destruct (Cp id E') as (_ & E2 & _). destruct (v_ids0 j kj id Ej Idj) as [_ U]. by destruct N; apply (U i k).
  - intros id j Hp. destruct (decide (j = i)) as [->|N].
    + destruct (Cp id Hp) as (R & E & H1). exists k'. rewrite lookup_insert_eq, Hid. done.
    + pose proof Hp as Hp'. apply Ep in Hp'; [|done]. destruct (v_pending0 id j Hp') as (kj & Ej & Dj & Rj & Idj & Nj). exists kj. rewrite lookup_insert_ne by done. by rewrite Eh.
  - intros j kj id Ej Eid. destruct (Ids j kj Ej) as (kj' & Ej' & E1). rewrite <-E1 in Eid. destruct (v_ids0 j kj' id Ej' Eid) as [B U]. split; [done|].
    intros j2 k2 E2 Eid2. destruct (Ids j2 k2 E2) as (k2' & E2' & E3). rewrite <-E3 in Eid2. by eapply U.
  - intros j Hj. destruct (decide (j = i)) as [->|N]; [by apply Co|]. apply Eo in Hj; [|done]. destruct (v_out0 j Hj) as (id & E). exists id. by apply Ep.
  - intros j kj. rewrite lookup_insert_Some. intros [[<- <-]|[N Ej]] Dj; [congruence|by eapply v_undecided0].
  - intros j kj. rewrite lookup_insert_Some. intros [[<- <-]|[N Ej]]; [done|by eapply v_once0].
  - intros j kj. rewrite lookup_insert_Some. intros [[<- <-]|[N Ej]] Dj Rj; [by apply Cw|]. destruct (v_waiting0 j kj Ej Dj Rj) as [H1|(id & H1)]; [left; by apply Eh|right; exists id; by apply Ep].
  - intros id o Hm. destruct (decide (o = from_call i)) as [->|N].
    + exists i, k'. rewrite lookup_insert_eq, Hid. destruct (Cs id Hm) as [H1 H2]. destruct (Em id _ Hm) as [H3|[_ H3]]; [|done].
      destruct (v_sent0 id _ H3) as (j & kj & [= <-] & Ej & _ & Idj & _). simplify_eq. done.
    + destruct (Em id o Hm) as [H3|[-> _]]; [|done]. destruct (v_sent0 id o H3) as (j & kj & -> & Ej & Dj & Idj & H1 & H2). assert (j <> i) as Nj by congruence.
      exists j, kj. rewrite lookup_insert_ne by done. by rewrite Eh, Eo.
  - intros j kj o. rewrite lookup_insert_Some. intros [[<- <-]|[N Ej]]; [apply Cr|by eapply v_own0].
Qed.
Lemma no_pending i k id : calls !! i = Some k -> ca_id k = Some id -> (forall id', pending !! id' <> Some i) -> pending !! id = None.
Proof using P.
  intros Hi Hid Hn. destruct (pending !! id) as [j|] eqn:E; [|done]. destruct P. destruct (v_pending0 id j E) as (kj & Ej & _ & _ & Idj & _).
  destruct (v_ids0 i k id Hi Hid) as [_ U]. rewrite (U j kj Ej Idj) in Hn. by destruct (Hn id).
Qed.
Lemma undecided_nowhere i k : calls !! i = Some k -> decided k = false -> (i ∉ held) /\ (i ∉ out) /\ (forall id, pending !! id <> Some i) /\ forall id, (id, from_call i) ∉ msgs.
Proof using P.
  intros Hi Hd. destruct P. assert (forall id, pending !! id <> Some i) as Hp by (intros id E; destruct (v_pending0 id i E) as (k' & ? & ? & _); congruence). split_and!; try done.
  - intros H1. destruct (v_held0 i H1) as (k' & id & ? & ? & _). congruence.
  - intros H1. destruct (v_out0 i H1) as (id & E). by destruct (Hp id).
  - intros id H1. destruct (v_sent0 id _ H1) as (j & k' & [= <-] & ? & ? & _). congruence.
Qed.
Lemma placed_fail i k k' : calls !! i = Some k -> decided k = false -> ca_id k' = ca_id k -> decided k' = true -> ca_results k' = [r_error] ->
  placed next (<[i := k']> calls) held pending out msgs.
Proof using P.
  intros Hi Hd Hid Hd' Hr. destruct (undecided_nowhere i k Hi Hd) as (N1 & N2 & N3 & N4). destruct P.
  apply (placed_update i k k'); try done; rewrite ?Hr; try done.
  - intros id o Hm. by left.
  - intros id E. by destruct (N3 id).
  - intros o. by rewrite list_elem_of_singleton.
Qed.
Lemma placed_return i k k' : calls !! i = Some k -> decided k = true -> ca_id k' = ca_id k -> decided k' = true -> ca_results k' = ca_results k ->
  placed next (<[i := k']> calls) held pending out msgs.
Proof using P.
  intros Hi Hd Hid Hd' Hr. pose proof P as P'. destruct P'. apply (placed_update i k k'); try done; rewrite ?Hr.
  - intros id o Hm. by left.
  - intros H1. destruct (v_held0 i H1) as (k2 & id & E & _ & R & Eid & Ep). simplify_eq. split; [done|]. by exists id.
  - intros id E. destruct (v_pending0 id i E) as (k2 & E2 & _ & R & Eid & N). simplify_eq. done.
  - by apply v_out0.
  - by apply (v_waiting0 i k Hi Hd).
  - by apply (v_once0 i k).
  - intros o. by apply (v_own0 i k).
  - intros id Hm. by destruct (v_sent0 id _ Hm) as (j & k2 & [= <-] & _ & _ & _ & ? & ?).
Qed.
Lemma placed_push i k k' : calls !! i = Some k -> decided k = false -> ca_phase k = ph_checked -> ca_id k' = ca_id k -> decided k' = true -> ca_results k' = ca_results k ->
  placed next (<[i := k']> calls) (i :: held) pending out msgs.
Proof using P.
  intros Hi Hd Hph Hid Hd' Hr. destruct (undecided_nowhere i k Hi Hd) as (N1 & N2 & N3 & N4). pose proof P as P'. destruct P'. destruct (v_undecided0 i k Hi Hd) as (R & Hnum & _).
  destruct Hnum as [id Eid]; [by right|]. apply (placed_update i k k'); try done; rewrite ?Hr, ?R.
  - by apply NoDup_cons.
  - intros j Nj. rewrite elem_of_cons. naive_solver.
  - intros id' o Hm. by left.
  - intros _. split; [done|]. exists id. split; [done|]. by eapply no_pending.
  - intros id' E. by destruct (N3 id').
  - intros _. left. apply elem_of_cons. by left.
  - cbn. lia.
  - intros o E. by apply not_elem_of_nil in E.
  - intros id' Hm. by destruct (N4 id').
Qed.
Lemma placed_own i k k' id out' msgs' : calls !! i = Some k -> decided k = false -> ca_id k = Some id -> ca_id k' = ca_id k -> decided k' = true -> ca_results k' = ca_results k ->
  (out' = out ++ [i] /\ msgs' = msgs) \/ (out' = out /\ forall m, m ∈ msgs' -> m ∈ msgs \/ m = (id, from_call i)) ->
  placed next (<[i := k']> calls) held (<[id := i]> pending) out' msgs'.
Proof using P.
  intros Hi Hd Eid Hid Hd' Hr Hcase. destruct (undecided_nowhere i k Hi Hd) as (N1 & N2 & N3 & N4). pose proof P as P'. destruct P'. destruct (v_undecided0 i k Hi Hd) as (R & _ & _).
  assert (pending !! id = None) as Hnone by (by eapply no_pending).
  apply (placed_update i k k'); try done; rewrite ?Hr, ?R.
  - destruct Hcase as [[-> _]|[-> _]]; [|done]. apply NoDup_app. split; [done|]. split; [|by apply NoDup_singleton]. intros x Hx E%list_elem_of_singleton. by subst.
  - intros id' j Nj. rewrite lookup_insert_Some. split; [naive_solver|]. intros E. right. split; [|done]. intros <-. congruence.
  - intros j Nj. destruct Hcase as [[-> _]|[-> _]]; [|done]. rewrite elem_of_app, list_elem_of_singleton. naive_solver.
  - intros id' o Hm. destruct Hcase as [[_ ->]|[_ H1]]; [by left|]. destruct (H1 _ Hm) as [|E]; [by left|]. right. by simplify_eq.
  - intros id' E. apply lookup_insert_Some in E as [[<- _]|[_ E]]; [done|by destruct (N3 id')].
  - intros _. exists id. apply lookup_insert_eq.
  - intros _. right. exists id. apply lookup_insert_eq.
  - cbn. lia.
  - intros o E. by apply not_elem_of_nil in E.
  - intros id' Hm. split; [done|]. destruct Hcase as [[-> ->]|[-> H1]]; [by destruct (N4 id')|done].
Qed.
Lemma placed_end_held i h : held ≡ₚ i :: h -> exists k, calls !! i = Some k /\ placed next (<[i := end_call r_error k]> calls) h pending out msgs.
Proof using P.
  intros Hh. pose proof P as P'. destruct P'. assert (i ∈ held) as Hin by (rewrite Hh; apply elem_of_cons; by left). destruct (v_held0 i Hin) as (k & id & Hi & Hd & R & Eid & Ep).
  assert (NoDup (i :: h)) as [Ni Nh]%NoDup_cons by (by rewrite <-Hh). exists k. split; [done|].
  assert (forall id', pending !! id' <> Some i) as Np by (intros id' E; destruct (v_pending0 id' i E) as (_ & _ & _ & _ & _ & N); done).
  apply (placed_update i k (end_call r_error k)); try done; cbn [end_call ca_results]; rewrite ?R.
  - intros j Nj. rewrite Hh, elem_of_cons. naive_solver.
  - intros id' o Hm. by left.
  - intros id' E. by destruct (Np id').
  - by apply v_out0.
  - cbn. lia.
  - intros o. by rewrite list_elem_of_singleton.
  - intros id' Hm. destruct (v_sent0 id' _ Hm) as (j & k2 & [= <-] & _ & _ & _ & ? & ?). done.
Qed.
Lemma placed_end_pending id i r out' msgs' : pending !! id = Some i -> NoDup out' -> i ∉ out' -> (forall j, j <> i -> j ∈ out' <-> j ∈ out) -> (forall m, m ∈ msgs' -> m ∈ msgs) ->
  r = r_error \/ r = r_reply (from_call i) ->
  exists k, calls !! i = Some k /\ placed next (<[i := end_call r k]> calls) held (delete id pending) out' msgs'.
Proof using P.
  intros Hp No Ni Eo Em Hr. pose proof P as P'. destruct P'. destruct (v_pending0 id i Hp) as (k & Hi & Hd & R & Eid & Nh). exists k. split; [done|].
  assert (forall id', delete id pending !! id' <> Some i) as Np.
  { intros id' [N E]%lookup_delete_Some. destruct (v_pending0 id' i E) as (k2 & E2 & _ & _ & Eid2 & _). simplify_eq. }
  apply (placed_update i k (end_call r k)); try done; cbn [end_call ca_results]; rewrite ?R.
  - intros id' j Nj. rewrite lookup_delete_Some. split; [naive_solver|]. intros E. split; [|done]. intros <-. congruence.
  - intros id' o Hm. left. by apply Em.
  - intros id' E. by destruct (Np id').
  - cbn. lia.
  - intros o. rewrite list_elem_of_singleton. destruct Hr as [-> | ->]; [done|]. by intros [= ->].
Qed.
Lemma placed_same i k held' pending' out' msgs' : calls !! i = Some k -> placed next (<[i := k]> calls) held' pending' out' msgs' -> placed next calls held' pending' out' msgs'.
Proof. intros Hi. by rewrite insert_id. Qed.
Lemma placed_move i k id h : held ≡ₚ i :: h -> calls !! i = Some k -> ca_id k = Some id -> placed next calls h (<[id := i]> pending) (out ++ [i]) msgs.
Proof using P.
  intros Hh Hi Eid. pose proof P as P'. destruct P'. assert (i ∈ held) as Hin by (rewrite Hh; apply elem_of_cons; by left). destruct (v_held0 i Hin) as (k2 & id2 & Hi2 & Hd & R & Eid2 & Ep).
  simplify_eq. assert (NoDup (i :: h)) as [Ni Nh]%NoDup_cons by (by rewrite <-Hh).
  assert (forall id', pending !! id' <> Some i) as Np by (intros id' E; destruct (v_pending0 id' i E) as (_ & _ & _ & _ & _ & N); done).
  assert (i ∉ out) as Nout by (intros H1; destruct (v_out0 i H1) as (id' & E); by destruct (Np id')).
  apply (placed_same i k); [done|]. apply (placed_update i k k); try done.
  - apply NoDup_app. split; [done|]. split; [|by apply NoDup_singleton]. intros x Hx E%list_elem_of_singleton. by subst.
  - intros j Nj. rewrite Hh, elem_of_cons. naive_solver.
  - intros id' j Nj. rewrite lookup_insert_Some. split; [naive_solver|]. intros E. right. split; [|done]. intros <-. congruence.
  - intros j Nj. rewrite elem_of_app, list_elem_of_singleton. naive_solver.
  - intros id' o Hm. by left.
  - intros id' E. apply lookup_insert_Some in E as [[<- _]|[_ E]]; [done|by destruct (Np id')].
  - intros _. exists id. apply lookup_insert_eq.
  - intros _. right. exists id. apply lookup_insert_eq.
  - rewrite R. cbn. lia.
  - intros o. rewrite R. intros E. by apply not_elem_of_nil in E.
  - intros id' Hm. by destruct (v_sent0 id' _ Hm) as (j & k3 & [= <-] & _ & _ & _ & ? & ?).
Qed.
Lemma placed_send i k id out' msgs' : out = i :: out' -> calls !! i = Some k -> ca_id k = Some id -> (forall m, m ∈ msgs' -> m ∈ msgs \/ m = (id, from_call i)) ->
  placed next calls held pending out' msgs'.
Proof using P.
  intros Ho Hi Eid Em. pose proof P as P'. destruct P'. assert (i ∈ out) as Hin by (rewrite Ho; apply elem_of_cons; by left). destruct (v_out0 i Hin) as (id2 & Ep).
  destruct (v_pending0 id2 i Ep) as (k2 & Hi2 & Hd & R & Eid2 & Nh).
  assert (k2 = k) as -> by congruence. assert (id2 = id) as -> by congruence. rewrite Ho in v_out_nodup0. apply NoDup_cons in v_out_nodup0 as [Ni No].
  apply (placed_same i k); [done|]. apply (placed_update i k k); try done.
  - intros j Nj. rewrite Ho, elem_of_cons. naive_solver.
  - intros id' o Hm. destruct (Em _ Hm) as [|E]; [by left|]. right. by injection E as -> ->.
  - intros id' E. destruct (v_pending0 id' i E) as (k3 & E3 & _ & _ & Eid3 & _). split; [done|]. split; [congruence|done].
  - intros _. right. by exists id.
  - rewrite R. cbn. lia.
  - intros o. rewrite R. intros E. by apply not_elem_of_nil in E.
Qed.
Lemma placed_failed calls' : (forall j, calls' !! j = if decide (j ∈ map snd (map_to_list pending)) then end_call r_error <$> calls !! j else calls !! j) ->
  placed next calls' held ∅ [] msgs.
Proof using P.
  intros Hc. pose proof P as P'. destruct P'.
  assert (forall j k', calls' !! j = Some k' -> exists k, calls !! j = Some k /\ ca_id k' = ca_id k /\ decided k' = decided k /\ ca_phase k' = ca_phase k /\
    ((exists id, pending !! id = Some j) /\ ca_results k' = r_error :: ca_results k \/ ~ (exists id, pending !! id = Some j) /\ ca_results k' = ca_results k)) as Back.
  { intros j k'. rewrite Hc. destruct (decide _) as [E%in_values|N]; [|rewrite in_values in N; intros; exists k'; by auto 10]. destruct (calls !! j) as [k|]; [|done]. intros [= <-]. exists k. by auto 10. }
  assert (forall j k, calls !! j = Some k -> ~ (exists id, pending !! id = Some j) -> calls' !! j = Some k) as Keep by (intros j k E N; rewrite Hc, <- in_values in *; by destruct (decide _)).
  split; try done.
  - intros i Hi. destruct (v_held0 i Hi) as (k & id & E & D & R & Eid & Ep). exists k, id. split_and!; try done. apply Keep; [done|].
    intros (id' & E'). by destruct (v_pending0 id' i E') as (_ & _ & _ & _ & _ & N).
  - intros i k id E Eid. destruct (Back i k E) as (k0 & E0 & Ei & _). rewrite Ei in Eid. destruct (v_ids0 i k0 id E0 Eid) as [B U]. split; [done|].
    intros j k' E' Eid'. destruct (Back j k' E') as (k1 & E1 & Ei1 & _). rewrite Ei1 in Eid'. by eapply U.
  - constructor.
  - intros i Hi. by apply not_elem_of_nil in Hi.
  - intros i k E D. destruct (Back i k E) as (k0 & E0 & Ei & Ed & Eph & Hr). rewrite Ed in D. destruct (v_undecided0 i k0 E0 D) as (R & A & B). rewrite Eph, Ei. split_and!; try done.
    destruct Hr as [[(id & Ep) _]|[_ ->]]; [|done]. destruct (v_pending0 id i Ep) as (k2 & E2 & D2 & _). congruence.
  - intros i k E. destruct (Back i k E) as (k0 & E0 & _ & _ & _ & [[(id & Ep) ->]|[_ ->]]); [|by eapply v_once0].
    destruct (v_pending0 id i Ep) as (k2 & E2 & _ & R2 & _). simplify_eq. rewrite R2. cbn. lia.
  - intros i k E D R. destruct (Back i k E) as (k0 & E0 & _ & Ed & _ & [[_ E']|[N E']]); rewrite E' in R; [done|]. rewrite Ed in D.
    destruct (v_waiting0 i k0 E0 D R) as [|H1]; [by left|done].
  - intros id o Hm. destruct (v_sent0 id o Hm) as (i & k & -> & E & D & Eid & H1 & H2). exists i. pose proof (Hc i) as Hci. destruct (decide _) as [E'|N'].
    + rewrite E in Hci. exists (end_call r_error k). split_and!; try done. apply not_elem_of_nil.
    + exists k. rewrite Hci. split_and!; try done. apply not_elem_of_nil.
  - intros i k o E. destruct (Back i k E) as (k0 & E0 & _ & _ & _ & [[_ ->]|[_ ->]]); [|by eapply v_own0]. rewrite elem_of_cons. intros [|H1]; [done|by eapply v_own0].
Qed.
End Placed.
Lemma alter_some (f : call -> call) i (m : gmap nat call) k : m !! i = Some k -> alter f i m = <[i := f k]> m.
Proof.
  intros E. apply map_eq. intros j. destruct (decide (j = i)) as [->|N]; [by rewrite lookup_alter_eq, E, lookup_insert_eq|by rewrite lookup_alter_ne, lookup_insert_ne].
Qed.
Lemma fold_finish l : forall c, foldr (fun i => finish_pending i r_error) c l = set_calls (foldr (alter (end_call r_error)) (cl_calls c) l) c.
Proof. induction l as [|i l IH]; intros c; cbn [foldr]; [by destruct c|]. rewrite IH. by destruct c. Qed.
Lemma fold_alter (f : call -> call) (m : gmap nat call) l : NoDup l -> forall j, foldr (alter f) m l !! j = if decide (j ∈ l) then f <$> m !! j else m !! j.
Proof.
  induction 1 as [|i l Ni _ IH]; intros j; cbn [foldr]; [destruct (decide _) as [E|]; [by apply not_elem_of_nil in E|done]|].
  destruct (decide (j = i)) as [->|N].
  - rewrite lookup_alter_eq, IH. destruct (decide (i ∈ l)) as [|_]; [done|]. destruct (decide (i ∈ i :: l)) as [|N]; [done|]. destruct N. apply elem_of_cons. by left.
  - rewrite lookup_alter_ne, IH by done. destruct (decide (j ∈ l)) as [E|E], (decide (j ∈ i :: l)) as [E'|E']; try done.
    + destruct E'. apply elem_of_cons. by right.
    + by apply elem_of_cons in E' as [|].
Qed.
Lemma placed_fail_lane c : placed_in c -> placed_in (fail_lane c).
Proof.
  intros P. unfold fail_lane. rewrite fold_finish. assert (NoDup (map snd (map_to_list (cl_pending c)))) as ND.
  { apply NoDup_fmap_2_strong; [|apply NoDup_map_to_list]. intros [id1 i] [id2 j] E1%elem_of_map_to_list E2%elem_of_map_to_list. cbn. intros <-.
    destruct P. destruct (v_pending0 id1 i E1) as (k1 & K1 & _ & _ & I1 & _), (v_pending0 id2 i E2) as (k2 & K2 & _ & _ & I2 & _). by simplify_eq. }
  pose proof (placed_failed _ _ _ _ _ _ P (foldr (alter (end_call r_error)) (cl_calls c) (map snd (map_to_list (cl_pending c))))) as Q.
  assert (forall j, foldr (alter (end_call r_error)) (cl_calls c) (map snd (map_to_list (cl_pending c))) !! j =
    if decide (j ∈ map snd (map_to_list (cl_pending c))) then end_call r_error <$> cl_calls c !! j else cl_calls c !! j) as E.
  { intros j. rewrite (fold_alter _ _ _ ND). done. }
  specialize (Q E). destruct c. exact Q.
Qed.
(** A call found in [enqueue] before its place is decided. *)
Lemma undecided_phase k : ca_phase k = ph_idle \/ ca_phase k = ph_counted \/ ca_phase k = ph_numbered \/ ca_phase k = ph_checked -> decided k = false.
Proof. unfold decided. by intros [-> |[-> |[-> | ->]]]. Qed.
Lemma placed_failing c i k k' : placed_in c -> cl_calls c !! i = Some k -> decided k = false -> ca_id k' = ca_id k -> decided k' = true -> ca_results k' = r_error :: ca_results k ->
  placed_in (put_call i k' c).
Proof.
  intros P Hi Hd Eid Hd' Er. pose proof (v_undecided _ _ _ _ _ _ P i k Hi Hd) as [R _]. rewrite R in Er.
  pose proof (placed_fail _ _ _ _ _ _ P i k k' Hi Hd Eid Hd' Er) as Q. destruct c. exact Q.
Qed.
Lemma placed_drain_error c i fifo : placed_in c -> taken (cl_pc c) = i :: fifo ->
  placed_in (finish_pending i r_error (set_pc (match cl_pc c with y_drain _ => y_drain fifo | _ => y_stop_drain fifo end) c)).
Proof.
  intros P Ht. destruct (placed_end_held _ _ _ _ _ _ P i (cl_inbox c ++ fifo)) as (k & Hi & Q); [rewrite Ht; symmetry; apply Permutation_middle|].
  destruct c as [n t ca ib p o w a s ac st pc g d]. unfold placed_in, finish_pending in *. cbn in *. rewrite (alter_some _ _ _ _ Hi). by destruct pc.
Qed.
Lemma placed_place c i k k' id out' wire' : placed_in c -> cl_calls c !! i = Some k -> ca_phase k = ph_numbered -> ca_id k = Some id ->
  k' = advance_call ph_decided k -> (out' = cl_outbound c ++ [i] /\ wire' = cl_wire c) \/ (out' = cl_outbound c /\ wire' = cl_wire c ++ [(id, from_call i)]) ->
  placed (cl_next c) (<[i := k']> (cl_calls c)) (cl_inbox c ++ taken (cl_pc c)) (<[id := i]> (cl_pending c)) out' (wire' ++ cl_arrived c).
Proof.
  intros P Hi Hph Eid -> Hcase. eapply (placed_own _ _ _ _ _ _ P i k); try done; [apply undecided_phase; auto|].
  destruct Hcase as [[-> ->]|[-> ->]]; [by left|]. right. split; [done|]. intros m. rewrite !elem_of_app, list_elem_of_singleton. tauto.
Qed.
(** A step that changes nothing [placed_in] speaks of. *)
Lemma placed_frame c c' : placed_in c -> cl_next c' = cl_next c -> cl_calls c' = cl_calls c -> cl_inbox c' ++ taken (cl_pc c') ≡ₚ cl_inbox c ++ taken (cl_pc c) ->
  cl_pending c' = cl_pending c -> cl_outbound c' = cl_outbound c -> (forall m, m ∈ cl_wire c' ++ cl_arrived c' -> m ∈ cl_wire c ++ cl_arrived c) -> placed_in c'.
Proof.
  intros P E1 E2 E3 E4 E5 E6. unfold placed_in. rewrite E1, E2, E4, E5. apply (placed_msgs _ _ _ _ _ (cl_wire c ++ cl_arrived c)); [|done].
  by eapply placed_held.
Qed.
Lemma placed_receive c id o i rest r : placed_in c -> cl_arrived c = (id, o) :: rest -> cl_pending c !! id = Some i -> r = r_reply o \/ r = r_error ->
  placed_in (finish_pending i r (set_pending (delete id (cl_pending c)) (set_arrived rest c))).
Proof.
  intros P Ha Hp Hr. assert ((id, o) ∈ cl_wire c ++ cl_arrived c) as Hm by (rewrite Ha; apply elem_of_app; right; apply elem_of_cons; by left).
  destruct (v_sent _ _ _ _ _ _ P id o Hm) as (j & kj & -> & Hj & _ & Idj & _ & No). destruct (v_pending _ _ _ _ _ _ P id i Hp) as (ki & Hi & _ & _ & Idi & _).
  destruct (v_ids _ _ _ _ _ _ P i ki id Hi Idi) as [_ U]. pose proof (U j kj Hj Idj) as <-.
  destruct (placed_end_pending _ _ _ _ _ _ P id i r (cl_outbound c) (cl_wire c ++ rest)) as (k & Hk & Q); try done.
  - by destruct P.
  - intros m. rewrite Ha, !elem_of_app, elem_of_cons. tauto.
  - destruct Hr as [-> | ->]; auto.
  - destruct c. unfold placed_in, finish_pending in *. cbn in *. by rewrite (alter_some _ _ _ _ Hk).
Qed.
Lemma placed_submit_error c i k id out : placed_in c -> cl_outbound c = i :: out -> cl_calls c !! i = Some k -> ca_id k = Some id ->
  placed_in (finish_pending i r_error (set_outbound out (set_pending (delete id (cl_pending c)) c))).
Proof.
  intros P Ho Hi Eid. assert (i ∈ cl_outbound c) as Hin by (rewrite Ho; apply elem_of_cons; by left). destruct (v_out _ _ _ _ _ _ P i Hin) as (id2 & Ep).
  destruct (v_pending _ _ _ _ _ _ P id2 i Ep) as (k2 & Hi2 & _ & _ & Eid2 & _). assert (k2 = k) as -> by congruence. assert (id2 = id) as -> by congruence.
  pose proof (v_out_nodup _ _ _ _ _ _ P) as ND. rewrite Ho in ND. apply NoDup_cons in ND as [Ni No].
  destruct (placed_end_pending _ _ _ _ _ _ P id i r_error out (cl_wire c ++ cl_arrived c)) as (k2 & Hk & Q); try done.
  - intros j Nj. rewrite Ho, elem_of_cons. naive_solver.
  - by left.
  - destruct c. unfold placed_in, finish_pending in *. cbn in *. by rewrite (alter_some _ _ _ _ Hk).
Qed.
Lemma placed_insert c i k id fifo : placed_in c -> cl_pc c = y_drain (i :: fifo) \/ cl_pc c = y_stop_drain (i :: fifo) -> cl_calls c !! i = Some k -> ca_id k = Some id ->
  placed_in (set_outbound (cl_outbound c ++ [i]) (set_pending (<[id := i]> (cl_pending c))
    (set_pc (match cl_pc c with y_drain _ => y_drain fifo | _ => y_stop_drain fifo end) c))).
Proof.
  intros P Hpc Hi Eid. pose proof (placed_move _ _ _ _ _ _ P i k id (cl_inbox c ++ fifo)) as Q.
  assert (cl_inbox c ++ taken (cl_pc c) ≡ₚ i :: cl_inbox c ++ fifo) as E by (destruct Hpc as [-> | ->]; cbn; symmetry; apply Permutation_middle).
  specialize (Q E Hi Eid). destruct c. unfold placed_in in *. cbn in *. by destruct Hpc as [-> | ->].
Qed.
Lemma placed_early_in c i k k' next' : placed_in c -> cl_calls c !! i = Some k -> decided k = false -> decided k' = false -> ca_results k' = ca_results k ->
  (ca_id k' = ca_id k /\ next' = cl_next c \/ ca_id k' = Some (cl_next c) /\ next' = cl_next c + 1 /\ ca_phase k' = ph_numbered) ->
  (ca_phase k' = ph_checked -> ca_phase k = ph_numbered) -> (ca_phase k' = ph_counted -> ca_phase k = ph_idle) -> (ca_phase k' = ph_numbered -> ca_id k' <> None) ->
  ca_phase k' <> ph_idle ->
  placed_in (put_call i k' (set_next next' c)).
Proof.
  intros P Hi Hd Hd' Er Hid H1 H2 H3 H4. pose proof (v_undecided _ _ _ _ _ _ P i k Hi Hd) as (R & N1 & N2).
  pose proof (placed_early _ _ _ _ _ _ P i k k' next') as Q. destruct c. apply Q; cbn in *; auto.
  - congruence.
  - lia.
  - intros [E|E]; [destruct (ca_id k') as [z|]; [by exists z|by destruct (H3 E)]|]. destruct Hid as [[-> _]|(_ & _ & E')]; [|congruence]. by apply N1; left; apply H1.
  - intros [E|E]; [done|]. destruct Hid as [[-> _]|(_ & _ & E')]; [|congruence]. by apply N2; left; apply H2.
  - intros id E. destruct Hid as [[E' ->]|(E' & -> & _)]; [left; split; congruence|right; split; [congruence|]]. rewrite E' in E. injection E as <-. lia.
Qed.
(** A step that moves flags, or the poller between two points where it holds no call. *)
Ltac quiet P := destruct_or?; repeat case_match; match type of P with placed_in ?c => destruct c end; unfold placed_in in *; cbn in *; subst; exact P.
Lemma placed_take c c' : placed_in c -> taken (cl_pc c) = [] -> cl_inbox c' = [] -> taken (cl_pc c') = reverse (cl_inbox c) -> cl_next c' = cl_next c -> cl_calls c' = cl_calls c ->
  cl_pending c' = cl_pending c -> cl_outbound c' = cl_outbound c -> cl_wire c' = cl_wire c -> cl_arrived c' = cl_arrived c -> placed_in c'.
Proof.
  intros P E1 E2 E3 E4 E5 E6 E7 E8 E9. apply (placed_frame c); try done; [|by rewrite E8, E9]. rewrite E1, E2, E3, app_nil_r. cbn. apply reverse_Permutation.
Qed.
Lemma placed_new c i : placed_in c -> cl_calls c !! i = None -> placed_in (put_call i new_call c).
Proof.
  intros P Hi. pose proof (placed_early _ _ _ _ _ _ P i new_call new_call (cl_next c)) as Q. destruct c. apply Q; cbn; auto; try done. by intros [|].
Qed.
Lemma placed_answer c w1 m w2 : placed_in c -> cl_wire c = w1 ++ m :: w2 -> placed_in (set_arrived (cl_arrived c ++ [m]) (set_wire (w1 ++ w2) c)).
Proof.
  intros P Hw. apply (placed_frame c); try done; destruct c; cbn in *; try done. intros x. subst. rewrite !elem_of_app, !elem_of_cons, elem_of_nil. tauto.
Qed.
Lemma placed_step c c' : cl_directs c' = ∅ -> placed_in c -> client_step c c' -> placed_in c'.
Proof.
  intros Hd P S. destruct S as [c i E|c i k E Eph|c i k E Eph|c i k E Eph Ea|c i k E Eph Ea|c i k id E Eph Eid Epc Ep|c i k id E Eph Eid Epc Ep|c i k E Eph Epc|c i k E Eph|
    c i k E Eph Ea|c i k E Eph Ea|c i k E Eph|c i k E Eph|c Epc Eg|c i fifo Et Ea|c i k id fifo Epc Ea E Eid Ep|c i fifo Et|c Epc|c i k id out Epc Eo E Eid|c i k id out Epc Eo E Eid|c Epc|
    c id o i rest r Epc Ea Ep Er|c id o rest Epc Ea Ep|c Epc|c Epc|c Epc|c Epc Es|c Epc Es|c Epc Es|c Epc Es|c Epc|c Epc|c Epc|c Epc|c w1 m w2 Ew|c|c Es| | | | | |].
  all: try (exfalso; revert Hd; destruct c; apply insert_non_empty).
  - by apply placed_new.
  - apply (placed_failing c i k); try done. apply undecided_phase; auto.
  - pose proof (placed_early_in c i k (advance_call ph_counted k) (cl_next c) P E) as Q. destruct c. apply Q; try done; [apply undecided_phase; auto|by left].
  - apply (placed_failing c i k); try done. apply undecided_phase; auto.
  - pose proof (placed_early_in c i k (number_call (cl_next c) k) (cl_next c + 1) P E) as Q. apply Q; try done; [apply undecided_phase; auto|by right].
  - eapply placed_place in P; try done; [|right; by split]. destruct c. exact P.
  - eapply placed_place in P; try done; [|left; by split]. destruct c. exact P.
  - apply (placed_failing c i k); try done. apply undecided_phase; auto.
  - apply (placed_failing c i k); try done. apply undecided_phase; auto.
  - pose proof (placed_early_in c i k (advance_call ph_checked k) (cl_next c) P E) as Q. destruct c. apply Q; try done; [apply undecided_phase; auto|by left].
  - apply (placed_failing c i k); try done. apply undecided_phase; auto.
  - pose proof (placed_push _ _ _ _ _ _ P i k (advance_call ph_decided k) E) as Q. destruct c. apply Q; try done. apply undecided_phase; auto.
  - pose proof (placed_return _ _ _ _ _ _ P i k (advance_call ph_returned k) E) as Q. destruct c. apply Q; try done. unfold decided. by rewrite Eph.
  - apply (placed_take c); try done; destruct c; cbn in *; by subst.
  - by apply placed_drain_error.
  - by eapply placed_insert.
  - by apply placed_drain_error.
  - quiet P.
  - pose proof (placed_send _ _ _ _ _ _ P i k id out (cl_wire c ++ [(id, from_call i)] ++ cl_arrived c) Eo E Eid) as Q. destruct c. cbn in *. unfold placed_in. cbn. rewrite <-app_assoc.
    apply Q. intros m. rewrite !elem_of_app, !elem_of_cons. tauto.
  - by eapply placed_submit_error.
  - quiet P.
  - by eapply placed_receive.
  - apply (placed_frame c); try done; destruct c; cbn in *; try done. intros m. subst. rewrite !elem_of_app, elem_of_cons. tauto.
  - apply placed_fail_lane in P. destruct c. unfold placed_in, fail_lane in *. rewrite fold_finish in *. cbn in *. subst. exact P.
  - quiet P.
  - quiet P.
  - quiet P.
  - quiet P.
  - apply (placed_take c); try done; destruct c; cbn in *; by subst.
  - quiet P.
  - apply placed_fail_lane in P. destruct c. unfold placed_in, fail_lane in *. rewrite fold_finish in *. cbn in *. subst. exact P.
  - quiet P.
  - quiet P.
  - quiet P.
  - by apply placed_answer.
  - quiet P.
  - quiet P.
  - exfalso. revert Hd. repeat case_match; destruct c; apply insert_non_empty.
Qed.
(** A request that waits for its reply has not been forgotten on the way. *)
Definition followed (c : client) : Prop :=
  forall id i, cl_pending c !! id = Some i -> (i ∈ cl_outbound c) \/ (id, from_call i) ∈ cl_wire c ++ cl_arrived c.
Lemma pending_id c i k id id' : placed_in c -> cl_calls c !! i = Some k -> ca_id k = Some id -> cl_pending c !! id' = Some i -> id' = id.
Proof. intros P E Eid Ep. destruct (v_pending _ _ _ _ _ _ P id' i Ep) as (k' & E' & _ & _ & Eid' & _). congruence. Qed.
Lemma fail_lane_pending c : cl_pending (fail_lane c) = ∅.
Proof. unfold fail_lane. rewrite fold_finish. by destruct c. Qed.
Lemma followed_step c c' : cl_directs c' = ∅ -> placed_in c -> followed c -> client_step c c' -> followed c'.
Proof.
  intros Hd P F S. destruct S as [c i E|c i k E Eph|c i k E Eph|c i k E Eph Ea|c i k E Eph Ea|c i k id E Eph Eid Epc Ep|c i k id E Eph Eid Epc Ep|c i k E Eph Epc|c i k E Eph|
    c i k E Eph Ea|c i k E Eph Ea|c i k E Eph|c i k E Eph|c Epc Eg|c i fifo Et Ea|c i k id fifo Epc Ea E Eid Ep|c i fifo Et|c Epc|c i k id out Epc Eo E Eid|c i k id out Epc Eo E Eid|c Epc|
    c id o i rest r Epc Ea Ep Er|c id o rest Epc Ea Ep|c Epc|c Epc|c Epc|c Epc Es|c Epc Es|c Epc Es|c Epc Es|c Epc|c Epc|c Epc|c Epc|c w1 m w2 Ew|c|c Es| | |c i Edi _| | |].
  all: try (exfalso; revert Hd; repeat case_match; destruct c; apply insert_non_empty).
  all: try (repeat case_match; destruct c; exact F).
  - intros id' j. specialize (F id' j). destruct c. cbn in *. rewrite lookup_insert_Some, !elem_of_app, elem_of_cons in *. intros [[<- <-]|[_ E']]; [auto|]. destruct (F E'); tauto.
  - intros id' j. specialize (F id' j). destruct c. cbn in *. rewrite lookup_insert_Some, !elem_of_app, !elem_of_cons in *. intros [[<- <-]|[_ E']]; [auto|]. destruct (F E'); tauto.
  - intros id' j. specialize (F id' j). destruct c. cbn in *. rewrite lookup_insert_Some, !elem_of_app, !elem_of_cons in *. intros [[<- <-]|[_ E']]; [auto|]. destruct (F E'); tauto.
  - intros id' j E'. assert (cl_pending c !! id' = Some j) as Ej by (destruct c; exact E'). pose proof (pending_id c i k id id' P E Eid) as U. specialize (F id' j Ej).
    destruct c. cbn in *. subst. rewrite !elem_of_app, !elem_of_cons in *. destruct F as [[->|F]|F]; [rewrite (U E'); tauto|tauto..].
  - intros id' j E'. assert (delete id (cl_pending c) !! id' = Some j) as [N Ej]%lookup_delete_Some by (destruct c; exact E'). pose proof (pending_id c i k id id' P E Eid) as U.
    specialize (F id' j Ej). destruct c. cbn in *. subst. rewrite !elem_of_app, !elem_of_cons in *. destruct F as [[->|F]|F]; [by destruct N; rewrite U|tauto..].
  - intros id' j E'. assert (delete id (cl_pending c) !! id' = Some j) as [N Ej]%lookup_delete_Some by (destruct c; exact E').
    specialize (F id' j Ej). destruct c. cbn in *. subst. rewrite !elem_of_app, !elem_of_cons in *. destruct F as [F|[F|[[= -> _]|F]]]; [tauto..|done|tauto].
  - intros id' j E'. assert (cl_pending c !! id' = Some j) as Ej by (destruct c; exact E').
    specialize (F id' j Ej). destruct c. cbn in *. subst. rewrite !elem_of_app, !elem_of_cons in *. destruct F as [F|[F|[[= -> _]|F]]]; [tauto..|congruence|tauto].
  - intros id' j. replace (cl_pending _) with (cl_pending (fail_lane c)) by (by destruct (fail_lane c)). by rewrite fail_lane_pending.
  - intros id' j. replace (cl_pending _) with (cl_pending (fail_lane c)) by (by destruct (fail_lane c)). by rewrite fail_lane_pending.
  - intros id' j E'. assert (cl_pending c !! id' = Some j) as Ej by (destruct c; exact E'). specialize (F id' j Ej). destruct c. cbn in *. subst.
    rewrite !elem_of_app, !elem_of_cons, !elem_of_nil in *. tauto.
Qed.
Lemma directs_step c c' : client_step c c' -> cl_directs c' = ∅ -> cl_directs c = ∅.
Proof.
  intros S Hd. destruct S; try (exfalso; revert Hd; repeat case_match; destruct c; apply insert_non_empty);
    try (unfold fail_lane in Hd; rewrite fold_finish in Hd); repeat case_match; destruct c; exact Hd.
Qed.
Lemma reachable_placed c : client_reachable c -> cl_directs c = ∅ -> placed_in c /\ followed c.
Proof.
  revert c. apply (rtc_ind_r (fun c => cl_directs c = ∅ -> placed_in c /\ followed c)).
  - intros _. split; [|intros id i; cbn; by rewrite lookup_empty]. split; cbn; try done; try (by intros i ?%not_elem_of_nil); try (by intros i k ?; rewrite lookup_empty); try constructor.
    all: intros *; rewrite ?lookup_empty; try done. by intros ?%not_elem_of_nil.
  - intros c c' _ S IH Hd. destruct (IH (directs_step c c' S Hd)) as [P F]. split; [by eapply placed_step|by eapply followed_step].
Qed.

(** C9: while no blocking caller uses the lane, a suspended call is resumed at most once, a
    reply it gets is the reply to its own request, and it is never lost: once [enqueue]
    has taken it, it has its result, or it is in the inbox or in the poller's hands, or it
    waits in [pending], its request in the queue of outgoing requests or on its way to the
    server and back. *)
Theorem client_calls_finish_once c i k : client_reachable c -> cl_directs c = ∅ -> cl_calls c !! i = Some k ->
  (length (ca_results k) <= 1)%nat /\ (forall o, r_reply o ∈ ca_results k -> o = from_call i) /\ (decided k = false -> ca_results k = []) /\
  (decided k = true -> ca_results k = [] -> (i ∈ cl_inbox c ++ taken (cl_pc c)) \/
    exists id, cl_pending c !! id = Some i /\ ((i ∈ cl_outbound c) \/ (id, from_call i) ∈ cl_wire c ++ cl_arrived c)).
Proof.
  intros R Hd E. destruct (reachable_placed c R Hd) as [P F]. split_and!; [by eapply (v_once _ _ _ _ _ _ P)|by intros o; eapply (v_own _ _ _ _ _ _ P)|by intros D; eapply (v_undecided _ _ _ _ _ _ P)|].
  intros D Er. destruct (v_waiting _ _ _ _ _ _ P i k E D Er) as [|(id & Ep)]; [by left|]. right. exists id. split; [done|]. by apply F.
Qed.

(** ** Runs *)

Lemma client_go c c' c2 : client_reachable c -> client_step c c' -> c' = c2 -> client_reachable c2.
Proof. intros R S <-. by eapply rtc_r. Qed.
Ltac go R step := eapply client_go in R; [|eapply step; first [reflexivity | by left | discriminate]|vm_compute; reflexivity].
Ltac go_on R step i := eapply client_go in R; [|eapply (step _ i); first [reflexivity | by left | discriminate]|vm_compute; reflexivity].
Ltac answer R before m := eapply client_go in R; [|eapply (z_answer _ before m); reflexivity|vm_compute; reflexivity].
(** A call sent on the owner of its lane. *)
Ltac send R i := go_on R x_call i; go_on R x_enter i; go_on R x_number i; go_on R x_own_submit i; go_on R x_leave i.
Lemma client_calls_finish_once_witness : exists c k, client_reachable c /\ cl_directs c = ∅ /\ cl_calls c !! 0%nat = Some k /\ ca_results k = [r_reply (from_call 0%nat)] /\
  (length (ca_results k) <= 1)%nat.
Proof.
  assert (client_reachable new_client) as R by apply rtc_refl. unfold new_client in R. send R 0%nat. answer R (@nil (Z * origin)) (1, from_call 0).
  go R l_poll. go R l_drained_inbox. go R l_submitted. go R l_receive.
  match type of R with client_reachable ?s => exists s, (mk_call ph_returned (Some 1) [r_reply (from_call 0%nat)]) end.
  destruct (client_calls_finish_once _ 0%nat (mk_call ph_returned (Some 1) [r_reply (from_call 0%nat)]) R eq_refl eq_refl) as (H & _).
  exact (conj R (conj eq_refl (conj eq_refl (conj eq_refl H)))).
Defined.

(** ** A drained lane *)

Lemma drained_step c c' i k : client_step c c' -> cl_pc c = y_drained -> cl_calls c !! i = Some k -> ca_phase k = ph_returned ->
  cl_pc c' = y_drained /\ cl_calls c' !! i = Some k.
Proof.
  intros S Epc Ei Eph.
  assert (forall j kj, cl_calls c !! j = Some kj -> ca_phase kj <> ph_returned -> i <> j) as Ne by (intros j kj Ej N <-; congruence).
  destruct S; try congruence; try (exfalso; congruence);
    try (match goal with H : taken (cl_pc _) = _ |- _ => by rewrite Epc in H end); try (by destruct_or?; congruence);
    try (repeat case_match; by destruct c).
  all: try (split; [by destruct c|]; destruct c; cbn in *; rewrite lookup_insert_ne; [done|]; first [congruence | apply not_eq_sym; eapply Ne; [eassumption|congruence]]).
Qed.
Lemma drained_run c c' i k : rtc client_step c c' -> cl_pc c = y_drained -> cl_calls c !! i = Some k -> ca_phase k = ph_returned -> cl_calls c' !! i = Some k.
Proof. induction 1 as [|c1 c2 c3 S _ IH]; intros Epc Ei Eph; [done|]. destruct (drained_step c1 c2 i k S Epc Ei Eph) as [E1 E2]. by apply IH. Qed.

(** C39: a lane can report itself drained with a call still in its inbox: [lane_empty] looks
    at the inbox before it looks at the submitters, and a call that has passed its second
    look at [accepting_] pushes itself and leaves in between.  That call is never
    resumed, whatever happens afterwards. *)
Theorem drained_strands_call : exists c, client_reachable c /\ cl_pc c = y_drained /\
  forall c', rtc client_step c c' -> exists k, cl_calls c' !! 0%nat = Some k /\ ca_phase k = ph_returned /\ ca_results k = [].
Proof.
  assert (client_reachable new_client) as R by apply rtc_refl. unfold new_client in R.
  go_on R x_call 0%nat. go_on R x_enter 0%nat. go_on R x_number 0%nat. go_on R x_recheck 0%nat. go R z_stop.
  go R l_poll. go R l_drained_inbox. go R l_submitted. go R l_received. go R l_stopping. go R l_stop_wait. go R l_maps. go R l_inbox.
  go_on R x_push 0%nat. go_on R x_leave 0%nat. go R l_submitters.
  match type of R with client_reachable ?s => exists s end. split; [exact R|]. split; [reflexivity|]. intros c' H.
  exists (mk_call ph_returned (Some 1) []). split; [|done]. eapply drained_run; [exact H|reflexivity..].
Qed.

(** C40: a blocking caller on a lane that suspended calls use takes the next completion as
    its own.  The two counters of request ids both start at 1, so that it can end with
    the reply to another call and that call with its reply; and a completion with another
    id is thrown away, the call it belongs to left waiting for nothing. *)
Theorem direct_call_takes_foreign_reply :
  (exists c k, client_reachable c /\ cl_directs c !! 0%nat = Some (d_done (r_reply (from_call 0%nat))) /\
    cl_calls c !! 0%nat = Some k /\ ca_results k = [r_reply (from_direct 0%nat)]) /\
  (exists c, client_reachable c /\ cl_directs c !! 0%nat = Some (d_done r_error) /\ cl_pending c !! 2 = Some 1%nat /\
    (1%nat ∉ cl_outbound c) /\ forall o, (2, o) ∉ cl_wire c ++ cl_arrived c).
Proof.
  assert (client_reachable new_client) as R by apply rtc_refl. unfold new_client in R. split.
  - send R 0%nat. go_on R w_call 0%nat. go_on R w_gate 0%nat. go_on R w_send 0%nat. answer R (@nil (Z * origin)) (1, from_call 0). answer R (@nil (Z * origin)) (1, from_direct 0).
    go_on R w_receive 0%nat. go R l_poll. go R l_drained_inbox. go R l_submitted. go R l_receive.
    match type of R with client_reachable ?s => exists s, (mk_call ph_returned (Some 1) [r_reply (from_direct 0%nat)]) end. exact (conj R (conj eq_refl (conj eq_refl eq_refl))).
  - send R 0%nat. send R 1%nat. go_on R w_call 0%nat. go_on R w_gate 0%nat. go_on R w_send 0%nat. answer R [(1, from_call 0)] (2, from_call 1). go_on R w_receive 0%nat.
    match type of R with client_reachable ?s => exists s end. split; [exact R|]. split; [reflexivity|]. split; [reflexivity|]. split; [apply not_elem_of_nil|].
    intros o Hm. cbn in Hm. rewrite !elem_of_cons, elem_of_nil in Hm. destruct Hm as [E|[E|E]]; [discriminate E..|done].
Qed.
